(* ===== verification/_CoqProject ===== *)
-Q . S2P
Prelude.v
Dynar.v
Tlv.v
TlvFacts.v
NodeList.v
Msg.v
MsgFacts.v
Msgio.v
SendBuffer.v
TimerList.v
TimerListFacts.v
TimerInterface.v
QnetdClient.v
QnetdCluster.v
AlgoFfsplit.v
AlgoFfsplitFacts.v
AlgoFfsplitProtocol.v
QnetdAlgoTimer.v
AlgoUtils.v
AlgoLms.v
AlgoLmsFacts.v
Algo2NodeLms.v
Algo2NodeLmsFacts.v
AlgoTest.v
QnetdAlgorithm.v
QnetdInstance.v
QnetdMsgReceived.v
QnetdClientNet.v
QnetdFrame.v
QnetdInstanceFacts.v
QnetdMsgFacts.v
QnetdDaemonFacts.v
QnetdTimerFacts.v
QnetdSafety.v
DynarStr.v
Lex.v
Heuristics.v
QdeviceInstance.v
QdeviceSend.v
QdeviceAlgorithm.v
QdeviceHeuristics.v
QdeviceMsgReceived.v
QdeviceSocket.v
QdeviceModelNet.v
QdeviceVotequorum.v
Utils.v
QdeviceCmap.v
QdeviceRun.v
QdeviceSim.v
QdeviceLogic.v
QdeviceFacts.v
QdeviceInvariant.v
QdeviceAlgorithmFacts.v
QdeviceHeuristicsFacts.v
QdeviceReceivedFacts.v
QdeviceConnectionFacts.v
QdeviceNotifyFacts.v
QdeviceCmdFacts.v
QdeviceCmapFacts.v
QdeviceSafety.v
PrPollArray.v
PrPollLoop.v
PrPollLoopFacts.v
ProcessList.v
ProcessListFacts.v
HeuristicsWorker.v
HeuristicsWorkerFacts.v
UnixSocket.v
LocalIpc.v
QnetdIpc.v
QdeviceIpc.v
LocalIpcFacts.v
QnetdIpcFacts.v
QdeviceIpcFacts.v
AdvancedSettings.v
QnetdSettings.v
QdeviceSettings.v
SettingsFacts.v
QdeviceStart.v
QdeviceStartFacts.v
