(* ===== verification/Prelude.v ===== *)
(** Verification of corosync-qdevice.

    corosync-qdevice adds a vote of a third machine to a cluster: the daemon qnetd runs
    there, the daemon qdevice runs on every node and talks to qnetd over TCP.  The nodes
    send their configuration and membership, and a decision algorithm of qnetd answers with
    votes (ACK: the partition of the node may be quorate; NACK: it may not).  On the node a
    child process of qdevice, the heuristics worker, runs the commands of the administrator and
    tells whether they pass; the results go to qnetd as well.  Each daemon is one poll loop
    with a list of timers, and has a local socket for its tool.  All sources are in
    src/qdevices.

    Files, in the order of their dependencies.

    Shared by the daemons:

    - [Prelude]: results with error codes, a state monad with errors ([M]), machine integers
      ([u8] .. [u64]), bytes in network order, and the C allocator: a [heap] lists the
      outcomes of the allocations still to come, so every failure of malloc is covered.
    - [Dynar]: dynar.c, the growing buffers messages are built and received in.
    - [Tlv], [TlvFacts]: tlv.c, the options on the wire.  [TlvFacts] has a reference encoding
      ([tlv_enc]), a reference parser ([parse_tlvs]) and the agreement of the iterator of the
      code with them.  A message in memory is a function from offsets to bytes, so a read
      behind its end is possible and has to be proved harmless.
    - [NodeList]: node-list.c.
    - [Msg], [MsgFacts]: msg.c, messages.  A pointer of the decoded structure may dangle.
    - [Msgio]: msgio.c, messages on a non-blocking socket; NSPR is a parameter.
    - [SendBuffer]: send-buffer-list.c, the queue of outgoing messages.
    - [TimerList], [TimerListFacts]: timer-list.c, the heap of timers in wrapping 32-bit times,
      and its refinement to a finite map of alarms at times without wrap-around;
      [TimerInterface]: what the clients of the timers rely on, as a class, and the timer
      list as its instance.
    - [DynarStr], [Lex]: dynar-str.c, dynar-simple-lex.c, dynar-getopt-lex.c, text in buffers
      and the splitting of lines into words, with reference lexers; [Utils]: utils.c, the
      parsers of numbers and booleans.
    - [PrPollArray], [PrPollLoop], [PrPollLoopFacts]: pr-poll-array.c, pr-poll-loop.c, a round
      of the poll loop.  The entries are a store, so that a callback may free one that the
      round still has to look at.
    - [UnixSocket], [LocalIpc], [LocalIpcFacts]: unix-socket*.c and what qnetd-ipc.c and
      qdevice-ipc.c have in common, the clients of the local socket on the poll loop.
    - [AdvancedSettings]: what the settings of both daemons and their option -S have in common
      (qnetd-advanced-settings.c, qdevice-advanced-settings.c, cli_parse_long_opt of
      corosync-qnetd.c and corosync-qdevice.c).

    qnetd:

    - [QnetdClient]: qnetd-client.c, qnetd-client-send.c, one connected client.
    - [QnetdCluster]: qnetd-cluster.c, qnetd-cluster-list.c, the clients of each cluster.
    - [AlgoFfsplit]: qnetd-algo-ffsplit.c, the fifty-fifty split algorithm;
      [AlgoFfsplitFacts]: its score, its selection, the agreement of a consistent view;
      [AlgoFfsplitProtocol]: an abstract protocol on the clients' states the handlers refine
      ([do_spec], [reply_spec]), the runs of the server as a step relation that counts the
      second INITs ([server_run]), and the invariants of the runs without one.
    - [QnetdAlgoTimer]: qnetd-client-algo-timer.c, the timer a decision algorithm may start
      for a client, on top of [TimerInterface]; the state the algorithms work on.
    - [AlgoUtils]: qnetd-algo-utils.c, the partitions of the connected clients; [AlgoLms],
      [AlgoLmsFacts]: qnetd-algo-lms.c, last man standing; [Algo2NodeLms],
      [Algo2NodeLmsFacts]: qnetd-algo-2nodelms.c; [AlgoTest]: qnetd-algo-test.c.
    - [QnetdAlgorithm]: qnetd-algorithm.c, the table of the algorithms; [QnetdInstance]:
      qnetd-instance.c, the daemon's state, its clients in the clusters and in the lobby (those
      without INIT); [QnetdMsgReceived]: qnetd-client-msg-received.c, the answer to every
      message; [QnetdClientNet]: qnetd-client-net.c, the callbacks of a connection.
    - [QnetdFrame], [QnetdInstanceFacts], [QnetdMsgFacts], [QnetdDaemonFacts],
      [QnetdTimerFacts], [QnetdSafety]: what each function leaves alone, the invariant
      [qnetd_ok] and its preservation by the algorithms, by INIT and the other messages, by
      the callbacks and the timers; the properties of the runs ([qnetd_run], a list of labelled
      events) in which no client sends INIT twice, and what a second INIT breaks.
    - [QnetdIpc], [QnetdIpcFacts]: qnetd-ipc.c, qnetd-ipc-cmd.c, the commands of the tool, and
      the main loop as far as it serves the local socket.
    - [QnetdSettings]: the settings of qnetd and its command line.

    qdevice:

    - [Heuristics]: the lists, commands and pipes of the heuristics (qdevice-heuristics*.c).
    - [QdeviceInstance]: qdevice-instance.h, qdevice-net-instance.c, the state; what is outside
      of the program - corosync, NSPR, the clock - is the class [Environment].
    - [QdeviceSend], [QdeviceAlgorithm], [QdeviceHeuristics], [QdeviceMsgReceived],
      [QdeviceSocket], [QdeviceModelNet]: qdevice-net-*.c, messages and the vote, the
      algorithms on the side of the device, the results of the heuristics, the answers of the
      server, the connection, the model net.
    - [QdeviceVotequorum], [QdeviceCmap]: the callbacks of corosync and the configuration.
    - [QdeviceRun]: the device as a state machine ([run_event], [reachable]); [QdeviceSim]: a
      simulated outside, and a run.
    - [QdeviceLogic]: weakest preconditions over the view of the state that matters;
      [QdeviceFacts], [QdeviceInvariant], [QdeviceAlgorithmFacts], [QdeviceHeuristicsFacts],
      [QdeviceReceivedFacts], [QdeviceConnectionFacts], [QdeviceNotifyFacts],
      [QdeviceCmdFacts], [QdeviceCmapFacts], [QdeviceSafety]: the invariant [ok], that every
      callback keeps it, and the properties of all runs.
    - [ProcessList], [ProcessListFacts]: process-list.c, child processes;
      [HeuristicsWorker], [HeuristicsWorkerFacts]: qdevice-heuristics-worker*.c, the worker.
    - [QdeviceIpc], [QdeviceIpcFacts]: qdevice-ipc.c, qdevice-ipc-cmd.c, qdevice-net-ipc-cmd.c.
    - [QdeviceSettings]: the settings and the command line; [SettingsFacts]: for both daemons.
    - [QdeviceStart], [QdeviceStartFacts]: main of corosync-qdevice.c up to the first ring id,
      with the configuration of the model net and the table of models; the settings are
      related to the values of the keys field by field ([configured]).

    What the theorems show.  The wire format: each option and each message decodes to what
    was encoded, decoding arbitrary bytes ends, depends on the message alone and accepts
    only messages the options fill exactly.  The transport: messages are reassembled from
    any chunks and sent exactly once and in order.  The bookkeeping: the lists of nodes,
    clients and clusters keep their invariants; as long as no client sends INIT twice the
    clients of a cluster agree on what they must agree on (a second INIT is refused, but its
    node id is kept), and a message a client may not send changes nothing but the mark that
    its certificate was verified and the queue of what is sent to it.  The queue of messages
    is bounded and first in, first out.  The decision: all clients that get an ACK agree on ring id and members, which
    are at least half of the cluster; no ACK is sent before every NACK was confirmed; nobody
    waits forever in a sending state for a client that is not asked.  With last man standing
    all clients that get the vote are in one partition, and a client told to wait has a
    running timer.  With its version for two nodes both get the vote only when the heuristics
    of one became better after the other was answered.  The device: with the fifty-fifty split algorithm it casts a positive vote
    only for a ring id the server granted it for, a vote for an old ring id is ignored, no
    event makes it fail an assertion, read an undefined pointer or divide by zero, when 0.9 of
    the interval of the votes is not 0 ms ([times_0_9]), and its start leads to such a run,
    with the settings the configuration says, or ends the process.  The timers: every callback runs when its time has come, once,
    in order, though callbacks stop, start and change timers.  The poll loop: a round calls
    what the flags ask for and follows no pointer that a callback has freed, for callbacks
    that free only what the stated rules allow; the callbacks of the local socket of qnetd
    keep these rules, and its main loop follows no freed pointer.  The worker: every command
    gets one result, directly after it; the loop that writes it ends when the device reads the
    pipe ([pipe_flows]).  The processes: the arguments of a command are what its words mean, and
    who does not end is sent SIGTERM and then SIGKILL.
    The settings: whatever the command line, they are in their bounds, and -S does what its
    text says.  Theorems about errors show where the code departs from its comments or ends
    the process.

    Fuel.  Loops over the options of a message run with [tlv_fuel], the length of the
    message, and the theorems show the loop never runs out of it ([OUT_OF_FUEL] is not a
    result of [msg_decode]); [msgio_read_until] and [msgio_write_until] take the number of
    calls as an argument, and as many calls as there are bytes are enough.  Moving an entry
    in the heap of timers is bounded by its position; expiration by the number of due timers.
    The lexers, the loop over the lines of a pipe and the loops over the words of a command
    have the length of the text that is left, and some, which each of their rounds shortens;
    the loop that doubles the buffer for a group's entry has the number of doublings up to its
    limit.  For all of these running out of fuel is a result of its own that the theorems
    exclude.  The loop that writes a result to the device tries [write_rounds] times; running
    out of them is the result [PIPE_BLOCKED], which only comes when the pipe does not flow.  [qnetd_run_main_loop] and the loop that waits for killed processes take the
    number of rounds as an argument and the theorems hold for each; the loop that waits for
    corosync has the bound of the code, [max_cs_try_again].

    Not modelled, and why.  Logging, and the pipe of the worker's log lines: they print.  The
    tools: they send a line to the local socket and print what comes back.  Most of main of
    qnetd, signal handlers, the lock file and detaching from the terminal, the listening
    sockets, certificates and TLS of NSS, and disconnecting at the end of the daemons: sequences
    of calls of the system and of libraries.  Waiting for the first result of the heuristics:
    it runs the poll loop, whose callbacks are the events of [QdeviceRun].  The events of the
    device leave out its local socket, whose commands are in [QdeviceIpc], and the log pipe;
    cmap is not an event while votequorum synchronises, since its callback returns at once
    then (qdevice_cmap_dispatch).  corosync's own
    libraries (cmap, votequorum), NSPR and the system calls are parameters. *)
From Stdlib Require Export ZArith Lia Strings.Byte.
From stdpp Require Export base tactics list numbers option.

#[global] Set Default Goal Selector "!".
Local Open Scope Z_scope.

(** ** Results and the state-with-error monad

    Every C function of the modelled part that can fail reports it by an integer
    return value; [Err c] carries that value.  A computation keeps its state when it
    fails, because a C function that returns [-1] leaves behind whatever it already
    wrote. *)

Inductive res (A : Type) : Type :=
| Ok (a : A)
| Err (code : Z).
Arguments Ok {A} _.
Arguments Err {A} _.

#[export] Instance res_eq_dec {A} `{EqDecision A} : EqDecision (res A).
Proof. solve_decision. Defined.

Definition M (S A : Type) : Type := S → res A * S.

#[export] Instance M_ret {S} : MRet (M S) := λ A a s, (Ok a, s).
#[export] Instance M_bind {S} : MBind (M S) := λ A B f m s,
  match m s with
  | (Ok a, s') => f a s'
  | (Err c, s') => (Err c, s')
  end.

(** Fail with a C return value, read the state, update the state. *)
Definition fail {S A} (c : Z) : M S A := λ s, (Err c, s).
Definition get {S} : M S S := λ s, (Ok s, s).
Definition modify {S} (f : S → S) : M S unit := λ s, (Ok tt, f s).

(** Results that are not values of the program.  The first four end the process: a NULL
    pointer is dereferenced, a call of [exit], a failed [assert], an access outside of an
    array; the last says that a model's loop had too little fuel. *)
Definition NULL_DEREF : Z := -1001.
Definition EXIT : Z := -1002.
Definition ASSERT : Z := -1003.
Definition OUT_OF_BOUNDS : Z := -1004.
Definition OUT_OF_FUEL : Z := -1000.

(** The C idiom [if (f(x) == -1) goto err;] with an error value of the caller. *)
Definition or_fail {S A} (c : Z) (m : M S A) : M S A := λ s,
  match m s with
  | (Ok a, s') => (Ok a, s')
  | (Err _, s') => (Err c, s')
  end.

Lemma bind_ok {S A B} (m : M S A) (f : A → M S B) s a s' :
  m s = (Ok a, s') → (m ≫= f) s = f a s'.
Proof. intros E. unfold mbind, M_bind. by rewrite E. Qed.

Lemma bind_err {S A B} (m : M S A) (f : A → M S B) s c s' :
  m s = (Err c, s') → (m ≫= f) s = (Err c, s').
Proof. intros E. unfold mbind, M_bind. by rewrite E. Qed.

Lemma bind_Ok {S A B} (m : M S A) (f : A → M S B) s b s' :
  (m ≫= f) s = (Ok b, s') → ∃ a s1, m s = (Ok a, s1) ∧ f a s1 = (Ok b, s').
Proof.
  unfold mbind, M_bind. destruct (m s) as [[a|e] s1]; [|done]. intros H. by exists a, s1.
Qed.

Lemma bind_assoc' {S A B C} (m : M S A) (f : M S B) (g : M S C) s :
  (m ;; f ;; g) s = ((m ;; f) ;; g) s.
Proof. unfold mbind, M_bind. by destruct (m s) as [[a|c] s']. Qed.

(** ** Machine integers

    Unsigned integers of the program are [Z] reduced modulo their width. *)

Definition u8 (z : Z) : Z := z mod 2 ^ 8.
Definition u16 (z : Z) : Z := z mod 2 ^ 16.
Definition u32 (z : Z) : Z := z mod 2 ^ 32.
Definition u64 (z : Z) : Z := z mod 2 ^ 64.

Lemma u8_small z : 0 ≤ z < 2 ^ 8 → u8 z = z.
Proof. apply Z.mod_small. Qed.
Lemma u16_small z : 0 ≤ z < 2 ^ 16 → u16 z = z.
Proof. apply Z.mod_small. Qed.
Lemma u32_small z : 0 ≤ z < 2 ^ 32 → u32 z = z.
Proof. apply Z.mod_small. Qed.
Lemma u64_small z : 0 ≤ z < 2 ^ 64 → u64 z = z.
Proof. apply Z.mod_small. Qed.
Lemma u16_range z : 0 ≤ u16 z < 2 ^ 16.
Proof. apply Z.mod_pos_bound. lia. Qed.
Lemma u32_range z : 0 ≤ u32 z < 2 ^ 32.
Proof. apply Z.mod_pos_bound. lia. Qed.
Lemma u64_range z : 0 ≤ u64 z < 2 ^ 64.
Proof. apply Z.mod_pos_bound. lia. Qed.

(** ** Bytes and network byte order *)

#[export] Instance byte_eq_dec : EqDecision byte := Byte.byte_eq_dec.

Definition b2z (b : byte) : Z := Z.of_N (Byte.to_N b).
Definition z2b (z : Z) : byte :=
  match Byte.of_N (Z.to_N (z mod 256)) with Some b => b | None => x00 end.

Lemma b2z_range b : 0 ≤ b2z b < 256.
Proof. unfold b2z. pose proof (Byte.to_N_bounded b). lia. Qed.

Lemma b2z_z2b z : b2z (z2b z) = z mod 256.
Proof.
  unfold b2z, z2b. pose proof (Z.mod_pos_bound z 256 ltac:(lia)).
  destruct (Byte.of_N _) as [b|] eqn:E.
  - apply Byte.to_of_N in E. rewrite E. lia.
  - apply Byte.of_N_None_iff in E. lia.
Qed.

Lemma z2b_b2z b : z2b (b2z b) = b.
Proof.
  unfold z2b. rewrite Z.mod_small by apply b2z_range.
  unfold b2z. rewrite N2Z.id. by rewrite Byte.of_to_N.
Qed.

(** [htons]/[htonl]/[htobe64] followed by [memcpy]: the [n] bytes of [z] in network
    byte order; and [memcpy] followed by [ntohs]/[ntohl]/[be64toh]. *)
Fixpoint put_be (n : nat) (z : Z) : list byte :=
  match n with
  | O => []
  | S n' => z2b (Z.shiftr z (8 * Z.of_nat n')) :: put_be n' z
  end.

Definition get_be (l : list byte) : Z := foldl (λ acc b, acc * 256 + b2z b) 0 l.

Lemma length_put_be n z : length (put_be n z) = n.
Proof. revert z. induction n; intros; simpl; auto. Qed.

Lemma get_be_acc l a :
  foldl (λ acc b, acc * 256 + b2z b) a l = a * 256 ^ Z.of_nat (length l) + get_be l.
Proof.
  unfold get_be. revert a. induction l as [|b l IH]; intros a.
  - simpl. lia.
  - cbn [foldl length]. rewrite IH, (IH (0 * 256 + b2z b)).
    rewrite Nat2Z.inj_succ, Z.pow_succ_r by lia. ring.
Qed.

Lemma get_be_cons b l : get_be (b :: l) = b2z b * 256 ^ Z.of_nat (length l) + get_be l.
Proof. unfold get_be at 1. cbn [foldl]. rewrite get_be_acc. lia. Qed.

Lemma get_be_range l : 0 ≤ get_be l < 256 ^ Z.of_nat (length l).
Proof.
  induction l as [|b l IH]; [cbn; lia|].
  rewrite get_be_cons. cbn [length]. rewrite Nat2Z.inj_succ, Z.pow_succ_r by lia.
  pose proof (b2z_range b). nia.
Qed.

Lemma get_put_be n z : get_be (put_be n z) = z mod 256 ^ Z.of_nat n.
Proof.
  revert z. induction n as [|n IH]; intros z.
  - cbn. by rewrite Z.mod_1_r.
  - cbn [put_be]. rewrite get_be_cons, length_put_be, IH, b2z_z2b.
    rewrite Nat2Z.inj_succ, Z.pow_succ_r by lia.
    rewrite Z.shiftr_div_pow2 by lia.
    replace (2 ^ (8 * Z.of_nat n)) with (256 ^ Z.of_nat n)
      by (rewrite Z.pow_mul_r by lia; reflexivity).
    rewrite (Z.mul_comm 256), Z.rem_mul_r by lia. lia.
Qed.

Lemma get_put_be_small n z : 0 ≤ z < 256 ^ Z.of_nat n → get_be (put_be n z) = z.
Proof. intros. by rewrite get_put_be, Z.mod_small. Qed.

Lemma put_be_mod n z : put_be n z = put_be n (z mod 256 ^ Z.of_nat n).
Proof.
  assert (H : ∀ k, (k ≤ n)%nat → put_be k z = put_be k (z mod 256 ^ Z.of_nat n)).
  { induction k as [|k IH]; intros Hk; [done|]. cbn [put_be]. rewrite IH by lia.
    f_equal. unfold z2b. do 3 f_equal.
    rewrite !Z.shiftr_div_pow2 by lia.
    replace (2 ^ (8 * Z.of_nat k)) with (256 ^ Z.of_nat k)
      by (rewrite Z.pow_mul_r by lia; reflexivity).
    replace (Z.of_nat n) with (Z.of_nat k + (1 + (Z.of_nat n - Z.of_nat k - 1))) by lia.
    rewrite !Z.pow_add_r, Z.pow_1_r by lia.
    rewrite Z.rem_mul_r by lia.
    rewrite (Z.mul_comm (256 ^ Z.of_nat k)), Z.div_add by lia.
    rewrite (Z.div_small (z mod _)) by (apply Z.mod_pos_bound; lia).
    rewrite Z.add_0_l, Z.rem_mul_r by lia.
    by rewrite Z.mul_comm, Z.mod_add, Z.mod_mod by lia. }
  by apply H.
Qed.

Lemma put_get_be l : put_be (length l) (get_be l) = l.
Proof.
  induction l as [|b l IH]; [done|]. cbn [length put_be]. f_equal.
  - rewrite Z.shiftr_div_pow2 by lia.
    replace (2 ^ (8 * Z.of_nat (length l))) with (256 ^ Z.of_nat (length l))
      by (rewrite Z.pow_mul_r by lia; reflexivity).
    rewrite get_be_cons. pose proof (get_be_range l).
    rewrite Z.div_add_l, Z.div_small by lia. rewrite Z.add_0_r. apply z2b_b2z.
  - rewrite put_be_mod, get_be_cons, Z.add_comm, Z.mod_add by lia.
    pose proof (get_be_range l). by rewrite Z.mod_small.
Qed.

(** ** The C allocator

    [malloc] and [realloc] may fail at any call.  A [heap] is the list of the outcomes
    of the calls still to come: [None] is a NULL result, [Some junk] a block whose
    fresh cells hold [junk]; past the end of the list every call succeeds. *)

Definition alloc_outcome : Type := option (nat → byte).
Abbreviation heap := (list alloc_outcome).

Definition malloc (h : heap) : alloc_outcome * heap :=
  match h with
  | [] => (Some (λ _, x00), [])
  | o :: h' => (o, h')
  end.

(** The block [realloc] returns: the old cells, then fresh ones. *)
Definition realloc_block (junk : nat → byte) (n : nat) (l : list byte) : list byte :=
  take n l ++ (junk <$> seq (length l) (n - length l)).

(** [memcpy]/[memmove] of [src] to offset [pos] of a block. *)
Definition block_write (l : list byte) (pos : nat) (src : list byte) : list byte :=
  take pos l ++ src ++ drop (pos + length src) l.

Lemma malloc_suffix h o h' : malloc h = (o, h') → h' `suffix_of` h.
Proof.
  destruct h as [|x h]; intros E; simplify_eq/=; [done|].
  by exists [o].
Qed.

Lemma malloc_None h h' : malloc h = (None, h') → None ∈ h.
Proof. destruct h; intros E; simplify_eq/=. left. Qed.

Lemma length_realloc_block junk n l : length (realloc_block junk n l) = n.
Proof. unfold realloc_block. rewrite length_app, length_take, length_fmap, length_seq. lia. Qed.

Lemma take_realloc_block junk n l k :
  (k ≤ n)%nat → (k ≤ length l)%nat → take k (realloc_block junk n l) = take k l.
Proof.
  intros. unfold realloc_block. rewrite take_app_le by (rewrite length_take; lia).
  rewrite take_take. f_equal. lia.
Qed.

Lemma length_block_write l pos src :
  (pos + length src ≤ length l)%nat → length (block_write l pos src) = length l.
Proof. intros. unfold block_write. rewrite !length_app, length_take, length_drop. lia. Qed.

Lemma take_block_write l pos src :
  (pos ≤ length l)%nat →
  take (pos + length src) (block_write l pos src) = take pos l ++ src.
Proof.
  intros. unfold block_write. rewrite app_assoc.
  rewrite take_app_length'; [done|]. rewrite length_app, length_take. lia.
Qed.

Lemma suffix_in {A} (x : A) (l1 l2 : list A) : l1 `suffix_of` l2 → x ∈ l1 → x ∈ l2.
Proof. intros [k ->] ?. apply elem_of_app. by right. Qed.

(** ** Lists *)

Lemma forallb_elem {A} (f : A → bool) l : forallb f l = true ↔ ∀ x, x ∈ l → f x = true.
Proof.
  rewrite forallb_forall. split; intros H x Hx; apply H; by apply list_elem_of_In.
Qed.

Lemma NoDup_fmap_inj {A B} (f : A → B) l x y :
  NoDup (f <$> l) → x ∈ l → y ∈ l → f x = f y → x = y.
Proof.
  intros Hd [i Hi]%list_elem_of_lookup [j Hj]%list_elem_of_lookup E.
  assert (i = j).
  { eapply NoDup_lookup; [exact Hd|..]; rewrite list_lookup_fmap, ?Hi, ?Hj; cbn; by rewrite ?E. }
  subst. congruence.
Qed.

Lemma fmap_filter {A B} (f : A → B) (P : A → Prop) (Q : B → Prop)
    `{∀ x, Decision (P x)} `{∀ x, Decision (Q x)} (l : list A) :
  (∀ x, x ∈ l → P x ↔ Q (f x)) → f <$> filter P l = filter Q (f <$> l).
Proof.
  induction l as [|x l IH]; intros HPQ; [done|]. rewrite fmap_cons, !filter_cons.
  rewrite <- IH by (intros y Hy; apply HPQ; by right).
  specialize (HPQ x ltac:(left)). do 2 case_decide; tauto || done.
Qed.

Lemma Forall_perm {A} (P : A → Prop) l1 l2 : l1 ≡ₚ l2 → Forall P l1 → Forall P l2.
Proof. rewrite !Forall_forall. intros E H x Hx. apply H. by rewrite E. Qed.

Lemma existsb_perm {A} (f : A → bool) l1 l2 : l1 ≡ₚ l2 → existsb f l1 = existsb f l2.
Proof.
  induction 1 as [|x l1 l2 _ IH|x y l|l1 l2 l3 _ IH1 _ IH2]; cbn; [done|by rewrite IH| |congruence].
  rewrite !orb_assoc. f_equal. apply orb_comm.
Qed.

Lemma existsb_fmap {A B} (f : B → bool) (g : A → B) l :
  existsb f (g <$> l) = existsb (λ x, f (g x)) l.
Proof. induction l as [|x l IH]; [done|]. cbn. by rewrite IH. Qed.

Lemma existsb_ext_in {A} (f g : A → bool) l :
  (∀ x, x ∈ l → f x = g x) → existsb f l = existsb g l.
Proof.
  induction l as [|x l IH]; intros H; [done|]. cbn. rewrite (H x) by left.
  by rewrite IH by (intros y Hy; apply H; by right).
Qed.

Lemma existsb_filter {A} (P : A → Prop) `{∀ x, Decision (P x)} (f : A → bool) (l : list A) :
  existsb f (filter P l) = existsb (λ x, bool_decide (P x) && f x) l.
Proof.
  induction l as [|x l IH]; [done|]. rewrite filter_cons. cbn [existsb].
  case_decide; [rewrite bool_decide_eq_true_2 by done|rewrite bool_decide_eq_false_2 by done];
    cbn [existsb]; by rewrite IH.
Qed.

Lemma existsb_intro {A} (f : A → bool) l x : x ∈ l → f x = true → existsb f l = true.
Proof. intros Hx Hf. apply existsb_exists. exists x. by rewrite <- list_elem_of_In. Qed.

Lemma filter_ext_in {A} (P Q : A → Prop) `{∀ x, Decision (P x), ∀ x, Decision (Q x)} (l : list A) :
  (∀ x, x ∈ l → P x ↔ Q x) → filter P l = filter Q l.
Proof.
  induction l as [|x l IH]; intros Hpq; [done|]. rewrite !filter_cons, IH.
  - repeat case_decide; try done; exfalso; specialize (Hpq x ltac:(left)); tauto.
  - intros y Hy. apply Hpq. by right.
Qed.

(** Changing the elements that have a key, in a way that keeps the key, changes nothing of the
    others. *)
Lemma filter_update {A K} `{EqDecision K} (key : A → K) (k : K) (f : A → A) (l : list A) :
  (∀ x, key x = k → key (f x) = k) →
  filter (λ x, key x ≠ k) ((λ x, if bool_decide (key x = k) then f x else x) <$> l) =
  filter (λ x, key x ≠ k) l.
Proof.
  intros Hf. induction l as [|x l IH]; [done|]. rewrite fmap_cons, !filter_cons.
  case_bool_decide as Hx.
  - rewrite !decide_False; [exact IH|by intros []|]. intros Hn. by apply Hn, Hf.
  - rewrite !decide_True by done. by rewrite IH.
Qed.

(** ** Automation shared by the components *)

(** Split every conjunction of the goal and close the easy parts. *)
Ltac split_done := split_and?; try done; try lia.

(** Case analysis on the scrutinee of the first [if]/[match] of the goal, with the
    boolean tests turned into propositions. *)
Ltac zbool :=
  repeat match goal with
  | H : (_ <? _) = true |- _ => apply Z.ltb_lt in H
  | H : (_ <? _) = false |- _ => apply Z.ltb_ge in H
  | H : (_ <=? _) = true |- _ => apply Z.leb_le in H
  | H : (_ <=? _) = false |- _ => apply Z.leb_gt in H
  | H : (_ =? _) = true |- _ => apply Z.eqb_eq in H
  | H : (_ =? _) = false |- _ => apply Z.eqb_neq in H
  | H : andb _ _ = true |- _ => apply andb_prop in H; destruct H
  | H : orb _ _ = false |- _ => apply orb_false_elim in H; destruct H
  | H : negb _ = true |- _ => apply negb_true_iff in H
  | H : negb _ = false |- _ => apply negb_false_iff in H
  end.

Ltac case_if :=
  match goal with
  | |- context [if ?b then _ else _] =>
      let H := fresh "Hif" in destruct b eqn:H; zbool
  end.

(** The database of the rewriting rules every component uses. *)
Create HintDb qnet.
Create Rewrite HintDb qnet.
#[export] Hint Rewrite @length_app @length_take @length_drop @length_fmap
  @length_replicate length_put_be length_realloc_block : qnet.
#[export] Hint Resolve suffix_in malloc_None malloc_suffix : qnet.
