(* ===== verification/Dynar.v ===== *)
(** Dynamic byte arrays (dynar.c, dynar.h).

    Every message buffer of both daemons is a [dynar].  [data] is the whole allocated
    block, so that a write outside of it would change its length; [contents] is the
    part the program has stored.  The file shows that growing never writes outside the
    block, that a full or failing append leaves the stored prefix in place, and gives
    the relation [appends] the message encoders are specified with. *)
From S2P Require Import Prelude.
Local Open Scope Z_scope.

Record dynar : Type := mk_dynar {
  data : list byte;
  size : Z;
  allocated : Z;
  maximum_size : Z
}.

Definition dynar_init (max : Z) : dynar :=
  {| data := []; size := 0; allocated := 0; maximum_size := max |}.

Definition dynar_set_max_size (max : Z) (array : dynar) : dynar :=
  {| data := data array; size := size array;
     allocated := allocated array; maximum_size := max |}.

Definition set_size (sz : Z) (array : dynar) : dynar :=
  {| data := data array; size := sz;
     allocated := allocated array; maximum_size := maximum_size array |}.

Definition set_data (l : list byte) (array : dynar) : dynar :=
  {| data := l; size := size array;
     allocated := allocated array; maximum_size := maximum_size array |}.

Definition dynar_destroy (array : dynar) : dynar := dynar_init (maximum_size array).

Definition dynar_clean (array : dynar) : dynar := set_size 0 array.

Definition dynar_realloc (new_array_size : Z) : M (dynar * heap) unit := λ '(array, h),
  if maximum_size array <? new_array_size then (Err (-1), (array, h))
  else match malloc h with
       | (None, h') => (Err (-1), (array, h'))
       | (Some junk, h') =>
           (Ok tt, ({| data := realloc_block junk (Z.to_nat new_array_size) (data array);
                       size := size array;
                       allocated := new_array_size;
                       maximum_size := maximum_size array |}, h'))
       end.

Definition dynar_prealloc (sz : Z) : M (dynar * heap) unit := λ '(array, h),
  if maximum_size array <? u64 (size array + sz) then (Err (-1), (array, h))
  else if allocated array <? u64 (size array + sz) then
    let new_size := u64 ((allocated array + sz) * 2) in
    let new_size := if maximum_size array <? new_size then maximum_size array
                    else new_size in
    dynar_realloc new_size (array, h)
  else (Ok tt, (array, h)).

Definition dynar_set_size (sz : Z) : M (dynar * heap) unit := λ '(array, h),
  let array := if maximum_size array <? sz then dynar_set_max_size sz array else array in
  if size array <? sz then
    match dynar_prealloc (sz - size array) (array, h) with
    | (Err _, s) => (Err (-1), s)
    | (Ok _, (array, h)) => (Ok tt, (set_size sz array, h))
    end
  else (Ok tt, (set_size sz array, h)).

Definition dynar_cat (src : list byte) : M (dynar * heap) unit :=
  or_fail (-1) (dynar_prealloc (Z.of_nat (length src)));;
  modify (λ '(array, h),
    (set_size (size array + Z.of_nat (length src))
       (set_data (block_write (data array) (Z.to_nat (size array)) src) array), h)).

Definition dynar_prepend (src : list byte) : M (dynar * heap) unit :=
  or_fail (-1) (dynar_prealloc (Z.of_nat (length src)));;
  modify (λ '(array, h),
    let moved := block_write (data array) (length src)
                   (take (Z.to_nat (size array)) (data array)) in
    (set_size (size array + Z.of_nat (length src))
       (set_data (block_write moved 0 src) array), h)).

(** The bytes the program has stored. *)
Definition contents (array : dynar) : list byte := take (Z.to_nat (size array)) (data array).

(** A well-formed array: the fields describe the block, and sizes stay below 2^62, far
    from the wrap-around of [size_t] ([dynar_prealloc] doubles a sum of two sizes). *)
Record wf (array : dynar) : Prop := {
  wf_size : 0 ≤ size array ≤ allocated array;
  wf_data : Z.of_nat (length (data array)) = allocated array;
  wf_allocated : allocated array < 2 ^ 62;
  wf_maximum : 0 ≤ maximum_size array < 2 ^ 62
}.

Lemma length_contents d : wf d → Z.of_nat (length (contents d)) = size d.
Proof. intros [? ? ? ?]. unfold contents. rewrite length_take. lia. Qed.

Lemma wf_init max : 0 ≤ max < 2 ^ 62 → wf (dynar_init max).
Proof. intros. constructor; simpl; lia. Qed.

Lemma wf_clean d : wf d → wf (dynar_clean d).
Proof. intros [? ? ? ?]. constructor; simpl; lia. Qed.

Lemma wf_set_max max d : 0 ≤ max < 2 ^ 62 → wf d → wf (dynar_set_max_size max d).
Proof. intros ? [? ? ? ?]. constructor; simpl; lia. Qed.

Lemma contents_clean d : contents (dynar_clean d) = [].
Proof. done. Qed.

#[export] Hint Resolve wf_init wf_clean : qnet.

(** What every growing operation guarantees of the array and the allocator. *)
Record grown (d : dynar) (h : heap) (d' : dynar) (h' : heap) : Prop := {
  grown_wf : wf d';
  grown_max : maximum_size d' = maximum_size d;
  grown_size : size d' = size d;
  grown_contents : contents d' = contents d;
  grown_heap : h' `suffix_of` h
}.

Lemma grown_refl d h : wf d → grown d h d h.
Proof. by constructor. Qed.

Lemma dynar_prealloc_spec sz d h :
  wf d → 0 ≤ sz < 2 ^ 63 →
  match dynar_prealloc sz (d, h) with
  | (Ok _, (d', h')) => grown d h d' h' ∧ size d + sz ≤ allocated d' ∧ size d + sz ≤ maximum_size d
  | (Err c, (d', h')) => c = -1 ∧ grown d h d' h' ∧ (maximum_size d < size d + sz ∨ None ∈ h)
  end.
Proof.
  intros Hwf Hsz. pose proof Hwf as [Hs Hd Ha Hm].
  unfold dynar_prealloc. rewrite (u64_small (size d + sz)) by lia.
  case_if; [split_done; by apply grown_refl|].
  case_if; [|split_done; by apply grown_refl].
  rewrite u64_small by lia.
  set (n := if maximum_size d <? (allocated d + sz) * 2 then _ else _).
  assert (Hn : size d + sz ≤ n ≤ maximum_size d ∧ allocated d ≤ n ∨ maximum_size d < allocated d).
  { subst n. case_if; lia. }
  assert (Hn' : size d + sz ≤ n ≤ maximum_size d) by (subst n; case_if; lia).
  unfold dynar_realloc. replace (maximum_size d <? n) with false by (symmetry; apply Z.ltb_ge; lia).
  destruct (malloc h) as [[junk|] h'] eqn:E.
  - split_and?; simpl; [|lia..]. constructor; simpl; try done.
    + constructor; simpl; rewrite ?length_realloc_block; lia.
    + unfold contents; simpl. apply take_realloc_block; lia.
    + eauto with qnet.
  - split_done; [constructor|right]; eauto with qnet.
Qed.

(** ** Specifying what a computation appends *)

(** [appends m bs]: on success the array holds what it held and then [bs], within its
    maximum; on failure (-1) what was stored is still there, and either [bs] did not fit
    or the allocator failed. *)
Definition appends (m : M (dynar * heap) unit) (bs : list byte) : Prop :=
  ∀ d h, wf d →
    match m (d, h) with
    | (Ok _, (d', h')) =>
        wf d' ∧ contents d' = contents d ++ bs ∧ maximum_size d' = maximum_size d ∧
        h' `suffix_of` h ∧ (bs = [] ∨ size d + Z.of_nat (length bs) ≤ maximum_size d)
    | (Err c, (d', h')) =>
        c = -1 ∧ wf d' ∧ contents d `prefix_of` contents d' ∧
        maximum_size d' = maximum_size d ∧ h' `suffix_of` h ∧
        (maximum_size d < size d + Z.of_nat (length bs) ∨ None ∈ h)
    end.

Lemma dynar_cat_appends src : Z.of_nat (length src) < 2 ^ 63 → appends (dynar_cat src) src.
Proof.
  intros Hlen d h Hwf. unfold dynar_cat, or_fail, modify, mbind, M_bind.
  pose proof (dynar_prealloc_spec (Z.of_nat (length src)) d h Hwf ltac:(lia)) as Hp.
  destruct (dynar_prealloc _ _) as [[[]|c] [d' h']].
  - destruct Hp as ([Hwf' Hmax Hsz Hc Hh] & Hfit & Hm). pose proof Hwf' as [? ? ? ?].
    split_done.
    + constructor; simpl; rewrite ?length_block_write; lia.
    + rewrite <- Hc. unfold contents; simpl. rewrite Z2Nat.inj_add, Nat2Z.id by lia.
      by rewrite take_block_write by lia.
  - destruct Hp as (-> & [? ? ? Hc ?] & ?). split_done. by rewrite Hc.
Qed.

Lemma appends_bind m1 m2 b1 b2 :
  appends m1 b1 → appends m2 b2 → appends (m1;; m2) (b1 ++ b2).
Proof.
  intros H1 H2 d h Hwf. unfold mbind, M_bind. specialize (H1 d h Hwf).
  destruct (m1 (d, h)) as [[u|c] [d1 h1]].
  - destruct H1 as (Hwf1 & Hc1 & Hm1 & Hh1 & Hf1). specialize (H2 d1 h1 Hwf1).
    assert (Hs1 : size d1 = size d + Z.of_nat (length b1)).
    { rewrite <- (length_contents d1), <- (length_contents d) by done.
      rewrite Hc1, length_app. lia. }
    destruct (m2 (d1, h1)) as [[u2|c2] [d2 h2]].
    + destruct H2 as (? & Hc2 & ? & ? & Hf2).
      split_done; [by rewrite Hc2, Hc1, app_assoc|by etrans|].
      rewrite length_app. destruct Hf2 as [->|?]; [|right; lia].
      destruct Hf1 as [->|?]; [by left|right; simpl; lia].
    + destruct H2 as (-> & ? & Hp & ? & ? & Hor).
      split_done; [|by etrans|].
      * etrans; [|done]. rewrite Hc1. by apply prefix_app_r.
      * rewrite length_app. destruct Hor as [Hor|Hor]; [left; lia|right; eauto with qnet].
  - destruct H1 as (-> & ? & ? & ? & ? & Hor). split_done.
    rewrite length_app. destruct Hor; [left; lia|by right].
Qed.

Lemma appends_ret : appends (mret tt) [].
Proof. intros d h Hwf. cbn. split_done; [by rewrite app_nil_r|by left]. Qed.

Lemma appends_or_fail m bs : appends m bs → appends (or_fail (-1) m) bs.
Proof.
  intros H d h Hwf. specialize (H d h Hwf). unfold or_fail.
  destruct (m (d, h)) as [[u|c] [d1 h1]]; [done|]. by destruct H as (-> & H).
Qed.

(** A computation guarded by a C condition. *)
Lemma appends_when (b : bool) m bs :
  appends m bs → appends (if b then m else mret tt) (if b then bs else []).
Proof. destruct b; [done|]. intros _. apply appends_ret. Qed.

Lemma appends_ext m bs bs' : bs = bs' → appends m bs → appends m bs'.
Proof. by intros ->. Qed.

Create HintDb appends.
#[export] Hint Resolve appends_bind appends_ret appends_or_fail appends_when : appends.

(** With an allocator that never fails, an append that fits succeeds. *)
Lemma appends_total m bs d :
  appends m bs → wf d → size d + Z.of_nat (length bs) ≤ maximum_size d →
  ∃ d', m (d, []) = (Ok tt, (d', [])) ∧ wf d' ∧ contents d' = contents d ++ bs ∧
        maximum_size d' = maximum_size d.
Proof.
  intros H Hwf Hfit. specialize (H d [] Hwf).
  destruct (m (d, [])) as [[[]|c] [d1 h1]].
  - destruct H as (? & ? & ? & [k Hk] & ?). destruct k, h1; simplify_eq/=. eauto 6.
  - destruct H as (_ & _ & _ & _ & _ & [?|Hin]); [lia|inversion Hin].
Qed.

(** ** Properties *)

(** C40: [dynar_cat], the only way a byte enters a message buffer, appends exactly its
    argument or fails with -1 and leaves the buffer as it was; it fails only when the
    data does not fit below [maximum_size] or the allocator returned NULL, and no write
    leaves the allocated block ([wf] pins the block's length to [allocated]). *)
Theorem dynar_cat_correct src d h :
  wf d → Z.of_nat (length src) < 2 ^ 63 →
  match dynar_cat src (d, h) with
  | (Ok _, (d', _)) =>
      wf d' ∧ contents d' = contents d ++ src ∧ size d' ≤ maximum_size d' ∧
      maximum_size d' = maximum_size d
  | (Err c, (d', _)) =>
      c = -1 ∧ wf d' ∧ contents d' = contents d ∧ maximum_size d' = maximum_size d ∧
      (maximum_size d < size d + Z.of_nat (length src) ∨ None ∈ h)
  end.
Proof.
  intros Hwf Hlen. unfold dynar_cat, or_fail, modify, mbind, M_bind.
  pose proof (dynar_cat_appends src Hlen d h Hwf) as Happ.
  pose proof (dynar_prealloc_spec (Z.of_nat (length src)) d h Hwf ltac:(lia)) as Hp.
  unfold dynar_cat, or_fail, modify, mbind, M_bind in Happ.
  destruct (dynar_prealloc _ _) as [[[]|c] [d' h']].
  - destruct Hp as ([Hwf' Hmax Hsz Hc Hh] & Hfit & Hm).
    destruct Happ as (? & ? & ? & ? & _). split_done. simpl. lia.
  - destruct Hp as (-> & [? ? ? Hc ?] & ?). split_done.
Qed.

Lemma dynar_cat_correct_witness :
  let d' := fst (snd (dynar_cat [x61; x62] (dynar_init 4, []))) in
  wf d' ∧ contents d' = [x61; x62] ∧ allocated d' = 4.
Proof.
  assert (Hwf : wf (dynar_init 4)) by (apply wf_init; lia).
  split; [|split; reflexivity].
  exact (proj1 (dynar_cat_correct [x61; x62] (dynar_init 4) [] Hwf ltac:(simpl; lia))).
Defined.

(** [dynar_prepend] puts its argument in front of what was stored: the two
    overlapping moves it makes neither lose nor repeat a byte. *)
Theorem dynar_prepend_correct src d h :
  wf d → Z.of_nat (length src) < 2 ^ 63 →
  match dynar_prepend src (d, h) with
  | (Ok _, (d', _)) => wf d' ∧ contents d' = src ++ contents d ∧ size d' ≤ maximum_size d'
  | (Err c, (d', _)) => c = -1 ∧ wf d' ∧ contents d' = contents d
  end.
Proof.
  intros Hwf Hlen. unfold dynar_prepend, or_fail, modify, mbind, M_bind.
  pose proof (dynar_prealloc_spec (Z.of_nat (length src)) d h Hwf ltac:(lia)) as Hp.
  destruct (dynar_prealloc _ _) as [[[]|c] [d' h']].
  - destruct Hp as ([Hwf' Hmax Hsz Hc Hh] & Hfit & Hm). pose proof Hwf' as [? ? ? ?].
    assert (Hl : length (take (Z.to_nat (size d')) (data d')) = Z.to_nat (size d'))
      by (rewrite length_take; lia).
    set (moved := block_write (data d') (length src) _).
    assert (Hmv : length moved = length (data d'))
      by (subst moved; rewrite length_block_write; lia).
    split_done.
    + constructor; simpl; rewrite ?length_block_write; lia.
    + unfold contents at 1; simpl. unfold block_write at 1. rewrite take_0. simpl.
      replace (Z.to_nat (size d' + Z.of_nat (length src)))
        with (length src + Z.to_nat (size d'))%nat by lia.
      rewrite take_app_add. f_equal. rewrite <- Hc. unfold contents. subst moved.
      unfold block_write. rewrite drop_app_length' by (rewrite length_take; lia).
      rewrite take_app_length' by done. done.
    + simpl. lia.
  - destruct Hp as (-> & [? ? ? Hc ?] & ?). split_done.
Qed.

Lemma dynar_prepend_correct_witness :
  let d := mk_dynar [x62; x63; x00; x00] 2 4 8 in
  let d' := fst (snd (dynar_prepend [x61] (d, []))) in
  contents d = [x62; x63] ∧ wf d' ∧ contents d' = [x61; x62; x63].
Proof.
  assert (Hwf : wf (mk_dynar [x62; x63; x00; x00] 2 4 8)) by (constructor; simpl; lia).
  split; [reflexivity|]. split; [|reflexivity].
  exact (proj1 (dynar_prepend_correct [x61] _ [] Hwf ltac:(simpl; lia))).
Defined.
