(* ===== verification/Tlv.v ===== *)
(** Type-length-value options (tlv.c, tlv.h): the data the protocol carries, the
    encoders, the iterator over a received buffer and the decoders.

    A C enumeration whose values the program validates before it stores them is an
    inductive type; one that holds whatever came from the wire or from [memset] (option
    types, message types, error codes, decision algorithms, the tie-breaker mode) is a
    [Z] with named constants, because the code handles values outside of the
    enumeration. *)
From stdpp Require Import strings.
From S2P Require Import Prelude Dynar.
Local Open Scope Z_scope.

Definition TLV_TYPE_LENGTH : Z := 2.
Definition TLV_LENGTH_LENGTH : Z := 2.

Definition TLV_OPT_MSG_SEQ_NUMBER : Z := 0.
Definition TLV_OPT_CLUSTER_NAME : Z := 1.
Definition TLV_OPT_TLS_SUPPORTED : Z := 2.
Definition TLV_OPT_TLS_CLIENT_CERT_REQUIRED : Z := 3.
Definition TLV_OPT_SUPPORTED_MESSAGES : Z := 4.
Definition TLV_OPT_SUPPORTED_OPTIONS : Z := 5.
Definition TLV_OPT_REPLY_ERROR_CODE : Z := 6.
Definition TLV_OPT_SERVER_MAXIMUM_REQUEST_SIZE : Z := 7.
Definition TLV_OPT_SERVER_MAXIMUM_REPLY_SIZE : Z := 8.
Definition TLV_OPT_NODE_ID : Z := 9.
Definition TLV_OPT_SUPPORTED_DECISION_ALGORITHMS : Z := 10.
Definition TLV_OPT_DECISION_ALGORITHM : Z := 11.
Definition TLV_OPT_HEARTBEAT_INTERVAL : Z := 12.
Definition TLV_OPT_RING_ID : Z := 13.
Definition TLV_OPT_CONFIG_VERSION : Z := 14.
Definition TLV_OPT_DATA_CENTER_ID : Z := 15.
Definition TLV_OPT_NODE_STATE : Z := 16.
Definition TLV_OPT_NODE_INFO : Z := 17.
Definition TLV_OPT_NODE_LIST_TYPE : Z := 18.
Definition TLV_OPT_VOTE : Z := 19.
Definition TLV_OPT_QUORATE : Z := 20.
Definition TLV_OPT_TIE_BREAKER : Z := 21.
Definition TLV_OPT_HEURISTICS : Z := 22.
Definition TLV_OPT_KEEP_ACTIVE_PARTITION_TIE_BREAKER : Z := 23.

Definition tlv_static_supported_options : list Z :=
  [TLV_OPT_MSG_SEQ_NUMBER; TLV_OPT_CLUSTER_NAME; TLV_OPT_TLS_SUPPORTED;
   TLV_OPT_TLS_CLIENT_CERT_REQUIRED; TLV_OPT_SUPPORTED_MESSAGES; TLV_OPT_SUPPORTED_OPTIONS;
   TLV_OPT_REPLY_ERROR_CODE; TLV_OPT_SERVER_MAXIMUM_REQUEST_SIZE;
   TLV_OPT_SERVER_MAXIMUM_REPLY_SIZE; TLV_OPT_NODE_ID;
   TLV_OPT_SUPPORTED_DECISION_ALGORITHMS; TLV_OPT_DECISION_ALGORITHM;
   TLV_OPT_HEARTBEAT_INTERVAL; TLV_OPT_RING_ID; TLV_OPT_CONFIG_VERSION;
   TLV_OPT_DATA_CENTER_ID; TLV_OPT_NODE_STATE; TLV_OPT_NODE_INFO; TLV_OPT_NODE_LIST_TYPE;
   TLV_OPT_VOTE; TLV_OPT_QUORATE; TLV_OPT_TIE_BREAKER; TLV_OPT_HEURISTICS;
   TLV_OPT_KEEP_ACTIVE_PARTITION_TIE_BREAKER].

Inductive tlv_tls_supported := TLV_TLS_UNSUPPORTED | TLV_TLS_SUPPORTED | TLV_TLS_REQUIRED.

Definition TLV_REPLY_ERROR_CODE_NO_ERROR : Z := 0.
Definition TLV_REPLY_ERROR_CODE_UNSUPPORTED_NEEDED_MESSAGE : Z := 1.
Definition TLV_REPLY_ERROR_CODE_UNSUPPORTED_NEEDED_OPTION : Z := 2.
Definition TLV_REPLY_ERROR_CODE_TLS_REQUIRED : Z := 3.
Definition TLV_REPLY_ERROR_CODE_UNSUPPORTED_MESSAGE : Z := 4.
Definition TLV_REPLY_ERROR_CODE_MESSAGE_TOO_LONG : Z := 5.
Definition TLV_REPLY_ERROR_CODE_PREINIT_REQUIRED : Z := 6.
Definition TLV_REPLY_ERROR_CODE_DOESNT_CONTAIN_REQUIRED_OPTION : Z := 7.
Definition TLV_REPLY_ERROR_CODE_UNEXPECTED_MESSAGE : Z := 8.
Definition TLV_REPLY_ERROR_CODE_ERROR_DECODING_MSG : Z := 9.
Definition TLV_REPLY_ERROR_CODE_INTERNAL_ERROR : Z := 10.
Definition TLV_REPLY_ERROR_CODE_INIT_REQUIRED : Z := 11.
Definition TLV_REPLY_ERROR_CODE_UNSUPPORTED_DECISION_ALGORITHM : Z := 12.
Definition TLV_REPLY_ERROR_CODE_INVALID_HEARTBEAT_INTERVAL : Z := 13.
Definition TLV_REPLY_ERROR_CODE_UNSUPPORTED_DECISION_ALGORITHM_MESSAGE : Z := 14.
Definition TLV_REPLY_ERROR_CODE_TIE_BREAKER_DIFFERS_FROM_OTHER_NODES : Z := 15.
Definition TLV_REPLY_ERROR_CODE_ALGORITHM_DIFFERS_FROM_OTHER_NODES : Z := 16.
Definition TLV_REPLY_ERROR_CODE_DUPLICATE_NODE_ID : Z := 17.
Definition TLV_REPLY_ERROR_CODE_INVALID_CONFIG_NODE_LIST : Z := 18.
Definition TLV_REPLY_ERROR_CODE_INVALID_MEMBERSHIP_NODE_LIST : Z := 19.

Definition TLV_DECISION_ALGORITHM_TYPE_TEST : Z := 0.
Definition TLV_DECISION_ALGORITHM_TYPE_FFSPLIT : Z := 1.
Definition TLV_DECISION_ALGORITHM_TYPE_2NODELMS : Z := 2.
Definition TLV_DECISION_ALGORITHM_TYPE_LMS : Z := 3.

Record tlv_ring_id := mk_ring_id { rid_node_id : Z; rid_seq : Z }.

Inductive tlv_node_state :=
  TLV_NODE_STATE_NOT_SET | TLV_NODE_STATE_MEMBER | TLV_NODE_STATE_DEAD | TLV_NODE_STATE_LEAVING.

Inductive tlv_node_list_type :=
  TLV_NODE_LIST_TYPE_INITIAL_CONFIG | TLV_NODE_LIST_TYPE_CHANGED_CONFIG
| TLV_NODE_LIST_TYPE_MEMBERSHIP | TLV_NODE_LIST_TYPE_QUORUM.

Inductive tlv_vote :=
  TLV_VOTE_UNDEFINED | TLV_VOTE_ACK | TLV_VOTE_NACK | TLV_VOTE_ASK_LATER
| TLV_VOTE_WAIT_FOR_REPLY | TLV_VOTE_NO_CHANGE.

Inductive tlv_quorate := TLV_QUORATE_INQUORATE | TLV_QUORATE_QUORATE.

Definition TLV_TIE_BREAKER_MODE_LOWEST : Z := 1.
Definition TLV_TIE_BREAKER_MODE_HIGHEST : Z := 2.
Definition TLV_TIE_BREAKER_MODE_NODE_ID : Z := 3.

Record tlv_tie_breaker := mk_tie_breaker { tb_mode : Z; tb_node_id : Z }.

Record tlv_node_info := mk_node_info {
  ni_node_id : Z;
  ni_data_center_id : Z;
  ni_node_state : tlv_node_state
}.

Inductive tlv_heuristics := TLV_HEURISTICS_UNDEFINED | TLV_HEURISTICS_PASS | TLV_HEURISTICS_FAIL.

Inductive tlv_keep_active_partition_tie_breaker :=
  TLV_KEEP_ACTIVE_PARTITION_TIE_BREAKER_DISABLED
| TLV_KEEP_ACTIVE_PARTITION_TIE_BREAKER_ENABLED.

#[export] Instance tlv_tls_supported_eq_dec : EqDecision tlv_tls_supported.
Proof. solve_decision. Defined.
#[export] Instance tlv_ring_id_eq_dec : EqDecision tlv_ring_id.
Proof. solve_decision. Defined.
#[export] Instance tlv_node_state_eq_dec : EqDecision tlv_node_state.
Proof. solve_decision. Defined.
#[export] Instance tlv_node_list_type_eq_dec : EqDecision tlv_node_list_type.
Proof. solve_decision. Defined.
#[export] Instance tlv_vote_eq_dec : EqDecision tlv_vote.
Proof. solve_decision. Defined.
#[export] Instance tlv_quorate_eq_dec : EqDecision tlv_quorate.
Proof. solve_decision. Defined.
#[export] Instance tlv_tie_breaker_eq_dec : EqDecision tlv_tie_breaker.
Proof. solve_decision. Defined.
#[export] Instance tlv_node_info_eq_dec : EqDecision tlv_node_info.
Proof. solve_decision. Defined.
#[export] Instance tlv_heuristics_eq_dec : EqDecision tlv_heuristics.
Proof. solve_decision. Defined.
#[export] Instance tlv_kap_eq_dec : EqDecision tlv_keep_active_partition_tie_breaker.
Proof. solve_decision. Defined.

(** The values of the validated enumerations on the wire. *)
Definition tls_supported_to_z (v : tlv_tls_supported) : Z :=
  match v with TLV_TLS_UNSUPPORTED => 0 | TLV_TLS_SUPPORTED => 1 | TLV_TLS_REQUIRED => 2 end.
Definition node_state_to_z (v : tlv_node_state) : Z :=
  match v with
  | TLV_NODE_STATE_NOT_SET => 0 | TLV_NODE_STATE_MEMBER => 1
  | TLV_NODE_STATE_DEAD => 2 | TLV_NODE_STATE_LEAVING => 3
  end.
Definition node_list_type_to_z (v : tlv_node_list_type) : Z :=
  match v with
  | TLV_NODE_LIST_TYPE_INITIAL_CONFIG => 0 | TLV_NODE_LIST_TYPE_CHANGED_CONFIG => 1
  | TLV_NODE_LIST_TYPE_MEMBERSHIP => 2 | TLV_NODE_LIST_TYPE_QUORUM => 3
  end.
Definition vote_to_z (v : tlv_vote) : Z :=
  match v with
  | TLV_VOTE_UNDEFINED => 0 | TLV_VOTE_ACK => 1 | TLV_VOTE_NACK => 2
  | TLV_VOTE_ASK_LATER => 3 | TLV_VOTE_WAIT_FOR_REPLY => 4 | TLV_VOTE_NO_CHANGE => 5
  end.
Definition quorate_to_z (v : tlv_quorate) : Z :=
  match v with TLV_QUORATE_INQUORATE => 0 | TLV_QUORATE_QUORATE => 1 end.
Definition heuristics_to_z (v : tlv_heuristics) : Z :=
  match v with
  | TLV_HEURISTICS_UNDEFINED => 0 | TLV_HEURISTICS_PASS => 1 | TLV_HEURISTICS_FAIL => 2
  end.
Definition kap_to_z (v : tlv_keep_active_partition_tie_breaker) : Z :=
  match v with
  | TLV_KEEP_ACTIVE_PARTITION_TIE_BREAKER_DISABLED => 0
  | TLV_KEEP_ACTIVE_PARTITION_TIE_BREAKER_ENABLED => 1
  end.

(** ** Encoders *)

Definition tlv_add (opt_type opt_len : Z) (value : list byte) : M (dynar * heap) unit := λ '(msg, h),
  if maximum_size msg <? u64 (size msg + 2 + 2 + opt_len) then (Err (-1), (msg, h))
  else
    (or_fail (-1) (dynar_cat (put_be 2 (u16 opt_type)));;
     or_fail (-1) (dynar_cat (put_be 2 opt_len));;
     or_fail (-1) (dynar_cat (take (Z.to_nat opt_len) value))) (msg, h).

Definition tlv_add_u32 (opt_type u32 : Z) : M (dynar * heap) unit :=
  tlv_add opt_type 4 (put_be 4 u32).

Definition tlv_add_u8 (opt_type u8 : Z) : M (dynar * heap) unit :=
  tlv_add opt_type 1 (put_be 1 u8).

Definition tlv_add_u16 (opt_type u16 : Z) : M (dynar * heap) unit :=
  tlv_add opt_type 2 (put_be 2 u16).

Definition tlv_add_u64 (opt_type u64 : Z) : M (dynar * heap) unit :=
  tlv_add opt_type 8 (put_be 8 u64).

Definition tlv_add_string (opt_type : Z) (str : list byte) : M (dynar * heap) unit :=
  tlv_add opt_type (u16 (Z.of_nat (length str))) str.

Definition tlv_add_msg_seq_number (msg_seq_number : Z) : M (dynar * heap) unit :=
  tlv_add_u32 TLV_OPT_MSG_SEQ_NUMBER msg_seq_number.

Definition tlv_add_cluster_name (cluster_name : list byte) : M (dynar * heap) unit :=
  tlv_add_string TLV_OPT_CLUSTER_NAME cluster_name.

Definition tlv_add_tls_supported (tls_supported : tlv_tls_supported) : M (dynar * heap) unit :=
  tlv_add_u8 TLV_OPT_TLS_SUPPORTED (tls_supported_to_z tls_supported).

Definition tlv_add_tls_client_cert_required (tls_client_cert_required : Z) : M (dynar * heap) unit :=
  tlv_add_u8 TLV_OPT_TLS_CLIENT_CERT_REQUIRED (u8 tls_client_cert_required).

(** [p = malloc(...); if (p == NULL) return (-1);] *)
Definition malloc_or_fail {St : Type} : M (St * heap) unit := λ '(s, h),
  match malloc h with
  | (None, h') => (Err (-1), (s, h'))
  | (Some _, h') => (Ok tt, (s, h'))
  end.

Definition tlv_add_u16_array (opt_type : Z) (array : list Z) : M (dynar * heap) unit :=
  malloc_or_fail;;
  tlv_add opt_type (u16 (2 * Z.of_nat (length array))) (array ≫= put_be 2).

Definition tlv_add_supported_options (supported_options : list Z) : M (dynar * heap) unit :=
  malloc_or_fail;;
  tlv_add_u16_array TLV_OPT_SUPPORTED_OPTIONS (u16 <$> supported_options).

Definition tlv_add_supported_decision_algorithms (supported_algorithms : list Z) :
    M (dynar * heap) unit :=
  malloc_or_fail;;
  tlv_add_u16_array TLV_OPT_SUPPORTED_DECISION_ALGORITHMS (u16 <$> supported_algorithms).

Definition tlv_add_reply_error_code (error_code : Z) : M (dynar * heap) unit :=
  tlv_add_u16 TLV_OPT_REPLY_ERROR_CODE (u16 error_code).

Definition tlv_add_server_maximum_request_size (sz : Z) : M (dynar * heap) unit :=
  tlv_add_u32 TLV_OPT_SERVER_MAXIMUM_REQUEST_SIZE (u32 sz).

Definition tlv_add_server_maximum_reply_size (sz : Z) : M (dynar * heap) unit :=
  tlv_add_u32 TLV_OPT_SERVER_MAXIMUM_REPLY_SIZE (u32 sz).

Definition tlv_add_node_id (node_id : Z) : M (dynar * heap) unit :=
  tlv_add_u32 TLV_OPT_NODE_ID node_id.

Definition tlv_add_decision_algorithm (decision_algorithm : Z) : M (dynar * heap) unit :=
  tlv_add_u16 TLV_OPT_DECISION_ALGORITHM (u16 decision_algorithm).

Definition tlv_add_heartbeat_interval (heartbeat_interval : Z) : M (dynar * heap) unit :=
  tlv_add_u32 TLV_OPT_HEARTBEAT_INTERVAL heartbeat_interval.

Definition tlv_add_ring_id (ring_id : tlv_ring_id) : M (dynar * heap) unit :=
  let tmp_buf := put_be 4 (rid_node_id ring_id) ++ put_be 8 (rid_seq ring_id) in
  tlv_add TLV_OPT_RING_ID 12 tmp_buf.

Definition tlv_add_tie_breaker (tie_breaker : tlv_tie_breaker) : M (dynar * heap) unit :=
  let node_id := if tb_mode tie_breaker =? TLV_TIE_BREAKER_MODE_NODE_ID
                 then tb_node_id tie_breaker else 0 in
  let tmp_buf := put_be 1 (tb_mode tie_breaker) ++ put_be 4 node_id in
  tlv_add TLV_OPT_TIE_BREAKER 5 tmp_buf.

Definition tlv_add_config_version (config_version : Z) : M (dynar * heap) unit :=
  tlv_add_u64 TLV_OPT_CONFIG_VERSION config_version.

Definition tlv_add_data_center_id (data_center_id : Z) : M (dynar * heap) unit :=
  tlv_add_u32 TLV_OPT_DATA_CENTER_ID data_center_id.

Definition tlv_add_node_state (node_state : tlv_node_state) : M (dynar * heap) unit :=
  tlv_add_u8 TLV_OPT_NODE_STATE (node_state_to_z node_state).

(** The options of one node, first built in an array of their own. *)
Definition tlv_add_node_info (node_info : tlv_node_info) : M (dynar * heap) unit := λ '(msg, h),
  match (tlv_add_node_id (ni_node_id node_info);;
         (if negb (ni_data_center_id node_info =? 0)
          then tlv_add_data_center_id (ni_data_center_id node_info) else mret tt);;
         (if bool_decide (ni_node_state node_info ≠ TLV_NODE_STATE_NOT_SET)
          then tlv_add_node_state (ni_node_state node_info) else mret tt))
          (dynar_init 1024, h) with
  | (Err c, (_, h')) => (Err c, (msg, h'))
  | (Ok _, (opt_value, h')) =>
      tlv_add TLV_OPT_NODE_INFO (u16 (size opt_value)) (data opt_value) (msg, h')
  end.

Definition tlv_add_node_list_type (node_list_type : tlv_node_list_type) : M (dynar * heap) unit :=
  tlv_add_u8 TLV_OPT_NODE_LIST_TYPE (node_list_type_to_z node_list_type).

Definition tlv_add_vote (vote : tlv_vote) : M (dynar * heap) unit :=
  tlv_add_u8 TLV_OPT_VOTE (vote_to_z vote).

Definition tlv_add_quorate (quorate : tlv_quorate) : M (dynar * heap) unit :=
  tlv_add_u8 TLV_OPT_QUORATE (quorate_to_z quorate).

Definition tlv_add_heuristics (heuristics : tlv_heuristics) : M (dynar * heap) unit :=
  if bool_decide (heuristics = TLV_HEURISTICS_UNDEFINED) then fail (-1)
  else tlv_add_u8 TLV_OPT_HEURISTICS (heuristics_to_z heuristics).

Definition tlv_add_keep_active_partition_tie_breaker
    (enabled : tlv_keep_active_partition_tie_breaker) : M (dynar * heap) unit :=
  tlv_add_u8 TLV_OPT_KEEP_ACTIVE_PARTITION_TIE_BREAKER (kap_to_z enabled).

(** ** The iterator over the options of a message

    [it_msg] is the memory the iterator's pointer sees.  It is total, because
    [tlv_iter_next] reads the length field of an option before it knows that the option
    lies inside of the message; the theorems show that no result depends on it. *)

Definition mem : Type := Z → byte.

Definition mem_read (m : mem) (pos : Z) (n : Z) : list byte :=
  (λ i, m (pos + Z.of_nat i)) <$> seq 0 (Z.to_nat n).

(** The memory behind [dynar_data]: the block, then bytes of someone else. *)
Definition dynar_mem (beyond : mem) (d : dynar) : mem := λ p,
  match data d !! Z.to_nat p with Some b => b | None => beyond p end.

Record tlv_iterator := mk_tlv_iterator {
  it_msg : mem;
  it_msg_len : Z;
  it_current_pos : Z;
  it_msg_header_len : Z;
  it_iter_next_called : bool
}.

Definition tlv_iter_init_str (msg : mem) (msg_len msg_header_len : Z) : tlv_iterator :=
  {| it_msg := msg; it_msg_len := msg_len; it_current_pos := 0;
     it_msg_header_len := msg_header_len; it_iter_next_called := false |}.

Definition tlv_iter_init (beyond : mem) (msg : dynar) (msg_header_len : Z) : tlv_iterator :=
  tlv_iter_init_str (dynar_mem beyond msg) (size msg) msg_header_len.

Definition tlv_iter_get_type (it : tlv_iterator) : Z :=
  get_be (mem_read (it_msg it) (it_current_pos it) 2).

Definition tlv_iter_get_len (it : tlv_iterator) : Z :=
  get_be (mem_read (it_msg it) (it_current_pos it + TLV_TYPE_LENGTH) 2).

(** The pointer to the value, as the memory it sees. *)
Definition tlv_iter_get_data (it : tlv_iterator) : mem := λ p,
  it_msg it (it_current_pos it + TLV_TYPE_LENGTH + TLV_LENGTH_LENGTH + p).

Definition it_set_pos (pos : Z) (it : tlv_iterator) : tlv_iterator :=
  {| it_msg := it_msg it; it_msg_len := it_msg_len it; it_current_pos := pos;
     it_msg_header_len := it_msg_header_len it; it_iter_next_called := true |}.

(** The check both calls end with: the option must not be larger than the message. *)
Definition tlv_iter_check (it : tlv_iterator) : Z * tlv_iterator :=
  let len := tlv_iter_get_len it in
  if it_msg_len it <? u64 (it_current_pos it + TLV_TYPE_LENGTH + TLV_LENGTH_LENGTH + len)
  then (-1, it) else (1, it).

Definition tlv_iter_next (it : tlv_iterator) : Z * tlv_iterator :=
  if negb (it_iter_next_called it) then
    tlv_iter_check (it_set_pos (it_msg_header_len it) it)
  else
    let len := tlv_iter_get_len it in
    let next := u64 (it_current_pos it + TLV_TYPE_LENGTH + TLV_LENGTH_LENGTH + len) in
    if it_msg_len it <=? next then (0, it)
    else tlv_iter_check (it_set_pos next it).

(** [while ((iter_res = tlv_iter_next(&tlv_iter)) > 0) { body }]: [Ok iter_res] when the
    loop ends by itself, the body's error when it returns from inside.  The fuel is
    always enough ([tlv_loop_parse]); [OUT_OF_FUEL] is not a value of the program. *)

Fixpoint tlv_loop {St} (body : tlv_iterator → M St unit) (fuel : nat) (it : tlv_iterator) :
    M St Z :=
  match fuel with
  | O => fail OUT_OF_FUEL
  | S fuel' =>
      let '(iter_res, it') := tlv_iter_next it in
      if 0 <? iter_res then body it';; tlv_loop body fuel' it'
      else mret iter_res
  end.

Definition tlv_fuel (it : tlv_iterator) : nat := S (Z.to_nat (it_msg_len it)).

(** ** Decoders of one option *)

Definition tlv_iter_decode_u32 (it : tlv_iterator) : res Z :=
  let opt_len := tlv_iter_get_len it in
  let opt_data := tlv_iter_get_data it in
  if negb (opt_len =? 4) then Err (-1) else Ok (get_be (mem_read opt_data 0 4)).

Definition tlv_iter_decode_u8 (it : tlv_iterator) : res Z :=
  let opt_len := tlv_iter_get_len it in
  let opt_data := tlv_iter_get_data it in
  if negb (opt_len =? 1) then Err (-1) else Ok (get_be (mem_read opt_data 0 1)).

Definition tlv_iter_decode_client_cert_required (it : tlv_iterator) : res Z :=
  tlv_iter_decode_u8 it.

(** The string and its length [*str_len]; C also stores a terminating zero. *)
Definition tlv_iter_decode_str (it : tlv_iterator) : M heap (list byte) := λ h,
  let opt_len := tlv_iter_get_len it in
  let opt_data := tlv_iter_get_data it in
  match malloc h with
  | (None, h') => (Err (-1), h')
  | (Some _, h') => (Ok (mem_read opt_data 0 opt_len), h')
  end.

(** The state holds the out-parameter [*no_items], which is written before the
    allocation that can fail. *)
Definition tlv_iter_decode_u16_array (it : tlv_iterator) : M (Z * heap) (list Z) :=
  let opt_len := tlv_iter_get_len it in
  if negb (opt_len mod 2 =? 0) then fail (-1)
  else
    let no_items := opt_len / 2 in
    modify (λ '(_, h), (no_items, h));;
    or_fail (-2) malloc_or_fail;;
    mret ((λ i, get_be (mem_read (tlv_iter_get_data it) (2 * Z.of_nat i) 2))
            <$> seq 0 (Z.to_nat no_items)).

Definition tlv_iter_decode_supported_options (it : tlv_iterator) : M (Z * heap) (list Z) :=
  u16a ← tlv_iter_decode_u16_array it;
  or_fail (-2) malloc_or_fail;;
  mret u16a.

Definition tlv_iter_decode_supported_decision_algorithms (it : tlv_iterator) :
    M (Z * heap) (list Z) :=
  u16a ← tlv_iter_decode_u16_array it;
  or_fail (-2) malloc_or_fail;;
  mret u16a.

Definition tlv_iter_decode_u16 (it : tlv_iterator) : res Z :=
  let opt_len := tlv_iter_get_len it in
  let opt_data := tlv_iter_get_data it in
  if negb (opt_len =? 2) then Err (-1) else Ok (get_be (mem_read opt_data 0 2)).

Definition tlv_iter_decode_u64 (it : tlv_iterator) : res Z :=
  let opt_len := tlv_iter_get_len it in
  let opt_data := tlv_iter_get_data it in
  if negb (opt_len =? 8) then Err (-1) else Ok (get_be (mem_read opt_data 0 8)).

(** The enumeration is four bytes and the decoder writes two of them, through a cast
    pointer: on a little-endian host the low half of the [old] value. *)
Definition tlv_iter_decode_reply_error_code (it : tlv_iterator) (old : Z) : res Z :=
  match tlv_iter_decode_u16 it with
  | Ok v => Ok (old - u16 old + v)
  | Err c => Err c
  end.

(** [if (tlv_iter_decode_u8(...) != 0) return (-1);] and then the check of the value. *)
Definition decode_enum8 {A} (of_z : Z → option A) (it : tlv_iterator) : res A :=
  match tlv_iter_decode_u8 it with
  | Err _ => Err (-1)
  | Ok u8 => match of_z u8 with None => Err (-4) | Some v => Ok v end
  end.

Definition tls_supported_of_z (z : Z) : option tlv_tls_supported :=
  if z =? 0 then Some TLV_TLS_UNSUPPORTED else if z =? 1 then Some TLV_TLS_SUPPORTED
  else if z =? 2 then Some TLV_TLS_REQUIRED else None.
Definition node_state_of_z (z : Z) : option tlv_node_state :=
  if z =? 1 then Some TLV_NODE_STATE_MEMBER else if z =? 2 then Some TLV_NODE_STATE_DEAD
  else if z =? 3 then Some TLV_NODE_STATE_LEAVING else None.
Definition node_list_type_of_z (z : Z) : option tlv_node_list_type :=
  if z =? 0 then Some TLV_NODE_LIST_TYPE_INITIAL_CONFIG
  else if z =? 1 then Some TLV_NODE_LIST_TYPE_CHANGED_CONFIG
  else if z =? 2 then Some TLV_NODE_LIST_TYPE_MEMBERSHIP
  else if z =? 3 then Some TLV_NODE_LIST_TYPE_QUORUM else None.
Definition vote_of_z (z : Z) : option tlv_vote :=
  if z =? 1 then Some TLV_VOTE_ACK else if z =? 2 then Some TLV_VOTE_NACK
  else if z =? 3 then Some TLV_VOTE_ASK_LATER else if z =? 4 then Some TLV_VOTE_WAIT_FOR_REPLY
  else if z =? 5 then Some TLV_VOTE_NO_CHANGE else None.
Definition quorate_of_z (z : Z) : option tlv_quorate :=
  if z =? 1 then Some TLV_QUORATE_QUORATE else if z =? 0 then Some TLV_QUORATE_INQUORATE
  else None.
Definition heuristics_of_z (z : Z) : option tlv_heuristics :=
  if z =? 1 then Some TLV_HEURISTICS_PASS else if z =? 2 then Some TLV_HEURISTICS_FAIL
  else None.
Definition kap_of_z (z : Z) : option tlv_keep_active_partition_tie_breaker :=
  if z =? 0 then Some TLV_KEEP_ACTIVE_PARTITION_TIE_BREAKER_DISABLED
  else if z =? 1 then Some TLV_KEEP_ACTIVE_PARTITION_TIE_BREAKER_ENABLED else None.

Definition tlv_iter_decode_tls_supported (it : tlv_iterator) : res tlv_tls_supported :=
  decode_enum8 tls_supported_of_z it.

Definition tlv_iter_decode_decision_algorithm (it : tlv_iterator) : res Z :=
  match tlv_iter_decode_u16 it with Err _ => Err (-1) | Ok u16 => Ok u16 end.

Definition tlv_iter_decode_ring_id (it : tlv_iterator) : res tlv_ring_id :=
  let opt_len := tlv_iter_get_len it in
  let opt_data := tlv_iter_get_data it in
  if negb (opt_len =? 12) then Err (-1)
  else Ok {| rid_node_id := get_be (mem_read opt_data 0 4);
             rid_seq := get_be (mem_read opt_data 4 8) |}.

Definition tlv_iter_decode_tie_breaker (it : tlv_iterator) : res tlv_tie_breaker :=
  let opt_len := tlv_iter_get_len it in
  let opt_data := tlv_iter_get_data it in
  if negb (opt_len =? 5) then Err (-1)
  else
    let mode := get_be (mem_read opt_data 0 1) in
    if negb (mode =? TLV_TIE_BREAKER_MODE_LOWEST) && negb (mode =? TLV_TIE_BREAKER_MODE_HIGHEST)
       && negb (mode =? TLV_TIE_BREAKER_MODE_NODE_ID)
    then Err (-4)
    else Ok {| tb_mode := mode;
               tb_node_id := if mode =? TLV_TIE_BREAKER_MODE_NODE_ID
                             then get_be (mem_read opt_data 1 4) else 0 |}.

Definition tlv_iter_decode_node_state (it : tlv_iterator) : res tlv_node_state :=
  decode_enum8 node_state_of_z it.

(** [if ((res = decode(&iter, &field)) != 0) return (res);], storing on success. *)
Definition store {St A} (r : res A) (set : A → St → St) : M St unit := λ s,
  match r with Ok a => (Ok tt, set a s) | Err c => (Err c, s) end.

Definition set_ni_node_id (v : Z) (n : tlv_node_info) : tlv_node_info :=
  mk_node_info v (ni_data_center_id n) (ni_node_state n).
Definition set_ni_data_center_id (v : Z) (n : tlv_node_info) : tlv_node_info :=
  mk_node_info (ni_node_id n) v (ni_node_state n).
Definition set_ni_node_state (v : tlv_node_state) (n : tlv_node_info) : tlv_node_info :=
  mk_node_info (ni_node_id n) (ni_data_center_id n) v.

Definition node_info_zero : tlv_node_info := mk_node_info 0 0 TLV_NODE_STATE_NOT_SET.

Definition node_info_body (it : tlv_iterator) : M tlv_node_info unit :=
  let opt_type := tlv_iter_get_type it in
  if opt_type =? TLV_OPT_NODE_ID then store (tlv_iter_decode_u32 it) set_ni_node_id
  else if opt_type =? TLV_OPT_DATA_CENTER_ID then
    store (tlv_iter_decode_u32 it) set_ni_data_center_id
  else if opt_type =? TLV_OPT_NODE_STATE then
    store (tlv_iter_decode_node_state it) set_ni_node_state
  else mret tt.

Definition tlv_iter_decode_node_info (it : tlv_iterator) : res tlv_node_info :=
  let data_tlv_iter := tlv_iter_init_str (tlv_iter_get_data it) (tlv_iter_get_len it) 0 in
  match tlv_loop node_info_body (tlv_fuel data_tlv_iter) data_tlv_iter node_info_zero with
  | (Err res, _) => Err res
  | (Ok iter_res, tmp_node_info) =>
      if negb (iter_res =? 0) then Err (-3)
      else if ni_node_id tmp_node_info =? 0 then Err (-4)
      else Ok tmp_node_info
  end.

Definition tlv_iter_decode_node_list_type (it : tlv_iterator) : res tlv_node_list_type :=
  decode_enum8 node_list_type_of_z it.

Definition tlv_iter_decode_vote (it : tlv_iterator) : res tlv_vote :=
  decode_enum8 vote_of_z it.

Definition tlv_iter_decode_quorate (it : tlv_iterator) : res tlv_quorate :=
  decode_enum8 quorate_of_z it.

Definition tlv_iter_decode_heuristics (it : tlv_iterator) : res tlv_heuristics :=
  decode_enum8 heuristics_of_z it.

Definition tlv_iter_decode_keep_active_partition_tie_breaker (it : tlv_iterator) :
    res tlv_keep_active_partition_tie_breaker :=
  decode_enum8 kap_of_z it.

(** ** Comparisons and names *)

Definition tlv_get_supported_options : list Z := tlv_static_supported_options.

Definition tlv_ring_id_eq (rid1 rid2 : tlv_ring_id) : bool :=
  (rid_node_id rid1 =? rid_node_id rid2) && (rid_seq rid1 =? rid_seq rid2).

Definition tlv_tie_breaker_eq (tb1 tb2 : tlv_tie_breaker) : bool :=
  if (tb_mode tb1 =? tb_mode tb2) && (tb_mode tb1 =? TLV_TIE_BREAKER_MODE_NODE_ID)
  then tb_node_id tb1 =? tb_node_id tb2
  else tb_mode tb1 =? tb_mode tb2.

Definition tlv_vote_to_str (vote : tlv_vote) : string :=
  match vote with
  | TLV_VOTE_UNDEFINED => "Unknown vote value"
  | TLV_VOTE_ACK => "ACK"
  | TLV_VOTE_NACK => "NACK"
  | TLV_VOTE_ASK_LATER => "Ask later"
  | TLV_VOTE_WAIT_FOR_REPLY => "Wait for reply"
  | TLV_VOTE_NO_CHANGE => "No change"
  end.

Definition tlv_node_state_to_str (state : tlv_node_state) : string :=
  match state with
  | TLV_NODE_STATE_NOT_SET => "not set"
  | TLV_NODE_STATE_MEMBER => "member"
  | TLV_NODE_STATE_DEAD => "dead"
  | TLV_NODE_STATE_LEAVING => "leaving"
  end.

Definition tlv_tls_supported_to_str (tls_supported : tlv_tls_supported) : string :=
  match tls_supported with
  | TLV_TLS_UNSUPPORTED => "Unsupported"
  | TLV_TLS_SUPPORTED => "Supported"
  | TLV_TLS_REQUIRED => "Required"
  end.

Definition tlv_decision_algorithm_type_to_str (algorithm : Z) : string :=
  if algorithm =? TLV_DECISION_ALGORITHM_TYPE_TEST then "Test"
  else if algorithm =? TLV_DECISION_ALGORITHM_TYPE_FFSPLIT then "Fifty-Fifty split"
  else if algorithm =? TLV_DECISION_ALGORITHM_TYPE_2NODELMS then "2 Node LMS"
  else if algorithm =? TLV_DECISION_ALGORITHM_TYPE_LMS then "LMS"
  else "Unknown algorithm".

Definition tlv_heuristics_to_str (heuristics : tlv_heuristics) : string :=
  match heuristics with
  | TLV_HEURISTICS_UNDEFINED => "Undefined"
  | TLV_HEURISTICS_PASS => "Pass"
  | TLV_HEURISTICS_FAIL => "Fail"
  end.

Definition tlv_heuristics_cmp (h1 h2 : tlv_heuristics) : Z :=
  match h1, h2 with
  | TLV_HEURISTICS_UNDEFINED, TLV_HEURISTICS_UNDEFINED => 0
  | TLV_HEURISTICS_UNDEFINED, TLV_HEURISTICS_PASS => -1
  | TLV_HEURISTICS_UNDEFINED, TLV_HEURISTICS_FAIL => 1
  | TLV_HEURISTICS_PASS, TLV_HEURISTICS_UNDEFINED => 1
  | TLV_HEURISTICS_PASS, TLV_HEURISTICS_PASS => 0
  | TLV_HEURISTICS_PASS, TLV_HEURISTICS_FAIL => 1
  | TLV_HEURISTICS_FAIL, TLV_HEURISTICS_UNDEFINED => -1
  | TLV_HEURISTICS_FAIL, TLV_HEURISTICS_PASS => -1
  | TLV_HEURISTICS_FAIL, TLV_HEURISTICS_FAIL => 0
  end.

Definition tlv_keep_active_partition_tie_breaker_to_str
    (kap_tb : tlv_keep_active_partition_tie_breaker) : string :=
  match kap_tb with
  | TLV_KEEP_ACTIVE_PARTITION_TIE_BREAKER_DISABLED => "Disabled"
  | TLV_KEEP_ACTIVE_PARTITION_TIE_BREAKER_ENABLED => "Enabled"
  end.

(** ** Comparing ring ids *)

Lemma tlv_ring_id_eq_spec r1 r2 : tlv_ring_id_eq r1 r2 = true ↔ r1 = r2.
Proof.
  destruct r1, r2. unfold tlv_ring_id_eq. cbn. rewrite andb_true_iff, !Z.eqb_eq.
  split; [by intros [-> ->]|by intros [= -> ->]].
Qed.
