(* ===== verification/TlvFacts.v ===== *)
(** Theory of the TLV options (tlv.c): what each encoder appends, an executable grammar
    of the options of a message ([parse_tlvs]), the proof that the iterator loop of the
    program runs its body over exactly the options of that grammar, and the round trip
    of every option. *)
From S2P Require Import Prelude Dynar Tlv.
Local Open Scope Z_scope.

(** ** What the encoders append *)

Definition tlv_enc (t : Z) (v : list byte) : list byte :=
  put_be 2 t ++ put_be 2 (Z.of_nat (length v)) ++ v.

Definition u16s_enc (l : list Z) : list byte := l ≫= put_be 2.

Lemma length_tlv_enc t v : length (tlv_enc t v) = (4 + length v)%nat.
Proof. unfold tlv_enc. autorewrite with qnet. lia. Qed.

Lemma length_u16s_enc l : length (u16s_enc l) = (2 * length l)%nat.
Proof.
  induction l as [|x l IH]; [done|].
  change (u16s_enc (x :: l)) with (put_be 2 x ++ u16s_enc l).
  rewrite length_app, IH, length_put_be. simpl. lia.
Qed.
#[export] Hint Rewrite length_tlv_enc length_u16s_enc : qnet.

Lemma put_be2_u16 z : put_be 2 (u16 z) = put_be 2 z.
Proof. symmetry. apply (put_be_mod 2). Qed.

Lemma tlv_add_cats_appends t v :
  Z.of_nat (length v) < 2 ^ 16 →
  appends (or_fail (-1) (dynar_cat (put_be 2 (u16 t)));;
           or_fail (-1) (dynar_cat (put_be 2 (Z.of_nat (length v))));;
           or_fail (-1) (dynar_cat v)) (tlv_enc t v).
Proof.
  intros. rewrite put_be2_u16. unfold tlv_enc.
  repeat first [apply appends_bind | apply appends_or_fail];
    apply dynar_cat_appends; autorewrite with qnet; lia.
Qed.

Lemma tlv_add_appends t n v :
  Z.of_nat (length v) < 2 ^ 16 → n = Z.of_nat (length v) →
  appends (tlv_add t n v) (tlv_enc t v).
Proof.
  intros Hv -> d h Hwf. pose proof (tlv_add_cats_appends t v Hv d h Hwf) as Ha.
  unfold tlv_add. rewrite Nat2Z.id, firstn_all. pose proof Hwf as [? ? ? ?].
  rewrite u64_small by lia. case_if; [|exact Ha].
  split_done. left. rewrite length_tlv_enc. lia.
Qed.

Ltac appends_tlv := apply tlv_add_appends; autorewrite with qnet; lia.

Lemma tlv_add_u32_appends t x : appends (tlv_add_u32 t x) (tlv_enc t (put_be 4 x)).
Proof. appends_tlv. Qed.
Lemma tlv_add_u8_appends t x : appends (tlv_add_u8 t x) (tlv_enc t (put_be 1 x)).
Proof. appends_tlv. Qed.
Lemma tlv_add_u16_appends t x : appends (tlv_add_u16 t x) (tlv_enc t (put_be 2 x)).
Proof. appends_tlv. Qed.
Lemma tlv_add_u64_appends t x : appends (tlv_add_u64 t x) (tlv_enc t (put_be 8 x)).
Proof. appends_tlv. Qed.

Lemma tlv_add_string_appends t s :
  Z.of_nat (length s) < 2 ^ 16 → appends (tlv_add_string t s) (tlv_enc t s).
Proof. intros. apply tlv_add_appends; [done|]. apply u16_small. lia. Qed.

Lemma malloc_or_fail_appends : appends malloc_or_fail [].
Proof.
  intros d h Hwf. unfold malloc_or_fail.
  destruct (malloc h) as [[o|] h'] eqn:E; rewrite ?app_nil_r; split_done; eauto with qnet.
Qed.

Lemma tlv_add_u16_array_appends t l :
  Z.of_nat (length l) < 2 ^ 15 → appends (tlv_add_u16_array t l) (tlv_enc t (u16s_enc l)).
Proof.
  intros. change (tlv_enc t (u16s_enc l)) with ([] ++ tlv_enc t (u16s_enc l)).
  apply appends_bind; [apply malloc_or_fail_appends|].
  apply tlv_add_appends; fold (u16s_enc l); rewrite length_u16s_enc; [lia|].
  rewrite u16_small; lia.
Qed.

Lemma u16s_enc_u16 l : u16s_enc (u16 <$> l) = u16s_enc l.
Proof.
  induction l as [|x l IH]; [done|]. rewrite fmap_cons.
  change (put_be 2 (u16 x) ++ u16s_enc (u16 <$> l) = put_be 2 x ++ u16s_enc l).
  by rewrite IH, put_be2_u16.
Qed.

Lemma malloc_u16_array_appends t l :
  Z.of_nat (length l) < 2 ^ 15 →
  appends (malloc_or_fail;; tlv_add_u16_array t (u16 <$> l)) (tlv_enc t (u16s_enc l)).
Proof.
  intros. change (tlv_enc t (u16s_enc l)) with ([] ++ tlv_enc t (u16s_enc l)).
  apply appends_bind; [apply malloc_or_fail_appends|].
  rewrite <- u16s_enc_u16. apply tlv_add_u16_array_appends. by rewrite length_fmap.
Qed.

(** The value of each option whose encoding is not a plain integer. *)
Definition ring_id_enc (r : tlv_ring_id) : list byte :=
  put_be 4 (rid_node_id r) ++ put_be 8 (rid_seq r).
Definition tie_breaker_enc (tb : tlv_tie_breaker) : list byte :=
  put_be 1 (tb_mode tb) ++
  put_be 4 (if tb_mode tb =? TLV_TIE_BREAKER_MODE_NODE_ID then tb_node_id tb else 0).
Definition node_info_tlvs (ni : tlv_node_info) : list (Z * list byte) :=
  (TLV_OPT_NODE_ID, put_be 4 (ni_node_id ni)) ::
  (if ni_data_center_id ni =? 0 then []
   else [(TLV_OPT_DATA_CENTER_ID, put_be 4 (ni_data_center_id ni))]) ++
  (if bool_decide (ni_node_state ni = TLV_NODE_STATE_NOT_SET) then []
   else [(TLV_OPT_NODE_STATE, put_be 1 (node_state_to_z (ni_node_state ni)))]).
Definition tlvs_enc (xs : list (Z * list byte)) : list byte := xs ≫= λ '(t, v), tlv_enc t v.
Definition node_info_enc (ni : tlv_node_info) : list byte := tlvs_enc (node_info_tlvs ni).

Lemma tlvs_enc_app a b : tlvs_enc (a ++ b) = tlvs_enc a ++ tlvs_enc b.
Proof. apply bind_app. Qed.
Lemma tlvs_enc_cons t v b : tlvs_enc ((t, v) :: b) = tlv_enc t v ++ tlvs_enc b.
Proof. done. Qed.
Lemma tlvs_enc_one t v : tlvs_enc [(t, v)] = tlv_enc t v.
Proof. rewrite tlvs_enc_cons. apply app_nil_r. Qed.

Lemma length_ring_id_enc r : length (ring_id_enc r) = 12%nat.
Proof. done. Qed.
Lemma length_tie_breaker_enc tb : length (tie_breaker_enc tb) = 5%nat.
Proof. done. Qed.
#[export] Hint Rewrite length_ring_id_enc length_tie_breaker_enc : qnet.

Lemma tlv_add_ring_id_appends r :
  appends (tlv_add_ring_id r) (tlv_enc TLV_OPT_RING_ID (ring_id_enc r)).
Proof. apply tlv_add_appends; fold (ring_id_enc r); autorewrite with qnet; lia. Qed.
Lemma tlv_add_tie_breaker_appends tb :
  appends (tlv_add_tie_breaker tb) (tlv_enc TLV_OPT_TIE_BREAKER (tie_breaker_enc tb)).
Proof. apply tlv_add_appends; fold (tie_breaker_enc tb); autorewrite with qnet; lia. Qed.

Lemma length_node_info_enc ni : (8 ≤ length (node_info_enc ni) ≤ 21)%nat.
Proof.
  unfold node_info_enc, node_info_tlvs. repeat case_match; simpl; lia.
Qed.

Lemma node_info_inner_appends ni :
  appends (tlv_add_node_id (ni_node_id ni);;
         (if negb (ni_data_center_id ni =? 0)
          then tlv_add_data_center_id (ni_data_center_id ni) else mret tt);;
         (if bool_decide (ni_node_state ni ≠ TLV_NODE_STATE_NOT_SET)
          then tlv_add_node_state (ni_node_state ni) else mret tt)) (node_info_enc ni).
Proof.
  unfold node_info_enc, node_info_tlvs. rewrite tlvs_enc_cons, tlvs_enc_app.
  apply appends_bind; [apply tlv_add_u32_appends|]. apply appends_bind.
  - destruct (ni_data_center_id ni =? 0); [apply appends_ret|].
    rewrite tlvs_enc_one. apply tlv_add_u32_appends.
  - rewrite bool_decide_not. destruct (bool_decide _); [apply appends_ret|].
    rewrite tlvs_enc_one. apply tlv_add_u8_appends.
Qed.

Lemma tlv_add_node_info_appends ni :
  appends (tlv_add_node_info ni) (tlv_enc TLV_OPT_NODE_INFO (node_info_enc ni)).
Proof.
  intros d h Hwf. unfold tlv_add_node_info.
  pose proof (node_info_inner_appends ni (dynar_init 1024) h ltac:(apply wf_init; lia)) as Hi.
  pose proof (length_node_info_enc ni) as Hlen.
  match type of Hi with match ?x with _ => _ end => destruct x as [[[]|c] [o h1]] end.
  - destruct Hi as (Hwfo & Hc & _ & Hh & _).
    change (contents (dynar_init 1024)) with (@nil byte) in Hc. simpl in Hc.
    pose proof (length_contents o Hwfo) as Hlo. rewrite Hc in Hlo.
    pose proof (tlv_add_appends TLV_OPT_NODE_INFO (u16 (size o)) (node_info_enc ni)
      ltac:(lia) ltac:(rewrite u16_small; lia) d h1 Hwf) as Ht.
    assert (E : tlv_add TLV_OPT_NODE_INFO (u16 (size o)) (data o) (d, h1)
      = tlv_add TLV_OPT_NODE_INFO (u16 (size o)) (node_info_enc ni) (d, h1)).
    { unfold tlv_add. do 5 f_equal. rewrite <- Hc, u16_small by lia. unfold contents.
      by rewrite take_take, Nat.min_id. }
    rewrite E. destruct (tlv_add _ _ _ _) as [[[]|c] [d2 h2]].
    + destruct Ht as (? & ? & ? & ? & ?). split_done. by etrans.
    + destruct Ht as (? & ? & ? & ? & ? & Hor). split_done; [by etrans|].
      destruct Hor; [by left|right; eauto with qnet].
  - destruct Hi as (-> & _ & _ & _ & Hh & Hor). split_done.
    right. destruct Hor as [Hor|]; [cbn [size maximum_size dynar_init] in Hor; lia|done].
Qed.

(** ** Memory views *)

Lemma length_mem_read m p n : length (mem_read m p n) = Z.to_nat n.
Proof. unfold mem_read. by rewrite length_fmap, length_seq. Qed.
#[export] Hint Rewrite length_mem_read : qnet.

Lemma mem_read_app m p a b :
  0 ≤ a → 0 ≤ b → mem_read m p (a + b) = mem_read m p a ++ mem_read m (p + a) b.
Proof.
  intros. unfold mem_read. rewrite Z2Nat.inj_add, seq_app, fmap_app by done. f_equal.
  rewrite <- (Nat.add_0_l (Z.to_nat a)) at 1. rewrite Nat.add_comm.
  rewrite <- fmap_add_seq, <- list_fmap_compose. apply list_fmap_ext.
  intros i x _. unfold compose. f_equal. lia.
Qed.

Lemma mem_read_shift m m' p q n :
  (∀ i, 0 ≤ i < n → m' (q + i) = m (p + i)) → mem_read m' q n = mem_read m p n.
Proof.
  intros H. unfold mem_read. apply list_fmap_ext. intros i x Hx.
  apply lookup_seq in Hx. apply H. lia.
Qed.

Lemma mem_read_data it p n :
  mem_read (tlv_iter_get_data it) p n = mem_read (it_msg it) (it_current_pos it + 4 + p) n.
Proof.
  apply mem_read_shift. intros. unfold tlv_iter_get_data. f_equal.
  unfold TLV_TYPE_LENGTH, TLV_LENGTH_LENGTH. lia.
Qed.

Lemma mem_read_sub m p a n k :
  0 ≤ a → 0 ≤ k → a + k ≤ n →
  mem_read m (p + a) k = take (Z.to_nat k) (drop (Z.to_nat a) (mem_read m p n)).
Proof.
  intros. replace n with (a + (k + (n - a - k))) by lia.
  rewrite !mem_read_app by lia.
  rewrite drop_app_length' by (autorewrite with qnet; lia).
  rewrite take_app_length' by (autorewrite with qnet; lia). done.
Qed.

(** The memory behind a well-formed array holds its contents. *)
Lemma mem_read_dynar beyond d p n :
  wf d → 0 ≤ p → 0 ≤ n → p + n ≤ size d →
  mem_read (dynar_mem beyond d) p n = take (Z.to_nat n) (drop (Z.to_nat p) (contents d)).
Proof.
  intros [? ? ? ?] ? ? ?. apply list_eq_same_length with (n := Z.to_nat n).
  - unfold contents. autorewrite with qnet. lia.
  - by autorewrite with qnet.
  - intros i x y Hi Hx Hy. unfold mem_read in Hx.
    rewrite list_lookup_fmap, lookup_seq_lt in Hx by done. simplify_eq/=.
    rewrite lookup_take_lt, lookup_drop in Hy by done. unfold contents in Hy.
    rewrite lookup_take_lt in Hy by lia. unfold dynar_mem.
    replace (Z.to_nat (p + Z.of_nat i)) with (Z.to_nat p + i)%nat by lia.
    by rewrite Hy.
Qed.

(** ** The iterator at an option *)

(** The iterator stands at an option of type [t] with value [v]. *)
Record it_holds (it : tlv_iterator) (t : Z) (v : list byte) : Prop := {
  holds_type : tlv_iter_get_type it = t;
  holds_len : tlv_iter_get_len it = Z.of_nat (length v);
  holds_data : mem_read (tlv_iter_get_data it) 0 (Z.of_nat (length v)) = v
}.

(** Two iterators at equal options. *)
Definition it_sim (it1 it2 : tlv_iterator) : Prop := ∃ t v, it_holds it1 t v ∧ it_holds it2 t v.

Lemma holds_sub it t v a k :
  it_holds it t v → 0 ≤ a → 0 ≤ k → a + k ≤ Z.of_nat (length v) →
  mem_read (tlv_iter_get_data it) a k = take (Z.to_nat k) (drop (Z.to_nat a) v).
Proof.
  intros [_ _ Hd] ? ? ?. rewrite <- Hd.
  replace a with (0 + a) at 1 by lia. by apply mem_read_sub.
Qed.

Lemma holds_all it t v k :
  it_holds it t v → k = Z.of_nat (length v) → mem_read (tlv_iter_get_data it) 0 k = v.
Proof. by intros [_ _ ?] ->. Qed.

Ltac by_holds H := destruct H as [Ht Hl Hd]; unfold tlv_iter_decode_u32,
  tlv_iter_decode_u8, tlv_iter_decode_u16, tlv_iter_decode_u64; rewrite Hl;
  case_if; [done|]; match goal with E : _ = _ :> Z |- _ => rewrite E in Hd end; by rewrite Hd.

Lemma decode_u8_holds it t v : it_holds it t v →
  tlv_iter_decode_u8 it = if negb (Z.of_nat (length v) =? 1) then Err (-1) else Ok (get_be v).
Proof. intros H. by_holds H. Qed.
Lemma decode_u16_holds it t v : it_holds it t v →
  tlv_iter_decode_u16 it = if negb (Z.of_nat (length v) =? 2) then Err (-1) else Ok (get_be v).
Proof. intros H. by_holds H. Qed.
Lemma decode_u32_holds it t v : it_holds it t v →
  tlv_iter_decode_u32 it = if negb (Z.of_nat (length v) =? 4) then Err (-1) else Ok (get_be v).
Proof. intros H. by_holds H. Qed.
Lemma decode_u64_holds it t v : it_holds it t v →
  tlv_iter_decode_u64 it = if negb (Z.of_nat (length v) =? 8) then Err (-1) else Ok (get_be v).
Proof. intros H. by_holds H. Qed.

(** No decoder can tell two iterators at equal options apart. *)
#[export] Instance get_type_proper : Proper (it_sim ==> eq) tlv_iter_get_type.
Proof. intros i1 i2 (t & v & [? ? ?] & [? ? ?]). congruence. Qed.
#[export] Instance get_len_proper : Proper (it_sim ==> eq) tlv_iter_get_len.
Proof. intros i1 i2 (t & v & [? ? ?] & [? ? ?]). congruence. Qed.
#[export] Instance decode_u8_proper : Proper (it_sim ==> eq) tlv_iter_decode_u8.
Proof. intros i1 i2 (t & v & H1 & H2). by rewrite (decode_u8_holds _ _ _ H1), (decode_u8_holds _ _ _ H2). Qed.
#[export] Instance decode_u16_proper : Proper (it_sim ==> eq) tlv_iter_decode_u16.
Proof. intros i1 i2 (t & v & H1 & H2). by rewrite (decode_u16_holds _ _ _ H1), (decode_u16_holds _ _ _ H2). Qed.
#[export] Instance decode_u32_proper : Proper (it_sim ==> eq) tlv_iter_decode_u32.
Proof. intros i1 i2 (t & v & H1 & H2). by rewrite (decode_u32_holds _ _ _ H1), (decode_u32_holds _ _ _ H2). Qed.
#[export] Instance decode_u64_proper : Proper (it_sim ==> eq) tlv_iter_decode_u64.
Proof. intros i1 i2 (t & v & H1 & H2). by rewrite (decode_u64_holds _ _ _ H1), (decode_u64_holds _ _ _ H2). Qed.
#[export] Instance decode_enum8_proper {A} (f : Z → option A) :
  Proper (it_sim ==> eq) (decode_enum8 f).
Proof. intros i1 i2 H. unfold decode_enum8. by rewrite H. Qed.
#[export] Instance decode_decision_algorithm_proper :
  Proper (it_sim ==> eq) tlv_iter_decode_decision_algorithm.
Proof. intros i1 i2 H. unfold tlv_iter_decode_decision_algorithm. by rewrite H. Qed.
#[export] Instance decode_reply_error_code_proper :
  Proper (it_sim ==> eq ==> eq) tlv_iter_decode_reply_error_code.
Proof. intros i1 i2 H ? ? ->. unfold tlv_iter_decode_reply_error_code. by rewrite H. Qed.

(** Reads inside of the value agree. *)
Lemma sim_sub i1 i2 a k :
  it_sim i1 i2 → 0 ≤ a → 0 ≤ k → a + k ≤ tlv_iter_get_len i1 →
  mem_read (tlv_iter_get_data i1) a k = mem_read (tlv_iter_get_data i2) a k.
Proof.
  intros (t & v & H1 & H2) ? ? Hk. rewrite (holds_len _ _ _ H1) in Hk.
  by rewrite (holds_sub _ _ _ a k H1), (holds_sub _ _ _ a k H2).
Qed.

#[export] Instance decode_str_proper : Proper (it_sim ==> eq ==> eq) tlv_iter_decode_str.
Proof.
  intros i1 i2 H h ? <-. unfold tlv_iter_decode_str.
  assert (0 ≤ tlv_iter_get_len i1) by (destruct H as (t & v & [_ -> _] & _); lia).
  by rewrite <- (get_len_proper _ _ H), (sim_sub i1 i2) by (done || lia).
Qed.

#[export] Instance decode_u16_array_proper :
  Proper (it_sim ==> eq ==> eq) tlv_iter_decode_u16_array.
Proof.
  intros i1 i2 H h ? <-. unfold tlv_iter_decode_u16_array. rewrite <- (get_len_proper _ _ H).
  destruct (negb _); [done|]. apply (f_equal (λ l, (modify _;; _;; mret l) h)).
  apply list_fmap_ext. intros i x Hx. apply lookup_seq in Hx as [-> Hi]. f_equal.
  apply sim_sub; [done|lia..|].
  pose proof (Z.mul_div_le (tlv_iter_get_len i1) 2 ltac:(lia)). lia.
Qed.

#[export] Instance decode_supported_options_proper :
  Proper (it_sim ==> eq ==> eq) tlv_iter_decode_supported_options.
Proof.
  intros i1 i2 H h ? <-. unfold tlv_iter_decode_supported_options, mbind, M_bind.
  by rewrite (decode_u16_array_proper i1 i2 H h h eq_refl).
Qed.
#[export] Instance decode_supported_decision_algorithms_proper :
  Proper (it_sim ==> eq ==> eq) tlv_iter_decode_supported_decision_algorithms.
Proof. exact decode_supported_options_proper. Qed.

#[export] Instance decode_ring_id_proper : Proper (it_sim ==> eq) tlv_iter_decode_ring_id.
Proof.
  intros i1 i2 H. unfold tlv_iter_decode_ring_id. cbv zeta. rewrite <- (get_len_proper _ _ H). case_if; [done|].
  by rewrite !(sim_sub i1 i2) by (done || lia).
Qed.
#[export] Instance decode_tie_breaker_proper :
  Proper (it_sim ==> eq) tlv_iter_decode_tie_breaker.
Proof.
  intros i1 i2 H. unfold tlv_iter_decode_tie_breaker. cbv zeta. rewrite <- (get_len_proper _ _ H). case_if; [done|].
  by rewrite !(sim_sub i1 i2) by (done || lia).
Qed.

(** ** The grammar of the options of a message *)

(** The options of a message body and whether the iteration over them ends cleanly: a
    type, a length and that many bytes, at least once, and nothing after the last one. *)
Fixpoint parse_tlvs_fuel (n : nat) (l : list byte) : list (Z * list byte) * bool :=
  match n with
  | O => ([], false)
  | S n' =>
      match l with
      | t1 :: t2 :: l1 :: l2 :: rest =>
          let len := Z.to_nat (get_be [l1; l2]) in
          if (length rest <? len)%nat then ([], false)
          else
            let tlv := (get_be [t1; t2], take len rest) in
            match drop len rest with
            | [] => ([tlv], true)
            | rest' => let '(tlvs, ok) := parse_tlvs_fuel n' rest' in (tlv :: tlvs, ok)
            end
      | _ => ([], false)
      end
  end.

Definition parse_tlvs (l : list byte) : list (Z * list byte) * bool :=
  parse_tlvs_fuel (S (length l)) l.

Lemma parse_tlvs_fuel_enough n m l :
  (length l < n)%nat → (length l < m)%nat → parse_tlvs_fuel n l = parse_tlvs_fuel m l.
Proof.
  revert m l. induction n as [|n IH]; intros [|m] l Hn Hm; try lia.
  destruct l as [|t1 [|t2 [|l1 [|l2 rest]]]]; try done. cbn [parse_tlvs_fuel].
  destruct (length rest <? _)%nat; [done|].
  destruct (drop _ rest) as [|b r] eqn:E; [done|].
  assert (length (b :: r) ≤ length rest)%nat by (rewrite <- E, length_drop; lia).
  rewrite (IH m (b :: r)); [done|..]; cbn [length] in *; lia.
Qed.

Definition tlv_fits '((t, v) : Z * list byte) : Prop :=
  0 ≤ t < 2 ^ 16 ∧ Z.of_nat (length v) < 2 ^ 16.

Lemma put_be_2 z : put_be 2 z = [z2b (Z.shiftr z 8); z2b z].
Proof. cbn. by rewrite Z.shiftr_0_r. Qed.

(** The grammar undoes the encoding. *)
Lemma parse_tlvs_enc xs :
  xs ≠ [] → Forall tlv_fits xs → parse_tlvs (tlvs_enc xs) = (xs, true).
Proof.
  intros Hne Hall. unfold parse_tlvs. induction Hall as [|[t v] xs [Ht Hv] Hall IH]; [done|].
  rewrite tlvs_enc_cons. unfold tlv_enc.
  pose proof (get_put_be_small 2 t ltac:(lia)) as Et.
  pose proof (get_put_be_small 2 (Z.of_nat (length v)) ltac:(lia)) as El.
  rewrite (put_be_2 t), (put_be_2 (Z.of_nat (length v))) in *.
  rewrite <- !app_assoc. cbn [app parse_tlvs_fuel].
  rewrite Et, El, Nat2Z.id.
  rewrite (proj2 (Nat.ltb_ge _ _)) by (rewrite length_app; lia).
  rewrite take_app_length, drop_app_length. destruct xs as [|[t' v'] xs']; [done|].
  destruct (tlvs_enc ((t', v') :: xs')) as [|b r] eqn:Er.
  { by rewrite tlvs_enc_cons in Er. }
  rewrite (parse_tlvs_fuel_enough _ (S (length (b :: r)))); [by rewrite IH| |lia].
  cbn [length]. rewrite length_app. cbn [length]. lia.
Qed.

(** Running a body over the options of the grammar. *)
Fixpoint run_tlvs {St} (body : Z → list byte → M St unit) (tlvs : list (Z * list byte))
    (ok : bool) : M St Z :=
  match tlvs with
  | [] => mret (if ok then 0 else -1)
  | (t, v) :: tlvs' => body t v;; run_tlvs body tlvs' ok
  end.

(** An iterator at the option [(t, v)], wherever the option is in memory. *)
Definition list_mem (l : list byte) : mem := λ p, default x00 (l !! Z.to_nat p).
Definition it_of (t : Z) (v : list byte) : tlv_iterator :=
  let l := tlv_enc t v in
  mk_tlv_iterator (list_mem l) (Z.of_nat (length l)) 0 0 true.

Lemma mem_read_list_mem l p n :
  0 ≤ p → 0 ≤ n → p + n ≤ Z.of_nat (length l) →
  mem_read (list_mem l) p n = take (Z.to_nat n) (drop (Z.to_nat p) l).
Proof.
  intros ? ? ?. apply list_eq_same_length with (n := Z.to_nat n).
  - autorewrite with qnet. lia.
  - by autorewrite with qnet.
  - intros i x y Hi Hx Hy. unfold mem_read in Hx.
    rewrite list_lookup_fmap, lookup_seq_lt in Hx by done. simplify_eq/=.
    rewrite lookup_take_lt, lookup_drop in Hy by done. unfold list_mem.
    replace (Z.to_nat (p + Z.of_nat i)) with (Z.to_nat p + i)%nat by lia.
    by rewrite Hy.
Qed.

Lemma it_holds_it_of t v : tlv_fits (t, v) → it_holds (it_of t v) t v.
Proof.
  intros [Ht Hv]. pose proof (length_tlv_enc t v) as Hlen. constructor.
  - unfold tlv_iter_get_type, it_of; cbn [it_msg it_current_pos].
    rewrite mem_read_list_mem by lia. apply (get_put_be_small 2). lia.
  - unfold tlv_iter_get_len, it_of, TLV_TYPE_LENGTH; cbn [it_msg it_current_pos].
    rewrite mem_read_list_mem by lia. apply (get_put_be_small 2). lia.
  - rewrite mem_read_data. unfold it_of; cbn [it_msg it_current_pos].
    rewrite mem_read_list_mem, Nat2Z.id by lia.
    change (Z.to_nat (0 + 4 + 0)) with 4%nat. apply firstn_all.
Qed.

(** ** The loop runs its body over the options of the grammar *)

Section loop.
Context {St : Type} (body : tlv_iterator → M St unit).
Context (body_proper : Proper (it_sim ==> eq ==> eq) body).

Let sbody (t : Z) (v : list byte) : M St unit := body (it_of t v).

(** One round of the loop from position [p]. *)
Let loop_at (n : nat) (p : Z) (it : tlv_iterator) : M St Z :=
  let '(iter_res, it') := tlv_iter_check (it_set_pos p it) in
  if 0 <? iter_res then body it';; tlv_loop body n it' else mret iter_res.

Let parsed (n : nat) (l : list byte) : M St Z :=
  let '(tlvs, ok) := parse_tlvs_fuel n l in run_tlvs sbody tlvs ok.

Lemma tlv_loop_unfold n it s :
  tlv_loop body (S n) it s =
  if it_iter_next_called it then
    let next := u64 (it_current_pos it + 4 + tlv_iter_get_len it) in
    if it_msg_len it <=? next then (Ok 0, s) else loop_at n next it s
  else loop_at n (it_msg_header_len it) it s.
Proof.
  cbn [tlv_loop]. unfold tlv_iter_next.
  destruct (it_iter_next_called it); cbn [negb]; [|done].
  unfold TLV_TYPE_LENGTH, TLV_LENGTH_LENGTH.
  replace (it_current_pos it + 2 + 2) with (it_current_pos it + 4) by lia.
  cbv zeta. by destruct (it_msg_len it <=? _).
Qed.

Lemma mem_read_split4 m p n l :
  0 ≤ n → l = mem_read m p n → 4 ≤ n →
  ∃ t1 t2 l1 l2 rest, l = t1 :: t2 :: l1 :: l2 :: rest ∧
    mem_read m p 2 = [t1; t2] ∧ mem_read m (p + 2) 2 = [l1; l2] ∧
    mem_read m (p + 4) (n - 4) = rest.
Proof.
  intros Hn -> Hge.
  assert (E : mem_read m p n = mem_read m p 2 ++ mem_read m (p + 2) 2 ++ mem_read m (p + 4) (n - 4)).
  { replace (p + 4) with (p + 2 + 2) by lia. rewrite <- !mem_read_app by lia. f_equal. lia. }
  rewrite E.
  pose proof (length_mem_read m p 2) as H1. pose proof (length_mem_read m (p + 2) 2) as H2.
  destruct (mem_read m p 2) as [|t1 [|t2 [|]]]; try done.
  destruct (mem_read m (p + 2) 2) as [|l1 [|l2 [|]]]; try done.
  eexists _, _, _, _, _. split_and!; done.
Qed.

Lemma get_len_at p it : tlv_iter_get_len (it_set_pos p it) = get_be (mem_read (it_msg it) (p + 2) 2).
Proof. done. Qed.

Lemma get_len_range it : 0 ≤ tlv_iter_get_len it < 2 ^ 16.
Proof.
  unfold tlv_iter_get_len. pose proof (get_be_range (mem_read (it_msg it) (it_current_pos it + TLV_TYPE_LENGTH) 2)) as H.
  rewrite length_mem_read in H. change (Z.of_nat (Z.to_nat 2)) with 2 in H. lia.
Qed.

(** Fewer than four bytes left: rejected whatever lies behind the message. *)
Lemma loop_at_short n it p s l :
  0 ≤ p ≤ it_msg_len it → it_msg_len it < 2 ^ 62 →
  l = mem_read (it_msg it) p (it_msg_len it - p) → it_msg_len it - p < 4 →
  loop_at n p it s = parsed (S n) l s.
Proof.
  intros Hp Hlen Hl Hlt. apply (f_equal length) in Hl. rewrite length_mem_read in Hl.
  unfold loop_at, parsed, tlv_iter_check, TLV_TYPE_LENGTH, TLV_LENGTH_LENGTH.
  pose proof (get_len_range (it_set_pos p it)).
  cbn [it_set_pos it_msg_len it_current_pos] in *. rewrite u64_small by lia.
  rewrite (proj2 (Z.ltb_lt _ _)) by lia.
  by destruct l as [|t1 [|t2 [|l1 [|l2 rest]]]]; cbn [length] in Hl; try lia.
Qed.

Lemma holds_at it p t1 t2 l1 l2 rest n v :
  mem_read (it_msg it) p 2 = [t1; t2] → mem_read (it_msg it) (p + 2) 2 = [l1; l2] →
  mem_read (it_msg it) (p + 4) n = rest → get_be [l1; l2] ≤ n →
  v = take (Z.to_nat (get_be [l1; l2])) rest →
  it_holds (it_set_pos p it) (get_be [t1; t2]) v.
Proof.
  intros Ht Hl Hrest Hn ->. pose proof (get_be_range [l1; l2]) as Hr.
  assert (Hv : Z.of_nat (length (take (Z.to_nat (get_be [l1; l2])) rest)) = get_be [l1; l2])
    by (rewrite <- Hrest, length_take, length_mem_read; lia).
  constructor.
  - unfold tlv_iter_get_type. cbn [it_set_pos it_msg it_current_pos]. by rewrite Ht.
  - by rewrite get_len_at, Hl, Hv.
  - rewrite Hv, mem_read_data. cbn [it_set_pos it_msg it_current_pos].
    rewrite (mem_read_sub (it_msg it) (p + 4) 0 n) by lia. by rewrite Hrest.
Qed.

Lemma loop_at_parse n it p s l :
  0 ≤ p ≤ it_msg_len it → it_msg_len it < 2 ^ 62 →
  l = mem_read (it_msg it) p (it_msg_len it - p) → (length l ≤ n)%nat →
  loop_at n p it s = parsed (S n) l s.
Proof.
  revert it p s l. induction n as [|n IH]; intros it p s l Hp Hlen Hl Hn;
    (destruct (decide (4 ≤ it_msg_len it - p)) as [Hge|Hlt];
     [|apply loop_at_short; first [done | lia]]).
  { apply (f_equal length) in Hl. autorewrite with qnet in Hl. lia. }
  destruct (mem_read_split4 (it_msg it) p (it_msg_len it - p) l ltac:(lia) Hl Hge)
    as (t1 & t2 & l1 & l2 & rest & -> & Ht & Hl2 & Hrest).
  assert (Hlr : Z.of_nat (length rest) = it_msg_len it - p - 4)
    by (rewrite <- Hrest, length_mem_read; lia).
  unfold parsed. set (k := S n). cbn [parse_tlvs_fuel].
  unfold loop_at at 1, tlv_iter_check.
  rewrite get_len_at, Hl2. cbn [it_msg_len it_current_pos it_set_pos].
  pose proof (get_be_range [l1; l2]) as Hr. set (len := get_be [l1; l2]) in *.
  change (256 ^ Z.of_nat (length [l1; l2])) with 65536 in Hr.
  unfold TLV_TYPE_LENGTH, TLV_LENGTH_LENGTH. rewrite u64_small by lia.
  case_if; [by rewrite (proj2 (Nat.ltb_lt _ _)) by lia|].
  rewrite (proj2 (Nat.ltb_ge _ _)) by lia.
  set (v := take (Z.to_nat len) rest). set (t := get_be [t1; t2]).
  assert (Hv : Z.of_nat (length v) = len) by (subst v; rewrite length_take; lia).
  assert (Hholds : it_holds (it_set_pos p it) t v) by (eapply holds_at; done || lia).
  assert (Hfits : tlv_fits (t, v)) by (split; [apply (get_be_range [t1; t2])|lia]).
  assert (Hsim : it_sim (it_set_pos p it) (it_of t v))
    by (exists t, v; split; [done|by apply it_holds_it_of]).
  assert (Hnext : ∀ s', tlv_loop body k (it_set_pos p it) s' =
    match drop (Z.to_nat len) rest with
    | [] => (Ok 0, s')
    | _ => parsed k (drop (Z.to_nat len) rest) s'
    end).
  { intros s'. subst k. rewrite tlv_loop_unfold.
    cbn [it_set_pos it_iter_next_called it_msg_len it_current_pos]. cbv zeta.
    rewrite get_len_at, Hl2. fold len. rewrite u64_small by lia.
    destruct (drop (Z.to_nat len) rest) as [|b r] eqn:Ed;
      apply (f_equal length) in Ed as El; rewrite length_drop in El; cbn [length] in El.
    - by rewrite (proj2 (Z.leb_le _ _)) by lia.
    - rewrite (proj2 (Z.leb_gt _ _)) by lia. rewrite <- Ed. apply IH.
      + cbn [it_msg_len it_set_pos]. lia.
      + done.
      + cbn [it_msg it_msg_len it_set_pos]. rewrite <- Hrest at 1.
        replace (p + 4 + len) with ((p + 4) + len) by lia.
        rewrite (mem_read_sub (it_msg it) (p + 4) len (it_msg_len it - p - 4)) by lia.
        rewrite firstn_all2; [done|]. rewrite length_drop, length_mem_read. lia.
      + rewrite length_drop. cbn [length] in Hn. lia. }
  cbn [Z.ltb Z.compare]. unfold mbind at 1, M_bind at 1.
  rewrite (body_proper _ _ Hsim s s eq_refl).
  destruct (drop (Z.to_nat len) rest) as [|b r].
  - cbn [run_tlvs]. unfold mbind at 1, M_bind at 1, sbody.
    destruct (body (it_of t v) s) as [[u|c] s']; [by rewrite Hnext|done].
  - unfold parsed in Hnext. destruct (parse_tlvs_fuel k (b :: r)) as [tlvs ok].
    cbn [run_tlvs]. unfold mbind at 1, M_bind at 1, sbody.
    destruct (body (it_of t v) s) as [[u|c] s']; [by rewrite Hnext|done].
Qed.

(** From a fresh iterator: the loop is a run over the grammar, for any fuel above the
    length of the options, so the fuel never runs out and the bytes outside of the
    message do not matter. *)
Lemma tlv_loop_parse msg len hdr n s l :
  0 ≤ hdr ≤ len → len < 2 ^ 62 → l = mem_read msg hdr (len - hdr) →
  (length l < n)%nat →
  tlv_loop body n (tlv_iter_init_str msg len hdr) s =
  (let '(tlvs, ok) := parse_tlvs l in
   run_tlvs (λ t v, body (it_of t v)) tlvs ok s).
Proof.
  intros Hh Hlen Hl Hn. destruct n as [|n]; [lia|].
  rewrite tlv_loop_unfold. cbn [tlv_iter_init_str it_iter_next_called it_msg_header_len].
  rewrite (loop_at_parse n _ _ _ l); [|done|done|done|lia].
  unfold parsed, parse_tlvs.
  rewrite (parse_tlvs_fuel_enough (S n) (S (length l))) by lia.
  by destruct (parse_tlvs_fuel _ l) as [tlvs ok].
Qed.
End loop.

(** ** Node information: the loop inside of an option *)

#[export] Instance store_proper {St A} :
  Proper (eq ==> eq ==> eq ==> eq) (@store St A).
Proof. by intros ? ? -> ? ? -> ? ? ->. Qed.

#[export] Instance node_info_body_proper : Proper (it_sim ==> eq ==> eq) node_info_body.
Proof.
  intros i1 i2 H s ? <-. unfold node_info_body.
  by rewrite (get_type_proper _ _ H), (decode_u32_proper _ _ H),
    (decode_enum8_proper node_state_of_z _ _ H : tlv_iter_decode_node_state _ = _).
Qed.

Definition node_info_opt (t : Z) (v : list byte) : M tlv_node_info unit :=
  node_info_body (it_of t v).

(** What [tlv_iter_decode_node_info] computes from the value of the option. *)
Definition node_info_of (v : list byte) : res tlv_node_info :=
  let '(tlvs, ok) := parse_tlvs v in
  match run_tlvs node_info_opt tlvs ok node_info_zero with
  | (Err c, _) => Err c
  | (Ok r, ni) =>
      if negb (r =? 0) then Err (-3) else if ni_node_id ni =? 0 then Err (-4) else Ok ni
  end.

Lemma decode_node_info_holds it t v :
  it_holds it t v → Z.of_nat (length v) < 2 ^ 62 →
  tlv_iter_decode_node_info it = node_info_of v.
Proof.
  intros H Hv. unfold tlv_iter_decode_node_info. pose proof H as [_ Hl Hd].
  rewrite Hl, (tlv_loop_parse node_info_body _ _ _ _ _ _ v); [|lia|lia| |].
  - unfold node_info_of. by destruct (parse_tlvs v).
  - by rewrite Z.sub_0_r, Hd.
  - unfold tlv_fuel. cbn [tlv_iter_init_str it_msg_len]. lia.
Qed.

#[export] Instance decode_node_info_proper : Proper (it_sim ==> eq) tlv_iter_decode_node_info.
Proof.
  intros i1 i2 (t & v & H1 & H2). 
  assert (Z.of_nat (length v) < 2 ^ 62).
  { rewrite <- (holds_len _ _ _ H1). pose proof (get_len_range i1). lia. }
  by rewrite (decode_node_info_holds _ _ _ H1), (decode_node_info_holds _ _ _ H2).
Qed.

(** ** Round trips of the options *)

Lemma decode_u32_enc it t x :
  it_holds it t (put_be 4 x) → 0 ≤ x < 2 ^ 32 → tlv_iter_decode_u32 it = Ok x.
Proof. intros H ?. rewrite (decode_u32_holds _ _ _ H). cbn [negb]. by rewrite get_put_be_small. Qed.
Lemma decode_u16_enc it t x :
  it_holds it t (put_be 2 x) → 0 ≤ x < 2 ^ 16 → tlv_iter_decode_u16 it = Ok x.
Proof. intros H ?. rewrite (decode_u16_holds _ _ _ H). cbn [negb]. by rewrite get_put_be_small. Qed.
Lemma decode_u64_enc it t x :
  it_holds it t (put_be 8 x) → 0 ≤ x < 2 ^ 64 → tlv_iter_decode_u64 it = Ok x.
Proof. intros H ?. rewrite (decode_u64_holds _ _ _ H). cbn [negb]. by rewrite get_put_be_small. Qed.
Lemma decode_u8_enc it t x :
  it_holds it t (put_be 1 x) → 0 ≤ x < 2 ^ 8 → tlv_iter_decode_u8 it = Ok x.
Proof. intros H ?. rewrite (decode_u8_holds _ _ _ H). cbn [negb]. by rewrite get_put_be_small. Qed.

Lemma decode_enum8_enc {A} (of_z : Z → option A) (to_z : A → Z) it t x :
  it_holds it t (put_be 1 (to_z x)) → 0 ≤ to_z x < 2 ^ 8 → of_z (to_z x) = Some x →
  decode_enum8 of_z it = Ok x.
Proof. intros H ? E. unfold decode_enum8. by rewrite (decode_u8_enc _ _ _ H), E. Qed.

Lemma decode_str_enc it t s h :
  it_holds it t s →
  tlv_iter_decode_str it h =
  match malloc h with (None, h') => (Err (-1), h') | (Some _, h') => (Ok s, h') end.
Proof. intros [_ Hl Hd]. unfold tlv_iter_decode_str. by rewrite Hl, Hd. Qed.

Lemma u16s_enc_lookup l i x :
  l !! i = Some x → take 2 (drop (2 * i) (u16s_enc l)) = put_be 2 x.
Proof.
  revert i. induction l as [|y l IH]; intros [|i] H; simplify_eq/=.
  - done.
  - replace (i + S (i + 0))%nat with (S (2 * i)) by lia. by apply IH.
Qed.

Lemma decode_u16s_enc it t l :
  it_holds it t (u16s_enc l) → Forall (λ x, 0 ≤ x < 2 ^ 16) l →
  (λ i, get_be (mem_read (tlv_iter_get_data it) (2 * Z.of_nat i) 2)) <$>
    seq 0 (Z.to_nat (tlv_iter_get_len it / 2)) = l.
Proof.
  intros H Hall. pose proof H as [_ Hl _].
  assert (E : Z.to_nat (tlv_iter_get_len it / 2) = length l).
  { rewrite Hl, length_u16s_enc, Nat2Z.inj_mul, Z.mul_comm, Z.div_mul by lia. lia. }
  rewrite E. apply list_eq_same_length with (n := length l); [done|autorewrite with qnet; by rewrite length_seq|].
  intros i x y Hi Hx Hy. rewrite list_lookup_fmap, lookup_seq_lt in Hx by done. injection Hx as <-.
  rewrite (holds_sub _ _ _ _ _ H) by (rewrite ?length_u16s_enc; lia).
  replace (Z.to_nat (2 * Z.of_nat i)) with (2 * i)%nat by lia.
  change (Z.to_nat 2) with 2%nat.
  rewrite (u16s_enc_lookup l i y Hy). apply get_put_be_small.
  by apply (Forall_lookup_1 _ _ _ _ Hall Hy).
Qed.

Lemma decode_u16_array_enc it t l n h :
  it_holds it t (u16s_enc l) → Forall (λ x, 0 ≤ x < 2 ^ 16) l →
  tlv_iter_decode_u16_array it (n, h) =
  match malloc h with
  | (None, h') => (Err (-2), (Z.of_nat (length l), h'))
  | (Some _, h') => (Ok l, (Z.of_nat (length l), h'))
  end.
Proof.
  intros H Hall. pose proof (decode_u16s_enc _ _ _ H Hall) as El.
  unfold tlv_iter_decode_u16_array. rewrite El, (holds_len _ _ _ H), length_u16s_enc.
  rewrite Nat2Z.inj_mul, Z.mul_comm, Z.mod_mul, Z.div_mul by lia. cbn.
  unfold mbind, M_bind, modify, or_fail, malloc_or_fail. by destruct (malloc h) as [[j|] h0].
Qed.

(** Both arrays of enumerations: a second allocation. *)
Lemma decode_supported_options_enc it t l n h :
  it_holds it t (u16s_enc l) → Forall (λ x, 0 ≤ x < 2 ^ 16) l →
  match tlv_iter_decode_supported_options it (n, h) with
  | (Ok l', (n', h')) => l' = l ∧ n' = Z.of_nat (length l) ∧ h' `suffix_of` h
  | (Err c, (n', h')) => c = -2 ∧ n' = Z.of_nat (length l) ∧ h' `suffix_of` h ∧ None ∈ h
  end.
Proof.
  intros H Hall. unfold tlv_iter_decode_supported_options, mbind, M_bind.
  rewrite (decode_u16_array_enc _ _ _ n h H Hall).
  destruct (malloc h) as [[j|] h'] eqn:E; [|split_done; eauto with qnet].
  pose proof (malloc_suffix _ _ _ E). unfold or_fail, malloc_or_fail.
  destruct (malloc h') as [[j'|] h''] eqn:E'; pose proof (malloc_suffix _ _ _ E');
    unfold mret, M_ret; split_done; first [by etrans | eapply suffix_in; [done|]; eauto with qnet].
Qed.

Definition ring_id_valid (r : tlv_ring_id) : Prop :=
  0 ≤ rid_node_id r < 2 ^ 32 ∧ 0 ≤ rid_seq r < 2 ^ 64.

Lemma decode_ring_id_enc it t r :
  it_holds it t (ring_id_enc r) → ring_id_valid r → tlv_iter_decode_ring_id it = Ok r.
Proof.
  intros H [Hn Hs]. unfold tlv_iter_decode_ring_id.
  rewrite (holds_len _ _ _ H), length_ring_id_enc. cbn [negb Z.of_nat Z.eqb].
  rewrite !(holds_sub _ _ _ _ _ H) by (rewrite ?length_ring_id_enc; lia).
  destruct r as [nid sq]. cbn [rid_node_id rid_seq] in *. do 2 f_equal.
  - by apply (get_put_be_small 4).
  - by apply (get_put_be_small 8).
Qed.

Definition tie_breaker_valid (tb : tlv_tie_breaker) : Prop :=
  (tb_mode tb = TLV_TIE_BREAKER_MODE_LOWEST ∨ tb_mode tb = TLV_TIE_BREAKER_MODE_HIGHEST ∨
   tb_mode tb = TLV_TIE_BREAKER_MODE_NODE_ID) ∧ 0 ≤ tb_node_id tb < 2 ^ 32.

(** What the other side knows of a tie-breaker: the node id counts in one mode only. *)
Definition tie_breaker_norm (tb : tlv_tie_breaker) : tlv_tie_breaker :=
  mk_tie_breaker (tb_mode tb)
    (if tb_mode tb =? TLV_TIE_BREAKER_MODE_NODE_ID then tb_node_id tb else 0).

Lemma decode_tie_breaker_enc it t tb :
  it_holds it t (tie_breaker_enc tb) → tie_breaker_valid tb →
  tlv_iter_decode_tie_breaker it = Ok (tie_breaker_norm tb).
Proof.
  intros H [Hm Hn]. unfold tlv_iter_decode_tie_breaker.
  rewrite (holds_len _ _ _ H), length_tie_breaker_enc. cbn [negb Z.of_nat Z.eqb].
  rewrite !(holds_sub _ _ _ _ _ H) by (rewrite ?length_tie_breaker_enc; lia).
  destruct tb as [m nid]. cbn [tb_mode tb_node_id] in *.
  replace (get_be _) with m by
    (symmetry; apply (get_put_be_small 1); destruct Hm as [->| [->| ->]]; cbv; split; congruence).
  unfold tie_breaker_norm; cbn [tb_mode tb_node_id].
  destruct Hm as [->| [->| ->]]; cbn [negb andb Z.eqb]; try done.
  do 2 f_equal. by apply (get_put_be_small 4).
Qed.

Definition node_info_valid (ni : tlv_node_info) : Prop :=
  0 < ni_node_id ni < 2 ^ 32 ∧ 0 ≤ ni_data_center_id ni < 2 ^ 32.

Lemma run_tlvs_ok {St} (body : Z → list byte → M St unit) t v xs ok s s' :
  body t v s = (Ok tt, s') → run_tlvs body ((t, v) :: xs) ok s = run_tlvs body xs ok s'.
Proof. intros E. cbn [run_tlvs]. by rewrite (bind_ok _ _ _ _ _ E). Qed.

Lemma node_info_body_node_id n s :
  0 ≤ n < 2 ^ 32 →
  node_info_opt TLV_OPT_NODE_ID (put_be 4 n) s = (Ok tt, set_ni_node_id n s).
Proof.
  intros Hn. assert (H : it_holds (it_of TLV_OPT_NODE_ID (put_be 4 n)) _ _)
    by (apply it_holds_it_of; done).
  unfold node_info_opt, node_info_body. rewrite (holds_type _ _ _ H). cbn [Z.eqb].
  unfold store. by rewrite (decode_u32_enc _ _ _ H Hn).
Qed.

Lemma node_info_body_data_center_id n s :
  0 ≤ n < 2 ^ 32 →
  node_info_opt TLV_OPT_DATA_CENTER_ID (put_be 4 n) s = (Ok tt, set_ni_data_center_id n s).
Proof.
  intros Hn. assert (H : it_holds (it_of TLV_OPT_DATA_CENTER_ID (put_be 4 n)) _ _)
    by (apply it_holds_it_of; done).
  unfold node_info_opt, node_info_body. rewrite (holds_type _ _ _ H). 
  unfold store. by rewrite (decode_u32_enc _ _ _ H Hn).
Qed.

Lemma node_info_body_node_state st s :
  st ≠ TLV_NODE_STATE_NOT_SET →
  node_info_opt TLV_OPT_NODE_STATE (put_be 1 (node_state_to_z st)) s =
  (Ok tt, set_ni_node_state st s).
Proof. by destruct st. Qed.

Lemma node_info_of_enc ni : node_info_valid ni → node_info_of (node_info_enc ni) = Ok ni.
Proof.
  intros [Hn Hd]. unfold node_info_of, node_info_enc.
  rewrite parse_tlvs_enc; [|done|].
  2:{ unfold node_info_tlvs. repeat case_match; repeat constructor; done. }
  unfold node_info_tlvs. destruct ni as [nid dc st].
  cbn [ni_node_id ni_data_center_id ni_node_state] in *. cbv beta iota.
  erewrite run_tlvs_ok by (apply node_info_body_node_id; lia).
  assert (E1 : run_tlvs node_info_opt
      ((if dc =? 0 then [] else [(TLV_OPT_DATA_CENTER_ID, put_be 4 dc)]) ++
       (if bool_decide (st = TLV_NODE_STATE_NOT_SET) then []
        else [(TLV_OPT_NODE_STATE, put_be 1 (node_state_to_z st))])) true
      (set_ni_node_id nid node_info_zero) = (Ok 0, mk_node_info nid dc st)).
  { destruct (dc =? 0) eqn:Edc; zbool; [subst dc|]; cbn [app];
      [|erewrite run_tlvs_ok by (apply node_info_body_data_center_id; lia)];
      (destruct (bool_decide_reflect (st = TLV_NODE_STATE_NOT_SET)) as [->|Hst]; [done|];
       by erewrite run_tlvs_ok by (by apply node_info_body_node_state)). }
  rewrite E1. cbn [negb Z.eqb ni_node_id]. by rewrite (proj2 (Z.eqb_neq nid 0)) by lia.
Qed.

(** ** Properties *)

(** The encoder [m] writes one option into an empty buffer: it succeeds when there is memory
    and the buffer may grow to the size of the option, and whenever it succeeds an iterator over
    the buffer finds that option and nothing else, and there [P] holds. *)
Definition opt_roundtrip (m : M (dynar * heap) unit) (t : Z) (P : tlv_iterator → Prop) : Prop :=
  (∃ n, 4 ≤ n < 2 ^ 16 + 4 ∧ ∀ max, n ≤ max < 2 ^ 62 →
     ∃ d, m (dynar_init max, []) = (Ok tt, (d, [])) ∧ size d = n) ∧
  ∀ max h d h' beyond,
    0 ≤ max < 2 ^ 62 → m (dynar_init max, h) = (Ok tt, (d, h')) →
    ∃ it, tlv_iter_next (tlv_iter_init beyond d 0) = (1, it) ∧ tlv_iter_get_type it = t ∧
          P it ∧ fst (tlv_iter_next it) = 0.

Lemma it_holds_first beyond d t v :
  wf d → contents d = tlv_enc t v → tlv_fits (t, v) →
  it_holds (it_set_pos 0 (tlv_iter_init beyond d 0)) t v.
Proof.
  intros Hwf Hc [Ht Hv]. pose proof (length_contents d Hwf) as Hlen.
  rewrite Hc, length_tlv_enc in Hlen.
  assert (Et : t = get_be (put_be 2 t)) by (by rewrite get_put_be_small).
  assert (El : get_be (put_be 2 (Z.of_nat (length v))) = Z.of_nat (length v))
    by (rewrite get_put_be_small; lia).
  rewrite put_be_2 in Et. rewrite Et. rewrite put_be_2 in El.
  eapply (holds_at _ _ _ _ (z2b (Z.shiftr (Z.of_nat (length v)) 8)) (z2b (Z.of_nat (length v)))
    _ (Z.of_nat (length v)));
    cbn [tlv_iter_init tlv_iter_init_str it_msg]; rewrite ?El;
    rewrite ?mem_read_dynar by (done || lia); rewrite ?Hc.
  - unfold tlv_enc. by rewrite !put_be_2.
  - unfold tlv_enc. by rewrite !put_be_2.
  - done.
  - lia.
  - rewrite take_take, Nat.min_id, Nat2Z.id. symmetry. apply firstn_all.
Qed.

Lemma opt_roundtrip_intro m t v (P : tlv_iterator → Prop) :
  appends m (tlv_enc t v) → tlv_fits (t, v) → (∀ it, it_holds it t v → P it) →
  opt_roundtrip m t P.
Proof.
  intros Hm Hf HP. split.
  { exists (Z.of_nat (length (tlv_enc t v))). destruct Hf as [_ Hv].
    rewrite length_tlv_enc. split; [lia|]. intros max Hmax.
    destruct (appends_total m (tlv_enc t v) (dynar_init max) Hm) as (d & E & Hwf & Hc & _);
      [apply wf_init; lia|rewrite length_tlv_enc; cbn [size maximum_size dynar_init]; lia|].
    exists d. split; [done|]. by rewrite <-(length_contents d Hwf), Hc, app_nil_l, length_tlv_enc. }
  intros max h d h' beyond Hmax E.
  specialize (Hm _ h (wf_init _ Hmax)). rewrite E in Hm. destruct Hm as (Hwf & Hc & _).
  simpl in Hc. pose proof (it_holds_first beyond d t v Hwf Hc Hf) as H.
  pose proof (length_contents d Hwf) as Hs. rewrite Hc, length_tlv_enc in Hs.
  pose proof (holds_len _ _ _ H) as Hl. destruct Hf as [_ Hv].
  exists (it_set_pos 0 (tlv_iter_init beyond d 0)). split_and!; [|apply H|by apply HP|].
  - unfold tlv_iter_next. cbn [negb it_iter_next_called tlv_iter_init tlv_iter_init_str
      it_msg_header_len]. unfold tlv_iter_check. rewrite Hl.
    cbn [it_msg_len it_current_pos it_set_pos tlv_iter_init tlv_iter_init_str].
    rewrite u64_small by (unfold TLV_TYPE_LENGTH, TLV_LENGTH_LENGTH; lia).
    by rewrite (proj2 (Z.ltb_ge _ _)) by (unfold TLV_TYPE_LENGTH, TLV_LENGTH_LENGTH; lia).
  - unfold tlv_iter_next. rewrite Hl.
    cbn [negb it_iter_next_called it_set_pos it_msg_len it_current_pos tlv_iter_init
      tlv_iter_init_str].
    rewrite u64_small by (unfold TLV_TYPE_LENGTH, TLV_LENGTH_LENGTH; lia).
    by rewrite (proj2 (Z.leb_le _ _)) by (unfold TLV_TYPE_LENGTH, TLV_LENGTH_LENGTH; lia).
Qed.

Ltac roundtrip lem :=
  eapply opt_roundtrip_intro; [apply lem; done || lia | done | intros it Hit].

Definition u16_list_valid (l : list Z) : Prop :=
  Z.of_nat (length l) < 2 ^ 15 ∧ Forall (λ x, 0 ≤ x < 2 ^ 16) l.

Lemma decode_two_arrays it t l :
  it_holds it t (u16s_enc l) → u16_list_valid l →
  tlv_iter_decode_supported_options it (0, []) = (Ok l, (Z.of_nat (length l), [])).
Proof.
  intros Hit [_ Hall]. pose proof (decode_supported_options_enc _ _ _ 0 [] Hit Hall) as Hd.
  destruct (tlv_iter_decode_supported_options _ _) as [[l'|c] [n h]].
  - destruct Hd as (-> & -> & [k Hk]). by destruct k, h.
  - destruct Hd as (_ & _ & _ & Hin). inversion Hin.
Qed.

Lemma u16_array_fits t l : 0 ≤ t < 2 ^ 16 → u16_list_valid l → tlv_fits (t, u16s_enc l).
Proof. intros ? [? _]. split; [done|]. rewrite length_u16s_enc. lia. Qed.

(** C37: each of the 24 options of the protocol survives the wire: its encoder succeeds with
    memory and room for the option, and an iterator over the buffer into which it wrote the
    option finds exactly that option, whose decoder returns the value that was encoded.  The
    values that are not sent: the heuristics [UNDEFINED] are refused by the encoder, the vote
    [UNDEFINED] and the node state [NOT_SET] by the decoder; a tie-breaker loses the node id
    its mode does not use. *)
Theorem tlv_options_roundtrip :
  (∀ x, 0 ≤ x < 2 ^ 32 → opt_roundtrip (tlv_add_msg_seq_number x) TLV_OPT_MSG_SEQ_NUMBER
     (λ it, tlv_iter_decode_u32 it = Ok x)) ∧
  (∀ s, Z.of_nat (length s) < 2 ^ 16 →
     opt_roundtrip (tlv_add_cluster_name s) TLV_OPT_CLUSTER_NAME
     (λ it, tlv_iter_decode_str it [] = (Ok s, []))) ∧
  (∀ v, opt_roundtrip (tlv_add_tls_supported v) TLV_OPT_TLS_SUPPORTED
     (λ it, tlv_iter_decode_tls_supported it = Ok v)) ∧
  (∀ x, 0 ≤ x < 2 ^ 8 →
     opt_roundtrip (tlv_add_tls_client_cert_required x) TLV_OPT_TLS_CLIENT_CERT_REQUIRED
     (λ it, tlv_iter_decode_client_cert_required it = Ok x)) ∧
  (∀ l, u16_list_valid l →
     opt_roundtrip (tlv_add_u16_array TLV_OPT_SUPPORTED_MESSAGES l) TLV_OPT_SUPPORTED_MESSAGES
     (λ it, tlv_iter_decode_u16_array it (0, []) = (Ok l, (Z.of_nat (length l), [])))) ∧
  (∀ l, u16_list_valid l →
     opt_roundtrip (tlv_add_supported_options l) TLV_OPT_SUPPORTED_OPTIONS
     (λ it, tlv_iter_decode_supported_options it (0, []) = (Ok l, (Z.of_nat (length l), [])))) ∧
  (∀ x, 0 ≤ x < 2 ^ 16 → opt_roundtrip (tlv_add_reply_error_code x) TLV_OPT_REPLY_ERROR_CODE
     (λ it, tlv_iter_decode_reply_error_code it 0 = Ok x)) ∧
  (∀ x, 0 ≤ x < 2 ^ 32 →
     opt_roundtrip (tlv_add_server_maximum_request_size x) TLV_OPT_SERVER_MAXIMUM_REQUEST_SIZE
     (λ it, tlv_iter_decode_u32 it = Ok x)) ∧
  (∀ x, 0 ≤ x < 2 ^ 32 →
     opt_roundtrip (tlv_add_server_maximum_reply_size x) TLV_OPT_SERVER_MAXIMUM_REPLY_SIZE
     (λ it, tlv_iter_decode_u32 it = Ok x)) ∧
  (∀ x, 0 ≤ x < 2 ^ 32 → opt_roundtrip (tlv_add_node_id x) TLV_OPT_NODE_ID
     (λ it, tlv_iter_decode_u32 it = Ok x)) ∧
  (∀ l, u16_list_valid l →
     opt_roundtrip (tlv_add_supported_decision_algorithms l) TLV_OPT_SUPPORTED_DECISION_ALGORITHMS
     (λ it, tlv_iter_decode_supported_decision_algorithms it (0, []) =
        (Ok l, (Z.of_nat (length l), [])))) ∧
  (∀ x, 0 ≤ x < 2 ^ 16 → opt_roundtrip (tlv_add_decision_algorithm x) TLV_OPT_DECISION_ALGORITHM
     (λ it, tlv_iter_decode_decision_algorithm it = Ok x)) ∧
  (∀ x, 0 ≤ x < 2 ^ 32 → opt_roundtrip (tlv_add_heartbeat_interval x) TLV_OPT_HEARTBEAT_INTERVAL
     (λ it, tlv_iter_decode_u32 it = Ok x)) ∧
  (∀ r, ring_id_valid r → opt_roundtrip (tlv_add_ring_id r) TLV_OPT_RING_ID
     (λ it, tlv_iter_decode_ring_id it = Ok r)) ∧
  (∀ x, 0 ≤ x < 2 ^ 64 → opt_roundtrip (tlv_add_config_version x) TLV_OPT_CONFIG_VERSION
     (λ it, tlv_iter_decode_u64 it = Ok x)) ∧
  (∀ x, 0 ≤ x < 2 ^ 32 → opt_roundtrip (tlv_add_data_center_id x) TLV_OPT_DATA_CENTER_ID
     (λ it, tlv_iter_decode_u32 it = Ok x)) ∧
  (∀ v, opt_roundtrip (tlv_add_node_state v) TLV_OPT_NODE_STATE
     (λ it, tlv_iter_decode_node_state it =
        if decide (v = TLV_NODE_STATE_NOT_SET) then Err (-4) else Ok v)) ∧
  (∀ ni, node_info_valid ni → opt_roundtrip (tlv_add_node_info ni) TLV_OPT_NODE_INFO
     (λ it, tlv_iter_decode_node_info it = Ok ni)) ∧
  (∀ v, opt_roundtrip (tlv_add_node_list_type v) TLV_OPT_NODE_LIST_TYPE
     (λ it, tlv_iter_decode_node_list_type it = Ok v)) ∧
  (∀ v, opt_roundtrip (tlv_add_vote v) TLV_OPT_VOTE (λ it, tlv_iter_decode_vote it =
     if decide (v = TLV_VOTE_UNDEFINED) then Err (-4) else Ok v)) ∧
  (∀ v, opt_roundtrip (tlv_add_quorate v) TLV_OPT_QUORATE
     (λ it, tlv_iter_decode_quorate it = Ok v)) ∧
  (∀ tb, tie_breaker_valid tb → opt_roundtrip (tlv_add_tie_breaker tb) TLV_OPT_TIE_BREAKER
     (λ it, tlv_iter_decode_tie_breaker it = Ok (tie_breaker_norm tb))) ∧
  (∀ v, if decide (v = TLV_HEURISTICS_UNDEFINED) then
       ∀ s, tlv_add_heuristics v s = (Err (-1), s)
     else opt_roundtrip (tlv_add_heuristics v) TLV_OPT_HEURISTICS
       (λ it, tlv_iter_decode_heuristics it = Ok v)) ∧
  (∀ v, opt_roundtrip (tlv_add_keep_active_partition_tie_breaker v)
     TLV_OPT_KEEP_ACTIVE_PARTITION_TIE_BREAKER
     (λ it, tlv_iter_decode_keep_active_partition_tie_breaker it = Ok v)).
Proof.
  split_and!.
  - intros. roundtrip tlv_add_u32_appends. by eapply decode_u32_enc.
  - intros. roundtrip tlv_add_string_appends. by erewrite decode_str_enc.
  - intros v. roundtrip tlv_add_u8_appends. eapply (decode_enum8_enc _ _ _ _ v Hit); by destruct v.
  - intros x Hx. roundtrip tlv_add_u8_appends. rewrite (u8_small x Hx) in Hit. by eapply decode_u8_enc.
  - intros l Hl. eapply opt_roundtrip_intro; [apply tlv_add_u16_array_appends, Hl|by apply u16_array_fits|].
    intros it Hit. by rewrite (decode_u16_array_enc _ _ _ 0 [] Hit (proj2 Hl)).
  - intros l Hl. eapply opt_roundtrip_intro; [by apply malloc_u16_array_appends, Hl|by apply u16_array_fits|].
    intros it Hit. by eapply decode_two_arrays.
  - intros x Hx. roundtrip tlv_add_u16_appends. unfold tlv_iter_decode_reply_error_code.
    rewrite (u16_small x Hx) in Hit. by erewrite (decode_u16_enc _ _ _ Hit).
  - intros x Hx. roundtrip tlv_add_u32_appends. rewrite (u32_small x Hx) in Hit. by eapply decode_u32_enc.
  - intros x Hx. roundtrip tlv_add_u32_appends. rewrite (u32_small x Hx) in Hit. by eapply decode_u32_enc.
  - intros. roundtrip tlv_add_u32_appends. by eapply decode_u32_enc.
  - intros l Hl. eapply opt_roundtrip_intro; [by apply malloc_u16_array_appends, Hl|by apply u16_array_fits|].
    intros it Hit. by eapply decode_two_arrays.
  - intros x Hx. roundtrip tlv_add_u16_appends. unfold tlv_iter_decode_decision_algorithm.
    rewrite (u16_small x Hx) in Hit. by erewrite (decode_u16_enc _ _ _ Hit).
  - intros. roundtrip tlv_add_u32_appends. by eapply decode_u32_enc.
  - intros. roundtrip tlv_add_ring_id_appends. by eapply decode_ring_id_enc.
  - intros. roundtrip tlv_add_u64_appends. by eapply decode_u64_enc.
  - intros. roundtrip tlv_add_u32_appends. by eapply decode_u32_enc.
  - intros v. roundtrip tlv_add_u8_appends. destruct (decide (v = TLV_NODE_STATE_NOT_SET)) as [->|Hv].
    + unfold tlv_iter_decode_node_state, decode_enum8. by rewrite (decode_u8_enc _ _ _ Hit).
    + eapply (decode_enum8_enc _ _ _ _ v Hit); by destruct v.
  - intros ni Hni. pose proof (length_node_info_enc ni).
    eapply opt_roundtrip_intro; [apply tlv_add_node_info_appends|split; [done|lia]|].
    intros it Hit. rewrite (decode_node_info_holds _ _ _ Hit) by lia. by apply node_info_of_enc.
  - intros v. roundtrip tlv_add_u8_appends. eapply (decode_enum8_enc _ _ _ _ v Hit); by destruct v.
  - intros v. roundtrip tlv_add_u8_appends. destruct (decide (v = TLV_VOTE_UNDEFINED)) as [->|Hv].
    + unfold tlv_iter_decode_vote, decode_enum8. by rewrite (decode_u8_enc _ _ _ Hit).
    + eapply (decode_enum8_enc _ _ _ _ v Hit); by destruct v.
  - intros v. roundtrip tlv_add_u8_appends. eapply (decode_enum8_enc _ _ _ _ v Hit); by destruct v.
  - intros. roundtrip tlv_add_tie_breaker_appends. by eapply decode_tie_breaker_enc.
  - intros v. destruct (decide (v = TLV_HEURISTICS_UNDEFINED)) as [->|Hv]; [done|].
    unfold tlv_add_heuristics. rewrite bool_decide_eq_false_2 by done.
    roundtrip tlv_add_u8_appends. eapply (decode_enum8_enc _ _ _ _ v Hit); by destruct v.
  - intros v. roundtrip tlv_add_u8_appends. eapply (decode_enum8_enc _ _ _ _ v Hit); by destruct v.
Qed.

Lemma tlv_options_roundtrip_witness :
  node_info_valid (mk_node_info 3 7 TLV_NODE_STATE_MEMBER) ∧
  opt_roundtrip (tlv_add_node_info (mk_node_info 3 7 TLV_NODE_STATE_MEMBER)) TLV_OPT_NODE_INFO
    (λ it, tlv_iter_decode_node_info it = Ok (mk_node_info 3 7 TLV_NODE_STATE_MEMBER)) ∧
  match tlv_add_node_info (mk_node_info 3 7 TLV_NODE_STATE_MEMBER) (dynar_init 64, []) with
  | (Ok _, (d, _)) => size d = 25
  | _ => False
  end.
Proof.
  assert (Hv : node_info_valid (mk_node_info 3 7 TLV_NODE_STATE_MEMBER))
    by (unfold node_info_valid; cbn; lia).
  split; [exact Hv|]. split; [|vm_compute; reflexivity].
  destruct tlv_options_roundtrip as (_ & _ & _ & _ & _ & _ & _ & _ & _ & _ & _ & _ & _ & _ & _ &
    _ & _ & Hni & _). exact (Hni _ Hv).
Defined.

(** An invariant of the body of a loop; [Q] is what holds when it returns from inside. *)
Lemma run_tlvs_inv {St} (body : Z → list byte → M St unit) (I : St → Prop) (Q : Z → St → Prop)
    xs ok s :
  (∀ t v s, I s → match body t v s with (Ok _, s') => I s' | (Err c, s') => Q c s' end) →
  I s →
  match run_tlvs body xs ok s with
  | (Ok r, s') => I s' ∧ (r = 0 ∨ r = -1)
  | (Err c, s') => Q c s'
  end.
Proof.
  intros Hb. revert s. induction xs as [|[t v] xs IH]; intros s Hs; cbn [run_tlvs].
  - cbn. split; [done|]. destruct ok; lia.
  - specialize (Hb t v s Hs). unfold mbind, M_bind.
    destruct (body t v s) as [[u|c] s']; [by apply IH|done].
Qed.

Lemma decode_u32_range it : match tlv_iter_decode_u32 it with
  | Ok x => 0 ≤ x < 2 ^ 32 | Err c => c = -1 end.
Proof.
  unfold tlv_iter_decode_u32. case_if; [done|].
  pose proof (get_be_range (mem_read (tlv_iter_get_data it) 0 4)) as H.
  by rewrite length_mem_read in H.
Qed.

Lemma node_info_opt_ok t v s :
  0 ≤ ni_node_id s < 2 ^ 32 ∧ 0 ≤ ni_data_center_id s < 2 ^ 32 →
  match node_info_opt t v s with
  | (Ok _, s') => 0 ≤ ni_node_id s' < 2 ^ 32 ∧ 0 ≤ ni_data_center_id s' < 2 ^ 32
  | (Err c, _) => c = -1 ∨ c = -4
  end.
Proof.
  intros Hs. unfold node_info_opt, node_info_body, store.
  pose proof (decode_u32_range (it_of t v)) as Hr.
  repeat case_if; try done.
  - destruct (tlv_iter_decode_u32 _); simpl; [tauto|lia].
  - destruct (tlv_iter_decode_u32 _); simpl; [tauto|lia].
  - unfold tlv_iter_decode_node_state, decode_enum8.
    destruct (tlv_iter_decode_u8 _) as [u|c]; [destruct (node_state_of_z u)|]; cbn; tauto.
Qed.

Lemma decode_node_info_codes it t v :
  it_holds it t v →
  match tlv_iter_decode_node_info it with
  | Ok ni => node_info_valid ni
  | Err c => c = -1 ∨ c = -3 ∨ c = -4
  end.
Proof.
  intros H.
  assert (Z.of_nat (length v) < 2 ^ 62).
  { rewrite <- (holds_len _ _ _ H). pose proof (get_len_range it). lia. }
  rewrite (decode_node_info_holds _ _ _ H) by done. unfold node_info_of.
  destruct (parse_tlvs v) as [xs ok].
  pose proof (run_tlvs_inv node_info_opt _ (λ c _, c = -1 ∨ c = -4) xs ok node_info_zero
    node_info_opt_ok) as Hr.
  destruct (run_tlvs _ _ _ _) as [[r|c] ni].
  - destruct Hr as [[Hn Hd] _]; [cbn; lia|]. repeat case_if; [lia|lia|].
    unfold node_info_valid. lia.
  - destruct Hr; [cbn; lia|lia..].
Qed.

(** Decoding the information about a node from an arbitrary option of an arbitrary
    message ends, reads nothing but the bytes of the option (two iterators at equal
    options agree, wherever the options lie), and yields a node with a non-zero 32-bit
    id or one of the error codes -1, -3 and -4. *)
Theorem tlv_iter_decode_node_info_safe it1 it2 :
  it_sim it1 it2 →
  tlv_iter_decode_node_info it1 = tlv_iter_decode_node_info it2 ∧
  match tlv_iter_decode_node_info it1 with
  | Ok ni => node_info_valid ni
  | Err c => c = -1 ∨ c = -3 ∨ c = -4
  end.
Proof.
  intros H. split; [by apply decode_node_info_proper|]. destruct H as (t & v & H & _).
  by apply (decode_node_info_codes _ _ _ H).
Qed.

Lemma tlv_iter_decode_node_info_safe_witness :
  it_sim (it_of TLV_OPT_NODE_INFO [x00; x09; x00; x04; x00; x00; x00; x05])
         (it_of TLV_OPT_NODE_INFO [x00; x09; x00; x04; x00; x00; x00; x05]) ∧
  tlv_iter_decode_node_info
    (it_of TLV_OPT_NODE_INFO [x00; x09; x00; x04; x00; x00; x00; x05]) =
  Ok (mk_node_info 5 0 TLV_NODE_STATE_NOT_SET).
Proof.
  assert (H : it_sim (it_of TLV_OPT_NODE_INFO [x00; x09; x00; x04; x00; x00; x00; x05])
                     (it_of TLV_OPT_NODE_INFO [x00; x09; x00; x04; x00; x00; x00; x05])).
  { eexists _, _. split; apply it_holds_it_of; done. }
  pose proof (tlv_iter_decode_node_info_safe _ _ H) as [_ _].
  split; [exact H|]. vm_compute. reflexivity.
Defined.

(** [tlv_heuristics_cmp] is a total order: passed heuristics beat unknown ones, and
    those beat failed ones; every vote that depends on it is antisymmetric. *)
Theorem tlv_heuristics_cmp_total_order h1 h2 h3 :
  tlv_heuristics_cmp h1 h2 = - tlv_heuristics_cmp h2 h1 ∧
  (tlv_heuristics_cmp h1 h2 = 0 ↔ h1 = h2) ∧
  (0 ≤ tlv_heuristics_cmp h1 h2 → 0 ≤ tlv_heuristics_cmp h2 h3 → 0 ≤ tlv_heuristics_cmp h1 h3) ∧
  0 ≤ tlv_heuristics_cmp TLV_HEURISTICS_PASS h1 ∧
  0 ≤ tlv_heuristics_cmp h1 TLV_HEURISTICS_FAIL.
Proof. destruct h1, h2, h3; cbn; split_and!; try split; intros; done || lia. Qed.

Lemma tlv_heuristics_cmp_total_order_witness :
  0 ≤ tlv_heuristics_cmp TLV_HEURISTICS_PASS TLV_HEURISTICS_FAIL.
Proof.
  pose proof (tlv_heuristics_cmp_total_order TLV_HEURISTICS_PASS TLV_HEURISTICS_UNDEFINED
    TLV_HEURISTICS_FAIL) as (_ & _ & H & _).
  apply H; cbn; lia.
Defined.
