(* ===== verification/NodeList.v ===== *)
(** Node lists (node-list.c): the configuration, membership and quorum lists a client
    sends.  A TAILQ is the list of its entries in order; a pointer to an entry is its
    position.  The main result is that [node_list_eq] decides equality up to order. *)
From stdpp Require Import list.
From S2P Require Import Prelude Tlv.
Local Open Scope Z_scope.

Record node_list_entry := mk_node {
  node_id : Z;
  data_center_id : Z;
  node_state : tlv_node_state
}.

#[export] Instance node_list_entry_eq_dec : EqDecision node_list_entry.
Proof. solve_decision. Defined.

Definition node_list : Type := list node_list_entry.

(** The result of a function that returns a NULL pointer. *)
Definition NULL : Z := 0.

Definition node_list_init : node_list := [].

Definition node_list_add (node_id data_center_id : Z) (node_state : tlv_node_state) :
    M (node_list * heap) nat := λ '(list, h),
  match malloc h with
  | (None, h') => (Err NULL, (list, h'))
  | (Some _, h') =>
      (Ok (length list), (list ++ [mk_node node_id data_center_id node_state], h'))
  end.

Definition node_list_add_from_node_info (node_info : tlv_node_info) : M (node_list * heap) nat :=
  node_list_add (ni_node_id node_info) (ni_data_center_id node_info) (ni_node_state node_info).

Definition node_list_free (list : node_list) : node_list := [].

(** [TAILQ_FOREACH] over the source, adding to the destination. *)
Fixpoint node_list_clone_loop (src_list : node_list) : M (node_list * heap) unit := λ '(dst_list, h),
  match src_list with
  | [] => (Ok tt, (dst_list, h))
  | node_entry :: src_list' =>
      match node_list_add (node_id node_entry) (data_center_id node_entry)
              (node_state node_entry) (dst_list, h) with
      | (Err _, (dst_list', h')) => (Err (-1), (node_list_free dst_list', h'))
      | (Ok _, s') => node_list_clone_loop src_list' s'
      end
  end.

Definition node_list_clone (src_list : node_list) : M (node_list * heap) unit := λ '(_, h),
  node_list_clone_loop src_list (node_list_init, h).

Definition node_list_entry_to_tlv_node_info (node : node_list_entry) : tlv_node_info :=
  mk_node_info (node_id node) (data_center_id node) (node_state node).

Definition node_list_del (list : node_list) (node : nat) : node_list := delete node list.

Definition node_list_is_empty (list : node_list) : bool :=
  match list with [] => true | _ => false end.

(** The first entry with the node id, with its position. *)
Fixpoint node_list_find_node_id (list : node_list) (nid : Z) : option (nat * node_list_entry) :=
  match list with
  | [] => None
  | node_entry :: list' =>
      if node_id node_entry =? nid then Some (O, node_entry)
      else match node_list_find_node_id list' nid with
           | Some (i, e) => Some (S i, e)
           | None => None
           end
  end.

(** The loop of [node_list_eq]: [None] is the jump to [return_res] with [res = 0]. *)
Fixpoint node_list_eq_loop (list1 tmp_list : node_list) : option node_list :=
  match list1 with
  | [] => Some tmp_list
  | node1_entry :: list1' =>
      match node_list_find_node_id tmp_list (node_id node1_entry) with
      | None => None
      | Some (i, node2_entry) =>
          if negb (node_id node1_entry =? node_id node2_entry) ||
             negb (data_center_id node1_entry =? data_center_id node2_entry) ||
             negb (bool_decide (node_state node1_entry = node_state node2_entry))
          then None
          else node_list_eq_loop list1' (node_list_del tmp_list i)
      end
  end.

Definition node_list_eq (list1 list2 : node_list) (h : heap) : Z * heap :=
  match node_list_clone list2 (node_list_init, h) with
  | (Err _, (_, h')) => (-1, h')
  | (Ok _, (tmp_list, h')) =>
      match node_list_eq_loop list1 tmp_list with
      | None => (0, h')
      | Some tmp_list' => if negb (node_list_is_empty tmp_list') then (0, h') else (1, h')
      end
  end.

Definition node_list_size (nlist : node_list) : Z := foldl (λ res _, res + 1) 0 nlist.

(** ** Lemmas *)

Lemma node_list_size_length l : node_list_size l = Z.of_nat (length l).
Proof.
  unfold node_list_size.
  assert (H : ∀ a, foldl (λ res (_ : node_list_entry), res + 1) a l = a + Z.of_nat (length l)).
  { induction l as [|x l IH]; intros a; cbn [foldl length]; [lia|]. rewrite IH. lia. }
  by rewrite H.
Qed.

Lemma node_list_clone_loop_spec src dst h :
  match node_list_clone_loop src (dst, h) with
  | (Ok _, (l, h')) => l = dst ++ src ∧ h' `suffix_of` h
  | (Err c, (l, h')) => c = -1 ∧ l = [] ∧ h' `suffix_of` h ∧ None ∈ h
  end.
Proof.
  revert dst h. induction src as [|e src IH]; intros dst h; cbn [node_list_clone_loop].
  - by rewrite app_nil_r.
  - unfold node_list_add. destruct (malloc h) as [[j|] h'] eqn:E.
    + specialize (IH (dst ++ [e]) h'). pose proof (malloc_suffix _ _ _ E).
      destruct e as [n d s]. cbn [node_id data_center_id node_state] in *.
      destruct (node_list_clone_loop _ _) as [[u|c] [l h'']].
      * destruct IH as [-> ?]. rewrite <- app_assoc. split; [done|by etrans].
      * destruct IH as (-> & -> & ? & ?). split_done; [by etrans|by eapply suffix_in].
    + split_done; eauto with qnet.
Qed.

Lemma find_node_id_Some l nid i e :
  node_list_find_node_id l nid = Some (i, e) →
  l !! i = Some e ∧ node_id e = nid ∧ l ≡ₚ e :: node_list_del l i.
Proof.
  revert i. induction l as [|x l IH]; intros i; cbn [node_list_find_node_id]; [done|].
  case_if.
  - intros ?. by simplify_eq.
  - destruct (node_list_find_node_id l nid) as [[j e']|]; [|done].
    intros ?; simplify_eq. destruct (IH _ eq_refl) as (? & ? & Hp). split_done.
    unfold node_list_del in *. cbn [delete list_delete]. etrans; [by apply perm_skip|].
    apply perm_swap.
Qed.

Lemma find_node_id_None l nid :
  node_list_find_node_id l nid = None ↔ nid ∉ (node_id <$> l).
Proof.
  induction l as [|x l IH]; cbn [node_list_find_node_id]; [split; [intros _; by apply not_elem_of_nil|done]|].
  rewrite fmap_cons, not_elem_of_cons. case_if; [by split; [|intros []]|].
  destruct (node_list_find_node_id l nid) as [[j e]|].
  - split; [done|]. intros [_ Hn]. by apply IH in Hn.
  - split; [|done]. intros _. by split; [congruence|apply IH].
Qed.

Lemma eq_test_spec (e1 e2 : node_list_entry) :
  negb (node_id e1 =? node_id e2) || negb (data_center_id e1 =? data_center_id e2) ||
  negb (bool_decide (node_state e1 = node_state e2)) = false ↔ e1 = e2.
Proof.
  destruct e1 as [n1 d1 s1], e2 as [n2 d2 s2]. cbn [node_id data_center_id node_state].
  rewrite !orb_false_iff, !negb_false_iff, !Z.eqb_eq, bool_decide_eq_true.
  split; [by intros [[-> ->] ->]|by intros [= -> -> ->]].
Qed.

(** Success leaves exactly the entries of the copy that were not matched. *)
Lemma eq_loop_sound l1 l2 r : node_list_eq_loop l1 l2 = Some r → l2 ≡ₚ l1 ++ r.
Proof.
  revert l2. induction l1 as [|e l1 IH]; intros l2; cbn [node_list_eq_loop].
  - by intros [= ->].
  - destruct (node_list_find_node_id l2 (node_id e)) as [[i e2]|] eqn:Ef; [|done].
    destruct (_ || _) eqn:Et; [done|]. apply eq_test_spec in Et as ->.
    intros Hl. apply find_node_id_Some in Ef as (_ & _ & Hp).
    rewrite Hp. cbn. by rewrite <- (IH _ Hl).
Qed.

Lemma NoDup_id_lookup l i j e1 e2 :
  NoDup (node_id <$> l) → l !! i = Some e1 → l !! j = Some e2 → node_id e1 = node_id e2 → e1 = e2.
Proof.
  intros Hd H1 H2 E. assert (i = j).
  { eapply NoDup_lookup; [done|..]; rewrite list_lookup_fmap, ?H1, ?H2; cbn; by rewrite ?E. }
  by simplify_eq.
Qed.

Lemma eq_loop_complete l1 l2 r :
  NoDup (node_id <$> l2) → l2 ≡ₚ l1 ++ r → ∃ r', node_list_eq_loop l1 l2 = Some r'.
Proof.
  revert l2. induction l1 as [|e l1 IH]; intros l2 Hd Hp; cbn [node_list_eq_loop]; [by eexists|].
  assert (Hin : e ∈ l2) by (rewrite Hp; left).
  destruct (node_list_find_node_id l2 (node_id e)) as [[i e2]|] eqn:Ef.
  - apply find_node_id_Some in Ef as (Hi & Hid & Hp2).
    apply list_elem_of_lookup in Hin as [j Hj].
    pose proof (NoDup_id_lookup l2 i j e2 e Hd Hi Hj Hid) as ->.
    rewrite (proj2 (eq_test_spec e e) eq_refl).
    assert (Hd2 : NoDup (node_id <$> e :: node_list_del l2 i)).
    { eapply NoDup_Permutation_proper; [|exact Hd]. symmetry. by apply fmap_Permutation. }
    rewrite fmap_cons in Hd2. apply IH; [by inversion Hd2|].
    apply (Permutation_cons_inv (a := e)). etrans; [symmetry; exact Hp2|done].
  - apply find_node_id_None in Ef. destruct Ef. by apply list_elem_of_fmap_2.
Qed.

(** ** Properties *)

(** Two node lists are equal for the program exactly when one is a reordering of the
    other: [node_list_eq] never says 1 for lists that differ, and says 1 for equal ones
    when the node ids of the second list are distinct; -1 only when memory ran out. *)
Theorem node_list_eq_permutation l1 l2 h :
  NoDup (node_id <$> l2) →
  match node_list_eq l1 l2 h with
  | (r, h') => h' `suffix_of` h ∧ (r = 1 ∨ r = 0 ∨ r = -1 ∧ None ∈ h) ∧
               (r = 1 → l1 ≡ₚ l2) ∧ (r = 0 → ¬ l1 ≡ₚ l2)
  end.
Proof.
  intros Hd. unfold node_list_eq, node_list_clone, node_list_init.
  pose proof (node_list_clone_loop_spec l2 [] h) as Hc.
  destruct (node_list_clone_loop _ _) as [[u|c] [l h']].
  - destruct Hc as [-> Hh]. cbn [app].
    destruct (node_list_eq_loop l1 l2) as [r|] eqn:El.
    + apply eq_loop_sound in El. destruct r as [|e r]; cbn [node_list_is_empty negb].
      * rewrite app_nil_r in El. split_done.
      * split_done. intros _ Hp. rewrite <- Hp in El.
        apply Permutation_length in El. rewrite length_app in El. cbn in El. lia.
    + split_done. intros _ Hp.
      destruct (eq_loop_complete l1 l2 [] Hd) as [r' E]; [by rewrite app_nil_r|congruence].
  - destruct Hc as (-> & -> & ? & ?). split_done. by right; right.
Qed.

Lemma node_list_eq_permutation_witness :
  NoDup (node_id <$> [mk_node 1 0 TLV_NODE_STATE_MEMBER; mk_node 2 0 TLV_NODE_STATE_DEAD]) ∧
  [mk_node 2 0 TLV_NODE_STATE_DEAD; mk_node 1 0 TLV_NODE_STATE_MEMBER] ≡ₚ
  [mk_node 1 0 TLV_NODE_STATE_MEMBER; mk_node 2 0 TLV_NODE_STATE_DEAD].
Proof.
  assert (Hd : NoDup (node_id <$> [mk_node 1 0 TLV_NODE_STATE_MEMBER;
    mk_node 2 0 TLV_NODE_STATE_DEAD])) by (apply (bool_decide_unpack _); reflexivity).
  split; [exact Hd|].
  pose proof (node_list_eq_permutation
    [mk_node 2 0 TLV_NODE_STATE_DEAD; mk_node 1 0 TLV_NODE_STATE_MEMBER] _ [] Hd) as H.
  vm_compute (node_list_eq _ _ _) in H. apply H. reflexivity.
Defined.
