(* ===== verification/Msg.v ===== *)
(** Messages (msg.c): the eighteen messages of the protocol, created into a dynamic
    array and decoded from one.

    A message is a 2-byte type, a 4-byte length of the rest, and TLV options.  Every
    [msg_create_*] has the frame [msg_create]: it clears the array, appends the header and
    the options, and fills the length in.  [msg_decode] runs [tlv_loop] over the options
    with [msg_decode_opt], the body of its [while] loop, as body. *)
From stdpp Require Import strings list.
From S2P Require Import Prelude Dynar Tlv NodeList.
Local Open Scope Z_scope.

Definition MSG_TYPE_LENGTH : Z := 2.
Definition MSG_LENGTH_LENGTH : Z := 4.

Definition MSG_TYPE_PREINIT : Z := 0.
Definition MSG_TYPE_PREINIT_REPLY : Z := 1.
Definition MSG_TYPE_STARTTLS : Z := 2.
Definition MSG_TYPE_INIT : Z := 3.
Definition MSG_TYPE_INIT_REPLY : Z := 4.
Definition MSG_TYPE_SERVER_ERROR : Z := 5.
Definition MSG_TYPE_SET_OPTION : Z := 6.
Definition MSG_TYPE_SET_OPTION_REPLY : Z := 7.
Definition MSG_TYPE_ECHO_REQUEST : Z := 8.
Definition MSG_TYPE_ECHO_REPLY : Z := 9.
Definition MSG_TYPE_NODE_LIST : Z := 10.
Definition MSG_TYPE_NODE_LIST_REPLY : Z := 11.
Definition MSG_TYPE_ASK_FOR_VOTE : Z := 12.
Definition MSG_TYPE_ASK_FOR_VOTE_REPLY : Z := 13.
Definition MSG_TYPE_VOTE_INFO : Z := 14.
Definition MSG_TYPE_VOTE_INFO_REPLY : Z := 15.
Definition MSG_TYPE_HEURISTICS_CHANGE : Z := 16.
Definition MSG_TYPE_HEURISTICS_CHANGE_REPLY : Z := 17.

Definition msg_static_supported_messages : list Z :=
  [MSG_TYPE_PREINIT; MSG_TYPE_PREINIT_REPLY; MSG_TYPE_STARTTLS; MSG_TYPE_INIT;
   MSG_TYPE_INIT_REPLY; MSG_TYPE_SERVER_ERROR; MSG_TYPE_SET_OPTION;
   MSG_TYPE_SET_OPTION_REPLY; MSG_TYPE_ECHO_REQUEST; MSG_TYPE_ECHO_REPLY;
   MSG_TYPE_NODE_LIST; MSG_TYPE_NODE_LIST_REPLY; MSG_TYPE_ASK_FOR_VOTE;
   MSG_TYPE_ASK_FOR_VOTE_REPLY; MSG_TYPE_VOTE_INFO; MSG_TYPE_VOTE_INFO_REPLY;
   MSG_TYPE_HEURISTICS_CHANGE; MSG_TYPE_HEURISTICS_CHANGE_REPLY].

Definition msg_get_header_length : Z := MSG_TYPE_LENGTH + MSG_LENGTH_LENGTH.

Definition msg_add_type (type : Z) : M (dynar * heap) unit := dynar_cat (put_be 2 (u16 type)).

Definition msg_get_type (beyond : mem) (msg : dynar) : Z :=
  get_be (mem_read (dynar_mem beyond msg) 0 2).

Definition msg_add_len : M (dynar * heap) unit := dynar_cat (put_be 4 0).

Definition msg_set_len (len : Z) (msg : dynar) : dynar :=
  set_data (block_write (data msg) (Z.to_nat MSG_TYPE_LENGTH) (put_be 4 (u32 len))) msg.

Definition msg_set_type (type : Z) (msg : dynar) : dynar :=
  set_data (block_write (data msg) 0 (put_be 2 (u16 type))) msg.

Definition msg_get_len (beyond : mem) (msg : dynar) : Z :=
  get_be (mem_read (dynar_mem beyond msg) MSG_TYPE_LENGTH 4).

(** ** Creating messages *)

(** The frame of the functions below: [dynar_clean], the header, [add_options] with a jump
    to [small_buf_err] on -1, [msg_set_len]; the size of the message or 0. *)
Definition msg_create (type : Z) (add_options : M (dynar * heap) unit) (s : dynar * heap) :
    Z * (dynar * heap) :=
  let '(msg, h) := s in
  match (or_fail (-1) (msg_add_type type);; or_fail (-1) msg_add_len;; add_options)
          (dynar_clean msg, h) with
  | (Err _, s') => (0, s')
  | (Ok _, (msg', h')) =>
      (size msg', (msg_set_len (size msg' - (MSG_TYPE_LENGTH + MSG_LENGTH_LENGTH)) msg', h'))
  end.

(** [if (cond) { if (add(...) == -1) goto small_buf_err; }] *)
Definition add_if (cond : bool) (add : M (dynar * heap) unit) : M (dynar * heap) unit :=
  if cond then or_fail (-1) add else mret tt.

Definition msg_create_preinit (cluster_name : list byte) (add_msg_seq_number : bool)
    (msg_seq_number : Z) : dynar * heap → Z * (dynar * heap) :=
  msg_create MSG_TYPE_PREINIT (
    add_if add_msg_seq_number (tlv_add_msg_seq_number msg_seq_number);;
    or_fail (-1) (tlv_add_cluster_name cluster_name)).

Definition msg_create_preinit_reply (add_msg_seq_number : bool) (msg_seq_number : Z)
    (tls_supported : tlv_tls_supported) (tls_client_cert_required : Z) :
    dynar * heap → Z * (dynar * heap) :=
  msg_create MSG_TYPE_PREINIT_REPLY (
    add_if add_msg_seq_number (tlv_add_msg_seq_number msg_seq_number);;
    or_fail (-1) (tlv_add_tls_supported tls_supported);;
    or_fail (-1) (tlv_add_tls_client_cert_required tls_client_cert_required)).

Definition msg_create_starttls (add_msg_seq_number : bool) (msg_seq_number : Z) :
    dynar * heap → Z * (dynar * heap) :=
  msg_create MSG_TYPE_STARTTLS (
    add_if add_msg_seq_number (tlv_add_msg_seq_number msg_seq_number)).

Definition msg_create_server_error (add_msg_seq_number : bool) (msg_seq_number : Z)
    (reply_error_code : Z) : dynar * heap → Z * (dynar * heap) :=
  msg_create MSG_TYPE_SERVER_ERROR (
    add_if add_msg_seq_number (tlv_add_msg_seq_number msg_seq_number);;
    or_fail (-1) (tlv_add_reply_error_code reply_error_code)).

Definition msg_convert_msg_type_array_to_u16_array (msg_type_array : list Z) :
    M (dynar * heap) (list Z) :=
  malloc_or_fail;; mret (u16 <$> msg_type_array).

(** [if (array != NULL && no_items > 0)]; a NULL array is [None]. *)
Definition add_array (array : option (list Z)) (add : list Z → M (dynar * heap) unit) :
    M (dynar * heap) unit :=
  match array with
  | Some ((_ :: _) as l) => or_fail (-1) (add l)
  | _ => mret tt
  end.

Definition tlv_add_supported_messages (supported_msgs : list Z) : M (dynar * heap) unit :=
  u16a ← msg_convert_msg_type_array_to_u16_array supported_msgs;
  tlv_add_u16_array TLV_OPT_SUPPORTED_MESSAGES u16a.

Definition msg_create_init (add_msg_seq_number : bool) (msg_seq_number : Z)
    (decision_algorithm : Z) (supported_msgs supported_opts : option (list Z))
    (node_id heartbeat_interval : Z) (tie_breaker : tlv_tie_breaker) (ring_id : tlv_ring_id) :
    dynar * heap → Z * (dynar * heap) :=
  msg_create MSG_TYPE_INIT (
    add_if add_msg_seq_number (tlv_add_msg_seq_number msg_seq_number);;
    add_array supported_msgs tlv_add_supported_messages;;
    add_array supported_opts tlv_add_supported_options;;
    or_fail (-1) (tlv_add_node_id node_id);;
    or_fail (-1) (tlv_add_decision_algorithm decision_algorithm);;
    or_fail (-1) (tlv_add_heartbeat_interval heartbeat_interval);;
    or_fail (-1) (tlv_add_tie_breaker tie_breaker);;
    or_fail (-1) (tlv_add_ring_id ring_id)).

Definition msg_create_init_reply (add_msg_seq_number : bool) (msg_seq_number : Z)
    (reply_error_code : Z) (supported_msgs supported_opts : option (list Z))
    (server_maximum_request_size server_maximum_reply_size : Z)
    (supported_decision_algorithms : option (list Z)) : dynar * heap → Z * (dynar * heap) :=
  msg_create MSG_TYPE_INIT_REPLY (
    or_fail (-1) (tlv_add_reply_error_code reply_error_code);;
    add_array supported_msgs tlv_add_supported_messages;;
    add_array supported_opts tlv_add_supported_options;;
    add_if add_msg_seq_number (tlv_add_msg_seq_number msg_seq_number);;
    or_fail (-1) (tlv_add_server_maximum_request_size server_maximum_request_size);;
    or_fail (-1) (tlv_add_server_maximum_reply_size server_maximum_reply_size);;
    add_array supported_decision_algorithms tlv_add_supported_decision_algorithms).

Definition msg_create_set_option (add_msg_seq_number : bool) (msg_seq_number : Z)
    (add_heartbeat_interval : bool) (heartbeat_interval : Z)
    (add_keep_active_partition_tie_breaker : bool)
    (keep_active_partition_tie_breaker : tlv_keep_active_partition_tie_breaker) :
    dynar * heap → Z * (dynar * heap) :=
  msg_create MSG_TYPE_SET_OPTION (
    add_if add_msg_seq_number (tlv_add_msg_seq_number msg_seq_number);;
    add_if add_heartbeat_interval (tlv_add_heartbeat_interval heartbeat_interval);;
    add_if add_keep_active_partition_tie_breaker
      (tlv_add_keep_active_partition_tie_breaker keep_active_partition_tie_breaker)).

Definition msg_create_set_option_reply (add_msg_seq_number : bool) (msg_seq_number : Z)
    (add_heartbeat_interval : bool) (heartbeat_interval : Z)
    (add_keep_active_partition_tie_breaker : bool)
    (keep_active_partition_tie_breaker : tlv_keep_active_partition_tie_breaker) :
    dynar * heap → Z * (dynar * heap) :=
  msg_create MSG_TYPE_SET_OPTION_REPLY (
    add_if add_msg_seq_number (tlv_add_msg_seq_number msg_seq_number);;
    add_if add_heartbeat_interval (tlv_add_heartbeat_interval heartbeat_interval);;
    add_if add_keep_active_partition_tie_breaker
      (tlv_add_keep_active_partition_tie_breaker keep_active_partition_tie_breaker)).

Definition msg_create_echo_request (add_msg_seq_number : bool) (msg_seq_number : Z) :
    dynar * heap → Z * (dynar * heap) :=
  msg_create MSG_TYPE_ECHO_REQUEST (
    add_if add_msg_seq_number (tlv_add_msg_seq_number msg_seq_number)).

(** The reply is the request with another type. *)
Definition msg_create_echo_reply (echo_request_msg : dynar) (s : dynar * heap) :
    Z * (dynar * heap) :=
  let '(msg, h) := s in
  match dynar_cat (contents echo_request_msg) (dynar_clean msg, h) with
  | (Err _, s') => (0, s')
  | (Ok _, (msg', h')) => (size msg', (msg_set_type MSG_TYPE_ECHO_REPLY msg', h'))
  end.

(** [TAILQ_FOREACH(node_info, nodes, entries)] *)
Fixpoint add_node_infos (nodes : node_list) : M (dynar * heap) unit :=
  match nodes with
  | [] => mret tt
  | node_info :: nodes' =>
      or_fail (-1) (tlv_add_node_info (node_list_entry_to_tlv_node_info node_info));;
      add_node_infos nodes'
  end.

Definition msg_create_node_list (msg_seq_number : Z) (node_list_type : tlv_node_list_type)
    (add_ring_id : bool) (ring_id : tlv_ring_id)
    (add_config_version : bool) (config_version : Z)
    (add_quorate : bool) (quorate : tlv_quorate)
    (add_heuristics : bool) (heuristics : tlv_heuristics) (nodes : node_list) :
    dynar * heap → Z * (dynar * heap) :=
  msg_create MSG_TYPE_NODE_LIST (
    or_fail (-1) (tlv_add_msg_seq_number msg_seq_number);;
    or_fail (-1) (tlv_add_node_list_type node_list_type);;
    add_if add_ring_id (tlv_add_ring_id ring_id);;
    add_if add_config_version (tlv_add_config_version config_version);;
    add_if add_quorate (tlv_add_quorate quorate);;
    add_node_infos nodes;;
    add_if (add_heuristics && bool_decide (heuristics ≠ TLV_HEURISTICS_UNDEFINED))
      (tlv_add_heuristics heuristics)).

Definition msg_create_node_list_reply (msg_seq_number : Z) (node_list_type : tlv_node_list_type)
    (ring_id : tlv_ring_id) (vote : tlv_vote) : dynar * heap → Z * (dynar * heap) :=
  msg_create MSG_TYPE_NODE_LIST_REPLY (
    or_fail (-1) (tlv_add_msg_seq_number msg_seq_number);;
    or_fail (-1) (tlv_add_node_list_type node_list_type);;
    or_fail (-1) (tlv_add_ring_id ring_id);;
    or_fail (-1) (tlv_add_vote vote)).

Definition msg_create_ask_for_vote (msg_seq_number : Z) : dynar * heap → Z * (dynar * heap) :=
  msg_create MSG_TYPE_ASK_FOR_VOTE (or_fail (-1) (tlv_add_msg_seq_number msg_seq_number)).

Definition msg_create_ask_for_vote_reply (msg_seq_number : Z) (ring_id : tlv_ring_id)
    (vote : tlv_vote) : dynar * heap → Z * (dynar * heap) :=
  msg_create MSG_TYPE_ASK_FOR_VOTE_REPLY (
    or_fail (-1) (tlv_add_msg_seq_number msg_seq_number);;
    or_fail (-1) (tlv_add_vote vote);;
    or_fail (-1) (tlv_add_ring_id ring_id)).

Definition msg_create_vote_info (msg_seq_number : Z) (ring_id : tlv_ring_id) (vote : tlv_vote) :
    dynar * heap → Z * (dynar * heap) :=
  msg_create MSG_TYPE_VOTE_INFO (
    or_fail (-1) (tlv_add_msg_seq_number msg_seq_number);;
    or_fail (-1) (tlv_add_vote vote);;
    or_fail (-1) (tlv_add_ring_id ring_id)).

Definition msg_create_vote_info_reply (msg_seq_number : Z) : dynar * heap → Z * (dynar * heap) :=
  msg_create MSG_TYPE_VOTE_INFO_REPLY (or_fail (-1) (tlv_add_msg_seq_number msg_seq_number)).

Definition msg_create_heuristics_change (msg_seq_number : Z) (heuristics : tlv_heuristics) :
    dynar * heap → Z * (dynar * heap) :=
  msg_create MSG_TYPE_HEURISTICS_CHANGE (
    or_fail (-1) (tlv_add_msg_seq_number msg_seq_number);;
    or_fail (-1) (tlv_add_heuristics heuristics)).

Definition msg_create_heuristics_change_reply (msg_seq_number : Z) (ring_id : tlv_ring_id)
    (heuristics : tlv_heuristics) (vote : tlv_vote) : dynar * heap → Z * (dynar * heap) :=
  msg_create MSG_TYPE_HEURISTICS_CHANGE_REPLY (
    or_fail (-1) (tlv_add_msg_seq_number msg_seq_number);;
    or_fail (-1) (tlv_add_vote vote);;
    or_fail (-1) (tlv_add_ring_id ring_id);;
    or_fail (-1) (tlv_add_heuristics heuristics)).

Definition msg_is_valid_msg_type (beyond : mem) (msg : dynar) : bool :=
  let type := msg_get_type beyond msg in
  existsb (λ t, t =? type) msg_static_supported_messages.

(** ** Decoding messages *)

(** A heap pointer of the decoded structure: [Dangling] is one whose block was freed. *)
Inductive ptr (A : Type) := Null | Valid (a : A) | Dangling.
Arguments Null {A}.
Arguments Valid {A} _.
Arguments Dangling {A}.

(** [free(p)] leaves the variable as it is. *)
Definition ptr_free {A} (p : ptr A) : ptr A := match p with Null => Null | _ => Dangling end.

(** The decoded message.  A field [x] the structure has with a flag [x_set] is an option;
    both are zero until [msg_decode] sets them together. *)
Record msg_decoded := mk_msg_decoded {
  dm_type : Z;
  dm_seq_number : option Z;
  dm_cluster_name : ptr (list byte);
  dm_tls_supported : option tlv_tls_supported;
  dm_tls_client_cert_required : option Z;
  dm_no_supported_messages : Z;
  dm_supported_messages : ptr (list Z);
  dm_no_supported_options : Z;
  dm_supported_options : ptr (list Z);
  dm_reply_error_code : option Z;
  dm_server_maximum_request_size : option Z;
  dm_server_maximum_reply_size : option Z;
  dm_node_id : option Z;
  dm_no_supported_decision_algorithms : Z;
  dm_supported_decision_algorithms : ptr (list Z);
  dm_decision_algorithm : option Z;
  dm_heartbeat_interval : option Z;
  dm_ring_id : option tlv_ring_id;
  dm_config_version : option Z;
  dm_data_center_id : Z;
  dm_node_state : tlv_node_state;
  dm_nodes : node_list;
  dm_node_list_type : option tlv_node_list_type;
  dm_vote : option tlv_vote;
  dm_quorate : option tlv_quorate;
  dm_tie_breaker : option tlv_tie_breaker;
  dm_heuristics : tlv_heuristics;
  dm_keep_active_partition_tie_breaker : option tlv_keep_active_partition_tie_breaker
}.

Definition set_type (v : Z) (d : msg_decoded) : msg_decoded :=
  let '(mk_msg_decoded _ f1 f2 f3 f4 f5 f6 f7 f8 f9 f10 f11 f12 f13 f14 f15 f16 f17 f18 f19 f20 f21
    f22 f23 f24 f25 f26 f27) := d in
  mk_msg_decoded v f1 f2 f3 f4 f5 f6 f7 f8 f9 f10 f11 f12 f13 f14 f15 f16 f17 f18 f19 f20 f21
    f22 f23 f24 f25 f26 f27.
Definition set_seq_number (v : option Z) (d : msg_decoded) : msg_decoded :=
  let '(mk_msg_decoded f0 _ f2 f3 f4 f5 f6 f7 f8 f9 f10 f11 f12 f13 f14 f15 f16 f17 f18 f19 f20 f21
    f22 f23 f24 f25 f26 f27) := d in
  mk_msg_decoded f0 v f2 f3 f4 f5 f6 f7 f8 f9 f10 f11 f12 f13 f14 f15 f16 f17 f18 f19 f20 f21
    f22 f23 f24 f25 f26 f27.
Definition set_cluster_name (v : ptr (list byte)) (d : msg_decoded) : msg_decoded :=
  let '(mk_msg_decoded f0 f1 _ f3 f4 f5 f6 f7 f8 f9 f10 f11 f12 f13 f14 f15 f16 f17 f18 f19 f20 f21
    f22 f23 f24 f25 f26 f27) := d in
  mk_msg_decoded f0 f1 v f3 f4 f5 f6 f7 f8 f9 f10 f11 f12 f13 f14 f15 f16 f17 f18 f19 f20 f21
    f22 f23 f24 f25 f26 f27.
Definition set_tls_supported (v : option tlv_tls_supported) (d : msg_decoded) : msg_decoded :=
  let '(mk_msg_decoded f0 f1 f2 _ f4 f5 f6 f7 f8 f9 f10 f11 f12 f13 f14 f15 f16 f17 f18 f19 f20 f21
    f22 f23 f24 f25 f26 f27) := d in
  mk_msg_decoded f0 f1 f2 v f4 f5 f6 f7 f8 f9 f10 f11 f12 f13 f14 f15 f16 f17 f18 f19 f20 f21
    f22 f23 f24 f25 f26 f27.
Definition set_tls_client_cert_required (v : option Z) (d : msg_decoded) : msg_decoded :=
  let '(mk_msg_decoded f0 f1 f2 f3 _ f5 f6 f7 f8 f9 f10 f11 f12 f13 f14 f15 f16 f17 f18 f19 f20 f21
    f22 f23 f24 f25 f26 f27) := d in
  mk_msg_decoded f0 f1 f2 f3 v f5 f6 f7 f8 f9 f10 f11 f12 f13 f14 f15 f16 f17 f18 f19 f20 f21
    f22 f23 f24 f25 f26 f27.
Definition set_no_supported_messages (v : Z) (d : msg_decoded) : msg_decoded :=
  let '(mk_msg_decoded f0 f1 f2 f3 f4 _ f6 f7 f8 f9 f10 f11 f12 f13 f14 f15 f16 f17 f18 f19 f20 f21
    f22 f23 f24 f25 f26 f27) := d in
  mk_msg_decoded f0 f1 f2 f3 f4 v f6 f7 f8 f9 f10 f11 f12 f13 f14 f15 f16 f17 f18 f19 f20 f21
    f22 f23 f24 f25 f26 f27.
Definition set_supported_messages (v : ptr (list Z)) (d : msg_decoded) : msg_decoded :=
  let '(mk_msg_decoded f0 f1 f2 f3 f4 f5 _ f7 f8 f9 f10 f11 f12 f13 f14 f15 f16 f17 f18 f19 f20 f21
    f22 f23 f24 f25 f26 f27) := d in
  mk_msg_decoded f0 f1 f2 f3 f4 f5 v f7 f8 f9 f10 f11 f12 f13 f14 f15 f16 f17 f18 f19 f20 f21
    f22 f23 f24 f25 f26 f27.
Definition set_no_supported_options (v : Z) (d : msg_decoded) : msg_decoded :=
  let '(mk_msg_decoded f0 f1 f2 f3 f4 f5 f6 _ f8 f9 f10 f11 f12 f13 f14 f15 f16 f17 f18 f19 f20 f21
    f22 f23 f24 f25 f26 f27) := d in
  mk_msg_decoded f0 f1 f2 f3 f4 f5 f6 v f8 f9 f10 f11 f12 f13 f14 f15 f16 f17 f18 f19 f20 f21
    f22 f23 f24 f25 f26 f27.
Definition set_supported_options (v : ptr (list Z)) (d : msg_decoded) : msg_decoded :=
  let '(mk_msg_decoded f0 f1 f2 f3 f4 f5 f6 f7 _ f9 f10 f11 f12 f13 f14 f15 f16 f17 f18 f19 f20 f21
    f22 f23 f24 f25 f26 f27) := d in
  mk_msg_decoded f0 f1 f2 f3 f4 f5 f6 f7 v f9 f10 f11 f12 f13 f14 f15 f16 f17 f18 f19 f20 f21
    f22 f23 f24 f25 f26 f27.
Definition set_reply_error_code (v : option Z) (d : msg_decoded) : msg_decoded :=
  let '(mk_msg_decoded f0 f1 f2 f3 f4 f5 f6 f7 f8 _ f10 f11 f12 f13 f14 f15 f16 f17 f18 f19 f20 f21
    f22 f23 f24 f25 f26 f27) := d in
  mk_msg_decoded f0 f1 f2 f3 f4 f5 f6 f7 f8 v f10 f11 f12 f13 f14 f15 f16 f17 f18 f19 f20 f21
    f22 f23 f24 f25 f26 f27.
Definition set_server_maximum_request_size (v : option Z) (d : msg_decoded) : msg_decoded :=
  let '(mk_msg_decoded f0 f1 f2 f3 f4 f5 f6 f7 f8 f9 _ f11 f12 f13 f14 f15 f16 f17 f18 f19 f20 f21
    f22 f23 f24 f25 f26 f27) := d in
  mk_msg_decoded f0 f1 f2 f3 f4 f5 f6 f7 f8 f9 v f11 f12 f13 f14 f15 f16 f17 f18 f19 f20 f21
    f22 f23 f24 f25 f26 f27.
Definition set_server_maximum_reply_size (v : option Z) (d : msg_decoded) : msg_decoded :=
  let '(mk_msg_decoded f0 f1 f2 f3 f4 f5 f6 f7 f8 f9 f10 _ f12 f13 f14 f15 f16 f17 f18 f19 f20 f21
    f22 f23 f24 f25 f26 f27) := d in
  mk_msg_decoded f0 f1 f2 f3 f4 f5 f6 f7 f8 f9 f10 v f12 f13 f14 f15 f16 f17 f18 f19 f20 f21
    f22 f23 f24 f25 f26 f27.
Definition set_node_id (v : option Z) (d : msg_decoded) : msg_decoded :=
  let '(mk_msg_decoded f0 f1 f2 f3 f4 f5 f6 f7 f8 f9 f10 f11 _ f13 f14 f15 f16 f17 f18 f19 f20 f21
    f22 f23 f24 f25 f26 f27) := d in
  mk_msg_decoded f0 f1 f2 f3 f4 f5 f6 f7 f8 f9 f10 f11 v f13 f14 f15 f16 f17 f18 f19 f20 f21
    f22 f23 f24 f25 f26 f27.
Definition set_no_supported_decision_algorithms (v : Z) (d : msg_decoded) : msg_decoded :=
  let '(mk_msg_decoded f0 f1 f2 f3 f4 f5 f6 f7 f8 f9 f10 f11 f12 _ f14 f15 f16 f17 f18 f19 f20 f21
    f22 f23 f24 f25 f26 f27) := d in
  mk_msg_decoded f0 f1 f2 f3 f4 f5 f6 f7 f8 f9 f10 f11 f12 v f14 f15 f16 f17 f18 f19 f20 f21
    f22 f23 f24 f25 f26 f27.
Definition set_supported_decision_algorithms (v : ptr (list Z)) (d : msg_decoded) : msg_decoded :=
  let '(mk_msg_decoded f0 f1 f2 f3 f4 f5 f6 f7 f8 f9 f10 f11 f12 f13 _ f15 f16 f17 f18 f19 f20 f21
    f22 f23 f24 f25 f26 f27) := d in
  mk_msg_decoded f0 f1 f2 f3 f4 f5 f6 f7 f8 f9 f10 f11 f12 f13 v f15 f16 f17 f18 f19 f20 f21
    f22 f23 f24 f25 f26 f27.
Definition set_decision_algorithm (v : option Z) (d : msg_decoded) : msg_decoded :=
  let '(mk_msg_decoded f0 f1 f2 f3 f4 f5 f6 f7 f8 f9 f10 f11 f12 f13 f14 _ f16 f17 f18 f19 f20 f21
    f22 f23 f24 f25 f26 f27) := d in
  mk_msg_decoded f0 f1 f2 f3 f4 f5 f6 f7 f8 f9 f10 f11 f12 f13 f14 v f16 f17 f18 f19 f20 f21
    f22 f23 f24 f25 f26 f27.
Definition set_heartbeat_interval (v : option Z) (d : msg_decoded) : msg_decoded :=
  let '(mk_msg_decoded f0 f1 f2 f3 f4 f5 f6 f7 f8 f9 f10 f11 f12 f13 f14 f15 _ f17 f18 f19 f20 f21
    f22 f23 f24 f25 f26 f27) := d in
  mk_msg_decoded f0 f1 f2 f3 f4 f5 f6 f7 f8 f9 f10 f11 f12 f13 f14 f15 v f17 f18 f19 f20 f21
    f22 f23 f24 f25 f26 f27.
Definition set_ring_id (v : option tlv_ring_id) (d : msg_decoded) : msg_decoded :=
  let '(mk_msg_decoded f0 f1 f2 f3 f4 f5 f6 f7 f8 f9 f10 f11 f12 f13 f14 f15 f16 _ f18 f19 f20 f21
    f22 f23 f24 f25 f26 f27) := d in
  mk_msg_decoded f0 f1 f2 f3 f4 f5 f6 f7 f8 f9 f10 f11 f12 f13 f14 f15 f16 v f18 f19 f20 f21
    f22 f23 f24 f25 f26 f27.
Definition set_config_version (v : option Z) (d : msg_decoded) : msg_decoded :=
  let '(mk_msg_decoded f0 f1 f2 f3 f4 f5 f6 f7 f8 f9 f10 f11 f12 f13 f14 f15 f16 f17 _ f19 f20 f21
    f22 f23 f24 f25 f26 f27) := d in
  mk_msg_decoded f0 f1 f2 f3 f4 f5 f6 f7 f8 f9 f10 f11 f12 f13 f14 f15 f16 f17 v f19 f20 f21
    f22 f23 f24 f25 f26 f27.
Definition set_data_center_id (v : Z) (d : msg_decoded) : msg_decoded :=
  let '(mk_msg_decoded f0 f1 f2 f3 f4 f5 f6 f7 f8 f9 f10 f11 f12 f13 f14 f15 f16 f17 f18 _ f20 f21
    f22 f23 f24 f25 f26 f27) := d in
  mk_msg_decoded f0 f1 f2 f3 f4 f5 f6 f7 f8 f9 f10 f11 f12 f13 f14 f15 f16 f17 f18 v f20 f21
    f22 f23 f24 f25 f26 f27.
Definition set_node_state (v : tlv_node_state) (d : msg_decoded) : msg_decoded :=
  let '(mk_msg_decoded f0 f1 f2 f3 f4 f5 f6 f7 f8 f9 f10 f11 f12 f13 f14 f15 f16 f17 f18 f19 _ f21
    f22 f23 f24 f25 f26 f27) := d in
  mk_msg_decoded f0 f1 f2 f3 f4 f5 f6 f7 f8 f9 f10 f11 f12 f13 f14 f15 f16 f17 f18 f19 v f21
    f22 f23 f24 f25 f26 f27.
Definition set_nodes (v : node_list) (d : msg_decoded) : msg_decoded :=
  let '(mk_msg_decoded f0 f1 f2 f3 f4 f5 f6 f7 f8 f9 f10 f11 f12 f13 f14 f15 f16 f17 f18 f19 f20 _
    f22 f23 f24 f25 f26 f27) := d in
  mk_msg_decoded f0 f1 f2 f3 f4 f5 f6 f7 f8 f9 f10 f11 f12 f13 f14 f15 f16 f17 f18 f19 f20 v
    f22 f23 f24 f25 f26 f27.
Definition set_node_list_type (v : option tlv_node_list_type) (d : msg_decoded) : msg_decoded :=
  let '(mk_msg_decoded f0 f1 f2 f3 f4 f5 f6 f7 f8 f9 f10 f11 f12 f13 f14 f15 f16 f17 f18 f19 f20 f21
    _ f23 f24 f25 f26 f27) := d in
  mk_msg_decoded f0 f1 f2 f3 f4 f5 f6 f7 f8 f9 f10 f11 f12 f13 f14 f15 f16 f17 f18 f19 f20 f21
    v f23 f24 f25 f26 f27.
Definition set_vote (v : option tlv_vote) (d : msg_decoded) : msg_decoded :=
  let '(mk_msg_decoded f0 f1 f2 f3 f4 f5 f6 f7 f8 f9 f10 f11 f12 f13 f14 f15 f16 f17 f18 f19 f20 f21
    f22 _ f24 f25 f26 f27) := d in
  mk_msg_decoded f0 f1 f2 f3 f4 f5 f6 f7 f8 f9 f10 f11 f12 f13 f14 f15 f16 f17 f18 f19 f20 f21
    f22 v f24 f25 f26 f27.
Definition set_quorate (v : option tlv_quorate) (d : msg_decoded) : msg_decoded :=
  let '(mk_msg_decoded f0 f1 f2 f3 f4 f5 f6 f7 f8 f9 f10 f11 f12 f13 f14 f15 f16 f17 f18 f19 f20 f21
    f22 f23 _ f25 f26 f27) := d in
  mk_msg_decoded f0 f1 f2 f3 f4 f5 f6 f7 f8 f9 f10 f11 f12 f13 f14 f15 f16 f17 f18 f19 f20 f21
    f22 f23 v f25 f26 f27.
Definition set_tie_breaker (v : option tlv_tie_breaker) (d : msg_decoded) : msg_decoded :=
  let '(mk_msg_decoded f0 f1 f2 f3 f4 f5 f6 f7 f8 f9 f10 f11 f12 f13 f14 f15 f16 f17 f18 f19 f20 f21
    f22 f23 f24 _ f26 f27) := d in
  mk_msg_decoded f0 f1 f2 f3 f4 f5 f6 f7 f8 f9 f10 f11 f12 f13 f14 f15 f16 f17 f18 f19 f20 f21
    f22 f23 f24 v f26 f27.
Definition set_heuristics (v : tlv_heuristics) (d : msg_decoded) : msg_decoded :=
  let '(mk_msg_decoded f0 f1 f2 f3 f4 f5 f6 f7 f8 f9 f10 f11 f12 f13 f14 f15 f16 f17 f18 f19 f20 f21
    f22 f23 f24 f25 _ f27) := d in
  mk_msg_decoded f0 f1 f2 f3 f4 f5 f6 f7 f8 f9 f10 f11 f12 f13 f14 f15 f16 f17 f18 f19 f20 f21
    f22 f23 f24 f25 v f27.
Definition set_keep_active_partition_tie_breaker (v : option tlv_keep_active_partition_tie_breaker) (d : msg_decoded) : msg_decoded :=
  let '(mk_msg_decoded f0 f1 f2 f3 f4 f5 f6 f7 f8 f9 f10 f11 f12 f13 f14 f15 f16 f17 f18 f19 f20 f21
    f22 f23 f24 f25 f26 _) := d in
  mk_msg_decoded f0 f1 f2 f3 f4 f5 f6 f7 f8 f9 f10 f11 f12 f13 f14 f15 f16 f17 f18 f19 f20 f21
    f22 f23 f24 f25 f26 v.

Definition msg_decoded_init : msg_decoded := {|
  dm_type := 0;
  dm_seq_number := None;
  dm_cluster_name := Null;
  dm_tls_supported := None;
  dm_tls_client_cert_required := None;
  dm_no_supported_messages := 0;
  dm_supported_messages := Null;
  dm_no_supported_options := 0;
  dm_supported_options := Null;
  dm_reply_error_code := None;
  dm_server_maximum_request_size := None;
  dm_server_maximum_reply_size := None;
  dm_node_id := None;
  dm_no_supported_decision_algorithms := 0;
  dm_supported_decision_algorithms := Null;
  dm_decision_algorithm := None;
  dm_heartbeat_interval := None;
  dm_ring_id := None;
  dm_config_version := None;
  dm_data_center_id := 0;
  dm_node_state := TLV_NODE_STATE_NOT_SET;
  dm_nodes := node_list_init;
  dm_node_list_type := None;
  dm_vote := None;
  dm_quorate := None;
  dm_tie_breaker := None;
  dm_heuristics := TLV_HEURISTICS_UNDEFINED;
  dm_keep_active_partition_tie_breaker := None
|}.

Definition msg_decoded_destroy (decoded_msg : msg_decoded) : msg_decoded := msg_decoded_init.

Abbreviation decode_st := (msg_decoded * heap)%type.

(** [if ((res = decode(&tlv_iter, &x)) != 0) return (res);] and the assignments after it. *)
Definition decode_to {A} (r : res A) (set : A → msg_decoded → msg_decoded) : M decode_st unit :=
  λ '(d, h), match r with Ok a => (Ok tt, (set a d, h)) | Err c => (Err c, (d, h)) end.

(** A decoder of an array: [set_no] stores the out-parameter even on a failure. *)
Definition decode_array (dec : M (Z * heap) (list Z)) (no : msg_decoded → Z)
    (set_no : Z → msg_decoded → msg_decoded) : M decode_st (list Z) := λ '(d, h),
  let '(r, (n, h')) := dec (no d, h) in (r, (set_no n d, h')).

(** The cases of the three arrays: the old block is freed first, and the pointer stays as
    it was until the new block is stored. *)
Definition decode_supported_messages (it : tlv_iterator) : M decode_st unit :=
  (modify (λ '(d, h), (set_supported_messages (ptr_free (dm_supported_messages d)) d, h)) :
     M decode_st unit);;
  u16a ← decode_array (tlv_iter_decode_u16_array it) dm_no_supported_messages
           set_no_supported_messages;
  (λ '(d, h), match malloc h with
              | (None, h') => (Err (-2), (set_supported_messages Null d, h'))
              | (Some _, h') => (Ok tt, (set_supported_messages (Valid u16a) d, h'))
              end) : M decode_st unit.

Definition decode_supported_options (it : tlv_iterator) : M decode_st unit :=
  (modify (λ '(d, h), (set_supported_options (ptr_free (dm_supported_options d)) d, h)) :
     M decode_st unit);;
  l ← decode_array (tlv_iter_decode_supported_options it) dm_no_supported_options
        set_no_supported_options;
  modify (λ '(d, h), (set_supported_options (Valid l) d, h)).

Definition decode_supported_decision_algorithms (it : tlv_iterator) : M decode_st unit :=
  (modify (λ '(d, h), (set_supported_decision_algorithms
                         (ptr_free (dm_supported_decision_algorithms d)) d, h)) :
     M decode_st unit);;
  l ← decode_array (tlv_iter_decode_supported_decision_algorithms it)
        dm_no_supported_decision_algorithms set_no_supported_decision_algorithms;
  modify (λ '(d, h), (set_supported_decision_algorithms (Valid l) d, h)).

Definition msg_decode_opt (it : tlv_iterator) : M decode_st unit :=
  let opt_type := tlv_iter_get_type it in
  if opt_type =? TLV_OPT_MSG_SEQ_NUMBER then
    decode_to (tlv_iter_decode_u32 it) (λ u, set_seq_number (Some u))
  else if opt_type =? TLV_OPT_CLUSTER_NAME then
    λ '(d, h), match tlv_iter_decode_str it h with
               | (Err _, h') => (Err (-2), (d, h'))
               | (Ok str, h') => (Ok tt, (set_cluster_name (Valid str) d, h'))
               end
  else if opt_type =? TLV_OPT_TLS_SUPPORTED then
    decode_to (tlv_iter_decode_tls_supported it) (λ v, set_tls_supported (Some v))
  else if opt_type =? TLV_OPT_TLS_CLIENT_CERT_REQUIRED then
    decode_to (tlv_iter_decode_client_cert_required it)
      (λ v, set_tls_client_cert_required (Some v))
  else if opt_type =? TLV_OPT_SUPPORTED_MESSAGES then
    decode_supported_messages it
  else if opt_type =? TLV_OPT_SUPPORTED_OPTIONS then
    decode_supported_options it
  else if opt_type =? TLV_OPT_REPLY_ERROR_CODE then
    λ '(d, h), decode_to (tlv_iter_decode_reply_error_code it (default 0 (dm_reply_error_code d)))
                 (λ v, set_reply_error_code (Some v)) (d, h)
  else if opt_type =? TLV_OPT_SERVER_MAXIMUM_REQUEST_SIZE then
    decode_to (tlv_iter_decode_u32 it) (λ u, set_server_maximum_request_size (Some u))
  else if opt_type =? TLV_OPT_SERVER_MAXIMUM_REPLY_SIZE then
    decode_to (tlv_iter_decode_u32 it) (λ u, set_server_maximum_reply_size (Some u))
  else if opt_type =? TLV_OPT_NODE_ID then
    decode_to (tlv_iter_decode_u32 it) (λ u, set_node_id (Some u))
  else if opt_type =? TLV_OPT_SUPPORTED_DECISION_ALGORITHMS then
    decode_supported_decision_algorithms it
  else if opt_type =? TLV_OPT_DECISION_ALGORITHM then
    decode_to (tlv_iter_decode_decision_algorithm it) (λ v, set_decision_algorithm (Some v))
  else if opt_type =? TLV_OPT_HEARTBEAT_INTERVAL then
    decode_to (tlv_iter_decode_u32 it) (λ u, set_heartbeat_interval (Some u))
  else if opt_type =? TLV_OPT_RING_ID then
    decode_to (tlv_iter_decode_ring_id it) (λ v, set_ring_id (Some v))
  else if opt_type =? TLV_OPT_CONFIG_VERSION then
    decode_to (tlv_iter_decode_u64 it) (λ u, set_config_version (Some u))
  else if opt_type =? TLV_OPT_DATA_CENTER_ID then
    decode_to (tlv_iter_decode_u32 it) set_data_center_id
  else if opt_type =? TLV_OPT_NODE_STATE then
    decode_to (tlv_iter_decode_node_state it) set_node_state
  else if opt_type =? TLV_OPT_NODE_INFO then
    λ '(d, h), match tlv_iter_decode_node_info it with
               | Err res => (Err res, (d, h))
               | Ok node_info =>
                   match node_list_add_from_node_info node_info (dm_nodes d, h) with
                   | (Err _, (_, h')) => (Err (-2), (d, h'))
                   | (Ok _, (nodes, h')) => (Ok tt, (set_nodes nodes d, h'))
                   end
               end
  else if opt_type =? TLV_OPT_NODE_LIST_TYPE then
    decode_to (tlv_iter_decode_node_list_type it) (λ v, set_node_list_type (Some v))
  else if opt_type =? TLV_OPT_VOTE then
    decode_to (tlv_iter_decode_vote it) (λ v, set_vote (Some v))
  else if opt_type =? TLV_OPT_QUORATE then
    decode_to (tlv_iter_decode_quorate it) (λ v, set_quorate (Some v))
  else if opt_type =? TLV_OPT_TIE_BREAKER then
    decode_to (tlv_iter_decode_tie_breaker it) (λ v, set_tie_breaker (Some v))
  else if opt_type =? TLV_OPT_HEURISTICS then
    decode_to (tlv_iter_decode_heuristics it) set_heuristics
  else if opt_type =? TLV_OPT_KEEP_ACTIVE_PARTITION_TIE_BREAKER then
    decode_to (tlv_iter_decode_keep_active_partition_tie_breaker it)
      (λ v, set_keep_active_partition_tie_breaker (Some v))
  else mret tt.

(** The return value (0, or -1 option with invalid length, -2 no memory, -3 inconsistent
    message, -4 invalid option content) and the structure as it is left. *)
Definition msg_decode (beyond : mem) (msg : dynar) (s : decode_st) : Z * decode_st :=
  let '(decoded_msg, h) := s in
  let d := set_type (msg_get_type beyond msg) (msg_decoded_destroy decoded_msg) in
  let tlv_iter := tlv_iter_init beyond msg msg_get_header_length in
  match tlv_loop msg_decode_opt (tlv_fuel tlv_iter) tlv_iter (d, h) with
  | (Err res, s') => (res, s')
  | (Ok iter_res, s') => if negb (iter_res =? 0) then (-3, s') else (0, s')
  end.

Definition msg_get_supported_messages : list Z := msg_static_supported_messages.

Definition msg_type_to_str (type : Z) : string :=
  if type =? MSG_TYPE_PREINIT then "Preinit"
  else if type =? MSG_TYPE_PREINIT_REPLY then "Preinit reply"
  else if type =? MSG_TYPE_STARTTLS then "StartTLS"
  else if type =? MSG_TYPE_INIT then "Init"
  else if type =? MSG_TYPE_INIT_REPLY then "Init reply"
  else if type =? MSG_TYPE_SERVER_ERROR then "Server error"
  else if type =? MSG_TYPE_SET_OPTION then "Set option"
  else if type =? MSG_TYPE_SET_OPTION_REPLY then "Set option reply"
  else if type =? MSG_TYPE_ECHO_REQUEST then "Echo request"
  else if type =? MSG_TYPE_ECHO_REPLY then "Echo reply"
  else if type =? MSG_TYPE_NODE_LIST then "Node list"
  else if type =? MSG_TYPE_NODE_LIST_REPLY then "Node list reply"
  else if type =? MSG_TYPE_ASK_FOR_VOTE then "Ask for vote"
  else if type =? MSG_TYPE_ASK_FOR_VOTE_REPLY then "Ask for vote reply"
  else if type =? MSG_TYPE_VOTE_INFO then "Vote info"
  else if type =? MSG_TYPE_VOTE_INFO_REPLY then "Vote info reply"
  else if type =? MSG_TYPE_HEURISTICS_CHANGE then "Heuristics change"
  else if type =? MSG_TYPE_HEURISTICS_CHANGE_REPLY then "Heuristics change reply"
  else "Unknown message type".
