(* ===== verification/MsgFacts.v ===== *)
(** Theory of the messages (msg.c): the frame of every created message, what
    [msg_decode] does on arbitrary bytes, and the round trip of the messages. *)
From S2P Require Import Prelude Dynar Tlv TlvFacts NodeList Msg.
Local Open Scope Z_scope.

(** ** Creating *)

Definition msg_enc (type : Z) (xs : list (Z * list byte)) : list byte :=
  put_be 2 type ++ put_be 4 (Z.of_nat (length (tlvs_enc xs))) ++ tlvs_enc xs.

(** [f] creates the message of type [type] with options [xs], or returns 0 because it does
    not fit or memory ran out. *)
Definition creates (f : dynar * heap → Z * (dynar * heap)) (type : Z) (xs : list (Z * list byte)) :
    Prop :=
  ∀ d h, wf d → maximum_size d < 2 ^ 32 →
    let '(r, (d', h')) := f (d, h) in
    wf d' ∧ maximum_size d' = maximum_size d ∧ h' `suffix_of` h ∧
    (r = 0 ∧ (maximum_size d < 6 + Z.of_nat (length (tlvs_enc xs)) ∨ None ∈ h) ∨
     r = size d' ∧ 6 ≤ r ≤ maximum_size d ∧ contents d' = msg_enc type xs).

Lemma msg_header_appends type :
  appends (or_fail (-1) (msg_add_type type);; or_fail (-1) msg_add_len)
    (put_be 2 type ++ put_be 4 0).
Proof.
  apply appends_bind; apply appends_or_fail.
  - rewrite <- put_be2_u16. apply dynar_cat_appends. rewrite length_put_be. lia.
  - apply dynar_cat_appends. rewrite length_put_be. lia.
Qed.

(** Filling the length in, over the zeroes the header was started with. *)
Lemma contents_msg_set_len len d type z body :
  wf d → contents d = put_be 2 type ++ put_be 4 z ++ body →
  wf (msg_set_len len d) ∧ contents (msg_set_len len d) = put_be 2 type ++ put_be 4 (u32 len) ++ body.
Proof.
  intros Hwf Hc. pose proof Hwf as [Hs Hd Ha Hm].
  pose proof (length_contents d Hwf) as Hl. rewrite Hc, !length_app, !length_put_be in Hl.
  change (Z.to_nat MSG_TYPE_LENGTH) with 2%nat. split.
  - constructor; cbn [msg_set_len set_data size allocated maximum_size data]; try lia.
    rewrite length_block_write; [lia|]. rewrite length_put_be.
    change (Z.to_nat MSG_TYPE_LENGTH) with 2%nat. lia.
  - unfold contents in *. cbn [msg_set_len set_data data size].
    change (Z.to_nat MSG_TYPE_LENGTH) with 2%nat.
    rewrite <- (take_drop (Z.to_nat (size d)) (data d)). rewrite Hc.
    unfold block_write. rewrite length_put_be.
    rewrite (put_be_2 type). cbn [app]. rewrite <- !app_assoc.
    change (2 + 4)%nat with 6%nat.
    assert (Hp : length (put_be 4 z) = 4%nat) by apply length_put_be.
    destruct (put_be 4 z) as [|? [|? [|? [|? [|]]]]]; try done.
    cbn [take drop app]. rewrite drop_0.
    assert (Hq : length (put_be 4 (u32 len)) = 4%nat) by apply length_put_be.
    destruct (put_be 4 (u32 len)) as [|? [|? [|? [|? [|]]]]]; try done. cbn [app].
    replace (Z.to_nat (size d)) with (6 + length body)%nat by lia.
    cbn [take Nat.add]. by rewrite take_app_length.
Qed.

Lemma creates_create type m xs :
  appends m (tlvs_enc xs) → creates (msg_create type m) type xs.
Proof.
  intros Hm d h Hwf Hmax. unfold msg_create.
  pose proof (appends_bind _ _ _ _ (msg_header_appends type) Hm (dynar_clean d) h
    (wf_clean d Hwf)) as Ha.
  assert (E : ∀ s, (((or_fail (-1) (msg_add_type type);; or_fail (-1) msg_add_len);; m) s) =
     (or_fail (-1) (msg_add_type type);; or_fail (-1) msg_add_len;; m) s).
  { intros s. unfold mbind, M_bind. by destruct (or_fail _ (msg_add_type type) s) as [[?|?] ?]. }
  rewrite E in Ha.
  destruct ((or_fail (-1) (msg_add_type type);; or_fail (-1) msg_add_len;; m) _) as [[u|c] [d' h']].
  - destruct Ha as (Hwf' & Hc & Hmx & Hh & Hf). rewrite contents_clean in Hc. cbn [app] in Hc.
    rewrite <- app_assoc in Hc.
    destruct (contents_msg_set_len (size d' - (MSG_TYPE_LENGTH + MSG_LENGTH_LENGTH))
      d' _ _ _ Hwf' Hc) as [Hw2 Hc2].
    pose proof (length_contents d' Hwf') as Hl. rewrite Hc in Hl.
    rewrite !length_app, !length_put_be in Hl. cbn [size dynar_clean set_size maximum_size] in Hf, Hmx.
    split_and!; [done..|]. right. split_and!; [done|lia| |].
    + destruct Hf as [Hf|Hf]; [by destruct (put_be 2 type) eqn:?; rewrite put_be_2 in *|].
      rewrite !length_app, !length_put_be in Hf. lia.
    + rewrite Hc2. unfold msg_enc. do 3 f_equal. rewrite u32_small; unfold MSG_TYPE_LENGTH, MSG_LENGTH_LENGTH; [lia|].
      destruct Hf as [Hf|Hf]; [by destruct (put_be 2 type) eqn:?; rewrite put_be_2 in *|].
      rewrite !length_app, !length_put_be in Hf. lia.
  - destruct Ha as (-> & Hwf' & _ & Hmx & Hh & Hor). split_and!; [done..|]. left.
    rewrite !length_app, !length_put_be in Hor. cbn [size dynar_clean set_size maximum_size] in Hor.
    split; [done|]. destruct Hor; [left; lia|by right].
Qed.

(** ** The options a creator writes *)

Lemma appends_tlvs m1 m2 a b :
  appends m1 (tlvs_enc a) → appends m2 (tlvs_enc b) → appends (m1;; m2) (tlvs_enc (a ++ b)).
Proof. intros. rewrite tlvs_enc_app. by apply appends_bind. Qed.

Lemma appends_tlv m t v : appends m (tlv_enc t v) → appends (or_fail (-1) m) (tlvs_enc [(t, v)]).
Proof. intros. rewrite tlvs_enc_one. by apply appends_or_fail. Qed.

Definition if_tlvs (b : bool) (xs : list (Z * list byte)) : list (Z * list byte) :=
  if b then xs else [].

Lemma appends_add_if b m t v :
  appends m (tlv_enc t v) → appends (add_if b m) (tlvs_enc (if_tlvs b [(t, v)])).
Proof. intros. destruct b; [by apply appends_tlv|apply appends_ret]. Qed.

Definition array_tlvs (t : Z) (array : option (list Z)) : list (Z * list byte) :=
  match array with Some ((_ :: _) as l) => [(t, u16s_enc l)] | _ => [] end.

Definition array_fits (array : option (list Z)) : Prop :=
  match array with
  | Some l => Z.of_nat (length l) < 2 ^ 15 ∧ Forall (λ x, 0 ≤ x < 2 ^ 16) l
  | None => True
  end.

Lemma appends_add_array array add t :
  array_fits array →
  (∀ l, Z.of_nat (length l) < 2 ^ 15 → appends (add l) (tlv_enc t (u16s_enc l))) →
  appends (add_array array add) (tlvs_enc (array_tlvs t array)).
Proof.
  intros Hf Ha. destruct array as [[|x l]|]; [apply appends_ret| |apply appends_ret].
  apply (appends_tlv _ t (u16s_enc (x :: l))). apply Ha, Hf.
Qed.

Lemma supported_messages_appends l :
  Z.of_nat (length l) < 2 ^ 15 →
  appends (tlv_add_supported_messages l) (tlv_enc TLV_OPT_SUPPORTED_MESSAGES (u16s_enc l)).
Proof.
  intros Hl d h Hwf. pose proof (malloc_u16_array_appends TLV_OPT_SUPPORTED_MESSAGES l Hl d h Hwf) as H.
  unfold tlv_add_supported_messages, msg_convert_msg_type_array_to_u16_array.
  unfold mbind, M_bind, malloc_or_fail in *. by destruct (malloc h) as [[j|] h'].
Qed.

Definition node_tlvs (nodes : node_list) : list (Z * list byte) :=
  (λ n, (TLV_OPT_NODE_INFO, node_info_enc (node_list_entry_to_tlv_node_info n))) <$> nodes.

Lemma add_node_infos_appends nodes : appends (add_node_infos nodes) (tlvs_enc (node_tlvs nodes)).
Proof.
  induction nodes as [|n nodes IH]; [apply appends_ret|].
  apply (appends_tlvs _ _ [_] (node_tlvs nodes)); [|exact IH].
  apply appends_tlv, tlv_add_node_info_appends.
Qed.

(** ** Decoding *)

Definition msg_opt (t : Z) (v : list byte) : M decode_st unit := msg_decode_opt (it_of t v).

#[export] Instance decode_to_proper {A} : Proper (eq ==> eq ==> eq ==> eq) (@decode_to A).
Proof. by intros ? ? -> ? ? -> ? ? ->. Qed.

Lemma decode_array_ext m1 m2 no set_no s :
  (∀ s, m1 s = m2 s) → decode_array m1 no set_no s = decode_array m2 no set_no s.
Proof. intros H. destruct s as [d h]. unfold decode_array. by rewrite H. Qed.

Lemma bind_ext {St A B} (m : M St A) (f g : A → M St B) s :
  (∀ a s, f a s = g a s) → (m ≫= f) s = (m ≫= g) s.
Proof. intros H. unfold mbind, M_bind. destruct (m s) as [[a|c] s']; [apply H|done]. Qed.

Lemma bind_ext_l {St A B} (m n : M St A) (f : A → M St B) s :
  (∀ s, m s = n s) → (m ≫= f) s = (n ≫= f) s.
Proof. intros H. unfold mbind, M_bind. by rewrite H. Qed.

(** The body of the loop reads nothing but the option. *)
#[export] Instance msg_decode_opt_proper : Proper (it_sim ==> eq ==> eq) msg_decode_opt.
Proof.
  intros i1 i2 H [d h] ? <-. unfold msg_decode_opt. rewrite (get_type_proper _ _ H).
  repeat case_if; try done;
    try (apply decode_to_proper; [|done|done]; try exact (decode_u32_proper _ _ H);
      try exact (decode_u64_proper _ _ H); try exact (decode_u8_proper _ _ H);
      try exact (decode_enum8_proper _ _ _ H); try exact (decode_decision_algorithm_proper _ _ H);
      try exact (decode_ring_id_proper _ _ H); try exact (decode_tie_breaker_proper _ _ H);
      try exact (decode_reply_error_code_proper _ _ H _ _ eq_refl)).
  - by rewrite (decode_str_proper _ _ H h h eq_refl).
  - apply bind_ext. intros u s. apply bind_ext_l. intros s'. apply decode_array_ext.
    intros s''. by apply decode_u16_array_proper.
  - apply bind_ext. intros u s. apply bind_ext_l. intros s'. apply decode_array_ext.
    intros s''. by apply decode_supported_options_proper.
  - apply bind_ext. intros u s. apply bind_ext_l. intros s'. apply decode_array_ext.
    intros s''. by apply decode_supported_decision_algorithms_proper.
  - by rewrite (decode_node_info_proper _ _ H).
Qed.

(** [msg_decode] as a run over the grammar of the options. *)
Lemma msg_decode_parse beyond msg dm h :
  wf msg → 6 ≤ size msg →
  msg_decode beyond msg (dm, h) =
  (let d := set_type (get_be (take 2 (contents msg))) msg_decoded_init in
   let '(tlvs, ok) := parse_tlvs (drop 6 (contents msg)) in
   match run_tlvs msg_opt tlvs ok (d, h) with
   | (Err res, s') => (res, s')
   | (Ok r, s') => (if r =? 0 then 0 else -3, s')
   end).
Proof.
  intros Hwf Hs. pose proof Hwf as [? ? ? ?]. unfold msg_decode, msg_decoded_destroy.
  unfold msg_get_type. rewrite (mem_read_dynar _ _ 0 2 Hwf) by lia.
  change (drop (Z.to_nat 0) (contents msg)) with (drop 0 (contents msg)). rewrite drop_0.
  unfold tlv_iter_init.
  rewrite (tlv_loop_parse msg_decode_opt _ _ _ _ _ _ (drop 6 (contents msg))).
  - fold (msg_opt). change (λ t v, msg_decode_opt (it_of t v)) with msg_opt. cbv zeta.
    change (Z.to_nat 2) with 2%nat.
    destruct (parse_tlvs _) as [tlvs ok]. destruct (run_tlvs _ _ _ _) as [[r|c] s']; [|done].
    by destruct (r =? 0).
  - unfold msg_get_header_length, MSG_TYPE_LENGTH, MSG_LENGTH_LENGTH. lia.
  - lia.
  - unfold msg_get_header_length, MSG_TYPE_LENGTH, MSG_LENGTH_LENGTH.
    rewrite mem_read_dynar by (done || lia). symmetry. apply firstn_all2.
    rewrite length_drop. pose proof (length_contents msg Hwf). lia.
  - unfold tlv_fuel. cbn [it_msg_len tlv_iter_init_str]. rewrite length_drop.
    pose proof (length_contents msg Hwf). lia.
Qed.

(** ** Decoding what a creator wrote, with memory left *)

(** Decoding the options [xs] applies [f] to the structure. *)
Definition decodes (xs : list (Z * list byte)) (f : msg_decoded → msg_decoded) : Prop :=
  Forall tlv_fits xs ∧
  ∀ rest ok d, run_tlvs msg_opt (xs ++ rest) ok (d, []) = run_tlvs msg_opt rest ok (f d, []).

Lemma decodes_nil : decodes [] (λ d, d).
Proof. by split. Qed.

Lemma decodes_app xs ys f g : decodes xs f → decodes ys g → decodes (xs ++ ys) (λ d, g (f d)).
Proof.
  intros [Hf Hx] [Hg Hy]. split; [by apply Forall_app|].
  intros rest ok d. by rewrite <- app_assoc, Hx, Hy.
Qed.

Lemma decodes_one t v f :
  tlv_fits (t, v) → (it_holds (it_of t v) t v → ∀ d, msg_opt t v (d, []) = (Ok tt, (f d, []))) →
  decodes [(t, v)] f.
Proof.
  intros Hf H. split; [by apply Forall_singleton|]. intros rest ok d. cbn [app].
  apply run_tlvs_ok, H. by apply it_holds_it_of.
Qed.

Lemma decodes_if b xs f : decodes xs f → decodes (if_tlvs b xs) (if b then f else λ d, d).
Proof. destruct b; [done|]. intros _. apply decodes_nil. Qed.

(** Select the case of the option type the iterator stands at. *)
Ltac opt_case H := unfold msg_opt, msg_decode_opt; rewrite (holds_type _ _ _ H);
  cbn [TLV_OPT_MSG_SEQ_NUMBER TLV_OPT_CLUSTER_NAME TLV_OPT_TLS_SUPPORTED
    TLV_OPT_TLS_CLIENT_CERT_REQUIRED TLV_OPT_SUPPORTED_MESSAGES TLV_OPT_SUPPORTED_OPTIONS
    TLV_OPT_REPLY_ERROR_CODE TLV_OPT_SERVER_MAXIMUM_REQUEST_SIZE
    TLV_OPT_SERVER_MAXIMUM_REPLY_SIZE TLV_OPT_NODE_ID TLV_OPT_SUPPORTED_DECISION_ALGORITHMS
    TLV_OPT_DECISION_ALGORITHM TLV_OPT_HEARTBEAT_INTERVAL TLV_OPT_RING_ID
    TLV_OPT_CONFIG_VERSION TLV_OPT_DATA_CENTER_ID TLV_OPT_NODE_STATE TLV_OPT_NODE_INFO
    TLV_OPT_NODE_LIST_TYPE TLV_OPT_VOTE TLV_OPT_QUORATE TLV_OPT_TIE_BREAKER
    TLV_OPT_HEURISTICS TLV_OPT_KEEP_ACTIVE_PARTITION_TIE_BREAKER Z.eqb Pos.eqb].

Ltac decodes_scalar lem :=
  apply decodes_one; [done|]; let H := fresh in intros H ?; opt_case H; unfold decode_to;
  by rewrite (lem _ _ _ H) by (done || lia).

Lemma decodes_seq_number n : 0 ≤ n < 2 ^ 32 →
  decodes [(TLV_OPT_MSG_SEQ_NUMBER, put_be 4 n)] (set_seq_number (Some n)).
Proof. intros. decodes_scalar decode_u32_enc. Qed.
Lemma decodes_node_id n : 0 ≤ n < 2 ^ 32 →
  decodes [(TLV_OPT_NODE_ID, put_be 4 n)] (set_node_id (Some n)).
Proof. intros. decodes_scalar decode_u32_enc. Qed.
Lemma decodes_heartbeat_interval n : 0 ≤ n < 2 ^ 32 →
  decodes [(TLV_OPT_HEARTBEAT_INTERVAL, put_be 4 n)] (set_heartbeat_interval (Some n)).
Proof. intros. decodes_scalar decode_u32_enc. Qed.
Lemma decodes_request_size n : 0 ≤ n < 2 ^ 32 →
  decodes [(TLV_OPT_SERVER_MAXIMUM_REQUEST_SIZE, put_be 4 n)]
    (set_server_maximum_request_size (Some n)).
Proof. intros. decodes_scalar decode_u32_enc. Qed.
Lemma decodes_reply_size n : 0 ≤ n < 2 ^ 32 →
  decodes [(TLV_OPT_SERVER_MAXIMUM_REPLY_SIZE, put_be 4 n)]
    (set_server_maximum_reply_size (Some n)).
Proof. intros. decodes_scalar decode_u32_enc. Qed.
Lemma decodes_config_version n : 0 ≤ n < 2 ^ 64 →
  decodes [(TLV_OPT_CONFIG_VERSION, put_be 8 n)] (set_config_version (Some n)).
Proof. intros. decodes_scalar decode_u64_enc. Qed.
Lemma decodes_client_cert_required n : 0 ≤ n < 2 ^ 8 →
  decodes [(TLV_OPT_TLS_CLIENT_CERT_REQUIRED, put_be 1 n)] (set_tls_client_cert_required (Some n)).
Proof.
  intros. apply decodes_one; [done|]. intros H' ?. opt_case H'.
  unfold decode_to, tlv_iter_decode_client_cert_required. by rewrite (decode_u8_enc _ _ _ H').
Qed.
Lemma decodes_decision_algorithm n : 0 ≤ n < 2 ^ 16 →
  decodes [(TLV_OPT_DECISION_ALGORITHM, put_be 2 n)] (set_decision_algorithm (Some n)).
Proof.
  intros. apply decodes_one; [done|]. intros H' ?. opt_case H'.
  unfold decode_to, tlv_iter_decode_decision_algorithm. by rewrite (decode_u16_enc _ _ _ H').
Qed.
Lemma decodes_ring_id r : ring_id_valid r →
  decodes [(TLV_OPT_RING_ID, ring_id_enc r)] (set_ring_id (Some r)).
Proof. intros. decodes_scalar decode_ring_id_enc. Qed.
Lemma decodes_tie_breaker tb : tie_breaker_valid tb →
  decodes [(TLV_OPT_TIE_BREAKER, tie_breaker_enc tb)]
    (set_tie_breaker (Some (tie_breaker_norm tb))).
Proof. intros. decodes_scalar decode_tie_breaker_enc. Qed.
Lemma decodes_tls_supported v :
  decodes [(TLV_OPT_TLS_SUPPORTED, put_be 1 (tls_supported_to_z v))] (set_tls_supported (Some v)).
Proof. apply decodes_one; [done|]. by destruct v. Qed.
Lemma decodes_node_list_type v :
  decodes [(TLV_OPT_NODE_LIST_TYPE, put_be 1 (node_list_type_to_z v))]
    (set_node_list_type (Some v)).
Proof. apply decodes_one; [done|]. by destruct v. Qed.
Lemma decodes_vote v : v ≠ TLV_VOTE_UNDEFINED →
  decodes [(TLV_OPT_VOTE, put_be 1 (vote_to_z v))] (set_vote (Some v)).
Proof. intros. apply decodes_one; [done|]. by destruct v. Qed.
Lemma decodes_quorate v :
  decodes [(TLV_OPT_QUORATE, put_be 1 (quorate_to_z v))] (set_quorate (Some v)).
Proof. apply decodes_one; [done|]. by destruct v. Qed.
Lemma decodes_heuristics v : v ≠ TLV_HEURISTICS_UNDEFINED →
  decodes [(TLV_OPT_HEURISTICS, put_be 1 (heuristics_to_z v))] (set_heuristics v).
Proof. intros. apply decodes_one; [done|]. by destruct v. Qed.
Lemma decodes_kap v :
  decodes [(TLV_OPT_KEEP_ACTIVE_PARTITION_TIE_BREAKER, put_be 1 (kap_to_z v))]
    (set_keep_active_partition_tie_breaker (Some v)).
Proof. apply decodes_one; [done|]. by destruct v. Qed.

Lemma decodes_cluster_name s : Z.of_nat (length s) < 2 ^ 16 →
  decodes [(TLV_OPT_CLUSTER_NAME, s)] (set_cluster_name (Valid s)).
Proof.
  intros. apply decodes_one; [done|]. intros H' d. opt_case H'.
  by rewrite (decode_str_enc _ _ _ [] H').
Qed.

Lemma decodes_reply_error_code n : 0 ≤ n < 2 ^ 16 →
  decodes [(TLV_OPT_REPLY_ERROR_CODE, put_be 2 n)]
    (λ d, let old := default 0 (dm_reply_error_code d) in
          set_reply_error_code (Some (old - u16 old + n)) d).
Proof.
  intros. apply decodes_one; [done|]. intros H' d. opt_case H'.
  unfold decode_to, tlv_iter_decode_reply_error_code. by rewrite (decode_u16_enc _ _ _ H').
Qed.

Lemma decode_supported_options_ok it t l n :
  it_holds it t (u16s_enc l) → Forall (λ x, 0 ≤ x < 2 ^ 16) l →
  tlv_iter_decode_supported_options it (n, []) = (Ok l, (Z.of_nat (length l), [])).
Proof.
  intros H Hall. pose proof (decode_supported_options_enc it t l n [] H Hall) as Hd.
  destruct (tlv_iter_decode_supported_options it (n, [])) as [[l'|c] [n' h']].
  - destruct Hd as (-> & -> & [k Hk]). by destruct k, h'.
  - destruct Hd as (_ & _ & _ & Hin). inversion Hin.
Qed.

Section arrays.
Context (t : Z) (array : option (list Z)) (Hfits : array_fits array) (Ht : 0 ≤ t < 2 ^ 16).

Lemma decodes_array (set_no : Z → msg_decoded → msg_decoded)
    (set_p : ptr (list Z) → msg_decoded → msg_decoded) :
  (∀ l d, array = Some l → it_holds (it_of t (u16s_enc l)) t (u16s_enc l) →
     msg_opt t (u16s_enc l) (d, []) =
     (Ok tt, (set_p (Valid l) (set_no (Z.of_nat (length l)) d), []))) →
  decodes (array_tlvs t array)
    (λ d, match array with
          | Some ((_ :: _) as l) => set_p (Valid l) (set_no (Z.of_nat (length l)) d)
          | _ => d
          end).
Proof.
  intros H. unfold array_tlvs. destruct array as [[|x l]|]; [apply decodes_nil| |apply decodes_nil].
  destruct Hfits as [Hl Hall]. apply decodes_one; [|intros Hit d; by apply H].
  split; [done|]. rewrite length_u16s_enc. lia.
Qed.
End arrays.

Lemma decodes_supported_messages array : array_fits array →
  decodes (array_tlvs TLV_OPT_SUPPORTED_MESSAGES array)
    (λ d, match array with
          | Some ((_ :: _) as l) =>
              set_supported_messages (Valid l) (set_no_supported_messages (Z.of_nat (length l)) d)
          | _ => d
          end).
Proof.
  intros Hf. apply decodes_array; [done|done|]. intros l d -> Hit. destruct Hf as [_ Hall].
  opt_case Hit. unfold decode_supported_messages, decode_array, modify, mbind, M_bind.
  rewrite (decode_u16_array_enc _ _ _ _ [] Hit Hall). cbn [malloc]. by destruct d.
Qed.

Lemma decodes_supported_options array : array_fits array →
  decodes (array_tlvs TLV_OPT_SUPPORTED_OPTIONS array)
    (λ d, match array with
          | Some ((_ :: _) as l) =>
              set_supported_options (Valid l) (set_no_supported_options (Z.of_nat (length l)) d)
          | _ => d
          end).
Proof.
  intros Hf. apply decodes_array; [done|done|]. intros l d -> Hit. destruct Hf as [_ Hall].
  opt_case Hit. unfold decode_supported_options, decode_array, modify, mbind, M_bind.
  rewrite (decode_supported_options_ok _ _ _ _ Hit Hall). by destruct d.
Qed.

Lemma decodes_supported_decision_algorithms array : array_fits array →
  decodes (array_tlvs TLV_OPT_SUPPORTED_DECISION_ALGORITHMS array)
    (λ d, match array with
          | Some ((_ :: _) as l) =>
              set_supported_decision_algorithms (Valid l)
                (set_no_supported_decision_algorithms (Z.of_nat (length l)) d)
          | _ => d
          end).
Proof.
  intros Hf. apply decodes_array; [done|done|]. intros l d -> Hit. destruct Hf as [_ Hall].
  opt_case Hit. unfold decode_supported_decision_algorithms, decode_array, modify, mbind, M_bind.
  change (tlv_iter_decode_supported_decision_algorithms) with (tlv_iter_decode_supported_options).
  rewrite (decode_supported_options_ok _ _ _ _ Hit Hall). by destruct d.
Qed.

Definition node_valid (n : node_list_entry) : Prop :=
  node_info_valid (node_list_entry_to_tlv_node_info n).

Lemma decodes_nodes nodes : Forall node_valid nodes →
  decodes (node_tlvs nodes) (λ d, set_nodes (dm_nodes d ++ nodes) d).
Proof.
  induction 1 as [|n nodes Hn Hall IH].
  - split; [done|]. intros rest ok d. cbn [node_tlvs fmap list_fmap app].
    rewrite app_nil_r. by destruct d.
  - pose proof (length_node_info_enc (node_list_entry_to_tlv_node_info n)) as Hl.
    assert (H1 : decodes [(TLV_OPT_NODE_INFO, node_info_enc (node_list_entry_to_tlv_node_info n))]
      (λ d, set_nodes (dm_nodes d ++ [n]) d)).
    { apply decodes_one; [split; [done|lia]|]. intros Hit d. opt_case Hit.
      rewrite (decode_node_info_holds _ _ _ Hit), (node_info_of_enc _ Hn) by lia.
      unfold node_list_add_from_node_info, node_list_add. by destruct n, d. }
    destruct (decodes_app _ _ _ _ H1 IH) as [Hf Hr]. split; [exact Hf|].
    intros rest ok d. change (node_tlvs (n :: nodes)) with
      ([(TLV_OPT_NODE_INFO, node_info_enc (node_list_entry_to_tlv_node_info n))] ++ node_tlvs nodes).
    rewrite Hr. destruct d. cbn -[run_tlvs node_tlvs app]. by rewrite <- app_assoc.
Qed.

(** ** The round trip of a message *)

(** [create] yields a message of [sz] bytes (or 0, when they do not fit or memory runs
    out) whose header carries its length and a known type, and decoding it, whatever the
    structure held and whatever follows the buffer in memory, gives [expected]. *)
Definition msg_roundtrip (create : dynar * heap → Z * (dynar * heap)) (sz : Z)
    (expected : msg_decoded) : Prop :=
  ∀ d h beyond dm, wf d → maximum_size d < 2 ^ 32 →
    let '(r, (d', h')) := create (d, h) in
    wf d' ∧
    (r = 0 → maximum_size d < sz ∨ None ∈ h) ∧
    (r ≠ 0 → r = sz ∧ size d' = sz ∧ msg_get_len beyond d' = sz - 6 ∧
             msg_is_valid_msg_type beyond d' = true ∧
             msg_decode beyond d' (dm, []) = (0, (expected, []))).

Lemma length_msg_enc type xs : length (msg_enc type xs) = (6 + length (tlvs_enc xs))%nat.
Proof. unfold msg_enc. rewrite !length_app, !length_put_be. lia. Qed.

Lemma msg_enc_header type xs :
  take 2 (msg_enc type xs) = put_be 2 type ∧
  take 4 (drop 2 (msg_enc type xs)) = put_be 4 (Z.of_nat (length (tlvs_enc xs))) ∧
  drop 6 (msg_enc type xs) = tlvs_enc xs.
Proof.
  unfold msg_enc. rewrite put_be_2. cbn [app].
  pose proof (length_put_be 4 (Z.of_nat (length (tlvs_enc xs)))) as H.
  destruct (put_be 4 _) as [|? [|? [|? [|? [|]]]]]; try done.
Qed.

Lemma known_type_range type :
  existsb (λ t, t =? type) msg_static_supported_messages = true → 0 ≤ type < 2 ^ 16.
Proof.
  intros Hty. apply existsb_exists in Hty as (t & Hin & ->%Z.eqb_eq).
  assert (Hall : Forall (λ t, 0 ≤ t < 2 ^ 16) msg_static_supported_messages)
    by (apply (bool_decide_unpack _); vm_compute; exact I).
  rewrite List.Forall_forall in Hall. exact (Hall _ Hin).
Qed.

Lemma msg_roundtrip_intro create type xs f sz expected :
  creates create type xs → decodes xs f → xs ≠ [] →
  existsb (λ t, t =? type) msg_static_supported_messages = true →
  sz = 6 + Z.of_nat (length (tlvs_enc xs)) →
  f (set_type type msg_decoded_init) = expected →
  msg_roundtrip create sz expected.
Proof.
  intros Hc [Hfits Hd] Hne Hty -> <- d h beyond dm Hwf Hmax.
  specialize (Hc d h Hwf Hmax). destruct (create (d, h)) as [r [d' h']].
  destruct Hc as (Hwf' & _ & _ & [[-> Hor]|(-> & Hr & Hct)]); (split; [exact Hwf'|]).
  { split; [done|]. by intros []. }
  pose proof (length_contents d' Hwf') as Hl. rewrite Hct, length_msg_enc in Hl.
  destruct (msg_enc_header type xs) as (Ht & Hlen & Hbody).
  assert (Htype : 0 ≤ type < 2 ^ 16) by (by apply known_type_range).
  assert (Hgt : get_be (take 2 (contents d')) = type)
    by (rewrite Hct, Ht; by apply get_put_be_small).
  split; [lia|]. intros _. split; [lia|]. split; [lia|]. split_and!.
  - unfold msg_get_len, MSG_TYPE_LENGTH. rewrite (mem_read_dynar _ _ 2 4 Hwf'), Hct by lia.
    change (Z.to_nat 4) with 4%nat. change (Z.to_nat 2) with 2%nat. rewrite Hlen.
    rewrite get_put_be_small; lia.
  - unfold msg_is_valid_msg_type, msg_get_type. rewrite (mem_read_dynar _ _ 0 2 Hwf') by lia.
    change (drop (Z.to_nat 0) (contents d')) with (drop 0 (contents d')). rewrite drop_0.
    change (Z.to_nat 2) with 2%nat. by rewrite Hgt.
  - rewrite (msg_decode_parse _ _ _ _ Hwf') by lia. rewrite Hgt, Hct, Hbody.
    rewrite (parse_tlvs_enc xs Hne Hfits). cbv zeta. specialize (Hd [] true).
    rewrite app_nil_r in Hd. by rewrite Hd.
Qed.

Lemma tlv_add_heuristics_appends h : h ≠ TLV_HEURISTICS_UNDEFINED →
  appends (tlv_add_heuristics h) (tlv_enc TLV_OPT_HEURISTICS (put_be 1 (heuristics_to_z h))).
Proof.
  intros. unfold tlv_add_heuristics. rewrite bool_decide_eq_false_2 by done.
  apply tlv_add_u8_appends.
Qed.

Lemma tlv_add_reply_error_code_appends n :
  appends (tlv_add_reply_error_code n) (tlv_enc TLV_OPT_REPLY_ERROR_CODE (put_be 2 n)).
Proof. unfold tlv_add_reply_error_code. rewrite <- (put_be2_u16 n). apply tlv_add_u16_appends. Qed.
Lemma tlv_add_decision_algorithm_appends n :
  appends (tlv_add_decision_algorithm n) (tlv_enc TLV_OPT_DECISION_ALGORITHM (put_be 2 n)).
Proof. unfold tlv_add_decision_algorithm. rewrite <- (put_be2_u16 n). apply tlv_add_u16_appends. Qed.
Lemma put_be4_u32 z : put_be 4 (u32 z) = put_be 4 z.
Proof. symmetry. apply (put_be_mod 4). Qed.
Lemma tlv_add_request_size_appends n :
  appends (tlv_add_server_maximum_request_size n)
    (tlv_enc TLV_OPT_SERVER_MAXIMUM_REQUEST_SIZE (put_be 4 n)).
Proof.
  unfold tlv_add_server_maximum_request_size. rewrite <- (put_be4_u32 n).
  apply tlv_add_u32_appends.
Qed.
Lemma tlv_add_reply_size_appends n :
  appends (tlv_add_server_maximum_reply_size n)
    (tlv_enc TLV_OPT_SERVER_MAXIMUM_REPLY_SIZE (put_be 4 n)).
Proof.
  unfold tlv_add_server_maximum_reply_size. rewrite <- (put_be4_u32 n).
  apply tlv_add_u32_appends.
Qed.
Lemma tlv_add_client_cert_required_appends n :
  appends (tlv_add_tls_client_cert_required n)
    (tlv_enc TLV_OPT_TLS_CLIENT_CERT_REQUIRED (put_be 1 n)).
Proof.
  unfold tlv_add_tls_client_cert_required.
  rewrite (put_be_mod 1 n : put_be 1 n = put_be 1 (u8 n)). apply tlv_add_u8_appends.
Qed.

(** The encoders of the options, for [eauto]. *)
Create HintDb tlvs.
#[export] Hint Resolve tlv_add_heuristics_appends tlv_add_reply_error_code_appends
  tlv_add_decision_algorithm_appends tlv_add_request_size_appends tlv_add_reply_size_appends
  tlv_add_client_cert_required_appends tlv_add_ring_id_appends tlv_add_tie_breaker_appends
  tlv_add_node_info_appends add_node_infos_appends supported_messages_appends
  malloc_u16_array_appends : tlvs.
#[export] Hint Extern 3 (appends (tlv_add_msg_seq_number _) _) => apply tlv_add_u32_appends : tlvs.
#[export] Hint Extern 3 (appends (tlv_add_node_id _) _) => apply tlv_add_u32_appends : tlvs.
#[export] Hint Extern 3 (appends (tlv_add_heartbeat_interval _) _) => apply tlv_add_u32_appends : tlvs.
#[export] Hint Extern 3 (appends (tlv_add_config_version _) _) => apply tlv_add_u64_appends : tlvs.
#[export] Hint Extern 3 (appends (tlv_add_node_list_type _) _) => apply tlv_add_u8_appends : tlvs.
#[export] Hint Extern 3 (appends (tlv_add_vote _) _) => apply tlv_add_u8_appends : tlvs.
#[export] Hint Extern 3 (appends (tlv_add_quorate _) _) => apply tlv_add_u8_appends : tlvs.
#[export] Hint Extern 3 (appends (tlv_add_tls_supported _) _) => apply tlv_add_u8_appends : tlvs.
#[export] Hint Extern 3 (appends (tlv_add_cluster_name _) _) =>
  apply tlv_add_string_appends : tlvs.
#[export] Hint Extern 3 (appends (tlv_add_keep_active_partition_tie_breaker _) _) =>
  apply tlv_add_u8_appends : tlvs.

(** The options a creator writes, read off its definition. *)
Ltac creator_options := lazymatch goal with
  | |- appends (or_fail _ _) _ => apply appends_tlv; eauto with tlvs
  | |- appends (add_if _ _) _ => apply appends_add_if; eauto with tlvs
  | |- appends (add_array _ _) _ => apply appends_add_array; eauto with tlvs
  | |- appends (add_node_infos _) _ => apply add_node_infos_appends
  | |- appends (_ ≫= _) _ => eapply appends_tlvs; creator_options
  end.

Create HintDb decodes.
#[export] Hint Resolve decodes_seq_number decodes_node_id decodes_heartbeat_interval
  decodes_request_size decodes_reply_size decodes_config_version decodes_client_cert_required
  decodes_decision_algorithm decodes_ring_id decodes_tie_breaker decodes_tls_supported
  decodes_node_list_type decodes_vote decodes_quorate decodes_heuristics decodes_kap
  decodes_cluster_name decodes_reply_error_code decodes_supported_messages
  decodes_supported_options decodes_supported_decision_algorithms decodes_nodes decodes_nil : decodes.

(** What they decode to, along the same structure. *)
Ltac decode_options := lazymatch goal with
  | |- decodes (_ ++ _) _ => eapply decodes_app; decode_options
  | |- decodes (if_tlvs _ _) _ => eapply decodes_if; decode_options
  | _ => eauto with decodes
  end.

Lemma length_if_tlvs b xs : length (tlvs_enc (if_tlvs b xs)) = if b then length (tlvs_enc xs) else O.
Proof. by destruct b. Qed.
#[export] Hint Rewrite tlvs_enc_app tlvs_enc_one length_if_tlvs : qnet.

Ltac by_flags := repeat match goal with b : bool |- _ => destruct b end; cbv iota; done || lia.

Ltac msg_roundtrip := eapply msg_roundtrip_intro;
  [ apply creates_create; creator_options | decode_options | by_flags | done
  | autorewrite with qnet; by_flags | by_flags ].

(** ** Properties *)

(** C35: the messages of the vote exchange survive the wire: the sequence number, ring id
    and vote the receiver acts upon are those the sender put in. *)
Theorem msg_vote_messages_roundtrip n r v nlt heur :
  0 ≤ n < 2 ^ 32 → ring_id_valid r → v ≠ TLV_VOTE_UNDEFINED → heur ≠ TLV_HEURISTICS_UNDEFINED →
  msg_roundtrip (msg_create_node_list_reply n nlt r v) 40
    (set_vote (Some v) (set_ring_id (Some r) (set_node_list_type (Some nlt)
       (set_seq_number (Some n) (set_type MSG_TYPE_NODE_LIST_REPLY msg_decoded_init))))) ∧
  msg_roundtrip (msg_create_ask_for_vote n) 14
    (set_seq_number (Some n) (set_type MSG_TYPE_ASK_FOR_VOTE msg_decoded_init)) ∧
  msg_roundtrip (msg_create_ask_for_vote_reply n r v) 35
    (set_ring_id (Some r) (set_vote (Some v) (set_seq_number (Some n)
       (set_type MSG_TYPE_ASK_FOR_VOTE_REPLY msg_decoded_init)))) ∧
  msg_roundtrip (msg_create_vote_info n r v) 35
    (set_ring_id (Some r) (set_vote (Some v) (set_seq_number (Some n)
       (set_type MSG_TYPE_VOTE_INFO msg_decoded_init)))) ∧
  msg_roundtrip (msg_create_vote_info_reply n) 14
    (set_seq_number (Some n) (set_type MSG_TYPE_VOTE_INFO_REPLY msg_decoded_init)) ∧
  msg_roundtrip (msg_create_heuristics_change n heur) 19
    (set_heuristics heur (set_seq_number (Some n)
       (set_type MSG_TYPE_HEURISTICS_CHANGE msg_decoded_init))) ∧
  msg_roundtrip (msg_create_heuristics_change_reply n r heur v) 40
    (set_heuristics heur (set_ring_id (Some r) (set_vote (Some v) (set_seq_number (Some n)
       (set_type MSG_TYPE_HEURISTICS_CHANGE_REPLY msg_decoded_init))))).
Proof. intros. split_and!; msg_roundtrip. Qed.

Lemma msg_vote_messages_roundtrip_witness :
  ring_id_valid (mk_ring_id 1 8) ∧
  msg_roundtrip (msg_create_vote_info 7 (mk_ring_id 1 8) TLV_VOTE_ACK) 35
    (set_ring_id (Some (mk_ring_id 1 8)) (set_vote (Some TLV_VOTE_ACK) (set_seq_number (Some 7)
       (set_type MSG_TYPE_VOTE_INFO msg_decoded_init)))) ∧
  fst (msg_create_vote_info 7 (mk_ring_id 1 8) TLV_VOTE_ACK (dynar_init 100, [])) = 35.
Proof.
  assert (Hr : ring_id_valid (mk_ring_id 1 8)) by (split; cbn; lia).
  split; [exact Hr|]. split; [|vm_compute; reflexivity].
  apply (msg_vote_messages_roundtrip 7 (mk_ring_id 1 8) TLV_VOTE_ACK TLV_NODE_LIST_TYPE_QUORUM
    TLV_HEURISTICS_PASS); [lia|exact Hr|discriminate|discriminate].
Defined.

(** A node list message carries the list of nodes in order, whatever optional parts
    accompany it; undefined heuristics are simply left out. *)
Theorem msg_node_list_roundtrip n nlt b_ring r b_ver ver b_q q b_h heur nodes :
  0 ≤ n < 2 ^ 32 → ring_id_valid r → 0 ≤ ver < 2 ^ 64 → Forall node_valid nodes →
  msg_roundtrip (msg_create_node_list n nlt b_ring r b_ver ver b_q q b_h heur nodes)
    (19 + (if b_ring then 16 else 0) + (if b_ver then 12 else 0) + (if b_q then 5 else 0) +
     Z.of_nat (length (tlvs_enc (node_tlvs nodes))) +
     (if b_h && bool_decide (heur ≠ TLV_HEURISTICS_UNDEFINED) then 5 else 0))
    (set_heuristics (if b_h then heur else TLV_HEURISTICS_UNDEFINED)
      (set_nodes nodes
      (set_quorate (if b_q then Some q else None)
      (set_config_version (if b_ver then Some ver else None)
      (set_ring_id (if b_ring then Some r else None)
      (set_node_list_type (Some nlt) (set_seq_number (Some n)
        (set_type MSG_TYPE_NODE_LIST msg_decoded_init)))))))).
Proof.
  intros. destruct (decide (heur = TLV_HEURISTICS_UNDEFINED)) as [->|Hh].
  - eapply (msg_roundtrip_intro _ _ (
      [_] ++ [_] ++ if_tlvs b_ring [_] ++ if_tlvs b_ver [_] ++ if_tlvs b_q [_] ++ node_tlvs nodes ++ [])).
    + apply creates_create. 
      apply appends_tlvs; [creator_options|].
      apply appends_tlvs; [creator_options|]. apply appends_tlvs; [creator_options|].
      apply appends_tlvs; [creator_options|]. apply appends_tlvs; [creator_options|].
      apply appends_tlvs; [creator_options|]. rewrite andb_false_r. apply appends_ret.
    + decode_options.
    + done.
    + done.
    + rewrite andb_false_r, app_nil_r. autorewrite with qnet. by_flags.
    + by_flags.
  - rewrite bool_decide_eq_true_2 by done. rewrite andb_true_r.
    unfold msg_create_node_list. rewrite bool_decide_eq_true_2 by done. rewrite andb_true_r.
    msg_roundtrip.
Qed.

Definition two_nodes : node_list :=
  [mk_node 1 0 TLV_NODE_STATE_MEMBER; mk_node 2 5 TLV_NODE_STATE_DEAD].

Definition create_two_nodes : dynar * heap → Z * (dynar * heap) :=
  msg_create_node_list 1 TLV_NODE_LIST_TYPE_MEMBERSHIP true (mk_ring_id 1 8) false 0
    true TLV_QUORATE_QUORATE true TLV_HEURISTICS_PASS two_nodes.

Lemma msg_node_list_roundtrip_witness :
  Forall node_valid two_nodes ∧ (∃ sz dm, msg_roundtrip create_two_nodes sz dm ∧ dm_nodes dm = two_nodes) ∧
  fst (create_two_nodes (dynar_init 100, [])) = 87.
Proof.
  assert (Hv : Forall node_valid two_nodes)
    by (apply Forall_cons; [|apply Forall_singleton];
        unfold node_valid, node_info_valid; cbn; lia).
  split; [exact Hv|]. split; [|vm_compute; reflexivity].
  do 2 eexists. split.
  - apply (msg_node_list_roundtrip 1 TLV_NODE_LIST_TYPE_MEMBERSHIP true (mk_ring_id 1 8) false 0
      true TLV_QUORATE_QUORATE true TLV_HEURISTICS_PASS two_nodes);
      [lia|unfold ring_id_valid; cbn; lia|lia|exact Hv].
  - reflexivity.
Defined.

(** The pointer and count fields [msg_decode] fills in for an array that was sent. *)
Definition with_array (set_p : ptr (list Z) → msg_decoded → msg_decoded)
    (set_no : Z → msg_decoded → msg_decoded) (array : option (list Z)) (d : msg_decoded) :
    msg_decoded :=
  match array with
  | Some ((_ :: _) as l) => set_p (Valid l) (set_no (Z.of_nat (length l)) d)
  | _ => d
  end.

Definition array_size (array : option (list Z)) : Z :=
  match array with Some ((_ :: _) as l) => 4 + 2 * Z.of_nat (length l) | _ => 0 end.

Lemma length_array_tlvs t array :
  Z.of_nat (length (tlvs_enc (array_tlvs t array))) = array_size array.
Proof.
  destruct array as [[|x l]|]; [done| |done]. unfold array_tlvs, array_size.
  rewrite tlvs_enc_one, length_tlv_enc, length_u16s_enc. lia.
Qed.

(** The messages that set a session up survive the wire: the arrays of supported
    messages, options and algorithms, the algorithm, the intervals and the tie-breaker (up
    to the node id its mode does not use) arrive as they were sent. *)
Theorem msg_init_roundtrip b n alg msgs opts nid hb tb r err req rep algs :
  0 ≤ n < 2 ^ 32 → 0 ≤ alg < 2 ^ 16 → array_fits msgs → array_fits opts → array_fits algs →
  0 ≤ nid < 2 ^ 32 → 0 ≤ hb < 2 ^ 32 → tie_breaker_valid tb → ring_id_valid r →
  0 ≤ err < 2 ^ 16 → 0 ≤ req < 2 ^ 32 → 0 ≤ rep < 2 ^ 32 →
  msg_roundtrip (msg_create_init b n alg msgs opts nid hb tb r)
    (53 + (if b then 8 else 0) + array_size msgs + array_size opts)
    (set_ring_id (Some r) (set_tie_breaker (Some (tie_breaker_norm tb))
      (set_heartbeat_interval (Some hb) (set_decision_algorithm (Some alg)
      (set_node_id (Some nid)
      (with_array set_supported_options set_no_supported_options opts
      (with_array set_supported_messages set_no_supported_messages msgs
      (set_seq_number (if b then Some n else None)
        (set_type MSG_TYPE_INIT msg_decoded_init))))))))) ∧
  msg_roundtrip (msg_create_init_reply b n err msgs opts req rep algs)
    (28 + (if b then 8 else 0) + array_size msgs + array_size opts + array_size algs)
    (with_array set_supported_decision_algorithms set_no_supported_decision_algorithms algs
      (set_server_maximum_reply_size (Some rep) (set_server_maximum_request_size (Some req)
      (set_seq_number (if b then Some n else None)
      (with_array set_supported_options set_no_supported_options opts
      (with_array set_supported_messages set_no_supported_messages msgs
      (set_reply_error_code (Some err) (set_type MSG_TYPE_INIT_REPLY msg_decoded_init)))))))).
Proof.
  intros. split.
  - eapply msg_roundtrip_intro; [apply creates_create; creator_options|decode_options| |done| |].
    + by destruct b, msgs as [[|??]|], opts as [[|??]|].
    + autorewrite with qnet.
      pose proof (length_array_tlvs TLV_OPT_SUPPORTED_MESSAGES msgs).
      pose proof (length_array_tlvs TLV_OPT_SUPPORTED_OPTIONS opts). by_flags.
    + destruct msgs as [[|??]|], opts as [[|??]|]; by_flags.
  - eapply msg_roundtrip_intro; [apply creates_create; creator_options|decode_options| |done| |].
    + by destruct b, msgs as [[|??]|], opts as [[|??]|].
    + autorewrite with qnet.
      pose proof (length_array_tlvs TLV_OPT_SUPPORTED_MESSAGES msgs).
      pose proof (length_array_tlvs TLV_OPT_SUPPORTED_OPTIONS opts).
      pose proof (length_array_tlvs TLV_OPT_SUPPORTED_DECISION_ALGORITHMS algs). by_flags.
    + destruct msgs as [[|??]|], opts as [[|??]|], algs as [[|??]|]; by_flags.
Qed.

Definition create_init_example : dynar * heap → Z * (dynar * heap) :=
  msg_create_init true 1 TLV_DECISION_ALGORITHM_TYPE_FFSPLIT
    (Some msg_get_supported_messages) (Some tlv_get_supported_options) 5 8000
    (mk_tie_breaker TLV_TIE_BREAKER_MODE_LOWEST 9) (mk_ring_id 1 8).

Lemma msg_init_roundtrip_witness :
  tie_breaker_valid (mk_tie_breaker TLV_TIE_BREAKER_MODE_LOWEST 9) ∧
  (∃ sz dm, msg_roundtrip create_init_example sz dm ∧ dm_node_id dm = Some 5) ∧
  fst (create_init_example (dynar_init 1000, [])) = 153.
Proof.
  assert (Ht : tie_breaker_valid (mk_tie_breaker TLV_TIE_BREAKER_MODE_LOWEST 9))
    by (split; [by left|cbn; lia]).
  split; [exact Ht|]. split; [|vm_compute; reflexivity].
  assert (Hm : array_fits (Some msg_get_supported_messages))
    by (split; [reflexivity|apply (bool_decide_unpack _); vm_compute; exact I]).
  assert (Ho : array_fits (Some tlv_get_supported_options))
    by (split; [reflexivity|apply (bool_decide_unpack _); vm_compute; exact I]).
  assert (Halg : 0 ≤ TLV_DECISION_ALGORITHM_TYPE_FFSPLIT < 2 ^ 16) by (split; [discriminate|reflexivity]).
  do 2 eexists. split.
  - apply (msg_init_roundtrip true 1 TLV_DECISION_ALGORITHM_TYPE_FFSPLIT
      (Some msg_get_supported_messages) (Some tlv_get_supported_options) 5 8000
      (mk_tie_breaker TLV_TIE_BREAKER_MODE_LOWEST 9) (mk_ring_id 1 8) 0 100 100 None);
      [lia|exact Halg|exact Hm|exact Ho|exact I|lia|lia|exact Ht|
       unfold ring_id_valid; cbn; lia|lia|lia|lia].
  - reflexivity.
Defined.

(** The remaining messages with at least one option survive the wire as well. *)
Theorem msg_session_roundtrip b n name tls cert err b_hb hb b_kap kap :
  0 ≤ n < 2 ^ 32 → Z.of_nat (length name) < 2 ^ 16 → 0 ≤ cert < 2 ^ 8 →
  0 ≤ err < 2 ^ 16 → 0 ≤ hb < 2 ^ 32 →
  msg_roundtrip (msg_create_preinit name b n)
    (10 + (if b then 8 else 0) + Z.of_nat (length name))
    (set_cluster_name (Valid name) (set_seq_number (if b then Some n else None)
      (set_type MSG_TYPE_PREINIT msg_decoded_init))) ∧
  msg_roundtrip (msg_create_preinit_reply b n tls cert) (16 + (if b then 8 else 0))
    (set_tls_client_cert_required (Some cert) (set_tls_supported (Some tls)
      (set_seq_number (if b then Some n else None)
      (set_type MSG_TYPE_PREINIT_REPLY msg_decoded_init)))) ∧
  msg_roundtrip (msg_create_starttls true n) 14
    (set_seq_number (Some n) (set_type MSG_TYPE_STARTTLS msg_decoded_init)) ∧
  msg_roundtrip (msg_create_echo_request true n) 14
    (set_seq_number (Some n) (set_type MSG_TYPE_ECHO_REQUEST msg_decoded_init)) ∧
  msg_roundtrip (msg_create_server_error b n err) (12 + (if b then 8 else 0))
    (set_reply_error_code (Some err) (set_seq_number (if b then Some n else None)
      (set_type MSG_TYPE_SERVER_ERROR msg_decoded_init))) ∧
  (b || b_hb || b_kap = true →
   let expected type :=
     set_keep_active_partition_tie_breaker (if b_kap then Some kap else None)
      (set_heartbeat_interval (if b_hb then Some hb else None)
      (set_seq_number (if b then Some n else None) (set_type type msg_decoded_init))) in
   let sz := 6 + (if b then 8 else 0) + (if b_hb then 8 else 0) + (if b_kap then 5 else 0) in
   msg_roundtrip (msg_create_set_option b n b_hb hb b_kap kap) sz
     (expected MSG_TYPE_SET_OPTION) ∧
   msg_roundtrip (msg_create_set_option_reply b n b_hb hb b_kap kap) sz
     (expected MSG_TYPE_SET_OPTION_REPLY)).
Proof.
  intros. split_and!; [msg_roundtrip..|]. cbv zeta. intros Hb. split; msg_roundtrip.
Qed.

Lemma msg_session_roundtrip_witness :
  msg_roundtrip (msg_create_preinit [x61; x62] false 0) 12
    (set_cluster_name (Valid [x61; x62]) (set_seq_number None
       (set_type MSG_TYPE_PREINIT msg_decoded_init))).
Proof.
  apply (msg_session_roundtrip false 0 [x61; x62] TLV_TLS_SUPPORTED 0 0 false 0 false
    TLV_KEEP_ACTIVE_PARTITION_TIE_BREAKER_DISABLED); cbn; lia.
Defined.

(** ** Decoding arbitrary bytes *)

Lemma it_holds_self it :
  it_holds it (tlv_iter_get_type it) (mem_read (tlv_iter_get_data it) 0 (tlv_iter_get_len it)).
Proof.
  pose proof (get_len_range it). constructor; rewrite ?length_mem_read; [done|lia|].
  by rewrite Z2Nat.id by lia.
Qed.

Definition array_ok (p : ptr (list Z)) (no : Z) : Prop :=
  match p with Null => True | Valid l => no = Z.of_nat (length l) | Dangling => False end.

(** The structure while the decoding goes well, started with the heap [h0]. *)
Record decoded_ok (h0 : heap) (s : decode_st) : Prop := {
  ok_nodes : Forall node_valid (dm_nodes (fst s));
  ok_messages : array_ok (dm_supported_messages (fst s)) (dm_no_supported_messages (fst s));
  ok_options : array_ok (dm_supported_options (fst s)) (dm_no_supported_options (fst s));
  ok_algorithms : array_ok (dm_supported_decision_algorithms (fst s))
                    (dm_no_supported_decision_algorithms (fst s));
  ok_heap : snd s `suffix_of` h0
}.

Definition decode_failed (h0 : heap) (c : Z) (s : decode_st) : Prop :=
  (c = -1 ∨ c = -3 ∨ c = -4 ∨ c = -2 ∧ None ∈ h0) ∧ snd s `suffix_of` h0.

Definition opt_ok (h0 : heap) (m : M decode_st unit) (s : decode_st) : Prop :=
  match m s with (Ok _, s') => decoded_ok h0 s' | (Err c, s') => decode_failed h0 c s' end.

Definition res_codes {A} (r : res A) : Prop :=
  match r with Ok _ => True | Err c => c = -1 ∨ c = -3 ∨ c = -4 end.

Lemma decode_to_ok {A} (r : res A) set h0 s :
  decoded_ok h0 s → res_codes r →
  (∀ a d h, decoded_ok h0 (d, h) → decoded_ok h0 (set a d, h)) → opt_ok h0 (decode_to r set) s.
Proof.
  intros Hs Hr Hset. destruct s as [d h], r as [a|c]; cbn in *; [by apply Hset|].
  split; [unfold res_codes in Hr; tauto|apply Hs].
Qed.

Lemma res_codes_u32 it : res_codes (tlv_iter_decode_u32 it).
Proof. unfold tlv_iter_decode_u32, res_codes. case_if; [by left|done]. Qed.
Lemma res_codes_u64 it : res_codes (tlv_iter_decode_u64 it).
Proof. unfold tlv_iter_decode_u64, res_codes. case_if; [by left|done]. Qed.
Lemma res_codes_u8 it : res_codes (tlv_iter_decode_u8 it).
Proof. unfold tlv_iter_decode_u8, res_codes. case_if; [by left|done]. Qed.
Lemma res_codes_u16 it : res_codes (tlv_iter_decode_u16 it).
Proof. unfold tlv_iter_decode_u16, res_codes. case_if; [by left|done]. Qed.
Lemma res_codes_enum8 {A} (f : Z → option A) it : res_codes (decode_enum8 f it).
Proof. unfold decode_enum8, res_codes. destruct (tlv_iter_decode_u8 it); [destruct (f a)|]; tauto. Qed.
Lemma res_codes_decision_algorithm it : res_codes (tlv_iter_decode_decision_algorithm it).
Proof. unfold tlv_iter_decode_decision_algorithm, res_codes. destruct (tlv_iter_decode_u16 it); tauto. Qed.
Lemma res_codes_reply_error_code it o : res_codes (tlv_iter_decode_reply_error_code it o).
Proof.
  pose proof (res_codes_u16 it). unfold tlv_iter_decode_reply_error_code, res_codes in *.
  by destruct (tlv_iter_decode_u16 it).
Qed.
Lemma res_codes_ring_id it : res_codes (tlv_iter_decode_ring_id it).
Proof. unfold tlv_iter_decode_ring_id, res_codes. case_if; [by left|done]. Qed.
Lemma res_codes_tie_breaker it : res_codes (tlv_iter_decode_tie_breaker it).
Proof.
  unfold tlv_iter_decode_tie_breaker, res_codes. case_if; [by left|]. destruct (_ && _); tauto.
Qed.
#[export] Hint Resolve res_codes_u32 res_codes_u64 res_codes_u8 res_codes_u16
  res_codes_enum8 res_codes_decision_algorithm res_codes_reply_error_code res_codes_ring_id
  res_codes_tie_breaker : decodes.

(** The array cases: on success count and pointer agree again. *)
Lemma decode_u16_array_codes it n h :
  match tlv_iter_decode_u16_array it (n, h) with
  | (Ok l, (n', h')) => n' = Z.of_nat (length l) ∧ h' `suffix_of` h
  | (Err c, (_, h')) => (c = -1 ∨ c = -2 ∧ None ∈ h) ∧ h' `suffix_of` h
  end.
Proof.
  unfold tlv_iter_decode_u16_array. case_if; [by cbn; auto|].
  unfold modify, or_fail, malloc_or_fail, mbind, M_bind.
  destruct (malloc h) as [[j|] h'] eqn:E; cbn -[seq];
    (split; [|eauto with qnet]); [|right; eauto with qnet].
  rewrite length_fmap, length_seq. pose proof (get_len_range it).
  rewrite Z2Nat.id; [done|]. by apply Z.div_pos; lia.
Qed.

Lemma decode_supported_options_codes it n h :
  match tlv_iter_decode_supported_options it (n, h) with
  | (Ok l, (n', h')) => n' = Z.of_nat (length l) ∧ h' `suffix_of` h
  | (Err c, (_, h')) => (c = -1 ∨ c = -2 ∧ None ∈ h) ∧ h' `suffix_of` h
  end.
Proof.
  unfold tlv_iter_decode_supported_options, mbind, M_bind.
  pose proof (decode_u16_array_codes it n h) as H.
  destruct (tlv_iter_decode_u16_array it (n, h)) as [[l|c] [n' h']]; [|done].
  destruct H as [-> Hh]. unfold or_fail, malloc_or_fail.
  destruct (malloc h') as [[j|] h''] eqn:E; pose proof (malloc_suffix _ _ _ E).
  - split; [done|by etrans].
  - split; [right; split; [done|]; eapply suffix_in; eauto with qnet|by etrans].
Qed.

Lemma opt_ok_supported_messages h0 it d h :
  decoded_ok h0 (d, h) → opt_ok h0 (decode_supported_messages it) (d, h).
Proof.
  intros [Hn Hm Ho Ha Hh]. unfold opt_ok, decode_supported_messages, decode_array, modify, mbind, M_bind.
  match goal with |- context [tlv_iter_decode_u16_array it (?n, ?h)] =>
    pose proof (decode_u16_array_codes it n h) as H;
    destruct (tlv_iter_decode_u16_array it (n, h)) as [[l|c] [n' h']] end.
  - destruct H as [-> Hh']. destruct (malloc h') as [[j|] h''] eqn:E; pose proof (malloc_suffix _ _ _ E);
      assert (h'' `suffix_of` h0) by (by repeat (etrans; [eassumption|])).
    + destruct d. by constructor.
    + split; [right; right; right; split; [done|]|done].
      eapply suffix_in; [exact Hh|]. eapply suffix_in; [exact Hh'|]. eauto with qnet.
  - destruct H as [Hc Hh']. split; [|cbn; by etrans].
    destruct Hc as [|[? ?]]; [tauto|]. right; right; right. split; [done|]. by eapply suffix_in.
Qed.

Lemma opt_ok_options h0 it d h :
  decoded_ok h0 (d, h) →
  opt_ok h0 (decode_supported_options it) (d, h) ∧
  opt_ok h0 (decode_supported_decision_algorithms it) (d, h).
Proof.
  intros [Hn Hm Ho Ha Hh].
  unfold opt_ok, decode_supported_options, decode_supported_decision_algorithms, decode_array,
    modify, mbind, M_bind.
  change (tlv_iter_decode_supported_decision_algorithms) with (tlv_iter_decode_supported_options).
  split; match goal with |- context [tlv_iter_decode_supported_options it (?n, ?h)] =>
    pose proof (decode_supported_options_codes it n h) as H;
    destruct (tlv_iter_decode_supported_options it (n, h)) as [[l|c] [n' h']] end;
    destruct H as [Hc Hh'].
  1,3: subst n'; destruct d; constructor; try done; cbn; by etrans.
  all: split; [|cbn; by etrans]; destruct Hc as [|[? ?]]; [tauto|];
    right; right; right; split; [done|]; by eapply suffix_in.
Qed.

Lemma opt_ok_cluster_name h0 it d h :
  decoded_ok h0 (d, h) →
  opt_ok h0 (λ '(d, h), match tlv_iter_decode_str it h with
             | (Err _, h') => (Err (-2), (d, h'))
             | (Ok str, h') => (Ok tt, (set_cluster_name (Valid str) d, h'))
             end) (d, h).
Proof.
  intros [Hn Hm Ho Ha Hh]. unfold opt_ok, tlv_iter_decode_str. cbn [snd] in Hh.
  destruct (malloc h) as [[j|] h'] eqn:E;
    assert (h' `suffix_of` h0) by (etrans; [by eapply malloc_suffix|done]).
  - destruct d. by constructor.
  - split; [|done]. right; right; right. split; [done|].
    eapply suffix_in; [exact Hh|]. eauto with qnet.
Qed.

Lemma opt_ok_node_info h0 it d h :
  decoded_ok h0 (d, h) →
  opt_ok h0 (λ '(d, h), match tlv_iter_decode_node_info it with
             | Err res => (Err res, (d, h))
             | Ok node_info =>
                 match node_list_add_from_node_info node_info (dm_nodes d, h) with
                 | (Err _, (_, h')) => (Err (-2), (d, h'))
                 | (Ok _, (nodes, h')) => (Ok tt, (set_nodes nodes d, h'))
                 end
             end) (d, h).
Proof.
  intros [Hn Hm Ho Ha Hh]. unfold opt_ok. cbn [snd fst] in *.
  pose proof (decode_node_info_codes it _ _ (it_holds_self it)) as Hc.
  destruct (tlv_iter_decode_node_info it) as [ni|c]; [|split; [tauto|done]].
  unfold node_list_add_from_node_info, node_list_add.
  destruct (malloc h) as [[j|] h'] eqn:E;
    assert (h' `suffix_of` h0) by (etrans; [by eapply malloc_suffix|done]).
  - destruct d. constructor; try done. cbn. apply Forall_app_2; [done|].
    apply Forall_singleton. by destruct ni.
  - split; [|done]. right; right; right. split; [done|].
    eapply suffix_in; [exact Hh|]. eauto with qnet.
Qed.

Lemma msg_decode_opt_ok h0 it s : decoded_ok h0 s → opt_ok h0 (msg_decode_opt it) s.
Proof.
  intros Hs. destruct s as [d h]. unfold msg_decode_opt.
  repeat case_if;
    try (apply decode_to_ok; [exact Hs|eauto with decodes; exact (res_codes_enum8 _ _)|];
         intros a [] h' []; by constructor).
  - by apply opt_ok_cluster_name.
  - by apply opt_ok_supported_messages.
  - by apply opt_ok_options.
  - by apply opt_ok_options.
  - by apply opt_ok_node_info.
  - exact Hs.
Qed.

Lemma msg_opt_ok h0 t v s : decoded_ok h0 s → opt_ok h0 (msg_opt t v) s.
Proof. apply msg_decode_opt_ok. Qed.

(** A successful decoding leaves a sound structure, whatever buffer was decoded. *)
Lemma msg_decode_zero beyond msg dm h s :
  msg_decode beyond msg (dm, h) = (0, s) → decoded_ok h s.
Proof.
  assert (Hl : ∀ n it s0, decoded_ok h s0 →
    match tlv_loop msg_decode_opt n it s0 with
    | (Ok _, s') => decoded_ok h s' | (Err c, _) => c ≠ 0
    end).
  { induction n as [|n IH]; intros it s0 Hs; [done|]. cbn [tlv_loop].
    destruct (tlv_iter_next it) as [r it']. destruct (0 <? r); [|exact Hs].
    pose proof (msg_decode_opt_ok h it' s0 Hs) as Hb. unfold opt_ok in Hb. unfold mbind, M_bind.
    destruct (msg_decode_opt it' s0) as [[u|c] s1]; [by apply IH|]. destruct Hb as [Hc _]. lia. }
  unfold msg_decode. cbv zeta.
  match goal with |- context [tlv_loop _ ?n ?it ?s0] => specialize (Hl n it s0) end.
  destruct (tlv_loop _ _ _ _) as [[r|c] s'].
  - destruct (negb (r =? 0)); intros [= <-]. apply Hl. by constructor.
  - intros [= -> <-]. destruct Hl; [|done]. by constructor.
Qed.

(** C31: [msg_decode] on arbitrary bytes of an arbitrary sender: the result is the same
    whatever lies behind the message in memory; the loop ends with 0 or one of the four
    documented codes, -2 only when memory ran out; and on 0 the structure is sound: every
    node has a valid id, every array pointer is valid and has the length its count says. *)
Theorem msg_decode_safe beyond1 beyond2 msg dm h :
  wf msg → 6 ≤ size msg →
  msg_decode beyond1 msg (dm, h) = msg_decode beyond2 msg (dm, h) ∧
  match msg_decode beyond1 msg (dm, h) with
  | (r, s) => r = 0 ∧ decoded_ok h s ∨ decode_failed h r s
  end.
Proof.
  intros Hwf Hs. rewrite !(msg_decode_parse _ _ _ _ Hwf Hs). split; [done|].
  destruct (parse_tlvs _) as [tlvs ok].
  pose proof (run_tlvs_inv msg_opt (decoded_ok h) (decode_failed h) tlvs ok
    (set_type (get_be (take 2 (contents msg))) msg_decoded_init, h) (msg_opt_ok h)) as Hr.
  cbv zeta. destruct (run_tlvs _ _ _ _) as [[r|c] s'].
  - destruct Hr as [Hok Hr]; [by constructor|]. destruct Hr as [-> | ->]; cbn [Z.eqb].
    + by left.
    + right. split; [tauto|apply Hok].
  - right. apply Hr. by constructor.
Qed.

Definition vote_info_received : dynar :=
  mk_dynar [x00; x0e; x00; x00; x00; x05; x00; x13; x00; x01; x01] 11 11 11.

Lemma msg_decode_safe_witness :
  wf vote_info_received ∧
  msg_decode (λ _, x00) vote_info_received (msg_decoded_init, []) =
  msg_decode (λ _, x01) vote_info_received (msg_decoded_init, []) ∧
  fst (msg_decode (λ _, x00) vote_info_received (msg_decoded_init, [])) = 0.
Proof.
  assert (Hwf : wf vote_info_received) by (constructor; cbn; lia).
  split; [exact Hwf|]. split; [|vm_compute; reflexivity].
  apply (msg_decode_safe (λ _, x00) (λ _, x01) vote_info_received msg_decoded_init [] Hwf).
  cbn. lia.
Defined.

Lemma run_tlvs_end {St} (body : Z → list byte → M St unit) xs ok s r s' :
  run_tlvs body xs ok s = (Ok r, s') → r = if ok then 0 else -1.
Proof.
  revert s. induction xs as [|[t v] xs IH]; intros s; cbn [run_tlvs].
  - cbn. by intros [= <- _].
  - unfold mbind, M_bind. destruct (body t v s) as [[u|c] s1]; [apply IH|done].
Qed.

Lemma put_be_get_be_2 b1 b2 : put_be 2 (get_be [b1; b2]) = [b1; b2].
Proof. apply (put_get_be [b1; b2]). Qed.

Lemma parse_tlvs_fuel_sound n l xs :
  parse_tlvs_fuel n l = (xs, true) → xs ≠ [] ∧ Forall tlv_fits xs ∧ l = tlvs_enc xs.
Proof.
  revert l xs. induction n as [|n IH]; intros l xs E; [done|].
  destruct l as [|t1 [|t2 [|l1 [|l2 rest]]]]; try done. cbn [parse_tlvs_fuel] in E.
  pose proof (get_be_range [t1; t2]) as Ht. pose proof (get_be_range [l1; l2]) as Hl.
  change (256 ^ Z.of_nat (length [t1; t2])) with 65536 in Ht.
  change (256 ^ Z.of_nat (length [l1; l2])) with 65536 in Hl.
  destruct (length rest <? _)%nat eqn:El; [done|]. apply Nat.ltb_ge in El.
  set (len := Z.to_nat (get_be [l1; l2])) in *.
  assert (Hlen : length (take len rest) = len) by (rewrite length_take; lia).
  assert (Hfits : tlv_fits (get_be [t1; t2], take len rest)) by (split; [done|lia]).
  assert (Henc : tlv_enc (get_be [t1; t2]) (take len rest) = t1 :: t2 :: l1 :: l2 :: take len rest).
  { unfold tlv_enc. rewrite Hlen. subst len. rewrite Z2Nat.id by lia.
    by rewrite !put_be_get_be_2. }
  rewrite <- (take_drop len rest). destruct (drop len rest) as [|b r].
  - injection E as <-. rewrite tlvs_enc_one, Henc, app_nil_r.
    split_and!; [done|by apply Forall_singleton|done].
  - destruct (parse_tlvs_fuel n (b :: r)) as [ys ok] eqn:Er. injection E as <- ->.
    destruct (IH _ _ Er) as (_ & Hys & ->). rewrite tlvs_enc_cons, Henc.
    split_and!; [done|by constructor|done].
Qed.

Lemma parse_tlvs_sound l xs :
  parse_tlvs l = (xs, true) → xs ≠ [] ∧ Forall tlv_fits xs ∧ l = tlvs_enc xs.
Proof. apply parse_tlvs_fuel_sound. Qed.

(** C36: a message is decoded only if its options fill it exactly, and there is at least
    one: a header alone (which [msg_create_starttls], [msg_create_echo_request] and
    [msg_create_set_option] produce when asked for no option), one to three stray bytes
    or an option that is longer than the message is answered with an error. *)
Theorem msg_decode_exact_framing beyond msg dm h s :
  wf msg → 6 ≤ size msg → msg_decode beyond msg (dm, h) = (0, s) →
  snd (parse_tlvs (drop 6 (contents msg))) = true ∧
  (∃ xs, xs ≠ [] ∧ Forall tlv_fits xs ∧ drop 6 (contents msg) = tlvs_enc xs).
Proof.
  intros Hwf Hs E. rewrite (msg_decode_parse _ _ _ _ Hwf Hs) in E. cbv zeta in E.
  destruct (parse_tlvs (drop 6 (contents msg))) as [tlvs ok] eqn:Ep. 
  assert (Hok : ok = true).
  { destruct (run_tlvs msg_opt tlvs ok _) as [[r|c] s'] eqn:Er.
    - apply run_tlvs_end in Er as ->. by destruct ok.
    - pose proof (run_tlvs_inv msg_opt (decoded_ok h) (decode_failed h) tlvs ok
        (set_type (get_be (take 2 (contents msg))) msg_decoded_init, h) (msg_opt_ok h)) as Hr.
      rewrite Er in Hr. destruct Hr as [Hc _]; [by constructor|]. simplify_eq. lia. }
  subst ok. split; [done|]. exists tlvs. by eapply parse_tlvs_sound.
Qed.

Lemma msg_decode_exact_framing_witness :
  let m := mk_dynar [x00; x0e; x00; x00; x00; x05; x00; x13; x00; x01; x01] 11 11 11 in
  wf m ∧ snd (parse_tlvs (drop 6 (contents m))) = true ∧
  fst (msg_decode (λ _, x00) (mk_dynar [x00; x02; x00; x00; x00; x00] 6 6 6)
         (msg_decoded_init, [])) = -3.
Proof.
  set (m := mk_dynar [x00; x0e; x00; x00; x00; x05; x00; x13; x00; x01; x01] 11 11 11).
  assert (Hwf : wf m) by (constructor; cbn; lia).
  cbv zeta. split; [exact Hwf|]. split; [|vm_compute; reflexivity].
  apply (msg_decode_exact_framing (λ _, x00) m msg_decoded_init []
    (snd (msg_decode (λ _, x00) m (msg_decoded_init, []))) Hwf); [cbn; lia|].
  vm_compute. reflexivity.
Defined.

(** On an error the structure is not safe to destroy: two "supported messages" options,
    the second of odd length, leave [supported_messages] pointing to freed memory (it is
    freed before the new value is decoded and not set to NULL). *)
Theorem msg_decode_error_dangles :
  let msg := mk_dynar ([x00; x00; x00; x00; x00; x0b] ++ tlv_enc TLV_OPT_SUPPORTED_MESSAGES [x00; x01]
                        ++ tlv_enc TLV_OPT_SUPPORTED_MESSAGES [x00]) 17 17 17 in
  wf msg ∧
  ∃ s, msg_decode (λ _, x00) msg (msg_decoded_init, []) = (-1, s) ∧
       dm_supported_messages (fst s) = Dangling.
Proof.
  split; [constructor; cbn; lia|]. eexists. split; [vm_compute; reflexivity|reflexivity].
Qed.
