(* ===== verification/Msgio.v ===== *)
(** Reading and writing messages on a non-blocking socket (msgio.c).

    The socket belongs to NSPR: [PR_Send], [PR_Recv] and [PR_GetError] are parameters, and
    the hypotheses of the theorems state their documented contract over the bytes that
    are still to come ([incoming]) and that went out ([outgoing]). *)
From S2P Require Import Prelude Dynar Tlv TlvFacts NodeList Msg MsgFacts.
Local Open Scope Z_scope.

Definition MSGIO_LOCAL_BUF_SIZE : Z := Z.shiftl 1 10.

Section msgio.
Context {sock : Type}.
Context (PR_Send : sock → list byte → Z * sock).
Context (PR_Recv : sock → Z → Z * list byte * sock).
Context (PR_GetError : sock → Z) (PR_WOULD_BLOCK_ERROR : Z).
Context (beyond : mem).

Record msgio_state := mk_msgio {
  io_sock : sock;
  io_msg : dynar;
  already_received_bytes : Z;
  skipping_msg : bool;
  io_heap : heap
}.

(** [*already_sent_bytes] is passed and returned with the socket. *)
Definition msgio_write (s : sock) (msg : dynar) (already_sent_bytes : Z) : Z * (sock * Z) :=
  let to_send := u64 (size msg - already_sent_bytes) in
  let to_send_i32 := if MSGIO_LOCAL_BUF_SIZE <? to_send then MSGIO_LOCAL_BUF_SIZE else to_send in
  let '(sent, s') :=
    PR_Send s (take (Z.to_nat to_send_i32) (drop (Z.to_nat already_sent_bytes) (data msg))) in
  let already' := if 0 <? sent then u64 (already_sent_bytes + sent) else already_sent_bytes in
  if (0 <? sent) && (already' =? size msg) then (1, (s', already'))
  else if sent =? 0 then (-1, (s', already'))
  else if (sent <? 0) && negb (PR_GetError s' =? PR_WOULD_BLOCK_ERROR) then (-2, (s', already'))
  else (0, (s', already')).

Definition msgio_to_read (msg : dynar) (already : Z) : Z :=
  let to_read :=
    if already <? msg_get_header_length then msg_get_header_length - already
    else u64 (msg_get_header_length + msg_get_len beyond msg - already) in
  if MSGIO_LOCAL_BUF_SIZE <? to_read then MSGIO_LOCAL_BUF_SIZE else to_read.

(** Storing what was read, unless the message is being skipped: the new [ret], [skipping_msg],
    message and heap. *)
Definition msgio_store (skipping : bool) (bs : list byte) (msg : dynar) (h : heap) :
    Z * bool * dynar * heap :=
  if skipping then (0, true, msg, h)
  else match dynar_cat bs (msg, h) with
       | (Err _, (msg', h')) => (-4, true, msg', h')
       | (Ok _, (msg', h')) => (0, false, msg', h')
       end.

(** The header is complete: check type and maximum size. *)
Definition msgio_check_header (ret : Z) (skipping : bool) (msg : dynar) (already : Z) : Z * bool :=
  if negb skipping && (already =? msg_get_header_length) then
    if negb (msg_is_valid_msg_type beyond msg) then (-5, true)
    else if maximum_size msg <? msg_get_header_length + msg_get_len beyond msg
    then (-6, true)
    else (ret, skipping)
  else (ret, skipping).

(** The message is complete, received or skipped. *)
Definition msgio_complete (msg : dynar) (already : Z) : bool :=
  (msg_get_header_length <=? already) &&
  (already =? msg_get_header_length + msg_get_len beyond msg).

Definition msgio_read (st : msgio_state) : Z * msgio_state :=
  let '(readed, buf, s') := PR_Recv (io_sock st)
                              (msgio_to_read (io_msg st) (already_received_bytes st)) in
  if 0 <? readed then
    let already := u64 (already_received_bytes st + readed) in
    let '(ret, skipping, msg, h) :=
      msgio_store (skipping_msg st) (take (Z.to_nat readed) buf) (io_msg st) (io_heap st) in
    if skipping && (already <? msg_get_header_length) then
      (-3, mk_msgio s' msg already skipping h)
    else
      let '(ret, skipping) := msgio_check_header ret skipping msg already in
      let ret := if msgio_complete msg already then 1 else ret in
      (ret, mk_msgio s' msg already skipping h)
  else
    let st' := mk_msgio s' (io_msg st) (already_received_bytes st) (skipping_msg st) (io_heap st) in
    if readed =? 0 then (-1, st')
    else if negb (PR_GetError s' =? PR_WOULD_BLOCK_ERROR) then (-2, st')
    else (0, st').

(** The poll loop calls the reader again until it reports something. *)
Fixpoint msgio_read_until (n : nat) (st : msgio_state) : option (Z * msgio_state) :=
  match n with
  | O => None
  | S n' => let '(r, st') := msgio_read st in
            if r =? 0 then msgio_read_until n' st' else Some (r, st')
  end.

Fixpoint msgio_write_until (n : nat) (s : sock) (msg : dynar) (already : Z) :
    option (Z * (sock * Z)) :=
  match n with
  | O => None
  | S n' => let '(r, (s', already')) := msgio_write s msg already in
            if r =? 0 then msgio_write_until n' s' msg already' else Some (r, (s', already'))
  end.

(** ** Contract of the socket *)

Context (incoming outgoing : sock → list byte).

Hypothesis recv_spec : ∀ s n r buf s',
  0 < n → PR_Recv s n = (r, buf, s') →
  if 0 <? r then r ≤ n ∧ Z.of_nat (length buf) = r ∧ incoming s = buf ++ incoming s'
  else incoming s' = incoming s.

(** The calls are made when the socket is readable: there is data. *)
Hypothesis recv_ready : ∀ s n, 0 < n → incoming s ≠ [] → 0 < fst (fst (PR_Recv s n)).

Hypothesis send_spec : ∀ s bs r s',
  PR_Send s bs = (r, s') → 0 < r →
  r ≤ Z.of_nat (length bs) ∧ outgoing s' = outgoing s ++ take (Z.to_nat r) bs.

Hypothesis send_ready : ∀ s bs, bs ≠ [] → 0 < fst (PR_Send s bs).

(** ** Reading *)

(** The bytes of one message as they appear on the wire. *)
Record framed (m : list byte) : Prop := {
  framed_header : 6 ≤ Z.of_nat (length m);
  framed_len : get_be (take 4 (drop 2 m)) = Z.of_nat (length m) - 6
}.

Definition type_known (m : list byte) : Prop :=
  existsb (λ t, t =? get_be (take 2 m)) msg_static_supported_messages = true.

(** The reader has taken [k] bytes of [m] and stored the first [j] of them. *)
Record reading (m rest : list byte) (k j : nat) (st : msgio_state) : Prop := {
  rd_wf : wf (io_msg st);
  rd_contents : contents (io_msg st) = take j m;
  rd_already : already_received_bytes st = Z.of_nat k;
  rd_heap : io_heap st = [];
  rd_incoming : incoming (io_sock st) = drop k m ++ rest
}.

Lemma framed_length m : framed m → Z.of_nat (length m) < 2 ^ 33.
Proof.
  intros [Hh Hl]. pose proof (get_be_range (take 4 (drop 2 m))) as Hr.
  rewrite length_take, length_drop, Hl in Hr.
  replace (Z.of_nat (4 `min` (length m - 2))) with 4 in Hr by lia. lia.
Qed.

Lemma take_drop_take (m : list byte) a b j :
  (a + b ≤ j)%nat → take b (drop a (take j m)) = take b (drop a m).
Proof.
  intros. rewrite skipn_firstn_comm, take_take. f_equal. lia.
Qed.

Lemma reading_get_len m rest k j st :
  reading m rest k j st → framed m → (6 ≤ j ≤ length m)%nat →
  msg_get_len beyond (io_msg st) = Z.of_nat (length m) - 6.
Proof.
  intros [Hwf Hc _ _ _] [_ Hl] Hj. unfold msg_get_len, MSG_TYPE_LENGTH.
  pose proof (length_contents _ Hwf) as Hs. rewrite Hc, length_take in Hs.
  rewrite (mem_read_dynar _ _ 2 4 Hwf), Hc by lia.
  change (Z.to_nat 4) with 4%nat. change (Z.to_nat 2) with 2%nat.
  by rewrite take_drop_take by lia.
Qed.

Lemma reading_valid_type m rest k j st :
  reading m rest k j st → (6 ≤ j ≤ length m)%nat →
  msg_is_valid_msg_type beyond (io_msg st) =
  existsb (λ t, t =? get_be (take 2 m)) msg_static_supported_messages.
Proof.
  intros [Hwf Hc _ _ _] Hj. unfold msg_is_valid_msg_type, msg_get_type.
  pose proof (length_contents _ Hwf) as Hs. rewrite Hc, length_take in Hs.
  rewrite (mem_read_dynar _ _ 0 2 Hwf), Hc by lia.
  change (drop (Z.to_nat 0) (take j m)) with (drop 0 (take j m)). rewrite drop_0.
  change (Z.to_nat 2) with 2%nat. rewrite take_take. by rewrite Nat.min_l by lia.
Qed.

Lemma reading_to_read m rest k j st :
  reading m rest k j st → framed m → (k < length m)%nat → (6 ≤ k → 6 ≤ j ≤ length m)%nat →
  0 < msgio_to_read (io_msg st) (already_received_bytes st) ≤
    (if (k <? 6)%nat then 6 else Z.of_nat (length m)) - Z.of_nat k.
Proof.
  intros Hr Hf Hk Hj. pose proof (framed_length m Hf). pose proof (framed_header m Hf).
  unfold msgio_to_read, msg_get_header_length, MSG_TYPE_LENGTH, MSG_LENGTH_LENGTH.
  rewrite (rd_already _ _ _ _ _ Hr). change MSGIO_LOCAL_BUF_SIZE with 1024.
  destruct (k <? 6)%nat eqn:Ek.
  - apply Nat.ltb_lt in Ek. rewrite (proj2 (Z.ltb_lt (Z.of_nat k) _)) by lia. case_if; lia.
  - apply Nat.ltb_ge in Ek. rewrite (proj2 (Z.ltb_ge (Z.of_nat k) _)) by lia.
    rewrite (reading_get_len _ _ _ _ _ Hr Hf) by lia. rewrite u64_small by lia. case_if; lia.
Qed.

(** One successful call of [PR_Recv]. *)
Lemma reading_recv m rest k j st :
  reading m rest k j st → framed m → (k < length m)%nat → (6 ≤ k → 6 ≤ j ≤ length m)%nat →
  ∃ r s', PR_Recv (io_sock st) (msgio_to_read (io_msg st) (already_received_bytes st))
            = (Z.of_nat r, take r (drop k m), s') ∧
    (0 < r)%nat ∧ (k + r ≤ if (k <? 6)%nat then 6 else length m)%nat ∧
    incoming s' = drop (k + r) m ++ rest.
Proof.
  intros Hr Hf Hk Hj. pose proof (reading_to_read _ _ _ _ _ Hr Hf Hk Hj) as [Hn Hle].
  pose proof (framed_header m Hf). set (n := msgio_to_read _ _) in *.
  pose proof (rd_incoming _ _ _ _ _ Hr) as Hin.
  assert (Hne : incoming (io_sock st) ≠ []).
  { rewrite Hin. intros E. apply (f_equal length) in E. rewrite length_app, length_drop in E.
    cbn in E. lia. }
  pose proof (recv_ready (io_sock st) n Hn Hne) as Hpos.
  destruct (PR_Recv (io_sock st) n) as [[r buf] s'] eqn:E. cbn [fst] in Hpos.
  pose proof (recv_spec _ _ _ _ _ Hn E) as Hs. rewrite (proj2 (Z.ltb_lt _ _) Hpos) in Hs.
  destruct Hs as (Hrn & Hb & Hinc). rewrite Hin in Hinc.
  assert (Hkl : (k + length buf ≤ if (k <? 6)%nat then 6 else length m)%nat)
    by (destruct (k <? 6)%nat; lia).
  assert (Hbl : (k + length buf ≤ length m)%nat)
    by (destruct (k <? 6)%nat; lia).
  rewrite <- (take_drop (length buf) (drop k m)), <- app_assoc in Hinc.
  apply app_inj_1 in Hinc as [Hb2 Hi2]; [|rewrite length_take, length_drop; lia].
  exists (length buf), s'. rewrite Hb2, Hb. rewrite drop_drop in Hi2.
  split_and!; [done|lia|done|done].
Qed.

Lemma msgio_read_received m rest k j st :
  reading m rest k j st → framed m → (k < length m)%nat → (6 ≤ k → 6 ≤ j ≤ length m)%nat →
  ∃ r s', (0 < r)%nat ∧ (k + r ≤ if (k <? 6)%nat then 6 else length m)%nat ∧
    incoming s' = drop (k + r) m ++ rest ∧
    msgio_read st =
    (let '(ret, skipping, msg, h) :=
       msgio_store (skipping_msg st) (take r (drop k m)) (io_msg st) (io_heap st) in
     if skipping && (Z.of_nat (k + r) <? msg_get_header_length) then
       (-3, mk_msgio s' msg (Z.of_nat (k + r)) skipping h)
     else
       let '(ret, skipping) := msgio_check_header ret skipping msg (Z.of_nat (k + r)) in
       (if msgio_complete msg (Z.of_nat (k + r)) then 1 else ret,
        mk_msgio s' msg (Z.of_nat (k + r)) skipping h)).
Proof.
  intros Hr Hf Hk Hj. pose proof (framed_length m Hf). pose proof (framed_header m Hf).
  destruct (reading_recv _ _ _ _ _ Hr Hf Hk Hj) as (r & s' & E & Hr0 & Hle & Hin).
  exists r, s'. split_and!; [done..|]. unfold msgio_read. rewrite E.
  rewrite (proj2 (Z.ltb_lt 0 _)) by lia. rewrite (rd_already _ _ _ _ _ Hr).
  assert (Hkr : (k + r ≤ length m)%nat) by (destruct (k <? 6)%nat; lia).
  rewrite u64_small by lia. rewrite Nat2Z.id, take_take, Nat.min_id.
  replace (Z.of_nat k + Z.of_nat r) with (Z.of_nat (k + r)) by lia. done.
Qed.
(** The next call, while the message is being stored. *)
Lemma msgio_read_store m rest k st :
  reading m rest k k st → skipping_msg st = false → framed m → (k < length m)%nat →
  6 ≤ maximum_size (io_msg st) → ((6 ≤ k)%nat → Z.of_nat (length m) ≤ maximum_size (io_msg st)) →
  ∃ k' s' msg, (k < k' ≤ if (k <? 6)%nat then 6 else length m)%nat ∧
    reading m rest k' k' (mk_msgio s' msg (Z.of_nat k') false []) ∧
    maximum_size msg = maximum_size (io_msg st) ∧
    msgio_read st =
    (let '(ret, skipping) := msgio_check_header 0 false msg (Z.of_nat k') in
     (if msgio_complete msg (Z.of_nat k') then 1 else ret,
      mk_msgio s' msg (Z.of_nat k') skipping [])).
Proof.
  intros Hr Hsk Hf Hk H6 Hmax. pose proof (framed_length m Hf). pose proof (framed_header m Hf).
  destruct (msgio_read_received _ _ _ _ _ Hr Hf Hk ltac:(lia)) as (r & s' & Hr0 & Hle & Hin & E).
  pose proof Hr as [Hwf Hc Ha Hh _]. rewrite Hsk, Hh in E. unfold msgio_store in E.
  assert (Hkr : (k + r ≤ length m)%nat) by (destruct (k <? 6)%nat; lia).
  pose proof (length_contents _ Hwf) as Hs. rewrite Hc, length_take in Hs.
  assert (Hlb : length (take r (drop k m)) = r) by (rewrite length_take, length_drop; lia).
  assert (Hfit : size (io_msg st) + Z.of_nat (length (take r (drop k m))) ≤ maximum_size (io_msg st)).
  { rewrite Hlb. destruct (k <? 6)%nat eqn:Ek.
    - lia.
    - apply Nat.ltb_ge in Ek. specialize (Hmax ltac:(lia)). lia. }
  assert (Hl63 : Z.of_nat (length (take r (drop k m))) < 2 ^ 63) by lia.
  destruct (appends_total (dynar_cat (take r (drop k m))) _ (io_msg st)
    (dynar_cat_appends _ Hl63) Hwf Hfit) as (msg & Ed & Hwf' & Hc' & Hm').
  rewrite Ed in E. cbn [andb] in E. exists (k + r)%nat, s', msg.
  split_and!; [lia|done| |done|exact E].
  constructor; try done. cbn [io_msg]. rewrite Hc', Hc. apply take_take_drop.
Qed.

(** The next call, while the message is being skipped. *)
Lemma msgio_read_skip m rest k st :
  reading m rest k 6 st → skipping_msg st = true → framed m → (6 ≤ k < length m)%nat →
  ∃ k' s', (k < k' ≤ length m)%nat ∧
    reading m rest k' 6 (mk_msgio s' (io_msg st) (Z.of_nat k') true []) ∧
    msgio_read st = (if msgio_complete (io_msg st) (Z.of_nat k') then 1 else 0,
                     mk_msgio s' (io_msg st) (Z.of_nat k') true []).
Proof.
  intros Hr Hsk Hf Hk. pose proof (framed_header m Hf).
  destruct (msgio_read_received _ _ _ _ _ Hr Hf ltac:(lia) ltac:(lia))
    as (r & s' & Hr0 & Hle & Hin & E).
  pose proof Hr as [Hwf Hc Ha Hh _]. rewrite Hsk, Hh in E. unfold msgio_store in E.
  rewrite (proj2 (Nat.ltb_ge k 6)) in Hle by lia. exists (k + r)%nat, s'.
  split_and!; [lia|lia|by constructor|]. rewrite E. cbn [andb].
  rewrite (proj2 (Z.ltb_ge _ _)); [done|].
  unfold msg_get_header_length, MSG_TYPE_LENGTH, MSG_LENGTH_LENGTH. lia.
Qed.

Lemma complete_iff m rest k j st :
  reading m rest k j st → framed m → (6 ≤ j ≤ length m)%nat → (k ≤ length m)%nat →
  msgio_complete (io_msg st) (Z.of_nat k) = (k =? length m)%nat.
Proof.
  intros Hr Hf Hj Hk. unfold msgio_complete. rewrite (reading_get_len _ _ _ _ _ Hr Hf Hj).
  unfold msg_get_header_length, MSG_TYPE_LENGTH, MSG_LENGTH_LENGTH.
  pose proof (framed_header m Hf). destruct (k =? length m)%nat eqn:E.
  - apply Nat.eqb_eq in E. apply andb_true_intro. split; [apply Z.leb_le|apply Z.eqb_eq]; lia.
  - apply Nat.eqb_neq in E. apply andb_false_intro2. apply Z.eqb_neq. lia.
Qed.

Lemma incomplete_header msg k : (k < 6)%nat → msgio_complete msg (Z.of_nat k) = false.
Proof.
  intros. apply andb_false_intro1. apply Z.leb_gt.
  unfold msg_get_header_length, MSG_TYPE_LENGTH, MSG_LENGTH_LENGTH. lia.
Qed.

Lemma check_header_other ret sk msg k :
  (k ≠ 6)%nat → msgio_check_header ret sk msg (Z.of_nat k) = (ret, sk).
Proof.
  intros. unfold msgio_check_header. rewrite (proj2 (Z.eqb_neq _ _)).
  - by rewrite andb_false_r.
  - unfold msg_get_header_length, MSG_TYPE_LENGTH, MSG_LENGTH_LENGTH. lia.
Qed.

(** C33: whatever chunks the socket delivers a message in, [msgio_read], called again as
    long as it returns 0, returns 1 after at most as many calls as the message has bytes,
    with exactly the message stored and not one byte of the next message taken. *)
Theorem msgio_read_reassembles m rest n st :
  reading m rest 0 0 st → skipping_msg st = false → framed m → type_known m →
  Z.of_nat (length m) ≤ maximum_size (io_msg st) → (length m ≤ n)%nat →
  ∃ st', msgio_read_until n st = Some (1, st') ∧ contents (io_msg st') = m ∧
         skipping_msg st' = false ∧ incoming (io_sock st') = rest.
Proof.
  intros Hr Hsk Hf Hty Hmax Hn. pose proof (framed_header m Hf).
  assert (Hgen : ∀ n k st, reading m rest k k st → skipping_msg st = false → (k < length m)%nat →
    Z.of_nat (length m) ≤ maximum_size (io_msg st) → (length m ≤ n + k)%nat →
    ∃ st', msgio_read_until n st = Some (1, st') ∧ contents (io_msg st') = m ∧
         skipping_msg st' = false ∧ incoming (io_sock st') = rest);
    [|by apply (Hgen n 0%nat st Hr Hsk); lia].
  clear n st Hr Hsk Hmax Hn. induction n as [|n IH]; intros k st Hr Hsk Hk Hmax Hn; [lia|].
  destruct (msgio_read_store _ _ _ _ Hr Hsk Hf Hk ltac:(lia) ltac:(lia))
    as (k' & s' & msg & Hk' & Hr' & Hm & E).
  assert (Hkl : (k' ≤ length m)%nat) by (destruct (k <? 6)%nat; lia).
  assert (Hch : msgio_check_header 0 false msg (Z.of_nat k') = (0, false)).
  { destruct (decide (k' = 6)%nat) as [->|Hne]; [|by apply check_header_other].
    unfold msgio_check_header.
    pose proof (reading_valid_type _ _ _ _ _ Hr' ltac:(lia)) as Hv. cbn [io_msg] in Hv.
    pose proof (reading_get_len _ _ _ _ _ Hr' Hf ltac:(lia)) as Hl. cbn [io_msg] in Hl.
    rewrite Hv, Hl, Hty. unfold msg_get_header_length, MSG_TYPE_LENGTH, MSG_LENGTH_LENGTH.
    cbn [negb andb]. rewrite (proj2 (Z.ltb_ge _ _)) by lia. by case_match. }
  rewrite Hch in E. cbn [msgio_read_until]. rewrite E.
  destruct (decide (k' < 6)%nat) as [Hlt|Hge].
  - rewrite incomplete_header by done. cbn [Z.eqb].
    apply (IH k' _ Hr'); [done|lia|cbn [io_msg]; lia|lia].
  - pose proof (complete_iff _ _ _ _ _ Hr' Hf ltac:(lia) ltac:(lia)) as Hcm.
    cbn [io_msg] in Hcm. rewrite Hcm. destruct (k' =? length m)%nat eqn:Ek.
    + apply Nat.eqb_eq in Ek. subst k'. cbn [Z.eqb]. eexists. split; [reflexivity|].
      pose proof Hr' as [_ Hc _ _ Hin]. cbn in Hc, Hin |- *. rewrite firstn_all in Hc.
      rewrite drop_all in Hin. done.
    + apply Nat.eqb_neq in Ek. cbn [Z.eqb].
      apply (IH k' _ Hr'); [done|lia|cbn [io_msg]; lia|lia].
Qed.
(** The calls up to the end of the header. *)
Lemma until_header m rest n k st :
  reading m rest k k st → skipping_msg st = false → framed m → (k < 6)%nat →
  6 ≤ maximum_size (io_msg st) → (6 ≤ n + k)%nat →
  ∃ n' s' msg, reading m rest 6 6 (mk_msgio s' msg 6 false []) ∧
    maximum_size msg = maximum_size (io_msg st) ∧
    msgio_read_until n st =
    (let '(ret, skipping) := msgio_check_header 0 false msg 6 in
     let r := if msgio_complete msg 6 then 1 else ret in
     let st' := mk_msgio s' msg 6 skipping [] in
     if r =? 0 then msgio_read_until n' st' else Some (r, st')).
Proof.
  revert k st. induction n as [|n IH]; intros k st Hr Hsk Hf Hk Hmax Hn; [lia|].
  pose proof (framed_header m Hf).
  destruct (msgio_read_store _ _ _ _ Hr Hsk Hf ltac:(lia) ltac:(lia) ltac:(lia))
    as (k' & s' & msg & Hk' & Hr' & Hm & E).
  rewrite (proj2 (Nat.ltb_lt k 6)) in Hk' by done. cbn [msgio_read_until]. rewrite E.
  destruct (decide (k' = 6)%nat) as [->|Hne].
  - exists n, s', msg. split_and!; [done|done|]. change (Z.of_nat 6) with 6.
    by destruct (msgio_check_header 0 false msg 6).
  - rewrite check_header_other, incomplete_header by lia. cbn [Z.eqb].
    destruct (IH k' _ Hr' eq_refl Hf ltac:(lia) ltac:(cbn [io_msg]; lia) ltac:(lia))
      as (n' & s2 & msg2 & Hr2 & Hm2 & E2).
    exists n', s2, msg2. split_and!; [done|by rewrite Hm2|done].
Qed.

Lemma until_skip m rest n k st :
  reading m rest k 6 st → skipping_msg st = true → framed m → (6 ≤ k < length m)%nat →
  (length m ≤ n + k)%nat →
  ∃ st', msgio_read_until n st = Some (1, st') ∧ skipping_msg st' = true ∧
         contents (io_msg st') = take 6 m ∧ incoming (io_sock st') = rest.
Proof.
  revert k st. induction n as [|n IH]; intros k st Hr Hsk Hf Hk Hn; [lia|].
  destruct (msgio_read_skip _ _ _ _ Hr Hsk Hf Hk) as (k' & s' & Hk' & Hr' & E).
  cbn [msgio_read_until]. rewrite E.
  pose proof (complete_iff _ _ _ _ _ Hr' Hf ltac:(lia) ltac:(lia)) as Hcm.
  cbn [io_msg] in Hcm. rewrite Hcm. destruct (k' =? length m)%nat eqn:Ek.
  - apply Nat.eqb_eq in Ek. subst k'. cbn [Z.eqb]. eexists. split; [reflexivity|].
    pose proof Hr' as [_ Hc _ _ Hin]. cbn in Hc, Hin |- *. by rewrite drop_all in Hin.
  - apply Nat.eqb_neq in Ek. cbn [Z.eqb]. by apply (IH k' _ Hr'); [|done|lia|lia].
Qed.

Lemma check_header_known m rest s' msg :
  reading m rest 6 6 (mk_msgio s' msg 6 false []) → framed m →
  msgio_check_header 0 false msg 6 =
  if existsb (λ t, t =? get_be (take 2 m)) msg_static_supported_messages then
    if maximum_size msg <? Z.of_nat (length m) then (-6, true) else (0, false)
  else (-5, true).
Proof.
  intros Hr Hf. pose proof (framed_header m Hf). unfold msgio_check_header.
  pose proof (reading_valid_type _ _ _ _ _ Hr ltac:(lia)) as Hv. cbn [io_msg] in Hv.
  pose proof (reading_get_len _ _ _ _ _ Hr Hf ltac:(lia)) as Hl. cbn [io_msg] in Hl.
  rewrite Hv, Hl. unfold msg_get_header_length, MSG_TYPE_LENGTH, MSG_LENGTH_LENGTH.
  cbn [negb andb Z.eqb Z.add Pos.add Pos.succ Pos.eqb].
  replace (2 + 4 + (Z.of_nat (length m) - 6)) with (Z.of_nat (length m)) by lia.
  by destruct (existsb _ _).
Qed.

(** A message of an unknown type (-5), or one longer than the buffer may become (-6), is
    reported once, when its header is complete; then exactly the rest of it is skipped, the
    calls return 1 with [skipping_msg] set, and the next message starts at the right byte.
    Only the header was stored. *)
Theorem msgio_read_skips_bad_message m rest n st :
  reading m rest 0 0 st → skipping_msg st = false → framed m →
  6 ≤ maximum_size (io_msg st) → (6 < length m ≤ n)%nat →
  ¬ type_known m ∨ maximum_size (io_msg st) < Z.of_nat (length m) →
  ∃ r st1 st2, msgio_read_until n st = Some (r, st1) ∧
    (type_known m → r = -6) ∧ (¬ type_known m → r = -5) ∧
    msgio_read_until n st1 = Some (1, st2) ∧ skipping_msg st2 = true ∧
    contents (io_msg st2) = take 6 m ∧ incoming (io_sock st2) = rest.
Proof.
  intros Hr Hsk Hf H6 Hn Hbad.
  destruct (until_header _ _ n 0 _ Hr Hsk Hf ltac:(lia) H6 ltac:(lia))
    as (n' & s' & msg & Hr' & Hm & E).
  pose proof (check_header_known _ _ _ _ Hr' Hf) as Hch.
  pose proof (complete_iff _ _ _ _ _ Hr' Hf ltac:(lia) ltac:(lia)) as Hcm.
  cbn [io_msg] in Hcm. change (Z.of_nat 6) with 6 in Hcm.
  rewrite (proj2 (Nat.eqb_neq 6 _)) in Hcm by lia. rewrite Hcm in E.
  assert (∃ r, msgio_check_header 0 false msg 6 = (r, true) ∧ (r =? 0) = false ∧
    (type_known m → r = -6) ∧ (¬ type_known m → r = -5)) as (r & Hr2 & Hr0 & H1 & H2).
  { rewrite Hch. unfold type_known in *. destruct (existsb _ _) eqn:Et.
    - destruct Hbad as [Hb|Hb]; [done|]. rewrite Hm, (proj2 (Z.ltb_lt _ _)) by lia.
      eexists. by split_and!.
    - eexists. by split_and!. }
  rewrite Hr2 in E. cbv beta iota zeta in E. rewrite Hr0 in E.
  assert (Hrd : reading m rest 6 6 (mk_msgio s' msg 6 true [])) by (by destruct Hr'; constructor).
  destruct (until_skip m rest n 6 _ Hrd eq_refl Hf ltac:(lia) ltac:(lia)) as (st2 & E2 & ? & ? & ?).
  exists r, (mk_msgio s' msg 6 true []), st2. by split_and!.
Qed.

(** The report of a bad type gets lost when the message is only a header: the return value
    -5 is overwritten by 1, so the caller sees a skipped message without a reason. *)
Theorem msgio_read_loses_bad_type m rest n st :
  reading m rest 0 0 st → skipping_msg st = false → framed m →
  6 ≤ maximum_size (io_msg st) → (length m = 6)%nat → (6 ≤ n)%nat → ¬ type_known m →
  ∃ st', msgio_read_until n st = Some (1, st') ∧ skipping_msg st' = true.
Proof.
  intros Hr Hsk Hf H6 Hm6 Hn Hbad.
  destruct (until_header _ _ n 0 _ Hr Hsk Hf ltac:(lia) H6 ltac:(lia))
    as (n' & s' & msg & Hr' & Hm & E).
  pose proof (complete_iff _ _ _ _ _ Hr' Hf ltac:(lia) ltac:(lia)) as Hcm.
  cbn [io_msg] in Hcm. change (Z.of_nat 6) with 6 in Hcm.
  rewrite (proj2 (Nat.eqb_eq 6 _)) in Hcm by done. rewrite Hcm in E.
  rewrite (check_header_known _ _ _ _ Hr' Hf) in E. unfold type_known in Hbad.
  destruct (existsb _ _); [done|]. cbv beta iota zeta in E. cbn [Z.eqb] in E. eexists. by split.
Qed.

(** ** Writing *)

(** C38: [msgio_write], called again as long as it returns 0, puts exactly the bytes of the
    message on the socket, in order, each once, whatever part of them each call accepts. *)
Theorem msgio_write_sends_all s msg k n :
  wf msg → (Z.of_nat k < size msg) → (Z.to_nat (size msg) ≤ n + k)%nat →
  ∃ s', msgio_write_until n s msg (Z.of_nat k) = Some (1, (s', size msg)) ∧
        outgoing s' = outgoing s ++ drop k (contents msg).
Proof.
  intros Hwf. revert s k. pose proof Hwf as [Hs Hd Ha Hm].
  pose proof (length_contents _ Hwf) as Hlc.
  induction n as [|n IH]; intros s k Hk Hn; [lia|]. cbn [msgio_write_until].
  unfold msgio_write. rewrite u64_small by lia. change MSGIO_LOCAL_BUF_SIZE with 1024.
  set (w := if 1024 <? size msg - Z.of_nat k then 1024 else size msg - Z.of_nat k).
  assert (Hw : 0 < w ≤ size msg - Z.of_nat k) by (subst w; case_if; lia).
  rewrite Nat2Z.id. set (bs := take (Z.to_nat w) (drop k (data msg))).
  assert (Hbs : bs = take (Z.to_nat w) (drop k (contents msg))).
  { subst bs. unfold contents. rewrite skipn_firstn_comm, take_take. f_equal. lia. }
  assert (Hlb : Z.of_nat (length bs) = w)
    by (rewrite Hbs, length_take, length_drop; lia).
  pose proof (send_ready s bs ltac:(intros E; rewrite E in Hlb; cbn in Hlb; lia)) as Hpos.
  destruct (PR_Send s bs) as [r s'] eqn:E. cbn [fst] in Hpos.
  destruct (send_spec _ _ _ _ E Hpos) as [Hle Hout].
  rewrite (proj2 (Z.ltb_lt 0 r)) by done. rewrite u64_small by lia.
  assert (Hout2 : outgoing s' = outgoing s ++ take (Z.to_nat r) (drop k (contents msg))).
  { rewrite Hout, Hbs, take_take. do 2 f_equal. lia. }
  replace (Z.of_nat k + r) with (Z.of_nat (k + Z.to_nat r)) by lia. cbn [andb].
  destruct (Z.eqb_spec (Z.of_nat (k + Z.to_nat r)) (size msg)) as [Eq|Ne].
  - cbn [Z.eqb]. exists s'. rewrite Eq. split; [done|]. rewrite Hout2. f_equal.
    apply firstn_all2. rewrite length_drop. lia.
  - rewrite (proj2 (Z.eqb_neq r 0)), (proj2 (Z.ltb_ge r 0)) by lia. cbn [andb Z.eqb].
    destruct (IH s' (k + Z.to_nat r)%nat ltac:(lia) ltac:(lia)) as (s2 & E2 & Ho2).
    exists s2. split; [done|]. rewrite Ho2, Hout2, <- app_assoc. f_equal.
    by rewrite <- drop_drop, take_drop.
Qed.
End msgio.

(** ** A socket that meets the contract

    Three bytes at most per receive, five per send. *)

Definition pipe : Type := list byte * list byte.
Definition pipe_recv (s : pipe) (n : Z) : Z * list byte * pipe :=
  let bs := take (Z.to_nat (Z.min n 3)) (fst s) in
  (Z.of_nat (length bs), bs, (drop (length bs) (fst s), snd s)).
Definition pipe_send (s : pipe) (bs : list byte) : Z * pipe :=
  let w := take 5 bs in (Z.of_nat (length w), (fst s, snd s ++ w)).

Lemma pipe_recv_spec s n r buf s' :
  0 < n → pipe_recv s n = (r, buf, s') →
  if 0 <? r then r ≤ n ∧ Z.of_nat (length buf) = r ∧ fst s = buf ++ fst s' else fst s' = fst s.
Proof.
  intros Hn. unfold pipe_recv. intros [= <- <- <-]. case_if; cbn [fst].
  - rewrite length_take. split_and!; [lia|done|].
    rewrite <- (take_drop (Z.to_nat (Z.min n 3)) (fst s)) at 1. f_equal.
    destruct (decide (Z.to_nat (Z.min n 3) ≤ length (fst s))%nat).
    + by rewrite Nat.min_l by lia.
    + by rewrite Nat.min_r, !drop_ge by lia.
  - replace (length (take _ _)) with 0%nat by lia. apply drop_0.
Qed.

Lemma pipe_recv_ready s n : 0 < n → fst s ≠ [] → 0 < fst (fst (pipe_recv s n)).
Proof.
  intros Hn Hs. unfold pipe_recv. cbn [fst]. rewrite length_take.
  destruct (fst s); [done|]. cbn [length]. lia.
Qed.

Lemma pipe_send_spec s bs r s' :
  pipe_send s bs = (r, s') → 0 < r →
  r ≤ Z.of_nat (length bs) ∧ snd s' = snd s ++ take (Z.to_nat r) bs.
Proof.
  unfold pipe_send. intros [= <- <-] Hr. cbn [snd]. rewrite length_take. split; [lia|].
  f_equal. rewrite Nat2Z.id. destruct (decide (5 ≤ length bs)%nat).
  - by rewrite Nat.min_l by lia.
  - rewrite Nat.min_r by lia. by rewrite !firstn_all2 by lia.
Qed.

Lemma pipe_send_ready s bs : bs ≠ [] → 0 < fst (pipe_send s bs).
Proof. destruct bs; [done|]. intros _. unfold pipe_send. cbn [fst length take]. lia. Qed.

Lemma reading_start m rest max : 0 ≤ max < 2 ^ 62 →
  reading (fst : pipe → list byte) m rest 0 0
    (mk_msgio (m ++ rest, []) (dynar_init max) 0 false []).
Proof. intros. by constructor; [apply wf_init|..]. Qed.

Definition vote_info_bytes : list byte :=
  [x00; x0e; x00; x00; x00; x05; x00; x13; x00; x01; x01].

Lemma vote_info_framed : framed vote_info_bytes.
Proof. constructor; [cbn; lia|reflexivity]. Qed.

Lemma msgio_read_reassembles_witness :
  ∃ st', msgio_read_until pipe_recv (λ _, 0) 0 (λ _, x00) 11
           (mk_msgio (vote_info_bytes ++ [xff], []) (dynar_init 100) 0 false []) = Some (1, st') ∧
         contents (io_msg st') = vote_info_bytes ∧ skipping_msg st' = false ∧
         fst (io_sock st') = [xff].
Proof.
  apply (msgio_read_reassembles pipe_recv (λ _, 0) 0 (λ _, x00) fst pipe_recv_spec pipe_recv_ready
    vote_info_bytes [xff] 11); [apply reading_start; lia|reflexivity|exact vote_info_framed
    |reflexivity|cbn; lia|cbn; lia].
Defined.

Lemma msgio_read_skips_bad_message_witness :
  ∃ r st1 st2, msgio_read_until pipe_recv (λ _, 0) 0 (λ _, x00) 11
      (mk_msgio (vote_info_bytes ++ [xff], []) (dynar_init 8) 0 false []) = Some (r, st1) ∧
    (type_known vote_info_bytes → r = -6) ∧ (¬ type_known vote_info_bytes → r = -5) ∧
    msgio_read_until pipe_recv (λ _, 0) 0 (λ _, x00) 11 st1 = Some (1, st2) ∧
    skipping_msg st2 = true ∧ contents (io_msg st2) = take 6 vote_info_bytes ∧
    fst (io_sock st2) = [xff].
Proof.
  apply (msgio_read_skips_bad_message pipe_recv (λ _, 0) 0 (λ _, x00) fst pipe_recv_spec
    pipe_recv_ready vote_info_bytes [xff] 11); [apply reading_start; lia|reflexivity
    |exact vote_info_framed|cbn; lia|cbn; lia|right; cbn; lia].
Defined.

Lemma msgio_read_loses_bad_type_witness :
  ∃ st', msgio_read_until pipe_recv (λ _, 0) 0 (λ _, x00) 6
      (mk_msgio ([xff; xff; x00; x00; x00; x00], []) (dynar_init 100) 0 false []) = Some (1, st') ∧
    skipping_msg st' = true.
Proof.
  apply (msgio_read_loses_bad_type pipe_recv (λ _, 0) 0 (λ _, x00) fst pipe_recv_spec
    pipe_recv_ready [xff; xff; x00; x00; x00; x00] [] 6); [apply reading_start; lia|reflexivity
    |constructor; [cbn; lia|reflexivity]|cbn; lia|reflexivity|cbn; lia|discriminate].
Defined.

Lemma msgio_write_sends_all_witness :
  ∃ s', msgio_write_until pipe_send (λ _, 0) 0 11 ([], []) (mk_dynar vote_info_bytes 11 11 11) 0
          = Some (1, (s', 11)) ∧ snd s' = vote_info_bytes.
Proof.
  apply (msgio_write_sends_all pipe_send (λ _, 0) 0 snd pipe_send_spec pipe_send_ready
    ([], []) (mk_dynar vote_info_bytes 11 11 11) 0 11);
    [constructor; cbn; lia|cbn; lia|cbn; lia].
Defined.

(** When memory runs out while the header arrives in one piece, the promised -3 ("unable to
    store message header") is not returned: the length of the message is then read from memory
    the program never wrote, and the result depends on it. *)
Theorem msgio_read_header_out_of_memory :
  let st := mk_msgio ([x00; x02; x00; x00; x00; x05], []) (dynar_init 100) 0 false [None; None] in
  let recv (s : pipe) (n : Z) := (6, fst s, ([], snd s)) in
  fst (msgio_read recv (λ _, 0) 0 (λ _, x00) st) = 1 ∧
  fst (msgio_read recv (λ _, 0) 0 (λ _, x01) st) = -4.
Proof. split; vm_compute; reflexivity. Qed.
