(* ===== verification/SendBuffer.v ===== *)
(** The queue of messages waiting to be sent to a peer (send-buffer-list.c): entries are
    taken from a free list or allocated up to a limit, filled, and queued. *)
From stdpp Require Import list.
From S2P Require Import Prelude Dynar.
Local Open Scope Z_scope.

Record send_buffer_list_entry := mk_sbe { sb_buffer : dynar; msg_already_sent_bytes : Z }.

Record send_buffer_list := mk_sblist {
  max_list_entries : Z;
  allocated_list_entries : Z;
  max_buffer_size : Z;
  sb_list : list send_buffer_list_entry;
  sb_free_list : list send_buffer_list_entry
}.

Definition send_buffer_list_init (max_entries max_size : Z) : send_buffer_list :=
  mk_sblist max_entries 0 max_size [] [].

(** [None] is the NULL result. *)
Definition send_buffer_list_get_new (sblist : send_buffer_list) (h : heap) :
    option send_buffer_list_entry * (send_buffer_list * heap) :=
  match sb_free_list sblist with
  | entry :: free' =>
      (Some (mk_sbe (dynar_set_max_size (max_buffer_size sblist) (dynar_clean (sb_buffer entry))) 0),
       (mk_sblist (max_list_entries sblist) (allocated_list_entries sblist)
          (max_buffer_size sblist) (sb_list sblist) free', h))
  | [] =>
      if max_list_entries sblist <? u64 (allocated_list_entries sblist + 1)
      then (None, (sblist, h))
      else
        let sblist' := mk_sblist (max_list_entries sblist)
                         (u64 (allocated_list_entries sblist + 1))
                         (max_buffer_size sblist) (sb_list sblist) [] in
        match malloc h with
        | (None, h') => (None, (sblist', h'))
        | (Some _, h') => (Some (mk_sbe (dynar_init (max_buffer_size sblist)) 0), (sblist', h'))
        end
  end.

Definition send_buffer_list_put (entry : send_buffer_list_entry) (s : send_buffer_list) :
    send_buffer_list :=
  mk_sblist (max_list_entries s) (allocated_list_entries s) (max_buffer_size s)
    (sb_list s ++ [entry]) (sb_free_list s).

Definition send_buffer_list_discard_new (entry : send_buffer_list_entry) (s : send_buffer_list) :
    send_buffer_list :=
  mk_sblist (max_list_entries s) (allocated_list_entries s) (max_buffer_size s)
    (sb_list s) (entry :: sb_free_list s).

Definition send_buffer_list_get_active (s : send_buffer_list) : option send_buffer_list_entry :=
  head (sb_list s).

(** The entry is given by its position in the queue. *)
Definition send_buffer_list_delete (i : nat) (s : send_buffer_list) : send_buffer_list :=
  match sb_list s !! i with
  | None => s
  | Some entry =>
      mk_sblist (max_list_entries s) (allocated_list_entries s) (max_buffer_size s)
        (delete i (sb_list s)) (entry :: sb_free_list s)
  end.

Definition send_buffer_list_empty (s : send_buffer_list) : bool :=
  match sb_list s with [] => true | _ => false end.

Definition send_buffer_list_free (s : send_buffer_list) : send_buffer_list :=
  mk_sblist (max_list_entries s) 0 (max_buffer_size s) [] [].

Definition send_buffer_list_set_max_buffer_size (sz : Z) (s : send_buffer_list) :
    send_buffer_list :=
  mk_sblist (max_list_entries s) (allocated_list_entries s) sz (sb_list s) (sb_free_list s).

Definition send_buffer_list_set_max_list_entries (n : Z) (s : send_buffer_list) :
    send_buffer_list :=
  mk_sblist n (allocated_list_entries s) (max_buffer_size s) (sb_list s) (sb_free_list s).

(** ** Invariant: every buffer is well formed, and with [held] entries taken and not yet
    returned no more than [allocated_list_entries] exist. *)
Record sb_wf (held : Z) (s : send_buffer_list) : Prop := {
  sb_buffers : Forall (λ e, wf (sb_buffer e)) (sb_list s ++ sb_free_list s);
  sb_count : Z.of_nat (length (sb_list s)) + Z.of_nat (length (sb_free_list s)) + held
             ≤ allocated_list_entries s;
  sb_max : allocated_list_entries s < 2 ^ 63;
  sb_size : 0 ≤ max_buffer_size s < 2 ^ 32
}.

Lemma sb_wf_init n sz : 0 ≤ sz < 2 ^ 32 → sb_wf 0 (send_buffer_list_init n sz).
Proof. intros. constructor; cbn; try lia. constructor. Qed.

Lemma get_new_spec held s h :
  sb_wf held s → max_list_entries s < 2 ^ 63 → 0 ≤ held →
  match send_buffer_list_get_new s h with
  | (Some e, (s', h')) =>
      sb_wf (held + 1) s' ∧ wf (sb_buffer e) ∧ contents (sb_buffer e) = [] ∧
      maximum_size (sb_buffer e) = max_buffer_size s ∧ msg_already_sent_bytes e = 0 ∧
      sb_list s' = sb_list s ∧ max_buffer_size s' = max_buffer_size s ∧ h' `suffix_of` h
  | (None, (s', h')) =>
      sb_list s' = sb_list s ∧ sb_wf held s' ∧
      (max_list_entries s ≤ allocated_list_entries s ∨ None ∈ h) ∧ h' `suffix_of` h
  end.
Proof.
  intros [Hb Hc Hm Hs] Hmax Hheld. unfold send_buffer_list_get_new.
  destruct (sb_free_list s) as [|e free'] eqn:Ef.
  - rewrite app_nil_r in Hb. cbn [length] in Hc. rewrite u64_small by lia. case_if.
    + split_and!; [done|constructor; rewrite ?Ef, ?app_nil_r; cbn [length]; try done; lia
        |left; lia|done].
    + destruct (malloc h) as [[j|] h'] eqn:E; cbn -[Z.pow].
      * split_and!; try done; [|apply wf_init; lia|eauto with qnet].
        constructor; cbn -[Z.pow]; rewrite ?app_nil_r; done || lia.
      * split_and!; try done; [|right; eauto with qnet|eauto with qnet].
        constructor; cbn -[Z.pow]; rewrite ?app_nil_r; done || lia.
  - apply Forall_app in Hb as [Hb1 Hb2]. inversion Hb2 as [|x l He Hf]; subst.
    cbn [length] in Hc. split_and!; try done.
    + constructor; cbn -[Z.pow]; try done; [by apply Forall_app|lia].
    + cbn. apply wf_set_max; [lia|]. by apply wf_clean.
Qed.

Lemma put_wf held e s :
  sb_wf (held + 1) s → wf (sb_buffer e) → sb_wf held (send_buffer_list_put e s).
Proof.
  intros [Hb Hc Hm Hs] He. constructor; cbn -[Z.pow]; try done.
  - rewrite !Forall_app in *. destruct Hb. split_and!; try done. by constructor.
  - rewrite length_app. cbn [length]. lia.
Qed.

Lemma discard_new_wf held e s :
  sb_wf (held + 1) s → wf (sb_buffer e) → sb_wf held (send_buffer_list_discard_new e s).
Proof.
  intros [Hb Hc Hm Hs] He. constructor; cbn -[Z.pow]; try done.
  - rewrite !Forall_app in *. destruct Hb. split; [done|by constructor].
  - cbn [length]. lia.
Qed.

Lemma delete_wf held i s : sb_wf held s → sb_wf held (send_buffer_list_delete i s).
Proof.
  intros [Hb Hc Hm Hs]. unfold send_buffer_list_delete.
  destruct (sb_list s !! i) as [e|] eqn:E; [|by constructor].
  pose proof (delete_Permutation _ _ _ E) as Hp.
  constructor; cbn -[Z.pow]; try done.
  - rewrite !Forall_app in *. destruct Hb as [Hb1 Hb2]. rewrite Hp in Hb1.
    inversion Hb1; subst. split; [done|by constructor].
  - apply Permutation_length in Hp. cbn [length] in *. lia.
Qed.

Lemma delete_head s : sb_list (send_buffer_list_delete 0 s) = drop 1 (sb_list s).
Proof. unfold send_buffer_list_delete. by destruct (sb_list s) eqn:E. Qed.

(** ** The queue as the daemons use it

    A message is sent by taking an entry, filling its buffer and queueing it, or giving it
    back when the message does not fit; a message that was written is deleted. *)

Inductive queue_op := QSend (msg : list byte) | QSent.

Definition queue_step (op : queue_op) (x : send_buffer_list * heap) :
    bool * (send_buffer_list * heap) :=
  match op with
  | QSent => (true, (send_buffer_list_delete 0 x.1, x.2))
  | QSend msg =>
      match send_buffer_list_get_new x.1 x.2 with
      | (None, x') => (false, x')
      | (Some e, (s', h')) =>
          let '(r, (buffer, h'')) := dynar_cat msg (sb_buffer e, h') in
          let e' := mk_sbe buffer (msg_already_sent_bytes e) in
          match r with
          | Ok _ => (true, (send_buffer_list_put e' s', h''))
          | Err _ => (false, (send_buffer_list_discard_new e' s', h''))
          end
      end
  end.

Fixpoint queue_run (ops : list queue_op) (x : send_buffer_list * heap) :
    list bool * (send_buffer_list * heap) :=
  match ops with
  | [] => ([], x)
  | op :: ops' =>
      let '(b, x') := queue_step op x in
      let '(bs, x'') := queue_run ops' x' in (b :: bs, x'')
  end.

(** The specification: a queue of at most [n] messages of at most [sz] bytes. [memory] says
    whether there is memory when a message is queued. *)
Definition bounded_queue_step (n sz : Z) (memory : bool) (op : queue_op)
    (q : list (list byte)) : bool * list (list byte) :=
  match op with
  | QSent => (true, drop 1 q)
  | QSend msg =>
      if memory && (Z.of_nat (length q) <? n) && (Z.of_nat (length msg) <=? sz)
      then (true, q ++ [msg]) else (false, q)
  end.

Fixpoint bounded_queue_run (n sz : Z) (ops : list (bool * queue_op)) (q : list (list byte)) :
    list bool * list (list byte) :=
  match ops with
  | [] => ([], q)
  | (memory, op) :: ops' =>
      let '(b, q') := bounded_queue_step n sz memory op q in
      let '(bs, q'') := bounded_queue_run n sz ops' q' in (b :: bs, q'')
  end.

Definition queued (s : send_buffer_list) : list (list byte) :=
  (λ e, contents (sb_buffer e)) <$> sb_list s.

(** Between two operations no entry is held, and none was allocated beyond the limit; as
    long as no allocation failed every allocated entry is in one of the lists. *)
Record queue_ok (n sz : Z) (x : send_buffer_list * heap) (q : list (list byte)) : Prop := {
  qo_wf : sb_wf 0 x.1;
  qo_max : max_list_entries x.1 = n;
  qo_size : max_buffer_size x.1 = sz;
  qo_allocated : 0 ≤ allocated_list_entries x.1 ≤ n;
  qo_queued : queued x.1 = q
}.

Definition none_lost (s : send_buffer_list) : Prop :=
  allocated_list_entries s = Z.of_nat (length (sb_list s)) + Z.of_nat (length (sb_free_list s)).

Lemma get_new_counts n s h :
  max_list_entries s = n → 0 ≤ allocated_list_entries s ≤ n → n < 2 ^ 63 →
  let '(o, (s', h')) := send_buffer_list_get_new s h in
  max_list_entries s' = n ∧ 0 ≤ allocated_list_entries s' ≤ n ∧
  max_buffer_size s' = max_buffer_size s ∧ (None ∉ h → None ∉ h') ∧
  (None ∉ h → none_lost s →
     match o with
     | Some _ => allocated_list_entries s' =
         Z.of_nat (length (sb_list s')) + Z.of_nat (length (sb_free_list s')) + 1
     | None => none_lost s' ∧ n ≤ Z.of_nat (length (sb_list s))
     end).
Proof.
  intros Hn Ha Hb. unfold send_buffer_list_get_new, none_lost.
  destruct (sb_free_list s) as [|e l] eqn:Ef; [|cbn; split_and!; try done; lia].
  rewrite u64_small by lia.
  case_if; [cbn; rewrite Ef; cbn; split_and!; try done; lia|].
  destruct h as [|[j|] h]; cbn; rewrite ?not_elem_of_cons; split_and!; try done; naive_solver lia.
Qed.

Lemma queue_ok_sent n sz s h q :
  queue_ok n sz (s, h) q → queue_ok n sz (send_buffer_list_delete 0 s, h) (drop 1 q).
Proof.
  intros [Hw Hm Hs Ha Hq]. constructor; cbn in *; try done; [by apply delete_wf|..];
    unfold send_buffer_list_delete, queued in *; destruct (sb_list s) eqn:El; cbn in *;
    subst; rewrite ?El; done.
Qed.

Lemma none_lost_sent s : none_lost s → none_lost (send_buffer_list_delete 0 s).
Proof.
  unfold none_lost, send_buffer_list_delete.
  destruct (sb_list s) eqn:El; cbn; rewrite ?El; cbn; lia.
Qed.

(** A message in a taken entry: it is queued when it fits and memory lasts, and otherwise
    the entry is given back. *)
Lemma queue_fill n sz s e h q msg :
  sb_wf 1 s → wf (sb_buffer e) → contents (sb_buffer e) = [] →
  maximum_size (sb_buffer e) = sz → max_list_entries s = n → max_buffer_size s = sz →
  0 ≤ allocated_list_entries s ≤ n → queued s = q → Z.of_nat (length msg) < 2 ^ 63 →
  let '(r, (buffer, h'')) := dynar_cat msg (sb_buffer e, h) in
  let e' := mk_sbe buffer (msg_already_sent_bytes e) in
  (None ∉ h → None ∉ h'') ∧
  match r with
  | Ok _ => queue_ok n sz (send_buffer_list_put e' s, h'') (q ++ [msg]) ∧
            Z.of_nat (length msg) ≤ sz
  | Err _ => queue_ok n sz (send_buffer_list_discard_new e' s, h'') q ∧
             (sz < Z.of_nat (length msg) ∨ None ∈ h)
  end.
Proof.
  intros Hw He Hc Hm Hn Hs Ha Hq Hl.
  pose proof (dynar_cat_appends msg Hl (sb_buffer e) h He) as H.
  assert (Hz : size (sb_buffer e) = 0) by (rewrite <- length_contents, Hc by done; done).
  destruct (dynar_cat _ _) as [[[]|c] [d h'']]; cbn zeta.
  - destruct H as (Hwd & Hcd & Hmd & Hsuf & Hfit). split; [eauto using suffix_in|].
    destruct He as [_ _ _ [? ?]]. split; [|destruct Hfit; subst; cbn [length] in *; lia].
    constructor; cbn -[Z.pow]; try done; [by apply put_wf|].
    unfold queued in *. cbn. by rewrite fmap_app, Hq, <- (app_nil_l msg), <- Hc, <- Hcd.
  - destruct H as (_ & Hwd & _ & Hmd & Hsuf & Hwhy). split; [eauto using suffix_in|].
    split; [|destruct Hwhy; [left; lia|by right]].
    constructor; cbn -[Z.pow]; try done. by apply discard_new_wf.
Qed.

Lemma queue_step_ok n sz op s h q :
  0 ≤ n < 2 ^ 63 → queue_ok n sz (s, h) q →
  (∀ msg, op = QSend msg → Z.of_nat (length msg) < 2 ^ 63) →
  ∃ memory, let '(b, (s', h')) := queue_step op (s, h) in
    let '(b', q') := bounded_queue_step n sz memory op q in
    b = b' ∧ queue_ok n sz (s', h') q' ∧ (None ∉ h → None ∉ h') ∧
    (None ∉ h → none_lost s → memory = true ∧ none_lost s').
Proof.
  intros Hn Hok Hop. destruct op as [msg|]; cbn [queue_step bounded_queue_step fst snd].
  2:{ exists true. split_and!; [done|by apply queue_ok_sent|done|].
      intros _ Hl. split; [done|by apply none_lost_sent]. }
  specialize (Hop msg eq_refl). destruct Hok as [Hw Hm Hs Ha Hq]. cbn [fst] in *.
  assert (Hlen : length q = length (sb_list s)) by (subst q; apply length_fmap).
  pose proof (get_new_spec 0 s h Hw ltac:(lia) ltac:(lia)) as Hg.
  pose proof (get_new_counts n s h Hm Ha ltac:(lia)) as Hcnt.
  destruct (send_buffer_list_get_new s h) as [[e|] [s' h']].
  - destruct Hg as (Hw' & He & Hc & Hme & _ & Hl' & _ & Hsuf).
    destruct Hcnt as (Hm' & Ha' & Hs' & Hh & Hlost).
    pose proof (queue_fill n sz s' e h' q msg Hw' He Hc ltac:(by rewrite Hme, Hs) Hm'
      ltac:(by rewrite Hs', Hs) Ha' ltac:(unfold queued; by rewrite Hl') Hop) as Hf.
    assert (Hroom : Z.of_nat (length q) < n).
    { destruct Hw' as [_ Hcount _ _]. rewrite Hlen, <- Hl'. lia. }
    destruct (dynar_cat _ _) as [[[]|c] [d h'']]; cbn zeta in Hf; destruct Hf as (Hh' & Hok & Hfit).
    + exists true. replace (Z.of_nat (length q) <? n) with true by (symmetry; by apply Z.ltb_lt).
      replace (Z.of_nat (length msg) <=? sz) with true by (symmetry; by apply Z.leb_le).
      cbn [andb]. split_and!; [done|done|by eauto|].
      intros Hno Hnl. split; [done|]. specialize (Hlost Hno Hnl).
      unfold none_lost. cbn. rewrite length_app. cbn [length]. lia.
    + exists (bool_decide (sz < Z.of_nat (length msg))).
      replace (_ && _ && _) with false.
      2:{ case_bool_decide; cbn [andb]; [|done]. symmetry. apply andb_false_intro2, Z.leb_gt. done. }
      split_and!; [done|done|by eauto|].
      intros Hno Hnl. split; [apply bool_decide_eq_true; destruct Hfit; [done|by destruct (Hh Hno)]|].
      specialize (Hlost Hno Hnl). unfold none_lost. cbn [send_buffer_list_discard_new
        allocated_list_entries sb_list sb_free_list length]. lia.
  - destruct Hg as (Hl' & Hw' & Hwhy & Hsuf). destruct Hcnt as (Hm' & Ha' & Hs' & Hh & Hlost).
    exists (bool_decide (n ≤ Z.of_nat (length q))).
    replace (_ && _ && _) with false.
    2:{ case_bool_decide; cbn [andb]; [|done]. by replace (_ <? _) with false by (symmetry; apply Z.ltb_ge; lia). }
    split_and!; [done| |done|].
    + constructor; cbn; [done|done|by rewrite Hs'|done|]. unfold queued in *. by rewrite Hl'.
    + intros Hno Hnl. destruct (Hlost Hno Hnl) as [Hnl' Hfull].
      split; [apply bool_decide_eq_true; lia|done].
Qed.

Lemma queue_run_ok n sz ops : 0 ≤ n < 2 ^ 63 → ∀ s h q,
  queue_ok n sz (s, h) q →
  Forall (λ op, ∀ msg, op = QSend msg → Z.of_nat (length msg) < 2 ^ 63) ops →
  ∃ memory, length memory = length ops ∧
    let '(bs, (s', h')) := queue_run ops (s, h) in
    let '(bs', q') := bounded_queue_run n sz (zip memory ops) q in
    bs = bs' ∧ queue_ok n sz (s', h') q' ∧
    (None ∉ h → none_lost s → Forall (λ m, m = true) memory).
Proof.
  intros Hn. induction ops as [|op ops IH]; intros s h q Hok Hops.
  { exists []. by cbn. }
  apply Forall_cons_1 in Hops as [Hop Hops].
  destruct (queue_step_ok n sz op s h q Hn Hok Hop) as [m Hstep]. cbn [queue_run].
  destruct (queue_step op (s, h)) as [b [s1 h1]].
  destruct (bounded_queue_step n sz m op q) as [b' q1] eqn:Eb.
  destruct Hstep as (-> & Hok1 & Hh & Hlost).
  destruct (IH s1 h1 q1 Hok1 Hops) as (ms & Hlen & Hrun). exists (m :: ms).
  change (zip (m :: ms) (op :: ops)) with ((m, op) :: zip ms ops).
  cbn [bounded_queue_run length]. rewrite Eb.
  destruct (queue_run ops (s1, h1)) as [bs [s2 h2]].
  destruct (bounded_queue_run n sz (zip ms ops) q1) as [bs' q2].
  destruct Hrun as (-> & Hok2 & Hall). split_and!; [by rewrite Hlen|done|done|].
  intros Hno Hnl. destruct (Hlost Hno Hnl) as [-> ?]. constructor; eauto.
Qed.

(** C39: the send buffer list is a queue of bounded size. Started with at most [n] entries
    of at most [sz] bytes and driven by any sequence of messages to send and of messages
    sent, it answers and holds what the specification says: a message is accepted exactly
    when there is memory for it, fewer than [n] messages wait and it has at most [sz] bytes;
    accepted messages wait in the order they were accepted, whole, and are taken from the
    front. Queued and free entries together never exceed [n], and while no allocation fails
    the memory of the specification never runs out. *)
Theorem send_buffer_list_fifo n sz ops h :
  0 ≤ n < 2 ^ 63 → 0 ≤ sz < 2 ^ 32 →
  Forall (λ op, ∀ msg, op = QSend msg → Z.of_nat (length msg) < 2 ^ 63) ops →
  ∃ memory, length memory = length ops ∧ (None ∉ h → Forall (λ m, m = true) memory) ∧
    let '(answers, (s, _)) := queue_run ops (send_buffer_list_init n sz, h) in
    let '(answers', q) := bounded_queue_run n sz (zip memory ops) [] in
    answers = answers' ∧ queued s = q ∧
    (λ e, contents (sb_buffer e)) <$> send_buffer_list_get_active s = head q ∧
    send_buffer_list_empty s = bool_decide (q = []) ∧
    Z.of_nat (length (sb_list s) + length (sb_free_list s)) ≤ n.
Proof.
  intros Hn Hsz Hops.
  assert (Hok : queue_ok n sz (send_buffer_list_init n sz, h) []).
  { constructor; cbn; try done; first [by apply sb_wf_init|lia]. }
  destruct (queue_run_ok n sz ops Hn _ h [] Hok Hops) as (memory & Hlen & Hrun).
  exists memory. destruct (queue_run ops _) as [bs [s h']].
  destruct (bounded_queue_run n sz _ []) as [bs' q].
  destruct Hrun as (-> & [[_ Hc _ _] _ _ Ha <-] & Hall). cbn [fst] in *.
  split_and!; [done|intros; by apply Hall|done|done|..|lia];
    unfold queued, send_buffer_list_get_active, send_buffer_list_empty; by destruct (sb_list s).
Qed.

Lemma send_buffer_list_fifo_witness :
  let ops := [QSend [x61]; QSend [x62; x63]; QSend [x64]; QSend [x65; x65; x65; x65]; QSent;
              QSend [x64]] in
  ∃ memory, length memory = 6%nat ∧ (None ∉ ([] : heap) → Forall (λ m, m = true) memory) ∧
    let '(answers, (s, _)) := queue_run ops (send_buffer_list_init 2 3, []) in
    answers = [true; true; false; false; true; true] ∧ queued s = [[x62; x63]; [x64]].
Proof.
  cbv zeta.
  destruct (send_buffer_list_fifo 2 3 [QSend [x61]; QSend [x62; x63]; QSend [x64];
    QSend [x65; x65; x65; x65]; QSent; QSend [x64]] []) as (memory & Hlen & Hall & _);
    [lia|lia|repeat constructor; intros msg E; simplify_eq; cbn; lia|].
  exists memory. split; [exact Hlen|]. split; [exact Hall|]. vm_compute. split; reflexivity.
Defined.
