(* ===== verification/TimerList.v ===== *)
(** Timers (timer-list.c): a binary heap of pointers ordered by the time of expiry, in
    32-bit times that wrap around.

    A pointer to an entry is its index in [tl_store]; entries are never given back to the
    allocator while the list lives, so the store only grows.  [F] is the type of the
    callbacks with their data.  The clock, the conversions of NSPR and the callbacks are
    parameters; [tl_clock] is the time without wrap-around, which [PR_IntervalNow] reads
    modulo [2^32]. *)
From S2P Require Import Prelude.
From stdpp Require Import list.
Local Open Scope Z_scope.

Definition TIMER_LIST_MAX_INTERVAL : Z := 18000000.

(** [~(size_t)0] *)
Definition HEAP_POS_NONE : Z := 2 ^ 64 - 1.

Section timers.
Context {F : Type}.
Context (PR_MillisecondsToInterval PR_IntervalToMilliseconds : Z → Z).
Context (PR_INTERVAL_NO_TIMEOUT : Z).

Record timer_list_entry := mk_timer {
  epoch : Z;
  interval : Z;
  expire_time : Z;
  func : option F;
  is_active : bool;
  heap_pos : Z
}.

Record timer_list := mk_timer_list {
  allocated : nat;
  size : nat;
  entries : list nat;
  free_list : list nat;
  tl_store : list timer_list_entry;
  tl_clock : Z
}.

Definition set_epoch (v : Z) (e : timer_list_entry) : timer_list_entry :=
  mk_timer v (interval e) (expire_time e) (func e) (is_active e) (heap_pos e).
Definition set_interval (v : Z) (e : timer_list_entry) : timer_list_entry :=
  mk_timer (epoch e) v (expire_time e) (func e) (is_active e) (heap_pos e).
Definition set_expire_time (v : Z) (e : timer_list_entry) : timer_list_entry :=
  mk_timer (epoch e) (interval e) v (func e) (is_active e) (heap_pos e).
Definition set_is_active (v : bool) (e : timer_list_entry) : timer_list_entry :=
  mk_timer (epoch e) (interval e) (expire_time e) (func e) v (heap_pos e).
Definition set_heap_pos (v : Z) (e : timer_list_entry) : timer_list_entry :=
  mk_timer (epoch e) (interval e) (expire_time e) (func e) (is_active e) v.

Definition set_size (v : nat) (tl : timer_list) : timer_list :=
  mk_timer_list (allocated tl) v (entries tl) (free_list tl) (tl_store tl) (tl_clock tl).
Definition set_entries (a : nat) (v : list nat) (tl : timer_list) : timer_list :=
  mk_timer_list a (size tl) v (free_list tl) (tl_store tl) (tl_clock tl).
Definition set_free_list (v : list nat) (tl : timer_list) : timer_list :=
  mk_timer_list (allocated tl) (size tl) (entries tl) v (tl_store tl) (tl_clock tl).
Definition set_store (v : list timer_list_entry) (tl : timer_list) : timer_list :=
  mk_timer_list (allocated tl) (size tl) (entries tl) (free_list tl) v (tl_clock tl).
Definition set_clock (v : Z) (tl : timer_list) : timer_list :=
  mk_timer_list (allocated tl) (size tl) (entries tl) (free_list tl) (tl_store tl) v.

(** The clock goes on during [timer_list_init] as well. *)
Definition timer_list_init (clock : Z) : timer_list := mk_timer_list 0 0 [] [] [] clock.

Definition PR_IntervalNow (tl : timer_list) : Z := u32 (tl_clock tl).

(** [*entry] *)
Definition deref (p : nat) : M timer_list timer_list_entry := λ tl,
  match tl_store tl !! p with
  | Some e => (Ok e, tl)
  | None => (Err NULL_DEREF, tl)
  end.
Definition assign (p : nat) (f : timer_list_entry → timer_list_entry) : M timer_list unit :=
  e ← deref p; modify (λ tl, set_store (<[p := f e]> (tl_store tl)) tl).

Definition timer_list_entry_time_to_expire (entry : timer_list_entry) (current_time : Z) : Z :=
  let diff := u32 (expire_time entry - current_time) in
  let half_interval := (2 ^ 32 - 1) / 2 in
  if half_interval <? diff then 0 else diff.

Definition timer_list_entry_cmp (entry1 entry2 : timer_list_entry) (current_time : Z) : Z :=
  let diff1 := timer_list_entry_time_to_expire entry1 current_time in
  let diff2 := timer_list_entry_time_to_expire entry2 current_time in
  let res := 0 in
  let res := if diff1 <? diff2 then -1 else res in
  if diff2 <? diff1 then 1 else res.

Definition timer_list_heap_index_left (index : nat) : nat := (2 * index + 1)%nat.
Definition timer_list_heap_index_right (index : nat) : nat := (2 * index + 2)%nat.
(** The result for index 0 is computed but never used. *)
Definition timer_list_heap_index_parent (index : nat) : nat := ((index - 1) / 2)%nat.

Definition timer_list_heap_entry_set (item_pos entry : nat) : M timer_list unit :=
  tl ← get;
  if (item_pos <? size tl)%nat then
    modify (λ tl, set_entries (allocated tl) (<[item_pos := entry]> (entries tl)) tl);;
    assign entry (set_heap_pos (Z.of_nat item_pos))
  else fail ASSERT.

Definition timer_list_heap_entry_get (item_pos : nat) : M timer_list nat :=
  tl ← get;
  if (item_pos <? size tl)%nat then
    match entries tl !! item_pos with
    | Some p => mret p
    | None => fail OUT_OF_BOUNDS
    end
  else fail ASSERT.

(** One comparison of two pointers, at the epoch of the second. *)
Definition cmp_entries (p1 p2 : nat) : M timer_list Z :=
  e1 ← deref p1; e2 ← deref p2; mret (timer_list_entry_cmp e1 e2 (epoch e2)).

Fixpoint timer_list_heap_sift_up_loop (fuel : nat) (item_pos item_entry : nat) :
    M timer_list unit :=
  match fuel with
  | O => fail OUT_OF_FUEL
  | S fuel =>
      if (0 <? item_pos)%nat then
        let parent_pos := timer_list_heap_index_parent item_pos in
        parent_entry ← timer_list_heap_entry_get parent_pos;
        c ← cmp_entries parent_entry item_entry;
        if 0 <? c then
          timer_list_heap_entry_set parent_pos item_entry;;
          timer_list_heap_entry_set item_pos parent_entry;;
          timer_list_heap_sift_up_loop fuel parent_pos item_entry
        else mret tt
      else mret tt
  end.

Definition timer_list_heap_sift_up (item_pos : nat) : M timer_list unit :=
  item_entry ← timer_list_heap_entry_get item_pos;
  timer_list_heap_sift_up_loop (S item_pos) item_pos item_entry.

(** One of the two tests for a smaller child. *)
Definition smaller_child (child_pos : nat) (smallest : nat * nat) : M timer_list (nat * nat) :=
  tl ← get;
  if (child_pos <? size tl)%nat then
    child_entry ← timer_list_heap_entry_get child_pos;
    c ← cmp_entries child_entry (snd smallest);
    mret (if c <? 0 then (child_pos, child_entry) else smallest)
  else mret smallest.

Fixpoint timer_list_heap_sift_down_loop (fuel : nat) (item_pos : nat) : M timer_list unit :=
  match fuel with
  | O => fail OUT_OF_FUEL
  | S fuel =>
      item_entry ← timer_list_heap_entry_get item_pos;
      smallest ← smaller_child (timer_list_heap_index_left item_pos) (item_pos, item_entry);
      '(smallest_pos, smallest_entry) ←
        smaller_child (timer_list_heap_index_right item_pos) smallest;
      if (smallest_pos =? item_pos)%nat then mret tt
      else
        tmp_entry ← timer_list_heap_entry_get item_pos;
        timer_list_heap_entry_set item_pos smallest_entry;;
        timer_list_heap_entry_set smallest_pos tmp_entry;;
        timer_list_heap_sift_down_loop fuel smallest_pos
  end.

(** The position doubles in every round. *)
Definition timer_list_heap_sift_down (item_pos : nat) : M timer_list unit :=
  tl ← get; timer_list_heap_sift_down_loop (S (size tl - item_pos)) item_pos.

Definition timer_list_heap_delete (entry : nat) : M timer_list unit :=
  e ← deref entry;
  let entry_pos := Z.to_nat (heap_pos e) in
  assign entry (set_heap_pos HEAP_POS_NONE);;
  tl ← get;
  replacement_entry ← timer_list_heap_entry_get (size tl - 1);
  (if heap_pos e <? Z.of_nat (size tl) then
     timer_list_heap_entry_set entry_pos replacement_entry
   else fail ASSERT);;
  modify (λ tl, set_size (size tl - 1) tl);;
  c ← cmp_entries replacement_entry entry;
  if c <? 0 then timer_list_heap_sift_up entry_pos
  else if 0 <? c then timer_list_heap_sift_down entry_pos
  else mret tt.

(** The test of one child in [timer_list_debug_is_valid_heap]: is the heap wrong there? *)
Definition child_is_smaller (child_pos cur_entry : nat) : M timer_list bool :=
  tl ← get;
  if (child_pos <? size tl)%nat then
    child_entry ← timer_list_heap_entry_get child_pos;
    c ← cmp_entries child_entry cur_entry;
    mret (c <? 0)
  else mret false.

Fixpoint valid_heap_loop (l : list nat) : M timer_list Z :=
  match l with
  | [] => mret 1
  | i :: l' =>
      cur_entry ← timer_list_heap_entry_get i;
      b ← child_is_smaller (timer_list_heap_index_left i) cur_entry;
      if (b : bool) then mret 0
      else
        b' ← child_is_smaller (timer_list_heap_index_right i) cur_entry;
        if (b' : bool) then mret 0 else valid_heap_loop l'
  end.

Definition timer_list_debug_is_valid_heap : M timer_list Z :=
  tl ← get; valid_heap_loop (seq 0 (size tl)).

(** ** Operations that allocate *)

Abbreviation tstate := (timer_list * heap)%type.

Definition on_list {A} (m : M timer_list A) : M tstate A := λ '(tl, h),
  let '(r, tl') := m tl in (r, (tl', h)).

(** [realloc] of the array of pointers; the fresh cells hold anything. *)
Definition realloc_entries (junk : nat → byte) (n : nat) (l : list nat) : list nat :=
  take n l ++ ((λ i, Z.to_nat (b2z (junk i))) <$> seq (length l) (n - length l)).

Definition timer_list_grow : M tstate Z := λ '(tl, h),
  if (allocated tl <? size tl + 1)%nat then
    let new_size := ((allocated tl + 1) * 2)%nat in
    match malloc h with
    | (None, h') => (Ok (-1), (tl, h'))
    | (Some junk, h') =>
        (Ok 0, (set_entries new_size (realloc_entries junk new_size (entries tl)) tl, h'))
    end
  else (Ok 0, (tl, h)).

Definition timer_list_insert_into_list (new_entry : nat) : M tstate Z :=
  on_list (assign new_entry (λ e,
    set_expire_time (u32 (epoch e + PR_MillisecondsToInterval (interval e))) e));;
  r ← timer_list_grow;
  if r =? -1 then mret (-1)
  else
    on_list (
      modify (λ tl, set_size (size tl + 1) tl);;
      tl ← get;
      timer_list_heap_entry_set (size tl - 1) new_entry;;
      timer_list_heap_sift_up (size tl - 1));;
    mret 0.

(** An entry of the free list, or a new one; [None] when memory runs out. *)
Definition timer_list_take_entry (new : timer_list_entry) : M tstate (option nat) := λ '(tl, h),
  match free_list tl with
  | p :: l => (Ok (Some p), (set_store (<[p := new]> (tl_store tl)) (set_free_list l tl), h))
  | [] =>
      match malloc h with
      | (None, h') => (Ok None, (tl, h'))
      | (Some _, h') =>
          (Ok (Some (length (tl_store tl))), (set_store (tl_store tl ++ [new]) tl, h'))
      end
  end.

Definition timer_list_add (interval : Z) (func : option F) : M tstate (option nat) :=
  match func with
  | None => mret None
  | Some f =>
      if (interval <? 1) || (TIMER_LIST_MAX_INTERVAL <? interval) then mret None
      else
        '(tl, _) ← get;
        p ← timer_list_take_entry
              (mk_timer (PR_IntervalNow tl) interval 0 (Some f) true HEAP_POS_NONE);
        match p with
        | None => mret None
        | Some new_entry =>
            r ← timer_list_insert_into_list new_entry;
            if negb (r =? 0) then
              on_list (modify (λ tl, set_free_list (new_entry :: free_list tl) tl));;
              mret None
            else mret (Some new_entry)
        end
  end.

(** Take an entry out of the heap and put it back with a new epoch. *)
Definition timer_list_requeue (entry : nat) (f : timer_list_entry → timer_list_entry) : M tstate unit :=
  on_list (timer_list_heap_delete entry;; assign entry f);;
  timer_list_insert_into_list entry;;
  mret tt.

Definition timer_list_entry_reschedule (entry : nat) : M tstate unit :=
  '(tl, _) ← get;
  e ← on_list (deref entry);
  if (is_active e : bool) then timer_list_requeue entry (set_epoch (PR_IntervalNow tl)) else mret tt.

Definition timer_list_entry_delete (entry : nat) : M timer_list unit :=
  e ← deref entry;
  if (is_active e : bool) then
    timer_list_heap_delete entry;;
    modify (λ tl, set_free_list (entry :: free_list tl) tl);;
    assign entry (set_is_active false)
  else mret tt.

Definition timer_list_time_to_expire : M timer_list Z :=
  tl ← get;
  if (size tl =? 0)%nat then mret PR_INTERVAL_NO_TIMEOUT
  else
    entry ← timer_list_heap_entry_get 0;
    e ← deref entry;
    mret (timer_list_entry_time_to_expire e (PR_IntervalNow tl)).

Definition timer_list_time_to_expire_ms : M timer_list Z :=
  tl ← get;
  if (size tl =? 0)%nat then mret (2 ^ 32 - 1)
  else
    entry ← timer_list_heap_entry_get 0;
    e ← deref entry;
    mret (PR_IntervalToMilliseconds (timer_list_entry_time_to_expire e (PR_IntervalNow tl))).

(** Everything is given back to the allocator. *)
Definition timer_list_free : M timer_list unit := modify (λ tl, timer_list_init (tl_clock tl)).

Definition timer_list_entry_get_interval (entry : timer_list_entry) : Z := interval entry.

Definition timer_list_entry_set_interval (entry : nat) (new_interval : Z) : M tstate Z :=
  if (new_interval <? 1) || (TIMER_LIST_MAX_INTERVAL <? new_interval) then mret (-1)
  else
    '(tl, _) ← get;
    e ← on_list (deref entry);
    if negb (is_active e) then mret (-1)
    else
      timer_list_requeue entry (λ e, set_epoch (PR_IntervalNow tl) (set_interval new_interval e));;
      mret 0.

(** ** Expiration

    A callback may use the timers as well as the state [W] of the rest of the program. *)
Section expire.
Context {W : Type} (call : F → M (tstate * W) Z).

Definition on_timers {A} (m : M tstate A) : M (tstate * W) A := λ '(s, w),
  let '(r, s') := m s in (r, (s', w)).

Fixpoint timer_list_expire_loop (fuel : nat) (now : Z) : M (tstate * W) unit :=
  match fuel with
  | O => fail OUT_OF_FUEL
  | S fuel =>
      '(tl, _, _) ← get;
      if (size tl =? 0)%nat then mret tt
      else
        entry ← on_timers (on_list (timer_list_heap_entry_get 0));
        e ← on_timers (on_list (deref entry));
        if timer_list_entry_time_to_expire e now =? 0 then
          match func e with
          | None => fail NULL_DEREF
          | Some f =>
              res ← call f;
              (if res =? 0 then on_timers (on_list (timer_list_entry_delete entry))
               else
                 e' ← on_timers (on_list (deref entry));
                 if (is_active e' : bool) then
                   on_timers (timer_list_requeue entry (set_epoch now))
                 else mret tt);;
              timer_list_expire_loop fuel now
          end
        else mret tt
  end.

Definition timer_list_expire (fuel : nat) : M (tstate * W) unit :=
  '(tl, _, _) ← get; timer_list_expire_loop fuel (PR_IntervalNow tl).
End expire.
End timers.
