(* ===== verification/TimerListFacts.v ===== *)
(** The timer list keeps its heap ordered by the true time of expiry, loses and invents no
    timer, and expires exactly the timers that are due, in their order.

    [E] gives every timer of the heap its expiry on the clock that does not wrap around.
    The 32-bit comparisons of the code agree with it as long as no timer is more than [L]
    ticks late ([timers_ok]). *)
From Stdlib Require Import Sorted.
From S2P Require Import Prelude.
From stdpp Require Import list gmap.
From S2P Require Import TimerList.
Local Open Scope Z_scope.

(** ** Heaps in lists *)

Section heap_order.
Context (E : nat → Z).

Abbreviation parent := timer_list_heap_index_parent.

Definition heap_edge (l : list nat) (i : nat) : Prop :=
  ∀ p q, l !! parent i = Some p → l !! i = Some q → E p ≤ E q.

Definition heap_ordered (l : list nat) : Prop := ∀ i, (0 < i)%nat → heap_edge l i.

(** Ordered but for the edge from [k] to its parent, or those to its children. *)
Definition heap_up (l : list nat) (k : nat) : Prop :=
  (∀ i, (0 < i)%nat → i ≠ k → heap_edge l i) ∧
  (∀ i p q, (0 < i)%nat → parent i = k → (0 < k)%nat →
     l !! parent k = Some p → l !! i = Some q → E p ≤ E q).
Definition heap_down (l : list nat) (k : nat) : Prop :=
  (∀ i, (0 < i)%nat → parent i ≠ k → heap_edge l i) ∧
  (∀ i p q, (0 < i)%nat → parent i = k → (0 < k)%nat →
     l !! parent k = Some p → l !! i = Some q → E p ≤ E q).

Lemma parent_iff i k : (0 < i)%nat →
  parent i = k ↔ i = timer_list_heap_index_left k ∨ i = timer_list_heap_index_right k.
Proof.
  intros. unfold timer_list_heap_index_parent, timer_list_heap_index_left,
    timer_list_heap_index_right.
  pose proof (Nat.div_mod_eq (i - 1) 2). pose proof (Nat.mod_upper_bound (i - 1) 2).
  split; [|intros [-> | ->]]; [lia| |].
  - replace (2 * k + 1 - 1)%nat with (k * 2)%nat by lia. by apply Nat.div_mul.
  - replace (2 * k + 2 - 1)%nat with (1 + k * 2)%nat by lia. by rewrite Nat.div_add.
Qed.

Lemma parent_lt i : (0 < i)%nat → (parent i < i)%nat.
Proof.
  intros. unfold timer_list_heap_index_parent. pose proof (Nat.div_mod_eq (i - 1) 2). lia.
Qed.

Definition swap (l : list nat) (i j : nat) (p q : nat) : list nat := <[j := p]> (<[i := q]> l).

Lemma lookup_swap l i j p q k : l !! i = Some p → l !! j = Some q →
  swap l i j p q !! k = if decide (k = j) then Some p else if decide (k = i) then Some q else l !! k.
Proof.
  intros Hi Hj. unfold swap. apply lookup_lt_Some in Hi as Li. apply lookup_lt_Some in Hj as Lj.
  destruct (decide (k = j)) as [->|].
  - rewrite list_lookup_insert_eq; [done|by rewrite length_insert].
  - rewrite list_lookup_insert_ne by done. destruct (decide (k = i)) as [->|].
    + by rewrite list_lookup_insert_eq.
    + by rewrite list_lookup_insert_ne.
Qed.

Lemma swap_perm l i j p q : l !! i = Some p → l !! j = Some q → swap l i j p q ≡ₚ l.
Proof. apply Permutation_insert_swap. Qed.

Lemma heap_up_stop l k : heap_up l k → (k = 0%nat ∨ heap_edge l k) → heap_ordered l.
Proof.
  intros [H _] Hk i Hi. destruct (decide (i = k)) as [->|]; [|by apply H].
  destruct Hk; [lia|done].
Qed.

Lemma heap_down_stop l k :
  heap_down l k → (∀ i, (0 < i)%nat → parent i = k → heap_edge l i) → heap_ordered l.
Proof. intros [H _] Hk i Hi. destruct (decide (parent i = k)); auto. Qed.

Lemma heap_up_step l k p q :
  heap_up l k → (0 < k)%nat → l !! parent k = Some p → l !! k = Some q → E q < E p →
  heap_up (swap l (parent k) k p q) (parent k).
Proof.
  intros [He Hg] Hk Hp Hq Hlt. pose proof (parent_lt k Hk) as Hpk. split.
  - intros i Hi Hne x y. rewrite !(lookup_swap _ _ _ _ _ _ Hp Hq).
    repeat case_decide; intros; simplify_eq; try lia.
    + apply (Hg i); congruence || lia.
    + enough (E p ≤ E y) by lia. apply (He i); congruence || lia.
    + by apply (He i).
  - intros i x y Hi Hpi Hpos. rewrite !(lookup_swap _ _ _ _ _ _ Hp Hq).
    pose proof (parent_lt _ Hi). pose proof (parent_lt _ Hpos).
    repeat case_decide; intros; simplify_eq; try lia.
    + by apply (He (parent k)); [| lia| |].
    + trans (E p); [by apply (He (parent k)); [|lia| |]|].
      by apply (He i); [| |rewrite Hpi|].
Qed.

Lemma heap_down_step l k c p q :
  heap_down l k → (0 < c)%nat → parent c = k → l !! k = Some p → l !! c = Some q → E q < E p →
  (∀ i r, (0 < i)%nat → parent i = k → l !! i = Some r → E q ≤ E r) →
  heap_down (swap l k c p q) c.
Proof.
  intros [He Hg] Hc Hpc Hp Hq Hlt Hmin. pose proof (parent_lt c Hc) as Hpk. split.
  - intros i Hi Hne x y. pose proof (parent_lt _ Hi).
    rewrite !(lookup_swap _ _ _ _ _ _ Hp Hq).
    repeat case_decide; intros; simplify_eq; try lia.
    + by apply (Hmin i).
    + by apply (Hg c).
    + by apply (He i).
  - intros i x y Hi Hpi Hpos. pose proof (parent_lt _ Hi).
    rewrite !(lookup_swap _ _ _ _ _ _ Hp Hq).
    repeat case_decide; intros; simplify_eq; try lia.
    apply (He i); congruence || lia.
Qed.

Lemma heap_root_min l p q : heap_ordered l → l !! 0%nat = Some p → q ∈ l → E p ≤ E q.
Proof.
  intros Hl Hp [i Hq]%list_elem_of_lookup. revert q Hq.
  induction i as [i IH] using lt_wf_ind. intros q Hq. destruct i as [|i]; [by simplify_eq|].
  pose proof (parent_lt (S i) ltac:(lia)) as Hlt.
  destruct (lookup_lt_is_Some_2 l (parent (S i))) as [r Hr].
  { apply lookup_lt_Some in Hq. lia. }
  trans (E r); [by apply (IH _ Hlt)|]. by apply (Hl (S i) ltac:(lia)).
Qed.

Lemma heap_ordered_take l n : heap_ordered l → heap_ordered (take n l).
Proof. intros H i Hi p q [Hp _]%lookup_take_Some [Hq _]%lookup_take_Some. by apply (H i). Qed.

Lemma heap_up_take l n k : heap_up l k → heap_up (take n l) k.
Proof.
  intros [He Hg]. split.
  - intros i Hi Hne p q [Hp _]%lookup_take_Some [Hq _]%lookup_take_Some. by apply (He i).
  - intros i p q Hi Hpi Hk [Hp _]%lookup_take_Some [Hq _]%lookup_take_Some. by apply (Hg i).
Qed.

Lemma heap_down_take l n k : heap_down l k → heap_down (take n l) k.
Proof.
  intros [He Hg]. split.
  - intros i Hi Hne p q [Hp _]%lookup_take_Some [Hq _]%lookup_take_Some. by apply (He i).
  - intros i p q Hi Hpi Hk [Hp _]%lookup_take_Some [Hq _]%lookup_take_Some. by apply (Hg i).
Qed.

Lemma heap_up_app l x : heap_ordered l → heap_up (l ++ [x]) (length l).
Proof.
  intros H. split.
  - intros i Hi Hne p q Hp Hq. apply (H i Hi p q).
    + pose proof (parent_lt i Hi). apply lookup_lt_Some in Hq. rewrite length_app in Hq.
      cbn in Hq. by rewrite lookup_app_l in Hp by lia.
    + apply lookup_lt_Some in Hq as Hl. rewrite length_app in Hl. cbn in Hl.
      by rewrite lookup_app_l in Hq by lia.
  - intros i p q Hi Hpi Hpos _ Hq. pose proof (parent_lt i Hi).
    apply lookup_lt_Some in Hq. rewrite length_app in Hq. cbn in Hq. lia.
Qed.

(** Replacing one entry breaks the order upwards or downwards, or not at all. *)
Lemma heap_replace l k p x : heap_ordered l → l !! k = Some p →
  (E x ≤ E p → heap_up (<[k := x]> l) k) ∧ (E p ≤ E x → heap_down (<[k := x]> l) k).
Proof.
  intros H Hk. apply lookup_lt_Some in Hk as Hlen.
  assert (Hl : ∀ i y, <[k:=x]> l !! i = Some y → i = k ∧ y = x ∨ i ≠ k ∧ l !! i = Some y).
  { intros i y Hy. destruct (decide (i = k)) as [->|].
    - rewrite list_lookup_insert_eq in Hy by done. naive_solver.
    - rewrite list_lookup_insert_ne in Hy by done. naive_solver. }
  assert (Hgp : ∀ i a b, (0 < i)%nat → parent i = k → (0 < k)%nat →
     <[k:=x]> l !! parent k = Some a → <[k:=x]> l !! i = Some b → E a ≤ E b).
  { intros i a b Hi Hpi Hpos [[??]|[_ Ha]]%Hl [[??]|[_ Hb]]%Hl; subst.
    - done.
    - pose proof (parent_lt (parent i) Hpos). lia.
    - pose proof (parent_lt i Hi). lia.
    - trans (E p); [by apply (H (parent i))|by apply (H i)]. }
  split; intros Hle; (split; [|exact Hgp]).
  - intros i Hi Hne a b [[Hpi ->]|[_ Ha]]%Hl [[??]|[_ Hb]]%Hl; try done.
    + trans (E p); [done|]. apply (H i Hi); [by rewrite Hpi|done].
    + by apply (H i).
  - intros i Hi Hne a b [[??]|[_ Ha]]%Hl [[-> ->]|[_ Hb]]%Hl; try done.
    + trans (E p); [|done]. by apply (H k).
    + by apply (H i).
Qed.


Lemma heap_replace_eq l k p x :
  heap_ordered l → l !! k = Some p → E x = E p → heap_ordered (<[k := x]> l).
Proof.
  intros H Hk Hx. destruct (heap_replace l k p x H Hk) as [Hup Hdown].
  apply (heap_up_stop _ k (Hup ltac:(lia))).
  destruct (decide (k = 0%nat)); [by left|right]. apply (proj1 (Hdown ltac:(lia))); [lia|].
  pose proof (parent_lt k ltac:(lia)). lia.
Qed.
End heap_order.

(** ** 32-bit times *)

Lemma u32_sub_u32 a b : u32 (u32 a - u32 b) = u32 (a - b).
Proof. unfold u32. by rewrite <-Zminus_mod. Qed.

Section timer_list.
Context {F : Type}.
Context (PR_MillisecondsToInterval : Z → Z) (E : nat → Z) (T L : Z).
Hypothesis HTL : 2 * T + L < 2 ^ 31.
Hypothesis HT : 0 < T.
Hypothesis HL : 0 ≤ L.

Abbreviation entry := (@timer_list_entry F).
Abbreviation tlist := (@timer_list F).
Abbreviation ticks := PR_MillisecondsToInterval.

Lemma time_to_expire_max (e : entry) t now :
  expire_time e = u32 t → - 2 ^ 31 < t - now < 2 ^ 31 →
  timer_list_entry_time_to_expire e (u32 now) = Z.max 0 (t - now).
Proof.
  intros He Hr. unfold timer_list_entry_time_to_expire. rewrite He, u32_sub_u32. unfold u32.
  change ((2 ^ 32 - 1) / 2) with (2 ^ 31 - 1). destruct (decide (0 ≤ t - now)).
  - rewrite Z.mod_small by lia. case_if; lia.
  - rewrite <-(Z.mod_add _ 1), Z.mod_small by lia. case_if; lia.
Qed.

(** [t] is the true expiry of a timer when the clock shows [clock]. *)
Definition timed (clock t : Z) (e : entry) : Prop :=
  expire_time e = u32 t ∧ epoch e = u32 (t - ticks (interval e)) ∧
  0 < ticks (interval e) ≤ T ∧ clock - L ≤ t ∧ t - ticks (interval e) ≤ clock.

Lemma cmp_sgn (e1 e2 : entry) clock t1 t2 :
  timed clock t1 e1 → timed clock t2 e2 →
  timer_list_entry_cmp e1 e2 (epoch e2) = Z.sgn (t1 - t2).
Proof.
  intros (Hx1 & Hp1 & Hi1 & Hl1 & Hu1) (Hx2 & Hp2 & Hi2 & Hl2 & Hu2).
  unfold timer_list_entry_cmp. rewrite Hp2.
  rewrite (time_to_expire_max e1 t1), (time_to_expire_max e2 t2) by (done || lia).
  repeat case_if; lia.
Qed.

(** ** The invariant *)

Definition hp (tl : tlist) : list nat := take (size tl) (entries tl).

Record tl_wf (tl : tlist) : Prop := {
  wf_len : length (entries tl) = allocated tl;
  wf_size : (size tl ≤ allocated tl)%nat;
  wf_pos : ∀ i p, hp tl !! i = Some p →
    ∃ e, tl_store tl !! p = Some e ∧ heap_pos e = Z.of_nat i ∧ is_active e = true;
  wf_free : NoDup (free_list tl);
  wf_free_valid : ∀ p, p ∈ free_list tl → (p < length (tl_store tl))%nat ∧ p ∉ hp tl
}.

Definition tl_timed (tl : tlist) : Prop :=
  ∀ p, p ∈ hp tl → ∃ e, tl_store tl !! p = Some e ∧ timed (tl_clock tl) (E p) e.

(** Everything but the positions in the heap. *)
Definition core (e : entry) : entry := set_heap_pos 0 e.

Record tl_frame (tl tl' : tlist) : Prop := {
  fr_allocated : allocated tl' = allocated tl;
  fr_size : size tl' = size tl;
  fr_free : free_list tl' = free_list tl;
  fr_clock : tl_clock tl' = tl_clock tl;
  fr_store : core <$> tl_store tl' = core <$> tl_store tl
}.

Lemma frame_refl tl : tl_frame tl tl.
Proof. done. Qed.

Lemma frame_trans tl1 tl2 tl3 : tl_frame tl1 tl2 → tl_frame tl2 tl3 → tl_frame tl1 tl3.
Proof. intros [] []. split; congruence. Qed.

Lemma frame_lookup tl tl' p e :
  tl_frame tl tl' → tl_store tl !! p = Some e →
  ∃ e', tl_store tl' !! p = Some e' ∧ core e' = core e.
Proof.
  intros Hf Hp. pose proof (f_equal (.!! p) (fr_store _ _ Hf)) as H.
  rewrite !list_lookup_fmap, Hp in H. destruct (tl_store tl' !! p) as [e'|]; [|done].
  exists e'. split; [done|]. by apply (inj Some) in H.
Qed.

Lemma timed_core clock t e e' : core e' = core e → timed clock t e → timed clock t e'.
Proof. destruct e, e'. unfold core, set_heap_pos. cbn. intros. by simplify_eq. Qed.

Lemma timed_frame tl tl' :
  tl_frame tl tl' → hp tl' ≡ₚ hp tl → tl_timed tl → tl_timed tl'.
Proof.
  intros Hf Hp Ht p Hin. rewrite Hp in Hin. destruct (Ht p Hin) as (e & He & Hc).
  destruct (frame_lookup _ _ _ _ Hf He) as (e' & He' & Hc').
  exists e'. split; [done|]. rewrite (fr_clock _ _ Hf). by apply (timed_core _ _ e).
Qed.

Lemma hp_length tl : tl_wf tl → length (hp tl) = size tl.
Proof. intros [Hl Hs _ _ _]. unfold hp. rewrite length_take. lia. Qed.

Lemma hp_NoDup tl : tl_wf tl → NoDup (hp tl).
Proof.
  intros Hwf. apply NoDup_alt. intros i j p Hi Hj.
  destruct (wf_pos _ Hwf _ _ Hi) as (e & He & Hpi & _).
  destruct (wf_pos _ Hwf _ _ Hj) as (e' & He' & Hpj & _).
  simplify_eq. rewrite Hpi in Hpj. lia.
Qed.

Lemma hp_store tl p : tl_wf tl → p ∈ hp tl → ∃ e, tl_store tl !! p = Some e.
Proof.
  intros Hwf [i Hi]%list_elem_of_lookup. destruct (wf_pos _ Hwf _ _ Hi) as (e & He & _). eauto.
Qed.

(** ** Single steps *)

Lemma entry_get_ok (tl : tlist) i p :
  hp tl !! i = Some p → timer_list_heap_entry_get i tl = (Ok p, tl).
Proof.
  intros [Hi Hlt]%lookup_take_Some. unfold timer_list_heap_entry_get, get, mbind, M_bind.
  rewrite (proj2 (Nat.ltb_lt _ _) Hlt), Hi. done.
Qed.

Lemma deref_ok (tl : tlist) p e : tl_store tl !! p = Some e → deref p tl = (Ok e, tl).
Proof. intros H. unfold deref. by rewrite H. Qed.

Lemma assign_ok (tl : tlist) p e f : tl_store tl !! p = Some e →
  assign p f tl = (Ok tt, set_store (<[p := f e]> (tl_store tl)) tl).
Proof. intros H. unfold assign. by rewrite (bind_ok _ _ _ _ _ (deref_ok _ _ _ H)). Qed.

Lemma entry_set_ok (tl : tlist) i p e :
  (i < size tl)%nat → tl_store tl !! p = Some e →
  timer_list_heap_entry_set i p tl =
    (Ok tt, set_store (<[p := set_heap_pos (Z.of_nat i) e]> (tl_store tl))
              (set_entries (allocated tl) (<[i := p]> (entries tl)) tl)).
Proof.
  intros Hi Hp. unfold timer_list_heap_entry_set, get, mbind at 1, M_bind at 1.
  rewrite (proj2 (Nat.ltb_lt _ _) Hi). unfold mbind, M_bind, modify.
  by rewrite (assign_ok _ p e).
Qed.

Lemma cmp_entries_ok (tl : tlist) p q ep eq :
  tl_store tl !! p = Some ep → tl_store tl !! q = Some eq →
  timed (tl_clock tl) (E p) ep → timed (tl_clock tl) (E q) eq →
  cmp_entries p q tl = (Ok (Z.sgn (E p - E q)), tl).
Proof.
  intros Hp Hq Tp Tq. unfold cmp_entries.
  rewrite (bind_ok _ _ _ _ _ (deref_ok _ _ _ Hp)), (bind_ok _ _ _ _ _ (deref_ok _ _ _ Hq)).
  by rewrite (cmp_sgn _ _ _ _ _ Tp Tq).
Qed.

Lemma cmp_hp_ok (tl : tlist) p q : tl_timed tl → p ∈ hp tl → q ∈ hp tl →
  cmp_entries p q tl = (Ok (Z.sgn (E p - E q)), tl).
Proof.
  intros Ht Hp Hq. destruct (Ht p Hp) as (ep & ? & ?), (Ht q Hq) as (eq & ? & ?).
  by apply (cmp_entries_ok _ _ _ ep eq).
Qed.

(** Exchanging two entries. *)
Lemma swap_ok (tl : tlist) i j p q :
  tl_wf tl → i ≠ j → hp tl !! i = Some p → hp tl !! j = Some q →
  ∃ tl', (timer_list_heap_entry_set i q;; timer_list_heap_entry_set j p) tl = (Ok tt, tl') ∧
         tl_wf tl' ∧ tl_frame tl tl' ∧ hp tl' = swap (hp tl) i j p q.
Proof.
  intros Hwf Hij Hi Hj. destruct (wf_pos _ Hwf _ _ Hi) as (ep & Hep & _ & Hap).
  destruct (wf_pos _ Hwf _ _ Hj) as (eq & Heq & _ & Haq).
  assert (Hpq : p ≠ q).
  { intros ->. apply Hij. eapply NoDup_lookup; [by apply hp_NoDup| |]; done. }
  pose proof (proj2 (proj1 (lookup_take_Some _ _ _ _) Hi)) as Hli.
  pose proof (proj2 (proj1 (lookup_take_Some _ _ _ _) Hj)) as Hlj.
  eexists. split; [|split_and!].
  - rewrite (bind_ok _ _ _ _ _ (entry_set_ok tl i q eq Hli Heq)).
    apply (entry_set_ok _ j p ep); [done|]. cbn. by rewrite list_lookup_insert_ne.
  - pose proof (lookup_lt_Some _ _ _ Hep). pose proof (lookup_lt_Some _ _ _ Heq).
    assert (Hhp : take (size tl) (<[j:=p]> (<[i:=q]> (entries tl))) = swap (hp tl) i j p q).
    { unfold swap, hp. by rewrite !take_insert_lt. }
    split; unfold hp; cbn.
    + rewrite !length_insert. apply Hwf.
    + apply Hwf.
    + intros k r. rewrite Hhp, (lookup_swap _ _ _ _ _ _ Hi Hj). repeat case_decide.
      * intros [= <-]. subst. exists (set_heap_pos (Z.of_nat j) ep).
        rewrite list_lookup_insert_eq; [by destruct ep|by rewrite length_insert].
      * intros [= <-]. subst. exists (set_heap_pos (Z.of_nat i) eq).
        rewrite list_lookup_insert_ne, list_lookup_insert_eq by done. by destruct eq.
      * intros Hk. assert (r ≠ p ∧ r ≠ q) as [??].
        { split; intros ->; [apply H2|apply H1];
            by eapply NoDup_lookup; [apply hp_NoDup| |]. }
        rewrite !list_lookup_insert_ne by done. by apply (wf_pos _ Hwf).
    + apply Hwf.
    + intros r Hr. rewrite !length_insert, Hhp, swap_perm by done. by apply (wf_free_valid _ Hwf).
  - split; cbn; try done. apply list_eq. intros r. rewrite !list_lookup_fmap.
    destruct (decide (r = p)) as [->|].
    + rewrite list_lookup_insert_eq, Hep by (rewrite length_insert; by eapply lookup_lt_Some).
      by destruct ep.
    + rewrite list_lookup_insert_ne by done. destruct (decide (r = q)) as [->|].
      * rewrite list_lookup_insert_eq, Heq by (by eapply lookup_lt_Some). by destruct eq.
      * by rewrite list_lookup_insert_ne.
  - unfold hp, swap. cbn. by rewrite !take_insert_lt.
Qed.

(** ** Restoring the heap *)

Record restored (tl tl' : tlist) : Prop := {
  rs_wf : tl_wf tl';
  rs_timed : tl_timed tl';
  rs_frame : tl_frame tl tl';
  rs_perm : hp tl' ≡ₚ hp tl;
  rs_ordered : heap_ordered E (hp tl')
}.

Lemma restored_step tl tl1 tl' :
  tl_frame tl tl1 → hp tl1 ≡ₚ hp tl → restored tl1 tl' → restored tl tl'.
Proof.
  intros Hf Hp [? ? Hf' Hp' ?]. split; try done; [by eapply frame_trans|by rewrite Hp'].
Qed.

Lemma restored_refl tl : tl_wf tl → tl_timed tl → heap_ordered E (hp tl) → restored tl tl.
Proof. intros. by split. Qed.

Lemma sift_up_loop_spec fuel k (tl : tlist) item :
  tl_wf tl → tl_timed tl → heap_up E (hp tl) k → hp tl !! k = Some item → (k < fuel)%nat →
  ∃ tl', timer_list_heap_sift_up_loop fuel k item tl = (Ok tt, tl') ∧ restored tl tl'.
Proof.
  revert k tl. induction fuel as [|fuel IH]; intros k tl Hwf Ht Hup Hk Hfuel; [lia|].
  cbn [timer_list_heap_sift_up_loop]. destruct (0 <? k)%nat eqn:Hpos.
  - apply Nat.ltb_lt in Hpos. pose proof (parent_lt k Hpos) as Hlt.
    destruct (lookup_lt_is_Some_2 (hp tl) (timer_list_heap_index_parent k)) as [p Hp].
    { apply lookup_lt_Some in Hk. lia. }
    rewrite (bind_ok _ _ _ _ _ (entry_get_ok _ _ _ Hp)).
    rewrite (bind_ok _ _ _ _ _ (cmp_hp_ok tl p item Ht
      (list_elem_of_lookup_2 _ _ _ Hp) (list_elem_of_lookup_2 _ _ _ Hk))).
    case_if.
    + destruct (swap_ok tl (timer_list_heap_index_parent k) k p item Hwf ltac:(lia) Hp Hk) as (tl1 & Hs & Hwf1 & Hf & Hhp).
      rewrite bind_assoc', (bind_ok _ _ _ _ _ Hs).
      assert (Hpm : hp tl1 ≡ₚ hp tl) by (rewrite Hhp; by apply swap_perm).
      destruct (IH (timer_list_heap_index_parent k) tl1) as (tl' & Hl & Hr).
      * done.
      * by apply (timed_frame tl).
      * rewrite Hhp. by apply heap_up_step; [..|lia].
      * rewrite Hhp, (lookup_swap _ _ _ _ _ _ Hp Hk), decide_False by lia. by rewrite decide_True.
      * lia.
      * exists tl'. split; [done|]. by apply (restored_step _ tl1).
    + exists tl. split; [done|]. apply restored_refl; [done|done|].
      apply (heap_up_stop _ _ k Hup). right. intros a b Ha Hb. simplify_eq. lia.
  - apply Nat.ltb_ge in Hpos. exists tl. split; [done|]. apply restored_refl; [done|done|].
    apply (heap_up_stop _ _ k Hup). left. lia.
Qed.

Lemma sift_up_spec k (tl : tlist) :
  tl_wf tl → tl_timed tl → heap_up E (hp tl) k → (k < size tl)%nat →
  ∃ tl', timer_list_heap_sift_up k tl = (Ok tt, tl') ∧ restored tl tl'.
Proof.
  intros Hwf Ht Hup Hk. rewrite <-hp_length in Hk by done.
  destruct (lookup_lt_is_Some_2 _ _ Hk) as [item Hi].
  unfold timer_list_heap_sift_up. rewrite (bind_ok _ _ _ _ _ (entry_get_ok _ _ _ Hi)).
  by apply sift_up_loop_spec; [..|lia].
Qed.

Definition smaller (l : list nat) (c : nat) (best : nat * nat) : nat * nat :=
  match l !! c with
  | Some r => if E r <? E (snd best) then (c, r) else best
  | None => best
  end.

Lemma smaller_child_spec c best (tl : tlist) :
  tl_wf tl → tl_timed tl → snd best ∈ hp tl →
  smaller_child c best tl = (Ok (smaller (hp tl) c best), tl).
Proof.
  intros Hwf Ht Hb. unfold smaller_child, smaller, get, mbind at 1, M_bind at 1.
  pose proof (hp_length tl Hwf). destruct (c <? size tl)%nat eqn:Hc.
  - apply Nat.ltb_lt in Hc. destruct (lookup_lt_is_Some_2 (hp tl) c) as [r Hr]; [lia|].
    rewrite Hr, (bind_ok _ _ _ _ _ (entry_get_ok _ _ _ Hr)).
    rewrite (bind_ok _ _ _ _ _ (cmp_hp_ok tl r (snd best) Ht (list_elem_of_lookup_2 _ _ _ Hr) Hb)).
    unfold mret, M_ret. do 3 f_equal.
    destruct (Z.sgn_spec (E r - E (snd best))) as [[? ->]|[[? ->]|[? ->]]]; repeat case_if; lia || done.
  - apply Nat.ltb_ge in Hc. by rewrite lookup_ge_None_2 by lia.
Qed.

Lemma smaller_elem l c best : snd best ∈ l → snd (smaller l c best) ∈ l.
Proof.
  intros. unfold smaller. destruct (l !! c) eqn:?; [|done].
  destruct (_ <? _); [|done]. by eapply list_elem_of_lookup_2.
Qed.

(** The smallest of an entry and its children. *)
Lemma smallest_spec l k p : l !! k = Some p →
  match smaller l (timer_list_heap_index_right k)
          (smaller l (timer_list_heap_index_left k) (k, p)) with
  | (c, q) =>
      l !! c = Some q ∧ E q ≤ E p ∧
      (∀ i r, (0 < i)%nat → timer_list_heap_index_parent i = k → l !! i = Some r → E q ≤ E r) ∧
      (c = k ∨ E q < E p ∧ (k < c)%nat ∧ timer_list_heap_index_parent c = k)
  end.
Proof.
  intros Hk.
  pose proof (proj2 (parent_iff (timer_list_heap_index_left k) k ltac:(unfold timer_list_heap_index_left; lia)) (or_introl eq_refl)) as Hpl.
  pose proof (proj2 (parent_iff (timer_list_heap_index_right k) k ltac:(unfold timer_list_heap_index_right; lia)) (or_intror eq_refl)) as Hpr.
  assert (Hlk : (k < timer_list_heap_index_left k)%nat) by (unfold timer_list_heap_index_left; lia).
  assert (Hrk : (k < timer_list_heap_index_right k)%nat) by (unfold timer_list_heap_index_right; lia).
  unfold smaller.
  destruct (l !! timer_list_heap_index_left k) as [a|] eqn:Ha;
    destruct (l !! timer_list_heap_index_right k) as [b|] eqn:Hb; cbn [snd];
    try (destruct (E a <? E p) eqn:?; cbn [snd]); try (case_if; cbn [snd]); zbool;
    split_and?; try done; try lia;
    try (intros i r Hi Hpi Hr; apply parent_iff in Hpi as [-> | ->]; [..|done]; simplify_eq; lia);
    first [by left|right; split_and!; done || lia].
Qed.

Lemma sift_down_loop_spec fuel k (tl : tlist) :
  tl_wf tl → tl_timed tl → heap_down E (hp tl) k → (k < size tl)%nat → (size tl - k < fuel)%nat →
  ∃ tl', timer_list_heap_sift_down_loop fuel k tl = (Ok tt, tl') ∧ restored tl tl'.
Proof.
  revert k tl. induction fuel as [|fuel IH]; intros k tl Hwf Ht Hdn Hk Hfuel; [lia|].
  cbn [timer_list_heap_sift_down_loop]. pose proof (hp_length tl Hwf) as Hlen.
  destruct (lookup_lt_is_Some_2 (hp tl) k) as [p Hp]; [lia|].
  pose proof (smallest_spec _ _ _ Hp) as Hsm.
  rewrite (bind_ok _ _ _ _ _ (entry_get_ok _ _ _ Hp)).
  rewrite (bind_ok _ _ _ _ _ (smaller_child_spec (timer_list_heap_index_left k) (k, p) tl Hwf Ht
    (list_elem_of_lookup_2 _ _ _ Hp))).
  rewrite (bind_ok _ _ _ _ _ (smaller_child_spec (timer_list_heap_index_right k) _ tl Hwf Ht
    (smaller_elem (hp tl) (timer_list_heap_index_left k) (k, p) (list_elem_of_lookup_2 _ _ _ Hp)))).
  destruct (smaller _ _ _) as [c q]. destruct Hsm as (Hq & Hle & Hmin & Hc).
  destruct (c =? k)%nat eqn:Eck.
  - apply Nat.eqb_eq in Eck as ->. simplify_eq. exists tl. split; [done|].
    apply restored_refl; [done|done|]. apply (heap_down_stop _ _ k Hdn).
    intros i Hi Hpi a b Ha Hb. rewrite Hpi in Ha. simplify_eq. by apply (Hmin i).
  - apply Nat.eqb_neq in Eck. destruct Hc as [?|(Hlt & Hkc & Hpc)]; [done|].
    rewrite (bind_ok _ _ _ _ _ (entry_get_ok _ _ _ Hp)).
    destruct (swap_ok tl k c p q Hwf ltac:(lia) Hp Hq) as (tl1 & Hs & Hwf1 & Hf & Hhp).
    rewrite bind_assoc', (bind_ok _ _ _ _ _ Hs).
    assert (Hpm : hp tl1 ≡ₚ hp tl) by (rewrite Hhp; by apply swap_perm).
    apply lookup_lt_Some in Hq as Hlc. pose proof (fr_size _ _ Hf) as Hsz.
    destruct (IH c tl1) as (tl' & Hl & Hr); [done|by apply (timed_frame tl)| |lia|lia|].
    + rewrite Hhp. by apply heap_down_step; [|lia|..].
    + exists tl'. split; [done|]. by apply (restored_step _ tl1).
Qed.

Lemma sift_down_spec k (tl : tlist) :
  tl_wf tl → tl_timed tl → heap_down E (hp tl) k → (k < size tl)%nat →
  ∃ tl', timer_list_heap_sift_down k tl = (Ok tt, tl') ∧ restored tl tl'.
Proof. intros. by apply sift_down_loop_spec; [..|lia]. Qed.

(** ** Removing a timer from the heap *)

(** The array once the last entry has taken the place of the removed one. *)
Lemma replace_last_perm (l : list nat) pos p r :
  l !! pos = Some p → l !! (length l - 1)%nat = Some r →
  p :: take (length l - 1) (<[pos := r]> l) ≡ₚ l.
Proof.
  intros Hp Hr. etrans; [|by apply (swap_perm l pos (length l - 1) p r)].
  apply lookup_lt_Some in Hp as Hlt.
  pose proof (lookup_swap l pos (length l - 1) p r (length l - 1) Hp Hr) as Hlast.
  rewrite decide_True in Hlast by done.
  rewrite <-(take_ge (swap l pos (length l - 1) p r) (S (length l - 1))).
  - rewrite (take_S_r _ _ p Hlast). unfold swap.
    rewrite (take_insert_ge (<[pos:=r]> l)) by lia. by rewrite Permutation_app_comm.
  - unfold swap. rewrite !length_insert. lia.
Qed.

(** The state [timer_list_heap_delete] reaches before it restores the heap. *)
Lemma heap_delete_replace (tl : tlist) pos p r ep :
  tl_wf tl → hp tl !! pos = Some p → hp tl !! (size tl - 1)%nat = Some r →
  tl_store tl !! p = Some ep →
  ∃ er tl1,
    tl_store tl1 !! r = Some er ∧ is_Some (tl_store tl1 !! p) ∧
    (assign p (set_heap_pos HEAP_POS_NONE) tl =
       (Ok tt, set_store (<[p := set_heap_pos HEAP_POS_NONE ep]> (tl_store tl)) tl)) ∧
    (timer_list_heap_entry_set pos r;; modify (λ tl, set_size (size tl - 1) tl))
       (set_store (<[p := set_heap_pos HEAP_POS_NONE ep]> (tl_store tl)) tl) = (Ok tt, tl1) ∧
    tl_wf tl1 ∧ tl_frame (set_size (size tl - 1) tl) tl1 ∧
    hp tl1 = take (size tl - 1) (<[pos := r]> (hp tl)).
Proof.
  intros Hwf Hp Hr Hep. pose proof (hp_length tl Hwf) as Hlen.
  apply lookup_lt_Some in Hp as Hlt. rewrite Hlen in Hlt.
  apply lookup_lt_Some in Hep as Hpl.
  destruct (wf_pos _ Hwf _ _ Hp) as (ep' & Hep' & Hpp & Hap). simplify_eq.
  set (st := <[p := set_heap_pos HEAP_POS_NONE ep]> (tl_store tl)).
  assert (Her : ∃ er, st !! r = Some er ∧ core <$> tl_store tl !! r = Some (core er) ∧
                      is_active er = true).
  { destruct (wf_pos _ Hwf _ _ Hr) as (er & Her & _ & Har). subst st.
    destruct (decide (r = p)) as [->|].
    - rewrite list_lookup_insert_eq by done. rewrite Her in Hep. simplify_eq.
      eexists. split; [done|]. rewrite Her. by destruct ep.
    - rewrite list_lookup_insert_ne by done. rewrite Her. eauto. }
  destruct Her as (er & Her & Hcr & Har). apply lookup_lt_Some in Her as Hrl.
  set (tl1 := set_size (size tl - 1)
    (set_store (<[r := set_heap_pos (Z.of_nat pos) er]> st)
       (set_entries (allocated tl) (<[pos := r]> (entries tl)) tl))).
  assert (Hhp : hp tl1 = take (size tl - 1) (<[pos := r]> (hp tl))).
  { unfold hp. rewrite <-take_insert_lt by done. rewrite take_take. cbn. f_equal. lia. }
  exists (set_heap_pos (Z.of_nat pos) er), tl1. split_and!; [| | | | | |done].
  - subst tl1. cbn. by rewrite list_lookup_insert_eq.
  - subst tl1. cbn. apply lookup_lt_is_Some_2. unfold st. by rewrite !length_insert.
  - by apply assign_ok.
  - by rewrite (bind_ok _ _ _ _ _ (entry_set_ok (set_store st tl) pos r er Hlt Her)).
  - split; rewrite ?Hhp; subst tl1; cbn.
    + rewrite length_insert. apply Hwf.
    + pose proof (wf_size _ Hwf). lia.
    + intros i q [Hq Hi]%lookup_take_Some. destruct (decide (i = pos)) as [->|].
      * rewrite list_lookup_insert_eq in Hq by lia. simplify_eq.
        exists (set_heap_pos (Z.of_nat pos) er). rewrite list_lookup_insert_eq by done.
        by destruct er.
      * rewrite list_lookup_insert_ne in Hq by done.
        assert (q ≠ r ∧ q ≠ p) as [??].
        { pose proof (hp_NoDup tl Hwf) as Hnd.
          split; intros ->; [pose proof (NoDup_lookup _ _ _ _ Hnd Hq Hr)
                            |pose proof (NoDup_lookup _ _ _ _ Hnd Hq Hp)]; lia. }
        unfold st. rewrite !list_lookup_insert_ne by done. by apply (wf_pos _ Hwf).
    + apply Hwf.
    + intros q Hq. unfold st. rewrite !length_insert.
      destruct (wf_free_valid _ Hwf q Hq) as [Hv Hni]. split; [done|].
      intros Hin. apply Hni. rewrite <-(replace_last_perm (hp tl) pos p r), Hlen; [|done|].
      * by right.
      * by rewrite Hlen.
  - split; subst tl1; cbn; try done. apply list_eq. intros q. rewrite !list_lookup_fmap.
    destruct (decide (q = r)) as [->|].
    + rewrite list_lookup_insert_eq, Hcr by done. by destruct er.
    + rewrite list_lookup_insert_ne by done. unfold st. destruct (decide (q = p)) as [->|].
      * rewrite list_lookup_insert_eq, Hep by done. by destruct ep.
      * by rewrite list_lookup_insert_ne.
Qed.

Record removed (p : nat) (tl tl' : tlist) : Prop := {
  rm_wf : tl_wf tl';
  rm_timed : tl_timed tl';
  rm_frame : tl_frame (set_size (size tl - 1) tl) tl';
  rm_perm : p :: hp tl' ≡ₚ hp tl;
  rm_ordered : heap_ordered E (hp tl')
}.

Lemma timed_subset (tl tl1 : tlist) :
  tl_frame (set_size (size tl - 1) tl) tl1 → (∀ p, p ∈ hp tl1 → p ∈ hp tl) →
  tl_timed tl → tl_timed tl1.
Proof.
  intros Hf Hs Ht p Hp. destruct (Ht p (Hs p Hp)) as (e & He & Hc).
  destruct (frame_lookup _ _ p e Hf He) as (e' & He' & Hc').
  exists e'. split; [done|]. rewrite (fr_clock _ _ Hf). by apply (timed_core _ _ e).
Qed.

Lemma removed_of_restored p tl tl1 tl' :
  tl_frame (set_size (size tl - 1) tl) tl1 → p :: hp tl1 ≡ₚ hp tl → restored tl1 tl' →
  removed p tl tl'.
Proof.
  intros Hf Hp [? ? Hf' Hp' ?]. split; try done; [by eapply frame_trans|by rewrite Hp'].
Qed.

Lemma heap_delete_spec p (tl : tlist) :
  tl_wf tl → tl_timed tl → heap_ordered E (hp tl) → p ∈ hp tl →
  ∃ tl', timer_list_heap_delete p tl = (Ok tt, tl') ∧ removed p tl tl'.
Proof.
  intros Hwf Ht Ho Hin. pose proof (hp_length tl Hwf) as Hlen.
  pose proof Hin as [pos Hp]%list_elem_of_lookup. apply lookup_lt_Some in Hp as Hlt.
  destruct (lookup_lt_is_Some_2 (hp tl) (size tl - 1)) as [r Hr]; [lia|].
  destruct (Ht p Hin) as (ep & Hep & Htp).
  destruct (wf_pos _ Hwf _ _ Hp) as (ep' & Hep' & Hpos & _). simplify_eq.
  destruct (heap_delete_replace tl pos p r ep Hwf Hp Hr Hep)
    as (er & tl1 & Her & [ep1 Hep1] & Ha & Hs & Hwf1 & Hf & Hhp).
  assert (Hpm : p :: hp tl1 ≡ₚ hp tl).
  { rewrite Hhp, <-Hlen. apply replace_last_perm; [done|by rewrite Hlen]. }
  assert (Ht1 : tl_timed tl1).
  { apply (timed_subset tl); [done| |done]. intros q Hq. rewrite <-Hpm. by right. }
  unfold timer_list_heap_delete. rewrite (bind_ok _ _ _ _ _ (deref_ok _ _ _ Hep)).
  rewrite (bind_ok _ _ _ _ _ Ha), (bind_ok get _ _ _ _ eq_refl).
  rewrite (bind_ok _ _ _ _ _ (entry_get_ok (set_store _ tl) _ _ Hr)).
  rewrite Hpos, Nat2Z.id. cbn [size set_store].
  replace (Z.of_nat pos <? Z.of_nat (size tl)) with true by (symmetry; apply Z.ltb_lt; lia).
  rewrite bind_assoc', (bind_ok _ _ _ _ _ Hs).
  rewrite (bind_ok _ _ _ (Z.sgn (E r - E p)) tl1).
  2: { destruct (frame_lookup _ _ _ _ Hf Hep) as (e1 & He1 & Hc1).
       destruct (Ht r (list_elem_of_lookup_2 _ _ _ Hr)) as (e0 & He0 & Htr).
       destruct (frame_lookup _ _ _ _ Hf He0) as (e2 & He2 & Hc2).
       pose proof (fr_clock _ _ Hf) as Hck. cbn in Hck.
       apply (cmp_entries_ok _ _ _ e2 e1); rewrite ?Hck; try done;
         by eapply timed_core. }
  destruct (heap_replace E (hp tl) pos p r Ho Hp) as [Hup Hdown].
  pose proof (hp_length tl1 Hwf1) as Hlen1. pose proof (fr_size _ _ Hf) as Hsz. cbn in Hsz.
  assert (Hk : E r ≠ E p → (pos < size tl1)%nat).
  { intros Hne. destruct (decide (pos = size tl - 1)%nat) as [->|]; [|lia].
    exfalso. apply Hne. congruence. }
  destruct (Z.sgn_spec (E r - E p)) as [[? ->]|[[Hz ->]|[? ->]]]; cbn [Z.ltb Z.compare].
  - destruct (sift_down_spec pos tl1) as (tl' & Hsd & Hres); [done|done| |apply Hk; lia|].
    + rewrite Hhp. apply heap_down_take, Hdown. lia.
    + exists tl'. split; [done|]. by apply (removed_of_restored p tl tl1).
  - exists tl1. split; [done|]. apply (removed_of_restored p tl tl1); [done|done|].
    apply restored_refl; [done|done|]. rewrite Hhp. apply heap_ordered_take.
    by apply (heap_replace_eq E (hp tl) pos p r); [| |lia].
  - destruct (sift_up_spec pos tl1) as (tl' & Hsd & Hres); [done|done| |apply Hk; lia|].
    + rewrite Hhp. apply heap_up_take, Hup. lia.
    + exists tl'. split; [done|]. by apply (removed_of_restored p tl tl1).
Qed.

(** ** Inserting a timer into the heap *)

Lemma grow_spec (tl : tlist) h : tl_wf tl →
  match timer_list_grow (tl, h) with
  | (Ok r, (tl', h')) =>
      h' `suffix_of` h ∧
      (r = -1 ∧ tl' = tl ∧ None ∈ h ∧ size tl = allocated tl ∨
       r = 0 ∧ tl_wf tl' ∧ hp tl' = hp tl ∧ (size tl < allocated tl')%nat ∧ size tl' = size tl ∧
       free_list tl' = free_list tl ∧ tl_clock tl' = tl_clock tl ∧ tl_store tl' = tl_store tl)
  | (Err _, _) => False
  end.
Proof.
  intros Hwf. pose proof Hwf as [Hl Hs Hp Hf Hv]. unfold timer_list_grow.
  destruct (_ <? _)%nat eqn:Hc; [apply Nat.ltb_lt in Hc|apply Nat.ltb_ge in Hc].
  - destruct (malloc h) as [[junk|] h'] eqn:Em.
    + split; [by eapply malloc_suffix|]. right.
      assert (Hh : hp (set_entries ((allocated tl + 1) * 2)
        (realloc_entries junk ((allocated tl + 1) * 2) (entries tl)) tl) = hp tl).
      { unfold hp, realloc_entries. cbn.
        rewrite (take_ge (entries tl) ((allocated tl + 1) * 2)) by lia.
        by rewrite take_app_le by lia. }
      split_and!; try done; [|cbn; lia].
      split; rewrite ?Hh; cbn; try done; [|lia].
      unfold realloc_entries. rewrite length_app, length_take, length_fmap, length_seq. lia.
    + split; [by eapply malloc_suffix|]. left. split_and!; [done|done|by eapply malloc_None|lia].
  - split; [done|]. right. split_and!; done || lia.
Qed.

(** The new entry at the end of the array. *)
Lemma insert_last (tl : tlist) p e :
  tl_wf tl → tl_store tl !! p = Some e → is_active e = true → p ∉ hp tl → p ∉ free_list tl →
  (size tl < allocated tl)%nat →
  ∃ tl1, (modify (set_size (size tl + 1));; timer_list_heap_entry_set (size tl) p) tl = (Ok tt, tl1) ∧
    tl_wf tl1 ∧ hp tl1 = hp tl ++ [p] ∧ tl_frame (set_size (size tl + 1) tl) tl1.
Proof.
  intros Hwf He Ha Hp Hpf Hs. pose proof (wf_len _ Hwf) as Hlen.
  apply lookup_lt_Some in He as Hpl.
  eexists. split.
  { rewrite (bind_ok (modify _) _ _ _ _ eq_refl). apply (entry_set_ok _ _ _ e); [cbn; lia|done]. }
  cbn. assert (Hh : take (size tl + 1) (<[size tl:=p]> (entries tl)) = hp tl ++ [p]).
  { rewrite Nat.add_1_r, (take_S_r _ _ p) by (apply list_lookup_insert_eq; lia).
    by rewrite take_insert_ge. }
  split_and!; [|done|].
  - split; unfold hp; cbn; rewrite ?Hh.
    + by rewrite length_insert.
    + lia.
    + intros i q [Hq|[Hi Hq]]%lookup_app_Some.
      * rewrite list_lookup_insert_ne; [by apply (wf_pos _ Hwf)|].
        intros <-. apply Hp. by eapply list_elem_of_lookup_2.
      * apply list_lookup_singleton_Some in Hq as [Hi' <-].
        rewrite list_lookup_insert_eq by done. eexists. split; [done|].
        rewrite hp_length in * by done. destruct e; cbn in *. split; [f_equal; lia|done].
    + apply Hwf.
    + intros q Hq. rewrite length_insert. destruct (wf_free_valid _ Hwf q Hq) as [Hv Hni].
      split; [done|]. rewrite not_elem_of_app. split; [done|].
      intros ->%list_elem_of_singleton. done.
  - split; cbn; try done. apply list_eq. intros q. rewrite !list_lookup_fmap.
    destruct (decide (q = p)) as [->|].
    + rewrite list_lookup_insert_eq, He by done. by destruct e.
    + by rewrite list_lookup_insert_ne.
Qed.

(** Writing to an entry outside of the heap. *)
Lemma wf_set_store (tl : tlist) p e :
  tl_wf tl → p ∉ hp tl → (p < length (tl_store tl))%nat →
  tl_wf (set_store (<[p := e]> (tl_store tl)) tl).
Proof.
  intros Hwf Hp Hl. split; cbn; try apply Hwf.
  - intros i q Hq. cbn in Hq. rewrite list_lookup_insert_ne; [by apply (wf_pos _ Hwf)|].
    intros <-. apply Hp. by eapply list_elem_of_lookup_2.
  - intros q Hq. rewrite length_insert. by apply (wf_free_valid _ Hwf).
Qed.

Lemma timed_set_store (tl : tlist) p e :
  tl_timed tl → p ∉ hp tl → tl_timed (set_store (<[p := e]> (tl_store tl)) tl).
Proof.
  intros Ht Hp q Hq. destruct (Ht q Hq) as (e' & He' & Hc). exists e'. split; [|done].
  cbn. rewrite list_lookup_insert_ne; [done|]. by intros ->.
Qed.

Record inserted (p : nat) (e : entry) (tl tl' : tlist) : Prop := {
  in_wf : tl_wf tl';
  in_timed : tl_timed tl';
  in_ordered : heap_ordered E (hp tl');
  in_perm : hp tl' ≡ₚ p :: hp tl;
  in_free : free_list tl' = free_list tl;
  in_clock : tl_clock tl' = tl_clock tl;
  in_store : core <$> tl_store tl' = core <$> <[p := e]> (tl_store tl)
}.

(** The steps after the array was made large enough. *)
Lemma insert_restore (tl : tlist) p e :
  tl_wf tl → tl_timed tl → heap_ordered E (hp tl) → p ∉ hp tl → p ∉ free_list tl →
  tl_store tl !! p = Some e → is_active e = true → timed (tl_clock tl) (E p) e →
  (size tl < allocated tl)%nat →
  ∃ tl', (modify (λ tl, set_size (size tl + 1) tl);;
          tl ← get;
          timer_list_heap_entry_set (size tl - 1) p;;
          timer_list_heap_sift_up (size tl - 1)) tl = (Ok tt, tl') ∧ inserted p e tl tl'.
Proof.
  intros Hwf Ht Ho Hp Hpf He Ha Hte Hs.
  destruct (insert_last tl p e Hwf He Ha Hp Hpf Hs) as (tl1 & Hx & Hwf1 & Hh1 & Hf).
  rewrite (bind_ok (modify _) _ _ _ _ eq_refl), (bind_ok get _ _ _ _ eq_refl).
  replace (size (set_size (size tl + 1) tl) - 1)%nat with (size tl) by (cbn; lia).
  rewrite (bind_ok (modify _) _ _ _ _ eq_refl) in Hx.
  rewrite (bind_ok _ _ _ _ _ Hx).
  assert (Ht1 : tl_timed tl1).
  { intros q Hq. rewrite Hh1, elem_of_app, list_elem_of_singleton in Hq.
    pose proof (fr_clock _ _ Hf) as Hc. cbn in Hc. rewrite Hc.
    assert (∃ e', tl_store tl !! q = Some e' ∧ timed (tl_clock tl) (E q) e') as (e0 & He0 & Hc0).
    { destruct Hq as [Hq | ->]; [by apply Ht|eauto]. }
    destruct (frame_lookup _ _ q e0 Hf He0) as (e1 & He1 & Hc1).
    exists e1. split; [done|]. by eapply timed_core. }
  destruct (sift_up_spec (size tl) tl1) as (tl' & Hup & Hr); [done|done| | |].
  - rewrite Hh1, <-(hp_length tl Hwf). by apply heap_up_app.
  - rewrite (fr_size _ _ Hf). cbn. lia.
  - exists tl'. split; [done|]. destruct Hr as [? ? [] Hpm ?], Hf. split; cbn in *; try done.
    + by rewrite Hpm, Hh1, Permutation_app_comm.
    + congruence.
    + congruence.
    + rewrite list_insert_id by done. congruence.
Qed.

Lemma insert_spec (tl : tlist) h p e :
  let e' := set_expire_time (u32 (epoch e + ticks (interval e))) e in
  tl_wf tl → tl_timed tl → heap_ordered E (hp tl) → p ∉ hp tl → p ∉ free_list tl →
  tl_store tl !! p = Some e → is_active e = true → timed (tl_clock tl) (E p) e' →
  match timer_list_insert_into_list ticks p (tl, h) with
  | (Ok r, (tl', h')) =>
      h' `suffix_of` h ∧
      (r = -1 ∧ tl' = set_store (<[p := e']> (tl_store tl)) tl ∧ None ∈ h ∧
         size tl = allocated tl ∨
       r = 0 ∧ inserted p e' tl tl')
  | (Err _, _) => False
  end.
Proof.
  intros e' Hwf Ht Ho Hp Hpf He Ha Hte. apply lookup_lt_Some in He as Hpl.
  unfold timer_list_insert_into_list.
  rewrite (bind_ok (on_list _) _ _ tt (set_store (<[p := e']> (tl_store tl)) tl, h)).
  2: { unfold on_list. by rewrite (assign_ok _ _ _ _ He). }
  set (tl0 := set_store _ tl).
  assert (Hwf0 : tl_wf tl0) by (by apply wf_set_store).
  pose proof (grow_spec tl0 h Hwf0) as Hg.
  destruct (timer_list_grow (tl0, h)) as [[r|] [tl1 h1]] eqn:Eg; [|done].
  rewrite (bind_ok _ _ _ _ _ Eg). destruct Hg as [Hsuf Hg]. destruct Hg as
    [(-> & -> & Hn & Hs)|(-> & Hwf1 & Hh1 & Hs & Hsz & Hfr & Hck & Hst)]; cbn [Z.eqb Pos.eqb].
  { split; [done|]. left. done. }
  destruct (insert_restore tl1 p e') as (tl2 & Hx & Hin);
    rewrite ?Hh1, ?Hfr, ?Hck, ?Hst; try done.
  - intros q Hq. rewrite Hck, Hst. apply (timed_set_store tl p e' Ht Hp). by rewrite Hh1 in Hq.
  - cbn. by rewrite list_lookup_insert_eq.
  - by rewrite Hsz.
  - rewrite (bind_ok (on_list _) _ _ tt (tl2, h1)) by (unfold on_list; by rewrite Hx).
    split; [done|]. right. split; [done|]. destruct Hin. split; try done.
    + by rewrite in_perm0, Hh1.
    + by rewrite in_free0, Hfr.
    + by rewrite in_clock0, Hck.
    + rewrite in_store0, Hst. cbn. by rewrite list_insert_insert_eq.
Qed.
End timer_list.

(** ** The operations *)

Section operations.
Context {F : Type}.
Context (PR_MillisecondsToInterval : Z → Z) (T L : Z).
Hypothesis HTL : 2 * T + L < 2 ^ 31.
Hypothesis HT : 0 < T.
Hypothesis HL : 0 ≤ L.
(** NSPR: every interval the timers accept has between 1 and [T] ticks. *)
Hypothesis Hticks : ∀ i, 1 ≤ i ≤ TIMER_LIST_MAX_INTERVAL → 0 < PR_MillisecondsToInterval i ≤ T.

Abbreviation entry := (@timer_list_entry F).
Abbreviation tlist := (@timer_list F).
Abbreviation ticks := PR_MillisecondsToInterval.
Abbreviation tstate := (tlist * heap)%type.

Record timers_ok (E : nat → Z) (tl : tlist) : Prop := {
  ok_wf : tl_wf tl;
  ok_timed : tl_timed ticks E T L tl;
  ok_ordered : heap_ordered E (hp tl);
  ok_funcs : ∀ p e, p ∈ hp tl → tl_store tl !! p = Some e →
    is_Some (func e) ∧ 1 ≤ interval e ≤ TIMER_LIST_MAX_INTERVAL
}.

(** The abstract state: when each timer expires, its interval and what it calls. *)
Record alarm_data := mk_alarm {
  al_time : Z;
  al_interval : Z;
  al_func : F
}.

Definition alarm (E : nat → Z) (tl : tlist) (p : nat) : option alarm_data :=
  e ← tl_store tl !! p; f ← func e; Some (mk_alarm (E p) (interval e) f).
Definition alarms (E : nat → Z) (tl : tlist) : gmap nat alarm_data :=
  list_to_map (omap (λ p, a ← alarm E tl p; Some (p, a)) (hp tl)).

Lemma alarms_lookup E (tl : tlist) p :
  alarms E tl !! p = if decide (p ∈ hp tl) then alarm E tl p else None.
Proof using Type.
  unfold alarms. induction (hp tl) as [|q l IH].
  - by rewrite decide_False by apply not_elem_of_nil.
  - cbn [omap list_omap]. destruct (decide (p = q)) as [<-|Hne].
    + rewrite decide_True by left. destruct (alarm E tl p) as [a|] eqn:Ha; cbn.
      * by rewrite lookup_insert_eq.
      * rewrite IH. by case_decide.
    + assert (H : ∀ x : option alarm_data, (if decide (p ∈ l) then x else None) =
                 (if decide (p ∈ q :: l) then x else None)).
      { intros x. destruct (decide (p ∈ l)), (decide (p ∈ q :: l)) as [Hin|Hni]; try done.
        - exfalso. apply Hni. by right.
        - by apply elem_of_cons in Hin as [?|?]. }
      destruct (alarm E tl q); cbn; [rewrite lookup_insert_ne by done|]; rewrite IH; apply H.
Qed.

(** The expiry of one timer changes. *)
Definition set_E (E : nat → Z) (p : nat) (t : Z) : nat → Z := λ q, if decide (q = p) then t else E q.

Lemma set_E_eq E p t : set_E E p t p = t.
Proof. unfold set_E. by rewrite decide_True. Qed.
Lemma set_E_ne E p t q : q ≠ p → set_E E p t q = E q.
Proof. intros. unfold set_E. by rewrite decide_False. Qed.

Lemma timed_set_E E p t (tl : tlist) :
  p ∉ hp tl → tl_timed ticks E T L tl → tl_timed ticks (set_E E p t) T L tl.
Proof.
  intros Hp Ht q Hq. rewrite set_E_ne by (by intros ->). by apply Ht.
Qed.

Lemma ordered_set_E E p t l : p ∉ l → heap_ordered E l → heap_ordered (set_E E p t) l.
Proof.
  intros Hp Ho i Hi a b Ha Hb.
  rewrite !set_E_ne by (intros ->; apply Hp; by eapply list_elem_of_lookup_2). by apply (Ho i).
Qed.

Lemma core_func (e e' : entry) : core e' = core e → func e' = func e ∧ interval e' = interval e.
Proof using Type. destruct e, e'. unfold core, set_heap_pos. cbn. intros. by simplify_eq. Qed.

Lemma core_store_lookup (st st' : list entry) p :
  core <$> st' = core <$> st → core <$> st' !! p = core <$> st !! p.
Proof. intros H. by rewrite <-!list_lookup_fmap, H. Qed.

Lemma alarm_core E (tl tl' : tlist) p :
  core <$> tl_store tl' !! p = core <$> tl_store tl !! p → alarm E tl' p = alarm E tl p.
Proof using Type.
  unfold alarm. intros H. destruct (tl_store tl' !! p) as [e'|], (tl_store tl !! p) as [e|];
    try done. cbn in H. apply (inj Some), core_func in H as [Hf Hi]. cbn. by rewrite Hf, Hi.
Qed.

(** A timer out of the heap enters it with a new time. *)
Lemma inserted_ok E (tl tl' : tlist) p t e :
  timers_ok E tl → p ∉ hp tl → (p < length (tl_store tl))%nat →
  inserted ticks (set_E E p t) T L p e tl tl' →
  is_Some (func e) → 1 ≤ interval e ≤ TIMER_LIST_MAX_INTERVAL →
  timers_ok (set_E E p t) tl' ∧
  alarms (set_E E p t) tl' = match func e with Some f => <[p := mk_alarm t (interval e) f]> (alarms E tl)
                             | None => alarms E tl end.
Proof.
  intros Hok Hp Hpl [Hwf Ht Ho Hpm Hfr Hck Hst] [f Hf] Hi. rewrite Hf.
  assert (Hq : ∀ q, q ≠ p → core <$> tl_store tl' !! q = core <$> tl_store tl !! q).
  { intros q Hne. rewrite (core_store_lookup _ _ q Hst). by rewrite list_lookup_insert_ne. }
  assert (Hpe : core <$> tl_store tl' !! p = Some (core e)).
  { rewrite (core_store_lookup _ _ p Hst). by rewrite list_lookup_insert_eq. }
  split.
  - split; try done. intros q e' Hin He'. rewrite Hpm in Hin.
    destruct (decide (q = p)) as [->|Hne].
    + rewrite He' in Hpe. apply (inj Some), core_func in Hpe as [-> ->]. by rewrite Hf.
    + apply elem_of_cons in Hin as [?|Hin]; [done|].
      specialize (Hq q Hne). rewrite He' in Hq.
      destruct (tl_store tl !! q) as [e0|] eqn:He0; [|done].
      apply (inj Some), core_func in Hq as [-> ->]. by apply (ok_funcs _ _ Hok q).
  - apply map_eq. intros q. rewrite alarms_lookup. destruct (decide (q = p)) as [->|Hne].
    + rewrite lookup_insert_eq, decide_True by (rewrite Hpm; left).
      unfold alarm. destruct (tl_store tl' !! p) as [e'|]; [|done].
      apply (inj Some), core_func in Hpe as [Hf' Hi']. cbn. rewrite Hf', Hi', Hf. cbn.
      by rewrite set_E_eq.
    + rewrite lookup_insert_ne, alarms_lookup by done.
      rewrite (alarm_core _ tl tl' q) by auto. unfold alarm. rewrite set_E_ne by done.
      destruct (decide (q ∈ hp tl')) as [Hin|Hni], (decide (q ∈ hp tl)) as [Hin'|Hni']; try done;
        exfalso; rewrite Hpm, elem_of_cons in *; tauto.
Qed.

Lemma removed_ok E (tl tl' : tlist) p :
  timers_ok E tl → p ∈ hp tl → removed ticks E T L p tl tl' →
  timers_ok E tl' ∧ alarms E tl' = delete p (alarms E tl) ∧ p ∉ hp tl'.
Proof.
  intros Hok Hp [Hwf Ht Hf Hpm Ho].
  assert (Hni : p ∉ hp tl').
  { pose proof (hp_NoDup tl (ok_wf _ _ Hok)) as Hnd. rewrite <-Hpm in Hnd.
    by apply NoDup_cons in Hnd as [? _]. }
  assert (Hq : ∀ q, core <$> tl_store tl' !! q = core <$> tl_store tl !! q).
  { intros q. by apply core_store_lookup, (fr_store _ _ Hf). }
  split_and!; [|apply map_eq; intros q|done].
  - split; try done. intros q e' Hin He'. specialize (Hq q). rewrite He' in Hq.
    destruct (tl_store tl !! q) as [e0|] eqn:He0; [|done].
    apply (inj Some), core_func in Hq as [-> ->]. apply (ok_funcs _ _ Hok q); [|done].
    rewrite <-Hpm. by right.
  - rewrite alarms_lookup. destruct (decide (q = p)) as [->|Hne].
    + by rewrite lookup_delete_eq, decide_False.
    + rewrite lookup_delete_ne, alarms_lookup, (alarm_core _ tl tl' q) by auto.
      destruct (decide (q ∈ hp tl')) as [Hin|Hn], (decide (q ∈ hp tl)) as [Hin'|Hn']; try done;
        exfalso; rewrite <-Hpm, elem_of_cons in *; tauto.
Qed.

(** Writing outside of the heap. *)
Lemma ok_outside E (tl : tlist) st fl :
  timers_ok E tl → (∀ q, q ∈ hp tl → st !! q = tl_store tl !! q) → NoDup fl →
  (∀ q, q ∈ fl → (q < length st)%nat ∧ q ∉ hp tl) →
  timers_ok E (set_store st (set_free_list fl tl)) ∧
  alarms E (set_store st (set_free_list fl tl)) = alarms E tl.
Proof.
  intros Hok Hst Hnd Hfl. pose proof (ok_wf _ _ Hok) as Hwf.
  split; [split; [|..]; cbn|].
  - split; cbn; try apply Hwf; [|done|done].
    intros i q Hq. rewrite Hst by (by eapply list_elem_of_lookup_2). by apply (wf_pos _ Hwf).
  - intros q Hq. destruct (ok_timed _ _ Hok q Hq) as (e & He & Hte). exists e. cbn.
    by rewrite Hst.
  - apply Hok.
  - intros q e Hq. cbn. rewrite Hst by done. by apply (ok_funcs _ _ Hok).
  - apply map_eq. intros q. rewrite !alarms_lookup.
    change (hp (set_store _ _)) with (hp tl).
    destruct (decide (q ∈ hp tl)); [|done]. apply alarm_core. cbn. by rewrite Hst.
Qed.

(** The entry [timer_list_add] works on: out of the heap and of the free list. *)
Lemma take_entry_spec E (tl : tlist) h new :
  timers_ok E tl →
  match timer_list_take_entry new (tl, h) with
  | (Ok None, (tl', h')) => tl' = tl ∧ h' `suffix_of` h ∧ None ∈ h
  | (Ok (Some p), (tl', h')) =>
      h' `suffix_of` h ∧ timers_ok E tl' ∧ alarms E tl' = alarms E tl ∧ hp tl' = hp tl ∧
      p ∉ hp tl ∧ p ∉ free_list tl' ∧ tl_store tl' !! p = Some new ∧
      tl_clock tl' = tl_clock tl ∧ (∀ q e, tl_store tl !! q = Some e → q ≠ p → tl_store tl' !! q = Some e)
  | (Err _, _) => False
  end.
Proof.
  intros Hok. pose proof (ok_wf _ _ Hok) as Hwf. unfold timer_list_take_entry.
  destruct (free_list tl) as [|p l] eqn:Hf.
  - destruct (malloc h) as [[j|] h'] eqn:Em.
    2: { split_and!; [done|by eapply malloc_suffix|by eapply malloc_None]. }
    assert (Hst : ∀ q e, tl_store tl !! q = Some e → (tl_store tl ++ [new]) !! q = Some e).
    { intros. by apply lookup_app_l_Some. }
    destruct (ok_outside E tl (tl_store tl ++ [new]) (free_list tl)) as [Hok' Hal]; [done| | | |].
    + intros q Hq. destruct (hp_store _ _ Hwf Hq) as [e He]. by rewrite He, (Hst _ _ He).
    + apply Hwf.
    + intros q. rewrite Hf. by intros ?%not_elem_of_nil.
    + split_and!; try done; cbn.
      * by eapply malloc_suffix.
      * intros Hin. destruct (hp_store _ _ Hwf Hin) as [e He]. apply lookup_lt_Some in He. lia.
      * rewrite Hf. apply not_elem_of_nil.
      * by rewrite lookup_app_r, Nat.sub_diag by lia.
      * intros. by apply Hst.
  - pose proof (wf_free _ Hwf) as Hnd. pose proof (wf_free_valid _ Hwf) as Hv. rewrite Hf in *.
    destruct (Hv p) as [Hpl Hni]; [left|]. apply NoDup_cons in Hnd as [Hpf Hnd].
    destruct (ok_outside E tl (<[p := new]> (tl_store tl)) l) as [Hok' Hal]; [done| |done| |].
    + intros q Hq. rewrite list_lookup_insert_ne; [done|]. by intros ->.
    + intros q Hq. rewrite length_insert. apply Hv. by right.
    + split_and!; try done; cbn.
      * by apply list_lookup_insert_eq.
      * intros. by rewrite list_lookup_insert_ne.
Qed.

(** [timer_list_insert_into_list] at the level of the alarms: [p] is out of the heap, its
    epoch shows [start]. *)
Lemma insert_ok E (tl : tlist) h p e f start :
  timers_ok E tl → p ∉ hp tl → p ∉ free_list tl → tl_store tl !! p = Some e →
  is_active e = true → func e = Some f → 1 ≤ interval e ≤ TIMER_LIST_MAX_INTERVAL →
  epoch e = u32 start → start ≤ tl_clock tl ≤ start + L →
  let t := start + ticks (interval e) in
  match timer_list_insert_into_list ticks p (tl, h) with
  | (Ok r, (tl', h')) =>
      h' `suffix_of` h ∧
      (r = -1 ∧ (∃ e', tl' = set_store (<[p := e']> (tl_store tl)) tl) ∧ None ∈ h ∧
         size tl = allocated tl ∨
       r = 0 ∧ timers_ok (set_E E p t) tl' ∧
         alarms (set_E E p t) tl' = <[p := mk_alarm t (interval e) f]> (alarms E tl) ∧
         hp tl' ≡ₚ p :: hp tl ∧ tl_clock tl' = tl_clock tl)
  | (Err _, _) => False
  end.
Proof.
  intros Hok Hp Hpf He Ha Hf Hi Hep Hst t. pose proof (Hticks _ Hi) as Htk.
  assert (Ht' : timed ticks T L (tl_clock tl) (set_E E p t p)
    (set_expire_time (u32 (epoch e + ticks (interval e))) e)).
  { rewrite set_E_eq. subst t. rewrite Hep. destruct e as [ep i x fn a pos]; cbn in *.
    unfold timed. cbn. split_and!; try lia.
    - unfold u32. by rewrite Zplus_mod_idemp_l.
    - by replace (start + ticks i - ticks i) with start by lia. }
  pose proof (insert_spec ticks (set_E E p t) T L HTL HT HL tl h p e (ok_wf _ _ Hok)
    (timed_set_E E p t tl Hp (ok_timed _ _ Hok)) (ordered_set_E E p t _ Hp (ok_ordered _ _ Hok))
    Hp Hpf He Ha Ht') as Hs.
  destruct (timer_list_insert_into_list ticks p (tl, h)) as [[r|] [tl' h']]; [|done].
  destruct Hs as [Hsuf Hs]. split; [done|]. destruct Hs as [(-> & -> & Hn & Hsz)|[-> Hin]].
  - left. eauto.
  - right. apply lookup_lt_Some in He.
    destruct (inserted_ok E tl tl' p t _ Hok Hp He Hin) as [Hok' Hal];
      [destruct e; cbn in *; by rewrite Hf|by destruct e|].
    split_and!; try done; [|apply Hin..].
    rewrite Hal. destruct e; cbn in *; by rewrite Hf.
Qed.

Lemma timer_list_add_ok E (tl : tlist) h i fn :
  timers_ok E tl →
  match timer_list_add ticks i fn (tl, h) with
  | (Ok (Some p), (tl', h')) =>
      ∃ f, fn = Some f ∧ let t := tl_clock tl + ticks i in
      p ∉ hp tl ∧ timers_ok (set_E E p t) tl' ∧ tl_clock tl' = tl_clock tl ∧
      alarms (set_E E p t) tl' = <[p := mk_alarm t i f]> (alarms E tl)
  | (Ok None, (tl', h')) =>
      timers_ok E tl' ∧ alarms E tl' = alarms E tl ∧
      (fn = None ∨ ¬ (1 ≤ i ≤ TIMER_LIST_MAX_INTERVAL) ∨ None ∈ h)
  | (Err _, _) => False
  end.
Proof.
  intros Hok. unfold timer_list_add. destruct fn as [f|]; [|by split_and!; [..|left]].
  destruct (_ || _) eqn:Hi.
  { split_and!; [done|done|right; left]. apply orb_prop in Hi as [?|?]; zbool; lia. }
  zbool. rewrite (bind_ok get _ _ _ _ eq_refl). cbv zeta iota beta.
  set (new := mk_timer _ _ _ _ _ _).
  pose proof (take_entry_spec E tl h new Hok) as Htk.
  destruct (timer_list_take_entry new (tl, h)) as [[[p|]|] [tl1 h1]] eqn:Et; [..|done];
    rewrite (bind_ok _ _ _ _ _ Et).
  2: { destruct Htk as (-> & _ & Hn). split_and!; [done|done|by right; right]. }
  destruct Htk as (Hsuf & Hok1 & Hal1 & Hh1 & Hp & Hpf & Hst1 & Hck1 & _).
  pose proof (insert_ok E tl1 h1 p new f (tl_clock tl1) Hok1) as Hin.
  rewrite Hh1, Hal1, Hck1 in Hin. specialize (Hin Hp Hpf Hst1 eq_refl eq_refl ltac:(done) eq_refl ltac:(lia)).
  cbn zeta in Hin.
  destruct (timer_list_insert_into_list ticks p (tl1, h1)) as [[r|] [tl2 h2]] eqn:Ei; [|done].
  rewrite (bind_ok _ _ _ _ _ Ei).
  destruct Hin as [Hsuf2 [(-> & [e' ->] & Hn & _)|(-> & Hok2 & Hal2 & _ & Hck2)]]; cbn [negb Z.eqb].
  - destruct (ok_outside E tl1 (<[p := e']> (tl_store tl1)) (p :: free_list tl1)) as [Hok2 Hal2];
      [done| | | |].
    + intros q Hq. rewrite list_lookup_insert_ne; [done|]. intros ->. by rewrite Hh1 in Hq.
    + apply NoDup_cons. split; [done|apply Hok1].
    + intros q Hq. rewrite length_insert. apply elem_of_cons in Hq as [->|Hq].
      * apply lookup_lt_Some in Hst1. by rewrite Hh1.
      * by apply (wf_free_valid _ (ok_wf _ _ Hok1)).
    + split_and!; [done|by rewrite <-Hal1|]. right. right. by eapply suffix_in.
  - exists f. by split_and!.
Qed.

(** Deleting a timer of the heap; a timer that is not active is left alone. *)
Lemma timer_list_delete_ok E (tl : tlist) p :
  timers_ok E tl → p ∈ hp tl →
  ∃ tl', timer_list_entry_delete p tl = (Ok tt, tl') ∧ timers_ok E tl' ∧
    alarms E tl' = delete p (alarms E tl) ∧ p :: hp tl' ≡ₚ hp tl ∧ tl_clock tl' = tl_clock tl.
Proof.
  intros Hok Hp. destruct (heap_delete_spec ticks E T L HTL HT HL p tl) as (tl1 & Hd & Hr);
    try done; try apply Hok.
  destruct (removed_ok E tl tl1 p Hok Hp Hr) as (Hok1 & Hal1 & Hni).
  pose proof Hp as [i Hi]%list_elem_of_lookup.
  destruct (wf_pos _ (ok_wf _ _ Hok) _ _ Hi) as (e & He & _ & Ha).
  destruct (frame_lookup _ _ p e (rm_frame _ _ _ _ _ _ _ Hr) He) as (e1 & He1 & _).
  apply lookup_lt_Some in He1 as Hl1.
  unfold timer_list_entry_delete. rewrite (bind_ok _ _ _ _ _ (deref_ok _ _ _ He)), Ha.
  rewrite (bind_ok _ _ _ _ _ Hd), (bind_ok (modify _) _ _ _ _ eq_refl).
  rewrite (assign_ok _ _ _ _ (He1 : tl_store (set_free_list _ tl1) !! p = Some e1)).
  destruct (ok_outside E tl1 (<[p := set_is_active false e1]> (tl_store tl1)) (p :: free_list tl1))
    as [Hok2 Hal2]; [done| | | |].
  - intros q Hq. rewrite list_lookup_insert_ne; [done|]. by intros ->.
  - apply NoDup_cons. split; [|apply Hok1]. rewrite (fr_free _ _ (rm_frame _ _ _ _ _ _ _ Hr)).
    cbn. intros Hf. by destruct (wf_free_valid _ (ok_wf _ _ Hok) p Hf).
  - intros q Hq. rewrite length_insert. apply elem_of_cons in Hq as [->|Hq]; [done|].
    by apply (wf_free_valid _ (ok_wf _ _ Hok1)).
  - eexists. split_and!; [done|exact Hok2|rewrite <-Hal1; exact Hal2|by apply Hr|].
    cbn. by rewrite (fr_clock _ _ (rm_frame _ _ _ _ _ _ _ Hr)).
Qed.

(** A timer that was stopped is not active. *)
Lemma timer_list_delete_stops E (tl : tlist) p :
  timers_ok E tl → p ∈ hp tl →
  ∃ tl' e, timer_list_entry_delete p tl = (Ok tt, tl') ∧ tl_store tl' !! p = Some e ∧ is_active e = false.
Proof.
  intros Hok Hp. destruct (heap_delete_spec ticks E T L HTL HT HL p tl) as (tl1 & Hd & Hr);
    try done; try apply Hok.
  pose proof Hp as [i Hi]%list_elem_of_lookup.
  destruct (wf_pos _ (ok_wf _ _ Hok) _ _ Hi) as (e & He & _ & Ha).
  destruct (frame_lookup _ _ p e (rm_frame _ _ _ _ _ _ _ Hr) He) as (e1 & He1 & _).
  unfold timer_list_entry_delete. rewrite (bind_ok _ _ _ _ _ (deref_ok _ _ _ He)), Ha.
  rewrite (bind_ok _ _ _ _ _ Hd), (bind_ok (modify _) _ _ _ _ eq_refl).
  rewrite (assign_ok _ _ _ _ (He1 : tl_store (set_free_list _ tl1) !! p = Some e1)).
  eexists _, _. split; [reflexivity|]. cbn.
  split; [apply list_lookup_insert_eq; by apply lookup_lt_Some in He1|done].
Qed.

(** Out of the heap and back with a new epoch and interval: there is always room. *)
Lemma requeue_ok E (tl : tlist) h p e fn start i (g : entry → entry) :
  timers_ok E tl → p ∈ hp tl → tl_store tl !! p = Some e → func e = Some fn →
  (∀ e', core e' = core e → is_active (g e') = is_active e' ∧ func (g e') = func e' ∧
     interval (g e') = i ∧ epoch (g e') = u32 start) →
  1 ≤ i ≤ TIMER_LIST_MAX_INTERVAL → start ≤ tl_clock tl ≤ start + L →
  let t := start + ticks i in
  ∃ tl' h', timer_list_requeue ticks p g (tl, h) = (Ok tt, (tl', h')) ∧
    timers_ok (set_E E p t) tl' ∧ alarms (set_E E p t) tl' = <[p := mk_alarm t i fn]> (alarms E tl) ∧
    hp tl' ≡ₚ hp tl ∧ tl_clock tl' = tl_clock tl.
Proof.
  intros Hok Hp He Hfn Hg Hi Hst t.
  destruct (heap_delete_spec ticks E T L HTL HT HL p tl) as (tl1 & Hd & Hr);
    try done; try apply Hok.
  destruct (removed_ok E tl tl1 p Hok Hp Hr) as (Hok1 & Hal1 & Hni).
  destruct Hr as [_ _ Hf Hpm _].
  destruct (frame_lookup _ _ p e Hf He) as (e1 & He1 & Hc1).
  apply lookup_lt_Some in He1 as Hl1. pose proof Hp as [k Hk]%list_elem_of_lookup.
  destruct (wf_pos _ (ok_wf _ _ Hok) _ _ Hk) as (e0 & He0 & _ & Ha).
  assert (e0 = e) as -> by congruence.
  assert (Hpf : p ∉ free_list tl1).
  { rewrite (fr_free _ _ Hf). cbn. intros Hfl. by destruct (wf_free_valid _ (ok_wf _ _ Hok) p Hfl). }
  destruct (ok_outside E tl1 (<[p := g e1]> (tl_store tl1)) (free_list tl1))
    as [Hok2 Hal2]; [done| | | |].
  { intros q Hq. rewrite list_lookup_insert_ne; [done|]. by intros ->. }
  { apply Hok1. }
  { intros q Hq. rewrite length_insert. by apply (wf_free_valid _ (ok_wf _ _ Hok1)). }
  destruct (Hg e1 Hc1) as (Hga & Hgf & Hgi & Hge).
  assert (Ha1 : is_active e1 = true ∧ func e1 = Some fn).
  { rewrite <-Ha, <-Hfn. destruct e1, e. unfold core, set_heap_pos in Hc1. cbn in *.
    by simplify_eq. }
  set (tl2 := set_store (<[p := g e1]> (tl_store tl1)) tl1).
  pose proof (fr_clock _ _ Hf) as Hck1. cbn in Hck1.
  pose proof (insert_ok E tl2 h p (g e1) fn start Hok2 Hni Hpf
    (list_lookup_insert_eq _ _ _ Hl1) ltac:(rewrite Hga; apply Ha1)
    ltac:(rewrite Hgf; apply Ha1) ltac:(by rewrite Hgi) Hge) as Hin.
  cbn in Hin. rewrite Hck1, Hgi in Hin. specialize (Hin Hst).
  unfold timer_list_requeue. rewrite (bind_ok (on_list _) _ _ tt (tl2, h)).
  2: { unfold on_list. by rewrite (bind_ok _ _ _ _ _ Hd), (assign_ok _ _ _ _ He1). }
  destruct (timer_list_insert_into_list ticks p (tl2, h)) as [[r|] [tl3 h3]] eqn:Ei; [|done].
  rewrite (bind_ok _ _ _ _ _ Ei). exists tl3, h3.
  destruct Hin as [_ [(_ & _ & _ & Hsz)|(_ & Hok3 & Hal3 & Hpm3 & Hck3)]].
  - exfalso. rewrite (fr_size _ _ Hf), (fr_allocated _ _ Hf) in Hsz. cbn in Hsz.
    pose proof (wf_size _ (ok_wf _ _ Hok)). pose proof (hp_length _ (ok_wf _ _ Hok)).
    apply lookup_lt_Some in Hk. lia.
  - split_and!; try done.
    + etrans; [exact Hal3|]. etrans; [exact (f_equal _ (eq_trans Hal2 Hal1))|].
      by rewrite insert_delete_eq.
    + etrans; [exact Hpm3|exact Hpm].
Qed.

Lemma ok_entry E (tl : tlist) p : timers_ok E tl → p ∈ hp tl →
  ∃ e f, tl_store tl !! p = Some e ∧ func e = Some f ∧ is_active e = true ∧
    1 ≤ interval e ≤ TIMER_LIST_MAX_INTERVAL ∧ timed ticks T L (tl_clock tl) (E p) e ∧
    alarms E tl !! p = Some (mk_alarm (E p) (interval e) f).
Proof.
  intros Hok Hp. destruct (ok_timed _ _ Hok p Hp) as (e & He & Ht).
  destruct (ok_funcs _ _ Hok p e Hp He) as [[f Hf] Hi].
  pose proof Hp as [k Hk]%list_elem_of_lookup.
  destruct (wf_pos _ (ok_wf _ _ Hok) _ _ Hk) as (e0 & He0 & _ & Ha). simplify_eq.
  exists e, f. split_and!; try done; try lia.
  rewrite alarms_lookup, decide_True by done. unfold alarm. rewrite He. cbn. by rewrite Hf.
Qed.

Lemma alarms_Some E (tl : tlist) p a : alarms E tl !! p = Some a → p ∈ hp tl ∧ al_time a = E p.
Proof using Type.
  rewrite alarms_lookup. case_decide; [|done]. intros Ha. split; [done|]. unfold alarm in Ha.
  destruct (tl_store tl !! p) as [e|]; [|done]. cbn in Ha. destruct (func e); [|done].
  cbn in Ha. by simplify_eq.
Qed.

Lemma core_set_epoch v (e e' : entry) : core e' = core e →
  is_active (set_epoch v e') = is_active e' ∧ func (set_epoch v e') = func e' ∧
  interval (set_epoch v e') = interval e ∧ epoch (set_epoch v e') = v.
Proof using Type. intros [_ ?]%core_func. by destruct e'. Qed.

(** C24: adding a timer; failing leaves the alarms as they were. *)
Theorem timer_list_add_refines E (tl : tlist) h i fn :
  timers_ok E tl →
  match timer_list_add ticks i fn (tl, h) with
  | (Ok (Some p), (tl', h')) =>
      ∃ f, fn = Some f ∧ let t := tl_clock tl + ticks i in
      p ∉ hp tl ∧ timers_ok (set_E E p t) tl' ∧ tl_clock tl' = tl_clock tl ∧
      alarms (set_E E p t) tl' = <[p := mk_alarm t i f]> (alarms E tl)
  | (Ok None, (tl', h')) =>
      timers_ok E tl' ∧ alarms E tl' = alarms E tl ∧
      (fn = None ∨ ¬ (1 ≤ i ≤ TIMER_LIST_MAX_INTERVAL) ∨ None ∈ h)
  | (Err _, _) => False
  end.
Proof. apply timer_list_add_ok. Qed.

Lemma timer_list_reschedule_ok E (tl : tlist) h p e f :
  timers_ok E tl → p ∈ hp tl → tl_store tl !! p = Some e → func e = Some f →
  let t := tl_clock tl + ticks (interval e) in
  ∃ tl' h', timer_list_entry_reschedule ticks p (tl, h) = (Ok tt, (tl', h')) ∧
    timers_ok (set_E E p t) tl' ∧
    alarms (set_E E p t) tl' = <[p := mk_alarm t (interval e) f]> (alarms E tl).
Proof.
  intros Hok Hp He Hf t. destruct (ok_entry E tl p Hok Hp) as (e' & f' & He' & _ & Ha & Hi & _).
  assert (e' = e) as -> by congruence.
  unfold timer_list_entry_reschedule. rewrite (bind_ok get _ _ _ _ eq_refl). cbv beta iota.
  rewrite (bind_ok (on_list _) _ _ e (tl, h)) by (unfold on_list; by rewrite (deref_ok _ _ _ He)).
  rewrite Ha. destruct (requeue_ok E tl h p e f (tl_clock tl) (interval e)
    (set_epoch (PR_IntervalNow tl)) Hok Hp He Hf) as (tl' & h' & ? & ? & ? & _);
    [by apply core_set_epoch|done|lia|]. eauto.
Qed.

Lemma timer_list_set_interval_ok E (tl : tlist) h p e f j :
  timers_ok E tl → p ∈ hp tl → tl_store tl !! p = Some e → func e = Some f →
  let t := tl_clock tl + ticks j in
  if bool_decide (1 ≤ j ≤ TIMER_LIST_MAX_INTERVAL)
  then ∃ tl' h', timer_list_entry_set_interval ticks p j (tl, h) = (Ok 0, (tl', h')) ∧
         timers_ok (set_E E p t) tl' ∧
         alarms (set_E E p t) tl' = <[p := mk_alarm t j f]> (alarms E tl)
  else timer_list_entry_set_interval ticks p j (tl, h) = (Ok (-1), (tl, h)).
Proof.
  intros Hok Hp He Hf t. destruct (ok_entry E tl p Hok Hp) as (e' & f' & He' & _ & Ha & _).
  assert (e' = e) as -> by congruence.
  unfold timer_list_entry_set_interval. case_bool_decide as Hj.
  - rewrite (proj2 (Z.ltb_ge j 1)), (proj2 (Z.ltb_ge TIMER_LIST_MAX_INTERVAL j)) by lia.
    cbn [orb]. rewrite (bind_ok get _ _ _ _ eq_refl). cbv beta iota.
    rewrite (bind_ok (on_list _) _ _ e (tl, h)) by (unfold on_list; by rewrite (deref_ok _ _ _ He)).
    rewrite Ha. cbn [negb].
    destruct (requeue_ok E tl h p e f (tl_clock tl) j
      (λ e, set_epoch (PR_IntervalNow tl) (set_interval j e)) Hok Hp He Hf)
      as (tl' & h' & Hq & ? & ? & _); [|done|lia|].
    + intros e' _. by destruct e'.
    + rewrite (bind_ok _ _ _ _ _ Hq). eauto.
  - destruct (_ || _) eqn:Hb; [done|]. zbool. lia.
Qed.

(** C28: deleting a timer, starting it again, and giving it another interval. *)
Theorem timer_list_change_refines E (tl : tlist) h p :
  timers_ok E tl → p ∈ hp tl → ∃ i f, alarms E tl !! p = Some (mk_alarm (E p) i f) ∧
  (∃ tl', timer_list_entry_delete p tl = (Ok tt, tl') ∧ timers_ok E tl' ∧
     alarms E tl' = delete p (alarms E tl)) ∧
  (let t := tl_clock tl + ticks i in
   ∃ tl' h', timer_list_entry_reschedule ticks p (tl, h) = (Ok tt, (tl', h')) ∧
     timers_ok (set_E E p t) tl' ∧
     alarms (set_E E p t) tl' = <[p := mk_alarm t i f]> (alarms E tl)) ∧
  ∀ j, let t := tl_clock tl + ticks j in
    if bool_decide (1 ≤ j ≤ TIMER_LIST_MAX_INTERVAL)
    then ∃ tl' h', timer_list_entry_set_interval ticks p j (tl, h) = (Ok 0, (tl', h')) ∧
           timers_ok (set_E E p t) tl' ∧
           alarms (set_E E p t) tl' = <[p := mk_alarm t j f]> (alarms E tl)
    else timer_list_entry_set_interval ticks p j (tl, h) = (Ok (-1), (tl, h)).
Proof.
  intros Hok Hp. destruct (ok_entry E tl p Hok Hp) as (e & f & He & Hf & Ha & Hi & _ & Hal).
  exists (interval e), f. split; [done|]. split_and!.
  - destruct (timer_list_delete_ok E tl p Hok Hp) as (tl' & ? & ? & ? & _). eauto.
  - by apply (timer_list_reschedule_ok E tl h p e f).
  - intros j. by apply (timer_list_set_interval_ok E tl h p e f).
Qed.

(** The time to the first expiry: what the poll loop may sleep. *)
Theorem timer_list_time_to_expire_min no_timeout E (tl : tlist) :
  timers_ok E tl →
  match timer_list_time_to_expire no_timeout tl with
  | (Ok t, tl') => tl' = tl ∧
      (alarms E tl = ∅ ∧ t = no_timeout ∨
       ∃ p a, alarms E tl !! p = Some a ∧ t = Z.max 0 (al_time a - tl_clock tl) ∧
              ∀ q b, alarms E tl !! q = Some b → al_time a ≤ al_time b)
  | (Err _, _) => False
  end.
Proof.
  intros Hok. pose proof (hp_length tl (ok_wf _ _ Hok)) as Hlen.
  unfold timer_list_time_to_expire. rewrite (bind_ok get _ _ _ _ eq_refl).
  destruct (size tl =? 0)%nat eqn:Hs; [apply Nat.eqb_eq in Hs|apply Nat.eqb_neq in Hs].
  - split; [done|]. left. split; [|done]. apply map_eq. intros q.
    rewrite alarms_lookup, lookup_empty. rewrite Hs in Hlen.
    apply nil_length_inv in Hlen as ->. by rewrite decide_False by apply not_elem_of_nil.
  - destruct (lookup_lt_is_Some_2 (hp tl) 0) as [p Hp]; [lia|].
    rewrite (bind_ok _ _ _ _ _ (entry_get_ok _ _ _ Hp)).
    apply list_elem_of_lookup_2 in Hp as Hin.
    destruct (ok_entry E tl p Hok Hin) as (e & f & He & Hf & Ha & Hi & Ht & Hal).
    rewrite (bind_ok _ _ _ _ _ (deref_ok _ _ _ He)). split; [done|]. right.
    exists p. eexists. split_and!; [done| |].
    + destruct Ht as (Hx & _ & ? & ? & ?). unfold PR_IntervalNow.
      apply (time_to_expire_max e (E p)); [done|]. lia.
    + intros q b Hq. apply alarms_Some in Hq as [Hq ->]. cbn.
      by apply (heap_root_min E (hp tl) p q (ok_ordered _ _ Hok)).
Qed.

(** ** Expiration

    A callback may use the timers as well as the rest of the program: it may stop any timer, its
    own one too, and start new ones. *)
Section expire.
Context {W : Type} (call : F → M (tstate * W) Z).

(** What a callback may do to the timers: it keeps the list in order and makes no timer due, and
    what it stops is not active. The time stands still meanwhile. *)
Definition well_behaved : Prop := ∀ f E (tl : tlist) h w,
  timers_ok E tl →
  ∃ r E' tl' h' w', call f (tl, h, w) = (Ok r, (tl', h', w')) ∧ timers_ok E' tl' ∧
    tl_clock tl' = tl_clock tl ∧
    (∀ p a, alarms E' tl' !! p = Some a → al_time a ≤ tl_clock tl → alarms E tl !! p = Some a) ∧
    (∀ p, p ∈ hp tl → p ∉ hp tl' → ∃ e, tl_store tl' !! p = Some e ∧ is_active e = false).

(** A callback as a change of the alarms and of the rest of the program. *)
Definition calls (f : F) (s : gmap nat alarm_data * W) (r : Z) (s' : gmap nat alarm_data * W) : Prop :=
  ∃ E tl h E' tl' h', timers_ok E tl ∧ timers_ok E' tl' ∧ alarms E tl = s.1 ∧ alarms E' tl' = s'.1 ∧
    call f (tl, h, s.2) = (Ok r, (tl', h', s'.2)).

(** A timer that wants to go on starts again, unless it was stopped meanwhile. *)
Definition after_callback (clock : Z) (p : nat) (r : Z) (A : gmap nat alarm_data) : gmap nat alarm_data :=
  if r =? 0 then delete p A
  else alter (λ a, mk_alarm (clock + ticks (al_interval a)) (al_interval a) (al_func a)) p A.

(** The specification: as long as a timer is due the callback of an earliest one runs; [ps] are
    the timers, in this order. *)
Inductive expirations (clock : Z) : gmap nat alarm_data * W → list nat → gmap nat alarm_data * W → Prop :=
| expirations_done A w :
    (∀ p a, A !! p = Some a → clock < al_time a) → expirations clock (A, w) [] (A, w)
| expirations_call A w p a r A' w' ps s :
    A !! p = Some a → al_time a ≤ clock → (∀ q b, A !! q = Some b → al_time a ≤ al_time b) →
    calls (al_func a) (A, w) r (A', w') → expirations clock (after_callback clock p r A', w') ps s →
    expirations clock (A, w) (p :: ps) s.

(** The timers that are due. *)
Definition due (clock : Z) (A : gmap nat alarm_data) : gset nat :=
  dom (filter (λ pa, al_time pa.2 ≤ clock) A).
Lemma elem_of_due clock A p : p ∈ due clock A ↔ ∃ a, A !! p = Some a ∧ al_time a ≤ clock.
Proof using Type.
  unfold due. rewrite elem_of_dom. split.
  - intros [a Ha]. apply map_lookup_filter_Some in Ha. eauto.
  - intros (a & Ha & Hle). exists a. by apply map_lookup_filter_Some.
Qed.

Lemma due_size E (tl : tlist) : timers_ok E tl → (base.size (due (tl_clock tl) (alarms E tl)) ≤ size tl)%nat.
Proof using Type.
  intros Hok. rewrite <-(hp_length tl (ok_wf _ _ Hok)).
  assert (Hs : due (tl_clock tl) (alarms E tl) ⊆ list_to_set (hp tl)).
  { intros p (a & Ha & _)%elem_of_due. apply elem_of_list_to_set. by apply alarms_Some in Ha as [? _]. }
  etrans; [by apply subseteq_size|]. rewrite size_list_to_set; [done|]. apply hp_NoDup, Hok.
Qed.

(** The alarms are the timers of the heap. *)
Lemma alarm_of E (tl : tlist) p : timers_ok E tl → p ∈ hp tl → ∃ a, alarms E tl !! p = Some a ∧ al_time a = E p.
Proof using Type*.
  intros Hok Hp. destruct (ok_entry E tl p Hok Hp) as (e & f & _ & _ & _ & _ & _ & Ha). eauto.
Qed.
Lemma no_alarm E (tl : tlist) p : p ∉ hp tl → alarms E tl !! p = None.
Proof using Type. intros Hp. by rewrite alarms_lookup, decide_False. Qed.

(** What is done with the entry of a callback that has returned. *)
Definition handle (p : nat) (r now : Z) : M (tstate * W) unit :=
  if r =? 0 then on_timers (on_list (timer_list_entry_delete p))
  else e' ← on_timers (on_list (deref p));
       if (is_active e' : bool) then on_timers (timer_list_requeue ticks p (set_epoch now)) else mret tt.

Lemma handle_ok E (tl : tlist) h (w : W) p r :
  timers_ok E tl → (p ∉ hp tl → ∃ e, tl_store tl !! p = Some e ∧ is_active e = false) →
  ∃ E' tl' h', handle p r (PR_IntervalNow tl) (tl, h, w) = (Ok tt, (tl', h', w)) ∧ timers_ok E' tl' ∧
    tl_clock tl' = tl_clock tl ∧ alarms E' tl' = after_callback (tl_clock tl) p r (alarms E tl).
Proof using Type*.
  intros Hok Hout. unfold handle, after_callback. destruct (decide (p ∈ hp tl)) as [Hp|Hp].
  - destruct (ok_entry E tl p Hok Hp) as (e & f & He & Hf & Ha & Hi & Htm & Hal).
    destruct (r =? 0).
    + destruct (timer_list_delete_ok E tl p Hok Hp) as (tl' & Hd & Hok' & Hal' & _ & Hck).
      exists E, tl', h. split; [unfold on_timers, on_list; by rewrite Hd|done].
    + destruct (requeue_ok E tl h p e f (tl_clock tl) (interval e)
        (set_epoch (PR_IntervalNow tl)) Hok Hp He Hf) as (tl' & h' & Hq & Hok' & Hal' & _ & Hck);
        [by apply core_set_epoch|done|lia|].
      eexists _, tl', h'. split; [|split; [exact Hok'|]].
      * rewrite (bind_ok _ _ (tl, h, w) e (tl, h, w)), Ha.
        -- unfold on_timers. by rewrite Hq.
        -- unfold on_timers, on_list. by rewrite (deref_ok _ _ _ He).
      * split; [done|]. rewrite Hal'. apply map_eq. intros q.
        destruct (decide (q = p)) as [->|Hne];
          [by rewrite lookup_insert_eq, lookup_alter_eq, Hal|by rewrite lookup_insert_ne, lookup_alter_ne].
  - destruct (Hout Hp) as (e & He & Ha). pose proof (no_alarm E tl p Hp) as Hno.
    exists E, tl, h. split; [|split; [done|split; [done|]]].
    + destruct (r =? 0).
      * unfold on_timers, on_list, timer_list_entry_delete.
        by rewrite (bind_ok _ _ _ _ _ (deref_ok _ _ _ He)), Ha.
      * rewrite (bind_ok _ _ (tl, h, w) e (tl, h, w)), Ha; [done|].
        unfold on_timers, on_list. by rewrite (deref_ok _ _ _ He).
    + destruct (r =? 0); [by rewrite delete_id|].
      apply map_eq. intros q. destruct (decide (q = p)) as [->|Hne];
        [by rewrite lookup_alter_eq, Hno|by rewrite lookup_alter_ne].
Qed.

(** The timer at the top of the heap is an earliest one. *)
Lemma earliest E (tl : tlist) p a :
  timers_ok E tl → hp tl !! 0%nat = Some p → alarms E tl !! p = Some a →
  al_time a = E p ∧ ∀ q b, alarms E tl !! q = Some b → al_time a ≤ al_time b.
Proof using Type.
  intros Hok Hp Ha. apply alarms_Some in Ha as [_ Ht]. split; [done|].
  intros q b [Hq Hb]%alarms_Some. rewrite Ht, Hb.
  by apply (heap_root_min E (hp tl) p q (ok_ordered _ _ Hok)).
Qed.

(** The loop looks at the top of the heap. *)
Lemma expire_top fuel E (tl : tlist) h w p e :
  timers_ok E tl → hp tl !! 0%nat = Some p → tl_store tl !! p = Some e →
  timer_list_expire_loop ticks call (S fuel) (PR_IntervalNow tl) (tl, h, w) =
  if bool_decide (E p ≤ tl_clock tl) then
    match func e with
    | None => (Err NULL_DEREF, (tl, h, w))
    | Some f => (res ← call f; handle p res (PR_IntervalNow tl);;
                 timer_list_expire_loop ticks call fuel (PR_IntervalNow tl)) (tl, h, w)
    end
  else (Ok tt, (tl, h, w)).
Proof using Type*.
  intros Hok Hp0 He. apply list_elem_of_lookup_2 in Hp0 as Hp.
  destruct (ok_entry E tl p Hok Hp) as (e0 & f0 & He0 & _ & _ & _ & (Hx & _ & ? & ? & ?) & _). simplify_eq.
  assert (Hsz : (size tl =? 0)%nat = false).
  { apply Nat.eqb_neq. apply lookup_lt_Some in Hp0. rewrite hp_length in Hp0 by apply Hok. lia. }
  cbn [timer_list_expire_loop]. rewrite (bind_ok get _ _ _ _ eq_refl). cbv beta iota. rewrite Hsz.
  rewrite (bind_ok _ _ (tl, h, w) p (tl, h, w)).
  2: { unfold on_timers, on_list. by rewrite (entry_get_ok _ _ _ Hp0). }
  rewrite (bind_ok _ _ (tl, h, w) e (tl, h, w)).
  2: { unfold on_timers, on_list. by rewrite (deref_ok _ _ _ He). }
  unfold PR_IntervalNow. rewrite (time_to_expire_max e (E p)) by (done || lia).
  destruct (bool_decide_reflect (E p ≤ tl_clock tl)).
  - replace (Z.max _ _ =? 0) with true by (symmetry; apply Z.eqb_eq; lia). by destruct (func e).
  - by replace (Z.max _ _ =? 0) with false by (symmetry; apply Z.eqb_neq; lia).
Qed.

(** A callback and what is done with its timer leave fewer timers due. *)
Lemma due_after clock p r a (A A' : gmap nat alarm_data) :
  A !! p = Some a → al_time a ≤ clock →
  (∀ q b, A' !! q = Some b → 1 ≤ al_interval b ≤ TIMER_LIST_MAX_INTERVAL) →
  (∀ q b, A' !! q = Some b → al_time b ≤ clock → A !! q = Some b) →
  p ∉ due clock (after_callback clock p r A') ∧
  due clock (after_callback clock p r A') ⊆ due clock A.
Proof using Hticks.
  intros Ha Hle Hi Hd.
  assert (Hp : p ∉ due clock (after_callback clock p r A')).
  { intros (b & Hb & Hbl)%elem_of_due. unfold after_callback in Hb. destruct (r =? 0).
    - by rewrite lookup_delete_eq in Hb.
    - rewrite lookup_alter_eq in Hb. destruct (A' !! p) as [c|] eqn:E; [|done]. cbn in Hb.
      injection Hb as <-. cbn in Hbl. pose proof (Hticks _ (Hi p c E)). lia. }
  split; [done|]. intros q Hq. pose proof Hq as (b & Hb & Hbl)%elem_of_due.
  assert (Hqp : q ≠ p) by (by intros ->). apply elem_of_due. exists b. split; [|done].
  apply Hd; [|done]. unfold after_callback in Hb.
  destruct (r =? 0); [by rewrite lookup_delete_ne in Hb|by rewrite lookup_alter_ne in Hb].
Qed.

Lemma expire_loop_spec fuel E (tl : tlist) h w :
  well_behaved → timers_ok E tl → (base.size (due (tl_clock tl) (alarms E tl)) < fuel)%nat →
  ∃ ps E' tl' h' w',
    timer_list_expire_loop ticks call fuel (PR_IntervalNow tl) (tl, h, w) = (Ok tt, (tl', h', w')) ∧
    timers_ok E' tl' ∧ tl_clock tl' = tl_clock tl ∧
    expirations (tl_clock tl) (alarms E tl, w) ps (alarms E' tl', w') ∧
    NoDup ps ∧ (∀ p, p ∈ ps → p ∈ due (tl_clock tl) (alarms E tl)).
Proof using Type*.
  intros Hwb. revert E tl h w. induction fuel as [|fuel IH]; intros E tl h w Hok Hfuel; [lia|].
  pose proof (hp_length tl (ok_wf _ _ Hok)) as Hlen.
  destruct (hp tl !! 0%nat) as [p|] eqn:Hp0.
  2: { apply lookup_ge_None in Hp0.
    assert (Hno : ∀ p, alarms E tl !! p = None).
    { intros p. apply no_alarm. destruct (hp tl); [apply not_elem_of_nil|cbn in Hp0; lia]. }
    exists [], E, tl, h, w. split_and!; try done.
    - cbn [timer_list_expire_loop]. rewrite (bind_ok get _ _ _ _ eq_refl). cbv beta iota.
      by replace (size tl =? 0)%nat with true by (symmetry; apply Nat.eqb_eq; lia).
    - constructor. intros q b Hb. by rewrite Hno in Hb.
    - constructor.
    - intros q Hq. by apply not_elem_of_nil in Hq. }
  apply list_elem_of_lookup_2 in Hp0 as Hp.
  destruct (ok_entry E tl p Hok Hp) as (e & f & He & Hf & _ & _ & _ & Hal).
  destruct (earliest E tl p _ Hok Hp0 Hal) as [Htime Hmin]. cbn [al_time] in Hmin.
  rewrite (expire_top fuel E tl h w p e Hok Hp0 He), Hf.
  destruct (bool_decide_reflect (E p ≤ tl_clock tl)) as [Hdue|Hlate].
  2: { exists [], E, tl, h, w. split_and!; try done.
    - constructor. intros q b Hb. specialize (Hmin q b Hb). lia.
    - constructor.
    - intros q Hq. by apply not_elem_of_nil in Hq. }
  destruct (Hwb f E tl h w Hok) as (r & E1 & tl1 & h1 & w1 & Hcall & Hok1 & Hck1 & Hdue1 & Hout).
  rewrite (bind_ok _ _ _ _ _ Hcall). rewrite <-Hck1 in Hdue1.
  destruct (handle_ok E1 tl1 h1 w1 p r Hok1 (Hout p Hp)) as (E2 & tl2 & h2 & Hh & Hok2 & Hck2 & Hal2).
  assert (Hnow : PR_IntervalNow tl = PR_IntervalNow tl1) by (unfold PR_IntervalNow; by rewrite Hck1).
  rewrite Hnow, (bind_ok _ _ _ _ _ Hh).
  assert (Hnow2 : PR_IntervalNow tl1 = PR_IntervalNow tl2) by (unfold PR_IntervalNow; by rewrite Hck2).
  rewrite Hnow2, Hck1 in *.
  assert (Hint : ∀ q b, alarms E1 tl1 !! q = Some b → 1 ≤ al_interval b ≤ TIMER_LIST_MAX_INTERVAL).
  { intros q b Hb. pose proof Hb as [Hq _]%alarms_Some.
    destruct (ok_entry E1 tl1 q Hok1 Hq) as (e1 & f1 & _ & _ & _ & Hi & _ & Hb'). by simplify_eq. }
  destruct (due_after (tl_clock tl) p r _ (alarms E tl) (alarms E1 tl1) Hal Hdue Hint Hdue1) as [Hnp Hsub].
  rewrite <-Hal2 in Hnp, Hsub.
  destruct (IH E2 tl2 h2 w1 Hok2) as (ps & E' & tl' & h' & w' & Hl & Hok' & Hck' & Hex & Hnd & Hps).
  { rewrite Hck2. assert (Hlt : due (tl_clock tl) (alarms E2 tl2) ⊂ due (tl_clock tl) (alarms E tl)).
    { split; [done|]. intros Hrev. apply Hnp, Hrev, elem_of_due. eauto. }
    apply subset_size in Hlt. lia. }
  rewrite Hck2 in *. exists (p :: ps), E', tl', h', w'. split_and!; try done.
  - apply (expirations_call _ _ w p _ r (alarms E1 tl1) w1 _ _ Hal); [done|done|by exists E, tl, h, E1, tl1, h1|].
    by rewrite <-Hal2.
  - constructor; [|done]. intros Hin. by apply Hnp, Hps.
  - intros q Hq. apply elem_of_cons in Hq as [->|Hq]; [apply elem_of_due; eauto|by apply Hsub, Hps].
Qed.

(** When the callbacks leave the timers alone every timer that is due is called. *)
Lemma expirations_all clock s ps s' :
  (∀ f s r s', calls f s r s' → s'.1 = s.1) → expirations clock s ps s' →
  ∀ p, p ∈ due clock s.1 → p ∈ ps.
Proof using Type.
  intros Hleave Hex. induction Hex as [A w Hlate|A w p a r A' w' ps s Ha Hle Hmin Hc Hex IH]; cbn [fst].
  - intros p (b & Hb & Hbl)%elem_of_due. specialize (Hlate p b Hb). lia.
  - intros q (b & Hb & Hbl)%elem_of_due. apply elem_of_cons.
    destruct (decide (q = p)) as [->|Hne]; [by left|right]. apply IH, elem_of_due. exists b. split; [|done].
    apply Hleave in Hc. cbn in Hc. subst A'. unfold after_callback. cbn [fst].
    destruct (r =? 0); [by rewrite lookup_delete_ne|by rewrite lookup_alter_ne].
Qed.

Lemma expirations_end clock s ps s' :
  expirations clock s ps s' → ∀ p a, s'.1 !! p = Some a → clock < al_time a.
Proof using Type. by induction 1. Qed.

End expire.
End operations.

(** ** Time passes *)

Lemma timers_ok_init {F} ticks T L E clock :
  timers_ok (F := F) ticks T L E (timer_list_init clock).
Proof.
  split.
  - split; cbn; try done; [constructor|].
    intros p Hp. by apply not_elem_of_nil in Hp.
  - intros p Hp. by apply not_elem_of_nil in Hp.
  - intros i _ p q Hp. done.
  - intros p e Hp. by apply not_elem_of_nil in Hp.
Qed.

(** The invariant holds while no timer is left alone for more than [L] ticks. *)
Lemma timers_ok_clock {F} ticks T L E (tl : @timer_list F) clock :
  timers_ok ticks T L E tl → tl_clock tl ≤ clock → (∀ p, p ∈ hp tl → clock - L ≤ E p) →
  timers_ok ticks T L E (set_clock clock tl) ∧ alarms E (set_clock clock tl) = alarms E tl.
Proof.
  intros [Hwf Ht Ho Hf] Hle HL. split; [|done]. split; try done.
  - by destruct Hwf.
  - intros p Hp. destruct (Ht p Hp) as (e & He & Hx & Hep & Htk & Hlo & Hhi).
    exists e. split; [done|]. split_and!; try done; cbn; try lia. by apply HL.
Qed.

(** [timer_list_debug_is_valid_heap] accepts the heap. *)
Lemma valid_heap_loop_spec {F} ticks E T L (tl : @timer_list F) l :
  2 * T + L < 2 ^ 31 → 0 < T → 0 ≤ L →
  timers_ok ticks T L E tl → Forall (λ i, (i < size tl)%nat) l →
  valid_heap_loop l tl = (Ok 1, tl).
Proof.
  intros HTL HT HL Hok. pose proof (hp_length tl (ok_wf _ _ _ _ _ Hok)) as Hlen.
  assert (Hchild : ∀ i c p, hp tl !! i = Some p → (0 < c)%nat →
    timer_list_heap_index_parent c = i → child_is_smaller c p tl = (Ok false, tl)).
  { intros i c p Hp Hc Hpar. unfold child_is_smaller. rewrite (bind_ok get _ _ _ _ eq_refl).
    destruct (c <? size tl)%nat eqn:Hs; [|done]. apply Nat.ltb_lt in Hs.
    destruct (lookup_lt_is_Some_2 (hp tl) c) as [q Hq]; [lia|].
    rewrite (bind_ok _ _ _ _ _ (entry_get_ok _ _ _ Hq)).
    rewrite (bind_ok _ _ _ _ _ (cmp_hp_ok ticks E T L HTL HT HL tl q p (ok_timed _ _ _ _ _ Hok)
      (list_elem_of_lookup_2 _ _ _ Hq) (list_elem_of_lookup_2 _ _ _ Hp))).
    unfold mret, M_ret. do 2 f_equal. apply Z.ltb_ge, Z.sgn_nonneg.
    enough (E p ≤ E q) by lia. apply (ok_ordered _ _ _ _ _ Hok c Hc); [by rewrite Hpar|done]. }
  induction l as [|i l IH]; intros Hl; [done|]. apply Forall_cons in Hl as [Hi Hl].
  cbn [valid_heap_loop]. destruct (lookup_lt_is_Some_2 (hp tl) i) as [p Hp]; [lia|].
  rewrite (bind_ok _ _ _ _ _ (entry_get_ok _ _ _ Hp)).
  rewrite (bind_ok _ _ _ _ _ (Hchild i (timer_list_heap_index_left i) p Hp
    ltac:(unfold timer_list_heap_index_left; lia)
    ltac:(apply parent_iff; [unfold timer_list_heap_index_left; lia|by left]))).
  rewrite (bind_ok _ _ _ _ _ (Hchild i (timer_list_heap_index_right i) p Hp
    ltac:(unfold timer_list_heap_index_right; lia)
    ltac:(apply parent_iff; [unfold timer_list_heap_index_right; lia|by right]))).
  by apply IH.
Qed.

(** ** An example: three timers across the wrap-around, one tick per millisecond *)

Definition ex_ticks (i : Z) : Z := i.
Definition ex_T : Z := TIMER_LIST_MAX_INTERVAL.
Definition ex_L : Z := 2 ^ 30.

Lemma ex_bounds : 2 * ex_T + ex_L < 2 ^ 31 ∧ 0 < ex_T ∧ 0 ≤ ex_L ∧
  ∀ i, 1 ≤ i ≤ TIMER_LIST_MAX_INTERVAL → 0 < ex_ticks i ≤ ex_T.
Proof. unfold ex_T, ex_L, ex_ticks, TIMER_LIST_MAX_INTERVAL. split_and!; lia. Qed.

Definition ex_clock : Z := 2 ^ 32 - 100.

Definition ex_timers : @timer_list nat := Eval vm_compute in
  let add i f s := snd (timer_list_add ex_ticks i (Some f) s) in
  set_clock (ex_clock + 60)
    (fst (add 50 12%nat (add 20 11%nat (add 500 10%nat (timer_list_init ex_clock, []))))).

Definition ex_E (p : nat) : Z :=
  match p with 0%nat => ex_clock + 500 | 1%nat => ex_clock + 20 | _ => ex_clock + 50 end.

Lemma ex_timers_ok : timers_ok ex_ticks ex_T ex_L ex_E ex_timers.
Proof.
  assert (Hhp : hp ex_timers = [1; 0; 2]%nat) by reflexivity.
  assert (Hin : ∀ p, p ∈ hp ex_timers → p = 0%nat ∨ p = 1%nat ∨ p = 2%nat).
  { intros p. rewrite Hhp. set_solver. }
  split.
  - split; [done|cbn; lia| |constructor|].
    + intros i p Hp. destruct i as [|[|[|i]]]; vm_compute in Hp; simplify_eq;
        (eexists; split_and!; reflexivity).
    + intros p Hp. by apply not_elem_of_nil in Hp.
  - intros p [->|[->| ->]]%Hin; eexists; (split; [reflexivity|]);
      unfold timed; split_and!; by vm_compute.
  - intros i Hi p q Hp Hq. rewrite Hhp in Hp, Hq.
    destruct i as [|[|[|i]]]; vm_compute in Hp, Hq; simplify_eq; by vm_compute.
  - intros p e [->|[->| ->]]%Hin He; vm_compute in He; simplify_eq;
      (split_and!; [by eexists|by vm_compute|by vm_compute]).
Qed.

Lemma timer_list_add_refines_witness :
  timers_ok ex_ticks ex_T ex_L ex_E ex_timers ∧
  match timer_list_add ex_ticks 7 (Some 13%nat) (ex_timers, []) with
  | (Ok (Some p), (tl', _)) =>
      alarms (set_E ex_E p (ex_clock + 67)) tl' =
        <[p := mk_alarm (ex_clock + 67) 7 13%nat]> (alarms ex_E ex_timers)
  | _ => False
  end.
Proof.
  split; [apply ex_timers_ok|].
  destruct ex_bounds as (HTL & HT & HL & Htk).
  pose proof (timer_list_add_refines ex_ticks ex_T ex_L HTL HT HL Htk ex_E ex_timers [] 7 (Some 13%nat)
    ex_timers_ok) as H.
  destruct (timer_list_add ex_ticks 7 (Some 13%nat) (ex_timers, [])) as [[[p|]|] [tl' h']] eqn:Ea;
    [|exfalso; clear H; vm_compute in Ea; discriminate|done].
  destruct H as (f & [= <-] & _ & _ & _ & H). exact H.
Defined.

Lemma timer_list_change_refines_witness :
  timers_ok ex_ticks ex_T ex_L ex_E ex_timers ∧ 0%nat ∈ hp ex_timers ∧
  ∃ i f, alarms ex_E ex_timers !! 0%nat = Some (mk_alarm (ex_E 0) i f) ∧
    ∃ tl', timer_list_entry_delete 0%nat ex_timers = (Ok tt, tl') ∧
      alarms ex_E tl' = delete 0%nat (alarms ex_E ex_timers).
Proof.
  assert (Hp : 0%nat ∈ hp ex_timers) by (apply (list_elem_of_lookup_2 _ 1%nat); reflexivity).
  split; [apply ex_timers_ok|]. split; [exact Hp|].
  destruct ex_bounds as (HTL & HT & HL & Htk).
  destruct (timer_list_change_refines ex_ticks ex_T ex_L HTL HT HL Htk ex_E ex_timers [] 0%nat
    ex_timers_ok Hp) as (i & f & Ha & (tl' & Hd & _ & Hal) & _).
  exists i, f. split; [exact Ha|]. exists tl'. split; [exact Hd|exact Hal].
Defined.

Lemma timer_list_time_to_expire_min_witness :
  timers_ok ex_ticks ex_T ex_L ex_E ex_timers ∧
  match timer_list_time_to_expire (2 ^ 32 - 1) ex_timers with
  | (Ok t, _) => alarms ex_E ex_timers = ∅ ∧ t = 2 ^ 32 - 1 ∨
      ∃ p a, alarms ex_E ex_timers !! p = Some a ∧ t = Z.max 0 (al_time a - tl_clock ex_timers)
  | _ => False
  end.
Proof.
  split; [apply ex_timers_ok|]. destruct ex_bounds as (HTL & HT & HL & Htk).
  pose proof (timer_list_time_to_expire_min ex_ticks ex_T ex_L HTL HT HL (2 ^ 32 - 1) ex_E
    ex_timers ex_timers_ok) as H.
  destruct (timer_list_time_to_expire (2 ^ 32 - 1) ex_timers) as [[t|] tl']; [|exact H].
  destruct H as [_ [H|(p & a & Ha & Ht & _)]]; [left; exact H|right]. exists p, a.
  split; [exact Ha|exact Ht].
Defined.

(** Two of the three timers are due. The callbacks note their calls and ask to run again; that of
    the first one, 11, stops the timer at 1, which is its own. *)
Definition ex_call (f : nat) (s : (@timer_list nat * heap) * list nat) : res Z * ((@timer_list nat * heap) * list nat) :=
  (Ok 1, ((if bool_decide (f = 11%nat ∧ 1%nat ∈ hp s.1.1) then snd (timer_list_entry_delete 1 s.1.1) else s.1.1, s.1.2),
          s.2 ++ [f])).

Lemma ex_call_well_behaved : well_behaved ex_ticks ex_T ex_L ex_call.
Proof.
  destruct ex_bounds as (HTL & HT & HL & Htk). intros f E tl h w Hok. unfold ex_call. cbn [fst snd].
  destruct (bool_decide_reflect (f = 11%nat ∧ 1%nat ∈ hp tl)) as [[_ Hp]|_].
  - destruct (timer_list_delete_ok ex_ticks ex_T ex_L HTL HT HL E tl 1 Hok Hp) as (tl' & Hd & Hok' & Hal & Hpm & Hck).
    destruct (timer_list_delete_stops ex_ticks ex_T ex_L HTL HT HL E tl 1 Hok Hp) as (tl2 & e & Hd2 & He & Ha).
    rewrite Hd in Hd2 |- *. injection Hd2 as <-. exists 1, E, tl', h, (w ++ [f]). split_and!; try done.
    + intros q a Hq _. rewrite Hal in Hq. by apply lookup_delete_Some in Hq as [_ ?].
    + intros q Hq Hni. rewrite <-Hpm in Hq. apply elem_of_cons in Hq as [->|?]; [by exists e|done].
  - exists 1, E, tl, h, (w ++ [f]). by split_and!.
Qed.


(** NSPR allows up to 100 ticks per millisecond.  Then two timers of the longest interval
    the list accepts can be more than half of the range of the clock apart, one comparison
    takes the later one for expired, and the earlier one fires four hours late. *)
Definition fast_ticks (i : Z) : Z := 100 * i.
Definition hours (n : Z) : Z := n * 3600 * 1000.

Definition fast_timers : @timer_list nat * heap :=
  let add i f s := snd (timer_list_add fast_ticks i (Some f) s) in
  let del p '(tl, h) := (snd (timer_list_entry_delete p tl), h) in
  let later t '(tl, h) := (set_clock (tl_clock tl + fast_ticks t) tl, h) in
  let s := add (hours 5) 2%nat (add (hours 4 + 2) 1%nat (add (hours 4 + 1) 0%nat
             (timer_list_init 0, []))) in
  let s := add (hours 5) 3%nat (later (hours 4) s) in
  del 0%nat (del 1%nat s).

Lemma timer_list_fast_clock_misorders :
  func <$> tl_store (fst fast_timers) !! 2%nat = Some (Some 2%nat) ∧
  expire_time <$> tl_store (fst fast_timers) !! 2%nat = Some (fast_ticks (hours 5)) ∧
  tl_clock (fst fast_timers) = fast_ticks (hours 4) ∧
  fst (timer_list_time_to_expire 0 (fst fast_timers)) = Ok (fast_ticks (hours 5)) ∧
  fst (timer_list_debug_is_valid_heap (fst fast_timers)) = Ok 0.
Proof. by vm_compute. Qed.
