(* ===== verification/TimerInterface.v ===== *)
(** What the rest of the program uses of the timers, and the proof that the timer list
    provides it. *)
From S2P Require Import Prelude.
From stdpp Require Import list gmap.
From S2P Require Import TimerList TimerListFacts.
Local Open Scope Z_scope.

(** The operations a component calls: [F] is what a timer runs, a pointer is a [nat]. *)
Class TimerOps (F T : Type) := {
  timer_add : Z → F → M (T * heap) (option nat);
  timer_delete : nat → M (T * heap) unit;
  timer_reschedule : nat → M (T * heap) unit;
  timer_set_interval : nat → Z → M (T * heap) Z
}.

(** Their contract: [timers_running] are the timers that will run, with what they call. *)
Class TimerLaws (F T : Type) `{TimerOps F T} := {
  timers_inv : T → Prop;
  timers_running : T → gmap nat F;
  timer_add_law t h i f :
    timers_inv t →
    match timer_add i f (t, h) with
    | (Ok (Some p), (t', h')) =>
        timers_running t !! p = None ∧ timers_inv t' ∧
        timers_running t' = <[p := f]> (timers_running t)
    | (Ok None, (t', h')) =>
        timers_inv t' ∧ timers_running t' = timers_running t ∧
        (¬ (1 ≤ i ≤ TIMER_LIST_MAX_INTERVAL) ∨ None ∈ h)
    | (Err _, _) => False
    end;
  timer_delete_law t h p :
    timers_inv t → is_Some (timers_running t !! p) →
    match timer_delete p (t, h) with
    | (Ok _, (t', h')) =>
        h' = h ∧ timers_inv t' ∧ timers_running t' = delete p (timers_running t)
    | (Err _, _) => False
    end;
  timer_reschedule_law t h p :
    timers_inv t → is_Some (timers_running t !! p) →
    match timer_reschedule p (t, h) with
    | (Ok _, (t', _)) => timers_inv t' ∧ timers_running t' = timers_running t
    | (Err _, _) => False
    end;
  timer_set_interval_law t h p i :
    timers_inv t → is_Some (timers_running t !! p) →
    match timer_set_interval p i (t, h) with
    | (Ok r, (t', _)) =>
        timers_inv t' ∧ timers_running t' = timers_running t ∧
        r = if bool_decide (1 ≤ i ≤ TIMER_LIST_MAX_INTERVAL) then 0 else -1
    | (Err _, _) => False
    end
}.

Section timer_list.
Context {F : Type} (ticks : Z → Z).

#[export] Instance timer_list_ops : TimerOps F (@timer_list F) := {
  timer_add i f := timer_list_add ticks i (Some f);
  timer_delete p := on_list (timer_list_entry_delete p);
  timer_reschedule p := timer_list_entry_reschedule ticks p;
  timer_set_interval p i := timer_list_entry_set_interval ticks p i
}.

Context (T L : Z).
Hypothesis HTL : 2 * T + L < 2 ^ 31.
Hypothesis HT : 0 < T.
Hypothesis HL : 0 ≤ L.
Hypothesis Hticks : ∀ i, 1 ≤ i ≤ TIMER_LIST_MAX_INTERVAL → 0 < ticks i ≤ T.

Definition timer_list_running (tl : @timer_list F) : gmap nat F :=
  al_func <$> alarms (λ _, 0) tl.

Lemma timer_list_running_E E (tl : @timer_list F) :
  timer_list_running tl = al_func <$> alarms E tl.
Proof.
  apply map_eq. intros p. unfold timer_list_running. rewrite !lookup_fmap, !alarms_lookup.
  destruct (decide _); [|done]. unfold alarm. destruct (tl_store tl !! p); [|done].
  cbn. by destruct (func _).
Qed.

Lemma timer_list_add_law (tl : @timer_list F) h i f :
  (∃ E, timers_ok ticks T L E tl) →
  match timer_list_add ticks i (Some f) (tl, h) with
  | (Ok (Some p), (t', h')) =>
      timer_list_running tl !! p = None ∧ (∃ E, timers_ok ticks T L E t') ∧
      timer_list_running t' = <[p := f]> (timer_list_running tl)
  | (Ok None, (t', h')) =>
      (∃ E, timers_ok ticks T L E t') ∧ timer_list_running t' = timer_list_running tl ∧
      (¬ (1 ≤ i ≤ TIMER_LIST_MAX_INTERVAL) ∨ None ∈ h)
  | (Err _, _) => False
  end.
Proof.
  intros [E Hok].
  pose proof (timer_list_add_ok ticks T L HTL HT HL Hticks E tl h i (Some f) Hok) as Ha.
  destruct (timer_list_add ticks i (Some f) (tl, h)) as [[[p|]|] [t' h']]; [| |done].
  - destruct Ha as (f' & [= <-] & Hni & Hok' & _ & Hal). split_and!.
    + rewrite (timer_list_running_E E), lookup_fmap, alarms_lookup, decide_False; done.
    + by eexists.
    + rewrite (timer_list_running_E (set_E E p (tl_clock tl + ticks i)) t'), Hal, fmap_insert.
      by rewrite (timer_list_running_E E tl).
  - destruct Ha as (Hok' & Hal & Hwhy). split_and!; [by eexists| |by destruct Hwhy].
    by rewrite !(timer_list_running_E E), Hal.
Qed.

Lemma timer_list_delete_law (tl : @timer_list F) h p :
  (∃ E, timers_ok ticks T L E tl) → is_Some (timer_list_running tl !! p) →
  match on_list (timer_list_entry_delete p) (tl, h) with
  | (Ok _, (t', h')) =>
      h' = h ∧ (∃ E, timers_ok ticks T L E t') ∧
      timer_list_running t' = delete p (timer_list_running tl)
  | (Err _, _) => False
  end.
Proof.
  intros [E Hok] [f Hf]. rewrite (timer_list_running_E E), lookup_fmap in Hf.
  destruct (alarms E tl !! p) as [a|] eqn:Ha; [|done]. apply alarms_Some in Ha as [Hin _].
  destruct (timer_list_delete_ok ticks T L HTL HT HL E tl p Hok Hin) as (tl' & Hd & Hok' & Hal & _).
  unfold on_list. rewrite Hd. split_and!; [done|by eexists|].
  by rewrite !(timer_list_running_E E), Hal, fmap_delete.
Qed.

(** A running timer and its entry. *)
Lemma running_entry E (tl : @timer_list F) p :
  timers_ok ticks T L E tl → is_Some (timer_list_running tl !! p) →
  p ∈ hp tl ∧ ∃ e f, tl_store tl !! p = Some e ∧ func e = Some f ∧
    timer_list_running tl !! p = Some f.
Proof.
  intros Hok [f Hf]. rewrite (timer_list_running_E E), lookup_fmap in Hf.
  destruct (alarms E tl !! p) as [a|] eqn:Ha; [|done]. apply alarms_Some in Ha as [Hin _].
  split; [done|]. destruct (ok_entry ticks T L E tl p Hok Hin) as (e & f' & ? & ? & _ & _ & _ & Hal).
  exists e, f'. split_and!; [done|done|]. by rewrite (timer_list_running_E E), lookup_fmap, Hal.
Qed.

Lemma timer_list_reschedule_law (tl : @timer_list F) h p :
  (∃ E, timers_ok ticks T L E tl) → is_Some (timer_list_running tl !! p) →
  match timer_list_entry_reschedule ticks p (tl, h) with
  | (Ok _, (t', _)) =>
      (∃ E, timers_ok ticks T L E t') ∧ timer_list_running t' = timer_list_running tl
  | (Err _, _) => False
  end.
Proof.
  intros [E Hok] Hs. destruct (running_entry E tl p Hok Hs) as (Hin & e & f & He & Hf & Hr).
  destruct (timer_list_reschedule_ok ticks T L HTL HT HL Hticks E tl h p e f Hok Hin He Hf)
    as (tl' & h' & -> & Hok' & Hal). split; [by eexists|].
  by rewrite (timer_list_running_E (set_E E p (tl_clock tl + ticks (interval e)))), Hal,
    fmap_insert, <-(timer_list_running_E E tl), insert_id.
Qed.

Lemma timer_list_set_interval_law (tl : @timer_list F) h p i :
  (∃ E, timers_ok ticks T L E tl) → is_Some (timer_list_running tl !! p) →
  match timer_list_entry_set_interval ticks p i (tl, h) with
  | (Ok r, (t', _)) =>
      (∃ E, timers_ok ticks T L E t') ∧ timer_list_running t' = timer_list_running tl ∧
      r = if bool_decide (1 ≤ i ≤ TIMER_LIST_MAX_INTERVAL) then 0 else -1
  | (Err _, _) => False
  end.
Proof.
  intros [E Hok] Hs. destruct (running_entry E tl p Hok Hs) as (Hin & e & f & He & Hf & Hr).
  pose proof (timer_list_set_interval_ok ticks T L HTL HT HL Hticks E tl h p e f i Hok Hin He Hf) as Hx.
  cbv zeta in Hx. destruct (bool_decide (1 ≤ i ≤ TIMER_LIST_MAX_INTERVAL)).
  - destruct Hx as (tl' & h' & -> & Hok' & Hal). split_and!; [by eexists| |done].
    by rewrite (timer_list_running_E (set_E E p (tl_clock tl + ticks i))), Hal, fmap_insert,
      <-(timer_list_running_E E tl), insert_id.
  - rewrite Hx. split_and!; [by eexists|done|done].
Qed.

(** The timer list satisfies the contract. *)
#[export, refine] Instance timer_list_laws : TimerLaws F (@timer_list F) := {
  timers_inv tl := ∃ E, timers_ok ticks T L E tl;
  timers_running := timer_list_running
}.
Proof.
  - apply timer_list_add_law.
  - apply timer_list_delete_law.
  - apply timer_list_reschedule_law.
  - apply timer_list_set_interval_law.
Defined.
End timer_list.
