(* ===== verification/QnetdCluster.v ===== *)
(** Clusters of clients (qnetd-cluster.c) and the list of all clusters
    (qnetd-cluster-list.c).

    A cluster exists while it has a client.  [C] is the type of the data an algorithm
    keeps per cluster.  A pointer to a cluster of the list is its position. *)
From Stdlib Require Import Sorted.
From S2P Require Import Prelude Dynar Tlv NodeList SendBuffer QnetdClient.
From stdpp Require Import list.
Local Open Scope Z_scope.

Section cluster.
Context {D C : Type}.
Abbreviation client := (@qnetd_client D).

Record qnetd_cluster := mk_cluster {
  cl_name : list byte;
  cl_algorithm_data : option C;
  client_list : list client
}.

Definition set_client_list (l : list client) (cl : qnetd_cluster) : qnetd_cluster :=
  mk_cluster (cl_name cl) (cl_algorithm_data cl) l.
Definition set_cl_algorithm_data (d : option C) (cl : qnetd_cluster) : qnetd_cluster :=
  mk_cluster (cl_name cl) d (client_list cl).

(** [*client] and an assignment to it: the client of the cluster a pointer points to. *)
Definition get_client (ptr : nat) (cl : qnetd_cluster) : option client :=
  list_find (λ c, client_ptr c = ptr) (client_list cl) ≫= λ ic, Some (snd ic).
Definition update_client (ptr : nat) (f : client → client) (cl : qnetd_cluster) : qnetd_cluster :=
  set_client_list
    ((λ c, if bool_decide (client_ptr c = ptr) then f c else c) <$> client_list cl) cl.

Definition qnetd_cluster_init (name : list byte) (h : heap) : option qnetd_cluster * heap :=
  match malloc h with
  | (None, h') => (None, h')
  | (Some _, h') => (Some (mk_cluster name None []), h')
  end.

Definition qnetd_cluster_size (cl : qnetd_cluster) : Z :=
  foldl (λ res _, res + 1) 0 (client_list cl).

Fixpoint find_client (l : list client) (nid : Z) : option client :=
  match l with
  | [] => None
  | c :: l' => if client_node_id c =? nid then Some c else find_client l' nid
  end.

Definition qnetd_cluster_find_client_by_node_id (cl : qnetd_cluster) (nid : Z) : option client :=
  find_client (client_list cl) nid.

Abbreviation qnetd_cluster_list := (list qnetd_cluster).

Definition qnetd_cluster_list_init : qnetd_cluster_list := [].

Fixpoint qnetd_cluster_list_find_by_name (clist : qnetd_cluster_list) (name : list byte) :
    option (nat * qnetd_cluster) :=
  match clist with
  | [] => None
  | cl :: clist' =>
      if (length (cl_name cl) =? length name)%nat && bool_decide (cl_name cl = name)
      then Some (O, cl)
      else match qnetd_cluster_list_find_by_name clist' name with
           | Some (i, cl') => Some (S i, cl')
           | None => None
           end
  end.

Definition client_node_id_cmp (entry1 entry2 : client) : Z :=
  let res := 0 in
  let res := if client_node_id entry1 <? client_node_id entry2 then -1 else res in
  if client_node_id entry2 <? client_node_id entry1 then 1 else res.

(** The loop over the client list: before the first entry that compares greater, else at
    the tail. *)
Fixpoint insert_client (c : client) (l : list client) : list client :=
  match l with
  | [] => [c]
  | entry :: l' =>
      if 0 <? client_node_id_cmp entry c then c :: entry :: l' else entry :: insert_client c l'
  end.

Definition qnetd_cluster_list_add_client (c : client) : M (qnetd_cluster_list * heap) nat :=
  λ '(clist, h),
  let name := default [] (cluster_name c) in
  match qnetd_cluster_list_find_by_name clist name with
  | Some (i, cl) =>
      (Ok i, (<[i := set_client_list (insert_client c (client_list cl)) cl]> clist, h))
  | None =>
      match malloc h with
      | (None, h') => (Err NULL, (clist, h'))
      | (Some _, h') =>
          match qnetd_cluster_init name h' with
          | (None, h'') => (Err NULL, (clist, h''))
          | (Some cl, h'') =>
              (Ok (length clist),
               (clist ++ [set_client_list (insert_client c (client_list cl)) cl], h''))
          end
      end
  end.

Definition qnetd_cluster_list_del_client (i : nat) (ptr : nat) (clist : qnetd_cluster_list) :
    qnetd_cluster_list :=
  match clist !! i with
  | None => clist
  | Some cl =>
      let l := filter (λ c, client_ptr c ≠ ptr) (client_list cl) in
      match l with
      | [] => delete i clist
      | _ => <[i := set_client_list l cl]> clist
      end
  end.

Definition qnetd_cluster_list_free (clist : qnetd_cluster_list) : qnetd_cluster_list := [].

Definition qnetd_cluster_list_size (clist : qnetd_cluster_list) : Z :=
  foldl (λ res _, res + 1) 0 clist.

(** ** Clients by their address *)

Lemma get_client_Some ptr (cl : qnetd_cluster) c :
  get_client ptr cl = Some c → c ∈ client_list cl ∧ client_ptr c = ptr.
Proof.
  unfold get_client. destruct (list_find _ _) as [[i c']|] eqn:Hf; [|done]. intros [= <-].
  apply list_find_Some in Hf as (Hi & Hp & _). split; [by eapply list_elem_of_lookup_2|done].
Qed.

Lemma get_client_elem (cl : qnetd_cluster) c :
  NoDup (client_ptr <$> client_list cl) → c ∈ client_list cl → get_client (client_ptr c) cl = Some c.
Proof.
  intros Hnd Hin. unfold get_client.
  destruct (list_find_elem_of (λ c', client_ptr c' = client_ptr c) (client_list cl) c Hin eq_refl)
    as [[i c'] Hf].
  rewrite Hf. cbn. f_equal. apply list_find_Some in Hf as (Hi & Hp & _).
  apply list_elem_of_lookup in Hin as [j Hj].
  assert (i = j) as ->; [|congruence].
  eapply NoDup_lookup; [exact Hnd| |]; rewrite list_lookup_fmap, ?Hi, ?Hj; cbn; by rewrite ?Hp.
Qed.

Lemma update_client_ptrs ptr f (cl : qnetd_cluster) :
  (∀ c, client_ptr (f c) = client_ptr c) →
  client_ptr <$> client_list (update_client ptr f cl) = client_ptr <$> client_list cl.
Proof.
  intros Hf. cbn. rewrite <-list_fmap_compose. apply list_fmap_ext. intros i c _. cbn.
  by case_bool_decide.
Qed.

Lemma get_client_update ptr f ptr' (cl : qnetd_cluster) :
  (∀ c, client_ptr (f c) = client_ptr c) →
  get_client ptr' (update_client ptr f cl) =
    (λ c, if bool_decide (ptr' = ptr) then f c else c) <$> get_client ptr' cl.
Proof.
  intros Hf. unfold get_client. cbn. induction (client_list cl) as [|c l IH]; [done|]. cbn.
  assert (Hp : client_ptr (if bool_decide (client_ptr c = ptr) then f c else c) = client_ptr c).
  { destruct (bool_decide (client_ptr c = ptr)); auto. }
  destruct (decide (client_ptr (if bool_decide _ then f c else c) = ptr')) as [H1|H1],
    (decide (client_ptr c = ptr')) as [H2|H2]; rewrite Hp in H1; try done.
  - cbn. do 2 f_equal. by rewrite H1.
  - destruct (list_find _ (_ <$> l)) as [[i x]|], (list_find _ l) as [[j y]|]; cbn in *; done.
Qed.

(** ** The invariant of the list *)

Definition sorted_clients (l : list client) : Prop :=
  StronglySorted Z.le (client_node_id <$> l).

Record cluster_wf (cl : qnetd_cluster) : Prop := {
  cw_nonempty : client_list cl ≠ [];
  cw_sorted : sorted_clients (client_list cl);
  cw_names : Forall (λ c, default [] (cluster_name c) = cl_name cl) (client_list cl)
}.

Record cluster_list_wf (clist : qnetd_cluster_list) : Prop := {
  clw_clusters : Forall cluster_wf clist;
  clw_names : NoDup (cl_name <$> clist)
}.

(** All clients that are connected. *)
Definition all_clients (clist : qnetd_cluster_list) : list client := clist ≫= client_list.

Lemma cluster_size_length cl : qnetd_cluster_size cl = Z.of_nat (length (client_list cl)).
Proof.
  unfold qnetd_cluster_size.
  assert (H : ∀ (l : list client) a, foldl (λ res (_ : client), res + 1) a l = a + Z.of_nat (length l)).
  { induction l as [|x l IH]; intros a; cbn [foldl length]; [lia|]. rewrite IH. lia. }
  by rewrite H.
Qed.

Lemma find_client_Some l nid c :
  find_client l nid = Some c → c ∈ l ∧ client_node_id c = nid.
Proof.
  induction l as [|x l IH]; cbn [find_client]; [done|]. case_if.
  - intros [= ->]. split; [left|done].
  - intros H. destruct (IH H). split; [by right|done].
Qed.

Lemma find_client_None l nid :
  find_client l nid = None ↔ ∀ c, c ∈ l → client_node_id c ≠ nid.
Proof.
  induction l as [|x l IH]; cbn [find_client].
  - split; [|done]. intros _ c Hc. inversion Hc.
  - case_if.
    + split; [done|]. intros H. exfalso. by apply (H x); [left|].
    + rewrite IH. split.
      * intros H c [->|Hc]%elem_of_cons; [done|by apply H].
      * intros H c Hc. apply H. by right.
Qed.

Lemma find_by_name_Some clist name i cl :
  qnetd_cluster_list_find_by_name clist name = Some (i, cl) →
  clist !! i = Some cl ∧ cl_name cl = name.
Proof.
  revert i. induction clist as [|x clist IH]; intros i; cbn [qnetd_cluster_list_find_by_name]; [done|].
  destruct (_ && _) eqn:E.
  - intros [= <- <-]. apply andb_prop in E as [_ E%bool_decide_eq_true]. done.
  - destruct (qnetd_cluster_list_find_by_name clist name) as [[j y]|]; [|done].
    intros [= <- <-]. by apply IH.
Qed.

Lemma find_by_name_None clist name :
  qnetd_cluster_list_find_by_name clist name = None ↔ name ∉ (cl_name <$> clist).
Proof.
  induction clist as [|x clist IH]; cbn [qnetd_cluster_list_find_by_name].
  { split; [intros _; apply not_elem_of_nil|done]. }
  rewrite fmap_cons, not_elem_of_cons. destruct (_ && _) eqn:E.
  - apply andb_prop in E as [_ E%bool_decide_eq_true]. by split; [|intros [? _]].
  - assert (Hne : name ≠ cl_name x).
    { intros ->. by rewrite Nat.eqb_refl, bool_decide_eq_true_2 in E. }
    destruct (qnetd_cluster_list_find_by_name clist name) as [[j y]|].
    + split; [done|]. intros [_ H]. by apply IH in H.
    + split; [|done]. intros _. split; [done|by apply IH].
Qed.

Lemma cmp_pos e c : (0 <? client_node_id_cmp e c) = (client_node_id c <? client_node_id e).
Proof.
  unfold client_node_id_cmp. destruct (client_node_id c <? client_node_id e) eqn:E; [done|].
  by destruct (client_node_id e <? client_node_id c).
Qed.

Lemma insert_client_perm c l : insert_client c l ≡ₚ c :: l.
Proof.
  induction l as [|x l IH]; cbn [insert_client]; [done|]. case_match; [done|].
  rewrite IH. apply perm_swap.
Qed.

Lemma insert_client_sorted c l : sorted_clients l → sorted_clients (insert_client c l).
Proof.
  unfold sorted_clients. induction l as [|x l IH]; intros H; cbn [insert_client].
  - repeat constructor.
  - rewrite fmap_cons in H. inversion H as [|? ? Hs Hall]; subst. rewrite cmp_pos. case_if.
    + rewrite !fmap_cons. constructor; [by constructor|]. constructor; [lia|].
      eapply Forall_impl; [exact Hall|]. intros; cbn in *; lia.
    + rewrite fmap_cons. constructor; [by apply IH|].
      assert (Hp : (client_node_id <$> insert_client c l) ≡ₚ client_node_id c :: (client_node_id <$> l)).
      { rewrite <- fmap_cons. by apply fmap_Permutation, insert_client_perm. }
      rewrite Hp. by constructor.
Qed.

Lemma sorted_filter (P : client → Prop) `{HP : !∀ x, Decision (P x)} l :
  sorted_clients l → sorted_clients (filter P l).
Proof.
  unfold sorted_clients. induction l as [|x l IH]; intros Hs; [done|].
  rewrite fmap_cons in Hs. inversion Hs as [|? ? Hs' Hall]; subst.
  rewrite filter_cons. case_decide; [|by apply IH]. rewrite fmap_cons.
  constructor; [by apply IH|].
  apply Forall_forall. intros y Hy. apply list_elem_of_fmap in Hy as (z & -> & Hz).
  apply list_elem_of_filter in Hz as [_ Hz].
  rewrite Forall_forall in Hall. apply Hall. by apply list_elem_of_fmap_2.
Qed.

Lemma all_clients_insert clist (i : nat) cl cl' c :
  clist !! i = Some cl → client_list cl' ≡ₚ c :: client_list cl →
  all_clients (<[i := cl']> clist) ≡ₚ c :: all_clients clist.
Proof.
  intros Hi Hp. unfold all_clients. pose proof (lookup_lt_Some _ _ _ Hi).
  rewrite insert_take_drop by done.
  rewrite <- (take_drop_middle clist i cl Hi) at 3.
  rewrite !bind_app, !bind_cons, Hp. cbn [app]. symmetry. apply Permutation_middle.
Qed.

Lemma names_insert (clist : qnetd_cluster_list) (i : nat) cl cl' :
  clist !! i = Some cl → cl_name cl' = cl_name cl →
  cl_name <$> <[i := cl']> clist = cl_name <$> clist.
Proof.
  intros Hi Hn. rewrite list_fmap_insert, Hn. apply list_insert_id.
  by rewrite list_lookup_fmap, Hi.
Qed.

Lemma find_by_name_here clist i cl :
  cluster_list_wf clist → clist !! i = Some cl →
  qnetd_cluster_list_find_by_name clist (cl_name cl) = Some (i, cl).
Proof.
  intros [_ Hn] Hi.
  destruct (qnetd_cluster_list_find_by_name clist (cl_name cl)) as [[j y]|] eqn:E.
  - apply find_by_name_Some in E as [Hj Hy].
    assert (j = i) as ->.
    { eapply NoDup_lookup; [exact Hn|..]; rewrite list_lookup_fmap, ?Hi, ?Hj; cbn; by rewrite ?Hy. }
    by simplify_eq.
  - apply find_by_name_None in E. destruct E. apply list_elem_of_fmap_2.
    by eapply list_elem_of_lookup_2.
Qed.

Lemma filter_other (l : list client) ptr :
  ptr ∉ (client_ptr <$> l) → filter (λ c, client_ptr c ≠ ptr) l = l.
Proof.
  induction l as [|y l IH]; intros Hx; [done|].
  rewrite fmap_cons in Hx. apply not_elem_of_cons in Hx as [Hy Hx].
  rewrite filter_cons_True by congruence. by rewrite IH.
Qed.

Lemma del_client_filter_perm cl ptr c :
  c ∈ client_list cl → client_ptr c = ptr → NoDup (client_ptr <$> client_list cl) →
  client_list cl ≡ₚ c :: filter (λ c, client_ptr c ≠ ptr) (client_list cl).
Proof.
  intros Hin Hp. induction (client_list cl) as [|x l IH]; intros Hd; [inversion Hin|].
  rewrite fmap_cons in Hd. inversion Hd as [|? ? Hx Hl]; subst. rewrite filter_cons.
  destruct (decide (client_ptr x ≠ client_ptr c)) as [Hne|Heq].
  - apply elem_of_cons in Hin as [->|Hin]; [done|]. rewrite IH at 1 by done. apply perm_swap.
  - apply dec_stable in Heq. apply elem_of_cons in Hin as [->|Hin].
    + by rewrite filter_other.
    + exfalso. apply Hx. rewrite Heq. by apply list_elem_of_fmap_2.
Qed.

(** Adding a client: it enters the cluster of its name (a new one only when there is
    none), the clients of the cluster stay ordered by node id, names stay unique, no
    other client is lost or moved; when memory runs out nothing changes. *)
Theorem qnetd_cluster_list_add_client_correct c clist h :
  cluster_list_wf clist →
  match qnetd_cluster_list_add_client c (clist, h) with
  | (Ok i, (clist', _)) =>
      cluster_list_wf clist' ∧ all_clients clist' ≡ₚ c :: all_clients clist ∧
      ∃ cl, clist' !! i = Some cl ∧ c ∈ client_list cl ∧ cl_name cl = default [] (cluster_name c) ∧
            qnetd_cluster_list_find_by_name clist' (cl_name cl) = Some (i, cl)
  | (Err _, (clist', _)) => clist' = clist ∧ None ∈ h
  end.
Proof.
  intros [Hcl Hn]. unfold qnetd_cluster_list_add_client.
  set (name := default [] (cluster_name c)).
  destruct (qnetd_cluster_list_find_by_name clist name) as [[i cl]|] eqn:Ef.
  - apply find_by_name_Some in Ef as [Hi Hname]. set (cl' := set_client_list _ cl).
    assert (Hp : client_list cl' ≡ₚ c :: client_list cl) by apply insert_client_perm.
    assert (Hwf' : cluster_list_wf (<[i := cl']> clist)).
    { constructor.
      - apply Forall_insert; [done|]. rewrite Forall_lookup in Hcl.
        destruct (Hcl i cl Hi) as [Hne Hs Hnm]. constructor.
        + intros E. rewrite E in Hp. by apply Permutation_nil_cons in Hp.
        + by apply insert_client_sorted.
        + rewrite Hp. by constructor.
      - by rewrite (names_insert _ _ cl). }
    split; [done|]. split; [by eapply all_clients_insert|].
    exists cl'. pose proof (lookup_lt_Some _ _ _ Hi).
    assert (Hl : <[i := cl']> clist !! i = Some cl') by (by apply list_lookup_insert_eq).
    split_and!; [done|rewrite Hp; left|done|]. by apply find_by_name_here.
  - destruct (malloc h) as [[j|] h'] eqn:E1; [|split; [done|eauto with qnet]].
    unfold qnetd_cluster_init. destruct (malloc h') as [[j'|] h''] eqn:E2;
      [|split; [done|]; eapply suffix_in; [by eapply malloc_suffix|eauto with qnet]].
    cbn [client_list insert_client]. set (cl := set_client_list _ _).
    assert (Hwf' : cluster_list_wf (clist ++ [cl])).
    { constructor.
      - apply Forall_app. split; [done|]. apply Forall_singleton. constructor; [done| |].
        + repeat constructor.
        + by apply Forall_singleton.
      - rewrite fmap_app. apply NoDup_app. split; [done|]. split; [|apply NoDup_singleton].
        intros x Hx ->%list_elem_of_singleton. by apply find_by_name_None in Ef. }
    assert (Hl : (clist ++ [cl]) !! length clist = Some cl) by (by apply list_lookup_middle).
    split_and!; [done| |].
    + unfold all_clients. rewrite bind_app. cbn. by rewrite Permutation_app_comm.
    + exists cl. split_and!; [done|left|done|]. by apply find_by_name_here.
Qed.

Lemma all_clients_delete clist (i : nat) cl c :
  clist !! i = Some cl → client_list cl = [c] →
  all_clients clist ≡ₚ c :: all_clients (delete i clist).
Proof.
  intros Hi Hc. unfold all_clients. rewrite <- (take_drop_middle clist i cl Hi) at 1.
  rewrite delete_take_drop, !bind_app, bind_cons, Hc. cbn [app]. symmetry.
  apply Permutation_middle.
Qed.

(** Deleting a client removes that client and no other, keeps the order within the
    cluster, and drops a cluster exactly with its last client. *)
Theorem qnetd_cluster_list_del_client_correct clist i cl c :
  cluster_list_wf clist → clist !! i = Some cl → c ∈ client_list cl →
  NoDup (client_ptr <$> client_list cl) →
  let clist' := qnetd_cluster_list_del_client i (client_ptr c) clist in
  cluster_list_wf clist' ∧ all_clients clist ≡ₚ c :: all_clients clist' ∧
  (qnetd_cluster_list_find_by_name clist' (cl_name cl) = None ↔ client_list cl = [c]).
Proof.
  intros [Hcl Hn] Hi Hin Hd. cbv zeta. unfold qnetd_cluster_list_del_client. rewrite Hi.
  pose proof (del_client_filter_perm cl _ c Hin eq_refl Hd) as Hp.
  rewrite Forall_lookup in Hcl. destruct (Hcl i cl Hi) as [Hne Hs Hnm].
  destruct (filter _ (client_list cl)) as [|c1 l] eqn:Ef.
  - apply Permutation_singleton_r in Hp.
    assert (Hnd : NoDup (cl_name cl :: (cl_name <$> delete i clist))).
    { rewrite <- fmap_cons. eapply NoDup_Permutation_proper; [|exact Hn].
      apply fmap_Permutation. symmetry. by apply delete_Permutation. }
    inversion Hnd; subst. split_and!.
    + constructor; [|done]. apply Forall_delete. by apply Forall_lookup.
    + by eapply all_clients_delete.
    + split; [done|]. intros _. by apply find_by_name_None.
  - set (cl' := set_client_list (c1 :: l) cl).
    assert (Hwf' : cluster_list_wf (<[i := cl']> clist)).
    { constructor.
      - apply Forall_insert; [by apply Forall_lookup|]. constructor; [done| |].
        + cbn. rewrite <- Ef. by apply sorted_filter.
        + cbn [cl' set_client_list client_list cl_name]. rewrite Hp in Hnm. by apply Forall_cons in Hnm as [_ Hnm].
      - by rewrite (names_insert _ _ cl). }
    split_and!; [done| |].
    + pose proof (all_clients_insert (<[i := cl']> clist) i cl' cl c) as Ha.
      assert (E : <[i:=cl]> (<[i:=cl']> clist) = clist)
        by (rewrite list_insert_insert_eq; by apply list_insert_id).
      rewrite E in Ha. apply Ha.
      * apply list_lookup_insert_eq. by eapply lookup_lt_Some.
      * exact Hp.
    + assert (Hl : <[i := cl']> clist !! i = Some cl')
        by (apply list_lookup_insert_eq; by eapply lookup_lt_Some).
      pose proof (find_by_name_here _ _ _ Hwf' Hl) as Hfind. cbn [cl' set_client_list cl_name] in Hfind.
      rewrite Hfind. split; [done|]. intros E. rewrite E in Hp.
      apply Permutation_length in Hp. cbn in Hp. lia.
Qed.
End cluster.

(** Three clients of two clusters. *)
Definition example_client (ptr : nat) (name : list byte) (nid : Z) : @qnetd_client unit :=
  let '(mk_client f0 f1 f2 f3 f4 f5 f6 f7 f8 _ f10 _ f12 f13 f14 f15 f16 f17 f18 f19 f20 f21
    f22 f23 f24 f25 f26 f27 f28 f29 f30 f31) := qnetd_client_init ptr 100 10 100 in
  mk_client f0 f1 f2 f3 f4 f5 f6 f7 f8 (Some name) f10 nid f12 f13 f14 f15 f16 f17 f18 f19 f20
    f21 f22 f23 f24 f25 f26 f27 f28 f29 f30 f31.

Definition example_list : list (@qnetd_cluster unit unit) :=
  [mk_cluster [x61] None [example_client 1 [x61] 2; example_client 2 [x61] 5];
   mk_cluster [x62] None [example_client 3 [x62] 1]].

Lemma example_list_wf : cluster_list_wf example_list.
Proof.
  constructor.
  - repeat (apply Forall_cons; [constructor|]); try done;
      repeat constructor; cbn; lia || done.
  - apply (bool_decide_unpack _). reflexivity.
Qed.

Lemma qnetd_cluster_list_add_client_correct_witness :
  let clist := fst (snd (qnetd_cluster_list_add_client (example_client 4 [x61] 3) (example_list, []))) in
  cluster_list_wf clist ∧
  (map (λ c, client_node_id c) <$> (client_list <$> clist)) = [[2; 3; 5]; [1]].
Proof.
  split; [|vm_compute; reflexivity].
  exact (proj1 (qnetd_cluster_list_add_client_correct (example_client 4 [x61] 3) example_list []
    example_list_wf)).
Defined.

Lemma qnetd_cluster_list_del_client_correct_witness :
  cluster_list_wf (qnetd_cluster_list_del_client 1 3 example_list) ∧
  length (qnetd_cluster_list_del_client 1 3 example_list) = 1%nat.
Proof.
  split; [|reflexivity].
  assert (Hin : example_client 3 [x62] 1 ∈ [example_client 3 [x62] 1]) by left.
  exact (proj1 (qnetd_cluster_list_del_client_correct example_list 1
    (mk_cluster [x62] None [example_client 3 [x62] 1]) (example_client 3 [x62] 1)
    example_list_wf eq_refl Hin ltac:(apply NoDup_singleton))).
Defined.
