(* ===== verification/AlgoFfsplit.v ===== *)
(** The fifty-fifty split algorithm (qnetd-algo-ffsplit.c).

    When the view of all connected clients is consistent, one partition may become
    quorate: everybody else is sent a NACK, and only when all of them confirmed it are
    the members of the partition sent an ACK.

    The functions run on the cluster of the client and on the heap.  A client is passed
    as the record the C pointer points to at the call; the algorithm itself changes only
    the parts of a client it reaches through the cluster's list. *)
From S2P Require Import Prelude Dynar Tlv TlvFacts NodeList Msg MsgFacts SendBuffer QnetdClient.
From S2P Require Import QnetdCluster.
From stdpp Require Import list.
Local Open Scope Z_scope.

Inductive ffsplit_cluster_state :=
| CLUSTER_STATE_WAITING_FOR_CHANGE
| CLUSTER_STATE_WAITING_FOR_STABLE_MEMBERSHIP
| CLUSTER_STATE_SENDING_NACKS
| CLUSTER_STATE_SENDING_ACKS.

Inductive ffsplit_client_state :=
| CLIENT_STATE_WAITING_FOR_CHANGE
| CLIENT_STATE_SENDING_NACK
| CLIENT_STATE_SENDING_ACK.

#[export] Instance ffsplit_cluster_state_eq_dec : EqDecision ffsplit_cluster_state.
Proof. solve_decision. Defined.
#[export] Instance ffsplit_client_state_eq_dec : EqDecision ffsplit_client_state.
Proof. solve_decision. Defined.

Record ffsplit_cluster_data := mk_ffs_cluster {
  cluster_state : ffsplit_cluster_state;
  quorate_partition_node_list : node_list
}.

Record ffsplit_client_data := mk_ffs_client {
  client_state : ffsplit_client_state;
  vote_info_expected_seq_num : Z
}.

Abbreviation client := (@qnetd_client ffsplit_client_data).
Abbreviation cluster := (@qnetd_cluster ffsplit_client_data ffsplit_cluster_data).
Abbreviation state := (cluster * heap)%type.

Definition set_client_state (s : ffsplit_client_state) (d : ffsplit_client_data) :
    ffsplit_client_data := mk_ffs_client s (vote_info_expected_seq_num d).

Definition qnetd_algo_ffsplit_client_init (c : client) : M state Z := λ '(cl, h),
  let '(r, cl, h) :=
    if qnetd_cluster_size cl =? 1 then
      match malloc h with
      | (None, h') => (false, cl, h')
      | (Some _, h') =>
          (true, set_cl_algorithm_data
                   (Some (mk_ffs_cluster CLUSTER_STATE_WAITING_FOR_CHANGE node_list_init)) cl, h')
      end
    else (true, cl, h) in
  if negb r then (Ok TLV_REPLY_ERROR_CODE_INTERNAL_ERROR, (cl, h))
  else
    match malloc h with
    | (None, h') => (Ok TLV_REPLY_ERROR_CODE_INTERNAL_ERROR, (cl, h'))
    | (Some _, h') =>
        (Ok TLV_REPLY_ERROR_CODE_NO_ERROR,
         (update_client (client_ptr c)
            (set_algorithm_data (Some (mk_ffs_client CLIENT_STATE_WAITING_FOR_CHANGE 0))) cl, h'))
    end.

Definition qnetd_algo_ffsplit_is_preferred_partition (c : client)
    (config_node_list membership_node_list : node_list) : res bool :=
  let found preferred_node_id :=
    Ok (match node_list_find_node_id membership_node_list preferred_node_id with
        | Some _ => true | None => false end) in
  if tb_mode (tie_breaker c) =? TLV_TIE_BREAKER_MODE_LOWEST then
    match config_node_list with
    | [] => Err EXIT
    | node_entry :: _ =>
        found (foldl (λ p n, if node_id n <? p then node_id n else p)
                 (node_id node_entry) config_node_list)
    end
  else if tb_mode (tie_breaker c) =? TLV_TIE_BREAKER_MODE_HIGHEST then
    match config_node_list with
    | [] => Err EXIT
    | node_entry :: _ =>
        found (foldl (λ p n, if p <? node_id n then node_id n else p)
                 (node_id node_entry) config_node_list)
    end
  else if tb_mode (tie_breaker c) =? TLV_TIE_BREAKER_MODE_NODE_ID then
    found (tb_node_id (tie_breaker c))
  else Err EXIT.

Definition has_node (l : node_list) (nid : Z) : bool :=
  match node_list_find_node_id l nid with Some _ => true | None => false end.

Section view.
(** The client of the current event and the lists that come with the event instead of
    the stored ones. *)
Context (c : client) (client_leaving : bool) (ring_id : tlv_ring_id)
  (config_node_list membership_node_list : node_list) (client_heuristics : tlv_heuristics).

(** [if (iter_client->node_id == client->node_id) { if (client_leaving) continue; ... }] *)
Definition view {A} (current : A) (stored : client → A) (iter_client : client) : option A :=
  if client_node_id iter_client =? client_node_id c then
    if client_leaving then None else Some current
  else Some (stored iter_client).

Definition config_view : client → option node_list := view config_node_list configuration_node_list.
Definition membership_view : client → option (node_list * tlv_ring_id) :=
  view (membership_node_list, ring_id) (λ ic, (last_membership_node_list ic, last_ring_id ic)).

(** Two configurations: every node of the first is in the second. *)
Definition config_lists_match (iter_client1 iter_client2 : client) : bool :=
  bool_decide (client_ptr iter_client1 = client_ptr iter_client2) ||
  match config_view iter_client1, config_view iter_client2 with
  | Some config_node_list1, Some config_node_list2 =>
      forallb (λ n, has_node config_node_list2 (node_id n)) config_node_list1
  | _, _ => true
  end.

(** One member of the membership list of a client. *)
Definition member_matches (cl : cluster) (membership_node_list1 : node_list)
    (ring_id1 : tlv_ring_id) (iter_node1 : node_list_entry) : bool :=
  match qnetd_cluster_find_client_by_node_id cl (node_id iter_node1) with
  | None => true
  | Some iter_client2 =>
      match membership_view iter_client2 with
      | None => true
      | Some (membership_node_list2, ring_id2) =>
          tlv_ring_id_eq ring_id1 ring_id2 &&
          forallb (λ n, has_node membership_node_list2 (node_id n)) membership_node_list1
      end
  end.

Definition memberships_match (cl : cluster) (iter_client1 : client) : bool :=
  match membership_view iter_client1 with
  | None => true
  | Some (membership_node_list1, ring_id1) =>
      forallb (member_matches cl membership_node_list1 ring_id1) membership_node_list1
  end.

(** [return (0)] inside of a loop is a [forallb] that fails. *)
Definition qnetd_algo_ffsplit_is_membership_stable (cl : cluster) : bool :=
  forallb (λ iter_client1, forallb (config_lists_match iter_client1) (client_list cl))
    (client_list cl) &&
  forallb (memberships_match cl) (client_list cl).
End view.

(** [no_clients], [no_heuristics_pass], [no_heuristics_fail]; all 0 for a NULL client. *)
Definition stats_step (cl : cluster) (c : client) (client_heuristics : tlv_heuristics)
    (acc : Z * Z * Z) (iter_node : node_list_entry) : Z * Z * Z :=
  let '(no_clients, no_pass, no_fail) := acc in
  match qnetd_cluster_find_client_by_node_id cl (node_id iter_node) with
  | None => acc
  | Some iter_client =>
      let iter_heuristics :=
        if bool_decide (client_ptr iter_client = client_ptr c) then client_heuristics
        else last_heuristics iter_client in
      (u64 (no_clients + 1),
       (if bool_decide (iter_heuristics = TLV_HEURISTICS_PASS) then u64 (no_pass + 1) else no_pass),
       (if bool_decide (iter_heuristics = TLV_HEURISTICS_FAIL) then u64 (no_fail + 1) else no_fail))
  end.

Definition qnetd_algo_ffsplit_get_active_clients_in_partition_stats (cl : cluster)
    (p : option (client * node_list)) (client_heuristics : tlv_heuristics) : Z * Z * Z :=
  match p with
  | None => (0, 0, 0)
  | Some (c, client_membership_node_list) =>
      foldl (stats_step cl c client_heuristics) (0, 0, 0) client_membership_node_list
  end.

(** A candidate of the selection: client, configuration, membership, heuristics. *)
Record candidate := mk_candidate {
  cd_client : client;
  cd_config : node_list;
  cd_membership : node_list;
  cd_heuristics : tlv_heuristics
}.

Definition partition_stats (cl : cluster) (p : option candidate) : Z * Z * Z :=
  match p with
  | None => qnetd_algo_ffsplit_get_active_clients_in_partition_stats cl None TLV_HEURISTICS_UNDEFINED
  | Some cd => qnetd_algo_ffsplit_get_active_clients_in_partition_stats cl
                 (Some (cd_client cd, cd_membership cd)) (cd_heuristics cd)
  end.

(** The [size_t] arithmetic of the score. *)
Definition partition_score (s : Z * Z * Z) : Z :=
  let '(active_clients, no_heuristics_pass, no_heuristics_fail) := s in
  u64 (active_clients + u64 (no_heuristics_pass - no_heuristics_fail)).

Definition qnetd_algo_ffsplit_partition_cmp (cl : cluster) (p1 : candidate) (p2 : option candidate)
    (quorate_partition_node_list : node_list) (keep_active_partition_tie_breaker : bool) : res bool :=
  let config_size := node_list_size (cd_config p1) in
  let membership_size := node_list_size (cd_membership p1) in
  if negb (config_size mod 2 =? 0) then Ok (config_size / 2 <? membership_size)
  else if config_size / 2 <? membership_size then Ok true
  else if membership_size <? config_size / 2 then Ok false
  else
    let stats1 := partition_stats cl (Some p1) in
    let stats2 := partition_stats cl p2 in
    let part1_score := partition_score stats1 in
    let part2_score := partition_score stats2 in
    let part1_active_clients := fst (fst stats1) in
    let part2_active_clients := fst (fst stats2) in
    if part2_score <? part1_score then Ok true
    else if part1_score <? part2_score then Ok false
    else if part2_active_clients <? part1_active_clients then Ok true
    else if part1_active_clients <? part2_active_clients then Ok false
    else
      let keep_active :=
        match p2 with
        | Some p2 =>
            if keep_active_partition_tie_breaker then
              let qpnl_client1 := has_node quorate_partition_node_list (client_node_id (cd_client p1)) in
              let qpnl_client2 := has_node quorate_partition_node_list (client_node_id (cd_client p2)) in
              if qpnl_client1 && negb qpnl_client2 then Some true
              else if negb qpnl_client1 && qpnl_client2 then Some false
              else None
            else None
        | None => None
        end in
      match keep_active with
      | Some r => Ok r
      | None => qnetd_algo_ffsplit_is_preferred_partition (cd_client p1) (cd_config p1)
                  (cd_membership p1)
      end.

Definition kap_enabled (c : client) : bool :=
  bool_decide (keep_active_partition_tie_breaker c ≠ TLV_KEEP_ACTIVE_PARTITION_TIE_BREAKER_DISABLED).

(** The lists and heuristics the loop takes for a client; [None] is its [continue]. *)
Definition candidate_of (c : client) (client_leaving : bool)
    (config_node_list membership_node_list : node_list) (client_heuristics : tlv_heuristics)
    (iter_client : client) : option candidate :=
  if client_node_id iter_client =? client_node_id c then
    if client_leaving then None
    else Some (mk_candidate iter_client config_node_list membership_node_list client_heuristics)
  else Some (mk_candidate iter_client (configuration_node_list iter_client)
               (last_membership_node_list iter_client) (last_heuristics iter_client)).

Fixpoint select_loop (cl : cluster) (qpnl : node_list) (kap : bool)
    (of_client : client → option candidate) (l : list client) (best : option candidate) :
    res (option candidate) :=
  match l with
  | [] => Ok best
  | iter_client :: l' =>
      match of_client iter_client with
      | None => select_loop cl qpnl kap of_client l' best
      | Some p =>
          match qnetd_algo_ffsplit_partition_cmp cl p best qpnl kap with
          | Err e => Err e
          | Ok better => select_loop cl qpnl kap of_client l' (if better then Some p else best)
          end
      end
  end.

Definition qnetd_algo_ffsplit_select_partition (c : client) (client_leaving : bool)
    (config_node_list membership_node_list quorate_partition_node_list : node_list)
    (client_heuristics : tlv_heuristics) (cl : cluster) : res (option node_list) :=
  let kap := forallb kap_enabled (client_list cl) in
  match select_loop cl quorate_partition_node_list kap
          (candidate_of c client_leaving config_node_list membership_node_list client_heuristics)
          (client_list cl) None with
  | Err e => Err e
  | Ok best => Ok (cd_membership <$> best)
  end.

(** One client of [qnetd_algo_ffsplit_update_nodes_state]; [None] is a NULL dereference. *)
Definition update_node_state (c : client) (client_leaving : bool)
    (quorate_partition_node_list : option node_list) (iter_client : client) : option client :=
  match algorithm_data iter_client with
  | None => None
  | Some d =>
      let set s := Some (set_algorithm_data (Some (set_client_state s d)) iter_client) in
      if (client_node_id iter_client =? client_node_id c) && client_leaving then
        set CLIENT_STATE_WAITING_FOR_CHANGE
      else
        match quorate_partition_node_list with
        | None => set CLIENT_STATE_SENDING_NACK
        | Some l => if has_node l (client_node_id iter_client) then set CLIENT_STATE_SENDING_ACK
                    else set CLIENT_STATE_SENDING_NACK
        end
  end.

Definition qnetd_algo_ffsplit_update_nodes_state (c : client) (client_leaving : bool)
    (quorate_partition_node_list : option node_list) : M state unit := λ '(cl, h),
  match mapM (update_node_state c client_leaving quorate_partition_node_list) (client_list cl) with
  | None => (Err NULL_DEREF, (cl, h))
  | Some l => (Ok tt, (set_client_list l cl, h))
  end.

(** The loop of [qnetd_algo_ffsplit_send_votes]: the number of votes sent, whether a send
    failed, the clients and the heap afterwards. *)
Fixpoint send_votes_loop (c : client) (client_leaving : bool) (ring_id : tlv_ring_id)
    (send_acks : bool) (l : list client) (h : heap) : res (Z * bool * list client * heap) :=
  match l with
  | [] => Ok (0, false, [], h)
  | iter_client :: l' =>
      let self := client_node_id iter_client =? client_node_id c in
      if self && client_leaving then
        match send_votes_loop c client_leaving ring_id send_acks l' h with
        | Err e => Err e
        | Ok (n, failed, r, h') => Ok (n, failed, iter_client :: r, h')
        end
      else
        let ring_id_to_send := if self then ring_id else last_ring_id iter_client in
        match algorithm_data iter_client with
        | None => Err NULL_DEREF
        | Some d =>
            let vote_to_send :=
              if send_acks then
                if bool_decide (client_state d = CLIENT_STATE_SENDING_ACK) then TLV_VOTE_ACK
                else TLV_VOTE_UNDEFINED
              else
                if bool_decide (client_state d = CLIENT_STATE_SENDING_NACK) then TLV_VOTE_NACK
                else TLV_VOTE_UNDEFINED in
            if bool_decide (vote_to_send ≠ TLV_VOTE_UNDEFINED) then
              let seq := u32 (vote_info_expected_seq_num d + 1) in
              let iter_client := set_algorithm_data (Some (mk_ffs_client (client_state d) seq))
                                   iter_client in
              let '(r, (iter_client, h1)) :=
                qnetd_client_send_vote_info iter_client seq ring_id_to_send vote_to_send h in
              match send_votes_loop c client_leaving ring_id send_acks l' h1 with
              | Err e => Err e
              | Ok (n, failed, rest, h') =>
                  Ok (u64 (n + 1), (r =? -1) || failed, iter_client :: rest, h')
              end
            else
              match send_votes_loop c client_leaving ring_id send_acks l' h with
              | Err e => Err e
              | Ok (n, failed, r, h') => Ok (n, failed, iter_client :: r, h')
              end
        end
  end.

Definition qnetd_algo_ffsplit_send_votes (c : client) (client_leaving : bool)
    (ring_id : tlv_ring_id) (send_acks : bool) : M state Z := λ '(cl, h),
  match send_votes_loop c client_leaving ring_id send_acks (client_list cl) h with
  | Err e => (Err e, (cl, h))
  | Ok (n, failed, l, h') =>
      let cl' := set_client_list l cl in
      (Ok n, (if failed then update_client (client_ptr c) (set_schedule_disconnect true) cl'
              else cl', h'))
  end.

Definition in_sending_state (sending_acks : bool) (c : client) : bool :=
  match algorithm_data c with
  | None => false
  | Some d => bool_decide (client_state d =
                if sending_acks then CLIENT_STATE_SENDING_ACK else CLIENT_STATE_SENDING_NACK)
  end.

Definition qnetd_algo_ffsplit_no_clients_in_sending_state (sending_acks : bool) : M state Z :=
  λ '(cl, h),
  if forallb (λ c, match algorithm_data c with Some _ => true | None => false end) (client_list cl)
  then (Ok (Z.of_nat (length (filter (λ c, in_sending_state sending_acks c = true) (client_list cl)))),
        (cl, h))
  else (Err NULL_DEREF, (cl, h)).

(** [cluster_data->cluster_state = s], [cluster_data->quorate_partition_node_list = l]. *)
Definition set_cluster_state (s : ffsplit_cluster_state) (d : ffsplit_cluster_data) :
    ffsplit_cluster_data := mk_ffs_cluster s (quorate_partition_node_list d).
Definition set_quorate_partition_node_list (l : node_list) (d : ffsplit_cluster_data) :
    ffsplit_cluster_data := mk_ffs_cluster (cluster_state d) l.

Definition get_cluster_data : M state ffsplit_cluster_data := λ '(cl, h),
  match cl_algorithm_data cl with
  | None => (Err NULL_DEREF, (cl, h))
  | Some d => (Ok d, (cl, h))
  end.

Definition put_cluster_data (f : ffsplit_cluster_data → ffsplit_cluster_data) : M state unit :=
  d ← get_cluster_data;
  modify (λ '(cl, h), (set_cl_algorithm_data (Some (f d)) cl, h)).

(** Free the stored quorate partition and store a copy of the selected one. *)
Definition store_quorate_partition (selected : option node_list) : M state bool := λ '(cl, h),
  match cl_algorithm_data cl with
  | None => (Err NULL_DEREF, (cl, h))
  | Some d =>
      let set l := set_cl_algorithm_data (Some (set_quorate_partition_node_list l d)) cl in
      match selected with
      | None => (Ok true, (set node_list_init, h))
      | Some l =>
          match node_list_clone l (node_list_init, h) with
          | (Err _, (l', h')) => (Ok false, (set l', h'))
          | (Ok _, (l', h')) => (Ok true, (set l', h'))
          end
      end
  end.

(** The reply error code and what [*result_vote] is set to ([None]: left alone). *)
Definition qnetd_algo_ffsplit_do (c : client) (client_leaving : bool) (ring_id : tlv_ring_id)
    (config_node_list membership_node_list : node_list) (client_heuristics : tlv_heuristics) :
    M state (Z * option tlv_vote) :=
  put_cluster_data (set_cluster_state CLUSTER_STATE_WAITING_FOR_STABLE_MEMBERSHIP);;
  '(cl, _) ← get;
  if negb (qnetd_algo_ffsplit_is_membership_stable c client_leaving ring_id config_node_list
             membership_node_list cl)
  then mret (TLV_REPLY_ERROR_CODE_NO_ERROR, Some TLV_VOTE_WAIT_FOR_REPLY)
  else
    cluster_data ← get_cluster_data;
    match qnetd_algo_ffsplit_select_partition c client_leaving config_node_list
            membership_node_list (quorate_partition_node_list cluster_data) client_heuristics cl with
    | Err e => fail e
    | Ok selected =>
        stored ← store_quorate_partition selected;
        if negb stored then mret (TLV_REPLY_ERROR_CODE_INTERNAL_ERROR, None)
        else
          qnetd_algo_ffsplit_update_nodes_state c client_leaving selected;;
          put_cluster_data (set_cluster_state CLUSTER_STATE_SENDING_NACKS);;
          nacks ← qnetd_algo_ffsplit_send_votes c client_leaving ring_id false;
          (if nacks =? 0 then
             put_cluster_data (set_cluster_state CLUSTER_STATE_SENDING_ACKS);;
             acks ← qnetd_algo_ffsplit_send_votes c client_leaving ring_id true;
             (if acks =? 0 then
                put_cluster_data (set_cluster_state CLUSTER_STATE_WAITING_FOR_CHANGE)
              else mret tt)
           else mret tt);;
          mret (TLV_REPLY_ERROR_CODE_NO_ERROR, Some TLV_VOTE_NO_CHANGE)
    end.

Definition qnetd_algo_ffsplit_config_node_list_received (c : client) (nodes : node_list)
    (initial : bool) : M state (Z * option tlv_vote) :=
  if node_list_size nodes =? 0 then mret (TLV_REPLY_ERROR_CODE_INVALID_CONFIG_NODE_LIST, None)
  else if negb (has_node nodes (client_node_id c)) then
    mret (TLV_REPLY_ERROR_CODE_INVALID_CONFIG_NODE_LIST, None)
  else if initial || (node_list_size (last_membership_node_list c) =? 0) then
    mret (TLV_REPLY_ERROR_CODE_NO_ERROR, Some TLV_VOTE_ASK_LATER)
  else
    qnetd_algo_ffsplit_do c false (last_ring_id c) nodes (last_membership_node_list c)
      (last_heuristics c).

Definition qnetd_algo_ffsplit_membership_node_list_received (c : client) (ring_id : tlv_ring_id)
    (nodes : node_list) (heuristics : tlv_heuristics) : M state (Z * option tlv_vote) :=
  if node_list_size nodes =? 0 then mret (TLV_REPLY_ERROR_CODE_INVALID_MEMBERSHIP_NODE_LIST, None)
  else if negb (has_node nodes (client_node_id c)) then
    mret (TLV_REPLY_ERROR_CODE_INVALID_MEMBERSHIP_NODE_LIST, None)
  else if node_list_size (configuration_node_list c) =? 0 then
    mret (TLV_REPLY_ERROR_CODE_NO_ERROR, Some TLV_VOTE_ASK_LATER)
  else qnetd_algo_ffsplit_do c false ring_id (configuration_node_list c) nodes heuristics.

Definition qnetd_algo_ffsplit_quorum_node_list_received : M state (Z * option tlv_vote) :=
  mret (TLV_REPLY_ERROR_CODE_NO_ERROR, Some TLV_VOTE_NO_CHANGE).

(** The result of the first call is ignored; the process may end inside of it. *)
Definition qnetd_algo_ffsplit_client_disconnect (c : client) (server_going_down : bool) :
    M state unit :=
  (if negb server_going_down then
     qnetd_algo_ffsplit_do c true (last_ring_id c) (configuration_node_list c)
       (last_membership_node_list c) (last_heuristics c);;
     mret tt
   else mret tt);;
  modify (λ '(cl, h), (update_client (client_ptr c) (set_algorithm_data None) cl, h));;
  modify (λ '(cl, h), (if qnetd_cluster_size cl =? 1 then set_cl_algorithm_data None cl else cl, h)).

Definition qnetd_algo_ffsplit_ask_for_vote_received : M state (Z * option tlv_vote) :=
  mret (TLV_REPLY_ERROR_CODE_UNSUPPORTED_DECISION_ALGORITHM_MESSAGE, None).

Definition qnetd_algo_ffsplit_vote_info_reply_received (c : client) (msg_seq_num : Z) :
    M state Z :=
  cluster_data ← get_cluster_data;
  match algorithm_data c with
  | None => fail NULL_DEREF
  | Some client_data =>
      if negb (vote_info_expected_seq_num client_data =? msg_seq_num) then
        mret TLV_REPLY_ERROR_CODE_NO_ERROR
      else
        modify (λ '(cl, h),
          (update_client (client_ptr c)
             (set_algorithm_data
                (Some (set_client_state CLIENT_STATE_WAITING_FOR_CHANGE client_data))) cl, h));;
        if bool_decide (cluster_state cluster_data = CLUSTER_STATE_SENDING_NACKS) then
          n ← qnetd_algo_ffsplit_no_clients_in_sending_state false;
          (if n =? 0 then
             put_cluster_data (set_cluster_state CLUSTER_STATE_SENDING_ACKS);;
             acks ← qnetd_algo_ffsplit_send_votes c false (last_ring_id c) true;
             (if acks =? 0 then
                put_cluster_data (set_cluster_state CLUSTER_STATE_WAITING_FOR_CHANGE)
              else mret tt)
           else mret tt);;
          mret TLV_REPLY_ERROR_CODE_NO_ERROR
        else if bool_decide (cluster_state cluster_data = CLUSTER_STATE_SENDING_ACKS) then
          n ← qnetd_algo_ffsplit_no_clients_in_sending_state true;
          (if n =? 0 then
             put_cluster_data (set_cluster_state CLUSTER_STATE_WAITING_FOR_CHANGE)
           else mret tt);;
          mret TLV_REPLY_ERROR_CODE_NO_ERROR
        else mret TLV_REPLY_ERROR_CODE_NO_ERROR
  end.

Definition qnetd_algo_ffsplit_heuristics_change_received (c : client) (heuristics : tlv_heuristics) :
    M state (Z * option tlv_vote) :=
  if (node_list_size (configuration_node_list c) =? 0) ||
     (node_list_size (last_membership_node_list c) =? 0) then
    mret (TLV_REPLY_ERROR_CODE_NO_ERROR, Some TLV_VOTE_ASK_LATER)
  else
    qnetd_algo_ffsplit_do c false (last_ring_id c) (configuration_node_list c)
      (last_membership_node_list c) heuristics.

Definition qnetd_algo_ffsplit_timer_callback : M state Z := mret TLV_REPLY_ERROR_CODE_NO_ERROR.
