(* ===== verification/AlgoFfsplitFacts.v ===== *)
(** Correctness of the fifty-fifty split algorithm (qnetd-algo-ffsplit.c): the score, the
    partition that is selected, the agreement of the clients that get an ACK, and the
    protocol that sends every NACK before the first ACK. *)
From S2P Require Import Prelude Dynar Tlv TlvFacts NodeList Msg MsgFacts SendBuffer QnetdClient.
From S2P Require Import QnetdCluster AlgoFfsplit.
From stdpp Require Import list.
Local Open Scope Z_scope.

(** ** The score *)

Lemma has_node_true l nid : has_node l nid = true ↔ nid ∈ (node_id <$> l).
Proof.
  unfold has_node. pose proof (find_node_id_None l nid) as HN.
  destruct (node_list_find_node_id l nid) as [[i e]|] eqn:E.
  - split; [|done]. intros _. apply find_node_id_Some in E as (Hi & <- & _).
    apply list_elem_of_fmap_2. by eapply list_elem_of_lookup_2.
  - split; [done|]. intros Hin. by apply HN in Hin.
Qed.

(** The connected clients of a list of nodes and the heuristics result each counts with. *)
Definition connected (cl : cluster) (m : node_list) : list client :=
  omap (λ n, qnetd_cluster_find_client_by_node_id cl (node_id n)) m.

Definition heuristics_of (c : client) (heur : tlv_heuristics) (ic : client) : tlv_heuristics :=
  if bool_decide (client_ptr ic = client_ptr c) then heur else last_heuristics ic.

Definition count_heur (h : tlv_heuristics) (l : list tlv_heuristics) : Z :=
  Z.of_nat (length (filter (h =.) l)).

Lemma count_heur_cons h x l :
  count_heur h (x :: l) = (if bool_decide (x = h) then 1 else 0) + count_heur h l.
Proof.
  unfold count_heur. rewrite filter_cons. case_bool_decide as E; case_decide as E'; cbn [length];
    subst; try done; lia.
Qed.

Lemma count_heur_pass_fail l :
  count_heur TLV_HEURISTICS_PASS l + count_heur TLV_HEURISTICS_FAIL l ≤ Z.of_nat (length l).
Proof.
  induction l as [|x l IH]; [done|]. rewrite !count_heur_cons. cbn [length].
  destruct x; repeat case_bool_decide; try done; lia.
Qed.

Lemma connected_length cl m : (length (connected cl m) ≤ length m)%nat.
Proof.
  induction m as [|n m IH]; cbn; [done|]. case_match; cbn; unfold connected in IH; lia.
Qed.

(** The loop counts exactly that while nothing overflows. *)
Lemma stats_fold cl c heur m a p f :
  0 ≤ a → 0 ≤ p → 0 ≤ f → p ≤ a → f ≤ a → a + Z.of_nat (length m) < 2 ^ 64 →
  let hs := heuristics_of c heur <$> connected cl m in
  foldl (stats_step cl c heur) (a, p, f) m =
  (a + Z.of_nat (length hs), p + count_heur TLV_HEURISTICS_PASS hs,
   f + count_heur TLV_HEURISTICS_FAIL hs).
Proof.
  revert a p f. induction m as [|n m IH]; intros a p f Ha Hp Hf Hpa Hfa Hlen.
  { cbn. unfold count_heur. cbn. by rewrite !Z.add_0_r. }
  cbn [length] in Hlen. unfold connected in *. cbn [foldl omap list_omap]. unfold stats_step at 2.
  destruct (qnetd_cluster_find_client_by_node_id cl (node_id n)) as [ic|].
  - cbn zeta. fold (heuristics_of c heur ic). rewrite !fmap_cons, !count_heur_cons.
    rewrite !u64_small by lia. cbn [length]. cbn zeta in IH.
    rewrite IH; [|repeat case_bool_decide; lia..].
    f_equal; [f_equal|]; repeat case_bool_decide; lia.
  - apply IH; lia.
Qed.

Lemma score_value a p f :
  0 ≤ p → 0 ≤ f → p + f ≤ a → a < 2 ^ 62 → partition_score (a, p, f) = a + p - f.
Proof.
  intros. unfold partition_score. destruct (decide (f ≤ p)).
  - rewrite (u64_small (p - f)) by lia. rewrite u64_small by lia. lia.
  - assert (Hw : u64 (p - f) = p - f + 2 ^ 64).
    { unfold u64. rewrite <- (Z.mod_add _ 1) by lia. rewrite Z.mod_small; lia. }
    rewrite Hw. unfold u64. replace (a + (p - f + 2 ^ 64)) with (a + p - f + 1 * 2 ^ 64) by lia.
    rewrite Z.mod_add, Z.mod_small by lia. lia.
Qed.

(** C34: the score of a partition is the number of its connected members, plus those whose
    heuristics passed, minus those whose heuristics failed - although it is computed in
    unsigned arithmetic, subtracting the failures from the passes first, which wraps around
    when more members failed. *)
Theorem ffsplit_score_exact cl cd :
  Z.of_nat (length (cd_membership cd)) < 2 ^ 62 →
  let hs := heuristics_of (cd_client cd) (cd_heuristics cd) <$> connected cl (cd_membership cd) in
  partition_score (partition_stats cl (Some cd)) =
  Z.of_nat (length hs) + count_heur TLV_HEURISTICS_PASS hs - count_heur TLV_HEURISTICS_FAIL hs.
Proof.
  intros Hlen hs. unfold partition_stats, qnetd_algo_ffsplit_get_active_clients_in_partition_stats.
  rewrite stats_fold by lia. fold hs. pose proof (count_heur_pass_fail hs).
  assert (length hs ≤ length (cd_membership cd))%nat
    by (unfold hs; rewrite length_fmap; apply connected_length).
  rewrite !Z.add_0_l. apply score_value; [unfold count_heur; lia..|done|lia].
Qed.

(** A client for examples. *)
Definition ex_client (ptr : nat) (nid : Z) (config membership : node_list) (ring : tlv_ring_id)
    (heur : tlv_heuristics) (data : option ffsplit_client_data) : client :=
  mk_client ptr (dynar_init 100) (send_buffer_list_init 10 100) 0 false false false true true
    None true nid 2 (mk_tie_breaker TLV_TIE_BREAKER_MODE_LOWEST 0) 8000 0 data config None
    membership [] ring None 0 false None TLV_VOTE_UNDEFINED TLV_VOTE_UNDEFINED heur heur heur
    TLV_KEEP_ACTIVE_PARTITION_TIE_BREAKER_DISABLED.

Definition ex_nodes (l : list Z) : node_list := (λ n, mk_node n 0 TLV_NODE_STATE_MEMBER) <$> l.

(** Two connected members of three, both with failed heuristics: the score is 0. *)
Definition ex_failed : cluster :=
  mk_cluster [] None
    [ex_client 0 1 [] [] ring_id_zero TLV_HEURISTICS_FAIL None;
     ex_client 1 2 [] [] ring_id_zero TLV_HEURISTICS_FAIL None].

Lemma ffsplit_score_exact_witness :
  partition_score (partition_stats ex_failed
    (Some (mk_candidate (ex_client 0 1 [] [] ring_id_zero TLV_HEURISTICS_FAIL None)
             [] (ex_nodes [1; 2; 3]) TLV_HEURISTICS_FAIL))) = 0.
Proof.
  rewrite (ffsplit_score_exact ex_failed) by (vm_compute; reflexivity). reflexivity.
Defined.

(** ** The selection *)

(** At least half of the configured nodes, and more than half of an odd number. *)
Definition half_of (config membership : node_list) : Prop :=
  Z.of_nat (length config) ≤ 2 * Z.of_nat (length membership).

Lemma cmp_true_half cl p1 p2 q kap :
  qnetd_algo_ffsplit_partition_cmp cl p1 p2 q kap = Ok true →
  half_of (cd_config p1) (cd_membership p1).
Proof.
  unfold qnetd_algo_ffsplit_partition_cmp, half_of. rewrite !node_list_size_length.
  set (n := Z.of_nat (length (cd_config p1))). set (m := Z.of_nat (length (cd_membership p1))).
  pose proof (Z.div_mod n 2 ltac:(lia)) as Hdm. pose proof (Z.mod_pos_bound n 2 ltac:(lia)) as Hb.
  case_if.
  - intros [= Hlt%Z.ltb_lt]. lia.
  - case_if; [lia|]. case_if; [done|]. lia.
Qed.

Section select.
Context (cl : cluster) (q : node_list) (kap : bool) (of_client : client → option candidate).

Lemma select_loop_in l best r :
  select_loop cl q kap of_client l best = Ok (Some r) →
  best = Some r ∨ ∃ c, c ∈ l ∧ of_client c = Some r ∧ half_of (cd_config r) (cd_membership r).
Proof.
  revert best. induction l as [|c l IH]; intros best; cbn [select_loop].
  { intros [= ->]. by left. }
  destruct (of_client c) as [p|] eqn:Eof.
  - destruct (qnetd_algo_ffsplit_partition_cmp cl p best q kap) as [[]|] eqn:Ec; [| |done].
    + intros H. destruct (IH _ H) as [[= <-]|(c' & ? & ? & ?)].
      * right. exists c. split_and!; [left|done|by eapply cmp_true_half].
      * right. exists c'. split_and!; [by right|done|done].
    + intros H. destruct (IH _ H) as [?|(c' & ? & ? & ?)]; [by left|].
      right. exists c'. split_and!; [by right|done|done].
  - intros H. destruct (IH _ H) as [?|(c' & ? & ? & ?)]; [by left|].
    right. exists c'. split_and!; [by right|done|done].
Qed.

(** Exactly half of an even number of nodes. *)
Definition exact_half (p : candidate) : Prop :=
  Z.of_nat (length (cd_config p)) = 2 * Z.of_nat (length (cd_membership p)).

(** The key the halves are compared by. *)
Definition rank (p : option candidate) : Z * Z :=
  (partition_score (partition_stats cl p), fst (fst (partition_stats cl p))).

Definition rank_le (a b : Z * Z) : Prop := fst a < fst b ∨ fst a = fst b ∧ snd a ≤ snd b.

Lemma cmp_rank p1 p2 r :
  exact_half p1 → qnetd_algo_ffsplit_partition_cmp cl p1 p2 q kap = Ok r →
  if r then rank_le (rank p2) (rank (Some p1)) else rank_le (rank (Some p1)) (rank p2).
Proof.
  unfold exact_half, qnetd_algo_ffsplit_partition_cmp, rank_le, rank. intros Hh.
  rewrite !node_list_size_length, Hh. rewrite Z.mul_comm, Z.mod_mul, Z.div_mul by lia.
  cbn [negb Z.eqb fst snd]. rewrite Z.ltb_irrefl.
  repeat (case_if; [intros [= <-]; lia|]).
  intros _. destruct r; lia.
Qed.

Lemma rank_le_trans a b c : rank_le a b → rank_le b c → rank_le a c.
Proof. unfold rank_le. lia. Qed.

Lemma select_loop_best l best r :
  select_loop cl q kap of_client l best = Ok r →
  (∀ c p, c ∈ l → of_client c = Some p → exact_half p) →
  rank_le (rank best) (rank r) ∧
  ∀ c p, c ∈ l → of_client c = Some p → rank_le (rank (Some p)) (rank r).
Proof.
  revert best. induction l as [|c l IH]; intros best; cbn [select_loop].
  { intros [= ->] _. split; [unfold rank_le; lia|]. intros c p Hc. inversion Hc. }
  intros H Hall. assert (Hall' : ∀ c p, c ∈ l → of_client c = Some p → exact_half p)
    by (intros c' p' ?; apply Hall; by right).
  destruct (of_client c) as [p|] eqn:Eof.
  - destruct (qnetd_algo_ffsplit_partition_cmp cl p best q kap) as [b|] eqn:Ec; [|done].
    pose proof (cmp_rank _ _ _ (Hall c p ltac:(left) Eof) Ec) as Hr.
    destruct (IH _ H Hall') as [H1 H2]. destruct b.
    + split; [by eapply rank_le_trans|].
      intros c' p' [->|Hc]%elem_of_cons E; [by simplify_eq|by eapply H2].
    + split; [done|].
      intros c' p' [->|Hc]%elem_of_cons E; [simplify_eq; by eapply rank_le_trans|by eapply H2].
  - destruct (IH _ H Hall') as [H1 H2]. split; [done|].
    intros c' p' [->|Hc]%elem_of_cons E; [congruence|by eapply H2].
Qed.
End select.

(** C23: the partition that may become quorate is the membership list of a connected client
    that does not leave, and holds at least half (of an odd number: more than half) of
    that client's configured nodes.  In a real split, where every client sees exactly
    half, no client's partition has a greater score, or as great a score and more
    connected members. *)
Theorem ffsplit_select_partition_correct c leaving cfg mem q heur cl m :
  qnetd_algo_ffsplit_select_partition c leaving cfg mem q heur cl = Ok (Some m) →
  let of_client := candidate_of c leaving cfg mem heur in
  ∃ b p, b ∈ client_list cl ∧ of_client b = Some p ∧ cd_membership p = m ∧
    half_of (cd_config p) m ∧
    ((∀ c' p', c' ∈ client_list cl → of_client c' = Some p' → exact_half p') →
     ∀ c' p', c' ∈ client_list cl → of_client c' = Some p' →
       rank_le (rank cl (Some p')) (rank cl (Some p))).
Proof.
  unfold qnetd_algo_ffsplit_select_partition. cbv zeta.
  destruct (select_loop _ _ _ _ _ _) as [[p|]|] eqn:E; [|done|done].
  intros [= <-]. destruct (select_loop_in _ _ _ _ _ _ _ E) as [?|(b & Hb & Hof & Hh)]; [done|].
  exists b, p. split_and!; [done..|]. intros Hall.
  apply (select_loop_best _ _ _ _ _ _ _ E Hall).
Qed.

(** Two nodes that do not see each other; the heuristics of the second passed. *)
Definition ex_split1 : client :=
  ex_client 0 1 (ex_nodes [1; 2]) (ex_nodes [1]) ring_id_zero TLV_HEURISTICS_FAIL None.
Definition ex_split2 : client :=
  ex_client 1 2 (ex_nodes [1; 2]) (ex_nodes [2]) ring_id_zero TLV_HEURISTICS_PASS None.
Definition ex_split : cluster := mk_cluster [] None [ex_split1; ex_split2].

Lemma ffsplit_select_partition_correct_witness :
  ∃ b p, b ∈ client_list ex_split ∧
    candidate_of ex_split1 false (ex_nodes [1; 2]) (ex_nodes [1]) TLV_HEURISTICS_FAIL b = Some p ∧
    cd_membership p = ex_nodes [2] ∧ half_of (cd_config p) (ex_nodes [2]).
Proof.
  destruct (ffsplit_select_partition_correct ex_split1 false (ex_nodes [1; 2]) (ex_nodes [1]) []
              TLV_HEURISTICS_FAIL ex_split (ex_nodes [2])) as (b & p & H1 & H2 & H3 & H4 & _).
  - vm_compute. reflexivity.
  - exists b, p. repeat split; assumption.
Defined.

(** ** The agreement of the clients of a consistent view *)

Lemma find_client_NoDup (l : list client) x :
  NoDup (client_node_id <$> l) → x ∈ l → find_client l (client_node_id x) = Some x.
Proof.
  induction l as [|y l IH]; intros Hd Hx; [by inversion Hx|]. cbn [find_client].
  rewrite fmap_cons in Hd. apply NoDup_cons in Hd as [Hy Hd].
  apply elem_of_cons in Hx as [->|Hx].
  - by rewrite Z.eqb_refl.
  - case_if; [|by apply IH]. destruct Hy. rewrite Hif. by apply list_elem_of_fmap_2.
Qed.

(** Every node of the first list is in the second. *)
Definition nodes_incl (l1 l2 : node_list) : Prop :=
  ∀ nid, nid ∈ (node_id <$> l1) → nid ∈ (node_id <$> l2).

Lemma forallb_nodes_incl l1 l2 :
  forallb (λ n, has_node l2 (node_id n)) l1 = true ↔ nodes_incl l1 l2.
Proof.
  rewrite forallb_elem. unfold nodes_incl. split.
  - intros H nid (n & -> & Hn)%list_elem_of_fmap. by apply has_node_true, H.
  - intros H n Hn. by apply has_node_true, H, list_elem_of_fmap_2.
Qed.

Section agreement.
Context (c : client) (leaving : bool) (ring : tlv_ring_id) (cfg mem : node_list) (cl : cluster).
Hypothesis ids : NoDup (client_node_id <$> client_list cl).
Hypothesis stable :
  qnetd_algo_ffsplit_is_membership_stable c leaving ring cfg mem cl = true.

(** A client whose node is in the membership list of another one has the same ring id
    and sees at least the same nodes. *)
Lemma stable_member x y mx rx my ry :
  x ∈ client_list cl → y ∈ client_list cl →
  membership_view c leaving ring mem x = Some (mx, rx) →
  membership_view c leaving ring mem y = Some (my, ry) →
  has_node mx (client_node_id y) = true → rx = ry ∧ nodes_incl mx my.
Proof.
  intros Hx Hy Vx Vy Hn. unfold qnetd_algo_ffsplit_is_membership_stable in stable.
  apply andb_prop in stable as [_ Hs]. rewrite forallb_elem in Hs.
  specialize (Hs x Hx). unfold memberships_match in Hs.
  rewrite Vx, forallb_elem in Hs.
  apply has_node_true, list_elem_of_fmap in Hn as (n & En & Hn).
  specialize (Hs n Hn). unfold member_matches in Hs.
  unfold qnetd_cluster_find_client_by_node_id in Hs.
  rewrite <- En, (find_client_NoDup _ _ ids Hy), Vy in Hs.
  apply andb_prop in Hs as [Hr Hs]. split; [by apply tlv_ring_id_eq_spec|].
  by apply forallb_nodes_incl.
Qed.

(** Two configurations contain the same nodes. *)
Lemma stable_config x y gx gy :
  x ∈ client_list cl → y ∈ client_list cl →
  config_view c leaving cfg x = Some gx → config_view c leaving cfg y = Some gy →
  client_ptr x ≠ client_ptr y → nodes_incl gx gy.
Proof.
  intros Hx Hy Vx Vy Hne. unfold qnetd_algo_ffsplit_is_membership_stable in stable.
  apply andb_prop in stable as [Hs _]. rewrite forallb_elem in Hs.
  specialize (Hs x Hx). rewrite forallb_elem in Hs.
  specialize (Hs y Hy). unfold config_lists_match in Hs.
  rewrite bool_decide_eq_false_2 in Hs by done. rewrite Vx, Vy in Hs.
  by apply forallb_nodes_incl.
Qed.

(** The clients of the partition that was selected share its ring id, and - when each is
    a member of its own list, which the handlers check - their lists hold the same nodes
    as the selected one. *)
Lemma selected_agree b m rb x mx rx :
  b ∈ client_list cl → x ∈ client_list cl →
  membership_view c leaving ring mem b = Some (m, rb) →
  membership_view c leaving ring mem x = Some (mx, rx) →
  has_node m (client_node_id b) = true → has_node m (client_node_id x) = true →
  rx = rb ∧ nodes_incl mx m ∧ nodes_incl m mx.
Proof.
  intros Hb Hx Vb Vx Hbm Hxm. destruct (stable_member b x m rb mx rx) as [-> Hi]; [done..|].
  split; [done|]. split; [|done].
  destruct (stable_member x b mx rx m rx) as [_ Hi2]; [done..| |done].
  apply has_node_true. apply Hi. by apply has_node_true.
Qed.
End agreement.
