(* ===== verification/AlgoFfsplitProtocol.v ===== *)
(** The protocol of the fifty-fifty split algorithm (qnetd-algo-ffsplit.c): what a run of
    the algorithm does to the clients of the cluster, and the invariants of every sequence
    of events in which no client sends INIT twice - NACKs are confirmed before the first ACK
    is sent. *)
From S2P Require Import Prelude Dynar Tlv TlvFacts NodeList Msg MsgFacts SendBuffer QnetdClient.
From S2P Require Import QnetdCluster AlgoFfsplit AlgoFfsplitFacts.
From stdpp Require Import relations list.
Local Open Scope Z_scope.

(** ** The abstract client

    What the protocol depends on: the identity, the data of the algorithm and the last
    vote that was sent. *)
Record core := mk_core {
  k_ptr : nat;
  k_id : Z;
  k_data : option ffsplit_client_data;
  k_vote : tlv_vote
}.

Definition core_of (c : client) : core :=
  mk_core (client_ptr c) (client_node_id c) (algorithm_data c) (last_sent_vote c).

Definition k_in (s : ffsplit_client_state) (k : core) : bool :=
  match k_data k with
  | Some d => bool_decide (client_state d = s)
  | None => false
  end.

Definition sending (acks : bool) : ffsplit_client_state :=
  if acks then CLIENT_STATE_SENDING_ACK else CLIENT_STATE_SENDING_NACK.

(** The client of the event, when it leaves. *)
Definition is_leaving (id : Z) (leaving : bool) (k : core) : bool := (k_id k =? id) && leaving.

Definition voted (id : Z) (leaving acks : bool) (k : core) : bool :=
  negb (is_leaving id leaving k) && k_in (sending acks) k.

(** Send one client its vote. *)
Definition vote_core (id : Z) (leaving acks : bool) (k : core) : core :=
  if voted id leaving acks k then
    mk_core (k_ptr k) (k_id k)
      ((λ d, mk_ffs_client (client_state d) (u32 (vote_info_expected_seq_num d + 1))) <$> k_data k)
      (if acks then TLV_VOTE_ACK else TLV_VOTE_NACK)
  else k.

(** The state a client is put in when [selected] may become quorate. *)
Definition assigned (id : Z) (leaving : bool) (selected : option node_list) (k : core) :
    ffsplit_client_state :=
  if is_leaving id leaving k then CLIENT_STATE_WAITING_FOR_CHANGE
  else match selected with
       | None => CLIENT_STATE_SENDING_NACK
       | Some l => if has_node l (k_id k) then CLIENT_STATE_SENDING_ACK
                   else CLIENT_STATE_SENDING_NACK
       end.

Definition assign_core (id : Z) (leaving : bool) (selected : option node_list) (k : core) : core :=
  mk_core (k_ptr k) (k_id k) (set_client_state (assigned id leaving selected k) <$> k_data k)
    (k_vote k).

(** Send the NACKs; when there are none, the ACKs. *)
Definition send_phase (id : Z) (leaving : bool) (ks : list core) :
    list core * ffsplit_cluster_state :=
  if existsb (voted id leaving false) ks then
    (vote_core id leaving false <$> ks, CLUSTER_STATE_SENDING_NACKS)
  else
    (vote_core id leaving true <$> ks,
     if existsb (voted id leaving true) ks then CLUSTER_STATE_SENDING_ACKS
     else CLUSTER_STATE_WAITING_FOR_CHANGE).

(** ** The code implements it *)

Lemma send_msg_frame create (c : client) h :
  match send_msg create c h with (_, (c', _)) => core_of c' = core_of c end.
Proof.
  unfold send_msg. destruct (send_buffer_list_get_new _ h) as [[e|] [s h']]; [|by destruct c].
  destruct (create _) as [sz [b h'']]. by case_if; destruct c.
Qed.

Lemma send_vote_info_frame (c : client) seq ring vote h :
  match qnetd_client_send_vote_info c seq ring vote h with
  | (_, (c', _)) =>
      core_of c' = mk_core (client_ptr c) (client_node_id c) (algorithm_data c) vote
  end.
Proof.
  unfold qnetd_client_send_vote_info. cbv zeta.
  match goal with |- match send_msg ?f ?x h with _ => _ end =>
    pose proof (send_msg_frame f x h) as H; destruct (send_msg f x h) as [r [c' h']] end.
  rewrite H. by case_if; destruct c.
Qed.

Definition count (f : core → bool) (ks : list core) : Z :=
  Z.of_nat (length (filter (λ k, f k = true) ks)).

Lemma count_cons f k ks : count f (k :: ks) = (if f k then 1 else 0) + count f ks.
Proof.
  unfold count. rewrite filter_cons. destruct (f k); case_decide; cbn [length]; try done; lia.
Qed.

Lemma count_bounds f ks : 0 ≤ count f ks ≤ Z.of_nat (length ks).
Proof. unfold count. pose proof (length_filter (λ k, f k = true) ks). lia. Qed.

Lemma count_0 f ks : (count f ks =? 0) = negb (existsb f ks).
Proof.
  induction ks as [|k ks IH]; [done|]. rewrite count_cons. cbn [existsb].
  pose proof (count_bounds f ks). destruct (f k); [|by rewrite Z.add_0_l].
  cbn. apply Z.eqb_neq. lia.
Qed.

Lemma send_votes_loop_spec c leaving ring acks l h n failed l' h' :
  send_votes_loop c leaving ring acks l h = Ok (n, failed, l', h') →
  Z.of_nat (length l) < 2 ^ 64 →
  core_of <$> l' = vote_core (client_node_id c) leaving acks <$> (core_of <$> l) ∧
  n = count (voted (client_node_id c) leaving acks) (core_of <$> l).
Proof.
  revert h n failed l'. induction l as [|x l IH]; intros h n failed l'; cbn [send_votes_loop].
  { by intros [= <- <- <- <-] _. }
  cbn [length fmap list_fmap]. rewrite count_cons. unfold vote_core at 1.
  assert (Hvo : voted (client_node_id c) leaving acks (core_of x) =
    negb ((client_node_id x =? client_node_id c) && leaving) && k_in (sending acks) (core_of x))
    by reflexivity. rewrite Hvo. clear Hvo. cbv zeta.
  destruct ((client_node_id x =? client_node_id c) && leaving).
  - destruct (send_votes_loop c leaving ring acks l h) as [[[[n1 f1] r1] h1]|] eqn:E; [|done].
    intros [= <- <- <- <-] Hlen. destruct (IH _ _ _ _ E) as [IH1 IH2]; [lia|].
    cbn [negb andb fmap list_fmap]. by rewrite IH1, IH2.
  - destruct (algorithm_data x) as [d|] eqn:Ed; [|done].
    cbn [negb andb]. unfold k_in. cbn [k_data core_of]. rewrite Ed.
    match goal with |- context [bool_decide (?v ≠ TLV_VOTE_UNDEFINED)] => set (vote := v) end.
    assert (Hv : bool_decide (vote ≠ TLV_VOTE_UNDEFINED) =
      bool_decide (client_state d = sending acks) ∧
      (client_state d = sending acks → vote = if acks then TLV_VOTE_ACK else TLV_VOTE_NACK)).
    { subst vote. destruct acks, (client_state d); split; first [reflexivity|by intros]. }
    destruct Hv as [-> Hv]. clearbody vote. case_bool_decide as Es.
    + rewrite (Hv Es). clear Hv.
      match goal with |- context [qnetd_client_send_vote_info ?a ?b ?r ?v h] =>
        pose proof (send_vote_info_frame a b r v h) as Hf;
        destruct (qnetd_client_send_vote_info a b r v h) as [rr [x' h1]] end.
      destruct (send_votes_loop c leaving ring acks l h1) as [[[[n1 f1] r1] h2]|] eqn:E; [|done].
      intros [= <- <- <- <-] Hlen. destruct (IH _ _ _ _ E) as [IH1 IH2]; [lia|].
      pose proof (count_bounds (voted (client_node_id c) leaving acks) (core_of <$> l)) as Hb.
      rewrite length_fmap in Hb. rewrite u64_small by lia.
      cbn [fmap list_fmap]. rewrite IH1, IH2, Hf. split; [|lia]. f_equal. by destruct x; simplify_eq/=.
    + destruct (send_votes_loop c leaving ring acks l h) as [[[[n1 f1] r1] h1]|] eqn:E; [|done].
      intros [= <- <- <- <-] Hlen. destruct (IH _ _ _ _ E) as [IH1 IH2]; [lia|].
      cbn [fmap list_fmap]. by rewrite IH1, IH2.
Qed.

Lemma update_client_core ptr f (l : list client) :
  (∀ x, x ∈ l → core_of (f x) = core_of x) →
  core_of <$> ((λ c, if bool_decide (client_ptr c = ptr) then f c else c) <$> l) = core_of <$> l.
Proof.
  intros H. rewrite <- list_fmap_compose. apply list_fmap_ext. intros i x Hx. cbn.
  case_bool_decide; [|done]. apply H. by eapply list_elem_of_lookup_2.
Qed.

Lemma send_votes_spec c leaving ring acks cl h n cl' h' :
  qnetd_algo_ffsplit_send_votes c leaving ring acks (cl, h) = (Ok n, (cl', h')) →
  Z.of_nat (length (client_list cl)) < 2 ^ 64 →
  let ks := core_of <$> client_list cl in
  core_of <$> client_list cl' = vote_core (client_node_id c) leaving acks <$> ks ∧
  n = count (voted (client_node_id c) leaving acks) ks ∧
  cl_algorithm_data cl' = cl_algorithm_data cl.
Proof.
  unfold qnetd_algo_ffsplit_send_votes. intros H Hlen.
  destruct (send_votes_loop _ _ _ _ _ _) as [[[[n1 f1] l1] h1]|] eqn:E; [|done].
  apply send_votes_loop_spec in E as [E1 E2]; [|done]. injection H as <- <- <-. cbn zeta.
  rewrite <- E1, <- E2. destruct f1; [|done]. split; [|done].
  cbn. apply update_client_core. by intros [].
Qed.

Lemma update_nodes_state_spec c leaving sel cl h cl' h' :
  qnetd_algo_ffsplit_update_nodes_state c leaving sel (cl, h) = (Ok tt, (cl', h')) →
  core_of <$> client_list cl' =
    assign_core (client_node_id c) leaving sel <$> (core_of <$> client_list cl) ∧
  cl_algorithm_data cl' = cl_algorithm_data cl ∧ h' = h ∧
  Forall (λ k, is_Some (k_data k)) (core_of <$> client_list cl').
Proof.
  unfold qnetd_algo_ffsplit_update_nodes_state.
  destruct (mapM _ _) as [l|] eqn:E; [|done]. intros [= <- <-]. cbn. split_and!; [|done|done|].
  - apply mapM_Some in E. induction E as [|x y l1 l2 Hxy _ IH]; [done|].
    cbn. f_equal; [|done]. revert Hxy. unfold update_node_state, assign_core, assigned, is_leaving.
    cbn [core_of k_id k_data]. destruct (algorithm_data x); [|done]. cbn.
    destruct (_ && leaving); [by intros [= <-]; destruct x|].
    destruct sel as [m|]; [|by intros [= <-]; destruct x].
    destruct (has_node m _); intros [= <-]; by destruct x.
  - apply mapM_Some in E. rewrite Forall_fmap. induction E as [|x y l1 l2 Hxy _ IH]; [done|].
    constructor; [|done]. revert Hxy. unfold update_node_state. cbn.
    destruct (algorithm_data x); [|done].
    destruct (_ && leaving); [by intros [= <-]; destruct x|].
    destruct sel as [m|]; [|by intros [= <-]; destruct x].
    destruct (has_node m _); intros [= <-]; by destruct x.
Qed.

Lemma vote_core_id id leaving acks ks :
  existsb (voted id leaving acks) ks = false → vote_core id leaving acks <$> ks = ks.
Proof.
  induction ks as [|k ks IH]; [done|]. cbn. intros [Hk Hks]%orb_false_elim.
  unfold vote_core at 1. rewrite Hk. by rewrite IH.
Qed.

Lemma put_cluster_data_Ok f cl h u cl' h' :
  put_cluster_data f (cl, h) = (Ok u, (cl', h')) →
  client_list cl' = client_list cl ∧ h' = h ∧
  ∃ d, cl_algorithm_data cl = Some d ∧ cl_algorithm_data cl' = Some (f d).
Proof.
  unfold put_cluster_data. intros (d & [cl1 h1] & H1 & H2)%bind_Ok.
  unfold get_cluster_data in H1. destruct (cl_algorithm_data cl) as [d'|] eqn:E; [|done].
  injection H1 as <- <- <-. cbn in H2. injection H2 as <- <- <-. cbn.
  split_and!; [done..|]. by exists d'.
Qed.

(** Send the ACKs and set the state of the cluster. *)
Lemma ack_tail_spec c leaving ring cl h cl' h' d :
  (put_cluster_data (set_cluster_state CLUSTER_STATE_SENDING_ACKS);;
   acks ← qnetd_algo_ffsplit_send_votes c leaving ring true;
   (if acks =? 0 then put_cluster_data (set_cluster_state CLUSTER_STATE_WAITING_FOR_CHANGE)
    else mret tt)) (cl, h) = (Ok tt, (cl', h')) →
  Z.of_nat (length (client_list cl)) < 2 ^ 64 → cl_algorithm_data cl = Some d →
  let ks := core_of <$> client_list cl in
  core_of <$> client_list cl' = vote_core (client_node_id c) leaving true <$> ks ∧
  cl_algorithm_data cl' =
    Some (set_cluster_state
            (if existsb (voted (client_node_id c) leaving true) ks
             then CLUSTER_STATE_SENDING_ACKS else CLUSTER_STATE_WAITING_FOR_CHANGE) d).
Proof.
  intros (u & [cl1 h1] & H1 & H2)%bind_Ok Hlen Hd.
  apply put_cluster_data_Ok in H1 as (E1 & -> & d1 & Hd1 & Hd2).
  rewrite Hd in Hd1. injection Hd1 as <-.
  apply bind_Ok in H2 as (n & [cl2 h2] & H3 & H4). rewrite <- E1 in Hlen |- *.
  apply send_votes_spec in H3 as (E3 & En & Ed); [|done]. cbn zeta in *.
  rewrite En, count_0 in H4. rewrite <- E3. destruct (existsb _ _); cbn [negb] in H4.
  - cbn in H4. injection H4 as <- <-. split; [done|]. by rewrite Ed, Hd2.
  - apply put_cluster_data_Ok in H4 as (E4 & -> & d4 & Hd4 & Hd5). rewrite E4. split; [done|].
    rewrite Ed, Hd2 in Hd4. injection Hd4 as <-. by rewrite Hd5.
Qed.

(** What a run of the algorithm does, on each of its ways out. *)
Inductive do_outcome (c : client) (leaving : bool) (ring : tlv_ring_id) (cfg mem : node_list)
    (heur : tlv_heuristics) (cl cl' : cluster) : Z * option tlv_vote → Prop :=
| do_unstable d :
    qnetd_algo_ffsplit_is_membership_stable c leaving ring cfg mem cl = false →
    client_list cl' = client_list cl →
    cl_algorithm_data cl' = Some d →
    cluster_state d = CLUSTER_STATE_WAITING_FOR_STABLE_MEMBERSHIP →
    do_outcome c leaving ring cfg mem heur cl cl'
      (TLV_REPLY_ERROR_CODE_NO_ERROR, Some TLV_VOTE_WAIT_FOR_REPLY)
| do_no_memory d :
    client_list cl' = client_list cl →
    cl_algorithm_data cl' = Some d →
    cluster_state d = CLUSTER_STATE_WAITING_FOR_STABLE_MEMBERSHIP →
    do_outcome c leaving ring cfg mem heur cl cl' (TLV_REPLY_ERROR_CODE_INTERNAL_ERROR, None)
| do_selected qpnl sel ks cl0 :
    client_list cl0 = client_list cl →
    qnetd_algo_ffsplit_is_membership_stable c leaving ring cfg mem cl = true →
    qnetd_algo_ffsplit_select_partition c leaving cfg mem qpnl heur cl0 = Ok sel →
    ks = assign_core (client_node_id c) leaving sel <$> (core_of <$> client_list cl) →
    Forall (λ k, is_Some (k_data k)) ks →
    core_of <$> client_list cl' = fst (send_phase (client_node_id c) leaving ks) →
    cl_algorithm_data cl' =
      Some (mk_ffs_cluster (snd (send_phase (client_node_id c) leaving ks)) (default [] sel)) →
    do_outcome c leaving ring cfg mem heur cl cl'
      (TLV_REPLY_ERROR_CODE_NO_ERROR, Some TLV_VOTE_NO_CHANGE).

Lemma store_quorate_partition_Ok sel cl h b cl' h' :
  store_quorate_partition sel (cl, h) = (Ok b, (cl', h')) →
  client_list cl' = client_list cl ∧ ∃ d l, cl_algorithm_data cl = Some d ∧
  cl_algorithm_data cl' = Some (set_quorate_partition_node_list l d) ∧
  (b = true → l = default [] sel).
Proof.
  unfold store_quorate_partition. destruct (cl_algorithm_data cl) as [d|]; [|done].
  destruct sel as [l|]; cbn.
  - unfold node_list_clone. pose proof (node_list_clone_loop_spec l node_list_init h) as Hc.
    destruct (node_list_clone_loop l _) as [[u|e] [l' h1]].
    + destruct Hc as [-> _]. intros [= <- <- <-]. split; [done|]. by exists d, l.
    + destruct Hc as (_ & -> & _). intros [= <- <- <-]. split; [done|]. by exists d, [].
  - intros [= <- <- <-]. split; [done|]. by exists d, [].
Qed.

(** The stability of the view depends on the list of clients only. *)
Lemma stable_client_list c leaving ring cfg mem cl cl' :
  client_list cl' = client_list cl →
  qnetd_algo_ffsplit_is_membership_stable c leaving ring cfg mem cl' =
  qnetd_algo_ffsplit_is_membership_stable c leaving ring cfg mem cl.
Proof.
  intros E. unfold qnetd_algo_ffsplit_is_membership_stable, memberships_match, member_matches,
    qnetd_cluster_find_client_by_node_id. by rewrite E.
Qed.

Lemma do_spec c leaving ring cfg mem heur cl h res cl' h' :
  qnetd_algo_ffsplit_do c leaving ring cfg mem heur (cl, h) = (Ok res, (cl', h')) →
  Z.of_nat (length (client_list cl)) < 2 ^ 64 →
  do_outcome c leaving ring cfg mem heur cl cl' res.
Proof.
  unfold qnetd_algo_ffsplit_do. intros (u & [cl1 h1] & H1 & H2)%bind_Ok Hlen.
  apply put_cluster_data_Ok in H1 as (E1 & -> & d1 & Hd1 & Hd2).
  apply bind_Ok in H2 as ([cl1' ?] & s & [= <- <- <-] & H2).
  rewrite (stable_client_list _ _ _ _ _ _ _ E1) in H2.
  destruct (qnetd_algo_ffsplit_is_membership_stable _ _ _ _ _ _) eqn:Es; cbn [negb] in H2;
    [|injection H2 as <- <- <-; by econstructor].
  apply bind_Ok in H2 as (cd & [cl2 h2] & H2 & H3). unfold get_cluster_data in H2.
  rewrite Hd2 in H2. injection H2 as <- <- <-.
  destruct (qnetd_algo_ffsplit_select_partition _ _ _ _ _ _ _) as [sel|] eqn:Esel; [|done].
  apply bind_Ok in H3 as (b & [cl3 h3] & H4 & H5).
  apply store_quorate_partition_Ok in H4 as (E4 & d4 & l4 & Hd4 & Hd5 & Hl4).
  rewrite Hd2 in Hd4. injection Hd4 as <-.
  destruct b; cbn [negb] in H5;
    [|injection H5 as <- <- <-; eapply do_no_memory; [congruence|exact Hd5|done]].
  rewrite Hl4 in Hd5 by done. clear Hl4.
  apply bind_Ok in H5 as ([] & [cl5 h5] & H5 & H6).
  apply update_nodes_state_spec in H5 as (E5 & Hd6 & -> & Hall).
  apply bind_Ok in H6 as (u6 & [cl6 h6] & H6 & H7).
  apply put_cluster_data_Ok in H6 as (E6 & -> & d6 & Hd7 & Hd8).
  rewrite Hd6, Hd5 in Hd7. injection Hd7 as <-.
  apply bind_Ok in H7 as (n & [cl7 h7] & H7 & H8).
  rewrite E4, E1 in E5. rewrite <- E6 in E5.
  assert (Hlen6 : Z.of_nat (length (client_list cl6)) < 2 ^ 64).
  { apply (f_equal length) in E5. rewrite !length_fmap in E5. by rewrite E5. }
  apply send_votes_spec in H7 as (E7 & En & Hd9); [|done]. cbn zeta in *.
  apply bind_Ok in H8 as ([] & [cl8 h8] & H8 & H9). injection H9 as <- <- <-.
  rewrite En, count_0 in H8.
  assert (Hcl : core_of <$> client_list cl8 =
      fst (send_phase (client_node_id c) leaving (core_of <$> client_list cl6)) ∧
    cl_algorithm_data cl8 = Some (mk_ffs_cluster
      (snd (send_phase (client_node_id c) leaving (core_of <$> client_list cl6)))
      (default [] sel))).
  { unfold send_phase. destruct (existsb (voted _ _ false) _) eqn:Ex; cbn [negb fst snd] in *.
    - cbn in H8. injection H8 as <- <-. by rewrite Hd9, Hd8.
    - rewrite vote_core_id in E7 by done.
      eapply ack_tail_spec in H8 as [E8 Hd10]; [|..|by rewrite Hd9, Hd8].
      + rewrite E8, Hd10, E7. split; reflexivity.
      + apply (f_equal length) in E7. rewrite !length_fmap in E7. by rewrite E7. }
  destruct Hcl as [Hcl1 Hcl2]. rewrite E6 in E5, Hcl1, Hcl2.
  eapply (do_selected _ _ _ _ _ _ _ _ _ _ _ cl1); eauto.
Qed.

(** ** The reply of a client *)

(** The client at [ptr] confirmed its vote. *)
Definition confirm_core (ptr : nat) (d : ffsplit_client_data) (k : core) : core :=
  if bool_decide (k_ptr k = ptr)
  then mk_core (k_ptr k) (k_id k) (Some (set_client_state CLIENT_STATE_WAITING_FOR_CHANGE d)) (k_vote k)
  else k.

(** What the cluster does when a vote was confirmed. *)
Definition reply_phase (id : Z) (ks : list core) (st : ffsplit_cluster_state) :
    list core * ffsplit_cluster_state :=
  match st with
  | CLUSTER_STATE_SENDING_NACKS =>
      if existsb (k_in CLIENT_STATE_SENDING_NACK) ks then (ks, st)
      else (vote_core id false true <$> ks,
            if existsb (voted id false true) ks then CLUSTER_STATE_SENDING_ACKS
            else CLUSTER_STATE_WAITING_FOR_CHANGE)
  | CLUSTER_STATE_SENDING_ACKS =>
      (ks, if existsb (k_in CLIENT_STATE_SENDING_ACK) ks then st
           else CLUSTER_STATE_WAITING_FOR_CHANGE)
  | _ => (ks, st)
  end.

Lemma no_clients_Ok acks cl h n cl' h' :
  qnetd_algo_ffsplit_no_clients_in_sending_state acks (cl, h) = (Ok n, (cl', h')) →
  cl' = cl ∧ (n =? 0) = negb (existsb (k_in (sending acks)) (core_of <$> client_list cl)).
Proof.
  unfold qnetd_algo_ffsplit_no_clients_in_sending_state. destruct (forallb _ _); [|done].
  intros [= <- <- <-]. split; [done|]. rewrite <- count_0. unfold count. do 2 f_equal.
  generalize (client_list cl) as l. induction l as [|x l IH]; [done|].
  rewrite fmap_cons, !filter_cons.
  assert (E : in_sending_state acks x = k_in (sending acks) (core_of x)) by reflexivity.
  rewrite E. case_decide; cbn [length]; lia.
Qed.

Lemma reply_spec c seq cl h r cl' h' d cd :
  qnetd_algo_ffsplit_vote_info_reply_received c seq (cl, h) = (Ok r, (cl', h')) →
  Z.of_nat (length (client_list cl)) < 2 ^ 64 →
  algorithm_data c = Some d → cl_algorithm_data cl = Some cd →
  r = TLV_REPLY_ERROR_CODE_NO_ERROR ∧
  if vote_info_expected_seq_num d =? seq then
    let p := reply_phase (client_node_id c)
               (confirm_core (client_ptr c) d <$> (core_of <$> client_list cl))
               (cluster_state cd) in
    core_of <$> client_list cl' = fst p ∧
    cl_algorithm_data cl' = Some (set_cluster_state (snd p) cd)
  else cl' = cl.
Proof.
  intros H Hlen Hd Hcd. unfold qnetd_algo_ffsplit_vote_info_reply_received in H.
  apply bind_Ok in H as (cd' & s1 & H1 & H). unfold get_cluster_data in H1. rewrite Hcd in H1.
  injection H1 as <- <-. rewrite Hd in H.
  destruct (vote_info_expected_seq_num d =? seq); cbn [negb] in H; [|by injection H as <- <- <-].
  apply bind_Ok in H as (u & [cl1 h1] & H1 & H). cbn in H1. injection H1 as _ <- <-.
  match type of H with _ (?x, _) = _ => set (cl1 := x) in * end.
  assert (Hcl1 : core_of <$> client_list cl1 =
    confirm_core (client_ptr c) d <$> (core_of <$> client_list cl)).
  { subst cl1. cbn. rewrite <- !list_fmap_compose. apply list_fmap_ext. intros i x _. cbn.
    unfold confirm_core. cbn. destruct (decide (client_ptr x = client_ptr c));
      [rewrite !bool_decide_eq_true_2 by done; by destruct x|by rewrite !bool_decide_eq_false_2]. }
  assert (Hcd1 : cl_algorithm_data cl1 = Some cd) by done.
  assert (Hl1 : Z.of_nat (length (client_list cl1)) < 2 ^ 64).
  { apply (f_equal length) in Hcl1. rewrite !length_fmap in Hcl1. by rewrite Hcl1. }
  clearbody cl1. rewrite <- Hcl1. clear Hcl1.
  destruct (cluster_state cd) eqn:Est; cbn [reply_phase].
  - rewrite !bool_decide_eq_false_2 in H by done. injection H as <- <- <-.
    split_and!; [done..|]. rewrite Hcd1. by destruct cd; simplify_eq/=.
  - rewrite !bool_decide_eq_false_2 in H by done. injection H as <- <- <-.
    split_and!; [done..|]. rewrite Hcd1. by destruct cd; simplify_eq/=.
  - rewrite bool_decide_eq_true_2 in H by done.
    apply bind_Ok in H as (n & [cl2 h2] & H2 & H). apply no_clients_Ok in H2 as [-> Hn].
    rewrite Hn in H. cbn [sending] in *. apply bind_Ok in H as ([] & [cl3 h3] & H3 & H4).
    injection H4 as <- <- <-. split; [done|]. destruct (existsb (k_in _) _); cbn [negb] in H3.
    + cbn in H3. injection H3 as <- <-. split; [done|]. rewrite Hcd1. by destruct cd; simplify_eq/=.
    + eapply ack_tail_spec in H3; [exact H3|done|done].
  - rewrite bool_decide_eq_false_2, bool_decide_eq_true_2 in H by done.
    apply bind_Ok in H as (n & [cl2 h2] & H2 & H). apply no_clients_Ok in H2 as [-> Hn].
    rewrite Hn in H. cbn [sending] in *. apply bind_Ok in H as ([] & [cl3 h3] & H3 & H4).
    injection H4 as <- <- <-. split; [done|]. destruct (existsb (k_in _) _); cbn [negb] in H3.
    + cbn in H3. injection H3 as <- <-. split; [done|]. rewrite Hcd1. by destruct cd; simplify_eq/=.
    + apply put_cluster_data_Ok in H3 as (E3 & _ & d3 & Hd3 & Hd4). rewrite E3. split; [done|].
      rewrite Hcd1 in Hd3. by injection Hd3 as <-.
Qed.

(** ** Runs of the server

    The events of one cluster: a client is added and initialised, sends a message the
    algorithm is called for, or is disconnected.  A handler runs to its end before the
    next event; the process does not survive a handler that fails. *)
Inductive ffsplit_step : state → state → Prop :=
| step_join c cl h s' :
    client_ptr c ∉ (client_ptr <$> client_list cl) →
    client_node_id c ∉ (client_node_id <$> client_list cl) →
    Z.of_nat (length (client_list cl)) + 1 < 2 ^ 64 →
    qnetd_algo_ffsplit_client_init c (set_client_list (insert_client c (client_list cl)) cl, h) =
      (Ok TLV_REPLY_ERROR_CODE_NO_ERROR, s') →
    ffsplit_step (cl, h) s'
| step_config c nodes initial r cl h s' :
    c ∈ client_list cl →
    qnetd_algo_ffsplit_config_node_list_received c nodes initial (cl, h) = (Ok r, s') →
    ffsplit_step (cl, h) s'
| step_membership c ring nodes heur r cl h s' :
    c ∈ client_list cl →
    qnetd_algo_ffsplit_membership_node_list_received c ring nodes heur (cl, h) = (Ok r, s') →
    ffsplit_step (cl, h) s'
| step_heuristics c heur r cl h s' :
    c ∈ client_list cl →
    qnetd_algo_ffsplit_heuristics_change_received c heur (cl, h) = (Ok r, s') →
    ffsplit_step (cl, h) s'
| step_reply c seq r cl h s' :
    c ∈ client_list cl →
    qnetd_algo_ffsplit_vote_info_reply_received c seq (cl, h) = (Ok r, s') →
    ffsplit_step (cl, h) s'
| step_disconnect c cl h cl' h' :
    c ∈ client_list cl →
    qnetd_algo_ffsplit_client_disconnect c false (cl, h) = (Ok tt, (cl', h')) →
    ffsplit_step (cl, h)
      (set_client_list (filter (λ x, client_ptr x ≠ client_ptr c) (client_list cl')) cl', h').

(** What the rest of the server does in between.  It stores what the clients send and writes
    to the sockets, but leaves the identity of the clients and the data of the algorithm
    alone - until a client of the cluster sends INIT again: that may store another node id
    ([qnetd_client_msg_received_init] stores it before it refuses the message), and after a
    PREINIT with another name even start the algorithm anew, so nothing is known of the
    clients then but their addresses.  The label tells such a step from the others. *)
Inductive server_step : bool → state → state → Prop :=
| server_stores cl h l' h' :
    Forall2 (λ x x', client_ptr x' = client_ptr x ∧ client_node_id x' = client_node_id x ∧
                     algorithm_data x' = algorithm_data x) (client_list cl) l' →
    server_step false (cl, h) (set_client_list l' cl, h')
| server_second_init cl h l' d h' :
    Forall2 (λ x x', client_ptr x' = client_ptr x) (client_list cl) l' →
    server_step true (cl, h) (set_client_list l' (set_cl_algorithm_data d cl), h').

(** Runs until the server goes down, with the number of INITs of clients that were in the
    cluster already. *)
Inductive server_run : nat → state → state → Prop :=
| run_start s : server_run 0 s s
| run_event n s0 s s' : server_run n s0 s → ffsplit_step s s' → server_run n s0 s'
| run_server n again s0 s s' :
    server_run n s0 s → server_step again s s' → server_run (if again then S n else n) s0 s'.

(** Before the first client and after the last one there is no cluster: no client is
    listed. *)
Definition reachable (second_inits : nat) (s : state) : Prop :=
  ∃ s0, client_list (fst s0) = [] ∧ server_run second_inits s0 s.

(** ** The invariant *)

(** What the state of the cluster says of its clients. *)
Definition protocol_ok (st : ffsplit_cluster_state) (ks : list core) : Prop :=
  let nack := existsb (k_in CLIENT_STATE_SENDING_NACK) ks in
  let ack := existsb (k_in CLIENT_STATE_SENDING_ACK) ks in
  match st with
  | CLUSTER_STATE_WAITING_FOR_CHANGE => nack = false ∧ ack = false
  | CLUSTER_STATE_WAITING_FOR_STABLE_MEMBERSHIP => True
  | CLUSTER_STATE_SENDING_NACKS => nack = true
  | CLUSTER_STATE_SENDING_ACKS => nack = false ∧ ack = true
  end.

Record ffs_inv (cl : cluster) (cd : ffsplit_cluster_data) : Prop := {
  fi_cluster : cl_algorithm_data cl = Some cd;
  fi_ptrs : NoDup (k_ptr <$> (core_of <$> client_list cl));
  fi_ids : NoDup (k_id <$> (core_of <$> client_list cl));
  fi_length : Z.of_nat (length (client_list cl)) < 2 ^ 64;
  fi_data : Forall (λ k, is_Some (k_data k)) (core_of <$> client_list cl);
  fi_protocol : protocol_ok (cluster_state cd) (core_of <$> client_list cl)
}.

(** Votes and assignments keep the identity; votes keep the state as well. *)
Lemma vote_core_ident id leaving acks k :
  k_ptr (vote_core id leaving acks k) = k_ptr k ∧ k_id (vote_core id leaving acks k) = k_id k ∧
  (is_Some (k_data k) → is_Some (k_data (vote_core id leaving acks k))).
Proof. unfold vote_core. case_if; [|done]. cbn. split_and!; [done..|]. intros [d ->]. by eexists. Qed.

Lemma k_in_vote_core s id leaving acks k : k_in s (vote_core id leaving acks k) = k_in s k.
Proof. unfold vote_core. case_if; [|done]. unfold k_in. cbn. by destruct (k_data k). Qed.

(** The outcome of the sending of votes, without the client that leaves. *)
Lemma send_phase_ok id leaving ks :
  protocol_ok (snd (send_phase id leaving ks))
    (filter (λ k, is_leaving id leaving k = false) (fst (send_phase id leaving ks))).
Proof.
  assert (Hv : ∀ s acks, existsb (k_in s)
      (filter (λ k, is_leaving id leaving k = false) (vote_core id leaving acks <$> ks)) =
    existsb (λ k, negb (is_leaving id leaving k) && k_in s k) ks).
  { intros s acks. rewrite existsb_filter, existsb_fmap. apply existsb_ext_in. intros k _.
    rewrite k_in_vote_core. unfold is_leaving.
    destruct (vote_core_ident id leaving acks k) as (_ & -> & _).
    by destruct (_ && leaving). }
  unfold protocol_ok, send_phase.
  destruct (existsb (voted id leaving false) ks) eqn:E1; cbn [fst snd]; rewrite ?Hv; [done|].
  by destruct (existsb (voted id leaving true) ks) eqn:E2.
Qed.

Lemma send_phase_ident id leaving ks :
  k_ptr <$> fst (send_phase id leaving ks) = k_ptr <$> ks ∧
  k_id <$> fst (send_phase id leaving ks) = k_id <$> ks ∧
  (Forall (λ k, is_Some (k_data k)) ks →
   Forall (λ k, is_Some (k_data k)) (fst (send_phase id leaving ks))).
Proof.
  assert (H : ∀ acks, k_ptr <$> (vote_core id leaving acks <$> ks) = k_ptr <$> ks ∧
    k_id <$> (vote_core id leaving acks <$> ks) = k_id <$> ks ∧
    (Forall (λ k, is_Some (k_data k)) ks →
     Forall (λ k, is_Some (k_data k)) (vote_core id leaving acks <$> ks))).
  { intros acks. rewrite <- !list_fmap_compose. split_and!.
    - apply list_fmap_ext. intros i k _. apply vote_core_ident.
    - apply list_fmap_ext. intros i k _. apply vote_core_ident.
    - intros Hall. rewrite Forall_fmap. eapply Forall_impl; [exact Hall|]. intros k.
      apply vote_core_ident. }
  unfold send_phase. by destruct (existsb _ ks); cbn [fst].
Qed.

(** The facts of the invariant that only the list of clients matters for. *)
Lemma do_inv c leaving ring cfg mem heur cl cl' cd res :
  ffs_inv cl cd → do_outcome c leaving ring cfg mem heur cl cl' res →
  ∃ cd', cl_algorithm_data cl' = Some cd' ∧
    k_ptr <$> (core_of <$> client_list cl') = k_ptr <$> (core_of <$> client_list cl) ∧
    k_id <$> (core_of <$> client_list cl') = k_id <$> (core_of <$> client_list cl) ∧
    Forall (λ k, is_Some (k_data k)) (core_of <$> client_list cl') ∧
    protocol_ok (cluster_state cd')
      (filter (λ k, is_leaving (client_node_id c) leaving k = false) (core_of <$> client_list cl')).
Proof.
  intros [Hcd Hp Hi Hl Hd Hok]. destruct 1 as [d _ El Ed Es|d El Ed Es|qpnl sel ks cl0 _ _ _ Ek Hall El Ed].
  - exists d. rewrite El, Es. done.
  - exists d. rewrite El, Es. done.
  - pose proof (send_phase_ident (client_node_id c) leaving ks) as (E1 & E2 & E3).
    eexists. split; [exact Ed|]. rewrite El, E1, E2, Ek, <- !list_fmap_compose.
    split_and!; [done|done| |].
    + rewrite <- !list_fmap_compose in Ek. rewrite <- Ek. by apply E3.
    + rewrite list_fmap_compose, <- Ek. cbn [cluster_state]. apply send_phase_ok.
Qed.

Lemma length_of_ptrs (cl cl' : cluster) :
  k_ptr <$> (core_of <$> client_list cl') = k_ptr <$> (core_of <$> client_list cl) →
  length (client_list cl') = length (client_list cl).
Proof. intros E. apply (f_equal length) in E. by rewrite !length_fmap in E. Qed.

Lemma filter_all {A} (P : A → Prop) `{∀ x, Decision (P x)} (l : list A) : (∀ x, x ∈ l → P x) → filter P l = l.
Proof.
  induction l as [|x l IH]; intros H0; [done|]. rewrite filter_cons_True by (apply H0; left).
  f_equal. apply IH. intros y Hy. apply H0. by right.
Qed.

Lemma do_stays_inv c ring cfg mem heur cl cl' cd res :
  ffs_inv cl cd → do_outcome c false ring cfg mem heur cl cl' res → ∃ cd', ffs_inv cl' cd'.
Proof.
  intros Hinv Ho. destruct (do_inv _ _ _ _ _ _ _ _ _ _ Hinv Ho) as (cd' & E1 & E2 & E3 & E4 & E5).
  destruct Hinv. exists cd'. split; [done|by rewrite E2|by rewrite E3| |done|].
  - by rewrite (length_of_ptrs _ _ E2).
  - rewrite filter_all in E5; [done|]. intros k _. unfold is_leaving. by rewrite andb_false_r.
Qed.

(** A handler that may run the algorithm for a client that stays. *)
Lemma handler_inv (m : M state (Z * option tlv_vote)) c cl h r cl' h' cd ring cfg mem heur :
  (m = qnetd_algo_ffsplit_do c false ring cfg mem heur ∨ ∃ x, m = mret x) →
  ffs_inv cl cd → m (cl, h) = (Ok r, (cl', h')) → ∃ cd', ffs_inv cl' cd'.
Proof.
  intros [->|[x ->]] Hinv H.
  - eapply do_stays_inv; [done|]. eapply do_spec; [done|]. apply Hinv.
  - injection H as _ <- _. by exists cd.
Qed.

(** A reply only takes clients out of the sending states. *)
Lemma confirm_not_in s ptr d ks :
  s ≠ CLIENT_STATE_WAITING_FOR_CHANGE → existsb (k_in s) ks = false →
  existsb (k_in s) (confirm_core ptr d <$> ks) = false.
Proof.
  intros Hs. induction ks as [|k ks IH]; [done|]. cbn [existsb fmap list_fmap].
  intros [Hk Hks]%orb_false_elim. rewrite IH by done. rewrite orb_false_r.
  unfold confirm_core. case_if; [|done]. unfold k_in. cbn. by rewrite bool_decide_eq_false_2.
Qed.

Lemma voted_stays id acks ks :
  existsb (voted id false acks) ks = existsb (k_in (sending acks)) ks.
Proof.
  apply existsb_ext_in. intros k _. unfold voted, is_leaving. by rewrite andb_false_r.
Qed.

Lemma existsb_k_in_vote s id leaving acks ks :
  existsb (k_in s) (vote_core id leaving acks <$> ks) = existsb (k_in s) ks.
Proof. rewrite existsb_fmap. apply existsb_ext_in. intros. apply k_in_vote_core. Qed.

Lemma reply_phase_ok id ptr d ks st :
  protocol_ok st ks →
  let p := reply_phase id (confirm_core ptr d <$> ks) st in protocol_ok (snd p) (fst p).
Proof.
  cbn zeta. intros Hok. destruct st; cbn [reply_phase fst snd].
  - destruct Hok. split; by apply confirm_not_in.
  - done.
  - destruct (existsb (k_in CLIENT_STATE_SENDING_NACK) _) eqn:En; cbn [fst snd]; [done|].
    rewrite voted_stays. cbn [sending].
    destruct (existsb (k_in CLIENT_STATE_SENDING_ACK) _) eqn:Ea; cbn [protocol_ok];
      by rewrite !existsb_k_in_vote.
  - destruct Hok as [Hn _]. apply (confirm_not_in _ ptr d) in Hn; [|done].
    by destruct (existsb (k_in CLIENT_STATE_SENDING_ACK) _) eqn:Ea; cbn [protocol_ok].
Qed.

Lemma reply_phase_ident id ks st :
  let ks' := fst (reply_phase id ks st) in
  k_ptr <$> ks' = k_ptr <$> ks ∧ k_id <$> ks' = k_id <$> ks ∧
  (Forall (λ k, is_Some (k_data k)) ks → Forall (λ k, is_Some (k_data k)) ks').
Proof.
  cbn zeta. destruct st; cbn [reply_phase fst]; try done. case_if; [done|]. cbn [fst].
  rewrite <- !list_fmap_compose. split_and!.
  - apply list_fmap_ext. intros i k _. apply vote_core_ident.
  - apply list_fmap_ext. intros i k _. apply vote_core_ident.
  - intros Hall. rewrite Forall_fmap. eapply Forall_impl; [exact Hall|]. intros k.
    apply vote_core_ident.
Qed.

Lemma reply_inv c seq cl h r cl' h' cd :
  ffs_inv cl cd → c ∈ client_list cl →
  qnetd_algo_ffsplit_vote_info_reply_received c seq (cl, h) = (Ok r, (cl', h')) →
  ∃ cd', ffs_inv cl' cd'.
Proof.
  intros [Hcd Hp Hi Hl Hd Hok] Hc H.
  assert (Hdc : is_Some (algorithm_data c)).
  { rewrite Forall_forall in Hd. apply (Hd (core_of c)). by apply list_elem_of_fmap_2. }
  destruct Hdc as [d Hdc]. eapply reply_spec in H as [_ H]; [|done..].
  destruct (_ =? seq); [|subst; by exists cd]. cbn zeta in H. destruct H as [El Ed].
  set (ks := confirm_core (client_ptr c) d <$> (core_of <$> client_list cl)) in *.
  assert (Hk : k_ptr <$> ks = k_ptr <$> (core_of <$> client_list cl) ∧
    k_id <$> ks = k_id <$> (core_of <$> client_list cl) ∧ Forall (λ k, is_Some (k_data k)) ks).
  { subst ks. rewrite <- !list_fmap_compose. split_and!.
    - apply list_fmap_ext. intros i x _. cbn. unfold confirm_core. by case_if.
    - apply list_fmap_ext. intros i x _. cbn. unfold confirm_core. by case_if.
    - rewrite Forall_fmap in Hd |- *. eapply Forall_impl; [exact Hd|]. intros x Hx. cbn.
      unfold confirm_core. case_if; [by eexists|done]. }
  destruct Hk as (K1 & K2 & K3).
  pose proof (reply_phase_ident (client_node_id c) ks (cluster_state cd)) as (R1 & R2 & R3).
  rewrite <- El in R1, R2, R3. rewrite K1 in R1. rewrite K2 in R2.
  eexists. split; [exact Ed|by rewrite R1|by rewrite R2| |by apply R3|].
  - by rewrite (length_of_ptrs _ _ R1).
  - rewrite El. cbn [cluster_state set_cluster_state]. by apply reply_phase_ok.
Qed.

Lemma join_spec c cl h cl' h' :
  qnetd_algo_ffsplit_client_init c (set_client_list (insert_client c (client_list cl)) cl, h) =
    (Ok TLV_REPLY_ERROR_CODE_NO_ERROR, (cl', h')) →
  client_ptr c ∉ (client_ptr <$> client_list cl) →
  core_of <$> client_list cl' ≡ₚ
    mk_core (client_ptr c) (client_node_id c) (Some (mk_ffs_client CLIENT_STATE_WAITING_FOR_CHANGE 0))
      (last_sent_vote c) :: (core_of <$> client_list cl) ∧
  cl_algorithm_data cl' =
    match client_list cl with
    | [] => Some (mk_ffs_cluster CLUSTER_STATE_WAITING_FOR_CHANGE node_list_init)
    | _ => cl_algorithm_data cl
    end.
Proof.
  intros H Hnew. unfold qnetd_algo_ffsplit_client_init in H.
  rewrite cluster_size_length in H. cbn [client_list set_client_list] in H.
  set (f := set_algorithm_data (Some (mk_ffs_client CLIENT_STATE_WAITING_FOR_CHANGE 0))) in *.
  assert (Hcore : core_of <$> ((λ x, if bool_decide (client_ptr x = client_ptr c) then f x else x) <$>
      insert_client c (client_list cl)) ≡ₚ core_of (f c) :: (core_of <$> client_list cl)).
  { rewrite insert_client_perm, !fmap_cons. rewrite bool_decide_eq_true_2 by done.
    rewrite <- list_fmap_compose. apply Permutation_skip, reflexive_eq, list_fmap_ext.
    intros i x Hx. cbn. rewrite bool_decide_eq_false_2; [done|]. intros E. apply Hnew.
    rewrite <- E. apply list_elem_of_fmap_2. by eapply list_elem_of_lookup_2. }
  assert (Hf : core_of (f c) = mk_core (client_ptr c) (client_node_id c)
    (Some (mk_ffs_client CLIENT_STATE_WAITING_FOR_CHANGE 0)) (last_sent_vote c)) by (by destruct c).
  rewrite Hf in Hcore. clear Hf. pose proof (Permutation_length (insert_client_perm c (client_list cl))) as Hl.
  rewrite Hl in H. destruct (client_list cl) as [|x l] eqn:El; cbn [length] in H.
  - change (Z.of_nat 1 =? 1) with true in H. cbv iota in H.
    destruct (malloc h) as [[j|] h1]; cbn [negb] in H; [|done].
    destruct (malloc h1) as [[j1|] h2]; [|done]. injection H as <- <-. by split.
  - rewrite (proj2 (Z.eqb_neq _ _)) in H by lia. cbn [negb] in H.
    destruct (malloc h) as [[j|] h1]; [|done]. injection H as <- <-. by split.
Qed.

Definition inv_state (s : state) : Prop :=
  client_list (fst s) = [] ∨ ∃ cd, ffs_inv (fst s) cd.

Lemma protocol_ok_new st k ks ks' :
  k_in CLIENT_STATE_SENDING_NACK k = false → k_in CLIENT_STATE_SENDING_ACK k = false →
  ks' ≡ₚ k :: ks → protocol_ok st ks → protocol_ok st ks'.
Proof.
  intros Hn Ha Hp. unfold protocol_ok. rewrite !(existsb_perm _ _ _ Hp). cbn [existsb].
  by rewrite Hn, Ha.
Qed.

Lemma join_inv c cl h cl' h' :
  inv_state (cl, h) →
  client_ptr c ∉ (client_ptr <$> client_list cl) →
  client_node_id c ∉ (client_node_id <$> client_list cl) →
  Z.of_nat (length (client_list cl)) + 1 < 2 ^ 64 →
  qnetd_algo_ffsplit_client_init c (set_client_list (insert_client c (client_list cl)) cl, h) =
    (Ok TLV_REPLY_ERROR_CODE_NO_ERROR, (cl', h')) →
  inv_state (cl', h').
Proof.
  intros Hinv Hp Hi Hl H. apply join_spec in H as [Hc Hd]; [|done]. right. cbn [fst].
  set (k := mk_core _ _ _ _) in *.
  assert (Hlen : length (client_list cl') = S (length (client_list cl))).
  { apply Permutation_length in Hc. cbn [length] in Hc. by rewrite !length_fmap in Hc. }
  assert (Hold : ∃ cd, cl_algorithm_data cl' = Some cd ∧
    NoDup (k_ptr <$> (core_of <$> client_list cl)) ∧ NoDup (k_id <$> (core_of <$> client_list cl)) ∧
    Forall (λ k, is_Some (k_data k)) (core_of <$> client_list cl) ∧
    protocol_ok (cluster_state cd) (core_of <$> client_list cl)).
  { rewrite Hd. destruct Hinv as [E|[cd [E1 E2 E3 _ E5 E6]]]; cbn [fst] in *.
    - rewrite E. eexists. split; [done|]. repeat split; constructor.
    - destruct (client_list cl) eqn:E; [|by exists cd]. eexists. split; [done|].
      repeat split; constructor. }
  destruct Hold as (cd & Ecd & Np & Ni & Hall & Hok). exists cd. split; [done|..].
  - rewrite (fmap_Permutation k_ptr _ _ Hc), fmap_cons. apply NoDup_cons. split; [|done].
    by rewrite <- list_fmap_compose.
  - rewrite (fmap_Permutation k_id _ _ Hc), fmap_cons. apply NoDup_cons. split; [|done].
    by rewrite <- list_fmap_compose.
  - rewrite Hlen. lia.
  - eapply Forall_perm; [symmetry; exact Hc|]. constructor; [by eexists|done].
  - eapply (protocol_ok_new _ k); [done..|exact Hc|done].
Qed.

(** A leaving client is found by its address as well as by its node id. *)
Lemma leaving_filter cl cd c (l' : list client) :
  ffs_inv cl cd → c ∈ client_list cl →
  k_ptr <$> (core_of <$> l') = k_ptr <$> (core_of <$> client_list cl) →
  k_id <$> (core_of <$> l') = k_id <$> (core_of <$> client_list cl) →
  core_of <$> filter (λ x, client_ptr x ≠ client_ptr c) l' =
  filter (λ k, is_leaving (client_node_id c) true k = false) (core_of <$> l').
Proof.
  intros [_ Np Ni _ _ _] Hc Ep Ei. rewrite <- Ep in Np. rewrite <- Ei in Ni.
  rewrite <- !list_fmap_compose in Np, Ni.
  assert (Hc' : ∃ c', c' ∈ l' ∧ client_ptr c' = client_ptr c ∧ client_node_id c' = client_node_id c).
  { apply list_elem_of_lookup in Hc as [i Hc].
    pose proof (f_equal (λ l : list nat, l !! i) Ep) as Ep'.
    pose proof (f_equal (λ l : list Z, l !! i) Ei) as Ei'.
    cbv beta in Ep', Ei'. rewrite !list_lookup_fmap, Hc in Ep'.
    rewrite !list_lookup_fmap, Hc in Ei'.
    destruct (l' !! i) as [c'|] eqn:E; [|done]. exists c'. injection Ep'; injection Ei'; intros.
    split; [by eapply list_elem_of_lookup_2|done]. }
  destruct Hc' as (c' & Hc' & <- & <-). apply fmap_filter. intros x Hx.
  unfold is_leaving. rewrite andb_true_r, Z.eqb_neq. cbn [k_id core_of].
  split; intros Hne E; apply Hne.
  - by rewrite (NoDup_fmap_inj _ _ x c' Ni Hx Hc' E).
  - by rewrite (NoDup_fmap_inj _ _ x c' Np Hx Hc' E).
Qed.

Lemma disconnect_spec c cl h cl' h' :
  qnetd_algo_ffsplit_client_disconnect c false (cl, h) = (Ok tt, (cl', h')) →
  ∃ res cl1 h1,
    qnetd_algo_ffsplit_do c true (last_ring_id c) (configuration_node_list c)
      (last_membership_node_list c) (last_heuristics c) (cl, h) = (Ok res, (cl1, h1)) ∧
    filter (λ x, client_ptr x ≠ client_ptr c) (client_list cl') =
      filter (λ x, client_ptr x ≠ client_ptr c) (client_list cl1) ∧
    cl_algorithm_data cl' =
      (if Z.of_nat (length (client_list cl1)) =? 1 then None else cl_algorithm_data cl1).
Proof.
  unfold qnetd_algo_ffsplit_client_disconnect. cbn [negb].
  intros (u & [cl2 h2] & H1 & H2)%bind_Ok. apply bind_Ok in H1 as (res & [cl1 h1] & H1 & Hr).
  injection Hr as _ <- <-. exists res, cl1, h1. split; [done|].
  apply bind_Ok in H2 as (u' & [cl3 h3] & H2 & H3). cbn in H2. injection H2 as _ <- <-.
  cbn in H3. injection H3 as <- _. rewrite cluster_size_length. cbn [update_client set_client_list client_list].
  rewrite length_fmap. match goal with |- context [if ?b then _ else _] => destruct b end;
    cbn [set_cl_algorithm_data client_list cl_algorithm_data set_client_list]; (split; [|done]).
  all: apply (filter_update client_ptr); by intros [].
Qed.

Lemma Forall_filter_keep {A} (P Q : A → Prop) `{∀ x, Decision (Q x)} l :
  Forall P l → Forall P (filter Q l).
Proof. rewrite !Forall_forall. intros HP x [_ Hx]%list_elem_of_filter. by apply HP. Qed.

Lemma disconnect_inv c cl h cl' h' :
  inv_state (cl, h) → c ∈ client_list cl →
  qnetd_algo_ffsplit_client_disconnect c false (cl, h) = (Ok tt, (cl', h')) →
  inv_state (set_client_list (filter (λ x, client_ptr x ≠ client_ptr c) (client_list cl')) cl', h').
Proof.
  intros [E|[cd Hinv]] Hc H; cbn [fst] in *; [rewrite E in Hc; by inversion Hc|].
  apply disconnect_spec in H as (res & cl1 & h1 & H & Ef & Ed).
  apply do_spec in H; [|apply Hinv].
  destruct (do_inv _ _ _ _ _ _ _ _ _ _ Hinv H) as (cd' & D1 & D2 & D3 & D4 & D5).
  pose proof (leaving_filter _ _ _ _ Hinv Hc D2 D3) as Hlf. rewrite <- Ef in Hlf.
  rewrite <- Hlf in D5. unfold inv_state. cbn [fst set_client_list client_list].
  destruct (filter _ (client_list cl')) as [|x l] eqn:El; [by left|]. right. exists cd'.
  assert (Hsub : core_of <$> (x :: l) `sublist_of` core_of <$> client_list cl1).
  { rewrite Hlf. apply sublist_filter. }
  assert (Hlt : (length (x :: l) < length (client_list cl1))%nat).
  { rewrite Ef. apply list_elem_of_lookup in Hc as [i Hc].
    pose proof (f_equal (λ l : list nat, l !! i) D2) as D2'. cbv beta in D2'.
    rewrite !list_lookup_fmap, Hc in D2'. destruct (client_list cl1 !! i) as [c'|] eqn:Ec; [|done].
    apply (length_filter_lt _ _ c'); [by eapply list_elem_of_lookup_2|].
    injection D2' as D2'. intros Hne. by apply Hne. }
  split; cbn [cl_algorithm_data set_client_list client_list].
  - rewrite Ed. destruct (_ =? 1) eqn:E1; [|done]. exfalso. apply Z.eqb_eq in E1.
    cbn [length] in Hlt. lia.
  - eapply sublist_NoDup; [|by apply fmap_sublist]. rewrite D2. apply Hinv.
  - eapply sublist_NoDup; [|by apply fmap_sublist]. rewrite D3. apply Hinv.
  - rewrite (length_of_ptrs _ _ D2) in Hlt. destruct Hinv. lia.
  - rewrite Hlf. by apply Forall_filter_keep.
  - done.
Qed.

Lemma config_handler c nodes initial :
  qnetd_algo_ffsplit_config_node_list_received c nodes initial =
    qnetd_algo_ffsplit_do c false (last_ring_id c) nodes (last_membership_node_list c)
      (last_heuristics c) ∨
  ∃ x, qnetd_algo_ffsplit_config_node_list_received c nodes initial = mret x.
Proof.
  unfold qnetd_algo_ffsplit_config_node_list_received. repeat case_if; eauto.
Qed.

Lemma membership_handler c ring nodes heur :
  qnetd_algo_ffsplit_membership_node_list_received c ring nodes heur =
    qnetd_algo_ffsplit_do c false ring (configuration_node_list c) nodes heur ∨
  ∃ x, qnetd_algo_ffsplit_membership_node_list_received c ring nodes heur = mret x.
Proof.
  unfold qnetd_algo_ffsplit_membership_node_list_received. repeat case_if; eauto.
Qed.

Lemma heuristics_handler c heur :
  qnetd_algo_ffsplit_heuristics_change_received c heur =
    qnetd_algo_ffsplit_do c false (last_ring_id c) (configuration_node_list c)
      (last_membership_node_list c) heur ∨
  ∃ x, qnetd_algo_ffsplit_heuristics_change_received c heur = mret x.
Proof. unfold qnetd_algo_ffsplit_heuristics_change_received. case_if; eauto. Qed.

Lemma inv_state_nonempty s c :
  inv_state s → c ∈ client_list (fst s) → ∃ cd, ffs_inv (fst s) cd.
Proof. intros [E|H] Hc; [rewrite E in Hc; by inversion Hc|done]. Qed.

Lemma step_inv s s' : ffsplit_step s s' → inv_state s → inv_state s'.
Proof.
  destruct 1 as [c cl h [cl' h'] Hp Hi Hl H|c nodes ini r cl h [cl' h'] Hc H
    |c ring nodes heur r cl h [cl' h'] Hc H|c heur r cl h [cl' h'] Hc H
    |c seq r cl h [cl' h'] Hc H|c cl h cl' h' Hc H]; intros Hinv.
  1: by eapply join_inv.
  5: by eapply disconnect_inv.
  all: destruct (inv_state_nonempty _ _ Hinv Hc) as [cd Hcd]; right; cbn [fst] in *.
  - eapply handler_inv; [apply config_handler|done..].
  - eapply handler_inv; [apply membership_handler|done..].
  - eapply handler_inv; [apply heuristics_handler|done..].
  - by eapply reply_inv.
Qed.

Lemma server_step_inv s s' : server_step false s s' → inv_state s → inv_state s'.
Proof.
  intros Hs. inversion Hs as [cl h l' h' Hl|]; subst. clear Hs. intros [E|[cd Hinv]]; cbn [fst] in *.
  { left. cbn. rewrite E in Hl. by inversion Hl. }
  right. exists cd. cbn [fst].
  assert (Hks : k_ptr <$> (core_of <$> l') = k_ptr <$> (core_of <$> client_list cl) ∧
    k_id <$> (core_of <$> l') = k_id <$> (core_of <$> client_list cl) ∧
    k_data <$> (core_of <$> l') = k_data <$> (core_of <$> client_list cl)).
  { induction Hl as [|x x' l1 l2 (E1 & E2 & E3) _ IH]; [done|]. destruct IH as (I1 & I2 & I3).
    rewrite !fmap_cons, I1, I2, I3. cbn. by rewrite E1, E2, E3. }
  destruct Hks as (K1 & K2 & K3), Hinv as [V1 V2 V3 V4 V5 V6].
  assert (Hex : ∀ s, existsb (k_in s) (core_of <$> l') = existsb (k_in s) (core_of <$> client_list cl)).
  { intros s. revert K3. generalize (core_of <$> l'), (core_of <$> client_list cl).
    intros l1. induction l1 as [|x l1 IH]; intros [|y l2]; try done. cbn. intros [= Exy El].
    rewrite (IH _ El). unfold k_in. by rewrite Exy. }
  split; cbn [cl_algorithm_data client_list set_client_list]; [done|by rewrite K1|by rewrite K2| | |].
  - by rewrite (Forall2_length _ _ _ Hl) in V4.
  - revert K3 V5. generalize (core_of <$> l'), (core_of <$> client_list cl).
    intros l1. induction l1 as [|x l1 IH]; intros [|y l2]; try done. cbn. intros [= Exy El].
    intros [Hy Hl2]%Forall_cons. constructor; [by rewrite Exy|by eapply IH].
  - unfold protocol_ok. rewrite !Hex. exact V6.
Qed.

Lemma run_inv n s0 s : server_run n s0 s → n = 0%nat → inv_state s0 → inv_state s.
Proof.
  induction 1 as [|n s0 s s' _ IH Hs|n again s0 s s' _ IH Hs]; intros En Hinv; [done| |].
  - eapply step_inv; [done|]. by apply IH.
  - destruct again; [done|]. eapply server_step_inv; [done|]. by apply IH.
Qed.

Lemma reachable_inv s : reachable 0 s → inv_state s.
Proof. intros (s0 & E & Hr). eapply run_inv; [done|done|by left]. Qed.

(** The state the algorithm keeps for a client. *)
Definition client_in (s : ffsplit_client_state) (c : client) : Prop :=
  client_state <$> algorithm_data c = Some s.

Lemma k_in_true s c : k_in s (core_of c) = true ↔ client_in s c.
Proof.
  unfold k_in, client_in. cbn. destruct (algorithm_data c) as [d|]; cbn; [|done].
  rewrite bool_decide_eq_true. naive_solver.
Qed.

Lemma existsb_client_in s (l : list client) :
  existsb (k_in s) (core_of <$> l) = true ↔ ∃ c, c ∈ l ∧ client_in s c.
Proof.
  rewrite existsb_fmap, existsb_exists. split; intros (c & H1 & H2); exists c.
  - by rewrite <- k_in_true, list_elem_of_In.
  - by rewrite k_in_true, <- list_elem_of_In.
Qed.

Lemma existsb_client_in_false s (l : list client) :
  existsb (k_in s) (core_of <$> l) = false ↔ ∀ c, c ∈ l → ¬ client_in s c.
Proof.
  rewrite <- not_true_iff_false, existsb_client_in. split.
  - intros H c Hc Hs. apply H. by exists c.
  - intros H (c & Hc & Hs). by apply (H c).
Qed.

(** C8: in every run of the server in which no client of the cluster sends INIT again, the state of the cluster is what the clients agree on:
    while ACKs are sent nobody is owed a NACK and somebody is waited for; while NACKs are
    sent somebody is waited for (the algorithm does not hang in a sending state); with
    nothing to do no client is waited for. *)
Theorem ffsplit_protocol_invariant cl h :
  reachable 0 (cl, h) → client_list cl ≠ [] →
  ∃ cd, cl_algorithm_data cl = Some cd ∧
    (∀ c, c ∈ client_list cl → is_Some (algorithm_data c)) ∧
    match cluster_state cd with
    | CLUSTER_STATE_SENDING_ACKS =>
        (∀ c, c ∈ client_list cl → ¬ client_in CLIENT_STATE_SENDING_NACK c) ∧
        ∃ c, c ∈ client_list cl ∧ client_in CLIENT_STATE_SENDING_ACK c
    | CLUSTER_STATE_SENDING_NACKS =>
        ∃ c, c ∈ client_list cl ∧ client_in CLIENT_STATE_SENDING_NACK c
    | CLUSTER_STATE_WAITING_FOR_CHANGE =>
        ∀ c, c ∈ client_list cl → client_in CLIENT_STATE_WAITING_FOR_CHANGE c
    | CLUSTER_STATE_WAITING_FOR_STABLE_MEMBERSHIP => True
    end.
Proof.
  intros [E|[cd Hinv]]%reachable_inv Hne; [done|]. cbn [fst] in *.
  destruct Hinv as [V1 _ _ _ V5 V6]. rewrite Forall_fmap, Forall_forall in V5.
  exists cd. split_and!; [done|exact V5|]. unfold protocol_ok in V6.
  destruct (cluster_state cd); rewrite ?existsb_client_in, ?existsb_client_in_false in V6; try done.
  intros c Hc. destruct V6 as [Vn Va]. specialize (Vn c Hc). specialize (Va c Hc).
  destruct (V5 c Hc) as [d Hd]. unfold client_in in *. cbn in Hd. rewrite Hd in *. cbn in *.
  destruct d as [[] ?]; cbn in *; congruence.
Qed.

(** ** ACKs follow the NACKs *)

(** The cores of two clients, the second with an ACK that the first was not sent. *)
Definition got_ack (k k' : core) : Prop :=
  k_ptr k' = k_ptr k ∧ k_vote k ≠ TLV_VOTE_ACK ∧ k_vote k' = TLV_VOTE_ACK.

Lemma vote_core_ack id leaving acks k :
  got_ack k (vote_core id leaving acks k) →
  acks = true ∧ voted id leaving true k = true ∧
  k_in CLIENT_STATE_SENDING_ACK (vote_core id leaving acks k) = true.
Proof.
  intros (_ & H1 & H2). rewrite k_in_vote_core. unfold vote_core in H2.
  destruct (voted id leaving acks k) eqn:E; [|done]. destruct acks; [|done].
  split_and!; [done..|]. unfold voted in E. by apply andb_prop in E as [_ E].
Qed.

(** No client is sent an ACK by a map over clients with distinct addresses, unless the
    function sends it. *)
Lemma map_got_ack (f : core → core) ks k k' :
  NoDup (k_ptr <$> ks) → (∀ x, k_ptr (f x) = k_ptr x) →
  k ∈ ks → k' ∈ (f <$> ks) → k_ptr k' = k_ptr k → k' = f k.
Proof.
  intros Hd Hf Hk (x & -> & Hx)%list_elem_of_fmap E. rewrite Hf in E.
  by rewrite (NoDup_fmap_inj k_ptr ks x k Hd Hx Hk E).
Qed.

Lemma same_got_ack ks k k' : NoDup (k_ptr <$> ks) → k ∈ ks → k' ∈ ks → ¬ got_ack k k'.
Proof. intros Hd Hk Hk' (E & H1 & H2). by rewrite (NoDup_fmap_inj k_ptr ks k' k Hd Hk' Hk E) in H2. Qed.

Lemma send_phase_ack id leaving ks k k' :
  NoDup (k_ptr <$> ks) → k ∈ ks → k' ∈ fst (send_phase id leaving ks) → got_ack k k' →
  snd (send_phase id leaving ks) = CLUSTER_STATE_SENDING_ACKS ∧
  k_in CLIENT_STATE_SENDING_ACK k' = true.
Proof.
  intros Hd Hk Hk' Hg. unfold send_phase in *.
  assert (Hv : ∀ acks x, k_ptr (vote_core id leaving acks x) = k_ptr x)
    by (intros; apply vote_core_ident).
  destruct (existsb (voted id leaving false) ks); cbn [fst snd] in *.
  all: rewrite (map_got_ack _ ks k k' Hd (Hv _) Hk Hk') in Hg |- * by apply Hg.
  all: apply vote_core_ack in Hg as (Ha & Hvt & Hin); try done.
  by rewrite (existsb_intro _ _ _ Hk Hvt).
Qed.

Lemma do_ack c leaving ring cfg mem heur cl cl' cd res k k' :
  ffs_inv cl cd → do_outcome c leaving ring cfg mem heur cl cl' res →
  k ∈ (core_of <$> client_list cl) → k' ∈ (core_of <$> client_list cl') → got_ack k k' →
  (∃ cd', cl_algorithm_data cl' = Some cd' ∧ cluster_state cd' = CLUSTER_STATE_SENDING_ACKS) ∧
  k_in CLIENT_STATE_SENDING_ACK k' = true.
Proof.
  intros [_ Hp _ _ _ _] Ho Hk Hk' Hg.
  destruct Ho as [d _ El _ _|d El _ _|qpnl sel ks cl0 _ _ _ Ek _ El Ed].
  1,2: rewrite El in Hk'; exfalso; exact (same_got_ack _ _ _ Hp Hk Hk' Hg).
  set (f := assign_core (client_node_id c) leaving sel) in *. rewrite El in Hk'.
  destruct (send_phase_ack (client_node_id c) leaving ks (f k) k') as [Hs Hin]; [..|done|done|].
  - rewrite Ek, <- list_fmap_compose. exact Hp.
  - rewrite Ek. by apply list_elem_of_fmap_2.
  - split; [|done]. eexists. split; [exact Ed|]. by rewrite Hs.
Qed.

Lemma reply_phase_ack id ks st k k' :
  NoDup (k_ptr <$> ks) → k ∈ ks → k' ∈ fst (reply_phase id ks st) → got_ack k k' →
  snd (reply_phase id ks st) = CLUSTER_STATE_SENDING_ACKS ∧ k_in CLIENT_STATE_SENDING_ACK k' = true.
Proof.
  intros Hd Hk Hk' Hg. unfold reply_phase in *.
  destruct st; cbn [fst snd] in *; try (exfalso; exact (same_got_ack _ _ _ Hd Hk Hk' Hg)).
  destruct (existsb (k_in CLIENT_STATE_SENDING_NACK) ks); cbn [fst snd] in *;
    [exfalso; exact (same_got_ack _ _ _ Hd Hk Hk' Hg)|].
  assert (Hv : ∀ x, k_ptr (vote_core id false true x) = k_ptr x) by (intros; apply vote_core_ident).
  rewrite (map_got_ack _ ks k k' Hd Hv Hk Hk') in Hg |- * by apply Hg.
  apply vote_core_ack in Hg as (_ & Hvt & Hin). by rewrite (existsb_intro _ _ _ Hk Hvt).
Qed.

Lemma reply_ack c seq cl h r cl' h' cd k k' :
  ffs_inv cl cd → c ∈ client_list cl →
  qnetd_algo_ffsplit_vote_info_reply_received c seq (cl, h) = (Ok r, (cl', h')) →
  k ∈ (core_of <$> client_list cl) → k' ∈ (core_of <$> client_list cl') → got_ack k k' →
  (∃ cd', cl_algorithm_data cl' = Some cd' ∧ cluster_state cd' = CLUSTER_STATE_SENDING_ACKS) ∧
  k_in CLIENT_STATE_SENDING_ACK k' = true.
Proof.
  intros [Hcd Hp _ Hl Hd _] Hc H Hk Hk' Hg.
  assert (Hdc : is_Some (algorithm_data c)).
  { rewrite Forall_forall in Hd. apply (Hd (core_of c)). by apply list_elem_of_fmap_2. }
  destruct Hdc as [d Hdc]. eapply reply_spec in H as [_ H]; [|done..].
  destruct (_ =? seq); [|subst; exfalso; exact (same_got_ack _ _ _ Hp Hk Hk' Hg)].
  cbn zeta in H. destruct H as [El Ed]. rewrite El in Hk'.
  set (f := confirm_core (client_ptr c) d) in *.
  assert (Hf : ∀ x, k_ptr (f x) = k_ptr x) by (intros x; unfold f, confirm_core; by case_if).
  assert (Hfv : ∀ x, k_vote (f x) = k_vote x) by (intros x; unfold f, confirm_core; by case_if).
  destruct (reply_phase_ack (client_node_id c) (f <$> (core_of <$> client_list cl))
    (cluster_state cd) (f k) k') as [Hs Hin]; [| |done| |].
  - rewrite <- list_fmap_compose. erewrite list_fmap_ext; [exact Hp|]. intros. apply Hf.
  - by apply list_elem_of_fmap_2.
  - unfold got_ack. by rewrite Hf, Hfv.
  - split; [|done]. eexists. split; [exact Ed|]. by cbn.
Qed.

Lemma handler_ack (m : M state (Z * option tlv_vote)) c cl h r cl' h' cd ring cfg mem heur k k' :
  (m = qnetd_algo_ffsplit_do c false ring cfg mem heur ∨ ∃ x, m = mret x) →
  ffs_inv cl cd → m (cl, h) = (Ok r, (cl', h')) →
  k ∈ (core_of <$> client_list cl) → k' ∈ (core_of <$> client_list cl') → got_ack k k' →
  (∃ cd', cl_algorithm_data cl' = Some cd' ∧ cluster_state cd' = CLUSTER_STATE_SENDING_ACKS) ∧
  k_in CLIENT_STATE_SENDING_ACK k' = true.
Proof.
  intros [->|[x ->]] Hinv H Hk Hk' Hg.
  - apply do_spec in H; [|apply Hinv]. by eapply do_ack.
  - injection H as _ <- _. exfalso. destruct Hinv as [_ Hp _ _ _ _].
    exact (same_got_ack _ _ _ Hp Hk Hk' Hg).
Qed.

Lemma step_ack s s' k k' :
  inv_state s → ffsplit_step s s' →
  k ∈ (core_of <$> client_list (fst s)) → k' ∈ (core_of <$> client_list (fst s')) → got_ack k k' →
  (∃ cd', cl_algorithm_data (fst s') = Some cd' ∧
          cluster_state cd' = CLUSTER_STATE_SENDING_ACKS) ∧
  k_in CLIENT_STATE_SENDING_ACK k' = true.
Proof.
  intros Hinv Hs Hk Hk' Hg. pose proof (step_inv _ _ Hs Hinv) as Hinv'.
  assert (Hcd : ∃ cd, ffs_inv (fst s) cd).
  { apply list_elem_of_fmap in Hk as (x & _ & Hx). by eapply inv_state_nonempty. }
  destruct Hcd as [cd Hcd].
  destruct Hs as [c cl h [cl' h'] Hp Hi Hl H|c nodes ini r cl h [cl' h'] Hc H
    |c ring nodes heur r cl h [cl' h'] Hc H|c heur r cl h [cl' h'] Hc H
    |c seq r cl h [cl' h'] Hc H|c cl h cl' h' Hc H]; cbn [fst] in *.
  - apply join_spec in H as [Hperm _]; [|done]. exfalso.
    rewrite Hperm in Hk'. apply elem_of_cons in Hk' as [->|Hk'].
    + apply Hp. destruct Hg as [E _]. cbn in E. rewrite E.
      apply list_elem_of_fmap in Hk as (x & -> & Hx). cbn [k_ptr core_of].
      by apply list_elem_of_fmap_2.
    + destruct Hcd as [_ Hd _ _ _ _]. exact (same_got_ack _ _ _ Hd Hk Hk' Hg).
  - by eapply (handler_ack _ _ _ _ _ _ _ _ _ _ _ _ _ _ (config_handler _ _ _)).
  - by eapply (handler_ack _ _ _ _ _ _ _ _ _ _ _ _ _ _ (membership_handler _ _ _ _)).
  - by eapply (handler_ack _ _ _ _ _ _ _ _ _ _ _ _ _ _ (heuristics_handler _ _)).
  - by eapply reply_ack.
  - cbn [client_list set_client_list cl_algorithm_data] in *.
    apply disconnect_spec in H as (res & cl1 & h1 & H & Ef & Ed).
    apply do_spec in H; [|apply Hcd]. rewrite Ef in Hk'.
    assert (Hk1 : k' ∈ (core_of <$> client_list cl1)).
    { apply list_elem_of_fmap in Hk' as (x & -> & [_ Hx]%list_elem_of_filter).
      by apply list_elem_of_fmap_2. }
    destruct (do_ack _ _ _ _ _ _ _ _ _ _ _ _ Hcd H Hk Hk1 Hg) as [(cd' & Ecd' & Hst) Hin].
    split; [|done]. destruct Hinv' as [E|[cd2 Hcd2]]; cbn [fst client_list set_client_list] in *.
    { rewrite <- Ef, E in Hk'. by inversion Hk'. }
    apply fi_cluster in Hcd2. cbn [cl_algorithm_data set_client_list] in Hcd2.
    rewrite Hcd2 in Ed. destruct (_ =? 1); [done|]. exists cd2. split; [done|]. congruence.
Qed.

(** C4: in every run in which no client of the cluster sends INIT again, an ACK is only sent
    when every NACK was confirmed: if an event of the cluster makes the server send a client an ACK, then afterwards no client is owed a NACK or has one
    that it did not confirm, and the client that got the ACK is waited for. *)
Theorem ffsplit_ack_after_nacks cl h cl' h' c c' :
  reachable 0 (cl, h) → ffsplit_step (cl, h) (cl', h') →
  c ∈ client_list cl → c' ∈ client_list cl' → client_ptr c' = client_ptr c →
  last_sent_vote c ≠ TLV_VOTE_ACK → last_sent_vote c' = TLV_VOTE_ACK →
  client_in CLIENT_STATE_SENDING_ACK c' ∧
  ∀ x, x ∈ client_list cl' → ¬ client_in CLIENT_STATE_SENDING_NACK x.
Proof.
  intros Hr%reachable_inv Hs Hc Hc' Hp Hv Hv'.
  destruct (step_ack _ _ (core_of c) (core_of c') Hr Hs) as [(cd & Ecd & Hst) Hin];
    [by apply list_elem_of_fmap_2..|done|]. cbn [fst] in *.
  split; [by apply k_in_true|]. apply existsb_client_in_false.
  destruct (inv_state_nonempty _ _ (step_inv _ _ Hs Hr) Hc') as [cd' [V1 _ _ _ _ V6]].
  cbn [fst] in *. rewrite Ecd in V1. injection V1 as <-. rewrite Hst in V6. apply V6.
Qed.

(** ** What the clients that get an ACK agree on *)

(** The members of the clients' lists: a client that sent a membership list is in it
    ([qnetd_algo_ffsplit_membership_node_list_received] refuses others). *)
Definition members_ok (c : client) (leaving : bool) (ring : tlv_ring_id) (mem : node_list)
    (cl : cluster) : Prop :=
  ∀ x m r, x ∈ client_list cl → membership_view c leaving ring mem x = Some (m, r) →
    m = [] ∨ has_node m (client_node_id x) = true.

(** The state a client is given by the selection. *)
Lemma do_selected_state (c : client) leaving sel ks i k k' :
  ks !! i = Some k →
  fst (send_phase (client_node_id c) leaving
         (assign_core (client_node_id c) leaving sel <$> ks)) !! i = Some k' →
  k_in CLIENT_STATE_SENDING_ACK k' = true →
  is_leaving (client_node_id c) leaving k = false ∧
  ∃ m, sel = Some m ∧ has_node m (k_id k) = true.
Proof.
  intros Hk Hk' Hin.
  assert (Ha : k_in CLIENT_STATE_SENDING_ACK (assign_core (client_node_id c) leaving sel k) = true).
  { revert Hk' Hin. unfold send_phase.
    destruct (existsb _ _); cbn [fst]; rewrite !list_lookup_fmap, Hk; cbn;
      intros [= <-]; by rewrite k_in_vote_core. }
  unfold k_in, assign_core in Ha. cbn in Ha. destruct (k_data k); [|done]. cbn in Ha.
  apply bool_decide_eq_true in Ha. unfold assigned in Ha.
  destruct (is_leaving _ _ _); [done|]. split; [done|]. destruct sel as [m|]; [|done].
  exists m. by destruct (has_node m (k_id k)).
Qed.

(** C7: when a run of the algorithm selects a partition, the clients it gives an ACK to
    agree: each of them sees the ring id of the partition and exactly its nodes, and the
    partition holds at least half of the nodes configured at one of its members (more than
    half of an odd number).  A consistent view of all clients is what the algorithm waits
    for, so nobody gets an ACK for a partition others already left. *)
Theorem ffsplit_ack_agreement c leaving ring cfg mem heur (cl : cluster) h cl' h' :
  qnetd_algo_ffsplit_do c leaving ring cfg mem heur (cl, h) =
    (Ok (TLV_REPLY_ERROR_CODE_NO_ERROR, Some TLV_VOTE_NO_CHANGE), (cl', h')) →
  Z.of_nat (length (client_list cl)) < 2 ^ 64 →
  NoDup (client_node_id <$> client_list cl) → members_ok c leaving ring mem cl →
  ∀ i x x', client_list cl !! i = Some x → client_list cl' !! i = Some x' →
    client_in CLIENT_STATE_SENDING_ACK x' →
    ∃ b pb m rb mx, b ∈ client_list cl ∧
      candidate_of c leaving cfg mem heur b = Some pb ∧ half_of (cd_config pb) m ∧
      membership_view c leaving ring mem b = Some (m, rb) ∧
      membership_view c leaving ring mem x = Some (mx, rb) ∧
      (∀ nid, nid ∈ (node_id <$> mx) ↔ nid ∈ (node_id <$> m)).
Proof.
  intros H Hlen Hids Hmem i x x' Hx Hx' Hin. apply do_spec in H; [|done].
  inversion H as [|d|qpnl sel ks cl0 E0 Hst Hsel Ek Hall El Ed]; subst.
  apply k_in_true in Hin.
  destruct (do_selected_state c leaving sel (core_of <$> client_list cl) i (core_of x) (core_of x'))
    as [Hnl (m & -> & Hm)]; [by rewrite list_lookup_fmap, Hx| |done|].
  { by rewrite <- El, list_lookup_fmap, Hx'. }
  unfold qnetd_algo_ffsplit_select_partition in Hsel.
  destruct (select_loop _ _ _ _ _ _) as [[p|]|] eqn:Esl; [|done|done]. injection Hsel as <-.
  destruct (select_loop_in _ _ _ _ _ _ _ Esl) as [?|(b & Hb & Hof & Hh)]; [done|].
  rewrite E0 in Hb.
  assert (Hvb : ∃ rb, membership_view c leaving ring mem b = Some (cd_membership p, rb)).
  { unfold candidate_of in Hof. unfold membership_view, view.
    destruct (client_node_id b =? client_node_id c); [destruct leaving; [done|]|];
      injection Hof as <-; eauto. }
  destruct Hvb as [rb Hvb].
  assert (Hvx : ∃ mx rx, membership_view c leaving ring mem x = Some (mx, rx)).
  { unfold membership_view, view. unfold is_leaving in Hnl. cbn in Hnl.
    destruct (client_node_id x =? client_node_id c); [|eauto]. destruct leaving; [done|eauto]. }
  destruct Hvx as (mx & rx & Hvx).
  assert (Hbm : has_node (cd_membership p) (client_node_id b) = true).
  { destruct (Hmem _ _ _ Hb Hvb) as [E|]; [|done]. by rewrite E in Hm. }
  assert (Hxin : x ∈ client_list cl) by by eapply list_elem_of_lookup_2.
  destruct (selected_agree c leaving ring cfg mem cl Hids Hst b _ rb x mx rx Hb Hxin Hvb Hvx Hbm Hm)
    as (-> & Hi1 & Hi2).
  exists b, p, (cd_membership p), rb, mx. split_and!; try done. intros nid. split; auto.
Qed.

(** ** An example run

    Node 1 of a cluster of two connects, reports a membership without node 2 and - the
    lowest node id wins the tie - gets an ACK. *)
Definition ex_c1 : client :=
  ex_client 0 1 (ex_nodes [1; 2]) [] ring_id_zero TLV_HEURISTICS_UNDEFINED None.
Definition ex_s0 : state := (mk_cluster [] None [], []).
Definition ex_s1 : state :=
  snd (qnetd_algo_ffsplit_client_init ex_c1 (set_client_list [ex_c1] (fst ex_s0), [])).
(** The client as the list has it. *)
Definition ex_c1' : client := default ex_c1 (client_list (fst ex_s1) !! 0%nat).
Definition ex_s2 : state :=
  snd (qnetd_algo_ffsplit_membership_node_list_received ex_c1' (mk_ring_id 1 4) (ex_nodes [1])
         TLV_HEURISTICS_UNDEFINED ex_s1).

Lemma ex_step1 : ffsplit_step ex_s0 ex_s1.
Proof.
  apply (step_join ex_c1); [apply not_elem_of_nil|apply not_elem_of_nil|reflexivity|].
  vm_compute. reflexivity.
Qed.

Lemma ex_step2 : ffsplit_step (fst ex_s1, snd ex_s1) (fst ex_s2, snd ex_s2).
Proof.
  rewrite <- (surjective_pairing ex_s2).
  apply (step_membership ex_c1' (mk_ring_id 1 4) (ex_nodes [1]) TLV_HEURISTICS_UNDEFINED
           (TLV_REPLY_ERROR_CODE_NO_ERROR, Some TLV_VOTE_NO_CHANGE)).
  - apply (list_elem_of_lookup_2 _ 0%nat). vm_compute. reflexivity.
  - vm_compute. reflexivity.
Qed.

Lemma ex_reachable1 : reachable 0 (fst ex_s1, snd ex_s1).
Proof.
  rewrite <- surjective_pairing. exists ex_s0. split; [reflexivity|].
  exact (run_event _ _ _ _ (run_start _) ex_step1).
Qed.

Lemma ffsplit_protocol_invariant_witness :
  ∃ cd, cl_algorithm_data (fst ex_s1) = Some cd ∧
        cluster_state cd = CLUSTER_STATE_WAITING_FOR_CHANGE ∧
        client_in CLIENT_STATE_WAITING_FOR_CHANGE ex_c1'.
Proof.
  destruct (ffsplit_protocol_invariant (fst ex_s1) (snd ex_s1)) as (cd & E & _ & H).
  - exact ex_reachable1.
  - vm_compute. discriminate.
  - vm_compute (cl_algorithm_data _) in E. injection E as <-. eexists. split; [reflexivity|].
    split; [reflexivity|]. apply H. apply (list_elem_of_lookup_2 _ 0%nat). vm_compute. reflexivity.
Defined.

Lemma ffsplit_ack_after_nacks_witness :
  client_in CLIENT_STATE_SENDING_ACK (default ex_c1 (client_list (fst ex_s2) !! 0%nat)).
Proof.
  apply (ffsplit_ack_after_nacks (fst ex_s1) (snd ex_s1) (fst ex_s2) (snd ex_s2) ex_c1').
  - exact ex_reachable1.
  - exact ex_step2.
  - apply (list_elem_of_lookup_2 _ 0%nat). vm_compute. reflexivity.
  - apply (list_elem_of_lookup_2 _ 0%nat). vm_compute. reflexivity.
  - vm_compute. reflexivity.
  - vm_compute. discriminate.
  - vm_compute. reflexivity.
Defined.

Lemma ffsplit_ack_agreement_witness :
  ∃ b pb m rb mx, b ∈ client_list (fst ex_s1) ∧
    candidate_of ex_c1' false (ex_nodes [1; 2]) (ex_nodes [1]) TLV_HEURISTICS_UNDEFINED b = Some pb ∧
    half_of (cd_config pb) m ∧
    membership_view ex_c1' false (mk_ring_id 1 4) (ex_nodes [1]) b = Some (m, rb) ∧
    membership_view ex_c1' false (mk_ring_id 1 4) (ex_nodes [1]) ex_c1' = Some (mx, rb) ∧
    (∀ nid, nid ∈ (node_id <$> mx) ↔ nid ∈ (node_id <$> m)).
Proof.
  apply (ffsplit_ack_agreement ex_c1' false (mk_ring_id 1 4) (ex_nodes [1; 2]) (ex_nodes [1])
           TLV_HEURISTICS_UNDEFINED (fst ex_s1) (snd ex_s1) (fst ex_s2) (snd ex_s2)) with
    (i := 0%nat) (x' := default ex_c1 (client_list (fst ex_s2) !! 0%nat)).
  - vm_compute. reflexivity.
  - vm_compute. reflexivity.
  - apply NoDup_singleton.
  - intros x m r [->|Hx]%elem_of_cons; [|by inversion Hx]. intros [= <- <-]. right. reflexivity.
  - vm_compute. reflexivity.
  - vm_compute. reflexivity.
  - vm_compute. reflexivity.
Defined.

(** ** Where the process ends *)

(** A client whose lists the selection can compare. *)
Definition comparable (c : client) (leaving : bool) (cfg mem : node_list) (heur : tlv_heuristics)
    (x : client) : Prop :=
  match candidate_of c leaving cfg mem heur x with
  | None => True
  | Some p => cd_config p ≠ [] ∧
              (tb_mode (tie_breaker x) = TLV_TIE_BREAKER_MODE_LOWEST ∨
               tb_mode (tie_breaker x) = TLV_TIE_BREAKER_MODE_HIGHEST ∨
               tb_mode (tie_breaker x) = TLV_TIE_BREAKER_MODE_NODE_ID)
  end.

Lemma preferred_total c cfg mem :
  cfg ≠ [] →
  tb_mode (tie_breaker c) = TLV_TIE_BREAKER_MODE_LOWEST ∨
  tb_mode (tie_breaker c) = TLV_TIE_BREAKER_MODE_HIGHEST ∨
  tb_mode (tie_breaker c) = TLV_TIE_BREAKER_MODE_NODE_ID →
  ∃ b, qnetd_algo_ffsplit_is_preferred_partition c cfg mem = Ok b.
Proof.
  intros Hc [E|[E|E]]; unfold qnetd_algo_ffsplit_is_preferred_partition; rewrite E;
    cbn; (destruct cfg; [done|]); by eexists.
Qed.

Lemma candidate_client c leaving cfg mem heur x p :
  candidate_of c leaving cfg mem heur x = Some p → cd_client p = x.
Proof.
  unfold candidate_of. destruct (_ =? _); [destruct leaving; [done|]|]; by intros [= <-].
Qed.

Lemma select_loop_total cl q kap c leaving cfg mem heur l best :
  (∀ x, x ∈ l → comparable c leaving cfg mem heur x) →
  ∃ r, select_loop cl q kap (candidate_of c leaving cfg mem heur) l best = Ok r.
Proof.
  revert best. induction l as [|x l IH]; intros best Hall; cbn [select_loop]; [by eexists|].
  assert (Hx : comparable c leaving cfg mem heur x) by (apply Hall; left).
  assert (Hl : ∀ y, y ∈ l → comparable c leaving cfg mem heur y) by (intros; apply Hall; by right).
  unfold comparable in Hx. destruct (candidate_of _ _ _ _ _ x) as [p|] eqn:Ep; [|by apply IH].
  assert (Hcmp : ∃ b, qnetd_algo_ffsplit_partition_cmp cl p best q kap = Ok b).
  { unfold qnetd_algo_ffsplit_partition_cmp. rewrite (candidate_client _ _ _ _ _ _ _ Ep).
    destruct Hx as [Hc Ht]. pose proof (preferred_total x (cd_config p) (cd_membership p) Hc Ht).
    repeat case_if; try by eexists. all: destruct best; try done. all: repeat case_if; first [by eexists|done]. }
  destruct Hcmp as [b ->]. by apply IH.
Qed.

Lemma send_votes_total c leaving ring acks cl h :
  Forall (λ k, is_Some (k_data k)) (core_of <$> client_list cl) →
  ∃ n s, qnetd_algo_ffsplit_send_votes c leaving ring acks (cl, h) = (Ok n, s).
Proof.
  rewrite Forall_fmap. intros Hall. unfold qnetd_algo_ffsplit_send_votes.
  assert (Hloop : ∀ h, ∃ n f l h',
    send_votes_loop c leaving ring acks (client_list cl) h = Ok (n, f, l, h')).
  { clear h. induction Hall as [|x l [d Hd] _ IH]; intros h; cbn [send_votes_loop]; [by eexists _, _, _, _|].
    cbn in Hd. destruct (_ && leaving).
    { destruct (IH h) as (n & f & r & h' & ->). by eexists _, _, _, _. }
    rewrite Hd. cbv zeta. match goal with |- context [bool_decide ?P] => destruct (bool_decide P) end.
    - destruct (qnetd_client_send_vote_info _ _ _ _ h) as [r [x' h1]].
      destruct (IH h1) as (n & f & r' & h' & ->). by eexists _, _, _, _.
    - destruct (IH h) as (n & f & r & h' & ->). by eexists _, _, _, _. }
  destruct (Hloop h) as (n & f & l & h' & ->). by eexists _, _.
Qed.

Lemma put_cluster_data_total f cl h d :
  cl_algorithm_data cl = Some d →
  put_cluster_data f (cl, h) = (Ok tt, (set_cl_algorithm_data (Some (f d)) cl, h)).
Proof. intros E. unfold put_cluster_data, get_cluster_data, mbind, M_bind. by rewrite E. Qed.

Lemma ack_tail_total c leaving ring cl h d :
  Forall (λ k, is_Some (k_data k)) (core_of <$> client_list cl) → cl_algorithm_data cl = Some d →
  ∃ s, (put_cluster_data (set_cluster_state CLUSTER_STATE_SENDING_ACKS);;
    acks ← qnetd_algo_ffsplit_send_votes c leaving ring true;
    (if acks =? 0 then put_cluster_data (set_cluster_state CLUSTER_STATE_WAITING_FOR_CHANGE)
     else mret tt)) (cl, h) = (Ok tt, s).
Proof.
  intros Hall Hd. rewrite (bind_ok _ _ _ _ _ (put_cluster_data_total _ _ h _ Hd)).
  destruct (send_votes_total c leaving ring true
    (set_cl_algorithm_data (Some (set_cluster_state CLUSTER_STATE_SENDING_ACKS d)) cl) h)
    as (n & [cl1 h1] & E); [done|]. rewrite (bind_ok _ _ _ _ _ E).
  destruct (n =? 0); [|by eexists].
  assert (Hd1 : cl_algorithm_data cl1 = Some (set_cluster_state CLUSTER_STATE_SENDING_ACKS d)).
  { revert E. unfold qnetd_algo_ffsplit_send_votes. destruct (send_votes_loop _ _ _ _ _ _) as [[[[]]]|]; [|done].
    intros [= _ <- _]. by case_if. }
  rewrite (put_cluster_data_total _ _ h1 _ Hd1). by eexists.
Qed.

Lemma update_nodes_total c leaving sel cl h :
  Forall (λ k, is_Some (k_data k)) (core_of <$> client_list cl) →
  ∃ s, qnetd_algo_ffsplit_update_nodes_state c leaving sel (cl, h) = (Ok tt, s).
Proof.
  rewrite Forall_fmap. intros Hall. unfold qnetd_algo_ffsplit_update_nodes_state.
  assert (Hm : ∃ l, mapM (update_node_state c leaving sel) (client_list cl) = Some l).
  { induction Hall as [|x l [d Hd] _ [l' IH]]; [by eexists|]. cbn in Hd. cbn.
    assert (Hx : ∃ y, update_node_state c leaving sel x = Some y).
    { unfold update_node_state. rewrite Hd. destruct (_ && _); [by eexists|].
      destruct sel as [m|]; [destruct (has_node m _)|]; by eexists. }
    destruct Hx as [y ->]. cbn. cbn in IH. rewrite IH. by eexists. }
  destruct Hm as [l ->]. by eexists.
Qed.

Lemma do_total c leaving ring cfg mem heur cl h cd :
  ffs_inv cl cd → (∀ x, x ∈ client_list cl → comparable c leaving cfg mem heur x) →
  ∃ r s, qnetd_algo_ffsplit_do c leaving ring cfg mem heur (cl, h) = (Ok r, s).
Proof.
  intros [Hd _ _ Hlen Hall _] Hcmp. unfold qnetd_algo_ffsplit_do.
  rewrite (bind_ok _ _ _ _ _ (put_cluster_data_total _ _ h _ Hd)).
  set (cl1 := set_cl_algorithm_data _ cl). unfold mbind at 1, M_bind at 1. cbn [get].
  destruct (qnetd_algo_ffsplit_is_membership_stable _ _ _ _ _ cl1); cbn [negb]; [|by eexists _, _].
  unfold get_cluster_data at 1, mbind at 1, M_bind at 1. cbn [cl_algorithm_data cl1 set_cl_algorithm_data].
  unfold qnetd_algo_ffsplit_select_partition.
  match goal with |- context [select_loop ?a ?q ?k _ ?l ?b] =>
    destruct (select_loop_total a q k c leaving cfg mem heur l b Hcmp) as [sel ->] end.
  destruct (store_quorate_partition (cd_membership <$> sel) (cl1, h)) as [[b|e] [cl2 h2]] eqn:Es.
  2: { unfold store_quorate_partition in Es. cbn in Es. destruct (cd_membership <$> sel); [|done].
       unfold node_list_clone in Es. by destruct (node_list_clone_loop _ _) as [[|] []]. }
  rewrite (bind_ok _ _ _ _ _ Es). apply store_quorate_partition_Ok in Es as (E2 & d & l & _ & Hd2 & _).
  destruct b; cbn [negb]; [|by eexists _, _].
  assert (Hall2 : Forall (λ k, is_Some (k_data k)) (core_of <$> client_list cl2)) by by rewrite E2.
  destruct (update_nodes_total c leaving (cd_membership <$> sel) cl2 h2 Hall2) as [[cl3 h3] E3].
  rewrite (bind_ok _ _ _ _ _ E3). apply update_nodes_state_spec in E3 as (E3 & Hd3 & -> & Hall3).
  rewrite Hd2 in Hd3. rewrite (bind_ok _ _ _ _ _ (put_cluster_data_total _ _ h2 _ Hd3)).
  match goal with |- context [set_cl_algorithm_data ?d cl3] => set (cl4 := set_cl_algorithm_data d cl3) end.
  destruct (send_votes_total c leaving ring false cl4 h2 Hall3) as (n & [cl5 h5] & E5).
  rewrite (bind_ok _ _ _ _ _ E5). apply send_votes_spec in E5 as (E5 & _ & Hd5).
  2: { apply (f_equal length) in E3. rewrite !length_fmap, E2 in E3. cbn. by rewrite E3. }
  destruct (n =? 0); [|by eexists _, _].
  assert (Hall5 : Forall (λ k, is_Some (k_data k)) (core_of <$> client_list cl5)).
  { rewrite E5. rewrite Forall_fmap. eapply Forall_impl; [exact Hall3|]. intros k. apply vote_core_ident. }
  destruct (ack_tail_total c leaving ring cl5 h5 _ Hall5 Hd5) as [s Es].
  rewrite (bind_ok _ _ _ _ _ Es). by eexists _, _.
Qed.

Lemma no_clients_total acks cl h :
  Forall (λ k, is_Some (k_data k)) (core_of <$> client_list cl) →
  ∃ n, qnetd_algo_ffsplit_no_clients_in_sending_state acks (cl, h) = (Ok n, (cl, h)).
Proof.
  rewrite Forall_fmap. intros Hall. unfold qnetd_algo_ffsplit_no_clients_in_sending_state.
  assert (E : forallb (λ c : client, match algorithm_data c with Some _ => true | None => false end)
    (client_list cl) = true).
  { apply forallb_elem. intros x Hx. rewrite Forall_forall in Hall. destruct (Hall x Hx) as [d Hd].
    cbn in Hd. by rewrite Hd. }
  rewrite E. by eexists.
Qed.

Lemma reply_total c seq cl h cd :
  ffs_inv cl cd → c ∈ client_list cl →
  ∃ s, qnetd_algo_ffsplit_vote_info_reply_received c seq (cl, h) =
       (Ok TLV_REPLY_ERROR_CODE_NO_ERROR, s).
Proof.
  intros [Hd _ _ _ Hall _] Hc.
  assert (Hdc : is_Some (algorithm_data c)).
  { rewrite Forall_forall in Hall. apply (Hall (core_of c)). by apply list_elem_of_fmap_2. }
  destruct Hdc as [d Hdc]. unfold qnetd_algo_ffsplit_vote_info_reply_received.
  unfold get_cluster_data at 1, mbind at 1, M_bind at 1. rewrite Hd, Hdc.
  case_if; [by eexists|]. unfold mbind at 1, M_bind at 1. cbn [modify].
  match goal with |- context [(update_client ?p ?f cl, h)] => set (cl1 := update_client p f cl) end.
  assert (Hall1 : Forall (λ k, is_Some (k_data k)) (core_of <$> client_list cl1)).
  { unfold cl1. cbn. rewrite Forall_fmap in Hall. rewrite <- list_fmap_compose, Forall_fmap.
    eapply Forall_impl; [exact Hall|]. intros x [dx Hx]. cbn in *. case_if; [|by eexists]. destruct x. by eexists. }
  assert (Hd1 : cl_algorithm_data cl1 = Some cd) by done. clearbody cl1.
  repeat case_if.
  - destruct (no_clients_total false cl1 h Hall1) as [n En]. rewrite (bind_ok _ _ _ _ _ En).
    case_if; [|by eexists]. destruct (ack_tail_total c false (last_ring_id c) cl1 h _ Hall1 Hd1) as [s Es].
    rewrite (bind_ok _ _ _ _ _ Es). by eexists.
  - destruct (no_clients_total true cl1 h Hall1) as [n En]. rewrite (bind_ok _ _ _ _ _ En).
    case_if; [|by eexists]. rewrite (bind_ok _ _ _ _ _ (put_cluster_data_total _ _ h _ Hd1)).
    by eexists.
  - by eexists.
Qed.

Lemma client_init_total c (s : state) : ∃ r s', qnetd_algo_ffsplit_client_init c s = (Ok r, s').
Proof.
  destruct s as [cl h]. unfold qnetd_algo_ffsplit_client_init.
  destruct (qnetd_cluster_size cl =? 1); [destruct (malloc h) as [[x|] h1]|]; cbn [negb];
    try by eexists _, _.
  all: match goal with |- context [malloc ?h] => destruct (malloc h) as [[y|] h2] end; by eexists _, _.
Qed.



(** Two clients of one cluster that did not send their configuration yet. *)
Definition ex_bare (ptr : nat) (nid : Z) : client :=
  ex_client ptr nid [] [] ring_id_zero TLV_HEURISTICS_UNDEFINED None.
Definition ex_b1 : state :=
  snd (qnetd_algo_ffsplit_client_init (ex_bare 0 1) (set_client_list [ex_bare 0 1] (fst ex_s0), [])).
Definition ex_b2 : state :=
  snd (qnetd_algo_ffsplit_client_init (ex_bare 1 2)
         (set_client_list (insert_client (ex_bare 1 2) (client_list (fst ex_b1))) (fst ex_b1), snd ex_b1)).

(** The restriction on the configurations is needed: when one of two clients that were accepted, but did
    not send their configuration yet, disconnects, the selection compares the empty lists of
    the other one and ends the process (the assertion in
    [qnetd_algo_ffsplit_is_preferred_partition]). *)
Theorem ffsplit_disconnect_ends_process :
  ∃ s c, reachable 0 s ∧ c ∈ client_list (fst s) ∧
    fst (qnetd_algo_ffsplit_client_disconnect c false s) = Err EXIT.
Proof.
  exists ex_b2, (default (ex_bare 0 1) (client_list (fst ex_b2) !! 0%nat)). split_and!.
  - exists ex_s0. split; [done|]. apply (run_event _ _ ex_b1); [apply (run_event _ _ ex_s0); [apply run_start|]|].
    + apply (step_join (ex_bare 0 1)); [apply not_elem_of_nil|apply not_elem_of_nil|done|].
      vm_compute. reflexivity.
    + rewrite (surjective_pairing ex_b1). apply (step_join (ex_bare 1 2)).
      * apply (bool_decide_unpack _). vm_compute. exact I.
      * apply (bool_decide_unpack _). vm_compute. exact I.
      * vm_compute. reflexivity.
      * vm_compute. reflexivity.
  - apply (list_elem_of_lookup_2 _ 0%nat). vm_compute. reflexivity.
  - vm_compute. reflexivity.
Qed.
