(* ===== verification/QnetdAlgoTimer.v ===== *)
(** The state decision algorithms work on, and the timer they may start for a client
    (qnetd-client-algo-timer.c). *)
From S2P Require Import Prelude Dynar Tlv NodeList SendBuffer QnetdClient QnetdCluster.
From stdpp Require Import list gmap.
From S2P Require Import TimerList TimerInterface.
Local Open Scope Z_scope.

(** What a timer of the daemon calls: the callback and the client of its [user_data1]. *)
Inductive qnetd_timer :=
| ALGO_TIMER (client : nat)
| DPD_TIMER (client : nat).

#[export] Instance qnetd_timer_eq_dec : EqDecision qnetd_timer.
Proof. solve_decision. Defined.

Section algo_timer.
Context {D C T : Type} `{TimerOps qnetd_timer T}.
Abbreviation client := (@qnetd_client D).
Abbreviation cluster := (@qnetd_cluster D C).

(** The cluster of the client, the timers of the daemon, the allocator. *)
Definition algo_state : Type := cluster * (T * heap).

(** [*client], and assignments to its fields. *)
Definition the_client (ptr : nat) : M algo_state client := λ '(cl, s),
  match get_client ptr cl with
  | Some c => (Ok c, (cl, s))
  | None => (Err NULL_DEREF, (cl, s))
  end.
Definition on_client (ptr : nat) (f : client → client) : M algo_state unit :=
  modify (λ '(cl, s), (update_client ptr f cl, s)).
Definition on_timer_list {A} (m : M (T * heap) A) : M algo_state A := λ '(cl, s),
  let '(r, s') := m s in (r, (cl, s')).

(** [info = client->algorithm_data], and assignments to its fields. *)
Definition get_info (ptr : nat) : M algo_state D :=
  c ← the_client ptr;
  match algorithm_data c with
  | Some i => mret i
  | None => fail NULL_DEREF
  end.
Definition put_info (ptr : nat) (f : D → D) : M algo_state unit :=
  i ← get_info ptr; on_client ptr (set_algorithm_data (Some (f i))).

Definition qnetd_client_algo_timer_is_scheduled (c : client) : bool :=
  match algo_timer c with Some _ => true | None => false end.

Definition qnetd_client_algo_timer_abort (ptr : nat) : M algo_state Z :=
  c ← the_client ptr;
  match algo_timer c with
  | Some p =>
      on_timer_list (timer_delete p);;
      on_client ptr (set_algo_timer None);;
      mret 0
  | None => mret 0
  end.

Definition qnetd_client_algo_timer_schedule_timeout (ptr : nat) (timeout : Z) : M algo_state Z :=
  c ← the_client ptr;
  r ← (if qnetd_client_algo_timer_is_scheduled c then qnetd_client_algo_timer_abort ptr
       else mret 0);
  if negb (r =? 0) then mret (-1)
  else
    p ← on_timer_list (timer_add timeout (ALGO_TIMER ptr));
    on_client ptr (set_algo_timer p);;
    match p with
    | None => mret (-1)
    | Some _ => mret 0
    end.

Definition qnetd_client_algo_timer_schedule (ptr : nat) : M algo_state Z :=
  c ← the_client ptr;
  qnetd_client_algo_timer_schedule_timeout ptr (heartbeat_interval c / 4).

(** ** Every timer of a client is running, and runs for that client *)

Context `{!TimerLaws qnetd_timer T}.

Definition NoDup_clients (cl : cluster) : Prop := NoDup (client_ptr <$> client_list cl).

(** Steps that read and write clients. *)
Lemma the_client_ok ptr (cl : cluster) s c :
  get_client ptr cl = Some c → the_client ptr (cl, s) = (Ok c, (cl, s)).
Proof. intros H1. unfold the_client. by rewrite H1. Qed.

Lemma get_info_ok ptr (cl : cluster) s c d :
  get_client ptr cl = Some c → algorithm_data c = Some d →
  get_info ptr (cl, s) = (Ok d, (cl, s)).
Proof.
  intros Hc Hd. unfold get_info. by rewrite (bind_ok _ _ _ _ _ (the_client_ok _ _ s _ Hc)), Hd.
Qed.

Lemma put_info_ok ptr f (cl : cluster) s c d :
  get_client ptr cl = Some c → algorithm_data c = Some d →
  put_info ptr f (cl, s) =
    (Ok tt, (update_client ptr (set_algorithm_data (Some (f d))) cl, s)).
Proof.
  intros Hc Hd. unfold put_info. by rewrite (bind_ok _ _ _ _ _ (get_info_ok _ _ s _ _ Hc Hd)).
Qed.

(** A client's handle is a running timer of that client, and no other runs for it. *)
Record algo_timers_ok (s : algo_state) : Prop := {
  at_clients : NoDup_clients (fst s);
  at_inv : timers_inv (fst (snd s));
  at_running : ∀ c p, c ∈ client_list (fst s) → algo_timer c = Some p →
    timers_running (fst (snd s)) !! p = Some (ALGO_TIMER (client_ptr c));
  at_only : ∀ p ptr, timers_running (fst (snd s)) !! p = Some (ALGO_TIMER ptr) →
    ∀ c, c ∈ client_list (fst s) → client_ptr c = ptr → algo_timer c = Some p
}.

(** Changes of a client that leave its address and its timer alone. *)
Lemma timers_ok_update s ptr f :
  algo_timers_ok s → (∀ c, client_ptr (f c) = client_ptr c) → (∀ c, algo_timer (f c) = algo_timer c) →
  algo_timers_ok (update_client ptr f (fst s), snd s).
Proof.
  intros [Hnd Hinv Hrun Honly] Hp Ht.
  assert (Hin : ∀ c, c ∈ client_list (update_client ptr f (fst s)) →
    ∃ c0, c0 ∈ client_list (fst s) ∧ client_ptr c = client_ptr c0 ∧ algo_timer c = algo_timer c0).
  { intros c (c0 & -> & Hc0)%list_elem_of_fmap. exists c0. destruct (bool_decide _); auto. }
  split; cbn [fst snd].
  - unfold NoDup_clients. by rewrite update_client_ptrs.
  - done.
  - intros c p (c0 & Hc0 & -> & ->)%Hin. by apply Hrun.
  - intros p ptr' Hr c (c0 & Hc0 & -> & ->)%Hin. by apply Honly.
Qed.

(** Setting the handle of one client together with the timers that run. *)
Lemma timers_ok_set_timer s t h ptr v :
  algo_timers_ok s → timers_inv t →
  (∀ p, v = Some p → timers_running t !! p = Some (ALGO_TIMER ptr)) →
  (∀ p ptr', timers_running t !! p = Some (ALGO_TIMER ptr') →
     (ptr' = ptr ∧ v = Some p) ∨
     (ptr' ≠ ptr ∧ timers_running (fst (snd s)) !! p = Some (ALGO_TIMER ptr'))) →
  (∀ p ptr', ptr' ≠ ptr → timers_running (fst (snd s)) !! p = Some (ALGO_TIMER ptr') →
     timers_running t !! p = Some (ALGO_TIMER ptr')) →
  algo_timers_ok (update_client ptr (set_algo_timer v) (fst s), (t, h)).
Proof.
  intros [Hnd Hinv Hrun Honly] Hi Hv Hold Hnew.
  assert (Hin : ∀ c, c ∈ client_list (update_client ptr (set_algo_timer v) (fst s)) →
    ∃ c0, c0 ∈ client_list (fst s) ∧ client_ptr c = client_ptr c0 ∧
      algo_timer c = if bool_decide (client_ptr c0 = ptr) then v else algo_timer c0).
  { intros c (c0 & -> & Hc0)%list_elem_of_fmap. exists c0.
    destruct (bool_decide _); [by destruct c0|done]. }
  split; cbn [fst snd].
  - unfold NoDup_clients. rewrite update_client_ptrs; [done|]. by intros [].
  - done.
  - intros c p (c0 & Hc0 & -> & ->)%Hin. case_bool_decide as Hp.
    + subst ptr. apply Hv.
    + intros Ht. by apply Hnew, Hrun.
  - intros p ptr' Hr c (c0 & Hc0 & -> & ->)%Hin Hp. case_bool_decide as Hp'.
    + destruct (Hold p ptr' Hr) as [[_ ?]|[? _]]; [done|]. congruence.
    + destruct (Hold p ptr' Hr) as [[? _]|[_ Ho]]; [congruence|]. by apply (Honly p ptr' Ho).
Qed.

Lemma algo_timer_abort_ok s ptr c :
  algo_timers_ok s → get_client ptr (fst s) = Some c →
  ∃ t, qnetd_client_algo_timer_abort ptr s =
         (Ok 0, (update_client ptr (set_algo_timer None) (fst s), (t, snd (snd s)))) ∧
       algo_timers_ok (update_client ptr (set_algo_timer None) (fst s), (t, snd (snd s))).
Proof.
  intros Hok Hc. destruct s as [cl [t h]]. cbn [fst snd] in *.
  apply get_client_Some in Hc as Hc'. destruct Hc' as [Hin Hptr].
  unfold qnetd_client_algo_timer_abort. rewrite (bind_ok _ _ _ _ _ (the_client_ok _ _ _ _ Hc)).
  destruct (algo_timer c) as [p|] eqn:Ht.
  - pose proof (at_running _ Hok c p Hin Ht) as Hrun. cbn in Hrun. rewrite Hptr in Hrun.
    pose proof (timer_delete_law t h p (at_inv _ Hok) (mk_is_Some _ _ Hrun)) as Hd.
    destruct (timer_delete p (t, h)) as [[u|] [t' h']] eqn:Ed; [|done]. destruct Hd as (-> & Hi & Hr).
    exists t'. rewrite (bind_ok _ _ _ u (cl, (t', h))) by (unfold on_timer_list; by rewrite Ed).
    split; [done|]. apply (timers_ok_set_timer (cl, (t, h))); [done|done|done| |].
    + intros q ptr'. rewrite Hr. intros [Hne Hq]%lookup_delete_Some. right. split; [|done].
      intros ->. apply Hne. pose proof (at_only _ Hok q ptr Hq c Hin Hptr). congruence.
    + intros q ptr' Hne Hq. cbn in Hq. rewrite Hr, lookup_delete_ne; [done|]. intros ->. congruence.
  - exists t. assert (Heq : update_client ptr (set_algo_timer None) cl = cl).
    { unfold update_client. destruct cl as [n d l]. cbn in *. unfold set_client_list. cbn. f_equal.
      rewrite <-(list_fmap_id l) at 2. apply Forall_fmap_ext_1, Forall_forall. intros c0 Hc0.
      case_bool_decide as Hp; [|done].
      assert (c0 = c) as ->; [|destruct c; cbn in *; by subst].
      eapply (NoDup_fmap_inj client_ptr); [apply (at_clients _ Hok)|done|done|congruence]. }
    by rewrite Heq.
Qed.

Lemma algo_timer_schedule_timeout_ok s ptr c timeout :
  algo_timers_ok s → get_client ptr (fst s) = Some c →
  ∃ r t h v, qnetd_client_algo_timer_schedule_timeout ptr timeout s =
           (Ok r, (update_client ptr (set_algo_timer v) (fst s), (t, h))) ∧
    algo_timers_ok (update_client ptr (set_algo_timer v) (fst s), (t, h)) ∧
    (r = 0 ∧ is_Some v ∨ r = -1 ∧ v = None ∧
       (¬ (1 ≤ timeout ≤ TIMER_LIST_MAX_INTERVAL) ∨ None ∈ snd (snd s))).
Proof.
  intros Hok Hc. unfold qnetd_client_algo_timer_schedule_timeout.
  destruct (algo_timer_abort_ok s ptr c Hok Hc) as (t1 & Hab & Hok1).
  destruct s as [cl [t h]]. cbn [fst snd] in *.
  rewrite (bind_ok _ _ _ _ _ (the_client_ok _ _ _ _ Hc)).
  set (cl1 := update_client ptr (set_algo_timer None) cl) in *.
  assert (Hab' : ∃ t2, (if qnetd_client_algo_timer_is_scheduled c
      then qnetd_client_algo_timer_abort ptr else mret 0) (cl, (t, h)) = (Ok 0, (cl1, (t2, h))) ∧
      algo_timers_ok (cl1, (t2, h))).
  { unfold qnetd_client_algo_timer_is_scheduled. destruct (algo_timer c) as [p|] eqn:Ht; [eauto|].
    unfold qnetd_client_algo_timer_abort in Hab.
    rewrite (bind_ok _ _ _ _ _ (the_client_ok _ _ _ _ Hc)), Ht in Hab.
    injection Hab as Hcl Ht1. subst t1. exists t. split; [|done]. by rewrite <-Hcl. }
  destruct Hab' as (t2 & Hab2 & Hok2). rewrite (bind_ok _ _ _ _ _ Hab2). cbn [negb Z.eqb].
  pose proof (timer_add_law t2 h timeout (ALGO_TIMER ptr) (at_inv _ Hok2)) as Ha.
  assert (Hupd : ∀ v, update_client ptr (set_algo_timer v) cl1 = update_client ptr (set_algo_timer v) cl).
  { intros v. unfold cl1, update_client, set_client_list. cbn. f_equal.
    rewrite <-list_fmap_compose. apply list_fmap_ext. intros i c0 _. cbn.
    destruct (bool_decide (client_ptr c0 = ptr)) eqn:Hb; [|by rewrite Hb].
    destruct c0; cbn in *. by rewrite Hb. }
  assert (Hnone : ∀ q, timers_running t2 !! q ≠ Some (ALGO_TIMER ptr)).
  { intros q Hq. apply get_client_Some in Hc as [Hin Hptr].
    assert (Hin1 : set_algo_timer None c ∈ client_list cl1).
    { apply list_elem_of_fmap. exists c. by rewrite bool_decide_eq_true_2. }
    pose proof (at_only _ Hok2 q ptr Hq _ Hin1 ltac:(by destruct c)) as Hx. by destruct c. }
  destruct (timer_add timeout (ALGO_TIMER ptr) (t2, h)) as [[[p|]|] [t3 h3]] eqn:Ea; [| |done];
    (rewrite (bind_ok _ _ _ _ (cl1, (t3, h3))) by (unfold on_timer_list; by rewrite Ea));
    rewrite (bind_ok (on_client _ _) _ _ _ _ eq_refl), Hupd.
  - destruct Ha as (Hfresh & Hi3 & Hr3). exists 0, t3, h3, (Some p). split_and!; [done| |left; eauto].
    rewrite <-Hupd. apply (timers_ok_set_timer (cl1, (t2, h))); [done|done| | |]; cbn [fst snd].
    + intros q [= <-]. rewrite Hr3. by rewrite lookup_insert_eq.
    + intros q ptr'. rewrite Hr3. intros [[-> [= <-]]|[Hne Hq]]%lookup_insert_Some; [by left|].
      right. split; [|done]. intros ->. by apply (Hnone q).
    + intros q ptr' Hne Hq. rewrite Hr3, lookup_insert_ne; [done|]. intros ->. congruence.
  - destruct Ha as (Hi3 & Hr3 & Hwhy). exists (-1), t3, h3, None. split_and!; [done| |right; done].
    rewrite <-Hupd. apply (timers_ok_set_timer (cl1, (t2, h))); [done|done|done| |]; cbn [fst snd].
    + intros q ptr'. rewrite Hr3. intros Hq. right. split; [|done]. intros ->. by apply (Hnone q).
    + intros q ptr' Hne Hq. by rewrite Hr3.
Qed.
End algo_timer.
