(* ===== verification/AlgoUtils.v ===== *)
(** What the last-man-standing algorithms share (qnetd-algo-utils.c): do all clients of a
    partition show the same ring id, and the list of the partitions with their sizes and
    scores. *)
From S2P Require Import Prelude Dynar Tlv NodeList SendBuffer QnetdClient QnetdCluster.
From stdpp Require Import list.
Local Open Scope Z_scope.

Record qnetd_algo_partition := mk_partition {
  pt_ring_id : tlv_ring_id;
  num_nodes : Z;
  score : Z
}.

Abbreviation partitions_list_t := (list qnetd_algo_partition).

Section utils.
Context {D C : Type}.
Abbreviation client := (@qnetd_client D).
Abbreviation cluster := (@qnetd_cluster D C).

(** [in_our_partition]: one of the two clients has the other in its membership. *)
Definition in_our_partition (c other_client : client) : bool :=
  existsb (λ node_info, node_id node_info =? client_node_id other_client)
    (last_membership_node_list c) ||
  existsb (λ node_info, node_id node_info =? client_node_id c)
    (last_membership_node_list other_client).

Definition qnetd_algo_all_ring_ids_match (c : client) (ring_id : tlv_ring_id) (cl : cluster) : Z :=
  if existsb (λ other_client,
       bool_decide (client_ptr other_client ≠ client_ptr c) &&
       (in_our_partition c other_client && negb (tlv_ring_id_eq ring_id (last_ring_id other_client))))
     (client_list cl)
  then -1 else 0.

(** The position of the first partition with the ring id. *)
Definition qnetd_algo_find_partition (l : partitions_list_t) (ring_id : tlv_ring_id) :
    option (nat * qnetd_algo_partition) :=
  list_find (λ p, tlv_ring_id_eq (pt_ring_id p) ring_id = true) l.

(** One more node. *)
Definition partition_add (heuristics : tlv_heuristics) (p : qnetd_algo_partition) :
    qnetd_algo_partition :=
  let sc := score p + 1 in
  let sc := if bool_decide (heuristics = TLV_HEURISTICS_PASS) then sc + 1
            else if bool_decide (heuristics = TLV_HEURISTICS_FAIL) then sc - 1 else sc in
  mk_partition (pt_ring_id p) (num_nodes p + 1) sc.

(** The loop over the clients: [num_partitions], the partitions, the allocator; [-1] when
    memory runs out, and the list is left as it is. *)
Fixpoint create_partitions_loop (l : list client) (num_partitions : Z) (pl : partitions_list_t)
    (h : heap) : Z * (partitions_list_t * heap) :=
  match l with
  | [] => (num_partitions, (pl, h))
  | other_client :: l' =>
      if rid_seq (last_ring_id other_client) =? 0 then
        create_partitions_loop l' num_partitions pl h
      else
        match qnetd_algo_find_partition pl (last_ring_id other_client) with
        | Some (i, p) =>
            create_partitions_loop l' num_partitions
              (<[i := partition_add (last_heuristics other_client) p]> pl) h
        | None =>
            match malloc h with
            | (None, h') => (-1, (pl, h'))
            | (Some _, h') =>
                create_partitions_loop l' (num_partitions + 1)
                  (pl ++ [partition_add (last_heuristics other_client)
                            (mk_partition (last_ring_id other_client) 0 0)]) h'
            end
        end
  end.

Definition qnetd_algo_create_partitions (cl : cluster) (pl : partitions_list_t) (h : heap) :
    Z * (partitions_list_t * heap) := create_partitions_loop (client_list cl) 0 pl h.

(** Both algorithms keep the last vote in the client's data: does a client with another ring
    id have the vote?  [None] is a NULL dereference. *)
Fixpoint other_partition_active (last_result : D → tlv_vote) (ring_id : tlv_ring_id)
    (l : list client) : option bool :=
  match l with
  | [] => Some false
  | other_client :: l' =>
      if negb (tlv_ring_id_eq ring_id (last_ring_id other_client)) then
        match algorithm_data other_client with
        | None => None
        | Some other_info =>
            if bool_decide (last_result other_info = TLV_VOTE_ACK) then Some true
            else other_partition_active last_result ring_id l'
        end
      else other_partition_active last_result ring_id l'
  end.

Definition qnetd_algo_free_partitions (pl : partitions_list_t) : partitions_list_t := [].
End utils.
