(* ===== verification/AlgoLms.v ===== *)
(** The last man standing algorithm (qnetd-algo-lms.c).

    Once all clients of a partition show its ring id, the partition with the best score is
    allowed to run, on equal scores the largest one, and else the one of the tie-breaker.
    While they do not, the client waits and a timer asks again. *)
From S2P Require Import Prelude Dynar Tlv NodeList SendBuffer QnetdClient QnetdCluster.
From S2P Require Import AlgoUtils.
From stdpp Require Import list gmap.
From S2P Require Import TimerList TimerInterface QnetdAlgoTimer.
Local Open Scope Z_scope.

Record qnetd_algo_lms_info := mk_lms {
  num_config_nodes : Z;
  last_result : tlv_vote;
  partition_list : partitions_list_t
}.

Definition set_num_config_nodes (v : Z) (i : qnetd_algo_lms_info) : qnetd_algo_lms_info :=
  mk_lms v (last_result i) (partition_list i).
Definition set_last_result (v : tlv_vote) (i : qnetd_algo_lms_info) : qnetd_algo_lms_info :=
  mk_lms (num_config_nodes i) v (partition_list i).
Definition set_partition_list (v : partitions_list_t) (i : qnetd_algo_lms_info) :
    qnetd_algo_lms_info := mk_lms (num_config_nodes i) (last_result i) v.

Definition INT_MAX : Z := 2 ^ 31 - 1.

(** The first partition with the greatest [f], and whether another one is as great. *)
Definition best_partition (f : qnetd_algo_partition → Z) (l : partitions_list_t) :
    option (nat * qnetd_algo_partition) :=
  foldl (λ best cur,
    match best with
    | None => Some cur
    | Some b => if f (snd b) <? f (snd cur) then Some cur else best
    end) None (imap pair l).
Definition joint_leader (f : qnetd_algo_partition → Z) (b : nat * qnetd_algo_partition)
    (l : partitions_list_t) : bool :=
  existsb (λ cur, negb (fst b =? fst cur)%nat && (f (snd b) =? f (snd cur))) (imap pair l).

Section lms.
Context {C T : Type} `{TimerOps qnetd_timer T}.
Abbreviation client := (@qnetd_client qnetd_algo_lms_info).
Abbreviation cluster := (@qnetd_cluster qnetd_algo_lms_info C).
Abbreviation state := (@algo_state qnetd_algo_lms_info C T).

(** [*result_vote = info->last_result = vote], then return. *)
Definition decide_vote (ptr : nat) (vote : tlv_vote) : M state (Z * option tlv_vote) :=
  put_info ptr (set_last_result vote);;
  mret (TLV_REPLY_ERROR_CODE_NO_ERROR, Some vote).

Definition free_partitions (ptr : nat) : M state unit :=
  put_info ptr (λ i, set_partition_list (qnetd_algo_free_partitions (partition_list i)) i).

Definition create_partitions (ptr : nat) : M state Z :=
  i ← get_info ptr;
  '(cl, (t, h)) ← get;
  let '(n, (pl, h')) := qnetd_algo_create_partitions cl (partition_list i) h in
  modify (λ '(cl, (t, _)), (cl, (t, h')));;
  put_info ptr (set_partition_list pl);;
  mret n.

(** The node id of the tie-breaker and the ring id found for it. *)
Definition tie_breaker_step (c : client) (acc : Z * tlv_ring_id) (other_client : client) :
    Z * tlv_ring_id :=
  let '(tb_node_id', tb_node_ring_id) := acc in
  let mode := tb_mode (tie_breaker c) in
  if mode =? TLV_TIE_BREAKER_MODE_LOWEST then
    if client_node_id other_client <? tb_node_id'
    then (client_node_id other_client, last_ring_id other_client) else acc
  else if mode =? TLV_TIE_BREAKER_MODE_HIGHEST then
    if tb_node_id' <? client_node_id other_client
    then (client_node_id other_client, last_ring_id other_client) else acc
  else if mode =? TLV_TIE_BREAKER_MODE_NODE_ID then
    if tb_node_id (tie_breaker c) =? client_node_id c
    then (tb_node_id', last_ring_id other_client) else acc
  else (tb_node_id', ring_id_zero).

Definition tie_breaker_init (c : client) : Z * tlv_ring_id :=
  let mode := tb_mode (tie_breaker c) in
  (if mode =? TLV_TIE_BREAKER_MODE_LOWEST then INT_MAX
   else if mode =? TLV_TIE_BREAKER_MODE_HIGHEST then 0
   else if mode =? TLV_TIE_BREAKER_MODE_NODE_ID then tb_node_id (tie_breaker c)
   else u32 (-1), ring_id_zero).

Definition tie_breaker_vote (c : client) (ring_id : tlv_ring_id) (l : list client) : tlv_vote :=
  let '(tb, tb_ring_id) := foldl (tie_breaker_step c) (tie_breaker_init c) l in
  if (client_node_id c =? tb) || tlv_ring_id_eq tb_ring_id ring_id then TLV_VOTE_ACK
  else TLV_VOTE_NACK.

(** The vote once there are at least two partitions ([None]: there is none). *)
Definition partitions_vote (c : client) (ring_id : tlv_ring_id) (l : list client)
    (pl : partitions_list_t) : option tlv_vote :=
  let in_partition (b : nat * qnetd_algo_partition) :=
    if tlv_ring_id_eq (pt_ring_id (snd b)) ring_id then TLV_VOTE_ACK else TLV_VOTE_NACK in
  best_score_partition ← best_partition score pl;
  if negb (joint_leader score best_score_partition pl) then Some (in_partition best_score_partition)
  else
    largest_partition ← best_partition num_nodes pl;
    if negb (joint_leader num_nodes largest_partition pl) then Some (in_partition largest_partition)
    else Some (tie_breaker_vote c ring_id l).

(** The vote of one of several partitions: a newcomer waits for those who are active. *)
Definition vote_for_partition (ptr : nat) (c : client) (ring_id : tlv_ring_id) (l : list client)
    (info : qnetd_algo_lms_info) : M state (Z * option tlv_vote) :=
  match (if bool_decide (last_result info = TLV_VOTE_UNDEFINED)
         then other_partition_active last_result ring_id l else Some false) with
  | None => fail NULL_DEREF
  | Some true =>
      free_partitions ptr;;
      mret (TLV_REPLY_ERROR_CODE_NO_ERROR, Some TLV_VOTE_NACK)
  | Some false =>
      match partitions_vote c ring_id l (partition_list info) with
      | None => fail NULL_DEREF
      | Some vote =>
          r ← decide_vote ptr vote;
          free_partitions ptr;;
          mret r
      end
  end.

Definition do_lms_algorithm (ptr : nat) (ring_id : tlv_ring_id) : M state (Z * option tlv_vote) :=
  qnetd_client_algo_timer_abort ptr;;
  c ← the_client ptr;
  '(cl, _) ← get;
  if qnetd_algo_all_ring_ids_match c ring_id cl =? -1 then
    qnetd_client_algo_timer_schedule ptr;;
    decide_vote ptr TLV_VOTE_WAIT_FOR_REPLY
  else
    num_partitions ← create_partitions ptr;
    if num_partitions =? -1 then mret (TLV_REPLY_ERROR_CODE_INTERNAL_ERROR, None)
    else if num_partitions =? 0 then
      qnetd_client_algo_timer_schedule ptr;;
      decide_vote ptr TLV_VOTE_WAIT_FOR_REPLY
    else if num_partitions =? 1 then
      free_partitions ptr;;
      decide_vote ptr TLV_VOTE_ACK
    else
      info ← get_info ptr;
      vote_for_partition ptr c ring_id (client_list cl) info.

Definition qnetd_algo_lms_client_init (ptr : nat) : M state Z := λ '(cl, (t, h)),
  match malloc h with
  | (None, h') => (Ok TLV_REPLY_ERROR_CODE_INTERNAL_ERROR, (cl, (t, h')))
  | (Some _, h') =>
      (Ok TLV_REPLY_ERROR_CODE_NO_ERROR,
       (update_client ptr (set_algorithm_data (Some (mk_lms 0 TLV_VOTE_UNDEFINED []))) cl, (t, h')))
  end.

Definition qnetd_algo_lms_config_node_list_received (ptr : nat) (nodes : node_list) :
    M state (Z * option tlv_vote) :=
  put_info ptr (set_num_config_nodes (Z.of_nat (length nodes)));;
  mret (TLV_REPLY_ERROR_CODE_NO_ERROR, Some TLV_VOTE_NO_CHANGE).

Definition qnetd_algo_lms_membership_node_list_received (ptr : nat) (ring_id : tlv_ring_id) :
    M state (Z * option tlv_vote) := do_lms_algorithm ptr ring_id.

Definition qnetd_algo_lms_quorum_node_list_received (ptr : nat) : M state (Z * option tlv_vote) :=
  c ← the_client ptr; do_lms_algorithm ptr (last_ring_id c).

(** The data is freed; the pointer is not read again. *)
Definition qnetd_algo_lms_client_disconnect (ptr : nat) : M state unit :=
  on_client ptr (set_algorithm_data None).

Definition qnetd_algo_lms_ask_for_vote_received (ptr : nat) : M state (Z * option tlv_vote) :=
  c ← the_client ptr; do_lms_algorithm ptr (last_ring_id c).

Definition qnetd_algo_lms_vote_info_reply_received : M state Z :=
  mret TLV_REPLY_ERROR_CODE_NO_ERROR.

Definition qnetd_algo_lms_heuristics_change_received : M state (Z * option tlv_vote) :=
  mret (TLV_REPLY_ERROR_CODE_NO_ERROR, Some TLV_VOTE_NO_CHANGE).

(** The error code, [*reschedule_timer], [*send_vote] and what [*result_vote] is set to. *)
Definition qnetd_algo_lms_timer_callback (ptr : nat) :
    M state (Z * bool * bool * option tlv_vote) :=
  c ← the_client ptr;
  '(ret, result_vote) ← do_lms_algorithm ptr (last_ring_id c);
  let ok := ret =? TLV_REPLY_ERROR_CODE_NO_ERROR in
  mret (ret,
    ok && bool_decide (result_vote = Some TLV_VOTE_WAIT_FOR_REPLY),
    ok && (bool_decide (result_vote = Some TLV_VOTE_ACK) ||
           bool_decide (result_vote = Some TLV_VOTE_NACK)),
    result_vote).
End lms.
