(* ===== verification/AlgoLmsFacts.v ===== *)
(** The last man standing algorithms: the partitions are those of the connected clients,
    exactly one of them is given the vote, and a client that has to wait has a timer. *)
From S2P Require Import Prelude Dynar Tlv NodeList SendBuffer QnetdClient QnetdCluster.
From stdpp Require Import list gmap.
From S2P Require Import AlgoUtils TimerList TimerListFacts TimerInterface QnetdAlgoTimer AlgoLms.
Local Open Scope Z_scope.

(** ** The partitions, from the list of clients *)

Section partitions.
Context {D : Type}.
Abbreviation client := (@qnetd_client D).

Definition initialised (c : client) : Prop := rid_seq (last_ring_id c) ≠ 0.
Definition in_ring (r : tlv_ring_id) (c : client) : Prop := initialised c ∧ last_ring_id c = r.

#[export] Instance initialised_dec c : Decision (initialised c).
Proof. unfold initialised. apply _. Defined.
#[export] Instance in_ring_dec r c : Decision (in_ring r c).
Proof. unfold in_ring. apply _. Defined.

Definition count (P : client → Prop) `{∀ c, Decision (P c)} (l : list client) : Z :=
  Z.of_nat (length (filter P l)).

Definition ring_size (l : list client) (r : tlv_ring_id) : Z := count (in_ring r) l.
(** Members, plus the passes, minus the failures. *)
Definition ring_score (l : list client) (r : tlv_ring_id) : Z :=
  ring_size l r +
  count (λ c, in_ring r c ∧ last_heuristics c = TLV_HEURISTICS_PASS) l -
  count (λ c, in_ring r c ∧ last_heuristics c = TLV_HEURISTICS_FAIL) l.

(** The ring ids in the order of their first client. *)
Definition rings_step (rs : list tlv_ring_id) (c : client) : list tlv_ring_id :=
  if decide (initialised c ∧ last_ring_id c ∉ rs) then rs ++ [last_ring_id c] else rs.
Definition rings (l : list client) : list tlv_ring_id := foldl rings_step [] l.

Definition partitions (l : list client) : list qnetd_algo_partition :=
  (λ r, mk_partition r (ring_size l r) (ring_score l r)) <$> rings l.

Lemma rings_snoc l c : rings (l ++ [c]) = rings_step (rings l) c.
Proof. unfold rings. by rewrite foldl_app. Qed.

Lemma rings_NoDup l : NoDup (rings l).
Proof.
  induction l as [|c l IH] using rev_ind; [constructor|].
  rewrite rings_snoc. unfold rings_step. case_decide as H; [|done].
  apply NoDup_app. split_and!; [done| |apply NoDup_singleton].
  intros r Hr ->%list_elem_of_singleton. by destruct H.
Qed.

Lemma rings_elem l r : r ∈ rings l ↔ ∃ c, c ∈ l ∧ in_ring r c.
Proof.
  induction l as [|c l IH] using rev_ind.
  - cbn. split; [intros []%not_elem_of_nil|intros (c & []%not_elem_of_nil & _)].
  - rewrite rings_snoc. unfold rings_step, in_ring. split.
    + intros Hr. assert (r ∈ rings l ∨ initialised c ∧ r = last_ring_id c) as [Hl|[Hi ->]].
      { case_decide as H; [|by left]. apply elem_of_app in Hr as [?| ->%list_elem_of_singleton];
          [by left|right; by destruct H]. }
      * apply IH in Hl as (c' & Hc' & ?). exists c'. split; [|done]. apply elem_of_app. by left.
      * exists c. split; [|done]. apply elem_of_app. right. by apply list_elem_of_singleton.
    + intros (c' & [Hc'|Hc']%elem_of_app & Hi & Hr).
      * assert (Hl : r ∈ rings l) by (apply IH; by exists c').
        case_decide; [apply elem_of_app; by left|done].
      * apply list_elem_of_singleton in Hc' as ->. destruct (decide (r ∈ rings l)) as [|Hn].
        -- case_decide; [apply elem_of_app; by left|done].
        -- rewrite decide_True by (by rewrite Hr). apply elem_of_app. right.
           rewrite Hr. by apply list_elem_of_singleton.
Qed.

Lemma count_snoc (P : client → Prop) `{∀ c, Decision (P c)} l c :
  count P (l ++ [c]) = count P l + if decide (P c) then 1 else 0.
Proof.
  unfold count. rewrite filter_app, length_app, filter_cons, filter_nil.
  case_decide; cbn [length]; lia.
Qed.

(** One more client of the ring. *)
Lemma partition_snoc l c r :
  in_ring r c →
  mk_partition r (ring_size (l ++ [c]) r) (ring_score (l ++ [c]) r) =
  partition_add (last_heuristics c) (mk_partition r (ring_size l r) (ring_score l r)).
Proof.
  intros Hr. unfold ring_score, ring_size, partition_add. cbn [score num_nodes pt_ring_id].
  rewrite !count_snoc, (decide_True (P := in_ring r c)) by done.
  assert (Hh : ∀ h (d : Decision (in_ring r c ∧ last_heuristics c = h)),
    (if @decide _ d then 1 else 0) = if bool_decide (last_heuristics c = h) then 1 else 0).
  { intros h d. destruct (@decide _ d) as [[_ E]|E];
      [by rewrite bool_decide_eq_true_2|by rewrite bool_decide_eq_false_2 by tauto]. }
  rewrite !Hh.
  destruct (bool_decide (last_heuristics c = TLV_HEURISTICS_PASS)) eqn:E1,
    (bool_decide (last_heuristics c = TLV_HEURISTICS_FAIL)) eqn:E2; try (f_equal; lia).
  apply bool_decide_eq_true in E1, E2. congruence.
Qed.

Lemma partition_snoc_other l c r :
  ¬ in_ring r c → ring_size (l ++ [c]) r = ring_size l r ∧ ring_score (l ++ [c]) r = ring_score l r.
Proof.
  intros Hr. unfold ring_score, ring_size. rewrite !count_snoc.
  rewrite !decide_False by tauto. lia.
Qed.

Lemma find_partition_spec l (r : tlv_ring_id) :
  match qnetd_algo_find_partition (partitions l) r with
  | Some (i, p) => partitions l !! i = Some p ∧ pt_ring_id p = r ∧ r ∈ rings l
  | None => r ∉ rings l
  end.
Proof.
  unfold qnetd_algo_find_partition. destruct (list_find _ _) as [[i p]|] eqn:Hf.
  - apply list_find_Some in Hf as (Hi & Hr%tlv_ring_id_eq_spec & _). split_and!; [done|done|].
    apply list_lookup_fmap_Some in Hi as (r' & -> & Hr'). cbn in Hr. subst r'.
    by eapply list_elem_of_lookup_2.
  - intros Hin. apply list_find_None in Hf. rewrite Forall_forall in Hf.
    apply (Hf (mk_partition r (ring_size l r) (ring_score l r))).
    + apply list_elem_of_fmap. by exists r.
    + cbn. by apply tlv_ring_id_eq_spec.
Qed.

Lemma partitions_snoc l c :
  partitions (l ++ [c]) =
  if decide (initialised c) then
    match qnetd_algo_find_partition (partitions l) (last_ring_id c) with
    | Some (i, p) => <[i := partition_add (last_heuristics c) p]> (partitions l)
    | None => partitions l ++ [partition_add (last_heuristics c) (mk_partition (last_ring_id c) 0 0)]
    end
  else partitions l.
Proof.
  assert (Hsame : ∀ rs : list tlv_ring_id, (∀ r, r ∈ rs → ¬ in_ring r c) →
    (λ r, mk_partition r (ring_size (l ++ [c]) r) (ring_score (l ++ [c]) r)) <$> rs =
    (λ r, mk_partition r (ring_size l r) (ring_score l r)) <$> rs).
  { intros rs Hrs. apply Forall_fmap_ext_1, Forall_forall. intros r Hr.
    destruct (partition_snoc_other l c r (Hrs r Hr)) as [-> ->]. done. }
  unfold partitions at 1. rewrite rings_snoc. unfold rings_step.
  destruct (decide (initialised c)) as [Hi|Hi].
  2: { rewrite decide_False by tauto. apply Hsame. intros r _ [? _]. done. }
  pose proof (find_partition_spec l (last_ring_id c)) as Hf.
  destruct (qnetd_algo_find_partition _ _) as [[i p]|].
  - destruct Hf as (Hp & Hr & Hin). rewrite decide_False by tauto.
    apply list_lookup_fmap_Some in Hp as (r & -> & Hri). cbn in Hr. subst r.
    apply list_eq. intros j. rewrite list_lookup_fmap. destruct (decide (j = i)) as [->|Hne].
    + rewrite list_lookup_insert_eq.
      2: { unfold partitions. rewrite length_fmap. by eapply lookup_lt_Some. }
      rewrite Hri. cbn. f_equal. by apply partition_snoc.
    + rewrite list_lookup_insert_ne by done. unfold partitions. rewrite list_lookup_fmap.
      destruct (rings l !! j) as [r|] eqn:Hj; [|done]. cbn. f_equal.
      destruct (partition_snoc_other l c r) as [-> ->]; [|done].
      intros [_ <-]. apply Hne. eapply NoDup_lookup; [apply (rings_NoDup l)| |]; done.
  - rewrite decide_True by done. rewrite fmap_app. f_equal.
    + apply Hsame. intros r Hr [_ <-]. done.
    + cbn. f_equal. rewrite partition_snoc by done. f_equal.
      assert (H : ∀ (P : client → Prop) `{∀ c, Decision (P c)}, (∀ c', P c' → in_ring (last_ring_id c) c') → count P l = 0).
      { intros P ? HP. unfold count. destruct (filter P l) as [|c' l'] eqn:E; [done|].
        exfalso. apply Hf, rings_elem. exists c'.
        assert (Hc' : c' ∈ filter P l) by (rewrite E; left).
        apply list_elem_of_filter in Hc' as [Hc' ?]. split; [done|by apply HP]. }
      unfold ring_score, ring_size. rewrite !H; [done|tauto..].
Qed.

Lemma create_partitions_loop_spec l done h :
  match create_partitions_loop l (Z.of_nat (length (partitions done))) (partitions done) h with
  | (n, (pl, h')) =>
      h' `suffix_of` h ∧
      (n = -1 ∧ None ∈ h ∨ n = Z.of_nat (length pl) ∧ pl = partitions (done ++ l))
  end.
Proof.
  revert done h. induction l as [|c l IH]; intros done h; cbn [create_partitions_loop].
  - split; [done|]. right. by rewrite app_nil_r.
  - assert (Happ : done ++ c :: l = (done ++ [c]) ++ l) by (by rewrite <-app_assoc).
    pose proof (partitions_snoc done c) as Hs. destruct (_ =? 0) eqn:Hz; zbool.
    + rewrite decide_False in Hs by (intros Hi; by apply Hi). rewrite Happ, <-Hs. apply IH.
    + rewrite decide_True in Hs by done.
      destruct (qnetd_algo_find_partition _ _) as [[i p]|].
      * rewrite Happ, <-Hs.
        replace (length (partitions done)) with (length (partitions (done ++ [c])))
          by (by rewrite Hs, length_insert). apply IH.
      * destruct (malloc h) as [[j|] h'] eqn:Em.
        -- rewrite Happ, <-Hs. specialize (IH (done ++ [c]) h').
           replace (Z.of_nat (length (partitions done)) + 1)
             with (Z.of_nat (length (partitions (done ++ [c]))))
             by (rewrite Hs, length_app; cbn; lia).
           destruct (create_partitions_loop l _ _ h') as [n [pl h'']].
           destruct IH as [Hsuf Hres]. apply malloc_suffix in Em.
           split; [by etrans|]. destruct Hres as [[-> ?]|?]; [left|by right].
           split; [done|]. by eapply suffix_in.
        -- split; [by eapply malloc_suffix|]. left. split; [done|]. by eapply malloc_None.
Qed.
End partitions.

(** ** The selection *)

Lemma best_fold_spec (f : qnetd_algo_partition → Z) (l : list (nat * qnetd_algo_partition)) best :
  match foldl (λ best cur, match best with
               | None => Some cur
               | Some b => if f (snd b) <? f (snd cur) then Some cur else best end) best l with
  | None => best = None ∧ l = []
  | Some b => (Some b = best ∨ b ∈ l) ∧ (∀ b', Some b' = best ∨ b' ∈ l → f (snd b') ≤ f (snd b))
  end.
Proof.
  revert best. induction l as [|x l IH]; intros best; cbn [foldl].
  - destruct best as [b|]; [|done]. split; [by left|].
    intros b' [[= ->]|[]%not_elem_of_nil]. lia.
  - destruct best as [b0|]; [case_if|].
    + specialize (IH (Some x)). destruct (foldl _ _ l) as [b|]; [|by destruct IH].
      destruct IH as [Hb Hmax]. split.
      * right. apply elem_of_cons. destruct Hb as [[= ->]|?]; [by left|by right].
      * intros b' [[= ->]|[->|Hin]%elem_of_cons]; [|by apply Hmax; left|by apply Hmax; right].
        specialize (Hmax x ltac:(by left)). lia.
    + specialize (IH (Some b0)). destruct (foldl _ _ l) as [b|]; [|by destruct IH].
      destruct IH as [Hb Hmax]. split.
      * destruct Hb as [?|?]; [by left|right; by right].
      * intros b' [[= ->]|[->|Hin]%elem_of_cons]; [by apply Hmax; left| |by apply Hmax; right].
        specialize (Hmax b0 ltac:(by left)). lia.
    + specialize (IH (Some x)). destruct (foldl _ _ l) as [b|]; [|by destruct IH].
      destruct IH as [Hb Hmax]. split.
      * right. apply elem_of_cons. destruct Hb as [[= ->]|?]; [by left|by right].
      * intros b' [?|[->|Hin]%elem_of_cons]; [done|by apply Hmax; left|by apply Hmax; right].
Qed.

Lemma elem_of_imap_pair {A} (l : list A) i (x : A) : (i, x) ∈ imap pair l ↔ l !! i = Some x.
Proof.
  rewrite list_elem_of_lookup. split.
  - intros [j Hj]. rewrite list_lookup_imap in Hj. destruct (l !! j) as [y|] eqn:Hy; [|done].
    cbn in Hj. by simplify_eq.
  - intros Hi. exists i. by rewrite list_lookup_imap, Hi.
Qed.

Lemma best_partition_spec f l :
  l ≠ [] → ∃ i p, best_partition f l = Some (i, p) ∧ l !! i = Some p ∧ ∀ q, q ∈ l → f q ≤ f p.
Proof.
  intros Hl. unfold best_partition. pose proof (best_fold_spec f (imap pair l) None) as H.
  destruct (foldl _ _ _) as [[i p]|].
  - destruct H as [[?|Hin] Hmax]; [done|]. apply elem_of_imap_pair in Hin.
    exists i, p. split_and!; [done|done|]. intros q [j Hq]%list_elem_of_lookup.
    apply (Hmax (j, q)). right. by apply elem_of_imap_pair.
  - destruct H as [_ H]. destruct l; [done|]. done.
Qed.

(** Nobody else is as good as the best one, which is then the only one. *)
Lemma joint_leader_false f l i p :
  l !! i = Some p → (∀ q, q ∈ l → f q ≤ f p) → joint_leader f (i, p) l = false →
  ∀ j q, l !! j = Some q → j ≠ i → f q < f p.
Proof.
  intros Hi Hmax Hj j q Hq Hne. unfold joint_leader in Hj.
  specialize (Hmax q (list_elem_of_lookup_2 _ _ _ Hq)).
  enough (f q ≠ f p) by lia. intros Heq.
  rewrite (existsb_intro _ _ (j, q)) in Hj; [done|by apply elem_of_imap_pair|].
  cbn. rewrite Heq, Z.eqb_refl, andb_true_r. by apply negb_true_iff, Nat.eqb_neq.
Qed.

Section selection.
Abbreviation client := (@qnetd_client qnetd_algo_lms_info).

(** The client with the least node id ([s = 1]) or the greatest one ([s = -1]). *)
Definition extreme_step (s : Z) (acc : Z * tlv_ring_id) (x : client) : Z * tlv_ring_id :=
  if s * client_node_id x <? s * fst acc then (client_node_id x, last_ring_id x) else acc.

Lemma extreme_fold s (l : list client) acc :
  match foldl (extreme_step s) acc l with
  | (tb', r') =>
      ((tb', r') = acc ∧ ∀ c', c' ∈ l → s * fst acc ≤ s * client_node_id c') ∨
      (∃ c', c' ∈ l ∧ client_node_id c' = tb' ∧ last_ring_id c' = r' ∧ s * tb' < s * fst acc ∧
             ∀ c'', c'' ∈ l → s * tb' ≤ s * client_node_id c'')
  end.
Proof.
  revert acc. induction l as [|x l IH]; intros [tb r]; cbn [foldl].
  - left. split; [done|]. by intros c' []%not_elem_of_nil.
  - unfold extreme_step at 2. cbn [fst]. case_if.
    + specialize (IH (client_node_id x, last_ring_id x)).
      destruct (foldl _ _ l) as [tb' r']. right. cbn [fst] in IH.
      destruct IH as [([= -> ->] & Hle)|(c' & Hin & Hid & Hr & Hlt & Hle)].
      * exists x. split_and!; [left|done|done|done|].
        intros c'' [->|Hc]%elem_of_cons; [lia|by apply Hle].
      * exists c'. split_and!; [by right|done|done|lia|].
        intros c'' [->|Hc]%elem_of_cons; [lia|by apply Hle].
    + specialize (IH (tb, r)). destruct (foldl _ _ l) as [tb' r']. cbn [fst] in IH.
      destruct IH as [([= -> ->] & Hle)|(c' & Hin & Hid & Hr & Hlt & Hle)].
      * left. split; [done|]. intros c'' [->|Hc]%elem_of_cons; [lia|by apply Hle].
      * right. exists c'. split_and!; [by right|done|done|lia|].
        intros c'' [->|Hc]%elem_of_cons; [lia|by apply Hle].
Qed.

Definition tb_sign (c : client) : Z :=
  if tb_mode (tie_breaker c) =? TLV_TIE_BREAKER_MODE_LOWEST then 1 else -1.

Lemma tie_breaker_fold (c : client) l acc :
  tb_mode (tie_breaker c) = TLV_TIE_BREAKER_MODE_LOWEST ∨
  tb_mode (tie_breaker c) = TLV_TIE_BREAKER_MODE_HIGHEST →
  foldl (tie_breaker_step c) acc l = foldl (extreme_step (tb_sign c)) acc l.
Proof.
  intros Hm. revert acc. induction l as [|x l IH]; intros [tb r]; [done|]. cbn [foldl].
  rewrite IH. f_equal. unfold tie_breaker_step, extreme_step, tb_sign. cbn [fst].
  destruct Hm as [-> | ->]; cbn [Z.eqb Pos.eqb TLV_TIE_BREAKER_MODE_LOWEST TLV_TIE_BREAKER_MODE_HIGHEST].
  - by rewrite !Z.mul_1_l.
  - replace (-1 * client_node_id x <? -1 * tb) with (tb <? client_node_id x); [done|].
    destruct (tb <? _) eqn:E1, (-1 * _ <? _) eqn:E2; zbool; lia || done.
Qed.

Definition vote_for (r ring_id : tlv_ring_id) : tlv_vote :=
  if tlv_ring_id_eq r ring_id then TLV_VOTE_ACK else TLV_VOTE_NACK.

(** [r] is better than every other ring of the clients. *)
Definition beats_others (f : tlv_ring_id → Z) (l : list client) (r : tlv_ring_id) : Prop :=
  r ∈ rings l ∧ ∀ r', r' ∈ rings l → r' ≠ r → f r' < f r.

Definition no_best (f : tlv_ring_id → Z) (l : list client) : Prop := ∀ r, ¬ beats_others f l r.

Lemma joint_leader_no_best f (l : list client) i p :
  let g p := f (pt_ring_id p) in
  partitions l !! i = Some p → (∀ q, q ∈ partitions l → g q ≤ g p) →
  joint_leader g (i, p) (partitions l) = true → no_best f l.
Proof.
  intros g Hi Hmax Hj r [Hr Hbeat]. unfold joint_leader in Hj.
  apply existsb_exists in Hj as ([j q] & Hin & Hq). apply list_elem_of_In, elem_of_imap_pair in Hin.
  cbn in Hq. apply andb_true_iff in Hq as [Hne Heq].
  apply negb_true_iff, Nat.eqb_neq in Hne. apply Z.eqb_eq in Heq. unfold g in Heq.
  pose proof (rings_NoDup l) as Hnd. pose proof Hr as [k Hk]%list_elem_of_lookup.
  assert (Hmax' : f r ≤ f (pt_ring_id p)).
  { apply (Hmax (mk_partition r (ring_size l r) (ring_score l r))). apply list_elem_of_fmap. by exists r. }
  apply list_lookup_fmap_Some in Hi as (rp & -> & Hrp). apply list_lookup_fmap_Some in Hin as (rq & -> & Hrq).
  cbn in *. assert (rq ≠ rp) by (intros ->; apply Hne; by eapply NoDup_lookup).
  destruct (decide (rp = r)) as [->|Hpr].
  - specialize (Hbeat rq (list_elem_of_lookup_2 _ _ _ Hrq) ltac:(done)). lia.
  - specialize (Hbeat rp (list_elem_of_lookup_2 _ _ _ Hrp) Hpr). lia.
Qed.

Lemma unique_best_ring f (l : list client) :
  let g p := f (pt_ring_id p) in
  partitions l ≠ [] →
  ∃ b, best_partition g (partitions l) = Some b ∧
    (if joint_leader g b (partitions l) then no_best f l else beats_others f l (pt_ring_id (snd b))).
Proof.
  intros g Hl. destruct (best_partition_spec g (partitions l) Hl) as (i & p & Hb & Hi & Hmax).
  exists (i, p). split; [done|]. cbn. destruct (joint_leader g (i, p) (partitions l)) eqn:Hj.
  { by apply (joint_leader_no_best f l i p). }
  pose proof (joint_leader_false g _ i p Hi Hmax Hj) as Hu.
  apply list_lookup_fmap_Some in Hi as (r & -> & Hr). cbn. split; [by eapply list_elem_of_lookup_2|].
  intros r' [j Hr']%list_elem_of_lookup Hne.
  apply (Hu j (mk_partition r' (ring_size l r') (ring_score l r'))).
  - unfold partitions. by rewrite list_lookup_fmap, Hr'.
  - intros ->. congruence.
Qed.

Lemma best_partition_ext f g (l : partitions_list_t) :
  (∀ p, p ∈ l → f p = g p) → best_partition f l = best_partition g l.
Proof.
  intros H. unfold best_partition.
  assert (Hgen : ∀ (k : list (nat * qnetd_algo_partition)) best,
    (∀ b, b ∈ k ∨ best = Some b → f (snd b) = g (snd b)) →
    foldl (λ best cur, match best with None => Some cur
             | Some b => if f (snd b) <? f (snd cur) then Some cur else best end) best k =
    foldl (λ best cur, match best with None => Some cur
             | Some b => if g (snd b) <? g (snd cur) then Some cur else best end) best k).
  { induction k as [|x k IH]; intros best Hk; [done|]. cbn [foldl].
    destruct best as [b|].
    - rewrite (Hk b ltac:(by right)), (Hk x ltac:(left; left)). apply IH.
      intros b' [Hb'|Hb']; [apply Hk; left; by right|].
      destruct (_ <? _); simplify_eq; apply Hk; [left; left|by right].
    - apply IH. intros b' [Hb'|Hb']; [apply Hk; left; by right|]. simplify_eq. apply Hk. left. left. }
  apply Hgen. intros [i b] [Hb|Hb]; [|done]. apply elem_of_imap_pair in Hb. apply H.
  by eapply list_elem_of_lookup_2.
Qed.

Lemma joint_leader_ext f g i p (l : partitions_list_t) :
  l !! i = Some p → (∀ p, p ∈ l → f p = g p) → joint_leader f (i, p) l = joint_leader g (i, p) l.
Proof.
  intros Hi H. apply existsb_ext_in. intros [j q] Hq. apply elem_of_imap_pair in Hq. cbn.
  by rewrite (H p), (H q) by (by eapply list_elem_of_lookup_2).
Qed.

(** The field of a partition is the value of its ring. *)
Lemma unique_best_field (field : qnetd_algo_partition → Z) f (l : list client) :
  (∀ p, p ∈ partitions l → field p = f (pt_ring_id p)) → partitions l ≠ [] →
  ∃ b, best_partition field (partitions l) = Some b ∧
    (if joint_leader field b (partitions l) then no_best f l else beats_others f l (pt_ring_id (snd b))).
Proof.
  intros Hf Hl. destruct (best_partition_spec field (partitions l) Hl) as (i & p & Hb & Hi & _).
  destruct (unique_best_ring f l Hl) as (b & Hb' & Hu).
  rewrite <-(best_partition_ext field _ _ Hf), Hb in Hb'. injection Hb' as <-.
  exists (i, p). split; [done|]. rewrite (joint_leader_ext _ _ _ _ _ Hi Hf). exact Hu.
Qed.

Lemma partition_fields (l : list client) p :
  p ∈ partitions l → score p = ring_score l (pt_ring_id p) ∧ num_nodes p = ring_size l (pt_ring_id p).
Proof. by intros (r & -> & _)%list_elem_of_fmap. Qed.

(** One ring is voted for by score or by size, or the tie-breaker is asked. *)
Lemma partitions_vote_cases (l : list client) :
  partitions l ≠ [] →
  (∃ r, (beats_others (ring_score l) l r ∨
         no_best (ring_score l) l ∧ beats_others (ring_size l) l r) ∧
     ∀ c ring_id, partitions_vote c ring_id l (partitions l) = Some (vote_for r ring_id)) ∨
  (no_best (ring_score l) l ∧ no_best (ring_size l) l ∧
   ∀ c ring_id, partitions_vote c ring_id l (partitions l) = Some (tie_breaker_vote c ring_id l)).
Proof.
  intros Hl. unfold partitions_vote.
  destruct (unique_best_field score (ring_score l) l) as (b & Hb & Hu); [|done|].
  { intros p Hp. by apply partition_fields. }
  rewrite Hb. cbn. destruct (joint_leader score b _); cbn.
  - destruct (unique_best_field num_nodes (ring_size l) l) as (b' & Hb' & Hu'); [|done|].
    { intros p Hp. by apply partition_fields. }
    rewrite Hb'. cbn. destruct (joint_leader num_nodes b' _); cbn.
    + right. done.
    + left. exists (pt_ring_id (snd b')). split; [by right|done].
  - left. exists (pt_ring_id (snd b)). split; [by left|done].
Qed.

(** The clients a run of the algorithm compares: different node ids, all with a ring id, and
    the same tie-breaker, which the server checks when they connect. *)
Record comparable (l : list client) (tb : tlv_tie_breaker) : Prop := {
  cmp_ids : NoDup (client_node_id <$> l);
  cmp_init : ∀ c, c ∈ l → initialised c;
  cmp_tb : ∀ c, c ∈ l → tie_breaker c = tb
}.

Lemma partitions_nonempty l tb : comparable l tb → l ≠ [] → partitions l ≠ [].
Proof.
  intros Hc Hl Hp. destruct l as [|c l]; [done|].
  assert (Hr : last_ring_id c ∈ rings (c :: l)).
  { apply rings_elem. exists c. split; [left|]. split; [|done]. apply Hc. left. }
  unfold partitions in Hp. apply fmap_nil_inv in Hp. rewrite Hp in Hr.
  by apply not_elem_of_nil in Hr.
Qed.

Lemma ring_not_zero (c : client) : initialised c → tlv_ring_id_eq ring_id_zero (last_ring_id c) = false.
Proof.
  intros Hi. apply not_true_iff_false. rewrite tlv_ring_id_eq_spec. intros H. apply Hi. by rewrite <-H.
Qed.

(** In the other modes the tie-breaker finds no ring for a node that is not named. *)
Lemma tie_breaker_fold_other (c : client) l t :
  tb_mode (tie_breaker c) ≠ TLV_TIE_BREAKER_MODE_LOWEST →
  tb_mode (tie_breaker c) ≠ TLV_TIE_BREAKER_MODE_HIGHEST →
  tb_mode (tie_breaker c) ≠ TLV_TIE_BREAKER_MODE_NODE_ID ∨
    tb_node_id (tie_breaker c) ≠ client_node_id c →
  foldl (tie_breaker_step c) (t, ring_id_zero) l = (t, ring_id_zero).
Proof.
  intros H1%Z.eqb_neq H2%Z.eqb_neq H3. induction l as [|x l IH]; [done|]. cbn [foldl].
  unfold tie_breaker_step at 2. rewrite H1, H2. destruct (_ =? TLV_TIE_BREAKER_MODE_NODE_ID) eqn:E.
  - zbool. destruct H3 as [?|H3%Z.eqb_neq]; [done|]. by rewrite H3.
  - done.
Qed.

Lemma tie_breaker_votes_agree l tb c1 c2 :
  comparable l tb → c1 ∈ l → c2 ∈ l →
  tie_breaker_vote c1 (last_ring_id c1) l = TLV_VOTE_ACK →
  tie_breaker_vote c2 (last_ring_id c2) l = TLV_VOTE_ACK →
  last_ring_id c1 = last_ring_id c2.
Proof.
  intros Hcmp Hc1 Hc2.
  assert (Hid : ∀ c c', c ∈ l → c' ∈ l → client_node_id c = client_node_id c' → c = c').
  { intros c c' ? ?. by apply (NoDup_fmap_inj client_node_id l); [apply Hcmp|..]. }
  assert (Hz : ∀ c, c ∈ l → tlv_ring_id_eq ring_id_zero (last_ring_id c) = false).
  { intros c Hc. by apply ring_not_zero, (cmp_init _ _ Hcmp). }
  pose proof (cmp_tb _ _ Hcmp c1 Hc1) as H1. pose proof (cmp_tb _ _ Hcmp c2 Hc2) as H2.
  destruct (decide (tb_mode tb = TLV_TIE_BREAKER_MODE_LOWEST ∨ tb_mode tb = TLV_TIE_BREAKER_MODE_HIGHEST))
    as [Hm|Hm].
  - unfold tie_breaker_vote. rewrite !tie_breaker_fold by congruence.
    assert (tb_sign c2 = tb_sign c1 ∧ tie_breaker_init c2 = tie_breaker_init c1) as [-> ->].
    { unfold tb_sign, tie_breaker_init. by rewrite H1, H2. }
    pose proof (extreme_fold (tb_sign c1) l (tie_breaker_init c1)) as Hf.
    destruct (foldl _ _ l) as [t r]. destruct Hf as [[Hinit _]|(c0 & Hc0 & Ht & Hr & _)].
    + assert (r = ring_id_zero) as -> by (unfold tie_breaker_init in Hinit; congruence).
      rewrite !Hz, !orb_false_r by done.
      destruct (client_node_id c1 =? t) eqn:E1; [|done].
      destruct (client_node_id c2 =? t) eqn:E2; [|done].
      intros _ _. zbool. f_equal. apply Hid; congruence.
    + intros Ha Hb. assert (H : ∀ c, c ∈ l →
        (if (client_node_id c =? t) || tlv_ring_id_eq r (last_ring_id c)
         then TLV_VOTE_ACK else TLV_VOTE_NACK) = TLV_VOTE_ACK → last_ring_id c = r).
      { intros c Hc. destruct (client_node_id c =? t) eqn:E; cbn [orb]; zbool.
        - intros _. rewrite (Hid c c0); congruence.
        - destruct (tlv_ring_id_eq r (last_ring_id c)) eqn:Er; [|done]. intros _. symmetry.
          by apply tlv_ring_id_eq_spec. }
      etrans; [by apply H|]. symmetry. by apply H.
  - assert (H : ∀ c, c ∈ l → tie_breaker c = tb → tie_breaker_vote c (last_ring_id c) l = TLV_VOTE_ACK →
      client_node_id c = fst (tie_breaker_init c1)).
    { intros c Hc Hct. unfold tie_breaker_vote.
      assert (tie_breaker_init c = (fst (tie_breaker_init c1), ring_id_zero)) as ->.
      { unfold tie_breaker_init. by rewrite Hct, H1. }
      destruct (decide (tb_mode tb = TLV_TIE_BREAKER_MODE_NODE_ID ∧ tb_node_id tb = client_node_id c))
        as [[Hn Hi]|Hn].
      - intros _. rewrite <-Hi. unfold tie_breaker_init. rewrite H1. cbn.
        rewrite !(proj2 (Z.eqb_neq _ _)) by tauto. by rewrite Hn.
      - rewrite tie_breaker_fold_other; rewrite ?Hct; [|tauto|tauto|].
        2: { destruct (decide (tb_mode tb = TLV_TIE_BREAKER_MODE_NODE_ID)); [right|left]; tauto. }
        rewrite Hz, orb_false_r by done. destruct (client_node_id c =? _) eqn:E; [|done].
        by zbool. }
    intros Ha Hb. f_equal. apply Hid; [done|done|]. rewrite (H c1), (H c2); done.
Qed.

(** C18: whatever the mode of the tie-breaker: all clients the last man standing algorithm gives
    the vote to, looking at the same clients, are in one partition. *)
Theorem lms_votes_agree l tb c1 c2 :
  comparable l tb → c1 ∈ l → c2 ∈ l →
  partitions_vote c1 (last_ring_id c1) l (partitions l) = Some TLV_VOTE_ACK →
  partitions_vote c2 (last_ring_id c2) l (partitions l) = Some TLV_VOTE_ACK →
  last_ring_id c1 = last_ring_id c2.
Proof.
  intros Hcmp Hc1 Hc2. assert (Hl : l ≠ []) by (intros ->; by apply not_elem_of_nil in Hc1).
  destruct (partitions_vote_cases l (partitions_nonempty l tb Hcmp Hl)) as [(r & _ & H)|(_ & _ & H)];
    rewrite !H; intros [= Ha] [= Hb].
  - unfold vote_for in *. destruct (tlv_ring_id_eq r (last_ring_id c1)) eqn:E1; [|done].
    destruct (tlv_ring_id_eq r (last_ring_id c2)) eqn:E2; [|done].
    apply tlv_ring_id_eq_spec in E1, E2. congruence.
  - by apply (tie_breaker_votes_agree l tb).
Qed.

(** The ring that gets the vote: that of the best score, and when several have it the largest of
    all rings, and when several are that the ring of the lowest or the highest node. *)
Definition winner (l : list client) (tb : tlv_tie_breaker) (r : tlv_ring_id) : Prop :=
  beats_others (ring_score l) l r ∨
  no_best (ring_score l) l ∧ beats_others (ring_size l) l r ∨
  no_best (ring_score l) l ∧ no_best (ring_size l) l ∧
    ∃ c, c ∈ l ∧ last_ring_id c = r ∧ ∀ c', c' ∈ l →
      if tb_mode tb =? TLV_TIE_BREAKER_MODE_LOWEST then client_node_id c ≤ client_node_id c'
      else client_node_id c' ≤ client_node_id c.

Lemma partitions_vote_winner l tb :
  comparable l tb → l ≠ [] →
  tb_mode tb = TLV_TIE_BREAKER_MODE_LOWEST ∨ tb_mode tb = TLV_TIE_BREAKER_MODE_HIGHEST →
  (∀ c, c ∈ l → 0 < client_node_id c < INT_MAX) →
  ∃ r, r ∈ rings l ∧ winner l tb r ∧
    ∀ c, c ∈ l → partitions_vote c (last_ring_id c) l (partitions l) =
                 Some (vote_for r (last_ring_id c)).
Proof.
  intros Hcmp Hl Hm Hids.
  destruct (partitions_vote_cases l (partitions_nonempty l tb Hcmp Hl)) as [(r & Hr & H)|(Hn1 & Hn2 & H)].
  - exists r. split_and!; [by destruct Hr as [[? _]|(_ & ? & _)]| |by intros; apply H].
    unfold winner. tauto.
  - destruct l as [|x l']; [done|]. set (l := x :: l') in *.
    assert (Hx : x ∈ l) by left.
    pose proof (cmp_tb _ _ Hcmp x Hx) as Htb.
    pose proof (extreme_fold (tb_sign x) l (tie_breaker_init x)) as Hf.
    destruct (foldl _ _ l) as [t r] eqn:Ef. destruct Hf as [[_ Hle]|(c0 & Hc0 & Ht & Hr & _ & Hle)].
    { exfalso. specialize (Hle x Hx). pose proof (Hids x Hx).
      unfold tb_sign, tie_breaker_init in Hle. rewrite Htb in Hle.
      destruct Hm as [Hm|Hm]; rewrite Hm in Hle; cbn in Hle; lia. }
    exists r. split_and!.
    + apply rings_elem. exists c0. split; [done|]. split; [by apply Hcmp|done].
    + right. right. split_and!; [done|done|]. exists c0. split_and!; [done|done|]. intros c' Hc'. specialize (Hle c' Hc').
      unfold tb_sign in Hle. rewrite Htb, <-Ht in Hle.
      destruct (tb_mode tb =? TLV_TIE_BREAKER_MODE_LOWEST); lia.
    + intros c Hc. rewrite H. f_equal. unfold tie_breaker_vote.
      pose proof (cmp_tb _ _ Hcmp c Hc) as Hct.
      assert (tb_sign c = tb_sign x ∧ tie_breaker_init c = tie_breaker_init x) as [Hs Hi].
      { unfold tb_sign, tie_breaker_init. by rewrite Hct, Htb. }
      rewrite tie_breaker_fold, Hs, Hi, Ef by congruence. unfold vote_for.
      destruct (client_node_id c =? t) eqn:E; [|done]. zbool. cbn.
      assert (c = c0) as ->.
      { apply (NoDup_fmap_inj client_node_id l); [apply Hcmp|done..|congruence]. }
      by rewrite (proj2 (tlv_ring_id_eq_spec _ _) (eq_sym Hr)).
Qed.
End selection.

(** C30: [qnetd_algo_create_partitions] computes the partitions of the initialised clients, their
    sizes and their scores, or runs out of memory. *)
Theorem qnetd_algo_create_partitions_correct {D C} (cl : @qnetd_cluster D C) h :
  match qnetd_algo_create_partitions cl [] h with
  | (n, (pl, h')) =>
      n = -1 ∧ None ∈ h ∨
      n = Z.of_nat (length pl) ∧ pl = partitions (client_list cl) ∧
      NoDup (pt_ring_id <$> pl) ∧
      ∀ c, c ∈ client_list cl → initialised c →
        ∃ p, p ∈ pl ∧ pt_ring_id p = last_ring_id c ∧
             num_nodes p = ring_size (client_list cl) (last_ring_id c) ∧
             score p = ring_score (client_list cl) (last_ring_id c)
  end.
Proof.
  unfold qnetd_algo_create_partitions.
  pose proof (create_partitions_loop_spec (client_list cl) [] h) as H.
  change (partitions []) with (@nil qnetd_algo_partition) in H.
  change (Z.of_nat (length [])) with 0 in H. rewrite app_nil_l in H.
  destruct (create_partitions_loop _ 0 [] h) as [n [pl h']]. destruct H as [_ [?|[-> ->]]]; [by left|].
  right. split_and!; [done|done| |].
  - unfold partitions. rewrite <-list_fmap_compose.
    rewrite (list_fmap_ext _ id) by done. rewrite list_fmap_id. apply rings_NoDup.
  - intros c Hc Hi. eexists. split_and!; [apply list_elem_of_fmap; exists (last_ring_id c); split; [done|]|done..].
    apply rings_elem. by exists c.
Qed.

(** ** One run of the algorithm *)

Section run.
Context {C T : Type} `{TimerLaws qnetd_timer T}.
Abbreviation client := (@qnetd_client qnetd_algo_lms_info).
Abbreviation cluster := (@qnetd_cluster qnetd_algo_lms_info C).
Abbreviation state := (@algo_state qnetd_algo_lms_info C T).

(** A client of another partition that has the vote. *)
Definition active_elsewhere (ring_id : tlv_ring_id) (oc : client) : bool :=
  negb (tlv_ring_id_eq ring_id (last_ring_id oc)) &&
  bool_decide (AlgoLms.last_result <$> algorithm_data oc = Some TLV_VOTE_ACK).

(** The vote of a client [c] with the last vote [last] for the ring id it shows. *)
Definition lms_decision (last : tlv_vote) (c : client) (ring_id : tlv_ring_id) (cl : cluster) :
    tlv_vote :=
  let l := client_list cl in
  if qnetd_algo_all_ring_ids_match c ring_id cl =? -1 then TLV_VOTE_WAIT_FOR_REPLY
  else
    match partitions l with
    | [] => TLV_VOTE_WAIT_FOR_REPLY
    | [_] => TLV_VOTE_ACK
    | pl =>
        if bool_decide (last = TLV_VOTE_UNDEFINED) &&
           existsb (active_elsewhere ring_id) l
        then TLV_VOTE_NACK
        else default TLV_VOTE_NACK (partitions_vote c ring_id l pl)
    end.

Lemma other_partition_active_spec ring_id (l : list client) :
  (∀ c, c ∈ l → is_Some (algorithm_data c)) →
  other_partition_active AlgoLms.last_result ring_id l =
    Some (existsb (active_elsewhere ring_id) l).
Proof.
  induction l as [|c l IH]; intros Hd; [done|]. cbn [other_partition_active existsb]. unfold active_elsewhere at 1.
  destruct (negb _); [|apply IH; intros; apply Hd; by right].
  destruct (Hd c ltac:(left)) as [d Hc]. rewrite Hc. cbn [andb].
  destruct (decide (AlgoLms.last_result d = TLV_VOTE_ACK)) as [E|E].
  - rewrite !bool_decide_eq_true_2; [done|cbn; by rewrite E|done].
  - rewrite !bool_decide_eq_false_2; [apply IH; intros; apply Hd; by right|cbn; congruence|done].
Qed.

(** The invariant between two runs: every client has its data, no list of partitions is
    left, and the timers belong to the clients. *)
Record lms_state_ok (s : state) : Prop := {
  lo_timers : algo_timers_ok s;
  lo_data : ∀ c, c ∈ client_list (fst s) →
    ∃ d, algorithm_data c = Some d ∧ AlgoLms.partition_list d = []
}.

Lemma get_client_update_self ptr f (cl : cluster) c :
  (∀ c, client_ptr (f c) = client_ptr c) → get_client ptr cl = Some c →
  get_client ptr (update_client ptr f cl) = Some (f c).
Proof. intros Hf Hc. rewrite get_client_update, Hc by done. cbn. by rewrite bool_decide_eq_true_2. Qed.

(** A state in which the client [ptr] is [c] with the data [d], and the others are as between
    two runs. *)
Record lms_at (ptr : nat) (s : state) (c : client) (d : qnetd_algo_lms_info) : Prop := {
  la_client : get_client ptr (fst s) = Some c;
  la_data : algorithm_data c = Some d;
  la_timers : algo_timers_ok s;
  la_others : ∀ oc, oc ∈ client_list (fst s) → client_ptr oc ≠ ptr →
    ∃ od, algorithm_data oc = Some od ∧ AlgoLms.partition_list od = []
}.

Lemma lms_at_ok ptr s c d : lms_at ptr s c d → AlgoLms.partition_list d = [] → lms_state_ok s.
Proof.
  intros [Hc Hd Ht Ho] Hnil. split; [done|]. intros oc Hin.
  destruct (decide (client_ptr oc = ptr)) as [E|E]; [|by apply Ho].
  apply get_client_Some in Hc as [Hin' Hptr].
  assert (oc = c) as ->; [|by exists d].
  apply (NoDup_fmap_inj client_ptr (client_list (fst s))); [apply Ht|done|done|congruence].
Qed.

Lemma ok_lms_at ptr s c d : lms_state_ok s → get_client ptr (fst s) = Some c →
  algorithm_data c = Some d → lms_at ptr s c d ∧ AlgoLms.partition_list d = [].
Proof.
  intros Hok Hc Hd. split.
  - split; [done|done|apply Hok|]. intros oc Hin _. by apply Hok.
  - apply get_client_Some in Hc as [Hin _]. destruct (lo_data _ Hok c Hin) as (d' & Hd' & ?).
    congruence.
Qed.

Lemma lms_at_update ptr cl (x x' : T * heap) f c d d' :
  lms_at ptr (cl, x) c d → (∀ c, client_ptr (f c) = client_ptr c) → algorithm_data (f c) = Some d' →
  algo_timers_ok (update_client ptr f cl, x') → lms_at ptr (update_client ptr f cl, x') (f c) d'.
Proof.
  intros [Hc Hd Ht Ho] Hp Hd' Ht'. split; cbn [fst] in *; try done.
  - by apply get_client_update_self.
  - intros oc (c0 & -> & Hc0)%list_elem_of_fmap. case_bool_decide as E.
    + by rewrite Hp.
    + by apply Ho.
Qed.

Lemma lms_at_heap ptr cl t h h' c d : lms_at ptr (cl, (t, h)) c d → lms_at ptr (cl, (t, h')) c d.
Proof. intros [? ? [? ? ? ?] ?]. by split. Qed.

(** The steps of the algorithm. *)
Lemma put_info_at ptr cl x c d f :
  lms_at ptr (cl, x) c d →
  ∃ cl', put_info ptr f (cl, x) = (Ok tt, (cl', x)) ∧
         lms_at ptr (cl', x) (set_algorithm_data (Some (f d)) c) (f d).
Proof.
  intros Hat. eexists. split; [by apply (put_info_ok ptr f cl x c d); apply Hat|].
  apply (lms_at_update ptr cl x x _ c d); [done|by intros []|by destruct c|].
  apply (timers_ok_update (cl, x)); [apply Hat|by intros []|by intros []].
Qed.

Lemma decide_vote_at ptr cl x c d v :
  lms_at ptr (cl, x) c d →
  ∃ cl', AlgoLms.decide_vote ptr v (cl, x) = (Ok (TLV_REPLY_ERROR_CODE_NO_ERROR, Some v), (cl', x)) ∧
    lms_at ptr (cl', x) (set_algorithm_data (Some (AlgoLms.set_last_result v d)) c)
      (AlgoLms.set_last_result v d).
Proof.
  intros Hat. destruct (put_info_at ptr cl x c d (AlgoLms.set_last_result v) Hat) as (cl' & Hp & Hat').
  exists cl'. unfold AlgoLms.decide_vote. by rewrite (bind_ok _ _ _ _ _ Hp).
Qed.

Lemma abort_at ptr cl t h c d :
  lms_at ptr (cl, (t, h)) c d →
  let cl' := update_client ptr (set_algo_timer None) cl in
  ∃ t', qnetd_client_algo_timer_abort ptr (cl, (t, h)) = (Ok 0, (cl', (t', h))) ∧
        lms_at ptr (cl', (t', h)) (set_algo_timer None c) d.
Proof.
  intros Hat. destruct (algo_timer_abort_ok (cl, (t, h)) ptr c (la_timers _ _ _ _ Hat)
    (la_client _ _ _ _ Hat)) as (t' & Ha & Ht').
  exists t'. split; [done|].
  apply (lms_at_update ptr cl (t, h) (t', h) _ c d); [done|by intros []| |done].
  pose proof (la_data _ _ _ _ Hat). by destruct c.
Qed.

Definition has_timer (ptr : nat) (c : client) (t : T) : Prop :=
  ∃ p, algo_timer c = Some p ∧ timers_running t !! p = Some (ALGO_TIMER ptr).

Lemma schedule_at ptr cl t h c d :
  lms_at ptr (cl, (t, h)) c d →
  ∃ r cl' t' h' v, qnetd_client_algo_timer_schedule ptr (cl, (t, h)) = (Ok r, (cl', (t', h'))) ∧
    lms_at ptr (cl', (t', h')) (set_algo_timer v c) d ∧
    (has_timer ptr (set_algo_timer v c) t' ∨
     ¬ (1 ≤ heartbeat_interval c / 4 ≤ TIMER_LIST_MAX_INTERVAL) ∨ None ∈ h).
Proof.
  intros Hat. pose proof Hat as [Hc Hd Ht Ho]. cbn [fst snd] in *.
  unfold qnetd_client_algo_timer_schedule. rewrite (bind_ok _ _ _ _ _ (the_client_ok _ _ _ _ Hc)).
  destruct (algo_timer_schedule_timeout_ok (cl, (t, h)) ptr c (heartbeat_interval c / 4) Ht Hc)
    as (r & t' & h' & v & Hs & Ht' & Hv). cbn [fst snd] in *.
  assert (Hat' : lms_at ptr (update_client ptr (set_algo_timer v) cl, (t', h')) (set_algo_timer v c) d).
  { apply (lms_at_update ptr cl (t, h) (t', h') _ c d); [done|by intros []| |done]. by destruct c. }
  exists r, (update_client ptr (set_algo_timer v) cl), t', h', v. split_and!; [done|done|].
  destruct Hv as [[-> [p ->]]|(-> & -> & Hwhy)]; [left|by right].
  exists p. split; [by destruct c|]. destruct (get_client_Some _ _ _ (la_client _ _ _ _ Hat')) as [Hin Hptr].
  pose proof (at_running _ Ht' _ p Hin ltac:(by destruct c)) as Hr. by rewrite Hptr in Hr.
Qed.

Lemma create_partitions_at ptr cl t h c d :
  lms_at ptr (cl, (t, h)) c d → AlgoLms.partition_list d = [] →
  ∃ n cl' h' pl, AlgoLms.create_partitions ptr (cl, (t, h)) = (Ok n, (cl', (t, h'))) ∧
    h' `suffix_of` h ∧
    lms_at ptr (cl', (t, h')) (set_algorithm_data (Some (set_partition_list pl d)) c)
      (set_partition_list pl d) ∧
    (n = -1 ∧ None ∈ h ∨ n = Z.of_nat (length pl) ∧ pl = partitions (client_list cl)).
Proof.
  intros Hat Hnil. unfold AlgoLms.create_partitions.
  rewrite (bind_ok _ _ _ _ _ (get_info_ok ptr cl (t, h) c d (la_client _ _ _ _ Hat) (la_data _ _ _ _ Hat))).
  rewrite (bind_ok get _ _ _ _ eq_refl). cbv beta iota. rewrite Hnil.
  unfold qnetd_algo_create_partitions.
  pose proof (create_partitions_loop_spec (client_list cl) [] h) as Hs.
  change (partitions []) with (@nil qnetd_algo_partition) in Hs.
  change (Z.of_nat (length [])) with 0 in Hs. rewrite app_nil_l in Hs.
  destruct (create_partitions_loop _ 0 [] h) as [n [pl h']]. destruct Hs as [Hsuf Hs].
  cbv beta iota zeta. rewrite (bind_ok (modify _) _ _ _ _ eq_refl).
  destruct (put_info_at ptr cl (t, h') c d (set_partition_list pl)) as (cl' & Hp & Hat').
  { by apply (lms_at_heap ptr cl t h). }
  rewrite (bind_ok _ _ _ _ _ Hp). by exists n, cl', h', pl.
Qed.

Lemma partitions_vote_Some c ring_id (l : list client) (pl : partitions_list_t) :
  pl ≠ [] → ∃ v, partitions_vote c ring_id l pl = Some v ∧ (v = TLV_VOTE_ACK ∨ v = TLV_VOTE_NACK).
Proof.
  intros Hpl. unfold partitions_vote.
  destruct (best_partition_spec score pl Hpl) as (i & p & -> & _). cbn.
  destruct (best_partition_spec num_nodes pl Hpl) as (j & q & -> & _). cbn.
  unfold tie_breaker_vote. destruct (foldl _ _ l) as [t r].
  destruct (negb (joint_leader score (i, p) pl)), (negb (joint_leader num_nodes (j, q) pl));
    (eexists; split; [reflexivity|]);
    repeat match goal with |- context [if ?b then _ else _] => destruct b end; tauto.
Qed.


(** What the handler ends with: the vote is stored and, while the client waits, its timer
    runs; in no other case does it have one. *)
Definition lms_result (ptr : nat) (d : qnetd_algo_lms_info) (h : heap) (interval : Z) (v : tlv_vote)
    (s : state) : Prop :=
  ∃ c' d', get_client ptr (fst s) = Some c' ∧ algorithm_data c' = Some d' ∧
    (AlgoLms.last_result d' = v ∨ v = TLV_VOTE_NACK ∧
       AlgoLms.last_result d = TLV_VOTE_UNDEFINED ∧ AlgoLms.last_result d' = TLV_VOTE_UNDEFINED) ∧
    if bool_decide (v = TLV_VOTE_WAIT_FOR_REPLY)
    then has_timer ptr c' (fst (snd s)) ∨
         ¬ (1 ≤ interval / 4 ≤ TIMER_LIST_MAX_INTERVAL) ∨ None ∈ h
    else algo_timer c' = None.

Lemma wait_result ptr cl t h0 h c d0 d :
  h `suffix_of` h0 → lms_at ptr (cl, (t, h)) c d → AlgoLms.partition_list d = [] →
  ∃ s, (qnetd_client_algo_timer_schedule ptr;; AlgoLms.decide_vote ptr TLV_VOTE_WAIT_FOR_REPLY)
         (cl, (t, h)) = (Ok (TLV_REPLY_ERROR_CODE_NO_ERROR, Some TLV_VOTE_WAIT_FOR_REPLY), s) ∧
       lms_state_ok s ∧ lms_result ptr d0 h0 (heartbeat_interval c) TLV_VOTE_WAIT_FOR_REPLY s.
Proof.
  intros Hsuf Hat Hnil.
  destruct (schedule_at ptr cl t h c d Hat) as (r & cl1 & t1 & h1 & v & Hs & Hat1 & Hv).
  rewrite (bind_ok _ _ _ _ _ Hs).
  destruct (decide_vote_at ptr cl1 (t1, h1) _ d TLV_VOTE_WAIT_FOR_REPLY Hat1) as (cl2 & Hd & Hat2).
  exists (cl2, (t1, h1)). split_and!; [done|by eapply lms_at_ok|].
  eexists _, _. split_and!; [apply Hat2|apply Hat2|by left|].
  rewrite bool_decide_eq_true_2 by done. destruct Hv as [Hv|[?|?]]; [left|right; by left|].
  - destruct Hv as (p & Hp & Hr). exists p. split; [by destruct c|done].
  - right. right. by eapply suffix_in.
Qed.

(** A vote that is not a wait, with the partitions freed before or after. *)
Lemma vote_result ptr cl x c d0 d h0 v :
  lms_at ptr (cl, x) c d → algo_timer c = None → v ≠ TLV_VOTE_WAIT_FOR_REPLY →
  (∃ s, (AlgoLms.free_partitions ptr;; AlgoLms.decide_vote ptr v) (cl, x) =
         (Ok (TLV_REPLY_ERROR_CODE_NO_ERROR, Some v), s) ∧
       lms_state_ok s ∧ lms_result ptr d0 h0 (heartbeat_interval c) v s) ∧
  (∃ s, (r ← AlgoLms.decide_vote ptr v; AlgoLms.free_partitions ptr;; mret r) (cl, x) =
         (Ok (TLV_REPLY_ERROR_CODE_NO_ERROR, Some v), s) ∧
       lms_state_ok s ∧ lms_result ptr d0 h0 (heartbeat_interval c) v s).
Proof.
  intros Hat Hnone Hv. unfold AlgoLms.free_partitions. split.
  - destruct (put_info_at ptr cl x c d (λ i, set_partition_list
      (qnetd_algo_free_partitions (AlgoLms.partition_list i)) i) Hat) as (cl1 & Hp & Hat1).
    rewrite (bind_ok _ _ _ _ _ Hp).
    destruct (decide_vote_at ptr cl1 x _ _ v Hat1) as (cl2 & Hd & Hat2).
    exists (cl2, x). split_and!; [done|by eapply lms_at_ok|].
    eexists _, _. split_and!; [apply Hat2|apply Hat2|by left|].
    rewrite bool_decide_eq_false_2 by done. by destruct c.
  - destruct (decide_vote_at ptr cl x c d v Hat) as (cl1 & Hd & Hat1).
    rewrite (bind_ok _ _ _ _ _ Hd).
    destruct (put_info_at ptr cl1 x _ _ (λ i, set_partition_list
      (qnetd_algo_free_partitions (AlgoLms.partition_list i)) i) Hat1) as (cl2 & Hp & Hat2).
    rewrite (bind_ok _ _ _ _ _ Hp). exists (cl2, x). split_and!; [done|by eapply lms_at_ok|].
    eexists _, _. split_and!; [apply Hat2|apply Hat2|by left|].
    rewrite bool_decide_eq_false_2 by done. by destruct c.
Qed.

(** A newcomer that is denied: the NACK is not stored. *)
Lemma newcomer_result ptr cl x c d0 d h0 :
  lms_at ptr (cl, x) c d → algo_timer c = None →
  AlgoLms.last_result d0 = TLV_VOTE_UNDEFINED → AlgoLms.last_result d = TLV_VOTE_UNDEFINED →
  ∃ s, (AlgoLms.free_partitions ptr;; mret (TLV_REPLY_ERROR_CODE_NO_ERROR, Some TLV_VOTE_NACK))
         (cl, x) = (Ok (TLV_REPLY_ERROR_CODE_NO_ERROR, Some TLV_VOTE_NACK), s) ∧
       lms_state_ok s ∧ lms_result ptr d0 h0 (heartbeat_interval c) TLV_VOTE_NACK s.
Proof.
  intros Hat Hnone H1 H2. unfold AlgoLms.free_partitions.
  destruct (put_info_at ptr cl x c d (λ i, set_partition_list
    (qnetd_algo_free_partitions (AlgoLms.partition_list i)) i) Hat) as (cl1 & Hp & Hat1).
  rewrite (bind_ok _ _ _ _ _ Hp). exists (cl1, x). split_and!; [done|by eapply lms_at_ok|].
  eexists _, _. split_and!; [apply Hat1|apply Hat1|right; by split_and!|].
  rewrite bool_decide_eq_false_2 by done. by destruct c.
Qed.

(** With several partitions. *)
Lemma several_result ptr c1 ring_id (l : list client) cl x c d0 d h0 :
  lms_at ptr (cl, x) c d → algo_timer c = None → AlgoLms.last_result d = AlgoLms.last_result d0 →
  AlgoLms.partition_list d ≠ [] → (∀ oc, oc ∈ l → is_Some (algorithm_data oc)) →
  let v := if bool_decide (AlgoLms.last_result d0 = TLV_VOTE_UNDEFINED) &&
              existsb (active_elsewhere ring_id) l then TLV_VOTE_NACK
           else default TLV_VOTE_NACK (partitions_vote c1 ring_id l (AlgoLms.partition_list d)) in
  ∃ s, vote_for_partition ptr c1 ring_id l d (cl, x) = (Ok (TLV_REPLY_ERROR_CODE_NO_ERROR, Some v), s) ∧
       lms_state_ok s ∧ lms_result ptr d0 h0 (heartbeat_interval c) v s.
Proof.
  intros Hat Hnone Hlast Hpl Hl. unfold vote_for_partition. rewrite Hlast, other_partition_active_spec by done.
  destruct (partitions_vote_Some c1 ring_id l _ Hpl) as (v & Hv & Hv'). rewrite Hv. cbn [default].
  assert (Hvw : v ≠ TLV_VOTE_WAIT_FOR_REPLY) by (by destruct Hv' as [-> | ->]).
  pose proof (proj2 (vote_result ptr cl x c d0 d h0 v Hat Hnone Hvw)) as Hvote.
  destruct (bool_decide_reflect (AlgoLms.last_result d0 = TLV_VOTE_UNDEFINED)) as [Hu|]; [|exact Hvote].
  destruct (existsb _ l); cbn [andb]; [|exact Hvote].
  by apply (newcomer_result ptr cl x c d0 d h0); [..|rewrite Hlast].
Qed.

Lemma do_lms_algorithm_correct_aux ptr ring_id cl t h c d :
  lms_state_ok (cl, (t, h)) → get_client ptr cl = Some c → algorithm_data c = Some d →
  let v := lms_decision (AlgoLms.last_result d) (set_algo_timer None c) ring_id
             (update_client ptr (set_algo_timer None) cl) in
  ∃ r s', do_lms_algorithm ptr ring_id (cl, (t, h)) = (Ok r, s') ∧
    (r = (TLV_REPLY_ERROR_CODE_INTERNAL_ERROR, None) ∧ None ∈ h ∧ algo_timers_ok s' ∨
     r = (TLV_REPLY_ERROR_CODE_NO_ERROR, Some v) ∧ lms_state_ok s' ∧
     lms_result ptr d h (heartbeat_interval c) v s').
Proof.
  intros Hok Hc Hd v. destruct (ok_lms_at ptr (cl, (t, h)) c d Hok Hc Hd) as [Hat Hnil].
  unfold do_lms_algorithm. destruct (abort_at ptr cl t h c d Hat) as (t1 & Ha & Hat1).
  rewrite (bind_ok _ _ _ _ _ Ha). subst v.
  set (cl1 := update_client ptr (set_algo_timer None) cl) in *.
  set (c1 := set_algo_timer None c) in *.
  assert (Hnone : algo_timer c1 = None) by (by destruct c).
  assert (Hhb : heartbeat_interval c = heartbeat_interval c1) by (by destruct c).
  rewrite (bind_ok _ _ _ _ _ (the_client_ok ptr cl1 (t1, h) c1 (la_client _ _ _ _ Hat1))).
  rewrite (bind_ok get _ _ _ _ eq_refl). cbv beta iota. unfold lms_decision. rewrite Hhb.
  destruct (qnetd_algo_all_ring_ids_match c1 ring_id cl1 =? -1).
  { destruct (wait_result ptr cl1 t1 h h c1 d d ltac:(done) Hat1 Hnil) as (s & Hs & Hoks & Hr).
    exists (TLV_REPLY_ERROR_CODE_NO_ERROR, Some TLV_VOTE_WAIT_FOR_REPLY), s. split; [done|]. by right. }
  destruct (create_partitions_at ptr cl1 t1 h c1 d Hat1 Hnil)
    as (n & cl2 & h2 & pl & Hcr & Hsuf & Hat2 & Hn).
  rewrite (bind_ok _ _ _ _ _ Hcr).
  set (c2 := set_algorithm_data _ c1) in *. set (d2 := set_partition_list pl d) in *.
  assert (Hnone2 : algo_timer c2 = None) by (by destruct c).
  assert (Hhb2 : heartbeat_interval c1 = heartbeat_interval c2) by (by destruct c).
  destruct Hn as [[-> Hno]|[-> Hpl]].
  { eexists _, _. split; [done|]. left. split_and!; [done|done|apply Hat2]. }
  rewrite (proj2 (Z.eqb_neq _ (-1))) by lia. rewrite <-Hpl, Hhb2.
  destruct pl as [|p1 [|p2 pl']].
  - destruct (wait_result ptr cl2 t1 h h2 c2 d d2 Hsuf Hat2 eq_refl) as (s & Hs & Hoks & Hr).
    exists (TLV_REPLY_ERROR_CODE_NO_ERROR, Some TLV_VOTE_WAIT_FOR_REPLY), s. split; [done|]. by right.
  - destruct (vote_result ptr cl2 (t1, h2) c2 d d2 h TLV_VOTE_ACK Hat2 Hnone2 ltac:(done))
      as [(s & Hs & Hoks & Hr) _].
    exists (TLV_REPLY_ERROR_CODE_NO_ERROR, Some TLV_VOTE_ACK), s. split; [done|]. by right.
  - rewrite (proj2 (Z.eqb_neq _ 0)), (proj2 (Z.eqb_neq _ 1)) by (cbn [length]; lia).
    rewrite (bind_ok _ _ _ _ _ (get_info_ok ptr cl2 (t1, h2) c2 d2 (la_client _ _ _ _ Hat2)
      (la_data _ _ _ _ Hat2))).
    destruct (several_result ptr c1 ring_id (client_list cl1) cl2 (t1, h2) c2 d d2 h Hat2 Hnone2)
      as (s & Hs & Hoks & Hr); [done|done| |].
    { intros oc Hoc. pose proof (lo_data _ (lms_at_ok _ _ _ _ Hat1 Hnil) oc Hoc) as (od & ? & _). by exists od. }
    eexists _, s. split; [exact Hs|]. by right.
Qed.

(** C20: every run ends with a decision about the clients as they are when it starts, or with an
    error when memory runs out; a client that is told to wait has a timer. *)
Theorem do_lms_algorithm_correct ptr ring_id cl t h c d :
  lms_state_ok (cl, (t, h)) → get_client ptr cl = Some c → algorithm_data c = Some d →
  let v := lms_decision (AlgoLms.last_result d) (set_algo_timer None c) ring_id
             (update_client ptr (set_algo_timer None) cl) in
  ∃ r s', do_lms_algorithm ptr ring_id (cl, (t, h)) = (Ok r, s') ∧
    (r = (TLV_REPLY_ERROR_CODE_INTERNAL_ERROR, None) ∧ None ∈ h ∧ algo_timers_ok s' ∨
     r = (TLV_REPLY_ERROR_CODE_NO_ERROR, Some v) ∧ lms_state_ok s' ∧
     lms_result ptr d h (heartbeat_interval c) v s').
Proof. by apply do_lms_algorithm_correct_aux. Qed.

(** Clients that look the same to a decision. *)
Record same_view (c c' : client) : Prop := {
  sv_ring : last_ring_id c' = last_ring_id c;
  sv_id : client_node_id c' = client_node_id c;
  sv_ptr : client_ptr c' = client_ptr c;
  sv_heur : last_heuristics c' = last_heuristics c;
  sv_members : last_membership_node_list c' = last_membership_node_list c
}.

Lemma same_rings (l l' : list client) : Forall2 same_view l l' → rings l' = rings l.
Proof.
  unfold rings. generalize (@nil tlv_ring_id). intros acc H'. revert acc.
  induction H' as [|c c' l l' [Hr _ _ _ _] _ IH]; intros acc; [done|]. cbn [foldl]. rewrite IH. f_equal.
  unfold rings_step.
  rewrite (decide_ext (initialised c' ∧ last_ring_id c' ∉ acc) (initialised c ∧ last_ring_id c ∉ acc))
    by (unfold initialised; by rewrite Hr).
  by rewrite Hr.
Qed.
Lemma same_count (P P' : client → Prop) `{HPd : ∀ c, Decision (P c), HPd' : ∀ c, Decision (P' c)} (l l' : list client) :
  (∀ c c', same_view c c' → P c ↔ P' c') → Forall2 same_view l l' → count P' l' = count P l.
Proof.
  intros HP H'. unfold count. f_equal. induction H' as [|c c' l l' Hc _ IH]; [done|].
  specialize (HP c c' Hc). rewrite !filter_cons. destruct (decide (P c)), (decide (P' c')); cbn; tauto || lia.
Qed.
Lemma same_partitions (l l' : list client) : Forall2 same_view l l' → partitions l' = partitions l.
Proof.
  intros H'. unfold partitions. rewrite (same_rings l l' H'). apply list_fmap_ext. intros _ r _.
  assert (Hin : ∀ c c', same_view c c' → in_ring r c ↔ in_ring r c').
  { intros c c' [Hr _ _ _ _]. unfold in_ring, initialised. by rewrite Hr. }
  unfold ring_score, ring_size. f_equal; [|f_equal; [f_equal|]]; apply same_count; try done;
    intros c c' Hc; by rewrite (Hin c c' Hc), (sv_heur _ _ Hc).
Qed.
Lemma same_tie_breaker (c c0 : client) rid (l l' : list client) :
  tie_breaker c0 = tie_breaker c → client_node_id c0 = client_node_id c → Forall2 same_view l l' →
  tie_breaker_vote c0 rid l' = tie_breaker_vote c rid l.
Proof.
  intros Ht Hi H'. unfold tie_breaker_vote.
  assert (E : ∀ acc, foldl (tie_breaker_step c0) acc l' = foldl (tie_breaker_step c) acc l).
  { induction H' as [|x x' l l' [Hr Hid _ _ _] _ IH]; intros acc; [done|]. cbn [foldl]. rewrite IH. f_equal.
    unfold tie_breaker_step. by rewrite Ht, Hi, Hid, Hr. }
  unfold tie_breaker_init. rewrite Ht, E, Hi. done.
Qed.

(** Stopping the timer changes no decision. *)
Lemma decision_without_timer ptr (cl : cluster) c rid :
  let cl' := update_client ptr (set_algo_timer None) cl in
  partitions (client_list cl') = partitions (client_list cl) ∧
  qnetd_algo_all_ring_ids_match (set_algo_timer None c) rid cl' = qnetd_algo_all_ring_ids_match c rid cl ∧
  partitions_vote (set_algo_timer None c) rid (client_list cl') (partitions (client_list cl')) =
    partitions_vote c rid (client_list cl) (partitions (client_list cl)).
Proof.
  intros cl'. assert (Hsv : Forall2 same_view (client_list cl) (client_list cl')).
  { unfold cl', update_client, set_client_list. cbn [client_list]. apply Forall2_fmap_r, Forall_Forall2_diag, Forall_forall.
    intros x _. assert (Hs : same_view x (set_algo_timer None x)) by (destruct x; by split).
    assert (Hx : same_view x x) by by split. unfold compose. by destruct (bool_decide _). }
  split; [by apply same_partitions|]. split.
  - unfold qnetd_algo_all_ring_ids_match.
    assert (E : ∀ l l', Forall2 same_view l l' →
      existsb (λ oc, bool_decide (client_ptr oc ≠ client_ptr (set_algo_timer None c)) &&
        (in_our_partition (set_algo_timer None c) oc && negb (tlv_ring_id_eq rid (last_ring_id oc)))) l' =
      existsb (λ oc, bool_decide (client_ptr oc ≠ client_ptr c) &&
        (in_our_partition c oc && negb (tlv_ring_id_eq rid (last_ring_id oc)))) l).
    { induction 1 as [|x x' l l' [Hr Hid Hp _ Hmem] _ IH]; [done|]. cbn [existsb]. rewrite IH, Hr, Hp. f_equal.
      unfold in_our_partition. rewrite Hid, Hmem. by destruct c. }
    rewrite (E _ _ Hsv). by destruct c.
  - rewrite (same_partitions _ _ Hsv). unfold partitions_vote.
    by rewrite (same_tie_breaker c (set_algo_timer None c) rid _ _ ltac:(by destruct c) ltac:(by destruct c) Hsv).
Qed.

(** C29: in a cluster split into at least two partitions, whose clients have different node ids
    between 1 and INT_MAX - 1, ring ids and the lowest or the highest node as their tie-breaker,
    there is one ring that the algorithm decides for, whichever client it runs for: a client
    that had a vote before and sees its own ring with all its members is answered ACK in that
    ring and NACK in any other, or memory runs out. The ring is that of the best score; when
    several share it, the largest of all rings, also of those with a lower score (which is not
    what the manual says); and when several are the largest, that of the tie-breaker's node. *)
Theorem lms_selects_one_partition (cl : cluster) t h tb :
  lms_state_ok (cl, (t, h)) → comparable (client_list cl) tb →
  tb_mode tb = TLV_TIE_BREAKER_MODE_LOWEST ∨ tb_mode tb = TLV_TIE_BREAKER_MODE_HIGHEST →
  (∀ c, c ∈ client_list cl → 0 < client_node_id c < INT_MAX) → (2 ≤ length (rings (client_list cl)))%nat →
  ∃ r, r ∈ rings (client_list cl) ∧ winner (client_list cl) tb r ∧
    ∀ ptr c d, get_client ptr cl = Some c → algorithm_data c = Some d →
      AlgoLms.last_result d ≠ TLV_VOTE_UNDEFINED →
      qnetd_algo_all_ring_ids_match c (last_ring_id c) cl ≠ -1 →
      ∃ answer s', do_lms_algorithm ptr (last_ring_id c) (cl, (t, h)) = (Ok answer, s') ∧
        (answer = (TLV_REPLY_ERROR_CODE_NO_ERROR, Some (vote_for r (last_ring_id c))) ∨
         answer = (TLV_REPLY_ERROR_CODE_INTERNAL_ERROR, None) ∧ None ∈ h).
Proof.
  intros Hok Hcmp Hm Hids Hrings.
  assert (Hl : client_list cl ≠ []) by (intros E; rewrite E in Hrings; cbn in Hrings; lia).
  destruct (partitions_vote_winner (client_list cl) tb Hcmp Hl Hm Hids) as (r & Hr & Hw & Hv).
  exists r. split; [done|]. split; [done|]. intros ptr c d Hc Hd Hlast Hmatch.
  destruct (do_lms_algorithm_correct_aux ptr (last_ring_id c) cl t h c d Hok Hc Hd) as (answer & s' & Hrun & Hres).
  exists answer, s'. split; [exact Hrun|]. destruct Hres as [(-> & Hno & _)|(-> & _)]; [by right|left].
  do 2 f_equal. unfold lms_decision.
  destruct (decision_without_timer ptr cl c (last_ring_id c)) as (Hp & Hall & Hpv).
  rewrite Hall, (proj2 (Z.eqb_neq _ _) Hmatch).
  assert (Hin : c ∈ client_list cl) by (by eapply get_client_Some).
  rewrite (Hv c Hin) in Hpv. rewrite Hp in Hpv |- *.
  assert (Hlen : (2 ≤ length (partitions (client_list cl)))%nat) by (unfold partitions; by rewrite length_fmap).
  destruct (partitions (client_list cl)) as [|p1 [|p2 pl]]; cbn in Hlen; [lia|lia|].
  rewrite bool_decide_eq_false_2 by done. cbn [andb]. by rewrite Hpv.
Qed.
End run.

(** ** Examples *)

(** A client of a small cluster, its last vote, ring and heuristics. *)
Definition lms_client (id : Z) (tb : tlv_tie_breaker) (ring : tlv_ring_id) (heur : tlv_heuristics)
    (members : node_list) (last : tlv_vote) : @qnetd_client qnetd_algo_lms_info :=
  {| client_ptr := Z.to_nat id; receive_buffer := dynar_init 1000;
     send_buffers := send_buffer_list_init 10 1000;
     msg_already_received_bytes := 0; client_skipping_msg := false; tls_started := false;
     tls_peer_certificate_verified := false; preinit_received := true; init_received := true;
     cluster_name := Some []; client_node_id_set := true; client_node_id := id;
     decision_algorithm := TLV_DECISION_ALGORITHM_TYPE_LMS; tie_breaker := tb;
     heartbeat_interval := 10000; skipping_msg_reason := 0;
     algorithm_data := Some (AlgoLms.mk_lms 0 last []); configuration_node_list := [];
     config_version := None; last_membership_node_list := members; last_quorum_node_list := [];
     last_ring_id := ring; algo_timer := None; algo_timer_vote_info_msq_seq_number := 0;
     schedule_disconnect := false; dpd_timer := None; last_sent_vote := TLV_VOTE_UNDEFINED;
     last_sent_ack_nack_vote := TLV_VOTE_UNDEFINED; last_membership_heuristics := heur;
     last_regular_heuristics := TLV_HEURISTICS_UNDEFINED; last_heuristics := heur;
     keep_active_partition_tie_breaker := TLV_KEEP_ACTIVE_PARTITION_TIE_BREAKER_DISABLED |}.

Definition ex_members (l : list Z) : node_list := (λ i, mk_node i 0 TLV_NODE_STATE_NOT_SET) <$> l.

(** Four nodes, two and two. *)
Definition ex_split (tb : tlv_tie_breaker) : list (@qnetd_client qnetd_algo_lms_info) :=
  let r1 := mk_ring_id 1 10 in let r2 := mk_ring_id 3 12 in
  let mk id r m := lms_client id tb r TLV_HEURISTICS_UNDEFINED (ex_members m) TLV_VOTE_ACK in
  [mk 1 r1 [1; 2]; mk 2 r1 [1; 2]; mk 3 r2 [3; 4]; mk 4 r2 [3; 4]].

Definition ex_votes (l : list (@qnetd_client qnetd_algo_lms_info)) : list (option tlv_vote) :=
  (λ c, partitions_vote c (last_ring_id c) l (partitions l)) <$> l.

(** The node named as the tie-breaker gets the vote, the rest of its partition does not: the
    code compares the node id of the client it decides for, inside of the loop that looks for
    the tie-breaker.  With the lowest node as the tie-breaker both get it. *)
Theorem lms_node_id_tie_breaker_denies_partition :
  ex_votes (ex_split (mk_tie_breaker TLV_TIE_BREAKER_MODE_NODE_ID 1)) =
    [Some TLV_VOTE_ACK; Some TLV_VOTE_NACK; Some TLV_VOTE_NACK; Some TLV_VOTE_NACK] ∧
  ex_votes (ex_split (mk_tie_breaker TLV_TIE_BREAKER_MODE_LOWEST 0)) =
    [Some TLV_VOTE_ACK; Some TLV_VOTE_ACK; Some TLV_VOTE_NACK; Some TLV_VOTE_NACK].
Proof. by vm_compute. Qed.

(** Two partitions share the best score, and a third one with a lower score is larger: the
    third one is given the vote, because all partitions are compared by their size. *)
Definition ex_three : list (@qnetd_client qnetd_algo_lms_info) :=
  let mk id r h := lms_client id (mk_tie_breaker TLV_TIE_BREAKER_MODE_LOWEST 0) r h [] TLV_VOTE_ACK in
  let r1 := mk_ring_id 1 10 in let r2 := mk_ring_id 2 12 in let r3 := mk_ring_id 3 14 in
  [mk 1 r1 TLV_HEURISTICS_PASS; mk 2 r2 TLV_HEURISTICS_PASS;
   mk 3 r3 TLV_HEURISTICS_FAIL; mk 4 r3 TLV_HEURISTICS_FAIL].

Lemma lms_larger_partition_with_lower_score :
  ex_votes ex_three = [Some TLV_VOTE_NACK; Some TLV_VOTE_NACK; Some TLV_VOTE_ACK; Some TLV_VOTE_ACK] ∧
  (score <$> partitions ex_three) = [2; 2; 0].
Proof. by vm_compute. Qed.

Definition ex_tb : tlv_tie_breaker := mk_tie_breaker TLV_TIE_BREAKER_MODE_LOWEST 0.

Lemma ex_split_comparable : comparable (ex_split ex_tb) ex_tb.
Proof.
  split.
  - change (client_node_id <$> ex_split ex_tb) with [1; 2; 3; 4]. apply (bool_decide_unpack _). by vm_compute.
  - intros c [->|[->|[->|[->|[]%not_elem_of_nil]%elem_of_cons]%elem_of_cons]%elem_of_cons]%elem_of_cons;
      by vm_compute.
  - intros c [->|[->|[->|[->|[]%not_elem_of_nil]%elem_of_cons]%elem_of_cons]%elem_of_cons]%elem_of_cons;
      by vm_compute.
Qed.

Lemma lms_votes_agree_witness :
  ∃ c1 c2, comparable (ex_split ex_tb) ex_tb ∧ c1 ∈ ex_split ex_tb ∧ c2 ∈ ex_split ex_tb ∧
    client_node_id c1 ≠ client_node_id c2 ∧ last_ring_id c1 = last_ring_id c2.
Proof.
  assert (H1 : ∃ c, ex_split ex_tb !! 0%nat = Some c) by (eexists; reflexivity).
  assert (H2 : ∃ c, ex_split ex_tb !! 1%nat = Some c) by (eexists; reflexivity).
  destruct H1 as [c1 H1], H2 as [c2 H2]. exists c1, c2.
  pose proof (list_elem_of_lookup_2 _ _ _ H1) as Hc1. pose proof (list_elem_of_lookup_2 _ _ _ H2) as Hc2.
  split; [exact ex_split_comparable|]. split; [exact Hc1|]. split; [exact Hc2|].
  injection H1 as E1. injection H2 as E2. split; [subst; by vm_compute|].
  apply (lms_votes_agree (ex_split ex_tb) ex_tb c1 c2 ex_split_comparable Hc1 Hc2);
    subst; by vm_compute.
Defined.

(** A run of the handler in the daemon's timer list. *)
#[local] Instance ex_lms_ops : TimerOps qnetd_timer (@timer_list qnetd_timer) :=
  timer_list_ops (λ i, i).

Definition ex_lms_cluster : @qnetd_cluster qnetd_algo_lms_info unit :=
  mk_cluster [] None (ex_split ex_tb).

#[local] Instance ex_lms_laws : TimerLaws qnetd_timer (@timer_list qnetd_timer) :=
  timer_list_laws (λ i, i) TIMER_LIST_MAX_INTERVAL (2 ^ 30) ltac:(by vm_compute) ltac:(by vm_compute)
    ltac:(by vm_compute) ltac:(intros; lia).

Lemma ex_lms_state_ok : lms_state_ok (ex_lms_cluster, (timer_list_init 0, [])).
Proof.
  split.
  - split; cbn [fst snd].
    + apply (bool_decide_unpack _). by vm_compute.
    + exists (λ _, 0). apply timers_ok_init.
    + intros c p [->|[->|[->|[->|[]%not_elem_of_nil]%elem_of_cons]%elem_of_cons]%elem_of_cons]%elem_of_cons;
        by vm_compute.
    + intros p ptr Hp. by vm_compute in Hp.
  - intros c [->|[->|[->|[->|[]%not_elem_of_nil]%elem_of_cons]%elem_of_cons]%elem_of_cons]%elem_of_cons;
      eexists; split; reflexivity.
Qed.

Lemma do_lms_algorithm_correct_witness :
  ∃ c d r s', get_client 2 ex_lms_cluster = Some c ∧ algorithm_data c = Some d ∧
    do_lms_algorithm 2 (mk_ring_id 1 10) (ex_lms_cluster, (timer_list_init 0, [])) = (Ok r, s') ∧
    r = (TLV_REPLY_ERROR_CODE_NO_ERROR, Some TLV_VOTE_ACK) ∧ lms_state_ok s'.
Proof.
  assert (Hc : ∃ c d, get_client 2 ex_lms_cluster = Some c ∧ algorithm_data c = Some d)
    by (eexists _, _; split; reflexivity).
  destruct Hc as (c & d & Hc & Hd). exists c, d.
  destruct (do_lms_algorithm_correct 2 (mk_ring_id 1 10) ex_lms_cluster (timer_list_init 0) [] c d
    ex_lms_state_ok Hc Hd) as (r & s' & Hrun & Hres).
  exists r, s'. split; [exact Hc|]. split; [exact Hd|]. split; [exact Hrun|].
  destruct Hres as [(_ & Hno & _)|(-> & Hok & _)]; [by apply not_elem_of_nil in Hno|].
  split; [|exact Hok]. injection Hc as <-. injection Hd as <-. by vm_compute.
Defined.

Lemma lms_selects_one_partition_witness :
  lms_state_ok (ex_lms_cluster, (timer_list_init 0, [])) ∧ comparable (ex_split ex_tb) ex_tb ∧
  ∃ r, winner (ex_split ex_tb) ex_tb r ∧ ∃ c d answer s',
    get_client 2 ex_lms_cluster = Some c ∧ algorithm_data c = Some d ∧
    do_lms_algorithm 2 (last_ring_id c) (ex_lms_cluster, (timer_list_init 0, [])) = (Ok answer, s') ∧
    answer = (TLV_REPLY_ERROR_CODE_NO_ERROR, Some (vote_for r (last_ring_id c))).
Proof.
  split; [exact ex_lms_state_ok|]. split; [exact ex_split_comparable|].
  destruct (lms_selects_one_partition ex_lms_cluster (timer_list_init 0) [] ex_tb ex_lms_state_ok
    ex_split_comparable ltac:(by left)
    ltac:(intros c [->|[->|[->|[->|[]%not_elem_of_nil]%elem_of_cons]%elem_of_cons]%elem_of_cons]%elem_of_cons;
      by vm_compute) ltac:(vm_compute; lia)) as (r & _ & Hw & Hrun).
  exists r. split; [exact Hw|].
  assert (Hc : ∃ c d, get_client 2 ex_lms_cluster = Some c ∧ algorithm_data c = Some d ∧
    AlgoLms.last_result d ≠ TLV_VOTE_UNDEFINED ∧ qnetd_algo_all_ring_ids_match c (last_ring_id c) ex_lms_cluster ≠ -1).
  { eexists _, _. split; [reflexivity|]. split; [reflexivity|]. split; vm_compute; discriminate. }
  destruct Hc as (c & d & Hc & Hd & Hu & Hm).
  destruct (Hrun 2%nat c d Hc Hd Hu Hm) as (answer & s' & E & [->|[_ Hno]]); [|by apply not_elem_of_nil in Hno].
  eexists c, d, _, s'. split; [exact Hc|]. split; [exact Hd|]. split; [exact E|reflexivity].
Defined.
