(* ===== verification/Algo2NodeLms.v ===== *)
(** Last man standing for two nodes (qnetd-algo-2nodelms.c): with both nodes connected and
    apart, the better heuristics and then the tie-breaker decide. *)
From S2P Require Import Prelude Dynar Tlv NodeList SendBuffer QnetdClient QnetdCluster.
From S2P Require Import AlgoUtils.
From stdpp Require Import list gmap.
From S2P Require Import TimerList TimerInterface QnetdAlgoTimer.
Local Open Scope Z_scope.

Record qnetd_algo_2nodelms_info := mk_2nodelms {
  num_config_nodes : Z;
  last_result : tlv_vote
}.

Definition set_num_config_nodes (v : Z) (i : qnetd_algo_2nodelms_info) : qnetd_algo_2nodelms_info :=
  mk_2nodelms v (last_result i).
Definition set_last_result (v : tlv_vote) (i : qnetd_algo_2nodelms_info) :
    qnetd_algo_2nodelms_info := mk_2nodelms (num_config_nodes i) v.

Definition UINT32_MAX : Z := 2 ^ 32 - 1.

Section twonodelms.
Context {C T : Type}.
Abbreviation client := (@qnetd_client qnetd_algo_2nodelms_info).
Abbreviation cluster := (@qnetd_cluster qnetd_algo_2nodelms_info C).
Abbreviation state := (@algo_state qnetd_algo_2nodelms_info C T).

Definition decide_vote (ptr : nat) (vote : tlv_vote) : M state (Z * option tlv_vote) :=
  put_info ptr (set_last_result vote);;
  mret (TLV_REPLY_ERROR_CODE_NO_ERROR, Some vote).

Definition qnetd_algo_2nodelms_client_init (ptr : nat) : M state Z := λ '(cl, (t, h)),
  match malloc h with
  | (None, h') => (Ok TLV_REPLY_ERROR_CODE_INTERNAL_ERROR, (cl, (t, h')))
  | (Some _, h') =>
      (* num_config_nodes is not initialised *)
      (Ok TLV_REPLY_ERROR_CODE_NO_ERROR,
       (update_client ptr (set_algorithm_data (Some (mk_2nodelms 0 TLV_VOTE_UNDEFINED))) cl, (t, h')))
  end.

Definition qnetd_algo_2nodelms_config_node_list_received (ptr : nat) (nodes : node_list) :
    M state (Z * option tlv_vote) :=
  let node_count := Z.of_nat (length nodes) in
  put_info ptr (set_num_config_nodes node_count);;
  if negb (node_count =? 2) then
    mret (TLV_REPLY_ERROR_CODE_UNSUPPORTED_DECISION_ALGORITHM, Some TLV_VOTE_NACK)
  else mret (TLV_REPLY_ERROR_CODE_NO_ERROR, Some TLV_VOTE_NO_CHANGE).

(** [low_node_id], [high_node_id] and [other_node_heuristics] of the connected clients. *)
Definition clients_step (ptr : nat) (acc : Z * Z * tlv_heuristics) (other_client : client) :
    Z * Z * tlv_heuristics :=
  let '(low, high, other_node_heuristics) := acc in
  (if client_node_id other_client <? low then client_node_id other_client else low,
   if high <? client_node_id other_client then client_node_id other_client else high,
   if bool_decide (client_ptr other_client ≠ ptr) then last_heuristics other_client
   else other_node_heuristics).

(** The vote when both nodes are connected and do not see each other. *)
Definition split_vote (c : client) (heuristics : tlv_heuristics) (l : list client) : tlv_vote :=
  let '(low_node_id, high_node_id, other_node_heuristics) :=
    foldl (clients_step (client_ptr c)) (UINT32_MAX, 0, TLV_HEURISTICS_UNDEFINED) l in
  if 0 <? tlv_heuristics_cmp heuristics other_node_heuristics then TLV_VOTE_ACK
  else if tlv_heuristics_cmp heuristics other_node_heuristics <? 0 then TLV_VOTE_NACK
  else
    let mode := tb_mode (tie_breaker c) in
    let vote (node_id : Z) := if client_node_id c =? node_id then TLV_VOTE_ACK else TLV_VOTE_NACK in
    if mode =? TLV_TIE_BREAKER_MODE_LOWEST then vote low_node_id
    else if mode =? TLV_TIE_BREAKER_MODE_HIGHEST then vote high_node_id
    else if mode =? TLV_TIE_BREAKER_MODE_NODE_ID then vote (tb_node_id (tie_breaker c))
    else TLV_VOTE_NACK.

Definition qnetd_algo_2nodelms_membership_node_list_received (ptr : nat) (ring_id : tlv_ring_id)
    (nodes : node_list) (heuristics : tlv_heuristics) : M state (Z * option tlv_vote) :=
  c ← the_client ptr;
  info ← get_info ptr;
  '(cl, _) ← get;
  match (if bool_decide (last_result info = TLV_VOTE_UNDEFINED)
         then other_partition_active last_result ring_id (client_list cl) else Some false) with
  | None => fail NULL_DEREF
  | Some true => mret (TLV_REPLY_ERROR_CODE_NO_ERROR, Some TLV_VOTE_NACK)
  | Some false =>
      if Z.of_nat (length nodes) =? 2 then decide_vote ptr TLV_VOTE_ACK
      else if Z.of_nat (length (client_list cl)) =? 1 then decide_vote ptr TLV_VOTE_ACK
      else decide_vote ptr (split_vote c heuristics (client_list cl))
  end.

Definition qnetd_algo_2nodelms_quorum_node_list_received : M state (Z * option tlv_vote) :=
  mret (TLV_REPLY_ERROR_CODE_NO_ERROR, Some TLV_VOTE_NO_CHANGE).

Definition qnetd_algo_2nodelms_client_disconnect (ptr : nat) : M state unit :=
  on_client ptr (set_algorithm_data None).

Definition qnetd_algo_2nodelms_ask_for_vote_received (ptr : nat) : M state (Z * option tlv_vote) :=
  info ← get_info ptr;
  mret (TLV_REPLY_ERROR_CODE_NO_ERROR,
        Some (if bool_decide (last_result info = TLV_VOTE_UNDEFINED) then TLV_VOTE_ASK_LATER
              else last_result info)).

Definition qnetd_algo_2nodelms_vote_info_reply_received : M state Z :=
  mret TLV_REPLY_ERROR_CODE_NO_ERROR.

Definition qnetd_algo_2nodelms_heuristics_change_received : M state (Z * option tlv_vote) :=
  mret (TLV_REPLY_ERROR_CODE_NO_ERROR, Some TLV_VOTE_NO_CHANGE).

(** Nothing is set, nothing is sent. *)
Definition qnetd_algo_2nodelms_timer_callback : M state (Z * bool * bool * option tlv_vote) :=
  mret (TLV_REPLY_ERROR_CODE_NO_ERROR, false, false, None).
End twonodelms.
