(* ===== verification/Algo2NodeLmsFacts.v ===== *)
(** Last man standing for two nodes: the votes that two nodes get that report one after the other
    that they do not see each other. *)
From S2P Require Import Prelude Dynar Tlv TlvFacts NodeList SendBuffer QnetdClient QnetdCluster.
From stdpp Require Import list gmap.
From S2P Require Import AlgoUtils TimerList TimerInterface QnetdAlgoTimer Algo2NodeLms.
Local Open Scope Z_scope.

Section facts.
Context {C T : Type}.
Abbreviation client := (@qnetd_client qnetd_algo_2nodelms_info).
Abbreviation cluster := (@qnetd_cluster qnetd_algo_2nodelms_info C).

(** The clients of the two nodes, as the server admits them. *)
Record two_nodes (a b : client) : Prop := {
  tn_ptr : client_ptr a ≠ client_ptr b;
  tn_id : client_node_id a ≠ client_node_id b;
  tn_range_a : 0 ≤ client_node_id a ≤ UINT32_MAX;
  tn_range_b : 0 ≤ client_node_id b ≤ UINT32_MAX;
  tn_tb : tie_breaker a = tie_breaker b
}.

(** The node the tie-breaker is for, if any. *)
Definition nominated (c other : client) : bool :=
  let mode := tb_mode (tie_breaker c) in
  if mode =? TLV_TIE_BREAKER_MODE_LOWEST then client_node_id c <? client_node_id other
  else if mode =? TLV_TIE_BREAKER_MODE_HIGHEST then client_node_id other <? client_node_id c
  else if mode =? TLV_TIE_BREAKER_MODE_NODE_ID then client_node_id c =? tb_node_id (tie_breaker c)
  else false.

(** Heuristics pass is better than unknown, unknown is better than fail. *)
Definition rank (h : tlv_heuristics) : Z :=
  match h with TLV_HEURISTICS_PASS => 2 | TLV_HEURISTICS_UNDEFINED => 1 | TLV_HEURISTICS_FAIL => 0 end.

(** The node with the better heuristics, and of equal ones the nominated one, should go on. *)
Definition preferred (h other_h : tlv_heuristics) (nominated : bool) : bool :=
  (rank other_h <? rank h) || (rank h =? rank other_h) && nominated.
Definition vote_for (b : bool) : tlv_vote := if b then TLV_VOTE_ACK else TLV_VOTE_NACK.

Lemma clients_fold a b : two_nodes a b →
  foldl (clients_step (client_ptr a)) (UINT32_MAX, 0, TLV_HEURISTICS_UNDEFINED) [a; b] =
    (Z.min (client_node_id a) (client_node_id b), Z.max (client_node_id a) (client_node_id b),
     last_heuristics b) ∧
  foldl (clients_step (client_ptr b)) (UINT32_MAX, 0, TLV_HEURISTICS_UNDEFINED) [a; b] =
    (Z.min (client_node_id a) (client_node_id b), Z.max (client_node_id a) (client_node_id b),
     last_heuristics a).
Proof.
  intros [Hp Hid Ha Hb _]. unfold clients_step. cbn [foldl].
  rewrite (bool_decide_eq_false_2 (client_ptr a ≠ client_ptr a)) by (intros H; by apply H).
  rewrite (bool_decide_eq_false_2 (client_ptr b ≠ client_ptr b)) by (intros H; by apply H).
  rewrite (bool_decide_eq_true_2 (client_ptr a ≠ client_ptr b)) by done.
  rewrite (bool_decide_eq_true_2 (client_ptr b ≠ client_ptr a)) by congruence.
  assert (Hmin : ∀ x y : Z, (if x <? y then x else y) = Z.min x y) by (intros; case_if; lia).
  assert (Hmax : ∀ x y : Z, (if y <? x then x else y) = Z.max x y) by (intros; case_if; lia).
  rewrite !Hmin, !Hmax. unfold UINT32_MAX in *. split; do 2 f_equal; lia.
Qed.

Lemma heuristics_rank h1 h2 : Z.sgn (tlv_heuristics_cmp h1 h2) = Z.sgn (rank h1 - rank h2).
Proof. by destruct h1, h2. Qed.

Lemma split_vote_eq c other h l :
  foldl (clients_step (client_ptr c)) (UINT32_MAX, 0, TLV_HEURISTICS_UNDEFINED) l =
    (Z.min (client_node_id c) (client_node_id other), Z.max (client_node_id c) (client_node_id other),
     last_heuristics other) →
  client_node_id c ≠ client_node_id other →
  split_vote c h l = vote_for (preferred h (last_heuristics other) (nominated c other)).
Proof.
  intros E Hne. unfold split_vote, preferred, nominated, vote_for. rewrite E.
  pose proof (heuristics_rank h (last_heuristics other)) as Hr.
  destruct (Z.ltb_spec 0 (tlv_heuristics_cmp h (last_heuristics other))),
    (Z.ltb_spec (tlv_heuristics_cmp h (last_heuristics other)) 0), (Z.ltb_spec (rank (last_heuristics other)) (rank h)),
    (Z.eqb_spec (rank h) (rank (last_heuristics other))); cbn [orb andb]; try done; try (exfalso; lia).
  repeat match goal with |- context [if ?x =? ?y then _ else _] => destruct (Z.eqb_spec x y)
    | |- context [?x <? ?y] => destruct (Z.ltb_spec x y) end; done || lia.
Qed.

Lemma split_votes a b h : two_nodes a b →
  split_vote a h [a; b] = vote_for (preferred h (last_heuristics b) (nominated a b)) ∧
  split_vote b h [a; b] = vote_for (preferred h (last_heuristics a) (nominated b a)).
Proof.
  intros Hn. destruct (clients_fold a b Hn) as [Ea Eb]. destruct Hn as [Hp Hid _ _ _].
  split; apply split_vote_eq; [done|done| |congruence].
  by rewrite (Z.min_comm (client_node_id b)), (Z.max_comm (client_node_id b)).
Qed.

(** At most one of two nodes is nominated. *)
Lemma nominated_once a b : two_nodes a b → nominated a b = true → nominated b a = true → False.
Proof.
  intros [_ Hid _ _ Htb]. unfold nominated. rewrite <-Htb. intros H1 H2.
  repeat case_match; zbool; lia || done.
Qed.

Definition has_data (c : client) (v : tlv_vote) : Prop :=
  last_result <$> algorithm_data c = Some v.

(** One membership list of a node that sees only itself while both nodes are connected:
    either it is a newcomer and the other node has the vote, or the vote is [split_vote] and
    is stored. *)
Lemma split_handler (a b : client) ptr c ring_id nodes h (cl : cluster) (x : T * heap) va vb :
  client_list cl = [a; b] → client_ptr a ≠ client_ptr b → has_data a va → has_data b vb →
  (ptr = client_ptr a ∧ c = a ∨ ptr = client_ptr b ∧ c = b) → length nodes ≠ 2%nat →
  let v := split_vote c h [a; b] in
  ∃ v' cl' d,
    qnetd_algo_2nodelms_membership_node_list_received ptr ring_id nodes h (cl, x) =
      (Ok (TLV_REPLY_ERROR_CODE_NO_ERROR, Some v'), (cl', x)) ∧ algorithm_data c = Some d ∧
    (v' = TLV_VOTE_NACK ∧ cl' = cl ∧ last_result d = TLV_VOTE_UNDEFINED ∨
     v' = v ∧ cl' = update_client ptr (set_algorithm_data (Some (set_last_result v d))) cl).
Proof.
  intros Hcl Hne Ha Hb Hc Hn v.
  assert (Hget : get_client ptr cl = Some c).
  { unfold get_client. rewrite Hcl. cbn. destruct Hc as [[-> ->]|[-> ->]].
    - by rewrite decide_True.
    - rewrite decide_False, decide_True by done. done. }
  assert (Hd : ∃ d, algorithm_data c = Some d).
  { unfold has_data in Ha, Hb. destruct Hc as [[_ ->]|[_ ->]];
      destruct (algorithm_data a), (algorithm_data b); try done; by eexists. }
  destruct Hd as [d Hd].
  assert (Hall : ∀ oc, oc ∈ [a; b] → is_Some (algorithm_data oc)).
  { unfold has_data in Ha, Hb. intros oc. rewrite !elem_of_cons.
    intros [-> |[-> |[]%not_elem_of_nil]];
      destruct (algorithm_data a), (algorithm_data b); try done; by eexists. }
  unfold qnetd_algo_2nodelms_membership_node_list_received.
  rewrite (bind_ok _ _ _ _ _ (the_client_ok _ _ _ _ Hget)).
  rewrite (bind_ok _ _ _ _ _ (get_info_ok _ _ _ _ _ Hget Hd)).
  rewrite (bind_ok get _ _ _ _ eq_refl). cbv beta iota. rewrite Hcl.
  assert (Hact : ∃ t, (if bool_decide (last_result d = TLV_VOTE_UNDEFINED)
      then other_partition_active last_result ring_id [a; b] else Some false) = Some t ∧
      (t = true → last_result d = TLV_VOTE_UNDEFINED)).
  { destruct (bool_decide _) eqn:E; [|by exists false]. apply bool_decide_eq_true in E.
    destruct (Hall a ltac:(left)) as [da Hda]. destruct (Hall b ltac:(right; left)) as [db Hdb].
    cbn [other_partition_active]. rewrite Hda, Hdb.
    repeat match goal with |- context [if ?b then _ else _] => destruct b end;
      (eexists; split; [reflexivity|by intros]). }
  destruct Hact as ([|] & -> & Ht).
  - exists TLV_VOTE_NACK, cl, d. split; [done|]. split; [done|]. left. auto.
  - rewrite (proj2 (Z.eqb_neq _ 2)) by lia. cbn [length]. change (Z.of_nat 2 =? 1) with false. cbv iota.
    unfold decide_vote. rewrite (bind_ok _ _ _ _ _ (put_info_ok ptr _ cl x c d Hget Hd)).
    eexists v, _, d. split; [done|]. split; [done|]. by right.
Qed.

Lemma update_first (a b : client) f (cl : cluster) :
  client_list cl = [a; b] → client_ptr a ≠ client_ptr b →
  client_list (update_client (client_ptr a) f cl) = [f a; b].
Proof.
  intros Hcl Hne. unfold update_client, set_client_list. cbn [client_list]. rewrite Hcl.
  cbn [fmap list_fmap]. rewrite bool_decide_eq_true_2 by done.
  rewrite bool_decide_eq_false_2; [done|congruence].
Qed.

(** What the server stores of a membership list once the algorithm has answered. *)
Definition store_report (ring_id : tlv_ring_id) (nodes : node_list) (h : tlv_heuristics) (c : client) : client :=
  set_last_heuristics h (set_last_membership_heuristics h
    (set_last_ring_id ring_id (set_last_membership_node_list nodes c))).

(** The server deals with the membership list of a node. *)
Definition report (ptr : nat) (ring_id : tlv_ring_id) (nodes : node_list) (h : tlv_heuristics) :
    M (@algo_state qnetd_algo_2nodelms_info C T) (Z * option tlv_vote) :=
  r ← qnetd_algo_2nodelms_membership_node_list_received ptr ring_id nodes h;
  modify (λ '(cl, x), (update_client ptr (store_report ring_id nodes h) cl, x));;
  mret r.

End facts.

(** ** An example: heuristics are equal, the lower node id is given the vote *)

Definition ex_node (id : Z) : @qnetd_client qnetd_algo_2nodelms_info :=
  {| client_ptr := Z.to_nat id; receive_buffer := dynar_init 1000;
     send_buffers := send_buffer_list_init 10 1000;
     msg_already_received_bytes := 0; client_skipping_msg := false; tls_started := false;
     tls_peer_certificate_verified := false; preinit_received := true; init_received := true;
     cluster_name := Some []; client_node_id_set := true; client_node_id := id;
     decision_algorithm := TLV_DECISION_ALGORITHM_TYPE_2NODELMS;
     tie_breaker := mk_tie_breaker TLV_TIE_BREAKER_MODE_LOWEST 0;
     heartbeat_interval := 10000; skipping_msg_reason := 0;
     algorithm_data := Some (mk_2nodelms 2 TLV_VOTE_ACK); configuration_node_list := [];
     config_version := None; last_membership_node_list := []; last_quorum_node_list := [];
     last_ring_id := mk_ring_id 1 7; algo_timer := None; algo_timer_vote_info_msq_seq_number := 0;
     schedule_disconnect := false; dpd_timer := None; last_sent_vote := TLV_VOTE_UNDEFINED;
     last_sent_ack_nack_vote := TLV_VOTE_UNDEFINED;
     last_membership_heuristics := TLV_HEURISTICS_UNDEFINED;
     last_regular_heuristics := TLV_HEURISTICS_UNDEFINED; last_heuristics := TLV_HEURISTICS_UNDEFINED;
     keep_active_partition_tie_breaker := TLV_KEEP_ACTIVE_PARTITION_TIE_BREAKER_DISABLED |}.

Definition ex_cluster : @qnetd_cluster qnetd_algo_2nodelms_info unit := mk_cluster [] None [ex_node 1; ex_node 2].
Definition ex_report (id : Z) (h : tlv_heuristics) :=
  report (C := unit) (T := unit) (Z.to_nat id) (mk_ring_id id 8) [mk_node id 0 TLV_NODE_STATE_NOT_SET] h.

Lemma ex_two_nodes : two_nodes (ex_node 1) (ex_node 2).
Proof. split; vm_compute; (done || split; done). Qed.


(** The heuristics of the second node get better meanwhile: both nodes are given the vote. *)
Lemma twonodelms_two_votes :
  fst ((ra ← ex_report 1 TLV_HEURISTICS_UNDEFINED; rb ← ex_report 2 TLV_HEURISTICS_PASS; mret (ra, rb))
    (ex_cluster, (tt, []))) =
  Ok ((TLV_REPLY_ERROR_CODE_NO_ERROR, Some TLV_VOTE_ACK), (TLV_REPLY_ERROR_CODE_NO_ERROR, Some TLV_VOTE_ACK)).
Proof. vm_compute. reflexivity. Qed.
