(* ===== verification/AlgoTest.v ===== *)
(** The test algorithm (qnetd-algo-test.c): every node gets a vote. *)
From S2P Require Import Prelude Dynar Tlv NodeList SendBuffer QnetdClient QnetdCluster.
From stdpp Require Import list gmap.
From S2P Require Import TimerList TimerInterface QnetdAlgoTimer.
Local Open Scope Z_scope.

Section algo_test.
Context {T : Type}.
Abbreviation state := (@algo_state Z Z T).

Definition qnetd_algo_test_client_init (ptr : nat) : M state Z := λ '(cl, (t, h)),
  match malloc h with
  | (None, h') => (Ok TLV_REPLY_ERROR_CODE_INTERNAL_ERROR,
                   (update_client ptr (set_algorithm_data None) cl, (t, h')))
  | (Some _, h') =>
      let cl := update_client ptr (set_algorithm_data (Some 42)) cl in
      if qnetd_cluster_size cl =? 1 then
        match malloc h' with
        | (None, h'') => (Ok TLV_REPLY_ERROR_CODE_INTERNAL_ERROR,
                          (set_cl_algorithm_data None cl, (t, h'')))
        | (Some _, h'') => (Ok TLV_REPLY_ERROR_CODE_NO_ERROR,
                            (set_cl_algorithm_data (Some 42) cl, (t, h'')))
        end
      else (Ok TLV_REPLY_ERROR_CODE_NO_ERROR, (cl, (t, h')))
  end.

Definition qnetd_algo_test_config_node_list_received : M state (Z * option tlv_vote) :=
  mret (TLV_REPLY_ERROR_CODE_NO_ERROR, Some TLV_VOTE_NO_CHANGE).

Definition qnetd_algo_test_membership_node_list_received : M state (Z * option tlv_vote) :=
  mret (TLV_REPLY_ERROR_CODE_NO_ERROR, Some TLV_VOTE_ACK).

Definition qnetd_algo_test_quorum_node_list_received : M state (Z * option tlv_vote) :=
  mret (TLV_REPLY_ERROR_CODE_NO_ERROR, Some TLV_VOTE_NO_CHANGE).

Definition qnetd_algo_test_client_disconnect (ptr : nat) : M state unit :=
  on_client ptr (set_algorithm_data None);;
  modify (λ '(cl, s),
    (if qnetd_cluster_size cl =? 1 then set_cl_algorithm_data None cl else cl, s)).

Definition qnetd_algo_test_ask_for_vote_received : M state (Z * option tlv_vote) :=
  mret (TLV_REPLY_ERROR_CODE_NO_ERROR, Some TLV_VOTE_ACK).

Definition qnetd_algo_test_vote_info_reply_received : M state Z :=
  mret TLV_REPLY_ERROR_CODE_NO_ERROR.

Definition qnetd_algo_test_heuristics_change_received : M state (Z * option tlv_vote) :=
  mret (TLV_REPLY_ERROR_CODE_NO_ERROR, Some TLV_VOTE_NO_CHANGE).

Definition qnetd_algo_test_timer_callback : M state (Z * bool * bool * option tlv_vote) :=
  mret (TLV_REPLY_ERROR_CODE_NO_ERROR, false, false, None).
End algo_test.
