(* ===== verification/QnetdAlgorithm.v ===== *)
(** The table of decision algorithms and the calls through it (qnetd-algorithm.c).

    The data an algorithm keeps for a client or a cluster is behind a [void *]; here it is a
    sum over the algorithms.  A handler of an algorithm runs on the cluster when all data in
    it is of that algorithm; the program would read it with the wrong type otherwise, and the
    model stops with [TYPE_CONFUSION]. *)
From S2P Require Import Prelude Dynar Tlv NodeList SendBuffer QnetdClient QnetdCluster.
From stdpp Require Import list gmap.
From S2P Require Import TimerList TimerInterface QnetdAlgoTimer AlgoUtils.
From S2P Require AlgoFfsplit AlgoLms Algo2NodeLms AlgoTest.
Local Open Scope Z_scope.

Definition QNETD_STATIC_SUPPORTED_DECISION_ALGORITHMS_SIZE : Z := 4.

(** Not a value of the program: [void *] data is used with another type. *)
Definition TYPE_CONFUSION : Z := -1005.

Inductive qnetd_client_data :=
| TEST_CLIENT (d : Z)
| FFSPLIT_CLIENT (d : AlgoFfsplit.ffsplit_client_data)
| TWONODELMS_CLIENT (d : Algo2NodeLms.qnetd_algo_2nodelms_info)
| LMS_CLIENT (d : AlgoLms.qnetd_algo_lms_info).

Inductive qnetd_cluster_data :=
| TEST_CLUSTER (d : Z)
| FFSPLIT_CLUSTER (d : AlgoFfsplit.ffsplit_cluster_data).

(** The same client with other data. *)
Definition with_data {D E} (v : option E) (c : @qnetd_client D) : @qnetd_client E :=
  let '(mk_client f0 f1 f2 f3 f4 f5 f6 f7 f8 f9 f10 f11 f12 f13 f14 f15 _ f17 f18 f19 f20 f21
    f22 f23 f24 f25 f26 f27 f28 f29 f30 f31) := c in
  mk_client f0 f1 f2 f3 f4 f5 f6 f7 f8 f9 f10 f11 f12 f13 f14 f15 v f17 f18 f19 f20 f21
    f22 f23 f24 f25 f26 f27 f28 f29 f30 f31.

(** A pointer cast: NULL stays NULL, other data has to be of the type. *)
Definition cast {D E} (get : D → option E) (d : option D) : option (option E) :=
  match d with
  | None => Some None
  | Some d => match get d with Some e => Some (Some e) | None => None end
  end.

Definition cast_client {D E} (get : D → option E) (c : @qnetd_client D) :
    option (@qnetd_client E) :=
  match cast get (algorithm_data c) with
  | Some d => Some (with_data d c)
  | None => None
  end.

Section lift.
Context {T D C : Type}.
Context (get_d : qnetd_client_data → option D) (of_d : D → qnetd_client_data).
Context (get_c : qnetd_cluster_data → option C) (of_c : C → qnetd_cluster_data).
Abbreviation daemon_cluster := (@qnetd_cluster qnetd_client_data qnetd_cluster_data).

Definition cast_cluster (cl : daemon_cluster) : option (@qnetd_cluster D C) :=
  match cast get_c (cl_algorithm_data cl), mapM (cast_client get_d) (client_list cl) with
  | Some d, Some l => Some (mk_cluster (cl_name cl) d l)
  | _, _ => None
  end.

Definition uncast_cluster (cl : @qnetd_cluster D C) : daemon_cluster :=
  mk_cluster (cl_name cl) (of_c <$> cl_algorithm_data cl)
    ((λ c, with_data (of_d <$> algorithm_data c) c) <$> client_list cl).

(** Run a handler of one algorithm on the cluster. *)
Definition run_handler {A} (m : M (@algo_state D C T) A) :
    M (@algo_state qnetd_client_data qnetd_cluster_data T) A := λ '(cl, s),
  match cast_cluster cl with
  | None => (Err TYPE_CONFUSION, (cl, s))
  | Some cl' => let '(r, (cl', s')) := m (cl', s) in (r, (uncast_cluster cl', s'))
  end.
End lift.

Definition get_test_client (d : qnetd_client_data) :=
  match d with TEST_CLIENT d => Some d | _ => None end.
Definition get_ffsplit_client (d : qnetd_client_data) :=
  match d with FFSPLIT_CLIENT d => Some d | _ => None end.
Definition get_2nodelms_client (d : qnetd_client_data) :=
  match d with TWONODELMS_CLIENT d => Some d | _ => None end.
Definition get_lms_client (d : qnetd_client_data) :=
  match d with LMS_CLIENT d => Some d | _ => None end.
Definition get_test_cluster (d : qnetd_cluster_data) :=
  match d with TEST_CLUSTER d => Some d | _ => None end.
Definition get_ffsplit_cluster (d : qnetd_cluster_data) :=
  match d with FFSPLIT_CLUSTER d => Some d | _ => None end.

Section algorithms.
Context {T : Type} `{TimerOps qnetd_timer T}.
Abbreviation state := (@algo_state qnetd_client_data qnetd_cluster_data T).

(** A client is passed by its address.  A handler returns the error code and what it sets
    [*result_vote] to; [None] leaves it alone. *)
Record qnetd_algorithm := mk_algorithm {
  algo_init : nat → M state Z;
  algo_client_disconnect : nat → bool → M state unit;
  algo_membership_node_list_received : nat → Z → tlv_ring_id → node_list → tlv_heuristics →
    M state (Z * option tlv_vote);
  algo_quorum_node_list_received : nat → Z → tlv_quorate → node_list → M state (Z * option tlv_vote);
  algo_config_node_list_received : nat → Z → option Z → node_list → bool →
    M state (Z * option tlv_vote);
  algo_ask_for_vote_received : nat → Z → M state (Z * option tlv_vote);
  algo_vote_info_reply_received : nat → Z → M state Z;
  algo_heuristics_change_received : nat → Z → tlv_heuristics → M state (Z * option tlv_vote);
  algo_timer_callback : nat → M state (Z * bool * bool * option tlv_vote)
}.

Definition run_test {A} : M (@algo_state Z Z T) A → M state A :=
  run_handler get_test_client TEST_CLIENT get_test_cluster TEST_CLUSTER.

Definition qnetd_algo_test : qnetd_algorithm := {|
  algo_init ptr := run_test (AlgoTest.qnetd_algo_test_client_init ptr);
  algo_client_disconnect ptr _ := run_test (AlgoTest.qnetd_algo_test_client_disconnect ptr);
  algo_membership_node_list_received _ _ _ _ _ :=
    run_test AlgoTest.qnetd_algo_test_membership_node_list_received;
  algo_quorum_node_list_received _ _ _ _ :=
    run_test AlgoTest.qnetd_algo_test_quorum_node_list_received;
  algo_config_node_list_received _ _ _ _ _ :=
    run_test AlgoTest.qnetd_algo_test_config_node_list_received;
  algo_ask_for_vote_received _ _ := run_test AlgoTest.qnetd_algo_test_ask_for_vote_received;
  algo_vote_info_reply_received _ _ := run_test AlgoTest.qnetd_algo_test_vote_info_reply_received;
  algo_heuristics_change_received _ _ _ :=
    run_test AlgoTest.qnetd_algo_test_heuristics_change_received;
  algo_timer_callback _ := run_test AlgoTest.qnetd_algo_test_timer_callback
|}.

(** The fifty-fifty split does not use timers, and its handlers read the client first. *)
Definition run_ffsplit {A}
    (m : @qnetd_client AlgoFfsplit.ffsplit_client_data →
         M (@qnetd_cluster AlgoFfsplit.ffsplit_client_data AlgoFfsplit.ffsplit_cluster_data * heap) A)
    (ptr : nat) : M state A :=
  run_handler get_ffsplit_client FFSPLIT_CLIENT get_ffsplit_cluster FFSPLIT_CLUSTER
    (λ '(cl, (t, h)),
       match get_client ptr cl with
       | None => (Err NULL_DEREF, (cl, (t, h)))
       | Some c => let '(r, (cl', h')) := m c (cl, h) in (r, (cl', (t, h')))
       end).

Definition qnetd_algo_ffsplit : qnetd_algorithm := {|
  algo_init := run_ffsplit AlgoFfsplit.qnetd_algo_ffsplit_client_init;
  algo_client_disconnect ptr server_going_down :=
    run_ffsplit (λ c, AlgoFfsplit.qnetd_algo_ffsplit_client_disconnect c server_going_down) ptr;
  algo_membership_node_list_received ptr _ ring_id nodes heuristics :=
    run_ffsplit (λ c,
      AlgoFfsplit.qnetd_algo_ffsplit_membership_node_list_received c ring_id nodes heuristics) ptr;
  algo_quorum_node_list_received ptr _ _ _ :=
    run_ffsplit (λ _, AlgoFfsplit.qnetd_algo_ffsplit_quorum_node_list_received) ptr;
  algo_config_node_list_received ptr _ _ nodes initial :=
    run_ffsplit (λ c, AlgoFfsplit.qnetd_algo_ffsplit_config_node_list_received c nodes initial) ptr;
  algo_ask_for_vote_received ptr _ :=
    run_ffsplit (λ _, AlgoFfsplit.qnetd_algo_ffsplit_ask_for_vote_received) ptr;
  algo_vote_info_reply_received ptr msg_seq_num :=
    run_ffsplit (λ c, AlgoFfsplit.qnetd_algo_ffsplit_vote_info_reply_received c msg_seq_num) ptr;
  algo_heuristics_change_received ptr _ heuristics :=
    run_ffsplit (λ c, AlgoFfsplit.qnetd_algo_ffsplit_heuristics_change_received c heuristics) ptr;
  algo_timer_callback ptr :=
    run_ffsplit (λ _,
      r ← AlgoFfsplit.qnetd_algo_ffsplit_timer_callback; mret (r, false, false, None)) ptr
|}.

(** The other two keep nothing for the cluster. *)
Definition no_cluster_data (d : qnetd_cluster_data) : option Empty_set := None.
Definition of_no_cluster_data (d : Empty_set) : qnetd_cluster_data := match d with end.

Definition run_2nodelms {A} :
    M (@algo_state Algo2NodeLms.qnetd_algo_2nodelms_info Empty_set T) A → M state A :=
  run_handler get_2nodelms_client TWONODELMS_CLIENT no_cluster_data of_no_cluster_data.

Definition qnetd_algo_2nodelms : qnetd_algorithm := {|
  algo_init ptr := run_2nodelms (Algo2NodeLms.qnetd_algo_2nodelms_client_init ptr);
  algo_client_disconnect ptr _ :=
    run_2nodelms (Algo2NodeLms.qnetd_algo_2nodelms_client_disconnect ptr);
  algo_membership_node_list_received ptr _ ring_id nodes heuristics :=
    run_2nodelms (Algo2NodeLms.qnetd_algo_2nodelms_membership_node_list_received ptr ring_id
                    nodes heuristics);
  algo_quorum_node_list_received _ _ _ _ :=
    run_2nodelms Algo2NodeLms.qnetd_algo_2nodelms_quorum_node_list_received;
  algo_config_node_list_received ptr _ _ nodes _ :=
    run_2nodelms (Algo2NodeLms.qnetd_algo_2nodelms_config_node_list_received ptr nodes);
  algo_ask_for_vote_received ptr _ :=
    run_2nodelms (Algo2NodeLms.qnetd_algo_2nodelms_ask_for_vote_received ptr);
  algo_vote_info_reply_received _ _ :=
    run_2nodelms Algo2NodeLms.qnetd_algo_2nodelms_vote_info_reply_received;
  algo_heuristics_change_received _ _ _ :=
    run_2nodelms Algo2NodeLms.qnetd_algo_2nodelms_heuristics_change_received;
  algo_timer_callback _ := run_2nodelms Algo2NodeLms.qnetd_algo_2nodelms_timer_callback
|}.

Definition run_lms {A} :
    M (@algo_state AlgoLms.qnetd_algo_lms_info Empty_set T) A → M state A :=
  run_handler get_lms_client LMS_CLIENT no_cluster_data of_no_cluster_data.

Definition qnetd_algo_lms : qnetd_algorithm := {|
  algo_init ptr := run_lms (AlgoLms.qnetd_algo_lms_client_init ptr);
  algo_client_disconnect ptr _ := run_lms (AlgoLms.qnetd_algo_lms_client_disconnect ptr);
  algo_membership_node_list_received ptr _ ring_id _ _ :=
    run_lms (AlgoLms.qnetd_algo_lms_membership_node_list_received ptr ring_id);
  algo_quorum_node_list_received ptr _ _ _ :=
    run_lms (AlgoLms.qnetd_algo_lms_quorum_node_list_received ptr);
  algo_config_node_list_received ptr _ _ nodes _ :=
    run_lms (AlgoLms.qnetd_algo_lms_config_node_list_received ptr nodes);
  algo_ask_for_vote_received ptr _ := run_lms (AlgoLms.qnetd_algo_lms_ask_for_vote_received ptr);
  algo_vote_info_reply_received _ _ := run_lms AlgoLms.qnetd_algo_lms_vote_info_reply_received;
  algo_heuristics_change_received _ _ _ :=
    run_lms AlgoLms.qnetd_algo_lms_heuristics_change_received;
  algo_timer_callback ptr := run_lms (AlgoLms.qnetd_algo_lms_timer_callback ptr)
|}.

(** ** Registration *)

Abbreviation algorithm_array := (list (option qnetd_algorithm)).

Definition qnetd_algorithm_register (algorithm_number : Z) (algorithm : qnetd_algorithm)
    (arr : algorithm_array) : Z * algorithm_array :=
  if QNETD_STATIC_SUPPORTED_DECISION_ALGORITHMS_SIZE <=? algorithm_number then (-1, arr)
  else
    match arr !! Z.to_nat algorithm_number with
    | Some (Some _) => (-1, arr)
    | _ => (0, <[Z.to_nat algorithm_number := Some algorithm]> arr)
    end.

Definition qnetd_algo_test_register : algorithm_array → Z * algorithm_array :=
  qnetd_algorithm_register TLV_DECISION_ALGORITHM_TYPE_TEST qnetd_algo_test.
Definition qnetd_algo_ffsplit_register : algorithm_array → Z * algorithm_array :=
  qnetd_algorithm_register TLV_DECISION_ALGORITHM_TYPE_FFSPLIT qnetd_algo_ffsplit.
Definition qnetd_algo_2nodelms_register : algorithm_array → Z * algorithm_array :=
  qnetd_algorithm_register TLV_DECISION_ALGORITHM_TYPE_2NODELMS qnetd_algo_2nodelms.
Definition qnetd_algo_lms_register : algorithm_array → Z * algorithm_array :=
  qnetd_algorithm_register TLV_DECISION_ALGORITHM_TYPE_LMS qnetd_algo_lms.

Definition qnetd_algorithm_register_all (arr : algorithm_array) : Z * algorithm_array :=
  let '(r, arr) := qnetd_algo_test_register arr in
  if negb (r =? 0) then (-1, arr) else
  let '(r, arr) := qnetd_algo_ffsplit_register arr in
  if negb (r =? 0) then (-1, arr) else
  let '(r, arr) := qnetd_algo_2nodelms_register arr in
  if negb (r =? 0) then (-1, arr) else
  let '(r, arr) := qnetd_algo_lms_register arr in
  if negb (r =? 0) then (-1, arr) else (0, arr).

(** The static array is filled with NULL. *)
Definition qnetd_algorithm_array_init : algorithm_array :=
  replicate (Z.to_nat QNETD_STATIC_SUPPORTED_DECISION_ALGORITHMS_SIZE) None.

(** The array once the daemon has started. *)
Definition qnetd_algorithm_array : algorithm_array :=
  snd (qnetd_algorithm_register_all qnetd_algorithm_array_init).

(** ** Calls *)

(** The test all the calls begin with: the algorithm of the client, when there is one. *)
Definition the_algorithm (ptr : nat) : M state (option qnetd_algorithm) :=
  c ← the_client ptr;
  if QNETD_STATIC_SUPPORTED_DECISION_ALGORITHMS_SIZE <=? decision_algorithm c then mret None
  else mret (mjoin (qnetd_algorithm_array !! Z.to_nat (decision_algorithm c))).

Definition call_algorithm {A} (ptr : nat) (internal_error : A) (f : qnetd_algorithm → M state A) :
    M state A :=
  a ← the_algorithm ptr;
  match a with
  | None => mret internal_error
  | Some a => f a
  end.

Definition qnetd_algorithm_client_init (ptr : nat) : M state Z :=
  call_algorithm ptr TLV_REPLY_ERROR_CODE_INTERNAL_ERROR (λ a, algo_init a ptr).

Definition qnetd_algorithm_config_node_list_received (ptr : nat) (msg_seq_num : Z)
    (config_version : option Z) (nodes : node_list) (initial : bool) :
    M state (Z * option tlv_vote) :=
  call_algorithm ptr (TLV_REPLY_ERROR_CODE_INTERNAL_ERROR, None)
    (λ a, algo_config_node_list_received a ptr msg_seq_num config_version nodes initial).

Definition qnetd_algorithm_membership_node_list_received (ptr : nat) (msg_seq_num : Z)
    (ring_id : tlv_ring_id) (nodes : node_list) (heuristics : tlv_heuristics) :
    M state (Z * option tlv_vote) :=
  call_algorithm ptr (TLV_REPLY_ERROR_CODE_INTERNAL_ERROR, None)
    (λ a, algo_membership_node_list_received a ptr msg_seq_num ring_id nodes heuristics).

Definition qnetd_algorithm_quorum_node_list_received (ptr : nat) (msg_seq_num : Z)
    (quorate : tlv_quorate) (nodes : node_list) : M state (Z * option tlv_vote) :=
  call_algorithm ptr (TLV_REPLY_ERROR_CODE_INTERNAL_ERROR, None)
    (λ a, algo_quorum_node_list_received a ptr msg_seq_num quorate nodes).

Definition qnetd_algorithm_client_disconnect (ptr : nat) (server_going_down : bool) :
    M state unit :=
  call_algorithm ptr tt (λ a, algo_client_disconnect a ptr server_going_down).

Definition qnetd_algorithm_ask_for_vote_received (ptr : nat) (msg_seq_num : Z) :
    M state (Z * option tlv_vote) :=
  call_algorithm ptr (TLV_REPLY_ERROR_CODE_INTERNAL_ERROR, None)
    (λ a, algo_ask_for_vote_received a ptr msg_seq_num).

Definition qnetd_algorithm_vote_info_reply_received (ptr : nat) (msg_seq_num : Z) : M state Z :=
  call_algorithm ptr TLV_REPLY_ERROR_CODE_INTERNAL_ERROR
    (λ a, algo_vote_info_reply_received a ptr msg_seq_num).

Definition qnetd_algorithm_heuristics_change_received (ptr : nat) (msg_seq_num : Z)
    (heuristics : tlv_heuristics) : M state (Z * option tlv_vote) :=
  call_algorithm ptr (TLV_REPLY_ERROR_CODE_INTERNAL_ERROR, None)
    (λ a, algo_heuristics_change_received a ptr msg_seq_num heuristics).

Definition qnetd_algorithm_timer_callback (ptr : nat) :
    M state (Z * bool * bool * option tlv_vote) :=
  call_algorithm ptr (TLV_REPLY_ERROR_CODE_INTERNAL_ERROR, false, false, None)
    (λ a, algo_timer_callback a ptr).

(** Every algorithm the protocol names is found under its number, and no other. *)
Lemma qnetd_algorithm_array_complete :
  fst (qnetd_algorithm_register_all qnetd_algorithm_array_init) = 0 ∧
  qnetd_algorithm_array =
    [Some qnetd_algo_test; Some qnetd_algo_ffsplit; Some qnetd_algo_2nodelms; Some qnetd_algo_lms].
Proof. done. Qed.
End algorithms.
