(* ===== verification/QnetdInstance.v ===== *)
(** The state of the daemon qnetd: its clients, clusters and timers (qnetd-instance.c,
    qnetd-client-list.c), and the operations on one client that need them
    (qnetd-client-dpd-timer.c, the callback of qnetd-client-algo-timer.c).

    A client is a record at an address.  It is kept in the list of its cluster, or in
    [q_lobby] before it has one; [q_clients] is the list [instance->clients] of addresses.
    [q_polled] are the clients whose socket is in the poll loop. *)
From S2P Require Import Prelude Dynar Tlv NodeList Msg SendBuffer QnetdClient QnetdCluster.
From stdpp Require Import list gmap.
From S2P Require Import TimerList TimerInterface QnetdAlgoTimer QnetdAlgorithm.
Local Open Scope Z_scope.

(** An element that is linked into a list is inserted into another one. *)
Definition LIST_CORRUPTION : Z := -1006.

(** What the daemon is started with.  [dpd_interval] is the product of
    [dpd_interval_coefficient], a double, and the interval, converted to 32 bits. *)
Record qnetd_settings := mk_settings {
  tls_supported : tlv_tls_supported;
  tls_client_cert_required : Z;
  max_clients : Z;
  max_client_send_buffers : Z;
  max_client_send_size : Z;
  max_client_receive_size : Z;
  heartbeat_interval_min : Z;
  heartbeat_interval_max : Z;
  dpd_enabled : bool;
  dpd_interval : Z → Z;
  default_keep_active_partition_tie_breaker : tlv_keep_active_partition_tie_breaker
}.

Abbreviation qclient := (@qnetd_client qnetd_client_data).
Abbreviation qcluster := (@qnetd_cluster qnetd_client_data qnetd_cluster_data).

Section instance.
Context {T : Type} `{TimerOps qnetd_timer T}.

Record qnetd_instance := mk_instance {
  q_clients : list nat;
  q_lobby : list qclient;
  q_clusters : list qcluster;
  q_polled : list nat;
  q_timers : T;
  q_heap : heap
}.

Definition set_clients (v : list nat) (q : qnetd_instance) : qnetd_instance :=
  mk_instance v (q_lobby q) (q_clusters q) (q_polled q) (q_timers q) (q_heap q).
Definition set_lobby (v : list qclient) (q : qnetd_instance) : qnetd_instance :=
  mk_instance (q_clients q) v (q_clusters q) (q_polled q) (q_timers q) (q_heap q).
Definition set_clusters (v : list qcluster) (q : qnetd_instance) : qnetd_instance :=
  mk_instance (q_clients q) (q_lobby q) v (q_polled q) (q_timers q) (q_heap q).
Definition set_polled (v : list nat) (q : qnetd_instance) : qnetd_instance :=
  mk_instance (q_clients q) (q_lobby q) (q_clusters q) v (q_timers q) (q_heap q).
Definition set_timers (v : T) (q : qnetd_instance) : qnetd_instance :=
  mk_instance (q_clients q) (q_lobby q) (q_clusters q) (q_polled q) v (q_heap q).
Definition set_heap (v : heap) (q : qnetd_instance) : qnetd_instance :=
  mk_instance (q_clients q) (q_lobby q) (q_clusters q) (q_polled q) (q_timers q) v.

(** All clients, wherever they are kept. *)
Definition connected_clients (q : qnetd_instance) : list qclient :=
  q_lobby q ++ all_clients (q_clusters q).

Definition find_at (ptr : nat) (l : list qclient) : option qclient :=
  snd <$> list_find (λ c, client_ptr c = ptr) l.
Definition update_at (ptr : nat) (f : qclient → qclient) (l : list qclient) : list qclient :=
  (λ c, if bool_decide (client_ptr c = ptr) then f c else c) <$> l.

(** [*client], and assignments to its fields. *)
Definition client_at (ptr : nat) : M qnetd_instance qclient := λ q,
  match find_at ptr (connected_clients q) with
  | Some c => (Ok c, q)
  | None => (Err NULL_DEREF, q)
  end.
Definition modify_client (ptr : nat) (f : qclient → qclient) : M qnetd_instance unit :=
  modify (λ q, set_clusters (update_client ptr f <$> q_clusters q)
                 (set_lobby (update_at ptr f (q_lobby q)) q)).

(** [client->cluster]: the position of the cluster that keeps the client. *)
Definition cluster_of (ptr : nat) (q : qnetd_instance) : option nat :=
  fst <$> list_find (λ cl, is_Some (get_client ptr cl)) (q_clusters q).

(** A step on the timers, or on one cluster and the timers. *)
Definition on_timers {A} (m : M (T * heap) A) : M qnetd_instance A := λ q,
  let '(r, (t, h)) := m (q_timers q, q_heap q) in (r, set_heap h (set_timers t q)).

Definition on_cluster {A} (ptr : nat)
    (m : M (@algo_state qnetd_client_data qnetd_cluster_data T) A) : M qnetd_instance A := λ q,
  match cluster_of ptr q with
  | None => (Err NULL_DEREF, q)
  | Some i =>
      match q_clusters q !! i with
      | None => (Err NULL_DEREF, q)
      | Some cl =>
          let '(r, (cl', (t, h))) := m (cl, (q_timers q, q_heap q)) in
          (r, set_heap h (set_timers t (set_clusters (<[i := cl']> (q_clusters q)) q)))
      end
  end.

(** An operation on a client alone, which need not be in a cluster. *)
Definition on_client_only {A} (ptr : nat)
    (m : M (@algo_state qnetd_client_data qnetd_cluster_data T) A) : M qnetd_instance A := λ q,
  match find_at ptr (connected_clients q) with
  | None => (Err NULL_DEREF, q)
  | Some c =>
      let '(r, (cl', (t, h))) := m (mk_cluster [] None [c], (q_timers q, q_heap q)) in
      let c' := default c (get_client ptr cl') in
      (r, set_heap h (set_timers t (snd (modify_client ptr (λ _, c') q))))
  end.

(** Create a message and queue it for a client; [-1] when there is no buffer or the message
    does not fit. *)
Definition send_to (ptr : nat) (send : qclient → heap → Z * (qclient * heap)) :
    M qnetd_instance Z :=
  c ← client_at ptr;
  q ← get;
  let '(r, (c', h')) := send c (q_heap q) in
  modify (set_heap h');;
  modify_client ptr (λ _, c');;
  mret r.

(** ** The timer that disconnects a silent client *)

Definition qnetd_client_dpd_timer_init (s : qnetd_settings) (ptr : nat) : M qnetd_instance Z :=
  if negb (dpd_enabled s) then mret 0
  else
    c ← client_at ptr;
    p ← on_timers (timer_add (dpd_interval s (heartbeat_interval c)) (DPD_TIMER ptr));
    modify_client ptr (set_dpd_timer p);;
    mret (match p with None => -1 | Some _ => 0 end).

Definition qnetd_client_dpd_timer_destroy (ptr : nat) : M qnetd_instance unit :=
  c ← client_at ptr;
  match dpd_timer c with
  | Some p =>
      on_timers (timer_delete p);;
      modify_client ptr (set_dpd_timer None)
  | None => mret tt
  end.

Definition qnetd_client_dpd_timer_reschedule (ptr : nat) : M qnetd_instance unit :=
  c ← client_at ptr;
  match dpd_timer c with
  | Some p => on_timers (timer_reschedule p)
  | None => mret tt
  end.

Definition qnetd_client_dpd_timer_update_interval (s : qnetd_settings) (ptr : nat) :
    M qnetd_instance Z :=
  c ← client_at ptr;
  match dpd_timer c with
  | Some p => on_timers (timer_set_interval p (dpd_interval s (heartbeat_interval c)))
  | None => mret 0
  end.

(** ** What the timers of the daemon call; 0 ends the timer *)

Definition qnetd_dpd_timer_cb (ptr : nat) : M qnetd_instance Z :=
  c ← client_at ptr;
  match dpd_timer c with
  | None => fail ASSERT
  | Some _ =>
      modify_client ptr (λ c, set_dpd_timer None (set_schedule_disconnect true c));;
      mret 0
  end.

Definition qnetd_client_algo_timer_callback (ptr : nat) : M qnetd_instance Z :=
  '(reply_error_code, reschedule_timer, send_vote, result) ←
    on_cluster ptr (qnetd_algorithm_timer_callback ptr);
  let result_vote := default TLV_VOTE_WAIT_FOR_REPLY result in
  if negb (reply_error_code =? TLV_REPLY_ERROR_CODE_NO_ERROR) then
    r ← send_to ptr (λ c, qnetd_client_send_err c false 0 reply_error_code);
    (if negb (r =? 0) then modify_client ptr (set_schedule_disconnect true) else mret tt);;
    mret 0
  else
    r ← (if (send_vote : bool) then
           modify_client ptr (λ c,
             set_algo_timer_vote_info_msq_seq_number
               (u32 (algo_timer_vote_info_msq_seq_number c + 1)) c);;
           send_to ptr (λ c, qnetd_client_send_vote_info c
             (algo_timer_vote_info_msq_seq_number c) (last_ring_id c) result_vote)
         else mret 0);
    if negb (r =? 0) then modify_client ptr (set_schedule_disconnect true);; mret 0
    else if (reschedule_timer : bool) then mret (-1)
    else modify_client ptr (set_algo_timer None);; mret 0.

Definition qnetd_timer_call (f : qnetd_timer) : M qnetd_instance Z :=
  match f with
  | ALGO_TIMER ptr => qnetd_client_algo_timer_callback ptr
  | DPD_TIMER ptr => qnetd_dpd_timer_cb ptr
  end.

(** ** The list of clients *)

Definition qnetd_client_list_init : list nat := [].

(** [ptr] is the address [malloc] returns when it does not fail. *)
Definition qnetd_client_list_add (s : qnetd_settings) (ptr : nat) : M qnetd_instance (option nat) :=
  λ q,
  match malloc (q_heap q) with
  | (None, h') => (Ok None, set_heap h' q)
  | (Some _, h') =>
      let c := qnetd_client_init ptr (max_client_receive_size s) (max_client_send_buffers s)
                 (max_client_send_size s) in
      (Ok (Some ptr), set_heap h' (set_lobby (q_lobby q ++ [c]) (set_clients (q_clients q ++ [ptr]) q)))
  end.

Definition qnetd_client_list_del (ptr : nat) : M qnetd_instance unit :=
  modify (λ q, set_lobby (filter (λ c, client_ptr c ≠ ptr) (q_lobby q))
                 (set_clients (filter (λ p, p ≠ ptr) (q_clients q)) q)).

Definition qnetd_client_list_no_clients (q : qnetd_instance) : Z :=
  foldl (λ res _, res + 1) 0 (q_clients q).

(** ** Disconnecting *)

(** [qnetd_cluster_list_del_client]: the client leaves its cluster, it still exists. *)
Definition leave_cluster (ptr : nat) : M qnetd_instance unit :=
  modify (λ q,
    match cluster_of ptr q, find_at ptr (connected_clients q) with
    | Some i, Some c =>
        set_clusters (qnetd_cluster_list_del_client i ptr (q_clusters q))
          (set_lobby (q_lobby q ++ [c]) q)
    | _, _ => q
    end).

Definition qnetd_instance_client_disconnect (ptr : nat) (server_going_down : bool) :
    M qnetd_instance unit :=
  c ← client_at ptr;
  (if init_received c then
     on_cluster ptr (qnetd_algorithm_client_disconnect ptr server_going_down)
   else mret tt);;
  qnetd_client_dpd_timer_destroy ptr;;
  leave_cluster ptr;;
  on_client_only ptr (qnetd_client_algo_timer_abort ptr);;
  qnetd_client_list_del ptr.

(** [pr_poll_loop_del_prfd]: [-1] when the socket is not in the loop. *)
Definition del_prfd (ptr : nat) : M qnetd_instance Z := λ q,
  if bool_decide (ptr ∈ q_polled q)
  then (Ok 0, set_polled (filter (λ p, p ≠ ptr) (q_polled q)) q)
  else (Ok (-1), q).

Fixpoint pre_poll_loop (l : list nat) : M qnetd_instance Z :=
  match l with
  | [] => mret 0
  | ptr :: client_next =>
      c ← client_at ptr;
      if schedule_disconnect c then
        r ← del_prfd ptr;
        if r =? -1 then mret (-1)
        else
          qnetd_instance_client_disconnect ptr false;;
          pre_poll_loop client_next
      else pre_poll_loop client_next
  end.

Definition qnetd_instance_poll_loop_pre_poll_cb : M qnetd_instance Z :=
  q ← get; pre_poll_loop (q_clients q).

Fixpoint disconnect_all (l : list nat) : M qnetd_instance unit :=
  match l with
  | [] => mret tt
  | ptr :: client_next =>
      qnetd_instance_client_disconnect ptr true;;
      disconnect_all client_next
  end.

Definition qnetd_instance_destroy : M qnetd_instance Z :=
  q ← get;
  disconnect_all (q_clients q);;
  modify (λ q, set_clients [] (set_lobby [] (set_clusters (qnetd_cluster_list_free (q_clusters q)) q)));;
  modify (set_polled []);;
  mret 0.
End instance.
