(* ===== verification/QnetdMsgReceived.v ===== *)
(** What qnetd does with a message of a client (qnetd-client-msg-received.c). *)
From S2P Require Import Prelude Dynar Tlv NodeList Msg SendBuffer QnetdClient QnetdCluster.
From stdpp Require Import list gmap.
From S2P Require Import TimerList TimerInterface QnetdAlgoTimer QnetdAlgorithm QnetdInstance.
Local Open Scope Z_scope.

(** Not a value of the program: a variable is read that was never set. *)
Definition UNINITIALISED : Z := -1007.

Definition qnetd_static_supported_decision_algorithms : list Z :=
  [TLV_DECISION_ALGORITHM_TYPE_TEST; TLV_DECISION_ALGORITHM_TYPE_FFSPLIT;
   TLV_DECISION_ALGORITHM_TYPE_2NODELMS; TLV_DECISION_ALGORITHM_TYPE_LMS].

Section received.
Context {T : Type} `{TimerOps qnetd_timer T}.
Abbreviation instance := (@qnetd_instance T).

(** NSS: the certificate of the peer of a client's socket, whether its name is the cluster's,
    and whether TLS could be started on the socket. *)
Context {Cert : Type} (SSL_PeerCertificate : nat → option Cert).
Context (CERT_VerifyCertName : Cert → option (list byte) → bool).
Context (nss_sock_start_ssl_as_server : nat → bool).
Context (beyond : mem).
Context (settings : qnetd_settings).

Definition is_set {A} (o : option A) : bool := match o with Some _ => true | None => false end.

(** Send an error for a message; [-1] when that fails, too. *)
Definition send_err (ptr : nat) (msg : msg_decoded) (code : Z) : M instance Z :=
  r ← send_to ptr (λ c, qnetd_client_send_err c (is_set (dm_seq_number msg))
                          (default 0 (dm_seq_number msg)) code);
  mret (if negb (r =? 0) then -1 else 0).

(** Create the reply in a buffer of the client and queue it. *)
Definition send_reply (ptr : nat) (create : dynar * heap → Z * (dynar * heap)) : M instance Z :=
  r ← send_to ptr (send_msg create);
  mret (if negb (r =? 0) then -1 else 0).

Definition qnetd_client_msg_received_check_tls (ptr : nat) (msg : msg_decoded) : M instance Z :=
  c ← client_at ptr;
  let '(tls_required, check_certificate) :=
    match tls_supported settings with
    | TLV_TLS_UNSUPPORTED => (false, false)
    | TLV_TLS_SUPPORTED =>
        (false, tls_started c && negb (tls_client_cert_required settings =? 0) &&
                negb (tls_peer_certificate_verified c))
    | TLV_TLS_REQUIRED =>
        (true, negb (tls_client_cert_required settings =? 0) &&
               negb (tls_peer_certificate_verified c))
    end in
  if tls_required && negb (tls_started c) then
    r ← send_err ptr msg TLV_REPLY_ERROR_CODE_TLS_REQUIRED;
    mret (if r =? -1 then -1 else -2)
  else if (check_certificate : bool) then
    match SSL_PeerCertificate ptr with
    | None => mret (-1)
    | Some peer_cert =>
        if negb (CERT_VerifyCertName peer_cert (cluster_name c)) then mret (-1)
        else modify_client ptr (set_tls_peer_certificate_verified true);; mret 0
    end
  else mret 0.

(** How most handlers begin: [next] runs when TLS is as configured and INIT was received. *)
Definition after_tls (ptr : nat) (msg : msg_decoded) (next : M instance Z) : M instance Z :=
  res ← qnetd_client_msg_received_check_tls ptr msg;
  if negb (res =? 0) then mret (if res =? -1 then -1 else 0) else next.

Definition after_init (ptr : nat) (msg : msg_decoded) (next : M instance Z) : M instance Z :=
  after_tls ptr msg (
    c ← client_at ptr;
    if negb (init_received c) then send_err ptr msg TLV_REPLY_ERROR_CODE_INIT_REQUIRED
    else next).

Definition qnetd_client_msg_received_preinit (ptr : nat) (msg : msg_decoded) : M instance Z :=
  match dm_cluster_name msg with
  | Null => send_err ptr msg TLV_REPLY_ERROR_CODE_DOESNT_CONTAIN_REQUIRED_OPTION
  | Dangling => fail NULL_DEREF
  | Valid name =>
      q ← get;
      let '(o, h') := malloc (q_heap q) in
      modify (set_heap h');;
      match o with
      | None =>
          modify_client ptr (QnetdClient.set_cluster_name None);;
          send_err ptr msg TLV_REPLY_ERROR_CODE_INTERNAL_ERROR
      | Some _ =>
          modify_client ptr (λ c, set_preinit_received true (QnetdClient.set_cluster_name (Some name) c));;
          send_reply ptr (msg_create_preinit_reply (is_set (dm_seq_number msg))
            (default 0 (dm_seq_number msg)) (tls_supported settings)
            (tls_client_cert_required settings))
      end
  end.

Definition qnetd_client_msg_received_unexpected_msg (ptr : nat) (msg : msg_decoded) :
    M instance Z := send_err ptr msg TLV_REPLY_ERROR_CODE_UNEXPECTED_MESSAGE.

(** The messages only a server sends. *)
Definition qnetd_client_msg_received_preinit_reply : nat → msg_decoded → M instance Z :=
  qnetd_client_msg_received_unexpected_msg.
Definition qnetd_client_msg_received_server_error : nat → msg_decoded → M instance Z :=
  qnetd_client_msg_received_unexpected_msg.
Definition qnetd_client_msg_received_init_reply : nat → msg_decoded → M instance Z :=
  qnetd_client_msg_received_unexpected_msg.
Definition qnetd_client_msg_received_set_option_reply : nat → msg_decoded → M instance Z :=
  qnetd_client_msg_received_unexpected_msg.
Definition qnetd_client_msg_received_echo_reply : nat → msg_decoded → M instance Z :=
  qnetd_client_msg_received_unexpected_msg.
Definition qnetd_client_msg_received_node_list_reply : nat → msg_decoded → M instance Z :=
  qnetd_client_msg_received_unexpected_msg.
Definition qnetd_client_msg_received_ask_for_vote_reply : nat → msg_decoded → M instance Z :=
  qnetd_client_msg_received_unexpected_msg.
Definition qnetd_client_msg_received_vote_info : nat → msg_decoded → M instance Z :=
  qnetd_client_msg_received_unexpected_msg.
Definition qnetd_client_msg_received_heuristics_change_reply : nat → msg_decoded → M instance Z :=
  qnetd_client_msg_received_unexpected_msg.

Definition qnetd_client_msg_received_starttls (ptr : nat) (msg : msg_decoded) : M instance Z :=
  c ← client_at ptr;
  if negb (preinit_received c) then send_err ptr msg TLV_REPLY_ERROR_CODE_PREINIT_REQUIRED
  else if negb (nss_sock_start_ssl_as_server ptr) then mret (-1)
  else
    modify_client ptr (λ c, set_tls_started true (set_tls_peer_certificate_verified false c));;
    mret 0.

(** ** INIT *)

Fixpoint check_new_client_loop (new_client : qclient) (l : list qclient) : Z :=
  match l with
  | [] => TLV_REPLY_ERROR_CODE_NO_ERROR
  | client :: l' =>
      if negb (tlv_tie_breaker_eq (tie_breaker new_client) (tie_breaker client)) then
        TLV_REPLY_ERROR_CODE_TIE_BREAKER_DIFFERS_FROM_OTHER_NODES
      else if negb (decision_algorithm new_client =? decision_algorithm client) then
        TLV_REPLY_ERROR_CODE_ALGORITHM_DIFFERS_FROM_OTHER_NODES
      else if client_node_id new_client =? client_node_id client then
        TLV_REPLY_ERROR_CODE_DUPLICATE_NODE_ID
      else check_new_client_loop new_client l'
  end.

(** A client without a name reads a NULL pointer here or when its cluster is created. *)
Definition qnetd_client_msg_received_init_check_new_client (ptr : nat) : M instance Z :=
  new_client ← client_at ptr;
  q ← get;
  match cluster_name new_client with
  | None => fail NULL_DEREF
  | Some name =>
      mret (match qnetd_cluster_list_find_by_name (q_clusters q) name with
            | None => TLV_REPLY_ERROR_CODE_NO_ERROR
            | Some (_, cluster) => check_new_client_loop new_client (client_list cluster)
            end)
  end.

(** Store an option of the message; without the option that is the first error. *)
Definition take_option {A} (ptr : nat) (reply_error_code : Z) (o : option A) (zero : A)
    (store : A → qclient → qclient) : M instance Z :=
  if (reply_error_code =? TLV_REPLY_ERROR_CODE_NO_ERROR) && negb (is_set o) then
    mret TLV_REPLY_ERROR_CODE_DOESNT_CONTAIN_REQUIRED_OPTION
  else modify_client ptr (store (default zero o));; mret reply_error_code.

Definition heartbeat_valid (v : Z) : bool :=
  negb ((v <? heartbeat_interval_min settings) || (heartbeat_interval_max settings <? v)).

Definition take_heartbeat_interval (ptr : nat) (reply_error_code : Z) (o : option Z) :
    M instance Z :=
  if (reply_error_code =? TLV_REPLY_ERROR_CODE_NO_ERROR) && negb (is_set o) then
    mret TLV_REPLY_ERROR_CODE_DOESNT_CONTAIN_REQUIRED_OPTION
  else if negb (heartbeat_valid (default 0 o)) then
    mret TLV_REPLY_ERROR_CODE_INVALID_HEARTBEAT_INTERVAL
  else
    modify_client ptr (QnetdClient.set_heartbeat_interval (default 0 o));;
    r ← qnetd_client_dpd_timer_update_interval settings ptr;
    mret (if negb (r =? 0) then TLV_REPLY_ERROR_CODE_INVALID_HEARTBEAT_INTERVAL
          else reply_error_code).

Definition take_decision_algorithm (ptr : nat) (reply_error_code : Z) (o : option Z) :
    M instance Z :=
  if (reply_error_code =? TLV_REPLY_ERROR_CODE_NO_ERROR) && negb (is_set o) then
    mret TLV_REPLY_ERROR_CODE_DOESNT_CONTAIN_REQUIRED_OPTION
  else
    let decision_algorithm := default 0 o in
    modify_client ptr (QnetdClient.set_decision_algorithm decision_algorithm);;
    mret (if existsb (λ a, a =? decision_algorithm) qnetd_static_supported_decision_algorithms
          then reply_error_code else TLV_REPLY_ERROR_CODE_UNSUPPORTED_DECISION_ALGORITHM).

(** [client->cluster = qnetd_cluster_list_add_client(...)]. *)
Definition join_cluster (ptr : nat) : M instance Z := λ q,
  match find_at ptr (connected_clients q) with
  | None => (Err NULL_DEREF, q)
  | Some c =>
      match qnetd_cluster_list_add_client c (q_clusters q, q_heap q) with
      | (Err _, (clist, h')) =>
          (Ok TLV_REPLY_ERROR_CODE_INTERNAL_ERROR, set_heap h' (set_clusters clist q))
      | (Ok _, (clist, h')) =>
          match cluster_of ptr q with
          | Some _ => (Err LIST_CORRUPTION, q)
          | None =>
              (Ok TLV_REPLY_ERROR_CODE_NO_ERROR,
               set_heap h' (set_clusters clist
                 (set_lobby (filter (λ c, client_ptr c ≠ ptr) (q_lobby q)) q)))
          end
      end
  end.

(** The options of INIT, in the order of the code; the last error is the one that counts. *)
Definition init_options (ptr : nat) (msg : msg_decoded) : M instance Z :=
  c ← client_at ptr;
  let code := if preinit_received c then TLV_REPLY_ERROR_CODE_NO_ERROR
              else TLV_REPLY_ERROR_CODE_PREINIT_REQUIRED in
  code ← take_option ptr code (dm_node_id msg) 0
           (λ v c, set_client_node_id v (set_client_node_id_set true c));
  code ← take_option ptr code (dm_ring_id msg) ring_id_zero set_last_ring_id;
  code ← take_heartbeat_interval ptr code (dm_heartbeat_interval msg);
  code ← take_option ptr code (dm_tie_breaker msg) (mk_tie_breaker 0 0) QnetdClient.set_tie_breaker;
  take_decision_algorithm ptr code (dm_decision_algorithm msg).

(** With valid options: join the cluster and start the algorithm. *)
Definition init_join (ptr : nat) : M instance Z :=
  modify_client ptr (set_keep_active_partition_tie_breaker
    (default_keep_active_partition_tie_breaker settings));;
  code ← qnetd_client_msg_received_init_check_new_client ptr;
  if negb (code =? TLV_REPLY_ERROR_CODE_NO_ERROR) then mret code
  else
    code ← join_cluster ptr;
    if negb (code =? TLV_REPLY_ERROR_CODE_NO_ERROR) then mret code
    else on_cluster ptr (qnetd_algorithm_client_init ptr).

Definition ptr_is_null {A} (p : ptr A) : bool := match p with Null => true | _ => false end.

(** The reply's code: with [NO_ERROR] the client is initialised. *)
Definition init_accept (ptr : nat) (msg : msg_decoded) : M instance Z :=
  code ← init_options ptr msg;
  reply_error_code ← (if code =? TLV_REPLY_ERROR_CODE_NO_ERROR then init_join ptr else mret code);
  (if reply_error_code =? TLV_REPLY_ERROR_CODE_NO_ERROR
   then modify_client ptr (set_init_received true) else mret tt);;
  mret reply_error_code.

Definition qnetd_client_msg_received_init (ptr : nat) (msg : msg_decoded) : M instance Z :=
  after_tls ptr msg (
    reply_error_code ← init_accept ptr msg;
    send_reply ptr (msg_create_init_reply (is_set (dm_seq_number msg))
      (default 0 (dm_seq_number msg)) reply_error_code
      (if ptr_is_null (dm_supported_messages msg) then None else Some msg_get_supported_messages)
      (if ptr_is_null (dm_supported_options msg) then None else Some tlv_get_supported_options)
      (max_client_receive_size settings) (max_client_send_size settings)
      (Some qnetd_static_supported_decision_algorithms))).

(** ** Messages after INIT *)

Definition qnetd_client_msg_received_set_option (ptr : nat) (msg : msg_decoded) : M instance Z :=
  after_init ptr msg (
    ok ← (match dm_heartbeat_interval msg with
          | None => mret true
          | Some v =>
              if negb (heartbeat_valid v) then mret false
              else
                modify_client ptr (QnetdClient.set_heartbeat_interval v);;
                r ← qnetd_client_dpd_timer_update_interval settings ptr;
                mret (r =? 0)
          end);
    if negb ok then send_err ptr msg TLV_REPLY_ERROR_CODE_INVALID_HEARTBEAT_INTERVAL
    else
      (match dm_keep_active_partition_tie_breaker msg with
       | None => mret tt
       | Some v => modify_client ptr (set_keep_active_partition_tie_breaker v)
       end);;
      c ← client_at ptr;
      send_reply ptr (msg_create_set_option_reply (is_set (dm_seq_number msg))
        (default 0 (dm_seq_number msg))
        (is_set (dm_heartbeat_interval msg)) (heartbeat_interval c)
        (is_set (dm_keep_active_partition_tie_breaker msg)) (keep_active_partition_tie_breaker c))).

Definition qnetd_client_msg_received_echo_request (ptr : nat) (msg : msg_decoded)
    (msg_orig : dynar) : M instance Z :=
  after_init ptr msg (send_reply ptr (msg_create_echo_reply msg_orig)).

(** [last_sent_vote], and [last_sent_ack_nack_vote] when it is one of the two. *)
Definition store_result_vote (ptr : nat) (result_vote : tlv_vote) : M instance unit :=
  modify_client ptr (λ c,
    let c := set_last_sent_vote result_vote c in
    if bool_decide (result_vote = TLV_VOTE_ACK) || bool_decide (result_vote = TLV_VOTE_NACK)
    then set_last_sent_ack_nack_vote result_vote c else c).

(** Call the algorithm for one of the lists; [None]: the message lacks an option of its own. *)
Definition node_list_call (ptr : nat) (msg_seq_num : Z) (type : tlv_node_list_type)
    (msg : msg_decoded) : M instance (option (Z * option tlv_vote)) :=
  match type with
  | TLV_NODE_LIST_TYPE_INITIAL_CONFIG | TLV_NODE_LIST_TYPE_CHANGED_CONFIG =>
      r ← on_cluster ptr (qnetd_algorithm_config_node_list_received ptr msg_seq_num
            (dm_config_version msg) (dm_nodes msg)
            (bool_decide (type = TLV_NODE_LIST_TYPE_INITIAL_CONFIG)));
      mret (Some r)
  | TLV_NODE_LIST_TYPE_MEMBERSHIP =>
      match dm_ring_id msg with
      | None => mret None
      | Some ring_id =>
          r ← on_cluster ptr (qnetd_algorithm_membership_node_list_received ptr msg_seq_num
                ring_id (dm_nodes msg) (dm_heuristics msg));
          mret (Some r)
      end
  | TLV_NODE_LIST_TYPE_QUORUM =>
      match dm_quorate msg with
      | None => mret None
      | Some quorate =>
          r ← on_cluster ptr (qnetd_algorithm_quorum_node_list_received ptr msg_seq_num
                quorate (dm_nodes msg));
          mret (Some r)
      end
  end.

(** Free the stored list and copy the received one; [false] when memory runs out. *)
Definition store_list (ptr : nat) (set : node_list → qclient → qclient) (nodes : node_list) :
    M instance bool :=
  q ← get;
  let '(r, (l, h')) := node_list_clone nodes (node_list_init, q_heap q) in
  modify (set_heap h');;
  modify_client ptr (set l);;
  mret (match r with Ok _ => true | Err _ => false end).

Definition store_node_list (ptr : nat) (type : tlv_node_list_type) (msg : msg_decoded) :
    M instance bool :=
  match type with
  | TLV_NODE_LIST_TYPE_INITIAL_CONFIG | TLV_NODE_LIST_TYPE_CHANGED_CONFIG =>
      ok ← store_list ptr set_configuration_node_list (dm_nodes msg);
      if negb ok then mret false
      else modify_client ptr (QnetdClient.set_config_version (dm_config_version msg));; mret true
  | TLV_NODE_LIST_TYPE_MEMBERSHIP =>
      ok ← store_list ptr set_last_membership_node_list (dm_nodes msg);
      if negb ok then mret false
      else
        modify_client ptr (λ c,
          set_last_heuristics (dm_heuristics msg) (set_last_membership_heuristics (dm_heuristics msg)
            (set_last_ring_id (default ring_id_zero (dm_ring_id msg)) c)));;
        mret true
  | TLV_NODE_LIST_TYPE_QUORUM => store_list ptr set_last_quorum_node_list (dm_nodes msg)
  end.

Definition qnetd_client_msg_received_node_list (ptr : nat) (msg : msg_decoded) : M instance Z :=
  after_init ptr msg (
    match dm_node_list_type msg, dm_seq_number msg with
    | Some type, Some msg_seq_num =>
        r ← node_list_call ptr msg_seq_num type msg;
        match r with
        | None => send_err ptr msg TLV_REPLY_ERROR_CODE_DOESNT_CONTAIN_REQUIRED_OPTION
        | Some (reply_error_code, vote) =>
            let result_vote := default TLV_VOTE_NO_CHANGE vote in
            if negb (reply_error_code =? TLV_REPLY_ERROR_CODE_NO_ERROR) then
              send_err ptr msg reply_error_code
            else
              stored ← store_node_list ptr type msg;
              if negb stored then mret (-1)
              else
                store_result_vote ptr result_vote;;
                c ← client_at ptr;
                send_reply ptr (msg_create_node_list_reply msg_seq_num type (last_ring_id c)
                                  result_vote)
        end
    | _, _ => send_err ptr msg TLV_REPLY_ERROR_CODE_DOESNT_CONTAIN_REQUIRED_OPTION
    end).

Definition qnetd_client_msg_received_ask_for_vote (ptr : nat) (msg : msg_decoded) : M instance Z :=
  after_init ptr msg (
    match dm_seq_number msg with
    | None => send_err ptr msg TLV_REPLY_ERROR_CODE_DOESNT_CONTAIN_REQUIRED_OPTION
    | Some msg_seq_num =>
        '(reply_error_code, vote) ←
          on_cluster ptr (qnetd_algorithm_ask_for_vote_received ptr msg_seq_num);
        if negb (reply_error_code =? TLV_REPLY_ERROR_CODE_NO_ERROR) then
          send_err ptr msg reply_error_code
        else
          match vote with
          | None => fail UNINITIALISED
          | Some result_vote =>
              store_result_vote ptr result_vote;;
              c ← client_at ptr;
              send_reply ptr (msg_create_ask_for_vote_reply msg_seq_num (last_ring_id c) result_vote)
          end
    end).

Definition qnetd_client_msg_received_vote_info_reply (ptr : nat) (msg : msg_decoded) :
    M instance Z :=
  after_init ptr msg (
    match dm_seq_number msg with
    | None => send_err ptr msg TLV_REPLY_ERROR_CODE_DOESNT_CONTAIN_REQUIRED_OPTION
    | Some msg_seq_num =>
        reply_error_code ← on_cluster ptr (qnetd_algorithm_vote_info_reply_received ptr msg_seq_num);
        if negb (reply_error_code =? TLV_REPLY_ERROR_CODE_NO_ERROR) then
          send_err ptr msg reply_error_code
        else mret 0
    end).

Definition qnetd_client_msg_received_heuristics_change (ptr : nat) (msg : msg_decoded) :
    M instance Z :=
  after_init ptr msg (
    match dm_seq_number msg with
    | Some msg_seq_num =>
        if bool_decide (dm_heuristics msg = TLV_HEURISTICS_UNDEFINED) then
          send_err ptr msg TLV_REPLY_ERROR_CODE_DOESNT_CONTAIN_REQUIRED_OPTION
        else
          '(reply_error_code, vote) ←
            on_cluster ptr (qnetd_algorithm_heuristics_change_received ptr msg_seq_num
                              (dm_heuristics msg));
          if negb (reply_error_code =? TLV_REPLY_ERROR_CODE_NO_ERROR) then
            send_err ptr msg reply_error_code
          else
            match vote with
            | None => fail UNINITIALISED
            | Some result_vote =>
                store_result_vote ptr result_vote;;
                modify_client ptr (λ c, set_last_heuristics (dm_heuristics msg)
                  (set_last_regular_heuristics (dm_heuristics msg) c));;
                c ← client_at ptr;
                send_reply ptr (msg_create_heuristics_change_reply msg_seq_num (last_ring_id c)
                                  (dm_heuristics msg) result_vote)
            end
    | None => send_err ptr msg TLV_REPLY_ERROR_CODE_DOESNT_CONTAIN_REQUIRED_OPTION
    end).

(** ** All messages *)

Definition msg_received_dispatch (ptr : nat) (msg : msg_decoded) (msg_orig : dynar) :
    M instance Z :=
  let type := dm_type msg in
  if type =? MSG_TYPE_PREINIT then
    qnetd_client_msg_received_preinit ptr msg
  else if type =? MSG_TYPE_PREINIT_REPLY then
    qnetd_client_msg_received_preinit_reply ptr msg
  else if type =? MSG_TYPE_STARTTLS then
    qnetd_client_msg_received_starttls ptr msg
  else if type =? MSG_TYPE_INIT then
    qnetd_client_msg_received_init ptr msg
  else if type =? MSG_TYPE_INIT_REPLY then
    qnetd_client_msg_received_init_reply ptr msg
  else if type =? MSG_TYPE_SERVER_ERROR then
    qnetd_client_msg_received_server_error ptr msg
  else if type =? MSG_TYPE_SET_OPTION then
    qnetd_client_msg_received_set_option ptr msg
  else if type =? MSG_TYPE_SET_OPTION_REPLY then
    qnetd_client_msg_received_set_option_reply ptr msg
  else if type =? MSG_TYPE_ECHO_REQUEST then
    qnetd_client_msg_received_echo_request ptr msg msg_orig
  else if type =? MSG_TYPE_ECHO_REPLY then
    qnetd_client_msg_received_echo_reply ptr msg
  else if type =? MSG_TYPE_NODE_LIST then
    qnetd_client_msg_received_node_list ptr msg
  else if type =? MSG_TYPE_NODE_LIST_REPLY then
    qnetd_client_msg_received_node_list_reply ptr msg
  else if type =? MSG_TYPE_ASK_FOR_VOTE then
    qnetd_client_msg_received_ask_for_vote ptr msg
  else if type =? MSG_TYPE_ASK_FOR_VOTE_REPLY then
    qnetd_client_msg_received_ask_for_vote_reply ptr msg
  else if type =? MSG_TYPE_VOTE_INFO then
    qnetd_client_msg_received_vote_info ptr msg
  else if type =? MSG_TYPE_VOTE_INFO_REPLY then
    qnetd_client_msg_received_vote_info_reply ptr msg
  else if type =? MSG_TYPE_HEURISTICS_CHANGE then
    qnetd_client_msg_received_heuristics_change ptr msg
  else if type =? MSG_TYPE_HEURISTICS_CHANGE_REPLY then
    qnetd_client_msg_received_heuristics_change_reply ptr msg
  else send_err ptr msg TLV_REPLY_ERROR_CODE_UNSUPPORTED_MESSAGE.

Definition qnetd_client_msg_received (ptr : nat) : M instance Z :=
  qnetd_client_dpd_timer_reschedule ptr;;
  c ← client_at ptr;
  q ← get;
  let '(res, (msg, h')) := msg_decode beyond (receive_buffer c) (msg_decoded_init, q_heap q) in
  modify (set_heap h');;
  if negb (res =? 0) then send_err ptr msg TLV_REPLY_ERROR_CODE_ERROR_DECODING_MSG
  else msg_received_dispatch ptr msg (receive_buffer c).
End received.
