(* ===== verification/QnetdClientNet.v ===== *)
(** The sockets of the clients of qnetd: reading, writing and the callbacks of the poll loop
    (qnetd-client-net.c).  NSPR is a parameter, as for messages on a socket. *)
From S2P Require Import Prelude Dynar Tlv NodeList Msg Msgio SendBuffer QnetdClient QnetdCluster.
From stdpp Require Import list gmap.
From S2P Require Import TimerList TimerInterface QnetdAlgoTimer QnetdAlgorithm QnetdInstance.
From S2P Require Import QnetdMsgReceived.
Local Open Scope Z_scope.

Section client_net.
Context {T : Type} `{TimerOps qnetd_timer T}.
Context {Cert : Type} (SSL_PeerCertificate : nat → option Cert).
Context (CERT_VerifyCertName : Cert → option (list byte) → bool).
Context (nss_sock_start_ssl_as_server : nat → bool).
Context {sock : Type}.
Context (PR_Send : sock → list byte → Z * sock).
Context (PR_Recv : sock → Z → Z * list byte * sock).
Context (PR_GetError : sock → Z) (PR_WOULD_BLOCK_ERROR : Z).
Context (beyond : mem).
Context (settings : qnetd_settings).

(** The daemon and the socket of the client of the event. *)
Abbreviation state := (@qnetd_instance T * sock)%type.

Definition on_instance {A} (m : M (@qnetd_instance T) A) : M state A := λ '(q, s),
  let '(r, q') := m q in (r, (q', s)).

(** [send_buffer->msg_already_sent_bytes] of the first buffer. *)
Definition set_active_sent (v : Z) (s : send_buffer_list) : send_buffer_list :=
  mk_sblist (max_list_entries s) (allocated_list_entries s) (max_buffer_size s)
    (alter (λ e, mk_sbe (sb_buffer e) v) 0%nat (sb_list s)) (sb_free_list s).

Definition qnetd_client_net_write_finished (ptr : nat) : M state Z := mret 0.

Definition qnetd_client_net_write (ptr : nat) : M state Z :=
  c ← on_instance (client_at ptr);
  match send_buffer_list_get_active (send_buffers c) with
  | None => mret (-1)
  | Some send_buffer =>
      '(_, s) ← get;
      let '(res, (s', already)) :=
        msgio_write PR_Send PR_GetError PR_WOULD_BLOCK_ERROR s (sb_buffer send_buffer)
          (msg_already_sent_bytes send_buffer) in
      modify (λ '(q, _), (q, s'));;
      on_instance (modify_client ptr (λ c, set_send_buffers
        (set_active_sent already (send_buffers c)) c));;
      fin ← (if res =? 1 then
               on_instance (modify_client ptr (λ c,
                 set_send_buffers (send_buffer_list_delete 0 (send_buffers c)) c));;
               qnetd_client_net_write_finished ptr
             else mret 0);
      if fin =? -1 then mret (-1)
      else if res =? -1 then mret (-1)
      else if res =? -2 then mret (-1)
      else mret 0
  end.

(** [msgio_read] on the fields of the client. *)
Definition client_msgio_read (ptr : nat) : M state Z :=
  c ← on_instance (client_at ptr);
  '(q, s) ← get;
  let '(res, st) := msgio_read PR_Recv PR_GetError PR_WOULD_BLOCK_ERROR beyond
    (mk_msgio s (receive_buffer c) (msg_already_received_bytes c) (client_skipping_msg c)
       (q_heap q)) in
  modify (λ '(q, _), (set_heap (io_heap st) q, io_sock st));;
  on_instance (modify_client ptr (λ c,
    set_client_skipping_msg (skipping_msg st)
      (set_msg_already_received_bytes (already_received_bytes st)
         (set_receive_buffer (io_msg st) c))));;
  mret res.

(** The message is dealt with: get ready for the next one. *)
Definition reset_received (c : qclient) : qclient :=
  set_receive_buffer (dynar_clean (receive_buffer c))
    (set_msg_already_received_bytes 0
       (set_skipping_msg_reason TLV_REPLY_ERROR_CODE_NO_ERROR (set_client_skipping_msg false c))).

Definition qnetd_client_net_read (ptr : nat) : M state Z :=
  res ← client_msgio_read ptr;
  let skip reason := on_instance (modify_client ptr (set_skipping_msg_reason reason));; mret 0 in
  if res =? 0 then mret 0
  else if (res =? -1) || (res =? -2) || (res =? -3) then mret (-1)
  else if res =? -4 then skip TLV_REPLY_ERROR_CODE_ERROR_DECODING_MSG
  else if res =? -5 then skip TLV_REPLY_ERROR_CODE_UNSUPPORTED_MESSAGE
  else if res =? -6 then skip TLV_REPLY_ERROR_CODE_MESSAGE_TOO_LONG
  else if res =? 1 then
    c ← on_instance (client_at ptr);
    r ← on_instance (
          if negb (client_skipping_msg c) then
            qnetd_client_msg_received SSL_PeerCertificate CERT_VerifyCertName
              nss_sock_start_ssl_as_server beyond settings ptr
          else send_to ptr (λ c, qnetd_client_send_err c false 0 (skipping_msg_reason c)));
    let ret_val := if client_skipping_msg c then (if negb (r =? 0) then -1 else 0)
                   else (if r =? -1 then -1 else 0) in
    on_instance (modify_client ptr reset_received);;
    mret ret_val
  else fail EXIT.

(** ** Callbacks of the poll loop *)

Definition POLLIN : Z := 1.
Definition POLLOUT : Z := 4.

(** The result and the events. *)
Definition qnetd_client_net_socket_poll_loop_set_events_cb (ptr : nat) (events : Z) :
    M state (Z * Z) :=
  c ← on_instance (client_at ptr);
  if schedule_disconnect c then mret (-1, events)
  else mret (0, if send_buffer_list_empty (send_buffers c) then events
                else Z.lor events POLLOUT).

Definition unless_disconnecting (ptr : nat) (m : M state Z) : M state Z :=
  c ← on_instance (client_at ptr);
  (if negb (schedule_disconnect c) then
     r ← m;
     if r =? -1 then on_instance (modify_client ptr (set_schedule_disconnect true)) else mret tt
   else mret tt);;
  mret 0.

Definition qnetd_client_net_socket_poll_loop_read_cb (ptr : nat) : M state Z :=
  unless_disconnecting ptr (qnetd_client_net_read ptr).

Definition qnetd_client_net_socket_poll_loop_write_cb (ptr : nat) : M state Z :=
  unless_disconnecting ptr (qnetd_client_net_write ptr).

Definition qnetd_client_net_socket_poll_loop_err_cb (ptr : nat) : M state Z :=
  unless_disconnecting ptr (mret (-1)).

(** ** A new connection

    What the calls of the operating system answer: the connection, the address of the memory
    for the client, and whether the calls for the new socket succeed. *)
Record accept_outcome := mk_accept {
  ao_accepted : bool;
  ao_non_blocking : bool;
  ao_address_string : bool;
  ao_client_ptr : nat
}.

(** [pr_poll_loop_add_prfd] for a socket that is not in the loop. *)
Definition add_prfd (ptr : nat) : M (@qnetd_instance T) Z := λ q,
  if bool_decide (ptr ∈ q_polled q) then (Ok (-1), q)
  else
    match malloc (q_heap q) with
    | (None, h') => (Ok (-1), set_heap h' q)
    | (Some _, h') => (Ok 0, set_heap h' (set_polled (q_polled q ++ [ptr]) q))
    end.

Definition take_memory : M (@qnetd_instance T) bool := λ q,
  let '(o, h') := malloc (q_heap q) in
  (Ok (match o with Some _ => true | None => false end), set_heap h' q).

Definition qnetd_client_net_accept (o : accept_outcome) : M (@qnetd_instance T) Z :=
  let ptr := ao_client_ptr o in
  if negb (ao_accepted o) then mret (-1)
  else if negb (ao_non_blocking o) then mret (-1)
  else
    q ← get;
    if negb (max_clients settings =? 0) &&
       (max_clients settings <=? qnetd_client_list_no_clients q) then mret (-1)
    else
      client_addr_str ← take_memory;
      if negb client_addr_str then mret (-1)
      else if negb (ao_address_string o) then mret (-1)
      else
        client ← qnetd_client_list_add settings ptr;
        match client with
        | None => mret (-2)
        | Some _ =>
            r ← add_prfd ptr;
            if r =? -1 then qnetd_client_list_del ptr;; mret (-2)
            else
              r ← qnetd_client_dpd_timer_init settings ptr;
              if r =? -1 then del_prfd ptr;; qnetd_client_list_del ptr;; mret (-2)
              else mret 0
        end.
End client_net.
