(* ===== verification/QnetdFrame.v ===== *)
(** What the handlers of all decision algorithms leave alone: the clients of the cluster, in
    their order, with everything but their votes, their queue and the data of the algorithm;
    and a timer runs exactly for the handle of a client. *)
From S2P Require Import Prelude Dynar Tlv NodeList Msg SendBuffer QnetdClient QnetdCluster.
From stdpp Require Import list gmap.
From S2P Require Import TimerList TimerInterface QnetdAlgoTimer AlgoUtils QnetdAlgorithm.
From S2P Require AlgoFfsplit AlgoLms Algo2NodeLms AlgoTest.
Local Open Scope Z_scope.

(** ** The handles of the timers *)

(** The address of a client, and the pointers to its two timers. *)
Abbreviation timer_handles := (nat * option nat * option nat)%type.

Definition handles {D} (c : @qnetd_client D) : timer_handles :=
  (client_ptr c, algo_timer c, dpd_timer c).

(** The fields a decision algorithm does not change. *)
Definition core {D} (c : @qnetd_client D) : @qnetd_client unit :=
  with_data None (set_send_buffers (send_buffer_list_init 0 0) (set_algo_timer None
    (set_algo_timer_vote_info_msq_seq_number 0 (set_schedule_disconnect false
      (set_last_sent_vote TLV_VOTE_UNDEFINED (set_last_sent_ack_nack_vote TLV_VOTE_UNDEFINED c)))))).

Section agree.
Context {T : Type} `{TimerLaws qnetd_timer T}.

(** A timer calls [f] exactly when it is the one a client's handle points to. *)
Definition owns (h : timer_handles) (f : qnetd_timer) (p : nat) : Prop :=
  let '(ptr, a, d) := h in
  f = ALGO_TIMER ptr ∧ a = Some p ∨ f = DPD_TIMER ptr ∧ d = Some p.

Record agree (hs : list timer_handles) (t : T) : Prop := {
  ag_inv : timers_inv t;
  ag_running : ∀ p f, timers_running t !! p = Some f ↔ ∃ h, h ∈ hs ∧ owns h f p
}.

Lemma agree_perm hs hs' t : hs ≡ₚ hs' → agree hs t → agree hs' t.
Proof.
  intros Hp [Hi Hr]. split; [done|]. intros p f. rewrite Hr. by setoid_rewrite Hp.
Qed.

#[export] Instance agree_proper : Proper ((≡ₚ) ==> (=) ==> iff) agree.
Proof. intros hs hs' Hp t ? <-. split; by apply agree_perm. Qed.

Lemma agree_running hs t t' :
  agree hs t → timers_inv t' → timers_running t' = timers_running t → agree hs t'.
Proof. intros [_ Hr] Hi E. split; [done|]. by rewrite E. Qed.

Definition set_algo_handle (v : option nat) (h : timer_handles) : timer_handles :=
  let '(ptr, _, d) := h in (ptr, v, d).
Definition set_dpd_handle (v : option nat) (h : timer_handles) : timer_handles :=
  let '(ptr, a, _) := h in (ptr, a, v).

(** Two owners of one timer are the same client. *)
Lemma owns_fun h f f' p t hs :
  agree hs t → h ∈ hs → owns h f p → ∀ h', h' ∈ hs → owns h' f' p → f' = f.
Proof.
  intros Ha Hh Ho h' Hh' Ho'.
  assert (E : timers_running t !! p = Some f) by (apply Ha; eauto).
  assert (E' : timers_running t !! p = Some f') by (apply Ha; eauto).
  congruence.
Qed.

Definition callback_of (k : bool) (ptr : nat) : qnetd_timer :=
  if k then ALGO_TIMER ptr else DPD_TIMER ptr.
Definition handle_of (k : bool) (h : timer_handles) : option nat :=
  let '(_, a, d) := h in if k then a else d.
Definition set_handle (k : bool) (v : option nat) (h : timer_handles) : timer_handles :=
  if k then set_algo_handle v h else set_dpd_handle v h.

Lemma owns_iff h f p :
  owns h f p ↔ ∃ k, f = callback_of k (fst (fst h)) ∧ handle_of k h = Some p.
Proof.
  destruct h as [[ptr a] d]. split.
  - intros [[-> ->]|[-> ->]]; [exists true|exists false]; done.
  - intros ([] & -> & E); [left|right]; done.
Qed.

(** The timer of a handle is deleted. *)
Lemma agree_delete k h hs t t' p :
  agree (h :: hs) t → (fst (fst h)) ∉ (λ h, fst (fst h)) <$> hs →
  handle_of k h = Some p → timers_inv t' →
  timers_running t' = delete p (timers_running t) →
  agree (set_handle k None h :: hs) t'.
Proof.
  intros Ha Hni Hk Hi Hr. split; [done|]. intros q f. rewrite Hr.
  assert (Hp : owns h (callback_of k (fst (fst h))) p) by (apply owns_iff; eauto).
  rewrite lookup_delete_Some, (ag_running _ _ Ha). split.
  - intros (Hne & h' & [->|Hh']%elem_of_cons & Ho); [|exists h'; split; [by right|done]].
    exists (set_handle k None h). split; [left|].
    destruct h as [[ptr a] d], k, Ho as [[-> E]|[-> E]]; cbn in *; simplify_eq; tauto.
  - intros (h' & Hh' & Ho).
    assert (Ho' : ∃ h'', h'' ∈ h :: hs ∧ owns h'' f q ∧ (h'' = h → f ≠ callback_of k (fst (fst h)))).
    { apply elem_of_cons in Hh' as [->|Hh'].
      - exists h. split; [left|]. destruct h as [[ptr a] d], k, Ho as [[-> E]|[-> E]]; cbn in *;
          try discriminate; (split; [tauto|intros _; congruence]).
      - exists h'. split; [by right|]. split; [done|]. intros ->. destruct Hni.
        by apply (list_elem_of_fmap_2 (λ h, fst (fst h))). }
    destruct Ho' as (h'' & Hh'' & Ho'' & Hne). split; [|by exists h''].
    intros <-. pose proof (owns_fun h _ f p t (h :: hs) Ha ltac:(left) Hp h'' Hh'' Ho'') as ->.
    destruct (decide (h'' = h)) as [->|Hne']; [by apply Hne|].
    apply elem_of_cons in Hh'' as [->|Hh'']; [done|]. apply owns_iff in Ho'' as (k' & Hc & _).
    destruct Hni. assert (fst (fst h) = fst (fst h'')) as -> by (destruct k, k'; cbn in Hc; congruence).
    by apply (list_elem_of_fmap_2 (λ h, fst (fst h))).
Qed.

(** A new timer for a handle that is NULL. *)
Lemma agree_insert k h hs t t' p :
  agree (h :: hs) t → handle_of k h = None → timers_inv t' → timers_running t !! p = None →
  timers_running t' = <[p := callback_of k (fst (fst h))]> (timers_running t) →
  agree (set_handle k (Some p) h :: hs) t'.
Proof.
  intros Ha Hk Hi Hfresh Hr. split; [done|]. intros q f. rewrite Hr, lookup_insert_Some. split.
  - intros [[-> <-]|[Hne Hq]].
    + exists (set_handle k (Some q) h). split; [left|]. apply owns_iff. exists k.
      destruct h as [[ptr a] d], k; done.
    + apply (ag_running _ _ Ha) in Hq as (h' & [->|Hh']%elem_of_cons & Ho);
        [|exists h'; split; [by right|done]].
      exists (set_handle k (Some p) h). split; [left|].
      destruct h as [[ptr a] d], k, Ho as [[-> E]|[-> E]]; cbn in *; simplify_eq; tauto.
  - intros (h' & [->|Hh']%elem_of_cons & Ho).
    + apply owns_iff in Ho as (k' & -> & E). destruct (decide (k' = k)) as [->|Hne].
      * left. destruct h as [[ptr a] d], k; cbn in *; simplify_eq; done.
      * right. assert (Hq : timers_running t !! q = Some (callback_of k' (fst (fst h)))).
        { apply Ha. exists h. split; [left|]. apply owns_iff. exists k'. split; [done|].
          destruct h as [[ptr a] d], k, k'; done. }
        split; [congruence|]. destruct h as [[ptr a] d], k, k'; done.
    + right. assert (Hq : timers_running t !! q = Some f) by (apply Ha; exists h'; split; [by right|done]).
      split; [congruence|done].
Qed.
End agree.

(** ** Handlers that keep the frame *)

Section quiet.
Context {T D C : Type} `{TimerLaws qnetd_timer T}.
Abbreviation client := (@qnetd_client D).
Abbreviation cluster := (@qnetd_cluster D C).
Abbreviation state := (@algo_state D C T).

(** The handles of the clients of the cluster. *)
Definition handles_of (cl : cluster) : list timer_handles := handles <$> client_list cl.

Record framed (cl cl' : cluster) : Prop := {
  fr_name : cl_name cl' = cl_name cl;
  fr_core : core <$> client_list cl' = core <$> client_list cl
}.

Definition ptrs_of (hs : list timer_handles) : list nat := (λ h, fst (fst h)) <$> hs.

(** Whatever other clients there are ([R]), their timers and handles still agree. *)
Definition quiet {A} (m : M state A) : Prop := ∀ R cl t h a cl' t' h',
  NoDup (ptrs_of (handles_of cl ++ R)) → agree (handles_of cl ++ R) t →
  m (cl, (t, h)) = (Ok a, (cl', (t', h'))) →
  framed cl cl' ∧ agree (handles_of cl' ++ R) t'.

Lemma framed_refl cl : framed cl cl.
Proof. done. Qed.

Lemma framed_trans cl1 cl2 cl3 : framed cl1 cl2 → framed cl2 cl3 → framed cl1 cl3.
Proof. intros [] []. split; congruence. Qed.

Lemma core_ptr (c c' : client) : core c' = core c → client_ptr c' = client_ptr c.
Proof. intros E. apply (f_equal client_ptr) in E. by destruct c, c'. Qed.

Lemma framed_ptrs cl cl' : framed cl cl' → client_ptr <$> client_list cl' = client_ptr <$> client_list cl.
Proof.
  intros [_ E]. apply (f_equal (fmap client_ptr)) in E. rewrite <-!list_fmap_compose in E.
  erewrite (list_fmap_ext _ _ (client_list cl')), (list_fmap_ext _ _ (client_list cl)) in E; [exact E|..];
    intros ? [] _; done.
Qed.

Lemma ptrs_of_handles (cl : cluster) : ptrs_of (handles_of cl) = client_ptr <$> client_list cl.
Proof. unfold ptrs_of, handles_of. by rewrite <-list_fmap_compose. Qed.

Lemma framed_NoDup R cl cl' :
  framed cl cl' → NoDup (ptrs_of (handles_of cl ++ R)) → NoDup (ptrs_of (handles_of cl' ++ R)).
Proof.
  unfold ptrs_of. rewrite !fmap_app. intros E. fold (ptrs_of (handles_of cl)) (ptrs_of (handles_of cl')).
  by rewrite !ptrs_of_handles, (framed_ptrs _ _ E).
Qed.

Lemma quiet_ret {A} (a : A) : quiet (mret a).
Proof. intros R cl t h a' cl' t' h' _ Ha [= <- <- <- <-]. by split. Qed.

Lemma quiet_fail {A} c : quiet (fail (A:=A) c).
Proof. by intros R cl t h a' cl' t' h' _ Ha [=]. Qed.

Lemma quiet_bind {A B} (m : M state A) (f : A → M state B) :
  quiet m → (∀ a, quiet (f a)) → quiet (m ≫= f).
Proof.
  intros Hm Hf R cl t h b cl' t' h' Hnd Ha E.
  apply bind_Ok in E as (a & [cl1 [t1 h1]] & E1 & E2).
  destruct (Hm R _ _ _ _ _ _ _ Hnd Ha E1) as [F1 A1].
  destruct (Hf a R _ _ _ _ _ _ _ (framed_NoDup _ _ _ F1 Hnd) A1 E2) as [F2 A2].
  split; [by eapply framed_trans|done].
Qed.

Lemma quiet_get : quiet get.
Proof. intros R cl t h a' cl' t' h' _ Ha [= <- <- <- <-]. by split. Qed.

Lemma quiet_the_client ptr : quiet (the_client ptr).
Proof.
  intros R cl t h a' cl' t' h' _ Ha. unfold the_client.
  destruct (get_client ptr cl); intros [= <- <- <- <-]. by split.
Qed.

Lemma quiet_heap (f : heap → heap) : quiet (modify (λ '(cl, (t, h)), (cl, (t, f h)))).
Proof. intros R cl t h a' cl' t' h' _ Ha [= <- <- <- <-]. by split. Qed.

(** Changes of a client that leave its core and its handles alone. *)
Definition mild (f : client → client) : Prop :=
  ∀ c, core (f c) = core c ∧ handles (f c) = handles c.

Lemma update_framed ptr f cl :
  (∀ c, core (f c) = core c) → framed cl (update_client ptr f cl).
Proof.
  intros Hf. split; [done|]. cbn. rewrite <-list_fmap_compose. apply list_fmap_ext.
  intros i c _. cbn. by destruct (bool_decide _).
Qed.

Lemma update_handles ptr f cl : mild f → handles_of (update_client ptr f cl) = handles_of cl.
Proof.
  intros Hf. unfold handles_of. cbn. rewrite <-list_fmap_compose. apply list_fmap_ext.
  intros i c _. cbn. destruct (bool_decide _); [apply Hf|done].
Qed.

Lemma quiet_on_client ptr f : mild f → quiet (on_client ptr f).
Proof.
  intros Hf R cl t h a' cl' t' h' _ Ha [= <- <- <- <-]. split.
  - apply update_framed. intros c. apply Hf.
  - by rewrite update_handles.
Qed.

Lemma mild_algorithm_data v : mild (set_algorithm_data v).
Proof. by intros []. Qed.
Lemma mild_last_sent_vote v : mild (set_last_sent_vote v).
Proof. by intros []. Qed.

Lemma quiet_get_info ptr : quiet (get_info ptr).
Proof.
  apply quiet_bind; [apply quiet_the_client|]. intros c.
  destruct (algorithm_data c); [apply quiet_ret|apply quiet_fail].
Qed.

Lemma quiet_put_info ptr f : quiet (put_info ptr f).
Proof.
  apply quiet_bind; [apply quiet_get_info|]. intros i.
  apply quiet_on_client, mild_algorithm_data.
Qed.

(** One client of the cluster, the others and the rest. *)
Lemma handles_split R (cl : cluster) c ptr v :
  NoDup (ptrs_of (handles_of cl ++ R)) → get_client ptr cl = Some c →
  ∃ rest, handles_of cl ++ R ≡ₚ handles c :: rest ∧ ptr ∉ ptrs_of rest ∧
    handles_of (update_client ptr (set_algo_timer v) cl) ++ R ≡ₚ set_algo_handle v (handles c) :: rest.
Proof.
  intros Hnd Hc. apply get_client_Some in Hc as [Hin Hptr].
  apply list_elem_of_split in Hin as (l1 & l2 & Hl).
  unfold handles_of in *. rewrite Hl in *. cbn. rewrite Hl. rewrite !fmap_app, !fmap_cons in *.
  exists ((handles <$> l1) ++ (handles <$> l2) ++ R).
  assert (Hne : ∀ l : list client, ptr ∉ client_ptr <$> l →
    handles <$> ((λ c, if bool_decide (client_ptr c = ptr) then set_algo_timer v c else c) <$> l) =
    handles <$> l).
  { intros l Hni. rewrite <-list_fmap_compose. apply Forall_fmap_ext_1, Forall_forall. intros c' Hc'. cbn.
    rewrite bool_decide_eq_false_2; [done|]. intros <-. apply Hni. by apply list_elem_of_fmap_2. }
  unfold ptrs_of in *. rewrite !fmap_app, !fmap_cons in Hnd. rewrite !fmap_app.
  rewrite <-!list_fmap_compose in *. cbn in Hnd. rewrite <-app_assoc in Hnd. cbn in Hnd.
  rewrite Hptr in Hnd. apply NoDup_app in Hnd as (_ & Hd1 & Hnd). apply NoDup_cons in Hnd as [Hd2 _].
  rewrite not_elem_of_app in Hd2. destruct Hd2 as [Hd2 Hd3].
  assert (Hp1 : ptr ∉ client_ptr <$> l1).
  { intros Hx. apply (Hd1 ptr); [|left]. exact Hx. }
  assert (Hp2 : ptr ∉ client_ptr <$> l2) by exact Hd2.
  split_and!.
  - rewrite <-app_assoc. symmetry. apply Permutation_middle.
  - rewrite !not_elem_of_app. split_and!; [exact Hp1|exact Hp2|exact Hd3].
  - pose proof (Hne l1 Hp1) as E1. pose proof (Hne l2 Hp2) as E2. rewrite <-list_fmap_compose in E1, E2.
    rewrite E1, E2. rewrite bool_decide_eq_true_2 by done. rewrite <-app_assoc.
    replace (handles (set_algo_timer v c)) with (set_algo_handle v (handles c)) by (by destruct c).
    symmetry. apply Permutation_middle.
Qed.

Lemma core_algo_timer v (c : client) : core (set_algo_timer v c) = core c.
Proof. by destruct c. Qed.

Lemma quiet_abort ptr : quiet (qnetd_client_algo_timer_abort ptr).
Proof.
  intros R cl t h a cl' t' h' Hnd Ha. unfold qnetd_client_algo_timer_abort.
  destruct (get_client ptr cl) as [c|] eqn:Hc.
  2: { rewrite (bind_err (the_client ptr) _ _ NULL_DEREF (cl, (t, h))); [done|].
    unfold the_client. by rewrite Hc. }
  rewrite (bind_ok _ _ _ _ _ (the_client_ok _ _ _ _ Hc)).
  destruct (algo_timer c) as [p|] eqn:Ht; [|intros [= <- <- <- <-]; by split].
  destruct (handles_split R cl c ptr None Hnd Hc) as (rest & Hp & Hni & Hp').
  apply (agree_perm _ _ _ Hp) in Ha. apply get_client_Some in Hc as [_ Hptr].
  assert (Hrun : timers_running t !! p = Some (ALGO_TIMER ptr)).
  { apply Ha. exists (handles c). split; [left|]. left. by rewrite Hptr. }
  pose proof (timer_delete_law t h p (ag_inv _ _ Ha) (mk_is_Some _ _ Hrun)) as Hd.
  destruct (timer_delete p (t, h)) as [[[]|] [t1 h1]] eqn:Ed; [|done].
  destruct Hd as (-> & Hi & Hr).
  rewrite (bind_ok (on_timer_list _) _ _ tt (cl, (t1, h))) by (unfold on_timer_list; by rewrite Ed).
  intros [= <- <- <- <-]. split; [apply update_framed, core_algo_timer|].
  eapply agree_perm; [symmetry; exact Hp'|].
  apply (agree_delete true _ _ _ t1 p Ha); [by rewrite <-Hptr in Hni|done|done|done].
Qed.

Lemma abort_clears ptr (cl : cluster) t h a cl' t' h' :
  qnetd_client_algo_timer_abort ptr (cl, (t, h)) = (Ok a, (cl', (t', h'))) →
  ∃ c, get_client ptr cl' = Some c ∧ algo_timer c = None.
Proof.
  unfold qnetd_client_algo_timer_abort. destruct (get_client ptr cl) as [c|] eqn:Hc.
  2: { rewrite (bind_err (the_client ptr) _ _ NULL_DEREF (cl, (t, h))); [done|].
    unfold the_client. by rewrite Hc. }
  rewrite (bind_ok _ _ _ _ _ (the_client_ok _ _ _ _ Hc)).
  destruct (algo_timer c) as [p|] eqn:Ht; [|intros [= _ <- _ _]; eauto]. intros E1.
  apply bind_Ok in E1 as (u & [cl2 [t2 h2]] & E3 & E4). unfold on_timer_list in E3.
  destruct (timer_delete p (t, h)) as [[] [t3 h3]]; [|done]. injection E3 as -> -> -> ->.
  injection E4 as _ <- _ _. exists (set_algo_timer None c). split; [|by destruct c].
  rewrite get_client_update by (by intros []). by rewrite Hc, bool_decide_eq_true_2.
Qed.

Lemma quiet_schedule_timeout ptr timeout :
  quiet (qnetd_client_algo_timer_schedule_timeout ptr timeout).
Proof.
  assert (Hadd : ∀ R cl t h a cl' t' h' c, NoDup (ptrs_of (handles_of cl ++ R)) →
    agree (handles_of cl ++ R) t → get_client ptr cl = Some c → algo_timer c = None →
    (p ← on_timer_list (timer_add timeout (ALGO_TIMER ptr));
     on_client ptr (set_algo_timer p);;
     match p with None => mret (-1) | Some _ => mret 0 end) (cl, (t, h)) =
       ((Ok a, (cl', (t', h'))) : res Z * state) →
    framed cl cl' ∧ agree (handles_of cl' ++ R) t').
  { intros R cl t h a cl' t' h' c Hnd Ha Hc Ht.
    pose proof (timer_add_law t h timeout (ALGO_TIMER ptr) (ag_inv _ _ Ha)) as Hadd.
    destruct (timer_add timeout (ALGO_TIMER ptr) (t, h)) as [[p|] [t1 h1]] eqn:Ea; [|done].
    rewrite (bind_ok (on_timer_list _) _ _ p (cl, (t1, h1))) by (unfold on_timer_list; by rewrite Ea).
    rewrite (bind_ok (on_client _ _) _ _ _ _ eq_refl).
    destruct (handles_split R cl c ptr p Hnd Hc) as (rest & Hp & Hni & Hp').
    apply (agree_perm _ _ _ Hp) in Ha. apply get_client_Some in Hc as [_ Hptr].
    assert (Hok : agree (set_algo_handle p (handles c) :: rest) t1).
    { destruct p as [p|].
      - destruct Hadd as (Hfresh & Hi & Hr). apply (agree_insert true _ _ t t1 p Ha); [done..|].
        cbn. by rewrite Hptr.
      - destruct Hadd as (Hi & Hr & _).
        replace (set_algo_handle None (handles c)) with (handles c) by (unfold handles; by rewrite Ht).
        by apply (agree_running _ t). }
    destruct p as [p|]; intros [= <- <- <- <-]; (split; [apply update_framed, core_algo_timer|]);
      (eapply agree_perm; [symmetry; exact Hp'|done]). }
  intros R cl t h a cl' t' h' Hnd Ha. unfold qnetd_client_algo_timer_schedule_timeout.
  destruct (get_client ptr cl) as [c|] eqn:Hc.
  2: { rewrite (bind_err (the_client ptr) _ _ NULL_DEREF (cl, (t, h))); [done|].
    unfold the_client. by rewrite Hc. }
  rewrite (bind_ok _ _ _ _ _ (the_client_ok _ _ _ _ Hc)). unfold qnetd_client_algo_timer_is_scheduled.
  destruct (algo_timer c) as [p|] eqn:Ht.
  - intros E. apply bind_Ok in E as (r & [cl1 [t1 h1]] & E1 & E2).
    destruct (quiet_abort ptr R _ _ _ _ _ _ _ Hnd Ha E1) as [F1 A1].
    destruct (negb (r =? 0)); [injection E2 as <- <- <- <-; by split|].
    destruct (abort_clears _ _ _ _ _ _ _ _ E1) as (c1 & Hc1 & Ht1).
    destruct (Hadd R cl1 t1 h1 a cl' t' h' c1 (framed_NoDup _ _ _ F1 Hnd) A1 Hc1 Ht1 E2) as [F2 A2].
    split; [by eapply framed_trans|done].
  - cbn [negb Z.eqb]. rewrite (bind_ok (mret 0) _ _ 0 (cl, (t, h)) eq_refl).
    apply (Hadd R cl t h a cl' t' h' c); done.
Qed.

Lemma quiet_schedule ptr : quiet (qnetd_client_algo_timer_schedule ptr).
Proof.
  apply quiet_bind; [apply quiet_the_client|]. intros c. apply quiet_schedule_timeout.
Qed.
End quiet.

Create HintDb quiet.
#[export] Hint Resolve quiet_ret quiet_fail quiet_get quiet_the_client quiet_heap quiet_get_info
  quiet_put_info quiet_abort quiet_schedule_timeout quiet_schedule : quiet.
#[export] Hint Resolve quiet_on_client mild_algorithm_data mild_last_sent_vote : quiet.

(** Follow the structure of a handler. *)
Ltac quiet_step :=
  match goal with
  | |- ∀ _, _ => intros ?
  | |- quiet (mbind _ _) => apply quiet_bind
  | |- quiet (match ?x with _ => _ end) => destruct x
  | |- quiet _ => solve [auto with quiet]
  end.
Ltac quiet_tac := repeat first [quiet_step | progress (cbv beta iota)].

(** ** Last man standing, the test algorithm *)

Section lms.
Context {T C : Type} `{TimerLaws qnetd_timer T}.
Import AlgoLms.
Abbreviation state := (@algo_state qnetd_algo_lms_info C T).

Lemma quiet_lms_create_partitions ptr : quiet (C:=C) (create_partitions (T:=T) ptr).
Proof.
  unfold create_partitions. apply quiet_bind; [auto with quiet|]. intros i.
  apply quiet_bind; [auto with quiet|]. intros [cl [t h]].
  destruct (qnetd_algo_create_partitions cl (partition_list i) h) as [n [pl h']].
  apply quiet_bind; [|quiet_tac]. apply (quiet_heap (λ _, h')).
Qed.

Lemma quiet_do_lms_algorithm ptr ring_id : quiet (C:=C) (do_lms_algorithm (T:=T) ptr ring_id).
Proof.
  unfold do_lms_algorithm, vote_for_partition, decide_vote, free_partitions.
  pose proof quiet_lms_create_partitions. quiet_tac.
Qed.

Lemma quiet_lms_client_init ptr : quiet (C:=C) (qnetd_algo_lms_client_init (T:=T) ptr).
Proof.
  intros R cl t h a cl' t' h' _ Ha. unfold qnetd_algo_lms_client_init.
  destruct (malloc h) as [[j|] h1]; intros [= <- <- <- <-]; [|by split].
  split; [apply update_framed; by intros []|]. rewrite update_handles; [done|by intros []].
Qed.
End lms.

(** The test algorithm. *)
Section test.
Context {T : Type} `{TimerLaws qnetd_timer T}.
Import AlgoTest.

Lemma quiet_test_client_init ptr : quiet (qnetd_algo_test_client_init (T:=T) ptr).
Proof.
  intros R cl t h a cl' t' h' _ Ha. unfold qnetd_algo_test_client_init.
  assert (Hx : ∀ v, framed cl (update_client ptr (set_algorithm_data v) cl) ∧
    handles_of (update_client ptr (set_algorithm_data v) cl) = handles_of cl).
  { intros v. split; [apply update_framed; by intros []|by apply update_handles; intros []]. }
  destruct (malloc h) as [[j|] h1]; [|intros [= <- <- <- <-]; destruct (Hx None) as [? ->]; done].
  destruct (Hx (Some 42)) as [[] Hh].
  destruct (qnetd_cluster_size _ =? 1); [destruct (malloc h1) as [[j2|] h2]|];
    intros [= <- <- <- <-]; (split; [done|]); by rewrite <-Hh in Ha.
Qed.

Lemma quiet_test_disconnect ptr : quiet (qnetd_algo_test_client_disconnect (T:=T) ptr).
Proof.
  apply quiet_bind; [auto with quiet|]. intros _ R cl t h a cl' t' h' _ Ha [= <- <- <- <-].
  by destruct (qnetd_cluster_size cl =? 1).
Qed.
End test.

(** ** The fifty-fifty split

    Its handlers have neither timers nor handles. *)
Section still.
Context {D C : Type}.
Abbreviation client := (@qnetd_client D).
Abbreviation cluster := (@qnetd_cluster D C).

Definition same_clients (l l' : list client) : Prop :=
  core <$> l' = core <$> l ∧ handles <$> l' = handles <$> l.

Definition still {A} (m : M (cluster * heap) A) : Prop := ∀ cl h a cl' h',
  m (cl, h) = (Ok a, (cl', h')) →
  cl_name cl' = cl_name cl ∧ same_clients (client_list cl) (client_list cl').

Lemma still_ret {A} (a : A) : still (mret a).
Proof. by intros cl h a' cl' h' [= <- <- <-]. Qed.
Lemma still_fail {A} c : still (fail (A:=A) c).
Proof. by intros cl h a cl' h' [=]. Qed.
Lemma still_get : still get.
Proof. by intros cl h a cl' h' [= <- <- <-]. Qed.

Lemma still_bind {A B} (m : M (cluster * heap) A) (f : A → M (cluster * heap) B) :
  still m → (∀ a, still (f a)) → still (m ≫= f).
Proof.
  intros Hm Hf cl h b cl' h' E. apply bind_Ok in E as (a & [cl1 h1] & E1 & E2).
  destruct (Hm _ _ _ _ _ E1) as (N1 & C1 & H1). destruct (Hf a _ _ _ _ _ E2) as (N2 & C2 & H2).
  split; [congruence|]. split; congruence.
Qed.

Lemma still_update ptr f : mild f → still (modify (λ '(cl, h), (update_client ptr f cl, h))).
Proof.
  intros Hf cl h a cl' h' [= <- <- <-]. split; [done|]. split.
  - apply (update_framed ptr f cl). intros c. apply Hf.
  - apply (update_handles ptr f cl Hf).
Qed.

Lemma same_clients_cons c c' l l' :
  core c' = core c → handles c' = handles c → same_clients l l' → same_clients (c :: l) (c' :: l').
Proof. intros Hc Hh [Hcs Hhs]. split; rewrite !fmap_cons; congruence. Qed.

Lemma send_msg_mild create (c : client) h r c' h' :
  send_msg create c h = (r, (c', h')) → core c' = core c ∧ handles c' = handles c.
Proof.
  unfold send_msg. destruct (send_buffer_list_get_new _ _) as [[e|] [s h1]];
    [destruct (create _) as [sz [b h2]]; destruct (sz =? 0)|];
    intros [= <- <- <-]; by destruct c.
Qed.

Lemma send_vote_info_mild (c : client) seq ring_id vote h r c' h' :
  qnetd_client_send_vote_info c seq ring_id vote h = (r, (c', h')) →
  core c' = core c ∧ handles c' = handles c.
Proof.
  intros E. apply send_msg_mild in E as [-> ->].
  destruct (bool_decide (vote = TLV_VOTE_ACK) || bool_decide (vote = TLV_VOTE_NACK)); by destruct c.
Qed.

Lemma send_err_mild (c : client) b seq code h r c' h' :
  qnetd_client_send_err c b seq code h = (r, (c', h')) → core c' = core c ∧ handles c' = handles c.
Proof. apply send_msg_mild. Qed.
End still.

Section ffsplit.
Import AlgoFfsplit.
Abbreviation client := (@qnetd_client ffsplit_client_data).

Lemma send_votes_loop_same (c : client) leaving ring_id acks l h n failed l' h' :
  send_votes_loop c leaving ring_id acks l h = Ok (n, failed, l', h') → same_clients l l'.
Proof.
  revert h n failed l' h'. induction l as [|x l IH]; intros h n failed l' h'; cbn [send_votes_loop].
  { by intros [= <- <- <- <-]. }
  assert (Hrest : ∀ x' h1, core x' = core x → handles x' = handles x →
    ∀ (g : Z * bool * list client * heap → Z * bool), match send_votes_loop c leaving ring_id acks l h1 with
    | Err e => Err e
    | Ok (n, failed, r, h') => Ok (fst (g (n, failed, r, h')), snd (g (n, failed, r, h')), x' :: r, h')
    end = Ok (n, failed, l', h') → same_clients (x :: l) l').
  { intros x' h1 Hc Hh g. destruct (send_votes_loop _ _ _ _ l h1) as [[[[n1 f1] r1] h2]|] eqn:E; [|done].
    intros [= _ _ <- _]. apply same_clients_cons; [done|done|]. by eapply IH. }
  destruct (_ && leaving).
  { apply (Hrest x h eq_refl eq_refl (λ '(n, f, _, _), (n, f))). }
  destruct (algorithm_data x) as [d|]; [|done]. cbv zeta.
  destruct (bool_decide (_ ≠ TLV_VOTE_UNDEFINED)).
  - destruct (qnetd_client_send_vote_info _ _ _ _ h) as [r [x' h1]] eqn:Es.
    apply send_vote_info_mild in Es as [Hc Hh].
    apply (Hrest x' h1 ltac:(rewrite Hc; by destruct x) ltac:(rewrite Hh; by destruct x)
      (λ '(n, f, _, _), (u64 (n + 1), (r =? -1) || f))).
  - apply (Hrest x h eq_refl eq_refl (λ '(n, f, _, _), (n, f))).
Qed.

Lemma still_send_votes c leaving ring_id acks :
  still (qnetd_algo_ffsplit_send_votes c leaving ring_id acks).
Proof.
  intros cl h a cl' h'. unfold qnetd_algo_ffsplit_send_votes.
  destruct (send_votes_loop _ _ _ _ _ h) as [[[[n failed] l] h1]|] eqn:E; [|done].
  apply send_votes_loop_same in E. destruct failed; intros [= <- <- <-]; [|by split].
  split; [done|]. destruct (still_update (C:=ffsplit_cluster_data) (client_ptr c)
    (set_schedule_disconnect true) ltac:(by intros []) (set_client_list l cl) h1 tt _ _ eq_refl)
    as [_ [Hc Hh]]. destruct E. split; [by rewrite Hc|by rewrite Hh].
Qed.

Lemma still_update_nodes_state c leaving sel :
  still (qnetd_algo_ffsplit_update_nodes_state c leaving sel).
Proof.
  intros cl h a cl' h'. unfold qnetd_algo_ffsplit_update_nodes_state.
  destruct (mapM _ (client_list cl)) as [l|] eqn:E; [|done]. intros [= <- <- <-].
  split; [done|]. cbn. apply mapM_Some in E. induction E as [|x y l1 l2 Hx _ IH]; [done|].
  unfold update_node_state in Hx. destruct (algorithm_data x); [|done]. cbv zeta in Hx.
  assert (∃ d, y = set_algorithm_data d x) as [d ->].
  { destruct (_ && leaving); [|destruct sel as [?|]; [destruct (has_node _ _)|]];
      injection Hx as <-; eauto. }
  apply same_clients_cons; [by destruct x|by destruct x|done].
Qed.

Lemma still_get_cluster_data : still get_cluster_data.
Proof.
  intros cl h a cl' h'. unfold get_cluster_data.
  by destruct (cl_algorithm_data cl); intros [= <- <- <-].
Qed.

Lemma still_put_cluster_data f : still (put_cluster_data f).
Proof.
  apply still_bind; [apply still_get_cluster_data|]. by intros d cl h a cl' h' [= <- <- <-].
Qed.

Lemma still_store sel : still (store_quorate_partition sel).
Proof.
  intros cl h a cl' h'. unfold store_quorate_partition.
  destruct (cl_algorithm_data cl); [|done]. destruct sel as [l|]; [|by intros [= <- <- <-]].
  by destruct (node_list_clone l _) as [[] [l1 h1]]; intros [= <- <- <-].
Qed.

Lemma still_no_clients acks : still (qnetd_algo_ffsplit_no_clients_in_sending_state acks).
Proof.
  intros cl h a cl' h'. unfold qnetd_algo_ffsplit_no_clients_in_sending_state.
  by destruct (forallb _ _); intros [= <- <- <-].
Qed.

Create HintDb still.
Hint Resolve still_ret still_fail still_get still_send_votes still_update_nodes_state
  still_get_cluster_data still_put_cluster_data still_store still_no_clients : still.
Ltac still_tac :=
  repeat match goal with
  | |- ∀ _, _ => intros ?
  | |- still (mbind _ _) => apply still_bind
  | |- still (match ?x with _ => _ end) => destruct x
  | |- still (modify (λ '(cl, h), (update_client _ (set_algorithm_data _) cl, h))) =>
      apply still_update, mild_algorithm_data
  | |- still _ => solve [auto with still]
  end.

Lemma still_do c leaving ring_id cfg mem heur :
  still (qnetd_algo_ffsplit_do c leaving ring_id cfg mem heur).
Proof. unfold qnetd_algo_ffsplit_do. still_tac. Qed.
Hint Resolve still_do : still.

Lemma still_client_init c : still (qnetd_algo_ffsplit_client_init c).
Proof.
  intros cl h a cl' h'. unfold qnetd_algo_ffsplit_client_init.
  set (x := if qnetd_cluster_size cl =? 1 then _ else _).
  assert (Hx : cl_name (snd (fst x)) = cl_name cl ∧ client_list (snd (fst x)) = client_list cl).
  { unfold x. destruct (qnetd_cluster_size cl =? 1); [|done]. by destruct (malloc h) as [[j|] h1]. }
  destruct x as [[r cl1] h1]. cbn in Hx. destruct Hx as [Hn Hl].
  destruct (negb r); [intros [= <- <- <-]; by rewrite Hl|].
  destruct (malloc h1) as [[j|] h2]; intros [= <- <- <-]; [|by rewrite Hl].
  destruct (still_update (C:=ffsplit_cluster_data) (client_ptr c) (set_algorithm_data
    (Some (mk_ffs_client CLIENT_STATE_WAITING_FOR_CHANGE 0))) (mild_algorithm_data _)
    cl1 h2 tt _ _ eq_refl) as [_ Hs]. rewrite Hl in Hs. done.
Qed.

Lemma still_disconnect c down : still (qnetd_algo_ffsplit_client_disconnect c down).
Proof.
  unfold qnetd_algo_ffsplit_client_disconnect. still_tac.
  intros cl h x cl' h' [= <- <- <-]. by destruct (qnetd_cluster_size cl =? 1).
Qed.

Lemma still_config c nodes initial :
  still (qnetd_algo_ffsplit_config_node_list_received c nodes initial).
Proof. unfold qnetd_algo_ffsplit_config_node_list_received. still_tac. Qed.
Lemma still_membership c ring_id nodes heur :
  still (qnetd_algo_ffsplit_membership_node_list_received c ring_id nodes heur).
Proof. unfold qnetd_algo_ffsplit_membership_node_list_received. still_tac. Qed.
Lemma still_reply c seq : still (qnetd_algo_ffsplit_vote_info_reply_received c seq).
Proof. unfold qnetd_algo_ffsplit_vote_info_reply_received. still_tac. Qed.
Lemma still_heuristics c heur : still (qnetd_algo_ffsplit_heuristics_change_received c heur).
Proof. unfold qnetd_algo_ffsplit_heuristics_change_received. still_tac. Qed.
End ffsplit.

(** ** All algorithms of the table *)

Section algorithms.
Context {T : Type} `{TimerLaws qnetd_timer T}.
Abbreviation state := (@algo_state qnetd_client_data qnetd_cluster_data T).
Abbreviation qcluster := (@qnetd_cluster qnetd_client_data qnetd_cluster_data).

(** The algorithm whose data it is. *)
Definition client_data_algorithm (d : qnetd_client_data) : Z :=
  match d with
  | TEST_CLIENT _ => TLV_DECISION_ALGORITHM_TYPE_TEST
  | FFSPLIT_CLIENT _ => TLV_DECISION_ALGORITHM_TYPE_FFSPLIT
  | TWONODELMS_CLIENT _ => TLV_DECISION_ALGORITHM_TYPE_2NODELMS
  | LMS_CLIENT _ => TLV_DECISION_ALGORITHM_TYPE_LMS
  end.
Definition cluster_data_algorithm (d : qnetd_cluster_data) : Z :=
  match d with
  | TEST_CLUSTER _ => TLV_DECISION_ALGORITHM_TYPE_TEST
  | FFSPLIT_CLUSTER _ => TLV_DECISION_ALGORITHM_TYPE_FFSPLIT
  end.

(** All data in the cluster is of one algorithm. *)
Record typed (n : Z) (cl : qcluster) : Prop := {
  ty_clients : ∀ c d, c ∈ client_list cl → algorithm_data c = Some d → client_data_algorithm d = n;
  ty_cluster : ∀ d, cl_algorithm_data cl = Some d → cluster_data_algorithm d = n
}.

(** Handlers that keep the frame and leave data of one algorithm. *)
Definition quiet_typed {A} (n : Z) (m : M state A) : Prop :=
  quiet m ∧ ∀ s a s', m s = (Ok a, s') → typed n (fst s').

Lemma with_data_frame {D E} (v : option E) (c : @qnetd_client D) :
  core (with_data v c) = core c ∧ handles (with_data v c) = handles c.
Proof. by destruct c. Qed.

Lemma same_clients_map {D E} (f : @qnetd_client D → @qnetd_client E) (l : list (@qnetd_client D)) :
  (∀ c, core (f c) = core c ∧ handles (f c) = handles c) →
  core <$> (f <$> l) = core <$> l ∧ handles <$> (f <$> l) = handles <$> l.
Proof.
  intros Hf. rewrite <-!list_fmap_compose. split; apply list_fmap_ext; intros ? c _; apply Hf.
Qed.

Lemma cast_client_with_data {D E} (get : D → option E) c c' :
  cast_client get c = Some c' → ∃ v, c' = with_data v c.
Proof. unfold cast_client. destruct (cast get _); [|done]. intros [= <-]. eauto. Qed.

Lemma cast_cluster_frame {D C} get_d get_c (cl : qcluster) (cl' : @qnetd_cluster D C) :
  cast_cluster get_d get_c cl = Some cl' →
  cl_name cl' = cl_name cl ∧ core <$> client_list cl' = core <$> client_list cl ∧
  handles_of cl' = handles_of cl.
Proof.
  unfold cast_cluster, handles_of. destruct (cast get_c _); [|done].
  destruct (mapM (cast_client get_d) (client_list cl)) as [l|] eqn:E; [|done]. intros [= <-].
  split; [done|]. cbn. apply mapM_Some in E. induction E as [|x y l1 l2 Hx _ [IH1 IH2]]; [done|].
  apply cast_client_with_data in Hx as [v ->]. destruct (with_data_frame v x).
  rewrite !fmap_cons. split; congruence.
Qed.

Lemma run_handler_quiet {D C A} get_d (of_d : D → qnetd_client_data) get_c
    (of_c : C → qnetd_cluster_data) n (m : M (@algo_state D C T) A) :
  (∀ d, client_data_algorithm (of_d d) = n) → (∀ d, cluster_data_algorithm (of_c d) = n) →
  quiet m → quiet_typed n (run_handler get_d of_d get_c of_c m).
Proof.
  intros Hd Hc Hm. split.
  - intros R cl t h a cl' t' h' Hnd Ha. unfold run_handler.
    destruct (cast_cluster get_d get_c cl) as [cl0|] eqn:Ec; [|done].
    destruct (cast_cluster_frame _ _ _ _ Ec) as (Hn & Hco & Hha).
    destruct (m (cl0, (t, h))) as [r [cl1 [t1 h1]]] eqn:Em. intros [= -> <- <- <-].
    rewrite <-Hha in Hnd, Ha. destruct (Hm R _ _ _ _ _ _ _ Hnd Ha Em) as [[Hn1 Hco1] Ha1].
    destruct (same_clients_map (λ c, with_data (of_d <$> algorithm_data c) c) (client_list cl1)
      (λ c, with_data_frame _ c)) as [Hco2 Hha2].
    split; [split; cbn; [congruence|]|].
    + rewrite Hco2. congruence.
    + unfold handles_of, uncast_cluster. cbn [client_list]. by rewrite Hha2.
  - intros [cl s] a s'. unfold run_handler.
    destruct (cast_cluster get_d get_c cl) as [cl0|]; [|done].
    destruct (m (cl0, s)) as [r [cl1 s1]]. intros [= -> <-]. split; cbn.
    + intros c d (c0 & -> & Hc0)%list_elem_of_fmap Hda.
      assert (of_d <$> algorithm_data c0 = Some d) as Hx by (destruct c0; exact Hda).
      destruct (algorithm_data c0); [|done]. injection Hx as <-. apply Hd.
    + intros d Hx. destruct (cl_algorithm_data cl1); [|done]. injection Hx as <-. apply Hc.
Qed.

(** The handlers of an algorithm, all of them. *)
Record algorithm_ok (n : Z) (a : @qnetd_algorithm T) : Prop := {
  ok_init ptr : quiet_typed n (algo_init a ptr);
  ok_disconnect ptr down : quiet_typed n (algo_client_disconnect a ptr down);
  ok_membership ptr seq ring_id nodes heur :
    quiet_typed n (algo_membership_node_list_received a ptr seq ring_id nodes heur);
  ok_quorum ptr seq quorate nodes :
    quiet_typed n (algo_quorum_node_list_received a ptr seq quorate nodes);
  ok_config ptr seq version nodes initial :
    quiet_typed n (algo_config_node_list_received a ptr seq version nodes initial);
  ok_ask ptr seq : quiet_typed n (algo_ask_for_vote_received a ptr seq);
  ok_reply ptr seq : quiet_typed n (algo_vote_info_reply_received a ptr seq);
  ok_heuristics ptr seq heur : quiet_typed n (algo_heuristics_change_received a ptr seq heur);
  ok_timer ptr : quiet_typed n (algo_timer_callback a ptr)
}.

Lemma run_test_ok {A} (m : M (@algo_state Z Z T) A) :
  quiet m → quiet_typed TLV_DECISION_ALGORITHM_TYPE_TEST (run_test m).
Proof. by apply run_handler_quiet. Qed.
Lemma run_2nodelms_ok {A} (m : M (@algo_state Algo2NodeLms.qnetd_algo_2nodelms_info Empty_set T) A) :
  quiet m → quiet_typed TLV_DECISION_ALGORITHM_TYPE_2NODELMS (run_2nodelms m).
Proof. by apply run_handler_quiet. Qed.
Lemma run_lms_ok {A} (m : M (@algo_state AlgoLms.qnetd_algo_lms_info Empty_set T) A) :
  quiet m → quiet_typed TLV_DECISION_ALGORITHM_TYPE_LMS (run_lms m).
Proof. by apply run_handler_quiet. Qed.

Lemma run_ffsplit_ok {A} (m : @qnetd_client AlgoFfsplit.ffsplit_client_data →
    M (@qnetd_cluster AlgoFfsplit.ffsplit_client_data AlgoFfsplit.ffsplit_cluster_data * heap) A) ptr :
  (∀ c, still (m c)) →
  quiet_typed TLV_DECISION_ALGORITHM_TYPE_FFSPLIT (run_ffsplit (T:=T) m ptr).
Proof.
  intros Hm. apply run_handler_quiet; [done|done|]. intros R cl t h a cl' t' h' _ Ha.
  destruct (get_client ptr cl) as [c|]; [|done].
  destruct (m c (cl, h)) as [r [cl1 h1]] eqn:E. intros [= -> <- <- <-].
  destruct (Hm c _ _ _ _ _ E) as (Hn & Hc & Hh). split; [by split|].
  unfold handles_of. by rewrite Hh.
Qed.

Lemma qnetd_algo_test_ok : algorithm_ok TLV_DECISION_ALGORITHM_TYPE_TEST qnetd_algo_test.
Proof.
  split; intros; apply run_test_ok;
    first [apply quiet_test_client_init|apply quiet_test_disconnect|apply quiet_ret].
Qed.

Lemma qnetd_algo_ffsplit_ok : algorithm_ok TLV_DECISION_ALGORITHM_TYPE_FFSPLIT qnetd_algo_ffsplit.
Proof.
  split; intros; apply run_ffsplit_ok; intros c;
    first [apply still_client_init|apply still_disconnect|apply still_config|apply still_membership
          |apply still_reply|apply still_heuristics|apply still_ret
          |apply still_bind; [apply still_ret|intros; apply still_ret]].
Qed.

Lemma qnetd_algo_2nodelms_ok :
  algorithm_ok TLV_DECISION_ALGORITHM_TYPE_2NODELMS qnetd_algo_2nodelms.
Proof.
  split; intros; apply run_2nodelms_ok.
  1: { intros R cl t h a cl' t' h' _ Ha. unfold Algo2NodeLms.qnetd_algo_2nodelms_client_init.
    destruct (malloc h) as [[j|] h1]; intros [= <- <- <- <-]; [|by split].
    split; [apply update_framed; by intros []|]. rewrite update_handles; [done|by intros []]. }
  all: unfold Algo2NodeLms.qnetd_algo_2nodelms_client_disconnect,
      Algo2NodeLms.qnetd_algo_2nodelms_membership_node_list_received,
      Algo2NodeLms.qnetd_algo_2nodelms_quorum_node_list_received,
      Algo2NodeLms.qnetd_algo_2nodelms_config_node_list_received,
      Algo2NodeLms.qnetd_algo_2nodelms_ask_for_vote_received,
      Algo2NodeLms.qnetd_algo_2nodelms_vote_info_reply_received,
      Algo2NodeLms.qnetd_algo_2nodelms_heuristics_change_received,
      Algo2NodeLms.qnetd_algo_2nodelms_timer_callback, Algo2NodeLms.decide_vote; cbv zeta; quiet_tac.
Qed.

Lemma qnetd_algo_lms_ok : algorithm_ok TLV_DECISION_ALGORITHM_TYPE_LMS qnetd_algo_lms.
Proof.
  pose proof (quiet_do_lms_algorithm (T:=T) (C:=Empty_set)).
  split; intros; apply run_lms_ok; [apply quiet_lms_client_init|..];
    unfold AlgoLms.qnetd_algo_lms_client_disconnect,
      AlgoLms.qnetd_algo_lms_membership_node_list_received,
      AlgoLms.qnetd_algo_lms_quorum_node_list_received,
      AlgoLms.qnetd_algo_lms_config_node_list_received,
      AlgoLms.qnetd_algo_lms_ask_for_vote_received,
      AlgoLms.qnetd_algo_lms_vote_info_reply_received,
      AlgoLms.qnetd_algo_lms_heuristics_change_received,
      AlgoLms.qnetd_algo_lms_timer_callback; quiet_tac.
Qed.

Lemma algorithm_array_ok n a :
  qnetd_algorithm_array (T:=T) !! Z.to_nat n = Some (Some a) → 0 ≤ n → algorithm_ok n a.
Proof.
  rewrite (proj2 qnetd_algorithm_array_complete). intros Hl Hn.
  destruct (Z.to_nat n) as [|[|[|[|k]]]] eqn:E; cbn in Hl; try done; injection Hl as <-.
  - replace n with 0 by lia. apply qnetd_algo_test_ok.
  - replace n with 1 by lia. apply qnetd_algo_ffsplit_ok.
  - replace n with 2 by lia. apply qnetd_algo_2nodelms_ok.
  - replace n with 3 by lia. apply qnetd_algo_lms_ok.
Qed.

(** A call through the table keeps the frame, and data stays with its algorithm. *)
Lemma call_algorithm_quiet {A} ptr (e : A) f R cl t h a cl' t' h' n :
  (∀ alg, algorithm_ok n alg → quiet_typed n (f alg)) →
  (∀ c, get_client ptr cl = Some c → decision_algorithm c = n) → 0 ≤ n →
  NoDup (ptrs_of (handles_of cl ++ R)) → agree (handles_of cl ++ R) t → typed n cl →
  call_algorithm ptr e f (cl, (t, h)) = (Ok a, (cl', (t', h'))) →
  framed cl cl' ∧ agree (handles_of cl' ++ R) t' ∧ typed n cl'.
Proof.
  intros Hf Hc Hn Hnd Ha Hty. unfold call_algorithm, the_algorithm.
  destruct (get_client ptr cl) as [c|] eqn:Hg.
  2: { rewrite (bind_err _ _ _ NULL_DEREF (cl, (t, h))); [done|].
    apply bind_err. unfold the_client. by rewrite Hg. }
  specialize (Hc c eq_refl). intros E. apply bind_Ok in E as (o & s & E1 & E2).
  rewrite (bind_ok _ _ _ _ _ (the_client_ok _ _ _ _ Hg)), Hc in E1.
  assert (o = None ∨ o = mjoin (qnetd_algorithm_array !! Z.to_nat n)) as Ho.
  { destruct (_ <=? n); injection E1 as <- <-; tauto. }
  assert (s = (cl, (t, h))) as -> by (destruct (_ <=? n); by injection E1 as <- <-).
  destruct o as [alg|]; [|injection E2 as <- <- <- <-; done].
  destruct Ho as [Ho|Ho]; [done|]. symmetry in Ho.
  destruct (qnetd_algorithm_array !! Z.to_nat n) as [[alg'|]|] eqn:El; cbn in Ho; try done.
  injection Ho as ->. destruct (Hf alg (algorithm_array_ok n alg El Hn)) as [Hq Ht].
  destruct (Hq R _ _ _ _ _ _ _ Hnd Ha E2). split_and!; [done|done|]. exact (Ht _ _ _ E2).
Qed.
End algorithms.
