(* ===== verification/QnetdInstanceFacts.v ===== *)
(** The invariant of the daemon, and the steps that keep it: every client is known once, the
    clients of a cluster agree on algorithm and tie-breaker and have different node ids, and
    a timer runs exactly for the handle of a connected client. *)
From S2P Require Import Prelude Dynar Tlv NodeList Msg SendBuffer QnetdClient QnetdCluster.
From stdpp Require Import list gmap.
From S2P Require Import TimerList TimerInterface QnetdAlgoTimer QnetdAlgorithm QnetdInstance.
From S2P Require Import QnetdFrame.
Local Open Scope Z_scope.

Section invariant.
Context {T : Type} `{TimerLaws qnetd_timer T}.
Abbreviation instance := (@qnetd_instance T).

(** The clients of a cluster have one algorithm and one tie-breaker; their node ids differ. *)
Record cluster_ok (cl : qcluster) : Prop := {
  co_nonempty : client_list cl ≠ [];
  co_shared : ∃ tb alg, 0 ≤ alg < QNETD_STATIC_SUPPORTED_DECISION_ALGORITHMS_SIZE ∧ typed alg cl ∧
    ∀ c, c ∈ client_list cl →
      tlv_tie_breaker_eq tb (tie_breaker c) = true ∧ decision_algorithm c = alg;
  co_ids : NoDup (client_node_id <$> client_list cl)
}.

Record qnetd_ok (q : instance) : Prop := {
  qo_ptrs : NoDup (client_ptr <$> connected_clients q);
  qo_clients : q_clients q ≡ₚ client_ptr <$> connected_clients q;
  qo_names : NoDup (cl_name <$> q_clusters q);
  qo_clusters : Forall cluster_ok (q_clusters q);
  qo_lobby : Forall (λ c, init_received c = false ∧ algorithm_data c = None) (q_lobby q);
  qo_timers : agree (handles <$> connected_clients q) (q_timers q)
}.

(** What of a client the invariant speaks about, apart from its timers. *)
Definition kept (c : qclient) :=
  (client_ptr c, tie_breaker c, decision_algorithm c, client_node_id c, algorithm_data c,
   init_received c).

Definition kept_cluster (cl : qcluster) :=
  (cl_name cl, cl_algorithm_data cl, kept <$> client_list cl).

Lemma kept_list (l l' : list qclient) c' :
  kept <$> l' = kept <$> l → c' ∈ l' → ∃ c, c ∈ l ∧ kept c' = kept c.
Proof.
  intros E Hc. apply (list_elem_of_fmap_2 kept) in Hc. rewrite E in Hc.
  apply list_elem_of_fmap in Hc as (c & ? & ?). eauto.
Qed.

Lemma kept_fmap {B} (f : qclient → B) (l l' : list qclient) :
  (∀ c c', kept c = kept c' → f c = f c') → kept <$> l' = kept <$> l → f <$> l' = f <$> l.
Proof.
  intros Hf. revert l'. induction l as [|c l IH]; intros [|c' l'] E; try done.
  rewrite !fmap_cons in E. pose proof (f_equal tail E) as E'. apply (f_equal head), (inj Some) in E.
  rewrite !fmap_cons. f_equal; [by apply Hf|by apply IH].
Qed.

Lemma kept_typed n cl cl' : kept_cluster cl' = kept_cluster cl → typed n cl → typed n cl'.
Proof.
  intros [= _ Hd Hl] [Hc Hcl]. split; [|by rewrite Hd].
  intros c d Hin Ha. destruct (kept_list _ _ _ Hl Hin) as (c0 & Hc0 & E).
  apply (Hc c0 d Hc0). unfold kept in E. congruence.
Qed.

Lemma kept_cluster_ok cl cl' : kept_cluster cl' = kept_cluster cl → cluster_ok cl → cluster_ok cl'.
Proof.
  intros E [Hne (tb & alg & Hr & Hty & Hs) Hids]. pose proof E as [= _ _ Hl]. split.
  - intros Hx. rewrite Hx in Hl. destruct (client_list cl); [done|by rewrite fmap_cons in Hl].
  - exists tb, alg. split_and!; [lia|lia|by eapply kept_typed|].
    intros c Hc. destruct (kept_list _ _ _ Hl Hc) as (c0 & Hc0 & E0).
    assert (tie_breaker c = tie_breaker c0 ∧ decision_algorithm c = decision_algorithm c0)
      as [-> ->] by (unfold kept in E0; split; congruence). by apply Hs.
  - rewrite (kept_fmap client_node_id _ _ ltac:(unfold kept; congruence) Hl). done.
Qed.

Lemma kept_connected (q q' : instance) :
  kept <$> q_lobby q' = kept <$> q_lobby q →
  kept_cluster <$> q_clusters q' = kept_cluster <$> q_clusters q →
  kept <$> connected_clients q' = kept <$> connected_clients q.
Proof.
  intros Hl Hc. unfold connected_clients. rewrite !fmap_app, Hl. f_equal. unfold all_clients.
  revert Hc. generalize (q_clusters q) as l, (q_clusters q') as l'.
  induction l as [|cl l IH]; intros [|cl' l'] E; try done. rewrite !fmap_cons in E.
  pose proof (f_equal tail E) as E2. apply (f_equal head), (inj Some) in E as [= _ _ E1].
  rewrite !bind_cons, !fmap_app. f_equal; [done|by apply IH].
Qed.

(** A change that keeps all of this. *)
Lemma kept_ok q q' :
  qnetd_ok q → q_clients q' = q_clients q →
  kept <$> q_lobby q' = kept <$> q_lobby q →
  kept_cluster <$> q_clusters q' = kept_cluster <$> q_clusters q →
  agree (handles <$> connected_clients q') (q_timers q') →
  qnetd_ok q'.
Proof.
  intros [Hp Hc Hn Hcl Hlo Ht] Ec El Ecl Ha.
  pose proof (kept_connected q q' El Ecl) as Ek.
  assert (Eptr : client_ptr <$> connected_clients q' = client_ptr <$> connected_clients q).
  { apply kept_fmap; [|done]. unfold kept. intros; congruence. }
  assert (En : cl_name <$> q_clusters q' = cl_name <$> q_clusters q).
  { apply (f_equal (fmap (λ x, fst (fst x)))) in Ecl. by rewrite <-!list_fmap_compose in Ecl. }
  split.
  - by rewrite Eptr.
  - by rewrite Eptr, Ec.
  - by rewrite En.
  - apply Forall_forall. intros cl' Hin. apply (list_elem_of_fmap_2 kept_cluster) in Hin.
    rewrite Ecl in Hin. apply list_elem_of_fmap in Hin as (cl & E & Hin).
    rewrite Forall_forall in Hcl. eapply kept_cluster_ok; [exact E|by apply Hcl].
  - apply Forall_forall. intros c' Hin. destruct (kept_list _ _ _ El Hin) as (c & Hc0 & E).
    rewrite Forall_forall in Hlo. destruct (Hlo c Hc0). unfold kept in E. split; congruence.
  - done.
Qed.

(** ** Steps that keep the invariant and where the clients are *)

Definition sockets (q : instance) := (q_clients q, q_polled q).
Definition place (q : instance) :=
  (sockets q, client_ptr <$> q_lobby q, (λ cl, (cl_name cl, client_ptr <$> client_list cl)) <$> q_clusters q).

Lemma place_sockets (q q' : instance) : place q' = place q → sockets q' = sockets q.
Proof. intros E. apply (f_equal (λ p, fst (fst p)) E). Qed.

Definition keeps {A} (m : M instance A) : Prop := ∀ q a q',
  qnetd_ok q → m q = (Ok a, q') → qnetd_ok q' ∧ place q' = place q.

Lemma keeps_ret {A} (a : A) : keeps (mret a).
Proof. by intros q a' q' Hq [= <- <-]. Qed.
Lemma keeps_fail {A} c : keeps (fail (A:=A) c).
Proof. by intros q a' q' Hq [=]. Qed.
Lemma keeps_get : keeps get.
Proof. by intros q a' q' Hq [= <- <-]. Qed.
Lemma keeps_bind {A B} (m : M instance A) (f : A → M instance B) :
  keeps m → (∀ a, keeps (f a)) → keeps (m ≫= f).
Proof.
  intros Hm Hf q b q' Hq E. apply bind_Ok in E as (a & q1 & E1 & E2).
  destruct (Hm _ _ _ Hq E1) as [Hq1 P1]. destruct (Hf a _ _ _ Hq1 E2) as [Hq2 P2].
  split; [done|congruence].
Qed.
Lemma keeps_client_at ptr : keeps (client_at ptr).
Proof. intros q a' q' Hq. unfold client_at. by destruct (find_at _ _); intros [= <- <-]. Qed.
Lemma keeps_heap h : keeps (modify (set_heap h)).
Proof. intros q a' q' Hq [= <- <-]. split; [|done]. by destruct Hq. Qed.

(** Changes of a client the invariant does not speak about. *)
Definition unkept (f : qclient → qclient) : Prop := ∀ c,
  kept (f c) = kept c ∧ handles (f c) = handles c.

Lemma update_fmap {B} (k : qclient → B) ptr f (l : list qclient) :
  (∀ c, c ∈ l → client_ptr c = ptr → k (f c) = k c) → k <$> update_at ptr f l = k <$> l.
Proof.
  intros Hf. unfold update_at. rewrite <-list_fmap_compose.
  apply Forall_fmap_ext_1, Forall_forall. intros c Hc. cbn.
  case_bool_decide as Hp; [by apply Hf|done].
Qed.

Lemma update_proj {B} (g : qclient → B) ptr f (l : list qclient) :
  (∀ c, g (f c) = g c) → g <$> update_at ptr f l = g <$> l.
Proof.
  intros Hf. unfold update_at. rewrite <-list_fmap_compose. apply list_fmap_ext. intros i c _. cbn.
  by destruct (bool_decide _); [apply Hf|].
Qed.

Lemma kept_ptr (c c' : qclient) : kept c = kept c' → client_ptr c = client_ptr c'.
Proof. unfold kept. intros; congruence. Qed.

Lemma all_clients_elem (l : list qcluster) c cl : cl ∈ l → c ∈ client_list cl → c ∈ all_clients l.
Proof. intros. apply list_elem_of_bind. eauto. Qed.

Lemma connected_modify ptr f (q : instance) :
  connected_clients (snd (modify_client ptr f q)) = update_at ptr f (connected_clients q).
Proof.
  unfold connected_clients, update_at. rewrite fmap_app. cbn. f_equal.
  induction (q_clusters q) as [|cl l IH]; [done|].
  unfold all_clients in *. by rewrite fmap_cons, !bind_cons, fmap_app, IH.
Qed.

(** A client and the timers change together. *)
Lemma modify_timers_ok ptr f q t h :
  qnetd_ok q →
  (∀ c, c ∈ connected_clients q → client_ptr c = ptr → kept (f c) = kept c) →
  agree (handles <$> update_at ptr f (connected_clients q)) t →
  let q' := set_heap h (set_timers t (snd (modify_client ptr f q))) in
  qnetd_ok q' ∧ place q' = place q.
Proof.
  intros Hq Hf Ha q'.
  assert (El : kept <$> update_at ptr f (q_lobby q) = kept <$> q_lobby q).
  { apply update_fmap. intros c Hc. apply Hf. apply elem_of_app. by left. }
  assert (Ec : ∀ cl, cl ∈ q_clusters q →
    kept <$> update_at ptr f (client_list cl) = kept <$> client_list cl).
  { intros cl Hcl. apply update_fmap. intros c Hc. apply Hf. apply elem_of_app. right.
    by eapply all_clients_elem. }
  split.
  - apply (kept_ok q); try done.
    + cbn. rewrite <-list_fmap_compose. apply Forall_fmap_ext_1, Forall_forall. intros cl Hcl.
      unfold kept_cluster. cbn. f_equal. by apply Ec.
    + rewrite <-connected_modify in Ha. exact Ha.
  - unfold place. cbn. f_equal; [f_equal; by apply (kept_fmap client_ptr); [apply kept_ptr|]|].
    rewrite <-list_fmap_compose. apply Forall_fmap_ext_1, Forall_forall. intros cl Hcl. cbn. f_equal.
    by apply (kept_fmap client_ptr); [apply kept_ptr|apply Ec].
Qed.

Lemma modify_client_ok ptr f q :
  qnetd_ok q →
  (∀ c, c ∈ connected_clients q → client_ptr c = ptr →
     kept (f c) = kept c ∧ handles (f c) = handles c) →
  qnetd_ok (snd (modify_client ptr f q)) ∧ place (snd (modify_client ptr f q)) = place q.
Proof.
  intros Hq Hf. apply (modify_timers_ok ptr f q (q_timers q) (q_heap q) Hq).
  - intros c Hc Hp. by apply Hf.
  - rewrite update_fmap; [apply Hq|]. intros c Hc Hp. by apply Hf.
Qed.

Lemma keeps_modify_client ptr f : unkept f → keeps (modify_client ptr f).
Proof.
  intros Hf q a q' Hq E. replace q' with (snd (modify_client ptr f q)) by (by rewrite E).
  apply modify_client_ok; [done|]. intros c _ _. apply Hf.
Qed.

Lemma find_at_Some ptr l c : find_at ptr l = Some c → c ∈ l ∧ client_ptr c = ptr.
Proof.
  unfold find_at. destruct (list_find _ l) as [[i c']|] eqn:E; [|done]. intros [= <-].
  apply list_find_Some in E as (E1 & E2 & _). split; [by eapply list_elem_of_lookup_2|done].
Qed.

Lemma find_at_elem l c : NoDup (client_ptr <$> l) → c ∈ l → find_at (client_ptr c) l = Some c.
Proof.
  intros Hnd Hin. unfold find_at.
  destruct (list_find_elem_of (λ c', client_ptr c' = client_ptr c) l c Hin eq_refl) as [[i c'] Hf].
  rewrite Hf. cbn. f_equal. apply list_find_Some in Hf as (Hi & Hp & _).
  apply (NoDup_fmap_inj client_ptr l); [done|by eapply list_elem_of_lookup_2|done|done].
Qed.

Lemma find_at_update ptr f (l : list qclient) :
  (∀ c, client_ptr (f c) = client_ptr c) → find_at ptr (update_at ptr f l) = f <$> find_at ptr l.
Proof.
  intros Hf. unfold find_at. induction l as [|c l IH]; [done|]. cbn.
  destruct (decide (client_ptr c = ptr)) as [Hp|Hp].
  - rewrite bool_decide_eq_true_2 by done. rewrite decide_True; [done|]. by rewrite Hf.
  - rewrite bool_decide_eq_false_2 by done. rewrite decide_False by done.
    unfold update_at in IH. destruct (list_find _ (_ <$> l)) as [[]|], (list_find _ l) as [[]|]; done.
Qed.

(** Replacing a client by a changed one. *)
Lemma replace_ok ptr c c' q :
  qnetd_ok q → find_at ptr (connected_clients q) = Some c →
  kept c' = kept c ∧ handles c' = handles c →
  qnetd_ok (snd (modify_client ptr (λ _, c') q)) ∧
  place (snd (modify_client ptr (λ _, c') q)) = place q.
Proof.
  intros Hq Hf Hk. apply modify_client_ok; [done|]. intros x Hx Hp.
  apply find_at_Some in Hf as [Hc Hp']. assert (x = c) as ->; [|done].
  apply (NoDup_fmap_inj client_ptr (connected_clients q)); [apply Hq|done|done|congruence].
Qed.

(** Sending a message to a client. *)
Definition sends (send : qclient → heap → Z * (qclient * heap)) : Prop :=
  ∀ c h r c' h', send c h = (r, (c', h')) → kept c' = kept c ∧ handles c' = handles c.

Lemma keeps_send_to ptr send : sends send → keeps (send_to ptr send).
Proof.
  intros Hs q a q' Hq. unfold send_to.
  destruct (find_at ptr (connected_clients q)) as [c|] eqn:Hf.
  2: { rewrite (bind_err (client_at ptr) _ _ NULL_DEREF q); [done|].
    unfold client_at. by rewrite Hf. }
  rewrite (bind_ok (client_at ptr) _ _ c q) by (unfold client_at; by rewrite Hf).
  rewrite (bind_ok get _ _ _ _ eq_refl). destruct (send c (q_heap q)) as [r [c' h']] eqn:E.
  rewrite (bind_ok (modify _) _ _ _ _ eq_refl).
  destruct (keeps_heap h' q tt _ Hq eq_refl) as [Hq1 Hp1].
  destruct (replace_ok ptr c c' (set_heap h' q) Hq1 Hf (Hs _ _ _ _ _ E)) as [Hq2 Hp2].
  rewrite (bind_ok (modify_client _ _) _ _ tt (snd (modify_client ptr (λ _, c') (set_heap h' q))) eq_refl).
  intros [= <- <-]. split; [done|]. by etrans.
Qed.

Lemma sends_msg create : sends (send_msg create).
Proof.
  intros c h r c' h'. unfold send_msg. destruct (send_buffer_list_get_new _ _) as [[e|] [s h1]];
    [destruct (create _) as [sz [b h2]]; destruct (sz =? 0)|]; intros [= <- <- <-]; by destruct c.
Qed.
Lemma sends_err b seq code : sends (λ c, qnetd_client_send_err c b seq code).
Proof. intros c. apply sends_msg. Qed.
Lemma sends_err_of b seq (g : qclient → Z) : sends (λ c, qnetd_client_send_err c b seq (g c)).
Proof. intros c. apply sends_msg. Qed.
Lemma sends_vote_info (g : qclient → Z) (r : qclient → tlv_ring_id) vote :
  sends (λ c, qnetd_client_send_vote_info c (g c) (r c) vote).
Proof.
  intros c h x c' h' E. apply sends_msg in E as [-> ->].
  destruct (bool_decide (vote = TLV_VOTE_ACK) || bool_decide (vote = TLV_VOTE_NACK)); by destruct c.
Qed.

(** ** Steps on one cluster *)

Lemma core_kept (c c' : qclient) : core c' = core c →
  tie_breaker c' = tie_breaker c ∧ decision_algorithm c' = decision_algorithm c ∧
  client_node_id c' = client_node_id c ∧ init_received c' = init_received c.
Proof.
  intros E. pose proof (f_equal tie_breaker E). pose proof (f_equal decision_algorithm E).
  pose proof (f_equal client_node_id E). pose proof (f_equal init_received E).
  by destruct c, c'.
Qed.

Lemma core_fmap {B} (f : qclient → B) (l l' : list qclient) :
  (∀ c c', core c' = core c → f c' = f c) → core <$> l' = core <$> l → f <$> l' = f <$> l.
Proof.
  intros Hf. revert l'. induction l as [|c l IH]; intros [|c' l'] E; try done.
  rewrite !fmap_cons in E. pose proof (f_equal tail E) as E'. apply (f_equal head), (inj Some) in E.
  rewrite !fmap_cons. f_equal; [by apply Hf|by apply IH].
Qed.

Lemma core_list (l l' : list qclient) c' :
  core <$> l' = core <$> l → c' ∈ l' → ∃ c, c ∈ l ∧ core c' = core c.
Proof.
  intros E Hc. apply (list_elem_of_fmap_2 core) in Hc. rewrite E in Hc.
  apply list_elem_of_fmap in Hc as (c & ? & ?). eauto.
Qed.

(** Data stays with the algorithm of the clients. *)
Definition keeps_types (cl cl' : qcluster) : Prop := ∀ n, 0 ≤ n →
  (∀ c, c ∈ client_list cl → decision_algorithm c = n) → typed n cl → typed n cl'.

Lemma framed_cluster_ok cl cl' :
  framed cl cl' → cluster_ok cl → keeps_types cl cl' → cluster_ok cl'.
Proof.
  intros [Hn Hc] [Hne (tb & alg & Hr & Hty & Hs) Hids] Ht. split.
  - intros Hx. rewrite Hx in Hc. destruct (client_list cl); [done|by rewrite fmap_cons in Hc].
  - exists tb, alg. split_and!; [lia|lia|apply Ht; [lia|intros c Hc'; by apply Hs|done]|].
    intros c Hin. destruct (core_list _ _ _ Hc Hin) as (c0 & Hc0 & E).
    apply core_kept in E as (-> & -> & _). by apply Hs.
  - rewrite (core_fmap client_node_id _ _ ltac:(intros c c' E; apply core_kept, E) Hc). done.
Qed.

(** A handler called for one client of a cluster, whatever the other clients are. *)
Definition called {A} (ptr : nat) (m : M (@algo_state qnetd_client_data qnetd_cluster_data T) A) :
    Prop := ∀ n R cl t h a cl' t' h',
  (∀ c, get_client ptr cl = Some c → decision_algorithm c = n) → 0 ≤ n →
  NoDup (ptrs_of (handles_of cl ++ R)) → agree (handles_of cl ++ R) t → typed n cl →
  m (cl, (t, h)) = (Ok a, (cl', (t', h'))) →
  framed cl cl' ∧ agree (handles_of cl' ++ R) t' ∧ typed n cl'.

(** The clients outside of the cluster at a position. *)
Definition others (i : nat) (q : instance) : list qclient :=
  q_lobby q ++ all_clients (delete i (q_clusters q)).

Lemma connected_split i cl cl' q :
  q_clusters q !! i = Some cl →
  connected_clients q ≡ₚ client_list cl ++ others i q ∧
  q_lobby q ++ all_clients (<[i := cl']> (q_clusters q)) ≡ₚ client_list cl' ++ others i q.
Proof.
  intros Hi. unfold connected_clients, others, all_clients. split.
  - rewrite <-(take_drop_middle _ i cl Hi) at 1. rewrite delete_take_drop, !bind_app, bind_cons.
    rewrite !app_assoc. apply Permutation_app_tail. rewrite Permutation_app_comm, app_assoc. done.
  - rewrite insert_take_drop by (by eapply lookup_lt_Some). rewrite delete_take_drop, !bind_app, bind_cons.
    rewrite !app_assoc. apply Permutation_app_tail. rewrite Permutation_app_comm, app_assoc. done.
Qed.

Lemma ptrs_of_fmap (l : list qclient) : ptrs_of (handles <$> l) = client_ptr <$> l.
Proof. unfold ptrs_of. by rewrite <-list_fmap_compose. Qed.

(** The cluster at a position is replaced by one with the same clients. *)
Lemma replace_cluster_ok q i cl cl' t h :
  qnetd_ok q → q_clusters q !! i = Some cl → framed cl cl' → keeps_types cl cl' →
  agree (handles_of cl' ++ (handles <$> others i q)) t →
  let q' := set_heap h (set_timers t (set_clusters (<[i := cl']> (q_clusters q)) q)) in
  qnetd_ok q' ∧ place q' = place q.
Proof.
  intros Hq Hi Hf Ht Ha q'. destruct (connected_split i cl cl' q Hi) as [Hp Hp'].
  pose proof (framed_ptrs _ _ Hf) as Eptr. pose proof (fr_name _ _ Hf) as En.
  assert (E : client_ptr <$> connected_clients q' ≡ₚ client_ptr <$> connected_clients q).
  { unfold connected_clients at 1. cbn. rewrite Hp', Hp, !fmap_app. by rewrite Eptr. }
  destruct Hq as [Hpt Hc Hn Hcl Hlo _]. split; [split|].
  - by rewrite E.
  - by rewrite E.
  - cbn. by rewrite (names_insert _ _ cl).
  - apply Forall_insert; [done|]. rewrite Forall_lookup in Hcl.
    by eapply framed_cluster_ok; [exact Hf|by eapply Hcl|].
  - done.
  - eapply agree_perm; [|exact Ha]. unfold handles_of. rewrite <-fmap_app. by rewrite <-Hp'.
  - unfold place. cbn. f_equal. rewrite list_fmap_insert. apply list_insert_id.
    rewrite list_lookup_fmap, Hi. cbn. by rewrite En, Eptr.
Qed.

Lemma on_cluster_frame {A} ptr (m : M (@algo_state qnetd_client_data qnetd_cluster_data T) A) q a q' :
  called ptr m → qnetd_ok q → on_cluster ptr m q = (Ok a, q') →
  ∃ i cl cl' t h, q_clusters q !! i = Some cl ∧ framed cl cl' ∧ keeps_types cl cl' ∧
    agree (handles_of cl' ++ (handles <$> others i q)) t ∧
    q' = set_heap h (set_timers t (set_clusters (<[i := cl']> (q_clusters q)) q)) ∧
    cluster_of ptr q = Some i ∧ m (cl, (q_timers q, q_heap q)) = (Ok a, (cl', (t, h))).
Proof.
  intros Hm Hq. unfold on_cluster. destruct (cluster_of ptr q) as [i|] eqn:Eco; [|done].
  destruct (q_clusters q !! i) as [cl|] eqn:Hi; [|done].
  destruct (m (cl, (q_timers q, q_heap q))) as [r [cl' [t h]]] eqn:E. intros [= -> <-].
  destruct (connected_split i cl cl' q Hi) as [Hp _].
  pose proof (qo_clusters _ Hq) as Hcl. rewrite Forall_lookup in Hcl.
  destruct (Hcl i cl Hi) as [Hne (tb & alg & Hr & Hty & Hs) _].
  destruct (Hm alg (handles <$> others i q) cl (q_timers q) (q_heap q) a cl' t h)
    as (Hf & Ha & Hty'); try done.
  - intros c Hc. apply get_client_Some in Hc as [Hc _]. by apply Hs.
  - lia.
  - unfold handles_of. rewrite <-fmap_app, ptrs_of_fmap, <-Hp. apply Hq.
  - eapply agree_perm; [|apply (qo_timers _ Hq)]. unfold handles_of. by rewrite <-fmap_app, <-Hp.
  - exists i, cl, cl', t, h. split_and!; try done. intros n Hn Hall _.
    assert (n = alg) as ->; [|done]. destruct (client_list cl) as [|c l]; [done|].
    rewrite <-(Hall c ltac:(left)). apply Hs. left.
Qed.

Lemma keeps_on_cluster {A} ptr (m : M (@algo_state qnetd_client_data qnetd_cluster_data T) A) :
  called ptr m → keeps (on_cluster ptr m).
Proof.
  intros Hm q a q' Hq E.
  destruct (on_cluster_frame ptr m q a q' Hm Hq E)
    as (i & cl & cl' & t & h & Hi & Hf & Ht & Ha & -> & _).
  by apply (replace_cluster_ok q i cl cl' t h).
Qed.

(** Every call of an algorithm. *)
Lemma called_init ptr : called ptr (qnetd_algorithm_client_init ptr).
Proof. intros n *. apply call_algorithm_quiet. intros alg Ha. apply Ha. Qed.
Lemma called_config ptr seq v nodes initial :
  called ptr (qnetd_algorithm_config_node_list_received ptr seq v nodes initial).
Proof. intros n *. apply call_algorithm_quiet. intros alg Ha. apply Ha. Qed.
Lemma called_membership ptr seq ring_id nodes heur :
  called ptr (qnetd_algorithm_membership_node_list_received ptr seq ring_id nodes heur).
Proof. intros n *. apply call_algorithm_quiet. intros alg Ha. apply Ha. Qed.
Lemma called_quorum ptr seq quorate nodes :
  called ptr (qnetd_algorithm_quorum_node_list_received ptr seq quorate nodes).
Proof. intros n *. apply call_algorithm_quiet. intros alg Ha. apply Ha. Qed.
Lemma called_disconnect ptr down : called ptr (qnetd_algorithm_client_disconnect ptr down).
Proof. intros n *. apply call_algorithm_quiet. intros alg Ha. apply Ha. Qed.
Lemma called_ask ptr seq : called ptr (qnetd_algorithm_ask_for_vote_received ptr seq).
Proof. intros n *. apply call_algorithm_quiet. intros alg Ha. apply Ha. Qed.
Lemma called_reply ptr seq : called ptr (qnetd_algorithm_vote_info_reply_received ptr seq).
Proof. intros n *. apply call_algorithm_quiet. intros alg Ha. apply Ha. Qed.
Lemma called_heuristics ptr seq heur :
  called ptr (qnetd_algorithm_heuristics_change_received ptr seq heur).
Proof. intros n *. apply call_algorithm_quiet. intros alg Ha. apply Ha. Qed.
Lemma called_timer ptr : called ptr (qnetd_algorithm_timer_callback ptr).
Proof. intros n *. apply call_algorithm_quiet. intros alg Ha. apply Ha. Qed.

(** ** The timer that disconnects a silent client *)

Lemma client_at_Ok ptr (q : instance) c q' :
  client_at ptr q = (Ok c, q') → q' = q ∧ c ∈ connected_clients q ∧ client_ptr c = ptr ∧
  find_at ptr (connected_clients q) = Some c.
Proof.
  unfold client_at. destruct (find_at _ _) as [c'|] eqn:E; intros [= <- <-].
  by destruct (find_at_Some _ _ _ E).
Qed.

Lemma dpd_running (q : instance) c p :
  qnetd_ok q → c ∈ connected_clients q → dpd_timer c = Some p →
  timers_running (q_timers q) !! p = Some (DPD_TIMER (client_ptr c)).
Proof.
  intros Hq Hc Hp. apply (qo_timers _ Hq). exists (handles c).
  split; [by apply list_elem_of_fmap_2|]. right. done.
Qed.

Lemma on_timers_ok {A} (m : M (T * heap) A) q a q' :
  qnetd_ok q → on_timers m q = (Ok a, q') →
  (∀ t h, m (q_timers q, q_heap q) = (Ok a, (t, h)) →
     timers_inv t ∧ timers_running t = timers_running (q_timers q)) →
  qnetd_ok q' ∧ place q' = place q.
Proof.
  intros Hq. unfold on_timers. destruct (m _) as [r [t h]] eqn:E. intros [= -> <-] Hm.
  destruct (Hm t h eq_refl) as [Hi Hr]. split; [|done]. apply (kept_ok q); try done.
  apply (agree_running _ (q_timers q)); [apply Hq|done|done].
Qed.

Lemma keeps_dpd_reschedule ptr : keeps (qnetd_client_dpd_timer_reschedule ptr).
Proof.
  intros q a q' Hq E. unfold qnetd_client_dpd_timer_reschedule in E.
  apply bind_Ok in E as (c & q1 & E1 & E2). apply client_at_Ok in E1 as (-> & Hc & Hptr & _).
  destruct (dpd_timer c) as [p|] eqn:Hp; [|by injection E2 as _ <-].
  apply (on_timers_ok _ _ _ _ Hq E2). intros t h Ht.
  pose proof (timer_reschedule_law (q_timers q) (q_heap q) p (ag_inv _ _ (qo_timers _ Hq))
    (mk_is_Some _ _ (dpd_running q c p Hq Hc Hp))) as Hl.
  rewrite Ht in Hl. done.
Qed.

Lemma keeps_dpd_update s ptr : keeps (qnetd_client_dpd_timer_update_interval s ptr).
Proof.
  intros q a q' Hq E. unfold qnetd_client_dpd_timer_update_interval in E.
  apply bind_Ok in E as (c & q1 & E1 & E2). apply client_at_Ok in E1 as (-> & Hc & Hptr & _).
  destruct (dpd_timer c) as [p|] eqn:Hp; [|by injection E2 as _ <-].
  apply (on_timers_ok _ _ _ _ Hq E2). intros t h Ht.
  pose proof (timer_set_interval_law (q_timers q) (q_heap q) p (dpd_interval s (heartbeat_interval c))
    (ag_inv _ _ (qo_timers _ Hq)) (mk_is_Some _ _ (dpd_running q c p Hq Hc Hp))) as Hl.
  rewrite Ht in Hl. by destruct Hl as (? & ? & _).
Qed.
End invariant.

Create HintDb keeps.
#[export] Hint Resolve keeps_ret keeps_fail keeps_get keeps_client_at keeps_heap
  keeps_modify_client keeps_send_to keeps_on_cluster keeps_dpd_reschedule keeps_dpd_update
  sends_msg sends_err sends_err_of sends_vote_info : keeps.
#[export] Hint Resolve called_init called_config called_membership called_quorum
  called_disconnect called_ask called_reply called_heuristics called_timer : keeps.

(** Follow the structure of a step of the daemon. *)
Ltac keeps_step :=
  match goal with
  | |- ∀ _, _ => intros ?
  | |- keeps (mbind _ _) => apply keeps_bind
  | |- keeps (match ?x with _ => _ end) => destruct x
  | |- keeps (modify_client _ _) => apply keeps_modify_client; intros []; split; reflexivity
  | |- keeps _ => solve [auto with keeps]
  end.
Ltac keeps_tac := repeat first [keeps_step | progress (cbv beta iota zeta)].
