(* ===== verification/QnetdMsgFacts.v ===== *)
(** Messages and the invariant of the daemon. *)
From S2P Require Import Prelude Dynar Tlv NodeList Msg SendBuffer QnetdClient QnetdCluster.
From stdpp Require Import list gmap.
From S2P Require Import TimerList TimerInterface QnetdAlgoTimer QnetdAlgorithm QnetdInstance.
From S2P Require Import QnetdFrame QnetdInstanceFacts QnetdMsgReceived.
Local Open Scope Z_scope.

Section messages.
Context {T : Type} `{TimerLaws qnetd_timer T}.
Abbreviation instance := (@qnetd_instance T).
Context {Cert : Type} (SSL_PeerCertificate : nat → option Cert).
Context (CERT_VerifyCertName : Cert → option (list byte) → bool).
Context (nss_sock_start_ssl_as_server : nat → bool).
Context (beyond : mem).
Context (settings : qnetd_settings).

(** ** Messages that leave clients where they are *)

Lemma keeps_send_err ptr msg code : keeps (T:=T) (send_err ptr msg code).
Proof. unfold send_err. keeps_tac. Qed.

Lemma keeps_send_reply ptr create : keeps (T:=T) (send_reply ptr create).
Proof. unfold send_reply. keeps_tac. Qed.

Hint Resolve keeps_send_err keeps_send_reply : keeps.

Lemma keeps_check_tls ptr msg :
  keeps (T:=T) (qnetd_client_msg_received_check_tls SSL_PeerCertificate CERT_VerifyCertName
    settings ptr msg).
Proof. unfold qnetd_client_msg_received_check_tls. keeps_tac. Qed.
Hint Resolve keeps_check_tls : keeps.

Lemma keeps_after_tls ptr msg next : keeps next →
  keeps (T:=T) (after_tls SSL_PeerCertificate CERT_VerifyCertName settings ptr msg next).
Proof. intros Hn. unfold after_tls. keeps_tac. Qed.

Lemma keeps_after_init ptr msg next : keeps next →
  keeps (T:=T) (after_init SSL_PeerCertificate CERT_VerifyCertName settings ptr msg next).
Proof. intros Hn. apply keeps_after_tls. keeps_tac. Qed.
Hint Resolve keeps_after_tls keeps_after_init : keeps.

Lemma keeps_preinit ptr msg :
  keeps (T:=T) (qnetd_client_msg_received_preinit settings ptr msg).
Proof.
  unfold qnetd_client_msg_received_preinit. destruct (dm_cluster_name msg); [auto with keeps| |apply keeps_fail].
  apply keeps_bind; [apply keeps_get|]. intros q. destruct (malloc (q_heap q)) as [o h']. keeps_tac.
Qed.

Lemma keeps_starttls ptr msg :
  keeps (T:=T) (qnetd_client_msg_received_starttls nss_sock_start_ssl_as_server ptr msg).
Proof. unfold qnetd_client_msg_received_starttls. keeps_tac. Qed.

Lemma keeps_set_option ptr msg :
  keeps (T:=T) (qnetd_client_msg_received_set_option SSL_PeerCertificate CERT_VerifyCertName
    settings ptr msg).
Proof. apply keeps_after_init. keeps_tac. Qed.

Lemma keeps_store_result_vote ptr vote : keeps (T:=T) (store_result_vote ptr vote).
Proof.
  apply keeps_modify_client. intros c.
  destruct (bool_decide (vote = TLV_VOTE_ACK) || bool_decide (vote = TLV_VOTE_NACK)); by destruct c.
Qed.

Lemma keeps_store_list ptr set nodes : (∀ l, unkept (set l)) → keeps (T:=T) (store_list ptr set nodes).
Proof.
  intros Hs. unfold store_list. apply keeps_bind; [apply keeps_get|]. intros q.
  destruct (node_list_clone _ _) as [r [l h']]. keeps_tac.
Qed.

Lemma keeps_store_node_list ptr type msg : keeps (T:=T) (store_node_list ptr type msg).
Proof.
  unfold store_node_list. destruct type; [| | |by apply keeps_store_list; intros ? []];
    (apply keeps_bind; [by apply keeps_store_list; intros ? []|]); keeps_tac.
Qed.

Lemma keeps_node_list_call ptr seq type msg : keeps (T:=T) (node_list_call ptr seq type msg).
Proof. unfold node_list_call. keeps_tac. Qed.
Hint Resolve keeps_store_result_vote keeps_store_node_list keeps_node_list_call : keeps.

Lemma keeps_node_list ptr msg :
  keeps (T:=T) (qnetd_client_msg_received_node_list SSL_PeerCertificate CERT_VerifyCertName
    settings ptr msg).
Proof. apply keeps_after_init. keeps_tac. Qed.

Lemma keeps_ask_for_vote ptr msg :
  keeps (T:=T) (qnetd_client_msg_received_ask_for_vote SSL_PeerCertificate CERT_VerifyCertName
    settings ptr msg).
Proof. apply keeps_after_init. keeps_tac. Qed.

Lemma keeps_vote_info_reply ptr msg :
  keeps (T:=T) (qnetd_client_msg_received_vote_info_reply SSL_PeerCertificate CERT_VerifyCertName
    settings ptr msg).
Proof. apply keeps_after_init. keeps_tac. Qed.

Lemma keeps_heuristics_change ptr msg :
  keeps (T:=T) (qnetd_client_msg_received_heuristics_change SSL_PeerCertificate
    CERT_VerifyCertName settings ptr msg).
Proof. apply keeps_after_init. keeps_tac. Qed.

Lemma keeps_echo_request ptr msg orig :
  keeps (T:=T) (qnetd_client_msg_received_echo_request SSL_PeerCertificate CERT_VerifyCertName
    settings ptr msg orig).
Proof. apply keeps_after_init. keeps_tac. Qed.

(** ** INIT of a client that is not in a cluster yet *)

Definition in_lobby (ptr : nat) (q : instance) : Prop := ptr ∈ client_ptr <$> q_lobby q.

Definition keeps_lobby {A} (ptr : nat) (m : M instance A) : Prop := ∀ q a q',
  qnetd_ok q → in_lobby ptr q → m q = (Ok a, q') → qnetd_ok q' ∧ place q' = place q.

Lemma place_lobby ptr (q q' : instance) : place q' = place q → in_lobby ptr q → in_lobby ptr q'.
Proof. unfold in_lobby. by intros [= _ _ -> _]. Qed.

Lemma keeps_keeps_lobby {A} ptr (m : M instance A) : keeps m → keeps_lobby ptr m.
Proof. intros Hm q a q' Hq _. by apply Hm. Qed.

Lemma keeps_lobby_bind {A B} ptr (m : M instance A) (f : A → M instance B) :
  keeps_lobby ptr m → (∀ a, keeps_lobby ptr (f a)) → keeps_lobby ptr (m ≫= f).
Proof.
  intros Hm Hf q b q' Hq Hl E. apply bind_Ok in E as (a & q1 & E1 & E2).
  destruct (Hm _ _ _ Hq Hl E1) as [Hq1 P1].
  destruct (Hf a _ _ _ Hq1 (place_lobby _ _ _ P1 Hl) E2) as [Hq2 P2]. split; [done|congruence].
Qed.

Lemma lobby_not_clusters ptr (q : instance) c :
  qnetd_ok q → in_lobby ptr q → c ∈ all_clients (q_clusters q) → client_ptr c ≠ ptr.
Proof.
  intros Hq Hl Hc Hp. pose proof (qo_ptrs _ Hq) as Hnd. unfold connected_clients in Hnd.
  rewrite fmap_app in Hnd. apply NoDup_app in Hnd as (_ & Hd & _).
  apply (Hd ptr Hl). rewrite <-Hp. by apply list_elem_of_fmap_2.
Qed.

Lemma update_clusters_other ptr f (l : list qcluster) :
  (∀ c, c ∈ all_clients l → client_ptr c ≠ ptr) → update_client ptr f <$> l = l.
Proof.
  intros Hl. rewrite <-(list_fmap_id l) at 2. apply Forall_fmap_ext_1, Forall_forall. intros cl Hcl.
  unfold update_client. destruct cl as [n d cs]. unfold set_client_list. cbn. f_equal.
  rewrite <-(list_fmap_id cs) at 2. apply Forall_fmap_ext_1, Forall_forall. intros c Hc. cbn.
  rewrite bool_decide_eq_false_2; [done|]. apply Hl. by eapply all_clients_elem.
Qed.

(** Changes of a client the invariant does not speak about while it has no cluster. *)
Definition unkept_lobby (f : qclient → qclient) : Prop := ∀ c,
  handles (f c) = handles c ∧ init_received (f c) = init_received c ∧
  algorithm_data (f c) = algorithm_data c.

Lemma keeps_modify_lobby ptr f : unkept_lobby f → keeps_lobby ptr (modify_client ptr f).
Proof.
  intros Hf q a q' Hq Hl [= _ <-].
  assert (Ecl : update_client ptr f <$> q_clusters q = q_clusters q).
  { apply update_clusters_other. intros c. by apply lobby_not_clusters. }
  rewrite Ecl. set (l := update_at ptr f (q_lobby q)).
  assert (Hin : ∀ c, c ∈ l → ∃ c0, c0 ∈ q_lobby q ∧ (c = c0 ∨ c = f c0)).
  { intros c (c0 & -> & Hc0)%list_elem_of_fmap. exists c0. destruct (bool_decide _); auto. }
  assert (Eh : handles <$> l = handles <$> q_lobby q).
  { unfold l, update_at. rewrite <-list_fmap_compose. apply list_fmap_ext. intros i c _. cbn.
    by destruct (bool_decide _); [destruct (Hf c)|]. }
  assert (Ep : client_ptr <$> l = client_ptr <$> q_lobby q).
  { apply update_proj. intros c. destruct (Hf c) as [E _]. unfold handles in E. congruence. }
  destruct Hq as [Hpt Hc Hn Hcl Hlo Ht]. unfold connected_clients in *.
  rewrite !fmap_app in *. split; [split|]; unfold connected_clients; cbn; rewrite ?fmap_app, ?Ep, ?Eh;
    try done.
  - apply Forall_forall. intros c Hx. rewrite Forall_forall in Hlo.
    destruct (Hin c Hx) as (c0 & Hc0 & [-> | ->]); [by apply Hlo|].
    destruct (Hf c0) as (_ & -> & ->). by apply Hlo.
  - unfold place. cbn. by rewrite Ep.
Qed.

Lemma keeps_take_option {A} ptr code (o : option A) zero store :
  (∀ v, unkept_lobby (store v)) → keeps_lobby ptr (take_option ptr code o zero store).
Proof.
  intros Hs. unfold take_option. destruct (_ && _); [apply keeps_keeps_lobby, keeps_ret|].
  apply keeps_lobby_bind; [by apply keeps_modify_lobby|]. intros _. apply keeps_keeps_lobby, keeps_ret.
Qed.

Lemma keeps_init_options ptr msg : keeps_lobby ptr (init_options settings ptr msg).
Proof.
  unfold init_options. apply keeps_lobby_bind; [apply keeps_keeps_lobby, keeps_client_at|]. intros c.
  apply keeps_lobby_bind; [apply keeps_take_option; by intros ? []|]. intros code1.
  apply keeps_lobby_bind; [apply keeps_take_option; by intros ? []|]. intros code2.
  apply keeps_lobby_bind; [apply keeps_keeps_lobby; unfold take_heartbeat_interval; keeps_tac|].
  intros code3. apply keeps_lobby_bind; [apply keeps_take_option; by intros ? []|]. intros code4.
  unfold take_decision_algorithm. destruct (_ && _); [apply keeps_keeps_lobby, keeps_ret|].
  apply keeps_lobby_bind; [by apply keeps_modify_lobby; intros []|]. intros _.
  apply keeps_keeps_lobby, keeps_ret.
Qed.

(** The algorithm an accepted client asks for is one of the table. *)
Lemma init_options_algorithm ptr msg q q' c :
  init_options settings ptr msg q = (Ok TLV_REPLY_ERROR_CODE_NO_ERROR, q') →
  find_at ptr (connected_clients q') = Some c →
  0 ≤ decision_algorithm c < QNETD_STATIC_SUPPORTED_DECISION_ALGORITHMS_SIZE.
Proof.
  unfold init_options. intros E Hf.
  apply bind_Ok in E as (? & ? & _ & E). apply bind_Ok in E as (? & ? & _ & E).
  apply bind_Ok in E as (? & ? & _ & E). apply bind_Ok in E as (? & ? & _ & E).
  apply bind_Ok in E as (code & q1 & _ & E). unfold take_decision_algorithm in E.
  destruct (_ && _); [done|]. rewrite (bind_ok (modify_client _ _) _ _ _ _ eq_refl) in E.
  destruct (existsb _ _) eqn:Ex; [|done]. injection E as _ <-.
  assert (Hd : decision_algorithm c = default 0 (dm_decision_algorithm msg)).
  { set (f := QnetdClient.set_decision_algorithm (default 0 (dm_decision_algorithm msg))) in Hf.
    assert (Hf' : find_at ptr (update_at ptr f (connected_clients q1)) = Some c)
      by (rewrite <-connected_modify; exact Hf).
    rewrite find_at_update in Hf' by (by intros []). clear Hf. rename Hf' into Hf.
    destruct (find_at ptr (connected_clients q1)) as [c0|]; [|done]. injection Hf as <-. by destruct c0. }
  rewrite Hd. apply existsb_exists in Ex as (a & Ha & <-%Z.eqb_eq).
  unfold QNETD_STATIC_SUPPORTED_DECISION_ALGORITHMS_SIZE.
  by destruct Ha as [<-|[<-|[<-|[<-|[]]]]].
Qed.
End messages.

(** ** INIT and the invariant of the daemon: an accepted client enters the cluster of its name. *)

Lemma tie_breaker_eq_sym a b : tlv_tie_breaker_eq a b = tlv_tie_breaker_eq b a.
Proof. unfold tlv_tie_breaker_eq. repeat case_match; lia. Qed.

Lemma tie_breaker_eq_trans a b c :
  tlv_tie_breaker_eq a b = true → tlv_tie_breaker_eq b c = true → tlv_tie_breaker_eq a c = true.
Proof. unfold tlv_tie_breaker_eq. repeat case_match; lia. Qed.

Lemma tie_breaker_eq_refl a : tlv_tie_breaker_eq a a = true.
Proof. unfold tlv_tie_breaker_eq. case_match; lia. Qed.

Lemma check_loop_ok (c : qclient) l :
  check_new_client_loop c l = TLV_REPLY_ERROR_CODE_NO_ERROR → ∀ x, x ∈ l →
  tlv_tie_breaker_eq (tie_breaker c) (tie_breaker x) = true ∧
  decision_algorithm c = decision_algorithm x ∧ client_node_id c ≠ client_node_id x.
Proof.
  induction l as [|y l IH]; cbn; [by intros _ x Hx%not_elem_of_nil|].
  destruct (tlv_tie_breaker_eq _ _) eqn:E1; [|done].
  destruct (decision_algorithm c =? _) eqn:E2; [|done].
  destruct (client_node_id c =? _) eqn:E3; [done|].
  intros El x [-> |Hx]%elem_of_cons; [|by apply IH]. split_and!; [done|lia|lia].
Qed.

Section init.
Context {T : Type} `{TimerLaws qnetd_timer T}.
Abbreviation instance := (@qnetd_instance T).

(** ** Entering a cluster *)

Lemma new_cluster_ok name (c : qclient) :
  0 ≤ decision_algorithm c < QNETD_STATIC_SUPPORTED_DECISION_ALGORITHMS_SIZE →
  algorithm_data c = None → cluster_ok (mk_cluster name None [c]).
Proof.
  intros Hr Hd. split; [done| |by apply NoDup_singleton].
  exists (tie_breaker c), (decision_algorithm c). split_and!; [lia|lia| |].
  - split; [|done]. cbn. intros x d ->%list_elem_of_singleton. congruence.
  - cbn. intros x ->%list_elem_of_singleton. split; [|done]. apply tie_breaker_eq_refl.
Qed.

Lemma add_cluster_ok (c : qclient) cl :
  cluster_ok cl → algorithm_data c = None →
  check_new_client_loop c (client_list cl) = TLV_REPLY_ERROR_CODE_NO_ERROR →
  cluster_ok (set_client_list (insert_client c (client_list cl)) cl).
Proof.
  intros [Hne (tb & alg & Hr & [Hty Htc] & Hs) Hids] Hd Hck.
  pose proof (insert_client_perm c (client_list cl)) as Hp. pose proof (check_loop_ok c _ Hck) as Hl.
  assert (Hin : ∀ x, x ∈ insert_client c (client_list cl) → x = c ∨ x ∈ client_list cl).
  { intros x. by rewrite Hp, elem_of_cons. }
  destruct (client_list cl) as [|x0 l0] eqn:El; [done|]. rewrite <-El in *.
  assert (Hx0 : x0 ∈ client_list cl) by (rewrite El; left).
  destruct (Hl x0 Hx0) as (Htb0 & Ha0 & _), (Hs x0 Hx0) as [Htb1 Ha1]. split; cbn.
  - intros E. rewrite E in Hp. by apply Permutation_nil_cons in Hp.
  - exists tb, alg. split_and!; [lia|lia| |].
    + split; [|done]. cbn. intros x d [-> |Hx]%Hin Hxd; [congruence|by eapply Hty].
    + intros x [-> |Hx]%Hin; [|by apply Hs]. split; [|congruence].
      eapply tie_breaker_eq_trans; [exact Htb1|]. by rewrite tie_breaker_eq_sym.
  - rewrite Hp. cbn. constructor; [|done]. intros (x & Hx & Hxl)%list_elem_of_fmap.
    by destruct (Hl x Hxl) as (_ & _ & []).
Qed.

(** Adding a client to the list of clusters, when the check has let it pass. *)
Lemma add_client_ok (c : qclient) (clist : list qcluster) h i clist' h' :
  NoDup (cl_name <$> clist) → Forall cluster_ok clist →
  0 ≤ decision_algorithm c < QNETD_STATIC_SUPPORTED_DECISION_ALGORITHMS_SIZE →
  algorithm_data c = None →
  (∀ j cl, qnetd_cluster_list_find_by_name clist (default [] (cluster_name c)) = Some (j, cl) →
     check_new_client_loop c (client_list cl) = TLV_REPLY_ERROR_CODE_NO_ERROR) →
  qnetd_cluster_list_add_client c (clist, h) = (Ok i, (clist', h')) →
  NoDup (cl_name <$> clist') ∧ Forall cluster_ok clist' ∧
  all_clients clist' ≡ₚ c :: all_clients clist ∧
  ∃ cl, cl ∈ clist' ∧ c ∈ client_list cl ∧ cl_name cl = default [] (cluster_name c).
Proof.
  intros Hn Hcl Hr Hd Hck. unfold qnetd_cluster_list_add_client.
  set (name := default [] (cluster_name c)) in *.
  destruct (qnetd_cluster_list_find_by_name clist name) as [[j cl]|] eqn:Ef.
  - intros [= <- <- <-]. pose proof (Hck j cl eq_refl) as Hck'.
    apply find_by_name_Some in Ef as [Hj Hname]. set (cl' := set_client_list _ cl).
    assert (Hp : client_list cl' ≡ₚ c :: client_list cl) by apply insert_client_perm.
    split_and!; [by rewrite (names_insert _ _ cl)| |by eapply all_clients_insert|].
    + apply Forall_insert; [done|]. apply add_cluster_ok; [|done..].
      rewrite Forall_lookup in Hcl. by eapply Hcl.
    + exists cl'. split_and!; [|rewrite Hp; left|done].
      eapply list_elem_of_lookup_2, list_lookup_insert_eq, lookup_lt_Some, Hj.
  - destruct (malloc h) as [[j|] h1]; [|done]. unfold qnetd_cluster_init.
    destruct (malloc h1) as [[j'|] h2]; [|done]. cbn [client_list insert_client]. intros [= <- <- <-].
    set (cl := set_client_list _ _). split_and!.
    + rewrite fmap_app. apply NoDup_app. split; [done|]. split; [|apply NoDup_singleton].
      intros x Hx ->%list_elem_of_singleton. by apply find_by_name_None in Ef.
    + apply Forall_app. split; [done|]. apply Forall_singleton. by apply new_cluster_ok.
    + unfold all_clients. rewrite bind_app. cbn. by rewrite Permutation_app_comm.
    + exists cl. split_and!; [|left|done]. apply elem_of_app. right. left.
Qed.

Lemma lobby_find ptr (q : instance) :
  in_lobby ptr q → qnetd_ok q → ∃ c, find_at ptr (connected_clients q) = Some c ∧ c ∈ q_lobby q ∧
    client_ptr c = ptr ∧ init_received c = false ∧ algorithm_data c = None.
Proof.
  intros (c & -> & Hc)%list_elem_of_fmap Hq. exists c.
  pose proof (qo_lobby _ Hq) as Hl. rewrite Forall_forall in Hl.
  split_and!; [|done|done|by apply Hl|by apply Hl].
  apply find_at_elem; [apply Hq|]. apply elem_of_app. by left.
Qed.

(** The client is in the cluster of its name. *)
Definition member (ptr : nat) (q : instance) : Prop := ∃ cl c,
  cl ∈ q_clusters q ∧ c ∈ client_list cl ∧ client_ptr c = ptr ∧ cluster_name c = Some (cl_name cl).

Lemma member_not_lobby ptr (q : instance) : qnetd_ok q → member ptr q → ¬ in_lobby ptr q.
Proof.
  intros Hq (cl & c & Hcl & Hc & Hp & _) Hl. eapply lobby_not_clusters; [done..| |exact Hp].
  by eapply all_clients_elem.
Qed.

Lemma join_cluster_ok ptr (q : instance) c name code q' :
  qnetd_ok q → in_lobby ptr q → find_at ptr (connected_clients q) = Some c →
  cluster_name c = Some name →
  0 ≤ decision_algorithm c < QNETD_STATIC_SUPPORTED_DECISION_ALGORITHMS_SIZE →
  (∀ j cl, qnetd_cluster_list_find_by_name (q_clusters q) name = Some (j, cl) →
     check_new_client_loop c (client_list cl) = TLV_REPLY_ERROR_CODE_NO_ERROR) →
  join_cluster ptr q = (Ok code, q') →
  qnetd_ok q' ∧ connected_clients q' ≡ₚ connected_clients q ∧ sockets q' = sockets q ∧
  (code = TLV_REPLY_ERROR_CODE_NO_ERROR → member ptr q').
Proof.
  intros Hq Hl Hf Hname Hr Hck. unfold join_cluster. rewrite Hf.
  destruct (lobby_find ptr q Hl Hq) as (c' & Hf' & Hin & Hp & _ & Hd). rewrite Hf in Hf'.
  injection Hf' as <-. destruct Hq as [Hpt Hc Hn Hcl Hlo Ht].
  destruct (qnetd_cluster_list_add_client c (q_clusters q, q_heap q)) as [[i|e] [clist h]] eqn:Ea.
  - destruct (cluster_of ptr q); [done|]. intros [= <- <-].
    assert (Hck' := Hck). change name with (default [] (Some name)) in Hck'. rewrite <-Hname in Hck'.
    destruct (add_client_ok c _ _ _ _ _ Hn Hcl Hr Hd Hck' Ea)
      as (Hn' & Hcl' & Hperm & cl & Hx & Hcx & Hnx).
    assert (Hll : q_lobby q ≡ₚ c :: filter (λ c, client_ptr c ≠ ptr) (q_lobby q)).
    { apply (del_client_filter_perm (mk_cluster [] None (q_lobby q) : qcluster)); [done|done|].
      unfold connected_clients in Hpt. rewrite fmap_app in Hpt. by apply NoDup_app in Hpt as [? _]. }
    assert (Hall : filter (λ c, client_ptr c ≠ ptr) (q_lobby q) ++ all_clients clist
                     ≡ₚ connected_clients q).
    { unfold connected_clients. rewrite Hperm, <-Permutation_middle, app_comm_cons.
      by apply Permutation_app_tail. }
    split.
    + split; unfold connected_clients; cbn; rewrite ?Hall; try done.
      apply Forall_forall. intros x [_ Hx']%list_elem_of_filter. by rewrite Forall_forall in Hlo; apply Hlo.
    + split_and!; [done..|]. intros _. exists cl, c. split_and!; [done..|]. by rewrite Hnx, Hname.
  - intros [= <- <-]. assert (clist = q_clusters q) as ->; [|done].
    clear Hck. unfold qnetd_cluster_list_add_client in Ea. cbv beta iota zeta in Ea.
    destruct (qnetd_cluster_list_find_by_name _ _) as [[]|]; [done|].
    destruct (malloc _) as [[]]; [|congruence]. destruct (qnetd_cluster_init _ _) as [[]]; congruence.
Qed.

(** ** The flag that INIT was received *)

Lemma cluster_ok_flag ptr (cl : qcluster) :
  cluster_ok cl → cluster_ok (update_client ptr (set_init_received true) cl).
Proof.
  intros [Hne (tb & alg & Hr & [Hty Htc] & Hs) Hids].
  assert (Hin : ∀ c, c ∈ client_list (update_client ptr (set_init_received true) cl) → ∃ c0,
    c0 ∈ client_list cl ∧ algorithm_data c = algorithm_data c0 ∧ tie_breaker c = tie_breaker c0 ∧
    decision_algorithm c = decision_algorithm c0).
  { intros c (c0 & -> & Hc0)%list_elem_of_fmap. exists c0. split; [done|].
    destruct (bool_decide _); by destruct c0. }
  split.
  - cbn. by destruct (client_list cl).
  - exists tb, alg. split_and!; [lia|lia| |].
    + split; [|done]. intros c d (c0 & Hc0 & Ed & _)%Hin Hd. eapply Hty; [exact Hc0|congruence].
    + intros c (c0 & Hc0 & _ & -> & ->)%Hin. by apply Hs.
  - assert (E : client_node_id <$> client_list (update_client ptr (set_init_received true) cl)
      = client_node_id <$> client_list cl) by (apply (update_proj client_node_id); by intros []).
    by rewrite E.
Qed.

Lemma flag_proj {B} (g : qclient → B) ptr (q : instance) :
  (∀ c, g (set_init_received true c) = g c) →
  g <$> connected_clients (snd (modify_client ptr (set_init_received true) q)) =
  g <$> connected_clients q.
Proof.
  intros Hg. rewrite connected_modify. by apply update_proj.
Qed.

Lemma lobby_unchanged ptr f (q : instance) :
  ¬ in_lobby ptr q → update_at ptr f (q_lobby q) = q_lobby q.
Proof.
  intros Hl. rewrite <-(list_fmap_id (q_lobby q)) at 2. apply Forall_fmap_ext_1, Forall_forall.
  intros c Hc. cbn. rewrite bool_decide_eq_false_2; [done|].
  intros <-. by apply Hl, list_elem_of_fmap_2.
Qed.

Lemma flag_ok ptr (q : instance) :
  qnetd_ok q → ¬ in_lobby ptr q → qnetd_ok (snd (modify_client ptr (set_init_received true) q)).
Proof.
  intros Hq Hl. destruct Hq as [Hpt Hc Hn Hcl Hlo Ht].
  pose proof (flag_proj client_ptr ptr q ltac:(by intros [])) as Ep.
  pose proof (flag_proj handles ptr q ltac:(by intros [])) as Eh.
  split; rewrite ?Ep, ?Eh; try done; cbn.
  - rewrite <-list_fmap_compose. exact Hn.
  - apply Forall_fmap. eapply Forall_impl; [exact Hcl|]. intros cl. apply cluster_ok_flag.
  - by rewrite lobby_unchanged.
Qed.

(** The client is in the cluster of its name, and INIT was received. *)
Definition registered (ptr : nat) (q : instance) : Prop := ∃ cl c,
  cl ∈ q_clusters q ∧ c ∈ client_list cl ∧ client_ptr c = ptr ∧ cluster_name c = Some (cl_name cl) ∧
  init_received c = true.

Lemma flag_registered ptr (q : instance) :
  member ptr q → registered ptr (snd (modify_client ptr (set_init_received true) q)).
Proof.
  intros (cl & c & Hcl & Hc & Hp & Hn). exists (update_client ptr (set_init_received true) cl).
  exists (set_init_received true c). split_and!.
  - cbn. by apply list_elem_of_fmap_2.
  - cbn. apply list_elem_of_fmap. exists c. by rewrite bool_decide_eq_true_2.
  - by destruct c.
  - by destruct c.
  - by destruct c.
Qed.

(** ** INIT *)

Lemma member_on_cluster {A} p ptr (m : M (@algo_state qnetd_client_data qnetd_cluster_data T) A)
    (q : instance) a q' :
  called p m → qnetd_ok q → on_cluster p m q = (Ok a, q') → member ptr q → member ptr q'.
Proof.
  intros Hm Hq E (cl0 & c0 & Hcl0 & Hc0 & Hp & Hn).
  destruct (on_cluster_frame p m q a q' Hm Hq E) as (i & cl & cl' & t & h & Hi & [Hna Hf] & _ & _ & -> & _).
  apply list_elem_of_lookup in Hcl0 as [j Hj]. cbn. destruct (decide (i = j)) as [<-|Hij].
  - rewrite Hi in Hj. injection Hj as <-. apply (list_elem_of_fmap_2 core) in Hc0. rewrite <-Hf in Hc0.
    apply list_elem_of_fmap in Hc0 as (c & Ec & Hc). exists cl', c. split_and!.
    + eapply list_elem_of_lookup_2, list_lookup_insert_eq, lookup_lt_Some, Hi.
    + done.
    + rewrite <-Hp. symmetry. apply (f_equal client_ptr) in Ec. by destruct c, c0.
    + rewrite Hna, <-Hn. symmetry. apply (f_equal cluster_name) in Ec. by destruct c, c0.
  - exists cl0, c0. split_and!; [|done..]. cbn. apply (list_elem_of_lookup_2 _ j).
    by rewrite list_lookup_insert_ne.
Qed.

Lemma check_new_client_ok ptr (q : instance) code q' :
  qnetd_client_msg_received_init_check_new_client ptr q = (Ok code, q') → q' = q ∧
  ∃ c name, find_at ptr (connected_clients q) = Some c ∧ cluster_name c = Some name ∧
    (code = TLV_REPLY_ERROR_CODE_NO_ERROR → ∀ j cl,
     qnetd_cluster_list_find_by_name (q_clusters q) name = Some (j, cl) →
     check_new_client_loop c (client_list cl) = TLV_REPLY_ERROR_CODE_NO_ERROR).
Proof.
  unfold qnetd_client_msg_received_init_check_new_client. intros E.
  apply bind_Ok in E as (c & q1 & E1 & E). apply client_at_Ok in E1 as (-> & _ & _ & Hf).
  rewrite (bind_ok get _ _ _ _ eq_refl) in E. destruct (cluster_name c) as [name|] eqn:Hn; [|done].
  injection E as <- <-. split; [done|]. exists c, name. split_and!; [done..|].
  intros Ec j cl Hj. by rewrite Hj in Ec.
Qed.

Definition supported_algorithm (ptr : nat) (q : instance) : Prop := ∀ c,
  find_at ptr (connected_clients q) = Some c →
  0 ≤ decision_algorithm c < QNETD_STATIC_SUPPORTED_DECISION_ALGORITHMS_SIZE.

(** ** A client that is not initialised stays so until INIT is accepted *)

Definition unregistered (ptr : nat) (q : instance) : Prop := ∀ c,
  c ∈ connected_clients q → client_ptr c = ptr → init_received c = false.

Lemma lobby_unregistered ptr (q : instance) : qnetd_ok q → in_lobby ptr q → unregistered ptr q.
Proof.
  intros Hq Hl c [Hc|Hc]%elem_of_app Hp.
  - pose proof (qo_lobby _ Hq) as Hlo. rewrite Forall_forall in Hlo. by apply Hlo.
  - by destruct (lobby_not_clusters ptr q c Hq Hl Hc).
Qed.

Lemma unregistered_on_cluster {A} p ptr
    (m : M (@algo_state qnetd_client_data qnetd_cluster_data T) A) (q : instance) a q' :
  called p m → qnetd_ok q → on_cluster p m q = (Ok a, q') → unregistered ptr q → unregistered ptr q'.
Proof.
  intros Hm Hq E Hu.
  destruct (on_cluster_frame p m q a q' Hm Hq E) as (i & cl & cl' & t & h & Hi & [_ Hf] & _ & _ & -> & _).
  destruct (connected_split i cl cl' q Hi) as [Hp Hp']. intros c Hc Hptr.
  change (c ∈ q_lobby q ++ all_clients (<[i:=cl']> (q_clusters q))) in Hc. rewrite Hp' in Hc.
  apply elem_of_app in Hc as [Hc|Hc].
  - destruct (core_list _ _ _ Hf Hc) as (c0 & Hc0 & Ec).
    assert (client_ptr c0 = ptr) by (rewrite <-Hptr; apply (f_equal client_ptr) in Ec; by destruct c, c0).
    apply core_kept in Ec as (_ & _ & _ & ->). apply Hu; [|done]. rewrite Hp, elem_of_app. by left.
  - apply Hu; [|done]. rewrite Hp, elem_of_app. by right.
Qed.

Lemma init_join_ok settings ptr (q : instance) code q' :
  qnetd_ok q → in_lobby ptr q → supported_algorithm ptr q →
  init_join settings ptr q = (Ok code, q') →
  qnetd_ok q' ∧ sockets q' = sockets q ∧ unregistered ptr q' ∧
  (code = TLV_REPLY_ERROR_CODE_NO_ERROR → member ptr q').
Proof.
  intros Hq Hl Hr E. unfold init_join in E. set (f := set_keep_active_partition_tie_breaker _) in E.
  rewrite (bind_ok (modify_client ptr f) _ q tt (snd (modify_client ptr f q)) eq_refl) in E.
  set (q1 := snd (modify_client ptr f q)) in E.
  destruct (keeps_modify_lobby ptr f ltac:(by intros []) q tt q1 Hq Hl eq_refl) as [Hq1 Hp1].
  pose proof (place_sockets _ _ Hp1) as Hs1.
  pose proof (place_lobby _ _ _ Hp1 Hl) as Hl1. pose proof (lobby_unregistered _ _ Hq1 Hl1) as Hu1.
  apply bind_Ok in E as (code1 & q2 & E1 & E).
  apply check_new_client_ok in E1 as (-> & c1 & name & Hf1 & Hn & Hck).
  destruct (code1 =? _) eqn:Ec1; cbn [negb] in E; [apply Z.eqb_eq in Ec1 as ->|].
  2: { injection E as <- <-. split_and!; [done..|]. intros ->. done. }
  apply bind_Ok in E as (code2 & q3 & E2 & E).
  destruct (join_cluster_ok ptr q1 c1 name code2 q3) as (Hq3 & Hperm & Hso & Hm); try done; [|by apply Hck|].
  { unfold q1 in Hf1. rewrite connected_modify, find_at_update in Hf1 by (by intros []).
    destruct (find_at ptr (connected_clients q)) as [c|] eqn:Hf; [|done]. injection Hf1 as <-.
    specialize (Hr c Hf). by destruct c. }
  assert (Hu3 : unregistered ptr q3) by (intros x Hx; apply Hu1; by rewrite <-Hperm).
  destruct (code2 =? _) eqn:Ec2; cbn [negb] in E; [apply Z.eqb_eq in Ec2 as ->|].
  2: { injection E as <- <-. split_and!; [done|congruence|done|]. intros ->. done. }
  destruct (keeps_on_cluster ptr _ (called_init ptr) _ _ _ Hq3 E) as [Hq' Hp'%place_sockets].
  split_and!; [done|congruence|exact (unregistered_on_cluster _ _ _ _ _ _ (called_init ptr) Hq3 E Hu3)|].
  intros _. exact (member_on_cluster _ _ _ _ _ _ (called_init ptr) Hq3 E (Hm eq_refl)).
Qed.

Lemma init_accept_ok settings ptr msg (q : instance) code q' :
  qnetd_ok q → in_lobby ptr q → init_accept settings ptr msg q = (Ok code, q') →
  qnetd_ok q' ∧ sockets q' = sockets q ∧
  if code =? TLV_REPLY_ERROR_CODE_NO_ERROR then registered ptr q' else unregistered ptr q'.
Proof.
  intros Hq Hl E. unfold init_accept in E. apply bind_Ok in E as (code1 & q1 & E1 & E).
  destruct (keeps_init_options settings ptr msg q code1 q1 Hq Hl E1) as [Hq1 Hp1].
  pose proof (place_lobby _ _ _ Hp1 Hl) as Hl1.
  apply bind_Ok in E as (code2 & q2 & E2 & E).
  pose proof (place_sockets _ _ Hp1) as Hs1.
  assert (H2 : qnetd_ok q2 ∧ sockets q2 = sockets q1 ∧ unregistered ptr q2 ∧
               (code2 = TLV_REPLY_ERROR_CODE_NO_ERROR → member ptr q2)).
  { destruct (code1 =? _) eqn:Ec1; [apply Z.eqb_eq in Ec1 as ->|].
    - eapply init_join_ok; [exact Hq1|done| |exact E2].
      intros c. eapply init_options_algorithm, E1.
    - injection E2 as <- <-. split_and!; [done|done|by apply lobby_unregistered|]. intros ->. done. }
  destruct H2 as (Hq2 & Hs2 & Hu2 & Hm2). destruct (code2 =? _) eqn:Ec2.
  - apply Z.eqb_eq in Ec2 as ->. specialize (Hm2 eq_refl).
    rewrite (bind_ok (modify_client _ _) _ _ _ _ eq_refl) in E. injection E as <- <-.
    pose proof (flag_ok ptr q2 Hq2 (member_not_lobby _ _ Hq2 Hm2)) as Hq3.
    split; [exact Hq3|]. split; [change (sockets q2 = sockets q); congruence|]. by apply flag_registered.
  - injection E as <- <-. rewrite Ec2. split_and!; [done|congruence|done].
Qed.

Context {Cert : Type} (SSL_PeerCertificate : nat → option Cert).
Context (CERT_VerifyCertName : Cert → option (list byte) → bool).

Lemma init_ok settings ptr msg (q : instance) r q' :
  qnetd_ok q → in_lobby ptr q →
  qnetd_client_msg_received_init SSL_PeerCertificate CERT_VerifyCertName settings ptr msg q =
    (Ok r, q') → qnetd_ok q' ∧ sockets q' = sockets q.
Proof.
  intros Hq Hl E. unfold qnetd_client_msg_received_init, after_tls in E.
  apply bind_Ok in E as (res & q1 & E1 & E).
  destruct (keeps_check_tls SSL_PeerCertificate CERT_VerifyCertName settings ptr msg q res q1 Hq E1)
    as [Hq1 Hp1].
  pose proof (place_sockets _ _ Hp1) as Hs1. destruct (negb _); [by injection E as _ <-|]. apply bind_Ok in E as (code & q2 & E2 & E).
  destruct (init_accept_ok settings ptr msg q1 code q2 Hq1 (place_lobby _ _ _ Hp1 Hl) E2)
    as (Hq2 & Hs2 & _).
  eapply keeps_send_reply in E as [? Hs3%place_sockets]; [|done]. split; [done|congruence].
Qed.
End init.
