(* ===== verification/QnetdDaemonFacts.v ===== *)
(** The steps of the daemon qnetd: messages, timers, connections and disconnections. *)
From S2P Require Import Prelude Dynar Tlv NodeList Msg Msgio SendBuffer QnetdClient QnetdCluster.
From stdpp Require Import list gmap.
From S2P Require Import TimerList TimerInterface QnetdAlgoTimer QnetdAlgorithm QnetdInstance.
From S2P Require Import QnetdFrame QnetdInstanceFacts QnetdMsgReceived QnetdMsgFacts.
From S2P Require Import QnetdClientNet.
Local Open Scope Z_scope.

Section daemon.
Context {T : Type} `{TimerLaws qnetd_timer T}.
Abbreviation instance := (@qnetd_instance T).
Context {Cert : Type} (SSL_PeerCertificate : nat → option Cert).
Context (CERT_VerifyCertName : Cert → option (list byte) → bool).
Context (nss_sock_start_ssl_as_server : nat → bool).
Context (beyond : mem).
Context (settings : qnetd_settings).

(** ** A message *)

(** A step that keeps the invariant and the sockets. *)
Definition steady {A} (m : M instance A) : Prop := ∀ q a q',
  qnetd_ok q → m q = (Ok a, q') → qnetd_ok q' ∧ sockets q' = sockets q.

Lemma keeps_steady {A} (m : M instance A) : keeps m → steady m.
Proof. intros Hm q a q' Hq E. destruct (Hm q a q' Hq E) as [? ?%place_sockets]. done. Qed.

Lemma dispatch_ok ptr msg orig (q : instance) r q' :
  qnetd_ok q → (dm_type msg = MSG_TYPE_INIT → in_lobby ptr q) →
  msg_received_dispatch SSL_PeerCertificate CERT_VerifyCertName nss_sock_start_ssl_as_server
    settings ptr msg orig q = (Ok r, q') →
  qnetd_ok q' ∧ sockets q' = sockets q.
Proof.
  intros Hq Hi. unfold msg_received_dispatch. cbv zeta.
  destruct (dm_type msg =? MSG_TYPE_INIT) eqn:Ei.
  - apply Z.eqb_eq in Ei. rewrite Ei. cbn [Z.eqb MSG_TYPE_PREINIT MSG_TYPE_PREINIT_REPLY MSG_TYPE_STARTTLS MSG_TYPE_INIT].
    apply init_ok; [done|by apply Hi].
  - clear Hi. revert q r q' Hq. apply keeps_steady.
    repeat match goal with |- keeps (if ?b then _ else _) => destruct b end;
      first [apply keeps_send_err|auto using keeps_preinit, keeps_starttls, keeps_set_option, keeps_echo_request,
        keeps_node_list, keeps_ask_for_vote, keeps_vote_info_reply, keeps_heuristics_change].
Qed.

(** An INIT comes from a client that is in no cluster yet. *)
Definition first_init (ptr : nat) (q : instance) : Prop := ∀ c h msg h',
  find_at ptr (connected_clients q) = Some c →
  msg_decode beyond (receive_buffer c) (msg_decoded_init, h) = (0, (msg, h')) →
  dm_type msg = MSG_TYPE_INIT → in_lobby ptr q.

Lemma on_timers_clients {A} (m : M (T * heap) A) (q : instance) a q' :
  on_timers m q = (Ok a, q') → connected_clients q' = connected_clients q ∧ place q' = place q.
Proof. unfold on_timers. destruct (m _) as [r [t h]]. by intros [= _ <-]. Qed.

Lemma dpd_reschedule_clients ptr (q : instance) a q' :
  qnetd_client_dpd_timer_reschedule ptr q = (Ok a, q') →
  connected_clients q' = connected_clients q ∧ place q' = place q.
Proof.
  unfold qnetd_client_dpd_timer_reschedule. intros E. apply bind_Ok in E as (c & q1 & E1 & E).
  apply client_at_Ok in E1 as (-> & _). destruct (dpd_timer c); [by eapply on_timers_clients|].
  by injection E as _ <-.
Qed.

Lemma msg_received_ok ptr (q : instance) r q' :
  qnetd_ok q → first_init ptr q →
  qnetd_client_msg_received SSL_PeerCertificate CERT_VerifyCertName nss_sock_start_ssl_as_server
    beyond settings ptr q = (Ok r, q') →
  qnetd_ok q' ∧ sockets q' = sockets q.
Proof.
  intros Hq Hi E. unfold qnetd_client_msg_received in E.
  apply bind_Ok in E as ([] & q1 & E1 & E).
  destruct (keeps_dpd_reschedule ptr _ _ _ Hq E1) as [Hq1 _].
  apply dpd_reschedule_clients in E1 as [Ec Hp1]. pose proof (place_sockets _ _ Hp1) as Hs1.
  apply bind_Ok in E as (c & q2 & E2 & E). apply client_at_Ok in E2 as (-> & _ & _ & Hf).
  rewrite Ec in Hf. rewrite (bind_ok get _ _ _ _ eq_refl) in E.
  destruct (msg_decode beyond (receive_buffer c) (msg_decoded_init, q_heap q1)) as [res [msg h']] eqn:Ed.
  rewrite (bind_ok (modify _) _ _ _ _ eq_refl) in E.
  destruct (keeps_heap h' q1 tt _ Hq1 eq_refl) as [Hq2 Hp2].
  destruct (res =? 0) eqn:Er; cbn [negb] in E.
  - apply Z.eqb_eq in Er as ->. apply dispatch_ok in E as [? Hs]; [|done|].
    + split; [done|]. rewrite Hs. exact Hs1.
    + intros Ht. apply (place_lobby ptr q); [by etrans|]. by eapply Hi.
  - destruct (keeps_send_err ptr msg _ _ _ _ Hq2 E) as [? Hs%place_sockets].
    split; [done|]. rewrite Hs. exact Hs1.
Qed.

(** ** Reading and writing on the socket of a client *)

Context {sock : Type}.
Context (PR_Send : sock → list byte → Z * sock).
Context (PR_Recv : sock → Z → Z * list byte * sock).
Context (PR_GetError : sock → Z) (PR_WOULD_BLOCK_ERROR : Z).
Abbreviation state := (instance * sock)%type.

Definition net_steady {A} (m : M state A) : Prop := ∀ q s a q' s',
  qnetd_ok q → m (q, s) = (Ok a, (q', s')) → qnetd_ok q' ∧ sockets q' = sockets q.

Lemma net_ret {A} (a : A) : net_steady (mret a).
Proof. by intros q s a' q' s' Hq [= <- <- <-]. Qed.
Lemma net_fail {A} c : net_steady (fail (A:=A) c).
Proof. by intros q s a' q' s' Hq [=]. Qed.
Lemma net_get : net_steady get.
Proof. by intros q s a' q' s' Hq [= <- <- <-]. Qed.
Lemma net_sock (s0 : sock) : net_steady (modify (λ '(q, _), (q, s0))).
Proof. by intros q s a' q' s' Hq [= <- <- <-]. Qed.
Lemma net_heap_sock h (s0 : sock) : net_steady (modify (λ '(q, _), (set_heap h q, s0))).
Proof. intros q s a' q' s' Hq [= <- <- <-]. split; [|done]. by destruct Hq. Qed.
Lemma net_on_instance {A} (m : M instance A) : keeps m → net_steady (on_instance m).
Proof.
  intros Hm q s a q' s' Hq. unfold on_instance. destruct (m q) as [r q1] eqn:E.
  intros [= -> <- <-]. by apply (keeps_steady _ Hm q a).
Qed.
Lemma net_bind {A B} (m : M state A) (f : A → M state B) :
  net_steady m → (∀ a, net_steady (f a)) → net_steady (m ≫= f).
Proof.
  intros Hm Hf q s b q' s' Hq E. apply bind_Ok in E as (a & [q1 s1] & E1 & E2).
  destruct (Hm _ _ _ _ _ Hq E1) as [Hq1 S1]. destruct (Hf a _ _ _ _ _ Hq1 E2) as [Hq2 S2].
  split; [done|congruence].
Qed.

Ltac net_step :=
  match goal with
  | |- ∀ _, _ => intros ?
  | |- net_steady (mbind _ _) => apply net_bind
  | |- net_steady (on_instance _) => apply net_on_instance; keeps_tac
  | |- net_steady (mret _) => apply net_ret
  | |- net_steady (fail _) => apply net_fail
  | |- net_steady get => apply net_get
  | |- net_steady (modify _) => first [apply net_sock | apply net_heap_sock]
  | |- net_steady (match ?x with _ => _ end) => destruct x
  end.
Ltac net_tac := repeat first [net_step | progress (cbv beta iota zeta)].

Lemma net_write ptr :
  net_steady (qnetd_client_net_write (T:=T) PR_Send PR_GetError PR_WOULD_BLOCK_ERROR ptr).
Proof. unfold qnetd_client_net_write, qnetd_client_net_write_finished. net_tac. Qed.

Lemma net_msgio_read ptr :
  net_steady (client_msgio_read (T:=T) PR_Recv PR_GetError PR_WOULD_BLOCK_ERROR beyond ptr).
Proof. unfold client_msgio_read. net_tac. Qed.

Lemma keeps_reset ptr : keeps (T:=T) (modify_client ptr reset_received).
Proof. apply keeps_modify_client. intros []. split; reflexivity. Qed.

(** Reading, when an INIT is the first of its client. *)
Lemma net_read_ok ptr (q : instance) s r q' s' :
  qnetd_ok q →
  (∀ q1 s1, client_msgio_read PR_Recv PR_GetError PR_WOULD_BLOCK_ERROR beyond ptr (q, s) =
     (Ok 1, (q1, s1)) → first_init ptr q1) →
  qnetd_client_net_read SSL_PeerCertificate CERT_VerifyCertName nss_sock_start_ssl_as_server
    PR_Recv PR_GetError PR_WOULD_BLOCK_ERROR beyond settings ptr (q, s) = (Ok r, (q', s')) →
  qnetd_ok q' ∧ sockets q' = sockets q.
Proof.
  intros Hq Hi E. unfold qnetd_client_net_read in E. apply bind_Ok in E as (res & [q1 s1] & E1 & E).
  destruct (net_msgio_read ptr _ _ _ _ _ Hq E1) as [Hq1 S1]. cbv zeta in E.
  destruct (res =? 1) eqn:Er.
  - apply Z.eqb_eq in Er as ->. cbn [Z.eqb orb] in E.
    apply bind_Ok in E as (c & [q2 s2] & E2 & E). unfold on_instance in E2.
    destruct (client_at ptr q1) as [rc q0] eqn:Ec. injection E2 as -> -> ->.
    apply client_at_Ok in Ec as (-> & _). apply bind_Ok in E as (r1 & [q3 s3] & E3 & E).
    assert (H3 : qnetd_ok q3 ∧ sockets q3 = sockets q1).
    { destruct (client_skipping_msg c) eqn:Ek; cbn [negb] in E3.
      - revert E3. apply net_on_instance; [keeps_tac|done].
      - unfold on_instance in E3. destruct (qnetd_client_msg_received _ _ _ _ _ _ _) as [rr qq] eqn:Em.
        injection E3 as -> -> ->. eapply msg_received_ok; [done|by eapply Hi|exact Em]. }
    destruct H3 as [Hq3 S3]. apply bind_Ok in E as (u & [q4 s4] & E4 & [= _ <- _]).
    destruct (net_on_instance _ (keeps_reset ptr) _ _ _ _ _ Hq3 E4) as [Hq4 S4].
    split; [done|congruence].
  - rewrite <-S1. refine ((λ Hn : net_steady _, Hn q1 s1 r q' s' Hq1 E) _). net_tac.
Qed.

(** The callbacks of the poll loop. *)
Lemma net_write_cb ptr : net_steady
  (qnetd_client_net_socket_poll_loop_write_cb (T:=T) PR_Send PR_GetError PR_WOULD_BLOCK_ERROR ptr).
Proof.
  unfold qnetd_client_net_socket_poll_loop_write_cb, unless_disconnecting.
  pose proof (net_write ptr) as Hw. net_tac. exact Hw.
Qed.

Lemma net_err_cb ptr : net_steady (qnetd_client_net_socket_poll_loop_err_cb (T:=T) ptr).
Proof. unfold qnetd_client_net_socket_poll_loop_err_cb, unless_disconnecting. net_tac. Qed.

Lemma read_cb_ok ptr (q : instance) s r q' s' :
  qnetd_ok q →
  (∀ q1 s1, client_msgio_read PR_Recv PR_GetError PR_WOULD_BLOCK_ERROR beyond ptr (q, s) =
     (Ok 1, (q1, s1)) → first_init ptr q1) →
  qnetd_client_net_socket_poll_loop_read_cb SSL_PeerCertificate CERT_VerifyCertName
    nss_sock_start_ssl_as_server PR_Recv PR_GetError PR_WOULD_BLOCK_ERROR beyond settings ptr (q, s)
    = (Ok r, (q', s')) →
  qnetd_ok q' ∧ sockets q' = sockets q.
Proof.
  intros Hq Hi E. unfold qnetd_client_net_socket_poll_loop_read_cb, unless_disconnecting in E.
  apply bind_Ok in E as (c & [q1 s1] & E1 & E).
  assert (q1 = q ∧ s1 = s) as [-> ->].
  { unfold on_instance in E1. destruct (client_at ptr q) as [rc q0] eqn:Ec.
    injection E1 as -> -> ->. by apply client_at_Ok in Ec as (-> & _). }
  apply bind_Ok in E as (u & [q2 s2] & E2 & [= _ <- <-]).
  destruct (negb (schedule_disconnect c)); [|by injection E2 as _ <- <-].
  apply bind_Ok in E2 as (r2 & [q3 s3] & E3 & E2).
  destruct (net_read_ok ptr q s r2 q3 s3 Hq Hi E3) as [Hq3 S3]. rewrite <-S3.
  refine ((λ Hn : net_steady _, Hn _ _ _ _ _ Hq3 E2) _). net_tac.
Qed.

(** ** Disconnecting *)

(** A client and the others. *)
Lemma client_split ptr (q : instance) c :
  qnetd_ok q → find_at ptr (connected_clients q) = Some c → ∃ rest,
    connected_clients q ≡ₚ c :: rest ∧ ptr ∉ client_ptr <$> rest ∧
    ∀ f, update_at ptr f (connected_clients q) ≡ₚ f c :: rest.
Proof.
  intros Hq [Hc Hp]%find_at_Some. set (l := connected_clients q) in *.
  set (rest := filter (λ c, client_ptr c ≠ ptr) l). exists rest.
  assert (Hl : l ≡ₚ c :: rest).
  { apply (del_client_filter_perm (mk_cluster [] None l : qcluster)); [done|done|apply Hq]. }
  assert (Hr : ∀ x, x ∈ rest → client_ptr x ≠ ptr) by (intros x [? _]%list_elem_of_filter; done).
  split_and!; [done| |].
  - intros (x & Hx & Hin)%list_elem_of_fmap. by apply (Hr x).
  - intros f. unfold update_at. rewrite Hl, fmap_cons, bool_decide_eq_true_2 by done. f_equiv.
    erewrite (list_fmap_ext _ id); [by rewrite list_fmap_id|]. intros i x Hx. cbn.
    rewrite bool_decide_eq_false_2; [done|]. apply Hr. by eapply list_elem_of_lookup_2.
Qed.

Lemma handles_ptr (l : list qclient) : (λ h, fst (fst h)) <$> (handles <$> l) = client_ptr <$> l.
Proof. by rewrite <-list_fmap_compose. Qed.

Definition no_dpd_timer (ptr : nat) (q : instance) : Prop := ∀ c,
  c ∈ connected_clients q → client_ptr c = ptr → dpd_timer c = None.

Lemma dpd_destroy_ok ptr (q : instance) a q' :
  qnetd_ok q → qnetd_client_dpd_timer_destroy ptr q = (Ok a, q') →
  qnetd_ok q' ∧ place q' = place q ∧ no_dpd_timer ptr q'.
Proof.
  intros Hq E. unfold qnetd_client_dpd_timer_destroy in E.
  apply bind_Ok in E as (c & q1 & E1 & E). apply client_at_Ok in E1 as (-> & Hc & Hptr & Hf).
  destruct (client_split ptr q c Hq Hf) as (rest & Hp & Hni & Hu).
  destruct (dpd_timer c) as [p|] eqn:Ht.
  - apply bind_Ok in E as ([] & q1 & E1 & [= _ <-]). unfold on_timers in E1.
    pose proof (timer_delete_law (q_timers q) (q_heap q) p (ag_inv _ _ (qo_timers _ Hq))
      (mk_is_Some _ _ (dpd_running q c p Hq Hc Ht))) as Hd.
    destruct (timer_delete p (q_timers q, q_heap q)) as [r [t h]]. injection E1 as -> <-.
    destruct Hd as (-> & Hi & Hr).
    destruct (modify_timers_ok ptr (set_dpd_timer None) q t (q_heap q)) as [Hq' Hp'].
    + done.
    + intros x _ _. by destruct x.
    + eapply agree_perm; [apply fmap_Permutation; symmetry; apply Hu|]. rewrite fmap_cons.
      replace (handles (set_dpd_timer None c)) with (set_handle false None (handles c)) by (by destruct c).
      apply (agree_delete false _ _ (q_timers q) t p); [|by rewrite handles_ptr; cbn; rewrite Hptr|done|done|done].
      eapply agree_perm; [|apply Hq]. by rewrite Hp.
    + split_and!; [exact Hq'|exact Hp'|]. intros x Hx Hpx. 
      assert (Hx' : x ∈ update_at ptr (set_dpd_timer None) (connected_clients q))
        by (rewrite <-connected_modify; exact Hx).
      rewrite Hu in Hx'. apply elem_of_cons in Hx' as [->|Hx']; [by destruct c|].
      destruct Hni. rewrite <-Hpx. by apply list_elem_of_fmap_2.
  - injection E as _ <-. split_and!; [done..|]. intros x Hx Hpx.
    rewrite Hp in Hx. apply elem_of_cons in Hx as [->|Hx]; [done|].
    destruct Hni. rewrite <-Hpx. by apply list_elem_of_fmap_2.
Qed.

Lemma cluster_of_Some ptr (q : instance) i : cluster_of ptr q = Some i →
  ∃ cl c, q_clusters q !! i = Some cl ∧ c ∈ client_list cl ∧ client_ptr c = ptr.
Proof.
  unfold cluster_of. destruct (list_find _ _) as [[j cl]|] eqn:E; [|done]. intros [= ->].
  apply list_find_Some in E as (Hi & [c Hc] & _). apply get_client_Some in Hc as [? ?]. by exists cl, c.
Qed.

Lemma cluster_of_None ptr (q : instance) : cluster_of ptr q = None →
  ∀ c, c ∈ all_clients (q_clusters q) → client_ptr c ≠ ptr.
Proof.
  unfold cluster_of. destruct (list_find _ _) as [[j cl]|] eqn:E; [done|]. intros _ c Hc Hp.
  apply list_elem_of_bind in Hc as (cl & Hc & Hcl). apply list_find_None in E.
  rewrite Forall_forall in E. apply (E cl Hcl). unfold get_client.
  destruct (list_find_elem_of (λ c, client_ptr c = ptr) _ c Hc Hp) as [x ->]. by eexists.
Qed.

Lemma filtered_cluster_ok cl l ptr :
  cluster_ok cl → l = filter (λ c, client_ptr c ≠ ptr) (client_list cl) → l ≠ [] →
  cluster_ok (set_client_list l cl).
Proof.
  intros [_ (tb & alg & Hr & [Hty Htc] & Hs) Hids] -> Hne.
  assert (Hin : ∀ c, c ∈ filter (λ c, client_ptr c ≠ ptr) (client_list cl) → c ∈ client_list cl)
    by (intros c [_ ?]%list_elem_of_filter; done).
  split; [done| |].
  - exists tb, alg. split_and!; [lia|lia| |].
    + split; [|done]. intros c d Hc. by apply Hty, Hin.
    + intros c Hc. by apply Hs, Hin.
  - eapply sublist_NoDup; [exact Hids|]. cbn. apply fmap_sublist, sublist_filter.
Qed.

Lemma del_client_ok ptr (clist : list qcluster) i cl c :
  NoDup (cl_name <$> clist) → Forall cluster_ok clist → NoDup (client_ptr <$> client_list cl) →
  clist !! i = Some cl → c ∈ client_list cl → client_ptr c = ptr →
  let clist' := qnetd_cluster_list_del_client i ptr clist in
  NoDup (cl_name <$> clist') ∧ Forall cluster_ok clist' ∧ all_clients clist ≡ₚ c :: all_clients clist'.
Proof.
  intros Hn Hcl Hnd Hi Hc Hp clist'. unfold clist', qnetd_cluster_list_del_client. rewrite Hi.
  pose proof (del_client_filter_perm cl ptr c Hc Hp Hnd) as Hperm.
  destruct (filter _ (client_list cl)) as [|c1 l] eqn:Ef.
  - split_and!.
    + eapply sublist_NoDup; [exact Hn|]. apply fmap_sublist, sublist_delete.
    + by apply Forall_delete.
    + apply Permutation_singleton_r in Hperm. by eapply all_clients_delete.
  - split_and!.
    + by rewrite (names_insert _ _ cl).
    + apply Forall_insert; [done|]. eapply filtered_cluster_ok; [|by rewrite Ef|done].
      rewrite Forall_lookup in Hcl. by eapply Hcl.
    + assert (E : <[i:=cl]> (<[i:=set_client_list (c1 :: l) cl]> clist) = clist)
        by (rewrite list_insert_insert_eq; by apply list_insert_id).
      rewrite <-E at 1. apply (all_clients_insert _ _ (set_client_list (c1 :: l) cl) cl c); [|exact Hperm].
      apply list_lookup_insert_eq. by eapply lookup_lt_Some.
Qed.

Lemma cluster_NoDup (q : instance) i cl :
  qnetd_ok q → q_clusters q !! i = Some cl → NoDup (client_ptr <$> client_list cl).
Proof.
  intros Hq Hi. destruct (connected_split i cl cl q Hi) as [Hp _].
  pose proof (qo_ptrs _ Hq) as Hnd. rewrite Hp, fmap_app in Hnd. by apply NoDup_app in Hnd as [? _].
Qed.

(** The client leaves its cluster. *)
Lemma leave_ok ptr (q : instance) c :
  qnetd_ok q → find_at ptr (connected_clients q) = Some c →
  let q' := snd (leave_cluster ptr q) in
  q_clients q' = q_clients q ∧ q_polled q' = q_polled q ∧ q_timers q' = q_timers q ∧
  q_heap q' = q_heap q ∧
  filter (λ c, client_ptr c ≠ ptr) (q_lobby q') = filter (λ c, client_ptr c ≠ ptr) (q_lobby q) ∧
  NoDup (cl_name <$> q_clusters q') ∧ Forall cluster_ok (q_clusters q') ∧
  (∀ x, x ∈ all_clients (q_clusters q') → client_ptr x ≠ ptr) ∧
  connected_clients q' ≡ₚ connected_clients q.
Proof.
  intros Hq Hf q'. unfold q', leave_cluster, modify. cbn [snd]. rewrite Hf.
  destruct (cluster_of ptr q) as [i|] eqn:Ec.
  2: { split_and!; try done; [apply Hq|apply Hq|by apply cluster_of_None]. }
  apply cluster_of_Some in Ec as (cl & c0 & Hi & Hc0 & Hp0). apply find_at_Some in Hf as [Hc Hp].
  assert (c0 = c) as ->.
  { apply (NoDup_fmap_inj client_ptr (connected_clients q)); [apply Hq| |done|congruence].
    apply elem_of_app. right. eapply all_clients_elem; [|done]. by eapply list_elem_of_lookup_2. }
  destruct (del_client_ok ptr (q_clusters q) i cl c) as (Hn & Hcl & Hperm); try done.
  - apply Hq.
  - apply Hq.
  - by eapply cluster_NoDup.
  - assert (Hall : connected_clients q ≡ₚ c :: q_lobby q ++
                     all_clients (qnetd_cluster_list_del_client i ptr (q_clusters q))).
    { unfold connected_clients. rewrite Hperm. symmetry. apply Permutation_middle. }
    split_and!; try done; cbn.
    + rewrite filter_app, filter_cons_False, app_nil_r; [done|]. intros Hx. by apply Hx.
    + intros x Hx Hpx. pose proof (qo_ptrs _ Hq) as Hnd. rewrite Hall, fmap_cons in Hnd.
      apply NoDup_cons in Hnd as [Hni _]. apply Hni. rewrite Hp. rewrite <-Hpx at 1.
      apply list_elem_of_fmap_2. apply elem_of_app. by right.
    + unfold connected_clients at 1. cbn. rewrite Hall, <-app_assoc. symmetry. apply Permutation_middle.
Qed.

(** A client without timers goes away. *)
Lemma agree_drop ptr hs (t : T) : agree ((ptr, None, None) :: hs) t → agree hs t.
Proof.
  intros [Hi Hr]. split; [done|]. intros p f. rewrite Hr. split.
  - intros (h & [->|Hh]%elem_of_cons & Ho); [by destruct Ho as [[_ [=]]|[_ [=]]]|by exists h].
  - intros (h & Hh & Ho). exists h. split; [by right|done].
Qed.

(** Its timer is deleted, wherever the client is. *)
Lemma abort_ok ptr (q : instance) c rest a q' :
  connected_clients q ≡ₚ c :: rest → NoDup (client_ptr <$> connected_clients q) →
  agree (handles <$> connected_clients q) (q_timers q) →
  client_ptr c = ptr → dpd_timer c = None →
  on_client_only ptr (qnetd_client_algo_timer_abort ptr) q = (Ok a, q') →
  ∃ c' t h, q' = set_heap h (set_timers t (snd (modify_client ptr (λ _, c') q))) ∧
    client_ptr c' = ptr ∧ agree (handles <$> rest) t.
Proof.
  intros Hp Hnd Ha Hptr Hd. unfold on_client_only. 
  assert (Hf : find_at ptr (connected_clients q) = Some c).
  { rewrite <-Hptr. apply find_at_elem; [done|]. rewrite Hp. left. }
  rewrite Hf. set (cl := mk_cluster [] None [c]).
  destruct (qnetd_client_algo_timer_abort ptr (cl, (q_timers q, q_heap q))) as [r [cl' [t h]]] eqn:E.
  intros [= -> <-]. rewrite Hp, fmap_cons in Ha. 
  assert (Hnd' : NoDup (ptrs_of (handles_of cl ++ (handles <$> rest)))).
  { change (NoDup (ptrs_of (handles <$> (c :: rest)))). by rewrite ptrs_of_fmap, <-Hp. }
  destruct (quiet_abort ptr (handles <$> rest) cl _ _ _ _ _ _ Hnd' Ha E) as [Hfr Ha'].
  destruct (abort_clears _ _ _ _ _ _ _ _ E) as (c' & Hc' & Ht'). pose proof (framed_ptrs _ _ Hfr) as Ep.
  pose proof (fr_core _ _ Hfr) as Ec. cbn in Ec, Ep. rewrite Hc'.
  pose proof (get_client_Some _ _ _ Hc') as [Hin Hpt']. unfold handles_of in Ha'.
  destruct (client_list cl') as [|c1 [|c2 l]]; [done| |done].
  apply list_elem_of_singleton in Hin as <-. exists c', t, h. split; [done|]. split; [done|].
  apply (agree_drop ptr). cbn in Ha'. replace (ptr, None, None) with (handles c'); [done|].
  assert (dpd_timer c' = dpd_timer c).
  { injection Ec as Ec. apply (f_equal dpd_timer) in Ec. by destruct c, c'. }
  unfold handles. congruence.
Qed.

Lemma filter_ptr ptr (l : list nat) : ptr ∉ l → filter (λ p, p ≠ ptr) l = l.
Proof.
  induction l as [|x l IH]; intros Hn; [done|]. apply not_elem_of_cons in Hn as [Hx Hn].
  rewrite filter_cons_True by congruence. by rewrite IH.
Qed.

(** The list of clients without the one at an address. *)
Definition without (ptr : nat) (l : list nat) : list nat := filter (λ p, p ≠ ptr) l.

Lemma disconnect_tail_ok ptr (q : instance) a q' :
  qnetd_ok q → no_dpd_timer ptr q → (∃ c, find_at ptr (connected_clients q) = Some c) →
  (leave_cluster ptr;; on_client_only ptr (qnetd_client_algo_timer_abort ptr);;
   qnetd_client_list_del ptr) q = (Ok a, q') →
  qnetd_ok q' ∧ sockets q' = (without ptr (q_clients q), q_polled q).
Proof.
  intros Hq Hno [c Hf] E. destruct (client_split ptr q c Hq Hf) as (rest & Hp & Hni & _).
  destruct (find_at_Some _ _ _ Hf) as [Hc Hptr].
  destruct (leave_ok ptr q c Hq Hf) as (L1 & L2 & L3 & L4 & L5 & L6 & L7 & L8 & L9).
  rewrite (bind_ok (leave_cluster ptr) _ _ tt (snd (leave_cluster ptr q)) eq_refl) in E.
  set (q1 := snd (leave_cluster ptr q)) in *. clearbody q1.
  apply bind_Ok in E as (x & q2 & E2 & E). injection E as _ <-.
  assert (Hp1 : connected_clients q1 ≡ₚ c :: rest) by (by rewrite L9).
  destruct (abort_ok ptr q1 c rest x q2) as (c' & t & h & -> & Hc' & Ha); try done.
  { rewrite L9. apply Hq. }
  { rewrite L9, L3. apply Hq. }
  { by apply Hno. }
  assert (Ecl : update_client ptr (λ _, c') <$> q_clusters q1 = q_clusters q1)
    by (by apply update_clusters_other).
  assert (Elo : filter (λ c, client_ptr c ≠ ptr) (update_at ptr (λ _, c') (q_lobby q1)) =
                filter (λ c, client_ptr c ≠ ptr) (q_lobby q)).
  { etrans; [by apply (filter_update client_ptr)|exact L5]. }
  assert (Eco : filter (λ c, client_ptr c ≠ ptr) (q_lobby q) ++ all_clients (q_clusters q1) ≡ₚ rest).
  { apply (filter_Permutation (λ c, client_ptr c ≠ ptr)) in Hp1. unfold connected_clients in Hp1.
    rewrite filter_app, L5, filter_cons_False in Hp1 by (intros Hx; by apply Hx).
    rewrite (filter_other rest ptr Hni) in Hp1. rewrite <-Hp1. f_equiv.
    symmetry. rewrite filter_other; [done|]. intros (y & Hy & Hin)%list_elem_of_fmap. by apply (L8 y). }
  assert (Hnd : NoDup (client_ptr <$> rest)).
  { pose proof (qo_ptrs _ Hq) as Hn. rewrite Hp, fmap_cons in Hn. by apply NoDup_cons in Hn as [_ ?]. }
  split; [|unfold sockets; cbn; by rewrite L1, L2].
  split; unfold connected_clients; cbn -[filter]; rewrite ?Ecl, ?Elo, ?Eco; try done.
  - rewrite L1, (qo_clients _ Hq), Hp, fmap_cons, Hptr.
    rewrite filter_cons_False by (intros Hx; by apply Hx). by rewrite filter_ptr.
  - apply Forall_forall. intros y [_ Hy]%list_elem_of_filter.
    pose proof (qo_lobby _ Hq) as Hlo. rewrite Forall_forall in Hlo. by apply Hlo.
Qed.

Lemma place_find ptr (q q' : instance) c :
  qnetd_ok q' → place q' = place q → find_at ptr (connected_clients q) = Some c →
  ∃ c', find_at ptr (connected_clients q') = Some c'.
Proof.
  intros Hq' Hp [Hc Hptr]%find_at_Some.
  assert (E : client_ptr <$> connected_clients q' = client_ptr <$> connected_clients q).
  { injection Hp as _ _ El Ec. unfold connected_clients. rewrite !fmap_app, El. f_equal.
    revert Ec. generalize (q_clusters q) as l, (q_clusters q') as l'.
    induction l as [|cl l IH]; intros [|cl' l'] Ec; try done. injection Ec as _ Ecl Ec.
    unfold all_clients in *. rewrite !bind_cons, !fmap_app, Ecl. f_equal. by apply IH. }
  apply (list_elem_of_fmap_2 client_ptr) in Hc. rewrite <-E in Hc.
  apply list_elem_of_fmap in Hc as (c' & Ec & Hc'). exists c'. rewrite <-Hptr, Ec.
  apply find_at_elem; [apply Hq'|done].
Qed.

Lemma disconnect_ok ptr down (q : instance) a q' :
  qnetd_ok q → qnetd_instance_client_disconnect ptr down q = (Ok a, q') →
  qnetd_ok q' ∧ sockets q' = (without ptr (q_clients q), q_polled q).
Proof.
  intros Hq E. unfold qnetd_instance_client_disconnect in E.
  apply bind_Ok in E as (c & q1 & E1 & E). apply client_at_Ok in E1 as (-> & _ & _ & Hf).
  apply bind_Ok in E as ([] & q1 & E1 & E).
  assert (H1 : qnetd_ok q1 ∧ place q1 = place q).
  { destruct (init_received c); [|by injection E1 as <-].
    by apply (keeps_on_cluster ptr _ (called_disconnect ptr down) q tt). }
  destruct H1 as [Hq1 P1]. apply bind_Ok in E as ([] & q2 & E2 & E).
  destruct (dpd_destroy_ok ptr q1 tt q2 Hq1 E2) as (Hq2 & P2 & Hno).
  assert (P : place q2 = place q) by congruence. pose proof (place_sockets _ _ P) as [= <- <-].
  by apply (disconnect_tail_ok ptr q2 a); [|done|eapply place_find|].
Qed.

(** ** A new connection *)

Definition no_timers (ptr : nat) (q : instance) : Prop := ∃ c,
  find_at ptr (connected_clients q) = Some c ∧ c ∈ q_lobby q ∧ handles c = (ptr, None, None).

Lemma not_client (q : instance) ptr :
  qnetd_ok q → ptr ∉ q_clients q → ptr ∉ client_ptr <$> connected_clients q.
Proof. intros Hq. by rewrite (qo_clients _ Hq). Qed.

Lemma list_add_ok ptr (q : instance) r q' :
  qnetd_ok q → ptr ∉ q_clients q → qnetd_client_list_add settings ptr q = (Ok r, q') →
  qnetd_ok q' ∧
  match r with
  | None => sockets q' = sockets q
  | Some p => p = ptr ∧ sockets q' = (q_clients q ++ [ptr], q_polled q) ∧ no_timers ptr q'
  end.
Proof.
  intros Hq Hni. pose proof (not_client q ptr Hq Hni) as Hni'. unfold qnetd_client_list_add.
  destruct (malloc (q_heap q)) as [[x|] h'].
  2: { intros [= <- <-]. by destruct (keeps_heap h' q tt _ Hq eq_refl). }
  set (c := qnetd_client_init ptr _ _ _). intros [= <- <-]. destruct Hq as [Hpt Hc Hn Hcl Hlo Ht].
  assert (E : ∀ l, (q_lobby q ++ [c]) ++ l ≡ₚ c :: q_lobby q ++ l).
  { intros l. rewrite <-app_assoc. symmetry. apply Permutation_middle. }
  assert (Hq' : qnetd_ok (set_heap h' (set_lobby (q_lobby q ++ [c]) (set_clients (q_clients q ++ [ptr]) q)))).
  { split; unfold connected_clients; cbn [q_clients q_lobby q_clusters q_timers set_heap set_lobby set_clients].
    - rewrite E, fmap_cons. by constructor.
    - rewrite E, fmap_cons, Hc. cbn. by rewrite Permutation_app_comm.
    - done.
    - done.
    - apply Forall_app. split; [done|]. by apply Forall_singleton.
    - rewrite E, fmap_cons. destruct Ht as [Hi Hr]. split; [done|]. intros p f. rewrite Hr. split.
      + intros (h & Hh & Ho). exists h. split; [by right|done].
      + intros (h & [->|Hh]%elem_of_cons & Ho); [by destruct Ho as [[_ [=]]|[_ [=]]]|by exists h]. }
  split; [done|]. split_and!; [done|done|]. exists c. split_and!; [|cbn; apply elem_of_app; right; left|done].
  apply (find_at_elem _ c); [apply Hq'|]. unfold connected_clients. apply elem_of_app. left.
  apply elem_of_app. right. left.
Qed.

Lemma list_del_ok ptr (q : instance) a q' :
  qnetd_ok q → no_timers ptr q → qnetd_client_list_del ptr q = (Ok a, q') →
  qnetd_ok q' ∧ sockets q' = (without ptr (q_clients q), q_polled q).
Proof.
  intros Hq (c & Hf & Hl & Hh) [= _ <-]. split; [|done].
  assert (Hnl : NoDup (client_ptr <$> q_lobby q)).
  { pose proof (qo_ptrs _ Hq) as Hn. unfold connected_clients in Hn. rewrite fmap_app in Hn.
    by apply NoDup_app in Hn as [? _]. }
  destruct (find_at_Some _ _ _ Hf) as [Hc Hptr].
  pose proof (del_client_filter_perm (mk_cluster [] None (q_lobby q) : qcluster) ptr c Hl Hptr Hnl) as Hp.
  cbn [client_list] in Hp. set (lobby := filter _ (q_lobby q)) in *.
  assert (E : connected_clients q ≡ₚ c :: lobby ++ all_clients (q_clusters q))
    by (unfold connected_clients; by rewrite Hp).
  assert (Hnd : ptr ∉ client_ptr <$> (lobby ++ all_clients (q_clusters q)) ∧
                NoDup (client_ptr <$> (lobby ++ all_clients (q_clusters q)))).
  { pose proof (qo_ptrs _ Hq) as Hn. rewrite E, fmap_cons, Hptr in Hn. by apply NoDup_cons in Hn. }
  destruct Hnd as [Hni Hnd].
  split; unfold connected_clients; cbn [q_clients q_lobby q_clusters q_timers set_lobby set_clients]; try done.
  - rewrite (qo_clients _ Hq), E, fmap_cons, Hptr.
    rewrite filter_cons_False by (intros Hx; by apply Hx). by rewrite filter_ptr.
  - apply Hq.
  - apply Hq.
  - apply Forall_forall. intros y [_ Hy]%list_elem_of_filter.
    pose proof (qo_lobby _ Hq) as Hlo. rewrite Forall_forall in Hlo. by apply Hlo.
  - apply (agree_drop ptr). rewrite <-Hh. pose proof (qo_timers _ Hq) as Ht.
    by rewrite E, fmap_cons in Ht.
Qed.

Lemma dpd_init_ok ptr (q : instance) r q' :
  qnetd_ok q → no_timers ptr q → qnetd_client_dpd_timer_init settings ptr q = (Ok r, q') →
  qnetd_ok q' ∧ place q' = place q ∧ (r = -1 → no_timers ptr q').
Proof.
  intros Hq (c & Hf & Hl & Hh) E. unfold qnetd_client_dpd_timer_init in E.
  destruct (negb (dpd_enabled settings)); [by injection E as <- <-|].
  apply bind_Ok in E as (c0 & q1 & E1 & E). apply client_at_Ok in E1 as (-> & _ & _ & Hf').
  rewrite Hf in Hf'. injection Hf' as <-. apply bind_Ok in E as (p & q1 & E1 & E). unfold on_timers in E1.
  pose proof (timer_add_law (q_timers q) (q_heap q) (dpd_interval settings (heartbeat_interval c))
    (DPD_TIMER ptr) (ag_inv _ _ (qo_timers _ Hq))) as Hadd.
  destruct (timer_add _ _ _) as [rr [t h]]. injection E1 as -> <-. injection E as Er <-.
  destruct (client_split ptr q c Hq Hf) as (rest & Hp & Hni & Hu).
  pose proof (find_at_Some _ _ _ Hf) as [Hc Hptr].
  assert (Ha : agree (handles <$> update_at ptr (set_dpd_timer p) (connected_clients q)) t).
  { pose proof (qo_timers _ Hq) as Ht. rewrite Hp, fmap_cons in Ht. rewrite Hu, fmap_cons.
    replace (handles (set_dpd_timer p c)) with (set_handle false p (handles c)) by (by destruct c).
    destruct p as [p|].
    - destruct Hadd as (Hfresh & Hi & Hr). apply (agree_insert false _ _ (q_timers q) t p); try done.
      + by rewrite Hh.
      + by rewrite Hh.
    - destruct Hadd as (Hi & Hr & _). replace (set_handle false None (handles c)) with (handles c) by (by rewrite Hh).
      by apply (agree_running _ (q_timers q)). }
  destruct (modify_timers_ok ptr (set_dpd_timer p) q t h Hq ltac:(by intros [] _ _) Ha) as [Hq' Hp'].
  split_and!; [exact Hq'|exact Hp'|]. intros Hr1. destruct p as [p|]; [subst r; done|].
  exists (set_dpd_timer None c). split_and!.
  - change (find_at ptr (connected_clients (snd (modify_client ptr (set_dpd_timer None) q))) =
      Some (set_dpd_timer None c)).
    rewrite connected_modify, find_at_update by (by intros []). by rewrite Hf.
  - cbn. apply list_elem_of_fmap. exists c. by rewrite bool_decide_eq_true_2.
  - rewrite <-Hh. unfold handles in *. by destruct c; cbn in *; simplify_eq.
Qed.

(** ** The daemon between two callbacks *)

Record daemon_ok (q : instance) : Prop := {
  do_ok : qnetd_ok q;
  do_polled : q_polled q ≡ₚ q_clients q
}.

Lemma steady_daemon {A} (m : M instance A) (q : instance) a q' :
  steady m → daemon_ok q → m q = (Ok a, q') → daemon_ok q'.
Proof.
  intros Hm [Hq Hp] E. destruct (Hm q a q' Hq E) as [Hq' [= Ec Ep]]. split; [done|]. by rewrite Ec, Ep.
Qed.

Lemma without_perm ptr (l l' : list nat) : l ≡ₚ l' → without ptr l ≡ₚ without ptr l'.
Proof. intros E. unfold without. by rewrite E. Qed.

Lemma without_app ptr l : ptr ∉ l → without ptr (l ++ [ptr]) = l.
Proof.
  intros Hn. unfold without. rewrite filter_app, filter_ptr by done.
  rewrite filter_cons_False by (intros Hx; by apply Hx). apply app_nil_r.
Qed.

Lemma qnetd_ok_polled v (q : instance) : qnetd_ok q → qnetd_ok (set_polled v q).
Proof. intros []. by split. Qed.

Lemma take_memory_ok : steady take_memory.
Proof.
  intros q a q' Hq. unfold take_memory. destruct (malloc (q_heap q)) as [x h']. intros [= _ <-].
  by destruct (keeps_heap h' q tt _ Hq eq_refl).
Qed.

Lemma no_timers_polled v ptr (q : instance) : no_timers ptr q → no_timers ptr (set_polled v q).
Proof. done. Qed.

(** The last steps for a new client, with its socket in the poll loop or not. *)
Lemma accept_client_ok ptr (q q1 : instance) r q' :
  daemon_ok q → ptr ∉ q_clients q → qnetd_ok q1 → sockets q1 = (q_clients q ++ [ptr], q_polled q) →
  no_timers ptr q1 →
  (r ← add_prfd ptr;
   if r =? -1 then qnetd_client_list_del ptr;; mret (-2)
   else
     r ← qnetd_client_dpd_timer_init settings ptr;
     if r =? -1 then del_prfd ptr;; qnetd_client_list_del ptr;; mret (-2)
     else mret 0) q1 = (Ok r, q') →
  daemon_ok q'.
Proof.
  intros [Hq Hpo] Hni Hq1 [= Sc Sp] Hno E. apply bind_Ok in E as (x & q2 & E2 & E).
  assert (H2 : qnetd_ok q2 ∧ no_timers ptr q2 ∧ q_clients q2 = q_clients q1 ∧
    ((x = -1 ∧ q_polled q2 = q_polled q1) ∨ (x = 0 ∧ q_polled q2 = q_polled q1 ++ [ptr]))).
  { unfold add_prfd in E2. destruct (bool_decide _); [injection E2 as <- <-; split_and!; by auto|].
    destruct (malloc (q_heap q1)) as [[y|] h']; injection E2 as <- <-;
      destruct (keeps_heap h' q1 tt _ Hq1 eq_refl) as [Hq2 _].
    - split_and!; [by apply (qnetd_ok_polled _ _ Hq2)|done|done|by right].
    - split_and!; [exact Hq2|done|done|by left]. }
  destruct H2 as (Hq2 & Hno2 & Sc2 & [[-> Sp2]|[-> Sp2]]).
  - cbn [Z.eqb] in E. apply bind_Ok in E as (u & q3 & E3 & [= _ <-]).
    destruct (list_del_ok ptr q2 u q3 Hq2 Hno2 E3) as [Hq3 [= S3 S4]].
    split; [done|]. rewrite S3, S4. by rewrite Sc2, Sp2, Sc, Sp, without_app.
  - cbn [Z.eqb] in E. apply bind_Ok in E as (y & q3 & E3 & E).
    destruct (dpd_init_ok ptr q2 y q3 Hq2 Hno2 E3) as (Hq3 & [= Sc3 Sp3]%place_sockets & Hno3).
    destruct (y =? -1) eqn:Ey.
    + apply Z.eqb_eq in Ey. specialize (Hno3 Ey). apply bind_Ok in E as (z & q4 & E4 & E).
      unfold del_prfd in E4. rewrite bool_decide_eq_true_2 in E4
        by (rewrite Sp3, Sp2; apply elem_of_app; right; left).
      injection E4 as _ <-. apply bind_Ok in E as (u & q5 & E5 & [= _ <-]).
      destruct (list_del_ok ptr _ u q5 (qnetd_ok_polled _ _ Hq3) (no_timers_polled _ _ _ Hno3) E5)
        as [Hq5 [= S5 S6]].
      split; [done|]. rewrite S5, S6. cbn -[without filter]. rewrite Sc3, Sp3, Sc2, Sp2, Sc, Sp.
      rewrite without_app by done. fold (without ptr (q_polled q ++ [ptr])).
      rewrite without_app; [done|]. by rewrite Hpo.
    + injection E as _ <-. split; [done|]. rewrite Sc3, Sp3, Sc2, Sp2, Sc, Sp. by rewrite Hpo.
Qed.

Lemma accept_ok o (q : instance) r q' :
  daemon_ok q → ao_client_ptr o ∉ q_clients q →
  qnetd_client_net_accept settings o q = (Ok r, q') → daemon_ok q'.
Proof.
  intros Hd Hni E. unfold qnetd_client_net_accept in E.
  destruct (negb (ao_accepted o)); [by injection E as _ <-|].
  destruct (negb (ao_non_blocking o)); [by injection E as _ <-|].
  rewrite (bind_ok get _ _ _ _ eq_refl) in E.
  destruct (_ && _); [by injection E as _ <-|]. apply bind_Ok in E as (b & q1 & E1 & E).
  destruct (take_memory_ok q b q1 (do_ok _ Hd) E1) as [Hq1 [= S1 S2]].
  assert (Hd1 : daemon_ok q1) by (by apply (steady_daemon _ _ _ _ take_memory_ok Hd E1)).
  destruct (negb b); [by injection E as _ <-|].
  destruct (negb (ao_address_string o)); [by injection E as _ <-|].
  apply bind_Ok in E as (client & q2 & E2 & E). rewrite <-S1 in Hni.
  destruct (list_add_ok _ q1 client q2 Hq1 Hni E2) as [Hq2 H2]. destruct client as [p|].
  - destruct H2 as (-> & S & Hno). by eapply accept_client_ok.
  - injection E as _ <-. injection H2 as S3 S4. split; [done|].
    rewrite S3, S4. apply Hd1.
Qed.

(** The daemon looks for clients to disconnect before it polls. *)
Lemma pre_poll_loop_ok l (q : instance) r q' :
  daemon_ok q → pre_poll_loop l q = (Ok r, q') → daemon_ok q'.
Proof.
  revert q. induction l as [|ptr l IH]; intros q Hd E; [by injection E as _ <-|].
  cbn [pre_poll_loop] in E. apply bind_Ok in E as (c & q1 & E1 & E).
  apply client_at_Ok in E1 as (-> & _). destruct (schedule_disconnect c); [|by eapply IH].
  apply bind_Ok in E as (x & q1 & E1 & E). unfold del_prfd in E1.
  destruct (bool_decide _) eqn:Hb; injection E1 as <- <-; [cbn [Z.eqb] in E|by injection E as _ <-].
  apply bind_Ok in E as (u & q2 & E2 & E). apply (IH q2); [|done].
  destruct (disconnect_ok ptr false _ u q2 (qnetd_ok_polled _ _ (do_ok _ Hd)) E2)
    as [Hq2 [= S1 S2]].
  split; [done|]. rewrite S1, S2. cbn. apply without_perm, Hd.
Qed.
End daemon.
