(* ===== verification/QnetdTimerFacts.v ===== *)
(** What happens when a timer of qnetd expires: the callback may delete its own timer and
    start it again, and afterwards the timer list deletes or reschedules what is left. *)
From S2P Require Import Prelude Dynar Tlv NodeList Msg Msgio SendBuffer QnetdClient QnetdCluster.
From stdpp Require Import list gmap.
From S2P Require Import TimerList TimerInterface QnetdAlgoTimer AlgoUtils QnetdAlgorithm QnetdInstance.
From S2P Require Import QnetdFrame QnetdInstanceFacts QnetdMsgReceived QnetdMsgFacts.
From S2P Require Import QnetdClientNet QnetdDaemonFacts.
Local Open Scope Z_scope.

(** ** Steps that touch no timer *)

Section idle.
Context {D C T : Type} `{TimerLaws qnetd_timer T}.
Abbreviation state := (@algo_state D C T).

Definition same_timers (s s' : state) : Prop :=
  fst (snd s') = fst (snd s) ∧ handles_of (fst s') = handles_of (fst s).

Lemma same_timers_trans s1 s2 s3 : same_timers s1 s2 → same_timers s2 s3 → same_timers s1 s3.
Proof. intros [] []. split; congruence. Qed.

(** Either no timer is touched, or the result is one of [P]. *)
Definition idle {A} (P : A → Prop) (m : M state A) : Prop := ∀ s a s',
  m s = (Ok a, s') → P a ∨ same_timers s s'.

Definition no_result {A} (a : A) : Prop := False.

Lemma idle_weaken {A} (P : A → Prop) (m : M state A) : idle no_result m → idle P m.
Proof. intros Hm s a s' E. by destruct (Hm s a s' E); [|right]. Qed.

Lemma idle_ret {A} P (a : A) : idle P (mret a).
Proof. intros s a' s' [= <- <-]. by right. Qed.
Lemma idle_fail {A} P c : idle P (fail (A:=A) c).
Proof. by intros s a s' [=]. Qed.
Lemma idle_get P : idle P get.
Proof. intros s a s' [= <- <-]. by right. Qed.
Lemma idle_bind {A B} (P : B → Prop) (m : M state A) (f : A → M state B) :
  idle no_result m → (∀ a, idle P (f a)) → idle P (m ≫= f).
Proof.
  intros Hm Hf s b s' E. apply bind_Ok in E as (a & s1 & E1 & E2).
  destruct (Hm _ _ _ E1) as [[]|H1]. destruct (Hf a _ _ _ E2) as [|H2]; [by left|].
  right. by eapply same_timers_trans.
Qed.
Lemma idle_the_client P ptr : idle P (the_client ptr).
Proof.
  intros [cl s] a s'. unfold the_client. destruct (get_client ptr cl); intros [= <- <-]. by right.
Qed.
Lemma idle_heap P (f : heap → heap) : idle P (modify (λ '(cl, (t, h)), (cl, (t, f h)))).
Proof. intros [cl [t h]] a s' [= <- <-]. by right. Qed.
Lemma idle_on_client P ptr f : mild f → idle P (on_client ptr f).
Proof.
  intros Hf [cl s] a s' [= <- <-]. right. split; [done|]. by apply update_handles.
Qed.
Lemma idle_get_info P ptr : idle P (get_info ptr).
Proof.
  apply idle_bind; [apply idle_the_client|]. intros c. destruct (algorithm_data c); [apply idle_ret|apply idle_fail].
Qed.
Lemma idle_put_info P ptr f : idle P (put_info ptr f).
Proof.
  apply idle_bind; [apply idle_get_info|]. intros i. apply idle_on_client, mild_algorithm_data.
Qed.
End idle.

(** ** The callback of last man standing *)

Section lms.
Context {C T : Type} `{TimerLaws qnetd_timer T}.
Import AlgoLms.
Abbreviation state := (@algo_state qnetd_algo_lms_info C T).

Definition waits (r : Z * option tlv_vote) : Prop :=
  r = (TLV_REPLY_ERROR_CODE_NO_ERROR, Some TLV_VOTE_WAIT_FOR_REPLY).

Lemma idle_decide_vote P ptr vote : idle P (decide_vote (C:=C) (T:=T) ptr vote).
Proof. apply idle_bind; [apply idle_put_info|]. intros _. apply idle_ret. Qed.

Lemma idle_free_partitions P ptr : idle P (free_partitions (C:=C) (T:=T) ptr).
Proof. apply idle_put_info. Qed.

Lemma idle_create_partitions P ptr : idle P (create_partitions (C:=C) (T:=T) ptr).
Proof.
  apply idle_bind; [apply idle_get_info|]. intros i. apply idle_bind; [apply idle_get|].
  intros [cl [t h]]. destruct (qnetd_algo_create_partitions _ _ _) as [n [pl h']].
  apply idle_bind; [apply (idle_heap _ (λ _, h'))|]. intros _.
  apply idle_bind; [apply idle_put_info|]. intros _. apply idle_ret.
Qed.

(** The timer is aborted first, and started again only with the vote to wait. *)
Lemma do_lms_algorithm_timers ptr ring_id (s s' : state) r :
  do_lms_algorithm ptr ring_id s = (Ok r, s') →
  ∃ x s1, qnetd_client_algo_timer_abort ptr s = (Ok x, s1) ∧ (waits r ∨ same_timers s1 s').
Proof.
  unfold do_lms_algorithm. intros E. apply bind_Ok in E as (x & s1 & E1 & E). exists x, s1.
  split; [done|]. revert E.
  assert (Hw : ∀ (s2 s3 : state) r, (qnetd_client_algo_timer_schedule ptr;; decide_vote ptr TLV_VOTE_WAIT_FOR_REPLY) s2
    = (Ok r, s3) → waits r).
  { intros s2 s3 r0 E. apply bind_Ok in E as (y & s4 & _ & E). by apply bind_Ok in E as (z & s5 & _ & [= <- _]). }
  match goal with |- ?m s1 = _ → _ => enough (Hi : idle waits m) by (intros E; by apply Hi) end.
  apply idle_bind; [apply idle_the_client|]. intros c. apply idle_bind; [apply idle_get|]. intros [cl y].
  destruct (_ =? -1); [intros s2 r0 s3 E; left; by eapply Hw|].
  apply idle_bind; [apply idle_create_partitions|]. intros n.
  destruct (n =? -1); [apply idle_ret|]. destruct (n =? 0); [intros s2 r0 s3 E; left; by eapply Hw|].
  destruct (n =? 1); [apply idle_bind; [apply idle_free_partitions|intros _; apply idle_decide_vote]|].
  apply idle_bind; [apply idle_get_info|]. intros info. unfold vote_for_partition.
  destruct (if bool_decide _ then _ else _) as [[]|].
  - apply idle_bind; [apply idle_free_partitions|intros _; apply idle_ret].
  - destruct (partitions_vote _ _ _ _); [|apply idle_fail]. apply idle_bind; [apply idle_decide_vote|].
    intros ?. apply idle_bind; [apply idle_free_partitions|intros _; apply idle_ret].
  - apply idle_fail.
Qed.
End lms.

(** ** The outcome of a callback *)

Section outcome.
Context {T : Type} `{TimerLaws qnetd_timer T}.

(** The client has no timer any more, and the one it had does not run. *)
Definition gone (ptr : nat) (hs hs' : list timer_handles) (t' : T) : Prop :=
  (∀ h, h ∈ hs' → fst (fst h) = ptr → snd (fst h) = None) ∧
  (∀ p d, (ptr, Some p, d) ∈ hs → timers_running t' !! p = None).

Definition outcome (ptr : nat) (hs : list timer_handles) (t : T) (hs' : list timer_handles) (t' : T)
    (a : Z * bool * bool * option tlv_vote) : Prop :=
  let '(code, reschedule_timer, send_vote, _) := a in
  (code = TLV_REPLY_ERROR_CODE_NO_ERROR ∧ reschedule_timer = false ∧ send_vote = false ∧
     hs' = hs ∧ t' = t) ∨
  (code = TLV_REPLY_ERROR_CODE_NO_ERROR ∧ reschedule_timer = true ∧ send_vote = false) ∨
  (reschedule_timer = false ∧ gone ptr hs hs' t').

Definition timer_callback_ok {D C} (ptr : nat)
    (m : M (@algo_state D C T) (Z * bool * bool * option tlv_vote)) : Prop :=
  ∀ R cl t h a cl' t' h',
    NoDup (ptrs_of (handles_of cl ++ R)) → agree (handles_of cl ++ R) t →
    m (cl, (t, h)) = (Ok a, (cl', (t', h'))) →
    outcome ptr (handles_of cl) t (handles_of cl') t' a.

Lemma abort_gone {D C} ptr R (cl : @qnetd_cluster D C) t h a cl' t' h' :
  NoDup (ptrs_of (handles_of cl ++ R)) → agree (handles_of cl ++ R) t →
  qnetd_client_algo_timer_abort ptr (cl, (t, h)) = (Ok a, (cl', (t', h'))) →
  gone ptr (handles_of cl) (handles_of cl') t'.
Proof.
  intros Hnd Ha E. destruct (abort_clears _ _ _ _ _ _ _ _ E) as (c' & Hc' & Ht').
  destruct (quiet_abort ptr R _ _ _ _ _ _ _ Hnd Ha E) as [Hf _].
  assert (Hcl : ∀ (cl : @qnetd_cluster D C), NoDup (ptrs_of (handles_of cl ++ R)) →
    NoDup (client_ptr <$> client_list cl)).
  { intros cl0 Hx. unfold ptrs_of in Hx. rewrite fmap_app in Hx. apply NoDup_app in Hx as [Hx _].
    by rewrite <-ptrs_of_handles. }
  split.
  - intros x (c0 & -> & Hc0)%list_elem_of_fmap Hp. cbn in *. apply get_client_Some in Hc' as [Hin Hp'].
    assert (c0 = c') as ->; [|done]. apply (NoDup_fmap_inj client_ptr (client_list cl')); [|done..|congruence].
    apply Hcl. by eapply framed_NoDup.
  - intros p d (c0 & Ec & Hc0)%list_elem_of_fmap. unfold handles in Ec. injection Ec as -> Et _.
    unfold qnetd_client_algo_timer_abort in E.
    rewrite (bind_ok _ _ _ _ _ (the_client_ok _ _ _ _ (get_client_elem cl c0 (Hcl cl Hnd) Hc0))), <-Et in E.
    apply bind_Ok in E as (u & [cl2 [t2 h2]] & E1 & [= _ _ <- <-]). unfold on_timer_list in E1.
    assert (Hrun : timers_running t !! p = Some (ALGO_TIMER (client_ptr c0))).
    { apply Ha. exists (handles c0). split; [apply elem_of_app; left; by apply list_elem_of_fmap_2|].
      left. split; [done|]. by rewrite <-Et. }
    pose proof (timer_delete_law t h p (ag_inv _ _ Ha) (mk_is_Some _ _ Hrun)) as Hd.
    destruct (timer_delete p (t, h)) as [r [t3 h3]]. injection E1 as -> _ <- _.
    destruct Hd as (_ & _ & ->). apply lookup_delete_eq.
Qed.

(** No timer is touched, and nothing is asked for. *)
Lemma callback_ret {D C} ptr v :
  timer_callback_ok (D:=D) (C:=C) ptr (mret (TLV_REPLY_ERROR_CODE_NO_ERROR, false, false, v)).
Proof. intros R cl t h a cl' t' h' _ _ [= <- <- <- <-]. by left. Qed.

Lemma callback_lms {C} ptr :
  timer_callback_ok (C:=C) ptr (AlgoLms.qnetd_algo_lms_timer_callback (T:=T) ptr).
Proof.
  intros R cl t h a cl' t' h' Hnd Ha E. unfold AlgoLms.qnetd_algo_lms_timer_callback in E.
  apply bind_Ok in E as (c & s1 & E1 & E). apply bind_Ok in E as (r & s2 & E2 & E).
  assert (s1 = (cl, (t, h))) as ->.
  { unfold the_client in E1. destruct (get_client ptr cl); congruence. }
  destruct r as [ret vote]. injection E as <- ->.
  destruct (do_lms_algorithm_timers _ _ _ _ _ E2) as (x & [cl1 [t1 h1]] & Eab & [Hw|[Ht Hh]]).
  - injection Hw as -> ->. right. left. done.
  - cbn in Ht, Hh. pose proof (abort_gone _ _ _ _ _ _ _ _ _ Hnd Ha Eab) as Hg. 
    destruct (decide (ret = TLV_REPLY_ERROR_CODE_NO_ERROR ∧ vote = Some TLV_VOTE_WAIT_FOR_REPLY)) as [[-> ->]|Hn];
      [right; by left|].
    right. right. split.
    + destruct (ret =? _) eqn:Er; [|done]. apply Z.eqb_eq in Er. cbn.
      apply bool_decide_eq_false_2. intros ->. by apply Hn.
    + rewrite Ht, Hh. exact Hg.
Qed.

Lemma callback_run_handler {D C} get_d (of_d : D → qnetd_client_data) get_c
    (of_c : C → qnetd_cluster_data) ptr m :
  timer_callback_ok ptr m → timer_callback_ok ptr (run_handler get_d of_d get_c of_c m).
Proof.
  intros Hm R cl t h a cl' t' h' Hnd Ha. unfold run_handler.
  destruct (cast_cluster get_d get_c cl) as [cl0|] eqn:Ec; [|done].
  destruct (cast_cluster_frame _ _ _ _ Ec) as (_ & _ & Hha).
  destruct (m (cl0, (t, h))) as [r [cl1 [t1 h1]]] eqn:Em. intros [= -> <- <- <-].
  rewrite <-Hha in Hnd, Ha. pose proof (Hm R _ _ _ _ _ _ _ Hnd Ha Em) as Ho. rewrite Hha in Ho.
  destruct (same_clients_map (λ c, with_data (of_d <$> algorithm_data c) c) (client_list cl1)
    (λ c, with_data_frame _ c)) as [_ Hha2].
  unfold handles_of, uncast_cluster at 1. cbn [client_list]. rewrite Hha2. exact Ho.
Qed.

Lemma callback_ffsplit ptr : timer_callback_ok ptr (algo_timer_callback (qnetd_algo_ffsplit (T:=T)) ptr).
Proof.
  apply callback_run_handler. intros R cl t h a cl' t' h' _ _.
  destruct (get_client ptr cl); [|done]. intros [= <- <- <- <-]. by left.
Qed.

(** The callback of every algorithm of the table. *)
Lemma callback_algorithm n alg ptr :
  qnetd_algorithm_array (T:=T) !! Z.to_nat n = Some (Some alg) →
  timer_callback_ok ptr (algo_timer_callback alg ptr).
Proof.
  rewrite (proj2 qnetd_algorithm_array_complete). intros Hl.
  destruct (Z.to_nat n) as [|[|[|[|k]]]]; cbn in Hl; try done; injection Hl as <-.
  - apply callback_run_handler, callback_ret.
  - apply callback_ffsplit.
  - apply callback_run_handler, callback_ret.
  - apply callback_run_handler, callback_lms.
Qed.

Lemma callback_table ptr n R cl t h a cl' t' h' :
  (∀ c, get_client ptr cl = Some c → decision_algorithm c = n) →
  0 ≤ n < QNETD_STATIC_SUPPORTED_DECISION_ALGORITHMS_SIZE →
  NoDup (ptrs_of (handles_of cl ++ R)) → agree (handles_of cl ++ R) t →
  qnetd_algorithm_timer_callback (T:=T) ptr (cl, (t, h)) = (Ok a, (cl', (t', h'))) →
  outcome ptr (handles_of cl) t (handles_of cl') t' a.
Proof.
  intros Hc Hn Hnd Ha. unfold qnetd_algorithm_timer_callback, call_algorithm, the_algorithm.
  destruct (get_client ptr cl) as [c|] eqn:Hg.
  2: { rewrite (bind_err _ _ _ NULL_DEREF (cl, (t, h))); [done|].
    apply bind_err. unfold the_client. by rewrite Hg. }
  specialize (Hc c eq_refl). intros E. apply bind_Ok in E as (o & s & E1 & E2).
  rewrite (bind_ok _ _ _ _ _ (the_client_ok _ _ _ _ Hg)), Hc in E1.
  rewrite (proj2 (Z.leb_gt _ _)) in E1 by lia. injection E1 as Eo <-.
  assert (Hl : (Z.to_nat n < 4)%nat) by (unfold QNETD_STATIC_SUPPORTED_DECISION_ALGORITHMS_SIZE in Hn; lia).
  destruct (qnetd_algorithm_array !! Z.to_nat n) as [[alg|]|] eqn:El.
  - cbn in Eo. subst o. by eapply (callback_algorithm n alg ptr El R).
  - exfalso. rewrite (proj2 qnetd_algorithm_array_complete) in El.
    by destruct (Z.to_nat n) as [|[|[|[|k]]]]; cbn in El.
  - exfalso. rewrite (proj2 qnetd_algorithm_array_complete) in El.
    destruct (Z.to_nat n) as [|[|[|[|k]]]]; cbn in El; try done; lia.
Qed.
End outcome.

(** ** The daemon *)

Section daemon_timers.
Context {T : Type} `{TimerLaws qnetd_timer T}.
Abbreviation instance := (@qnetd_instance T).

(** What [timer_list_expire] does with the entry of a callback that has returned. *)
Definition timer_returned (p : nat) (res : Z) : M instance unit := λ q,
  match timers_running (q_timers q) !! p with
  | None => (Ok tt, q)
  | Some _ =>
      if res =? 0 then on_timers (timer_delete p) q else on_timers (timer_reschedule p) q
  end.

Definition qnetd_timer_expired (p : nat) (f : qnetd_timer) : M instance unit :=
  res ← qnetd_timer_call f; timer_returned p res.

Lemma running_client (q : instance) p f :
  qnetd_ok q → timers_running (q_timers q) !! p = Some f →
  ∃ c, c ∈ connected_clients q ∧ owns (handles c) f p.
Proof.
  intros Hq Hr. apply (qo_timers _ Hq) in Hr as (h & Hh & Ho).
  apply list_elem_of_fmap in Hh as (c & -> & Hc). eauto.
Qed.

(** The timer of a client ends: its handle is cleared and the entry is deleted. *)
Lemma clear_and_delete k f ptr (q : instance) c p a q' :
  qnetd_ok q → c ∈ connected_clients q → client_ptr c = ptr → handle_of k (handles c) = Some p →
  (∀ x, kept (f x) = kept x ∧ handles (f x) = set_handle k None (handles x)) →
  timer_returned p 0 (snd (modify_client ptr f q)) = (Ok a, q') →
  qnetd_ok q' ∧ place q' = place q.
Proof.
  intros Hq Hc Hptr Hh Hf. 
  assert (Hfind : find_at ptr (connected_clients q) = Some c)
    by (rewrite <-Hptr; apply find_at_elem; [apply Hq|done]).
  destruct (client_split ptr q c Hq Hfind) as (rest & Hp & Hni & Hu).
  assert (Hrun : timers_running (q_timers q) !! p = Some (callback_of k ptr)).
  { apply (qo_timers _ Hq). exists (handles c). split; [by apply list_elem_of_fmap_2|].
    apply owns_iff. exists k. split; [|done]. by rewrite <-Hptr. }
  unfold timer_returned. change (q_timers (snd (modify_client ptr f q))) with (q_timers q).
  rewrite Hrun. cbn [Z.eqb]. unfold on_timers.
  change (q_timers (snd (modify_client ptr f q))) with (q_timers q).
  change (q_heap (snd (modify_client ptr f q))) with (q_heap q).
  pose proof (timer_delete_law (q_timers q) (q_heap q) p (ag_inv _ _ (qo_timers _ Hq))
    (mk_is_Some _ _ Hrun)) as Hd.
  destruct (timer_delete p (q_timers q, q_heap q)) as [r [t h]]. intros [= -> <-].
  destruct Hd as (_ & Hi & Hr). apply modify_timers_ok; [done|by intros x _ _; apply Hf|].
  pose proof (qo_timers _ Hq) as Ha. rewrite Hp, fmap_cons in Ha.
  rewrite Hu, fmap_cons, (proj2 (Hf c)).
  apply (agree_delete k _ _ (q_timers q) t p Ha); [|done..].
  rewrite handles_ptr. cbn. by rewrite Hptr.
Qed.

Lemma dpd_expired p ptr (q : instance) a q' :
  qnetd_ok q → timers_running (q_timers q) !! p = Some (DPD_TIMER ptr) →
  qnetd_timer_expired p (DPD_TIMER ptr) q = (Ok a, q') → qnetd_ok q' ∧ place q' = place q.
Proof.
  intros Hq Hr E. destruct (running_client q p _ Hq Hr) as (c & Hc & [[[=] _]|[[= ->] Hd]]).
  unfold qnetd_timer_expired in E. apply bind_Ok in E as (res & q1 & E1 & E).
  cbn [qnetd_timer_call] in E1. unfold qnetd_dpd_timer_cb in E1.
  apply bind_Ok in E1 as (c0 & q2 & E2 & E1). apply client_at_Ok in E2 as (-> & Hc0 & Hp0 & _).
  destruct (dpd_timer c0); [|done]. injection E1 as <- <-.
  apply (clear_and_delete false (λ c, set_dpd_timer None (set_schedule_disconnect true c))
    (client_ptr c) q c p a q'); [done|done|done|exact Hd| |exact E].
  intros []. split; reflexivity.
Qed.

(** The callback of the algorithm, for the clients of the daemon. *)
Lemma callback_outcome ptr (q : instance) a q' :
  qnetd_ok q → on_cluster ptr (qnetd_algorithm_timer_callback ptr) q = (Ok a, q') →
  qnetd_ok q' ∧ place q' = place q ∧ ∃ hs hs',
    hs ≡ₚ handles <$> connected_clients q ∧ hs' ≡ₚ handles <$> connected_clients q' ∧
    outcome ptr hs (q_timers q) hs' (q_timers q') a.
Proof.
  intros Hq E. destruct (keeps_on_cluster ptr _ (called_timer ptr) q a q' Hq E) as [Hq' Hp'].
  split; [done|]. split; [done|].
  destruct (on_cluster_frame ptr _ q a q' (called_timer ptr) Hq E)
    as (i & cl & cl' & t & h & Hi & Hf & _ & _ & -> & Hco & Em).
  apply cluster_of_Some in Hco as (cl0 & c & Hi0 & Hc & Hptr). rewrite Hi in Hi0. injection Hi0 as <-.
  destruct (connected_split i cl cl' q Hi) as [Hp Hpn].
  pose proof (qo_ptrs _ Hq) as Hnd. rewrite Hp, fmap_app in Hnd. apply NoDup_app in Hnd as (Hnd1 & Hd & Hnd2).
  assert (Hother : ∀ h, h ∈ handles <$> others i q → fst (fst h) ≠ ptr).
  { intros x (y & -> & Hy)%list_elem_of_fmap Hx. apply (Hd ptr).
    - rewrite <-Hptr. by apply list_elem_of_fmap_2.
    - change (client_ptr y = ptr) in Hx. rewrite <-Hx. by apply list_elem_of_fmap_2. }
  exists (handles_of cl ++ (handles <$> others i q)), (handles_of cl' ++ (handles <$> others i q)).
  split_and!; [unfold handles_of; by rewrite <-fmap_app, <-Hp|unfold handles_of; by rewrite <-fmap_app, <-Hpn|].
  pose proof (qo_clusters _ Hq) as Hcl. rewrite Forall_lookup in Hcl.
  destruct (Hcl i cl Hi) as [_ (tb & alg & Hr & _ & Hs) _].
  assert (Ho : outcome ptr (handles_of cl) (q_timers q) (handles_of cl') t a).
  { eapply (callback_table ptr alg (handles <$> others i q)); [|done| | |exact Em].
    - intros x [Hx _]%get_client_Some. by apply Hs.
    - unfold handles_of. rewrite <-fmap_app, ptrs_of_fmap, <-Hp. apply Hq.
    - unfold handles_of. rewrite <-fmap_app, <-Hp. apply Hq. }
  destruct a as [[[code resched] send] v]. cbn in Ho |- *.
  destruct Ho as [(-> & -> & -> & -> & ->)|[Ho|(-> & [Hg1 Hg2])]]; [by left|right; by left|].
  right. right. split; [done|]. split.
  - intros x [Hx|Hx]%elem_of_app Hpx; [by apply Hg1|by destruct (Hother x Hx)].
  - intros p d [Hx|Hx]%elem_of_app; [by eapply Hg2|by destruct (Hother _ Hx)].
Qed.

(** Steps that leave the timers alone. *)
Definition timeless {A} (m : M instance A) : Prop := ∀ q a q',
  m q = (Ok a, q') → q_timers q' = q_timers q.

Lemma timeless_bind {A B} (m : M instance A) (f : A → M instance B) :
  timeless m → (∀ a, timeless (f a)) → timeless (m ≫= f).
Proof.
  intros Hm Hf q b q' E. apply bind_Ok in E as (a & q1 & E1 & E2).
  by rewrite (Hf _ _ _ _ E2), (Hm _ _ _ E1).
Qed.
Lemma timeless_ret {A} (a : A) : timeless (mret a).
Proof. by intros q x q' [= _ <-]. Qed.
Lemma timeless_modify ptr f : timeless (modify_client ptr f).
Proof. by intros q x q' [= _ <-]. Qed.
Lemma timeless_send ptr send : timeless (send_to ptr send).
Proof.
  unfold send_to. apply timeless_bind.
  - intros q a q'. unfold client_at. by destruct (find_at _ _); intros [= _ <-].
  - intros c. apply timeless_bind; [by intros q a q' [= _ <-]|]. intros q.
    destruct (send c (q_heap q)) as [r [c' h]].
    apply timeless_bind; [by intros ? a q' [= _ <-]|]. intros _.
    apply timeless_bind; [apply timeless_modify|intros _; apply timeless_ret].
Qed.

(** A timer that does not run any more is left alone. *)
Lemma returned_gone p res (q : instance) a q' :
  timers_running (q_timers q) !! p = None → timer_returned p res q = (Ok a, q') → q' = q.
Proof. unfold timer_returned. intros ->. by intros [= _ <-]. Qed.

Lemma returned_again p (q : instance) a q' :
  qnetd_ok q → timer_returned p (-1) q = (Ok a, q') → qnetd_ok q' ∧ place q' = place q.
Proof.
  intros Hq. unfold timer_returned.
  destruct (timers_running (q_timers q) !! p) as [f|] eqn:Hr; [|by intros [= _ <-]].
  cbn [Z.eqb]. intros E. apply (on_timers_ok _ _ _ _ Hq E). intros t h Ht.
  pose proof (timer_reschedule_law (q_timers q) (q_heap q) p (ag_inv _ _ (qo_timers _ Hq))
    (mk_is_Some _ _ Hr)) as Hl. by rewrite Ht in Hl.
Qed.

(** The rest of [qnetd_client_algo_timer_callback]. *)
Definition algo_timer_rest (ptr : nat) (a : Z * bool * bool * option tlv_vote) : M instance Z :=
  let '(reply_error_code, reschedule_timer, send_vote, result) := a in
  let result_vote := default TLV_VOTE_WAIT_FOR_REPLY result in
  if negb (reply_error_code =? TLV_REPLY_ERROR_CODE_NO_ERROR) then
    r ← send_to ptr (λ c, qnetd_client_send_err c false 0 reply_error_code);
    (if negb (r =? 0) then modify_client ptr (set_schedule_disconnect true) else mret tt);;
    mret 0
  else
    r ← (if (send_vote : bool) then
           modify_client ptr (λ c,
             set_algo_timer_vote_info_msq_seq_number
               (u32 (algo_timer_vote_info_msq_seq_number c + 1)) c);;
           send_to ptr (λ c, qnetd_client_send_vote_info c
             (algo_timer_vote_info_msq_seq_number c) (last_ring_id c) result_vote)
         else mret 0);
    if negb (r =? 0) then modify_client ptr (set_schedule_disconnect true);; mret 0
    else if (reschedule_timer : bool) then mret (-1)
    else modify_client ptr (set_algo_timer None);; mret 0.

Lemma algo_timer_callback_split ptr (q : instance) :
  qnetd_client_algo_timer_callback ptr q =
  (a ← on_cluster ptr (qnetd_algorithm_timer_callback ptr); algo_timer_rest ptr a) q.
Proof. done. Qed.

(** With no timer left for the client, the rest touches neither timers nor handles. *)
Lemma rest_gone ptr code send v (q : instance) hs hs' r q' :
  qnetd_ok q → hs' ≡ₚ handles <$> connected_clients q → gone ptr hs hs' (q_timers q) →
  algo_timer_rest ptr (code, false, send, v) q = (Ok r, q') →
  qnetd_ok q' ∧ place q' = place q ∧ q_timers q' = q_timers q.
Proof.
  intros Hq Hhs [Hg _] E. unfold algo_timer_rest in E.
  assert (Hclear : ∀ q1 r1 q2, qnetd_ok q1 → place q1 = place q → q_timers q1 = q_timers q →
    (modify_client ptr (set_algo_timer None);; mret 0) q1 = (Ok r1, q2) →
    qnetd_ok q2 ∧ place q2 = place q ∧ q_timers q2 = q_timers q).
  { intros q1 r1 q2 Hq1 Hp1 Ht1 [= _ <-].
    destruct (modify_client_ok ptr (set_algo_timer None) q1 Hq1) as [Hq2 Hp2].
    - intros c Hc Hptr. assert (algo_timer c = None) as Hn; [|unfold handles; destruct c; cbn in *; by subst].
      destruct (algo_timer c) as [p|] eqn:Ht; [exfalso|done].
      assert (Hr : timers_running (q_timers q1) !! p = Some (ALGO_TIMER ptr)).
      { apply (qo_timers _ Hq1). exists (handles c). split; [by apply list_elem_of_fmap_2|].
        left. by rewrite <-Hptr. }
      rewrite Ht1 in Hr. apply (qo_timers _ Hq) in Hr as ([[x y] z] & Hx & [[[= ->] ->]|[[=] _]]).
      rewrite <-Hhs in Hx. by specialize (Hg _ Hx eq_refl).
    - split_and!; [exact Hq2|by etrans|exact Ht1]. }
  destruct (negb (code =? _)).
  { refine ((λ Hk : keeps _, _) _); [|shelve]. destruct (Hk q r q' Hq E) as [? ?]. split_and!; [done..|].
    refine ((λ Ht : timeless _, Ht q r q' E) _). apply timeless_bind; [apply timeless_send|]. intros x.
    apply timeless_bind; [|intros _; apply timeless_ret].
    destruct (negb _); [apply timeless_modify|apply timeless_ret].
    Unshelve. keeps_tac. }
  apply bind_Ok in E as (x & q1 & E1 & E).
  assert (H1 : qnetd_ok q1 ∧ place q1 = place q ∧ q_timers q1 = q_timers q).
  { destruct send; [|by injection E1 as _ <-].
    refine ((λ Hk : keeps _, _) _); [|shelve]. destruct (Hk q x q1 Hq E1) as [? ?]. split_and!; [done..|].
    refine ((λ Ht : timeless _, Ht q x q1 E1) _).
    apply timeless_bind; [apply timeless_modify|intros _; apply timeless_send].
    Unshelve. keeps_tac. }
  destruct H1 as (Hq1 & Hp1 & Ht1). destruct (negb (x =? 0)); [|by apply (Hclear q1 r)].
  refine ((λ Hk : keeps _, _) _); [|shelve]. destruct (Hk q1 r q' Hq1 E) as [? ?].
  injection E as _ <-. split_and!; [done|congruence|done].
  Unshelve. keeps_tac.
Qed.

Lemma algo_expired p ptr (q : instance) a q' :
  qnetd_ok q → timers_running (q_timers q) !! p = Some (ALGO_TIMER ptr) →
  qnetd_timer_expired p (ALGO_TIMER ptr) q = (Ok a, q') → qnetd_ok q' ∧ place q' = place q.
Proof.
  intros Hq Hr E. destruct (running_client q p _ Hq Hr) as (c & Hc & [[[= Hptr] Hd]|[[=] _]]).
  unfold qnetd_timer_expired in E. apply bind_Ok in E as (res & q1 & E1 & E).
  cbn [qnetd_timer_call] in E1. rewrite algo_timer_callback_split in E1.
  apply bind_Ok in E1 as (o & q2 & E2 & E1).
  destruct (callback_outcome ptr q o q2 Hq E2) as (Hq2 & Hp2 & hs & hs' & Hhs & Hhs' & Ho).
  destruct o as [[[code resched] send] v]. cbn in Ho.
  destruct Ho as [(-> & -> & -> & Eh & Et)|[(-> & -> & ->)|(-> & Hg)]].
  - cbn in E1. injection E1 as <- <-.
    assert (Hc2 : handles c ∈ handles <$> connected_clients q2).
    { rewrite <-Hhs', Eh, Hhs. by apply list_elem_of_fmap_2. }
    apply list_elem_of_fmap in Hc2 as (c2 & Ec2 & Hc2). unfold handles in Ec2. injection Ec2 as Ep Ea _.
    destruct (clear_and_delete true (set_algo_timer None) ptr q2 c2 p a q') as [Hq' Hp'];
      [done|done|congruence|unfold handles; cbn; congruence|by intros []|exact E|].
    split; [done|congruence].
  - cbn in E1. injection E1 as <- <-. destruct (returned_again p q2 a q' Hq2 E). split; [done|congruence].
  - symmetry in Hhs'. destruct (rest_gone ptr code send v q2 hs hs' res q1 Hq2) as (Hq1 & Hp1 & Ht1); try done.
    assert (Hn : timers_running (q_timers q1) !! p = None).
    { rewrite Ht1. destruct Hg as [_ Hg]. apply (Hg p (dpd_timer c)). rewrite Hhs.
      replace (ptr, Some p, dpd_timer c) with (handles c) by (unfold handles; congruence).
      by apply list_elem_of_fmap_2. }
    apply (returned_gone _ _ _ _ _ Hn) in E as ->. split; [done|congruence].
Qed.

Lemma timer_expired_ok p f (q : instance) a q' :
  qnetd_ok q → timers_running (q_timers q) !! p = Some f →
  qnetd_timer_expired p f q = (Ok a, q') → qnetd_ok q' ∧ place q' = place q.
Proof. destruct f; [apply algo_expired|apply dpd_expired]. Qed.
End daemon_timers.
