(* ===== verification/QnetdSafety.v ===== *)
(** What holds of the daemon qnetd at all times, if no client sends INIT twice, and what a message of a client that may not
    send it changes. *)
From S2P Require Import Prelude Dynar Tlv NodeList Msg Msgio SendBuffer QnetdClient QnetdCluster.
From stdpp Require Import list gmap relations.
From S2P Require Import TimerList TimerListFacts TimerInterface QnetdAlgoTimer QnetdAlgorithm QnetdInstance.
From S2P Require Import QnetdFrame QnetdInstanceFacts QnetdMsgReceived QnetdMsgFacts.
From S2P Require Import QnetdClientNet QnetdDaemonFacts QnetdTimerFacts.
Local Open Scope Z_scope.

Section safety.
Context {T : Type} `{TimerLaws qnetd_timer T}.
Abbreviation instance := (@qnetd_instance T).
Context {Cert : Type} (SSL_PeerCertificate : nat → option Cert).
Context (CERT_VerifyCertName : Cert → option (list byte) → bool).
Context (nss_sock_start_ssl_as_server : nat → bool).
Context {sock : Type}.
Context (PR_Send : sock → list byte → Z * sock).
Context (PR_Recv : sock → Z → Z * list byte * sock).
Context (PR_GetError : sock → Z) (PR_WOULD_BLOCK_ERROR : Z).
Context (beyond : mem).
Context (settings : qnetd_settings).

(** ** The steps of the daemon

    A callback of the poll loop for one client, a new connection at a fresh address, an
    expired timer, or the look for clients to disconnect. *)
Inductive event :=
| EV_ACCEPT (o : accept_outcome)
| EV_READ (ptr : nat) (s : sock)
| EV_WRITE (ptr : nat) (s : sock)
| EV_ERR (ptr : nat) (s : sock)
| EV_TIMER (p : nat)
| EV_PRE_POLL.

Inductive qnetd_step : event → relation instance :=
| step_accept o q r q' :
    ao_client_ptr o ∉ q_clients q →
    qnetd_client_net_accept settings o q = (Ok r, q') → qnetd_step (EV_ACCEPT o) q q'
| step_read ptr s q r q' s' :
    qnetd_client_net_socket_poll_loop_read_cb SSL_PeerCertificate CERT_VerifyCertName
      nss_sock_start_ssl_as_server PR_Recv PR_GetError PR_WOULD_BLOCK_ERROR beyond settings ptr
      (q, s) = (Ok r, (q', s')) → qnetd_step (EV_READ ptr s) q q'
| step_write ptr s q r q' s' :
    qnetd_client_net_socket_poll_loop_write_cb PR_Send PR_GetError PR_WOULD_BLOCK_ERROR ptr
      (q, s) = (Ok r, (q', s')) → qnetd_step (EV_WRITE ptr s) q q'
| step_err ptr s q r q' s' :
    qnetd_client_net_socket_poll_loop_err_cb (sock:=sock) ptr (q, s) = (Ok r, (q', s')) →
    qnetd_step (EV_ERR ptr s) q q'
| step_timer p f q a q' :
    timers_running (q_timers q) !! p = Some f →
    qnetd_timer_expired p f q = (Ok a, q') → qnetd_step (EV_TIMER p) q q'
| step_pre_poll q r q' :
    qnetd_instance_poll_loop_pre_poll_cb q = (Ok r, q') → qnetd_step EV_PRE_POLL q q'.

(** The event completes an INIT of a client that is in a cluster already. *)
Definition second_init (e : event) (q : instance) : Prop :=
  match e with
  | EV_READ ptr s => ∃ q1 s1 c h msg h',
      client_msgio_read PR_Recv PR_GetError PR_WOULD_BLOCK_ERROR beyond ptr (q, s) = (Ok 1, (q1, s1)) ∧
      find_at ptr (connected_clients q1) = Some c ∧
      msg_decode beyond (receive_buffer c) (msg_decoded_init, h) = (0, (msg, h')) ∧
      dm_type msg = MSG_TYPE_INIT ∧ ¬ in_lobby ptr q1
  | _ => False
  end.

(** A run of the daemon, with the events and the states they met. *)
Inductive qnetd_run (q0 : instance) : list (event * instance) → instance → Prop :=
| run_start : qnetd_run q0 [] q0
| run_next es q e q' : qnetd_run q0 es q → qnetd_step e q q' → qnetd_run q0 (es ++ [(e, q)]) q'.

Lemma not_second_first_init ptr s (q : instance) :
  ¬ second_init (EV_READ ptr s) q →
  ∀ q1 s1, client_msgio_read PR_Recv PR_GetError PR_WOULD_BLOCK_ERROR beyond ptr (q, s) =
    (Ok 1, (q1, s1)) → first_init beyond ptr q1.
Proof.
  intros Hn q1 s1 E c h msg h' Hf Hd Ht. unfold in_lobby.
  destruct (decide (ptr ∈ client_ptr <$> q_lobby q1)) as [|Hl]; [done|].
  destruct Hn. by exists q1, s1, c, h, msg, h'.
Qed.

Lemma same_sockets_daemon (q q' : instance) :
  daemon_ok q → qnetd_ok q' → sockets q' = sockets q → daemon_ok q'.
Proof. intros [_ Hp] Hq' [= Ec Ep]. split; [done|]. by rewrite Ec, Ep. Qed.

Lemma step_ok e q q' : daemon_ok q → ¬ second_init e q → qnetd_step e q q' → daemon_ok q'.
Proof.
  intros Hd Hno Hs. pose proof (do_ok _ Hd) as Hq. destruct Hs as
    [o q r q' Hni E|ptr s q r q' s' E|ptr s q r q' s' E|ptr s q r q' s' E|p f q a q' Hr E|q r q' E].
  - by eapply accept_ok.
  - destruct (read_cb_ok _ _ _ _ _ _ _ _ _ _ _ _ _ _ Hq (not_second_first_init _ _ _ Hno) E). by eapply same_sockets_daemon.
  - destruct (net_write_cb _ _ _ _ _ _ _ _ _ Hq E). by eapply same_sockets_daemon.
  - destruct (net_err_cb _ _ _ _ _ _ Hq E). by eapply same_sockets_daemon.
  - destruct (timer_expired_ok p f q a q' Hq Hr E) as [? ?%place_sockets]. by eapply same_sockets_daemon.
  - unfold qnetd_instance_poll_loop_pre_poll_cb in E. rewrite (bind_ok get _ _ _ _ eq_refl) in E.
    by eapply pre_poll_loop_ok.
Qed.

Lemma run_ok q0 es q :
  daemon_ok q0 → qnetd_run q0 es q → (∀ e q1, (e, q1) ∈ es → ¬ second_init e q1) → daemon_ok q.
Proof.
  intros Hd. induction 1 as [|es q e q' _ IH Hs]; [done|]. intros Hno.
  eapply (step_ok e q); [|by apply Hno, elem_of_app; right; left|done].
  apply IH. intros e1 q1 Hin. by apply Hno, elem_of_app; left.
Qed.

(** A daemon that has just been started. *)
Definition started (q : instance) : Prop :=
  q_clients q = [] ∧ q_lobby q = [] ∧ q_clusters q = [] ∧ q_polled q = [] ∧
  timers_inv (q_timers q) ∧ timers_running (q_timers q) = ∅.

Lemma started_ok q : started q → daemon_ok q.
Proof.
  intros (Hc & Hl & Hcl & Hp & Hi & Hr). split; [split|]; unfold connected_clients; rewrite ?Hc, ?Hl, ?Hcl, ?Hp;
    try done; try by constructor.
  split; [done|]. intros p f. rewrite Hr. split; [done|]. intros (h & Hh & _). by apply not_elem_of_nil in Hh.
Qed.

(** What two clients of one cluster agree on, and what tells them apart. *)
Definition compatible (c c' : qclient) : Prop :=
  tlv_tie_breaker_eq (tie_breaker c) (tie_breaker c') = true ∧
  decision_algorithm c = decision_algorithm c' ∧
  (client_node_id c = client_node_id c' → c = c').

Lemma cluster_compatible cl c c' :
  cluster_ok cl → c ∈ client_list cl → c' ∈ client_list cl → compatible c c'.
Proof.
  intros [_ (tb & alg & _ & _ & Hs) Hids] Hc Hc'.
  destruct (Hs c Hc) as [Ht Ha], (Hs c' Hc') as [Ht' Ha']. split_and!; [|congruence|].
  - eapply tie_breaker_eq_trans; [|exact Ht']. by rewrite tie_breaker_eq_sym.
  - intros E. by apply (NoDup_fmap_inj client_node_id (client_list cl)).
Qed.

(** C1: in every run in which no client that is in a cluster sends another INIT, at all times
    every client is known once and has one socket in the poll loop; two
    clients of one cluster have one tie-breaker and one algorithm and different node ids;
    and a timer runs for a client exactly when the client's handle points to it, so that no
    timer outlives its client. *)
Theorem qnetd_invariant q0 es q :
  started q0 → qnetd_run q0 es q → (∀ e q1, (e, q1) ∈ es → ¬ second_init e q1) →
  NoDup (client_ptr <$> connected_clients q) ∧
  q_clients q ≡ₚ client_ptr <$> connected_clients q ∧ q_polled q ≡ₚ q_clients q ∧
  NoDup (cl_name <$> q_clusters q) ∧
  (∀ cl, cl ∈ q_clusters q → client_list cl ≠ [] ∧
     ∀ c c', c ∈ client_list cl → c' ∈ client_list cl → compatible c c') ∧
  (∀ p f, timers_running (q_timers q) !! p = Some f ↔
     ∃ c, c ∈ connected_clients q ∧
       (f = ALGO_TIMER (client_ptr c) ∧ algo_timer c = Some p ∨
        f = DPD_TIMER (client_ptr c) ∧ dpd_timer c = Some p)).
Proof.
  intros H1 H2 H3. pose proof (run_ok _ _ _ (started_ok _ H1) H2 H3) as [[Hpt Hc Hn Hcl _ Ht] Hp].
  split_and!; try done.
  - intros cl Hin. rewrite Forall_forall in Hcl. specialize (Hcl cl Hin). split; [apply Hcl|].
    intros c c'. by apply cluster_compatible.
  - intros p f. rewrite (ag_running _ _ Ht). split.
    + intros (h & (c & -> & Hin)%list_elem_of_fmap & Ho). by exists c.
    + intros (c & Hin & Ho). exists (handles c). split; [by apply list_elem_of_fmap_2|exact Ho].
Qed.

(** C14: INIT of a client that is in no cluster yet: with the reply [NO_ERROR] the client is in
    the cluster of its name, with the tie-breaker and the algorithm of all the others there and
    a node id of its own; with any other reply it is not initialised. *)
Theorem init_accept_correct ptr msg (q : instance) code q' :
  daemon_ok q → in_lobby ptr q → init_accept settings ptr msg q = (Ok code, q') →
  daemon_ok q' ∧
  if code =? TLV_REPLY_ERROR_CODE_NO_ERROR then
    ∃ cl c, cl ∈ q_clusters q' ∧ c ∈ client_list cl ∧ client_ptr c = ptr ∧
      cluster_name c = Some (cl_name cl) ∧ init_received c = true ∧
      ∀ c', c' ∈ client_list cl → compatible c c'
  else ∀ c, c ∈ connected_clients q' → client_ptr c = ptr → init_received c = false.
Proof.
  intros H1 H2 H3. destruct (init_accept_ok settings ptr msg q code q' (do_ok _ H1) H2 H3) as (Hq & Hs & Hr).
  split; [by eapply same_sockets_daemon|]. destruct (code =? _); [|exact Hr].
  destruct Hr as (cl & c & Hcl & Hc & Hp & Hn & Hi). exists cl, c. split_and!; try done.
  intros c' Hc'. apply (cluster_compatible cl); [|done..].
  pose proof (qo_clusters _ Hq) as Hok. rewrite Forall_forall in Hok. by apply Hok.
Qed.

(** ** Messages that are refused *)

(** A client without what an error reply changes: the messages queued for it. *)
Definition calm (c : qclient) : qclient := set_send_buffers (send_buffer_list_init 0 0) c.

Definition view (q : instance) :=
  (sockets q, q_timers q, calm <$> q_lobby q,
   (λ cl, (cl_name cl, cl_algorithm_data cl, calm <$> client_list cl)) <$> q_clusters q).

Definition harmless {A} (m : M instance A) : Prop := ∀ q a q',
  NoDup (client_ptr <$> connected_clients q) → m q = (Ok a, q') → view q' = view q.

Lemma view_calm (q q' : instance) :
  view q' = view q → calm <$> connected_clients q' = calm <$> connected_clients q.
Proof.
  intros [= _ _ _ El Ec]. unfold connected_clients. rewrite !fmap_app, El. f_equal.
  revert Ec. generalize (q_clusters q) as l, (q_clusters q') as l'.
  induction l as [|cl l IH]; intros [|cl' l'] Ec; try done. injection Ec as _ _ Ecl Ec.
  unfold all_clients in *. rewrite !bind_cons, !fmap_app, Ecl. f_equal. by apply IH.
Qed.

Lemma calm_list {B} (g : qclient → B) (l l' : list qclient) :
  (∀ c, g (calm c) = g c) → calm <$> l' = calm <$> l → g <$> l' = g <$> l.
Proof.
  intros Hg E. apply (f_equal (fmap g)) in E. rewrite <-!list_fmap_compose in E.
  erewrite (list_fmap_ext g), E; [|intros i c _; by rewrite <-Hg].
  apply list_fmap_ext. intros i c _. apply Hg.
Qed.

Lemma view_NoDup (q q' : instance) : view q' = view q →
  NoDup (client_ptr <$> connected_clients q) → NoDup (client_ptr <$> connected_clients q').
Proof. intros E%view_calm. by rewrite (calm_list client_ptr _ _ ltac:(by intros []) E). Qed.

Lemma harmless_ret {A} (a : A) : harmless (mret a).
Proof. by intros q x q' _ [= _ <-]. Qed.
Lemma harmless_bind {A B} (m : M instance A) (f : A → M instance B) :
  harmless m → (∀ a, harmless (f a)) → harmless (m ≫= f).
Proof.
  intros Hm Hf q b q' Hnd E. apply bind_Ok in E as (a & q1 & E1 & E2).
  pose proof (Hm _ _ _ Hnd E1) as V1. rewrite <-V1. eapply Hf; [|exact E2]. by eapply view_NoDup.
Qed.
Lemma harmless_client_at ptr : harmless (client_at ptr).
Proof. intros q a q' _. unfold client_at. by destruct (find_at _ _); intros [= _ <-]. Qed.

Lemma view_modify ptr f (q : instance) :
  (∀ c, c ∈ connected_clients q → client_ptr c = ptr → calm (f c) = calm c) →
  view (snd (modify_client ptr f q)) = view q.
Proof.
  intros Hf. unfold view. cbn. f_equal; [f_equal|].
  - apply update_fmap. intros c Hc. apply Hf, elem_of_app. by left.
  - rewrite <-list_fmap_compose. apply Forall_fmap_ext_1, Forall_forall. intros cl Hcl. cbn. f_equal.
    apply update_fmap. intros c Hc. apply Hf, elem_of_app. right. by eapply all_clients_elem.
Qed.

Lemma harmless_modify ptr f : (∀ c, calm (f c) = calm c) → harmless (modify_client ptr f).
Proof. intros Hf q a q' _ [= _ <-]. by apply (view_modify ptr f). Qed.

Lemma calm_send_msg create (c : qclient) h r c' h' :
  send_msg create c h = (r, (c', h')) → calm c' = calm c.
Proof.
  unfold send_msg. destruct (send_buffer_list_get_new _ _) as [[e|] [s h1]];
    [destruct (create _) as [sz [b h2]]; destruct (sz =? 0)|]; intros [= <- <- <-]; by destruct c.
Qed.

Lemma harmless_send_err ptr msg code : harmless (send_err ptr msg code).
Proof.
  apply harmless_bind; [|intros r; apply harmless_ret]. intros q a q' Hnd E. unfold send_to in E.
  apply bind_Ok in E as (c & q1 & E1 & E). apply client_at_Ok in E1 as (-> & Hc & Hp & _).
  rewrite (bind_ok get _ _ _ _ eq_refl) in E.
  destruct (qnetd_client_send_err c _ _ code (q_heap q)) as [r [c' h]] eqn:Es. apply calm_send_msg in Es.
  injection E as _ <-. apply (view_modify ptr (λ _, c') (set_heap h q)).
  intros x Hx Hpx. assert (x = c) as ->; [|done].
  apply (NoDup_fmap_inj client_ptr (connected_clients q)); [done..|congruence].
Qed.

(** The daemon has to check the certificate of the client, and found it to be right. *)
Definition certified (c : qclient) : Prop :=
  tls_client_cert_required settings ≠ 0 ∧ tls_peer_certificate_verified c = false ∧
  ∃ cert, SSL_PeerCertificate (client_ptr c) = Some cert ∧
    CERT_VerifyCertName cert (cluster_name c) = true.

(** The same state, with the note that the certificate of the client at [ptr] is right. *)
Definition with_certificate (ptr : nat) (q : instance) : instance :=
  snd (modify_client ptr (set_tls_peer_certificate_verified true) q).

Lemma check_tls_view ptr msg (q : instance) res q' c :
  NoDup (client_ptr <$> connected_clients q) → find_at ptr (connected_clients q) = Some c →
  qnetd_client_msg_received_check_tls SSL_PeerCertificate CERT_VerifyCertName settings ptr msg q = (Ok res, q') →
  view q' = view q ∨ certified c ∧ q' = with_certificate ptr q.
Proof.
  intros Hnd Hf E. unfold qnetd_client_msg_received_check_tls in E.
  apply bind_Ok in E as (c0 & q1 & E1 & E). apply client_at_Ok in E1 as (-> & _ & Hptr & Hf').
  rewrite Hf in Hf'. injection Hf' as <-.
  assert (Hck : ∀ ck : bool, (ck = true → tls_client_cert_required settings ≠ 0 ∧ tls_peer_certificate_verified c = false) →
    (if ck then
      match SSL_PeerCertificate ptr with
      | None => mret (-1)
      | Some peer_cert =>
          if negb (CERT_VerifyCertName peer_cert (cluster_name c)) then mret (-1)
          else modify_client ptr (set_tls_peer_certificate_verified true);; mret 0
      end
     else mret 0) q = (Ok res, q') → view q' = view q ∨ certified c ∧ q' = with_certificate ptr q).
  { intros [] Hck Ec; [|injection Ec as _ <-; by left]. destruct (Hck eq_refl) as [Hr Hv].
    destruct (SSL_PeerCertificate ptr) as [cert|] eqn:Es; [|injection Ec as _ <-; by left].
    destruct (CERT_VerifyCertName cert (cluster_name c)) eqn:En; cbn [negb] in Ec; [|injection Ec as _ <-; by left].
    injection Ec as _ <-. right. split; [|done]. split_and!; [done..|]. exists cert. by rewrite Hptr. }
  destruct (tls_supported settings); cbn [andb] in E.
  - by apply (Hck false).
  - apply (Hck (tls_started c && negb (tls_client_cert_required settings =? 0) && negb (tls_peer_certificate_verified c)));
      [|exact E]. rewrite !andb_true_iff, !negb_true_iff, Z.eqb_neq. tauto.
  - destruct (tls_started c); cbn [negb] in E.
    + apply (Hck (negb (tls_client_cert_required settings =? 0) && negb (tls_peer_certificate_verified c)));
        [|exact E]. by rewrite !andb_true_iff, !negb_true_iff, Z.eqb_neq.
    + apply bind_Ok in E as (r & q1 & E1 & [= _ <-]). left. by eapply harmless_send_err.
Qed.

(** The messages of a client that is initialised, and those only a server sends. *)
Definition needs_init (type : Z) : bool :=
  bool_decide (type ∈ [MSG_TYPE_SET_OPTION; MSG_TYPE_ECHO_REQUEST; MSG_TYPE_NODE_LIST;
    MSG_TYPE_ASK_FOR_VOTE; MSG_TYPE_VOTE_INFO_REPLY; MSG_TYPE_HEURISTICS_CHANGE]).
Definition for_server (type : Z) : bool :=
  needs_init type || bool_decide (type ∈ [MSG_TYPE_PREINIT; MSG_TYPE_STARTTLS; MSG_TYPE_INIT]).

(** TLS is required but was not started. *)
Definition no_tls (c : qclient) : Prop := tls_supported settings = TLV_TLS_REQUIRED ∧ tls_started c = false.

(** The message is refused in the client's state. *)
Definition refused (c : qclient) (type : Z) : Prop :=
  for_server type = false ∨
  (type = MSG_TYPE_INIT ∨ needs_init type = true) ∧ no_tls c ∨
  needs_init type = true ∧ init_received c = false.

Lemma harmless_after_tls ptr msg next (q : instance) r q' c :
  NoDup (client_ptr <$> connected_clients q) → find_at ptr (connected_clients q) = Some c → no_tls c →
  after_tls SSL_PeerCertificate CERT_VerifyCertName settings ptr msg next q = (Ok r, q') →
  view q' = view q.
Proof.
  intros Hnd Hf [Hs Hn] E. unfold after_tls in E. apply bind_Ok in E as (res & q1 & E1 & E).
  unfold qnetd_client_msg_received_check_tls in E1. apply bind_Ok in E1 as (c0 & q0 & E0 & E1).
  apply client_at_Ok in E0 as (-> & _ & _ & Hf'). rewrite Hf in Hf'. injection Hf' as <-.
  rewrite Hs, Hn in E1. cbn [andb negb] in E1. apply bind_Ok in E1 as (x & q2 & E2 & [= <- <-]).
  pose proof (harmless_send_err ptr msg _ q x q2 Hnd E2) as V.
  destruct (x =? -1); by injection E as _ <-.
Qed.

Lemma view_find ptr (q q' : instance) c :
  view q' = view q → NoDup (client_ptr <$> connected_clients q) →
  find_at ptr (connected_clients q) = Some c →
  ∀ c', find_at ptr (connected_clients q') = Some c' → calm c' = calm c.
Proof.
  intros V Hnd [Hc Hp]%find_at_Some c' [Hc' Hp']%find_at_Some. pose proof (view_calm _ _ V) as Ev.
  apply (list_elem_of_fmap_2 calm) in Hc'. rewrite Ev in Hc'. apply list_elem_of_fmap in Hc' as (x & Ex & Hx).
  rewrite Ex. f_equal. apply (NoDup_fmap_inj client_ptr (connected_clients q)); [done..|].
  apply (f_equal client_ptr) in Ex. rewrite Hp, <-Hp'. symmetry. clear -Ex. by destruct x, c'.
Qed.

(** What a refused message does: an error is queued at most, and the certificate is noted. *)
Definition refused_view (ptr : nat) (c : qclient) (q q' : instance) : Prop :=
  view q' = view q ∨ certified c ∧ view q' = view (with_certificate ptr q).

Lemma harmless_after_init ptr msg next (q : instance) r q' c :
  NoDup (client_ptr <$> connected_clients q) → find_at ptr (connected_clients q) = Some c →
  init_received c = false →
  after_init SSL_PeerCertificate CERT_VerifyCertName settings ptr msg next q = (Ok r, q') →
  refused_view ptr c q q'.
Proof.
  intros Hnd Hf Hi E. unfold after_init, after_tls in E. apply bind_Ok in E as (res & q1 & E1 & E).
  assert (Hnd1 : NoDup (client_ptr <$> connected_clients (with_certificate ptr q))).
  { unfold with_certificate. rewrite connected_modify, update_proj; [done|by intros []]. }
  assert (Hnext : ∀ q1 : instance, NoDup (client_ptr <$> connected_clients q1) →
    (∀ c1, find_at ptr (connected_clients q1) = Some c1 → init_received c1 = false) →
    (if negb (res =? 0) then mret (if res =? -1 then -1 else 0)
     else c ← client_at ptr;
          (if negb (init_received c) then send_err ptr msg TLV_REPLY_ERROR_CODE_INIT_REQUIRED
           else next)) q1 = (Ok r, q') → view q' = view q1).
  { clear E q1 E1. intros q1 Hn Hi1 E. destruct (negb (res =? 0)); [by injection E as _ <-|].
    apply bind_Ok in E as (c1 & q2 & E2 & E). apply client_at_Ok in E2 as (-> & _ & _ & Hf1).
    rewrite (Hi1 c1 Hf1) in E. cbn [negb] in E. by eapply harmless_send_err. }
  destruct (check_tls_view ptr msg q res q1 c Hnd Hf E1) as [V|[Hc ->]].
  - left. rewrite <-V. eapply Hnext; [by eapply view_NoDup| |exact E]. intros c1 Hf1.
    pose proof (view_find ptr q q1 c V Hnd Hf c1 Hf1) as Ec.
    apply (f_equal init_received) in Ec. rewrite <-Hi. by destruct c, c1.
  - right. split; [done|]. eapply Hnext; [done| |exact E]. intros c1.
    unfold with_certificate. rewrite connected_modify, find_at_update by (by intros []). rewrite Hf.
    intros [= <-]. by destruct c.
Qed.


(** ** A second INIT *)

Definition flags (c : qclient) := (client_ptr c, cluster_name c, init_received c).

Lemma registered_modify p ptr f (q : instance) :
  (∀ c, flags (f c) = flags c) → registered p q → registered p (snd (modify_client ptr f q)).
Proof.
  intros Hf (cl & c & Hcl & Hc & Hp & Hn & Hi). exists (update_client ptr f cl).
  set (c' := if bool_decide (client_ptr c = ptr) then f c else c). exists c'.
  assert (E : flags c' = flags c) by (unfold c'; by destruct (bool_decide _)).
  unfold flags in E. injection E as -> -> ->. split_and!; [cbn; by apply list_elem_of_fmap_2| |done..].
  apply list_elem_of_fmap. by exists c.
Qed.

(** The client is in its cluster, and all that is known of it is its node id. *)
Record joined (ptr : nat) (q : instance) : Prop := {
  jo_ptrs : NoDup (client_ptr <$> connected_clients q);
  jo_names : NoDup (cl_name <$> q_clusters q);
  jo_registered : registered ptr q
}.
Definition has_node_id (ptr : nat) (v : Z) (q : instance) : Prop := ∀ c,
  c ∈ connected_clients q → client_ptr c = ptr → client_node_id c = v.

Lemma joined_modify ptr f (q : instance) :
  (∀ c, flags (f c) = flags c) → joined ptr q → joined ptr (snd (modify_client ptr f q)).
Proof.
  intros Hf [Hp Hn Hr]. split.
  - rewrite connected_modify, update_proj; [done|]. intros c. specialize (Hf c). unfold flags in Hf. congruence.
  - cbn. by rewrite <-list_fmap_compose.
  - by apply registered_modify.
Qed.

Lemma node_id_modify ptr f v (q : instance) :
  (∀ c, client_ptr (f c) = client_ptr c) →
  (∀ c, client_node_id c = v → client_node_id (f c) = v) →
  has_node_id ptr v q → has_node_id ptr v (snd (modify_client ptr f q)).
Proof.
  intros Hp Hv Hq c. rewrite connected_modify. intros (c0 & -> & Hc0)%list_elem_of_fmap.
  case_bool_decide as Hb; [rewrite Hp|]; intros E; [apply Hv|]; by apply Hq.
Qed.

(** A step that keeps both, and one that stores the node id. *)
Definition keeps_joined {A} (ptr : nat) (v : Z) (m : M instance A) : Prop := ∀ q a q',
  joined ptr q → has_node_id ptr v q → m q = (Ok a, q') → joined ptr q' ∧ has_node_id ptr v q'.

Lemma keeps_joined_bind {A B} ptr v (m : M instance A) (f : A → M instance B) :
  keeps_joined ptr v m → (∀ a, keeps_joined ptr v (f a)) → keeps_joined ptr v (m ≫= f).
Proof.
  intros Hm Hf q b q' Hj Hv E. apply bind_Ok in E as (a & q1 & E1 & E2).
  destruct (Hm _ _ _ Hj Hv E1). by eapply (Hf a).
Qed.
Lemma keeps_joined_ret {A} ptr v (a : A) : keeps_joined ptr v (mret a).
Proof. by intros q x q' Hj Hv [= _ <-]. Qed.
Lemma keeps_joined_client_at p ptr v : keeps_joined ptr v (client_at p).
Proof. intros q a q' Hj Hv. unfold client_at. by destruct (find_at _ _); intros [= _ <-]. Qed.
Lemma keeps_joined_modify ptr v f :
  (∀ c, flags (f c) = flags c) → (∀ c, client_node_id c = v → client_node_id (f c) = v) →
  keeps_joined ptr v (modify_client ptr f).
Proof.
  intros Hf Hv q a q' Hj Hn [= _ <-]. split; [by apply joined_modify|].
  apply node_id_modify; [|done..]. intros c. specialize (Hf c). unfold flags in Hf. congruence.
Qed.
Lemma keeps_joined_timers {A} ptr v (m : M (T * heap) A) : keeps_joined ptr v (on_timers m).
Proof.
  intros q a q' Hj Hv. unfold on_timers. destruct (m _) as [r [t h]]. intros [= _ <-].
  split; [by destruct Hj|done].
Qed.
Lemma keeps_joined_take_option {A} ptr v code (o : option A) zero store :
  (∀ x c, flags (store x c) = flags c) → (∀ x c, client_node_id c = v → client_node_id (store x c) = v) →
  keeps_joined ptr v (take_option ptr code o zero store).
Proof.
  intros Hf Hv. unfold take_option. destruct (_ && _); [apply keeps_joined_ret|].
  apply keeps_joined_bind; [apply keeps_joined_modify; auto|intros; apply keeps_joined_ret].
Qed.

Lemma init_options_joined ptr v msg (q : instance) code q' :
  dm_node_id msg = Some v → joined ptr q → init_options settings ptr msg q = (Ok code, q') →
  joined ptr q' ∧ has_node_id ptr v q'.
Proof.
  intros Hv Hj E. unfold init_options in E. apply bind_Ok in E as (c & q1 & E1 & E).
  apply client_at_Ok in E1 as (-> & _). apply bind_Ok in E as (code1 & q1 & E1 & E).
  assert (H1 : joined ptr q1 ∧ has_node_id ptr v q1).
  { unfold take_option in E1. rewrite Hv, andb_false_r in E1. injection E1 as _ <-.
    set (f := λ c : qclient, _). split; [apply (joined_modify ptr f); [by intros []|done]|].
    change (has_node_id ptr v (snd (modify_client ptr f q))).
    intros x. rewrite connected_modify. intros (c0 & -> & _)%list_elem_of_fmap.
    case_bool_decide as Hb; [by destruct c0|done]. }
  destruct H1 as [Hj1 Hv1]. revert E. 
  match goal with |- ?m q1 = _ → _ => enough (Hk : keeps_joined ptr v m) by (by apply Hk) end.
  apply keeps_joined_bind; [apply keeps_joined_take_option; by intros ? []|]. intros code2.
  apply keeps_joined_bind.
  { unfold take_heartbeat_interval. destruct (_ && _); [apply keeps_joined_ret|].
    destruct (negb _); [apply keeps_joined_ret|].
    apply keeps_joined_bind; [apply keeps_joined_modify; by intros []|]. intros _.
    apply keeps_joined_bind; [|intros; apply keeps_joined_ret].
    unfold qnetd_client_dpd_timer_update_interval. apply keeps_joined_bind; [apply keeps_joined_client_at|].
    intros c0. destruct (dpd_timer c0); [apply keeps_joined_timers|apply keeps_joined_ret]. }
  intros code3. apply keeps_joined_bind; [apply keeps_joined_take_option; by intros ? []|]. intros code4.
  unfold take_decision_algorithm. destruct (_ && _); [apply keeps_joined_ret|].
  apply keeps_joined_bind; [apply keeps_joined_modify; by intros []|intros; apply keeps_joined_ret].
Qed.

(** A client of a cluster never passes the check against the clients of that cluster. *)
Lemma joined_check ptr (q : instance) code q' :
  joined ptr q → qnetd_client_msg_received_init_check_new_client ptr q = (Ok code, q') →
  code ≠ TLV_REPLY_ERROR_CODE_NO_ERROR.
Proof.
  intros [Hp Hn (cl & c & Hcl & Hc & Hptr & Hname & _)] E ->.
  apply check_new_client_ok in E as (_ & c1 & name & Hf & Hn1 & Hck). specialize (Hck eq_refl).
  apply find_at_Some in Hf as [Hc1 Hp1]. assert (c1 = c) as ->.
  { apply (NoDup_fmap_inj client_ptr (connected_clients q)); [done|done| |congruence].
    apply elem_of_app. right. by eapply all_clients_elem. }
  rewrite Hname in Hn1. injection Hn1 as <-.
  destruct (qnetd_cluster_list_find_by_name (q_clusters q) (cl_name cl)) as [[j cl']|] eqn:Ef.
  - pose proof (find_by_name_Some _ _ _ _ Ef) as [Hj Hnj]. assert (cl' = cl) as ->.
    { apply (NoDup_fmap_inj cl_name (q_clusters q)); [done|by eapply list_elem_of_lookup_2|done|done]. }
    by destruct (check_loop_ok c _ (Hck _ _ eq_refl) c Hc) as (_ & _ & []).
  - apply find_by_name_None in Ef. apply Ef. by apply list_elem_of_fmap_2.
Qed.

(** C15: a second INIT of a client is answered with an error, but the node id of the message is
    stored all the same - whatever it is, so also when another client has it. *)
Theorem second_init_overwrites ptr v msg (q : instance) code q' :
  daemon_ok q → registered ptr q → dm_node_id msg = Some v →
  init_accept settings ptr msg q = (Ok code, q') →
  code ≠ TLV_REPLY_ERROR_CODE_NO_ERROR ∧
  ∀ c, c ∈ connected_clients q' → client_ptr c = ptr → client_node_id c = v.
Proof.
  intros H1 H2 H3 H4. assert (Hj : joined ptr q) by (split; [apply H1|apply H1|done]).
  unfold init_accept in H4. apply bind_Ok in H4 as (code1 & q1 & E1 & E).
  destruct (init_options_joined ptr v msg q code1 q1 H3 Hj E1) as [Hj1 Hv1].
  apply bind_Ok in E as (code2 & q2 & E2 & E).
  assert (Hq2 : code2 ≠ TLV_REPLY_ERROR_CODE_NO_ERROR ∧ has_node_id ptr v q2).
  { destruct (Z.eqb_spec code1 TLV_REPLY_ERROR_CODE_NO_ERROR) as [_|Hne]; [|by injection E2 as <- <-].
    unfold init_join in E2. set (f := set_keep_active_partition_tie_breaker _) in E2.
    rewrite (bind_ok (modify_client ptr f) _ q1 tt (snd (modify_client ptr f q1)) eq_refl) in E2.
    pose proof (joined_modify ptr f q1 ltac:(by intros []) Hj1) as Hj2.
    apply bind_Ok in E2 as (code3 & q3 & E3 & E2). pose proof (joined_check _ _ _ _ Hj2 E3) as Hc3.
    apply check_new_client_ok in E3 as (-> & _).
    rewrite (proj2 (Z.eqb_neq _ _) Hc3) in E2. injection E2 as <- <-. split; [done|].
    apply node_id_modify; [by intros []|by intros []|done]. }
  destruct Hq2 as [Hc2 Hv2]. rewrite (proj2 (Z.eqb_neq _ _) Hc2) in E. by injection E as <- <-.
Qed.
End safety.

(** ** An example: a daemon with the timer list, two connections and their messages *)

#[local] Instance ex_daemon_ops : TimerOps qnetd_timer (@timer_list qnetd_timer) :=
  timer_list_ops (λ i, i).
#[local] Instance ex_daemon_laws : TimerLaws qnetd_timer (@timer_list qnetd_timer) :=
  timer_list_laws (λ i, i) TIMER_LIST_MAX_INTERVAL (2 ^ 30) ltac:(by vm_compute) ltac:(by vm_compute)
    ltac:(by vm_compute) ltac:(intros; lia).

Definition ex_settings : qnetd_settings :=
  mk_settings TLV_TLS_SUPPORTED 0 0 10 65536 65536 1000 120000 true (λ i, i + i / 2)
    TLV_KEEP_ACTIVE_PARTITION_TIE_BREAKER_DISABLED.
Definition ex_q0 : @qnetd_instance (@timer_list qnetd_timer) := mk_instance [] [] [] [] (timer_list_init 0) [].

Lemma ex_started : started ex_q0.
Proof. split_and!; try done. exists (λ _, 0). apply timers_ok_init. Qed.

Definition ex_accept (ptr : nat) := qnetd_client_net_accept ex_settings (mk_accept true true true ptr).
Definition ex_q1 := snd (ex_accept 1 ex_q0).
Definition ex_q2 := snd (ex_accept 2 ex_q1).

Definition ex_no_cert (ptr : nat) : option unit := None.
Definition ex_run_of := qnetd_run ex_no_cert (λ _ _, true) (λ _, true) (sock:=unit) (λ _ _, (0, tt))
  (λ _ _, (0, [], tt)) (λ _, 0) 0 (λ _, Byte.x00) ex_settings.

Definition ex_events : list (@event unit * @qnetd_instance (@timer_list qnetd_timer)) :=
  [(EV_ACCEPT (mk_accept true true true 1), ex_q0); (EV_ACCEPT (mk_accept true true true 2), ex_q1)].

Lemma ex_run : ex_run_of ex_q0 ex_events ex_q2.
Proof.
  refine (run_next _ _ _ _ _ _ _ _ _ _ [(EV_ACCEPT (mk_accept true true true 1), ex_q0)] ex_q1 _ _
    (run_next _ _ _ _ _ _ _ _ _ _ [] ex_q0 _ _ (run_start _ _ _ _ _ _ _ _ _ _) _) _);
    [apply (step_accept _ _ _ _ _ _ _ _ _ (mk_accept true true true 1) _ 0)
    |apply (step_accept _ _ _ _ _ _ _ _ _ (mk_accept true true true 2) _ 0)];
    by (apply (bool_decide_unpack _); vm_compute) || reflexivity.
Qed.

Definition ex_second_init := second_init (T:=@timer_list qnetd_timer) (sock:=unit)
  (λ _ _, (0, [], tt)) (λ _, 0) 0 (λ _, Byte.x00).
Lemma ex_no_second_init e q1 : (e, q1) ∈ ex_events → ¬ ex_second_init e q1.
Proof. intros [[= -> _]|[[= -> _]|Hx]%elem_of_cons]%elem_of_cons; [by intros []..|by inversion Hx]. Qed.

Lemma qnetd_invariant_witness :
  started ex_q0 ∧ ex_run_of ex_q0 ex_events ex_q2 ∧
  (∃ p, timers_running (q_timers ex_q2) !! p = Some (DPD_TIMER 2)) ∧
  q_polled ex_q2 ≡ₚ q_clients ex_q2.
Proof.
  split; [exact ex_started|]. split; [exact ex_run|]. split; [exists 1%nat; by vm_compute|].
  pose proof (qnetd_invariant ex_no_cert (λ _ _, true) (λ _, true) (sock:=unit) (λ _ _, (0, tt))
    (λ _ _, (0, [], tt)) (λ _, 0) 0 (λ _, Byte.x00) ex_settings ex_q0 ex_events ex_q2 ex_started ex_run
    ex_no_second_init) as Hi.
  exact (proj1 (proj2 (proj2 Hi))).
Defined.

Lemma run_eq {S A} (m : M S A) s a : fst (m s) = Ok a → m s = (Ok a, snd (m s)).
Proof. by destruct (m s) as [r s'] eqn:E; intros [= ->]. Qed.

(** Client 1 sends PREINIT and INIT. *)
Definition ex_preinit : msg_decoded :=
  Msg.set_type MSG_TYPE_PREINIT (Msg.set_cluster_name (Valid [Byte.x41]) msg_decoded_init).
Definition ex_init (nid : Z) : msg_decoded :=
  Msg.set_type MSG_TYPE_INIT (Msg.set_node_id (Some nid) (Msg.set_ring_id (Some ring_id_zero)
    (Msg.set_heartbeat_interval (Some 8000) (Msg.set_tie_breaker (Some (mk_tie_breaker 1 0))
      (Msg.set_decision_algorithm (Some TLV_DECISION_ALGORITHM_TYPE_LMS) msg_decoded_init))))).
Definition ex_q3 := snd (qnetd_client_msg_received_preinit ex_settings 1 ex_preinit ex_q2).
Definition ex_q4 := snd (init_accept ex_settings 1 (ex_init 7) ex_q3).

Lemma ex_q2_ok : daemon_ok ex_q2.
Proof. eapply run_ok; [apply started_ok, ex_started|exact ex_run|exact ex_no_second_init]. Qed.

Lemma ex_q3_ok : daemon_ok ex_q3.
Proof.
  eapply (steady_daemon _ ex_q2 0 ex_q3); [apply keeps_steady, (keeps_preinit ex_settings 1 ex_preinit)
    |exact ex_q2_ok|apply run_eq; by vm_compute].
Qed.

Lemma ex_q3_lobby : in_lobby 1 ex_q3.
Proof. unfold in_lobby. apply (bool_decide_unpack _). by vm_compute. Qed.

Lemma ex_init_runs : init_accept ex_settings 1 (ex_init 7) ex_q3 = (Ok TLV_REPLY_ERROR_CODE_NO_ERROR, ex_q4).
Proof. unfold ex_q4. apply (run_eq (init_accept ex_settings 1 (ex_init 7)) ex_q3). vm_compute. reflexivity. Qed.

Lemma init_accept_correct_witness :
  daemon_ok ex_q3 ∧ in_lobby 1 ex_q3 ∧
  init_accept ex_settings 1 (ex_init 7) ex_q3 = (Ok TLV_REPLY_ERROR_CODE_NO_ERROR, ex_q4) ∧
  ∃ cl c, cl ∈ q_clusters ex_q4 ∧ c ∈ client_list cl ∧ client_ptr c = 1%nat ∧ cluster_name c = Some (cl_name cl).
Proof.
  split; [exact ex_q3_ok|]. split; [exact ex_q3_lobby|]. split; [exact ex_init_runs|].
  destruct (init_accept_correct ex_settings 1 (ex_init 7) ex_q3 _ ex_q4 ex_q3_ok ex_q3_lobby ex_init_runs)
    as [_ (cl & c & Hcl & Hc & Hp & Hn & _)].
  exists cl, c. exact (conj Hcl (conj Hc (conj Hp Hn))).
Defined.

Abbreviation ex_dispatch msg :=
  (msg_received_dispatch ex_no_cert (λ _ _, true) (λ _, true) ex_settings 1 msg (dynar_init 100)).

Definition ex_ask : msg_decoded := Msg.set_type MSG_TYPE_ASK_FOR_VOTE msg_decoded_init.

Lemma ex_ask_runs : ex_dispatch ex_ask ex_q3 = (Ok 0, snd (ex_dispatch ex_ask ex_q3)).
Proof. apply (run_eq (ex_dispatch ex_ask) ex_q3). vm_compute. reflexivity. Qed.

Lemma ex_q3_client : ∃ c, find_at 1 (connected_clients ex_q3) = Some c ∧ init_received c = false.
Proof.
  destruct (lobby_find 1 ex_q3 ex_q3_lobby (do_ok _ ex_q3_ok)) as (c & Hf & _ & _ & Hi & _).
  exists c. exact (conj Hf Hi).
Qed.


(** The second INIT of client 1 takes another node id. *)
Lemma ex_second_runs : init_accept ex_settings 1 (ex_init 9) ex_q4 =
  (Ok TLV_REPLY_ERROR_CODE_DUPLICATE_NODE_ID, snd (init_accept ex_settings 1 (ex_init 9) ex_q4)).
Proof. apply (run_eq (init_accept ex_settings 1 (ex_init 9)) ex_q4). vm_compute. reflexivity. Qed.

Lemma ex_q4_ok : daemon_ok ex_q4 ∧ registered 1 ex_q4.
Proof.
  destruct (init_accept_ok ex_settings 1 (ex_init 7) ex_q3 _ ex_q4 (do_ok _ ex_q3_ok) ex_q3_lobby ex_init_runs)
    as (Hq & Hs & Hr).
  split; [exact (same_sockets_daemon _ _ ex_q3_ok Hq Hs)|exact Hr].
Qed.

Lemma second_init_overwrites_witness :
  daemon_ok ex_q4 ∧ registered 1 ex_q4 ∧
  ∀ c, c ∈ connected_clients (snd (init_accept ex_settings 1 (ex_init 9) ex_q4)) →
    client_ptr c = 1%nat → client_node_id c = 9.
Proof.
  destruct ex_q4_ok as [Hd Hr]. split; [exact Hd|]. split; [exact Hr|].
  exact (proj2 (second_init_overwrites ex_settings 1 9 (ex_init 9) ex_q4 _ _ Hd Hr eq_refl ex_second_runs)).
Defined.
