(* ===== verification/DynarStr.v ===== *)
(** Strings in dynamic arrays (dynar-str.c), and what the program uses of [printf] and
    [scanf]: decimal numbers.

    A C string is the list of its bytes without the final zero; [strlen] is its length.
    The second part shows that a number that was printed is read back. *)
From stdpp Require Import strings.
From S2P Require Import Prelude Dynar.
Local Open Scope Z_scope.

Definition c_string : Type := list byte.
Definition str (s : string) : c_string := String.list_byte_of_string s.

(** ** Building strings *)

Definition dynar_str_cat (s : c_string) : M (dynar * heap) unit := dynar_cat s.

Definition dynar_str_cpy (s : c_string) : M (dynar * heap) unit := λ '(dest, h),
  if maximum_size dest <? Z.of_nat (length s) then (Err (-1), (dest, h))
  else dynar_str_cat s (dynar_clean dest, h).

Definition dynar_str_prepend (s : c_string) : M (dynar * heap) unit := dynar_prepend s.

(** [formatted] is what [vsnprintf] makes of the format and its arguments; it is written with
    the zero, which is not counted. *)
Definition dynar_str_vcatf (formatted : c_string) : M (dynar * heap) Z :=
  let to_write := Z.of_nat (length formatted) in
  if to_write <? 1 then mret 0
  else
    let allocated := to_write + 1 in
    or_fail (-1) (dynar_prealloc allocated);;
    modify (λ '(dest, h),
      (set_size (size dest + to_write)
         (set_data (block_write (data dest) (Z.to_nat (size dest)) (formatted ++ [x00])) dest), h));;
    mret to_write.

Definition dynar_str_catf (formatted : c_string) : M (dynar * heap) Z := dynar_str_vcatf formatted.

Definition quote_escaped (ch : byte) : bool := bool_decide (ch = x22) || bool_decide (ch = x5c).

Fixpoint dynar_str_quote_loop (s : c_string) : M (dynar * heap) unit :=
  match s with
  | [] => mret tt
  | ch :: s' =>
      (if quote_escaped ch then or_fail (-1) (dynar_str_cat [x5c]) else mret tt);;
      or_fail (-1) (dynar_cat [ch]);;
      dynar_str_quote_loop s'
  end.

Definition dynar_str_quote_cat (s : c_string) : M (dynar * heap) unit :=
  or_fail (-1) (dynar_str_cat [x22]);;
  dynar_str_quote_loop s;;
  or_fail (-1) (dynar_str_cat [x22]).

Definition dynar_str_quote_cpy (s : c_string) : M (dynar * heap) unit :=
  modify (λ '(dest, h), (dynar_clean dest, h));;
  dynar_str_quote_cat s.

(** What quoting writes. *)
Definition quoted (s : c_string) : c_string :=
  [x22] ++ (s ≫= λ ch, if quote_escaped ch then [x5c; ch] else [ch]) ++ [x22].

(** ** Numbers *)

(** [%u] of [printf]. *)
Definition digit (z : Z) : byte := z2b (48 + z).
Fixpoint fmt_digits (fuel : nat) (z : Z) : c_string :=
  match fuel with
  | O => []
  | S fuel => (if z <? 10 then [] else fmt_digits fuel (z / 10)) ++ [digit (z mod 10)]
  end.
Definition fmt_u32 (z : Z) : c_string := fmt_digits 10 z.

(** [%u] of [sscanf]: white space, a sign, digits; a number above [2^64 - 1] becomes that
    number.  The rest of the input is returned as well. *)
Definition is_digit (b : byte) : bool := (48 <=? b2z b) && (b2z b <=? 57).
Definition is_c_space (b : byte) : bool :=
  bool_decide (b ∈ [x20; x09; x0a; x0b; x0c; x0d]).
Fixpoint skip_spaces (s : c_string) : c_string :=
  match s with
  | b :: s' => if is_c_space b then skip_spaces s' else s
  | [] => []
  end.
Fixpoint scan_digits (acc : option Z) (s : c_string) : option Z * c_string :=
  match s with
  | b :: s' => if is_digit b then scan_digits (Some (default 0 acc * 10 + (b2z b - 48))) s'
               else (acc, s)
  | [] => (acc, [])
  end.
Definition scan_sign (s : c_string) : bool * c_string :=
  match s with
  | x2d :: s' => (true, s')
  | x2b :: s' => (false, s')
  | _ => (false, s)
  end.
Definition scan_u32 (s : c_string) : option (Z * c_string) :=
  let '(negative, s) := scan_sign (skip_spaces s) in
  match scan_digits None s with
  | (Some v, rest) =>
      let v := Z.min v (2 ^ 64 - 1) in
      Some (u32 (if (negative : bool) then - v else v), rest)
  | (None, _) => None
  end.

(** Text in a format of [sscanf]: white space in it matches any. *)
Fixpoint scan_text (text s : c_string) : option c_string :=
  match text with
  | [] => Some s
  | t :: text' =>
      if is_c_space t then scan_text text' (skip_spaces s)
      else match s with
           | b :: s' => if bool_decide (b = t) then scan_text text' s' else None
           | [] => None
           end
  end.

(** ** What the functions append *)

Lemma dynar_str_cat_appends s : Z.of_nat (length s) < 2 ^ 63 → appends (dynar_str_cat s) s.
Proof. apply dynar_cat_appends. Qed.

(** A copy replaces what was there; it fails when it does not fit or without memory. *)
Lemma dynar_str_cpy_spec s d h :
  wf d → Z.of_nat (length s) < 2 ^ 63 →
  match dynar_str_cpy s (d, h) with
  | (Ok _, (d', h')) => wf d' ∧ contents d' = s ∧ maximum_size d' = maximum_size d ∧ h' `suffix_of` h
  | (Err c, (d', h')) =>
      c = -1 ∧ wf d' ∧ maximum_size d' = maximum_size d ∧ h' `suffix_of` h ∧
      (maximum_size d < Z.of_nat (length s) ∨ None ∈ h)
  end.
Proof.
  intros Hd Hs. unfold dynar_str_cpy. case_if; [split_done; by left|].
  pose proof (dynar_str_cat_appends s Hs (dynar_clean d) h (wf_clean d Hd)) as Ha.
  destruct (dynar_str_cat s _) as [[[]|c] [d' h']].
  - destruct Ha as (? & -> & ? & ? & _). split_done.
  - destruct Ha as (? & ? & _ & ? & ? & [Hf|Hn]); cbn [dynar_clean set_size size maximum_size] in *.
    + lia.
    + split_done; by right.
Qed.

(** Formatted text needs room for the zero as well. *)
Lemma dynar_str_catf_spec f d h :
  wf d → Z.of_nat (length f) + 1 < 2 ^ 63 →
  match dynar_str_catf f (d, h) with
  | (Ok r, (d', h')) =>
      wf d' ∧ contents d' = contents d ++ f ∧ maximum_size d' = maximum_size d ∧
      r = Z.of_nat (length f) ∧ h' `suffix_of` h
  | (Err c, (d', h')) =>
      c = -1 ∧ grown d h d' h' ∧
      (maximum_size d < size d + Z.of_nat (length f) + 1 ∨ None ∈ h)
  end.
Proof.
  intros Hd Hf. unfold dynar_str_catf, dynar_str_vcatf. case_if.
  { destruct f; [|cbn [length] in *; lia]. cbn. rewrite app_nil_r. split_done. }
  unfold or_fail, modify, mbind, M_bind.
  pose proof (dynar_prealloc_spec (Z.of_nat (length f) + 1) d h Hd ltac:(lia)) as Hp.
  destruct (dynar_prealloc _ _) as [[[]|c] [d' h']].
  - destruct Hp as ([Hd' Hmax Hsz Hc Hh] & Hfit & Hm). pose proof Hd' as [? ? ? ?].
    cbn [mret M_ret]. split_done.
    + constructor; simpl; rewrite ?length_block_write; try rewrite length_app; cbn [length]; lia.
    + rewrite <- Hc. unfold contents; simpl. rewrite Z2Nat.inj_add, Nat2Z.id by lia.
      assert (Hl : length (f ++ [x00]) = S (length f)) by (rewrite length_app; cbn [length]; lia).
      replace (Z.to_nat (size d') + length f)%nat
        with (Nat.min (Z.to_nat (size d') + length f) (Z.to_nat (size d') + length (f ++ [x00])))%nat
        by lia.
      rewrite <- take_take, take_block_write by lia.
      rewrite take_app_ge by (rewrite length_take; lia). f_equal.
      rewrite length_take, Nat.min_l by lia.
      rewrite take_app_le by lia. apply take_ge. lia.
  - destruct Hp as (-> & Hg & Hor). split_done; try done. destruct Hor; [left; lia|by right].
Qed.

Lemma length_quoted_body s :
  (length (s ≫= λ ch, if quote_escaped ch then [x5c; ch] else [ch]) ≤ 2 * length s)%nat.
Proof.
  induction s as [|ch s IH]; [done|]. rewrite bind_cons, length_app.
  destruct (quote_escaped ch); cbn [length] in *; lia.
Qed.

Lemma dynar_str_quote_loop_appends s :
  appends (dynar_str_quote_loop s) (s ≫= λ ch, if quote_escaped ch then [x5c; ch] else [ch]).
Proof.
  induction s as [|ch s IH]; [apply appends_ret|]. cbn [dynar_str_quote_loop]. rewrite bind_cons.
  eapply (appends_ext _ ((if quote_escaped ch then [x5c] else []) ++ [ch] ++ _)).
  { by destruct (quote_escaped ch). }
  apply appends_bind; [|apply appends_bind; [|exact IH]].
  - apply appends_when, appends_or_fail, dynar_str_cat_appends. cbn. lia.
  - apply appends_or_fail, dynar_cat_appends. cbn. lia.
Qed.

Lemma dynar_str_quote_cat_appends s : appends (dynar_str_quote_cat s) (quoted s).
Proof.
  unfold dynar_str_quote_cat, quoted.
  apply appends_bind; [|apply appends_bind; [apply dynar_str_quote_loop_appends|]];
    apply appends_or_fail, dynar_str_cat_appends; cbn; lia.
Qed.

(** ** Reading a printed number *)

Lemma b2z_digit z : 0 ≤ z < 10 → b2z (digit z) = 48 + z.
Proof. intros. unfold digit. rewrite b2z_z2b, Z.mod_small; lia. Qed.

Lemma is_digit_digit z : 0 ≤ z < 10 → is_digit (digit z) = true.
Proof. intros. unfold is_digit. rewrite b2z_digit by done. apply andb_true_iff. lia. Qed.

Lemma scan_digits_app ds acc rest :
  Forall (λ b, is_digit b = true) ds →
  scan_digits acc (ds ++ rest) = scan_digits (fst (scan_digits acc ds)) rest.
Proof.
  intros H. revert acc. induction H as [|b ds Hb _ IH]; intros acc; [done|].
  cbn [app scan_digits]. by rewrite Hb, IH.
Qed.

Lemma fmt_digits_scan fuel z acc :
  0 ≤ z < 10 ^ Z.of_nat fuel → (0 < fuel)%nat →
  Forall (λ b, is_digit b = true) (fmt_digits fuel z) ∧
  fst (scan_digits (Some acc) (fmt_digits fuel z)) =
    Some (acc * 10 ^ Z.of_nat (length (fmt_digits fuel z)) + z).
Proof.
  revert z acc. induction fuel as [|fuel IH]; intros z acc Hz Hf; [lia|].
  cbn [fmt_digits]. pose proof (Z.mod_pos_bound z 10 ltac:(lia)) as Hm.
  case_if.
  - cbn [app length scan_digits]. rewrite Z.mod_small by lia.
    split; [by constructor; [apply is_digit_digit; lia|]|].
    rewrite is_digit_digit, b2z_digit by lia. cbn. f_equal. lia.
  - assert (Hz' : 0 ≤ z / 10 < 10 ^ Z.of_nat fuel).
    { rewrite Nat2Z.inj_succ, Z.pow_succ_r in Hz by lia. split; [apply Z.div_pos; lia|].
      apply Z.div_lt_upper_bound; lia. }
    assert (Hf' : (0 < fuel)%nat).
    { destruct fuel; [|lia]. cbn in Hz. lia. }
    destruct (IH (z / 10) acc Hz' Hf') as [HF HS]. split.
    + apply Forall_app. split; [done|]. constructor; [by apply is_digit_digit|done].
    + rewrite scan_digits_app by done. rewrite HS. cbn [scan_digits].
      rewrite is_digit_digit, b2z_digit by done. cbn [fst default]. f_equal.
      rewrite length_app, Nat2Z.inj_add. cbn [length]. rewrite Z.pow_add_r by lia.
      change (10 ^ Z.of_nat 1) with 10. unfold id. pose proof (Z.div_mod z 10 ltac:(lia)). lia.
Qed.

Lemma fmt_u32_scan z acc :
  0 ≤ z < 2 ^ 32 →
  Forall (λ b, is_digit b = true) (fmt_u32 z) ∧
  fst (scan_digits acc (fmt_u32 z)) =
    Some (default 0 acc * 10 ^ Z.of_nat (length (fmt_u32 z)) + z).
Proof.
  intros Hz. destruct (fmt_digits_scan 10 z (default 0 acc) ltac:(cbn; lia) ltac:(lia)) as [H1 H2].
  split; [exact H1|]. unfold fmt_u32. etrans; [|exact H2]. destruct acc; [done|]. clear H2. assert (Hne : fmt_digits 10 z ≠ []) by (cbn [fmt_digits]; by destruct (if z <? 10 then [] else _)).
  destruct (fmt_digits 10 z) as [|b l]; [done|]. inversion H1; subst. cbn [scan_digits].
  match goal with Hb : is_digit b = true |- _ => by rewrite Hb end.
Qed.

Lemma fmt_u32_length z : (1 ≤ length (fmt_u32 z) ≤ 10)%nat.
Proof.
  assert (∀ n z, (length (fmt_digits n z) ≤ n)%nat).
  { induction n as [|n IH]; intros x; [done|]. cbn [fmt_digits].
    rewrite length_app. cbn [length]. case_if; cbn [length]; [lia|]. specialize (IH (x / 10)). lia. }
  split; [|apply H]. unfold fmt_u32. cbn [fmt_digits]. rewrite length_app. cbn [length]. lia.
Qed.

(** A byte that is not a digit ends a number. *)
Definition ends_number (s : c_string) : Prop := ∀ b s', s = b :: s' → is_digit b = false.

Lemma skip_spaces_digit b s : is_digit b = true → skip_spaces (b :: s) = b :: s.
Proof.
  intros H. cbn. replace (is_c_space b) with false; [done|]. revert H. by destruct b.
Qed.

Lemma scan_fmt_u32 z rest :
  0 ≤ z < 2 ^ 32 → ends_number rest → scan_u32 (fmt_u32 z ++ rest) = Some (z, rest).
Proof.
  intros Hz Hr. destruct (fmt_u32_scan z None Hz) as [H1 H2]. pose proof (fmt_u32_length z) as Hl.
  unfold scan_u32. destruct (fmt_u32 z) as [|b l] eqn:E; [cbn in Hl; lia|].
  pose proof (Forall_inv H1) as Hb. cbn beta in Hb. cbn [app].
  rewrite skip_spaces_digit by done.
  replace (scan_sign (b :: l ++ rest)) with (false, b :: l ++ rest)
    by (revert Hb; clear; by destruct b).
  rewrite app_comm_cons, scan_digits_app, H2 by done.
  assert (Hend : scan_digits (Some z) rest = (Some z, rest)).
  { destruct rest as [|c rest]; [done|]. cbn. by rewrite (Hr c rest eq_refl). }
  rewrite Z.mul_0_l, Z.add_0_l, Hend, Z.min_l, u32_small by lia. done.
Qed.
