(* ===== verification/Lex.v ===== *)
(** The two lexers (dynar-simple-lex.c, dynar-getopt-lex.c): words of a command line with
    quotes and backslashes, and options [name=value] separated by commas.

    The state machines run over a position in the input and append to a dynamic array; they
    are shown to compute [lex_ref] and [getopt_ref], functions on lists, and a word that was
    quoted is read back. *)
From stdpp Require Import strings.
From S2P Require Import Prelude Dynar DynarStr.
Local Open Scope Z_scope.

Definition dynar_simple_lex_is_space (ch : byte) : bool :=
  bool_decide (ch ∈ [x20; x0c; x0a; x0d; x09; x0b]).
Definition is_newline (ch : byte) : bool := bool_decide (ch = x0a) || bool_decide (ch = x0d).

Inductive dynar_simple_lex_type :=
  DYNAR_SIMPLE_LEX_TYPE_PLAIN | DYNAR_SIMPLE_LEX_TYPE_BACKSLASH | DYNAR_SIMPLE_LEX_TYPE_QUOTE.
#[export] Instance lex_type_eq_dec : EqDecision dynar_simple_lex_type.
Proof. solve_decision. Defined.

Record dynar_simple_lex := mk_lex {
  lex_token : dynar;
  lex_input : dynar;
  lex_type : dynar_simple_lex_type;
  lex_pos : nat
}.

Definition dynar_simple_lex_init (input : dynar) (type : dynar_simple_lex_type) : dynar_simple_lex :=
  mk_lex (dynar_init (maximum_size input)) input type 0.

Definition dynar_simple_lex_destroy (lex : dynar_simple_lex) : dynar_simple_lex :=
  mk_lex (dynar_init 0) (dynar_init 0) DYNAR_SIMPLE_LEX_TYPE_PLAIN 0.

(** The states 1 to 5 of the loop; state 0 ends it. *)
Inductive lex_state := SKIP | WORD | WORD_BACKSLASH | QUOTED | QUOTED_BACKSLASH.
#[export] Instance lex_state_eq_dec : EqDecision lex_state.
Proof. solve_decision. Defined.

Definition escapes (t : dynar_simple_lex_type) : bool :=
  bool_decide (t = DYNAR_SIMPLE_LEX_TYPE_BACKSLASH) || bool_decide (t = DYNAR_SIMPLE_LEX_TYPE_QUOTE).
Definition quotes (t : dynar_simple_lex_type) : bool :=
  bool_decide (t = DYNAR_SIMPLE_LEX_TYPE_QUOTE).

(** What one round does with the character at the position, if there is one: stop, or the
    bytes for the token, whether the position moves on, and the next state. *)
Definition lex_round (t : dynar_simple_lex_type) (state : lex_state) (ch : option byte) :
    option (list byte * bool * lex_state) :=
  match ch with
  | None => None
  | Some ch =>
      match state with
      | SKIP =>
          if is_newline ch then None
          else if dynar_simple_lex_is_space ch then Some ([], true, SKIP)
          else Some ([], false, WORD)
      | WORD =>
          if escapes t && bool_decide (ch = x5c) then Some ([], true, WORD_BACKSLASH)
          else if quotes t && bool_decide (ch = x22) then Some ([], true, QUOTED)
          else if dynar_simple_lex_is_space ch then None
          else Some ([ch], true, WORD)
      | WORD_BACKSLASH =>
          if is_newline ch then None else Some ([ch], true, WORD)
      | QUOTED =>
          if bool_decide (ch = x5c) then Some ([], true, QUOTED_BACKSLASH)
          else if bool_decide (ch = x22) then Some ([], true, WORD)
          else if is_newline ch then None
          else Some ([ch], true, QUOTED)
      | QUOTED_BACKSLASH =>
          if is_newline ch then None
          else if bool_decide (ch = x5c) || bool_decide (ch = x22) then Some ([ch], true, QUOTED)
          else Some ([x5c; ch], true, QUOTED)
      end
  end.

(** Every character is appended by a call of its own. *)
Fixpoint cat_each (l : list byte) : M (dynar * heap) unit :=
  match l with
  | [] => mret tt
  | ch :: l' => or_fail (-1) (dynar_cat [ch]);; cat_each l'
  end.

Fixpoint lex_loop (fuel : nat) (t : dynar_simple_lex_type) (str : list byte) (state : lex_state)
    (pos : nat) : M (dynar * heap) nat :=
  match fuel with
  | O => fail OUT_OF_FUEL
  | S fuel =>
      match lex_round t state (str !! pos) with
      | None => or_fail (-1) (dynar_cat [x00]);; mret pos
      | Some (out, move, state') =>
          cat_each out;;
          lex_loop fuel t str state' (if (move : bool) then S pos else pos)
      end
  end.

(** The result is the token, [None] for NULL. *)
Definition dynar_simple_lex_token_next : M (dynar_simple_lex * heap) (option dynar) := λ '(lex, h),
  let str := contents (lex_input lex) in
  match lex_loop (2 + length str) (lex_type lex) str SKIP (lex_pos lex)
          (dynar_clean (lex_token lex), h) with
  | (Ok pos, (token, h')) =>
      (Ok (Some token), (mk_lex token (lex_input lex) (lex_type lex) pos, h'))
  | (Err c, (token, h')) =>
      (if c =? -1 then Ok None else Err c, (mk_lex token (lex_input lex) (lex_type lex) (lex_pos lex), h'))
  end.

(** [dynar_data] of a token as a C string. *)
Definition token_str (token : dynar) : c_string := removelast (contents token).

(** ** The same on lists: the token and the rest of the input *)

Fixpoint lex_ref (t : dynar_simple_lex_type) (state : lex_state) (l : list byte) :
    list byte * list byte :=
  match l with
  | [] => ([], [])
  | ch :: l' =>
      let state := match state with
                   | SKIP => if dynar_simple_lex_is_space ch then SKIP else WORD
                   | s => s
                   end in
      match lex_round t state (Some ch) with
      | None => ([], l)
      | Some (out, _, state') =>
          let '(token, rest) := lex_ref t state' l' in (out ++ token, rest)
      end
  end.

(** ** Options of a command line *)

Record dynar_getopt_lex := mk_getopt {
  getopt_option : dynar;
  getopt_value : dynar;
  getopt_input : dynar;
  getopt_pos : nat
}.

Definition dynar_getopt_lex_init (input : dynar) : dynar_getopt_lex :=
  mk_getopt (dynar_init (maximum_size input)) (dynar_init (maximum_size input)) input 0.

Definition dynar_getopt_lex_destroy (lex : dynar_getopt_lex) : dynar_getopt_lex :=
  mk_getopt (dynar_init 0) (dynar_init 0) (dynar_init 0) 0.

(** The option and the value as two dynamic arrays over one allocator. *)
Definition cat_option (bs : list byte) : M (dynar * dynar * heap) unit := λ '(o, v, h),
  let '(r, (o', h')) := or_fail (-1) (dynar_cat bs) (o, h) in (r, (o', v, h')).
Definition cat_value (bs : list byte) : M (dynar * dynar * heap) unit := λ '(o, v, h),
  let '(r, (v', h')) := or_fail (-1) (dynar_cat bs) (v, h) in (r, (o, v', h')).

(** The loop: [in_value] is state 2. *)
Fixpoint getopt_loop (str : list byte) (in_value : bool) (pos : nat) :
    M (dynar * dynar * heap) nat :=
  match str with
  | [] => mret pos
  | ch :: str' =>
      if bool_decide (ch = x2c) then mret (S pos)
      else if (in_value : bool) then cat_value [ch];; getopt_loop str' true (S pos)
      else if bool_decide (ch = x3d) then getopt_loop str' true (S pos)
      else cat_option [ch];; getopt_loop str' false (S pos)
  end.

Definition dynar_getopt_lex_token_next : M (dynar_getopt_lex * heap) Z := λ '(lex, h),
  let str := drop (getopt_pos lex) (contents (getopt_input lex)) in
  let '(r, (option, value, h')) :=
    (pos ← getopt_loop str false (getopt_pos lex);
     cat_option [x00];; cat_value [x00];; mret pos)
      (dynar_clean (getopt_option lex), dynar_clean (getopt_value lex), h) in
  match r with
  | Ok pos => (Ok 0, (mk_getopt option value (getopt_input lex) pos, h'))
  | Err c => (Ok (-1), (mk_getopt option value (getopt_input lex) (getopt_pos lex), h'))
  end.

Fixpoint getopt_ref (in_value : bool) (l : list byte) : list byte * list byte * list byte :=
  match l with
  | [] => ([], [], [])
  | ch :: l' =>
      if bool_decide (ch = x2c) then ([], [], l')
      else if (in_value : bool) then
        let '(o, v, rest) := getopt_ref true l' in (o, ch :: v, rest)
      else if bool_decide (ch = x3d) then getopt_ref true l'
      else let '(o, v, rest) := getopt_ref false l' in (ch :: o, v, rest)
  end.

(** ** The simple lexer computes the reference *)

(** [m] appends [bs] and returns [v]. *)
Definition appends_value {A} (m : M (dynar * heap) A) (bs : list byte) (v : A) : Prop :=
  ∃ m0, appends m0 bs ∧ ∀ s, m s = (m0;; mret v) s.

Lemma appends_value_bind {A} (m1 : M (dynar * heap) unit) (m2 : M (dynar * heap) A) b1 b2 v :
  appends m1 b1 → appends_value m2 b2 v → appends_value (m1;; m2) (b1 ++ b2) v.
Proof.
  intros H1 (m0 & H2 & He). exists (m1;; m0). split; [by apply appends_bind|].
  intros s. rewrite <- bind_assoc'. unfold mbind, M_bind.
  destruct (m1 s) as [[u|c] s1]; [apply He|done].
Qed.

Lemma appends_value_ret {A} (m : M (dynar * heap) unit) bs (v : A) :
  appends m bs → appends_value (m;; mret v) bs v.
Proof. intros H. by exists m. Qed.

Lemma cat_each_appends l : appends (cat_each l) l.
Proof.
  induction l as [|ch l IH]; [apply appends_ret|].
  apply (appends_bind _ _ [ch] l); [|exact IH].
  apply appends_or_fail, dynar_cat_appends. cbn. lia.
Qed.

Lemma lex_stop {A} (v : A) : appends_value (or_fail (-1) (dynar_cat [x00]);; mret v) [x00] v.
Proof. apply appends_value_ret, appends_or_fail, dynar_cat_appends. cbn. lia. Qed.

Lemma space_not_newline ch : dynar_simple_lex_is_space ch = false → is_newline ch = false.
Proof.
  unfold dynar_simple_lex_is_space, is_newline. rewrite bool_decide_eq_false. intros H.
  apply orb_false_iff. split; apply bool_decide_eq_false; intros ->; by apply H; repeat constructor.
Qed.

(** Every state but [SKIP] moves on in each of its rounds. *)
Lemma lex_round_moves t st ch out move st' :
  st ≠ SKIP → lex_round t st (Some ch) = Some (out, move, st') → move = true ∧ st' ≠ SKIP.
Proof.
  intros Hs. destruct st; [done| | | |]; cbn; intros H;
    repeat match type of H with (if ?b then _ else _) = _ => destruct b end;
    try done; by simplify_eq.
Qed.

Definition rounds (st : lex_state) (n : nat) : nat :=
  match st with SKIP => 2 + n | _ => 1 + n end.

Lemma lex_loop_ref t str fuel st pos token rest :
  (pos ≤ length str)%nat → (rounds st (length str - pos) ≤ fuel)%nat →
  lex_ref t st (drop pos str) = (token, rest) →
  appends_value (lex_loop fuel t str st pos) (token ++ [x00]) (length str - length rest)%nat.
Proof.
  revert st pos token rest. induction fuel as [|fuel IH]; intros st pos token rest Hp Hf Hr.
  { destruct st; cbn in Hf; lia. }
  cbn [lex_loop]. destruct (str !! pos) as [ch|] eqn:Hch.
  2: { apply lookup_ge_None in Hch. rewrite drop_ge in Hr by lia. injection Hr as <- <-.
       cbn [lex_round app length]. replace pos with (length str - 0)%nat by lia. apply lex_stop. }
  pose proof (lookup_lt_Some _ _ _ Hch) as Hlt.
  rewrite (drop_S _ _ _ Hch) in Hr. cbn [lex_ref] in Hr.
  assert (Hword : st ≠ SKIP → appends_value (match lex_round t st (Some ch) with
      | None => or_fail (-1) (dynar_cat [x00]);; mret pos
      | Some (out, move, state') =>
          cat_each out;; lex_loop fuel t str state' (if (move : bool) then S pos else pos)
      end) (token ++ [x00]) (length str - length rest)%nat).
  { intros Hs. assert (Hst : match st with
      | SKIP => if dynar_simple_lex_is_space ch then SKIP else WORD | s => s end = st) by by destruct st.
    rewrite Hst in Hr. destruct (lex_round t st (Some ch)) as [[[out move] st']|] eqn:E.
    - destruct (lex_round_moves _ _ _ _ _ _ Hs E) as [-> Hs'].
      destruct (lex_ref t st' (drop (S pos) str)) as [tk rs] eqn:E'. injection Hr as <- <-.
      rewrite <- app_assoc. apply appends_value_bind; [apply cat_each_appends|].
      apply (IH st' (S pos)); [lia| |done]. destruct st, st'; cbn in *; done || lia.
    - injection Hr as <- <-. cbn [app length]. rewrite length_drop.
      replace (length str - S (length str - S pos))%nat with pos by lia. apply lex_stop. }
  destruct (decide (st = SKIP)) as [->|Hs]; [|by apply Hword]. clear Hword.
  cbn in Hf. destruct (dynar_simple_lex_is_space ch) eqn:Hsp.
  - cbn [lex_round] in Hr |- *. rewrite Hsp in Hr |- *. destruct (is_newline ch) eqn:Hn.
    + injection Hr as <- <-. cbn [app length]. rewrite length_drop.
      replace (length str - S (length str - S pos))%nat with pos by lia. apply lex_stop.
    + destruct (lex_ref t SKIP (drop (S pos) str)) as [tk rs] eqn:E'. injection Hr as <- <-.
      apply (appends_value_bind _ _ []); [apply appends_ret|].
      apply (IH SKIP (S pos)); [lia|cbn; lia|done].
  - cbn [lex_round]. rewrite Hsp, (space_not_newline _ Hsp).
    apply (appends_value_bind _ _ []); [apply appends_ret|].
    apply (IH WORD pos); [lia|cbn; lia|].
    rewrite (drop_S _ _ _ Hch). exact Hr.
Qed.

(** The rest is a suffix of the input. *)
Lemma lex_ref_rest t l st token rest : lex_ref t st l = (token, rest) → rest `suffix_of` l.
Proof.
  revert st token rest. induction l as [|ch l IH]; intros st token rest; cbn [lex_ref].
  { intros H. by injection H as <- <-. }
  cbv zeta. destruct (lex_round _ _ _) as [[[out move] st']|]; [|intros H; by injection H as <- <-].
  destruct (lex_ref t st' l) as [tk rs] eqn:E. intros H. injection H as <- <-.
  apply suffix_cons_r. by eapply IH.
Qed.

Lemma token_next_ref lex h :
  wf (lex_token lex) → (lex_pos lex ≤ length (contents (lex_input lex)))%nat →
  let str := contents (lex_input lex) in
  let '(token, rest) := lex_ref (lex_type lex) SKIP (drop (lex_pos lex) str) in
  match dynar_simple_lex_token_next (lex, h) with
  | (Ok (Some tk), (lex', h')) =>
      wf tk ∧ contents tk = token ++ [x00] ∧
      lex' = mk_lex tk (lex_input lex) (lex_type lex) (length str - length rest) ∧
      maximum_size tk = maximum_size (lex_token lex) ∧ h' `suffix_of` h
  | (Ok None, (lex', _)) =>
      lex_pos lex' = lex_pos lex ∧
      (maximum_size (lex_token lex) < Z.of_nat (length token) + 1 ∨ None ∈ h)
  | (Err _, _) => False
  end.
Proof.
  intros Hwf Hpos str. destruct (lex_ref _ _ _) as [token rest] eqn:E.
  destruct (lex_loop_ref _ str (2 + length str) SKIP (lex_pos lex) token rest Hpos
    ltac:(cbn; lia) E) as (m0 & Ha & He).
  unfold dynar_simple_lex_token_next. fold str. rewrite He. unfold mbind, M_bind.
  specialize (Ha (dynar_clean (lex_token lex)) h (wf_clean _ Hwf)).
  destruct (m0 _) as [[[]|c] [d' h']]; cbn [mret M_ret].
  - destruct Ha as (? & Hc & ? & ? & _). by split_and!.
  - destruct Ha as (-> & _ & _ & _ & _ & Hor). rewrite Z.eqb_refl. split; [done|].
    rewrite length_app in Hor. cbn [length dynar_clean set_size size maximum_size] in Hor.
    destruct Hor; [left; lia|by right].
Qed.

(** ** A quoted word is read back *)

Definition one_line (s : c_string) : Prop := Forall (λ ch, is_newline ch = false) s.

Lemma lex_ref_quoted_body s l :
  one_line s →
  lex_ref DYNAR_SIMPLE_LEX_TYPE_QUOTE QUOTED
    ((s ≫= λ ch, if quote_escaped ch then [x5c; ch] else [ch]) ++ x22 :: l) =
  let '(token, rest) := lex_ref DYNAR_SIMPLE_LEX_TYPE_QUOTE WORD l in (s ++ token, rest).
Proof.
  intros Hs. destruct (lex_ref _ WORD l) as [tk rs] eqn:E. induction Hs as [|ch s Hch _ IH].
  { match goal with |- context [[] ≫= ?f] => change ([] ≫= f) with (@nil byte) end. cbn [app lex_ref lex_round].
    rewrite bool_decide_eq_false_2, bool_decide_eq_true_2 by done. by rewrite E. }
  rewrite bind_cons. unfold quote_escaped at 1.
  destruct (bool_decide_reflect (ch = x22)) as [->|H22];
    [|destruct (bool_decide_reflect (ch = x5c)) as [->|H5c]]; cbn [orb app lex_ref lex_round].
  1,2: change (is_newline _) with false;
    rewrite !(bool_decide_eq_true_2 (x5c = x5c)) by done; cbn [lex_round];
    rewrite ?(bool_decide_eq_true_2 (x22 = x22)), ?orb_true_r by done; cbn [orb];
    rewrite IH; done.
  by rewrite Hch, !bool_decide_eq_false_2, IH by done.
Qed.

Lemma lex_ref_quoted s l :
  one_line s → (l = [] ∨ ∃ ch l', l = ch :: l' ∧ dynar_simple_lex_is_space ch = true) →
  lex_ref DYNAR_SIMPLE_LEX_TYPE_QUOTE SKIP (quoted s ++ l) = (s, l).
Proof.
  intros Hs Hl. unfold quoted. rewrite <- !app_assoc. cbn [app lex_ref].
  change (dynar_simple_lex_is_space x22) with false. cbn [lex_round].
  change (quotes DYNAR_SIMPLE_LEX_TYPE_QUOTE && bool_decide (x22 = x22)) with true.
  change (escapes DYNAR_SIMPLE_LEX_TYPE_QUOTE && bool_decide (x22 = x5c)) with false.
  cbv iota beta. rewrite (lex_ref_quoted_body s l Hs).
  assert (Hw : lex_ref DYNAR_SIMPLE_LEX_TYPE_QUOTE WORD l = ([], l)).
  { destruct Hl as [->|(ch & l' & -> & Hch)]; [done|]. cbn [lex_ref lex_round]. rewrite Hch.
    replace (bool_decide (ch = x5c)) with false; [|symmetry; apply bool_decide_eq_false; by intros ->].
    replace (bool_decide (ch = x22)) with false; [|symmetry; apply bool_decide_eq_false; by intros ->].
    by rewrite !andb_false_r. }
  by rewrite Hw, app_nil_r.
Qed.

(** ** The option lexer computes the reference *)

Lemma cat_option_ok bs o v :
  wf o → Z.of_nat (length bs) < 2 ^ 63 → size o + Z.of_nat (length bs) ≤ maximum_size o →
  ∃ o', cat_option bs (o, v, []) = (Ok tt, (o', v, [])) ∧ wf o' ∧
    contents o' = contents o ++ bs ∧ maximum_size o' = maximum_size o.
Proof.
  intros Ho Hb Hfit.
  destruct (appends_total _ bs o (appends_or_fail _ _ (dynar_cat_appends bs Hb)) Ho Hfit)
    as (o' & E & ? & ? & ?). exists o'. unfold cat_option. by rewrite E.
Qed.

Lemma cat_value_ok bs o v :
  wf v → Z.of_nat (length bs) < 2 ^ 63 → size v + Z.of_nat (length bs) ≤ maximum_size v →
  ∃ v', cat_value bs (o, v, []) = (Ok tt, (o, v', [])) ∧ wf v' ∧
    contents v' = contents v ++ bs ∧ maximum_size v' = maximum_size v.
Proof.
  intros Hv Hb Hfit.
  destruct (appends_total _ bs v (appends_or_fail _ _ (dynar_cat_appends bs Hb)) Hv Hfit)
    as (v' & E & ? & ? & ?). exists v'. unfold cat_value. by rewrite E.
Qed.

Lemma size_contents d : wf d → size d = Z.of_nat (length (contents d)).
Proof. intros. by rewrite length_contents. Qed.

Lemma getopt_loop_ref str in_value pos o v option value rest :
  wf o → wf v → getopt_ref in_value str = (option, value, rest) →
  size o + Z.of_nat (length str) ≤ maximum_size o →
  size v + Z.of_nat (length str) ≤ maximum_size v →
  ∃ o' v', getopt_loop str in_value pos (o, v, []) =
      (Ok (pos + (length str - length rest))%nat, (o', v', [])) ∧
    wf o' ∧ wf v' ∧ contents o' = contents o ++ option ∧ contents v' = contents v ++ value ∧
    maximum_size o' = maximum_size o ∧ maximum_size v' = maximum_size v ∧
    (length rest ≤ length str)%nat.
Proof.
  revert in_value pos o v option value rest.
  induction str as [|ch str IH]; intros in_value pos o v option value rest Ho Hv Hr Hfo Hfv.
  { injection Hr as <- <- <-. exists o, v. rewrite !app_nil_r. cbn. rewrite Nat.add_0_r. by split_and!. }
  cbn [getopt_ref] in Hr. cbn [getopt_loop length] in *.
  destruct (bool_decide (ch = x2c)).
  { injection Hr as <- <- <-. exists o, v. rewrite !app_nil_r.
    replace (pos + (S (length str) - length str))%nat with (S pos) by lia. split_and!; try done. lia. }
  destruct in_value; [|destruct (bool_decide (ch = x3d))].
  - destruct (getopt_ref true str) as [[o1 v1] r1] eqn:E. injection Hr as <- <- <-.
    destruct (cat_value_ok [ch] o v Hv ltac:(cbn; lia) ltac:(cbn [length]; lia)) as (v' & Ec & Hv' & Hcv & Hmv).
    rewrite (bind_ok _ _ _ _ _ Ec). rewrite (size_contents v) in Hfv by done.
    destruct (IH true (S pos) o v' o1 v1 r1) as (o2 & v2 & E2 & ? & ? & ? & Hc2 & ? & ? & ?); try done; [lia| |].
    + rewrite size_contents, Hcv, length_app, Hmv by done. cbn [length]. lia.
    + exists o2, v2. rewrite E2. split_and!; try done; [f_equal; f_equal; lia| |congruence|lia].
      by rewrite Hc2, Hcv, <- app_assoc.
  - destruct (IH true (S pos) o v option value rest) as (o2 & v2 & E2 & ? & ? & ? & ? & ? & ? & ?); try done; [lia..|].
    exists o2, v2. rewrite E2. split_and!; try done; [f_equal; f_equal; lia|lia].
  - destruct (getopt_ref false str) as [[o1 v1] r1] eqn:E. injection Hr as <- <- <-.
    destruct (cat_option_ok [ch] o v Ho ltac:(cbn; lia) ltac:(cbn [length]; lia)) as (o' & Ec & Ho' & Hco & Hmo).
    rewrite (bind_ok _ _ _ _ _ Ec). rewrite (size_contents o) in Hfo by done.
    destruct (IH false (S pos) o' v o1 v1 r1) as (o2 & v2 & E2 & ? & ? & Hc2 & ? & ? & ? & ?); try done; [|lia|].
    + rewrite size_contents, Hco, length_app, Hmo by done. cbn [length]. lia.
    + exists o2, v2. rewrite E2. split_and!; try done; [f_equal; f_equal; lia| |congruence|lia].
      by rewrite Hc2, Hco, <- app_assoc.
Qed.

(** ** Properties *)

(** A text on one line that is quoted into a buffer ([dynar_str_quote_cpy], as the tools do
    with a cluster name) is the first word the lexer with quotes reads from that buffer, and it
    reaches the end of the buffer with it. *)
Theorem quote_lex_roundtrip s d :
  wf d → one_line s → Z.of_nat (length (quoted s)) ≤ maximum_size d →
  ∃ d' tk,
    dynar_str_quote_cpy s (d, []) = (Ok tt, (d', [])) ∧
    dynar_simple_lex_token_next (dynar_simple_lex_init d' DYNAR_SIMPLE_LEX_TYPE_QUOTE, []) =
      (Ok (Some tk), (mk_lex tk d' DYNAR_SIMPLE_LEX_TYPE_QUOTE (length (contents d')), [])) ∧
    token_str tk = s.
Proof.
  intros Hd Hs Hfit. unfold dynar_str_quote_cpy.
  destruct (appends_total _ _ (dynar_clean d) (dynar_str_quote_cat_appends s) (wf_clean d Hd))
    as (d' & E & Hd' & Hc & Hm); [cbn [dynar_clean set_size size maximum_size]; lia|].
  rewrite contents_clean in Hc. cbn [app] in Hc.
  rewrite (bind_ok (modify _) _ (d, []) tt (dynar_clean d, []) eq_refl), E.
  pose proof (token_next_ref (dynar_simple_lex_init d' DYNAR_SIMPLE_LEX_TYPE_QUOTE) [] ) as Ht.
  cbn [dynar_simple_lex_init lex_token lex_input lex_type lex_pos drop] in Ht. cbv zeta in Ht.
  rewrite Hc, drop_0 in Ht. pose proof (lex_ref_quoted s [] Hs (or_introl eq_refl)) as Hq.
  rewrite app_nil_r in Hq. rewrite Hq in Ht. rewrite Hm in Ht. cbn [dynar_clean set_size maximum_size] in Ht.
  exists d'.
  specialize (Ht (wf_init _ (wf_maximum _ Hd)) ltac:(lia)).
  destruct (dynar_simple_lex_token_next _) as [[[tk|]|c] [lex' h']] eqn:En; [| |done].
  - destruct Ht as (? & Hk & -> & ? & Hh). exists tk. split; [done|].
    rewrite (suffix_nil_inv _ Hh), Hc. cbn [length]. rewrite Nat.sub_0_r.
    split; [done|]. unfold token_str. by rewrite Hk, removelast_last.
  - exfalso. destruct Ht as [_ [Hbad|Hbad]]; [|by inversion Hbad].
    cbn [dynar_init maximum_size] in Hbad.
    unfold quoted in Hfit. rewrite !length_app in Hfit. cbn [length] in Hfit.
    assert (length s ≤ length (s ≫= λ ch, if quote_escaped ch then [x5c; ch] else [ch]))%nat.
    { clear. induction s as [|ch s IH]; [done|]. rewrite bind_cons, length_app.
      destruct (quote_escaped ch); cbn [length]; lia. }
    lia.
Qed.

Lemma quote_lex_roundtrip_witness :
  one_line (str "a\b c") ∧
  ∃ d' tk,
    dynar_str_quote_cpy (str "a\b c") (dynar_init 100, []) = (Ok tt, (d', [])) ∧
    dynar_simple_lex_token_next (dynar_simple_lex_init d' DYNAR_SIMPLE_LEX_TYPE_QUOTE, []) =
      (Ok (Some tk), (mk_lex tk d' DYNAR_SIMPLE_LEX_TYPE_QUOTE (length (contents d')), [])) ∧
    token_str tk = str "a\b c".
Proof.
  assert (H : one_line (str "a\b c")) by repeat constructor.
  split; [exact H|].
  apply (quote_lex_roundtrip (str "a\b c") (dynar_init 100)); [apply wf_init; lia|exact H|].
  vm_compute. discriminate.
Defined.
