(* ===== verification/Heuristics.v ===== *)
(** The heuristics as the device sees them: the list of commands to run
    (qdevice-heuristics-exec-list.c), who is told of a result
    (qdevice-heuristics-result-notifier.c), the commands for the worker process
    (qdevice-heuristics-cmd.c, qdevice-heuristics.c) and the pipes to it
    (qdevice-heuristics-io.c).

    The pipes are parameters, as sockets are elsewhere. *)
From stdpp Require Import strings.
From S2P Require Import Prelude Dynar DynarStr SendBuffer.
Local Open Scope Z_scope.

Definition QDEVICE_HEURISTICS_CMD_STR_EXEC_LIST_CLEAR : c_string := str "exec-list-clear".
Definition QDEVICE_HEURISTICS_CMD_STR_EXEC_LIST_ADD : c_string := str "exec-list-add".
Definition QDEVICE_HEURISTICS_CMD_STR_EXEC_LIST_ADD_SPACE : c_string := str "exec-list-add ".
Definition QDEVICE_HEURISTICS_CMD_STR_EXEC_ADD_SPACE : c_string := str "exec ".
Definition QDEVICE_HEURISTICS_CMD_STR_EXEC_RESULT_ADD_SPACE : c_string := str "exec-result ".

Inductive qdevice_heuristics_mode :=
  QDEVICE_HEURISTICS_MODE_DISABLED | QDEVICE_HEURISTICS_MODE_ENABLED | QDEVICE_HEURISTICS_MODE_SYNC.
#[export] Instance heuristics_mode_eq_dec : EqDecision qdevice_heuristics_mode.
Proof. solve_decision. Defined.

(** A result is whatever number the worker sent. *)
Definition QDEVICE_HEURISTICS_EXEC_RESULT_DISABLED : Z := 0.
Definition QDEVICE_HEURISTICS_EXEC_RESULT_PASS : Z := 1.
Definition QDEVICE_HEURISTICS_EXEC_RESULT_FAIL : Z := 2.

(** ** The list of commands *)

Record exec_list_entry := mk_exec { exec_name : c_string; exec_command : c_string }.
#[export] Instance exec_list_entry_eq_dec : EqDecision exec_list_entry.
Proof. solve_decision. Defined.

Definition exec_list : Type := list exec_list_entry.

Definition qdevice_heuristics_exec_list_init : exec_list := [].

(** The entry and the copies of both strings are allocated. *)
Definition qdevice_heuristics_exec_list_add (name command : c_string) : M (exec_list * heap) bool :=
  λ '(list, h),
  match malloc h with
  | (None, h) => (Ok false, (list, h))
  | (Some _, h) =>
      match malloc h with
      | (None, h) => (Ok false, (list, h))
      | (Some _, h) =>
          match malloc h with
          | (None, h) => (Ok false, (list, h))
          | (Some _, h) => (Ok true, (list ++ [mk_exec name command], h))
          end
      end
  end.

Definition qdevice_heuristics_exec_list_free (list : exec_list) : exec_list := [].

Definition qdevice_heuristics_exec_list_size (list : exec_list) : Z := foldl (λ res _, res + 1) 0 list.

Fixpoint exec_list_clone_loop (src_list : exec_list) : M (exec_list * heap) Z :=
  match src_list with
  | [] => mret 0
  | entry :: src_list' =>
      r ← qdevice_heuristics_exec_list_add (exec_name entry) (exec_command entry);
      if (r : bool) then exec_list_clone_loop src_list'
      else modify (λ '(l, h), (qdevice_heuristics_exec_list_free l, h));; mret (-1)
  end.

Definition qdevice_heuristics_exec_list_clone (src_list : exec_list) : M (exec_list * heap) Z :=
  modify (λ '(_, h), (qdevice_heuristics_exec_list_init, h));;
  exec_list_clone_loop src_list.

(** The entry is given by its position. *)
Definition qdevice_heuristics_exec_list_del (list : exec_list) (entry : nat) : exec_list :=
  delete entry list.

Definition qdevice_heuristics_exec_list_is_empty (list : exec_list) : bool :=
  match list with [] => true | _ => false end.

Fixpoint qdevice_heuristics_exec_list_find_name (list : exec_list) (name : c_string) :
    option (nat * exec_list_entry) :=
  match list with
  | [] => None
  | entry :: list' =>
      if bool_decide (exec_name entry = name) then Some (0%nat, entry)
      else (λ '(i, e), (S i, e)) <$> qdevice_heuristics_exec_list_find_name list' name
  end.

Fixpoint exec_list_eq_loop (list1 tmp_list : exec_list) : bool :=
  match list1 with
  | [] => qdevice_heuristics_exec_list_is_empty tmp_list
  | entry1 :: list1' =>
      match qdevice_heuristics_exec_list_find_name tmp_list (exec_name entry1) with
      | None => false
      | Some (i, entry2) =>
          if negb (bool_decide (exec_command entry1 = exec_command entry2)) then false
          else exec_list_eq_loop list1' (qdevice_heuristics_exec_list_del tmp_list i)
      end
  end.

Definition qdevice_heuristics_exec_list_eq (list1 list2 : exec_list) : M heap Z := λ h,
  match qdevice_heuristics_exec_list_clone list2 ([], h) with
  | (Ok r, (tmp_list, h')) =>
      (Ok (if negb (r =? 0) then -1
           else if exec_list_eq_loop list1 tmp_list then 1 else 0), h')
  | (Err c, (_, h')) => (Err c, h')
  end.

(** ** Who is told of a result *)

Section notifiers.
Context {F : Type} `{EqDecision F}.

Record notifier_item := mk_notifier { notifier_callback : F; notifier_active : bool }.
Definition notifier_list : Type := list notifier_item.

Definition qdevice_heuristics_result_notifier_list_init : notifier_list := [].

Definition qdevice_heuristics_result_notifier_list_get (l : notifier_list) (callback : F) :
    option (nat * notifier_item) := list_find (λ item, notifier_callback item = callback) l.

(** Whether the result is not NULL. *)
Definition qdevice_heuristics_result_notifier_list_add (callback : F) : M (notifier_list * heap) bool :=
  λ '(l, h),
  match qdevice_heuristics_result_notifier_list_get l callback with
  | Some _ => (Ok true, (l, h))
  | None =>
      match malloc h with
      | (None, h') => (Ok false, (l, h'))
      | (Some _, h') => (Ok true, (l ++ [mk_notifier callback false], h'))
      end
  end.

Definition qdevice_heuristics_result_notifier_list_set_active (callback : F) (active : bool)
    (l : notifier_list) : Z * notifier_list :=
  match qdevice_heuristics_result_notifier_list_get l callback with
  | None => (-1, l)
  | Some (i, item) => (0, <[i := mk_notifier callback active]> l)
  end.

Definition qdevice_heuristics_result_notifier_list_free (l : notifier_list) : notifier_list := [].

(** ** The device's side of the heuristics *)

Record qdevice_heuristics_instance := mk_heuristics {
  cmd_out_buffer_list : send_buffer_list;
  cmd_in_buffer : dynar;
  timeout : Z;
  sync_timeout : Z;
  heuristics_interval : Z;
  mode : qdevice_heuristics_mode;
  waiting_for_result : bool;
  expected_reply_seq_number : Z;
  heuristics_exec_list : exec_list;
  exec_result_notifier_list : notifier_list
}.

Abbreviation H := qdevice_heuristics_instance.

Definition set_cmd_out_buffer_list (v : send_buffer_list) (i : H) : H :=
  mk_heuristics v (cmd_in_buffer i) (timeout i) (sync_timeout i) (heuristics_interval i) (mode i)
    (waiting_for_result i) (expected_reply_seq_number i) (heuristics_exec_list i)
    (exec_result_notifier_list i).
Definition set_cmd_in_buffer (v : dynar) (i : H) : H :=
  mk_heuristics (cmd_out_buffer_list i) v (timeout i) (sync_timeout i) (heuristics_interval i)
    (mode i) (waiting_for_result i) (expected_reply_seq_number i) (heuristics_exec_list i)
    (exec_result_notifier_list i).
Definition set_timeout (v : Z) (i : H) : H :=
  mk_heuristics (cmd_out_buffer_list i) (cmd_in_buffer i) v (sync_timeout i)
    (heuristics_interval i) (mode i) (waiting_for_result i) (expected_reply_seq_number i)
    (heuristics_exec_list i) (exec_result_notifier_list i).
Definition set_sync_timeout (v : Z) (i : H) : H :=
  mk_heuristics (cmd_out_buffer_list i) (cmd_in_buffer i) (timeout i) v
    (heuristics_interval i) (mode i) (waiting_for_result i) (expected_reply_seq_number i)
    (heuristics_exec_list i) (exec_result_notifier_list i).
Definition set_heuristics_interval (v : Z) (i : H) : H :=
  mk_heuristics (cmd_out_buffer_list i) (cmd_in_buffer i) (timeout i) (sync_timeout i) v
    (mode i) (waiting_for_result i) (expected_reply_seq_number i) (heuristics_exec_list i)
    (exec_result_notifier_list i).
Definition set_mode (v : qdevice_heuristics_mode) (i : H) : H :=
  mk_heuristics (cmd_out_buffer_list i) (cmd_in_buffer i) (timeout i) (sync_timeout i)
    (heuristics_interval i) v (waiting_for_result i) (expected_reply_seq_number i)
    (heuristics_exec_list i) (exec_result_notifier_list i).
Definition set_waiting_for_result (v : bool) (i : H) : H :=
  mk_heuristics (cmd_out_buffer_list i) (cmd_in_buffer i) (timeout i) (sync_timeout i)
    (heuristics_interval i) (mode i) v (expected_reply_seq_number i) (heuristics_exec_list i)
    (exec_result_notifier_list i).
Definition set_expected_reply_seq_number (v : Z) (i : H) : H :=
  mk_heuristics (cmd_out_buffer_list i) (cmd_in_buffer i) (timeout i) (sync_timeout i)
    (heuristics_interval i) (mode i) (waiting_for_result i) v (heuristics_exec_list i)
    (exec_result_notifier_list i).
Definition set_heuristics_exec_list (v : exec_list) (i : H) : H :=
  mk_heuristics (cmd_out_buffer_list i) (cmd_in_buffer i) (timeout i) (sync_timeout i)
    (heuristics_interval i) (mode i) (waiting_for_result i) (expected_reply_seq_number i) v
    (exec_result_notifier_list i).
Definition set_exec_result_notifier_list (v : notifier_list) (i : H) : H :=
  mk_heuristics (cmd_out_buffer_list i) (cmd_in_buffer i) (timeout i) (sync_timeout i)
    (heuristics_interval i) (mode i) (waiting_for_result i) (expected_reply_seq_number i)
    (heuristics_exec_list i) v.

(** Everything is zero; the buffers are set up by [qdevice_heuristics_init]. *)
Definition qdevice_heuristics_instance_init (max_send_buffers max_send_receive_size : Z) : H :=
  mk_heuristics (send_buffer_list_init max_send_buffers max_send_receive_size)
    (dynar_init max_send_receive_size) 0 0 0 QDEVICE_HEURISTICS_MODE_DISABLED false 0
    qdevice_heuristics_exec_list_init qdevice_heuristics_result_notifier_list_init.

(** ** Commands for the worker *)

(** Take a buffer, write the command into it, queue it or give it back. *)
Definition queue_cmd (write : M (dynar * heap) unit) : M (H * heap) Z := λ '(i, h),
  match send_buffer_list_get_new (cmd_out_buffer_list i) h with
  | (None, (l, h')) => (Ok (-1), (set_cmd_out_buffer_list l i, h'))
  | (Some send_buffer, (l, h')) =>
      let '(r, (buffer, h'')) := write (sb_buffer send_buffer, h') in
      let send_buffer' := mk_sbe buffer (msg_already_sent_bytes send_buffer) in
      match r with
      | Err _ => (Ok (-1), (set_cmd_out_buffer_list (send_buffer_list_discard_new send_buffer' l) i, h''))
      | Ok _ => (Ok 0, (set_cmd_out_buffer_list (send_buffer_list_put send_buffer' l) i, h''))
      end
  end.

Definition qdevice_heuristics_cmd_remove_newlines (d : dynar) : dynar :=
  let len := Z.to_nat (size d) in
  set_data (((λ b, if bool_decide (b = x0a) || bool_decide (b = x0d) then x20 else b) <$>
               take len (data d)) ++ drop len (data d)) d.

Definition write_exec_list_clear : M (dynar * heap) unit :=
  dynar_str_cpy QDEVICE_HEURISTICS_CMD_STR_EXEC_LIST_CLEAR;; dynar_str_cat [x0a].

Definition write_exec_list_add (entry : exec_list_entry) : M (dynar * heap) unit :=
  dynar_str_cpy QDEVICE_HEURISTICS_CMD_STR_EXEC_LIST_ADD_SPACE;;
  dynar_str_cat (exec_name entry);;
  dynar_str_cat [x20];;
  dynar_str_cat (exec_command entry);;
  modify (λ '(d, h), (qdevice_heuristics_cmd_remove_newlines d, h));;
  dynar_str_cat [x0a].

Fixpoint write_exec_list_entries (new_exec_list : exec_list) : M (H * heap) Z :=
  match new_exec_list with
  | [] => mret 0
  | entry :: new_exec_list' =>
      r ← queue_cmd (write_exec_list_add entry);
      if negb (r =? 0) then mret (-1) else write_exec_list_entries new_exec_list'
  end.

(** [None] is NULL. *)
Definition qdevice_heuristics_cmd_write_exec_list (new_exec_list : option exec_list) : M (H * heap) Z :=
  r ← queue_cmd write_exec_list_clear;
  if negb (r =? 0) then mret (-1)
  else match new_exec_list with
       | None => mret 0
       | Some l => write_exec_list_entries l
       end.

Definition write_exec (timeout seq_number : Z) : M (dynar * heap) unit :=
  dynar_str_cpy QDEVICE_HEURISTICS_CMD_STR_EXEC_ADD_SPACE;;
  dynar_str_catf (fmt_u32 timeout ++ [x20] ++ fmt_u32 seq_number ++ [x0a]);;
  mret tt.

Definition qdevice_heuristics_cmd_write_exec (timeout seq_number : Z) : M (H * heap) Z :=
  queue_cmd (write_exec timeout seq_number).

Definition qdevice_heuristics_exec (sync_in_progress : bool) : M (H * heap) Z :=
  modify (λ '(i, h), (set_waiting_for_result true
    (set_expected_reply_seq_number (u32 (expected_reply_seq_number i + 1)) i), h));;
  '(i, _) ← get;
  qdevice_heuristics_cmd_write_exec (if sync_in_progress then sync_timeout i else timeout i)
    (expected_reply_seq_number i).

Definition qdevice_heuristics_waiting_for_result (i : H) : bool := waiting_for_result i.

Definition on_exec_list {A} (m : M (exec_list * heap) A) : M (H * heap) A := λ '(i, h),
  let '(r, (l, h')) := m (heuristics_exec_list i, h) in (r, (set_heuristics_exec_list l i, h')).

Definition qdevice_heuristics_change_exec_list (new_exec_list : option exec_list)
    (sync_in_progress : bool) : M (H * heap) Z :=
  r ← qdevice_heuristics_cmd_write_exec_list new_exec_list;
  if negb (r =? 0) then mret (-1)
  else
    on_exec_list (modify (λ '(l, h), (qdevice_heuristics_exec_list_free l, h)));;
    r ← (match new_exec_list with
         | None => mret 0
         | Some l => on_exec_list (qdevice_heuristics_exec_list_clone l)
         end);
    if negb (r =? 0) then mret (-1)
    else
      '(i, _) ← get;
      if qdevice_heuristics_waiting_for_result i then
        r ← qdevice_heuristics_exec sync_in_progress;
        mret (if negb (r =? 0) then -1 else 0)
      else mret 0.
End notifiers.
Arguments notifier_item F : clear implicits.
Arguments notifier_list F : clear implicits.
Arguments qdevice_heuristics_instance F : clear implicits.

(** ** The pipes *)

Definition QDEVICE_HEURISTICS_IO_BUFFER_SIZE : Z := 256.

Section pipes.
Context {fd : Type}.
(** [read] and [write] with the new state of the pipe; a negative result comes with whether
    the error is one of EAGAIN, EWOULDBLOCK and EINTR. *)
Context (read : fd → Z → Z * list byte * fd) (write : fd → list byte → Z * fd).
Context (transient_error : fd → bool).

Definition qdevice_heuristics_io_read : M (fd * (dynar * heap)) Z := λ '(f, (dest, h)),
  let '(readed, buf, f') := read f QDEVICE_HEURISTICS_IO_BUFFER_SIZE in
  if 0 <? readed then
    match dynar_cat buf (dest, h) with
    | (Err _, (dest', h')) => (Ok (-2), (f', (dest', h')))
    | (Ok _, (dest', h')) =>
        (Ok (if existsb (λ b, bool_decide (b = x0a)) buf then 1 else 0), (f', (dest', h')))
    end
  else (Ok (if readed =? 0 then -1 else if transient_error f' then 0 else -3), (f', (dest, h))).

Definition qdevice_heuristics_io_write (f : fd) (msg : dynar) (already_sent_bytes : Z) :
    Z * (fd * Z) :=
  let to_send := u64 (size msg - already_sent_bytes) in
  let to_send := Z.min to_send QDEVICE_HEURISTICS_IO_BUFFER_SIZE in
  let '(sent, f') := write f (take (Z.to_nat to_send) (drop (Z.to_nat already_sent_bytes) (data msg))) in
  if 0 <? sent then
    let already := already_sent_bytes + sent in
    (if already =? size msg then 1 else 0, (f', already))
  else (if sent =? 0 then -1 else if transient_error f' then 0 else -2, (f', already_sent_bytes)).
End pipes.

(** ** Lines

    Both sides look for lines in the same way. *)

Definition is_line_end (b : byte) : bool := bool_decide (b = x0a) || bool_decide (b = x0d).
Definition is_line_gap (b : byte) : bool := bool_decide (b = x00) || is_line_end b.

(** Where a line ends, and how many of the following bytes belong to no line. *)
Fixpoint line_length (s : list byte) : nat :=
  match s with b :: s' => if is_line_end b then O else S (line_length s') | [] => O end.
Fixpoint gap_length (s : list byte) : nat :=
  match s with b :: s' => if is_line_gap b then S (gap_length s') else O | [] => O end.

(** A line as a string: a NUL ends it. *)
Fixpoint until_nul (s : list byte) : c_string :=
  match s with b :: s' => if bool_decide (b = x00) then [] else b :: until_nul s' | [] => [] end.

(** [memmove(str, str + zi, str_len - zi)], [dynar_set_size(data, str_len - zi)]; the line end
    was overwritten with NUL. *)
Definition drop_line (nl_pos zi : nat) : M (dynar * heap) unit := λ '(d, h),
  let str := <[nl_pos := x00]> (data d) in
  let rest := take (Z.to_nat (Dynar.size d) - zi) (drop zi str) in
  dynar_set_size (Dynar.size d - Z.of_nat zi) (set_data (block_write str 0 rest) d, h).

Lemma until_nul_length s : (length (until_nul s) ≤ length s)%nat.
Proof. induction s as [|b s IH]; cbn; [lia|]. destruct (bool_decide _); cbn; lia. Qed.
Lemma gap_length_le s : (gap_length s ≤ length s)%nat.
Proof. induction s as [|b s IH]; cbn; [lia|]. destruct (is_line_gap b); cbn; lia. Qed.

Lemma set_size_size sz s u d h : dynar_set_size sz s = (Ok u, (d, h)) → Dynar.size d = sz.
Proof.
  destruct s as [d0 h0]. unfold dynar_set_size. set (d1 := if _ <? _ then _ else d0).
  destruct (Dynar.size d1 <? sz).
  - destruct (dynar_prealloc _ _) as [[] [d2 h2]]; [|done]. intros [= _ <- _]. by destruct d2.
  - intros [= _ <- _]. by destruct d1.
Qed.
