(* ===== verification/QdeviceInstance.v ===== *)
(** The state of the device (qdevice-instance.h, qdevice-net-instance.c): what it knows of the
    cluster, its session with the server and its timers.

    Everything outside of the program - votequorum, cmap, the clock, NSPR - is a state [E] with
    the operations of [Environment]; what votequorum was told is kept in [votes_cast], newest
    first.  The sockets in the poll loop are [polled_sockets].  A pointer to a timer is its
    handle. *)
From stdpp Require Import strings.
From S2P Require Import Prelude Dynar Tlv NodeList SendBuffer DynarStr Heuristics.
From stdpp Require Import list gmap.
From S2P Require Import TimerList TimerInterface.
Local Open Scope Z_scope.

(** ** Data *)

Inductive qdevice_net_instance_state :=
| QDEVICE_NET_INSTANCE_STATE_WAITING_CONNECT
| QDEVICE_NET_INSTANCE_STATE_SENDING_PREINIT_REPLY
| QDEVICE_NET_INSTANCE_STATE_WAITING_PREINIT_REPLY
| QDEVICE_NET_INSTANCE_STATE_WAITING_STARTTLS_BEING_SENT
| QDEVICE_NET_INSTANCE_STATE_WAITING_INIT_REPLY
| QDEVICE_NET_INSTANCE_STATE_WAITING_VOTEQUORUM_CMAP_EVENTS.
#[export] Instance qdevice_net_instance_state_eq_dec : EqDecision qdevice_net_instance_state.
Proof. solve_decision. Defined.

Inductive qdevice_net_disconnect_reason :=
| QDEVICE_NET_DISCONNECT_REASON_UNDEFINED
| QDEVICE_NET_DISCONNECT_REASON_UNEXPECTED_MSG
| QDEVICE_NET_DISCONNECT_REASON_UNSUPPORTED_MSG
| QDEVICE_NET_DISCONNECT_REASON_INCOMPATIBLE_TLS
| QDEVICE_NET_DISCONNECT_REASON_INCOMPATIBLE_MSG_SIZE
| QDEVICE_NET_DISCONNECT_REASON_REQUIRED_OPTION_MISSING
| QDEVICE_NET_DISCONNECT_REASON_CANT_ALLOCATE_MSG_BUFFER
| QDEVICE_NET_DISCONNECT_REASON_CANT_SCHEDULE_HB_TIMER
| QDEVICE_NET_DISCONNECT_REASON_CANT_SCHEDULE_VOTING_TIMER
| QDEVICE_NET_DISCONNECT_REASON_CANT_SCHEDULE_HEURISTICS_TIMER
| QDEVICE_NET_DISCONNECT_REASON_CANT_START_HEURISTICS
| QDEVICE_NET_DISCONNECT_REASON_CANT_ACTIVATE_HEURISTICS_RESULT_NOTIFIER
| QDEVICE_NET_DISCONNECT_REASON_CANT_REGISTER_VOTEQUORUM_CALLBACK
| QDEVICE_NET_DISCONNECT_REASON_CANT_REGISTER_CMAP_CALLBACK
| QDEVICE_NET_DISCONNECT_REASON_CANT_START_TLS
| QDEVICE_NET_DISCONNECT_REASON_SERVER_SENT_ERROR
| QDEVICE_NET_DISCONNECT_REASON_SERVER_SENT_DUPLICATE_NODE_ID_ERROR
| QDEVICE_NET_DISCONNECT_REASON_SERVER_SENT_TIE_BREAKER_DIFFERS_FROM_OTHER_NODES_ERROR
| QDEVICE_NET_DISCONNECT_REASON_SERVER_SENT_ALGORITHM_DIFFERS_FROM_OTHER_NODES_ERROR
| QDEVICE_NET_DISCONNECT_REASON_SERVER_DOESNT_SUPPORT_REQUIRED_ALGORITHM
| QDEVICE_NET_DISCONNECT_REASON_SERVER_DOESNT_SUPPORT_REQUIRED_OPT
| QDEVICE_NET_DISCONNECT_REASON_MSG_DECODE_ERROR
| QDEVICE_NET_DISCONNECT_REASON_SERVER_CLOSED_CONNECTION
| QDEVICE_NET_DISCONNECT_REASON_CANT_READ_MESSAGE
| QDEVICE_NET_DISCONNECT_REASON_CANT_SEND_MESSAGE
| QDEVICE_NET_DISCONNECT_REASON_COROSYNC_CONNECTION_CLOSED
| QDEVICE_NET_DISCONNECT_REASON_LOCAL_SOCKET_CLOSED
| QDEVICE_NET_DISCONNECT_REASON_CANT_CONNECT_TO_THE_SERVER
| QDEVICE_NET_DISCONNECT_REASON_ALGO_CONNECTED_ERR
| QDEVICE_NET_DISCONNECT_REASON_ALGO_CONFIG_NODE_LIST_CHANGED_ERR
| QDEVICE_NET_DISCONNECT_REASON_ALGO_VOTEQUORUM_QUORUM_NOTIFY_ERR
| QDEVICE_NET_DISCONNECT_REASON_ALGO_VOTEQUORUM_NODE_LIST_NOTIFY_ERR
| QDEVICE_NET_DISCONNECT_REASON_ALGO_VOTEQUORUM_NODE_LIST_HEURISTICS_NOTIFY_ERR
| QDEVICE_NET_DISCONNECT_REASON_ALGO_VOTEQUORUM_EXPECTED_VOTES_NOTIFY_ERR
| QDEVICE_NET_DISCONNECT_REASON_ALGO_NODE_LIST_REPLY_ERR
| QDEVICE_NET_DISCONNECT_REASON_ALGO_ASK_FOR_VOTE_REPLY_ERR
| QDEVICE_NET_DISCONNECT_REASON_ALGO_VOTE_INFO_ERR
| QDEVICE_NET_DISCONNECT_REASON_ALGO_ECHO_REPLY_RECEIVED_ERR
| QDEVICE_NET_DISCONNECT_REASON_ALGO_ECHO_REPLY_NOT_RECEIVED_ERR
| QDEVICE_NET_DISCONNECT_REASON_ALGO_HEURISTICS_CHANGE_ERR
| QDEVICE_NET_DISCONNECT_REASON_ALGO_HEURISTICS_CHANGE_REPLY_ERR
| QDEVICE_NET_DISCONNECT_REASON_HEURISTICS_WORKER_CLOSED.
#[export] Instance qdevice_net_disconnect_reason_eq_dec : EqDecision qdevice_net_disconnect_reason.
Proof. intros x y. unfold Decision. decide equality. Defined.

Definition qdevice_net_disconnect_reason_try_reconnect (reason : qdevice_net_disconnect_reason) : bool :=
  bool_decide (reason = QDEVICE_NET_DISCONNECT_REASON_MSG_DECODE_ERROR) ||
  bool_decide (reason = QDEVICE_NET_DISCONNECT_REASON_SERVER_CLOSED_CONNECTION) ||
  bool_decide (reason = QDEVICE_NET_DISCONNECT_REASON_CANT_READ_MESSAGE) ||
  bool_decide (reason = QDEVICE_NET_DISCONNECT_REASON_CANT_SEND_MESSAGE) ||
  bool_decide (reason = QDEVICE_NET_DISCONNECT_REASON_CANT_CONNECT_TO_THE_SERVER) ||
  bool_decide (reason = QDEVICE_NET_DISCONNECT_REASON_ALGO_ECHO_REPLY_NOT_RECEIVED_ERR) ||
  bool_decide (reason = QDEVICE_NET_DISCONNECT_REASON_SERVER_SENT_DUPLICATE_NODE_ID_ERROR) ||
  bool_decide (reason = QDEVICE_NET_DISCONNECT_REASON_SERVER_SENT_TIE_BREAKER_DIFFERS_FROM_OTHER_NODES_ERROR) ||
  bool_decide (reason = QDEVICE_NET_DISCONNECT_REASON_SERVER_SENT_ALGORITHM_DIFFERS_FROM_OTHER_NODES_ERROR).

Definition qdevice_net_disconnect_reason_force_disconnect (reason : qdevice_net_disconnect_reason) : bool :=
  bool_decide (reason = QDEVICE_NET_DISCONNECT_REASON_COROSYNC_CONNECTION_CLOSED) ||
  bool_decide (reason = QDEVICE_NET_DISCONNECT_REASON_LOCAL_SOCKET_CLOSED) ||
  bool_decide (reason = QDEVICE_NET_DISCONNECT_REASON_CANT_SCHEDULE_VOTING_TIMER) ||
  bool_decide (reason = QDEVICE_NET_DISCONNECT_REASON_CANT_REGISTER_VOTEQUORUM_CALLBACK) ||
  bool_decide (reason = QDEVICE_NET_DISCONNECT_REASON_CANT_REGISTER_CMAP_CALLBACK) ||
  bool_decide (reason = QDEVICE_NET_DISCONNECT_REASON_HEURISTICS_WORKER_CLOSED).

(** What the timers of the device call. *)
Inductive qdevice_timer := CAST_VOTE_TIMER | ECHO_REQUEST_TIMER | CONNECT_TIMER | HEURISTICS_TIMER.
#[export] Instance qdevice_timer_eq_dec : EqDecision qdevice_timer.
Proof. solve_decision. Defined.

(** The functions told of a result of the heuristics. *)
Inductive qdevice_heuristics_callback := REGULAR_CALLBACK | CONNECT_CALLBACK | VOTEQUORUM_CALLBACK.
#[export] Instance qdevice_heuristics_callback_eq_dec : EqDecision qdevice_heuristics_callback.
Proof. solve_decision. Defined.

Record votequorum_ring_id_t := mk_vq_ring_id { vq_nodeid : Z; vq_seq : Z }.
#[export] Instance votequorum_ring_id_eq_dec : EqDecision votequorum_ring_id_t.
Proof. solve_decision. Defined.

Inductive votequorum_nodestate :=
| VOTEQUORUM_NODESTATE_MEMBER
| VOTEQUORUM_NODESTATE_DEAD
| VOTEQUORUM_NODESTATE_LEAVING
| VOTEQUORUM_NODESTATE_OTHER.

Record votequorum_node_t := mk_vq_node { vqn_nodeid : Z; vqn_state : votequorum_nodestate }.

(** [quorate] and [have_wfa] of the last-man-standing algorithm; its field [vote] is never read. *)
Record algo_lms_instance_data := mk_lms_data { lms_quorate : Z; lms_have_wfa : Z }.

Inductive pr_af := PR_AF_UNSPEC | PR_AF_INET | PR_AF_INET6.
#[export] Instance pr_af_eq_dec : EqDecision pr_af.
Proof. solve_decision. Defined.

Record pr_addr := mk_addr { addr_family : pr_af; addr_raw : Z }.

(** [nb_addrs] are the addresses still to try. *)
Record nss_sock_non_blocking_client := mk_nb_client {
  nb_af : pr_af;
  nb_addrs : list pr_addr;
  nb_socket : option nat;
  nb_connect_attempts : Z;
  nb_destroyed : bool
}.

(** What the device is configured with. *)
Record qdevice_settings := mk_settings {
  cfg_tls_supported : tlv_tls_supported;
  cfg_decision_algorithm : Z;
  cfg_heartbeat_interval : Z;
  cfg_cast_vote_timer_interval : Z;
  cfg_connect_timeout : Z;
  cfg_force_ip_version : Z;
  cfg_cluster_name : c_string;
  cfg_tie_breaker : tlv_tie_breaker;
  cfg_keep_active_partition_tie_breaker : tlv_keep_active_partition_tie_breaker;
  cfg_node_id : Z;
  cfg_heartbeat_timeout : Z;
  cfg_sync_heartbeat_timeout : Z;
  heuristics_min_timeout : Z;
  heuristics_max_timeout : Z;
  heuristics_min_interval : Z;
  heuristics_max_interval : Z;
  heuristics_max_execs : Z;
  net_initial_msg_receive_size : Z;
  net_initial_msg_send_size : Z;
  net_min_msg_send_size : Z;
  net_max_msg_receive_size : Z;
  net_max_send_buffers : Z
}.

(** ** The outside *)

(** The results of corosync the program tells apart. *)
Inductive cs_error :=
  CS_OK | CS_ERR_TRY_AGAIN | CS_ERR_NOT_EXIST | CS_ERR_MESSAGE_ERROR | CS_ERR_OTHER.
#[export] Instance cs_error_eq_dec : EqDecision cs_error.
Proof. solve_decision. Defined.

(** [votequorum_getinfo] gives the votes of the node and of its device too; [cmap_get_*] the
    value of a key if there is one, [cmap_keys] the keys with a prefix and whether they are
    strings; [getaddrinfo_inet] the IPv4 address of a name as a number.  A socket is a number.  [PR_Connect] tells whether it
    succeeded or the error is [PR_IN_PROGRESS_ERROR]; [SSL_setup] whether all the calls that
    configure a new TLS socket succeeded. *)
Class Environment (E : Type) := {
  env_time : E → Z * E;
  env_random : E → Z * E;
  votequorum_qdevice_poll : Z → votequorum_ring_id_t → E → cs_error * E;
  votequorum_getinfo : Z → E → (cs_error * Z * Z) * E;
  cmap_get_uint8 : c_string → E → option Z * E;
  cmap_get_uint32 : c_string → E → (cs_error * Z) * E;
  cmap_get_uint64 : c_string → E → option Z * E;
  cmap_get_string : c_string → E → option c_string * E;
  cmap_keys : c_string → E → option (list (c_string * bool)) * E;
  getaddrinfo_inet : c_string → E → option Z * E;
  PR_GetAddrInfoByName : pr_af → E → option (list pr_addr) * E;
  PR_OpenTCPSocket : pr_af → E → option nat * E;
  PR_SetSocketOption : nat → E → bool * E;
  PR_Connect : nat → pr_addr → E → bool * E;
  SSL_ImportFD : nat → E → option nat * E;
  SSL_setup : nat → E → bool * E;
  PR_Send : nat → E → list byte → Z * E;
  PR_Recv : nat → E → Z → Z * list byte * E;
  PR_GetError : E → Z;
  PR_WOULD_BLOCK_ERROR : Z;
  pipe_read : E → Z → Z * list byte * E;
  pipe_write : E → list byte → Z * E;
  pipe_transient_error : E → bool
}.

(** ** The instances *)

Record qdevice_net_instance := mk_net {
  receive_buffer : dynar;
  net_send_buffer_list : send_buffer_list;
  net_skipping_msg : bool;
  msg_already_received_bytes : Z;
  state : qdevice_net_instance_state;
  last_msg_seq_num : Z;
  echo_request_expected_msg_seq_num : Z;
  echo_reply_received_msg_seq_num : Z;
  using_tls : bool;
  cast_vote_timer : option nat;
  cast_vote_timer_vote : tlv_vote;
  cast_vote_timer_paused : bool;
  echo_request_timer : option nat;
  schedule_disconnect : bool;
  last_sent_ring_id : tlv_ring_id;
  algorithm_data : option algo_lms_instance_data;
  disconnect_reason : qdevice_net_disconnect_reason;
  net_socket : option nat;
  non_blocking_client : nss_sock_non_blocking_client;
  connect_timer : option nat;
  last_echo_reply_received_time : Z;
  connected_since_time : Z;
  regular_heuristics_timer : option nat;
  server_supports_heuristics : bool;
  server_supports_keep_active_partition_tie_breaker : bool;
  latest_regular_heuristics_result : tlv_heuristics;
  latest_connect_heuristics_result : tlv_heuristics;
  latest_vq_heuristics_result : tlv_heuristics;
  latest_heuristics_result : tlv_heuristics
}.

Definition set_receive_buffer (v : dynar) (i : qdevice_net_instance) : qdevice_net_instance :=
  let '(mk_net _ f1 f2 f3 f4 f5 f6 f7 f8 f9 f10 f11 f12 f13 f14 f15 f16 f17 f18 f19 f20 f21 f22
    f23 f24 f25 f26 f27 f28) := i in
  mk_net v f1 f2 f3 f4 f5 f6 f7 f8 f9 f10 f11 f12 f13 f14 f15 f16 f17 f18 f19 f20 f21 f22
    f23 f24 f25 f26 f27 f28.
Definition set_net_send_buffer_list (v : send_buffer_list) (i : qdevice_net_instance) : qdevice_net_instance :=
  let '(mk_net f0 _ f2 f3 f4 f5 f6 f7 f8 f9 f10 f11 f12 f13 f14 f15 f16 f17 f18 f19 f20 f21 f22
    f23 f24 f25 f26 f27 f28) := i in
  mk_net f0 v f2 f3 f4 f5 f6 f7 f8 f9 f10 f11 f12 f13 f14 f15 f16 f17 f18 f19 f20 f21 f22
    f23 f24 f25 f26 f27 f28.
Definition set_net_skipping_msg (v : bool) (i : qdevice_net_instance) : qdevice_net_instance :=
  let '(mk_net f0 f1 _ f3 f4 f5 f6 f7 f8 f9 f10 f11 f12 f13 f14 f15 f16 f17 f18 f19 f20 f21 f22
    f23 f24 f25 f26 f27 f28) := i in
  mk_net f0 f1 v f3 f4 f5 f6 f7 f8 f9 f10 f11 f12 f13 f14 f15 f16 f17 f18 f19 f20 f21 f22
    f23 f24 f25 f26 f27 f28.
Definition set_msg_already_received_bytes (v : Z) (i : qdevice_net_instance) : qdevice_net_instance :=
  let '(mk_net f0 f1 f2 _ f4 f5 f6 f7 f8 f9 f10 f11 f12 f13 f14 f15 f16 f17 f18 f19 f20 f21 f22
    f23 f24 f25 f26 f27 f28) := i in
  mk_net f0 f1 f2 v f4 f5 f6 f7 f8 f9 f10 f11 f12 f13 f14 f15 f16 f17 f18 f19 f20 f21 f22
    f23 f24 f25 f26 f27 f28.
Definition set_state (v : qdevice_net_instance_state) (i : qdevice_net_instance) : qdevice_net_instance :=
  let '(mk_net f0 f1 f2 f3 _ f5 f6 f7 f8 f9 f10 f11 f12 f13 f14 f15 f16 f17 f18 f19 f20 f21 f22
    f23 f24 f25 f26 f27 f28) := i in
  mk_net f0 f1 f2 f3 v f5 f6 f7 f8 f9 f10 f11 f12 f13 f14 f15 f16 f17 f18 f19 f20 f21 f22
    f23 f24 f25 f26 f27 f28.
Definition set_last_msg_seq_num (v : Z) (i : qdevice_net_instance) : qdevice_net_instance :=
  let '(mk_net f0 f1 f2 f3 f4 _ f6 f7 f8 f9 f10 f11 f12 f13 f14 f15 f16 f17 f18 f19 f20 f21 f22
    f23 f24 f25 f26 f27 f28) := i in
  mk_net f0 f1 f2 f3 f4 v f6 f7 f8 f9 f10 f11 f12 f13 f14 f15 f16 f17 f18 f19 f20 f21 f22
    f23 f24 f25 f26 f27 f28.
Definition set_echo_request_expected_msg_seq_num (v : Z) (i : qdevice_net_instance) : qdevice_net_instance :=
  let '(mk_net f0 f1 f2 f3 f4 f5 _ f7 f8 f9 f10 f11 f12 f13 f14 f15 f16 f17 f18 f19 f20 f21 f22
    f23 f24 f25 f26 f27 f28) := i in
  mk_net f0 f1 f2 f3 f4 f5 v f7 f8 f9 f10 f11 f12 f13 f14 f15 f16 f17 f18 f19 f20 f21 f22
    f23 f24 f25 f26 f27 f28.
Definition set_echo_reply_received_msg_seq_num (v : Z) (i : qdevice_net_instance) : qdevice_net_instance :=
  let '(mk_net f0 f1 f2 f3 f4 f5 f6 _ f8 f9 f10 f11 f12 f13 f14 f15 f16 f17 f18 f19 f20 f21 f22
    f23 f24 f25 f26 f27 f28) := i in
  mk_net f0 f1 f2 f3 f4 f5 f6 v f8 f9 f10 f11 f12 f13 f14 f15 f16 f17 f18 f19 f20 f21 f22
    f23 f24 f25 f26 f27 f28.
Definition set_using_tls (v : bool) (i : qdevice_net_instance) : qdevice_net_instance :=
  let '(mk_net f0 f1 f2 f3 f4 f5 f6 f7 _ f9 f10 f11 f12 f13 f14 f15 f16 f17 f18 f19 f20 f21 f22
    f23 f24 f25 f26 f27 f28) := i in
  mk_net f0 f1 f2 f3 f4 f5 f6 f7 v f9 f10 f11 f12 f13 f14 f15 f16 f17 f18 f19 f20 f21 f22
    f23 f24 f25 f26 f27 f28.
Definition set_cast_vote_timer (v : option nat) (i : qdevice_net_instance) : qdevice_net_instance :=
  let '(mk_net f0 f1 f2 f3 f4 f5 f6 f7 f8 _ f10 f11 f12 f13 f14 f15 f16 f17 f18 f19 f20 f21 f22
    f23 f24 f25 f26 f27 f28) := i in
  mk_net f0 f1 f2 f3 f4 f5 f6 f7 f8 v f10 f11 f12 f13 f14 f15 f16 f17 f18 f19 f20 f21 f22
    f23 f24 f25 f26 f27 f28.
Definition set_cast_vote_timer_vote (v : tlv_vote) (i : qdevice_net_instance) : qdevice_net_instance :=
  let '(mk_net f0 f1 f2 f3 f4 f5 f6 f7 f8 f9 _ f11 f12 f13 f14 f15 f16 f17 f18 f19 f20 f21 f22
    f23 f24 f25 f26 f27 f28) := i in
  mk_net f0 f1 f2 f3 f4 f5 f6 f7 f8 f9 v f11 f12 f13 f14 f15 f16 f17 f18 f19 f20 f21 f22
    f23 f24 f25 f26 f27 f28.
Definition set_cast_vote_timer_paused (v : bool) (i : qdevice_net_instance) : qdevice_net_instance :=
  let '(mk_net f0 f1 f2 f3 f4 f5 f6 f7 f8 f9 f10 _ f12 f13 f14 f15 f16 f17 f18 f19 f20 f21 f22
    f23 f24 f25 f26 f27 f28) := i in
  mk_net f0 f1 f2 f3 f4 f5 f6 f7 f8 f9 f10 v f12 f13 f14 f15 f16 f17 f18 f19 f20 f21 f22
    f23 f24 f25 f26 f27 f28.
Definition set_echo_request_timer (v : option nat) (i : qdevice_net_instance) : qdevice_net_instance :=
  let '(mk_net f0 f1 f2 f3 f4 f5 f6 f7 f8 f9 f10 f11 _ f13 f14 f15 f16 f17 f18 f19 f20 f21 f22
    f23 f24 f25 f26 f27 f28) := i in
  mk_net f0 f1 f2 f3 f4 f5 f6 f7 f8 f9 f10 f11 v f13 f14 f15 f16 f17 f18 f19 f20 f21 f22
    f23 f24 f25 f26 f27 f28.
Definition set_schedule_disconnect (v : bool) (i : qdevice_net_instance) : qdevice_net_instance :=
  let '(mk_net f0 f1 f2 f3 f4 f5 f6 f7 f8 f9 f10 f11 f12 _ f14 f15 f16 f17 f18 f19 f20 f21 f22
    f23 f24 f25 f26 f27 f28) := i in
  mk_net f0 f1 f2 f3 f4 f5 f6 f7 f8 f9 f10 f11 f12 v f14 f15 f16 f17 f18 f19 f20 f21 f22
    f23 f24 f25 f26 f27 f28.
Definition set_last_sent_ring_id (v : tlv_ring_id) (i : qdevice_net_instance) : qdevice_net_instance :=
  let '(mk_net f0 f1 f2 f3 f4 f5 f6 f7 f8 f9 f10 f11 f12 f13 _ f15 f16 f17 f18 f19 f20 f21 f22
    f23 f24 f25 f26 f27 f28) := i in
  mk_net f0 f1 f2 f3 f4 f5 f6 f7 f8 f9 f10 f11 f12 f13 v f15 f16 f17 f18 f19 f20 f21 f22
    f23 f24 f25 f26 f27 f28.
Definition set_algorithm_data (v : option algo_lms_instance_data) (i : qdevice_net_instance) : qdevice_net_instance :=
  let '(mk_net f0 f1 f2 f3 f4 f5 f6 f7 f8 f9 f10 f11 f12 f13 f14 _ f16 f17 f18 f19 f20 f21 f22
    f23 f24 f25 f26 f27 f28) := i in
  mk_net f0 f1 f2 f3 f4 f5 f6 f7 f8 f9 f10 f11 f12 f13 f14 v f16 f17 f18 f19 f20 f21 f22
    f23 f24 f25 f26 f27 f28.
Definition set_disconnect_reason (v : qdevice_net_disconnect_reason) (i : qdevice_net_instance) : qdevice_net_instance :=
  let '(mk_net f0 f1 f2 f3 f4 f5 f6 f7 f8 f9 f10 f11 f12 f13 f14 f15 _ f17 f18 f19 f20 f21 f22
    f23 f24 f25 f26 f27 f28) := i in
  mk_net f0 f1 f2 f3 f4 f5 f6 f7 f8 f9 f10 f11 f12 f13 f14 f15 v f17 f18 f19 f20 f21 f22
    f23 f24 f25 f26 f27 f28.
Definition set_net_socket (v : option nat) (i : qdevice_net_instance) : qdevice_net_instance :=
  let '(mk_net f0 f1 f2 f3 f4 f5 f6 f7 f8 f9 f10 f11 f12 f13 f14 f15 f16 _ f18 f19 f20 f21 f22
    f23 f24 f25 f26 f27 f28) := i in
  mk_net f0 f1 f2 f3 f4 f5 f6 f7 f8 f9 f10 f11 f12 f13 f14 f15 f16 v f18 f19 f20 f21 f22
    f23 f24 f25 f26 f27 f28.
Definition set_non_blocking_client (v : nss_sock_non_blocking_client) (i : qdevice_net_instance) : qdevice_net_instance :=
  let '(mk_net f0 f1 f2 f3 f4 f5 f6 f7 f8 f9 f10 f11 f12 f13 f14 f15 f16 f17 _ f19 f20 f21 f22
    f23 f24 f25 f26 f27 f28) := i in
  mk_net f0 f1 f2 f3 f4 f5 f6 f7 f8 f9 f10 f11 f12 f13 f14 f15 f16 f17 v f19 f20 f21 f22
    f23 f24 f25 f26 f27 f28.
Definition set_connect_timer (v : option nat) (i : qdevice_net_instance) : qdevice_net_instance :=
  let '(mk_net f0 f1 f2 f3 f4 f5 f6 f7 f8 f9 f10 f11 f12 f13 f14 f15 f16 f17 f18 _ f20 f21 f22
    f23 f24 f25 f26 f27 f28) := i in
  mk_net f0 f1 f2 f3 f4 f5 f6 f7 f8 f9 f10 f11 f12 f13 f14 f15 f16 f17 f18 v f20 f21 f22
    f23 f24 f25 f26 f27 f28.
Definition set_last_echo_reply_received_time (v : Z) (i : qdevice_net_instance) : qdevice_net_instance :=
  let '(mk_net f0 f1 f2 f3 f4 f5 f6 f7 f8 f9 f10 f11 f12 f13 f14 f15 f16 f17 f18 f19 _ f21 f22
    f23 f24 f25 f26 f27 f28) := i in
  mk_net f0 f1 f2 f3 f4 f5 f6 f7 f8 f9 f10 f11 f12 f13 f14 f15 f16 f17 f18 f19 v f21 f22
    f23 f24 f25 f26 f27 f28.
Definition set_connected_since_time (v : Z) (i : qdevice_net_instance) : qdevice_net_instance :=
  let '(mk_net f0 f1 f2 f3 f4 f5 f6 f7 f8 f9 f10 f11 f12 f13 f14 f15 f16 f17 f18 f19 f20 _ f22
    f23 f24 f25 f26 f27 f28) := i in
  mk_net f0 f1 f2 f3 f4 f5 f6 f7 f8 f9 f10 f11 f12 f13 f14 f15 f16 f17 f18 f19 f20 v f22
    f23 f24 f25 f26 f27 f28.
Definition set_regular_heuristics_timer (v : option nat) (i : qdevice_net_instance) : qdevice_net_instance :=
  let '(mk_net f0 f1 f2 f3 f4 f5 f6 f7 f8 f9 f10 f11 f12 f13 f14 f15 f16 f17 f18 f19 f20 f21 _
    f23 f24 f25 f26 f27 f28) := i in
  mk_net f0 f1 f2 f3 f4 f5 f6 f7 f8 f9 f10 f11 f12 f13 f14 f15 f16 f17 f18 f19 f20 f21 v
    f23 f24 f25 f26 f27 f28.
Definition set_server_supports_heuristics (v : bool) (i : qdevice_net_instance) : qdevice_net_instance :=
  let '(mk_net f0 f1 f2 f3 f4 f5 f6 f7 f8 f9 f10 f11 f12 f13 f14 f15 f16 f17 f18 f19 f20 f21
    f22 _ f24 f25 f26 f27 f28) := i in
  mk_net f0 f1 f2 f3 f4 f5 f6 f7 f8 f9 f10 f11 f12 f13 f14 f15 f16 f17 f18 f19 f20 f21
    f22 v f24 f25 f26 f27 f28.
Definition set_server_supports_keep_active_partition_tie_breaker (v : bool) (i : qdevice_net_instance) : qdevice_net_instance :=
  let '(mk_net f0 f1 f2 f3 f4 f5 f6 f7 f8 f9 f10 f11 f12 f13 f14 f15 f16 f17 f18 f19 f20 f21
    f22 f23 _ f25 f26 f27 f28) := i in
  mk_net f0 f1 f2 f3 f4 f5 f6 f7 f8 f9 f10 f11 f12 f13 f14 f15 f16 f17 f18 f19 f20 f21
    f22 f23 v f25 f26 f27 f28.
Definition set_latest_regular_heuristics_result (v : tlv_heuristics) (i : qdevice_net_instance) : qdevice_net_instance :=
  let '(mk_net f0 f1 f2 f3 f4 f5 f6 f7 f8 f9 f10 f11 f12 f13 f14 f15 f16 f17 f18 f19 f20 f21
    f22 f23 f24 _ f26 f27 f28) := i in
  mk_net f0 f1 f2 f3 f4 f5 f6 f7 f8 f9 f10 f11 f12 f13 f14 f15 f16 f17 f18 f19 f20 f21
    f22 f23 f24 v f26 f27 f28.
Definition set_latest_connect_heuristics_result (v : tlv_heuristics) (i : qdevice_net_instance) : qdevice_net_instance :=
  let '(mk_net f0 f1 f2 f3 f4 f5 f6 f7 f8 f9 f10 f11 f12 f13 f14 f15 f16 f17 f18 f19 f20 f21
    f22 f23 f24 f25 _ f27 f28) := i in
  mk_net f0 f1 f2 f3 f4 f5 f6 f7 f8 f9 f10 f11 f12 f13 f14 f15 f16 f17 f18 f19 f20 f21
    f22 f23 f24 f25 v f27 f28.
Definition set_latest_vq_heuristics_result (v : tlv_heuristics) (i : qdevice_net_instance) : qdevice_net_instance :=
  let '(mk_net f0 f1 f2 f3 f4 f5 f6 f7 f8 f9 f10 f11 f12 f13 f14 f15 f16 f17 f18 f19 f20 f21
    f22 f23 f24 f25 f26 _ f28) := i in
  mk_net f0 f1 f2 f3 f4 f5 f6 f7 f8 f9 f10 f11 f12 f13 f14 f15 f16 f17 f18 f19 f20 f21
    f22 f23 f24 f25 f26 v f28.
Definition set_latest_heuristics_result (v : tlv_heuristics) (i : qdevice_net_instance) : qdevice_net_instance :=
  let '(mk_net f0 f1 f2 f3 f4 f5 f6 f7 f8 f9 f10 f11 f12 f13 f14 f15 f16 f17 f18 f19 f20 f21
    f22 f23 f24 f25 f26 f27 _) := i in
  mk_net f0 f1 f2 f3 f4 f5 f6 f7 f8 f9 f10 f11 f12 f13 f14 f15 f16 f17 f18 f19 f20 f21
    f22 f23 f24 f25 f26 f27 v.

Section instance.
Context {T E : Type} `{TimerOps qdevice_timer T} `{Environment E}.

(** [net] is what [model_data] points to. *)
Record qdevice_instance := mk_qdevice {
  net : qdevice_net_instance;
  config_node_list : node_list;
  config_node_list_version : option Z;
  vq_quorum_quorate : Z;
  vq_quorum_node_list : list votequorum_node_t;
  vq_node_list_initial_ring_id_set : bool;
  vq_node_list_ring_id : votequorum_ring_id_t;
  vq_node_list : list Z;
  vq_node_list_initial_heuristics_finished : bool;
  vq_node_list_heuristics_result : Z;
  vq_poll_ring_id : votequorum_ring_id_t;
  vq_expected_votes : Z;
  vq_last_poll : Z;
  vq_last_poll_cast_vote : Z;
  sync_in_progress : bool;
  cmap_reload_in_progress : bool;
  votequorum_closed : bool;
  cmap_closed : bool;
  heuristics_closed : bool;
  heuristics_instance : qdevice_heuristics_instance qdevice_heuristics_callback;
  polled_sockets : list nat;
  pre_poll_cb_registered : bool;
  main_timers : T;
  main_heap : heap;
  environment : E;
  votes_cast : list (Z * votequorum_ring_id_t)
}.

Definition set_net (v : qdevice_net_instance) (q : qdevice_instance) : qdevice_instance :=
  let '(mk_qdevice _ f1 f2 f3 f4 f5 f6 f7 f8 f9 f10 f11 f12 f13 f14 f15 f16 f17 f18 f19 f20 f21 f22
    f23 f24 f25) := q in
  mk_qdevice v f1 f2 f3 f4 f5 f6 f7 f8 f9 f10 f11 f12 f13 f14 f15 f16 f17 f18 f19 f20 f21 f22
    f23 f24 f25.
Definition set_config_node_list (v : node_list) (q : qdevice_instance) : qdevice_instance :=
  let '(mk_qdevice f0 _ f2 f3 f4 f5 f6 f7 f8 f9 f10 f11 f12 f13 f14 f15 f16 f17 f18 f19 f20 f21 f22
    f23 f24 f25) := q in
  mk_qdevice f0 v f2 f3 f4 f5 f6 f7 f8 f9 f10 f11 f12 f13 f14 f15 f16 f17 f18 f19 f20 f21 f22
    f23 f24 f25.
Definition set_config_node_list_version (v : option Z) (q : qdevice_instance) : qdevice_instance :=
  let '(mk_qdevice f0 f1 _ f3 f4 f5 f6 f7 f8 f9 f10 f11 f12 f13 f14 f15 f16 f17 f18 f19 f20 f21 f22
    f23 f24 f25) := q in
  mk_qdevice f0 f1 v f3 f4 f5 f6 f7 f8 f9 f10 f11 f12 f13 f14 f15 f16 f17 f18 f19 f20 f21 f22
    f23 f24 f25.
Definition set_vq_quorum_quorate (v : Z) (q : qdevice_instance) : qdevice_instance :=
  let '(mk_qdevice f0 f1 f2 _ f4 f5 f6 f7 f8 f9 f10 f11 f12 f13 f14 f15 f16 f17 f18 f19 f20 f21 f22
    f23 f24 f25) := q in
  mk_qdevice f0 f1 f2 v f4 f5 f6 f7 f8 f9 f10 f11 f12 f13 f14 f15 f16 f17 f18 f19 f20 f21 f22
    f23 f24 f25.
Definition set_vq_quorum_node_list (v : list votequorum_node_t) (q : qdevice_instance) : qdevice_instance :=
  let '(mk_qdevice f0 f1 f2 f3 _ f5 f6 f7 f8 f9 f10 f11 f12 f13 f14 f15 f16 f17 f18 f19 f20 f21 f22
    f23 f24 f25) := q in
  mk_qdevice f0 f1 f2 f3 v f5 f6 f7 f8 f9 f10 f11 f12 f13 f14 f15 f16 f17 f18 f19 f20 f21 f22
    f23 f24 f25.
Definition set_vq_node_list_initial_ring_id_set (v : bool) (q : qdevice_instance) : qdevice_instance :=
  let '(mk_qdevice f0 f1 f2 f3 f4 _ f6 f7 f8 f9 f10 f11 f12 f13 f14 f15 f16 f17 f18 f19 f20 f21 f22
    f23 f24 f25) := q in
  mk_qdevice f0 f1 f2 f3 f4 v f6 f7 f8 f9 f10 f11 f12 f13 f14 f15 f16 f17 f18 f19 f20 f21 f22
    f23 f24 f25.
Definition set_vq_node_list_ring_id (v : votequorum_ring_id_t) (q : qdevice_instance) : qdevice_instance :=
  let '(mk_qdevice f0 f1 f2 f3 f4 f5 _ f7 f8 f9 f10 f11 f12 f13 f14 f15 f16 f17 f18 f19 f20 f21 f22
    f23 f24 f25) := q in
  mk_qdevice f0 f1 f2 f3 f4 f5 v f7 f8 f9 f10 f11 f12 f13 f14 f15 f16 f17 f18 f19 f20 f21 f22
    f23 f24 f25.
Definition set_vq_node_list (v : list Z) (q : qdevice_instance) : qdevice_instance :=
  let '(mk_qdevice f0 f1 f2 f3 f4 f5 f6 _ f8 f9 f10 f11 f12 f13 f14 f15 f16 f17 f18 f19 f20 f21 f22
    f23 f24 f25) := q in
  mk_qdevice f0 f1 f2 f3 f4 f5 f6 v f8 f9 f10 f11 f12 f13 f14 f15 f16 f17 f18 f19 f20 f21 f22
    f23 f24 f25.
Definition set_vq_node_list_initial_heuristics_finished (v : bool) (q : qdevice_instance) : qdevice_instance :=
  let '(mk_qdevice f0 f1 f2 f3 f4 f5 f6 f7 _ f9 f10 f11 f12 f13 f14 f15 f16 f17 f18 f19 f20 f21 f22
    f23 f24 f25) := q in
  mk_qdevice f0 f1 f2 f3 f4 f5 f6 f7 v f9 f10 f11 f12 f13 f14 f15 f16 f17 f18 f19 f20 f21 f22
    f23 f24 f25.
Definition set_vq_node_list_heuristics_result (v : Z) (q : qdevice_instance) : qdevice_instance :=
  let '(mk_qdevice f0 f1 f2 f3 f4 f5 f6 f7 f8 _ f10 f11 f12 f13 f14 f15 f16 f17 f18 f19 f20 f21 f22
    f23 f24 f25) := q in
  mk_qdevice f0 f1 f2 f3 f4 f5 f6 f7 f8 v f10 f11 f12 f13 f14 f15 f16 f17 f18 f19 f20 f21 f22
    f23 f24 f25.
Definition set_vq_poll_ring_id (v : votequorum_ring_id_t) (q : qdevice_instance) : qdevice_instance :=
  let '(mk_qdevice f0 f1 f2 f3 f4 f5 f6 f7 f8 f9 _ f11 f12 f13 f14 f15 f16 f17 f18 f19 f20 f21 f22
    f23 f24 f25) := q in
  mk_qdevice f0 f1 f2 f3 f4 f5 f6 f7 f8 f9 v f11 f12 f13 f14 f15 f16 f17 f18 f19 f20 f21 f22
    f23 f24 f25.
Definition set_vq_expected_votes (v : Z) (q : qdevice_instance) : qdevice_instance :=
  let '(mk_qdevice f0 f1 f2 f3 f4 f5 f6 f7 f8 f9 f10 _ f12 f13 f14 f15 f16 f17 f18 f19 f20 f21 f22
    f23 f24 f25) := q in
  mk_qdevice f0 f1 f2 f3 f4 f5 f6 f7 f8 f9 f10 v f12 f13 f14 f15 f16 f17 f18 f19 f20 f21 f22
    f23 f24 f25.
Definition set_vq_last_poll (v : Z) (q : qdevice_instance) : qdevice_instance :=
  let '(mk_qdevice f0 f1 f2 f3 f4 f5 f6 f7 f8 f9 f10 f11 _ f13 f14 f15 f16 f17 f18 f19 f20 f21 f22
    f23 f24 f25) := q in
  mk_qdevice f0 f1 f2 f3 f4 f5 f6 f7 f8 f9 f10 f11 v f13 f14 f15 f16 f17 f18 f19 f20 f21 f22
    f23 f24 f25.
Definition set_vq_last_poll_cast_vote (v : Z) (q : qdevice_instance) : qdevice_instance :=
  let '(mk_qdevice f0 f1 f2 f3 f4 f5 f6 f7 f8 f9 f10 f11 f12 _ f14 f15 f16 f17 f18 f19 f20 f21 f22
    f23 f24 f25) := q in
  mk_qdevice f0 f1 f2 f3 f4 f5 f6 f7 f8 f9 f10 f11 f12 v f14 f15 f16 f17 f18 f19 f20 f21 f22
    f23 f24 f25.
Definition set_sync_in_progress (v : bool) (q : qdevice_instance) : qdevice_instance :=
  let '(mk_qdevice f0 f1 f2 f3 f4 f5 f6 f7 f8 f9 f10 f11 f12 f13 _ f15 f16 f17 f18 f19 f20 f21 f22
    f23 f24 f25) := q in
  mk_qdevice f0 f1 f2 f3 f4 f5 f6 f7 f8 f9 f10 f11 f12 f13 v f15 f16 f17 f18 f19 f20 f21 f22
    f23 f24 f25.
Definition set_cmap_reload_in_progress (v : bool) (q : qdevice_instance) : qdevice_instance :=
  let '(mk_qdevice f0 f1 f2 f3 f4 f5 f6 f7 f8 f9 f10 f11 f12 f13 f14 _ f16 f17 f18 f19 f20 f21 f22
    f23 f24 f25) := q in
  mk_qdevice f0 f1 f2 f3 f4 f5 f6 f7 f8 f9 f10 f11 f12 f13 f14 v f16 f17 f18 f19 f20 f21 f22
    f23 f24 f25.
Definition set_votequorum_closed (v : bool) (q : qdevice_instance) : qdevice_instance :=
  let '(mk_qdevice f0 f1 f2 f3 f4 f5 f6 f7 f8 f9 f10 f11 f12 f13 f14 f15 _ f17 f18 f19 f20 f21 f22
    f23 f24 f25) := q in
  mk_qdevice f0 f1 f2 f3 f4 f5 f6 f7 f8 f9 f10 f11 f12 f13 f14 f15 v f17 f18 f19 f20 f21 f22
    f23 f24 f25.
Definition set_cmap_closed (v : bool) (q : qdevice_instance) : qdevice_instance :=
  let '(mk_qdevice f0 f1 f2 f3 f4 f5 f6 f7 f8 f9 f10 f11 f12 f13 f14 f15 f16 _ f18 f19 f20 f21 f22
    f23 f24 f25) := q in
  mk_qdevice f0 f1 f2 f3 f4 f5 f6 f7 f8 f9 f10 f11 f12 f13 f14 f15 f16 v f18 f19 f20 f21 f22
    f23 f24 f25.
Definition set_heuristics_closed (v : bool) (q : qdevice_instance) : qdevice_instance :=
  let '(mk_qdevice f0 f1 f2 f3 f4 f5 f6 f7 f8 f9 f10 f11 f12 f13 f14 f15 f16 f17 _ f19 f20 f21 f22
    f23 f24 f25) := q in
  mk_qdevice f0 f1 f2 f3 f4 f5 f6 f7 f8 f9 f10 f11 f12 f13 f14 f15 f16 f17 v f19 f20 f21 f22
    f23 f24 f25.
Definition set_heuristics_instance (v : qdevice_heuristics_instance qdevice_heuristics_callback) (q : qdevice_instance) : qdevice_instance :=
  let '(mk_qdevice f0 f1 f2 f3 f4 f5 f6 f7 f8 f9 f10 f11 f12 f13 f14 f15 f16 f17 f18 _ f20 f21 f22
    f23 f24 f25) := q in
  mk_qdevice f0 f1 f2 f3 f4 f5 f6 f7 f8 f9 f10 f11 f12 f13 f14 f15 f16 f17 f18 v f20 f21 f22
    f23 f24 f25.
Definition set_polled_sockets (v : list nat) (q : qdevice_instance) : qdevice_instance :=
  let '(mk_qdevice f0 f1 f2 f3 f4 f5 f6 f7 f8 f9 f10 f11 f12 f13 f14 f15 f16 f17 f18 f19 _ f21 f22
    f23 f24 f25) := q in
  mk_qdevice f0 f1 f2 f3 f4 f5 f6 f7 f8 f9 f10 f11 f12 f13 f14 f15 f16 f17 f18 f19 v f21 f22
    f23 f24 f25.
Definition set_pre_poll_cb_registered (v : bool) (q : qdevice_instance) : qdevice_instance :=
  let '(mk_qdevice f0 f1 f2 f3 f4 f5 f6 f7 f8 f9 f10 f11 f12 f13 f14 f15 f16 f17 f18 f19 f20 _ f22
    f23 f24 f25) := q in
  mk_qdevice f0 f1 f2 f3 f4 f5 f6 f7 f8 f9 f10 f11 f12 f13 f14 f15 f16 f17 f18 f19 f20 v f22
    f23 f24 f25.
Definition set_main_timers (v : T) (q : qdevice_instance) : qdevice_instance :=
  let '(mk_qdevice f0 f1 f2 f3 f4 f5 f6 f7 f8 f9 f10 f11 f12 f13 f14 f15 f16 f17 f18 f19 f20 f21 _
    f23 f24 f25) := q in
  mk_qdevice f0 f1 f2 f3 f4 f5 f6 f7 f8 f9 f10 f11 f12 f13 f14 f15 f16 f17 f18 f19 f20 f21 v
    f23 f24 f25.
Definition set_main_heap (v : heap) (q : qdevice_instance) : qdevice_instance :=
  let '(mk_qdevice f0 f1 f2 f3 f4 f5 f6 f7 f8 f9 f10 f11 f12 f13 f14 f15 f16 f17 f18 f19 f20 f21
    f22 _ f24 f25) := q in
  mk_qdevice f0 f1 f2 f3 f4 f5 f6 f7 f8 f9 f10 f11 f12 f13 f14 f15 f16 f17 f18 f19 f20 f21
    f22 v f24 f25.
Definition set_environment (v : E) (q : qdevice_instance) : qdevice_instance :=
  let '(mk_qdevice f0 f1 f2 f3 f4 f5 f6 f7 f8 f9 f10 f11 f12 f13 f14 f15 f16 f17 f18 f19 f20 f21
    f22 f23 _ f25) := q in
  mk_qdevice f0 f1 f2 f3 f4 f5 f6 f7 f8 f9 f10 f11 f12 f13 f14 f15 f16 f17 f18 f19 f20 f21
    f22 f23 v f25.
Definition set_votes_cast (v : list (Z * votequorum_ring_id_t)) (q : qdevice_instance) : qdevice_instance :=
  let '(mk_qdevice f0 f1 f2 f3 f4 f5 f6 f7 f8 f9 f10 f11 f12 f13 f14 f15 f16 f17 f18 f19 f20 f21
    f22 f23 f24 _) := q in
  mk_qdevice f0 f1 f2 f3 f4 f5 f6 f7 f8 f9 f10 f11 f12 f13 f14 f15 f16 f17 f18 f19 f20 f21
    f22 f23 f24 v.

Abbreviation device := qdevice_instance.

(** ** Steps on a part of the state *)

Definition get_net : M device qdevice_net_instance := λ q, (Ok (net q), q).
Definition modify_net (f : qdevice_net_instance → qdevice_net_instance) : M device unit :=
  modify (λ q, set_net (f (net q)) q).

Definition on_timers {A} (m : M (T * heap) A) : M device A := λ q,
  let '(r, (t, h)) := m (main_timers q, main_heap q) in (r, set_main_heap h (set_main_timers t q)).

Definition on_heuristics {A}
    (m : M (qdevice_heuristics_instance qdevice_heuristics_callback * heap) A) : M device A := λ q,
  let '(r, (i, h)) := m (heuristics_instance q, main_heap q) in
  (r, set_main_heap h (set_heuristics_instance i q)).

Definition on_environment {A} (op : E → A * E) : M device A := λ q,
  let '(a, e) := op (environment q) in (Ok a, set_environment e q).

Definition malloc_device : M device alloc_outcome := λ q,
  let '(o, h) := malloc (main_heap q) in (Ok o, set_main_heap h q).

(** [instance->disconnect_reason = reason], with [instance->schedule_disconnect = 1] or not. *)
Definition disconnect_because (reason : qdevice_net_disconnect_reason) : M device unit :=
  modify_net (set_disconnect_reason reason).
Definition schedule_disconnect_because (reason : qdevice_net_disconnect_reason) : M device unit :=
  modify_net (λ i, set_schedule_disconnect true (set_disconnect_reason reason i)).

(** [return (-1)] after a reason to disconnect. *)
Definition fail_because (reason : qdevice_net_disconnect_reason) : M device Z :=
  disconnect_because reason;; mret (-1).

(** Delete a timer the instance has a handle of, and forget the handle. *)
Definition delete_timer (handle : qdevice_net_instance → option nat)
    (set_handle : option nat → qdevice_net_instance → qdevice_net_instance) : M device unit :=
  i ← get_net;
  match handle i with
  | None => mret tt
  | Some p => on_timers (timer_delete p);; modify_net (set_handle None)
  end.

(** ** Starting, and getting ready for the next connection *)

Definition qdevice_net_instance_init (s : qdevice_settings) : qdevice_net_instance := {|
  receive_buffer := dynar_init (net_initial_msg_receive_size s);
  net_send_buffer_list := send_buffer_list_init (net_max_send_buffers s) (net_initial_msg_send_size s);
  net_skipping_msg := false;
  msg_already_received_bytes := 0;
  state := QDEVICE_NET_INSTANCE_STATE_WAITING_CONNECT;
  last_msg_seq_num := 1;
  echo_request_expected_msg_seq_num := 1;
  echo_reply_received_msg_seq_num := 1;
  using_tls := false;
  cast_vote_timer := None;
  cast_vote_timer_vote := TLV_VOTE_UNDEFINED;
  cast_vote_timer_paused := false;
  echo_request_timer := None;
  schedule_disconnect := false;
  last_sent_ring_id := mk_ring_id 0 0;
  algorithm_data := None;
  disconnect_reason := QDEVICE_NET_DISCONNECT_REASON_UNDEFINED;
  net_socket := None;
  non_blocking_client := mk_nb_client PR_AF_UNSPEC [] None 0 false;
  connect_timer := None;
  last_echo_reply_received_time := -1;
  connected_since_time := -1;
  regular_heuristics_timer := None;
  server_supports_heuristics := false;
  server_supports_keep_active_partition_tie_breaker := false;
  latest_regular_heuristics_result := TLV_HEURISTICS_UNDEFINED;
  latest_connect_heuristics_result := TLV_HEURISTICS_UNDEFINED;
  latest_vq_heuristics_result := TLV_HEURISTICS_UNDEFINED;
  latest_heuristics_result := TLV_HEURISTICS_UNDEFINED
|}.

Definition qdevice_net_instance_clean (i : qdevice_net_instance) : qdevice_net_instance :=
  set_connected_since_time (-1)
    (set_last_echo_reply_received_time (-1)
      (set_disconnect_reason QDEVICE_NET_DISCONNECT_REASON_UNDEFINED
        (set_schedule_disconnect false
          (set_state QDEVICE_NET_INSTANCE_STATE_WAITING_CONNECT
            (set_using_tls false
              (set_echo_request_expected_msg_seq_num (echo_reply_received_msg_seq_num i)
                (set_msg_already_received_bytes 0
                  (set_net_skipping_msg false
                    (set_net_send_buffer_list (send_buffer_list_free (net_send_buffer_list i))
                      (set_receive_buffer (dynar_clean (receive_buffer i)) i)))))))))).
End instance.
Arguments qdevice_instance T E : clear implicits.

