(* ===== verification/QdeviceSend.v ===== *)
(** What the device sends to the server (qdevice-net-send.c), and the vote it casts: the call of
    votequorum (qdevice_votequorum_poll) and the timer that repeats it
    (qdevice-net-cast-vote-timer.c). *)
From stdpp Require Import strings.
From S2P Require Import Prelude Dynar Tlv NodeList Msg SendBuffer DynarStr Heuristics.
From stdpp Require Import list gmap.
From S2P Require Import TimerList TimerInterface QdeviceInstance.
Local Open Scope Z_scope.

Section send.
Context {T E : Type} `{TimerOps qdevice_timer T} `{Environment E}.
Abbreviation device := (qdevice_instance T E).
Context (settings : qdevice_settings).

(** ** Votequorum's data on the wire (qdevice-net-votequorum.c) *)

Definition qdevice_net_votequorum_node_state_to_tlv (votequorum_node_state : votequorum_nodestate) :
    res tlv_node_state :=
  match votequorum_node_state with
  | VOTEQUORUM_NODESTATE_MEMBER => Ok TLV_NODE_STATE_MEMBER
  | VOTEQUORUM_NODESTATE_DEAD => Ok TLV_NODE_STATE_DEAD
  | VOTEQUORUM_NODESTATE_LEAVING => Ok TLV_NODE_STATE_LEAVING
  | VOTEQUORUM_NODESTATE_OTHER => Err EXIT
  end.

Definition qdevice_net_votequorum_ring_id_to_tlv (votequorum_rid : votequorum_ring_id_t) : tlv_ring_id :=
  mk_ring_id (vq_nodeid votequorum_rid) (vq_seq votequorum_rid).

(** ** Messages *)

(** Take a buffer, change the instance, create the message from it in the buffer, queue the
    buffer or give it back; [-1] when there is no buffer or the message does not fit. *)
Definition send_message (before : qdevice_net_instance → qdevice_net_instance)
    (create : qdevice_net_instance → dynar * heap → Z * (dynar * heap)) : M device Z :=
  i ← get_net;
  q ← get;
  let '(o, (l, h)) := send_buffer_list_get_new (net_send_buffer_list i) (main_heap q) in
  modify (set_main_heap h);;
  modify_net (set_net_send_buffer_list l);;
  match o with
  | None => mret (-1)
  | Some send_buffer =>
      modify_net before;;
      i ← get_net;
      let '(sz, (buffer, h')) := create i (sb_buffer send_buffer, h) in
      let send_buffer' := mk_sbe buffer (msg_already_sent_bytes send_buffer) in
      modify (set_main_heap h');;
      if sz =? 0 then
        modify_net (λ i, set_net_send_buffer_list
          (send_buffer_list_discard_new send_buffer' (net_send_buffer_list i)) i);;
        mret (-1)
      else
        modify_net (λ i, set_net_send_buffer_list
          (send_buffer_list_put send_buffer' (net_send_buffer_list i)) i);;
        mret 0
  end.

(** [instance->last_msg_seq_num++] *)
Definition next_msg_seq_num (i : qdevice_net_instance) : qdevice_net_instance :=
  set_last_msg_seq_num (u32 (last_msg_seq_num i + 1)) i.

Definition qdevice_net_send_echo_request : M device Z :=
  send_message
    (λ i, set_echo_request_expected_msg_seq_num (u32 (echo_request_expected_msg_seq_num i + 1)) i)
    (λ i, msg_create_echo_request true (echo_request_expected_msg_seq_num i)).

Definition qdevice_net_send_preinit : M device Z :=
  r ← send_message id (λ i, msg_create_preinit (cfg_cluster_name settings) true (last_msg_seq_num i));
  if negb (r =? 0) then mret (-1)
  else modify_net (set_state QDEVICE_NET_INSTANCE_STATE_WAITING_PREINIT_REPLY);; mret 0.

Definition qdevice_net_send_init : M device Z :=
  modify_net next_msg_seq_num;;
  q ← get;
  let tlv_rid := qdevice_net_votequorum_ring_id_to_tlv (vq_node_list_ring_id q) in
  r ← send_message id (λ i, msg_create_init true (last_msg_seq_num i) (cfg_decision_algorithm settings)
        (Some msg_get_supported_messages) (Some tlv_get_supported_options) (cfg_node_id settings)
        (cfg_heartbeat_interval settings) (cfg_tie_breaker settings) tlv_rid);
  if negb (r =? 0) then mret (-1)
  else
    modify_net (set_last_sent_ring_id tlv_rid);;
    modify_net (set_state QDEVICE_NET_INSTANCE_STATE_WAITING_INIT_REPLY);;
    mret 0.

Definition qdevice_net_send_ask_for_vote : M device Z :=
  send_message next_msg_seq_num (λ i, msg_create_ask_for_vote (last_msg_seq_num i)).

Definition qdevice_net_send_config_node_list (nlist : node_list) (config_version : option Z)
    (initial : bool) : M device Z :=
  send_message next_msg_seq_num (λ i, msg_create_node_list (last_msg_seq_num i)
    (if initial then TLV_NODE_LIST_TYPE_INITIAL_CONFIG else TLV_NODE_LIST_TYPE_CHANGED_CONFIG)
    false (mk_ring_id 0 0)
    (match config_version with Some _ => true | None => false end) (default 0 config_version)
    false TLV_QUORATE_INQUORATE false TLV_HEURISTICS_UNDEFINED nlist).

Definition qdevice_net_send_heuristics_change (heuristics : tlv_heuristics) : M device Z :=
  send_message next_msg_seq_num (λ i, msg_create_heuristics_change (last_msg_seq_num i) heuristics).

(** Build a node list on the side; its allocations are the device's. *)
Definition build_node_list (m : M (node_list * heap) unit) : M device (option node_list) := λ q,
  match m (node_list_init, main_heap q) with
  | (Ok _, (nlist, h)) => (Ok (Some nlist), set_main_heap h q)
  | (Err c, (_, h)) =>
      (if c =? EXIT then Err EXIT else Ok None, set_main_heap h q)
  end.

Fixpoint add_membership_nodes (node_list : list Z) : M (NodeList.node_list * heap) unit :=
  match node_list with
  | [] => mret tt
  | nodeid :: node_list' =>
      node_list_add nodeid 0 TLV_NODE_STATE_NOT_SET;;
      add_membership_nodes node_list'
  end.

Definition qdevice_net_send_membership_node_list (ring_id : tlv_ring_id) (node_list : list Z)
    (heuristics : tlv_heuristics) : M device Z :=
  nlist ← build_node_list (add_membership_nodes node_list);
  match nlist with
  | None => mret (-1)
  | Some nlist =>
      r ← send_message next_msg_seq_num (λ i, msg_create_node_list (last_msg_seq_num i)
            TLV_NODE_LIST_TYPE_MEMBERSHIP true ring_id false 0 false TLV_QUORATE_INQUORATE
            true heuristics nlist);
      if negb (r =? 0) then mret (-1)
      else modify_net (set_last_sent_ring_id ring_id);; mret 0
  end.

Fixpoint add_quorum_nodes (node_list : list votequorum_node_t) : M (NodeList.node_list * heap) unit :=
  match node_list with
  | [] => mret tt
  | node :: node_list' =>
      if vqn_nodeid node =? 0 then add_quorum_nodes node_list'
      else
        match qdevice_net_votequorum_node_state_to_tlv (vqn_state node) with
        | Err c => fail c
        | Ok node_state =>
            node_list_add (vqn_nodeid node) 0 node_state;;
            add_quorum_nodes node_list'
        end
  end.

Definition qdevice_net_send_quorum_node_list (quorate : tlv_quorate)
    (node_list : list votequorum_node_t) : M device Z :=
  nlist ← build_node_list (add_quorum_nodes node_list);
  match nlist with
  | None => mret (-1)
  | Some nlist =>
      send_message next_msg_seq_num (λ i, msg_create_node_list (last_msg_seq_num i)
        TLV_NODE_LIST_TYPE_QUORUM false (mk_ring_id 0 0) false 0 true quorate
        false TLV_HEURISTICS_UNDEFINED nlist)
  end.

Definition qdevice_net_send_set_option (add_heartbeat_interval : bool) (heartbeat_interval : Z)
    (add_keep_active_partition_tie_breaker : bool)
    (keep_active_partition_tie_breaker : tlv_keep_active_partition_tie_breaker) : M device Z :=
  send_message next_msg_seq_num (λ i, msg_create_set_option true (last_msg_seq_num i)
    add_heartbeat_interval heartbeat_interval
    add_keep_active_partition_tie_breaker keep_active_partition_tie_breaker).

(** ** Casting the vote *)

Definition qdevice_votequorum_poll (cast_vote : Z) : M device Z :=
  now ← on_environment env_time;
  modify (λ q, set_vq_last_poll_cast_vote cast_vote (set_vq_last_poll now q));;
  q ← get;
  res ← on_environment (votequorum_qdevice_poll cast_vote (vq_poll_ring_id q));
  modify (λ q, set_votes_cast ((cast_vote, vq_poll_ring_id q) :: votes_cast q) q);;
  mret (if negb (bool_decide (res = CS_OK)) && negb (bool_decide (res = CS_ERR_TRY_AGAIN)) &&
           negb (bool_decide (res = CS_ERR_MESSAGE_ERROR)) then -1 else 0).

Definition qdevice_net_cast_vote_timer_callback : M device Z :=
  i ← get_net;
  if cast_vote_timer_paused i then mret (-1)
  else
    let cast_vote := match cast_vote_timer_vote i with
                     | TLV_VOTE_ACK => Some 1
                     | TLV_VOTE_NACK => Some 0
                     | _ => None
                     end in
    match cast_vote with
    | None => fail EXIT
    | Some cast_vote =>
        r ← qdevice_votequorum_poll cast_vote;
        if negb (r =? 0) then
          schedule_disconnect_because QDEVICE_NET_DISCONNECT_REASON_CANT_SCHEDULE_VOTING_TIMER;;
          modify_net (set_cast_vote_timer None);;
          mret 0
        else mret (-1)
    end.

Definition qdevice_net_cast_vote_timer_update (vote : tlv_vote) : M device Z :=
  match vote with
  | TLV_VOTE_UNDEFINED => fail EXIT
  | TLV_VOTE_NO_CHANGE => mret 0
  | TLV_VOTE_ACK | TLV_VOTE_NACK =>
      modify_net (set_cast_vote_timer_vote vote);;
      i ← get_net;
      ok ← (match cast_vote_timer i with
            | None =>
                p ← on_timers (timer_add (cfg_cast_vote_timer_interval settings) CAST_VOTE_TIMER);
                modify_net (set_cast_vote_timer p);;
                mret (match p with None => false | Some _ => true end)
            | Some _ => mret true
            end);
      if negb ok then mret (-1)
      else
        r ← qdevice_net_cast_vote_timer_callback;
        mret (if negb (r =? -1) then -1 else 0)
  | TLV_VOTE_WAIT_FOR_REPLY | TLV_VOTE_ASK_LATER =>
      modify_net (set_cast_vote_timer_vote vote);;
      delete_timer cast_vote_timer set_cast_vote_timer;;
      mret 0
  end.

Definition qdevice_net_cast_vote_timer_set_paused (paused : bool) : M device unit :=
  i ← get_net;
  if negb (Bool.eqb paused (cast_vote_timer_paused i))
  then modify_net (set_cast_vote_timer_paused paused) else mret tt.
End send.
