(* ===== verification/QdeviceAlgorithm.v ===== *)
(** The decision algorithms on the device's side (qdevice-net-algo-*.c) and the table they are
    called through (qdevice-net-algorithm.c).

    A handler gets the values behind its pointers and returns them, changed or not, with its
    result. *)
From stdpp Require Import strings.
From S2P Require Import Prelude Dynar Tlv NodeList SendBuffer DynarStr Heuristics.
From stdpp Require Import list gmap.
From S2P Require Import TimerList TimerInterface QdeviceInstance QdeviceSend.
Local Open Scope Z_scope.

Section algorithms.
Context {T E : Type} `{TimerOps qdevice_timer T} `{Environment E}.
Abbreviation device := (qdevice_instance T E).
Context (settings : qdevice_settings).

(** The heuristics, whether to send the configuration, membership and quorum list, the vote. *)
Definition connected_io : Type := tlv_heuristics * bool * bool * bool * tlv_vote.

Record qdevice_net_algorithm := mk_algorithm {
  algo_init : M device Z;
  algo_connected : connected_io → M device (Z * connected_io);
  algo_config_node_list_changed :
    node_list → option Z → (bool * tlv_vote) → M device (Z * (bool * tlv_vote));
  algo_votequorum_node_list_notify :
    tlv_ring_id → list Z → (bool * tlv_vote) → M device (Z * (bool * tlv_vote));
  algo_votequorum_node_list_heuristics_notify :
    tlv_ring_id → list Z → (bool * tlv_vote * tlv_heuristics) →
    M device (Z * (bool * tlv_vote * tlv_heuristics));
  algo_votequorum_quorum_notify :
    Z → list votequorum_node_t → (bool * tlv_vote) → M device (Z * (bool * tlv_vote));
  algo_votequorum_expected_votes_notify : Z → tlv_vote → M device (Z * tlv_vote);
  algo_config_node_list_reply_received :
    Z → bool → tlv_ring_id → bool → tlv_vote → M device (Z * tlv_vote);
  algo_membership_node_list_reply_received :
    Z → tlv_ring_id → bool → tlv_vote → M device (Z * tlv_vote);
  algo_quorum_node_list_reply_received :
    Z → tlv_ring_id → bool → tlv_vote → M device (Z * tlv_vote);
  algo_ask_for_vote_reply_received :
    Z → tlv_ring_id → bool → tlv_vote → M device (Z * tlv_vote);
  algo_vote_info_received : Z → tlv_ring_id → bool → tlv_vote → M device (Z * tlv_vote);
  algo_echo_reply_received : Z → bool → M device Z;
  algo_echo_reply_not_received : M device Z;
  algo_heuristics_change :
    (tlv_heuristics * bool * tlv_vote) → M device (Z * (tlv_heuristics * bool * tlv_vote));
  algo_heuristics_change_reply_received :
    Z → tlv_ring_id → bool → tlv_heuristics → tlv_vote → M device (Z * tlv_vote);
  algo_disconnected :
    qdevice_net_disconnect_reason → (bool * tlv_vote) → M device (Z * (bool * tlv_vote));
  algo_destroy : M device unit
}.

(** A reply for an old ring changes nothing. *)
Definition vote_if (ring_id_is_valid : bool) (vote : tlv_vote) : tlv_vote :=
  if negb ring_id_is_valid then TLV_VOTE_NO_CHANGE else vote.

(** ** Test (qdevice-net-algo-test.c) *)

Definition qdevice_net_algo_test_init : M device Z :=
  modify_net (set_algorithm_data None);; mret 0.
Definition qdevice_net_algo_test_connected (io : connected_io) : M device (Z * connected_io) :=
  mret (0, io).
Definition qdevice_net_algo_test_config_node_list_changed (nlist : node_list)
    (config_version : option Z) (io : bool * tlv_vote) : M device (Z * (bool * tlv_vote)) :=
  mret (0, io).
Definition qdevice_net_algo_test_votequorum_node_list_notify (ring_id : tlv_ring_id)
    (node_list : list Z) (io : bool * tlv_vote) : M device (Z * (bool * tlv_vote)) :=
  mret (0, io).
Definition qdevice_net_algo_test_votequorum_node_list_heuristics_notify (ring_id : tlv_ring_id)
    (node_list : list Z) (io : bool * tlv_vote * tlv_heuristics)
    : M device (Z * (bool * tlv_vote * tlv_heuristics)) := mret (0, io).
Definition qdevice_net_algo_test_votequorum_quorum_notify (quorate : Z)
    (node_list : list votequorum_node_t) (io : bool * tlv_vote)
    : M device (Z * (bool * tlv_vote)) := mret (0, io).
Definition qdevice_net_algo_test_votequorum_expected_votes_notify (expected_votes : Z)
    (vote : tlv_vote) : M device (Z * tlv_vote) := mret (0, vote).
Definition qdevice_net_algo_test_config_node_list_reply_received (seq_number : Z) (initial : bool)
    (ring_id : tlv_ring_id) (ring_id_is_valid : bool) (vote : tlv_vote)
    : M device (Z * tlv_vote) :=
  mret (0, vote_if ring_id_is_valid vote).
Definition qdevice_net_algo_test_membership_node_list_reply_received (seq_number : Z)
    (ring_id : tlv_ring_id) (ring_id_is_valid : bool) (vote : tlv_vote)
    : M device (Z * tlv_vote) :=
  mret (0, vote_if ring_id_is_valid vote).
Definition qdevice_net_algo_test_quorum_node_list_reply_received (seq_number : Z)
    (ring_id : tlv_ring_id) (ring_id_is_valid : bool) (vote : tlv_vote)
    : M device (Z * tlv_vote) :=
  mret (0, vote_if ring_id_is_valid vote).
Definition qdevice_net_algo_test_ask_for_vote_reply_received (seq_number : Z)
    (ring_id : tlv_ring_id) (ring_id_is_valid : bool) (vote : tlv_vote)
    : M device (Z * tlv_vote) :=
  mret (0, vote_if ring_id_is_valid vote).
Definition qdevice_net_algo_test_vote_info_received (seq_number : Z) (ring_id : tlv_ring_id)
    (ring_id_is_valid : bool) (vote : tlv_vote) : M device (Z * tlv_vote) :=
  mret (0, vote_if ring_id_is_valid vote).
Definition qdevice_net_algo_test_echo_reply_received (seq_number : Z)
    (is_expected_seq_number : bool) : M device Z :=
  mret (if is_expected_seq_number then 0 else -1).
Definition qdevice_net_algo_test_echo_reply_not_received : M device Z := mret (-1).
Definition qdevice_net_algo_test_heuristics_change (io : tlv_heuristics * bool * tlv_vote)
    : M device (Z * (tlv_heuristics * bool * tlv_vote)) := mret (0, io).
Definition qdevice_net_algo_test_heuristics_change_reply_received (seq_number : Z)
    (ring_id : tlv_ring_id) (ring_id_is_valid : bool) (heuristics : tlv_heuristics)
    (vote : tlv_vote) : M device (Z * tlv_vote) :=
  mret (0, vote_if ring_id_is_valid vote).
Definition qdevice_net_algo_test_disconnected (disconnect_reason : qdevice_net_disconnect_reason)
    (io : bool * tlv_vote) : M device (Z * (bool * tlv_vote)) := mret (0, io).
Definition qdevice_net_algo_test_destroy : M device unit := mret tt.

Definition qdevice_net_algo_test : qdevice_net_algorithm := {|
  algo_init := qdevice_net_algo_test_init;
  algo_connected := qdevice_net_algo_test_connected;
  algo_config_node_list_changed := qdevice_net_algo_test_config_node_list_changed;
  algo_votequorum_node_list_notify := qdevice_net_algo_test_votequorum_node_list_notify;
  algo_votequorum_node_list_heuristics_notify := qdevice_net_algo_test_votequorum_node_list_heuristics_notify;
  algo_votequorum_quorum_notify := qdevice_net_algo_test_votequorum_quorum_notify;
  algo_votequorum_expected_votes_notify := qdevice_net_algo_test_votequorum_expected_votes_notify;
  algo_config_node_list_reply_received := qdevice_net_algo_test_config_node_list_reply_received;
  algo_membership_node_list_reply_received := qdevice_net_algo_test_membership_node_list_reply_received;
  algo_quorum_node_list_reply_received := qdevice_net_algo_test_quorum_node_list_reply_received;
  algo_ask_for_vote_reply_received := qdevice_net_algo_test_ask_for_vote_reply_received;
  algo_vote_info_received := qdevice_net_algo_test_vote_info_received;
  algo_echo_reply_received := qdevice_net_algo_test_echo_reply_received;
  algo_echo_reply_not_received := qdevice_net_algo_test_echo_reply_not_received;
  algo_heuristics_change := qdevice_net_algo_test_heuristics_change;
  algo_heuristics_change_reply_received := qdevice_net_algo_test_heuristics_change_reply_received;
  algo_disconnected := qdevice_net_algo_test_disconnected;
  algo_destroy := qdevice_net_algo_test_destroy
|}.

(** ** Fifty-fifty split (qdevice-net-algo-ffsplit.c) *)

Fixpoint check_vqinfo_loop (nlist : node_list) : M device Z :=
  match nlist with
  | [] => mret 0
  | node :: nlist' =>
      '(cs_res, node_votes, qdevice_votes) ← on_environment (votequorum_getinfo (node_id node));
      if bool_decide (cs_res = CS_ERR_NOT_EXIST) then check_vqinfo_loop nlist'
      else if negb (bool_decide (cs_res = CS_OK)) then mret (-1)
      else if negb (node_votes =? 1) then mret (-1)
      else if negb (qdevice_votes =? 1) then mret (-1)
      else check_vqinfo_loop nlist'
  end.

Definition check_vqinfo_validity : M device Z :=
  q ← get; check_vqinfo_loop (config_node_list q).

Definition check_cmap_validity : M device Z :=
  qdevice_votes ← on_environment (cmap_get_uint32 (str "quorum.device.votes"));
  mret (match qdevice_votes with (CS_OK, 1) => 0 | _ => -1 end).

Definition qdevice_net_algo_ffsplit_init : M device Z :=
  r ← check_cmap_validity;
  if negb (r =? 0) then mret (-1)
  else
    r ← check_vqinfo_validity;
    mret (if negb (r =? 0) then -1 else 0).
Definition qdevice_net_algo_ffsplit_connected (io : connected_io) : M device (Z * connected_io) :=
  mret (0, io).
Definition qdevice_net_algo_ffsplit_config_node_list_changed (nlist : node_list)
    (config_version : option Z) (io : bool * tlv_vote) : M device (Z * (bool * tlv_vote)) :=
  r ← check_vqinfo_validity; mret (if negb (r =? 0) then -1 else 0, io).
Definition qdevice_net_algo_ffsplit_votequorum_node_list_notify (ring_id : tlv_ring_id)
    (node_list : list Z) (io : bool * tlv_vote) : M device (Z * (bool * tlv_vote)) :=
  mret (0, io).
Definition qdevice_net_algo_ffsplit_votequorum_node_list_heuristics_notify (ring_id : tlv_ring_id)
    (node_list : list Z) (io : bool * tlv_vote * tlv_heuristics)
    : M device (Z * (bool * tlv_vote * tlv_heuristics)) := mret (0, io).
Definition qdevice_net_algo_ffsplit_votequorum_quorum_notify (quorate : Z)
    (node_list : list votequorum_node_t) (io : bool * tlv_vote)
    : M device (Z * (bool * tlv_vote)) := mret (0, io).
Definition qdevice_net_algo_ffsplit_votequorum_expected_votes_notify (expected_votes : Z)
    (vote : tlv_vote) : M device (Z * tlv_vote) :=
  r ← check_vqinfo_validity; mret (if negb (r =? 0) then -1 else 0, vote).
Definition qdevice_net_algo_ffsplit_config_node_list_reply_received (seq_number : Z)
    (initial : bool) (ring_id : tlv_ring_id) (ring_id_is_valid : bool) (vote : tlv_vote)
    : M device (Z * tlv_vote) :=
  mret (0, vote_if ring_id_is_valid vote).
Definition qdevice_net_algo_ffsplit_membership_node_list_reply_received (seq_number : Z)
    (ring_id : tlv_ring_id) (ring_id_is_valid : bool) (vote : tlv_vote)
    : M device (Z * tlv_vote) :=
  mret (0, vote_if ring_id_is_valid vote).
Definition qdevice_net_algo_ffsplit_quorum_node_list_reply_received (seq_number : Z)
    (ring_id : tlv_ring_id) (ring_id_is_valid : bool) (vote : tlv_vote)
    : M device (Z * tlv_vote) :=
  mret (0, vote_if ring_id_is_valid vote).
Definition qdevice_net_algo_ffsplit_ask_for_vote_reply_received (seq_number : Z)
    (ring_id : tlv_ring_id) (ring_id_is_valid : bool) (vote : tlv_vote)
    : M device (Z * tlv_vote) :=
  mret (0, vote_if ring_id_is_valid vote).
Definition qdevice_net_algo_ffsplit_vote_info_received (seq_number : Z) (ring_id : tlv_ring_id)
    (ring_id_is_valid : bool) (vote : tlv_vote) : M device (Z * tlv_vote) :=
  mret (0, vote_if ring_id_is_valid vote).
Definition qdevice_net_algo_ffsplit_echo_reply_received (seq_number : Z)
    (is_expected_seq_number : bool) : M device Z :=
  mret (if is_expected_seq_number then 0 else -1).
Definition qdevice_net_algo_ffsplit_echo_reply_not_received : M device Z := mret (-1).
Definition qdevice_net_algo_ffsplit_heuristics_change (io : tlv_heuristics * bool * tlv_vote) :
    M device (Z * (tlv_heuristics * bool * tlv_vote)) := mret (0, io).
Definition qdevice_net_algo_ffsplit_heuristics_change_reply_received (seq_number : Z)
    (ring_id : tlv_ring_id) (ring_id_is_valid : bool) (heuristics : tlv_heuristics)
    (vote : tlv_vote) : M device (Z * tlv_vote) :=
  mret (0, vote_if ring_id_is_valid vote).
Definition qdevice_net_algo_ffsplit_disconnected
    (disconnect_reason : qdevice_net_disconnect_reason) (io : bool * tlv_vote)
    : M device (Z * (bool * tlv_vote)) :=
  let '(try_reconnect, _) := io in mret (0, (try_reconnect, TLV_VOTE_NACK)).
Definition qdevice_net_algo_ffsplit_destroy : M device unit := mret tt.

Definition qdevice_net_algo_ffsplit : qdevice_net_algorithm := {|
  algo_init := qdevice_net_algo_ffsplit_init;
  algo_connected := qdevice_net_algo_ffsplit_connected;
  algo_config_node_list_changed := qdevice_net_algo_ffsplit_config_node_list_changed;
  algo_votequorum_node_list_notify := qdevice_net_algo_ffsplit_votequorum_node_list_notify;
  algo_votequorum_node_list_heuristics_notify := qdevice_net_algo_ffsplit_votequorum_node_list_heuristics_notify;
  algo_votequorum_quorum_notify := qdevice_net_algo_ffsplit_votequorum_quorum_notify;
  algo_votequorum_expected_votes_notify := qdevice_net_algo_ffsplit_votequorum_expected_votes_notify;
  algo_config_node_list_reply_received := qdevice_net_algo_ffsplit_config_node_list_reply_received;
  algo_membership_node_list_reply_received := qdevice_net_algo_ffsplit_membership_node_list_reply_received;
  algo_quorum_node_list_reply_received := qdevice_net_algo_ffsplit_quorum_node_list_reply_received;
  algo_ask_for_vote_reply_received := qdevice_net_algo_ffsplit_ask_for_vote_reply_received;
  algo_vote_info_received := qdevice_net_algo_ffsplit_vote_info_received;
  algo_echo_reply_received := qdevice_net_algo_ffsplit_echo_reply_received;
  algo_echo_reply_not_received := qdevice_net_algo_ffsplit_echo_reply_not_received;
  algo_heuristics_change := qdevice_net_algo_ffsplit_heuristics_change;
  algo_heuristics_change_reply_received := qdevice_net_algo_ffsplit_heuristics_change_reply_received;
  algo_disconnected := qdevice_net_algo_ffsplit_disconnected;
  algo_destroy := qdevice_net_algo_ffsplit_destroy
|}.

(** ** Last man standing for two nodes (qdevice-net-algo-2nodelms.c) *)

Definition qdevice_net_algo_2nodelms_init : M device Z := mret 0.
Definition qdevice_net_algo_2nodelms_connected (io : connected_io)
    : M device (Z * connected_io) := mret (0, io).
Definition qdevice_net_algo_2nodelms_config_node_list_changed (nlist : node_list)
    (config_version : option Z) (io : bool * tlv_vote) : M device (Z * (bool * tlv_vote)) :=
  mret (0, io).
Definition qdevice_net_algo_2nodelms_votequorum_node_list_notify (ring_id : tlv_ring_id)
    (node_list : list Z) (io : bool * tlv_vote) : M device (Z * (bool * tlv_vote)) :=
  mret (0, io).
Definition qdevice_net_algo_2nodelms_votequorum_node_list_heuristics_notify
    (ring_id : tlv_ring_id) (node_list : list Z) (io : bool * tlv_vote * tlv_heuristics)
    : M device (Z * (bool * tlv_vote * tlv_heuristics)) := mret (0, io).
Definition qdevice_net_algo_2nodelms_votequorum_quorum_notify (quorate : Z)
    (node_list : list votequorum_node_t) (io : bool * tlv_vote)
    : M device (Z * (bool * tlv_vote)) := mret (0, io).
Definition qdevice_net_algo_2nodelms_votequorum_expected_votes_notify (expected_votes : Z)
    (vote : tlv_vote) : M device (Z * tlv_vote) := mret (0, vote).
Definition qdevice_net_algo_2nodelms_config_node_list_reply_received (seq_number : Z)
    (initial : bool) (ring_id : tlv_ring_id) (ring_id_is_valid : bool) (vote : tlv_vote)
    : M device (Z * tlv_vote) :=
  mret (0, vote_if ring_id_is_valid vote).
Definition qdevice_net_algo_2nodelms_membership_node_list_reply_received (seq_number : Z)
    (ring_id : tlv_ring_id) (ring_id_is_valid : bool) (vote : tlv_vote)
    : M device (Z * tlv_vote) :=
  mret (0, vote_if ring_id_is_valid vote).
Definition qdevice_net_algo_2nodelms_quorum_node_list_reply_received (seq_number : Z)
    (ring_id : tlv_ring_id) (ring_id_is_valid : bool) (vote : tlv_vote)
    : M device (Z * tlv_vote) :=
  mret (0, vote_if ring_id_is_valid vote).
Definition qdevice_net_algo_2nodelms_ask_for_vote_reply_received (seq_number : Z)
    (ring_id : tlv_ring_id) (ring_id_is_valid : bool) (vote : tlv_vote)
    : M device (Z * tlv_vote) :=
  mret (0, vote_if ring_id_is_valid vote).
Definition qdevice_net_algo_2nodelms_vote_info_received (seq_number : Z) (ring_id : tlv_ring_id)
    (ring_id_is_valid : bool) (vote : tlv_vote) : M device (Z * tlv_vote) :=
  mret (0, vote_if ring_id_is_valid vote).
Definition qdevice_net_algo_2nodelms_echo_reply_received (seq_number : Z)
    (is_expected_seq_number : bool) : M device Z :=
  mret (if is_expected_seq_number then 0 else -1).
Definition qdevice_net_algo_2nodelms_echo_reply_not_received : M device Z := mret (-1).
Definition qdevice_net_algo_2nodelms_heuristics_change (io : tlv_heuristics * bool * tlv_vote) :
    M device (Z * (tlv_heuristics * bool * tlv_vote)) := mret (0, io).
Definition qdevice_net_algo_2nodelms_heuristics_change_reply_received (seq_number : Z)
    (ring_id : tlv_ring_id) (ring_id_is_valid : bool) (heuristics : tlv_heuristics)
    (vote : tlv_vote) : M device (Z * tlv_vote) :=
  mret (0, vote_if ring_id_is_valid vote).
Definition qdevice_net_algo_2nodelms_disconnected
    (disconnect_reason : qdevice_net_disconnect_reason) (io : bool * tlv_vote)
    : M device (Z * (bool * tlv_vote)) := mret (0, io).
Definition qdevice_net_algo_2nodelms_destroy : M device unit := mret tt.

Definition qdevice_net_algo_2nodelms : qdevice_net_algorithm := {|
  algo_init := qdevice_net_algo_2nodelms_init;
  algo_connected := qdevice_net_algo_2nodelms_connected;
  algo_config_node_list_changed := qdevice_net_algo_2nodelms_config_node_list_changed;
  algo_votequorum_node_list_notify := qdevice_net_algo_2nodelms_votequorum_node_list_notify;
  algo_votequorum_node_list_heuristics_notify := qdevice_net_algo_2nodelms_votequorum_node_list_heuristics_notify;
  algo_votequorum_quorum_notify := qdevice_net_algo_2nodelms_votequorum_quorum_notify;
  algo_votequorum_expected_votes_notify := qdevice_net_algo_2nodelms_votequorum_expected_votes_notify;
  algo_config_node_list_reply_received := qdevice_net_algo_2nodelms_config_node_list_reply_received;
  algo_membership_node_list_reply_received := qdevice_net_algo_2nodelms_membership_node_list_reply_received;
  algo_quorum_node_list_reply_received := qdevice_net_algo_2nodelms_quorum_node_list_reply_received;
  algo_ask_for_vote_reply_received := qdevice_net_algo_2nodelms_ask_for_vote_reply_received;
  algo_vote_info_received := qdevice_net_algo_2nodelms_vote_info_received;
  algo_echo_reply_received := qdevice_net_algo_2nodelms_echo_reply_received;
  algo_echo_reply_not_received := qdevice_net_algo_2nodelms_echo_reply_not_received;
  algo_heuristics_change := qdevice_net_algo_2nodelms_heuristics_change;
  algo_heuristics_change_reply_received := qdevice_net_algo_2nodelms_heuristics_change_reply_received;
  algo_disconnected := qdevice_net_algo_2nodelms_disconnected;
  algo_destroy := qdevice_net_algo_2nodelms_destroy
|}.

(** ** Last man standing (qdevice-net-algo-lms.c) *)

(** [instance->algorithm_data] is dereferenced. *)
Definition lms_data : M device algo_lms_instance_data :=
  i ← get_net;
  match algorithm_data i with
  | None => fail NULL_DEREF
  | Some data => mret data
  end.

Definition qdevice_net_algo_lms_init : M device Z :=
  o ← malloc_device;
  match o with
  | None => mret (-1)
  | Some _ =>
      have_wfa ← on_environment (cmap_get_uint8 (str "quorum.wait_for_all"));
      modify_net (set_algorithm_data (Some (mk_lms_data 0 (default 0 have_wfa))));;
      mret 0
  end.
Definition qdevice_net_algo_lms_connected (io : connected_io) : M device (Z * connected_io) :=
  mret (0, io).
Definition qdevice_net_algo_lms_config_node_list_changed (nlist : node_list)
    (config_version : option Z) (io : bool * tlv_vote) : M device (Z * (bool * tlv_vote)) :=
  mret (0, io).
Definition qdevice_net_algo_lms_votequorum_node_list_notify (ring_id : tlv_ring_id)
    (node_list : list Z) (io : bool * tlv_vote) : M device (Z * (bool * tlv_vote)) :=
  mret (0, io).
Definition qdevice_net_algo_lms_votequorum_node_list_heuristics_notify (ring_id : tlv_ring_id)
    (node_list : list Z) (io : bool * tlv_vote * tlv_heuristics)
    : M device (Z * (bool * tlv_vote * tlv_heuristics)) := mret (0, io).
Definition qdevice_net_algo_lms_votequorum_quorum_notify (quorate : Z)
    (node_list : list votequorum_node_t) (io : bool * tlv_vote)
    : M device (Z * (bool * tlv_vote)) :=
  data ← lms_data;
  modify_net (set_algorithm_data (Some (mk_lms_data quorate (lms_have_wfa data))));;
  mret (0, io).
Definition qdevice_net_algo_lms_votequorum_expected_votes_notify (expected_votes : Z)
    (vote : tlv_vote) : M device (Z * tlv_vote) := mret (0, vote).
Definition qdevice_net_algo_lms_config_node_list_reply_received (seq_number : Z) (initial : bool)
    (ring_id : tlv_ring_id) (ring_id_is_valid : bool) (vote : tlv_vote)
    : M device (Z * tlv_vote) :=
  mret (0, vote_if ring_id_is_valid vote).
Definition qdevice_net_algo_lms_membership_node_list_reply_received (seq_number : Z)
    (ring_id : tlv_ring_id) (ring_id_is_valid : bool) (vote : tlv_vote)
    : M device (Z * tlv_vote) :=
  mret (0, vote_if ring_id_is_valid vote).
Definition qdevice_net_algo_lms_quorum_node_list_reply_received (seq_number : Z)
    (ring_id : tlv_ring_id) (ring_id_is_valid : bool) (vote : tlv_vote)
    : M device (Z * tlv_vote) :=
  mret (0, vote_if ring_id_is_valid vote).
Definition qdevice_net_algo_lms_ask_for_vote_reply_received (seq_number : Z)
    (ring_id : tlv_ring_id) (ring_id_is_valid : bool) (vote : tlv_vote)
    : M device (Z * tlv_vote) :=
  mret (0, vote_if ring_id_is_valid vote).
Definition qdevice_net_algo_lms_vote_info_received (seq_number : Z) (ring_id : tlv_ring_id)
    (ring_id_is_valid : bool) (vote : tlv_vote) : M device (Z * tlv_vote) :=
  mret (0, vote_if ring_id_is_valid vote).
Definition qdevice_net_algo_lms_echo_reply_received (seq_number : Z)
    (is_expected_seq_number : bool) : M device Z :=
  mret (if is_expected_seq_number then 0 else -1).
Definition qdevice_net_algo_lms_echo_reply_not_received : M device Z :=
  data ← lms_data;
  mret (if negb (lms_quorate data =? 0) && negb (lms_have_wfa data =? 0) then 0 else -1).
Definition qdevice_net_algo_lms_heuristics_change (io : tlv_heuristics * bool * tlv_vote)
    : M device (Z * (tlv_heuristics * bool * tlv_vote)) := mret (0, io).
Definition qdevice_net_algo_lms_heuristics_change_reply_received (seq_number : Z)
    (ring_id : tlv_ring_id) (ring_id_is_valid : bool) (heuristics : tlv_heuristics)
    (vote : tlv_vote) : M device (Z * tlv_vote) :=
  mret (0, vote_if ring_id_is_valid vote).
Definition qdevice_net_algo_lms_disconnected (disconnect_reason : qdevice_net_disconnect_reason)
    (io : bool * tlv_vote) : M device (Z * (bool * tlv_vote)) :=
  data ← lms_data;
  let '(_, vote) := io in
  mret (0, (true, if (lms_quorate data =? 0) || (lms_have_wfa data =? 0) then TLV_VOTE_NACK else vote)).
Definition qdevice_net_algo_lms_destroy : M device unit := modify_net (set_algorithm_data None).

Definition qdevice_net_algo_lms : qdevice_net_algorithm := {|
  algo_init := qdevice_net_algo_lms_init;
  algo_connected := qdevice_net_algo_lms_connected;
  algo_config_node_list_changed := qdevice_net_algo_lms_config_node_list_changed;
  algo_votequorum_node_list_notify := qdevice_net_algo_lms_votequorum_node_list_notify;
  algo_votequorum_node_list_heuristics_notify := qdevice_net_algo_lms_votequorum_node_list_heuristics_notify;
  algo_votequorum_quorum_notify := qdevice_net_algo_lms_votequorum_quorum_notify;
  algo_votequorum_expected_votes_notify := qdevice_net_algo_lms_votequorum_expected_votes_notify;
  algo_config_node_list_reply_received := qdevice_net_algo_lms_config_node_list_reply_received;
  algo_membership_node_list_reply_received := qdevice_net_algo_lms_membership_node_list_reply_received;
  algo_quorum_node_list_reply_received := qdevice_net_algo_lms_quorum_node_list_reply_received;
  algo_ask_for_vote_reply_received := qdevice_net_algo_lms_ask_for_vote_reply_received;
  algo_vote_info_received := qdevice_net_algo_lms_vote_info_received;
  algo_echo_reply_received := qdevice_net_algo_lms_echo_reply_received;
  algo_echo_reply_not_received := qdevice_net_algo_lms_echo_reply_not_received;
  algo_heuristics_change := qdevice_net_algo_lms_heuristics_change;
  algo_heuristics_change_reply_received := qdevice_net_algo_lms_heuristics_change_reply_received;
  algo_disconnected := qdevice_net_algo_lms_disconnected;
  algo_destroy := qdevice_net_algo_lms_destroy
|}.

(** ** The table *)

Definition QDEVICE_NET_STATIC_SUPPORTED_DECISION_ALGORITHMS_SIZE : Z := 4.

(** The array starts with NULL everywhere; an entry is set once. *)
Definition qdevice_net_algorithm_register (algorithm_number : Z) (algorithm : qdevice_net_algorithm)
    (array : list (option qdevice_net_algorithm)) : option (list (option qdevice_net_algorithm)) :=
  if QDEVICE_NET_STATIC_SUPPORTED_DECISION_ALGORITHMS_SIZE <=? algorithm_number then None
  else match array !! Z.to_nat algorithm_number with
       | Some None => Some (<[Z.to_nat algorithm_number := Some algorithm]> array)
       | _ => None
       end.

Definition qdevice_net_algorithm_register_all : option (list (option qdevice_net_algorithm)) :=
  let array := replicate (Z.to_nat QDEVICE_NET_STATIC_SUPPORTED_DECISION_ALGORITHMS_SIZE) None in
  array ← qdevice_net_algorithm_register TLV_DECISION_ALGORITHM_TYPE_TEST qdevice_net_algo_test array;
  array ← qdevice_net_algorithm_register TLV_DECISION_ALGORITHM_TYPE_FFSPLIT qdevice_net_algo_ffsplit array;
  array ← qdevice_net_algorithm_register TLV_DECISION_ALGORITHM_TYPE_2NODELMS qdevice_net_algo_2nodelms array;
  qdevice_net_algorithm_register TLV_DECISION_ALGORITHM_TYPE_LMS qdevice_net_algo_lms array.

(** The entry of an algorithm; a number outside of the array has none. *)
Definition qdevice_net_algorithm_array (decision_algorithm : Z) : option qdevice_net_algorithm :=
  if QDEVICE_NET_STATIC_SUPPORTED_DECISION_ALGORITHMS_SIZE <=? decision_algorithm then None
  else mjoin (default [] qdevice_net_algorithm_register_all !! Z.to_nat decision_algorithm).

Definition with_algorithm {A} (call : qdevice_net_algorithm → M device A) : M device A :=
  match qdevice_net_algorithm_array (cfg_decision_algorithm settings) with
  | None => fail EXIT
  | Some a => call a
  end.

Definition qdevice_net_algorithm_init : M device Z :=
  with_algorithm (λ a, algo_init a).
Definition qdevice_net_algorithm_connected (io : connected_io) : M device (Z * connected_io) :=
  with_algorithm (λ a, algo_connected a io).
Definition qdevice_net_algorithm_config_node_list_changed (nlist : node_list)
    (config_version : option Z) (io : bool * tlv_vote) : M device (Z * (bool * tlv_vote)) :=
  with_algorithm (λ a, algo_config_node_list_changed a nlist config_version io).
Definition qdevice_net_algorithm_votequorum_node_list_notify (ring_id : tlv_ring_id)
    (node_list : list Z) (io : bool * tlv_vote) : M device (Z * (bool * tlv_vote)) :=
  with_algorithm (λ a, algo_votequorum_node_list_notify a ring_id node_list io).
Definition qdevice_net_algorithm_votequorum_node_list_heuristics_notify (ring_id : tlv_ring_id)
    (node_list : list Z) (io : bool * tlv_vote * tlv_heuristics)
    : M device (Z * (bool * tlv_vote * tlv_heuristics)) :=
  with_algorithm (λ a, algo_votequorum_node_list_heuristics_notify a ring_id node_list io).
Definition qdevice_net_algorithm_votequorum_quorum_notify (quorate : Z)
    (node_list : list votequorum_node_t) (io : bool * tlv_vote)
    : M device (Z * (bool * tlv_vote)) :=
  with_algorithm (λ a, algo_votequorum_quorum_notify a quorate node_list io).
Definition qdevice_net_algorithm_votequorum_expected_votes_notify (expected_votes : Z)
    (vote : tlv_vote) : M device (Z * tlv_vote) :=
  with_algorithm (λ a, algo_votequorum_expected_votes_notify a expected_votes vote).
Definition qdevice_net_algorithm_config_node_list_reply_received (seq_number : Z) (initial : bool)
    (ring_id : tlv_ring_id) (ring_id_is_valid : bool) (vote : tlv_vote)
    : M device (Z * tlv_vote) :=
  with_algorithm (λ a,
    algo_config_node_list_reply_received a seq_number initial ring_id ring_id_is_valid vote).
Definition qdevice_net_algorithm_membership_node_list_reply_received (seq_number : Z)
    (ring_id : tlv_ring_id) (ring_id_is_valid : bool) (vote : tlv_vote)
    : M device (Z * tlv_vote) :=
  with_algorithm (λ a,
    algo_membership_node_list_reply_received a seq_number ring_id ring_id_is_valid vote).
Definition qdevice_net_algorithm_quorum_node_list_reply_received (seq_number : Z)
    (ring_id : tlv_ring_id) (ring_id_is_valid : bool) (vote : tlv_vote)
    : M device (Z * tlv_vote) :=
  with_algorithm (λ a,
    algo_quorum_node_list_reply_received a seq_number ring_id ring_id_is_valid vote).
Definition qdevice_net_algorithm_ask_for_vote_reply_received (seq_number : Z)
    (ring_id : tlv_ring_id) (ring_id_is_valid : bool) (vote : tlv_vote)
    : M device (Z * tlv_vote) :=
  with_algorithm (λ a, algo_ask_for_vote_reply_received a seq_number ring_id ring_id_is_valid vote).
Definition qdevice_net_algorithm_vote_info_received (seq_number : Z) (ring_id : tlv_ring_id)
    (ring_id_is_valid : bool) (vote : tlv_vote) : M device (Z * tlv_vote) :=
  with_algorithm (λ a, algo_vote_info_received a seq_number ring_id ring_id_is_valid vote).
Definition qdevice_net_algorithm_echo_reply_received (seq_number : Z)
    (is_expected_seq_number : bool) : M device Z :=
  with_algorithm (λ a, algo_echo_reply_received a seq_number is_expected_seq_number).
Definition qdevice_net_algorithm_echo_reply_not_received : M device Z :=
  with_algorithm (λ a, algo_echo_reply_not_received a).
Definition qdevice_net_algorithm_heuristics_change (io : tlv_heuristics * bool * tlv_vote)
    : M device (Z * (tlv_heuristics * bool * tlv_vote)) :=
  with_algorithm (λ a, algo_heuristics_change a io).
Definition qdevice_net_algorithm_heuristics_change_reply_received (seq_number : Z)
    (ring_id : tlv_ring_id) (ring_id_is_valid : bool) (heuristics : tlv_heuristics)
    (vote : tlv_vote) : M device (Z * tlv_vote) :=
  with_algorithm (λ a,
    algo_heuristics_change_reply_received a seq_number ring_id ring_id_is_valid heuristics vote).
Definition qdevice_net_algorithm_disconnected (disconnect_reason : qdevice_net_disconnect_reason)
    (io : bool * tlv_vote) : M device (Z * (bool * tlv_vote)) :=
  with_algorithm (λ a, algo_disconnected a disconnect_reason io).
Definition qdevice_net_algorithm_destroy : M device unit :=
  with_algorithm (λ a, algo_destroy a).
End algorithms.
Arguments qdevice_net_algorithm T E : clear implicits.
