(* ===== verification/QdeviceHeuristics.v ===== *)
(** Heuristics of the device's session (qdevice-net-heuristics.c): running them after a connect
    and regularly, and what is done with the results. *)
From stdpp Require Import strings.
From S2P Require Import Prelude Dynar Tlv NodeList SendBuffer DynarStr Heuristics.
From stdpp Require Import list gmap.
From S2P Require Import TimerList TimerInterface QdeviceInstance QdeviceSend QdeviceAlgorithm.
Local Open Scope Z_scope.

Section heuristics.
Context {T E : Type} `{TimerOps qdevice_timer T} `{Environment E}.
Abbreviation device := (qdevice_instance T E).
Context (settings : qdevice_settings).

Definition qdevice_net_heuristics_exec_result_to_tlv (exec_result : Z) : M device tlv_heuristics :=
  if exec_result =? QDEVICE_HEURISTICS_EXEC_RESULT_DISABLED then mret TLV_HEURISTICS_UNDEFINED
  else if exec_result =? QDEVICE_HEURISTICS_EXEC_RESULT_PASS then mret TLV_HEURISTICS_PASS
  else if exec_result =? QDEVICE_HEURISTICS_EXEC_RESULT_FAIL then mret TLV_HEURISTICS_FAIL
  else fail EXIT.

(** Whether a function is told of the next result; [-1] when it is not in the list. *)
Definition notifier_set_active (callback : qdevice_heuristics_callback) (active : bool) :
    M device Z := λ q,
  let i := heuristics_instance q in
  let '(r, l) := qdevice_heuristics_result_notifier_list_set_active callback active
                   (exec_result_notifier_list i) in
  (Ok r, set_heuristics_instance (set_exec_result_notifier_list l i) q).

Definition heuristics_exec : M device Z :=
  q ← get; on_heuristics (qdevice_heuristics_exec (sync_in_progress q)).

(** ** The timer of the regular heuristics *)

Definition qdevice_net_heuristics_stop_timer : M device Z :=
  i ← get_net;
  match regular_heuristics_timer i with
  | None => mret 0
  | Some _ =>
      delete_timer regular_heuristics_timer set_regular_heuristics_timer;;
      r ← notifier_set_active REGULAR_CALLBACK false;
      if negb (r =? 0) then
        schedule_disconnect_because
          QDEVICE_NET_DISCONNECT_REASON_CANT_ACTIVATE_HEURISTICS_RESULT_NOTIFIER;;
        mret (-1)
      else mret 0
  end.

Definition qdevice_net_heuristics_schedule_timer : M device Z :=
  q ← get;
  if negb (bool_decide (mode (heuristics_instance q) = QDEVICE_HEURISTICS_MODE_ENABLED)) then
    r ← qdevice_net_heuristics_stop_timer;
    mret (if negb (r =? 0) then -1 else 0)
  else
    match regular_heuristics_timer (net q) with
    | Some _ => mret 0
    | None =>
        p ← on_timers (timer_add (heuristics_interval (heuristics_instance q)) HEURISTICS_TIMER);
        modify_net (set_regular_heuristics_timer p);;
        match p with
        | None =>
            schedule_disconnect_because QDEVICE_NET_DISCONNECT_REASON_CANT_SCHEDULE_HEURISTICS_TIMER;;
            mret (-1)
        | Some _ => mret 0
        end
    end.

(** Any result but 0 keeps the timer. *)
Definition qdevice_net_heuristics_timer_callback : M device Z :=
  q ← get;
  if qdevice_heuristics_waiting_for_result (heuristics_instance q) then mret 1
  else
    modify_net (set_regular_heuristics_timer None);;
    r ← notifier_set_active REGULAR_CALLBACK true;
    if negb (r =? 0) then
      schedule_disconnect_because
        QDEVICE_NET_DISCONNECT_REASON_CANT_ACTIVATE_HEURISTICS_RESULT_NOTIFIER;;
      mret 0
    else
      r ← heuristics_exec;
      (if negb (r =? 0)
       then schedule_disconnect_because QDEVICE_NET_DISCONNECT_REASON_CANT_START_HEURISTICS
       else mret tt);;
      mret 0.

Definition qdevice_net_heuristics_exec_after_connect : M device Z :=
  r ← notifier_set_active CONNECT_CALLBACK true;
  if negb (r =? 0) then
    schedule_disconnect_because
      QDEVICE_NET_DISCONNECT_REASON_CANT_ACTIVATE_HEURISTICS_RESULT_NOTIFIER;;
    mret (-1)
  else
    r ← heuristics_exec;
    if negb (r =? 0) then
      schedule_disconnect_because QDEVICE_NET_DISCONNECT_REASON_CANT_START_HEURISTICS;;
      mret (-1)
    else mret 0.

(** ** Results *)

(** A step that returned an error ends the function with 0. *)
Definition unless_disconnecting (r : M device Z) (reason : qdevice_net_disconnect_reason)
    (next : M device Z) : M device Z :=
  r ← r;
  if negb (r =? 0) then schedule_disconnect_because reason;; mret 0 else next.

(** The result is remembered, and the next regular run is scheduled. *)
Definition regular_result (heuristics : tlv_heuristics) : M device Z :=
  modify_net (λ i, set_latest_heuristics_result heuristics
                     (set_latest_regular_heuristics_result heuristics i));;
  qdevice_net_heuristics_schedule_timer;;
  mret 0.

Definition send_heuristics_result (heuristics : tlv_heuristics) (next : M device Z) : M device Z :=
  i ← get_net;
  if bool_decide (heuristics = TLV_HEURISTICS_UNDEFINED) then
    schedule_disconnect_because QDEVICE_NET_DISCONNECT_REASON_ALGO_HEURISTICS_CHANGE_ERR;; mret 0
  else if negb (server_supports_heuristics i) then
    schedule_disconnect_because QDEVICE_NET_DISCONNECT_REASON_SERVER_DOESNT_SUPPORT_REQUIRED_OPT;;
    mret 0
  else
    unless_disconnecting (qdevice_net_send_heuristics_change heuristics)
      QDEVICE_NET_DISCONNECT_REASON_CANT_ALLOCATE_MSG_BUFFER next.

Definition qdevice_net_regular_heuristics_exec_result_callback (exec_result : Z) : M device Z :=
  unless_disconnecting (notifier_set_active REGULAR_CALLBACK false)
    QDEVICE_NET_DISCONNECT_REASON_CANT_ACTIVATE_HEURISTICS_RESULT_NOTIFIER (
  heuristics ← qdevice_net_heuristics_exec_result_to_tlv exec_result;
  if exec_result =? QDEVICE_HEURISTICS_EXEC_RESULT_DISABLED then mret 0
  else
    i ← get_net;
    if bool_decide (latest_heuristics_result i = heuristics) then regular_result heuristics
    else
      let send_msg := bool_decide (state i = QDEVICE_NET_INSTANCE_STATE_WAITING_VOTEQUORUM_CMAP_EVENTS) in
      '(r, (heuristics, send_msg, vote)) ←
        qdevice_net_algorithm_heuristics_change settings (heuristics, send_msg, TLV_VOTE_NO_CHANGE);
      if r =? -1 then
        schedule_disconnect_because QDEVICE_NET_DISCONNECT_REASON_ALGO_HEURISTICS_CHANGE_ERR;;
        mret 0
      else
        let update :=
          unless_disconnecting (qdevice_net_cast_vote_timer_update settings vote)
            QDEVICE_NET_DISCONNECT_REASON_CANT_SCHEDULE_VOTING_TIMER (regular_result heuristics) in
        if (send_msg : bool) then send_heuristics_result heuristics update else update).

(** A step that failed leaves a reason, but schedules no disconnect. *)
Definition unless_reason (r : M device Z) (reason : qdevice_net_disconnect_reason)
    (next : M device Z) : M device Z :=
  r ← r;
  if negb (r =? 0) then disconnect_because reason;; mret 0 else next.

(** [if (cond) { if (send() != 0) { ...; return (0); } }] *)
Definition send_if (cond : bool) (send : M device Z) (next : M device Z) : M device Z :=
  if cond
  then unless_reason send QDEVICE_NET_DISCONNECT_REASON_CANT_ALLOCATE_MSG_BUFFER next
  else next.

Definition quorate_to_tlv (quorate : Z) : tlv_quorate :=
  if quorate =? 0 then TLV_QUORATE_INQUORATE else TLV_QUORATE_QUORATE.

Definition connect_finished (heuristics : tlv_heuristics) (vote : tlv_vote) : M device Z :=
  r ← qdevice_net_cast_vote_timer_update settings vote;
  (if negb (r =? 0)
   then disconnect_because QDEVICE_NET_DISCONNECT_REASON_CANT_SCHEDULE_VOTING_TIMER else mret tt);;
  modify_net (set_state QDEVICE_NET_INSTANCE_STATE_WAITING_VOTEQUORUM_CMAP_EVENTS);;
  now ← on_environment env_time;
  modify_net (λ i, set_latest_heuristics_result heuristics
                     (set_latest_connect_heuristics_result heuristics
                        (set_connected_since_time now i)));;
  mret 0.

Definition qdevice_net_connect_heuristics_exec_result_callback (exec_result : Z) : M device Z :=
  unless_disconnecting (notifier_set_active CONNECT_CALLBACK false)
    QDEVICE_NET_DISCONNECT_REASON_CANT_ACTIVATE_HEURISTICS_RESULT_NOTIFIER (
  i ← get_net;
  if negb (bool_decide (state i = QDEVICE_NET_INSTANCE_STATE_WAITING_INIT_REPLY)) then mret 0
  else
    heuristics ← qdevice_net_heuristics_exec_result_to_tlv exec_result;
    '(r, (heuristics, send_config_node_list, send_membership_node_list, send_quorum_node_list, vote)) ←
      qdevice_net_algorithm_connected settings (heuristics, true, true, true, TLV_VOTE_WAIT_FOR_REPLY);
    if negb (r =? 0) then
      disconnect_because QDEVICE_NET_DISCONNECT_REASON_ALGO_CONNECTED_ERR;; mret 0
    else
      q ← get;
      send_if (server_supports_keep_active_partition_tie_breaker (net q))
        (qdevice_net_send_set_option false 0
           (server_supports_keep_active_partition_tie_breaker (net q))
           (cfg_keep_active_partition_tie_breaker settings)) (
      send_if send_config_node_list
        (qdevice_net_send_config_node_list (config_node_list q) (config_node_list_version q) true) (
      send_if send_membership_node_list
        (qdevice_net_send_membership_node_list
           (qdevice_net_votequorum_ring_id_to_tlv (vq_node_list_ring_id q)) (vq_node_list q)
           heuristics) (
      send_if send_quorum_node_list
        (qdevice_net_send_quorum_node_list (quorate_to_tlv (vq_quorum_quorate q))
           (vq_quorum_node_list q)) (
      connect_finished heuristics vote))))).

Definition notifier_add (callback : qdevice_heuristics_callback) : M device bool := λ q,
  let i := heuristics_instance q in
  let '(r, (l, h)) := qdevice_heuristics_result_notifier_list_add callback
                        (exec_result_notifier_list i, main_heap q) in
  (r, set_main_heap h (set_heuristics_instance (set_exec_result_notifier_list l i) q)).

Definition qdevice_net_heuristics_init : M device Z :=
  ok ← notifier_add REGULAR_CALLBACK;
  if negb ok then mret (-1)
  else
    ok ← notifier_add CONNECT_CALLBACK;
    mret (if negb ok then -1 else 0).
End heuristics.
