(* ===== verification/QdeviceMsgReceived.v ===== *)
(** What the device does with a message of the server (qdevice-net-msg-received.c), and the
    heartbeats (qdevice-net-echo-request-timer.c). *)
From stdpp Require Import strings.
From S2P Require Import Prelude Dynar Tlv NodeList Msg SendBuffer DynarStr Heuristics.
From stdpp Require Import list gmap.
From S2P Require Import TimerList TimerInterface QdeviceInstance QdeviceSend QdeviceAlgorithm.
From S2P Require Import QdeviceHeuristics.
Local Open Scope Z_scope.

Definition is_set {A} (o : option A) : bool := match o with Some _ => true | None => false end.

(** [-1]: incompatible, [0]: without TLS, [1]: with TLS. *)
Definition qdevice_net_msg_received_check_tls_compatibility
    (server_tls client_tls : tlv_tls_supported) : Z :=
  match server_tls, client_tls with
  | TLV_TLS_UNSUPPORTED, TLV_TLS_UNSUPPORTED => 0
  | TLV_TLS_UNSUPPORTED, TLV_TLS_SUPPORTED => 0
  | TLV_TLS_UNSUPPORTED, TLV_TLS_REQUIRED => -1
  | TLV_TLS_SUPPORTED, TLV_TLS_UNSUPPORTED => 0
  | TLV_TLS_SUPPORTED, TLV_TLS_SUPPORTED => 1
  | TLV_TLS_SUPPORTED, TLV_TLS_REQUIRED => 1
  | TLV_TLS_REQUIRED, TLV_TLS_UNSUPPORTED => -1
  | TLV_TLS_REQUIRED, TLV_TLS_SUPPORTED => 1
  | TLV_TLS_REQUIRED, TLV_TLS_REQUIRED => 1
  end.

Section received.
Context {T E : Type} `{TimerOps qdevice_timer T} `{Environment E}.
Abbreviation device := (qdevice_instance T E).
Context (beyond : mem).
Context (settings : qdevice_settings).

(** ** Heartbeats *)

Definition qdevice_net_echo_request_timer_callback : M device Z :=
  i ← get_net;
  if negb (echo_reply_received_msg_seq_num i =? echo_request_expected_msg_seq_num i) then
    r ← qdevice_net_algorithm_echo_reply_not_received settings;
    if negb (r =? 0) then
      schedule_disconnect_because QDEVICE_NET_DISCONNECT_REASON_ALGO_ECHO_REPLY_NOT_RECEIVED_ERR;;
      modify_net (set_echo_request_timer None);;
      mret 0
    else mret (-1)
  else
    r ← qdevice_net_send_echo_request;
    if r =? -1 then
      schedule_disconnect_because QDEVICE_NET_DISCONNECT_REASON_CANT_ALLOCATE_MSG_BUFFER;;
      modify_net (set_echo_request_timer None);;
      mret 0
    else mret (-1).

Definition qdevice_net_echo_request_timer_schedule : M device Z :=
  modify_net (λ i, set_echo_reply_received_msg_seq_num 0
                     (set_echo_request_expected_msg_seq_num 0 i));;
  delete_timer echo_request_timer set_echo_request_timer;;
  p ← on_timers (timer_add (cfg_heartbeat_interval settings) ECHO_REQUEST_TIMER);
  modify_net (set_echo_request_timer p);;
  match p with
  | None => fail_because QDEVICE_NET_DISCONNECT_REASON_CANT_SCHEDULE_HB_TIMER
  | Some _ => mret 0
  end.

(** ** Messages a client does not expect *)

Definition qdevice_net_msg_received_unexpected_msg (msg : msg_decoded) : M device Z :=
  fail_because QDEVICE_NET_DISCONNECT_REASON_UNEXPECTED_MSG.

Definition qdevice_net_msg_received_init : msg_decoded → M device Z :=
  qdevice_net_msg_received_unexpected_msg.
Definition qdevice_net_msg_received_preinit : msg_decoded → M device Z :=
  qdevice_net_msg_received_unexpected_msg.
Definition qdevice_net_msg_received_starttls : msg_decoded → M device Z :=
  qdevice_net_msg_received_unexpected_msg.
Definition qdevice_net_msg_received_set_option : msg_decoded → M device Z :=
  qdevice_net_msg_received_unexpected_msg.
Definition qdevice_net_msg_received_echo_request : msg_decoded → M device Z :=
  qdevice_net_msg_received_unexpected_msg.
Definition qdevice_net_msg_received_node_list : msg_decoded → M device Z :=
  qdevice_net_msg_received_unexpected_msg.
Definition qdevice_net_msg_received_ask_for_vote : msg_decoded → M device Z :=
  qdevice_net_msg_received_unexpected_msg.
Definition qdevice_net_msg_received_vote_info_reply : msg_decoded → M device Z :=
  qdevice_net_msg_received_unexpected_msg.
Definition qdevice_net_msg_received_heuristics_change : msg_decoded → M device Z :=
  qdevice_net_msg_received_unexpected_msg.

(** The messages that are expected in one state only. *)
Definition in_state (s : qdevice_net_instance_state) (next : M device Z) : M device Z :=
  i ← get_net;
  if negb (bool_decide (state i = s))
  then fail_because QDEVICE_NET_DISCONNECT_REASON_UNEXPECTED_MSG else next.

Definition qdevice_net_msg_check_seq_number (i : qdevice_net_instance) (msg : msg_decoded) : Z :=
  match dm_seq_number msg with
  | Some seq_number => if seq_number =? last_msg_seq_num i then 0 else -1
  | None => -1
  end.

Definition with_seq_number (msg : msg_decoded) (next : M device Z) : M device Z :=
  i ← get_net;
  if negb (qdevice_net_msg_check_seq_number i msg =? 0)
  then fail_because QDEVICE_NET_DISCONNECT_REASON_REQUIRED_OPTION_MISSING else next.

(** ** PREINIT and INIT *)

Definition send_starttls : M device Z :=
  r ← send_message next_msg_seq_num (λ i, msg_create_starttls true (last_msg_seq_num i));
  if negb (r =? 0) then fail_because QDEVICE_NET_DISCONNECT_REASON_CANT_ALLOCATE_MSG_BUFFER
  else modify_net (set_state QDEVICE_NET_INSTANCE_STATE_WAITING_STARTTLS_BEING_SENT);; mret 0.

Definition qdevice_net_msg_received_preinit_reply (msg : msg_decoded) : M device Z :=
  in_state QDEVICE_NET_INSTANCE_STATE_WAITING_PREINIT_REPLY (
  with_seq_number msg (
  match dm_tls_supported msg, dm_tls_client_cert_required msg with
  | Some tls_supported, Some _ =>
      let res := qdevice_net_msg_received_check_tls_compatibility tls_supported
                   (cfg_tls_supported settings) in
      if res =? -1 then fail_because QDEVICE_NET_DISCONNECT_REASON_INCOMPATIBLE_TLS
      else if res =? 1 then send_starttls
      else
        r ← qdevice_net_send_init settings;
        if negb (r =? 0) then fail_because QDEVICE_NET_DISCONNECT_REASON_CANT_ALLOCATE_MSG_BUFFER
        else mret 0
  | _, _ => fail_because QDEVICE_NET_DISCONNECT_REASON_REQUIRED_OPTION_MISSING
  end)).

Definition init_error_reason (reply_error_code : Z) : qdevice_net_disconnect_reason :=
  if reply_error_code =? TLV_REPLY_ERROR_CODE_DUPLICATE_NODE_ID
  then QDEVICE_NET_DISCONNECT_REASON_SERVER_SENT_DUPLICATE_NODE_ID_ERROR
  else if reply_error_code =? TLV_REPLY_ERROR_CODE_TIE_BREAKER_DIFFERS_FROM_OTHER_NODES
  then QDEVICE_NET_DISCONNECT_REASON_SERVER_SENT_TIE_BREAKER_DIFFERS_FROM_OTHER_NODES_ERROR
  else if reply_error_code =? TLV_REPLY_ERROR_CODE_ALGORITHM_DIFFERS_FROM_OTHER_NODES
  then QDEVICE_NET_DISCONNECT_REASON_SERVER_SENT_ALGORITHM_DIFFERS_FROM_OTHER_NODES_ERROR
  else QDEVICE_NET_DISCONNECT_REASON_SERVER_SENT_ERROR.

(** An array of a message that is not NULL; [fail] where one is read that was given back. *)
Definition with_array {A} (p : ptr A) (null : M device Z) (next : A → M device Z) : M device Z :=
  match p with
  | Null => null
  | Dangling => fail NULL_DEREF
  | Valid a => next a
  end.

(** Everything is as the device needs it: adjust the buffers, look for what the server supports,
    start the heartbeats and run the heuristics. *)
Definition init_accepted (maximum_request_size maximum_reply_size : Z)
    (supported_options supported_decision_algorithms : list Z) : M device Z :=
  modify_net (λ i, set_net_send_buffer_list
    (send_buffer_list_set_max_buffer_size maximum_request_size (net_send_buffer_list i))
    (set_receive_buffer (dynar_set_max_size maximum_reply_size (receive_buffer i)) i));;
  if negb (existsb (λ a, a =? cfg_decision_algorithm settings) supported_decision_algorithms) then
    fail_because QDEVICE_NET_DISCONNECT_REASON_SERVER_DOESNT_SUPPORT_REQUIRED_ALGORITHM
  else
    let heuristics := existsb (λ o, o =? TLV_OPT_HEURISTICS) supported_options in
    let kap := existsb (λ o, o =? TLV_OPT_KEEP_ACTIVE_PARTITION_TIE_BREAKER) supported_options in
    modify_net (λ i, set_server_supports_keep_active_partition_tie_breaker kap
                       (set_server_supports_heuristics heuristics i));;
    q ← get;
    if negb heuristics &&
       negb (bool_decide (mode (heuristics_instance q) = QDEVICE_HEURISTICS_MODE_DISABLED)) then
      fail_because QDEVICE_NET_DISCONNECT_REASON_SERVER_DOESNT_SUPPORT_REQUIRED_OPT
    else
      delete_timer connect_timer set_connect_timer;;
      r ← qdevice_net_echo_request_timer_schedule;
      if negb (r =? 0) then mret (-1)
      else
        r ← qdevice_net_heuristics_exec_after_connect;
        mret (if negb (r =? 0) then -1 else 0).

Definition qdevice_net_msg_received_init_reply (msg : msg_decoded) : M device Z :=
  let missing := fail_because QDEVICE_NET_DISCONNECT_REASON_REQUIRED_OPTION_MISSING in
  in_state QDEVICE_NET_INSTANCE_STATE_WAITING_INIT_REPLY (
  with_seq_number msg (
  match dm_reply_error_code msg with
  | None => missing
  | Some reply_error_code =>
      if negb (reply_error_code =? TLV_REPLY_ERROR_CODE_NO_ERROR)
      then fail_because (init_error_reason reply_error_code)
      else
        match dm_server_maximum_request_size msg, dm_server_maximum_reply_size msg with
        | Some maximum_request_size, Some maximum_reply_size =>
            match dm_supported_messages msg with
            | Null => missing
            | _ =>
                with_array (dm_supported_options msg) missing (λ supported_options,
                with_array (dm_supported_decision_algorithms msg) missing (λ algorithms,
                if maximum_request_size <? net_min_msg_send_size settings then
                  fail_because QDEVICE_NET_DISCONNECT_REASON_INCOMPATIBLE_MSG_SIZE
                else if net_max_msg_receive_size settings <? maximum_reply_size then
                  fail_because QDEVICE_NET_DISCONNECT_REASON_INCOMPATIBLE_MSG_SIZE
                else
                  init_accepted maximum_request_size maximum_reply_size
                    (take (Z.to_nat (dm_no_supported_options msg)) supported_options)
                    (take (Z.to_nat (dm_no_supported_decision_algorithms msg)) algorithms)))
            end
        | _, _ => missing
        end
  end)).

(** ** Other messages *)

Definition qdevice_net_msg_received_server_error (msg : msg_decoded) : M device Z :=
  fail_because (match dm_reply_error_code msg with
                | None => QDEVICE_NET_DISCONNECT_REASON_REQUIRED_OPTION_MISSING
                | Some _ => QDEVICE_NET_DISCONNECT_REASON_SERVER_SENT_ERROR
                end).

Definition qdevice_net_msg_received_set_option_reply (msg : msg_decoded) : M device Z :=
  in_state QDEVICE_NET_INSTANCE_STATE_WAITING_VOTEQUORUM_CMAP_EVENTS (
  match dm_heartbeat_interval msg with
  | None => mret 0
  | Some _ =>
      r ← qdevice_net_echo_request_timer_schedule;
      mret (if negb (r =? 0) then -1 else 0)
  end).

Definition qdevice_net_msg_received_echo_reply (msg : msg_decoded) : M device Z :=
  match dm_seq_number msg with
  | None => fail_because QDEVICE_NET_DISCONNECT_REASON_REQUIRED_OPTION_MISSING
  | Some seq_number =>
      i ← get_net;
      r ← qdevice_net_algorithm_echo_reply_received settings seq_number
            (seq_number =? echo_request_expected_msg_seq_num i);
      if negb (r =? 0)
      then fail_because QDEVICE_NET_DISCONNECT_REASON_ALGO_ECHO_REPLY_RECEIVED_ERR
      else
        now ← on_environment env_time;
        modify_net (λ i, set_last_echo_reply_received_time now
                           (set_echo_reply_received_msg_seq_num seq_number i));;
        mret 0
  end.

(** ** Votes *)

(** [tlv_ring_id_eq(&msg->ring_id, &instance->last_sent_ring_id)] *)
Definition ring_id_is_valid (ring_id : tlv_ring_id) (i : qdevice_net_instance) : bool :=
  tlv_ring_id_eq ring_id (last_sent_ring_id i).

(** The algorithm decides what the vote of a message means; that is what is cast. *)
Definition vote_received (decide : bool → M device (Z * tlv_vote)) (ring_id : tlv_ring_id)
    (reason : qdevice_net_disconnect_reason) (next : M device Z) : M device Z :=
  i ← get_net;
  '(res, result_vote) ← decide (ring_id_is_valid ring_id i);
  if negb (res =? 0) then fail_because reason
  else
    r ← qdevice_net_cast_vote_timer_update settings result_vote;
    if negb (r =? 0) then fail_because QDEVICE_NET_DISCONNECT_REASON_CANT_SCHEDULE_VOTING_TIMER
    else next.

Definition node_list_reply_decision (type : tlv_node_list_type) (seq_number : Z)
    (ring_id : tlv_ring_id) (vote : tlv_vote) (valid : bool) : M device (Z * tlv_vote) :=
  match type with
  | TLV_NODE_LIST_TYPE_INITIAL_CONFIG =>
      qdevice_net_algorithm_config_node_list_reply_received settings seq_number true ring_id valid vote
  | TLV_NODE_LIST_TYPE_CHANGED_CONFIG =>
      qdevice_net_algorithm_config_node_list_reply_received settings seq_number false ring_id valid vote
  | TLV_NODE_LIST_TYPE_MEMBERSHIP =>
      qdevice_net_algorithm_membership_node_list_reply_received settings seq_number ring_id valid vote
  | TLV_NODE_LIST_TYPE_QUORUM =>
      qdevice_net_algorithm_quorum_node_list_reply_received settings seq_number ring_id valid vote
  end.

Definition qdevice_net_msg_received_node_list_reply (msg : msg_decoded) : M device Z :=
  in_state QDEVICE_NET_INSTANCE_STATE_WAITING_VOTEQUORUM_CMAP_EVENTS (
  match dm_vote msg, dm_seq_number msg, dm_node_list_type msg, dm_ring_id msg with
  | Some vote, Some seq_number, Some type, Some ring_id =>
      vote_received (node_list_reply_decision type seq_number ring_id vote) ring_id
        QDEVICE_NET_DISCONNECT_REASON_ALGO_NODE_LIST_REPLY_ERR (mret 0)
  | _, _, _, _ => fail_because QDEVICE_NET_DISCONNECT_REASON_REQUIRED_OPTION_MISSING
  end).

Definition qdevice_net_msg_received_ask_for_vote_reply (msg : msg_decoded) : M device Z :=
  in_state QDEVICE_NET_INSTANCE_STATE_WAITING_VOTEQUORUM_CMAP_EVENTS (
  match dm_vote msg, dm_seq_number msg, dm_ring_id msg with
  | Some vote, Some seq_number, Some ring_id =>
      vote_received (λ valid, qdevice_net_algorithm_ask_for_vote_reply_received settings seq_number
                       ring_id valid vote) ring_id
        QDEVICE_NET_DISCONNECT_REASON_ALGO_ASK_FOR_VOTE_REPLY_ERR (mret 0)
  | _, _, _ => fail_because QDEVICE_NET_DISCONNECT_REASON_REQUIRED_OPTION_MISSING
  end).

Definition send_vote_info_reply (seq_number : Z) : M device Z :=
  r ← send_message id (λ _, msg_create_vote_info_reply seq_number);
  if negb (r =? 0) then fail_because QDEVICE_NET_DISCONNECT_REASON_CANT_ALLOCATE_MSG_BUFFER
  else mret 0.

Definition qdevice_net_msg_received_vote_info (msg : msg_decoded) : M device Z :=
  in_state QDEVICE_NET_INSTANCE_STATE_WAITING_VOTEQUORUM_CMAP_EVENTS (
  match dm_vote msg, dm_seq_number msg, dm_ring_id msg with
  | Some vote, Some seq_number, Some ring_id =>
      vote_received (λ valid, qdevice_net_algorithm_vote_info_received settings seq_number
                       ring_id valid vote) ring_id
        QDEVICE_NET_DISCONNECT_REASON_ALGO_VOTE_INFO_ERR (send_vote_info_reply seq_number)
  | _, _, _ => fail_because QDEVICE_NET_DISCONNECT_REASON_REQUIRED_OPTION_MISSING
  end).

Definition qdevice_net_msg_received_heuristics_change_reply (msg : msg_decoded) : M device Z :=
  in_state QDEVICE_NET_INSTANCE_STATE_WAITING_VOTEQUORUM_CMAP_EVENTS (
  match dm_vote msg, dm_seq_number msg, dm_ring_id msg, dm_heuristics msg with
  | _, _, _, TLV_HEURISTICS_UNDEFINED =>
      fail_because QDEVICE_NET_DISCONNECT_REASON_REQUIRED_OPTION_MISSING
  | Some vote, Some seq_number, Some ring_id, heuristics =>
      vote_received (λ valid, qdevice_net_algorithm_heuristics_change_reply_received settings
                       seq_number ring_id valid heuristics vote) ring_id
        QDEVICE_NET_DISCONNECT_REASON_ALGO_HEURISTICS_CHANGE_REPLY_ERR (mret 0)
  | _, _, _, _ => fail_because QDEVICE_NET_DISCONNECT_REASON_REQUIRED_OPTION_MISSING
  end).

(** ** Any message *)

Definition msg_received_dispatch (msg : msg_decoded) : M device Z :=
  let t := dm_type msg in
  if t =? MSG_TYPE_INIT then qdevice_net_msg_received_init msg
  else if t =? MSG_TYPE_PREINIT then qdevice_net_msg_received_preinit msg
  else if t =? MSG_TYPE_PREINIT_REPLY then qdevice_net_msg_received_preinit_reply msg
  else if t =? MSG_TYPE_STARTTLS then qdevice_net_msg_received_starttls msg
  else if t =? MSG_TYPE_SERVER_ERROR then qdevice_net_msg_received_server_error msg
  else if t =? MSG_TYPE_INIT_REPLY then qdevice_net_msg_received_init_reply msg
  else if t =? MSG_TYPE_SET_OPTION then qdevice_net_msg_received_set_option msg
  else if t =? MSG_TYPE_SET_OPTION_REPLY then qdevice_net_msg_received_set_option_reply msg
  else if t =? MSG_TYPE_ECHO_REQUEST then qdevice_net_msg_received_echo_request msg
  else if t =? MSG_TYPE_ECHO_REPLY then qdevice_net_msg_received_echo_reply msg
  else if t =? MSG_TYPE_NODE_LIST then qdevice_net_msg_received_node_list msg
  else if t =? MSG_TYPE_NODE_LIST_REPLY then qdevice_net_msg_received_node_list_reply msg
  else if t =? MSG_TYPE_ASK_FOR_VOTE then qdevice_net_msg_received_ask_for_vote msg
  else if t =? MSG_TYPE_ASK_FOR_VOTE_REPLY then qdevice_net_msg_received_ask_for_vote_reply msg
  else if t =? MSG_TYPE_VOTE_INFO then qdevice_net_msg_received_vote_info msg
  else if t =? MSG_TYPE_VOTE_INFO_REPLY then qdevice_net_msg_received_vote_info_reply msg
  else if t =? MSG_TYPE_HEURISTICS_CHANGE then qdevice_net_msg_received_heuristics_change msg
  else if t =? MSG_TYPE_HEURISTICS_CHANGE_REPLY then
    qdevice_net_msg_received_heuristics_change_reply msg
  else fail_because QDEVICE_NET_DISCONNECT_REASON_UNEXPECTED_MSG.

Definition qdevice_net_msg_received : M device Z :=
  q ← get;
  let '(res, (msg, h)) :=
    msg_decode beyond (receive_buffer (net q)) (msg_decoded_init, main_heap q) in
  modify (set_main_heap h);;
  if negb (res =? 0) then fail_because QDEVICE_NET_DISCONNECT_REASON_MSG_DECODE_ERROR
  else msg_received_dispatch msg.
End received.
