(* ===== verification/QdeviceSocket.v ===== *)
(** The connection of the device to the server: connecting without blocking (nss-sock.c) and the
    socket in the poll loop (qdevice-net-socket.c, and of pr-poll-loop.c the entries of the
    loop).

    Closing a socket and freeing the addresses have no effect on the program and are left out.
    The addresses still to try are a list: the code stops using the iterator once it has
    reached the end. *)
From stdpp Require Import strings.
From S2P Require Import Prelude Dynar Tlv NodeList Msg Msgio SendBuffer DynarStr Heuristics.
From stdpp Require Import list gmap.
From S2P Require Import TimerList TimerInterface QdeviceInstance QdeviceSend QdeviceMsgReceived.
Local Open Scope Z_scope.

Definition INT_MAX : Z := 2 ^ 31 - 1.

Definition set_nb_af (v : pr_af) (c : nss_sock_non_blocking_client) : nss_sock_non_blocking_client :=
  mk_nb_client v (nb_addrs c) (nb_socket c) (nb_connect_attempts c) (nb_destroyed c).
Definition set_nb_addrs (v : list pr_addr) (c : nss_sock_non_blocking_client) :
    nss_sock_non_blocking_client :=
  mk_nb_client (nb_af c) v (nb_socket c) (nb_connect_attempts c) (nb_destroyed c).
Definition set_nb_socket (v : option nat) (c : nss_sock_non_blocking_client) :
    nss_sock_non_blocking_client :=
  mk_nb_client (nb_af c) (nb_addrs c) v (nb_connect_attempts c) (nb_destroyed c).
Definition set_nb_destroyed (v : bool) (c : nss_sock_non_blocking_client) :
    nss_sock_non_blocking_client :=
  mk_nb_client (nb_af c) (nb_addrs c) (nb_socket c) (nb_connect_attempts c) v.

(** One more attempt, up to the maximum. *)
Definition count_attempt (c : nss_sock_non_blocking_client) : nss_sock_non_blocking_client :=
  mk_nb_client (nb_af c) (nb_addrs c) (nb_socket c)
    (if nb_connect_attempts c <? INT_MAX then nb_connect_attempts c + 1 else nb_connect_attempts c)
    (nb_destroyed c).

Definition address_matches (af : pr_af) (addr : pr_addr) : bool :=
  bool_decide (af = PR_AF_UNSPEC) || bool_decide (addr_family addr = af).

(** [PR_GetConnectStatus]: connected, in progress, or failed. *)
Inductive connect_status := CONNECTED | CONNECT_IN_PROGRESS | CONNECT_FAILED.

Definition nss_sock_non_blocking_client_succeeded (status : connect_status) : Z :=
  match status with CONNECTED => 1 | CONNECT_IN_PROGRESS => 0 | CONNECT_FAILED => -1 end.

Section socket.
Context {T E : Type} `{TimerOps qdevice_timer T} `{Environment E}.
Abbreviation device := (qdevice_instance T E).
Context (settings : qdevice_settings).
Context (beyond : mem).

(** ** Connecting (nss-sock.c) *)

Definition modify_client (f : nss_sock_non_blocking_client → nss_sock_non_blocking_client) :
    M device unit :=
  modify_net (λ i, set_non_blocking_client (f (non_blocking_client i)) i).

Definition nss_sock_non_blocking_client_init (af : pr_af) : M device Z :=
  modify_client (set_nb_destroyed true);;
  host_name ← malloc_device;
  match host_name with
  | None => mret (-1)
  | Some _ =>
      modify_client (set_nb_af af);;
      let tmp_af := if bool_decide (af = PR_AF_INET6) then PR_AF_UNSPEC else af in
      addr_info ← on_environment (PR_GetAddrInfoByName tmp_af);
      match addr_info with
      | None => mret (-1)
      | Some addrs => modify_client (λ _, mk_nb_client af addrs None 0 false);; mret 0
      end
  end.

Fixpoint try_next_loop (addrs : list pr_addr) : M device Z :=
  modify_client (set_nb_addrs (tail addrs));;
  match addrs with
  | [] => mret (-1)
  | addr :: addrs' =>
      i ← get_net;
      if negb (address_matches (nb_af (non_blocking_client i)) addr) then try_next_loop addrs'
      else
        socket ← on_environment (PR_OpenTCPSocket (addr_family addr));
        modify_client (set_nb_socket socket);;
        match socket with
        | None => try_next_loop addrs'
        | Some s =>
            ok ← on_environment (PR_SetSocketOption s);
            if negb ok then modify_client (set_nb_socket None);; try_next_loop addrs'
            else
              ok ← on_environment (PR_Connect s addr);
              if (ok : bool) then mret 0
              else
                modify_client (λ c, count_attempt (set_nb_socket None c));;
                try_next_loop addrs'
        end
  end.

Definition nss_sock_non_blocking_client_try_next : M device Z :=
  i ← get_net;
  if nb_destroyed (non_blocking_client i) then mret (-1)
  else
    modify_client (set_nb_socket None);;
    try_next_loop (nb_addrs (non_blocking_client i)).

Definition nss_sock_non_blocking_client_destroy : M device unit :=
  i ← get_net;
  if nb_destroyed (non_blocking_client i) then mret tt
  else modify_client (λ c, set_nb_destroyed true (set_nb_addrs [] c)).

Definition nss_sock_start_ssl_as_client (input_sock : nat) : M device (option nat) :=
  ssl_sock ← on_environment (SSL_ImportFD input_sock);
  match ssl_sock with
  | None => mret None
  | Some s => ok ← on_environment (SSL_setup s); mret (if (ok : bool) then Some s else None)
  end.

(** ** The entries of the poll loop (pr-poll-loop.c) *)

Definition pr_poll_loop_add_prfd (prfd : option nat) : M device Z :=
  match prfd with
  | None => fail ASSERT
  | Some s =>
      q ← get;
      if bool_decide (s ∈ polled_sockets q) then mret (-1)
      else
        new_entry ← malloc_device;
        match new_entry with
        | None => mret (-1)
        | Some _ => modify (λ q, set_polled_sockets (polled_sockets q ++ [s]) q);; mret 0
        end
  end.

Definition pr_poll_loop_del_prfd (prfd : option nat) : M device Z :=
  match prfd with
  | None => fail ASSERT
  | Some s =>
      q ← get;
      match list_find (λ s', s' = s) (polled_sockets q) with
      | None => mret (-1)
      | Some (i, _) => modify (λ q, set_polled_sockets (delete i (polled_sockets q)) q);; mret 0
      end
  end.

(** The only function the model registers is [check_schedule_disconnect_cb]. *)
Definition pr_poll_loop_add_pre_poll_cb : M device Z :=
  q ← get;
  if pre_poll_cb_registered q then mret (-1)
  else
    new_entry ← malloc_device;
    match new_entry with
    | None => mret (-1)
    | Some _ => modify (set_pre_poll_cb_registered true);; mret 0
    end.

Definition pr_poll_loop_del_pre_poll_cb : M device Z :=
  q ← get;
  if pre_poll_cb_registered q then modify (set_pre_poll_cb_registered false);; mret 0
  else mret (-1).

Definition qdevice_net_socket_add_to_main_poll_loop : M device Z :=
  i ← get_net;
  let waiting := bool_decide (state i = QDEVICE_NET_INSTANCE_STATE_WAITING_CONNECT) in
  if negb waiting || negb (nb_destroyed (non_blocking_client i)) then
    r ← pr_poll_loop_add_prfd
          (if waiting then nb_socket (non_blocking_client i) else net_socket i);
    mret (if negb (r =? 0) then -1 else 0)
  else mret 0.

Definition qdevice_net_socket_del_from_main_poll_loop : M device Z :=
  i ← get_net;
  r ← (if negb (nb_destroyed (non_blocking_client i))
       then pr_poll_loop_del_prfd (nb_socket (non_blocking_client i)) else mret 0);
  if negb (r =? 0) then mret (-1)
  else
    match net_socket i with
    | None => mret 0
    | Some s => r ← pr_poll_loop_del_prfd (Some s); mret (if negb (r =? 0) then -1 else 0)
    end.

(** ** Reading *)

(** [msgio_read] and [msgio_write] on the socket; reading NULL has no meaning. *)
Definition device_msgio_read : M device Z := λ q,
  let i := net q in
  match net_socket i with
  | None => (Err NULL_DEREF, q)
  | Some s =>
      let '(res, st) :=
        msgio_read (PR_Recv s) PR_GetError PR_WOULD_BLOCK_ERROR beyond
          (mk_msgio (environment q) (receive_buffer i) (msg_already_received_bytes i)
             (net_skipping_msg i) (main_heap q)) in
      (Ok res,
       set_net (set_net_skipping_msg (skipping_msg st)
                  (set_msg_already_received_bytes (already_received_bytes st)
                     (set_receive_buffer (io_msg st) i)))
         (set_main_heap (io_heap st) (set_environment (io_sock st) q)))
  end.

Definition reset_received (i : qdevice_net_instance) : qdevice_net_instance :=
  set_receive_buffer (dynar_clean (receive_buffer i))
    (set_msg_already_received_bytes 0 (set_net_skipping_msg false i)).

Definition qdevice_net_socket_read : M device Z :=
  res ← device_msgio_read;
  if res =? 0 then mret 0
  else if res =? -1 then fail_because QDEVICE_NET_DISCONNECT_REASON_SERVER_CLOSED_CONNECTION
  else if (res =? -2) || (res =? -3) || (res =? -4) || (res =? -6) then
    fail_because QDEVICE_NET_DISCONNECT_REASON_CANT_READ_MESSAGE
  else if res =? -5 then fail_because QDEVICE_NET_DISCONNECT_REASON_UNSUPPORTED_MSG
  else if res =? 1 then
    i ← get_net;
    if net_skipping_msg i then fail EXIT
    else
      r ← qdevice_net_msg_received beyond settings;
      modify_net reset_received;;
      mret (if r =? -1 then -1 else 0)
  else fail EXIT.

(** ** Writing *)

Definition set_active_sent (v : Z) (s : send_buffer_list) : send_buffer_list :=
  mk_sblist (max_list_entries s) (allocated_list_entries s) (max_buffer_size s)
    (alter (λ e, mk_sbe (sb_buffer e) v) 0%nat (sb_list s)) (sb_free_list s).

Definition device_msgio_write (send_buffer : send_buffer_list_entry) : M device Z := λ q,
  let i := net q in
  match net_socket i with
  | None => (Err NULL_DEREF, q)
  | Some s =>
      let '(res, (e, already)) :=
        msgio_write (PR_Send s) PR_GetError PR_WOULD_BLOCK_ERROR (environment q)
          (sb_buffer send_buffer) (msg_already_sent_bytes send_buffer) in
      (Ok res,
       set_net (set_net_send_buffer_list (set_active_sent already (net_send_buffer_list i)) i)
         (set_environment e q))
  end.

Definition qdevice_net_socket_write_finished : M device Z :=
  i ← get_net;
  if negb (bool_decide (state i = QDEVICE_NET_INSTANCE_STATE_WAITING_STARTTLS_BEING_SENT))
  then mret 0
  else
    match net_socket i with
    | None => fail NULL_DEREF
    | Some s =>
        new_pr_fd ← nss_sock_start_ssl_as_client s;
        match new_pr_fd with
        | None => fail_because QDEVICE_NET_DISCONNECT_REASON_CANT_START_TLS
        | Some _ =>
            r ← qdevice_net_send_init settings;
            if negb (r =? 0)
            then fail_because QDEVICE_NET_DISCONNECT_REASON_CANT_ALLOCATE_MSG_BUFFER
            else modify_net (λ i, set_using_tls true (set_net_socket new_pr_fd i));; mret 0
        end
    end.

Definition qdevice_net_socket_write : M device Z :=
  i ← get_net;
  match send_buffer_list_get_active (net_send_buffer_list i) with
  | None => fail_because QDEVICE_NET_DISCONNECT_REASON_CANT_SEND_MESSAGE
  | Some send_buffer =>
      res ← device_msgio_write send_buffer;
      fin ← (if res =? 1 then
               let sent_msg_type := msg_get_type beyond (sb_buffer send_buffer) in
               modify_net (λ i, set_net_send_buffer_list
                 (send_buffer_list_delete 0 (net_send_buffer_list i)) i);;
               if negb (sent_msg_type =? MSG_TYPE_ECHO_REQUEST)
               then qdevice_net_socket_write_finished else mret 0
             else mret 0);
      if fin =? -1 then mret (-1)
      else if res =? -1 then fail_because QDEVICE_NET_DISCONNECT_REASON_SERVER_CLOSED_CONNECTION
      else if res =? -2 then fail_because QDEVICE_NET_DISCONNECT_REASON_CANT_SEND_MESSAGE
      else mret 0
  end.

(** ** Callbacks of the poll loop *)

Definition POLLOUT : Z := 4.

(** The result and the events. *)
Definition socket_set_events_cb (events : Z) : M device (Z * Z) :=
  i ← get_net;
  mret (0, if negb (send_buffer_list_empty (net_send_buffer_list i))
           then Z.lor events POLLOUT else events).

Definition or_schedule_disconnect (m : M device Z) : M device Z :=
  r ← m;
  if r =? -1 then modify_net (set_schedule_disconnect true);; mret (-1) else mret 0.

Definition socket_read_cb : M device Z := or_schedule_disconnect qdevice_net_socket_read.
Definition socket_write_cb : M device Z := or_schedule_disconnect qdevice_net_socket_write.

Definition socket_err_cb : M device Z :=
  schedule_disconnect_because QDEVICE_NET_DISCONNECT_REASON_SERVER_CLOSED_CONNECTION;; mret (-1).

(** The connection is there: talk to the server. *)
Definition connect_succeeded : M device Z :=
  r ← qdevice_net_socket_del_from_main_poll_loop;
  if r =? -1 then mret (-1)
  else
    modify_net (λ i, set_net_socket (nb_socket (non_blocking_client i)) i);;
    nss_sock_non_blocking_client_destroy;;
    modify_client (set_nb_socket None);;
    modify_net (set_state QDEVICE_NET_INSTANCE_STATE_SENDING_PREINIT_REPLY);;
    r ← qdevice_net_socket_add_to_main_poll_loop;
    if r =? -1 then mret (-1)
    else
      r ← qdevice_net_send_preinit settings;
      if negb (r =? 0)
      then fail_because QDEVICE_NET_DISCONNECT_REASON_CANT_ALLOCATE_MSG_BUFFER else mret 0.

(** Try an address, and without one keep the loop running without a socket. *)
Definition try_next_or_give_up : M device Z :=
  r ← nss_sock_non_blocking_client_try_next;
  (if r =? -1 then nss_sock_non_blocking_client_destroy else mret tt);;
  qdevice_net_socket_add_to_main_poll_loop.

Definition non_blocking_client_socket_write_cb (status : connect_status) : M device Z :=
  let res := nss_sock_non_blocking_client_succeeded status in
  if res =? -1 then
    r ← qdevice_net_socket_del_from_main_poll_loop;
    if r =? -1 then mret (-1)
    else r ← try_next_or_give_up; mret (if r =? -1 then -1 else 0)
  else if res =? 0 then mret 0
  else if res =? 1 then connect_succeeded
  else fail EXIT.

Definition non_blocking_client_socket_err_cb (status : connect_status) : M device Z :=
  i ← get_net;
  if negb (nb_destroyed (non_blocking_client i))
  then non_blocking_client_socket_write_cb status else mret 0.
End socket.
