(* ===== verification/QdeviceModelNet.v ===== *)
(** The model net of the device (qdevice-model-net.c): its start, a connection from the first
    attempt to the end, and what is done when the cluster changes.

    The configuration is read before; what the calls of NSS at the start answer is an argument.
    Waiting before the next connection takes time only. *)
From stdpp Require Import strings.
From S2P Require Import Prelude Dynar Tlv NodeList SendBuffer DynarStr Heuristics.
From stdpp Require Import list gmap.
From S2P Require Import TimerList TimerInterface QdeviceInstance QdeviceSend QdeviceAlgorithm.
From S2P Require Import QdeviceHeuristics QdeviceMsgReceived QdeviceSocket.
Local Open Scope Z_scope.

Definition DIVISION_BY_ZERO : Z := -1005.

(** [(int)(x * 0.9)]: the product of doubles is cut off; 0.9 is the double
    8106479329266893 / 2^53.  The interval is half of a 32-bit number, so that the result
    fits into an [int]. *)
Definition times_0_9 (x : Z) : Z := x * 8106479329266893 / 2 ^ 53.

(** Why the poll loop ended (qdevice-model.h). *)
Inductive qdevice_model_post_poll_loop_exit_reason :=
| QDEVICE_MODEL_POST_POLL_LOOP_EXIT_REASON_MODEL
| QDEVICE_MODEL_POST_POLL_LOOP_EXIT_REASON_VOTEQUORUM_CLOSED
| QDEVICE_MODEL_POST_POLL_LOOP_EXIT_REASON_CMAP_CLOSED
| QDEVICE_MODEL_POST_POLL_LOOP_EXIT_REASON_HEURISTICS_CLOSED
| QDEVICE_MODEL_POST_POLL_LOOP_EXIT_REASON_IPC_SOCKET_CLOSED.
#[export] Instance exit_reason_eq_dec : EqDecision qdevice_model_post_poll_loop_exit_reason.
Proof. solve_decision. Defined.

Section model_net.
Context {T E : Type} `{TimerOps qdevice_timer T} `{Environment E}.
Abbreviation device := (qdevice_instance T E).
Context (settings : qdevice_settings).

(** ** The start *)

Definition qdevice_model_net_init (nss_ok : bool) : M device Z :=
  modify (set_net (qdevice_net_instance_init settings));;
  match (qdevice_net_algorithm_register_all : option (list (option (qdevice_net_algorithm T E)))) with
  | None => mret (-1)
  | Some _ =>
      if negb nss_ok then mret (-1)
      else
        r ← qdevice_net_cast_vote_timer_update settings TLV_VOTE_ASK_LATER;
        if negb (r =? 0) then mret (-1)
        else
          r ← qdevice_net_algorithm_init settings;
          if negb (r =? 0) then mret (-1)
          else
            r ← qdevice_net_heuristics_init;
            mret (if negb (r =? 0) then -1 else 0)
  end.

(** ** A connection *)

Definition check_schedule_disconnect_cb : M device Z :=
  i ← get_net; mret (if schedule_disconnect i then -1 else 0).

Definition qdevice_model_net_timer_connect_timeout : M device Z :=
  modify_net (set_schedule_disconnect true);;
  modify_net (set_connect_timer None);;
  disconnect_because QDEVICE_NET_DISCONNECT_REASON_CANT_CONNECT_TO_THE_SERVER;;
  mret 0.

Definition qdevice_model_net_get_af : pr_af :=
  if cfg_force_ip_version settings =? 6 then PR_AF_INET6
  else if cfg_force_ip_version settings =? 4 then PR_AF_INET else PR_AF_UNSPEC.

Definition qdevice_model_net_pre_poll_loop : M device Z :=
  modify_net (set_state QDEVICE_NET_INSTANCE_STATE_WAITING_CONNECT);;
  modify_net (set_net_socket None);;
  p ← on_timers (timer_add (cfg_connect_timeout settings) CONNECT_TIMER);
  modify_net (set_connect_timer p);;
  match p with
  | None => mret (-1)
  | Some _ =>
      nss_sock_non_blocking_client_init qdevice_model_net_get_af;;
      r ← try_next_or_give_up;
      if r =? -1 then nss_sock_non_blocking_client_destroy;; mret (-1)
      else
        r ← pr_poll_loop_add_pre_poll_cb;
        if r =? -1 then
          qdevice_net_socket_del_from_main_poll_loop;;
          nss_sock_non_blocking_client_destroy;;
          mret (-1)
        else mret 0
  end.

Definition map_exit_reason (exit_reason : qdevice_model_post_poll_loop_exit_reason) : M device unit :=
  match exit_reason with
  | QDEVICE_MODEL_POST_POLL_LOOP_EXIT_REASON_MODEL => mret tt
  | QDEVICE_MODEL_POST_POLL_LOOP_EXIT_REASON_VOTEQUORUM_CLOSED
  | QDEVICE_MODEL_POST_POLL_LOOP_EXIT_REASON_CMAP_CLOSED =>
      disconnect_because QDEVICE_NET_DISCONNECT_REASON_COROSYNC_CONNECTION_CLOSED
  | QDEVICE_MODEL_POST_POLL_LOOP_EXIT_REASON_HEURISTICS_CLOSED =>
      disconnect_because QDEVICE_NET_DISCONNECT_REASON_HEURISTICS_WORKER_CLOSED
  | QDEVICE_MODEL_POST_POLL_LOOP_EXIT_REASON_IPC_SOCKET_CLOSED =>
      disconnect_because QDEVICE_NET_DISCONNECT_REASON_LOCAL_SOCKET_CLOSED
  end.

(** [random() % (int)(cast_vote_timer_interval * 0.9)] *)
Definition delay_before_reconnect : M device Z :=
  let max := times_0_9 (cfg_cast_vote_timer_interval settings) in
  if max =? 0 then fail DIVISION_BY_ZERO
  else r ← on_environment env_random; mret (Z.rem r max).

(** The sockets are taken out of the loop and closed. *)
Definition close_sockets : M device unit :=
  modify_net (set_net_socket None);;
  nss_sock_non_blocking_client_destroy;;
  modify_client (set_nb_socket None).

Definition remove_from_loop (restart_loop : bool) (ret_val : Z) : M device (bool * Z) :=
  r ← pr_poll_loop_del_pre_poll_cb;
  let '(restart_loop, ret_val) := if r =? -1 then (false, -1) else (restart_loop, ret_val) in
  r ← qdevice_net_socket_del_from_main_poll_loop;
  let '(restart_loop, ret_val) := if r =? -1 then (false, -1) else (restart_loop, ret_val) in
  close_sockets;;
  mret (restart_loop, ret_val).

Definition qdevice_model_net_post_poll_loop
    (exit_reason : qdevice_model_post_poll_loop_exit_reason) : M device Z :=
  delete_timer connect_timer set_connect_timer;;
  delete_timer echo_request_timer set_echo_request_timer;;
  map_exit_reason exit_reason;;
  i ← get_net;
  let restart_loop := qdevice_net_disconnect_reason_try_reconnect (disconnect_reason i) in
  qdevice_net_cast_vote_timer_set_paused false;;
  '(r, (restart_loop, vote)) ←
    qdevice_net_algorithm_disconnected settings (disconnect_reason i) (restart_loop, TLV_VOTE_NO_CHANGE);
  if negb (r =? 0) then mret (-1)
  else
    qdevice_net_cast_vote_timer_update settings vote;;
    i ← get_net;
    let restart_loop :=
      if qdevice_net_disconnect_reason_force_disconnect (disconnect_reason i)
      then false else restart_loop in
    let ret_val :=
      if bool_decide (disconnect_reason i = QDEVICE_NET_DISCONNECT_REASON_LOCAL_SOCKET_CLOSED)
      then 0 else -1 in
    '(restart_loop, ret_val) ← remove_from_loop restart_loop ret_val;
    i ← get_net;
    (if restart_loop && negb (bool_decide (state i = QDEVICE_NET_INSTANCE_STATE_WAITING_CONNECT))
     then delay_before_reconnect;; mret tt else mret tt);;
    modify_net qdevice_net_instance_clean;;
    mret (if (restart_loop : bool) then 1 else ret_val).

(** ** Changes of the cluster *)

Definition connected (i : qdevice_net_instance) : bool :=
  bool_decide (state i = QDEVICE_NET_INSTANCE_STATE_WAITING_VOTEQUORUM_CMAP_EVENTS).

(** Without a connection a vote is taken back. *)
Definition vote_without_connection (i : qdevice_net_instance) : tlv_vote :=
  if bool_decide (cast_vote_timer_vote i = TLV_VOTE_ACK) then TLV_VOTE_NACK else TLV_VOTE_NO_CHANGE.

(** Whether to send the list, and the vote: what the algorithm starts from. *)
Definition initial_decision (i : qdevice_net_instance) (connected_vote : tlv_vote) : bool * tlv_vote :=
  if connected i then (true, connected_vote) else (false, vote_without_connection i).

Definition update_vote (vote : tlv_vote) (next : M device Z) : M device Z :=
  unless_disconnecting (qdevice_net_cast_vote_timer_update settings vote)
    QDEVICE_NET_DISCONNECT_REASON_CANT_SCHEDULE_VOTING_TIMER next.

Definition send_list_if (send_node_list : bool) (send : M device Z) (next : M device Z) : M device Z :=
  if send_node_list
  then unless_disconnecting send QDEVICE_NET_DISCONNECT_REASON_CANT_ALLOCATE_MSG_BUFFER next
  else next.

Definition qdevice_model_net_config_node_list_changed (nlist : node_list)
    (config_version : option Z) : M device Z :=
  i ← get_net;
  '(r, (send_node_list, vote)) ←
    qdevice_net_algorithm_config_node_list_changed settings nlist config_version
      (initial_decision i TLV_VOTE_NO_CHANGE);
  unless_disconnecting (mret r) QDEVICE_NET_DISCONNECT_REASON_ALGO_CONFIG_NODE_LIST_CHANGED_ERR (
  update_vote vote (
  send_list_if send_node_list (qdevice_net_send_config_node_list nlist config_version false) (
  mret 0))).

Definition qdevice_model_net_get_config_node_list_failed : M device Z :=
  schedule_disconnect_because QDEVICE_NET_DISCONNECT_REASON_CANT_ALLOCATE_MSG_BUFFER;; mret 0.

Definition qdevice_model_net_votequorum_quorum_notify (quorate : Z)
    (node_list : list votequorum_node_t) : M device Z :=
  i ← get_net;
  '(r, (send_node_list, vote)) ←
    qdevice_net_algorithm_votequorum_quorum_notify settings quorate node_list
      (initial_decision i TLV_VOTE_NO_CHANGE);
  unless_disconnecting (mret r) QDEVICE_NET_DISCONNECT_REASON_ALGO_VOTEQUORUM_QUORUM_NOTIFY_ERR (
  update_vote vote (
  send_list_if send_node_list
    (qdevice_net_send_quorum_node_list (quorate_to_tlv quorate) node_list) (
  mret 0))).

Definition qdevice_model_net_votequorum_node_list_heuristics_notify
    (votequorum_ring_id : votequorum_ring_id_t) (node_list : list Z)
    (heuristics_exec_result : Z) : M device Z :=
  let tlv_rid := qdevice_net_votequorum_ring_id_to_tlv votequorum_ring_id in
  heuristics ← qdevice_net_heuristics_exec_result_to_tlv heuristics_exec_result;
  i ← get_net;
  '(r, (send_node_list, vote, heuristics)) ←
    qdevice_net_algorithm_votequorum_node_list_heuristics_notify settings tlv_rid node_list
      (initial_decision i TLV_VOTE_WAIT_FOR_REPLY, heuristics);
  unless_disconnecting (mret r)
    QDEVICE_NET_DISCONNECT_REASON_ALGO_VOTEQUORUM_NODE_LIST_HEURISTICS_NOTIFY_ERR (
  send_list_if send_node_list
    (qdevice_net_send_membership_node_list tlv_rid node_list heuristics) (
  qdevice_net_cast_vote_timer_set_paused false;;
  update_vote vote (
  modify_net (λ i, set_latest_heuristics_result heuristics
                     (set_latest_vq_heuristics_result heuristics i));;
  qdevice_net_heuristics_schedule_timer;;
  mret 0))).

Definition qdevice_model_net_votequorum_node_list_notify
    (votequorum_ring_id : votequorum_ring_id_t) (node_list : list Z) : M device Z :=
  r ← qdevice_net_heuristics_stop_timer;
  if negb (r =? 0) then mret 0
  else
    i ← get_net;
    let vote :=
      if negb (connected i) && bool_decide (cast_vote_timer_vote i = TLV_VOTE_ACK)
      then TLV_VOTE_NACK else TLV_VOTE_NO_CHANGE in
    '(r, (pause_cast_vote_timer, vote)) ←
      qdevice_net_algorithm_votequorum_node_list_notify settings
        (qdevice_net_votequorum_ring_id_to_tlv votequorum_ring_id) node_list (true, vote);
    unless_disconnecting (mret r)
      QDEVICE_NET_DISCONNECT_REASON_ALGO_VOTEQUORUM_NODE_LIST_NOTIFY_ERR (
    update_vote vote (
    qdevice_net_cast_vote_timer_set_paused pause_cast_vote_timer;;
    mret 0)).

Definition qdevice_model_net_votequorum_expected_votes_notify (expected_votes : Z) : M device Z :=
  '(r, vote) ←
    qdevice_net_algorithm_votequorum_expected_votes_notify settings expected_votes TLV_VOTE_NO_CHANGE;
  unless_disconnecting (mret r)
    QDEVICE_NET_DISCONNECT_REASON_ALGO_VOTEQUORUM_EXPECTED_VOTES_NOTIFY_ERR (
  update_vote vote (mret 0)).

(** [heuristics]: the heuristics are among what changed. *)
Definition qdevice_model_net_cmap_changed (heuristics : bool) : M device Z :=
  if negb heuristics then mret 0
  else
    q ← get;
    let active_heuristics_mode := mode (heuristics_instance q) in
    let heuristics_enabled :=
      bool_decide (active_heuristics_mode = QDEVICE_HEURISTICS_MODE_ENABLED) ||
      bool_decide (active_heuristics_mode = QDEVICE_HEURISTICS_MODE_SYNC) in
    if connected (net q) && negb (server_supports_heuristics (net q)) && heuristics_enabled then
      schedule_disconnect_because QDEVICE_NET_DISCONNECT_REASON_SERVER_DOESNT_SUPPORT_REQUIRED_OPT;;
      mret 0
    else qdevice_net_heuristics_schedule_timer;; mret 0.
End model_net.
