(* ===== verification/QdeviceVotequorum.v ===== *)
(** What the poll loop of the device runs: the events of votequorum (qdevice-votequorum.c), the
    lines of the heuristics worker (qdevice-heuristics-cmd.c), the timers, and one round of the
    main loop (corosync-qdevice.c, qdevice-pr-poll-loop-cb.c).

    Messages of the worker for the log are left out. *)
From stdpp Require Import strings.
From S2P Require Import Prelude Dynar Tlv NodeList SendBuffer DynarStr Heuristics.
From stdpp Require Import list gmap.
From S2P Require Import TimerList TimerInterface QdeviceInstance QdeviceSend QdeviceAlgorithm.
From S2P Require Import QdeviceHeuristics QdeviceMsgReceived QdeviceSocket QdeviceModelNet.
Local Open Scope Z_scope.

Section events.
Context {T E : Type} `{TimerOps qdevice_timer T} `{Environment E}.
Abbreviation device := (qdevice_instance T E).
Context (settings : qdevice_settings).

(** An error of the model, or no memory for a copy, ends the process. *)
Definition or_exit (m : M device Z) : M device unit :=
  r ← m; if negb (r =? 0) then fail EXIT else mret tt.

Definition malloc_or_exit : M device unit :=
  o ← malloc_device;
  match o with None => fail EXIT | Some _ => mret tt end.

(** ** Votequorum *)

Definition qdevice_votequorum_quorum_notify_callback (quorate : Z)
    (node_list : list votequorum_node_t) : M device unit :=
  modify (set_sync_in_progress false);;
  or_exit (qdevice_model_net_votequorum_quorum_notify settings quorate node_list);;
  modify (set_vq_quorum_quorate quorate);;
  malloc_or_exit;;
  modify (set_vq_quorum_node_list node_list).

Definition qdevice_votequorum_node_list_notify_callback (votequorum_ring_id : votequorum_ring_id_t)
    (node_list : list Z) : M device unit :=
  modify (set_sync_in_progress true);;
  modify (set_vq_poll_ring_id votequorum_ring_id);;
  or_exit (qdevice_model_net_votequorum_node_list_notify settings votequorum_ring_id node_list);;
  or_exit (notifier_set_active VOTEQUORUM_CALLBACK true);;
  or_exit heuristics_exec;;
  modify (set_vq_node_list_initial_ring_id_set true);;
  modify (set_vq_node_list_ring_id votequorum_ring_id);;
  malloc_or_exit;;
  modify (set_vq_node_list node_list).

Definition qdevice_votequorum_expected_votes_notify_callback (expected_votes : Z) : M device unit :=
  or_exit (qdevice_model_net_votequorum_expected_votes_notify settings expected_votes);;
  modify (set_vq_expected_votes expected_votes).

Definition qdevice_votequorum_heuristics_exec_result_callback (exec_result : Z) : M device Z :=
  or_exit (notifier_set_active VOTEQUORUM_CALLBACK false);;
  q ← get;
  or_exit (qdevice_model_net_votequorum_node_list_heuristics_notify settings
    (vq_node_list_ring_id q) (vq_node_list q) exec_result);;
  modify (set_vq_node_list_initial_heuristics_finished true);;
  modify (set_vq_node_list_heuristics_result exec_result);;
  mret 0.

(** ** Results of the heuristics *)

Definition call_notifier (callback : qdevice_heuristics_callback) (exec_result : Z) : M device Z :=
  match callback with
  | REGULAR_CALLBACK => qdevice_net_regular_heuristics_exec_result_callback settings exec_result
  | CONNECT_CALLBACK => qdevice_net_connect_heuristics_exec_result_callback settings exec_result
  | VOTEQUORUM_CALLBACK => qdevice_votequorum_heuristics_exec_result_callback exec_result
  end.

(** Whether an item is active is seen when its turn comes; callbacks neither add nor remove
    items. *)
Fixpoint notify_loop (items : notifier_list qdevice_heuristics_callback) (exec_result : Z) :
    M device Z :=
  match items with
  | [] => mret 0
  | item :: items' =>
      q ← get;
      match qdevice_heuristics_result_notifier_list_get
              (exec_result_notifier_list (heuristics_instance q)) (notifier_callback item) with
      | Some (_, mk_notifier callback true) =>
          r ← call_notifier callback exec_result;
          if negb (r =? 0) then mret (-1) else notify_loop items' exec_result
      | _ => notify_loop items' exec_result
      end
  end.

Definition qdevice_heuristics_result_notifier_notify (exec_result : Z) : M device Z :=
  q ← get; notify_loop (exec_result_notifier_list (heuristics_instance q)) exec_result.

Definition modify_heuristics (f : qdevice_heuristics_instance qdevice_heuristics_callback →
    qdevice_heuristics_instance qdevice_heuristics_callback) : M device unit :=
  modify (λ q, set_heuristics_instance (f (heuristics_instance q)) q).

(** [sscanf(str, "exec-result %u %u")] *)
Definition parse_exec_result (s : c_string) : option (Z * Z) :=
  s ← scan_text QDEVICE_HEURISTICS_CMD_STR_EXEC_RESULT_ADD_SPACE s;
  '(seq_number, s) ← scan_u32 s;
  s ← scan_text [x20] s;
  '(exec_result, _) ← scan_u32 s;
  Some (seq_number, exec_result).

Definition qdevice_heuristics_cmd_process_exec_result (data : c_string) : M device Z :=
  match parse_exec_result data with
  | None => mret (-1)
  | Some (seq_number, exec_result) =>
      q ← get;
      let instance := heuristics_instance q in
      if negb (waiting_for_result instance) then mret 0
      else if negb (seq_number =? expected_reply_seq_number instance) then mret 0
      else
        modify_heuristics (set_waiting_for_result false);;
        r ← qdevice_heuristics_result_notifier_notify exec_result;
        mret (if negb (r =? 0) then -1 else 0)
  end.

Definition on_cmd_in_buffer {A} (m : M (dynar * heap) A) : M device A := λ q,
  let '(r, (d, h)) := m (cmd_in_buffer (heuristics_instance q), main_heap q) in
  (r, set_main_heap h (set_heuristics_instance (set_cmd_in_buffer d (heuristics_instance q)) q)).

Definition or_minus_1 (m : M device unit) : M device Z := λ q,
  match m q with
  | (Ok _, q') => (Ok 1, q')
  | (Err _, q') => (Ok (-1), q')
  end.

Definition qdevice_heuristics_cmd_process_one_line : M device Z :=
  q ← get;
  let d := cmd_in_buffer (heuristics_instance q) in
  let str := take (Z.to_nat (Dynar.size d)) (data d) in
  let nl_pos := line_length str in
  if (length str <=? nl_pos)%nat then mret 0
  else
    let line := until_nul (take nl_pos str) in
    let command := QDEVICE_HEURISTICS_CMD_STR_EXEC_RESULT_ADD_SPACE in
    if bool_decide (take (length command) line = command) then
      r ← qdevice_heuristics_cmd_process_exec_result line;
      if negb (r =? 0) then mret (-1)
      else
        let zi := S (nl_pos + gap_length (drop (S nl_pos) str)) in
        or_minus_1 (on_cmd_in_buffer (drop_line nl_pos zi))
    else mret (-1).

Fixpoint cmd_process_loop (fuel : nat) : M device Z :=
  match fuel with
  | O => fail OUT_OF_FUEL
  | S fuel' =>
      r ← qdevice_heuristics_cmd_process_one_line;
      if r =? 1 then cmd_process_loop fuel' else mret r
  end.

(** A round takes a byte at least. *)
Definition qdevice_heuristics_cmd_process : M device Z :=
  q ← get; cmd_process_loop (S (Z.to_nat (Dynar.size (cmd_in_buffer (heuristics_instance q))))).

Definition cmd_io_read : M device Z := λ q,
  let i := heuristics_instance q in
  let '(r, (e, (d, h))) :=
    qdevice_heuristics_io_read pipe_read pipe_transient_error
      (environment q, (cmd_in_buffer i, main_heap q)) in
  (r, set_environment e (set_main_heap h (set_heuristics_instance (set_cmd_in_buffer d i) q))).

Definition qdevice_heuristics_cmd_read_from_pipe : M device Z :=
  res ← cmd_io_read;
  if (res =? -1) || (res =? -2) || (res =? -3) then mret (-1)
  else if res =? 1 then qdevice_heuristics_cmd_process
  else mret 0.

Definition qdevice_heuristics_cmd_write : M device Z := λ q,
  let i := heuristics_instance q in
  let l := cmd_out_buffer_list i in
  match send_buffer_list_get_active l with
  | None => (Ok (-1), q)
  | Some send_buffer =>
      let '(res, (e, already)) :=
        qdevice_heuristics_io_write pipe_write pipe_transient_error (environment q)
          (sb_buffer send_buffer) (msg_already_sent_bytes send_buffer) in
      let l := set_active_sent already l in
      let l := if res =? 1 then send_buffer_list_delete 0 l else l in
      (Ok (if (res =? -1) || (res =? -2) then -1 else 0),
       set_environment e (set_heuristics_instance (set_cmd_out_buffer_list l i) q))
  end.

(** ** Callbacks of the poll loop *)

Definition or_heuristics_closed (m : M device Z) : M device Z :=
  r ← m;
  if r =? -1 then modify (set_heuristics_closed true);; mret (-1) else mret 0.

Definition heuristics_pipe_cmd_recv_read_cb : M device Z :=
  or_heuristics_closed qdevice_heuristics_cmd_read_from_pipe.
Definition heuristics_pipe_cmd_send_write_cb : M device Z :=
  or_heuristics_closed qdevice_heuristics_cmd_write.
Definition heuristics_pipe_err_cb : M device Z :=
  modify (set_heuristics_closed true);; mret (-1).

Definition heuristics_pipe_cmd_send_set_events_cb (events : Z) : M device (Z * Z) :=
  q ← get;
  mret (if negb (send_buffer_list_empty (cmd_out_buffer_list (heuristics_instance q)))
        then (0, Z.lor events POLLOUT) else (-1, events)).

(** [ok]: [qdevice_votequorum_dispatch] did not fail; the callbacks it ran are steps of their
    own. *)
Definition votequorum_read_cb (ok : bool) : M device Z :=
  if ok then mret 0 else modify (set_votequorum_closed true);; mret (-1).
Definition votequorum_err_cb : M device Z := modify (set_votequorum_closed true);; mret (-1).

Definition cmap_set_events_cb : M device Z :=
  q ← get; mret (if sync_in_progress q then -1 else 0).
Definition cmap_read_cb (ok : bool) : M device Z :=
  if ok then mret 0 else modify (set_cmap_closed true);; mret (-1).
Definition cmap_err_cb : M device Z := modify (set_cmap_closed true);; mret (-1).

(** What a timer calls; the result tells whether it is started again. *)
Definition call_timer (f : qdevice_timer) : M device Z :=
  match f with
  | CAST_VOTE_TIMER => qdevice_net_cast_vote_timer_callback
  | ECHO_REQUEST_TIMER => qdevice_net_echo_request_timer_callback settings
  | CONNECT_TIMER => qdevice_model_net_timer_connect_timeout
  | HEURISTICS_TIMER => qdevice_net_heuristics_timer_callback
  end.

(** ** The main loop *)

Definition main_loop_exit_reason (q : device) (ipc_is_closed : bool) :
    qdevice_model_post_poll_loop_exit_reason :=
  if votequorum_closed q then QDEVICE_MODEL_POST_POLL_LOOP_EXIT_REASON_VOTEQUORUM_CLOSED
  else if cmap_closed q then QDEVICE_MODEL_POST_POLL_LOOP_EXIT_REASON_CMAP_CLOSED
  else if heuristics_closed q then QDEVICE_MODEL_POST_POLL_LOOP_EXIT_REASON_HEURISTICS_CLOSED
  else if ipc_is_closed then QDEVICE_MODEL_POST_POLL_LOOP_EXIT_REASON_IPC_SOCKET_CLOSED
  else QDEVICE_MODEL_POST_POLL_LOOP_EXIT_REASON_MODEL.

(** After the poll loop ended with [-1]: end this connection and begin the next one. *)
Definition main_loop_restart (ipc_is_closed : bool) : M device Z :=
  q ← get;
  res ← qdevice_model_net_post_poll_loop settings (main_loop_exit_reason q ipc_is_closed);
  if (res =? 0) || (res =? -1) then mret res
  else
    r ← qdevice_model_net_pre_poll_loop settings;
    mret (if r =? -1 then -1 else 1).
End events.
