(* ===== verification/Utils.v ===== *)
(** Parsing of numbers and words in settings and in the configuration (utils.c).

    [strtoll] is written out for bases up to ten; a string ends where the list ends. *)
From stdpp Require Import strings.
From S2P Require Import Prelude Dynar DynarStr.
From stdpp Require Import list.
Local Open Scope Z_scope.

Definition LLONG_MAX : Z := 2 ^ 63 - 1.
Definition LLONG_MIN : Z := - 2 ^ 63.
Definition UINT32_MAX : Z := 2 ^ 32 - 1.
Definition UINT16_MAX : Z := 2 ^ 16 - 1.

(** ** The C library *)

Definition is_base_digit (base : Z) (b : byte) : bool := (48 <=? b2z b) && (b2z b <? 48 + base).

Fixpoint strto_digits (base : Z) (acc : option Z) (s : c_string) : option Z * c_string :=
  match s with
  | b :: s' =>
      if is_base_digit base b then strto_digits base (Some (default 0 acc * base + (b2z b - 48))) s'
      else (acc, s)
  | [] => (acc, [])
  end.

(** The number, whether [errno] is set, and what follows; [None]: [ep == str]. *)
Definition strtoll (base : Z) (s : c_string) : option (Z * bool * c_string) :=
  let '(negative, s) := scan_sign (skip_spaces s) in
  match strto_digits base None s with
  | (None, _) => None
  | (Some v, rest) =>
      let v := if (negative : bool) then - v else v in
      Some (Z.max LLONG_MIN (Z.min LLONG_MAX v), (v <? LLONG_MIN) || (LLONG_MAX <? v), rest)
  end.

Definition to_lower (b : byte) : byte :=
  if (65 <=? b2z b) && (b2z b <=? 90) then z2b (b2z b + 32) else b.

(** [strcasecmp(s1, s2) == 0] *)
Definition strcase_eq (s1 s2 : c_string) : bool :=
  bool_decide ((to_lower <$> s1) = (to_lower <$> s2)).

(** ** The functions *)

Definition utils_parse_bool_str (s : c_string) : Z :=
  if strcase_eq s (str "yes") || strcase_eq s (str "on") || strcase_eq s (str "1") then 1
  else if strcase_eq s (str "no") || strcase_eq s (str "off") || strcase_eq s (str "0") then 0
  else -1.

(** [*res] on success, which is 0. *)
Definition utils_strtonum_base (s : c_string) (min_val max_val base : Z) : option Z :=
  if max_val <? min_val then None
  else
    match strtoll base s with
    | None => None
    | Some (tmp_ll, errno, rest) =>
        if negb (bool_decide (rest = [])) || errno then None
        else if (tmp_ll <? min_val) || (max_val <? tmp_ll) then None
        else Some tmp_ll
    end.

Definition utils_strtonum (s : c_string) (min_val max_val : Z) : option Z :=
  utils_strtonum_base s min_val max_val 10.

(** [Some None]: no umask is set. *)
Definition utils_parse_umask (s : c_string) : option (option Z) :=
  if bool_decide (s = []) then Some None
  else Some <$> utils_strtonum_base s 0 511 8.

(** ** What is accepted *)

Lemma strtonum_base_range s min_val max_val base z :
  utils_strtonum_base s min_val max_val base = Some z → min_val ≤ z ≤ max_val.
Proof.
  unfold utils_strtonum_base. destruct (max_val <? min_val); [done|].
  destruct (strtoll base s) as [[[v errno] rest]|]; [|done]. destruct (_ || errno); [done|].
  destruct (_ || _) eqn:E; [done|]. apply orb_false_iff in E as [E1 E2]. intros [= <-].
  apply Z.ltb_ge in E1, E2. lia.
Qed.

(** The value of a row of digits. *)
Definition digits_value (base : Z) (ds : c_string) : Z :=
  foldl (λ v b, v * base + (b2z b - 48)) 0 ds.

Lemma strto_digits_all base ds acc :
  Forall (λ b, is_base_digit base b = true) ds → ds ≠ [] →
  strto_digits base acc ds =
    (Some (foldl (λ v b, v * base + (b2z b - 48)) (default 0 acc) ds), []).
Proof.
  revert acc. induction ds as [|b ds IH]; intros acc Hd Hn; [done|].
  inversion Hd as [|?? Hb Hd']; subst. cbn [strto_digits foldl]. rewrite Hb.
  destruct ds as [|b' ds]; [done|]. by rewrite IH.
Qed.

Lemma strto_digits_inv base s acc r :
  strto_digits base acc s = (r, []) →
  Forall (λ b, is_base_digit base b = true) s ∧ (s = [] ∧ r = acc ∨ s ≠ [] ∧
    r = Some (foldl (λ v b, v * base + (b2z b - 48)) (default 0 acc) s)).
Proof.
  revert acc. induction s as [|b s IH]; intros acc E.
  - injection E as <-. split; [constructor|by left].
  - cbn [strto_digits] in E. destruct (is_base_digit base b) eqn:Hb; [|done].
    apply IH in E as [Hf E]. split; [by constructor|]. right. split; [done|].
    destruct E as [[-> ->]|[_ ->]]; done.
Qed.

Lemma skip_spaces_app sp s :
  Forall (λ b, is_c_space b = true) sp → skip_spaces (sp ++ s) = skip_spaces s.
Proof. induction 1 as [|b sp Hb _ IH]; [done|]. cbn. by rewrite Hb. Qed.

Lemma skip_spaces_split s :
  ∃ sp, s = sp ++ skip_spaces s ∧ Forall (λ b, is_c_space b = true) sp.
Proof.
  induction s as [|b s (sp & E & Hs)]; [by exists []|]. cbn. destruct (is_c_space b) eqn:Hb.
  - exists (b :: sp). split; [by rewrite E at 1|by constructor].
  - by exists [].
Qed.

(** A sign, or none. *)
Inductive sign_of : bool → c_string → Prop :=
| sign_none : sign_of false []
| sign_plus : sign_of false [x2b]
| sign_minus : sign_of true [x2d].

Lemma scan_sign_split s : ∃ sg, s = sg ++ snd (scan_sign s) ∧ sign_of (fst (scan_sign s)) sg.
Proof.
  destruct s as [|b s]; [exists []; split; [done|constructor]|].
  destruct (decide (b = x2d)) as [->|]; [exists [x2d]; split; [done|constructor]|].
  destruct (decide (b = x2b)) as [->|]; [exists [x2b]; split; [done|constructor]|].
  exists []. destruct b; try done; split; try done; constructor.
Qed.

Lemma digit_no_sign b : is_base_digit 10 b = true → is_c_space b = false ∧ b ≠ x2d ∧ b ≠ x2b.
Proof. intros Hb. destruct b; try discriminate Hb; by split_and!. Qed.

Lemma scan_sign_app negative sg ds :
  sign_of negative sg → Forall (λ b, is_base_digit 10 b = true) ds → ds ≠ [] →
  skip_spaces (sg ++ ds) = sg ++ ds ∧ scan_sign (sg ++ ds) = (negative, ds).
Proof.
  intros Hs Hd Hn. destruct ds as [|b ds]; [done|]. inversion Hd as [|?? Hb _]; subst.
  destruct (digit_no_sign b Hb) as (Hsp & Hm & Hp).
  inversion Hs; subst; [|done..]. cbn [app skip_spaces]. rewrite Hsp. split; [done|].
  by destruct b.
Qed.

Lemma digits_10 base ds : base ≤ 10 →
  Forall (λ b, is_base_digit base b = true) ds → Forall (λ b, is_base_digit 10 b = true) ds.
Proof.
  intros Hb Hf. eapply Forall_impl; [exact Hf|]. intros b. unfold is_base_digit.
  rewrite !andb_true_iff, !Z.ltb_lt. lia.
Qed.

(** [utils_strtonum_base] accepts exactly white space, an optional sign and digits of the base,
    to the end of the string, of a value that is a [long long] and in the range; the result is that
    value. *)
Theorem utils_strtonum_base_correct s min_val max_val base z :
  base ≤ 10 →
  utils_strtonum_base s min_val max_val base = Some z ↔
  ∃ sp negative sg ds,
    s = sp ++ sg ++ ds ∧ Forall (λ b, is_c_space b = true) sp ∧ sign_of negative sg ∧
    Forall (λ b, is_base_digit base b = true) ds ∧ ds ≠ [] ∧
    z = (if negative then - digits_value base ds else digits_value base ds) ∧
    LLONG_MIN ≤ z ≤ LLONG_MAX ∧ min_val ≤ z ≤ max_val.
Proof.
  intros Hbase. unfold utils_strtonum_base, strtoll. split.
  - destruct (max_val <? min_val) eqn:Hmm; [done|]. intros E.
    destruct (skip_spaces_split s) as (sp & Es & Hsp).
    destruct (scan_sign_split (skip_spaces s)) as (sg & Eg & Hsg).
    destruct (scan_sign (skip_spaces s)) as [negative ds]. cbn [fst snd] in *.
    destruct (strto_digits base None ds) as [[v|] rest] eqn:Ed; [|done].
    destruct (bool_decide (rest = [])) eqn:Hr; [|done]. apply bool_decide_eq_true in Hr as ->.
    apply strto_digits_inv in Ed as [Hf [[_ ?]|[Hn [= ->]]]]; [done|].
    fold (digits_value base ds) in *. cbn [negb orb default] in E.
    set (v := if negative then - digits_value base ds else digits_value base ds) in *.
    exists sp, negative, sg, ds.
    destruct ((v <? LLONG_MIN) || (LLONG_MAX <? v)) eqn:Ho; [done|]. zbool.
    replace (Z.max LLONG_MIN (Z.min LLONG_MAX v)) with v in E by lia.
    destruct ((v <? min_val) || (max_val <? v)) eqn:Hx; [done|]. zbool. injection E as <-.
    split_done. by rewrite Es, Eg at 1.
  - intros (sp & negative & sg & ds & -> & Hsp & Hsg & Hd & Hn & Hz & Hl & Hm).
    rewrite (proj2 (Z.ltb_ge _ _)) by lia.
    destruct (scan_sign_app negative sg ds Hsg (digits_10 base ds Hbase Hd) Hn) as [E1 E2].
    rewrite skip_spaces_app, E1, E2, strto_digits_all by done. cbn [default from_option].
    fold (digits_value base ds). rewrite <-Hz. rewrite bool_decide_eq_true_2 by done.
    rewrite !(proj2 (Z.ltb_ge _ _)) by lia. cbn. f_equal. lia.
Qed.

Lemma utils_strtonum_base_correct_witness :
  10 ≤ 10 ∧ utils_strtonum_base (str " -42") (-100) 100 10 = Some (-42).
Proof.
  split; [lia|]. apply utils_strtonum_base_correct; [lia|].
  exists [x20], true, [x2d], (str "42"). split_and!; try done; repeat constructor.
Defined.
