(* ===== verification/QdeviceCmap.v ===== *)
(** The configuration of corosync as the device reads it: the nodes and their changes
    (qdevice-cmap.c), and what the heuristics run (qdevice-instance.c).

    cmap is part of the [Environment].  Names of keys are short enough for the buffers of the
    code.  Settings of the log are left out. *)
From stdpp Require Import strings.
From S2P Require Import Prelude Dynar Tlv NodeList SendBuffer DynarStr Heuristics Utils.
From stdpp Require Import list gmap.
From S2P Require Import TimerList TimerInterface QdeviceInstance QdeviceSend QdeviceAlgorithm.
From S2P Require Import QdeviceHeuristics QdeviceMsgReceived QdeviceSocket QdeviceModelNet.
From S2P Require Import QdeviceVotequorum.
Local Open Scope Z_scope.

(** ** Names of keys *)

(** [%s] of [sscanf]: white space, then at least one other character. *)
Fixpoint take_word (s : c_string) : c_string :=
  match s with b :: s' => if is_c_space b then [] else b :: take_word s' | [] => [] end.
Definition scan_word (s : c_string) : option c_string :=
  match take_word (skip_spaces s) with [] => None | w => Some w end.

(** [sscanf(key_name, "nodelist.node.%u.%s")] *)
Definition parse_node_key (key_name : c_string) : option (Z * c_string) :=
  s ← scan_text (str "nodelist.node.") key_name;
  '(node_pos, s) ← scan_u32 s;
  s ← scan_text (str ".") s;
  tmp_key ← scan_word s;
  Some (node_pos, tmp_key).

Definition node_key (node_pos : Z) (name : c_string) : c_string :=
  str "nodelist.node." ++ fmt_u32 node_pos ++ str "." ++ name.

(** [sscanf(key_name, "quorum.device.heuristics.exec_%[^.]%s") == 1]: what follows has no dot. *)
Definition parse_exec_key (key_name : c_string) : option c_string :=
  name ← scan_text (str "quorum.device.heuristics.exec_") key_name;
  if bool_decide (name = []) || existsb (λ b, bool_decide (b = x2e)) name then None else Some name.

Definition has_prefix (prefix s : c_string) : bool := bool_decide (take (length prefix) s = prefix).

Section cmap.
Context {T E : Type} `{TimerOps qdevice_timer T} `{Environment E}.
Abbreviation device := (qdevice_instance T E).
Context (settings : qdevice_settings).

(** ** The list of nodes *)

Definition qdevice_cmap_autogenerate_node_id (addr : c_string) (clear_node_high_bit : bool) :
    M device Z :=
  ainfo ← on_environment (getaddrinfo_inet addr);
  mret (match ainfo with
        | None => 0
        | Some ip => if clear_node_high_bit then Z.land ip 0x7FFFFFFF else ip
        end).

(** Why there is no node id: the function returns at once, or after it has freed the list. *)
Inductive no_node_id := RETURN_AT_ONCE | ITER_FINALIZE.

Definition get_node_id (clear_node_high_bit : bool) (node_pos : Z) : M device (no_node_id + Z) :=
  '(cs_err, node_id) ← on_environment (cmap_get_uint32 (node_key node_pos (str "nodeid")));
  if bool_decide (cs_err = CS_ERR_NOT_EXIST) then
    addr0 ← on_environment (cmap_get_string (node_key node_pos (str "ring0_addr")));
    match addr0 with
    | None => mret (inl RETURN_AT_ONCE)
    | Some addr0_str =>
        node_id ← qdevice_cmap_autogenerate_node_id addr0_str clear_node_high_bit;
        mret (inr node_id)
    end
  else if negb (bool_decide (cs_err = CS_OK)) then mret (inl ITER_FINALIZE)
  else mret (inr node_id).

(** An operation on a list of nodes, with the memory of the device. *)
Definition on_nodes {A} (m : M (node_list * heap) A) (list : node_list) :
    M device (bool * node_list) := λ q,
  let '(r, (list', h)) := m (list, main_heap q) in
  (Ok (match r with Ok _ => true | Err _ => false end, list'), set_main_heap h q).

(** The result and the list. *)
Fixpoint get_nodelist_loop (clear_node_high_bit : bool) (keys : list (c_string * bool))
    (list : node_list) : M device (Z * node_list) :=
  match keys with
  | [] =>
      mret (if node_list_is_empty list then (-1, node_list_free list) else (0, list))
  | (key_name, _) :: keys' =>
      match parse_node_key key_name with
      | None => get_nodelist_loop clear_node_high_bit keys' list
      | Some (node_pos, tmp_key) =>
          if negb (bool_decide (tmp_key = str "ring0_addr")) &&
             negb (bool_decide (tmp_key = str "name"))
          then get_nodelist_loop clear_node_high_bit keys' list
          else
            node_id ← get_node_id clear_node_high_bit node_pos;
            match node_id with
            | inl RETURN_AT_ONCE => mret (-1, list)
            | inl ITER_FINALIZE => mret (-1, node_list_free list)
            | inr node_id =>
                '(cs_err, dc) ← on_environment (cmap_get_uint32 (node_key node_pos (str "datacenterid")));
                let data_center_id := if bool_decide (cs_err = CS_OK) then dc else 0 in
                match node_list_find_node_id list node_id with
                | Some _ => get_nodelist_loop clear_node_high_bit keys' list
                | None =>
                    '(ok, list) ← on_nodes (node_list_add node_id data_center_id TLV_NODE_STATE_NOT_SET) list;
                    if (ok : bool) then get_nodelist_loop clear_node_high_bit keys' list
                    else mret (-1, node_list_free list)
                end
            end
      end
  end.

Definition qdevice_cmap_get_nodelist : M device (Z * node_list) :=
  tmp_str ← on_environment (cmap_get_string (str "totem.clear_node_high_bit"));
  let clear_node_high_bit := bool_decide (tmp_str = Some (str "yes")) in
  keys ← on_environment (cmap_keys (str "nodelist.node."));
  match keys with
  | None => mret (-1, node_list_init)
  | Some keys => get_nodelist_loop clear_node_high_bit keys node_list_init
  end.

(** [None]: there is no version. *)
Definition qdevice_cmap_get_config_version : M device (option Z) :=
  on_environment (cmap_get_uint64 (str "totem.config_version")).

Definition qdevice_cmap_store_config_node_list : M device Z :=
  modify (λ q, set_config_node_list (node_list_free (config_node_list q)) q);;
  '(r, list) ← qdevice_cmap_get_nodelist;
  modify (set_config_node_list list);;
  if negb (r =? 0) then mret (-1)
  else
    version ← qdevice_cmap_get_config_version;
    modify (set_config_node_list_version version);;
    mret 0.

Definition config_lists_eq (nlist : node_list) : M device Z := λ q,
  let '(r, h) := node_list_eq (config_node_list q) nlist (main_heap q) in (Ok r, set_main_heap h q).

Definition qdevice_cmap_node_list_event : M device unit :=
  let failed := or_exit qdevice_model_net_get_config_node_list_failed in
  '(r, nlist) ← qdevice_cmap_get_nodelist;
  if negb (r =? 0) then failed
  else
    version ← qdevice_cmap_get_config_version;
    r ← config_lists_eq nlist;
    if negb (r =? 0) then mret tt
    else
      or_exit (qdevice_model_net_config_node_list_changed settings nlist version);;
      '(ok, list) ← on_nodes (node_list_clone nlist) [];
      modify (set_config_node_list list);;
      if negb ok then failed
      else
        modify (λ q, set_config_node_list_version version q).

(** ** The heuristics *)

(** A number of the configuration: [false] when it is not valid. *)
Definition configured_number (key : c_string) (min max : Z)
    (set : Z → qdevice_heuristics_instance qdevice_heuristics_callback →
      qdevice_heuristics_instance qdevice_heuristics_callback) : M device bool :=
  s ← on_environment (cmap_get_string key);
  match s with
  | None => mret true
  | Some s =>
      match utils_strtonum s min max with
      | None => mret false
      | Some lli => modify_heuristics (set lli);; mret true
      end
  end.

Definition configured_mode : M device bool :=
  modify_heuristics (set_mode QDEVICE_HEURISTICS_MODE_DISABLED);;
  s ← on_environment (cmap_get_string (str "quorum.device.heuristics.mode"));
  match s with
  | None => mret true
  | Some s =>
      let i := utils_parse_bool_str s in
      if i =? -1 then
        if negb (strcase_eq s (str "sync")) then mret false
        else modify_heuristics (set_mode QDEVICE_HEURISTICS_MODE_SYNC);; mret true
      else
        modify_heuristics (set_mode (if i =? 1 then QDEVICE_HEURISTICS_MODE_ENABLED
                                     else QDEVICE_HEURISTICS_MODE_DISABLED));;
        mret true
  end.

(** A command that cannot be read or stored is left out. *)
Fixpoint get_execs (keys : list (c_string * bool)) (tmp_exec_list : exec_list) :
    M device exec_list :=
  match keys with
  | [] => mret tmp_exec_list
  | (key_name, is_string) :: keys' =>
      match (if is_string : bool then parse_exec_key key_name else None) with
      | None => get_execs keys' tmp_exec_list
      | Some exec_name =>
          command ← on_environment (cmap_get_string key_name);
          match command with
          | None => get_execs keys' tmp_exec_list
          | Some command =>
              q ← get;
              let '(_, (tmp_exec_list, h)) :=
                qdevice_heuristics_exec_list_add exec_name command (tmp_exec_list, main_heap q) in
              modify (set_main_heap h);;
              get_execs keys' tmp_exec_list
          end
      end
  end.

Definition exec_lists_eq (tmp_exec_list : exec_list) : M device Z := λ q,
  let '(r, h) := qdevice_heuristics_exec_list_eq tmp_exec_list
                   (heuristics_exec_list (heuristics_instance q)) (main_heap q) in
  (r, set_main_heap h q).

Definition change_exec_list (l : option exec_list) : M device Z :=
  q ← get;
  r ← on_heuristics (qdevice_heuristics_change_exec_list l (sync_in_progress q));
  mret (if negb (r =? 0) then -1 else 0).

Definition configure_execs : M device Z :=
  q ← get;
  if bool_decide (mode (heuristics_instance q) = QDEVICE_HEURISTICS_MODE_DISABLED)
  then change_exec_list None
  else
    keys ← on_environment (cmap_keys (str "quorum.device.heuristics.exec_"));
    match keys with
    | None => mret (-1)
    | Some keys =>
        tmp_exec_list ← get_execs keys qdevice_heuristics_exec_list_init;
        let no_execs := qdevice_heuristics_exec_list_size tmp_exec_list in
        if (no_execs =? 0) || (heuristics_max_execs settings <? no_execs) then
          modify_heuristics (set_mode QDEVICE_HEURISTICS_MODE_DISABLED);;
          change_exec_list None
        else
          r ← exec_lists_eq tmp_exec_list;
          if r =? 1 then mret 0 else change_exec_list (Some tmp_exec_list)
    end.

Definition qdevice_instance_configure_from_cmap_heuristics : M device Z :=
  modify_heuristics (set_timeout (cfg_heartbeat_timeout settings / 2));;
  ok ← configured_number (str "quorum.device.heuristics.timeout")
         (heuristics_min_timeout settings) (heuristics_max_timeout settings) set_timeout;
  if negb ok then mret (-1)
  else
    modify_heuristics (set_sync_timeout (cfg_sync_heartbeat_timeout settings / 2));;
    ok ← configured_number (str "quorum.device.heuristics.sync_timeout")
           (heuristics_min_timeout settings) (heuristics_max_timeout settings) set_sync_timeout;
    if negb ok then mret (-1)
    else
      modify_heuristics (set_heuristics_interval (u32 (cfg_heartbeat_timeout settings * 3)));;
      ok ← configured_number (str "quorum.device.heuristics.interval")
             (heuristics_min_interval settings) (heuristics_max_interval settings)
             set_heuristics_interval;
      if negb ok then mret (-1)
      else
        ok ← configured_mode;
        if negb ok then mret (-1) else configure_execs.

(** ** Changes *)

Definition qdevice_cmap_heuristics_event : M device unit :=
  or_exit qdevice_instance_configure_from_cmap_heuristics.

Record qdevice_cmap_change_events := mk_events { ev_node_list : bool; ev_heuristics : bool }.

Definition run_events (events : qdevice_cmap_change_events) : M device unit :=
  (if ev_node_list events then qdevice_cmap_node_list_event else mret tt);;
  (if ev_heuristics events then qdevice_cmap_heuristics_event else mret tt);;
  or_exit (qdevice_model_net_cmap_changed (ev_heuristics events)).

(** [new_value] is that of a key of eight bits. *)
Definition qdevice_cmap_reload_cb (key_name : c_string) (new_value : option Z) : M device unit :=
  let reload_key := str "config.totemconfig_reload_in_progress" in
  let reload_value := if bool_decide (key_name = reload_key) then new_value else None in
  if bool_decide (reload_value = Some 1) then modify (set_cmap_reload_in_progress true)
  else
    let all := match reload_value with Some _ => true | None => false end in
    (if all then modify (set_cmap_reload_in_progress false) else mret tt);;
    q ← get;
    if cmap_reload_in_progress q then mret tt
    else
      reload ← on_environment (cmap_get_uint8 reload_key);
      if bool_decide (reload = Some 1) then mret tt
      else
        run_events (mk_events (all || has_prefix (str "nodelist.") key_name)
                      (all || has_prefix (str "quorum.device.heuristics.") key_name)).

(** Whether the callbacks of cmap run. *)
Definition qdevice_cmap_dispatch (cmap_dispatch_ok : bool) : M device Z :=
  q ← get;
  mret (if sync_in_progress q then 0 else if cmap_dispatch_ok then 0 else -1).
End cmap.
