(* ===== verification/QdeviceRun.v ===== *)
(** The device as a state machine: what the poll loop may run next (the callbacks registered in
    qdevice-pr-poll-loop-cb.c, the timers, votequorum, cmap and the heuristics worker), the main
    loop around it (corosync-qdevice.c), and the states that are reached.

    Any callback may come at any time it is registered, and the loop may end at any time: what
    [pr_poll_loop_exec] allows is part of that.  The callbacks of the local socket
    (qdevice-ipc.c, modelled in [QdeviceIpc]) and of the pipe with the log of the heuristics
    worker (qdevice-heuristics-log.c) are not among the events: of what is kept here they only
    end the loop. *)
From stdpp Require Import strings.
From S2P Require Import Prelude Dynar Tlv NodeList Msg SendBuffer DynarStr Heuristics.
From stdpp Require Import list gmap.
From S2P Require Import TimerList TimerInterface QdeviceInstance QdeviceSend QdeviceAlgorithm.
From S2P Require Import QdeviceHeuristics QdeviceMsgReceived QdeviceSocket QdeviceModelNet.
From S2P Require Import QdeviceVotequorum QdeviceCmap.
Local Open Scope Z_scope.

Inductive qdevice_event :=
| TIMER_EXPIRED (timer : nat)
| SOCKET_READABLE
| SOCKET_WRITABLE
| SOCKET_ERROR
| CONNECT_WRITABLE (status : connect_status)
| CONNECT_ERROR (status : connect_status)
| QUORUM_NOTIFY (quorate : Z) (node_list : list votequorum_node_t)
| NODE_LIST_NOTIFY (ring_id : votequorum_ring_id_t) (node_list : list Z)
| EXPECTED_VOTES_NOTIFY (expected_votes : Z)
| VOTEQUORUM_FAILED
| HEURISTICS_READABLE
| HEURISTICS_WRITABLE
| HEURISTICS_ERROR
| CMAP_CHANGED (key_name : c_string) (new_value : option Z)
| CMAP_FAILED
| MAIN_LOOP_STARTED
| POLL_LOOP_ENDED (ipc_is_closed : bool).

Section run.
Context {T E : Type} `{TimerLaws qdevice_timer T} `{Environment E}.
Abbreviation device := (qdevice_instance T E).
Context (settings : qdevice_settings).
Context (beyond : mem).

(** While the device connects the socket in the loop has the callbacks of the non-blocking
    client, then those of the session.  During a change of the ring the callback of cmap's
    descriptor returns without [cmap_dispatch] ([qdevice_cmap_dispatch] tests
    [sync_in_progress] when it is called), so that no change of a key is told then. *)
Definition enabled (e : qdevice_event) (q : device) : Prop :=
  match e with
  | TIMER_EXPIRED p => is_Some (timers_running (main_timers q) !! p)
  | SOCKET_READABLE | SOCKET_WRITABLE | SOCKET_ERROR =>
      polled_sockets q ≠ [] ∧ nb_destroyed (non_blocking_client (net q)) = true
  | CONNECT_WRITABLE _ | CONNECT_ERROR _ =>
      polled_sockets q ≠ [] ∧ nb_destroyed (non_blocking_client (net q)) = false
  | CMAP_CHANGED _ _ => sync_in_progress q = false
  | MAIN_LOOP_STARTED => pre_poll_cb_registered q = false
  | POLL_LOOP_ENDED _ => pre_poll_cb_registered q = true
  | _ => True
  end.

(** What [timer_list_expire] does with the entry of a callback that has returned. *)
Definition qdevice_timer_returned (p : nat) (res : Z) : M device unit := λ q,
  match timers_running (main_timers q) !! p with
  | None => (Ok tt, q)
  | Some _ =>
      if res =? 0 then on_timers (timer_delete p) q else on_timers (timer_reschedule p) q
  end.

Definition qdevice_timer_expired (p : nat) : M device unit :=
  q ← get;
  match timers_running (main_timers q) !! p with
  | None => mret tt
  | Some f => res ← call_timer settings f; qdevice_timer_returned p res
  end.

(** An event, and whether the program goes on after it. *)
Definition goes_on {A} (m : M device A) : M device bool := m;; mret true.

Definition run_event (e : qdevice_event) : M device bool :=
  match e with
  | TIMER_EXPIRED p => goes_on (qdevice_timer_expired p)
  | SOCKET_READABLE => goes_on (socket_read_cb settings beyond)
  | SOCKET_WRITABLE => goes_on (socket_write_cb settings beyond)
  | SOCKET_ERROR => goes_on socket_err_cb
  | CONNECT_WRITABLE status => goes_on (non_blocking_client_socket_write_cb settings status)
  | CONNECT_ERROR status => goes_on (non_blocking_client_socket_err_cb settings status)
  | QUORUM_NOTIFY quorate l => goes_on (qdevice_votequorum_quorum_notify_callback settings quorate l)
  | NODE_LIST_NOTIFY ring_id l => goes_on (qdevice_votequorum_node_list_notify_callback settings ring_id l)
  | EXPECTED_VOTES_NOTIFY n => goes_on (qdevice_votequorum_expected_votes_notify_callback settings n)
  | VOTEQUORUM_FAILED => goes_on votequorum_err_cb
  | HEURISTICS_READABLE => goes_on (heuristics_pipe_cmd_recv_read_cb settings)
  | HEURISTICS_WRITABLE => goes_on heuristics_pipe_cmd_send_write_cb
  | HEURISTICS_ERROR => goes_on heuristics_pipe_err_cb
  | CMAP_CHANGED key_name new_value => goes_on (qdevice_cmap_reload_cb settings key_name new_value)
  | CMAP_FAILED => goes_on cmap_err_cb
  | MAIN_LOOP_STARTED =>
      r ← qdevice_model_net_pre_poll_loop settings; mret (negb (r =? -1))
  | POLL_LOOP_ENDED ipc_is_closed =>
      r ← main_loop_restart settings ipc_is_closed; mret (r =? 1)
  end.

(** ** What the server has granted *)

(** The ring id of a positive vote in a message. *)
Definition message_acks (msg : msg_decoded) : list tlv_ring_id :=
  match dm_vote msg, dm_ring_id msg with
  | Some TLV_VOTE_ACK, Some R => [R]
  | _, _ => []
  end.

(** The ring ids of the positive votes in what is read from the socket next. *)
Definition acks_received (q : device) : list tlv_ring_id :=
  match device_msgio_read beyond q with
  | (Ok 1, q') =>
      if net_skipping_msg (net q') then []
      else
        match msg_decode beyond (receive_buffer (net q')) (msg_decoded_init, main_heap q') with
        | (0, (msg, _)) => message_acks msg
        | _ => []
        end
  | _ => []
  end.

Definition acks_of (e : qdevice_event) (q : device) : list tlv_ring_id :=
  match e with SOCKET_READABLE => acks_received q | _ => [] end.

(** ** Runs *)

(** Before the model starts: votequorum and the heuristics are set up. *)
Record before_model (q : device) : Prop := {
  bm_timers : timers_inv (main_timers q);
  bm_no_timers : timers_running (main_timers q) = ∅;
  bm_rings : vq_poll_ring_id q = vq_node_list_ring_id q;
  bm_polled : polled_sockets q = [];
  bm_registered : pre_poll_cb_registered q = false;
  bm_votes : votes_cast q = [];
  bm_notifiers : notifier_callback <$> exec_result_notifier_list (heuristics_instance q) = [VOTEQUORUM_CALLBACK]
}.

(** [A] are the ring ids the server has granted a vote for so far; the outside changes on its
    own. *)
Inductive reachable : list tlv_ring_id → device → Prop :=
| reachable_start q nss_ok q' :
    before_model q → qdevice_model_net_init settings nss_ok q = (Ok 0, q') → reachable [] q'
| reachable_step A q e q' :
    reachable A q → enabled e q → run_event e q = (Ok true, q') →
    reachable (acks_of e q ++ A) q'
| reachable_outside A q env : reachable A q → reachable A (set_environment env q).

#[export] Instance enabled_dec e q : Decision (enabled e q).
Proof. destruct e; cbn; apply _. Defined.

(** A run of a list of events, and the grants seen on the way; [None] when an event is not
    enabled or the program ends. *)
Fixpoint follow (events : list qdevice_event) (A : list tlv_ring_id) (q : device) :
    option (list tlv_ring_id * device) :=
  match events with
  | [] => Some (A, q)
  | e :: events' =>
      if bool_decide (enabled e q) then
        match run_event e q with
        | (Ok true, q') => follow events' (acks_of e q ++ A) q'
        | _ => None
        end
      else None
  end.

Lemma follow_reachable events A q A' q' :
  reachable A q → follow events A q = Some (A', q') → reachable A' q'.
Proof.
  revert A q. induction events as [|e events IH]; intros A q Hr; cbn [follow].
  - by intros [= <- <-].
  - destruct (bool_decide_reflect (enabled e q)) as [He|]; [|done].
    destruct (run_event e q) as [[[]|c] q1] eqn:E1; [|done..]. apply IH. by eapply reachable_step.
Qed.
End run.
