(* ===== verification/QdeviceSim.v ===== *)
(** A device that runs: a simulated outside with a server and a heuristics worker, and the run
    of one node from its start to the loss of its first connection.

    The server's messages are those the functions of msg.c create.  A read of the socket gives
    what was asked for of what is left, a read of the pipe one line. *)
From stdpp Require Import strings.
From S2P Require Import Prelude Dynar Tlv NodeList Msg SendBuffer DynarStr Heuristics.
From stdpp Require Import list gmap.
From S2P Require Import TimerList TimerListFacts TimerInterface QdeviceInstance QdeviceSend QdeviceAlgorithm.
From S2P Require Import QdeviceHeuristics QdeviceMsgReceived QdeviceSocket QdeviceModelNet.
From S2P Require Import QdeviceVotequorum QdeviceRun.
Local Open Scope Z_scope.

(** ** The outside *)

Record sim := mk_sim { sim_socket : list byte; sim_pipe : list (list byte) }.

Definition sim_take (s : list byte) (n : Z) : Z * list byte * list byte :=
  let r := take (Z.to_nat n) s in
  (if bool_decide (r = []) then -1 else Z.of_nat (length r), r, drop (Z.to_nat n) s).

#[export] Instance sim_environment : Environment sim := {
  env_time e := (0, e);
  env_random e := (1, e);
  votequorum_qdevice_poll _ _ e := (CS_OK, e);
  votequorum_getinfo _ e := (CS_OK, 1, 1, e);
  cmap_get_uint8 _ e := (None, e);
  cmap_get_uint32 _ e := (CS_OK, 1, e);
  cmap_get_uint64 _ e := (None, e);
  cmap_get_string _ e := (None, e);
  cmap_keys _ e := (None, e);
  getaddrinfo_inet _ e := (None, e);
  PR_GetAddrInfoByName _ e := (Some [mk_addr PR_AF_INET 1], e);
  PR_OpenTCPSocket _ e := (Some 7%nat, e);
  PR_SetSocketOption _ e := (true, e);
  PR_Connect _ _ e := (true, e);
  SSL_ImportFD s e := (Some s, e);
  SSL_setup _ e := (true, e);
  PR_Send _ e bytes := (Z.of_nat (length bytes), e);
  PR_Recv _ e n :=
    let '(r, bytes, rest) := sim_take (sim_socket e) n in (r, bytes, mk_sim rest (sim_pipe e));
  PR_GetError _ := 1;
  PR_WOULD_BLOCK_ERROR := 1;
  pipe_read e n :=
    match sim_pipe e with
    | [] => (-1, [], e)
    | line :: rest => (Z.of_nat (length line), line, mk_sim (sim_socket e) rest)
    end;
  pipe_write e bytes := (Z.of_nat (length bytes), e);
  pipe_transient_error _ := true
}.

#[export] Instance sim_timers : TimerOps qdevice_timer (@timer_list qdevice_timer) :=
  timer_list_ops (λ i, i).
#[export] Instance sim_timer_laws : TimerLaws qdevice_timer (@timer_list qdevice_timer) :=
  timer_list_laws (λ i, i) TIMER_LIST_MAX_INTERVAL (2 ^ 30) ltac:(by vm_compute) ltac:(by vm_compute)
    ltac:(by vm_compute) ltac:(intros; lia).

Abbreviation sim_device := (qdevice_instance (@timer_list qdevice_timer) sim).

Definition sim_settings (algorithm : Z) : qdevice_settings := {|
  cfg_tls_supported := TLV_TLS_UNSUPPORTED;
  cfg_decision_algorithm := algorithm;
  cfg_heartbeat_interval := 8000;
  cfg_cast_vote_timer_interval := 5000;
  cfg_connect_timeout := 8000;
  cfg_force_ip_version := 0;
  cfg_cluster_name := str "c";
  cfg_tie_breaker := mk_tie_breaker 1 0;
  cfg_keep_active_partition_tie_breaker := TLV_KEEP_ACTIVE_PARTITION_TIE_BREAKER_DISABLED;
  cfg_node_id := 1;
  cfg_heartbeat_timeout := 10000;
  cfg_sync_heartbeat_timeout := 30000;
  heuristics_min_timeout := 1;
  heuristics_max_timeout := 120000;
  heuristics_min_interval := 1;
  heuristics_max_interval := 3600000;
  heuristics_max_execs := 32;
  net_initial_msg_receive_size := 32768;
  net_initial_msg_send_size := 32768;
  net_min_msg_send_size := 64;
  net_max_msg_receive_size := 16777216;
  net_max_send_buffers := 10
|}.

Definition sim_memory : mem := λ _, x00.

(** ** The start *)

Definition sim_heuristics : qdevice_heuristics_instance qdevice_heuristics_callback :=
  mk_heuristics (send_buffer_list_init 128 1024) (dynar_init 1024) 5000 15000 30000
    QDEVICE_HEURISTICS_MODE_DISABLED false 0 [] [mk_notifier VOTEQUORUM_CALLBACK false].

Definition no_ring : votequorum_ring_id_t := mk_vq_ring_id 0 0.

Definition sim_start (e : sim) : sim_device :=
  mk_qdevice (qdevice_net_instance_init (sim_settings 0)) [] None 0 [] false no_ring [] false 0 no_ring 0 0 0
    false false false false false sim_heuristics [] false (timer_list_init 0) [] e [].

Lemma sim_before_model e : before_model (sim_start e).
Proof. split; try done. exists (λ _, 0). apply timers_ok_init. Qed.

(** ** The messages and lines *)

Definition created (create : dynar * heap → Z * (dynar * heap)) : list byte :=
  let '(_, (d, _)) := create (dynar_init 65536, []) in contents d.

Definition ring (n : Z) : votequorum_ring_id_t := mk_vq_ring_id 1 n.

Definition sim_server (algorithm : Z) : list byte :=
  created (msg_create_preinit_reply true 1 TLV_TLS_UNSUPPORTED 0) ++
  created (msg_create_init_reply true 2 TLV_REPLY_ERROR_CODE_NO_ERROR (Some msg_get_supported_messages)
    (Some tlv_get_supported_options) 65536 65536 (Some [algorithm])) ++
  created (msg_create_node_list_reply 4 TLV_NODE_LIST_TYPE_MEMBERSHIP
    (qdevice_net_votequorum_ring_id_to_tlv (ring 4)) TLV_VOTE_ACK).

Definition sim_worker : list (list byte) :=
  [str "exec-result 1 0" ++ [x0a]; str "exec-result 2 0" ++ [x0a]; str "exec-result 3 0" ++ [x0a]].

(** A header alone, of a type no message has. *)
Definition unknown_header : list byte := [x00; xff; x00; x00; x00; x00].

(** ** The run *)

Definition sim_init (algorithm : Z) (server : list byte) : sim_device :=
  snd (qdevice_model_net_init (sim_settings algorithm) true (sim_start (mk_sim server sim_worker))).

(** A first ring, its heuristics, a connection, PREINIT and INIT, the heuristics after them. *)
Definition sim_connecting : list qdevice_event :=
  [NODE_LIST_NOTIFY (ring 4) [1; 2]; HEURISTICS_READABLE; MAIN_LOOP_STARTED;
   CONNECT_WRITABLE CONNECTED; SOCKET_READABLE; SOCKET_READABLE; SOCKET_READABLE; SOCKET_READABLE;
   HEURISTICS_READABLE].

(** The server answers with ACK; the header is read before the rest. *)
Definition sim_granting : list qdevice_event := [SOCKET_READABLE; SOCKET_READABLE].

(** The other node leaves the ring, and the server is gone. *)
Definition sim_losing : list qdevice_event :=
  [NODE_LIST_NOTIFY (ring 5) [1]; SOCKET_ERROR; POLL_LOOP_ENDED false].

Definition sim_run (algorithm : Z) (server : list byte) (events : list qdevice_event) :
    option (list tlv_ring_id * sim_device) :=
  follow (sim_settings algorithm) sim_memory events [] (sim_init algorithm server).

Lemma run_fst {S A} (m : M S A) s a : fst (m s) = Ok a → m s = (Ok a, snd (m s)).
Proof. by destruct (m s) as [r s'] eqn:E; intros [= ->]. Qed.

(** What a run reaches. *)
Definition sim_grants (algorithm : Z) (server : list byte) (events : list qdevice_event) :
    list tlv_ring_id :=
  default [] (fst <$> sim_run algorithm server events).
Definition sim_state (algorithm : Z) (server : list byte) (events : list qdevice_event) : sim_device :=
  default (sim_init algorithm server) (snd <$> sim_run algorithm server events).

Definition sim_runs (algorithm : Z) (server : list byte) (events : list qdevice_event) : bool :=
  match sim_run algorithm server events with Some _ => true | None => false end.

Definition init_succeeds (algorithm : Z) (server : list byte) : bool :=
  match fst (qdevice_model_net_init (sim_settings algorithm) true (sim_start (mk_sim server sim_worker))) with
  | Ok r => r =? 0
  | Err _ => false
  end.

Lemma sim_reachable algorithm server events :
  init_succeeds algorithm server = true → sim_runs algorithm server events = true →
  reachable (sim_settings algorithm) sim_memory (sim_grants algorithm server events)
    (sim_state algorithm server events).
Proof.
  unfold init_succeeds, sim_runs, sim_grants, sim_state. intros Hi.
  destruct (sim_run algorithm server events) as [[A q]|] eqn:Hr; [|done]. intros _. cbn.
  eapply follow_reachable; [|exact Hr].
  apply (reachable_start _ _ (sim_start (mk_sim server sim_worker)) true); [apply sim_before_model|].
  unfold sim_init. apply run_fst. destruct (fst _) as [r|]; [|done]. by apply Z.eqb_eq in Hi as ->.
Qed.
