(* ===== verification/QdeviceLogic.v ===== *)
(** Reasoning about the device: the part of its state that matters for its safety, as a view,
    and weakest preconditions over views.

    [runs v m Q]: from a device of view [v] the function [m] ends in a result and a view in
    [Q], or it exits; it never reads NULL, fails an assertion, or runs out of fuel. *)
From stdpp Require Import strings.
From S2P Require Import Prelude Dynar Tlv NodeList SendBuffer DynarStr Heuristics.
From stdpp Require Import list gmap.
From S2P Require Import TimerList TimerInterface QdeviceInstance QdeviceSend.
Local Open Scope Z_scope.

(** ** Views *)

(** The handles of the timers, the vote and the connection. *)
Record net_view := mk_nview {
  n_cast : option nat;
  n_echo : option nat;
  n_connect : option nat;
  n_heuristics : option nat;
  n_vote : tlv_vote;
  n_paused : bool;
  n_state : qdevice_net_instance_state;
  n_last_sent : tlv_ring_id;
  n_data : option algo_lms_instance_data;
  n_socket : option nat;
  n_client_socket : option nat;
  n_client_destroyed : bool
}.

Definition nview (i : qdevice_net_instance) : net_view :=
  mk_nview (cast_vote_timer i) (echo_request_timer i) (connect_timer i)
    (regular_heuristics_timer i) (cast_vote_timer_vote i) (cast_vote_timer_paused i) (state i)
    (last_sent_ring_id i) (algorithm_data i) (net_socket i) (nb_socket (non_blocking_client i))
    (nb_destroyed (non_blocking_client i)).

Definition handle_of (f : qdevice_timer) (i : qdevice_net_instance) : option nat :=
  match f with
  | CAST_VOTE_TIMER => cast_vote_timer i
  | ECHO_REQUEST_TIMER => echo_request_timer i
  | CONNECT_TIMER => connect_timer i
  | HEURISTICS_TIMER => regular_heuristics_timer i
  end.
Definition set_handle_of (f : qdevice_timer) (v : option nat) :
    qdevice_net_instance → qdevice_net_instance :=
  match f with
  | CAST_VOTE_TIMER => set_cast_vote_timer v
  | ECHO_REQUEST_TIMER => set_echo_request_timer v
  | CONNECT_TIMER => set_connect_timer v
  | HEURISTICS_TIMER => set_regular_heuristics_timer v
  end.

Definition n_handle (f : qdevice_timer) (n : net_view) : option nat :=
  match f with
  | CAST_VOTE_TIMER => n_cast n
  | ECHO_REQUEST_TIMER => n_echo n
  | CONNECT_TIMER => n_connect n
  | HEURISTICS_TIMER => n_heuristics n
  end.
Definition n_set_handle (f : qdevice_timer) (p : option nat) (n : net_view) : net_view :=
  let '(mk_nview a b c d e g h i j k l m) := n in
  match f with
  | CAST_VOTE_TIMER => mk_nview p b c d e g h i j k l m
  | ECHO_REQUEST_TIMER => mk_nview a p c d e g h i j k l m
  | CONNECT_TIMER => mk_nview a b p d e g h i j k l m
  | HEURISTICS_TIMER => mk_nview a b c p e g h i j k l m
  end.
Definition n_set_vote (vote : tlv_vote) (n : net_view) : net_view :=
  let '(mk_nview a b c d _ g h i j k l m) := n in mk_nview a b c d vote g h i j k l m.
Definition n_set_paused (x : bool) (n : net_view) : net_view :=
  let '(mk_nview a b c d e _ h i j k l m) := n in mk_nview a b c d e x h i j k l m.
Definition n_set_state (x : qdevice_net_instance_state) (n : net_view) : net_view :=
  let '(mk_nview a b c d e g _ i j k l m) := n in mk_nview a b c d e g x i j k l m.
Definition n_set_last_sent (x : tlv_ring_id) (n : net_view) : net_view :=
  let '(mk_nview a b c d e g h _ j k l m) := n in mk_nview a b c d e g h x j k l m.
Definition n_set_data (x : option algo_lms_instance_data) (n : net_view) : net_view :=
  let '(mk_nview a b c d e g h i _ k l m) := n in mk_nview a b c d e g h i x k l m.
Definition n_set_socket (x : option nat) (n : net_view) : net_view :=
  let '(mk_nview a b c d e g h i j _ l m) := n in mk_nview a b c d e g h i j x l m.
Definition n_set_client (s : option nat) (x : bool) (n : net_view) : net_view :=
  let '(mk_nview a b c d e g h i j k _ _) := n in mk_nview a b c d e g h i j k s x.

Create Rewrite HintDb nview.
Ltac by_net i := by destruct i as [].

Lemma nview_handle f p i : nview (set_handle_of f p i) = n_set_handle f p (nview i).
Proof. destruct f; by_net i. Qed.
Lemma n_handle_nview f i : n_handle f (nview i) = handle_of f i.
Proof. by destruct f. Qed.
Lemma nview_vote x i : nview (set_cast_vote_timer_vote x i) = n_set_vote x (nview i).
Proof. by_net i. Qed.
Lemma nview_paused x i : nview (set_cast_vote_timer_paused x i) = n_set_paused x (nview i).
Proof. by_net i. Qed.
Lemma nview_state x i : nview (set_state x i) = n_set_state x (nview i).
Proof. by_net i. Qed.
Lemma nview_last_sent x i : nview (set_last_sent_ring_id x i) = n_set_last_sent x (nview i).
Proof. by_net i. Qed.
Lemma nview_data x i : nview (set_algorithm_data x i) = n_set_data x (nview i).
Proof. by_net i. Qed.
Lemma nview_socket x i : nview (set_net_socket x i) = n_set_socket x (nview i).
Proof. by_net i. Qed.
Lemma nview_client x i :
  nview (set_non_blocking_client x i) = n_set_client (nb_socket x) (nb_destroyed x) (nview i).
Proof. by_net i. Qed.
#[export] Hint Rewrite nview_handle nview_vote nview_paused nview_state nview_last_sent nview_data
  nview_socket nview_client : nview.

(** The setters of the fields that do not matter. *)
Definition unseen (f : qdevice_net_instance → qdevice_net_instance) : Prop :=
  ∀ i, nview (f i) = nview i.

Lemma unseen_receive_buffer x : unseen (set_receive_buffer x). Proof. intros i; by_net i. Qed.
Lemma unseen_send_buffer_list x : unseen (set_net_send_buffer_list x). Proof. intros i; by_net i. Qed.
Lemma unseen_skipping_msg x : unseen (set_net_skipping_msg x). Proof. intros i; by_net i. Qed.
Lemma unseen_already_received x : unseen (set_msg_already_received_bytes x).
Proof. intros i; by_net i. Qed.
Lemma unseen_last_msg_seq_num x : unseen (set_last_msg_seq_num x). Proof. intros i; by_net i. Qed.
Lemma unseen_expected_seq_num x : unseen (set_echo_request_expected_msg_seq_num x).
Proof. intros i; by_net i. Qed.
Lemma unseen_received_seq_num x : unseen (set_echo_reply_received_msg_seq_num x).
Proof. intros i; by_net i. Qed.
Lemma unseen_using_tls x : unseen (set_using_tls x). Proof. intros i; by_net i. Qed.
Lemma unseen_schedule_disconnect x : unseen (set_schedule_disconnect x).
Proof. intros i; by_net i. Qed.
Lemma unseen_disconnect_reason x : unseen (set_disconnect_reason x). Proof. intros i; by_net i. Qed.
Lemma unseen_reply_time x : unseen (set_last_echo_reply_received_time x).
Proof. intros i; by_net i. Qed.
Lemma unseen_connected_since x : unseen (set_connected_since_time x). Proof. intros i; by_net i. Qed.
Lemma unseen_supports_heuristics x : unseen (set_server_supports_heuristics x).
Proof. intros i; by_net i. Qed.
Lemma unseen_supports_kap x : unseen (set_server_supports_keep_active_partition_tie_breaker x).
Proof. intros i; by_net i. Qed.
Lemma unseen_regular_result x : unseen (set_latest_regular_heuristics_result x).
Proof. intros i; by_net i. Qed.
Lemma unseen_connect_result x : unseen (set_latest_connect_heuristics_result x).
Proof. intros i; by_net i. Qed.
Lemma unseen_vq_result x : unseen (set_latest_vq_heuristics_result x). Proof. intros i; by_net i. Qed.
Lemma unseen_result x : unseen (set_latest_heuristics_result x). Proof. intros i; by_net i. Qed.
#[export] Hint Rewrite unseen_receive_buffer unseen_send_buffer_list unseen_skipping_msg
  unseen_already_received unseen_last_msg_seq_num unseen_expected_seq_num unseen_received_seq_num
  unseen_using_tls unseen_schedule_disconnect unseen_disconnect_reason unseen_reply_time
  unseen_connected_since unseen_supports_heuristics unseen_supports_kap unseen_regular_result
  unseen_connect_result unseen_vq_result unseen_result : nview.

Section logic.
Context {T E : Type} `{TimerOps qdevice_timer T} `{Environment E}.
Abbreviation device := (qdevice_instance T E).

Record view := mk_view {
  v_net : net_view;
  v_timers : T;
  v_ring : votequorum_ring_id_t;
  v_list_ring : votequorum_ring_id_t;
  v_polled : list nat;
  v_notifiers : list qdevice_heuristics_callback;
  v_votes : list (Z * votequorum_ring_id_t);
  v_registered : bool
}.

Definition view_of (q : device) : view :=
  mk_view (nview (net q)) (main_timers q) (vq_poll_ring_id q) (vq_node_list_ring_id q)
    (polled_sockets q)
    (notifier_callback <$> exec_result_notifier_list (heuristics_instance q)) (votes_cast q)
    (pre_poll_cb_registered q).

Definition v_set_net (x : net_view) (v : view) : view :=
  let '(mk_view _ b c d e f g h) := v in mk_view x b c d e f g h.
Definition v_set_timers (x : T) (v : view) : view :=
  let '(mk_view a _ c d e f g h) := v in mk_view a x c d e f g h.
Definition v_set_ring (x : votequorum_ring_id_t) (v : view) : view :=
  let '(mk_view a b _ d e f g h) := v in mk_view a b x d e f g h.
Definition v_set_list_ring (x : votequorum_ring_id_t) (v : view) : view :=
  let '(mk_view a b c _ e f g h) := v in mk_view a b c x e f g h.
Definition v_set_polled (x : list nat) (v : view) : view :=
  let '(mk_view a b c d _ f g h) := v in mk_view a b c d x f g h.
Definition v_set_votes (x : list (Z * votequorum_ring_id_t)) (v : view) : view :=
  let '(mk_view a b c d e f _ h) := v in mk_view a b c d e f x h.

Definition v_set_registered (x : bool) (v : view) : view :=
  let '(mk_view a b c d e f g _) := v in mk_view a b c d e f g x.
Definition v_set_notifiers (x : list qdevice_heuristics_callback) (v : view) : view :=
  let '(mk_view a b c d e _ g h) := v in mk_view a b c d e x g h.

Lemma view_of_heuristics x q :
  view_of (set_heuristics_instance x q) =
  v_set_notifiers (notifier_callback <$> exec_result_notifier_list x) (view_of q).
Proof. by destruct q. Qed.
Lemma v_notifiers_id v : v_set_notifiers (v_notifiers v) v = v.
Proof. by destruct v. Qed.

(** ** Weakest preconditions *)

Definition runs {A} (v : view) (m : M device A) (Q : A → view → Prop) : Prop := ∀ q,
  view_of q = v →
  match m q with
  | (Ok a, q') => Q a (view_of q')
  | (Err c, _) => c = EXIT
  end.

Lemma runs_mono {A} v (m : M device A) (Q Q' : A → view → Prop) :
  runs v m Q → (∀ a v', Q a v' → Q' a v') → runs v m Q'.
Proof.
  intros Hm HQ q Hq. specialize (Hm q Hq). destruct (m q) as [[a|c] q']; [by apply HQ|done].
Qed.

Lemma runs_ret {A} v (a : A) (Q : A → view → Prop) : Q a v → runs v (mret a) Q.
Proof. by intros HQ q <-. Qed.
Lemma runs_exit {A} v (Q : A → view → Prop) : runs v (fail EXIT) Q.
Proof. done. Qed.

Lemma runs_bind {A B} v (m : M device A) (f : A → M device B) Q :
  runs v m (λ a v', runs v' (f a) Q) → runs v (m ≫= f) Q.
Proof.
  intros Hm q Hq. specialize (Hm q Hq). destruct (m q) as [[a|c] q'] eqn:Em.
  - rewrite (bind_ok _ _ _ _ _ Em). by apply Hm.
  - by rewrite (bind_err _ _ _ _ _ Em).
Qed.

Lemma runs_get v (Q : device → view → Prop) :
  (∀ q, view_of q = v → Q q v) → runs v get Q.
Proof. intros HQ q Hq. cbn. rewrite Hq. by apply HQ. Qed.
Lemma runs_get_net v (Q : qdevice_net_instance → view → Prop) :
  (∀ i, nview i = v_net v → Q i v) → runs v get_net Q.
Proof. intros HQ q Hq. cbn. rewrite Hq. apply HQ. by rewrite <-Hq. Qed.

Lemma runs_modify v f (Q : unit → view → Prop) :
  (∀ q, view_of q = v → Q tt (view_of (f q))) → runs v (modify f) Q.
Proof. intros HQ q Hq. by apply HQ. Qed.

Lemma view_of_net x q : view_of (set_net x q) = v_set_net (nview x) (view_of q).
Proof. by destruct q. Qed.

Lemma runs_modify_net v f (Q : unit → view → Prop) :
  (∀ i, nview i = v_net v → Q tt (v_set_net (nview (f i)) v)) → runs v (modify_net f) Q.
Proof.
  intros HQ. apply runs_modify. intros q Hq. rewrite view_of_net, Hq. apply HQ. by rewrite <-Hq.
Qed.

(** ** Functions that change nothing that matters *)

Definition hidden {A} (m : M device A) : Prop := ∀ q,
  match m q with
  | (Ok _, q') => view_of q' = view_of q
  | (Err c, _) => c = EXIT
  end.

Lemma runs_hidden {A} v (m : M device A) (Q : A → view → Prop) :
  hidden m → (∀ a, Q a v) → runs v m Q.
Proof. intros Hm HQ q Hq. specialize (Hm q). destruct (m q) as [[a|c] q']; [by rewrite Hm, Hq|done]. Qed.

Lemma hidden_runs {A} (m : M device A) : (∀ v, runs v m (λ _ v', v' = v)) → hidden m.
Proof. intros Hm q. apply (Hm _ q eq_refl). Qed.

Lemma hidden_ret {A} (a : A) : hidden (mret a). Proof. done. Qed.
Lemma hidden_exit {A} : hidden (fail (A:=A) EXIT). Proof. done. Qed.
Lemma hidden_get : hidden get. Proof. done. Qed.
Lemma hidden_get_net : hidden get_net. Proof. done. Qed.
Lemma hidden_bind {A B} (m : M device A) (f : A → M device B) :
  hidden m → (∀ a, hidden (f a)) → hidden (m ≫= f).
Proof.
  intros Hm Hf. apply hidden_runs. intros v. apply runs_bind, runs_hidden; [done|].
  intros a. by apply runs_hidden.
Qed.
Lemma hidden_modify_net f : unseen f → hidden (modify_net f).
Proof. intros Hf q. cbn. rewrite view_of_net, Hf. by destruct q. Qed.
Lemma hidden_modify f : (∀ q, view_of (f q) = view_of q) → hidden (modify f).
Proof. intros Hf q. apply Hf. Qed.
Lemma hidden_set_heap h : hidden (modify (set_main_heap h)).
Proof. apply hidden_modify. by intros []. Qed.
Lemma hidden_heap f : hidden (modify (λ q, set_main_heap (f q) q)).
Proof. apply hidden_modify. by intros []. Qed.
Lemma hidden_environment {A} (op : E → A * E) : hidden (on_environment op).
Proof. intros q. unfold on_environment. destruct (op _). by destruct q. Qed.
Lemma hidden_malloc : hidden malloc_device.
Proof. intros q. unfold malloc_device. destruct (malloc _). by destruct q. Qed.
Lemma hidden_disconnect_because r : hidden (disconnect_because r).
Proof. apply hidden_modify_net, unseen_disconnect_reason. Qed.
Lemma hidden_schedule_disconnect_because r : hidden (schedule_disconnect_because r).
Proof. apply hidden_modify_net. intros i. by autorewrite with nview. Qed.
Lemma hidden_fail_because r : hidden (fail_because r).
Proof. apply hidden_bind; [apply hidden_disconnect_because|intros; apply hidden_ret]. Qed.
End logic.
Arguments view T : clear implicits.

Create HintDb hidden discriminated.
#[export] Hint Constants Opaque : hidden.
#[export] Hint Resolve hidden_ret hidden_exit hidden_get hidden_get_net hidden_heap
  hidden_environment hidden_malloc hidden_disconnect_because hidden_schedule_disconnect_because
  hidden_fail_because hidden_set_heap : hidden.

(** [hidden] and [unseen] by the structure of the function. *)
Ltac hidden_step :=
  match goal with
  | |- hidden (_ ≫= _) => apply hidden_bind; [|intros ?]
  | |- hidden (modify_net _) => apply hidden_modify_net; intros ?; autorewrite with nview; reflexivity
  | |- hidden (if ?b then _ else _) => destruct b
  | |- hidden (match ?x with _ => _ end) => destruct x
  | |- hidden (let '(_, _) := ?x in _) => destruct x
  | |- hidden _ => solve [eauto with hidden]
  end.
Ltac hidden_tac := repeat first [hidden_step | progress (cbv beta iota zeta)].

(** One step of a symbolic run. *)
Ltac runs_step :=
  match goal with
  | |- runs _ (_ ≫= _) _ => apply runs_bind
  | |- runs _ (mret _) _ => apply runs_ret
  | |- runs _ (fail EXIT) _ => apply runs_exit
  | |- runs _ get_net _ => apply runs_get_net; intros ?i ?Hi
  | |- runs _ (modify_net _) _ =>
      apply runs_modify_net; intros ?i ?Hi; autorewrite with nview;
      match goal with Hi : nview ?i = _ |- _ => rewrite Hi; clear i Hi end
  | |- runs _ _ _ => apply runs_hidden; [solve [eauto with hidden]|intros ?]
  end.
