(* ===== verification/QdeviceFacts.v ===== *)
(** What the functions of the device do to the part of its state that matters, for the messages
    it sends, the heuristics and the decision algorithms. *)
From stdpp Require Import strings.
From S2P Require Import Prelude Dynar Tlv NodeList SendBuffer DynarStr Heuristics.
From stdpp Require Import list gmap.
From S2P Require Import TimerList TimerInterface QdeviceInstance QdeviceSend QdeviceAlgorithm.
From S2P Require Import QdeviceHeuristics QdeviceLogic.
Local Open Scope Z_scope.

Section facts.
Context {T E : Type} `{TimerLaws qdevice_timer T} `{Environment E}.
Abbreviation device := (qdevice_instance T E).
Abbreviation view := (view T).
Context (settings : qdevice_settings).

(** ** Messages *)

Lemma hidden_send_message before create :
  unseen before → hidden (T:=T) (E:=E) (send_message before create).
Proof.
  intros Hb. unfold send_message.
  apply hidden_bind; [auto with hidden|]. intros i. apply hidden_bind; [auto with hidden|]. intros q.
  destruct (send_buffer_list_get_new _ _) as [o [l h]].
  apply hidden_bind; [auto with hidden|]. intros _. apply hidden_bind; [hidden_tac|]. intros _.
  destruct o; [|hidden_tac]. apply hidden_bind; [by apply hidden_modify_net|]. intros _.
  apply hidden_bind; [auto with hidden|]. intros i'. destruct (create _ _) as [sz [b h']]. hidden_tac.
Qed.

Lemma unseen_next : unseen next_msg_seq_num.
Proof. intros i. unfold next_msg_seq_num. by autorewrite with nview. Qed.
Lemma unseen_id : unseen id. Proof. done. Qed.
Hint Resolve hidden_send_message unseen_next unseen_id : hidden.

Lemma hidden_send_echo_request : hidden (T:=T) (E:=E) qdevice_net_send_echo_request.
Proof. apply hidden_send_message. intros i. by autorewrite with nview. Qed.
Lemma hidden_send_ask_for_vote : hidden (T:=T) (E:=E) qdevice_net_send_ask_for_vote.
Proof. apply hidden_send_message, unseen_next. Qed.
Lemma hidden_send_config_node_list nlist version initial :
  hidden (T:=T) (E:=E) (qdevice_net_send_config_node_list nlist version initial).
Proof. apply hidden_send_message, unseen_next. Qed.
Lemma hidden_send_heuristics_change h :
  hidden (T:=T) (E:=E) (qdevice_net_send_heuristics_change h).
Proof. apply hidden_send_message, unseen_next. Qed.
Lemma hidden_send_set_option a b c d : hidden (T:=T) (E:=E) (qdevice_net_send_set_option a b c d).
Proof. apply hidden_send_message, unseen_next. Qed.

Lemma hidden_build_node_list m : hidden (T:=T) (E:=E) (build_node_list m).
Proof.
  intros q. unfold build_node_list. destruct (m _) as [[|c] [nl h]]; [by destruct q|].
  destruct (c =? EXIT); [done|by destruct q].
Qed.
Hint Resolve hidden_send_echo_request hidden_send_config_node_list hidden_send_heuristics_change
  hidden_send_set_option hidden_build_node_list : hidden.

Lemma hidden_send_quorum_node_list quorate l :
  hidden (T:=T) (E:=E) (qdevice_net_send_quorum_node_list quorate l).
Proof. unfold qdevice_net_send_quorum_node_list. hidden_tac. Qed.

(** Sending the membership stores its ring id. *)
Lemma runs_send_membership_node_list (v : view) ring_id l heuristics (Q : Z → view → Prop) :
  Q (-1) v → Q 0 (v_set_net (n_set_last_sent ring_id (v_net v)) v) →
  runs (E:=E) v (qdevice_net_send_membership_node_list ring_id l heuristics) Q.
Proof.
  intros HN HZ. unfold qdevice_net_send_membership_node_list. runs_step.
  runs_step. destruct a as [nlist|]; [|by runs_step]. runs_step. runs_step.
  destruct (negb _); [by runs_step|]. runs_step. runs_step. by runs_step.
Qed.

Lemma runs_send_preinit (v : view) (Q : Z → view → Prop) :
  Q (-1) v →
  Q 0 (v_set_net (n_set_state QDEVICE_NET_INSTANCE_STATE_WAITING_PREINIT_REPLY (v_net v)) v) →
  runs (E:=E) v (qdevice_net_send_preinit settings) Q.
Proof.
  intros HN HZ. unfold qdevice_net_send_preinit. runs_step. runs_step.
  destruct (negb _); [by runs_step|]. runs_step. runs_step. by runs_step.
Qed.

Lemma runs_send_init (v : view) (Q : Z → view → Prop) :
  Q (-1) v →
  Q 0 (v_set_net (n_set_state QDEVICE_NET_INSTANCE_STATE_WAITING_INIT_REPLY
         (n_set_last_sent (qdevice_net_votequorum_ring_id_to_tlv (v_list_ring v)) (v_net v))) v) →
  runs (E:=E) v (qdevice_net_send_init settings) Q.
Proof.
  intros HN HZ. unfold qdevice_net_send_init. runs_step.
  eapply runs_hidden; [apply hidden_modify_net, unseen_next|]. intros _. runs_step.
  apply runs_get. intros q Hq. runs_step. runs_step. destruct (negb _); [by runs_step|].
  runs_step. runs_step. runs_step. runs_step. runs_step.
  replace (vq_node_list_ring_id q) with (v_list_ring v) by by rewrite <-Hq.
  by destruct v.
Qed.

(** ** The heuristics *)

Abbreviation heuristics := (qdevice_heuristics_instance qdevice_heuristics_callback * heap)%type.

(** The functions that talk to the worker keep the notifiers. *)
Definition calm {A} (m : M heuristics A) : Prop := ∀ i h,
  match m (i, h) with
  | (Ok _, (i', _)) => exec_result_notifier_list i' = exec_result_notifier_list i
  | (Err _, _) => False
  end.

Lemma calm_ret {A} (a : A) : calm (mret a). Proof. done. Qed.
Lemma calm_bind {A B} (m : M heuristics A) (f : A → M heuristics B) :
  calm m → (∀ a, calm (f a)) → calm (m ≫= f).
Proof.
  intros Hm Hf i h. specialize (Hm i h). destruct (m (i, h)) as [[a|] [i' h']] eqn:Em; [|done].
  rewrite (bind_ok _ _ _ _ _ Em). specialize (Hf a i' h'). destruct (f a _) as [[] []]; [|done].
  congruence.
Qed.
Lemma calm_get : calm get. Proof. done. Qed.
Lemma calm_queue_cmd w : calm (queue_cmd w).
Proof.
  intros i h. unfold queue_cmd. destruct (send_buffer_list_get_new _ _) as [[e|] [l h']]; [|done].
  destruct (w _) as [[] []]; done.
Qed.
Lemma calm_on_exec_list {A} (m : M (exec_list * heap) A) :
  (∀ s, is_Some (match fst (m s) with Ok a => Some a | Err _ => None end)) → calm (on_exec_list m).
Proof.
  intros Hm i h. unfold on_exec_list. destruct (Hm (heuristics_exec_list i, h)) as [a Ha].
  destruct (m _) as [[|] [l h']]; [done|done].
Qed.

Lemma calm_exec sync : calm (qdevice_heuristics_exec sync).
Proof.
  apply calm_bind; [done|]. intros _. apply calm_bind; [done|]. intros [i h]. apply calm_queue_cmd.
Qed.

Lemma calm_write_entries l : calm (write_exec_list_entries l).
Proof.
  induction l as [|e l IH]; [done|]. apply calm_bind; [apply calm_queue_cmd|]. intros r.
  by destruct (negb _).
Qed.

Lemma exec_list_add_total name command s :
  is_Some (match fst (qdevice_heuristics_exec_list_add name command s) with Ok a => Some a | Err _ => None end).
Proof.
  destruct s as [l h]. unfold qdevice_heuristics_exec_list_add.
  repeat (destruct (malloc _) as [[|] ?]; [|done]). done.
Qed.

Lemma exec_list_clone_total l s :
  is_Some (match fst (qdevice_heuristics_exec_list_clone l s) with Ok a => Some a | Err _ => None end).
Proof.
  unfold qdevice_heuristics_exec_list_clone. destruct s as [l0 h0].
  rewrite (bind_ok (modify _) _ (l0, h0) tt (qdevice_heuristics_exec_list_init, h0) eq_refl).
  generalize (qdevice_heuristics_exec_list_init, h0).
  induction l as [|e l IH]; intros s; [done|]. cbn [exec_list_clone_loop].
  pose proof (exec_list_add_total (exec_name e) (exec_command e) s) as [a Ha].
  destruct (qdevice_heuristics_exec_list_add _ _ s) as [[b|] s'] eqn:Ea; [|done].
  rewrite (bind_ok _ _ _ _ _ Ea). destruct b; [apply IH|]. by destruct s'.
Qed.

Lemma calm_change_exec_list l sync : calm (qdevice_heuristics_change_exec_list l sync).
Proof.
  apply calm_bind.
  { apply calm_bind; [apply calm_queue_cmd|]. intros r. destruct (negb _); [done|].
    destruct l; [apply calm_write_entries|done]. }
  intros r. destruct (negb _); [done|].
  apply calm_bind; [by apply calm_on_exec_list|]. intros _. apply calm_bind.
  { destruct l; [|done]. apply calm_on_exec_list. apply exec_list_clone_total. }
  intros r'. destruct (negb _); [done|]. apply calm_bind; [done|]. intros [i h].
  destruct (qdevice_heuristics_waiting_for_result _); [|done].
  apply calm_bind; [apply calm_exec|]. done.
Qed.

Lemma hidden_on_heuristics {A} (m : M heuristics A) : calm m → hidden (T:=T) (E:=E) (on_heuristics m).
Proof.
  intros Hm q. unfold on_heuristics. specialize (Hm (heuristics_instance q) (main_heap q)).
  destruct (m _) as [[a|c] [i h]]; [|done]. destruct q; unfold view_of; cbn in *. by rewrite Hm.
Qed.

Lemma hidden_heuristics_exec : hidden (T:=T) (E:=E) heuristics_exec.
Proof. apply hidden_bind; [auto with hidden|]. intros q. apply hidden_on_heuristics, calm_exec. Qed.

(** A function in the list can be told of results or not. *)
Lemma runs_notifier_set_active (v : view) callback active (Q : Z → view → Prop) :
  callback ∈ v_notifiers v → Q 0 v → runs (E:=E) v (notifier_set_active callback active) Q.
Proof.
  intros Hin HQ q Hq. unfold notifier_set_active, qdevice_heuristics_result_notifier_list_set_active,
    qdevice_heuristics_result_notifier_list_get.
  set (l := exec_result_notifier_list (heuristics_instance q) : list (notifier_item qdevice_heuristics_callback)).
  destruct (list_find _ l) as [[k item]|] eqn:Ef.
  - apply list_find_Some in Ef as (Hk & Hc & _).
    assert (El : notifier_callback <$> <[k:=mk_notifier callback active]> l = notifier_callback <$> l).
    { etransitivity; [apply (list_fmap_insert notifier_callback l)|]. apply list_insert_id. rewrite list_lookup_fmap, Hk. cbn. by rewrite Hc. }
    rewrite view_of_heuristics. change (exec_result_notifier_list (set_exec_result_notifier_list ?x _)) with x.
    match goal with |- context [v_set_notifiers ?x _] => replace x with (notifier_callback <$> l) by done end.
    rewrite Hq. replace (notifier_callback <$> l) with (v_notifiers v) by by rewrite <-Hq.
    by rewrite v_notifiers_id.
  - exfalso. rewrite list_find_None in Ef. rewrite <-Hq in Hin. cbn in Hin.
    apply list_elem_of_fmap in Hin as (item & -> & Hin).
    rewrite Forall_forall in Ef. by apply (Ef item).
Qed.

Lemma hidden_result_to_tlv r : hidden (T:=T) (E:=E) (qdevice_net_heuristics_exec_result_to_tlv r).
Proof. unfold qdevice_net_heuristics_exec_result_to_tlv. hidden_tac. Qed.
End facts.
#[export] Hint Resolve hidden_send_message unseen_next unseen_id
  hidden_send_echo_request hidden_send_ask_for_vote hidden_send_config_node_list
  hidden_send_heuristics_change hidden_send_set_option hidden_build_node_list
  hidden_send_quorum_node_list hidden_heuristics_exec hidden_result_to_tlv : hidden.
