(* ===== verification/QdeviceInvariant.v ===== *)
(** The invariant of the device, and that casting the vote and the timers keep it.

    A view is [ok A] when the timers that run are those of the handles, a timer casts a vote
    that can be cast, the connection and the poll loop agree, and - with the fifty-fifty split
    algorithm - a positive vote is backed by the server: [A] are the ring ids for which the
    server has sent an ACK. *)
From stdpp Require Import strings.
From S2P Require Import Prelude Dynar Tlv NodeList SendBuffer DynarStr Heuristics.
From stdpp Require Import list gmap.
From S2P Require Import TimerList TimerInterface QdeviceInstance QdeviceSend QdeviceAlgorithm.
From S2P Require Import QdeviceHeuristics QdeviceLogic QdeviceFacts.
Local Open Scope Z_scope.

Section invariant.
Context {T E : Type} `{TimerLaws qdevice_timer T} `{Environment E}.
Abbreviation device := (qdevice_instance T E).
Abbreviation view := (view T).
Context (settings : qdevice_settings).

Definition ffsplit : Prop := cfg_decision_algorithm settings = TLV_DECISION_ALGORITHM_TYPE_FFSPLIT.
Definition lms : Prop := cfg_decision_algorithm settings = TLV_DECISION_ALGORITHM_TYPE_LMS.

Definition tlv_of : votequorum_ring_id_t → tlv_ring_id := qdevice_net_votequorum_ring_id_to_tlv.

(** ** The parts *)

(** A handle points to a running timer; a timer that runs has its handle, but for one that is
    just being expired ([x]), and for one that repeats the vote: it stays when votequorum
    refuses the vote. *)
Record timers_part (x : option nat) (v : view) : Prop := {
  tp_inv : timers_inv (v_timers v);
  tp_handle : ∀ f p, n_handle f (v_net v) = Some p → timers_running (v_timers v) !! p = Some f;
  tp_running : ∀ f p, timers_running (v_timers v) !! p = Some f → f ≠ CAST_VOTE_TIMER →
    x ≠ Some p → n_handle f (v_net v) = Some p
}.

Definition castable (vote : tlv_vote) : Prop := vote = TLV_VOTE_ACK ∨ vote = TLV_VOTE_NACK.

Record base (x : option nat) (A : list tlv_ring_id) (v : view) : Prop := {
  b_timers : timers_part x v;
  b_cast : is_Some (n_cast (v_net v)) → castable (n_vote (v_net v));
  b_notifiers : v_notifiers v = [VOTEQUORUM_CALLBACK; REGULAR_CALLBACK; CONNECT_CALLBACK];
  b_data : lms → is_Some (n_data (v_net v));
  b_votes : ffsplit → ∀ R, (1, R) ∈ v_votes v → tlv_of R ∈ A
}.

(** The socket in the poll loop is that of the connection, or of the attempt to connect. *)
Record sockets_part (v : view) : Prop := {
  sp_client : n_client_destroyed (v_net v) = false →
    n_socket (v_net v) = None ∧
    n_state (v_net v) = QDEVICE_NET_INSTANCE_STATE_WAITING_CONNECT ∧
    (v_registered v = true → is_Some (n_client_socket (v_net v)));
  sp_socket : v_polled v ≠ [] → n_client_destroyed (v_net v) = true → is_Some (n_socket (v_net v));
  sp_polled : v_registered v = false → v_polled v = [];
  sp_single : (length (v_polled v) ≤ 1)%nat;
  sp_idle : v_registered v = false →
    n_connect (v_net v) = None ∧ n_state (v_net v) = QDEVICE_NET_INSTANCE_STATE_WAITING_CONNECT
}.

Definition is_connected (n : net_view) : Prop :=
  n_state n = QDEVICE_NET_INSTANCE_STATE_WAITING_VOTEQUORUM_CMAP_EVENTS.

(** While connected the server knows the ring, or no vote is cast. *)
Definition synced (v : view) : Prop :=
  is_connected (v_net v) → n_paused (v_net v) = true ∨ n_last_sent (v_net v) = tlv_of (v_ring v).

(** A positive vote is that of the server for the ring it knows. *)
Definition acked (A : list tlv_ring_id) (n : net_view) : Prop :=
  ffsplit → n_vote n = TLV_VOTE_ACK → is_connected n ∧ n_last_sent n ∈ A.

Record ok (A : list tlv_ring_id) (v : view) : Prop := {
  ok_base : base None A v;
  ok_sockets : sockets_part v;
  ok_synced : synced v;
  ok_acked : acked A (v_net v);
  ok_rings : v_list_ring v = v_ring v
}.

(** What allows a positive vote to be cast. *)
Definition may_ack (A : list tlv_ring_id) (v : view) : Prop :=
  ffsplit → n_paused (v_net v) = true ∨ tlv_of (v_ring v) ∈ A.

Lemma ok_may_ack A v : ok A v → n_vote (v_net v) = TLV_VOTE_ACK → may_ack A v.
Proof.
  intros [_ _ Hs Ha _] Hv Hf. destruct (Ha Hf Hv) as [Hc Hin].
  destruct (Hs Hc) as [|E0]; [by left|right]. by rewrite <-E0.
Qed.

(** ** Timers *)

Lemma runs_timer_add (v : view) i f (Q : option nat → view → Prop) :
  timers_inv (v_timers v) →
  (∀ p t, timers_running (v_timers v) !! p = None → timers_inv t →
    timers_running t = <[p := f]> (timers_running (v_timers v)) → Q (Some p) (v_set_timers t v)) →
  (∀ t, timers_inv t → timers_running t = timers_running (v_timers v) → Q None (v_set_timers t v)) →
  runs (E:=E) v (on_timers (timer_add i f)) Q.
Proof.
  intros Hi HS HN q Hq. unfold on_timers.
  assert (Et : main_timers q = v_timers v) by by rewrite <-Hq.
  pose proof (timer_add_law (main_timers q) (main_heap q) i f) as Hl. rewrite Et in *.
  specialize (Hl Hi). destruct (timer_add i f _) as [[[p|]|c] [t h]]; [| |done].
  - destruct Hl as (Hn & Hi' & Hr). replace (view_of _) with (v_set_timers t v); [by apply HS|].
    rewrite <-Hq. by destruct q.
  - destruct Hl as (Hi' & Hr & _). replace (view_of _) with (v_set_timers t v); [by apply HN|].
    rewrite <-Hq. by destruct q.
Qed.

Lemma runs_timer_delete (v : view) p (Q : unit → view → Prop) :
  timers_inv (v_timers v) → is_Some (timers_running (v_timers v) !! p) →
  (∀ t, timers_inv t → timers_running t = delete p (timers_running (v_timers v)) →
    Q tt (v_set_timers t v)) →
  runs (E:=E) v (on_timers (timer_delete p)) Q.
Proof.
  intros Hi Hs HQ q Hq. unfold on_timers.
  assert (Et : main_timers q = v_timers v) by by rewrite <-Hq.
  pose proof (timer_delete_law (main_timers q) (main_heap q) p) as Hl. rewrite Et in *.
  specialize (Hl Hi Hs). destruct (timer_delete p _) as [[[]|c] [t h]]; [|done].
  destruct Hl as (_ & Hi' & Hr). replace (view_of _) with (v_set_timers t v); [by apply HQ|].
  rewrite <-Hq. by destruct q.
Qed.

Lemma runs_timer_reschedule (v : view) p (Q : unit → view → Prop) :
  timers_inv (v_timers v) → is_Some (timers_running (v_timers v) !! p) →
  (∀ t, timers_inv t → timers_running t = timers_running (v_timers v) → Q tt (v_set_timers t v)) →
  runs (E:=E) v (on_timers (timer_reschedule p)) Q.
Proof.
  intros Hi Hs HQ q Hq. unfold on_timers.
  assert (Et : main_timers q = v_timers v) by by rewrite <-Hq.
  pose proof (timer_reschedule_law (main_timers q) (main_heap q) p) as Hl. rewrite Et in *.
  specialize (Hl Hi Hs). destruct (timer_reschedule p _) as [[[]|c] [t h]]; [|done].
  destruct Hl as (Hi' & Hr). replace (view_of _) with (v_set_timers t v); [by apply HQ|].
  rewrite <-Hq. by destruct q.
Qed.

(** Another handle, other timers; the rest of a view. *)
Definition v_set_handle (f : qdevice_timer) (p : option nat) (t : T) (v : view) : view :=
  v_set_net (n_set_handle f p (v_net v)) (v_set_timers t v).

Lemma n_handle_set f f' p n :
  n_handle f' (n_set_handle f p n) = if decide (f' = f) then p else n_handle f' n.
Proof. destruct n, f, f'; done. Qed.
Lemma v_net_handle f p t v : v_net (v_set_handle f p t v) = n_set_handle f p (v_net v).
Proof. by destruct v. Qed.
Lemma v_timers_handle f p t v : v_timers (v_set_handle f p t v) = t.
Proof. by destruct v. Qed.

Lemma timers_start x f v p t :
  timers_part x v → n_handle f (v_net v) = None → timers_running (v_timers v) !! p = None →
  timers_inv t → timers_running t = <[p := f]> (timers_running (v_timers v)) →
  timers_part x (v_set_handle f (Some p) t v).
Proof.
  intros [_ Hh Hr] Hf Hn Hi Et. split; rewrite ?v_timers_handle, ?v_net_handle; [done|..]; rewrite Et.
  - intros f' p'. rewrite n_handle_set. destruct (decide (f' = f)) as [->|].
    + intros [= ->]. by rewrite lookup_insert_eq.
    + intros E0. rewrite lookup_insert_ne; [by apply Hh|]. intros ->. apply Hh in E0. congruence.
  - intros f' p' E0 Hc Hx. rewrite n_handle_set.
    destruct (decide (p = p')) as [->|Hne].
    + rewrite lookup_insert_eq in E0. injection E0 as ->. by rewrite decide_True.
    + rewrite lookup_insert_ne in E0 by done. specialize (Hr _ _ E0 Hc Hx).
      rewrite decide_False; [done|]. intros ->. congruence.
Qed.

Lemma timers_stop x f v p t :
  timers_part x v → n_handle f (v_net v) = Some p →
  timers_inv t → timers_running t = delete p (timers_running (v_timers v)) →
  timers_part x (v_set_handle f None t v).
Proof.
  intros [_ Hh Hr] Hf Hi Et. pose proof (Hh _ _ Hf) as Hp.
  split; rewrite ?v_timers_handle, ?v_net_handle; [done|..]; rewrite Et.
  - intros f' p'. rewrite n_handle_set. destruct (decide (f' = f)) as [->|]; [done|].
    intros E0. rewrite lookup_delete_ne; [by apply Hh|]. intros ->. apply Hh in E0. congruence.
  - intros f' p' E0 Hc Hx. apply lookup_delete_Some in E0 as [Hne E0]. rewrite n_handle_set.
    specialize (Hr _ _ E0 Hc Hx). rewrite decide_False; [done|]. intros ->. congruence.
Qed.

(** The handle of a timer that is being expired is given up. *)
Lemma timers_forget f v p :
  timers_part None v → timers_running (v_timers v) !! p = Some f →
  timers_part (Some p) (v_set_handle f None (v_timers v) v).
Proof.
  intros [Hi Hh Hr] Hp. split; rewrite ?v_timers_handle, ?v_net_handle; [done|..].
  - intros f' p'. rewrite n_handle_set. destruct (decide (f' = f)); [done|]. apply Hh.
  - intros f' p' E0 Hc Hx. rewrite n_handle_set. pose proof (Hr _ _ E0 Hc ltac:(done)) as E1.
    destruct (decide (f' = f)) as [->|]; [|done]. pose proof (Hr _ _ Hp Hc ltac:(done)). congruence.
Qed.

(** Then it is deleted, or, when it is started again, nothing has changed. *)
Lemma timers_expired f v p t :
  timers_part (Some p) v → timers_running (v_timers v) !! p = Some f → n_handle f (v_net v) = None →
  timers_inv t → timers_running t = delete p (timers_running (v_timers v)) →
  timers_part None (v_set_timers t v).
Proof.
  intros [_ Hh Hr] Hp Hf Hi Et. replace (v_set_timers t v) with (v_set_handle f None t v).
  2: { destruct v as [n]. unfold v_set_handle. cbn in *. f_equal. destruct n, f; cbn in *; congruence. }
  split; rewrite ?v_timers_handle, ?v_net_handle; [done|..]; rewrite Et.
  - intros f' p'. rewrite n_handle_set. destruct (decide (f' = f)) as [->|]; [done|].
    intros E0. rewrite lookup_delete_ne; [by apply Hh|]. intros ->. apply Hh in E0. congruence.
  - intros f' p' E0 Hc _. apply lookup_delete_Some in E0 as [Hne E0].
    rewrite n_handle_set. specialize (Hr _ _ E0 Hc ltac:(congruence)).
    rewrite decide_False; [done|]. intros ->. congruence.
Qed.

Lemma timers_weaken p v : timers_part None v → timers_part (Some p) v.
Proof. intros [? ? Hr]. split; [done..|]. intros f' p' ???. by apply Hr. Qed.

Lemma v_set_handle_id f v : n_handle f (v_net v) = None → v_set_handle f None (v_timers v) v = v.
Proof.
  destruct v as [n]. unfold v_set_handle. cbn. intros Hf. f_equal. by destruct n, f; cbn in *; subst.
Qed.

(** ** The parts under changes of a view *)

Lemma base_handle x x' A f p t v :
  base x A v → timers_part x' (v_set_handle f p t v) →
  (f = CAST_VOTE_TIMER → is_Some p → castable (n_vote (v_net v))) →
  base x' A (v_set_handle f p t v).
Proof.
  intros [Ht Hc Hn Hd Hv] Ht' Hp. destruct v as [[] tv r lr pl no vo re].
  split; [done|..]; destruct f; cbn in *; auto.
Qed.

(** Whatever keeps the handles, the vote, the notifiers, the data and the votes keeps [base]. *)
Lemma base_same x A v v' :
  base x A v → v_timers v' = v_timers v → (∀ f, n_handle f (v_net v') = n_handle f (v_net v)) →
  n_vote (v_net v') = n_vote (v_net v) → v_notifiers v' = v_notifiers v →
  (lms → is_Some (n_data (v_net v'))) → v_votes v' = v_votes v → base x A v'.
Proof.
  intros [[Hi Hh Hr] Hc Hn Hd Hv] Et Eh Ev En Hd' Evs. split.
  - split; rewrite Et; [done|..]; setoid_rewrite Eh; auto.
  - rewrite Ev. pose proof (Eh CAST_VOTE_TIMER) as Ec. cbn in Ec. by rewrite Ec.
  - by rewrite En.
  - done.
  - by rewrite Evs.
Qed.

Lemma runs_forget_timer x (v : view) f (Q : unit → view → Prop) :
  timers_part x v →
  (∀ t, timers_part x (v_set_handle f None t v) → Q tt (v_set_handle f None t v)) →
  runs (E:=E) v (delete_timer (handle_of f) (set_handle_of f)) Q.
Proof.
  intros Hb HQ. unfold delete_timer. apply runs_bind, runs_get_net. intros i Hi.
  assert (Eh : handle_of f i = n_handle f (v_net v)) by by rewrite <-Hi, n_handle_nview.
  destruct (handle_of f i) as [p|].
  - pose proof (tp_handle _ _ Hb f p ltac:(done)) as Hp.
    apply runs_bind, runs_timer_delete; [apply Hb|by eexists|]. intros t Hti Htr.
    apply runs_modify_net. intros j Hj. rewrite nview_handle, Hj.
    replace (v_set_net _ _) with (v_set_handle f None t v) by by destruct v.
    apply HQ. by eapply timers_stop.
  - apply runs_ret. rewrite <-(v_set_handle_id f v) by done. apply HQ.
    by rewrite v_set_handle_id.
Qed.

Lemma runs_delete_timer x A (v : view) f (Q : unit → view → Prop) :
  base x A v →
  (∀ t, base x A (v_set_handle f None t v) → Q tt (v_set_handle f None t v)) →
  runs (E:=E) v (delete_timer (handle_of f) (set_handle_of f)) Q.
Proof.
  intros Hb HQ. eapply runs_forget_timer; [apply Hb|]. intros t Ht. apply HQ.
  eapply base_handle; [done..|by intros _ []].
Qed.

(** ** Casting the vote *)

(** The vote changed, its timer and what votequorum was told; nothing else. *)
Record vote_update (vote : tlv_vote) (v v' : view) : Prop := {
  vu_vote : n_vote (v_net v') = vote;
  vu_echo : n_echo (v_net v') = n_echo (v_net v);
  vu_connect : n_connect (v_net v') = n_connect (v_net v);
  vu_heuristics : n_heuristics (v_net v') = n_heuristics (v_net v);
  vu_paused : n_paused (v_net v') = n_paused (v_net v);
  vu_state : n_state (v_net v') = n_state (v_net v);
  vu_last_sent : n_last_sent (v_net v') = n_last_sent (v_net v);
  vu_data : n_data (v_net v') = n_data (v_net v);
  vu_socket : n_socket (v_net v') = n_socket (v_net v);
  vu_client : n_client_socket (v_net v') = n_client_socket (v_net v);
  vu_destroyed : n_client_destroyed (v_net v') = n_client_destroyed (v_net v);
  vu_ring : v_ring v' = v_ring v;
  vu_list_ring : v_list_ring v' = v_list_ring v;
  vu_polled : v_polled v' = v_polled v;
  vu_notifiers : v_notifiers v' = v_notifiers v;
  vu_registered : v_registered v' = v_registered v
}.

Lemma vote_update_set vote p t l v :
  vote_update vote v
    (v_set_votes l (v_set_timers t (v_set_net (n_set_vote vote (n_set_handle CAST_VOTE_TIMER p (v_net v))) v))).
Proof. by destruct v as [[]]. Qed.

Lemma runs_votequorum_poll (v : view) cast_vote (Q : Z → view → Prop) :
  (∀ r, Q r (v_set_votes ((cast_vote, v_ring v) :: v_votes v) v)) →
  runs (E:=E) v (qdevice_votequorum_poll cast_vote) Q.
Proof.
  intros HQ. unfold qdevice_votequorum_poll. runs_step. runs_step.
  apply runs_bind, runs_modify. intros q Hq. replace (view_of _) with v by (rewrite <-Hq; by destruct q).
  apply runs_bind, runs_get. intros q' Hq'. runs_step. runs_step.
  apply runs_bind, runs_modify. intros q2 Hq2. apply runs_ret.
  replace (view_of _) with (v_set_votes ((cast_vote, v_ring v) :: v_votes v) v); [apply HQ|].
  rewrite <-Hq2 at 3. assert (E2 : v_ring v = vq_poll_ring_id q2 ∧ v_votes v = votes_cast q2) by by rewrite <-Hq2.
  destruct E2 as [-> ->]. by destruct q2.
Qed.

Lemma base_cast x A (v : view) b :
  base x A v → (b = 1 → ffsplit → tlv_of (v_ring v) ∈ A) →
  base x A (v_set_votes ((b, v_ring v) :: v_votes v) v).
Proof.
  intros [[Hi Hh Hr] Hc Hn Hd Hv] Hb. destruct v as [n tv r lr pl no vo re]. cbn in *.
  split; [by split|done..|]. intros Hf R Hin. cbn in Hin. apply elem_of_cons in Hin as [[= <- ->]|Hin].
  - by apply Hb.
  - by apply Hv.
Qed.

(** The timer goes on after a vote was cast, or when it is paused; it ends when votequorum
    refuses the vote. *)
Lemma runs_cast_vote_timer_callback A (v : view) (Q : Z → view → Prop) x :
  base x A v → (n_vote (v_net v) = TLV_VOTE_ACK → may_ack A v) →
  (∀ l, base x A (v_set_votes l v) → Q (-1) (v_set_votes l v)) →
  (∀ l, base x A (v_set_votes l v) →
     Q 0 (v_set_handle CAST_VOTE_TIMER None (v_timers v) (v_set_votes l v))) →
  runs (E:=E) v qdevice_net_cast_vote_timer_callback Q.
Proof.
  intros Hb Ha HN HZ. unfold qdevice_net_cast_vote_timer_callback. apply runs_bind, runs_get_net.
  intros i Hi.
  assert (Ep : cast_vote_timer_paused i = n_paused (v_net v)) by by rewrite <-Hi.
  assert (Ev : cast_vote_timer_vote i = n_vote (v_net v)) by by rewrite <-Hi.
  destruct (cast_vote_timer_paused i) eqn:Epi.
  { apply runs_ret. specialize (HN (v_votes v)). replace (v_set_votes (v_votes v) v) with v in HN by by destruct v.
    by apply HN. }
  assert (Hcast : ∀ b, (b = 1 → ffsplit → tlv_of (v_ring v) ∈ A) →
    runs (E:=E) v (r ← qdevice_votequorum_poll b;
      if negb (r =? 0) then
        schedule_disconnect_because QDEVICE_NET_DISCONNECT_REASON_CANT_SCHEDULE_VOTING_TIMER;;
        modify_net (set_cast_vote_timer None);; mret 0 else mret (-1)) Q).
  { intros b Hbb. apply runs_bind, runs_votequorum_poll. intros r.
    pose proof (base_cast x A v b Hb Hbb) as Hb'. destruct (negb _); [|by apply runs_ret, HN].
    runs_step. runs_step. apply runs_bind, runs_modify_net. intros j Hj. apply runs_ret.
    change set_cast_vote_timer with (set_handle_of CAST_VOTE_TIMER). rewrite nview_handle, Hj.
    pose proof (HZ _ Hb') as HQ. by destruct v. }
  rewrite Ev. destruct (n_vote (v_net v)) eqn:En; try apply runs_exit.
  - apply Hcast. intros _ Hf. destruct (Ha eq_refl Hf); [congruence|done].
  - by apply Hcast.
Qed.

Lemma base_vote x A v vote :
  base x A v → (is_Some (n_cast (v_net v)) → castable vote) →
  base x A (v_set_net (n_set_vote vote (v_net v)) v).
Proof.
  intros [[Hi Hh Hr] Hc Hn Hd Hv] Hp. destruct v as [[]]. split; [split|..]; cbn in *; auto.
Qed.
End invariant.

(** [base] of a view with another field. *)
Ltac base_same_tac Hb v :=
  let Hd := fresh in pose proof (b_data _ _ _ _ Hb) as Hd;
  eapply base_same; [exact Hb|..]; destruct v as [[]]; try done; by intros [].

(** ** Updating the vote keeps the invariant, and the vote the algorithms decide on. *)

Section update.
Context {T E : Type} `{TimerLaws qdevice_timer T} `{Environment E}.
Abbreviation device := (qdevice_instance T E).
Abbreviation view := (view T).
Context (settings : qdevice_settings).

Abbreviation base := (base settings).
Abbreviation ok := (ok settings).
Abbreviation may_ack := (may_ack settings).

(** The vote an update leaves. *)
Definition new_vote (vote : tlv_vote) (v : view) : tlv_vote :=
  match vote with TLV_VOTE_NO_CHANGE => n_vote (v_net v) | _ => vote end.

Lemma vote_update_id (v : view) : vote_update (n_vote (v_net v)) v v.
Proof. by split. Qed.

(** The view before the callback is called: the vote is set and the timer runs. *)
Lemma runs_update_callback x A (v v1 : view) vote (Q : Z → view → Prop) :
  base x A v1 → vote_update vote v v1 → (vote = TLV_VOTE_ACK → may_ack A v) →
  (∀ r v', base x A v' → vote_update vote v v' → Q r v') →
  runs (E:=E) v1 (r ← qdevice_net_cast_vote_timer_callback; mret (if negb (r =? -1) then -1 else 0)) Q.
Proof.
  intros Hb Hu Ha HQ. apply runs_bind. eapply runs_cast_vote_timer_callback; [done|..].
  - intros Hv Hf. rewrite (vu_paused _ _ _ Hu), (vu_ring _ _ _ Hu). apply Ha; [|done].
    rewrite <-Hv. symmetry. apply Hu.
  - intros l Hb'. apply runs_ret, HQ; [done|]. destruct Hu. by destruct v1 as [[]]; split.
  - intros l Hb'. apply runs_ret, HQ.
    + eapply base_handle; [done| |by intros _ []].
      destruct (b_timers _ _ _ _ Hb') as [Hi Hh Hr]. split; rewrite ?v_timers_handle, ?v_net_handle.
      * by destruct v1.
      * intros f p. rewrite n_handle_set. destruct (decide _); [done|].
        pose proof (Hh f p) as E0. by destruct v1.
      * intros f p E0 E1 E2. rewrite n_handle_set, decide_False by done.
        specialize (Hr f p). destruct v1. by apply Hr.
    + destruct Hu. by destruct v1 as [[]]; split.
Qed.

Lemma runs_update_cast x A (v : view) vote (Q : Z → view → Prop) :
  castable vote → base x A v → (vote = TLV_VOTE_ACK → may_ack A v) →
  (∀ r v', base x A v' → vote_update vote v v' → Q r v') →
  runs (E:=E) v
    (modify_net (set_cast_vote_timer_vote vote);;
     i ← get_net;
     ok ← (match cast_vote_timer i with
           | None =>
               p ← on_timers (timer_add (cfg_cast_vote_timer_interval settings) CAST_VOTE_TIMER);
               modify_net (set_cast_vote_timer p);;
               mret (match p with None => false | Some _ => true end)
           | Some _ => mret true
           end);
     if negb ok then mret (-1)
     else
       r ← qdevice_net_cast_vote_timer_callback;
       mret (if negb (r =? -1) then -1 else 0)) Q.
Proof.
  intros Hc Hb Ha HQ. runs_step. runs_step.
  pose proof (base_vote settings x A v vote Hb (λ _, Hc)) as Hb1.
  set (v1 := v_set_net _ _) in *.
  assert (Hu : vote_update vote v v1) by (destruct v as [[]]; by split).
  runs_step. apply runs_get_net. intros j Hj.
  assert (Et : cast_vote_timer j = n_cast (v_net v1)) by by rewrite <-Hj.
  runs_step. destruct (cast_vote_timer j) as [p|] eqn:Ep.
  { runs_step. by eapply runs_update_callback. }
  runs_step. apply runs_timer_add; [apply Hb1|..].
  - intros p t Hp Hi' Hr. runs_step. change set_cast_vote_timer with (set_handle_of CAST_VOTE_TIMER).
    apply runs_modify_net. intros i' Hi''. rewrite nview_handle, Hi''. apply runs_ret. cbn [negb].
    replace (v_set_net _ _) with (v_set_handle CAST_VOTE_TIMER (Some p) t v1) by by destruct v.
    apply (runs_update_callback x A v _ vote); [|by destruct v as [[]]; split|done..].
    eapply base_handle; [done|by apply timers_start; [apply Hb1|..]|].
    intros _ _. by rewrite (vu_vote _ _ _ Hu).
  - intros t Hi' Hr. runs_step. change set_cast_vote_timer with (set_handle_of CAST_VOTE_TIMER).
    apply runs_modify_net. intros i' Hi''. rewrite nview_handle, Hi''. apply runs_ret. cbn [negb].
    apply runs_ret.
    replace (v_set_net _ _) with (v_set_handle CAST_VOTE_TIMER None t v1) by by destruct v.
    apply HQ; [|by destruct v as [[]]; split].
    eapply base_handle; [done| |by intros _ []].
    destruct (b_timers _ _ _ _ Hb1) as [Hi1 Hh1 Hr1]. split; rewrite ?v_timers_handle, ?v_net_handle, ?Hr; [done|..].
    + intros f p. rewrite n_handle_set. destruct (decide _); [done|]. apply Hh1.
    + intros f p E0 E1 E2. rewrite n_handle_set, decide_False by done. by apply Hr1.
Qed.

Lemma runs_update_stop x A (v : view) vote (Q : Z → view → Prop) :
  base x A v → (∀ r v', base x A v' → vote_update vote v v' → Q r v') →
  runs (E:=E) v
    (modify_net (set_cast_vote_timer_vote vote);;
     delete_timer cast_vote_timer set_cast_vote_timer;;
     mret 0) Q.
Proof.
  intros Hb HQ. runs_step. runs_step. apply runs_bind, (runs_forget_timer x _ CAST_VOTE_TIMER).
  - destruct (b_timers _ _ _ _ Hb). destruct v as [[]]. by split.
  - intros t Ht. apply runs_ret, HQ.
    + destruct Hb as [_ Hc Hn Hd Hv]. destruct v as [[]]. split; try done. by intros [].
    + by destruct v as [[]]; split.
Qed.

Lemma runs_update x A (v : view) vote (Q : Z → view → Prop) :
  base x A v → (vote = TLV_VOTE_ACK → may_ack A v) →
  (∀ r v', base x A v' → vote_update (new_vote vote v) v v' → Q r v') →
  runs (E:=E) v (qdevice_net_cast_vote_timer_update settings vote) Q.
Proof.
  intros Hb Ha HQ. unfold qdevice_net_cast_vote_timer_update.
  destruct vote; try apply runs_exit; try (by eapply runs_update_stop);
    try (apply (runs_update_cast x A); [first [by left|by right]|done..]).
  apply runs_ret, HQ; [done|]. apply vote_update_id.
Qed.
End update.
