(* ===== verification/QdeviceAlgorithmFacts.v ===== *)
(** What the decision algorithms of the device do: they give back the vote they get, but for a
    reply with an old ring id; they take the vote back when the connection is lost. *)
From stdpp Require Import strings.
From S2P Require Import Prelude Dynar Tlv NodeList SendBuffer DynarStr Heuristics.
From stdpp Require Import list gmap.
From S2P Require Import TimerList TimerInterface QdeviceInstance QdeviceSend QdeviceAlgorithm.
From S2P Require Import QdeviceHeuristics QdeviceLogic QdeviceFacts QdeviceInvariant.
Local Open Scope Z_scope.

Section algorithms.
Context {T E : Type} `{TimerLaws qdevice_timer T} `{Environment E}.
Abbreviation device := (qdevice_instance T E).
Abbreviation view := (view T).
Context (settings : qdevice_settings).

Abbreviation ffsplit := (ffsplit settings).
Abbreviation lms := (lms settings).

(** One case for each algorithm; another number ends the process. *)
Lemma runs_with_algorithm {A} (v : view) (call : qdevice_net_algorithm T E → M device A)
    (Q : A → view → Prop) :
  (¬ ffsplit → ¬ lms → runs v (call qdevice_net_algo_test) Q) →
  (ffsplit → runs v (call qdevice_net_algo_ffsplit) Q) →
  (¬ ffsplit → ¬ lms → runs v (call qdevice_net_algo_2nodelms) Q) →
  (¬ ffsplit → lms → runs v (call qdevice_net_algo_lms) Q) →
  runs v (with_algorithm settings call) Q.
Proof.
  unfold ffsplit, lms, with_algorithm, qdevice_net_algorithm_array.
  unfold TLV_DECISION_ALGORITHM_TYPE_FFSPLIT, TLV_DECISION_ALGORITHM_TYPE_LMS.
  intros Ht Hf H2 Hl. set (c := cfg_decision_algorithm settings) in *.
  change (QDEVICE_NET_STATIC_SUPPORTED_DECISION_ALGORITHMS_SIZE) with 4.
  destruct (Z.leb_spec 4 c); [apply runs_exit|].
  change (default [] qdevice_net_algorithm_register_all) with
    [Some (qdevice_net_algo_test (T:=T) (E:=E)); Some qdevice_net_algo_ffsplit;
     Some qdevice_net_algo_2nodelms; Some qdevice_net_algo_lms].
  destruct (Z.to_nat c) as [|[|[|[|]]]] eqn:En; cbn.
  - apply Ht; lia.
  - apply Hf; lia.
  - apply H2; lia.
  - apply Hl; lia.
  - lia.
Qed.

Lemma runs_reply (v : view) (Q : Z * tlv_vote → view → Prop) valid vote :
  Q (0, vote_if valid vote) v → runs (E:=E) v (mret (0, vote_if valid vote)) Q.
Proof. apply runs_ret. Qed.

Ltac same_in_all :=
  intros; apply runs_with_algorithm; intros; cbn; by apply runs_ret.

Lemma runs_connected (v : view) (Q : Z * connected_io → view → Prop) io :
  Q (0, io) v → runs (E:=E) v (qdevice_net_algorithm_connected settings io) Q.
Proof. same_in_all. Qed.
Lemma runs_node_list_notify (v : view) (Q : Z * (bool * tlv_vote) → view → Prop) ring_id l io :
  Q (0, io) v →
  runs (E:=E) v (qdevice_net_algorithm_votequorum_node_list_notify settings ring_id l io) Q.
Proof. same_in_all. Qed.
Lemma runs_heuristics_notify (v : view) (Q : Z * (bool * tlv_vote * tlv_heuristics) → view → Prop)
    ring_id l io :
  Q (0, io) v →
  runs (E:=E) v (qdevice_net_algorithm_votequorum_node_list_heuristics_notify settings ring_id l io) Q.
Proof. same_in_all. Qed.
Lemma runs_heuristics_change (v : view) (Q : Z * (tlv_heuristics * bool * tlv_vote) → view → Prop) io :
  Q (0, io) v → runs (E:=E) v (qdevice_net_algorithm_heuristics_change settings io) Q.
Proof. same_in_all. Qed.

(** ** Replies *)

Lemma runs_config_reply (v : view) (Q : Z * tlv_vote → view → Prop) seq initial ring_id valid vote :
  Q (0, vote_if valid vote) v →
  runs (E:=E) v (qdevice_net_algorithm_config_node_list_reply_received settings seq initial
                   ring_id valid vote) Q.
Proof. same_in_all. Qed.
Lemma runs_membership_reply (v : view) (Q : Z * tlv_vote → view → Prop) seq ring_id valid vote :
  Q (0, vote_if valid vote) v →
  runs (E:=E) v (qdevice_net_algorithm_membership_node_list_reply_received settings seq
                   ring_id valid vote) Q.
Proof. same_in_all. Qed.
Lemma runs_quorum_reply (v : view) (Q : Z * tlv_vote → view → Prop) seq ring_id valid vote :
  Q (0, vote_if valid vote) v →
  runs (E:=E) v (qdevice_net_algorithm_quorum_node_list_reply_received settings seq
                   ring_id valid vote) Q.
Proof. same_in_all. Qed.
Lemma runs_ask_reply (v : view) (Q : Z * tlv_vote → view → Prop) seq ring_id valid vote :
  Q (0, vote_if valid vote) v →
  runs (E:=E) v (qdevice_net_algorithm_ask_for_vote_reply_received settings seq
                   ring_id valid vote) Q.
Proof. same_in_all. Qed.
Lemma runs_vote_info (v : view) (Q : Z * tlv_vote → view → Prop) seq ring_id valid vote :
  Q (0, vote_if valid vote) v →
  runs (E:=E) v (qdevice_net_algorithm_vote_info_received settings seq ring_id valid vote) Q.
Proof. same_in_all. Qed.
Lemma runs_heuristics_reply (v : view) (Q : Z * tlv_vote → view → Prop) seq ring_id valid h vote :
  Q (0, vote_if valid vote) v →
  runs (E:=E) v (qdevice_net_algorithm_heuristics_change_reply_received settings seq
                   ring_id valid h vote) Q.
Proof. same_in_all. Qed.
Lemma runs_echo_reply (v : view) (Q : Z → view → Prop) seq expected :
  (∀ r, Q r v) → runs (E:=E) v (qdevice_net_algorithm_echo_reply_received settings seq expected) Q.
Proof. same_in_all. Qed.

(** ** The votes of the nodes are looked up *)

Lemma hidden_check_vqinfo_loop l : hidden (T:=T) (E:=E) (check_vqinfo_loop l).
Proof. induction l; cbn [check_vqinfo_loop]; hidden_tac; done. Qed.
Hint Resolve hidden_check_vqinfo_loop : hidden.
Lemma hidden_check_vqinfo_validity : hidden (T:=T) (E:=E) check_vqinfo_validity.
Proof. unfold check_vqinfo_validity. hidden_tac. Qed.
Lemma hidden_check_cmap_validity : hidden (T:=T) (E:=E) check_cmap_validity.
Proof. unfold check_cmap_validity. hidden_tac. Qed.
Hint Resolve hidden_check_vqinfo_validity hidden_check_cmap_validity : hidden.

Lemma runs_config_changed (v : view) (Q : Z * (bool * tlv_vote) → view → Prop) l version io :
  (∀ r, Q (r, io) v) →
  runs (E:=E) v (qdevice_net_algorithm_config_node_list_changed settings l version io) Q.
Proof.
  intros HQ. apply runs_with_algorithm; intros; cbn; try by apply runs_ret.
  unfold qdevice_net_algo_ffsplit_config_node_list_changed. runs_step. runs_step. by apply runs_ret.
Qed.
Lemma runs_expected_votes (v : view) (Q : Z * tlv_vote → view → Prop) n vote :
  (∀ r, Q (r, vote) v) →
  runs (E:=E) v (qdevice_net_algorithm_votequorum_expected_votes_notify settings n vote) Q.
Proof.
  intros HQ. apply runs_with_algorithm; intros; cbn; try by apply runs_ret.
  unfold qdevice_net_algo_ffsplit_votequorum_expected_votes_notify. runs_step. runs_step.
  by apply runs_ret.
Qed.

(** ** The data of last man standing *)

Lemma runs_lms_data (v : view) (Q : algo_lms_instance_data → view → Prop) :
  is_Some (n_data (v_net v)) → (∀ d, Q d v) → runs (E:=E) v lms_data Q.
Proof.
  intros [d Hd] HQ. unfold lms_data. runs_step. runs_step.
  replace (algorithm_data i) with (n_data (v_net v)) by by rewrite <-Hi. rewrite Hd.
  by apply runs_ret.
Qed.

Definition with_data (d : option algo_lms_instance_data) (v : view) : view :=
  v_set_net (n_set_data d (v_net v)) v.

Lemma runs_quorum_notify (v : view) (Q : Z * (bool * tlv_vote) → view → Prop) quorate l io :
  (lms → is_Some (n_data (v_net v))) →
  Q (0, io) v → (∀ d, Q (0, io) (with_data (Some d) v)) →
  runs (E:=E) v (qdevice_net_algorithm_votequorum_quorum_notify settings quorate l io) Q.
Proof.
  intros Hd HQ HQd. apply runs_with_algorithm; intros; cbn; try by apply runs_ret.
  unfold qdevice_net_algo_lms_votequorum_quorum_notify. runs_step.
  apply runs_lms_data; [by apply Hd|]. intros d. runs_step. runs_step. apply runs_ret. apply HQd.
Qed.

Lemma runs_echo_not_received (v : view) (Q : Z → view → Prop) :
  (lms → is_Some (n_data (v_net v))) → (∀ r, Q r v) →
  runs (E:=E) v (qdevice_net_algorithm_echo_reply_not_received settings) Q.
Proof.
  intros Hd HQ. apply runs_with_algorithm; intros; cbn; try by apply runs_ret.
  unfold qdevice_net_algo_lms_echo_reply_not_received. runs_step.
  apply runs_lms_data; [by apply Hd|]. intros d. by apply runs_ret.
Qed.

(** After a lost connection the fifty-fifty split algorithm votes NACK. *)
Lemma runs_disconnected (v : view) (Q : Z * (bool * tlv_vote) → view → Prop) reason reconnect vote :
  (lms → is_Some (n_data (v_net v))) →
  (∀ b vote', vote' = TLV_VOTE_NACK ∨ vote' = vote ∧ ¬ ffsplit → Q (0, (b, vote')) v) →
  runs (E:=E) v (qdevice_net_algorithm_disconnected settings reason (reconnect, vote)) Q.
Proof.
  intros Hd HQ. apply runs_with_algorithm; intros; cbn; try (apply runs_ret, HQ; auto).
  unfold qdevice_net_algo_lms_disconnected. runs_step.
  apply runs_lms_data; [by apply Hd|]. intros d. apply runs_ret, HQ. destruct (_ || _); auto.
Qed.

(** ** The start *)

Lemma runs_algorithm_init (v : view) (Q : Z → view → Prop) :
  (∀ r d, (r = 0 → lms → is_Some d) → Q r (with_data d v)) →
  runs (E:=E) v (qdevice_net_algorithm_init settings) Q.
Proof.
  intros HQ.
  assert (HQ' : ∀ r, r ≠ 0 ∨ ¬ lms → Q r v).
  { intros r Hr. replace v with (with_data (n_data (v_net v)) v) by by destruct v as [[]].
    apply HQ. tauto. }
  apply runs_with_algorithm; intros Hf; [intros Hl|..|intros Hl|intros Hl]; cbn.
  - unfold qdevice_net_algo_test_init. runs_step. runs_step. apply runs_ret. by apply HQ.
  - assert (¬ lms) by (unfold ffsplit, lms in *; rewrite Hf; done).
    unfold qdevice_net_algo_ffsplit_init. runs_step. runs_step.
    destruct (negb _); [apply runs_ret, HQ'; auto|]. runs_step. runs_step. apply runs_ret, HQ'; auto.
  - apply runs_ret, HQ'; auto.
  - unfold qdevice_net_algo_lms_init. runs_step.
    apply runs_hidden; [apply hidden_malloc|]. intros [a|].
    + runs_step. runs_step. runs_step. runs_step. apply runs_ret. apply HQ. by eexists.
    + apply runs_ret, HQ'; auto.
Qed.
End algorithms.
#[export] Hint Resolve hidden_check_vqinfo_validity hidden_check_cmap_validity : hidden.
