(* ===== verification/QdeviceHeuristicsFacts.v ===== *)
(** The heuristics of the device keep the invariant: their timer, and what is done with their
    results. *)
From stdpp Require Import strings.
From S2P Require Import Prelude Dynar Tlv NodeList SendBuffer DynarStr Heuristics.
From stdpp Require Import list gmap.
From S2P Require Import TimerList TimerInterface QdeviceInstance QdeviceSend QdeviceAlgorithm.
From S2P Require Import QdeviceHeuristics QdeviceLogic QdeviceFacts QdeviceInvariant.
From S2P Require Import QdeviceAlgorithmFacts.
Local Open Scope Z_scope.

Section keeps.
Context {T E : Type} `{TimerLaws qdevice_timer T} `{Environment E}.
Abbreviation device := (qdevice_instance T E).
Abbreviation view := (view T).
Context (settings : qdevice_settings).

Abbreviation base := (base settings).
Abbreviation ok := (ok settings).
Abbreviation may_ack := (may_ack settings).
Abbreviation ffsplit := (ffsplit settings).
Abbreviation lms := (lms settings).

Definition keeps {R} (A : list tlv_ring_id) (m : M device R) : Prop :=
  ∀ v, ok A v → runs v m (λ _ v', ok A v').

Lemma device_keeps_ret {R} A (r : R) : keeps A (mret r).
Proof. intros v Hv. by apply runs_ret. Qed.
Lemma keeps_hidden {R} A (m : M device R) : hidden m → keeps A m.
Proof. intros Hm v Hv. by apply runs_hidden. Qed.
Lemma device_keeps_bind {R R'} A (m : M device R) (f : R → M device R') :
  keeps A m → (∀ r, keeps A (f r)) → keeps A (m ≫= f).
Proof.
  intros Hm Hf v Hv. apply runs_bind. eapply runs_mono; [by apply Hm|]. intros r v' Hv'. by apply Hf.
Qed.
Lemma keeps_unless A (r : M device Z) reason (next : M device Z) :
  keeps A r → keeps A next → keeps A (unless_disconnecting r reason next).
Proof.
  intros Hr Hn. apply device_keeps_bind; [done|]. intros x. destruct (negb _); [|done].
  apply device_keeps_bind; [apply keeps_hidden; auto with hidden|]. intros _. apply device_keeps_ret.
Qed.
Lemma keeps_get_net {R} A (f : qdevice_net_instance → M device R) :
  (∀ i v, ok A v → nview i = v_net v → runs v (f i) (λ _ v', ok A v')) → keeps A (get_net ≫= f).
Proof. intros Hf v Hv. runs_step. runs_step. by apply Hf. Qed.
Lemma device_keeps_get {R} A (f : device → M device R) :
  (∀ q v, ok A v → view_of q = v → runs v (f q) (λ _ v', ok A v')) → keeps A (get ≫= f).
Proof. intros Hf v Hv. apply runs_bind, runs_get. intros q Hq. by apply Hf. Qed.

(** A vote was cast: nothing else changed. *)
Lemma ok_vote A (v v' : view) vote :
  sockets_part v → synced v → v_list_ring v = v_ring v →
  base None A v' → vote_update vote v v' →
  (ffsplit → vote = TLV_VOTE_ACK → is_connected (v_net v) ∧ n_last_sent (v_net v) ∈ A) → ok A v'.
Proof.
  intros [Hc Hs Hp Hi Ht] Hy Hl Hb [] Ha. split; [done|..].
  - split; rewrite ?vu_destroyed, ?vu_socket, ?vu_state, ?vu_client, ?vu_polled, ?vu_registered,
      ?vu_connect; done.
  - unfold synced, is_connected. by rewrite vu_state, vu_paused, vu_last_sent, vu_ring.
  - unfold acked, is_connected. by rewrite vu_vote, vu_state, vu_last_sent.
  - by rewrite vu_list_ring, vu_ring.
Qed.

(** Updating with a vote that is not positive. *)
Lemma keeps_update A vote :
  vote ≠ TLV_VOTE_ACK → keeps A (qdevice_net_cast_vote_timer_update settings vote).
Proof.
  intros Hv v Hok. eapply runs_update; [apply Hok|done|]. intros r v' Hb Hu.
  eapply ok_vote; [..|done|done|]; try apply Hok. intros Hf E0.
  eapply (ok_acked _ _ _ Hok); [done|]. by destruct vote.
Qed.

Lemma ok_handle A (v : view) f p t :
  ok A v → f ≠ CAST_VOTE_TIMER → (f = CONNECT_TIMER → p = None) →
  base None A (v_set_handle f p t v) → ok A (v_set_handle f p t v).
Proof.
  intros [Hb [Hc Hs Hp Hi Ht] Hy Ha Hl] Hf Hn Hb'.
  split; [done|..]; destruct v as [[]], f; try done; split; auto.
  intros Hr. split; [by apply Hn|by apply Ht].
Qed.

Lemma ok_not_seen A (v : view) : ok A v → ok A (v_set_net (v_net v) v).
Proof. by destruct v. Qed.

(** ** The timer *)

Lemma runs_set_active (v : view) A x callback active (Q : Z → view → Prop) :
  base x A v → Q 0 v → runs (E:=E) v (notifier_set_active callback active) Q.
Proof.
  intros Hb HQ. apply runs_notifier_set_active; [|done]. rewrite (b_notifiers _ _ _ _ Hb).
  destruct callback; set_solver.
Qed.

Lemma keeps_set_active A callback active : keeps A (notifier_set_active callback active).
Proof. intros v Hv. by eapply runs_set_active; [apply Hv|]. Qed.

Lemma runs_stop_timer x A (v : view) (Q : Z → view → Prop) :
  base x A v →
  (∀ t, base x A (v_set_handle HEURISTICS_TIMER None t v) →
    Q 0 (v_set_handle HEURISTICS_TIMER None t v)) →
  runs (E:=E) v qdevice_net_heuristics_stop_timer Q.
Proof.
  intros Hb HQ. unfold qdevice_net_heuristics_stop_timer. runs_step. runs_step.
  assert (Eh : regular_heuristics_timer i = n_handle HEURISTICS_TIMER (v_net v)) by by rewrite <-Hi.
  destruct (regular_heuristics_timer i).
  - runs_step. apply (runs_delete_timer settings x A v HEURISTICS_TIMER); [done|]. intros t Ht.
    runs_step. eapply runs_set_active; [done|]. apply runs_ret. by apply HQ.
  - apply runs_ret. rewrite <-(v_set_handle_id HEURISTICS_TIMER v) by done. apply HQ.
    by rewrite v_set_handle_id.
Qed.

Lemma keeps_stop_timer A : keeps A qdevice_net_heuristics_stop_timer.
Proof.
  intros v Hv. eapply runs_stop_timer; [apply Hv|]. intros t Ht. by apply ok_handle.
Qed.

(** A timer whose handle is NULL is started. *)
Lemma runs_start_timer {R} A (v : view) i f (k : option nat → M device R) (Q : R → view → Prop) :
  base None A v → n_handle f (v_net v) = None → f ≠ CAST_VOTE_TIMER →
  (∀ p t, base None A (v_set_handle f p t v) → runs (v_set_handle f p t v) (k p) Q) →
  runs (E:=E) v (p ← on_timers (timer_add i f); modify_net (set_handle_of f p);; k p) Q.
Proof.
  intros Hb Hf Hc HQ. runs_step. apply runs_timer_add; [apply Hb|..].
  - intros p t Hp Ht Hr. runs_step. runs_step.
    replace (v_set_net _ _) with (v_set_handle f (Some p) t v) by by destruct v.
    apply HQ. eapply base_handle; [done|by apply timers_start; [apply Hb|..]|done].
  - intros t Ht Hr. runs_step. runs_step.
    replace (v_set_net _ _) with (v_set_handle f None t v) by by destruct v.
    apply HQ. eapply base_handle; [done| |done].
    destruct (b_timers _ _ _ _ Hb) as [Hi1 Hh1 Hr1].
    split; rewrite ?v_timers_handle, ?v_net_handle, ?Hr; [done|..].
    + intros f' p. rewrite n_handle_set. destruct (decide _); [done|]. apply Hh1.
    + intros f' p E0 E1 E2. rewrite n_handle_set. specialize (Hr1 f' p E0 E1 E2).
      destruct (decide _) as [->|]; [congruence|done].
Qed.

Lemma keeps_schedule_timer A : keeps A qdevice_net_heuristics_schedule_timer.
Proof.
  apply device_keeps_get. intros q v Hv Hq. destruct (negb _).
  { revert Hv. generalize v. change (keeps A (r ← qdevice_net_heuristics_stop_timer;
      mret (if negb (r =? 0) then -1 else 0) : M device Z)).
    apply device_keeps_bind; [apply keeps_stop_timer|]. intros r. apply device_keeps_ret. }
  assert (Eh : regular_heuristics_timer (net q) = n_handle HEURISTICS_TIMER (v_net v)) by by rewrite <-Hq.
  destruct (regular_heuristics_timer _); [by apply runs_ret|].
  apply (runs_start_timer A v _ HEURISTICS_TIMER); [apply Hv|done|done|].
  intros p t Hb. assert (ok A (v_set_handle HEURISTICS_TIMER p t v)) by by apply ok_handle.
  destruct p; [by apply runs_ret|]. runs_step. runs_step. by apply runs_ret.
Qed.

(** ** Results *)

Lemma unseen_results h : unseen (λ i, set_latest_heuristics_result h
                                       (set_latest_regular_heuristics_result h i)).
Proof. intros i. by autorewrite with nview. Qed.

Lemma keeps_regular_result A h : keeps A (regular_result h).
Proof.
  apply device_keeps_bind; [apply keeps_hidden, hidden_modify_net, unseen_results|]. intros _.
  apply device_keeps_bind; [apply keeps_schedule_timer|]. intros _. apply device_keeps_ret.
Qed.

Lemma keeps_send_result A h next : keeps A next → keeps A (send_heuristics_result h next).
Proof.
  intros Hn. apply device_keeps_bind; [apply keeps_hidden; auto with hidden|]. intros i.
  destruct (bool_decide _); [apply keeps_hidden; hidden_tac|].
  destruct (negb _); [apply keeps_hidden; hidden_tac|].
  apply keeps_unless; [apply keeps_hidden; auto with hidden|done].
Qed.

Lemma keeps_regular_callback A r :
  keeps A (qdevice_net_regular_heuristics_exec_result_callback settings r).
Proof.
  apply keeps_unless; [apply keeps_set_active|].
  apply device_keeps_bind; [apply keeps_hidden, hidden_result_to_tlv|]. intros h.
  destruct (_ =? _); [apply device_keeps_ret|].
  apply device_keeps_bind; [apply keeps_hidden; auto with hidden|]. intros i.
  destruct (bool_decide _); [apply keeps_regular_result|].
  intros v Hv. cbv zeta. runs_step. apply runs_heuristics_change. cbn beta iota zeta.
  assert (Hu : keeps A (unless_disconnecting (qdevice_net_cast_vote_timer_update settings TLV_VOTE_NO_CHANGE)
            QDEVICE_NET_DISCONNECT_REASON_CANT_SCHEDULE_VOTING_TIMER (regular_result h))).
  { apply keeps_unless; [by apply keeps_update|apply keeps_regular_result]. }
  destruct (bool_decide _); [by apply keeps_send_result|by apply Hu].
Qed.

(** ** The result after a connect *)

Lemma not_connected_vote A (v : view) :
  ok A v → ¬ is_connected (v_net v) → ffsplit → n_vote (v_net v) ≠ TLV_VOTE_ACK.
Proof. intros Hv Hn Hf Ha. by destruct (ok_acked _ _ _ Hv Hf Ha). Qed.

(** Before the session is set up a ring id may be sent. *)
Lemma ok_last_sent A (v : view) ring_id :
  ok A v → ¬ is_connected (v_net v) → ok A (v_set_net (n_set_last_sent ring_id (v_net v)) v).
Proof.
  intros Hv Hn. pose proof (not_connected_vote _ _ Hv Hn) as Ha.
  assert (Hb : base None A (v_set_net (n_set_last_sent ring_id (v_net v)) v)).
  { base_same_tac (ok_base _ _ _ Hv) v. }
  destruct Hv as [_ [Hsc Hss Hsp Hsi Hst] Hy Hak Hl]. destruct v as [[]].
  split; [done|by split| | |done]; [intros Hcn; by destruct (Hn Hcn)|].
  intros Hf E0. by destruct (Ha Hf).
Qed.

Lemma runs_send_if (v : view) c (send next : M device Z) (Q : Z → view → Prop) :
  hidden send → Q 0 v → runs v next Q → runs v (send_if c send next) Q.
Proof.
  intros Hs HQ Hn. unfold send_if, unless_reason. destruct c; [|done]. runs_step. runs_step. destruct (negb _); [|done].
  runs_step. runs_step. by apply runs_ret.
Qed.

(** The session is set up: the server knows the ring. *)
Lemma ok_set_connected A (v : view) :
  ok A v → n_client_destroyed (v_net v) = true → v_registered v = true →
  n_vote (v_net v) ≠ TLV_VOTE_ACK →
  n_last_sent (v_net v) = tlv_of (v_ring v) →
  ok A (v_set_net (n_set_state QDEVICE_NET_INSTANCE_STATE_WAITING_VOTEQUORUM_CMAP_EVENTS (v_net v)) v).
Proof.
  intros [Hb [Hsc Hss Hsp Hsi Hst] Hy Hak Hl] He Hreg Hn Hs. split.
  - base_same_tac Hb v.
  - destruct v as [[]]. split; try done; cbn in *; [by rewrite He|by rewrite Hreg].
  - intros _. right. by destruct v as [[]].
  - intros _ E0. by destruct v as [[]].
  - by destruct v as [[]].
Qed.

Lemma runs_connect_finished A (v : view) h :
  ok A v → n_client_destroyed (v_net v) = true → v_registered v = true →
  n_last_sent (v_net v) = tlv_of (v_ring v) →
  runs (E:=E) v (connect_finished settings h TLV_VOTE_WAIT_FOR_REPLY) (λ _ v', ok A v').
Proof.
  intros Hv He Hreg Hs. unfold connect_finished. runs_step. eapply runs_update; [apply Hv|done|]. intros r v' Hb Hu.
  assert (Hv' : ok A v') by (eapply ok_vote; [..|done|done|done]; apply Hv).
  destruct Hu. runs_step.
  apply runs_hidden; [destruct (negb _); auto with hidden|]. intros _. runs_step. runs_step.
  runs_step. runs_step. runs_step.
  eapply runs_hidden; [apply hidden_modify_net; intros i; by autorewrite with nview|]. intros _.
  apply runs_ret, ok_set_connected; [done|..].
  - by rewrite vu_destroyed.
  - by rewrite vu_registered.
  - by rewrite vu_vote.
  - by rewrite vu_last_sent, vu_ring.
Qed.

Lemma keeps_connect_callback A r :
  keeps A (qdevice_net_connect_heuristics_exec_result_callback settings r).
Proof.
  apply keeps_unless; [apply keeps_set_active|]. apply keeps_get_net. intros i v Hv Hi.
  assert (Es : state i = n_state (v_net v)) by by rewrite <-Hi.
  destruct (negb _) eqn:En; [by apply runs_ret|].
  apply negb_false_iff, bool_decide_eq_true in En. rewrite Es in En.
  assert (Hn : ¬ is_connected (v_net v)) by by unfold is_connected; rewrite En.
  runs_step. runs_step. runs_step. apply runs_connected. cbn beta iota zeta.
  change (negb (0 =? 0)) with false. cbv iota.
  runs_step. apply runs_get. intros q Hq.
  apply runs_send_if; [auto with hidden|done|]. apply runs_send_if; [auto with hidden|done|].
  assert (El : qdevice_net_votequorum_ring_id_to_tlv (vq_node_list_ring_id q) = tlv_of (v_ring v)).
  { rewrite <-(ok_rings _ _ _ Hv), <-Hq. done. }
  unfold send_if at 1, unless_reason. runs_step. apply runs_send_membership_node_list.
  { change (negb (-1 =? 0)) with true. cbv iota. runs_step. runs_step. by apply runs_ret. }
  change (negb (0 =? 0)) with false. cbv iota.
  assert (Hv' := ok_last_sent A v (tlv_of (v_ring v)) Hv Hn). rewrite El.
  apply runs_send_if; [apply hidden_send_quorum_node_list|done|].
  apply runs_connect_finished; [done|..].
  - destruct (ok_sockets _ _ _ Hv) as [Hc _ _ _ _]. destruct (n_client_destroyed (v_net v)) eqn:Ed.
    + by destruct v as [[]].
    + destruct (Hc eq_refl) as (_ & Hc' & _). congruence.
  - destruct (v_registered v) eqn:Er; [by destruct v|].
    destruct (sp_idle _ (ok_sockets _ _ _ Hv) Er). congruence.
  - by destruct v as [[]].
Qed.

(** ** The timer of the regular heuristics *)

Lemma keeps_exec_after_connect A : keeps A qdevice_net_heuristics_exec_after_connect.
Proof.
  apply device_keeps_bind; [apply keeps_set_active|]. intros r. apply keeps_hidden. hidden_tac.
Qed.
End keeps.
