(* ===== verification/QdeviceReceivedFacts.v ===== *)
(** The messages of the server keep the invariant of the device. *)
From stdpp Require Import strings.
From S2P Require Import Prelude Dynar Tlv NodeList Msg MsgFacts SendBuffer DynarStr Heuristics.
From stdpp Require Import list gmap.
From S2P Require Import TimerList TimerInterface QdeviceInstance QdeviceSend QdeviceAlgorithm.
From S2P Require Import QdeviceHeuristics QdeviceMsgReceived QdeviceLogic QdeviceFacts.
From S2P Require Import QdeviceInvariant QdeviceAlgorithmFacts.
From S2P Require Import QdeviceHeuristicsFacts.
Local Open Scope Z_scope.

Section received.
Context {T E : Type} `{TimerLaws qdevice_timer T} `{Environment E}.
Abbreviation device := (qdevice_instance T E).
Abbreviation view := (view T).
Context (beyond : mem).
Context (settings : qdevice_settings).

Abbreviation base := (base settings).
Abbreviation ok := (ok settings).
Abbreviation keeps := (keeps (T:=T) (E:=E) settings).

(** ** Heartbeats *)

Lemma keeps_delete_timer A f :
  f ≠ CAST_VOTE_TIMER → keeps A (delete_timer (handle_of f) (set_handle_of f)).
Proof.
  intros Hf v Hv. eapply runs_delete_timer; [apply Hv|]. intros t Hb. by apply ok_handle.
Qed.

Lemma keeps_echo_schedule A : keeps A (qdevice_net_echo_request_timer_schedule settings).
Proof.
  apply device_keeps_bind; [apply keeps_hidden, hidden_modify_net; intros i; by autorewrite with nview|].
  intros _ v Hv. runs_step. apply (runs_delete_timer settings None A v ECHO_REQUEST_TIMER); [apply Hv|].
  intros t Hb. assert (Hv1 : ok A (v_set_handle ECHO_REQUEST_TIMER None t v)) by by apply ok_handle.
  apply (runs_start_timer settings A _ _ ECHO_REQUEST_TIMER); [done|..|done|].
  { by rewrite v_net_handle, n_handle_set, decide_True. }
  intros p t' Hb'. assert (ok A (v_set_handle ECHO_REQUEST_TIMER p t' (v_set_handle ECHO_REQUEST_TIMER None t v)))
    by by apply ok_handle.
  destruct p; [by apply runs_ret|]. apply runs_hidden; [auto with hidden|done].
Qed.

(** ** Before the session is set up *)

Lemma not_connecting A (v : view) :
  ok A v → n_state (v_net v) ≠ QDEVICE_NET_INSTANCE_STATE_WAITING_CONNECT →
  n_client_destroyed (v_net v) = true.
Proof.
  intros Hv Hs. destruct (ok_sockets _ _ _ Hv) as [Hc _ _ _ _].
  destruct (n_client_destroyed (v_net v)); [done|]. by destruct (Hc eq_refl) as (_ & ? & _).
Qed.

(** A session is set up while the loop runs only. *)
Lemma setting_up A (v : view) :
  ok A v → n_state (v_net v) ≠ QDEVICE_NET_INSTANCE_STATE_WAITING_CONNECT → v_registered v = true.
Proof.
  intros Hv Hs. destruct (v_registered v) eqn:Er; [done|].
  by destruct (sp_idle _ (ok_sockets _ _ _ Hv) Er).
Qed.

Lemma ok_set_state A (v : view) s :
  ok A v → ¬ is_connected (v_net v) → n_client_destroyed (v_net v) = true → v_registered v = true →
  s ≠ QDEVICE_NET_INSTANCE_STATE_WAITING_VOTEQUORUM_CMAP_EVENTS →
  ok A (v_set_net (n_set_state s (v_net v)) v).
Proof.
  intros Hv Hn Hd Hreg Hs. pose proof (not_connected_vote _ _ _ Hv Hn) as Ha.
  assert (Hb : base None A (v_set_net (n_set_state s (v_net v)) v)).
  { base_same_tac (ok_base _ _ _ Hv) v. }
  destruct Hv as [_ [Hsc Hss Hsp Hsi Hst] Hy _ Hl]. destruct v as [[]]. cbn in *. subst.
  split; [done|by split|by intros [=]| |done]. intros Hf E0. by destruct (Ha Hf).
Qed.

Lemma keeps_in_state A s next :
  (∀ v, ok A v → n_state (v_net v) = s → runs v next (λ _ v', ok A v')) →
  keeps A (in_state s next).
Proof.
  intros Hn. apply keeps_get_net. intros i v Hv Hi.
  assert (Es : state i = n_state (v_net v)) by by rewrite <-Hi.
  destruct (negb _) eqn:En.
  - apply runs_hidden; [auto with hidden|done].
  - apply negb_false_iff, bool_decide_eq_true in En. apply Hn; [done|congruence].
Qed.

Lemma runs_with_seq_number (v : view) msg next (Q : Z → view → Prop) :
  Q (-1) v → runs (E:=E) v next Q → runs (E:=E) v (with_seq_number msg next) Q.
Proof.
  intros HQ Hn. unfold with_seq_number. runs_step. runs_step. destruct (negb _); [|done].
  unfold fail_because. runs_step. runs_step. by apply runs_ret.
Qed.

Lemma runs_fail_because (v : view) reason (Q : Z → view → Prop) :
  Q (-1) v → runs (E:=E) v (fail_because reason) Q.
Proof. intros HQ. unfold fail_because. runs_step. runs_step. by apply runs_ret. Qed.

(** Another state, or another ring id, before the session is set up. *)
Lemma ok_send_init A (v : view) ring_id s :
  ok A v → ¬ is_connected (v_net v) → n_client_destroyed (v_net v) = true → v_registered v = true →
  s ≠ QDEVICE_NET_INSTANCE_STATE_WAITING_VOTEQUORUM_CMAP_EVENTS →
  ok A (v_set_net (n_set_state s (n_set_last_sent ring_id (v_net v))) v).
Proof.
  intros Hv Hn Hd Hreg Hs. pose proof (ok_last_sent _ _ _ ring_id Hv Hn) as Hv1.
  replace (v_set_net _ _) with (v_set_net (n_set_state s (v_net (v_set_net (n_set_last_sent ring_id (v_net v)) v)))
    (v_set_net (n_set_last_sent ring_id (v_net v)) v)) by by destruct v.
  apply ok_set_state; [done|..|done]; by destruct v as [[]].
Qed.

Lemma keeps_preinit_reply A msg : keeps A (qdevice_net_msg_received_preinit_reply settings msg).
Proof.
  apply keeps_in_state. intros v Hv Hs.
  assert (Hn : ¬ is_connected (v_net v)) by by unfold is_connected; rewrite Hs.
  assert (Hd : n_client_destroyed (v_net v) = true) by (eapply not_connecting; [done|by rewrite Hs]).
  assert (Hreg : v_registered v = true) by (eapply setting_up; [done|by rewrite Hs]).
  apply runs_with_seq_number; [done|].
  destruct (dm_tls_supported msg); [|by apply runs_fail_because].
  destruct (dm_tls_client_cert_required msg); [|by apply runs_fail_because]. cbv zeta.
  destruct (_ =? -1); [by apply runs_fail_because|]. destruct (_ =? 1).
  - unfold send_starttls. runs_step. runs_step. destruct (negb _); [by apply runs_fail_because|].
    runs_step. runs_step. by apply runs_ret, ok_set_state.
  - runs_step. apply runs_send_init; [by apply runs_fail_because|]. apply runs_ret.
    by apply ok_send_init.
Qed.

Lemma keeps_init_accepted A a b c d : keeps A (init_accepted settings a b c d).
Proof.
  apply device_keeps_bind; [apply keeps_hidden, hidden_modify_net; intros i; by autorewrite with nview|].
  intros _. destruct (negb _); [apply keeps_hidden; auto with hidden|]. cbv zeta.
  apply device_keeps_bind; [apply keeps_hidden, hidden_modify_net; intros i; by autorewrite with nview|].
  intros _. apply device_keeps_bind; [apply keeps_hidden; auto with hidden|]. intros q.
  destruct (_ && _); [apply keeps_hidden; auto with hidden|].
  apply device_keeps_bind; [by apply (keeps_delete_timer A CONNECT_TIMER)|]. intros _.
  apply device_keeps_bind; [apply keeps_echo_schedule|]. intros r. destruct (negb _); [apply device_keeps_ret|].
  apply device_keeps_bind; [apply keeps_exec_after_connect|]. intros r'. apply device_keeps_ret.
Qed.

Lemma keeps_fail_because A reason : keeps A (fail_because reason).
Proof. apply keeps_hidden. auto with hidden. Qed.

(** What a message says that was decoded: its arrays are there, and its vote is one of those
    the server has given ([A]). *)
Definition votes_known (A : list tlv_ring_id) (msg : msg_decoded) : Prop :=
  dm_vote msg = Some TLV_VOTE_ACK → ∀ R, dm_ring_id msg = Some R → R ∈ A.

Lemma keeps_array {B} A (p : ptr B) null (next : B → M device Z) :
  p ≠ Dangling → keeps A null → (∀ b, keeps A (next b)) → keeps A (with_array p null next).
Proof. intros Hp Hn Hb. destruct p; [done|apply Hb|done]. Qed.

Lemma keeps_init_reply A h msg :
  decoded_ok h (msg, h) → keeps A (qdevice_net_msg_received_init_reply settings msg).
Proof.
  intros [_ _ Ho Ha _]. cbn in Ho, Ha.
  apply keeps_in_state. intros v Hv _. apply runs_with_seq_number; [done|]. revert v Hv.
  match goal with |- ∀ v, _ → runs v ?m _ => change (keeps A m) end.
  destruct (dm_reply_error_code msg); [|apply keeps_fail_because].
  destruct (negb _); [apply keeps_fail_because|].
  destruct (dm_server_maximum_request_size msg); [|apply keeps_fail_because].
  destruct (dm_server_maximum_reply_size msg); [|apply keeps_fail_because].
  assert (Hw : keeps A (with_array (dm_supported_options msg)
    (fail_because QDEVICE_NET_DISCONNECT_REASON_REQUIRED_OPTION_MISSING) (λ supported_options,
     with_array (dm_supported_decision_algorithms msg)
      (fail_because QDEVICE_NET_DISCONNECT_REASON_REQUIRED_OPTION_MISSING) (λ algorithms,
        if z0 <? net_min_msg_send_size settings then
          fail_because QDEVICE_NET_DISCONNECT_REASON_INCOMPATIBLE_MSG_SIZE
        else if net_max_msg_receive_size settings <? z1 then
          fail_because QDEVICE_NET_DISCONNECT_REASON_INCOMPATIBLE_MSG_SIZE
        else
          init_accepted settings z0 z1
            (take (Z.to_nat (dm_no_supported_options msg)) supported_options)
            (take (Z.to_nat (dm_no_supported_decision_algorithms msg)) algorithms))))).
  { apply keeps_array; [by intros E0; rewrite E0 in Ho|apply keeps_fail_because|]. intros o.
    apply keeps_array; [by intros E0; rewrite E0 in Ha|apply keeps_fail_because|]. intros a.
    repeat (destruct (_ <? _); [apply keeps_fail_because|]). apply keeps_init_accepted. }
  destruct (dm_supported_messages msg); [apply keeps_fail_because|done|done].
Qed.

(** ** Votes *)

Lemma runs_vote_received A (v : view) decide ring_id reason next vote :
  ok A v → is_connected (v_net v) →
  (∀ v valid (Q : Z * tlv_vote → view → Prop), Q (0, vote_if valid vote) v → runs v (decide valid) Q) →
  (vote = TLV_VOTE_ACK → ring_id ∈ A) → keeps A next →
  runs (E:=E) v (vote_received settings decide ring_id reason next) (λ _ v', ok A v').
Proof.
  intros Hv Hc Hd Ha Hn. unfold vote_received. runs_step. runs_step.
  set (valid := ring_id_is_valid ring_id i). runs_step. apply Hd. cbn beta iota.
  change (negb (0 =? 0)) with false. cbv iota.
  assert (Hack : vote_if valid vote = TLV_VOTE_ACK → n_last_sent (v_net v) ∈ A).
  { unfold vote_if. destruct valid eqn:Ev; [|done]. cbn. intros E0. rewrite <-Hi.
    unfold valid, ring_id_is_valid in Ev. apply tlv_ring_id_eq_spec in Ev. cbn. rewrite <-Ev. by apply Ha. }
  runs_step. eapply runs_update; [apply Hv|..].
  - intros E0 _. destruct (ok_synced _ _ _ Hv Hc) as [|Es]; [by left|]. right. rewrite <-Es. by apply Hack.
  - intros r v' Hb Hu. assert (Hv' : ok A v').
    { eapply ok_vote; [..|done|done|]; try apply Hv. intros Hf E0. unfold new_vote in E0.
      destruct (vote_if valid vote); try done; [by auto|by apply (ok_acked _ _ _ Hv)]. }
    destruct (negb _); [by apply keeps_fail_because|by apply Hn].
Qed.

Ltac missing := by apply keeps_fail_because.

Lemma keeps_node_list_reply A msg :
  votes_known A msg → keeps A (qdevice_net_msg_received_node_list_reply settings msg).
Proof.
  intros Ha. apply keeps_in_state. intros v Hv Hs.
  destruct (dm_vote msg) as [vote|] eqn:Ev; [|missing]. destruct (dm_seq_number msg); [|missing].
  destruct (dm_node_list_type msg) as [type|]; [|missing].
  destruct (dm_ring_id msg) as [R|] eqn:Er; [|missing].
  apply runs_vote_received with vote; [done..| | |apply device_keeps_ret].
  - intros v' valid Q HQ. destruct type; cbn [node_list_reply_decision];
      [by apply runs_config_reply..|by apply runs_membership_reply|by apply runs_quorum_reply].
  - intros ->. by eapply Ha.
Qed.

Lemma keeps_ask_reply A msg :
  votes_known A msg → keeps A (qdevice_net_msg_received_ask_for_vote_reply settings msg).
Proof.
  intros Ha. apply keeps_in_state. intros v Hv Hs.
  destruct (dm_vote msg) as [vote|] eqn:Ev; [|missing]. destruct (dm_seq_number msg); [|missing].
  destruct (dm_ring_id msg) as [R|] eqn:Er; [|missing].
  apply runs_vote_received with vote; [done..| | |apply device_keeps_ret].
  - intros v' valid Q HQ. by apply runs_ask_reply.
  - intros ->. by eapply Ha.
Qed.

Lemma keeps_send_vote_info_reply A seq_number : keeps A (send_vote_info_reply seq_number).
Proof.
  apply device_keeps_bind; [apply keeps_hidden, hidden_send_message; done|]. intros r.
  destruct (negb _); [apply keeps_fail_because|apply device_keeps_ret].
Qed.

Lemma keeps_vote_info A msg :
  votes_known A msg → keeps A (qdevice_net_msg_received_vote_info settings msg).
Proof.
  intros Ha. apply keeps_in_state. intros v Hv Hs.
  destruct (dm_vote msg) as [vote|] eqn:Ev; [|missing].
  destruct (dm_seq_number msg); [|missing]. destruct (dm_ring_id msg) as [R|] eqn:Er; [|missing].
  apply runs_vote_received with vote; [done..| | |apply keeps_send_vote_info_reply].
  - intros v' valid Q HQ. by apply runs_vote_info.
  - intros ->. by eapply Ha.
Qed.

Lemma keeps_heuristics_reply A msg :
  votes_known A msg → keeps A (qdevice_net_msg_received_heuristics_change_reply settings msg).
Proof.
  intros Ha. apply keeps_in_state. intros v Hv Hs.
  destruct (dm_vote msg) as [vote|] eqn:Ev; [|destruct (dm_heuristics msg); missing].
  destruct (dm_seq_number msg); [|destruct (dm_heuristics msg); missing].
  destruct (dm_ring_id msg) as [R|] eqn:Er; [|destruct (dm_heuristics msg); missing].
  assert (Hr : ∀ h, runs v (vote_received settings (λ valid,
      qdevice_net_algorithm_heuristics_change_reply_received settings z R valid h vote) R
      QDEVICE_NET_DISCONNECT_REASON_ALGO_HEURISTICS_CHANGE_REPLY_ERR (mret 0)) (λ _ v', ok A v')).
  { intros h. apply runs_vote_received with vote; [done..| | |apply device_keeps_ret].
    - intros v' valid Q HQ. by apply runs_heuristics_reply.
    - intros ->. by eapply Ha. }
  destruct (dm_heuristics msg); [missing|apply Hr..].
Qed.

Lemma keeps_echo_reply A msg : keeps A (qdevice_net_msg_received_echo_reply settings msg).
Proof.
  unfold qdevice_net_msg_received_echo_reply. destruct (dm_seq_number msg); [|apply keeps_fail_because].
  apply device_keeps_bind; [apply keeps_hidden; auto with hidden|]. intros i v Hv. runs_step.
  apply runs_echo_reply. intros r. destruct (negb _); [by apply keeps_fail_because|].
  runs_step. runs_step. runs_step.
  apply runs_hidden; [apply hidden_modify_net; intros j; by autorewrite with nview|]. intros _.
  by apply runs_ret.
Qed.

Lemma keeps_set_option_reply A msg : keeps A (qdevice_net_msg_received_set_option_reply settings msg).
Proof.
  apply keeps_in_state. intros v Hv _. destruct (dm_heartbeat_interval msg); [|by apply runs_ret].
  runs_step. eapply runs_mono; [by apply keeps_echo_schedule|]. intros r v' Hv'. by apply runs_ret.
Qed.

(** ** Any message *)

Lemma keeps_dispatch A h msg :
  decoded_ok h (msg, h) → votes_known A msg → keeps A (msg_received_dispatch settings msg).
Proof.
  intros Hd Ha. unfold msg_received_dispatch. cbv zeta.
  repeat case_match; first
    [ by apply keeps_node_list_reply | by apply keeps_ask_reply | by apply keeps_vote_info
    | by apply keeps_heuristics_reply | apply keeps_echo_reply | apply keeps_set_option_reply
    | by eapply keeps_init_reply | apply keeps_preinit_reply | apply keeps_fail_because ].
Qed.
End received.
