(* ===== verification/QdeviceConnectionFacts.v ===== *)
(** A connection keeps the invariant of the device: connecting, the first messages, and the end,
    when the vote is taken back, the sockets leave the loop, and the next connection begins. *)
From stdpp Require Import strings.
From S2P Require Import Prelude Dynar Tlv NodeList Msg MsgFacts Msgio SendBuffer DynarStr Heuristics.
From stdpp Require Import list gmap.
From S2P Require Import TimerList TimerInterface QdeviceInstance QdeviceSend QdeviceAlgorithm.
From S2P Require Import QdeviceHeuristics QdeviceMsgReceived QdeviceSocket QdeviceModelNet.
From S2P Require Import QdeviceVotequorum QdeviceRun.
From S2P Require Import QdeviceLogic QdeviceFacts QdeviceInvariant.
From S2P Require Import QdeviceAlgorithmFacts QdeviceHeuristicsFacts QdeviceReceivedFacts.
Local Open Scope Z_scope.

Section connection.
Context {T E : Type} `{TimerLaws qdevice_timer T} `{Environment E}.
Abbreviation device := (qdevice_instance T E).
Abbreviation view := (view T).
Context (beyond : mem).
Context (settings : qdevice_settings).

Abbreviation base := (base settings).
Abbreviation ok := (ok settings).
Abbreviation keeps := (keeps (T:=T) (E:=E) settings).

(** ** Reading *)

Lemma votes_known_acks A msg : votes_known (message_acks msg ++ A) msg.
Proof. intros E1 R E2. unfold message_acks. rewrite E1, E2. by left. Qed.

Lemma ok_mono A A' (v : view) : A ⊆ A' → ok A v → ok A' v.
Proof.
  intros Hs [[Ht Hc Hn Hd Hv] Hp Hy Ha Hl]. split; [split|..]; try done.
  - intros Hf R Hin. apply Hs. by apply Hv.
  - intros Hf E0. destruct (Ha Hf E0) as [Hi Hin]. split; [done|]. by apply Hs.
Qed.

Lemma msgio_read_view (q : device) :
  is_Some (net_socket (net q)) →
  match device_msgio_read beyond q with
  | (Ok _, q') => view_of q' = view_of q
  | (Err _, _) => False
  end.
Proof.
  intros [s Hs]. unfold device_msgio_read. rewrite Hs.
  destruct (msgio_read _ _ _ _ _) as [r st]. destruct q as [[]]. by cbn in *.
Qed.

(** What is decoded is in the ghost list. *)
Lemma keeps_msg_received A (q : device) acks :
  ok A (view_of q) →
  (∀ msg h, msg_decode beyond (receive_buffer (net q)) (msg_decoded_init, main_heap q) = (0, (msg, h)) →
     message_acks msg ⊆ acks) →
  match qdevice_net_msg_received beyond settings q with
  | (Ok _, q') => ok (acks ++ A) (view_of q')
  | (Err c, _) => c = EXIT
  end.
Proof.
  intros Hq Hacks. assert (Hq' : ok (acks ++ A) (view_of q)) by (eapply ok_mono; [|done]; set_solver).
  unfold qdevice_net_msg_received.
  rewrite (bind_ok get _ q q q eq_refl).
  destruct (msg_decode beyond _ _) as [res [msg h]] eqn:Em.
  rewrite (bind_ok (modify (set_main_heap h)) _ q tt (set_main_heap h q) eq_refl).
  assert (Ev : view_of (set_main_heap h q) = view_of q) by by destruct q.
  destruct (negb (res =? 0)) eqn:Er.
  - rewrite <-Ev in Hq'. apply (keeps_fail_because settings _ _ _ Hq' _ eq_refl).
  - apply negb_false_iff, Z.eqb_eq in Er as ->. specialize (Hacks _ _ eq_refl).
    apply msg_decode_zero in Em as Hd. rewrite <-Ev in Hq'.
    refine (keeps_dispatch settings (acks ++ A) h msg _ _ _ Hq' _ eq_refl).
    + destruct Hd as [? ? ? ? _]. by split.
    + intros E1 R E2. apply elem_of_app. left. apply Hacks. unfold message_acks. rewrite E1, E2. by left.
Qed.

(** Running from one state. *)
Definition ends {R} (A : list tlv_ring_id) (m : M device R) (q : device) : Prop :=
  match m q with (Ok _, q') => ok A (view_of q') | (Err c, _) => c = EXIT end.

Lemma ends_keeps {R} A (m : M device R) q : keeps A m → ok A (view_of q) → ends A m q.
Proof. intros Hm Hq. exact (Hm _ Hq q eq_refl). Qed.
Lemma ends_bind {R R'} A (m : M device R) (f : R → M device R') q :
  ends A m q → (∀ r, keeps A (f r)) → ends A (m ≫= f) q.
Proof.
  unfold ends. intros Hm Hf. destruct (m q) as [[r|c] q'] eqn:Em.
  - rewrite (bind_ok _ _ _ _ _ Em). by apply (ends_keeps A (f r)).
  - by rewrite (bind_err _ _ _ _ _ Em).
Qed.

Lemma device_keeps_reset A : keeps A (modify_net reset_received).
Proof.
  apply keeps_hidden, hidden_modify_net. intros i. unfold reset_received. by autorewrite with nview.
Qed.

Lemma read_message A (q : device) acks :
  ok A (view_of q) →
  (∀ msg h, msg_decode beyond (receive_buffer (net q)) (msg_decoded_init, main_heap q) = (0, (msg, h)) →
     message_acks msg ⊆ acks) →
  ends (acks ++ A) (r ← qdevice_net_msg_received beyond settings;
                    modify_net reset_received;; mret (if r =? -1 then -1 else 0)) q.
Proof.
  intros Hq Ha. apply ends_bind; [by apply keeps_msg_received|]. intros r.
  apply device_keeps_bind; [apply device_keeps_reset|]. intros _. apply device_keeps_ret.
Qed.

(** Reading a socket that is there; what it is told is added to the ghost list. *)
Lemma read_ok A (q : device) :
  ok A (view_of q) → is_Some (net_socket (net q)) →
  ends (acks_received beyond q ++ A) (qdevice_net_socket_read settings beyond) q.
Proof.
  intros Hq Hs. pose proof (msgio_read_view q Hs) as Hr.
  unfold ends, qdevice_net_socket_read.
  destruct (device_msgio_read beyond q) as [[r|c] q1] eqn:Er; [|done].
  assert (HL : r = 1 → net_skipping_msg (net q1) = false → ∀ msg h,
    msg_decode beyond (receive_buffer (net q1)) (msg_decoded_init, main_heap q1) = (0, (msg, h)) →
    message_acks msg ⊆ acks_received beyond q).
  { unfold acks_received. rewrite Er. intros -> -> msg h ->. done. }
  revert HL. generalize (acks_received beyond q) as L. intros L HL.
  rewrite (bind_ok _ _ _ _ _ Er). rewrite <-Hr in Hq.
  match goal with |- match ?m q1 with _ => _ end => change (ends (L ++ A) m q1) end.
  assert (Hq' : ok (L ++ A) (view_of q1)) by (eapply ok_mono; [|done]; set_solver).
  assert (Hf : ∀ reason, ends (L ++ A) (fail_because reason) q1).
  { intros reason. apply ends_keeps; [apply keeps_fail_because|done]. }
  destruct (r =? 0); [by apply ends_keeps; [apply device_keeps_ret|]|].
  destruct (r =? -1); [apply Hf|]. destruct (_ || _); [apply Hf|]. destruct (r =? -5); [apply Hf|].
  destruct (Z.eqb_spec r 1) as [->|]; [|done]. specialize (HL eq_refl).
  unfold ends. rewrite (bind_ok get_net _ q1 (net q1) q1 eq_refl).
  destruct (net_skipping_msg (net q1)); [done|]. apply read_message; [done|]. by apply HL.
Qed.

Lemma keeps_or_disconnect A (m : M device Z) : keeps A m → keeps A (or_schedule_disconnect m).
Proof.
  intros Hm. apply device_keeps_bind; [done|]. intros r. destruct (_ =? _); [|apply device_keeps_ret].
  apply keeps_hidden. hidden_tac.
Qed.

Lemma device_read_cb_ok A (q : device) :
  ok A (view_of q) → is_Some (net_socket (net q)) →
  ends (acks_received beyond q ++ A) (socket_read_cb settings beyond) q.
Proof.
  intros Hq Hs. apply ends_bind; [by apply read_ok|]. intros r. destruct (_ =? _); [|apply device_keeps_ret].
  apply keeps_hidden. hidden_tac.
Qed.

(** ** Writing *)

Lemma runs_msgio_write (v : view) send_buffer (Q : Z → view → Prop) :
  is_Some (n_socket (v_net v)) → (∀ r, Q r v) → runs (E:=E) v (device_msgio_write send_buffer) Q.
Proof.
  intros [s Hs] HQ q Hq. unfold device_msgio_write.
  replace (net_socket (net q)) with (Some s) by by rewrite <-Hs, <-Hq.
  destruct (msgio_write _ _ _ _ _ _) as [r [e already]]. cbn beta iota.
  replace (view_of _) with v; [apply HQ|]. rewrite <-Hq. by destruct q as [[]].
Qed.

Lemma ok_set_socket A (v : view) s :
  ok A v → n_client_destroyed (v_net v) = true → is_Some s →
  ok A (v_set_net (n_set_socket s (v_net v)) v).
Proof.
  intros Hv Hd [s' ->]. assert (Hb : base None A (v_set_net (n_set_socket (Some s') (v_net v)) v)).
  { base_same_tac (ok_base _ _ _ Hv) v. }
  destruct Hv as [_ [Hsc Hss Hsp Hsi Hst] Hy Ha Hl]. destruct v as [[]]. cbn in *. subst.
  split; [done| |done..]. split; done.
Qed.

Lemma hidden_start_ssl s : hidden (T:=T) (E:=E) (nss_sock_start_ssl_as_client s).
Proof. unfold nss_sock_start_ssl_as_client. hidden_tac. Qed.

Lemma runs_write_finished A (v : view) :
  ok A v → is_Some (n_socket (v_net v)) →
  runs (E:=E) v (qdevice_net_socket_write_finished settings) (λ _ v', ok A v').
Proof.
  intros Hv [s Hs]. unfold qdevice_net_socket_write_finished. runs_step. runs_step.
  assert (Es : state i = n_state (v_net v)) by by rewrite <-Hi.
  destruct (negb _) eqn:En; [by apply runs_ret|]. apply negb_false_iff, bool_decide_eq_true in En.
  rewrite Es in En. assert (Hn : ¬ is_connected (v_net v)) by by unfold is_connected; rewrite En.
  assert (Hd : n_client_destroyed (v_net v) = true) by (eapply not_connecting; [done|by rewrite En]).
  assert (Hreg : v_registered v = true) by (eapply setting_up; [done|by rewrite En]).
  replace (net_socket i) with (Some s) by by rewrite <-Hs, <-Hi.
  runs_step. apply runs_hidden; [apply hidden_start_ssl|]. intros [s'|]; [|by apply runs_fail_because].
  runs_step. apply runs_send_init; [by apply runs_fail_because|].
  change (negb (0 =? 0)) with false. cbv iota. runs_step.
  assert (Hv' := ok_send_init settings A v (qdevice_net_votequorum_ring_id_to_tlv (v_list_ring v))
    QDEVICE_NET_INSTANCE_STATE_WAITING_INIT_REPLY Hv Hn Hd Hreg ltac:(done)).
  apply runs_modify_net. intros j Hj. apply runs_ret.
  rewrite unseen_using_tls, nview_socket, Hj.
  apply ok_set_socket; [done| |by eexists]. by destruct v as [[]].
Qed.

Lemma runs_write A (v : view) :
  ok A v → is_Some (n_socket (v_net v)) →
  runs (E:=E) v (qdevice_net_socket_write settings beyond) (λ _ v', ok A v').
Proof.
  intros Hv Hs. unfold qdevice_net_socket_write. runs_step. runs_step.
  destruct (send_buffer_list_get_active _) as [sb|]; [|by apply runs_fail_because].
  runs_step. apply runs_msgio_write; [done|]. intros r. runs_step.
  assert (Hend : ∀ fin : Z, keeps A (
    if fin =? -1 then mret (-1)
    else if r =? -1 then fail_because QDEVICE_NET_DISCONNECT_REASON_SERVER_CLOSED_CONNECTION
    else if r =? -2 then fail_because QDEVICE_NET_DISCONNECT_REASON_CANT_SEND_MESSAGE else mret 0)).
  { intros fin. repeat case_match; first [apply device_keeps_ret|apply keeps_fail_because]. }
  apply runs_mono with (λ (_ : Z) v', ok A v'); [|intros fin v' Hv'; by apply Hend].
  destruct (r =? 1); [|by apply runs_ret]. cbv zeta. runs_step.
  eapply runs_hidden; [apply hidden_modify_net; intros j; by autorewrite with nview|]. intros _.
  destruct (negb _); [by apply runs_write_finished|by apply runs_ret].
Qed.

(** ** Connecting *)

(** A view with another client and other sockets in the loop. *)
Definition v_connecting (o : option nat) (d : bool) (pl : list nat) (v : view) : view :=
  v_set_polled pl (v_set_net (n_set_client o d (v_net v)) v).

Lemma v_connecting_id v :
  v_connecting (n_client_socket (v_net v)) (n_client_destroyed (v_net v)) (v_polled v) v = v.
Proof. by destruct v as [[]]. Qed.
Lemma v_connecting_twice o d pl o' d' pl' v :
  v_connecting o d pl (v_connecting o' d' pl' v) = v_connecting o d pl v.
Proof. by destruct v as [[]]. Qed.

Lemma v_polled_connecting o d pl v : v_polled (v_connecting o d pl v) = pl.
Proof. by destruct v. Qed.

Lemma base_connecting x A o d pl (v : view) : base x A v → base x A (v_connecting o d pl v).
Proof. intros Hb. base_same_tac Hb v. Qed.

Lemma runs_modify_client (v : view) f (Q : unit → view → Prop) :
  (∀ c, nb_socket c = n_client_socket (v_net v) → nb_destroyed c = n_client_destroyed (v_net v) →
     Q tt (v_connecting (nb_socket (f c)) (nb_destroyed (f c)) (v_polled v) v)) →
  runs (E:=E) v (modify_client f) Q.
Proof.
  intros HQ. apply runs_modify_net. intros i Hi. rewrite nview_client, Hi.
  specialize (HQ (non_blocking_client i)). destruct v as [n]. cbn in *. subst n. by apply HQ.
Qed.

Lemma runs_del_prfd (v : view) s (Q : Z → view → Prop) :
  Q (-1) v →
  (∀ pl, S (length pl) = length (v_polled v) → Q 0 (v_set_polled pl v)) →
  runs (E:=E) v (pr_poll_loop_del_prfd (Some s)) Q.
Proof.
  intros HN HZ. unfold pr_poll_loop_del_prfd. runs_step. apply runs_get. intros q Hq.
  destruct (list_find _ _) as [[k x]|] eqn:Ef; [|by apply runs_ret]. runs_step.
  apply runs_modify. intros q' Hq'. apply runs_ret.
  apply list_find_Some in Ef as (Hk & _).
  assert (Ep : polled_sockets q' = polled_sockets q).
  { change (v_polled (view_of q') = v_polled (view_of q)). congruence. }
  replace (view_of _) with (v_set_polled (delete k (polled_sockets q')) v) by (rewrite <-Hq'; by destruct q').
  apply HZ. replace (v_polled v) with (polled_sockets q') by by rewrite <-Hq'.
  rewrite Ep. rewrite length_delete by by eexists. apply lookup_lt_Some in Hk. lia.
Qed.

Lemma runs_add_prfd (v : view) s (Q : Z → view → Prop) :
  Q (-1) v → Q 0 (v_set_polled (v_polled v ++ [s]) v) →
  runs (E:=E) v (pr_poll_loop_add_prfd (Some s)) Q.
Proof.
  intros HN HZ. unfold pr_poll_loop_add_prfd. runs_step. apply runs_get. intros q Hq.
  destruct (bool_decide _); [by apply runs_ret|]. runs_step.
  apply runs_hidden; [apply hidden_malloc|]. intros [a|]; [|by apply runs_ret].
  runs_step. apply runs_modify. intros q' Hq'. apply runs_ret.
  replace (view_of _) with (v_set_polled (v_polled v ++ [s]) v); [done|].
  rewrite <-Hq'. by destruct q'.
Qed.

Lemma runs_try_next_loop addrs (v : view) (Q : Z → view → Prop) :
  n_client_destroyed (v_net v) = false →
  (∀ o, Q (-1) (v_connecting o false (v_polled v) v)) →
  (∀ s, Q 0 (v_connecting (Some s) false (v_polled v) v)) →
  runs (E:=E) v (try_next_loop addrs) Q.
Proof.
  revert v. induction addrs as [|addr addrs IH]; intros v Hd HN HZ; cbn [try_next_loop].
  - runs_step. apply runs_modify_client. intros c Es Ed. apply runs_ret.
    cbn. rewrite Ed, Hd. apply HN.
  - assert (IH' : ∀ o, runs (v_connecting o false (v_polled v) v) (try_next_loop addrs) Q).
    { intros o. apply IH; [by destruct v as [[]]|..]; intros o'.
      - specialize (HN o'). by destruct v as [[]].
      - specialize (HZ o'). by destruct v as [[]]. }
    runs_step. apply runs_modify_client. intros c Es Ed. cbn [nb_socket nb_destroyed set_nb_addrs].
    rewrite Ed, Hd. generalize (nb_socket c) as o. intros o. runs_step. runs_step.
    destruct (negb _); [apply IH'|]. runs_step. runs_step. runs_step.
    assert (Hset : ∀ o o' f (k : M device Z),
      (∀ c, nb_destroyed (f c) = nb_destroyed c ∧ nb_socket (f c) = o') →
      runs (v_connecting o' false (v_polled v) v) k Q →
      runs (v_connecting o false (v_polled v) v) (modify_client f;; k) Q).
    { intros o1 o2 f k Hf Hk. runs_step. apply runs_modify_client. intros c' Es' Ed'.
      destruct (Hf c') as [-> ->]. rewrite Ed'. by destruct v as [[]]. }
    eapply (runs_mono _ _ (λ _ v', v' = v_connecting a false (v_polled v) v)).
    { apply runs_modify_client. intros c' Es' Ed'. cbn. rewrite Ed'. by destruct v as [[]]. }
    intros _ v' ->. destruct a as [s|]; [|apply IH'].
    runs_step. runs_step. destruct (negb _); [by apply (Hset _ None); [intros []|apply IH']|].
    runs_step. runs_step. destruct a0; [apply runs_ret, HZ|].
    by apply (Hset _ None); [intros []|apply IH'].
Qed.

Lemma runs_try_next (v : view) (Q : Z → view → Prop) :
  (∀ o d, Q (-1) (v_connecting o d (v_polled v) v)) →
  (∀ s, n_client_destroyed (v_net v) = false → Q 0 (v_connecting (Some s) false (v_polled v) v)) →
  runs (E:=E) v nss_sock_non_blocking_client_try_next Q.
Proof.
  intros HN HZ. unfold nss_sock_non_blocking_client_try_next. runs_step. runs_step.
  assert (Ed : nb_destroyed (non_blocking_client i) = n_client_destroyed (v_net v)) by by rewrite <-Hi.
  destruct (nb_destroyed _).
  { apply runs_ret. specialize (HN (n_client_socket (v_net v)) (n_client_destroyed (v_net v))).
    by rewrite v_connecting_id in HN. }
  runs_step. apply runs_modify_client. intros c Es Ed'. cbn [nb_socket nb_destroyed set_nb_socket].
  rewrite Ed', <-Ed. apply runs_try_next_loop; [by destruct v as [[]]|..].
  - intros o. specialize (HN o false). by destruct v as [[]].
  - intros s. specialize (HZ s (eq_sym Ed)). by destruct v as [[]].
Qed.

Lemma runs_client_destroy (v : view) (Q : unit → view → Prop) :
  (∀ o, (n_client_destroyed (v_net v) = false → o = n_client_socket (v_net v)) →
    Q tt (v_connecting o true (v_polled v) v)) →
  runs (E:=E) v nss_sock_non_blocking_client_destroy Q.
Proof.
  intros HQ. unfold nss_sock_non_blocking_client_destroy. runs_step. runs_step.
  assert (Ed : nb_destroyed (non_blocking_client i) = n_client_destroyed (v_net v)) by by rewrite <-Hi.
  destruct (nb_destroyed _).
  - apply runs_ret. specialize (HQ (n_client_socket (v_net v)) ltac:(done)). rewrite Ed in HQ.
    by rewrite v_connecting_id in HQ.
  - apply runs_modify_client. intros c Es Ed'. by apply HQ.
Qed.

(** An address is tried, or there is no client any more. *)
Definition attempted (v v' : view) : Prop :=
  ∃ o d pl, v' = v_connecting o d pl v ∧ (d = false → is_Some o) ∧
    (pl = [] ∨ d = false ∧ ∃ s, pl = [s]).

Lemma runs_try_next_or_give_up (v : view) (Q : Z → view → Prop) :
  n_state (v_net v) = QDEVICE_NET_INSTANCE_STATE_WAITING_CONNECT → v_polled v = [] →
  (∀ r v', attempted v v' → Q r v') → runs (E:=E) v try_next_or_give_up Q.
Proof.
  intros Hs Hp HQ. unfold try_next_or_give_up. runs_step.
  assert (Hadd : ∀ o d, (d = false → is_Some o) →
    runs (E:=E) (v_connecting o d (v_polled v) v) qdevice_net_socket_add_to_main_poll_loop Q).
  { intros o d Ho. unfold qdevice_net_socket_add_to_main_poll_loop. runs_step. runs_step. cbv zeta.
    assert (Es : state i = QDEVICE_NET_INSTANCE_STATE_WAITING_CONNECT).
    { replace (state i) with (n_state (v_net (v_connecting o d (v_polled v) v))) by by rewrite <-Hi.
      by destruct v as [[]]. }
    assert (Ed : nb_destroyed (non_blocking_client i) = d).
    { replace (nb_destroyed _) with (n_client_destroyed (v_net (v_connecting o d (v_polled v) v))) by by rewrite <-Hi.
      by destruct v as [[]]. }
    assert (Eo : nb_socket (non_blocking_client i) = o).
    { replace (nb_socket _) with (n_client_socket (v_net (v_connecting o d (v_polled v) v))) by by rewrite <-Hi.
      by destruct v as [[]]. }
    rewrite Es, bool_decide_true, Ed, Eo by done. cbn [negb orb].
    assert (Hno : ∀ r, Q r (v_connecting o d (v_polled v) v)).
    { intros r. apply HQ. exists o, d, (v_polled v). auto. }
    destruct d; cbn [negb]; [by apply runs_ret|]. destruct (Ho eq_refl) as [s ->]. runs_step.
    apply runs_add_prfd; apply runs_ret; [apply Hno|]. apply HQ.
    exists (Some s), false, [s]. rewrite Hp. split_and!; [by destruct v as [[]]|by eexists|]. eauto. }
  apply runs_try_next.
  - intros o d. change (-1 =? -1) with true. cbv iota. runs_step. apply runs_client_destroy.
    intros o' _. rewrite v_connecting_twice.
    replace (v_polled (v_connecting o d (v_polled v) v)) with (v_polled v) by by destruct v.
    by apply Hadd.
  - intros s Hd. change (0 =? -1) with false. cbv iota. runs_step. runs_step. apply Hadd.
    by eexists.
Qed.

Lemma ok_attempted A (v v' : view) :
  ok A v → v_registered v = true → n_client_destroyed (v_net v) = false → attempted v v' → ok A v'.
Proof.
  intros Hv Hr Hd (o & d & pl & -> & Ho & Hpl).
  pose proof (base_connecting None A o d pl v (ok_base _ _ _ Hv)) as Hb.
  destruct Hv as [_ [Hsc Hss Hsp Hsi Hst] Hy Ha Hl].
  destruct (Hsc Hd) as (H1' & H2' & _). destruct v as [[]]. cbn in *. subst.
  split; [done| |done..]. split; cbn.
  - intros ->. split_and!; auto.
  - intros Hne ->. by destruct Hpl as [->|[? _]].
  - done.
  - destruct Hpl as [->|(_ & s & ->)]; cbn; lia.
  - done.
Qed.

Lemma runs_del_from_loop (v : view) (Q : Z → view → Prop) :
  (n_client_destroyed (v_net v) = false → is_Some (n_client_socket (v_net v)) ∧ n_socket (v_net v) = None) →
  (v_polled v ≠ [] → n_client_destroyed (v_net v) = true → is_Some (n_socket (v_net v))) →
  (length (v_polled v) ≤ 1)%nat → Q (-1) v → Q 0 (v_set_polled [] v) →
  runs (E:=E) v qdevice_net_socket_del_from_main_poll_loop Q.
Proof.
  intros Hc Hs Hl HN HZ. unfold qdevice_net_socket_del_from_main_poll_loop. runs_step. runs_step.
  assert (Ed : nb_destroyed (non_blocking_client i) = n_client_destroyed (v_net v)) by by rewrite <-Hi.
  assert (Ec : nb_socket (non_blocking_client i) = n_client_socket (v_net v)) by by rewrite <-Hi.
  assert (Es : net_socket i = n_socket (v_net v)) by by rewrite <-Hi.
  assert (Hone : ∀ pl : list nat, S (length pl) = length (v_polled v) → pl = []).
  { intros pl Hpl. destruct pl; [done|cbn in *; lia]. }
  rewrite Ed, Ec, Es. runs_step. destruct (n_client_destroyed (v_net v)); cbn [negb].
  - apply runs_ret. change (negb (0 =? 0)) with false. cbv iota.
    destruct (n_socket (v_net v)) as [s|] eqn:Eso.
    + runs_step. apply runs_del_prfd; [by apply runs_ret|]. intros pl ->%Hone. by apply runs_ret.
    + apply runs_ret. replace v with (v_set_polled [] v); [done|].
      destruct (v_polled v) eqn:Ep; [by destruct v; cbn in *; subst|]. by destruct (Hs ltac:(done) eq_refl).
  - destruct (Hc eq_refl) as [[s ->] ->].
    apply runs_del_prfd; [by apply runs_ret|]. intros pl ->%Hone. by apply runs_ret.
Qed.

(** The socket of the client is that of the session now. *)
Definition v_session (s : nat) (v : view) : view :=
  v_set_polled [] (v_set_net (n_set_state QDEVICE_NET_INSTANCE_STATE_SENDING_PREINIT_REPLY
    (n_set_client None true (n_set_socket (Some s) (v_net v)))) v).

Lemma ok_session A (v : view) s pl :
  ok A v → n_client_destroyed (v_net v) = false → v_registered v = true → pl = [] ∨ pl = [s] →
  ok A (v_set_polled pl (v_session s v)).
Proof.
  intros Hv Hd Hr Hpl. destruct (ok_sockets _ _ _ Hv) as [Hsc _ _ _ _].
  destruct (Hsc Hd) as (_ & Hst & _).
  assert (Hn : ¬ is_connected (v_net v)) by by unfold is_connected; rewrite Hst.
  pose proof (not_connected_vote _ _ _ Hv Hn) as Hna.
  assert (Hb : base None A (v_set_polled pl (v_session s v))) by base_same_tac (ok_base _ _ _ Hv) v.
  destruct Hv as [_ _ _ Ha Hl]. destruct v as [[]]. cbn in *. subst.
  split; [done| |by intros [=]| |done].
  - split; cbn; try done. destruct Hpl as [->| ->]; cbn; lia.
  - intros Hf E0. by destruct (Hna Hf).
Qed.

(** The session begins with its first message. *)
Lemma runs_begin_session A (v : view) :
  ok A v → n_client_destroyed (v_net v) = true → v_registered v = true → ¬ is_connected (v_net v) →
  runs (E:=E) v (r ← qdevice_net_send_preinit settings;
    if negb (r =? 0) then fail_because QDEVICE_NET_DISCONNECT_REASON_CANT_ALLOCATE_MSG_BUFFER
    else mret 0) (λ _ v', ok A v').
Proof.
  intros Hv Hd Hreg Hn. runs_step. apply runs_send_preinit; [by apply runs_fail_because|].
  apply runs_ret. by apply ok_set_state.
Qed.

Lemma runs_connect_succeeded A (v : view) :
  ok A v → n_client_destroyed (v_net v) = false → v_registered v = true →
  runs (E:=E) v (connect_succeeded settings) (λ _ v', ok A v').
Proof.
  intros Hv Hd Hr. destruct (ok_sockets _ _ _ Hv) as [Hsc Hss Hsp Hsi Hst].
  destruct (Hsc Hd) as (Hso & Hst' & [s Hcs]%id); [done|]. unfold connect_succeeded. runs_step.
  apply runs_del_from_loop; [intros _; by split|by intros _ ?; congruence|done|by apply runs_ret|].
  change (0 =? -1) with false. cbv iota. runs_step. apply runs_modify_net. intros i Hi.
  rewrite nview_socket, Hi.
  assert (Ec : nb_socket (non_blocking_client i) = Some s) by (rewrite <-Hcs; by destruct v; cbn in *; subst).
  rewrite Ec. runs_step. apply runs_client_destroy. intros o Ho. runs_step. apply runs_modify_client.
  intros c _ Ec'. cbn [nb_socket nb_destroyed set_nb_socket]. rewrite Ec'. runs_step. runs_step.
  set (v1 := v_set_net _ _). set (v2 := v_session s v).
  assert (E1 : v1 = v2) by by destruct v as [[]]. rewrite E1. clearbody v1. subst v1.
  assert (Hv2 : ∀ pl, pl = [] ∨ pl = [s] → ok A (v_set_polled pl v2)) by (intros; by apply ok_session).
  runs_step. unfold qdevice_net_socket_add_to_main_poll_loop. runs_step. runs_step. cbv zeta.
  assert (Es : state i0 = QDEVICE_NET_INSTANCE_STATE_SENDING_PREINIT_REPLY).
  { replace (state i0) with (n_state (v_net v2)) by by rewrite <-Hi0. by destruct v as [[]]. }
  assert (Eo : net_socket i0 = Some s).
  { replace (net_socket i0) with (n_socket (v_net v2)) by by rewrite <-Hi0. by destruct v as [[]]. }
  rewrite Es, bool_decide_false, Eo by done. cbn [negb orb]. runs_step.
  assert (Ep : v_polled v2 = []) by by destruct v.
  apply runs_add_prfd; apply runs_ret.
  - apply runs_ret. replace v2 with (v_set_polled [] v2) by by destruct v. apply Hv2. by left.
  - change (0 =? -1) with false. cbn [negb Z.eqb]. rewrite Ep. apply runs_begin_session.
    + apply Hv2. by right.
    + by destruct v as [[]].
    + by destruct v.
    + by destruct v as [[]].
Qed.

Lemma runs_connect_ready A (v : view) status :
  ok A v → n_client_destroyed (v_net v) = false → v_registered v = true →
  runs (E:=E) v (non_blocking_client_socket_write_cb settings status) (λ _ v', ok A v').
Proof.
  intros Hv Hd Hr. unfold non_blocking_client_socket_write_cb. cbv zeta.
  destruct status; cbn [nss_sock_non_blocking_client_succeeded Z.eqb Pos.eqb].
  - by apply runs_connect_succeeded.
  - by apply runs_ret.
  - destruct (ok_sockets _ _ _ Hv) as [Hsc Hss Hsp Hsi Hst].
    destruct (Hsc Hd) as (Hso & Hst' & [s Hcs]%id); [done|].
    runs_step. apply runs_del_from_loop; [intros _; by split|by intros _ ?; congruence|done|by apply runs_ret|].
    change (0 =? -1) with false. cbv iota. runs_step.
    assert (Hv' : ok A (v_set_polled [] v)).
    { assert (Hb : base None A (v_set_polled [] v)) by base_same_tac (ok_base _ _ _ Hv) v.
      destruct Hv as [_ _ Hy Ha Hl]. destruct v as [[]]. cbn in *. subst.
      split; [done| |done..]. split; cbn; try done. lia. }
    apply runs_try_next_or_give_up; [by destruct v as [[]]|by destruct v|]. intros r v' Ha.
    apply runs_ret. eapply ok_attempted; [done|by destruct v as [[]]..|done].
Qed.

Lemma runs_connect_error A (v : view) status :
  ok A v → v_registered v = true →
  runs (E:=E) v (non_blocking_client_socket_err_cb settings status) (λ _ v', ok A v').
Proof.
  intros Hv Hr. unfold non_blocking_client_socket_err_cb. runs_step. runs_step.
  assert (Ed : nb_destroyed (non_blocking_client i) = n_client_destroyed (v_net v)) by by rewrite <-Hi.
  rewrite Ed. destruct (n_client_destroyed (v_net v)) eqn:E0; cbn [negb]; [by apply runs_ret|].
  by apply runs_connect_ready.
Qed.

(** ** Starting to connect *)

Lemma runs_client_init (v : view) af (Q : Z → view → Prop) :
  (∀ r o d, Q r (v_connecting o d (v_polled v) v)) →
  runs (E:=E) v (nss_sock_non_blocking_client_init af) Q.
Proof.
  intros HQ. unfold nss_sock_non_blocking_client_init. runs_step. apply runs_modify_client.
  intros c _ _. runs_step. apply runs_hidden; [apply hidden_malloc|]. intros o.
  destruct o as [a|]; [|by apply runs_ret, HQ]. runs_step. apply runs_modify_client. intros c' _ _.
  runs_step. runs_step. destruct a0.
  - runs_step. apply runs_modify_client. intros c'' _ _. apply runs_ret.
    rewrite !v_connecting_twice, !v_polled_connecting. apply HQ.
  - apply runs_ret. rewrite v_connecting_twice, v_polled_connecting. apply HQ.
Qed.

Lemma runs_add_pre_poll (v : view) (Q : Z → view → Prop) :
  Q (-1) v → Q 0 (v_set_registered true v) → runs (E:=E) v pr_poll_loop_add_pre_poll_cb Q.
Proof.
  intros HN HZ. unfold pr_poll_loop_add_pre_poll_cb. runs_step. apply runs_get. intros q Hq.
  destruct (pre_poll_cb_registered q); [by apply runs_ret|]. runs_step.
  apply runs_hidden; [apply hidden_malloc|]. intros [a|]; [|by apply runs_ret]. runs_step.
  apply runs_modify. intros q' Hq'. apply runs_ret.
  replace (view_of _) with (v_set_registered true v); [done|]. rewrite <-Hq'. by destruct q'.
Qed.

(** The view when the loop starts: an address is tried, or there is none. *)
Definition v_waiting (o : option nat) (d : bool) (pl : list nat) (p : option nat) (t : T) (b : bool)
    (v : view) : view :=
  v_set_registered b (v_connecting o d pl (v_set_handle CONNECT_TIMER p t
    (v_set_net (n_set_socket None (n_set_state QDEVICE_NET_INSTANCE_STATE_WAITING_CONNECT (v_net v))) v))).

(** What is left of the invariant between two connections. *)
Record between (A : list tlv_ring_id) (v : view) : Prop := {
  bt_base : base None A v;
  bt_acked : ffsplit settings → n_vote (v_net v) ≠ TLV_VOTE_ACK;
  bt_rings : v_list_ring v = v_ring v;
  bt_polled : v_polled v = [];
  bt_connect : n_connect (v_net v) = None;
  bt_registered : v_registered v = false
}.

Lemma ok_waiting A o d pl p t (v : view) :
  between A v → base None A (v_waiting o d pl p t true v) → (d = false → is_Some o) →
  pl = [] ∨ d = false ∧ (∃ s, pl = [s]) → ok A (v_waiting o d pl p t true v).
Proof.
  intros [_ Ha Hl Hp _ _] Hb Ho Hpl. destruct v as [[]]. cbn in *. subst.
  split; [done| |by intros [=]| |done].
  - split; cbn; try done.
    + intros ->. split_and!; auto.
    + intros Hne ->. by destruct Hpl as [->|[? _]].
    + destruct Hpl as [->|(_ & s & ->)]; cbn; lia.
  - intros Hf E0. by destruct (Ha Hf).
Qed.

Lemma runs_pre_poll A (v : view) (Q : Z → view → Prop) :
  between A v →
  (∀ v', ok A v' → Q 0 v') → (∀ v', base None A v' → Q (-1) v') →
  runs (E:=E) v (qdevice_model_net_pre_poll_loop settings) Q.
Proof.
  intros Hv HQ HN. unfold qdevice_model_net_pre_poll_loop.
  pose proof Hv as [Hb Hna Hl Hp Hc Hr]. runs_step. runs_step. runs_step. runs_step.
  set (v1 := v_set_net _ _).
  assert (Hb1 : base None A v1) by base_same_tac Hb v.
  apply (runs_start_timer settings A v1 _ CONNECT_TIMER); [done|by destruct v as [[]]|done|].
  intros p t Hb2. destruct p as [p|]; [|by apply runs_ret, HN]. runs_step. apply runs_client_init.
  intros _ o0 d0. runs_step. set (v2 := v_connecting _ _ _ _).
  assert (Hw : ∀ o d pl b, base None A (v_waiting o d pl (Some p) t b v)).
  { intros o d pl b. base_same_tac Hb2 v. }
  assert (Ew : ∀ o d pl, v_connecting o d pl v2 = v_waiting o d pl (Some p) t false v).
  { intros. by destruct v as [[]]; cbn in *; subst. }
  assert (Ew' : ∀ o d pl, v_set_registered true (v_waiting o d pl (Some p) t false v) =
                v_waiting o d pl (Some p) t true v) by by intros; destruct v.
  apply runs_try_next_or_give_up; [by destruct v as [[]]|by destruct v|].
  intros r v3 (o & d & pl & -> & Ho & Hpl). rewrite Ew. destruct (r =? -1).
  - runs_step. apply runs_client_destroy. intros o' _. apply runs_ret, HN.
    by apply base_connecting.
  - runs_step. apply runs_add_pre_poll.
    + change (-1 =? -1) with true. cbv iota. runs_step. apply runs_del_from_loop.
      * intros E0. destruct v as [[]]. cbn in *. split; [by apply Ho|done].
      * intros Hne E0. destruct v as [[]]. cbn in *. subst. by destruct Hpl as [->|[? _]].
      * destruct v as [[]]. cbn. destruct Hpl as [->|(_ & s & ->)]; cbn; lia.
      * runs_step. apply runs_client_destroy. intros o' _. apply runs_ret, HN. by apply base_connecting.
      * runs_step. apply runs_client_destroy. intros o' _. apply runs_ret, HN. apply base_connecting.
        specialize (Hw o d [] false). by destruct v as [[]].
    + change (0 =? -1) with false. cbv iota. apply runs_ret, HQ. rewrite Ew'. by apply ok_waiting.
Qed.
End connection.

(** ** The end of a connection keeps the invariant of the device: the vote is taken back, the
    sockets leave the loop, and the next connection begins. *)

Section disconnect.
Context {T E : Type} `{TimerLaws qdevice_timer T} `{Environment E}.
Abbreviation device := (qdevice_instance T E).
Abbreviation view := (view T).
Context (settings : qdevice_settings).
(** The delay before the next connection is a remainder of [0.9] of the interval. *)
Hypothesis delay_interval : times_0_9 (cfg_cast_vote_timer_interval settings) ≠ 0.

Abbreviation base := (base settings).
Abbreviation ok := (ok settings).
Abbreviation ffsplit := (ffsplit settings).

Definition v_pause (b : bool) (v : view) : view := v_set_net (n_set_paused b (v_net v)) v.

Lemma runs_set_paused b (v : view) (Q : unit → view → Prop) :
  Q tt (v_pause b v) → runs (E:=E) v (qdevice_net_cast_vote_timer_set_paused b) Q.
Proof.
  intros HQ. unfold qdevice_net_cast_vote_timer_set_paused. runs_step. runs_step.
  assert (Ep : cast_vote_timer_paused i = n_paused (v_net v)) by by rewrite <-Hi.
  destruct (Bool.eqb b (cast_vote_timer_paused i)) eqn:Eb; cbn [negb].
  - apply eqb_prop in Eb. apply runs_ret. replace v with (v_pause b v); [done|].
    destruct v as [[]]. cbn in *. by subst.
  - by runs_step.
Qed.

Lemma runs_del_pre_poll (v : view) (Q : Z → view → Prop) :
  (v_registered v = false → Q (-1) v) → (v_registered v = true → Q 0 (v_set_registered false v)) →
  runs (E:=E) v pr_poll_loop_del_pre_poll_cb Q.
Proof.
  intros HN HZ. unfold pr_poll_loop_del_pre_poll_cb. runs_step. apply runs_get. intros q Hq.
  assert (Er : pre_poll_cb_registered q = v_registered v) by by rewrite <-Hq.
  rewrite Er. destruct (v_registered v); [|by apply runs_ret, HN]. runs_step.
  apply runs_modify. intros q' Hq'. apply runs_ret.
  replace (view_of _) with (v_set_registered false v); [by apply HZ|]. rewrite <-Hq'. by destruct q'.
Qed.

Lemma hidden_map_exit_reason r : hidden (T:=T) (E:=E) (map_exit_reason r).
Proof. unfold map_exit_reason. hidden_tac. Qed.

Lemma hidden_delay : hidden (T:=T) (E:=E) (delay_before_reconnect settings).
Proof.
  unfold delay_before_reconnect. cbv zeta. destruct (Z.eqb_spec (times_0_9 (cfg_cast_vote_timer_interval settings)) 0).
  - by destruct delay_interval.
  - hidden_tac.
Qed.

Lemma nview_clean i :
  nview (qdevice_net_instance_clean i) = n_set_state QDEVICE_NET_INSTANCE_STATE_WAITING_CONNECT (nview i).
Proof. unfold qdevice_net_instance_clean. by autorewrite with nview. Qed.

(** The program ends with this result. *)
Definition ended (r : Z) : Prop := r = 0 ∨ r = -1.

(** The sockets are taken out of the loop and forgotten. *)
Definition v_closed (o : option nat) (d : bool) (pl : list nat) (b : bool) (v : view) : view :=
  v_set_registered b (v_connecting o d pl (v_set_net (n_set_socket None (v_net v)) v)).

Lemma base_closed x A o d pl b (v : view) : base x A v → base x A (v_closed o d pl b v).
Proof. intros Hb. base_same_tac Hb v. Qed.

Lemma runs_close_sockets (v : view) (Q : unit → view → Prop) :
  (∀ o d, Q tt (v_closed o d (v_polled v) (v_registered v) v)) → runs (E:=E) v close_sockets Q.
Proof.
  intros HQ. unfold close_sockets. runs_step. runs_step. runs_step. apply runs_client_destroy.
  intros o _. apply runs_modify_client. intros c _ _.
  rewrite v_connecting_twice, v_polled_connecting.
  specialize (HQ (nb_socket (set_nb_socket None c)) (nb_destroyed (set_nb_socket None c))).
  by destruct v as [[]].
Qed.

Lemma runs_remove_from_loop (v : view) restart ret (Q : bool * Z → view → Prop) :
  sockets_part v → v_registered v = true → ended ret →
  (∀ restart' ret' o d pl b, ended ret' → (restart' = true → pl = [] ∧ b = false) →
    Q (restart', ret') (v_closed o d pl b v)) →
  runs (E:=E) v (remove_from_loop restart ret) Q.
Proof.
  intros [Hsc Hss Hsp Hsi Hst] Hr Hret HQ. unfold remove_from_loop. runs_step.
  apply runs_del_pre_poll; [congruence|intros _]. change (0 =? -1) with false. cbv iota. runs_step.
  assert (Hend : ∀ restart' ret' pl, ended ret' → (restart' = true → pl = []) →
    runs (E:=E) (v_set_polled pl (v_set_registered false v)) (close_sockets;; mret (restart', ret')) Q).
  { intros restart' ret' pl Hne Hpl. runs_step. apply runs_close_sockets. intros o d. apply runs_ret.
    specialize (HQ restart' ret' o d pl false Hne (λ E0, conj (Hpl E0) eq_refl)). by destruct v as [[]]. }
  apply runs_del_from_loop.
  - intros E0. destruct (Hsc ltac:(by destruct v)) as (E1 & _ & E2). destruct v; cbn in *. auto.
  - destruct v; cbn in *. auto.
  - by destruct v.
  - change (-1 =? -1) with true. cbv iota.
    replace (v_set_registered false v) with (v_set_polled (v_polled v) (v_set_registered false v)) by by destruct v.
    apply Hend; [by right|done].
  - change (0 =? -1) with false. cbv iota. by apply Hend.
Qed.

(** The end of the function, after the vote was taken back. *)
Definition finish_post_poll (restart : bool) (ret : Z) : M device Z :=
  '(restart_loop, ret_val) ← remove_from_loop restart ret;
  i ← get_net;
  (if restart_loop && negb (bool_decide (state i = QDEVICE_NET_INSTANCE_STATE_WAITING_CONNECT))
   then delay_before_reconnect settings;; mret tt else mret tt);;
  modify_net qdevice_net_instance_clean;;
  mret (if (restart_loop : bool) then 1 else ret_val).

Lemma runs_finish_post_poll A (v : view) restart ret (Q : Z → view → Prop) :
  base None A v → sockets_part v → v_registered v = true → n_connect (v_net v) = None →
  (ffsplit → n_vote (v_net v) ≠ TLV_VOTE_ACK) → v_list_ring v = v_ring v → ended ret →
  (∀ r v', ended r → base None A v' → Q r v') → (∀ v', between settings A v' → Q 1 v') →
  runs (E:=E) v (finish_post_poll restart ret) Q.
Proof.
  intros Hb Hs Hr Hc Ha Hl Hret HN HQ. unfold finish_post_poll. runs_step.
  apply runs_remove_from_loop; [done..|]. intros restart' ret' o d pl b Hret' Hpl. cbn beta iota.
  pose proof (base_closed None A o d pl b v Hb) as Hb1.
  runs_step. runs_step. runs_step.
  apply runs_hidden; [destruct (_ && _); [apply hidden_bind; [apply hidden_delay|]|]; auto with hidden|].
  intros _. runs_step. apply runs_modify_net. intros j Hj. rewrite nview_clean, Hj. apply runs_ret.
  assert (Hb2 : base None A (v_set_net (n_set_state QDEVICE_NET_INSTANCE_STATE_WAITING_CONNECT
    (v_net (v_closed o d pl b v))) (v_closed o d pl b v))) by base_same_tac Hb1 v.
  destruct restart'; [|by apply HN]. destruct (Hpl eq_refl) as [-> ->].
  apply HQ. split; [done|by destruct v as [[]]..].
Qed.

(** After the loop: the result 1 asks for another connection. *)
Lemma runs_post_poll A (v : view) reason (Q : Z → view → Prop) :
  ok A v → v_registered v = true →
  (∀ r v', ended r → base None A v' → Q r v') → (∀ v', between settings A v' → Q 1 v') →
  runs (E:=E) v (qdevice_model_net_post_poll_loop settings reason) Q.
Proof.
  intros Hv Hr HN HQ. unfold qdevice_model_net_post_poll_loop.
  runs_step. apply (runs_delete_timer settings None A v CONNECT_TIMER); [apply Hv|]. intros t1 Hb1.
  assert (Hv1 : ok A (v_set_handle CONNECT_TIMER None t1 v)) by by apply ok_handle.
  runs_step. apply (runs_delete_timer settings None A _ ECHO_REQUEST_TIMER); [done|]. intros t2 Hb2.
  set (v2 := v_set_handle ECHO_REQUEST_TIMER None t2 _).
  assert (Hv2 : ok A v2) by by apply ok_handle.
  assert (Hc : n_connect (v_net v2) = None) by by destruct v as [[]].
  assert (Hr2 : v_registered v2 = true) by by destruct v.
  clearbody v2. clear v Hv Hr t1 Hb1 Hv1 Hb2. rename v2 into v.
  runs_step. apply runs_hidden; [apply hidden_map_exit_reason|]. intros _. runs_step. runs_step. cbv zeta.
  runs_step. apply runs_set_paused. set (v3 := v_pause false v).
  assert (Hb3 : base None A v3) by base_same_tac (ok_base _ _ _ Hv2) v.
  runs_step. apply runs_disconnected; [apply Hb3|]. intros b vote Hvote.
  change (negb (0 =? 0)) with false. cbv iota. runs_step.
  apply (runs_update settings None A); [done|..].
  { intros -> Hf. by destruct Hvote as [|[? _]]. }
  intros _ v4 Hb4 Hu. runs_step. runs_step. destruct (ok_sockets _ _ _ Hv2) as [Hsc Hss Hsp Hsi Hst].
  assert (E3 : n_connect (v_net v3) = None ∧ v_registered v3 = true ∧ v_list_ring v3 = v_ring v3 ∧ sockets_part v3).
  { pose proof (ok_rings _ _ _ Hv2). destruct v as [[]]. cbn in *. by split_and!; [..|split]. }
  destruct E3 as (Hc3 & Hr3 & Hl3 & [Hsc3 Hss3 Hsp3 Hsi3 Hst3]). destruct Hu.
  apply runs_finish_post_poll with A; [done|..|done|done].
  - split; rewrite ?vu_destroyed, ?vu_socket, ?vu_state, ?vu_client, ?vu_polled, ?vu_registered,
      ?vu_connect; done.
  - by rewrite vu_registered.
  - by rewrite vu_connect.
  - intros Hf. destruct Hvote as [->|[_ ?]]; [|done]. by rewrite vu_vote.
  - by rewrite vu_list_ring, vu_ring.
  - case_bool_decide; [by left|by right].
Qed.

(** One round of the main loop: the next connection is being made, or the program ends. *)
Lemma runs_restart A (v : view) ipc_is_closed (Q : Z → view → Prop) :
  ok A v → v_registered v = true →
  (∀ r v', ended r → base None A v' → Q r v') → (∀ v', ok A v' → Q 1 v') →
  runs (E:=E) v (main_loop_restart settings ipc_is_closed) Q.
Proof.
  intros Hv Hr HN HQ. unfold main_loop_restart. runs_step. apply runs_get. intros q Hq. runs_step.
  apply runs_post_poll with A; [done..| |].
  - intros r v' Hr' Hb. replace ((r =? 0) || (r =? -1)) with true by by destruct Hr' as [-> | ->].
    by apply runs_ret, HN.
  - intros v' Hv'. change ((1 =? 0) || (1 =? -1)) with false. cbv iota. runs_step.
    apply runs_pre_poll with A; [done|..].
    + intros v'' Hv''. by apply runs_ret, HQ.
    + intros v'' Hb. apply runs_ret, HN; [by right|done].
Qed.
End disconnect.
