(* ===== verification/QdeviceNotifyFacts.v ===== *)
(** The changes of the cluster keep the invariant of the device: what votequorum and cmap tell,
    and the results of the heuristics. *)
From stdpp Require Import strings.
From S2P Require Import Prelude Dynar Tlv NodeList Msg SendBuffer DynarStr Heuristics Utils.
From stdpp Require Import list gmap.
From S2P Require Import TimerList TimerInterface QdeviceInstance QdeviceSend QdeviceAlgorithm.
From S2P Require Import QdeviceHeuristics QdeviceMsgReceived QdeviceSocket QdeviceModelNet.
From S2P Require Import QdeviceVotequorum QdeviceCmap.
From S2P Require Import QdeviceLogic QdeviceFacts QdeviceInvariant.
From S2P Require Import QdeviceAlgorithmFacts QdeviceHeuristicsFacts QdeviceReceivedFacts.
From S2P Require Import QdeviceConnectionFacts.
Local Open Scope Z_scope.

Section notify.
Context {T E : Type} `{TimerLaws qdevice_timer T} `{Environment E}.
Abbreviation device := (qdevice_instance T E).
Abbreviation view := (view T).
Context (settings : qdevice_settings).

Abbreviation base := (base settings).
Abbreviation ok := (ok settings).
Abbreviation ffsplit := (ffsplit settings).
Abbreviation keeps := (keeps (T:=T) (E:=E) settings).

(** ** Votequorum, without a change of the ring *)

Lemma keeps_update_vote A vote next :
  vote ≠ TLV_VOTE_ACK → keeps A next → keeps A (update_vote settings vote next).
Proof. intros Hv Hn. apply keeps_unless; [by apply keeps_update|done]. Qed.

Lemma keeps_send_list A b send next :
  keeps A send → keeps A next → keeps A (send_list_if b send next).
Proof. intros Hs Hn. destruct b; [by apply keeps_unless|done]. Qed.

Lemma vote_without_connection_cases i :
  vote_without_connection i = TLV_VOTE_NACK ∨ vote_without_connection i = TLV_VOTE_NO_CHANGE.
Proof. unfold vote_without_connection. case_bool_decide; auto. Qed.

(** The decision before an algorithm changes it never begins with a positive vote. *)
Lemma initial_decision_vote i vote b vote' :
  vote ≠ TLV_VOTE_ACK → initial_decision i vote = (b, vote') → vote' ≠ TLV_VOTE_ACK.
Proof.
  intros Hv. unfold initial_decision. destruct (connected i); intros [= _ <-]; [done|].
  by destruct (vote_without_connection_cases i) as [-> | ->].
Qed.

Lemma ok_data A (v : view) d :
  ok A v → ok A (with_data (Some d) v).
Proof.
  intros Hv. assert (Hb : base None A (with_data (Some d) v)).
  { destruct (ok_base _ _ _ Hv). eapply base_same; [done|..]; destruct v as [[]]; try done; by intros []. }
  destruct Hv as [_ [Hsc Hss Hsp Hsi Hst] Hy Ha Hl]. destruct v as [[]].
  split; [done|by split|done..].
Qed.

Lemma keeps_quorum_notify A quorate l :
  keeps A (qdevice_model_net_votequorum_quorum_notify settings quorate l).
Proof.
  apply keeps_get_net. intros i v Hv Hi. destruct (initial_decision _ _) as [b vote] eqn:Ed.
  apply initial_decision_vote in Ed; [|done]. runs_step.
  assert (Hk : keeps A (unless_disconnecting (mret 0)
     QDEVICE_NET_DISCONNECT_REASON_ALGO_VOTEQUORUM_QUORUM_NOTIFY_ERR (
     update_vote settings vote (
     send_list_if b (qdevice_net_send_quorum_node_list (quorate_to_tlv quorate) l) (mret 0))))).
  { apply keeps_unless; [apply device_keeps_ret|]. apply keeps_update_vote; [done|].
    apply keeps_send_list; [apply keeps_hidden, hidden_send_quorum_node_list|apply device_keeps_ret]. }
  apply runs_quorum_notify; [apply (ok_base _ _ _ Hv)|by apply Hk|].
  intros d. apply Hk. by apply ok_data.
Qed.

Lemma keeps_expected_votes A n :
  keeps A (qdevice_model_net_votequorum_expected_votes_notify settings n).
Proof.
  intros v Hv. unfold qdevice_model_net_votequorum_expected_votes_notify. runs_step.
  apply runs_expected_votes. intros r. revert v Hv.
  match goal with |- ∀ v, _ → runs v ?m _ => change (keeps A m) end.
  apply keeps_unless; [apply device_keeps_ret|]. apply keeps_update_vote; [done|apply device_keeps_ret].
Qed.

Lemma keeps_config_changed A l version :
  keeps A (qdevice_model_net_config_node_list_changed settings l version).
Proof.
  apply keeps_get_net. intros i v Hv Hi. destruct (initial_decision _ _) as [b vote] eqn:Ed.
  apply initial_decision_vote in Ed; [|done]. runs_step.
  apply runs_config_changed. intros r. revert v Hv Hi.
  assert (Hk : keeps A (unless_disconnecting (mret r)
     QDEVICE_NET_DISCONNECT_REASON_ALGO_CONFIG_NODE_LIST_CHANGED_ERR (
     update_vote settings vote (
     send_list_if b (qdevice_net_send_config_node_list l version false) (mret 0))))).
  { apply keeps_unless; [apply device_keeps_ret|]. apply keeps_update_vote; [done|].
    apply keeps_send_list; [apply keeps_hidden; auto with hidden|apply device_keeps_ret]. }
  intros v Hv _. by apply Hk.
Qed.

Lemma keeps_or_exit A m : keeps A m → keeps A (or_exit m).
Proof.
  intros Hm. apply device_keeps_bind; [done|]. intros r. destruct (negb _); [|apply device_keeps_ret].
  apply keeps_hidden, hidden_exit.
Qed.
Lemma hidden_malloc_or_exit : hidden (T:=T) (E:=E) malloc_or_exit.
Proof. apply hidden_bind; [apply hidden_malloc|]. intros [a|]; [apply hidden_ret|apply hidden_exit]. Qed.

(** Fields of the device that the view does not hold. *)
Lemma keeps_modify A f : (∀ q : device, view_of (f q) = view_of q) → keeps A (modify f).
Proof. intros Hf. by apply keeps_hidden, hidden_modify. Qed.
Ltac keeps_field := apply keeps_modify; by intros [].

Lemma keeps_quorum_callback A quorate l :
  keeps A (qdevice_votequorum_quorum_notify_callback settings quorate l).
Proof.
  apply device_keeps_bind; [keeps_field|]. intros _.
  apply device_keeps_bind; [apply keeps_or_exit, keeps_quorum_notify|]. intros _.
  apply device_keeps_bind; [keeps_field|]. intros _.
  apply device_keeps_bind; [apply keeps_hidden, hidden_malloc_or_exit|]. intros _. keeps_field.
Qed.

Lemma keeps_expected_votes_callback A n :
  keeps A (qdevice_votequorum_expected_votes_notify_callback settings n).
Proof.
  apply device_keeps_bind; [apply keeps_or_exit, keeps_expected_votes|]. intros _. keeps_field.
Qed.

(** ** A new ring *)

(** The ring has changed; the list of its nodes is not stored yet. *)
Record ring_changed (A : list tlv_ring_id) (ring : votequorum_ring_id_t) (v : view) : Prop := {
  rc_base : base None A v;
  rc_sockets : sockets_part v;
  rc_paused : is_connected (v_net v) → n_paused (v_net v) = true;
  rc_acked : acked settings A (v_net v);
  rc_ring : v_ring v = ring
}.

Lemma ok_ring_changed A ring (v : view) : ring_changed A ring v → ok A (v_set_list_ring ring v).
Proof.
  intros [Hb [Hsc Hss Hsp Hsi Hst] Hp Ha Hr].
  assert (Hb' : base None A (v_set_list_ring ring v)) by base_same_tac Hb v.
  destruct v as [[]]. cbn in *. split; [done|by split| |done|done]. intros Hc. left. by apply Hp.
Qed.

(** A vote, then the pause. *)
Lemma ring_changed_paused A ring (v v' : view) vote :
  ok A v → base None A v' → vote_update vote (v_set_ring ring v) v' →
  (vote = TLV_VOTE_ACK → vote = n_vote (v_net v)) → ring_changed A ring (v_pause true v').
Proof.
  intros Hv Hb Hu Ha. assert (Hb' : base None A (v_pause true v')) by base_same_tac Hb v'.
  destruct Hv as [_ [Hsc Hss Hsp Hsi Hst] _ Hak _]. destruct Hu, v as [[]], v' as [[]]. cbn in *. subst.
  split; [done|by split|done| |done]. intros Hf E0. cbn in *. by apply Hak; [|rewrite <-Ha].
Qed.

Lemma base_set_ring x A ring (v : view) : base x A v → base x A (v_set_ring ring v).
Proof. intros Hb. base_same_tac Hb v. Qed.
Lemma base_unset_ring x A ring (v : view) : base x A (v_set_ring ring v) → base x A v.
Proof.
  intros Hb. replace v with (v_set_ring (v_ring v) (v_set_ring ring v)) by by destruct v.
  by apply base_set_ring.
Qed.

Lemma runs_node_list_notify_model A ring l (v : view) :
  ok A v →
  runs (E:=E) (v_set_ring ring v) (qdevice_model_net_votequorum_node_list_notify settings ring l)
    (λ _ v', ring_changed A ring v').
Proof.
  intros Hv. unfold qdevice_model_net_votequorum_node_list_notify. runs_step.
  apply (runs_stop_timer settings None A); [apply base_set_ring, Hv|]. intros t Hb.
  change (negb (0 =? 0)) with false. cbv iota.
  set (w := v_set_handle HEURISTICS_TIMER None t v).
  assert (Ew : v_set_handle HEURISTICS_TIMER None t (v_set_ring ring v) = v_set_ring ring w)
    by by destruct v.
  rewrite Ew in *. apply base_unset_ring in Hb.
  assert (Hw : ok A w) by by apply ok_handle.
  clearbody w. clear Ew. runs_step. runs_step. cbv zeta.
  assert (Ec : connected i = bool_decide (is_connected (v_net w))).
  { assert (Es : state i = n_state (v_net w)) by (transitivity (n_state (nview i)); [done|rewrite Hi; by destruct w]).
    unfold connected, is_connected. by rewrite Es. }
  runs_step. apply runs_node_list_notify. cbn beta iota. unfold unless_disconnecting at 1.
  runs_step. apply runs_ret. change (negb (0 =? 0)) with false. cbv iota.
  unfold update_vote, unless_disconnecting. runs_step.
  destruct (negb (connected i) && bool_decide (cast_vote_timer_vote i = TLV_VOTE_ACK)) eqn:En.
  - apply andb_prop in En as [En _]. apply negb_true_iff in En. rewrite Ec in En.
    apply bool_decide_eq_false in En. apply (runs_update settings None A); [by apply base_set_ring|done|].
    intros r v' Hb' Hu. cbn [new_vote] in Hu. destruct (negb _).
    + runs_step. runs_step. apply runs_ret.
      pose proof (ring_changed_paused A ring w v' _ Hw Hb' Hu ltac:(done)) as [? [? ? ? ? ?] ? ? ?].
      destruct Hu. destruct w as [[]], v' as [[]]. cbn in *. subst. by split.
    + runs_step. apply runs_set_paused. apply runs_ret. by eapply ring_changed_paused.
  - apply runs_ret. change (negb (0 =? 0)) with false. cbv iota. runs_step.
    apply runs_set_paused. apply runs_ret. apply (ring_changed_paused A ring w _ (n_vote (v_net w))); [done|..].
    + by apply base_set_ring.
    + by destruct w as [[]]; split.
    + done.
Qed.

Lemma keeps_node_list_callback A ring l :
  keeps A (qdevice_votequorum_node_list_notify_callback settings ring l).
Proof.
  intros v Hv. unfold qdevice_votequorum_node_list_notify_callback.
  runs_step. apply runs_hidden; [by apply hidden_modify; intros []|]. intros _.
  runs_step. apply runs_modify. intros q Hq.
  replace (view_of _) with (v_set_ring ring v) by (rewrite <-Hq; by destruct q). clear q Hq.
  runs_step. unfold or_exit. runs_step.
  apply (runs_mono _ _ _ _ (runs_node_list_notify_model A ring l v Hv)). intros r v' Hc.
  destruct (negb _); [apply runs_exit|]. apply runs_ret.
  runs_step. runs_step. eapply runs_set_active; [apply Hc|].
  change (negb (0 =? 0)) with false. cbv iota. apply runs_ret.
  runs_step. runs_step. runs_step. destruct (negb _); [apply runs_exit|]. apply runs_ret.
  runs_step. apply runs_hidden; [by apply hidden_modify; intros []|]. intros _.
  runs_step. apply runs_modify. intros q Hq.
  replace (view_of _) with (v_set_list_ring ring v') by (rewrite <-Hq; by destruct q).
  runs_step. apply runs_hidden; [apply hidden_malloc_or_exit|]. intros _.
  apply runs_hidden; [by apply hidden_modify; intros []|]. intros _. by apply ok_ring_changed.
Qed.

(** ** The heuristics for a new ring *)

Lemma keeps_heuristics_finished A h :
  keeps A (modify_net (λ i, set_latest_heuristics_result h (set_latest_vq_heuristics_result h i));;
           qdevice_net_heuristics_schedule_timer;; mret 0).
Proof.
  apply device_keeps_bind; [apply keeps_hidden, hidden_modify_net; intros i; by autorewrite with nview|].
  intros _. apply device_keeps_bind; [apply keeps_schedule_timer|]. intros _. apply device_keeps_ret.
Qed.

(** The pause ends; the ring is known to the server, or there is no connection. *)
Lemma runs_unpause_update A (v : view) vote next :
  base None A v → sockets_part v → v_list_ring v = v_ring v →
  (is_connected (v_net v) → n_last_sent (v_net v) = tlv_of (v_ring v)) →
  vote ≠ TLV_VOTE_ACK →
  (ffsplit → vote = TLV_VOTE_NO_CHANGE → n_vote (v_net v) = TLV_VOTE_ACK →
     is_connected (v_net v) ∧ n_last_sent (v_net v) ∈ A) →
  keeps A next →
  runs (E:=E) v (qdevice_net_cast_vote_timer_set_paused false;; update_vote settings vote next)
    (λ _ v', ok A v').
Proof.
  intros Hb Hs Hl Hy Hv Ha Hn. runs_step. apply runs_set_paused. set (v1 := v_pause false v).
  assert (Hb1 : base None A v1) by base_same_tac Hb v.
  unfold update_vote, unless_disconnecting. runs_step. apply (runs_update settings None A); [done..|].
  intros r v' Hb' Hu. assert (Hv' : ok A v').
  { apply (ok_vote settings A v1 v' (new_vote vote v1)); try done.
    - destruct Hs, v as [[]]. by split.
    - intros Hc. right. destruct v as [[]]. by apply Hy.
    - by destruct v.
    - intros Hf E0. destruct v as [[]]. cbn in *. destruct vote; try done. by apply Ha. }
  destruct (negb _); [|by apply Hn]. apply runs_hidden; [hidden_tac|done].
Qed.

Lemma keeps_heuristics_notify A (v : view) ring l result :
  ok A v → ring = v_ring v →
  runs (E:=E) v (qdevice_model_net_votequorum_node_list_heuristics_notify settings ring l result)
    (λ _ v', ok A v').
Proof.
  intros Hv ->. unfold qdevice_model_net_votequorum_node_list_heuristics_notify. cbv zeta.
  runs_step. runs_step. runs_step. runs_step.
  assert (Ec : connected i = bool_decide (is_connected (v_net v))) by by rewrite <-Hi.
  unfold initial_decision. rewrite Ec. runs_step. apply runs_heuristics_notify.
  destruct (bool_decide_reflect (is_connected (v_net v))) as [Hc|Hc]; cbn beta iota.
  - unfold unless_disconnecting at 1. runs_step. apply runs_ret. change (negb (0 =? 0)) with false.
    cbv iota. unfold send_list_if, unless_disconnecting at 1. runs_step.
    apply runs_send_membership_node_list.
    { change (negb (-1 =? 0)) with true. cbv iota. runs_step. runs_step. by apply runs_ret. }
    change (negb (0 =? 0)) with false. cbv iota. set (v1 := v_set_net _ _).
    assert (Hb1 : base None A v1) by base_same_tac (ok_base _ _ _ Hv) v.
    apply runs_unpause_update; [done|..|done|done|apply keeps_heuristics_finished].
    + destruct (ok_sockets _ _ _ Hv), v as [[]]. by split.
    + destruct v. apply (ok_rings _ _ _ Hv).
    + intros _. by destruct v as [[]].
  - pose proof (not_connected_vote _ _ _ Hv Hc) as Hna.
    unfold unless_disconnecting at 1. runs_step. apply runs_ret. change (negb (0 =? 0)) with false.
    cbv iota. unfold send_list_if.
    apply runs_unpause_update; [apply Hv..|done| | |apply keeps_heuristics_finished].
    + by destruct (vote_without_connection_cases i) as [-> | ->].
    + intros Hf _ E0. by destruct (Hna Hf).
Qed.

Lemma keeps_votequorum_result A result :
  keeps A (qdevice_votequorum_heuristics_exec_result_callback settings result).
Proof.
  apply device_keeps_bind; [apply keeps_or_exit, keeps_set_active|]. intros _. apply device_keeps_get.
  intros q v Hv Hq. runs_step. unfold or_exit. runs_step. eapply runs_mono.
  { apply keeps_heuristics_notify; [done|]. rewrite <-(ok_rings _ _ _ Hv). by rewrite <-Hq. }
  intros r v' Hv'. destruct (negb _); [apply runs_exit|]. apply runs_ret.
  runs_step. apply runs_hidden; [by apply hidden_modify; intros []|]. intros _.
  runs_step. apply runs_hidden; [by apply hidden_modify; intros []|]. intros _. by apply runs_ret.
Qed.
End notify.
