(* ===== verification/QdeviceCmdFacts.v ===== *)
(** The lines of the heuristics worker: what a line leads to does not touch the buffer the
    lines are in, so that the loop over them ends, and each line keeps the invariant of the
    device. *)
From stdpp Require Import strings.
From S2P Require Import Prelude Dynar Tlv NodeList Msg SendBuffer DynarStr Heuristics.
From stdpp Require Import list gmap.
From S2P Require Import TimerList TimerInterface QdeviceInstance QdeviceSend QdeviceAlgorithm.
From S2P Require Import QdeviceHeuristics QdeviceMsgReceived QdeviceSocket QdeviceModelNet.
From S2P Require Import QdeviceVotequorum.
From S2P Require Import QdeviceLogic QdeviceFacts QdeviceInvariant.
From S2P Require Import QdeviceAlgorithmFacts QdeviceHeuristicsFacts QdeviceReceivedFacts.
From S2P Require Import QdeviceConnectionFacts QdeviceNotifyFacts.
Local Open Scope Z_scope.

Section frames.
Context {T E : Type} `{TimerOps qdevice_timer T} `{Environment E}.
Abbreviation device := (qdevice_instance T E).
Context (settings : qdevice_settings).

(** The functions that leave the buffer of the worker's lines alone. *)
Definition buffer_of (q : device) : dynar := cmd_in_buffer (heuristics_instance q).
Definition frames {A} (m : M device A) : Prop := ∀ q a q', m q = (Ok a, q') → buffer_of q' = buffer_of q.

Lemma frames_ret {A} (a : A) : frames (mret a). Proof. by intros q b q' [= _ <-]. Qed.
Lemma frames_fail {A} c : frames (fail (A:=A) c). Proof. done. Qed.
Lemma frames_get : frames get. Proof. by intros q b q' [= _ <-]. Qed.
Lemma frames_get_net : frames get_net. Proof. by intros q b q' [= _ <-]. Qed.
Lemma frames_bind {A B} (m : M device A) (f : A → M device B) :
  frames m → (∀ a, frames (f a)) → frames (m ≫= f).
Proof.
  intros Hm Hf q b q' E1. destruct (m q) as [[a|c] q1] eqn:Em.
  - rewrite (bind_ok _ _ _ _ _ Em) in E1. rewrite (Hf _ _ _ _ E1). by eapply Hm.
  - by rewrite (bind_err _ _ _ _ _ Em) in E1.
Qed.
Lemma frames_modify_net f : frames (modify_net f).
Proof. intros q a q' [= _ <-]. by destruct q. Qed.
Lemma frames_modify f : (∀ q : device, buffer_of (f q) = buffer_of q) → frames (modify f).
Proof. intros Hf q a q' [= _ <-]. apply Hf. Qed.
Lemma frames_timers {A} (m : M (T * heap) A) : frames (on_timers m).
Proof. intros q a q'. unfold on_timers. destruct (m _) as [r [t h]]. intros [= _ <-]. by destruct q. Qed.
Lemma frames_environment {A} (op : E → A * E) : frames (on_environment op).
Proof. intros q a q'. unfold on_environment. destruct (op _). intros [= _ <-]. by destruct q. Qed.
Lemma frames_malloc : frames malloc_device.
Proof. intros q a q'. unfold malloc_device. destruct (malloc _). intros [= _ <-]. by destruct q. Qed.
Lemma frames_build m : frames (build_node_list m).
Proof.
  intros q a q'. unfold build_node_list. destruct (m _) as [[|c] [nl h]]; [intros [= _ <-]; by destruct q|].
  destruct (c =? EXIT); [done|]. intros [= _ <-]. by destruct q.
Qed.
Lemma buffer_of_heuristics x (q : device) : buffer_of (set_heuristics_instance x q) = cmd_in_buffer x.
Proof. by destruct q. Qed.
Lemma frames_set_active callback active : frames (notifier_set_active callback active).
Proof.
  intros q a q'. unfold notifier_set_active. destruct (qdevice_heuristics_result_notifier_list_set_active _ _ _).
  intros [= _ <-]. rewrite buffer_of_heuristics. unfold buffer_of. by destruct (heuristics_instance q).
Qed.
Lemma frames_queue (i : qdevice_heuristics_instance qdevice_heuristics_callback) h w :
  cmd_in_buffer (fst (snd (queue_cmd w (i, h)))) = cmd_in_buffer i.
Proof.
  unfold queue_cmd. destruct (send_buffer_list_get_new _ _) as [[e|] [l h']]; [|by destruct i].
  destruct (w _) as [[] []]; by destruct i.
Qed.
Lemma frames_heuristics_exec : frames heuristics_exec.
Proof.
  apply frames_bind; [apply frames_get|]. intros q q1 a q'. unfold on_heuristics, qdevice_heuristics_exec.
  rewrite (bind_ok (modify _) _ _ tt _ eq_refl). cbn beta iota.
  match goal with |- context [(get ≫= _) ?s] => rewrite (bind_ok get _ s s s eq_refl) end.
  cbn beta iota. unfold qdevice_heuristics_cmd_write_exec.
  match goal with |- context [queue_cmd ?w (?i, ?h)] =>
    pose proof (frames_queue i h w) as Hq; destruct (queue_cmd w (i, h)) as [r [i' h']] end.
  intros [= _ <-]. cbn in Hq. unfold buffer_of. transitivity (cmd_in_buffer i'); [by destruct q1|].
  rewrite Hq. by destruct (heuristics_instance q1).
Qed.
End frames.

Create HintDb frames discriminated.
#[export] Hint Constants Opaque : frames.
#[export] Hint Resolve frames_ret frames_fail frames_get frames_get_net frames_modify_net
  frames_timers frames_environment frames_malloc frames_build frames_set_active
  frames_heuristics_exec : frames.

Ltac frames_step :=
  match goal with
  | |- frames (_ ≫= _) => apply frames_bind; [|intros ?]
  | |- frames (modify _) => apply frames_modify; by intros []
  | |- frames (if ?b then _ else _) => destruct b
  | |- frames (match ?x with _ => _ end) => destruct x
  | |- frames (let '(_, _) := ?x in _) => destruct x
  | |- frames _ => solve [eauto with frames]
  end.
Ltac frames_tac := repeat first [frames_step | progress (cbv beta iota zeta)].

Section lines.
Context {T E : Type} `{TimerOps qdevice_timer T} `{Environment E}.
Abbreviation device := (qdevice_instance T E).
Context (settings : qdevice_settings).
Abbreviation frames := (frames (T:=T) (E:=E)).

(** ** The functions a result leads to *)

Lemma frames_disconnect_because r : frames (disconnect_because r).
Proof. apply frames_modify_net. Qed.
Lemma frames_schedule_disconnect r : frames (schedule_disconnect_because r).
Proof. apply frames_modify_net. Qed.
Hint Resolve frames_disconnect_because frames_schedule_disconnect : frames.

Lemma frames_unless r reason next : frames r → frames next → frames (unless_disconnecting r reason next).
Proof. intros Hr Hn. unfold unless_disconnecting. frames_tac; done. Qed.
Lemma frames_delete_timer handle set : frames (delete_timer handle set).
Proof. unfold delete_timer. frames_tac. Qed.
Hint Resolve frames_delete_timer : frames.

Lemma frames_send_message before create : frames (send_message before create).
Proof. unfold send_message. frames_tac. Qed.
Hint Resolve frames_send_message : frames.
Lemma frames_send_config l version initial : frames (qdevice_net_send_config_node_list l version initial).
Proof. apply frames_send_message. Qed.
Lemma frames_send_change h : frames (qdevice_net_send_heuristics_change h).
Proof. apply frames_send_message. Qed.
Lemma frames_send_option a b c d : frames (qdevice_net_send_set_option a b c d).
Proof. apply frames_send_message. Qed.
Lemma frames_send_membership R l h : frames (qdevice_net_send_membership_node_list R l h).
Proof. unfold qdevice_net_send_membership_node_list. frames_tac. Qed.
Lemma frames_send_quorum quorate l : frames (qdevice_net_send_quorum_node_list quorate l).
Proof. unfold qdevice_net_send_quorum_node_list. frames_tac. Qed.
Hint Resolve frames_send_config frames_send_change frames_send_option frames_send_membership
  frames_send_quorum : frames.

Lemma frames_poll b : frames (qdevice_votequorum_poll b).
Proof. unfold qdevice_votequorum_poll. frames_tac. Qed.
Hint Resolve frames_poll : frames.
Lemma frames_cast_callback : frames qdevice_net_cast_vote_timer_callback.
Proof. unfold qdevice_net_cast_vote_timer_callback. frames_tac. Qed.
Hint Resolve frames_cast_callback : frames.
Lemma frames_update vote : frames (qdevice_net_cast_vote_timer_update settings vote).
Proof. unfold qdevice_net_cast_vote_timer_update. frames_tac. Qed.
Lemma frames_set_paused b : frames (qdevice_net_cast_vote_timer_set_paused b).
Proof. unfold qdevice_net_cast_vote_timer_set_paused. frames_tac. Qed.
Hint Resolve frames_update frames_set_paused : frames.

Lemma frames_stop_timer : frames qdevice_net_heuristics_stop_timer.
Proof. unfold qdevice_net_heuristics_stop_timer. frames_tac. Qed.
Hint Resolve frames_stop_timer : frames.
Lemma frames_schedule_timer : frames qdevice_net_heuristics_schedule_timer.
Proof. unfold qdevice_net_heuristics_schedule_timer. frames_tac. Qed.
Hint Resolve frames_schedule_timer : frames.
Lemma frames_to_tlv r : frames (qdevice_net_heuristics_exec_result_to_tlv r).
Proof. unfold qdevice_net_heuristics_exec_result_to_tlv. frames_tac. Qed.
Hint Resolve frames_to_tlv : frames.
Lemma frames_regular_result h : frames (regular_result h).
Proof. unfold regular_result. frames_tac. Qed.
Hint Resolve frames_regular_result : frames.

(** The algorithms give back what they get. *)
Lemma frames_with_algorithm {A} (call : qdevice_net_algorithm T E → M device A) :
  frames (call qdevice_net_algo_test) → frames (call qdevice_net_algo_ffsplit) →
  frames (call qdevice_net_algo_2nodelms) → frames (call qdevice_net_algo_lms) →
  frames (with_algorithm settings call).
Proof.
  intros Ht Hf H2 Hl. unfold with_algorithm, qdevice_net_algorithm_array.
  destruct (_ <=? _); [apply frames_fail|].
  change (default [] qdevice_net_algorithm_register_all) with
    [Some (qdevice_net_algo_test (T:=T) (E:=E)); Some qdevice_net_algo_ffsplit;
     Some qdevice_net_algo_2nodelms; Some qdevice_net_algo_lms].
  destruct (Z.to_nat _) as [|[|[|[|]]]]; cbn; [done..|]. apply frames_fail.
Qed.

Lemma frames_algorithm_change io : frames (qdevice_net_algorithm_heuristics_change settings io).
Proof. apply frames_with_algorithm; apply frames_ret. Qed.
Lemma frames_algorithm_connected io : frames (qdevice_net_algorithm_connected settings io).
Proof. apply frames_with_algorithm; apply frames_ret. Qed.
Lemma frames_algorithm_notify R l io :
  frames (qdevice_net_algorithm_votequorum_node_list_heuristics_notify settings R l io).
Proof. apply frames_with_algorithm; apply frames_ret. Qed.
Hint Resolve frames_algorithm_change frames_algorithm_connected frames_algorithm_notify : frames.

Lemma frames_regular_callback r :
  frames (qdevice_net_regular_heuristics_exec_result_callback settings r).
Proof.
  unfold qdevice_net_regular_heuristics_exec_result_callback, send_heuristics_result.
  repeat first [apply frames_unless | frames_step | progress (cbv beta iota zeta)].
Qed.

Lemma frames_send_if c send next : frames send → frames next → frames (send_if c send next).
Proof. intros Hs Hn. unfold send_if, unless_reason. frames_tac; done. Qed.
Lemma frames_connect_callback r :
  frames (qdevice_net_connect_heuristics_exec_result_callback settings r).
Proof.
  unfold qdevice_net_connect_heuristics_exec_result_callback, connect_finished.
  repeat first [apply frames_unless | apply frames_send_if | apply frames_algorithm_connected | frames_step | progress (cbv beta iota zeta)].
Qed.

Lemma frames_votequorum_callback r :
  frames (qdevice_votequorum_heuristics_exec_result_callback settings r).
Proof.
  unfold qdevice_votequorum_heuristics_exec_result_callback, or_exit,
    qdevice_model_net_votequorum_node_list_heuristics_notify, send_list_if, update_vote.
  repeat first [apply frames_unless | frames_step | progress (cbv beta iota zeta)].
Qed.

Lemma frames_notify_loop items r : frames (notify_loop settings items r).
Proof.
  induction items as [|item items IH]; cbn [notify_loop]; [apply frames_ret|].
  apply frames_bind; [apply frames_get|]. intros q.
  destruct (qdevice_heuristics_result_notifier_list_get _ _) as [[k [callback []]]|]; [|done..].
  apply frames_bind; [|intros z; destruct (negb _); [apply frames_ret|done]].
  destruct callback; [apply frames_regular_callback|apply frames_connect_callback|apply frames_votequorum_callback].
Qed.

Lemma frames_process_exec_result line : frames (qdevice_heuristics_cmd_process_exec_result settings line).
Proof.
  unfold qdevice_heuristics_cmd_process_exec_result, qdevice_heuristics_result_notifier_notify.
  destruct (parse_exec_result line) as [[seq r]|]; [|apply frames_ret].
  apply frames_bind; [apply frames_get|]. intros q.
  destruct (negb _); [apply frames_ret|]. destruct (negb _); [apply frames_ret|].
  apply frames_bind.
  { apply frames_modify. intros q'. rewrite buffer_of_heuristics. unfold buffer_of.
    by destruct (heuristics_instance q'). }
  intros _. apply frames_bind; [|intros; apply frames_ret].
  apply frames_bind; [apply frames_get|]. intros q'. apply frames_notify_loop.
Qed.
End lines.

Section command.
Context {T E : Type} `{TimerLaws qdevice_timer T} `{Environment E}.
Abbreviation device := (qdevice_instance T E).
Context (settings : qdevice_settings).
Abbreviation ok := (ok settings).
Abbreviation keeps := (keeps (T:=T) (E:=E) settings).

Lemma keeps_call_notifier A callback r : keeps A (call_notifier settings callback r).
Proof.
  destruct callback;
    [apply keeps_regular_callback|apply keeps_connect_callback|apply keeps_votequorum_result].
Qed.

Lemma keeps_notify_loop A items r : keeps A (notify_loop settings items r).
Proof.
  induction items as [|item items IH]; cbn [notify_loop]; [apply device_keeps_ret|].
  apply device_keeps_bind; [apply keeps_hidden; auto with hidden|]. intros q.
  destruct (qdevice_heuristics_result_notifier_list_get _ _) as [[k [callback []]]|]; [|done..].
  apply device_keeps_bind; [apply keeps_call_notifier|]. intros z. destruct (negb _); [apply device_keeps_ret|done].
Qed.

Lemma hidden_modify_heuristics f :
  (∀ i, exec_result_notifier_list (f i) = exec_result_notifier_list i) →
  hidden (T:=T) (E:=E) (modify_heuristics f).
Proof.
  intros Hf. apply hidden_modify. intros q. rewrite view_of_heuristics, Hf. by destruct q.
Qed.

Lemma keeps_process_exec_result A line :
  keeps A (qdevice_heuristics_cmd_process_exec_result settings line).
Proof.
  unfold qdevice_heuristics_cmd_process_exec_result.
  destruct (parse_exec_result line) as [[seq r]|]; [|apply device_keeps_ret].
  apply device_keeps_bind; [apply keeps_hidden; auto with hidden|]. intros q. cbv zeta.
  destruct (negb _); [apply device_keeps_ret|]. destruct (negb _); [apply device_keeps_ret|].
  apply device_keeps_bind; [apply keeps_hidden, hidden_modify_heuristics; by intros []|]. intros _.
  apply device_keeps_bind; [|intros z; apply device_keeps_ret].
  apply device_keeps_bind; [apply keeps_hidden; auto with hidden|]. intros q'. apply keeps_notify_loop.
Qed.

Lemma view_of_buffer d h (q : device) :
  view_of (set_main_heap h (set_heuristics_instance (set_cmd_in_buffer d (heuristics_instance q)) q)) = view_of q.
Proof.
  transitivity (view_of (set_heuristics_instance (set_cmd_in_buffer d (heuristics_instance q)) q)).
  { by destruct q. }
  rewrite view_of_heuristics. destruct q as []; cbn. by destruct heuristics_instance.
Qed.

Lemma drop_line_hidden nl zi : hidden (T:=T) (E:=E) (or_minus_1 (on_cmd_in_buffer (drop_line nl zi))).
Proof.
  intros q. unfold or_minus_1, on_cmd_in_buffer. destruct (drop_line _ _ _) as [[] [d h]]; apply view_of_buffer.
Qed.


(** A line is taken from the buffer. *)
Lemma drop_line_shrinks nl zi (q q' : device) :
  or_minus_1 (on_cmd_in_buffer (drop_line nl zi)) q = (Ok 1, q') →
  Dynar.size (buffer_of q') = Dynar.size (buffer_of q) - Z.of_nat zi.
Proof.
  unfold or_minus_1, on_cmd_in_buffer, drop_line.
  change (cmd_in_buffer (heuristics_instance q)) with (buffer_of q). cbv zeta.
  destruct (dynar_set_size _ _) as [[u|c] [d h]] eqn:Es; [|done]. apply set_size_size in Es.
  intros [= <-]. rewrite <-Es. unfold buffer_of.
  replace (heuristics_instance (set_main_heap _ _)) with (set_cmd_in_buffer d (heuristics_instance q))
    by by destruct q.
  by destruct (heuristics_instance q).
Qed.

(** One line: the invariant is kept, and the buffer gets shorter when there was a line. *)
Lemma one_line_ok A (q : device) :
  ok A (view_of q) →
  match qdevice_heuristics_cmd_process_one_line settings q with
  | (Ok r, q') =>
      ok A (view_of q') ∧ (r = 1 → 0 ≤ Dynar.size (buffer_of q') < Dynar.size (buffer_of q))
  | (Err c, _) => c = EXIT
  end.
Proof.
  intros Hq. unfold qdevice_heuristics_cmd_process_one_line.
  rewrite (bind_ok get _ q q q eq_refl). change (cmd_in_buffer (heuristics_instance q)) with (buffer_of q).
  set (n := Z.to_nat (Dynar.size (buffer_of q))). set (str := take n (data (buffer_of q))). cbv zeta.
  set (nl := line_length str). destruct (length str <=? nl)%nat eqn:El; [done|].
  apply Nat.leb_gt in El. destruct (bool_decide _); [|done].
  set (line := until_nul _). set (zi := S (nl + gap_length (drop (S nl) str))).
  assert (Hzi : Z.of_nat zi ≤ Dynar.size (buffer_of q)).
  { pose proof (gap_length_le (drop (S nl) str)) as Hg. rewrite length_drop in Hg.
    assert (length str ≤ n)%nat by (unfold str; rewrite length_take; lia). lia. }
  pose proof (ends_keeps settings A _ q (keeps_process_exec_result A line) Hq) as Hk. unfold ends in Hk.
  destruct (qdevice_heuristics_cmd_process_exec_result settings line q) as [[r|c] q1] eqn:Ep.
  - rewrite (bind_ok _ _ _ _ _ Ep). destruct (negb (r =? 0)); [done|].
    pose proof (frames_process_exec_result settings line q r q1 Ep) as Hb.
    pose proof (drop_line_hidden nl zi q1) as Hh.
    destruct (or_minus_1 _ q1) as [[r'|c] q2] eqn:Ed; [|done]. rewrite Hh. split; [done|].
    intros ->. apply drop_line_shrinks in Ed. rewrite Ed, Hb. lia.
  - by rewrite (bind_err _ _ _ _ _ Ep).
Qed.

(** The loop over the lines ends: its fuel is enough. *)
Lemma process_loop_ok A n (q : device) :
  ok A (view_of q) → (Z.to_nat (Dynar.size (buffer_of q)) < n)%nat →
  ends settings A (cmd_process_loop settings n) q.
Proof.
  revert q. induction n as [|n IH]; intros q Hq Hn; [lia|]. unfold ends. cbn [cmd_process_loop].
  pose proof (one_line_ok A q Hq) as Hl.
  destruct (qdevice_heuristics_cmd_process_one_line settings q) as [[r|c] q1] eqn:E1.
  - rewrite (bind_ok _ _ _ _ _ E1). destruct Hl as [Hq1 Hs]. destruct (Z.eqb_spec r 1) as [->|]; [|done].
    apply IH; [done|]. specialize (Hs eq_refl). lia.
  - by rewrite (bind_err _ _ _ _ _ E1).
Qed.

Lemma keeps_cmd_process A : keeps A (qdevice_heuristics_cmd_process settings).
Proof.
  intros v Hv q <-. unfold qdevice_heuristics_cmd_process. rewrite (bind_ok get _ q q q eq_refl).
  apply (process_loop_ok A); [done|]. unfold buffer_of. lia.
Qed.

Lemma hidden_cmd_io_read : hidden (T:=T) (E:=E) cmd_io_read.
Proof.
  intros q. unfold cmd_io_read, qdevice_heuristics_io_read.
  destruct (pipe_read _ _) as [[n buf] e]. destruct (0 <? n); [destruct (dynar_cat _ _) as [[] [d h]]|].
  all: match goal with |- view_of (set_environment _ ?q') = _ => transitivity (view_of q') end;
    [by destruct q|apply view_of_buffer].
Qed.

Lemma keeps_cmd_read A : keeps A (qdevice_heuristics_cmd_read_from_pipe settings).
Proof.
  apply device_keeps_bind; [apply keeps_hidden, hidden_cmd_io_read|]. intros r.
  destruct (_ || _); [apply device_keeps_ret|]. destruct (_ =? _); [apply keeps_cmd_process|apply device_keeps_ret].
Qed.

Lemma hidden_cmd_write : hidden (T:=T) (E:=E) qdevice_heuristics_cmd_write.
Proof.
  intros q. unfold qdevice_heuristics_cmd_write.
  destruct (send_buffer_list_get_active _) as [sb|]; [|done].
  destruct (qdevice_heuristics_io_write _ _ _ _ _) as [r [e already]]. cbv zeta.
  match goal with |- view_of (set_environment e (set_heuristics_instance ?i q)) = _ =>
    transitivity (view_of (set_heuristics_instance i q)) end; [by destruct q|].
  rewrite view_of_heuristics. destruct q as []; cbn. by destruct heuristics_instance.
Qed.

Lemma keeps_or_closed A m : keeps A m → keeps A (or_heuristics_closed m).
Proof.
  intros Hm. apply device_keeps_bind; [done|]. intros r. destruct (_ =? _); [|apply device_keeps_ret].
  apply device_keeps_bind; [apply keeps_modify; by intros []|]. intros _. apply device_keeps_ret.
Qed.
End command.
