(* ===== verification/QdeviceCmapFacts.v ===== *)
(** Reading the configuration keeps the invariant of the device. *)
From stdpp Require Import strings.
From S2P Require Import Prelude Dynar Tlv NodeList Msg SendBuffer DynarStr Heuristics Utils.
From stdpp Require Import list gmap.
From S2P Require Import TimerList TimerInterface QdeviceInstance QdeviceSend QdeviceAlgorithm.
From S2P Require Import QdeviceHeuristics QdeviceMsgReceived QdeviceSocket QdeviceModelNet.
From S2P Require Import QdeviceVotequorum QdeviceCmap.
From S2P Require Import QdeviceLogic QdeviceFacts QdeviceInvariant.
From S2P Require Import QdeviceAlgorithmFacts QdeviceHeuristicsFacts QdeviceReceivedFacts.
From S2P Require Import QdeviceConnectionFacts QdeviceNotifyFacts QdeviceCmdFacts.
Local Open Scope Z_scope.

Section cmap.
Context {T E : Type} `{TimerLaws qdevice_timer T} `{Environment E}.
Abbreviation device := (qdevice_instance T E).
Context (settings : qdevice_settings).
Abbreviation hidden := (hidden (T:=T) (E:=E)).
Abbreviation keeps := (keeps (T:=T) (E:=E) settings).

Lemma hidden_field f : (∀ q : device, view_of (f q) = view_of q) → hidden (modify f).
Proof. apply hidden_modify. Qed.

Lemma hidden_on_nodes {A} (m : M (node_list * heap) A) l : hidden (on_nodes m l).
Proof. intros q. unfold on_nodes. destruct (m _) as [r [l' h]]. by destruct q. Qed.
Hint Resolve hidden_on_nodes : hidden.

Lemma hidden_autogenerate addr b : hidden (qdevice_cmap_autogenerate_node_id addr b).
Proof. unfold qdevice_cmap_autogenerate_node_id. hidden_tac. Qed.
Hint Resolve hidden_autogenerate : hidden.
Lemma hidden_get_node_id b n : hidden (get_node_id b n).
Proof. unfold get_node_id. hidden_tac. Qed.
Hint Resolve hidden_get_node_id : hidden.

Lemma hidden_get_nodelist_loop b keys l : hidden (get_nodelist_loop b keys l).
Proof.
  revert l. induction keys as [|[key is_string] keys IH]; intros l; cbn [get_nodelist_loop]; [hidden_tac|].
  hidden_tac; apply IH.
Qed.
Hint Resolve hidden_get_nodelist_loop : hidden.

Lemma hidden_get_nodelist : hidden qdevice_cmap_get_nodelist.
Proof. unfold qdevice_cmap_get_nodelist. hidden_tac. Qed.
Lemma hidden_get_config_version : hidden qdevice_cmap_get_config_version.
Proof. apply hidden_environment. Qed.
Lemma hidden_config_lists_eq l : hidden (config_lists_eq l).
Proof. intros q. unfold config_lists_eq. destruct (node_list_eq _ _ _) as [r h]. by destruct q. Qed.
Hint Resolve hidden_get_nodelist hidden_get_config_version hidden_config_lists_eq : hidden.

Lemma hidden_store_config : hidden qdevice_cmap_store_config_node_list.
Proof.
  unfold qdevice_cmap_store_config_node_list.
  hidden_tac; apply hidden_field; by intros [].
Qed.

Lemma keeps_node_list_event A : keeps A (qdevice_cmap_node_list_event settings).
Proof.
  assert (Hf : keeps A (or_exit qdevice_model_net_get_config_node_list_failed)).
  { apply keeps_hidden. unfold or_exit, qdevice_model_net_get_config_node_list_failed. hidden_tac. }
  unfold qdevice_cmap_node_list_event. cbv zeta.
  apply device_keeps_bind; [apply keeps_hidden; auto with hidden|]. intros [r l].
  destruct (negb _); [done|].
  apply device_keeps_bind; [apply keeps_hidden; auto with hidden|]. intros version.
  apply device_keeps_bind; [apply keeps_hidden; auto with hidden|]. intros r'.
  destruct (negb _); [apply device_keeps_ret|].
  apply device_keeps_bind; [apply keeps_or_exit, keeps_config_changed|]. intros _.
  apply device_keeps_bind; [apply keeps_hidden; auto with hidden|]. intros [ok l'].
  apply device_keeps_bind; [apply keeps_modify; by intros []|]. intros _.
  destruct (negb _); [done|]. apply keeps_modify. by intros [].
Qed.

(** ** The heuristics *)

Lemma hidden_set_heuristics f :
  (∀ i, exec_result_notifier_list (f i) = exec_result_notifier_list i) → hidden (modify_heuristics f).
Proof. apply hidden_modify_heuristics. Qed.

Lemma hidden_configured_number key lo hi f :
  (∀ z i, exec_result_notifier_list (f z i) = exec_result_notifier_list i) →
  hidden (configured_number key lo hi f).
Proof.
  intros Hf. unfold configured_number. hidden_tac. apply hidden_set_heuristics, Hf.
Qed.

Lemma hidden_configured_mode : hidden configured_mode.
Proof. unfold configured_mode. hidden_tac; apply hidden_set_heuristics; by intros []. Qed.

Lemma hidden_get_execs keys l : hidden (get_execs keys l).
Proof.
  revert l. induction keys as [|[key is_string] keys IH]; intros l; cbn [get_execs]; [hidden_tac|].
  hidden_tac; apply IH.
Qed.

Lemma hidden_change_exec_list l : hidden (change_exec_list l).
Proof.
  apply hidden_bind; [auto with hidden|]. intros q.
  apply hidden_bind; [apply hidden_on_heuristics, calm_change_exec_list|]. intros r. hidden_tac.
Qed.
Hint Resolve hidden_get_execs hidden_change_exec_list hidden_configured_mode : hidden.

Lemma hidden_exec_lists_eq l : hidden (exec_lists_eq l).
Proof.
  intros q. unfold exec_lists_eq, qdevice_heuristics_exec_list_eq.
  pose proof (exec_list_clone_total (heuristics_exec_list (heuristics_instance q)) ([], main_heap q)) as [a Ha].
  destruct (qdevice_heuristics_exec_list_clone _ _) as [[r|c] [l' h]]; [by destruct q|done].
Qed.
Hint Resolve hidden_exec_lists_eq : hidden.

Lemma hidden_configure_execs : hidden (configure_execs settings).
Proof. unfold configure_execs. hidden_tac; apply hidden_set_heuristics; by intros []. Qed.

Lemma hidden_configure_heuristics :
  hidden (qdevice_instance_configure_from_cmap_heuristics settings).
Proof.
  unfold qdevice_instance_configure_from_cmap_heuristics.
  hidden_tac; first
    [ apply hidden_set_heuristics; by intros []
    | apply hidden_configured_number; by intros ? []
    | apply hidden_configure_execs ].
Qed.

(** ** Changes *)

Lemma keeps_cmap_changed A b : keeps A (qdevice_model_net_cmap_changed b).
Proof.
  unfold qdevice_model_net_cmap_changed. destruct (negb b); [apply device_keeps_ret|].
  apply device_keeps_bind; [apply keeps_hidden; auto with hidden|]. intros q. cbv zeta.
  destruct (_ && _); [apply keeps_hidden; hidden_tac|].
  apply device_keeps_bind; [apply keeps_schedule_timer|]. intros _. apply device_keeps_ret.
Qed.

Lemma keeps_run_events A events : keeps A (run_events settings events).
Proof.
  unfold run_events, qdevice_cmap_heuristics_event.
  apply device_keeps_bind; [destruct (ev_node_list events); [apply keeps_node_list_event|apply device_keeps_ret]|].
  intros _. apply device_keeps_bind.
  { destruct (ev_heuristics events); [|apply device_keeps_ret].
    apply keeps_or_exit, keeps_hidden, hidden_configure_heuristics. }
  intros _. apply keeps_or_exit, keeps_cmap_changed.
Qed.

Lemma keeps_reload A key new_value : keeps A (qdevice_cmap_reload_cb settings key new_value).
Proof.
  unfold qdevice_cmap_reload_cb. cbv zeta.
  generalize (if bool_decide (key = str "config.totemconfig_reload_in_progress") then new_value else None).
  intros reload_value.
  destruct (bool_decide (reload_value = Some 1)); [apply keeps_modify; by intros []|].
  apply device_keeps_bind.
  { destruct reload_value; [apply keeps_modify; by intros []|apply device_keeps_ret]. }
  intros _. apply device_keeps_bind; [apply keeps_hidden; auto with hidden|]. intros q.
  destruct (cmap_reload_in_progress q); [apply device_keeps_ret|].
  apply device_keeps_bind; [apply keeps_hidden; auto with hidden|]. intros reload.
  destruct (bool_decide (reload = Some 1)); [apply device_keeps_ret|apply keeps_run_events].
Qed.
End cmap.
