(* ===== verification/QdeviceSafety.v ===== *)
(** What holds of the device at all times: every event keeps the invariant, none runs into an
    undefined pointer, an assertion or an endless loop, and with the fifty-fifty split
    algorithm a positive vote is cast only for a ring the server has granted it for (all when
    0.9 of the interval of the votes is not 0 ms). *)
From stdpp Require Import strings.
From S2P Require Import Prelude Dynar Tlv NodeList Msg SendBuffer DynarStr Heuristics.
From stdpp Require Import list gmap.
From S2P Require Import TimerList TimerListFacts TimerInterface QdeviceInstance QdeviceSend QdeviceAlgorithm.
From S2P Require Import QdeviceHeuristics QdeviceMsgReceived QdeviceSocket QdeviceModelNet.
From S2P Require Import QdeviceVotequorum QdeviceCmap QdeviceRun QdeviceSim.
From S2P Require Import QdeviceLogic QdeviceFacts QdeviceInvariant.
From S2P Require Import QdeviceAlgorithmFacts QdeviceHeuristicsFacts QdeviceReceivedFacts.
From S2P Require Import QdeviceConnectionFacts QdeviceNotifyFacts.
From S2P Require Import QdeviceCmdFacts QdeviceCmapFacts.
Local Open Scope Z_scope.

Section events.
Context {T E : Type} `{TimerLaws qdevice_timer T} `{Environment E}.
Abbreviation device := (qdevice_instance T E).
Abbreviation view := (view T).
Context (settings : qdevice_settings).
Context (beyond : mem).

Abbreviation base := (base settings).
Abbreviation ok := (ok settings).
Abbreviation keeps := (keeps (T:=T) (E:=E) settings).

(** ** Timers *)

(** A callback has given up the handle of the timer that is being expired. *)
Record expiring (p : nat) (f : qdevice_timer) (A : list tlv_ring_id) (v : view) : Prop := {
  ex_base : base (Some p) A v;
  ex_sockets : sockets_part v;
  ex_synced : synced v;
  ex_acked : acked settings A (v_net v);
  ex_rings : v_list_ring v = v_ring v;
  ex_handle : n_handle f (v_net v) = None;
  ex_running : timers_running (v_timers v) !! p = Some f
}.

Lemma ok_expiring p f A (v : view) :
  ok A v → timers_running (v_timers v) !! p = Some f →
  expiring p f A (v_set_handle f None (v_timers v) v).
Proof.
  intros [Hb [Hsc Hss Hsp Hsi Hst] Hy Ha Hl] Hp.
  assert (Hb' : base (Some p) A (v_set_handle f None (v_timers v) v)).
  { eapply base_handle; [done| |by intros _ []]. apply timers_forget; [apply Hb|done]. }
  split; [done|..]; destruct v as [[]], f; try done; split; cbn in *; auto.
  all: intros Hr; destruct (Hst Hr); by subst.
Qed.

Lemma runs_expired_delete p f A (v : view) :
  expiring p f A v → runs (E:=E) v (on_timers (timer_delete p)) (λ _ v', ok A v').
Proof.
  intros [Hb [Hsc Hss Hsp Hsi Hst] Hy Ha Hl Hh Hp].
  apply runs_timer_delete; [apply Hb|by eexists|]. intros t Ht Hr.
  pose proof (timers_expired f v p t (b_timers _ _ _ _ Hb) Hp Hh Ht Hr) as Htp.
  destruct Hb as [_ Hc Hn Hd Hv], v as [[]]. cbn in *.
  split; [|by split|done..]. by split.
Qed.

Definition returned_ok (p : nat) (f : qdevice_timer) (A : list tlv_ring_id) (r : Z) (v : view) : Prop :=
  if r =? 0 then expiring p f A v else ok A v ∧ is_Some (timers_running (v_timers v) !! p).

Lemma runs_timer_returned p f A r (v : view) :
  returned_ok p f A r v → runs (E:=E) v (qdevice_timer_returned p r) (λ _ v', ok A v').
Proof.
  unfold returned_ok, qdevice_timer_returned. intros Hr q Hq.
  replace (main_timers q) with (v_timers v) by by rewrite <-Hq.
  destruct (r =? 0).
  - rewrite (ex_running _ _ _ _ Hr). by apply (runs_expired_delete p f A v).
  - destruct Hr as [Hv [g Hg]]. rewrite Hg. revert q Hq.
    change (runs (E:=E) v (on_timers (timer_reschedule p)) (λ (_ : unit) v', ok A v')).
    apply runs_timer_reschedule; [apply Hv|by eexists|]. intros t Ht Hr.
    destruct Hv as [[[Hi Hh Hru] Hc Hn Hd Hvo] [Hsc Hss Hsp Hsi Hst] Hy Ha Hl], v as [[]]. cbn in *.
    split; [|by split|done..]. split; try done. split; cbn; [done|..]; by rewrite Hr.
Qed.

Lemma device_returned_again p f A (v : view) r :
  r ≠ 0 → ok A v → timers_running (v_timers v) !! p = Some f → returned_ok p f A r v.
Proof.
  intros Hr Hv Hp. unfold returned_ok. destruct (Z.eqb_spec r 0); [done|]. split; [done|by eexists].
Qed.

Lemma ok_votes A (v : view) l : ok A v → base None A (v_set_votes l v) → ok A (v_set_votes l v).
Proof.
  intros [_ [Hsc Hss Hsp Hsi Hst] Hy Ha Hl] Hb. destruct v as [[]]. split; [done|by split|done..].
Qed.

Lemma runs_cast_expired p A (v : view) :
  ok A v → timers_running (v_timers v) !! p = Some CAST_VOTE_TIMER →
  runs (E:=E) v qdevice_net_cast_vote_timer_callback (returned_ok p CAST_VOTE_TIMER A).
Proof.
  intros Hv Hp. eapply runs_cast_vote_timer_callback; [apply Hv|by apply ok_may_ack|..].
  - intros l Hb. apply device_returned_again; [done|by apply ok_votes|by destruct v].
  - intros l Hb. pose proof (ok_expiring p CAST_VOTE_TIMER A _ (ok_votes A v l Hv Hb)) as He.
    destruct v. by apply He.
Qed.

Lemma runs_echo_expired p A (v : view) :
  ok A v → timers_running (v_timers v) !! p = Some ECHO_REQUEST_TIMER →
  runs (E:=E) v (qdevice_net_echo_request_timer_callback settings) (returned_ok p ECHO_REQUEST_TIMER A).
Proof.
  intros Hv Hp. unfold qdevice_net_echo_request_timer_callback.
  assert (Hagain : returned_ok p ECHO_REQUEST_TIMER A (-1) v) by by apply device_returned_again.
  assert (Hend : ∀ reason, runs (E:=E) v (schedule_disconnect_because reason;;
    modify_net (set_echo_request_timer None);; mret 0) (returned_ok p ECHO_REQUEST_TIMER A)).
  { intros reason. runs_step. runs_step. runs_step. change set_echo_request_timer with (set_handle_of ECHO_REQUEST_TIMER).
    runs_step. apply runs_ret. pose proof (ok_expiring p ECHO_REQUEST_TIMER A v Hv Hp). by destruct v. }
  runs_step. runs_step. destruct (negb _).
  - runs_step. apply runs_echo_not_received; [apply (ok_base _ _ _ Hv)|]. intros r.
    destruct (negb _); [apply Hend|by apply runs_ret].
  - runs_step. runs_step. destruct (_ =? _); [apply Hend|by apply runs_ret].
Qed.

Lemma runs_connect_expired p A (v : view) :
  ok A v → timers_running (v_timers v) !! p = Some CONNECT_TIMER →
  runs (E:=E) v qdevice_model_net_timer_connect_timeout (returned_ok p CONNECT_TIMER A).
Proof.
  intros Hv Hp. unfold qdevice_model_net_timer_connect_timeout. runs_step.
  apply runs_hidden; [apply hidden_modify_net, unseen_schedule_disconnect|]. intros _.
  runs_step. change set_connect_timer with (set_handle_of CONNECT_TIMER). runs_step. runs_step. runs_step.
  apply runs_ret. pose proof (ok_expiring p CONNECT_TIMER A v Hv Hp). by destruct v.
Qed.

Lemma runs_heuristics_expired p A (v : view) :
  ok A v → timers_running (v_timers v) !! p = Some HEURISTICS_TIMER →
  runs (E:=E) v qdevice_net_heuristics_timer_callback (returned_ok p HEURISTICS_TIMER A).
Proof.
  intros Hv Hp. unfold qdevice_net_heuristics_timer_callback. runs_step. apply runs_get. intros q _.
  destruct (qdevice_heuristics_waiting_for_result _); [by apply runs_ret, device_returned_again|].
  runs_step. change set_regular_heuristics_timer with (set_handle_of HEURISTICS_TIMER). runs_step.
  pose proof (ok_expiring p HEURISTICS_TIMER A v Hv Hp) as He.
  replace (v_set_net _ _) with (v_set_handle HEURISTICS_TIMER None (v_timers v) v) by by destruct v.
  runs_step. eapply runs_set_active; [apply He|]. change (negb (0 =? 0)) with false. cbv iota.
  runs_step. runs_step. runs_step.
  apply runs_hidden; [destruct (negb _); auto with hidden|]. intros _. by apply runs_ret.
Qed.

Lemma keeps_timer_expired A p : keeps A (qdevice_timer_expired settings p).
Proof.
  apply device_keeps_get. intros q v Hv Hq. replace (main_timers q) with (v_timers v) by by rewrite <-Hq.
  destruct (timers_running (v_timers v) !! p) as [f|] eqn:Hp; [|by apply runs_ret]. runs_step.
  assert (Hc : runs (E:=E) v (call_timer settings f) (returned_ok p f A)).
  { destruct f; [by apply runs_cast_expired|by apply runs_echo_expired|by apply runs_connect_expired
      |by apply runs_heuristics_expired]. }
  eapply runs_mono; [exact Hc|]. intros r v' Hr. by apply runs_timer_returned with f.
Qed.

(** ** Events *)

(** The delay before the next connection is a remainder of [0.9] of the interval. *)
Hypothesis delay_interval : times_0_9 (cfg_cast_vote_timer_interval settings) ≠ 0.

(** The outcome of an event: also when the program ends, no vote is without its grant. *)
Definition event_ok (A : list tlv_ring_id) (m : M device bool) (q : device) : Prop :=
  match m q with
  | (Ok b, q') => base None A (view_of q') ∧ (b = true → ok A (view_of q'))
  | (Err c, _) => c = EXIT
  end.

Lemma runs_event_ok A m q :
  runs (view_of q) m (λ b v', base None A v' ∧ (b = true → ok A v')) → event_ok A m q.
Proof. intros Hm. apply (Hm q eq_refl). Qed.

Lemma ends_event_ok {R} A (m : M device R) q : ends settings A m q → event_ok A (goes_on m) q.
Proof.
  unfold ends, event_ok, goes_on. intros Hm. destruct (m q) as [[r|c] q'] eqn:Em.
  - rewrite (bind_ok _ _ _ _ _ Em). split; [apply Hm|done].
  - by rewrite (bind_err _ _ _ _ _ Em).
Qed.

Lemma keeps_event_ok {R} A (m : M device R) q :
  keeps A m → ok A (view_of q) → event_ok A (goes_on m) q.
Proof. intros Hm Hq. by apply ends_event_ok, ends_keeps. Qed.

Lemma runs_goes_on_ok {R} A (m : M device R) q :
  runs (view_of q) m (λ _ v', ok A v') → event_ok A (goes_on m) q.
Proof. intros Hm. apply ends_event_ok. apply (Hm q eq_refl). Qed.

Lemma closed_ok A (q : device) :
  ok A (view_of q) → n_client_destroyed (v_net (view_of q)) = true → v_polled (view_of q) ≠ [] →
  is_Some (net_socket (net q)).
Proof. intros Hq Hd Hp. exact (sp_socket _ (ok_sockets _ _ _ Hq) Hp Hd). Qed.

Lemma polled_registered A (v : view) : ok A v → v_polled v ≠ [] → v_registered v = true.
Proof.
  intros Hv Hp. destruct (v_registered v) eqn:Er; [done|]. by destruct Hp, (sp_polled _ (ok_sockets _ _ _ Hv) Er).
Qed.

Lemma ok_between A (v : view) : ok A v → v_registered v = false → between settings A v.
Proof.
  intros Hv Hr. destruct (sp_idle _ (ok_sockets _ _ _ Hv) Hr) as [Hc Hs].
  split; [apply Hv| |apply Hv|by apply Hv|done|done].
  apply (not_connected_vote settings A v Hv). unfold is_connected. by rewrite Hs.
Qed.

Lemma start_ok A (q : device) :
  ok A (view_of q) → pre_poll_cb_registered q = false →
  event_ok A (run_event settings beyond MAIN_LOOP_STARTED) q.
Proof.
  intros Hq Hr. apply runs_event_ok. cbn [run_event]. runs_step.
  apply runs_pre_poll with A; [by apply ok_between|..].
  - intros v' Hv'. apply runs_ret. split; [apply Hv'|done].
  - intros v' Hb. by apply runs_ret.
Qed.

Lemma loop_ended_ok A (q : device) b :
  ok A (view_of q) → pre_poll_cb_registered q = true →
  event_ok A (run_event settings beyond (POLL_LOOP_ENDED b)) q.
Proof.
  intros Hq Hr. apply runs_event_ok. cbn [run_event]. runs_step.
  apply runs_restart with A; [done..| |].
  - intros r v' Hr' Hb. apply runs_ret. split; [done|]. by destruct Hr' as [-> | ->].
  - intros v' Hv'. apply runs_ret. split; [apply Hv'|done].
Qed.

Lemma run_event_ok A (q : device) e :
  ok A (view_of q) → enabled e q → event_ok (acks_of beyond e q ++ A) (run_event settings beyond e) q.
Proof.
  intros Hq He. destruct e; cbn [enabled] in He; cbn [acks_of app].
  - apply keeps_event_ok; [apply keeps_timer_expired|done].
  - destruct He as [Hp Hd]. apply ends_event_ok, device_read_cb_ok; [done|]. by eapply closed_ok.
  - destruct He as [Hp Hd]. apply runs_goes_on_ok. unfold socket_write_cb, or_schedule_disconnect. runs_step.
    eapply runs_mono; [apply runs_write; [done|by eapply closed_ok]|]. intros r v' Hv'.
    destruct (_ =? _); [|by apply runs_ret]. apply runs_hidden; [hidden_tac|done].
  - apply keeps_event_ok; [|done]. apply keeps_hidden. unfold socket_err_cb. hidden_tac.
  - destruct He as [Hp Hd]. apply runs_goes_on_ok, runs_connect_ready; [done..|]. by eapply polled_registered.
  - destruct He as [Hp Hd]. apply runs_goes_on_ok, runs_connect_error; [done|]. by eapply polled_registered.
  - apply keeps_event_ok; [apply keeps_quorum_callback|done].
  - apply keeps_event_ok; [apply keeps_node_list_callback|done].
  - apply keeps_event_ok; [apply keeps_expected_votes_callback|done].
  - apply keeps_event_ok; [|done]. apply device_keeps_bind; [apply keeps_modify; by intros []|]. intros; apply device_keeps_ret.
  - apply keeps_event_ok; [|done]. apply keeps_or_closed, keeps_cmd_read.
  - apply keeps_event_ok; [|done]. apply keeps_or_closed, keeps_hidden, hidden_cmd_write.
  - apply keeps_event_ok; [|done]. apply device_keeps_bind; [apply keeps_modify; by intros []|]. intros; apply device_keeps_ret.
  - apply keeps_event_ok; [apply keeps_reload|done].
  - apply keeps_event_ok; [|done]. apply device_keeps_bind; [apply keeps_modify; by intros []|]. intros; apply device_keeps_ret.
  - by apply start_ok.
  - by apply loop_ended_ok.
Qed.

(** ** The start *)

Lemma view_of_notifiers l h (q : device) :
  view_of (set_main_heap h (set_heuristics_instance
    (set_exec_result_notifier_list l (heuristics_instance q)) q)) =
  v_set_notifiers (notifier_callback <$> l) (view_of q).
Proof.
  transitivity (view_of (set_heuristics_instance (set_exec_result_notifier_list l (heuristics_instance q)) q)).
  { by destruct q. }
  rewrite view_of_heuristics. by destruct (heuristics_instance q).
Qed.

Lemma runs_notifier_add (v : view) callback (Q : bool → view → Prop) :
  callback ∉ v_notifiers v →
  Q false v → Q true (v_set_notifiers (v_notifiers v ++ [callback]) v) →
  runs (E:=E) v (notifier_add callback) Q.
Proof.
  intros Hni HF HT q Hq. unfold notifier_add, qdevice_heuristics_result_notifier_list_add,
    qdevice_heuristics_result_notifier_list_get.
  set (l := exec_result_notifier_list (heuristics_instance q) : list (notifier_item qdevice_heuristics_callback)).
  assert (El : notifier_callback <$> l = v_notifiers v) by by rewrite <-Hq.
  destruct (list_find _ l) as [[k item]|] eqn:Ef.
  { apply list_find_Some in Ef as (Hk & Hc & _). destruct Hni. rewrite <-El, <-Hc.
    apply list_elem_of_fmap_2. by eapply list_elem_of_lookup_2. }
  destruct (malloc (main_heap q)) as [[a|] h]; rewrite view_of_notifiers, Hq.
  - rewrite fmap_app, El. apply HT.
  - rewrite El, v_notifiers_id. apply HF.
Qed.

(** The view of an instance that has just been initialised. *)
Definition v_init (v : view) : view := v_set_net (nview (qdevice_net_instance_init settings)) v.

Lemma runs_first_update (v : view) (Q : Z → view → Prop) :
  n_cast (v_net v) = None → Q 0 (v_set_net (n_set_vote TLV_VOTE_ASK_LATER (v_net v)) v) →
  runs (E:=E) v (qdevice_net_cast_vote_timer_update settings TLV_VOTE_ASK_LATER) Q.
Proof.
  intros Hc HQ. cbn [qdevice_net_cast_vote_timer_update]. runs_step. runs_step. runs_step.
  unfold delete_timer. runs_step. runs_step.
  assert (Ec : cast_vote_timer i = n_cast (v_net v)).
  { transitivity (n_cast (nview i)); [done|]. rewrite Hi. by destruct v as [[]]. }
  rewrite Ec, Hc. apply runs_ret. by apply runs_ret.
Qed.

Lemma runs_model_init nss_ok (q : device) :
  before_model q →
  runs (view_of q) (qdevice_model_net_init settings nss_ok) (λ r v', r = 0 → ok [] v').
Proof.
  clear delay_interval. intros [Ht Hnt Hri Hpo Hre Hvo Hno]. set (v := view_of q).
  unfold qdevice_model_net_init. runs_step. apply runs_modify. intros q1 Hq1. rewrite view_of_net, Hq1.
  change (v_set_net _ v) with (v_init v).
  destruct qdevice_net_algorithm_register_all; [|by apply runs_ret].
  destruct (negb nss_ok); [by apply runs_ret|]. runs_step. apply runs_first_update; [by destruct v|].
  change (negb (0 =? 0)) with false. cbv iota. runs_step. apply runs_algorithm_init. intros r d Hd.
  destruct (Z.eqb_spec r 0) as [->|]; cbn [negb]; [|by apply runs_ret].
  set (v1 := with_data _ _). assert (En : v_notifiers v1 = [VOTEQUORUM_CALLBACK]) by by rewrite <-Hno.
  runs_step. unfold qdevice_net_heuristics_init. runs_step.
  apply runs_notifier_add; [rewrite En; set_solver|by apply runs_ret, runs_ret|]. cbn [negb]. cbv iota.
  runs_step. apply runs_notifier_add.
  { rewrite En. cbn. set_solver. }
  { apply runs_ret. by apply runs_ret. }
  apply runs_ret. apply runs_ret. intros _. rewrite En. specialize (Hd eq_refl).
  split; try done.
  - split; try done; cbn.
    + split; cbn; [done|by intros []|]. intros f p. by rewrite Hnt, lookup_empty.
    + by intros [].
    + intros _ R. rewrite Hvo. by intros ?%elem_of_nil.
  - split; cbn; try done; rewrite ?Hre, ?Hpo; done || (cbn; lia).
Qed.

Lemma model_init_ok nss_ok (q q' : device) :
  before_model q → qdevice_model_net_init settings nss_ok q = (Ok 0, q') → ok [] (view_of q').
Proof.
  intros Hb E0. pose proof (runs_model_init nss_ok q Hb q eq_refl) as Hr. rewrite E0 in Hr. by apply Hr.
Qed.

(** ** Runs *)

Lemma device_reachable_ok A (q : device) : reachable settings beyond A q → ok A (view_of q).
Proof.
  induction 1 as [q nss_ok q' Hb E0|A q e q' Hr IH He E0|A q env Hr IH]; [by eapply model_init_ok| |by destruct q].
  pose proof (run_event_ok A q e IH He) as Hok. unfold event_ok in Hok. rewrite E0 in Hok.
  by apply Hok.
Qed.

End events.

(** ** Properties *)

Section safety.
Context {T E : Type} `{TimerLaws qdevice_timer T} `{Environment E}.
Abbreviation device := (qdevice_instance T E).
Abbreviation view := (view T).
Context (settings : qdevice_settings).
Context (beyond : mem).
Abbreviation ok := (ok settings).

(** C3: at all times, when 0.9 of the interval of the votes is not 0 ms (other devices divide by
    zero when they connect again): a handle of a timer points to a timer that runs that
    function; a timer that runs has its handle, but for timers that repeat the vote (one is
    left running without a handle when votequorum refuses the vote); the poll loop holds one
    socket of the connection at most; while it holds one, the client that connects has its
    socket and there is no session, or the client is gone and the session has its socket; and
    in a session in which votes are not paused the ring id last sent to the server is the one
    votequorum is told votes for. *)
Theorem device_invariant A (q : device) :
  times_0_9 (cfg_cast_vote_timer_interval settings) ≠ 0 →
  reachable settings beyond A q →
  (∀ f p, handle_of f (net q) = Some p → timers_running (main_timers q) !! p = Some f) ∧
  (∀ f p, timers_running (main_timers q) !! p = Some f → f ≠ CAST_VOTE_TIMER →
     handle_of f (net q) = Some p) ∧
  (length (polled_sockets q) ≤ 1)%nat ∧
  (polled_sockets q ≠ [] →
     if nb_destroyed (non_blocking_client (net q)) then is_Some (net_socket (net q))
     else is_Some (nb_socket (non_blocking_client (net q))) ∧ net_socket (net q) = None ∧
          state (net q) = QDEVICE_NET_INSTANCE_STATE_WAITING_CONNECT) ∧
  (state (net q) = QDEVICE_NET_INSTANCE_STATE_WAITING_VOTEQUORUM_CMAP_EVENTS →
     cast_vote_timer_paused (net q) = true ∨
     last_sent_ring_id (net q) = qdevice_net_votequorum_ring_id_to_tlv (vq_poll_ring_id q)).
Proof.
  intros Hd Hr.
  destruct (device_reachable_ok settings beyond Hd A q Hr) as [[[_ Hh Hru] _ _ _ _] [Hc Hsk Hpo Hs _] Hy _ _].
  split_and!; [|..|exact Hs| |exact Hy].
  - intros f p E0. apply Hh. cbn. by rewrite n_handle_nview.
  - intros f p E0 Hf. specialize (Hru f p E0 Hf). cbn in Hru. rewrite n_handle_nview in Hru. by apply Hru.
  - intros Hp. destruct (nb_destroyed _) eqn:Eb; [by apply Hsk|].
    destruct (Hc Eb) as (Hn & Hst & Hsome). split_and!; [|exact Hn|exact Hst]. apply Hsome.
    apply not_false_is_true. intros Er. by apply Hp, Hpo.
Qed.

(** C5: when 0.9 of the interval of the votes is not 0 ms, no event of the device - a timer, the
    socket of the connection, votequorum, cmap, the pipes of the heuristics commands, the begin
    and the end of the poll loop - makes it read an undefined pointer, fail an assertion,
    divide by zero or loop forever: an event that does not return is one the code answers with
    [exit]. *)
Theorem device_events_end A (q q' : device) e c :
  times_0_9 (cfg_cast_vote_timer_interval settings) ≠ 0 →
  reachable settings beyond A q → enabled e q → run_event settings beyond e q = (Err c, q') → c = EXIT.
Proof.
  intros Hd Hr He E0.
  pose proof (run_event_ok settings beyond Hd A q e (device_reachable_ok settings beyond Hd A q Hr) He) as Hok.
  unfold event_ok in Hok. by rewrite E0 in Hok.
Qed.

(** C2: with the fifty-fifty split algorithm every positive vote votequorum was told is for a
    ring the server has granted a vote for, in a message the device has read; and the positive
    vote the timer repeats is for the ring id last sent, in a session (when 0.9 of the interval
    of the votes is not 0 ms). *)
Theorem device_ffsplit_votes_granted A (q q' : device) e b :
  times_0_9 (cfg_cast_vote_timer_interval settings) ≠ 0 →
  cfg_decision_algorithm settings = TLV_DECISION_ALGORITHM_TYPE_FFSPLIT →
  reachable settings beyond A q → enabled e q → run_event settings beyond e q = (Ok b, q') →
  (∀ R, (1, R) ∈ votes_cast q' → qdevice_net_votequorum_ring_id_to_tlv R ∈ acks_of beyond e q ++ A) ∧
  (b = true → cast_vote_timer_vote (net q') = TLV_VOTE_ACK →
     state (net q') = QDEVICE_NET_INSTANCE_STATE_WAITING_VOTEQUORUM_CMAP_EVENTS ∧
     last_sent_ring_id (net q') ∈ acks_of beyond e q ++ A).
Proof.
  intros Hd Hf Hr He E0.
  pose proof (run_event_ok settings beyond Hd A q e (device_reachable_ok settings beyond Hd A q Hr) He) as Hok.
  unfold event_ok in Hok. rewrite E0 in Hok. destruct Hok as [Hb Hok]. split.
  - intros R. apply (b_votes _ _ _ _ Hb Hf).
  - intros Hb'. apply (ok_acked _ _ _ (Hok Hb') Hf).
Qed.

(** ** Messages *)

(** The messages of the server that carry a vote. *)
Definition carries_vote (type : Z) : bool :=
  bool_decide (type ∈ [MSG_TYPE_NODE_LIST_REPLY; MSG_TYPE_ASK_FOR_VOTE_REPLY; MSG_TYPE_VOTE_INFO;
    MSG_TYPE_HEURISTICS_CHANGE_REPLY]).

Lemma runs_in_state (v : view) s next (Q : Z → view → Prop) :
  Q (-1) v → runs (E:=E) v next Q → runs (E:=E) v (in_state s next) Q.
Proof.
  intros HQ Hn. unfold in_state. runs_step. runs_step. destruct (negb _); [by apply runs_fail_because|done].
Qed.

(** A vote for another ring: nothing that matters changes. *)
Lemma runs_old_vote (v : view) decide R reason next vote :
  (∀ v valid (Q : Z * tlv_vote → view → Prop), Q (0, vote_if valid vote) v → runs v (decide valid) Q) →
  R ≠ n_last_sent (v_net v) → hidden next →
  runs (E:=E) v (vote_received settings decide R reason next) (λ _ v', v' = v).
Proof.
  intros Hd Hne Hn. unfold vote_received. runs_step. runs_step.
  assert (Ev : ring_id_is_valid R i = false).
  { apply not_true_iff_false. intros E1%tlv_ring_id_eq_spec. apply Hne. by rewrite <-Hi. }
  rewrite Ev. runs_step. apply Hd. cbn [vote_if negb]. change (negb (0 =? 0)) with false. cbv iota beta.
  runs_step. apply runs_ret. change (negb (0 =? 0)) with false. cbv iota. by apply runs_hidden.
Qed.

Ltac refused := by apply runs_fail_because.
Lemma runs_old_reply (v : view) msg R :
  dm_ring_id msg = Some R → R ≠ n_last_sent (v_net v) → carries_vote (dm_type msg) = true →
  runs (E:=E) v (msg_received_dispatch settings msg) (λ _ v', v' = v).
Proof.
  intros Hr Hne Ht. apply bool_decide_eq_true in Ht.
  assert (Hnode : runs (E:=E) v (qdevice_net_msg_received_node_list_reply settings msg) (λ _ v', v' = v)).
  { apply runs_in_state; [done|]. rewrite Hr. destruct (dm_vote msg) as [vote|]; [|refused].
    destruct (dm_seq_number msg); [|refused]. destruct (dm_node_list_type msg) as [type|]; [|refused].
    apply runs_old_vote with vote; [|done|auto with hidden]. intros v' valid Q HQ. destruct type;
      [by apply runs_config_reply..|by apply runs_membership_reply|by apply runs_quorum_reply]. }
  assert (Hask : runs (E:=E) v (qdevice_net_msg_received_ask_for_vote_reply settings msg) (λ _ v', v' = v)).
  { apply runs_in_state; [done|]. rewrite Hr. destruct (dm_vote msg) as [vote|]; [|refused].
    destruct (dm_seq_number msg); [|refused]. apply runs_old_vote with vote; [intros; by apply runs_ask_reply|done|auto with hidden]. }
  assert (Hinfo : runs (E:=E) v (qdevice_net_msg_received_vote_info settings msg) (λ _ v', v' = v)).
  { apply runs_in_state; [done|]. rewrite Hr. destruct (dm_vote msg) as [vote|]; [|refused].
    destruct (dm_seq_number msg); [|refused].
    apply runs_old_vote with vote; [intros; by apply runs_vote_info|done|].
    unfold send_vote_info_reply. hidden_tac. }
  assert (Hheur : runs (E:=E) v (qdevice_net_msg_received_heuristics_change_reply settings msg) (λ _ v', v' = v)).
  { apply runs_in_state; [done|]. rewrite Hr.
    assert (Hh : ∀ h seq vote, runs (E:=E) v (vote_received settings (λ valid,
      qdevice_net_algorithm_heuristics_change_reply_received settings seq R valid h vote) R
      QDEVICE_NET_DISCONNECT_REASON_ALGO_HEURISTICS_CHANGE_REPLY_ERR (mret 0)) (λ _ v', v' = v)).
    { intros h seq vote. apply runs_old_vote with vote; [|done|auto with hidden].
      intros; by apply runs_heuristics_reply. }
    destruct (dm_heuristics msg), (dm_vote msg), (dm_seq_number msg); first [refused|apply Hh]. }
  rewrite !elem_of_cons, elem_of_nil in Ht. destruct Ht as [Ht|[Ht|[Ht|[Ht|[]]]]];
    unfold msg_received_dispatch; rewrite Ht; assumption.
Qed.

(** C16: a vote the server sends for another ring id than the one last sent to it is ignored by
    every algorithm: the vote and the timers stay as they are, and votequorum is told nothing. *)
Theorem old_ring_vote_ignored (q q' : device) msg R r :
  carries_vote (dm_type msg) = true → dm_ring_id msg = Some R → R ≠ last_sent_ring_id (net q) →
  msg_received_dispatch settings msg q = (Ok r, q') →
  cast_vote_timer_vote (net q') = cast_vote_timer_vote (net q) ∧
  cast_vote_timer (net q') = cast_vote_timer (net q) ∧
  main_timers q' = main_timers q ∧ votes_cast q' = votes_cast q ∧ state (net q') = state (net q).
Proof.
  intros Ht Hr Hne E0. pose proof (runs_old_reply (view_of q) msg R Hr Hne Ht q eq_refl) as Hv.
  rewrite E0 in Hv. by injection Hv as -> _ _ _ -> _ -> _ _ _ _ _ -> _ _ _ _ -> _.
Qed.

(** The messages of the server the device expects in a state. *)
Definition expected_in (s : qdevice_net_instance_state) (type : Z) : bool :=
  bool_decide (type ∈ [MSG_TYPE_SERVER_ERROR; MSG_TYPE_ECHO_REPLY]) ||
  match s with
  | QDEVICE_NET_INSTANCE_STATE_WAITING_PREINIT_REPLY => type =? MSG_TYPE_PREINIT_REPLY
  | QDEVICE_NET_INSTANCE_STATE_WAITING_INIT_REPLY => type =? MSG_TYPE_INIT_REPLY
  | QDEVICE_NET_INSTANCE_STATE_WAITING_VOTEQUORUM_CMAP_EVENTS =>
      (type =? MSG_TYPE_SET_OPTION_REPLY) || carries_vote type
  | _ => false
  end.

Lemma in_state_refuses s next (q : device) :
  state (net q) ≠ s →
  in_state s next q =
  (Ok (-1), set_net (set_disconnect_reason QDEVICE_NET_DISCONNECT_REASON_UNEXPECTED_MSG (net q)) q).
Proof.
  intros Hs. unfold in_state. rewrite (bind_ok get_net _ q (net q) q eq_refl).
  by rewrite bool_decide_false.
Qed.

(** C17: a message the device does not expect in its state, of whatever type, is refused: the
    session ends, with the reason, and nothing else changes. *)
Theorem unexpected_message_refused (q : device) msg :
  expected_in (state (net q)) (dm_type msg) = false →
  msg_received_dispatch settings msg q =
  (Ok (-1), set_net (set_disconnect_reason QDEVICE_NET_DISCONNECT_REASON_UNEXPECTED_MSG (net q)) q).
Proof.
  intros He. unfold msg_received_dispatch. cbv zeta. unfold expected_in, carries_vote in He.
  repeat match goal with |- context [if ?a =? ?b then _ else _] =>
    destruct (Z.eqb_spec a b) as [Et|_];
      [rewrite Et in He; first [reflexivity
        | apply in_state_refuses; intros Es; rewrite Es in He; by vm_compute in He
        | by vm_compute in He] |] end.
  reflexivity.
Qed.
End safety.

(** ** The run of a simulated device *)

Definition sim_granted : list qdevice_event := sim_connecting ++ sim_granting.
Abbreviation granted_state := (sim_state 1 (sim_server 1) sim_granted).
Abbreviation granted_acks := (sim_grants 1 (sim_server 1) sim_granted).

Lemma sim_granted_reachable : reachable (sim_settings 1) sim_memory granted_acks granted_state.
Proof. apply sim_reachable; vm_compute; reflexivity. Qed.

Lemma sim_interval : times_0_9 (cfg_cast_vote_timer_interval (sim_settings 1)) ≠ 0.
Proof. vm_compute. discriminate. Qed.

Lemma device_invariant_witness :
  reachable (sim_settings 1) sim_memory granted_acks granted_state ∧
  handle_of CAST_VOTE_TIMER (net granted_state) = Some 1%nat ∧
  timers_running (main_timers granted_state) !! 1%nat = Some CAST_VOTE_TIMER.
Proof.
  split; [exact sim_granted_reachable|].
  assert (Hh : handle_of CAST_VOTE_TIMER (net granted_state) = Some 1%nat) by (vm_compute; reflexivity).
  split; [exact Hh|].
  exact (proj1 (device_invariant (sim_settings 1) sim_memory _ _ sim_interval sim_granted_reachable) _ _ Hh).
Defined.

(** The server has granted the vote and then sends a header of a type no message has. *)
Abbreviation fatal_server := (sim_server 1 ++ unknown_header).
Abbreviation fatal_state := (sim_state 1 fatal_server sim_granted).

Lemma fatal_reachable :
  reachable (sim_settings 1) sim_memory (sim_grants 1 fatal_server sim_granted) fatal_state.
Proof. apply sim_reachable; vm_compute; reflexivity. Qed.

Lemma run_err {S A} (m : M S A) s c : fst (m s) = Err c → m s = (Err c, snd (m s)).
Proof. by destruct (m s) as [r s'] eqn:E; intros [= ->]. Qed.

Lemma fatal_event :
  run_event (sim_settings 1) sim_memory SOCKET_READABLE fatal_state =
  (Err EXIT, snd (run_event (sim_settings 1) sim_memory SOCKET_READABLE fatal_state)).
Proof. apply run_err. vm_compute. reflexivity. Qed.

Lemma fatal_enabled : enabled SOCKET_READABLE fatal_state.
Proof. apply (bool_decide_unpack _). vm_compute. exact I. Qed.

(** Six bytes end the device: at the beginning of a message, a header of a type no message
    has and of length 0 is reported as a message that is complete and was skipped, which the
    device takes for impossible and answers with [exit]. *)
Theorem device_exits_on_unknown_header :
  ∃ A q q', reachable (sim_settings 1) sim_memory A q ∧ enabled SOCKET_READABLE q ∧
    sim_socket (environment q) = unknown_header ∧
    msg_already_received_bytes (net q) = 0 ∧ net_skipping_msg (net q) = false ∧
    run_event (sim_settings 1) sim_memory SOCKET_READABLE q = (Err EXIT, q').
Proof.
  eexists _, fatal_state, _. split; [exact fatal_reachable|]. split; [exact fatal_enabled|].
  split_and!; [vm_compute; reflexivity..|exact fatal_event].
Qed.

Lemma device_events_end_witness :
  reachable (sim_settings 1) sim_memory (sim_grants 1 fatal_server sim_granted) fatal_state ∧
  enabled SOCKET_READABLE fatal_state ∧ ∃ c q',
  run_event (sim_settings 1) sim_memory SOCKET_READABLE fatal_state = (Err c, q') ∧ c = EXIT.
Proof.
  split; [exact fatal_reachable|]. split; [exact fatal_enabled|].
  exists EXIT. eexists. split; [exact fatal_event|].
  exact (device_events_end (sim_settings 1) sim_memory _ _ _ _ _ sim_interval fatal_reachable
    fatal_enabled fatal_event).
Defined.

(** The message that grants the vote. *)
Abbreviation granting_state := (sim_state 1 (sim_server 1) (sim_connecting ++ [SOCKET_READABLE])).
Abbreviation granting_acks := (sim_grants 1 (sim_server 1) (sim_connecting ++ [SOCKET_READABLE])).

Lemma granting_reachable : reachable (sim_settings 1) sim_memory granting_acks granting_state.
Proof. apply sim_reachable; vm_compute; reflexivity. Qed.

Lemma granting_enabled : enabled SOCKET_READABLE granting_state.
Proof. apply (bool_decide_unpack _). vm_compute. exact I. Qed.

Lemma granting_event :
  run_event (sim_settings 1) sim_memory SOCKET_READABLE granting_state =
  (Ok true, snd (run_event (sim_settings 1) sim_memory SOCKET_READABLE granting_state)).
Proof. apply run_fst. vm_compute. reflexivity. Qed.

Lemma device_ffsplit_votes_granted_witness :
  reachable (sim_settings 1) sim_memory granting_acks granting_state ∧
  enabled SOCKET_READABLE granting_state ∧
  let q' := snd (run_event (sim_settings 1) sim_memory SOCKET_READABLE granting_state) in
  votes_cast q' = [(1, ring 4)] ∧
  qdevice_net_votequorum_ring_id_to_tlv (ring 4) ∈
    acks_of sim_memory SOCKET_READABLE granting_state ++ granting_acks.
Proof.
  split; [exact granting_reachable|]. split; [exact granting_enabled|]. cbv zeta.
  assert (Hv : votes_cast (snd (run_event (sim_settings 1) sim_memory SOCKET_READABLE granting_state)) =
    [(1, ring 4)]) by (vm_compute; reflexivity).
  split; [exact Hv|].
  apply (proj1 (device_ffsplit_votes_granted (sim_settings 1) sim_memory _ _ _ _ _ sim_interval eq_refl
    granting_reachable granting_enabled granting_event)).
  rewrite Hv. apply elem_of_cons. left. reflexivity.
Defined.

(** C25: what holds with the fifty-fifty split algorithm fails with last man standing for two
    nodes: a device whose vote was granted, that is told of a new ring and then loses the server
    before its heuristics are done, repeats the positive vote for the new ring, for which no
    message of the server has granted it. *)
Theorem device_2nodelms_unconfirmed_vote :
  ∃ A q, reachable (sim_settings TLV_DECISION_ALGORITHM_TYPE_2NODELMS) sim_memory A q ∧
    (1, ring 5) ∈ votes_cast q ∧ qdevice_net_votequorum_ring_id_to_tlv (ring 5) ∉ A.
Proof.
  set (events := sim_granted ++ sim_losing ++ [TIMER_EXPIRED 1]).
  exists (sim_grants 2 (sim_server 2) events), (sim_state 2 (sim_server 2) events).
  split; [apply sim_reachable; vm_compute; reflexivity|]. split.
  - assert (Hv : votes_cast (sim_state 2 (sim_server 2) events) = [(1, ring 5); (1, ring 4)])
      by (vm_compute; reflexivity).
    rewrite Hv. apply elem_of_cons. by left.
  - apply (bool_decide_unpack _). vm_compute. exact I.
Qed.

Definition old_vote : msg_decoded :=
  Msg.set_type MSG_TYPE_ASK_FOR_VOTE_REPLY (Msg.set_vote (Some TLV_VOTE_NACK)
    (Msg.set_seq_number (Some 9) (Msg.set_ring_id (Some (mk_ring_id 1 3)) msg_decoded_init))).

Lemma old_vote_runs :
  msg_received_dispatch (sim_settings 1) old_vote granted_state =
  (Ok 0, snd (msg_received_dispatch (sim_settings 1) old_vote granted_state)).
Proof. apply run_fst. vm_compute. reflexivity. Qed.

Lemma old_ring_vote_ignored_witness :
  last_sent_ring_id (net granted_state) = mk_ring_id 1 4 ∧
  votes_cast (snd (msg_received_dispatch (sim_settings 1) old_vote granted_state)) =
  votes_cast granted_state.
Proof.
  assert (Hl : last_sent_ring_id (net granted_state) = mk_ring_id 1 4) by (vm_compute; reflexivity).
  split; [exact Hl|].
  refine (proj1 (proj2 (proj2 (proj2 (old_ring_vote_ignored (sim_settings 1) granted_state _ old_vote
    (mk_ring_id 1 3) 0 eq_refl eq_refl _ old_vote_runs))))).
  rewrite Hl. discriminate.
Defined.

Lemma unexpected_message_refused_witness :
  expected_in (state (net granted_state)) MSG_TYPE_INIT_REPLY = false ∧
  fst (msg_received_dispatch (sim_settings 1) (Msg.set_type MSG_TYPE_INIT_REPLY msg_decoded_init)
         granted_state) = Ok (-1).
Proof.
  assert (He : expected_in (state (net granted_state)) MSG_TYPE_INIT_REPLY = false) by (vm_compute; reflexivity).
  split; [exact He|].
  rewrite (unexpected_message_refused (sim_settings 1) granted_state
    (Msg.set_type MSG_TYPE_INIT_REPLY msg_decoded_init) He). reflexivity.
Defined.
