(* ===== verification/PrPollArray.v ===== *)
(** The array the poll loop hands to [PR_Poll], with a cell of user data for every descriptor
    (pr-poll-array.c).

    A cell nobody has written is [None]; the array of the user data is one of cells of
    [user_data_size] bytes.  Both blocks grow and shrink with [realloc], which may fail. *)
From S2P Require Import Prelude.
From stdpp Require Import list.
Local Open Scope Z_scope.

Section array.
Context {D U : Type}.
(** What [memset] to 0 makes of a descriptor and of the user data. *)
Context (zero_desc : D) (zero_data : U).

Record pr_poll_array := mk_poll_array {
  array : list (option D);
  user_data_array : list (option U);
  user_data_size : Z;
  allocated : Z;
  items : Z
}.

Definition set_array v (a : pr_poll_array) : pr_poll_array :=
  mk_poll_array v (user_data_array a) (user_data_size a) (allocated a) (items a).
Definition set_user_data_array v (a : pr_poll_array) : pr_poll_array :=
  mk_poll_array (array a) v (user_data_size a) (allocated a) (items a).
Definition set_allocated v (a : pr_poll_array) : pr_poll_array :=
  mk_poll_array (array a) (user_data_array a) (user_data_size a) v (items a).
Definition set_items v (a : pr_poll_array) : pr_poll_array :=
  mk_poll_array (array a) (user_data_array a) (user_data_size a) (allocated a) v.

Definition pr_poll_array_init (user_data_size : Z) : pr_poll_array :=
  mk_poll_array [] [] user_data_size 0 0.

Definition pr_poll_array_destroy (a : pr_poll_array) : pr_poll_array :=
  pr_poll_array_init (user_data_size a).

Definition pr_poll_array_clean (a : pr_poll_array) : pr_poll_array := set_items 0 a.

Definition pr_poll_array_size (a : pr_poll_array) : Z := items a.

(** [realloc] of a block of cells. *)
Definition realloc_cells {A} (n : Z) (l : list (option A)) : list (option A) :=
  take (Z.to_nat n) l ++ replicate (Z.to_nat n - length l) None.

Definition pr_poll_array_realloc (new_array_size : Z) : M (pr_poll_array * heap) Z := λ '(a, h),
  match malloc h with
  | (None, h) => (Ok (-1), (a, h))
  | (Some _, h) =>
      let a := set_array (realloc_cells new_array_size (array a)) (set_allocated new_array_size a) in
      if 0 <? user_data_size a then
        match malloc h with
        | (None, h) => (Ok (-1), (a, h))
        | (Some _, h) =>
            (Ok 0, (set_user_data_array (realloc_cells new_array_size (user_data_array a)) a, h))
        end
      else (Ok 0, (a, h))
  end.

(** A write to a cell of a block. *)
Definition write_cell {A} (pos : Z) (x : A) (l : list (option A)) : res (list (option A)) :=
  if (0 <=? pos) && (pos <? Z.of_nat (length l)) then Ok (<[Z.to_nat pos := Some x]> l)
  else Err OUT_OF_BOUNDS.

Definition on_array {A} (f : pr_poll_array → res (A * pr_poll_array)) :
    M (pr_poll_array * heap) A := λ '(a, h),
  match f a with Ok (r, a') => (Ok r, (a', h)) | Err c => (Err c, (a, h)) end.

Definition write_desc (pos : Z) (d : D) : M (pr_poll_array * heap) unit :=
  on_array (λ a, match write_cell pos d (array a) with
                 | Ok l => Ok (tt, set_array l a) | Err c => Err c end).
Definition write_data (pos : Z) (u : U) : M (pr_poll_array * heap) unit :=
  on_array (λ a, match write_cell pos u (user_data_array a) with
                 | Ok l => Ok (tt, set_user_data_array l a) | Err c => Err c end).

(** The position of the new item; [-1]: no memory. *)
Definition pr_poll_array_add : M (pr_poll_array * heap) Z :=
  '(a, _) ← get;
  r ← (if allocated a <=? pr_poll_array_size a
       then pr_poll_array_realloc (allocated a * 2 + 1) else mret 0);
  if negb (r =? 0) then mret (-1)
  else
    write_desc (pr_poll_array_size a) zero_desc;;
    (if 0 <? user_data_size a then write_data (items a) zero_data else mret tt);;
    modify (λ '(a, h), (set_items (items a + 1) a, h));;
    mret (items a).

Definition pr_poll_array_gc : M (pr_poll_array * heap) unit :=
  '(a, _) ← get;
  if pr_poll_array_size a * 3 + 1 <? allocated a
  then pr_poll_array_realloc (pr_poll_array_size a * 2 + 1);; mret tt
  else mret tt.

(** A pointer into an array is its position; [None] is the NULL pointer. *)
Definition pr_poll_array_get (a : pr_poll_array) (pos : Z) : option Z :=
  if items a <=? pos then None else Some pos.
Definition pr_poll_array_get_user_data (a : pr_poll_array) (pos : Z) : option Z :=
  if items a <=? pos then None else Some pos.

(** Reading what a pointer points to. *)
Definition read_cell {A} (pos : Z) (l : list (option A)) : option A :=
  if 0 <=? pos then mjoin (l !! Z.to_nat pos) else None.

(** ** The array is a vector *)

(** Both blocks hold what is allocated; after a failed shrinking the second is larger. *)
Record wf (a : pr_poll_array) : Prop := {
  wf_data : 0 < user_data_size a;
  wf_items : 0 ≤ items a ≤ allocated a;
  wf_array : Z.of_nat (length (array a)) = allocated a;
  wf_user : allocated a ≤ Z.of_nat (length (user_data_array a))
}.

(** The items, as cells of the two blocks. *)
Definition descs (a : pr_poll_array) : list (option D) := take (Z.to_nat (items a)) (array a).
Definition datas (a : pr_poll_array) : list (option U) :=
  take (Z.to_nat (items a)) (user_data_array a).

Lemma array_wf_init size : 0 < size → wf (pr_poll_array_init size).
Proof. by split. Qed.

Lemma array_wf_clean a : wf a → wf (pr_poll_array_clean a).
Proof. intros [? [] ? ?]. split; cbn; lia. Qed.

Lemma length_realloc_cells {A} n (l : list (option A)) :
  0 ≤ n → Z.of_nat (length (realloc_cells n l)) = n.
Proof. intros. unfold realloc_cells. rewrite length_app, length_take, length_replicate. lia. Qed.

Lemma take_realloc_cells {A} n k (l : list (option A)) :
  (k ≤ Z.to_nat n)%nat → (k ≤ length l)%nat → take k (realloc_cells n l) = take k l.
Proof.
  intros. unfold realloc_cells. rewrite take_app_le by (rewrite length_take; lia).
  rewrite take_take. f_equal. lia.
Qed.

Lemma write_cell_ok {A} pos (x : A) l :
  0 ≤ pos < Z.of_nat (length l) → write_cell pos x l = Ok (<[Z.to_nat pos := Some x]> l).
Proof.
  intros. unfold write_cell. destruct (_ && _) eqn:E; [done|].
  apply andb_false_iff in E. rewrite Z.leb_gt, Z.ltb_ge in E. lia.
Qed.

Lemma take_insert_next {A} k (x : A) (l : list A) :
  (k < length l)%nat → take (S k) (<[k := x]> l) = take k l ++ [x].
Proof.
  intros Hk. rewrite (take_S_r _ _ x) by (by apply list_lookup_insert_eq). by rewrite take_insert_ge.
Qed.

(** [realloc] to a size no smaller than the items. *)
Lemma realloc_spec n a h :
  wf a → items a ≤ n →
  match pr_poll_array_realloc n (a, h) with
  | (Ok r, (a', _)) =>
      items a' = items a ∧ user_data_size a' = user_data_size a ∧
      descs a' = descs a ∧ datas a' = datas a ∧
      (r = 0 ∧ wf a' ∧ allocated a' = n ∨
       r = -1 ∧ None ∈ h ∧ (n ≤ allocated a → wf a'))
  | (Err _, _) => False
  end.
Proof.
  intros Ha Hn. pose proof Ha as [Hd Hi Hl Hu]. unfold pr_poll_array_realloc.
  pose proof (length_realloc_cells n (array a) ltac:(lia)) as Hl'.
  pose proof (length_realloc_cells n (user_data_array a) ltac:(lia)) as Hu'.
  assert (Hta : take (Z.to_nat (items a)) (realloc_cells n (array a)) = descs a).
  { apply take_realloc_cells; lia. }
  assert (Htu : take (Z.to_nat (items a)) (realloc_cells n (user_data_array a)) = datas a).
  { apply take_realloc_cells; lia. }
  destruct (malloc h) as [[j|] h1] eqn:E1; [|split_and!; try done; right; split_and!; [done|by eapply malloc_None|done]].
  cbn. destruct (Z.ltb_spec 0 (user_data_size a)); [|lia].
  destruct (malloc h1) as [[j'|] h2] eqn:E2; split_and!; try done.
  - left. split_and!; try done. split; cbn; lia.
  - right. split_and!; try done.
    + apply malloc_None in E2. apply malloc_suffix in E1. by eapply suffix_in.
    + intros. split; cbn; lia.
Qed.

Lemma pr_poll_array_add_spec a h :
  wf a →
  match pr_poll_array_add (a, h) with
  | (Ok r, (a', h')) =>
      r = -1 ∧ None ∈ h ∨
      r = items a ∧ wf a' ∧ items a' = items a + 1 ∧
      descs a' = descs a ++ [Some zero_desc] ∧ datas a' = datas a ++ [Some zero_data]
  | (Err _, _) => False
  end.
Proof.
  intros Ha.
  assert (Hput : ∀ b g, wf b → items b = items a → descs b = descs a → datas b = datas a →
    items b < allocated b → user_data_size b = user_data_size a → ∃ b',
    (write_desc (items a) zero_desc;;
    (if 0 <? user_data_size a then write_data (items a) zero_data else mret tt);;
    modify (λ '(a, h), (set_items (items a + 1) a, h));;
    mret (items a)) (b, g) = (Ok (items a), (b', g)) ∧ wf b' ∧ items b' = items a + 1 ∧
    descs b' = descs a ++ [Some zero_desc] ∧ datas b' = datas a ++ [Some zero_data]).
  { intros b g [Hd Hi Hl Hu] Ei Ed Eu Hlt Es. rewrite <-Ei, <-Es, <-Ed, <-Eu.
    unfold write_desc, write_data, on_array, mbind, M_bind, modify.
    rewrite write_cell_ok by lia. destruct (Z.ltb_spec 0 (user_data_size b)); [|lia]. cbn [set_array user_data_array].
    rewrite write_cell_ok by lia. eexists. split; [reflexivity|].
    split; [|split; [done|]].
    - split; cbn; rewrite ?length_insert; lia.
    - unfold descs, datas. cbn. replace (Z.to_nat (items b + 1)) with (S (Z.to_nat (items b))) by lia.
      by rewrite !take_insert_next by lia. }
  unfold pr_poll_array_add. rewrite (bind_ok get _ (a, h) (a, h) (a, h) eq_refl). cbv beta iota.
  pose proof Ha as [Hd Hi Hl Hu]. change (pr_poll_array_size a) with (items a).
  destruct (Z.leb_spec (allocated a) (items a)); cbv iota.
  - pose proof (realloc_spec (allocated a * 2 + 1) a h Ha ltac:(lia)) as Hr.
    destruct (pr_poll_array_realloc _ (a, h)) as [[r|c] [b g]] eqn:E; [|done].
    rewrite (bind_ok _ _ _ _ _ E). destruct Hr as (Ei & Es & Ed & Eu & [(-> & Hb & Hal)|(-> & Hn & _)]).
    + change (negb (0 =? 0)) with false. cbv iota.
      destruct (Hput b g) as (b' & -> & Hb'); [done..|lia|done|]. right. tauto.
    + by left.
  - rewrite (bind_ok _ _ (a, h) 0 (a, h) eq_refl). change (negb (0 =? 0)) with false. cbv iota.
    destruct (Hput a h) as (b' & -> & Hb'); [done..|]. right. tauto.
Qed.

Lemma pr_poll_array_gc_spec a h :
  wf a →
  match pr_poll_array_gc (a, h) with
  | (Ok _, (a', _)) =>
      wf a' ∧ items a' = items a ∧ descs a' = descs a ∧ datas a' = datas a ∧
      (allocated a' ≤ 3 * items a + 1 ∨ None ∈ h)
  | (Err _, _) => False
  end.
Proof.
  intros Ha. unfold pr_poll_array_gc. rewrite (bind_ok get _ (a, h) (a, h) (a, h) eq_refl).
  cbv beta iota. unfold pr_poll_array_size. pose proof Ha as [Hd Hi Hl Hu].
  destruct (Z.ltb_spec (items a * 3 + 1) (allocated a)); [|split_and!; try done; left; lia].
  pose proof (realloc_spec (items a * 2 + 1) a h Ha ltac:(lia)) as Hr.
  destruct (pr_poll_array_realloc _ (a, h)) as [[r|c] [b g]] eqn:E; [|done].
  rewrite (bind_ok _ _ _ _ _ E). destruct Hr as (Ei & _ & Ed & Eu & [(_ & Hb & Hal)|(_ & Hn & Hb)]).
  - split_and!; try done. left. lia.
  - split_and!; try done; [|by right]. apply Hb. lia.
Qed.
Lemma write_desc_spec pos d a h :
  wf a → 0 ≤ pos < items a →
  ∃ a', write_desc pos d (a, h) = (Ok tt, (a', h)) ∧ wf a' ∧ items a' = items a ∧
    descs a' = <[Z.to_nat pos := Some d]> (descs a) ∧ datas a' = datas a.
Proof.
  intros [Hd Hi Hl Hu] Hp. unfold write_desc, on_array. rewrite write_cell_ok by lia.
  eexists. split; [reflexivity|]. split; [split; cbn; rewrite ?length_insert; lia|].
  split_and!; [done| |done]. unfold descs. cbn. by rewrite take_insert_lt by lia.
Qed.

Lemma write_data_spec pos u a h :
  wf a → 0 ≤ pos < items a →
  ∃ a', write_data pos u (a, h) = (Ok tt, (a', h)) ∧ wf a' ∧ items a' = items a ∧
    descs a' = descs a ∧ datas a' = <[Z.to_nat pos := Some u]> (datas a).
Proof.
  intros [Hd Hi Hl Hu] Hp. unfold write_data, on_array. rewrite write_cell_ok by lia.
  eexists. split; [reflexivity|]. split; [split; cbn; rewrite ?length_insert; lia|].
  split_and!; [done..|]. unfold datas. cbn. by rewrite take_insert_lt by lia.
Qed.
End array.

(** When the second block cannot grow the first one has, and the next item is written behind
    the end of the second. *)
Lemma pr_poll_array_add_overflows :
  let a := pr_poll_array_init (D:=Z) (U:=Z) 8 in
  let h := [Some (λ _, x00); None] in
  ∃ a' h', pr_poll_array_add 0 0 (a, h) = (Ok (-1), (a', h')) ∧
    fst (pr_poll_array_add 0 0 (a', h')) = Err OUT_OF_BOUNDS.
Proof. eexists _, _. split; reflexivity. Qed.
