(* ===== verification/PrPollLoop.v ===== *)
(** The poll loop (pr-poll-loop.c): registered descriptors and callbacks, one round of it.

    Entries live in a store: a pointer to one is a number, and the store forgets an entry that
    was freed, so that following a pointer to it is an error of the model.  Callbacks are names;
    what they do - also to the loop itself - is given by [PollWorld], together with NSPR.  [W] is
    the rest of the program, [F] what a timer runs, [D] the data a callback gets. *)
From S2P Require Import Prelude TimerList PrPollArray.
From stdpp Require Import list gmap.
Local Open Scope Z_scope.

(** A pointer to memory that was freed is followed. *)
Definition USE_AFTER_FREE : Z := -1005.

(** ** Events of [poll] and of [PR_Poll] *)

Definition POLLIN : Z := 1.
Definition POLLPRI : Z := 2.
Definition POLLOUT : Z := 4.
Definition POLLERR : Z := 8.
Definition POLLHUP : Z := 16.
Definition POLLNVAL : Z := 32.

Definition PR_POLL_READ : Z := 1.
Definition PR_POLL_WRITE : Z := 2.
Definition PR_POLL_EXCEPT : Z := 4.
Definition PR_POLL_ERR : Z := 8.
Definition PR_POLL_NVAL : Z := 16.
Definition PR_POLL_HUP : Z := 32.

Definition has (flags flag : Z) : bool := negb (Z.land flags flag =? 0).
Definition flag_if (b : bool) (flag : Z) : Z := if b then flag else 0.

Definition poll_events_to_pr_events (events : Z) : Z :=
  let res := flag_if (has events POLLIN) PR_POLL_READ in
  let res := Z.lor res (flag_if (has events POLLOUT) PR_POLL_WRITE) in
  Z.lor res (flag_if (has events POLLPRI) PR_POLL_EXCEPT).

Definition pr_events_to_poll_events (events : Z) : Z :=
  let res := flag_if (has events PR_POLL_READ) POLLIN in
  let res := Z.lor res (flag_if (has events PR_POLL_WRITE) POLLOUT) in
  let res := Z.lor res (flag_if (has events PR_POLL_ERR) POLLERR) in
  let res := Z.lor res (flag_if (has events PR_POLL_NVAL) POLLNVAL) in
  let res := Z.lor res (flag_if (has events PR_POLL_HUP) POLLHUP) in
  Z.lor res (flag_if (has events PR_POLL_EXCEPT) POLLPRI).

(** [(events & ~(POLLIN|POLLOUT|POLLPRI)) != 0] *)
Definition invalid_events (events : Z) : bool :=
  has events (Z.lnot (Z.lor (Z.lor POLLIN POLLOUT) POLLPRI)).

(** ** The state *)

(** Pointers of NSPR; 0 is NULL. *)
Abbreviation PRFileDesc := Z (only parsing).

Record PRPollDesc := mk_poll_desc { pd_fd : PRFileDesc; in_flags : Z; out_flags : Z }.
Definition set_out_flags v (d : PRPollDesc) : PRPollDesc := mk_poll_desc (pd_fd d) (in_flags d) v.
Definition zero_desc : PRPollDesc := mk_poll_desc 0 0 0.

Section loop.
Context {C F W D : Type} `{EqDecision C}.

Record pr_poll_loop_fd_entry := mk_fd_entry {
  fd : Z;
  prfd : PRFileDesc;
  events : Z;
  fd_set_events_cb : option C;
  prfd_set_events_cb : option C;
  fd_read_cb : option C;
  prfd_read_cb : option C;
  fd_write_cb : option C;
  prfd_write_cb : option C;
  fd_err_cb : option C;
  prfd_err_cb : option C;
  user_data1 : D;
  user_data2 : D
}.

Record pr_poll_loop_pre_poll_cb_entry := mk_pre_poll_cb_entry {
  pre_poll_cb : option C;
  pre_user_data1 : D;
  pre_user_data2 : D
}.

(** All but the timers; user data of the array is a pointer to an entry, [None] is NULL. *)
Record pr_poll_loop := mk_poll_loop {
  fd_list : list nat;
  fd_store : gmap nat pr_poll_loop_fd_entry;
  pre_poll_cb_list : list nat;
  pre_poll_cb_store : gmap nat pr_poll_loop_pre_poll_cb_entry;
  poll_array : @pr_poll_array PRPollDesc (option nat);
  next_pointer : nat
}.

Definition set_fds l s (p : pr_poll_loop) : pr_poll_loop :=
  mk_poll_loop l s (pre_poll_cb_list p) (pre_poll_cb_store p) (poll_array p) (next_pointer p).
Definition set_pre_poll_cbs l s (p : pr_poll_loop) : pr_poll_loop :=
  mk_poll_loop (fd_list p) (fd_store p) l s (poll_array p) (next_pointer p).
Definition set_poll_array a (p : pr_poll_loop) : pr_poll_loop :=
  mk_poll_loop (fd_list p) (fd_store p) (pre_poll_cb_list p) (pre_poll_cb_store p) a (next_pointer p).
Definition set_next_pointer n (p : pr_poll_loop) : pr_poll_loop :=
  mk_poll_loop (fd_list p) (fd_store p) (pre_poll_cb_list p) (pre_poll_cb_store p) (poll_array p) n.

Abbreviation tlist := (@timer_list F).
Definition state : Type := tlist * heap * (pr_poll_loop * W).

Definition loop_of (s : state) : pr_poll_loop := fst (snd s).

Definition on_timers {A} (m : M (tlist * heap) A) : M state A := λ '(t, x),
  let '(r, t') := m t in (r, (t', x)).
Definition on_world {A} (m : M W A) : M state A := λ '(t, (p, w)),
  let '(r, w') := m w in (r, (t, (p, w'))).
Definition on_poll_array {A} (m : M (@pr_poll_array PRPollDesc (option nat) * heap) A) : M state A :=
  λ '(tl, h, (p, w)),
  let '(r, (a, h')) := m (poll_array p, h) in (r, (tl, h', (set_poll_array a p, w))).
Definition get_loop : M state pr_poll_loop := λ s, (Ok (loop_of s), s).
Definition modify_loop (f : pr_poll_loop → pr_poll_loop) : M state unit := λ '(t, (p, w)),
  (Ok tt, (t, (f p, w))).

(** What a callback is called with. *)
Inductive descriptor :=
| FD (fd : Z)
| PRFD (prfd : PRFileDesc) (pd : PRPollDesc).

(** NSPR and the callbacks; of [PR_Poll] the result and the [out_flags]. *)
Class PollWorld := {
  PR_CreateSocketPollFd : Z → M W PRFileDesc;
  PR_DestroySocketPollFd : PRFileDesc → M W unit;
  PR_Poll : list PRPollDesc → Z → M W (Z * list Z);
  call_pre_poll : C → D → D → M state Z;
  call_set_events : C → Z + PRFileDesc → Z → D → D → M state (Z * Z);
  call_read : C → descriptor → D → D → M state Z;
  call_write : C → descriptor → D → D → M state Z;
  call_err : C → descriptor → Z → D → D → M state Z;
  call_timer : F → M state Z
}.
Context `{PollWorld}.
Context (PR_MillisecondsToInterval : Z → Z) (PR_INTERVAL_NO_TIMEOUT : Z).

Definition deref_fd_entry (p : nat) : M state pr_poll_loop_fd_entry :=
  l ← get_loop;
  match fd_store l !! p with Some e => mret e | None => fail USE_AFTER_FREE end.

Definition deref_pre_poll_cb_entry (p : nat) : M state pr_poll_loop_pre_poll_cb_entry :=
  l ← get_loop;
  match pre_poll_cb_store l !! p with Some e => mret e | None => fail USE_AFTER_FREE end.

(** [malloc] of an entry. *)
Definition new_pointer : M state (option nat) := λ '(tl, h, (p, w)),
  match malloc h with
  | (None, h) => (Ok None, (tl, h, (p, w)))
  | (Some _, h) => (Ok (Some (next_pointer p)), (tl, h, (set_next_pointer (S (next_pointer p)) p, w)))
  end.

(** [TAILQ_NEXT] of an entry of the list. *)
Definition next_in (p : nat) (l : list nat) : option nat :=
  match list_find (p =.) l with Some (i, _) => l !! S i | None => None end.

(** ** Registration *)

Definition one_descriptor (fd : Z) (prfd : PRFileDesc) : bool :=
  (negb (prfd =? 0) && (fd =? -1)) || (negb (fd =? -1) && (prfd =? 0)).

Fixpoint find_by_fd_loop (l : list nat) (fd' : Z) (prfd' : PRFileDesc) : M state (option nat) :=
  match l with
  | [] => mret None
  | p :: l' =>
      e ← deref_fd_entry p;
      if negb (fd' =? -1)
      then if fd e =? fd' then mret (Some p) else find_by_fd_loop l' fd' prfd'
      else if prfd e =? prfd' then mret (Some p) else find_by_fd_loop l' fd' prfd'
  end.

Definition pr_poll_loop_find_by_fd (fd' : Z) (prfd' : PRFileDesc) : M state (option nat) :=
  if negb (one_descriptor fd' prfd') then fail ASSERT
  else l ← get_loop; find_by_fd_loop (fd_list l) fd' prfd'.

Fixpoint find_pre_poll_cb_loop (l : list nat) (cb : option C) : M state (option nat) :=
  match l with
  | [] => mret None
  | p :: l' =>
      e ← deref_pre_poll_cb_entry p;
      if bool_decide (pre_poll_cb e = cb) then mret (Some p) else find_pre_poll_cb_loop l' cb
  end.

Definition pr_poll_loop_find_pre_poll_cb (cb : option C) : M state (option nat) :=
  l ← get_loop; find_pre_poll_cb_loop (pre_poll_cb_list l) cb.

(** The descriptor for [PR_Poll]: 0 when there is none. *)
Definition entry_prfd (fd' : Z) (prfd' : PRFileDesc) : M state PRFileDesc :=
  if negb (fd' =? -1) then on_world (PR_CreateSocketPollFd fd') else mret prfd'.

Definition pr_poll_loop_add_fd_int (fd' : Z) (prfd' : PRFileDesc) (events' : Z)
    (fd_set_events prfd_set_events fd_read prfd_read fd_write prfd_write fd_err prfd_err : option C)
    (user_data1' user_data2' : D) : M state Z :=
  if negb (one_descriptor fd' prfd') then fail ASSERT
  else if invalid_events events' then mret (-1)
  else
    found ← pr_poll_loop_find_by_fd fd' prfd';
    match found with
    | Some _ => mret (-1)
    | None =>
        new_entry ← new_pointer;
        match new_entry with
        | None => mret (-1)
        | Some p =>
            desc ← entry_prfd fd' prfd';
            if desc =? 0 then mret (-1)
            else
              modify_loop (λ l, set_fds (fd_list l ++ [p])
                (<[p := mk_fd_entry fd' desc events' fd_set_events prfd_set_events fd_read prfd_read
                          fd_write prfd_write fd_err prfd_err user_data1' user_data2']> (fd_store l)) l);;
              mret 0
        end
    end.

Definition pr_poll_loop_add_fd (fd' : Z) (events' : Z) (set_events read write err : option C)
    (user_data1' user_data2' : D) : M state Z :=
  pr_poll_loop_add_fd_int fd' 0 events' set_events None read None write None err None
    user_data1' user_data2'.

Definition pr_poll_loop_add_prfd (prfd' : PRFileDesc) (events' : Z)
    (set_events read write err : option C) (user_data1' user_data2' : D) : M state Z :=
  pr_poll_loop_add_fd_int (-1) prfd' events' None set_events None read None write None err
    user_data1' user_data2'.

(** [TAILQ_REMOVE] and [free]. *)
Definition remove_fd_entry (p : nat) : M state unit :=
  modify_loop (λ l, set_fds (filter (p ≠.) (fd_list l)) (delete p (fd_store l)) l).

Definition pr_poll_loop_del_fd_int (fd' : Z) (prfd' : PRFileDesc) : M state Z :=
  found ← pr_poll_loop_find_by_fd fd' prfd';
  match found with
  | None => mret (-1)
  | Some p =>
      e ← deref_fd_entry p;
      (if negb (fd e =? -1) then on_world (PR_DestroySocketPollFd (prfd e)) else mret tt);;
      remove_fd_entry p;;
      mret 0
  end.

Definition pr_poll_loop_del_fd (fd' : Z) : M state Z := pr_poll_loop_del_fd_int fd' 0.
Definition pr_poll_loop_del_prfd (prfd' : PRFileDesc) : M state Z :=
  pr_poll_loop_del_fd_int (-1) prfd'.

Definition pr_poll_loop_add_pre_poll_cb (cb : option C) (user_data1' user_data2' : D) : M state Z :=
  found ← pr_poll_loop_find_pre_poll_cb cb;
  match found with
  | Some _ => mret (-1)
  | None =>
      new_entry ← new_pointer;
      match new_entry with
      | None => mret (-1)
      | Some p =>
          modify_loop (λ l, set_pre_poll_cbs (pre_poll_cb_list l ++ [p])
            (<[p := mk_pre_poll_cb_entry cb user_data1' user_data2']> (pre_poll_cb_store l)) l);;
          mret 0
      end
  end.

Definition pr_poll_loop_del_pre_poll_cb (cb : option C) : M state Z :=
  found ← pr_poll_loop_find_pre_poll_cb cb;
  match found with
  | None => mret (-1)
  | Some p =>
      modify_loop (λ l, set_pre_poll_cbs (filter (p ≠.) (pre_poll_cb_list l))
                          (delete p (pre_poll_cb_store l)) l);;
      mret 0
  end.

(** ** A round *)

Definition run_pre_poll_cb (e : pr_poll_loop_pre_poll_cb_entry) : M state Z :=
  match pre_poll_cb e with
  | Some cb => call_pre_poll cb (pre_user_data1 e) (pre_user_data2 e)
  | None => mret 0
  end.

Fixpoint pre_poll_cbs_loop (fuel : nat) (entry : option nat) : M state Z :=
  match entry with
  | None => mret 0
  | Some p =>
      match fuel with
      | O => fail OUT_OF_FUEL
      | S fuel =>
          e ← deref_pre_poll_cb_entry p;
          l ← get_loop;
          let entry_next := next_in p (pre_poll_cb_list l) in
          res ← run_pre_poll_cb e;
          if res =? 0 then pre_poll_cbs_loop fuel entry_next
          else mret (if res =? -1 then -1 else -2)
      end
  end.

Definition run_set_events_cb (e : pr_poll_loop_fd_entry) : M state (Z * Z) :=
  match fd_set_events_cb e, prfd_set_events_cb e with
  | Some cb, _ => call_set_events cb (inl (fd e)) (events e) (user_data1 e) (user_data2 e)
  | None, Some cb => call_set_events cb (inr (prfd e)) (events e) (user_data1 e) (user_data2 e)
  | None, None => mret (0, events e)
  end.

(** The item of an entry; the result is that of [pr_poll_array_add]. *)
Definition add_to_array (p : nat) (events : Z) : M state Z :=
  pos ← on_poll_array (pr_poll_array_add zero_desc None);
  if pos <? 0 then mret pos
  else
    e ← deref_fd_entry p;
    on_poll_array (write_desc pos (mk_poll_desc (prfd e) (poll_events_to_pr_events events) 0));;
    on_poll_array (write_data pos (Some p));;
    mret pos.

Fixpoint fill_array_loop (fuel : nat) (entry : option nat) : M state Z :=
  match entry with
  | None => mret 0
  | Some p =>
      match fuel with
      | O => fail OUT_OF_FUEL
      | S fuel =>
          e ← deref_fd_entry p;
          l ← get_loop;
          let entry_next := next_in p (fd_list l) in
          '(res, events) ← run_set_events_cb e;
          if invalid_events events then mret (-2)
          else
            let res := if (res =? 0) && (events =? 0) then -1 else res in
            if res =? 0 then
              pos ← add_to_array p events;
              if pos <? 0 then mret (-1) else fill_array_loop fuel entry_next
            else if res =? -1 then fill_array_loop fuel entry_next
            else mret (if res =? -2 then -1 else -2)
      end
  end.

Definition prepare_poll_array : M state Z :=
  modify_loop (λ l, set_poll_array (pr_poll_array_clean (poll_array l)) l);;
  l ← get_loop;
  res ← pre_poll_cbs_loop (length (pre_poll_cb_list l)) (head (pre_poll_cb_list l));
  if negb (res =? 0) then mret res
  else
    l ← get_loop;
    res ← fill_array_loop (length (fd_list l)) (head (fd_list l));
    if negb (res =? 0) then mret res
    else on_poll_array pr_poll_array_gc;; mret 0.

(** The item of the array at [i] and the entry it belongs to. *)
Definition item_desc (i : Z) : M state PRPollDesc :=
  l ← get_loop;
  match read_cell i (array (poll_array l)) with Some d => mret d | None => fail OUT_OF_BOUNDS end.

Definition item_entry (i : Z) : M state nat :=
  l ← get_loop;
  match pr_poll_array_get_user_data (poll_array l) i with
  | None => fail NULL_DEREF
  | Some pos =>
      match read_cell pos (user_data_array (poll_array l)) with
      | Some (Some p) => mret p
      | Some None => fail NULL_DEREF
      | None => fail OUT_OF_BOUNDS
      end
  end.

(** One of the callbacks of an entry, of the two kinds the one that is set. *)
Definition call_either (fd_cb prfd_cb : pr_poll_loop_fd_entry → option C)
    (call : C → descriptor → D → D → M state Z) (i : Z) (e : pr_poll_loop_fd_entry) : M state Z :=
  match fd_cb e, prfd_cb e with
  | Some cb, _ => call cb (FD (fd e)) (user_data1 e) (user_data2 e)
  | None, Some cb =>
      pd ← item_desc i;
      call cb (PRFD (prfd e) pd) (user_data1 e) (user_data2 e)
  | None, None => mret 0
  end.

(** The entry is looked at only when the flags of the item ask for it. *)
Definition call_if_flagged (flagged : Z → bool) (fd_cb prfd_cb : pr_poll_loop_fd_entry → option C)
    (call : Z → C → descriptor → D → D → M state Z) (i : Z) (p : nat) : M state Z :=
  pd ← item_desc i;
  if flagged (out_flags pd) then
    e ← deref_fd_entry p;
    call_either fd_cb prfd_cb (call (out_flags pd)) i e
  else mret 0.

Definition read_flagged (flags : Z) : bool := has flags PR_POLL_READ.
Definition write_flagged (flags : Z) : bool := has flags PR_POLL_WRITE.
Definition err_flagged (flags : Z) : bool :=
  has flags (Z.lor (Z.lor (Z.lor PR_POLL_ERR PR_POLL_NVAL) PR_POLL_HUP) PR_POLL_EXCEPT) &&
  negb (has flags (Z.lor PR_POLL_READ PR_POLL_WRITE)).

Definition call_err_with (flags : Z) (cb : C) (d : descriptor) : D → D → M state Z :=
  call_err cb d (pr_events_to_poll_events flags).

(** [-1] when a callback does not return 0. *)
Fixpoint dispatch_loop (fuel : nat) (i : Z) : M state Z :=
  l ← get_loop;
  if negb (i <? pr_poll_array_size (poll_array l)) then mret 0
  else
    match fuel with
    | O => fail OUT_OF_FUEL
    | S fuel =>
        p ← item_entry i;
        cb_res ← call_if_flagged read_flagged fd_read_cb prfd_read_cb (λ _, call_read) i p;
        if negb (cb_res =? 0) then mret (-1)
        else
          cb_res ← call_if_flagged write_flagged fd_write_cb prfd_write_cb (λ _, call_write) i p;
          if negb (cb_res =? 0) then mret (-1)
          else
            cb_res ← call_if_flagged err_flagged fd_err_cb prfd_err_cb call_err_with i p;
            if negb (cb_res =? 0) then mret (-1) else dispatch_loop fuel (i + 1)
    end.

(** The descriptors [PR_Poll] gets: the first [items] cells of the array. *)
Definition polled_descs (l : pr_poll_loop) : option (list PRPollDesc) :=
  mapM id (descs (poll_array l)).

(** What [PR_Poll] stores in the array. *)
Definition store_out_flags (outs : list Z) (l : pr_poll_loop) : pr_poll_loop :=
  set_poll_array (set_array (imap (λ i d, match outs !! i with
                                          | Some v => set_out_flags v <$> d
                                          | None => d
                                          end) (array (poll_array l))) (poll_array l)) l.

Definition poll_descriptors : M state Z :=
  l ← get_loop;
  match polled_descs l with
  | None => fail OUT_OF_BOUNDS
  | Some pfds =>
      timeout ← on_timers (on_list (timer_list_time_to_expire PR_INTERVAL_NO_TIMEOUT));
      '(poll_res, outs) ← on_world (PR_Poll pfds timeout);
      modify_loop (store_out_flags (take (length pfds) outs));;
      mret poll_res
  end.

Definition expire_timers : M state unit := λ s,
  timer_list_expire PR_MillisecondsToInterval call_timer (S (TimerList.size (fst (fst s)))) s.

Definition pr_poll_loop_exec : M state Z :=
  res ← prepare_poll_array;
  if negb (res =? 0) then mret res
  else
    poll_res ← poll_descriptors;
    l ← get_loop;
    cb_res ← (if 0 <? poll_res
              then dispatch_loop (Z.to_nat (pr_poll_array_size (poll_array l))) 0 else mret 0);
    if negb (cb_res =? 0) then mret (-1)
    else if poll_res =? -1 then mret (-3)
    else expire_timers;; mret 0.

(** ** The whole loop *)

Definition pr_poll_loop_init : pr_poll_loop :=
  mk_poll_loop [] ∅ [] ∅ (pr_poll_array_init 8) 0.

Fixpoint destroy_fd_entries (l : list nat) : M state unit :=
  match l with
  | [] => mret tt
  | p :: l' =>
      e ← deref_fd_entry p;
      (if negb (fd e =? -1) then on_world (PR_DestroySocketPollFd (prfd e)) else mret tt);;
      destroy_fd_entries l'
  end.

Definition pr_poll_loop_destroy : M state Z :=
  l ← get_loop;
  destroy_fd_entries (fd_list l);;
  modify_loop (λ l, set_poll_array (pr_poll_array_destroy (poll_array l))
    (set_pre_poll_cbs [] ∅ (set_fds [] ∅ l)));;
  on_timers (on_list timer_list_free);;
  mret 0.
End loop.
