(* ===== verification/PrPollLoopFacts.v ===== *)
(** What a round of the poll loop does when the callbacks keep to its rules: the array holds the
    entries that want to be polled, in order; every callback that is due is called, in order,
    and no pointer to a freed entry is followed. *)
From S2P Require Import Prelude TimerList TimerListFacts PrPollArray PrPollLoop.
From stdpp Require Import list gmap.
Local Open Scope Z_scope.

Section facts.
Context {C F W D : Type} `{EqDecision C} `{PollWorld C F W D}.
Context (PR_MillisecondsToInterval : Z → Z) (PR_INTERVAL_NO_TIMEOUT : Z).
Abbreviation state := (@state C F W D).
Abbreviation loop := (@pr_poll_loop C D).
Abbreviation entry := (@pr_poll_loop_fd_entry C D).

(** ** The callbacks that are due *)

Inductive call_kind := READ_CALL | WRITE_CALL | ERR_CALL.

Definition kind_flagged (k : call_kind) : Z → bool :=
  match k with READ_CALL => read_flagged | WRITE_CALL => write_flagged | ERR_CALL => err_flagged end.

Definition kind_fd_cb (k : call_kind) : entry → option C :=
  match k with READ_CALL => fd_read_cb | WRITE_CALL => fd_write_cb | ERR_CALL => fd_err_cb end.
Definition kind_prfd_cb (k : call_kind) : entry → option C :=
  match k with READ_CALL => prfd_read_cb | WRITE_CALL => prfd_write_cb | ERR_CALL => prfd_err_cb end.
Definition kind_call (k : call_kind) (flags : Z) : C → descriptor → D → D → M state Z :=
  match k with READ_CALL => call_read | WRITE_CALL => call_write | ERR_CALL => call_err_with flags end.

(** An item of the array: a pointer to an entry, the entry, what [PR_Poll] said. *)
Abbreviation item := (nat * entry * PRPollDesc)%type.
Definition item_pointer (x : item) : nat := fst (fst x).

Definition run_call (k : call_kind) (x : item) : M state Z :=
  let '(_, e, pd) := x in
  match kind_fd_cb k e, kind_prfd_cb k e with
  | Some cb, _ => kind_call k (out_flags pd) cb (FD (fd e)) (user_data1 e) (user_data2 e)
  | None, Some cb => kind_call k (out_flags pd) cb (PRFD (prfd e) pd) (user_data1 e) (user_data2 e)
  | None, None => mret 0
  end.

Definition calls_of_item (x : item) : list (call_kind * item) :=
  (., x) <$> filter (λ k, kind_flagged k (out_flags (snd x)) = true) [READ_CALL; WRITE_CALL; ERR_CALL].

(** Calls in order, up to one that does not return 0. *)
Fixpoint run_calls (l : list (call_kind * item)) : M state Z :=
  match l with
  | [] => mret 0
  | (k, x) :: l' => r ← run_call k x; if negb (r =? 0) then mret (-1) else run_calls l'
  end.

(** ** The rules *)

(** The items of the array. *)
Definition holds (l : loop) (xs : list item) : Prop :=
  descs (poll_array l) = (λ x, Some (snd x)) <$> xs ∧
  datas (poll_array l) = (λ x, Some (Some (item_pointer x))) <$> xs ∧
  items (poll_array l) = Z.of_nat (length xs) ∧
  NoDup (item_pointer <$> xs).

Definition live (l : loop) (x : item) : Prop := fd_store l !! item_pointer x = Some (fst x).2.

(** A callback for the entry [p] leaves the array as it is, and the entries in it that are alive;
    only the entry of a callback that is the last one for its item may go. *)
Definition keeps_items (k : call_kind) (p : nat) (l l' : loop) : Prop :=
  poll_array l' = poll_array l ∧
  ∀ q e, Some (Some q) ∈ datas (poll_array l) → k = READ_CALL ∨ q ≠ p →
    fd_store l !! q = Some e → fd_store l' !! q = Some e.

Context (Inv : @timer_list F → loop → W → Prop).

Definition inv (s : state) : Prop := Inv (fst (fst s)) (loop_of s) (snd (snd s)).

Definition call_rule : Prop := ∀ s k x,
  inv s → live (loop_of s) x → Some (Some (item_pointer x)) ∈ datas (poll_array (loop_of s)) →
  match run_call k x s with
  | (Ok _, s') => inv s' ∧ keeps_items k (item_pointer x) (loop_of s) (loop_of s')
  | (Err c, _) => c = EXIT
  end.
Hypothesis Hcall : call_rule.

(** ** Dispatching *)

Lemma deref_fd_entry_ok (s : state) p e :
  fd_store (loop_of s) !! p = Some e → deref_fd_entry p s = (Ok e, s).
Proof. intros E. unfold deref_fd_entry. rewrite (bind_ok get_loop _ s _ s eq_refl). by rewrite E. Qed.

Lemma holds_item (l : loop) xs i x :
  holds l xs → xs !! i = Some x →
  read_cell (Z.of_nat i) (array (poll_array l)) = Some (snd x) ∧
  read_cell (Z.of_nat i) (user_data_array (poll_array l)) = Some (Some (item_pointer x)) ∧
  Some (Some (item_pointer x)) ∈ datas (poll_array l).
Proof.
  intros (Hd & Hu & Hn & _) Hx. pose proof (lookup_lt_Some _ _ _ Hx).
  assert (Hcell : ∀ {A} (c : list (option A)) (v : A),
    take (Z.to_nat (items (poll_array l))) c !! i = Some (Some v) → read_cell (Z.of_nat i) c = Some v).
  { intros A c v Hc. unfold read_cell. destruct (Z.leb_spec 0 (Z.of_nat i)); [|lia].
    rewrite lookup_take_Some in Hc. destruct Hc as [Hc _]. rewrite Nat2Z.id. by rewrite Hc. }
  split_and!.
  - apply Hcell. fold (descs (poll_array l)). by rewrite Hd, list_lookup_fmap, Hx.
  - apply Hcell. fold (datas (poll_array l)). by rewrite Hu, list_lookup_fmap, Hx.
  - rewrite Hu. by apply (list_elem_of_fmap_2 (λ x, Some (Some (item_pointer x)))), list_elem_of_lookup_2 with i.
Qed.

Lemma item_desc_ok (s : state) xs i x :
  holds (loop_of s) xs → xs !! i = Some x → item_desc (Z.of_nat i) s = (Ok (snd x), s).
Proof.
  intros Hh Hx. unfold item_desc. rewrite (bind_ok get_loop _ s _ s eq_refl).
  by destruct (holds_item _ _ _ _ Hh Hx) as (-> & _).
Qed.

Lemma item_entry_ok (s : state) xs i x :
  holds (loop_of s) xs → xs !! i = Some x → item_entry (Z.of_nat i) s = (Ok (item_pointer x), s).
Proof.
  intros Hh Hx. unfold item_entry. rewrite (bind_ok get_loop _ s _ s eq_refl).
  destruct (holds_item _ _ _ _ Hh Hx) as (_ & Hu & _). unfold pr_poll_array_get_user_data.
  pose proof (lookup_lt_Some _ _ _ Hx). destruct Hh as (_ & _ & Hn & _).
  destruct (Z.leb_spec (items (poll_array (loop_of s))) (Z.of_nat i)); [lia|]. by rewrite Hu.
Qed.

Definition call_of_kind (k : call_kind) : Z → nat → M state Z :=
  call_if_flagged (kind_flagged k) (kind_fd_cb k) (kind_prfd_cb k) (kind_call k).

Lemma call_of_kind_ok (s : state) xs i x k :
  holds (loop_of s) xs → xs !! i = Some x →
  (kind_flagged k (out_flags (snd x)) = true → live (loop_of s) x) →
  call_of_kind k (Z.of_nat i) (item_pointer x) s =
  (if kind_flagged k (out_flags (snd x)) then run_call k x else mret 0) s.
Proof.
  intros Hh Hx Hl. unfold call_of_kind, call_if_flagged.
  rewrite (bind_ok _ _ _ _ _ (item_desc_ok s xs i x Hh Hx)).
  destruct (kind_flagged k _); [|done].
  rewrite (bind_ok _ _ _ _ _ (deref_fd_entry_ok s _ _ (Hl eq_refl))).
  destruct x as [[p e] pd]. unfold call_either, run_call. cbn [fst snd].
  destruct (kind_fd_cb k e), (kind_prfd_cb k e); try done.
  by rewrite (bind_ok _ _ _ _ _ (item_desc_ok s xs i _ Hh Hx)).
Qed.

Lemma err_not_write flags : err_flagged flags = true → write_flagged flags = false.
Proof.
  unfold err_flagged, write_flagged, has. intros [_ Hn]%andb_prop.
  apply negb_true_iff, negb_false_iff, Z.eqb_eq in Hn.
  apply negb_false_iff, Z.eqb_eq. change (Z.lor PR_POLL_READ PR_POLL_WRITE) with 3 in Hn.
  change PR_POLL_WRITE with (Z.land 3 2). by rewrite Z.land_assoc, Hn.
Qed.

(** The state in the middle of the dispatch: the items from [i] on are alive. *)
Record dispatching (xs : list item) (i : nat) (s : state) : Prop := {
  ds_inv : inv s;
  ds_wf : wf (poll_array (loop_of s));
  ds_holds : holds (loop_of s) xs;
  ds_live : ∀ j x, (i ≤ j)%nat → xs !! j = Some x → live (loop_of s) x
}.

Lemma dispatching_call xs i x s k :
  dispatching xs i s → xs !! i = Some x →
  match run_call k x s with
  | (Ok _, s') => dispatching xs (S i) s' ∧ (k = READ_CALL → dispatching xs i s')
  | (Err c, _) => c = EXIT
  end.
Proof.
  intros [Hi Hw Hh Hl] Hx. destruct (holds_item _ _ _ _ Hh Hx) as (_ & _ & Hin).
  pose proof (Hcall s k x Hi (Hl i x ltac:(lia) Hx) Hin) as Hc.
  destruct (run_call k x s) as [[r|c] s']; [|done]. destruct Hc as (Hi' & Ha & Hs).
  assert (Hh' : holds (loop_of s') xs) by (unfold holds; by rewrite Ha).
  rewrite <-Ha in Hw.
  assert (Hkeep : ∀ j y, (i ≤ j)%nat → xs !! j = Some y → k = READ_CALL ∨ i ≠ j → live (loop_of s') y).
  { intros j y Hj Hy Hk. apply Hs.
    - by destruct (holds_item _ _ _ _ Hh Hy) as (_ & _ & ?).
    - destruct Hk as [->|Hne]; [by left|]. right. intros E. apply Hne.
      destruct Hh as (_ & _ & _ & Hnd). eapply NoDup_lookup; [exact Hnd|..];
        rewrite list_lookup_fmap, ?Hx, ?Hy; cbn; by rewrite ?E.
    - by apply (Hl j). }
  split; [|intros ->]; split; try done.
  - intros j y Hj Hy. apply (Hkeep j y); [lia|done|right; lia].
  - intros j y Hj Hy. apply (Hkeep j y); [lia|done|by left].
Qed.

Lemma dispatching_S xs i s : dispatching xs i s → dispatching xs (S i) s.
Proof. intros [? ? ? Hl]. split; [done..|]. intros j x Hj. apply Hl. lia. Qed.

(** One kind of callback of an item, and the rest. *)
Lemma dispatch_kind xs i x s k (next next' : M state Z) :
  dispatching xs i s → xs !! i = Some x →
  (∀ s', dispatching xs (S i) s' →
     (k = READ_CALL ∨ kind_flagged k (out_flags (snd x)) = false → dispatching xs i s') →
     next s' = next' s') →
  (r ← call_of_kind k (Z.of_nat i) (item_pointer x); if negb (r =? 0) then mret (-1) else next) s =
  (if kind_flagged k (out_flags (snd x))
   then r ← run_call k x; if negb (r =? 0) then mret (-1) else next' else next') s.
Proof.
  intros Hd Hx Hn. pose proof (call_of_kind_ok s xs i x k (ds_holds _ _ _ Hd) Hx
    (λ _, ds_live _ _ _ Hd i x (le_n i) Hx)) as E.
  destruct (kind_flagged k _) eqn:Hf.
  - pose proof (dispatching_call xs i x s k Hd Hx) as Hc.
    destruct (run_call k x s) as [[r|c] s'] eqn:Er.
    + rewrite (bind_ok _ _ _ _ _ E), (bind_ok _ _ _ _ _ Er). destruct (negb _); [done|].
      apply Hn; [apply Hc|]. intros [Hk|?]; [by apply Hc|done].
    + by rewrite (bind_err _ _ _ _ _ E), (bind_err _ _ _ _ _ Er).
  - rewrite (bind_ok _ _ _ _ _ E). apply Hn; [by apply dispatching_S|done].
Qed.

Lemma call_of_kind_dead xs i x s k :
  holds (loop_of s) xs → xs !! i = Some x → kind_flagged k (out_flags (snd x)) = false →
  call_of_kind k (Z.of_nat i) (item_pointer x) s = (Ok 0, s).
Proof. intros Hh Hx Hf. rewrite (call_of_kind_ok s xs i x k Hh Hx); by rewrite Hf. Qed.

Lemma run_calls_cons_if (b : bool) k x l s :
  run_calls ((if b then [(k, x)] else []) ++ l) s =
  (if b then r ← run_call k x; if negb (r =? 0) then mret (-1) else run_calls l else run_calls l) s.
Proof. by destruct b. Qed.

Lemma calls_of_item_eq x :
  calls_of_item x =
  (if kind_flagged READ_CALL (out_flags (snd x)) then [(READ_CALL, x)] else []) ++
  (if kind_flagged WRITE_CALL (out_flags (snd x)) then [(WRITE_CALL, x)] else []) ++
  (if kind_flagged ERR_CALL (out_flags (snd x)) then [(ERR_CALL, x)] else []).
Proof.
  unfold calls_of_item. rewrite !filter_cons, filter_nil.
  by destruct (kind_flagged READ_CALL _), (kind_flagged WRITE_CALL _), (kind_flagged ERR_CALL _).
Qed.

Definition all_calls (xs : list item) : list (call_kind * item) := concat (calls_of_item <$> xs).

Lemma dispatch_item xs i x s (next : M state Z) l :
  dispatching xs i s → xs !! i = Some x →
  (∀ s', dispatching xs (S i) s' → next s' = run_calls l s') →
  (r ← call_of_kind READ_CALL (Z.of_nat i) (item_pointer x);
   if negb (r =? 0) then mret (-1)
   else
     r ← call_of_kind WRITE_CALL (Z.of_nat i) (item_pointer x);
     if negb (r =? 0) then mret (-1)
     else
       r ← call_of_kind ERR_CALL (Z.of_nat i) (item_pointer x);
       if negb (r =? 0) then mret (-1) else next) s =
  run_calls (calls_of_item x ++ l) s.
Proof.
  intros Hd Hx Hn. rewrite calls_of_item_eq, <-!app_assoc, run_calls_cons_if.
  apply (dispatch_kind xs i x s READ_CALL); [done..|]. intros s1 _ Hd1.
  specialize (Hd1 (or_introl eq_refl)). rewrite run_calls_cons_if.
  apply (dispatch_kind xs i x s1 WRITE_CALL); [done..|]. intros s2 Hd2 Hd2'.
  rewrite run_calls_cons_if. destruct (kind_flagged WRITE_CALL (out_flags (snd x))) eqn:Hw.
  - assert (He : kind_flagged ERR_CALL (out_flags (snd x)) = false).
    { destruct (kind_flagged ERR_CALL _) eqn:He; [|done]. apply err_not_write in He. cbn in Hw. congruence. }
    rewrite (bind_ok _ _ _ _ _ (call_of_kind_dead xs i x s2 ERR_CALL (ds_holds _ _ _ Hd2) Hx He)), He.
    by apply Hn.
  - apply (dispatch_kind xs i x s2 ERR_CALL); [by apply Hd2'; right|done|].
    intros s3 Hd3 _. by apply Hn.
Qed.

Lemma dispatch_loop_calls fuel xs i s :
  dispatching xs i s → (length xs ≤ i + fuel)%nat →
  dispatch_loop fuel (Z.of_nat i) s = run_calls (all_calls (drop i xs)) s.
Proof.
  revert i s. induction fuel as [|fuel IH]; intros i s Hd Hf; cbn [dispatch_loop];
    rewrite (bind_ok get_loop _ s _ s eq_refl); unfold pr_poll_array_size;
    pose proof (ds_holds _ _ _ Hd) as (_ & _ & Hn & _); rewrite Hn;
    destruct (Z.ltb_spec (Z.of_nat i) (Z.of_nat (length xs))) as [Hlt|Hge]; [lia| | |];
    try (by rewrite drop_ge by lia).
  cbn [negb].
  destruct (lookup_lt_is_Some_2 xs i) as [x Hx]; [lia|].
  rewrite (bind_ok _ _ _ _ _ (item_entry_ok s xs i x (ds_holds _ _ _ Hd) Hx)).
  rewrite (drop_S xs x i Hx). unfold all_calls. cbn [fmap list_fmap concat].
  apply (dispatch_item xs i x s); [done..|]. intros s' Hd'.
  replace (Z.of_nat i + 1) with (Z.of_nat (S i)) by lia. apply IH; [done|lia].
Qed.

(** ** The dispatch ends *)

(** A result of the loop, or the end of the process by a callback. *)
Definition ends_well (P : Z → state → Prop) (m : M state Z) (s : state) : Prop :=
  match m s with (Ok r, s') => P r s' | (Err c, _) => c = EXIT end.

Definition call_ended (r : Z) (s : state) : Prop := (r = 0 ∨ r = -1) ∧ inv s ∧ wf (poll_array (loop_of s)).

Lemma run_call_ends xs i x s k l :
  dispatching xs i s → xs !! i = Some x →
  (∀ s', dispatching xs (S i) s' → (k = READ_CALL → dispatching xs i s') →
     ends_well call_ended (run_calls l) s') →
  ends_well call_ended (r ← run_call k x; if negb (r =? 0) then mret (-1) else run_calls l) s.
Proof.
  intros Hd Hx Hn. unfold ends_well. pose proof (dispatching_call xs i x s k Hd Hx) as Hc.
  destruct (run_call k x s) as [[r|c] s'] eqn:Er.
  - rewrite (bind_ok _ _ _ _ _ Er). destruct Hc as [Hc Hc'].
    destruct (negb _); [split; [by right|split; apply Hc]|]. by apply Hn.
  - by rewrite (bind_err _ _ _ _ _ Er).
Qed.

Lemma run_item_ends xs i x s l :
  dispatching xs i s → xs !! i = Some x →
  (∀ s', dispatching xs (S i) s' → ends_well call_ended (run_calls l) s') →
  ends_well call_ended (run_calls (calls_of_item x ++ l)) s.
Proof.
  intros Hd Hx Hn. rewrite calls_of_item_eq, <-!app_assoc.
  assert (Herr : ∀ s', dispatching xs i s' → ends_well call_ended (run_calls
    ((if kind_flagged ERR_CALL (out_flags (snd x)) then [(ERR_CALL, x)] else []) ++ l)) s').
  { intros s' Hd'. unfold ends_well. rewrite run_calls_cons_if.
    destruct (kind_flagged ERR_CALL _); [|by apply Hn, dispatching_S].
    apply (run_call_ends xs i x s' ERR_CALL); [done..|]. intros s1 Hd1 _. by apply Hn. }
  assert (Hwr : ∀ s', dispatching xs i s' → ends_well call_ended (run_calls
    ((if kind_flagged WRITE_CALL (out_flags (snd x)) then [(WRITE_CALL, x)] else []) ++
     (if kind_flagged ERR_CALL (out_flags (snd x)) then [(ERR_CALL, x)] else []) ++ l)) s').
  { intros s' Hd'. unfold ends_well. rewrite run_calls_cons_if.
    destruct (kind_flagged WRITE_CALL _) eqn:Hw; [|by apply Herr].
    assert (He : kind_flagged ERR_CALL (out_flags (snd x)) = false).
    { destruct (kind_flagged ERR_CALL _) eqn:He; [|done]. apply err_not_write in He. cbn in Hw. congruence. }
    rewrite He. apply (run_call_ends xs i x s' WRITE_CALL); [done..|]. intros s1 Hd1 _. by apply Hn. }
  unfold ends_well. rewrite run_calls_cons_if. destruct (kind_flagged READ_CALL _); [|by apply Hwr].
  apply (run_call_ends xs i x s READ_CALL); [done..|]. intros s1 _ Hd1. by apply Hwr, Hd1.
Qed.

Lemma run_calls_ends n xs i s :
  dispatching xs i s → length xs = (i + n)%nat →
  ends_well call_ended (run_calls (all_calls (drop i xs))) s.
Proof.
  revert i s. induction n as [|n IH]; intros i s Hd Hl.
  - rewrite drop_ge by lia. split; [by left|split; apply Hd].
  - destruct (lookup_lt_is_Some_2 xs i) as [x Hx]; [lia|]. rewrite (drop_S xs x i Hx).
    apply (run_item_ends xs i x s); [done..|]. intros s' Hd'. apply IH; [done|lia].
Qed.

(** ** Preparing the array *)

(** The entries of the lists are alive. *)
Record loop_ok (l : loop) : Prop := {
  lo_fds : NoDup (fd_list l);
  lo_fd_store : ∀ p, p ∈ fd_list l → is_Some (fd_store l !! p);
  lo_pre : NoDup (pre_poll_cb_list l);
  lo_pre_store : ∀ p, p ∈ pre_poll_cb_list l → is_Some (pre_poll_cb_store l !! p)
}.

(** A callback that is called before polling may change the descriptors, and end its own
    registration. *)
Definition pre_rule : Prop := ∀ s p e,
  inv s → loop_ok (loop_of s) → pre_poll_cb_store (loop_of s) !! p = Some e →
  match run_pre_poll_cb e s with
  | (Ok _, s') =>
      inv s' ∧ loop_ok (loop_of s') ∧ poll_array (loop_of s') = poll_array (loop_of s) ∧
      (pre_poll_cb_list (loop_of s') = pre_poll_cb_list (loop_of s) ∨
       pre_poll_cb_list (loop_of s') = filter (p ≠.) (pre_poll_cb_list (loop_of s)))
  | (Err c, _) => c = EXIT
  end.

Hypothesis Hpre : pre_rule.

(** What the callback of an entry may say about its events; it may end the registration of its
    own entry, and then does not want it polled. *)
Context (says : entry → Z * Z → Prop).
Definition set_events_rule : Prop := ∀ s p e,
  inv s → loop_ok (loop_of s) → fd_store (loop_of s) !! p = Some e →
  match run_set_events_cb e s with
  | (Ok r, s') =>
      inv s' ∧ loop_ok (loop_of s') ∧ poll_array (loop_of s') = poll_array (loop_of s) ∧ says e r ∧
      (∀ q, q ≠ p → fd_store (loop_of s') !! q = fd_store (loop_of s) !! q) ∧
      (fd_list (loop_of s') = fd_list (loop_of s) ∧ fd_store (loop_of s') !! p = Some e ∨
       fd_list (loop_of s') = filter (p ≠.) (fd_list (loop_of s)) ∧ fst r ≠ 0)
  | (Err c, _) => c = EXIT
  end.

Hypothesis Hset_events : set_events_rule.

(** The loop's own data are its own. *)
Definition array_rule : Prop := ∀ tl l w a, Inv tl l w → Inv tl (set_poll_array a l) w.
Hypothesis Inv_array : array_rule.

Lemma next_in_app (p : nat) (l1 l2 : list nat) :
  NoDup (l1 ++ p :: l2) → next_in p (l1 ++ p :: l2) = head l2.
Proof.
  intros Hnd. unfold next_in.
  assert (E : list_find (p =.) (l1 ++ p :: l2) = Some (length l1, p)).
  { apply list_find_Some. split_and!; [by rewrite lookup_app_r, Nat.sub_diag by lia|done|].
    intros j y Hy Hj ->. rewrite lookup_app_l in Hy by done.
    apply NoDup_app in Hnd as (_ & Hn & _). apply (Hn y); [by eapply list_elem_of_lookup_2|left]. }
  rewrite E. rewrite lookup_app_r by lia. replace (S (length l1) - length l1)%nat with 1%nat by lia.
  by destruct l2.
Qed.

Lemma filter_out (p : nat) (l1 l2 : list nat) :
  NoDup (l1 ++ p :: l2) → filter (p ≠.) (l1 ++ p :: l2) = l1 ++ l2.
Proof.
  intros Hnd. apply NoDup_app in Hnd as (_ & Hn & [Hp _]%NoDup_cons).
  assert (Hid : ∀ l : list nat, p ∉ l → filter (p ≠.) l = l).
  { induction l as [|q l IH]; [done|]. intros [? ?]%not_elem_of_cons.
    rewrite filter_cons_True by done. by rewrite IH. }
  rewrite filter_app, filter_cons_False by (intros []; done). rewrite !Hid; [done|done|].
  intros Hin. apply (Hn p Hin). left.
Qed.

Definition prepared (r : Z) : Prop := r = 0 ∨ r = -1 ∨ r = -2.

Lemma pre_poll_cbs_end fuel l1 l2 s :
  inv s → loop_ok (loop_of s) → pre_poll_cb_list (loop_of s) = l1 ++ l2 → (length l2 ≤ fuel)%nat →
  ends_well (λ r s', prepared r ∧ inv s' ∧ loop_ok (loop_of s') ∧
    poll_array (loop_of s') = poll_array (loop_of s)) (pre_poll_cbs_loop fuel (head l2)) s.
Proof.
  revert l1 l2 s. induction fuel as [|fuel IH]; intros l1 [|p l2] s Hi Ho Hl Hf; cbn in Hf; try lia.
  1, 2: split_and!; try done; by left.
  unfold ends_well. cbn [pre_poll_cbs_loop head hd_error].
  destruct (lo_pre_store _ Ho p) as [e He]; [rewrite Hl; apply elem_of_app; right; left|].
  assert (Hde : deref_pre_poll_cb_entry p s = (Ok e, s)).
  { unfold deref_pre_poll_cb_entry. rewrite (bind_ok get_loop _ s _ s eq_refl). by rewrite He. }
  rewrite (bind_ok _ _ _ _ _ Hde), (bind_ok get_loop _ s _ s eq_refl).
  pose proof (lo_pre _ Ho) as Hnd. rewrite Hl in Hnd. rewrite Hl, next_in_app by done.
  pose proof (Hpre s p e Hi Ho He) as Hr. destruct (run_pre_poll_cb e s) as [[r|c] s1] eqn:E.
  - rewrite (bind_ok _ _ _ _ _ E). destruct Hr as (Hi1 & Ho1 & Ha1 & Hl1).
    destruct (r =? 0).
    + rewrite <-Ha1. destruct Hl1 as [Hl1|Hl1].
      * apply (IH (l1 ++ [p]) l2); [done..| |lia]. by rewrite Hl1, Hl, <-app_assoc.
      * apply (IH l1 l2); [done..| |lia]. by rewrite Hl1, Hl, filter_out.
    + destruct (r =? -1); split_and!; try done; [by right; left|by right; right].
  - by rewrite (bind_err _ _ _ _ _ E).
Qed.

(** The item of an entry that wants to be polled. *)
Definition item_asked (x : item) : Prop :=
  let '(_, e, pd) := x in
  ∃ events, says e (0, events) ∧ events ≠ 0 ∧ invalid_events events = false ∧
    pd = mk_poll_desc (prfd e) (poll_events_to_pr_events events) 0.

Definition declines (e : entry) : Prop :=
  ∃ res events, says e (res, events) ∧ (res = -1 ∨ res = 0 ∧ events = 0).

(** [xs] are the items so far, of the entries before [rest]; who is left out declined. *)
Record filling (xs : list item) (seen rest : list nat) (s : state) : Prop := {
  fl_inv : inv s;
  fl_ok : loop_ok (loop_of s);
  fl_wf : wf (poll_array (loop_of s));
  fl_list : fd_list (loop_of s) = seen ++ rest;
  fl_holds : holds (loop_of s) xs;
  fl_live : Forall (live (loop_of s)) xs;
  fl_asked : Forall item_asked xs;
  fl_sublist : (item_pointer <$> xs) `sublist_of` seen;
  fl_left_out : ∀ p e, p ∈ seen → fd_store (loop_of s) !! p = Some e →
    p ∈ item_pointer <$> xs ∨ declines e
}.

Lemma insert_at_end {A} (l : list A) (x y : A) n : n = length l → <[n := y]> (l ++ [x]) = l ++ [y].
Proof. intros ->. rewrite insert_app_r_alt by lia. by rewrite Nat.sub_diag. Qed.

Lemma add_to_array_ok p e events' xs s :
  wf (poll_array (loop_of s)) → holds (loop_of s) xs → fd_store (loop_of s) !! p = Some e →
  p ∉ item_pointer <$> xs →
  ∃ (r : Z) (s' : state) a, add_to_array p events' s = (Ok r, s') ∧ fst (fst s') = fst (fst s) ∧
    snd (snd s') = snd (snd s) ∧ loop_of s' = set_poll_array a (loop_of s) ∧
    (r = -1 ∨ 0 ≤ r ∧ wf a ∧
     holds (loop_of s') (xs ++ [(p, e, mk_poll_desc (prfd e) (poll_events_to_pr_events events') 0)])).
Proof.
  destruct s as [[tl h] [l w]]. unfold loop_of. cbn [fst snd]. intros Hw (Hd & Hu & Hn & Hnd) He Hp.
  unfold add_to_array. pose proof (pr_poll_array_add_spec zero_desc None (poll_array l) h Hw) as Ha.
  destruct (pr_poll_array_add zero_desc None (poll_array l, h)) as [[r|c] [a h1]] eqn:E; [|done].
  set (s1 := (tl, h1, (set_poll_array a l, w)) : state).
  rewrite (bind_ok _ _ _ r s1) by (unfold on_poll_array; by rewrite E).
  destruct Ha as [[-> _]|(-> & Hwa & Hia & Hda & Hua)].
  { exists (-1), s1, a. split_and!; try done. by left. }
  destruct (Z.ltb_spec (items (poll_array l)) 0) as [|_]; [destruct (wf_items _ Hw); lia|].
  rewrite (bind_ok _ _ s1 e s1) by (by apply deref_fd_entry_ok).
  destruct (write_desc_spec (items (poll_array l)) (mk_poll_desc (prfd e) (poll_events_to_pr_events events') 0)
    a h1 Hwa) as (b & Hb & Hwb & Hib & Hdb & Hub); [lia|].
  destruct (write_data_spec (items (poll_array l)) (Some p) b h1 Hwb) as (c & Hc & Hwc & Hic & Hdc & Huc); [lia|].
  rewrite (bind_ok _ _ s1 tt (tl, h1, (set_poll_array b (set_poll_array a l), w))).
  2: { unfold on_poll_array, s1. cbn [poll_array set_poll_array]. by rewrite Hb. }
  rewrite (bind_ok _ _ _ tt (tl, h1, (set_poll_array c (set_poll_array b (set_poll_array a l)), w))).
  2: { unfold on_poll_array. cbn [poll_array set_poll_array]. by rewrite Hc. }
  eexists _, _, c. split; [reflexivity|]. split_and!; try done. right. split; [lia|]. split; [done|].
  unfold holds, loop_of. cbn [fst snd poll_array set_poll_array].
  assert (Hlen : Z.to_nat (items (poll_array l)) = length xs) by lia.
  rewrite Hdc, Huc, Hdb, Hub, Hda, Hua, Hd, Hu, Hlen, !fmap_app, Hic, Hib, Hia, Hn.
  split_and!.
  - apply insert_at_end. by rewrite length_fmap.
  - apply insert_at_end. by rewrite length_fmap.
  - rewrite length_app. cbn. lia.
  - apply NoDup_app. split_and!; [done| |apply NoDup_singleton]. intros q Hq. cbn.
    rewrite list_elem_of_singleton. by intros ->.
Qed.

(** The callback of an entry is called; what it says, and the entry, if it is still registered. *)
Lemma filling_asked xs seen p rest s e :
  filling xs seen (p :: rest) s → fd_store (loop_of s) !! p = Some e →
  match run_set_events_cb e s with
  | (Ok r, s') => says e r ∧
      ((fst r = -1 ∨ r = (0, 0)) → ∃ seen', filling xs seen' rest s') ∧
      (fst r = 0 → wf (poll_array (loop_of s')) ∧ holds (loop_of s') xs ∧
         fd_store (loop_of s') !! p = Some e ∧ p ∉ item_pointer <$> xs ∧
         ∀ s'' a x, fst (fst s'') = fst (fst s') → snd (snd s'') = snd (snd s') →
           loop_of s'' = set_poll_array a (loop_of s') → wf a → holds (loop_of s'') (xs ++ [x]) →
           item_pointer x = p → live (loop_of s'') x → item_asked x →
           filling (xs ++ [x]) (seen ++ [p]) rest s'')
  | (Err c, _) => c = EXIT
  end.
Proof.
  intros [Hi Ho Hw Hl Hh Hli Has Hsu Hle] He. pose proof (Hset_events s p e Hi Ho He) as Hr.
  pose proof (lo_fds _ Ho) as Hnd. rewrite Hl in Hnd.
  assert (Hps : p ∉ seen).
  { intros Hp. apply NoDup_app in Hnd as (_ & Hn & _). apply (Hn p Hp). left. }
  assert (Hpx : p ∉ item_pointer <$> xs).
  { intros Hp. apply Hps. by eapply elem_of_sublist. }
  destruct (run_set_events_cb e s) as [[[res ev]|c] s1]; [|done].
  destruct Hr as (Hi1 & Ho1 & Ha1 & Hsay & Hq & Hl1). split; [done|].
  assert (Hh1 : holds (loop_of s1) xs) by (unfold holds; by rewrite Ha1).
  assert (Hli1 : Forall (live (loop_of s1)) xs).
  { apply Forall_forall. intros x Hx. rewrite Forall_forall in Hli. unfold live.
    rewrite Hq; [by apply Hli|]. intros <-. apply Hpx, list_elem_of_fmap_2, Hx. }
  assert (Hle1 : ∀ q e', q ∈ seen → fd_store (loop_of s1) !! q = Some e' →
    q ∈ item_pointer <$> xs ∨ declines e').
  { intros q e' Hin. rewrite Hq by (by intros ->). by apply Hle. }
  split.
  - intros Hdec. destruct Hl1 as [[Hl1 He1]|[Hl1 Hne]].
    + exists (seen ++ [p]). split; try done; [by rewrite Ha1|by rewrite Hl1, Hl, <-app_assoc| |].
      * by apply sublist_inserts_r.
      * intros q e' [Hin|Hin%list_elem_of_singleton]%elem_of_app; [by apply Hle1|]. subst q.
        rewrite He1. intros [= <-]. right. exists res, ev. split; [done|].
        destruct Hdec as [?|[= ? ?]]; [by left|by right].
    + exists seen. split; try done; [by rewrite Ha1|]. by rewrite Hl1, Hl, filter_out.
  - cbn [fst]. intros ->. destruct Hl1 as [[Hl1 He1]|[_ Hne]]; [|done].
    split_and!; try done; [by rewrite Ha1|]. intros s2 a x Etl Ew El Hwa Hh2 Ex Hlx Hax.
    assert (Es : fd_store (loop_of s2) = fd_store (loop_of s1)) by by rewrite El.
    split; try done.
    + unfold inv. rewrite Etl, Ew, El. by apply Inv_array.
    + rewrite El. destruct Ho1. by split.
    + by rewrite El.
    + rewrite El. cbn. by rewrite Hl1, Hl, <-app_assoc.
    + apply Forall_app. split; [|by repeat constructor]. eapply Forall_impl; [exact Hli1|].
      intros y. unfold live. by rewrite Es.
    + apply Forall_app. split; [done|]. by repeat constructor.
    + rewrite fmap_app. cbn. rewrite Ex. by apply sublist_app.
    + intros q e' Hin. rewrite Es, fmap_app. cbn. rewrite Ex, elem_of_app, list_elem_of_singleton.
      apply elem_of_app in Hin as [Hin|Hin%list_elem_of_singleton]; [|tauto].
      intros Hs. destruct (Hle1 q e' Hin Hs); tauto.
Qed.

(** The array is filled, or the round ends. *)
Definition filled (r : Z) (s : state) : Prop :=
  prepared r ∧ (r = 0 → ∃ xs seen, filling xs seen [] s).

Lemma fill_array_ok fuel xs seen rest s :
  filling xs seen rest s → (length rest ≤ fuel)%nat →
  ends_well filled (fill_array_loop fuel (head rest)) s.
Proof.
  revert xs seen rest s. induction fuel as [|fuel IH]; intros xs seen [|p rest] s Hf Hlen; cbn in Hlen; try lia.
  1, 2: split; [by left|by eauto].
  unfold ends_well. cbn [fill_array_loop head hd_error].
  pose proof (lo_fds _ (fl_ok _ _ _ _ Hf)) as Hnd. rewrite (fl_list _ _ _ _ Hf) in Hnd.
  destruct (lo_fd_store _ (fl_ok _ _ _ _ Hf) p) as [e He].
  { rewrite (fl_list _ _ _ _ Hf). apply elem_of_app. right. left. }
  rewrite (bind_ok _ _ _ _ _ (deref_fd_entry_ok s p e He)), (bind_ok get_loop _ s _ s eq_refl).
  rewrite (fl_list _ _ _ _ Hf), next_in_app by done.
  pose proof (filling_asked xs seen p rest s e Hf He) as Ha.
  destruct (run_set_events_cb e s) as [[[res ev]|c] s1] eqn:E; [|by rewrite (bind_err _ _ _ _ _ E)].
  rewrite (bind_ok _ _ _ _ _ E). cbv beta iota. destruct Ha as (Hsay & Hskip & Hadd).
  assert (Hend : ∀ r s', r = -1 ∨ r = -2 → filled r s').
  { intros r s' Hr. split; [by right|]. intros ->. by destruct Hr. }
  destruct (invalid_events ev) eqn:Hiv; [by apply Hend; right|].
  destruct (Z.eqb_spec res 0) as [->|Hres], (Z.eqb_spec ev 0) as [->|Hev]; cbn [andb].
  - change (-1 =? 0) with false. change (-1 =? -1) with true. cbv iota.
    destruct Hskip as [seen' Hf']; [by right|]. apply (IH xs seen'); [done|lia].
  - change (0 =? 0) with true. cbv iota. destruct (Hadd eq_refl) as (Hw & Hh & He1 & Hp & Hf').
    destruct (add_to_array_ok p e ev xs s1 Hw Hh He1 Hp) as (r & s2 & a & Er & Etl & Ew & El & Hr).
    rewrite (bind_ok _ _ _ _ _ Er). destruct Hr as [->|(Hr & Hwa & Hh2)].
    + apply Hend. by left.
    + destruct (Z.ltb_spec r 0); [lia|]. eapply IH; [eapply Hf'; try done|lia].
      * unfold live. by rewrite El.
      * exists ev. by rewrite Hiv.
  - destruct (Z.eqb_spec res 0); [done|]. destruct (Z.eqb_spec res (-1)) as [->|].
    + destruct Hskip as [seen' Hf']; [by left|]. apply (IH xs seen'); [done|lia].
    + destruct (res =? -2); apply Hend; tauto.
  - destruct (Z.eqb_spec res 0); [done|]. destruct (Z.eqb_spec res (-1)) as [->|].
    + destruct Hskip as [seen' Hf']; [by left|]. apply (IH xs seen'); [done|lia].
    + destruct (res =? -2); apply Hend; tauto.
Qed.

(** What the array holds when it is ready for [PR_Poll]. *)
Record poll_ready (xs : list item) (s : state) : Prop := {
  pr_inv : inv s;
  pr_ok : loop_ok (loop_of s);
  pr_wf : wf (poll_array (loop_of s));
  pr_holds : holds (loop_of s) xs;
  pr_live : Forall (live (loop_of s)) xs;
  pr_asked : Forall item_asked xs;
  pr_order : (item_pointer <$> xs) `sublist_of` fd_list (loop_of s);
  pr_left_out : ∀ p e, p ∈ fd_list (loop_of s) → fd_store (loop_of s) !! p = Some e →
    p ∈ item_pointer <$> xs ∨ declines e
}.

Lemma gc_ready xs seen s :
  filling xs seen [] s →
  match (on_poll_array pr_poll_array_gc;; mret 0) s with
  | (Ok r, s') => r = 0 ∧ poll_ready xs s'
  | (Err _, _) => False
  end.
Proof.
  destruct s as [[tl h] [l w]]. intros [Hi Ho Hw Hl (Hd & Hu & Hn & Hnd) Hli Has Hsu Hle].
  unfold loop_of in *. cbn [fst snd] in *. rewrite app_nil_r in Hl.
  pose proof (pr_poll_array_gc_spec (poll_array l) h Hw) as Hg. unfold on_poll_array, mbind, M_bind.
  destruct (pr_poll_array_gc (poll_array l, h)) as [[[]|c] [a h1]]; [|done].
  destruct Hg as (Hwa & Hia & Hda & Hua & _). split; [done|].
  split; try done; unfold loop_of; cbn.
  - by apply Inv_array.
  - destruct Ho. by split.
  - unfold holds. cbn. by rewrite Hda, Hua, Hia.
  - by rewrite Hl.
  - by rewrite Hl.
Qed.

(** Before polling the callbacks that are to be called first are called; then the array
    holds, in the order of their registration, exactly the entries that want to be polled - each
    once, alive, with the events it asked for, converted for [PR_Poll] - and those left out
    declined.  Otherwise the round ends with [-1] or [-2]. *)
Theorem prepare_poll_array_ok s :
  inv s → loop_ok (loop_of s) → wf (poll_array (loop_of s)) →
  ends_well (λ r s', prepared r ∧ (r = 0 → ∃ xs, poll_ready xs s')) prepare_poll_array s.
Proof.
  intros Hi Ho Hw. unfold ends_well, prepare_poll_array.
  set (s1 := (fst s, (set_poll_array (pr_poll_array_clean (poll_array (loop_of s))) (loop_of s), snd (snd s))) : state).
  rewrite (bind_ok _ _ s tt s1) by (by destruct s as [? []]).
  rewrite (bind_ok get_loop _ s1 _ s1 eq_refl).
  pose proof (pre_poll_cbs_end (length (pre_poll_cb_list (loop_of s1))) [] (pre_poll_cb_list (loop_of s1)) s1) as Hp.
  unfold ends_well in Hp.
  destruct (pre_poll_cbs_loop _ _ s1) as [[r|c] s2] eqn:E.
  2: { rewrite (bind_err _ _ _ _ _ E). apply Hp; [by apply Inv_array|destruct Ho; by split|done..]. }
  destruct Hp as (Hr & Hi2 & Ho2 & Ha2); [by apply Inv_array|destruct Ho; by split|done..|].
  rewrite (bind_ok _ _ _ _ _ E). destruct (Z.eqb_spec r 0) as [->|Hne]; cbn [negb]; [|done].
  rewrite (bind_ok get_loop _ s2 _ s2 eq_refl).
  assert (Hf : filling [] [] (fd_list (loop_of s2)) s2).
  { split; try done; rewrite ?Ha2; [by apply array_wf_clean| |by intros ??[]%not_elem_of_nil].
    unfold holds. rewrite Ha2. split_and!; try done. constructor. }
  pose proof (fill_array_ok (length (fd_list (loop_of s2))) [] [] _ s2 Hf (le_n _)) as Hl.
  unfold ends_well in Hl. destruct (fill_array_loop _ _ s2) as [[r|c] s3] eqn:E3.
  2: { by rewrite (bind_err _ _ _ _ _ E3). }
  rewrite (bind_ok _ _ _ _ _ E3). destruct Hl as [Hr3 Hf3].
  destruct (Z.eqb_spec r 0) as [->|Hne]; cbn [negb]; [|done].
  destruct (Hf3 eq_refl) as (xs & seen & Hf3'). pose proof (gc_ready xs seen s3 Hf3') as Hg.
  destruct ((on_poll_array pr_poll_array_gc;; mret 0) s3) as [[r|c] s4]; [|done].
  destruct Hg as [-> Hg]. split; [by left|]. by exists xs.
Qed.

(** ** Registration *)

(** Every pointer handed out so far is below the next one. *)
Record registered (l : loop) : Prop := {
  rg_ok : loop_ok l;
  rg_fresh : ∀ p, p ∈ fd_list l ∨ p ∈ pre_poll_cb_list l → (p < next_pointer l)%nat
}.

(** The key of an entry. *)
Definition keyed (fd' : Z) (prfd' : PRFileDesc) (e : entry) : bool :=
  if negb (fd' =? -1) then fd e =? fd' else prfd e =? prfd'.

Definition first_keyed (fd' : Z) (prfd' : PRFileDesc) (l : loop) : option nat :=
  snd <$> list_find (λ p, from_option (keyed fd' prfd') false (fd_store l !! p) = true) (fd_list l).

Lemma find_by_fd_ok fd' prfd' (s : state) :
  loop_ok (loop_of s) → one_descriptor fd' prfd' = true →
  pr_poll_loop_find_by_fd fd' prfd' s = (Ok (first_keyed fd' prfd' (loop_of s)), s).
Proof.
  intros Ho Hone. unfold pr_poll_loop_find_by_fd. rewrite Hone. cbn [negb].
  rewrite (bind_ok get_loop _ s _ s eq_refl). unfold first_keyed.
  assert (Hst : ∀ p, p ∈ fd_list (loop_of s) → is_Some (fd_store (loop_of s) !! p)) by apply Ho.
  clear Ho. induction (fd_list (loop_of s)) as [|p l IH]; [done|].
  destruct (Hst p) as [e He]; [left|]. cbn [find_by_fd_loop list_find].
  rewrite (bind_ok _ _ _ _ _ (deref_fd_entry_ok s p e He)), He. cbn [from_option]. unfold keyed at 1.
  specialize (IH (λ q Hq, Hst q (list_elem_of_further _ _ _ Hq))). unfold keyed in IH |- *.
  destruct (negb (fd' =? -1)), (fd e =? fd'), (prfd e =? prfd'); try done;
    rewrite IH; by destruct (list_find _ l) as [[]|].
Qed.

(** Ending a registration: it is that of the descriptor, and no other one. *)
Lemma del_fd_int_ok fd' prfd' (s : state) :
  registered (loop_of s) → one_descriptor fd' prfd' = true →
  (∀ d w, fst (PR_DestroySocketPollFd d w) = Ok tt) →
  match pr_poll_loop_del_fd_int fd' prfd' s with
  | (Ok r, s') => registered (loop_of s') ∧
      match first_keyed fd' prfd' (loop_of s) with
      | None => r = -1 ∧ s' = s
      | Some p => r = 0 ∧ fd_list (loop_of s') = filter (p ≠.) (fd_list (loop_of s)) ∧
          fd_store (loop_of s') = delete p (fd_store (loop_of s))
      end
  | (Err _, _) => False
  end.
Proof.
  intros [Ho Hfr] Hone Hd. unfold pr_poll_loop_del_fd_int.
  rewrite (bind_ok _ _ _ _ _ (find_by_fd_ok fd' prfd' s Ho Hone)).
  destruct (first_keyed fd' prfd' (loop_of s)) as [p|] eqn:Ef; [|by repeat split; apply Ho || apply Hfr].
  apply fmap_Some in Ef as ([i q] & Ef & ->). apply list_find_Some in Ef as (Hi & _ & _).
  destruct (lo_fd_store _ Ho q) as [e He]; [by eapply list_elem_of_lookup_2|].
  rewrite (bind_ok _ _ _ _ _ (deref_fd_entry_ok s q e He)).
  assert (Hdel : ∃ s1, (if negb (fd e =? -1) then on_world (PR_DestroySocketPollFd (prfd e)) else mret tt) s =
    (Ok tt, s1) ∧ loop_of s1 = loop_of s).
  { destruct (negb _); [|by exists s]. destruct s as [tl [l w]]. unfold on_world. specialize (Hd (prfd e) w).
    destruct (PR_DestroySocketPollFd (prfd e) w) as [r w']. cbn in Hd. subst r. by eexists. }
  destruct Hdel as (s1 & Es & El). rewrite (bind_ok _ _ _ _ _ Es). destruct s1 as [tl [l w]]. unfold loop_of in El |- *.
  cbn in El. subst l. cbn. split; [|done]. destruct Ho as [Hn Hs Hp Hps]. split; [split|]; cbn; try done.
  - by apply NoDup_filter.
  - intros p [Hne Hin]%list_elem_of_filter. rewrite lookup_delete_ne by done. by apply Hs.
  - intros p [[_ Hin]%list_elem_of_filter|Hin]; apply Hfr; auto.
Qed.

(** Registering: a descriptor that is registered is refused; else one entry is added at the end,
    or memory or NSPR fails and nothing is added. *)
Lemma add_fd_int_ok fd' prfd' ev c1 c2 c3 c4 c5 c6 c7 c8 d1 d2 (s : state) :
  registered (loop_of s) → one_descriptor fd' prfd' = true →
  (∀ f w, ∃ d, fst (PR_CreateSocketPollFd f w) = Ok d) →
  match pr_poll_loop_add_fd_int fd' prfd' ev c1 c2 c3 c4 c5 c6 c7 c8 d1 d2 s with
  | (Ok r, s') => registered (loop_of s') ∧
      (r = -1 ∧ fd_list (loop_of s') = fd_list (loop_of s) ∧ fd_store (loop_of s') = fd_store (loop_of s) ∨
       r = 0 ∧ invalid_events ev = false ∧ first_keyed fd' prfd' (loop_of s) = None ∧
       ∃ p d, p ∉ fd_list (loop_of s) ∧ fd_list (loop_of s') = fd_list (loop_of s) ++ [p] ∧
         fd_store (loop_of s') = <[p := mk_fd_entry fd' d ev c1 c2 c3 c4 c5 c6 c7 c8 d1 d2]> (fd_store (loop_of s)))
  | (Err _, _) => False
  end.
Proof.
  intros [Ho Hfr] Hone Hc. unfold pr_poll_loop_add_fd_int. rewrite Hone. cbn [negb].
  assert (Hrg : registered (loop_of s)) by by split.
  destruct (invalid_events ev); [split; [done|by left]|].
  rewrite (bind_ok _ _ _ _ _ (find_by_fd_ok fd' prfd' s Ho Hone)).
  destruct (first_keyed fd' prfd' (loop_of s)) as [q|] eqn:Ef; [split; [done|by left]|].
  destruct s as [[tl h] [l w]]. unfold loop_of in *. cbn [fst snd] in *.
  destruct (malloc h) as [[j|] h1] eqn:Em.
  2: { rewrite (bind_ok _ _ _ None (tl, h1, (l, w))) by (unfold new_pointer; by rewrite Em). split; [done|by left]. }
  set (p := next_pointer l). set (l1 := set_next_pointer (S p) l).
  rewrite (bind_ok _ _ _ (Some p) (tl, h1, (l1, w))) by (unfold new_pointer; by rewrite Em).
  assert (Hd : ∃ d w', entry_prfd fd' prfd' (tl, h1, (l1, w)) = (Ok d, (tl, h1, (l1, w')))).
  { unfold entry_prfd. destruct (negb _); [|by exists prfd', w]. unfold on_world.
    destruct (Hc fd' w) as [d Hd]. destruct (PR_CreateSocketPollFd fd' w) as [r w']. cbn in Hd. subst r. eauto. }
  destruct Hd as (d & w' & Ed). rewrite (bind_ok _ _ _ _ _ Ed). destruct Ho as [Hn Hs Hp Hps].
  assert (Hni : p ∉ fd_list l).
  { intros Hin. pose proof (Hfr p (or_introl Hin)). unfold p in *. lia. }
  destruct (d =? 0); cbn.
  - split; [|by left]. split; [by split|]. intros q Hq. cbn in *. pose proof (Hfr q Hq). lia.
  - split; [|right; split_and!; try done; by exists p, d]. split; [split|]; cbn; try done.
    + apply NoDup_app. split_and!; [done| |apply NoDup_singleton]. intros q Hq.
      rewrite list_elem_of_singleton. by intros ->.
    + intros q [Hq|Hq%list_elem_of_singleton]%elem_of_app.
      * destruct (decide (q = p)) as [->|]; [done|]. rewrite lookup_insert_ne by done. by apply Hs.
      * subst q. rewrite lookup_insert_eq. by eexists.
    + intros q [[Hq|Hq%list_elem_of_singleton]%elem_of_app|Hq]; [pose proof (Hfr q (or_introl Hq)); lia|subst; lia|].
      pose proof (Hfr q (or_intror Hq)). lia.
Qed.

(** ** A round *)

Definition poll_rule : Prop := ∀ tl l w pfds timeout,
  Inv tl l w →
  match PR_Poll pfds timeout w with (Ok _, w') => Inv tl l w' | (Err c, _) => c = EXIT end.
Hypothesis Hpoll : poll_rule.

(** The timers are those of a timer list that works. *)
Context (T L : Z).
Definition bounds_rule : Prop := 2 * T + L < 2 ^ 31 ∧ 0 < T ∧ 0 ≤ L.
Definition timers_rule : Prop :=
  ∀ tl l w, Inv tl l w → ∃ E, timers_ok PR_MillisecondsToInterval T L E tl.
Hypothesis Hbounds : bounds_rule.
Hypothesis Inv_timers : timers_rule.

Lemma polled_descs_ok (l : loop) xs : holds l xs → polled_descs l = Some (snd <$> xs).
Proof.
  intros (Hd & _). unfold polled_descs. rewrite Hd. clear Hd.
  induction xs as [|x xs IH]; [done|]. cbn [fmap list_fmap mapM]. cbn. by rewrite IH.
Qed.

(** What [PR_Poll] says about an item. *)
Definition with_flags (outs : list Z) (i : nat) (x : item) : item :=
  (fst x, match outs !! i with Some v => set_out_flags v (snd x) | None => snd x end).

Lemma take_imap {A B} (f : nat → A → B) n (l : list A) : take n (imap f l) = imap f (take n l).
Proof.
  revert f n. induction l as [|x l IH]; intros f [|n]; try done. cbn. by rewrite IH.
Qed.

Lemma holds_flags (l : loop) xs outs :
  holds l xs → holds (store_out_flags outs l) (imap (with_flags outs) xs).
Proof.
  intros (Hd & Hu & Hn & Hnd). unfold holds.
  assert (Hp : item_pointer <$> imap (with_flags outs) xs = item_pointer <$> xs).
  { apply list_eq. intros i. rewrite !list_lookup_fmap, list_lookup_imap. by destruct (xs !! i). }
  split_and!.
  - unfold store_out_flags, descs. cbn. rewrite take_imap. fold (descs (poll_array l)). rewrite Hd.
    apply list_eq. intros i. rewrite list_lookup_imap, !list_lookup_fmap, list_lookup_imap.
    destruct (xs !! i); [|done]. cbn. by destruct (outs !! i).
  - change (datas (poll_array (store_out_flags outs l))) with (datas (poll_array l)). rewrite Hu.
    apply list_eq. intros i. rewrite !list_lookup_fmap, list_lookup_imap. by destruct (xs !! i).
  - by rewrite length_imap.
  - by rewrite Hp.
Qed.

Lemma poll_descriptors_ok xs s :
  poll_ready xs s →
  match poll_descriptors PR_INTERVAL_NO_TIMEOUT s with
  | (Ok _, s') => ∃ outs, dispatching (imap (with_flags outs) xs) 0 s'
  | (Err c, _) => c = EXIT
  end.
Proof.
  intros [Hi Ho Hw Hh Hli _ _ _]. unfold poll_descriptors.
  rewrite (bind_ok get_loop _ s _ s eq_refl), (polled_descs_ok _ _ Hh).
  destruct s as [[tl h] [l w]]. destruct (Inv_timers tl l w Hi) as [E HE].
  destruct Hbounds as (HTL & HT & HL).
  pose proof (timer_list_time_to_expire_min PR_MillisecondsToInterval T L HTL HT HL
    PR_INTERVAL_NO_TIMEOUT E tl HE) as Ht.
  destruct (timer_list_time_to_expire PR_INTERVAL_NO_TIMEOUT tl) as [[t|c] tl'] eqn:Et; [|done].
  destruct Ht as [-> _].
  rewrite (bind_ok _ _ _ t (tl, h, (l, w))) by (unfold on_timers, on_list; by rewrite Et).
  pose proof (Hpoll tl l w (snd <$> xs) t Hi) as Hp.
  destruct (PR_Poll (snd <$> xs) t w) as [[[r outs]|c] w'] eqn:Ep.
  2: { by rewrite (bind_err _ _ _ c (tl, h, (l, w'))) by (unfold on_world; by rewrite Ep). }
  rewrite (bind_ok _ _ _ (r, outs) (tl, h, (l, w'))) by (unfold on_world; by rewrite Ep).
  exists (take (length (snd <$> xs)) outs). split.
  - by apply Inv_array.
  - destruct Hw. split; try done. cbn. by rewrite length_imap.
  - by apply holds_flags.
  - intros j x _ Hx. rewrite list_lookup_imap in Hx. destruct (xs !! j) as [y|] eqn:Ey; [|done].
    injection Hx as <-. rewrite Forall_forall in Hli. apply (Hli y). by eapply list_elem_of_lookup_2.
Qed.

(** The rest of a round after [PR_Poll]: the callbacks that are due, then the timers. *)
Definition round_rest (poll_res : Z) (xs : list item) : M state Z :=
  cb_res ← (if 0 <? poll_res then run_calls (all_calls xs) else mret 0);
  if negb (cb_res =? 0) then mret (-1)
  else if poll_res =? -1 then mret (-3)
  else expire_timers PR_MillisecondsToInterval;; mret 0.

(** After the array was prepared: [PR_Poll], and the rest. *)
Lemma polled_round xs s1 :
  poll_ready xs s1 →
  match poll_descriptors PR_INTERVAL_NO_TIMEOUT s1 with
  | (Err c, _) => c = EXIT
  | (Ok poll_res, s2) => ∃ outs,
      let xs' := imap (with_flags outs) xs in
      (l ← get_loop;
       cb_res ← (if 0 <? poll_res
                 then dispatch_loop (Z.to_nat (pr_poll_array_size (poll_array l))) 0 else mret 0);
       if negb (cb_res =? 0) then mret (-1)
       else if poll_res =? -1 then mret (-3)
       else expire_timers PR_MillisecondsToInterval;; mret 0) s2 = round_rest poll_res xs' s2 ∧
      inv s2 ∧ wf (poll_array (loop_of s2)) ∧
      ends_well call_ended (run_calls (all_calls xs')) s2
  end.
Proof.
  intros Hxs. pose proof (poll_descriptors_ok xs s1 Hxs) as Hd.
  destruct (poll_descriptors _ s1) as [[poll_res|c] s2]; [|done].
  destruct Hd as [outs Hd]. exists outs. set (xs' := imap (with_flags outs) xs). cbv zeta.
  rewrite (bind_ok get_loop _ s2 _ s2 eq_refl).
  pose proof (ds_holds _ _ _ Hd) as (_ & _ & Hn & _).
  assert (Hrun : dispatch_loop (Z.to_nat (pr_poll_array_size (poll_array (loop_of s2)))) 0 s2 =
    run_calls (all_calls xs') s2).
  { apply (dispatch_loop_calls _ xs' 0 s2 Hd). unfold pr_poll_array_size. rewrite Hn, Nat2Z.id. apply Nat.le_refl. }
  split; [|split; [apply Hd|split; [apply Hd|by apply (run_calls_ends (length xs') xs' 0 s2)]]].
  unfold round_rest, mbind, M_bind. destruct (0 <? poll_res); [by rewrite Hrun|done].
Qed.

(** The timers that expire keep to the invariant as well. *)
Definition expire_rule : Prop := ∀ s1, inv s1 → wf (poll_array (loop_of s1)) →
  match expire_timers PR_MillisecondsToInterval s1 with
  | (Ok _, s2) => inv s2 ∧ wf (poll_array (loop_of s2))
  | (Err c, _) => c = EXIT
  end.

(** Then a round ends in it, if the loop is to go on. *)
Lemma exec_ends s :
  expire_rule →
  inv s → loop_ok (loop_of s) → wf (poll_array (loop_of s)) →
  ends_well (λ r s', r = 0 → inv s' ∧ wf (poll_array (loop_of s')))
    (pr_poll_loop_exec PR_MillisecondsToInterval PR_INTERVAL_NO_TIMEOUT) s.
Proof.
  intros Hx Hi Ho Hw. pose proof (prepare_poll_array_ok s Hi Ho Hw) as Hp. unfold ends_well in Hp |- *.
  unfold pr_poll_loop_exec. destruct (prepare_poll_array s) as [[r|c] s1] eqn:E1.
  2: { by rewrite (bind_err _ _ _ _ _ E1). }
  rewrite (bind_ok _ _ _ _ _ E1). destruct Hp as [_ Hp].
  destruct (Z.eqb_spec r 0) as [->|Hr]; cbn [negb]; [|done]. destruct (Hp eq_refl) as [xs Hxs].
  pose proof (polled_round xs s1 Hxs) as Hd.
  destruct (poll_descriptors _ s1) as [[poll_res|c] s2] eqn:E2.
  2: { by rewrite (bind_err _ _ _ _ _ E2). }
  rewrite (bind_ok _ _ _ _ _ E2). destruct Hd as (outs & -> & Hi2 & Hw2 & He).
  unfold round_rest. set (calls := (if 0 <? poll_res then _ else _) : M state Z).
  assert (Hcb : ends_well call_ended calls s2).
  { subst calls. destruct (0 <? poll_res); [done|]. by split; [left|]. }
  unfold ends_well in Hcb. destruct (calls s2) as [[cb_res|c] s3] eqn:E3.
  2: { by rewrite (bind_err _ _ _ _ _ E3). }
  rewrite (bind_ok _ _ _ _ _ E3). destruct Hcb as (_ & Hi3 & Hw3).
  destruct (negb (cb_res =? 0)); [done|]. destruct (poll_res =? -1); [done|].
  specialize (Hx s3 Hi3 Hw3). destruct (expire_timers _ s3) as [[u|c] s4] eqn:E4.
  - rewrite (bind_ok _ _ _ _ _ E4). intros _. exact Hx.
  - by rewrite (bind_err _ _ _ _ _ E4).
Qed.

(** What a round does, up to the timers. *)
Definition round_spec (s : state) : Prop :=
  let exec := pr_poll_loop_exec PR_MillisecondsToInterval PR_INTERVAL_NO_TIMEOUT in
  match prepare_poll_array s with
  | (Err c, _) => c = EXIT
  | (Ok r, s1) =>
      prepared r ∧
      if negb (r =? 0) then exec s = (Ok r, s1)
      else ∃ xs, poll_ready xs s1 ∧
        match poll_descriptors PR_INTERVAL_NO_TIMEOUT s1 with
        | (Err c, _) => c = EXIT
        | (Ok poll_res, s2) => ∃ outs,
            let xs' := imap (with_flags outs) xs in
            exec s = round_rest poll_res xs' s2 ∧
            ends_well call_ended (run_calls (all_calls xs')) s2
        end
  end.

Lemma exec_round s : inv s → loop_ok (loop_of s) → wf (poll_array (loop_of s)) → round_spec s.
Proof.
  intros Hi Ho Hw. unfold round_spec. cbv zeta. pose proof (prepare_poll_array_ok s Hi Ho Hw) as Hp.
  unfold ends_well in Hp. destruct (prepare_poll_array s) as [[r|c] s1] eqn:E1; [|done].
  destruct Hp as [Hr Hp]. split; [done|]. unfold pr_poll_loop_exec.
  rewrite (bind_ok _ _ _ _ _ E1). destruct (Z.eqb_spec r 0) as [->|]; cbn [negb]; [|done].
  destruct (Hp eq_refl) as [xs Hxs]. exists xs. split; [done|].
  pose proof (polled_round xs s1 Hxs) as Hd.
  destruct (poll_descriptors _ s1) as [[poll_res|c] s2] eqn:E2; [|done].
  destruct Hd as (outs & Hd & _ & _ & He). exists outs. split; [|done].
  by rewrite (bind_ok _ _ _ _ _ E2).
Qed.
End facts.

Section round.
Context {C F W D : Type} `{EqDecision C} `{PollWorld C F W D}.
Context (PR_MillisecondsToInterval : Z → Z) (PR_INTERVAL_NO_TIMEOUT : Z).
Abbreviation exec := (pr_poll_loop_exec PR_MillisecondsToInterval PR_INTERVAL_NO_TIMEOUT).

End round.

(** ** A small program *)

(** Two callbacks: one notes that it was called, the other ends the registration of its entry,
    the pointer to which is its data. *)
Inductive sim_cb := NOTE | LEAVE.
#[export] Instance sim_cb_eq_dec : EqDecision sim_cb.
Proof. solve_decision. Defined.

(** The rest of the program: what was called. *)
Abbreviation sim_log := (list (sim_cb * nat)).
Abbreviation sim_loop := (@pr_poll_loop sim_cb nat).
Abbreviation sim_state := (@state sim_cb unit sim_log nat).

Definition sim_call (cb : sim_cb) (p : nat) : M sim_state Z :=
  on_world (modify (λ w, w ++ [(cb, p)]));; mret 0.

(** Everything is readable and writable. *)
#[export] Instance sim_world : @PollWorld sim_cb unit sim_log nat := {|
  PR_CreateSocketPollFd fd := mret (fd + 100);
  PR_DestroySocketPollFd _ := mret tt;
  PR_Poll pfds _ := mret (Z.of_nat (length pfds), in_flags <$> pfds);
  call_pre_poll cb d _ := sim_call cb d;
  call_set_events cb _ ev d _ := sim_call cb d;; mret (0, ev);
  call_read cb _ d _ := sim_call cb d;
  call_write cb _ d _ :=
    sim_call cb d;; (match cb with NOTE => mret tt | LEAVE => remove_fd_entry d end);; mret 0;
  call_err cb _ _ d _ := sim_call cb d;
  call_timer _ := mret 0
|}.

Definition sim_inv (tl : @timer_list unit) (l : sim_loop) (w : sim_log) : Prop :=
  tl = timer_list_init 0 ∧ ∀ p e, fd_store l !! p = Some e → user_data1 e = p.

Definition sim_says (e : @pr_poll_loop_fd_entry sim_cb nat) (r : Z * Z) : Prop := r = (0, events e).

Lemma sim_call_rule (s : sim_state) k x :
  inv sim_inv s → live (loop_of s) x →
  Some (Some (item_pointer x)) ∈ datas (poll_array (loop_of s)) →
  match run_call k x s with
  | (Ok _, s') => inv sim_inv s' ∧ keeps_items k (item_pointer x) (loop_of s) (loop_of s')
  | (Err c, _) => c = EXIT
  end.
Proof.
  destruct s as [[tl h] [l w]], x as [[p e] pd]. intros [Htl Hd] Hl _. pose proof (Hd p e Hl) as Hp.
  unfold loop_of in *. cbn [fst snd] in *. destruct e as [? ? ? ? ? r1 r2 w1 w2 e1 e2 d1 d2]. cbn in Hp. subst.
  assert (Hsame : ∀ w', inv sim_inv (timer_list_init 0, h, (l, w')) ∧ keeps_items k p l l) by done.
  destruct k; [destruct r1 as [[]|], r2 as [[]|]|destruct w1 as [[]|], w2 as [[]|]
    |destruct e1 as [[]|], e2 as [[]|]]; cbn; try apply Hsame.
  all: split; [split; [done|]|split; [done|]]; cbn.
  all: try (intros q e' [_ Hq]%lookup_delete_Some; by apply Hd).
  all: intros q e' _ [?|Hne]; [done|]; by rewrite lookup_delete_ne.
Qed.

Lemma sim_pre_rule (s : sim_state) p e :
  inv sim_inv s → loop_ok (loop_of s) → pre_poll_cb_store (loop_of s) !! p = Some e →
  match run_pre_poll_cb e s with
  | (Ok _, s') =>
      inv sim_inv s' ∧ loop_ok (loop_of s') ∧ poll_array (loop_of s') = poll_array (loop_of s) ∧
      (pre_poll_cb_list (loop_of s') = pre_poll_cb_list (loop_of s) ∨
       pre_poll_cb_list (loop_of s') = filter (p ≠.) (pre_poll_cb_list (loop_of s)))
  | (Err c, _) => c = EXIT
  end.
Proof.
  destruct s as [[tl h] [l w]]. intros Hi Ho _. destruct e as [[cb|] ? ?]; cbn; (split_and!; [apply Hi|done|done|by left]).
Qed.

Lemma sim_set_events_rule (s : sim_state) p e :
  inv sim_inv s → loop_ok (loop_of s) → fd_store (loop_of s) !! p = Some e →
  match run_set_events_cb e s with
  | (Ok r, s') =>
      inv sim_inv s' ∧ loop_ok (loop_of s') ∧ poll_array (loop_of s') = poll_array (loop_of s) ∧
      sim_says e r ∧
      (∀ q, q ≠ p → fd_store (loop_of s') !! q = fd_store (loop_of s) !! q) ∧
      (fd_list (loop_of s') = fd_list (loop_of s) ∧ fd_store (loop_of s') !! p = Some e ∨
       fd_list (loop_of s') = filter (p ≠.) (fd_list (loop_of s)) ∧ fst r ≠ 0)
  | (Err c, _) => c = EXIT
  end.
Proof.
  destruct s as [[tl h] [l w]]. intros Hi Ho He.
  destruct e as [? ? ? [cb|] [cb'|] ? ? ? ? ? ? ? ?]; cbn;
    (split_and!; [apply Hi|done|done|done|done|by left]).
Qed.

(** A descriptor that is read and written, and a socket that ends its registration when it can be
    written; before polling the loop notes a call. *)
Definition sim_setup : sim_state :=
  let fresh := (timer_list_init 0, [], (pr_poll_loop_init, [])) in
  snd ((pr_poll_loop_add_pre_poll_cb (Some NOTE) 7 7;;
        pr_poll_loop_add_fd 5 (Z.lor POLLIN POLLOUT) None (Some NOTE) (Some NOTE) None 1 0;;
        pr_poll_loop_add_prfd 9 POLLOUT None (Some NOTE) (Some LEAVE) (Some NOTE) 2 0) fresh)%nat.

Lemma sim_setup_ok : inv sim_inv sim_setup ∧ loop_ok (loop_of sim_setup) ∧ wf (poll_array (loop_of sim_setup)).
Proof.
  split; [|split].
  - split; [done|].
    change (map_Forall (λ p e, user_data1 e = p) (fd_store (loop_of sim_setup))).
    apply (bool_decide_unpack _). vm_compute. exact I.
  - split.
    + apply (bool_decide_unpack _). vm_compute. exact I.
    + change (fd_list (loop_of sim_setup)) with [1; 2]%nat. intros p.
      rewrite !elem_of_cons, elem_of_nil. intros [->|[->|[]]]; vm_compute; by eexists.
    + apply (bool_decide_unpack _). vm_compute. exact I.
    + change (pre_poll_cb_list (loop_of sim_setup)) with [0]%nat. intros p.
      rewrite !elem_of_cons, elem_of_nil. intros [->|[]]; vm_compute; by eexists.
  - by apply array_wf_init.
Qed.

Lemma sim_inv_array (tl : @timer_list unit) (l : sim_loop) (w : sim_log) a :
  sim_inv tl l w → sim_inv tl (set_poll_array a l) w.
Proof. done. Qed.

Lemma sim_poll_rule (tl : @timer_list unit) (l : sim_loop) (w : sim_log) pfds timeout :
  sim_inv tl l w →
  match PR_Poll pfds timeout w with (Ok _, w') => sim_inv tl l w' | (Err c, _) => c = EXIT end.
Proof. done. Qed.

Lemma sim_timers_ok (tl : @timer_list unit) (l : sim_loop) (w : sim_log) :
  sim_inv tl l w → ∃ E, timers_ok (λ i, i) 18000000 1000 E tl.
Proof. intros [-> _]. exists (λ _, 0). apply timers_ok_init. Qed.


(** The rules are needed: the socket of [sim_setup] can be read, and ends its registration then;
    the loop looks at its entry once more, to see whether it wants to write. *)
Section freed.
#[local] Instance freeing_world : @PollWorld sim_cb unit sim_log nat := {|
  PR_CreateSocketPollFd fd := mret (fd + 100);
  PR_DestroySocketPollFd _ := mret tt;
  PR_Poll pfds _ := mret (Z.of_nat (length pfds), in_flags <$> pfds);
  call_pre_poll cb d _ := sim_call cb d;
  call_set_events cb _ ev d _ := sim_call cb d;; mret (0, ev);
  call_read cb _ d _ :=
    sim_call cb d;; (match cb with NOTE => mret tt | LEAVE => remove_fd_entry d end);; mret 0;
  call_write cb _ d _ := sim_call cb d;
  call_err cb _ _ d _ := sim_call cb d;
  call_timer _ := mret 0
|}.

Lemma pr_poll_loop_exec_freed_entry :
  let fresh := (timer_list_init 0, [], (pr_poll_loop_init, [])) in
  fst ((pr_poll_loop_add_fd 5 (Z.lor POLLIN POLLOUT) None (Some LEAVE) (Some NOTE) None 0 0;;
        pr_poll_loop_exec (λ i, i) (2 ^ 32 - 1)) fresh)%nat = Err USE_AFTER_FREE.
Proof. vm_compute. reflexivity. Qed.
End freed.
