(* ===== verification/ProcessList.v ===== *)
(** Child processes (process-list.c): commands are parsed, run, waited for and, in the end,
    killed.

    The system is a parameter, [ProcessSystem]: what [fork], [waitpid] and [kill] answer, and
    who is notified.  The child's side of [fork] ([execv] and its redirections) is part of it.
    The lists own their entries, so an entry is a value here. *)
From stdpp Require Import strings.
From S2P Require Import Prelude Dynar DynarStr Lex.
From stdpp Require Import list.
Local Open Scope Z_scope.

Definition SIGKILL : Z := 9.
Definition SIGTERM : Z := 15.
Definition EPERM : Z := 1.
Definition EINVAL : Z := 22.

(** A status of [waitpid] on Linux. *)
Definition WTERMSIG (status : Z) : Z := Z.land status 127.
Definition WIFEXITED (status : Z) : bool := WTERMSIG status =? 0.
Definition WEXITSTATUS (status : Z) : Z := Z.shiftr (Z.land status 0xff00) 8.

Inductive process_list_entry_state :=
| PROCESS_LIST_ENTRY_STATE_INITIALIZED
| PROCESS_LIST_ENTRY_STATE_RUNNING
| PROCESS_LIST_ENTRY_STATE_FINISHED
| PROCESS_LIST_ENTRY_STATE_SIGTERM_SENT
| PROCESS_LIST_ENTRY_STATE_SIGKILL_SENT.
#[export] Instance process_state_eq_dec : EqDecision process_list_entry_state.
Proof. solve_decision. Defined.

Inductive process_list_notify_reason :=
  PROCESS_LIST_NOTIFY_REASON_EXECUTED | PROCESS_LIST_NOTIFY_REASON_FINISHED.

Record process_list_entry := mk_process {
  process_name : c_string;
  process_state : process_list_entry_state;
  exec_argv : option (list c_string);
  exec_argc : Z;
  pid : Z;
  exit_status : Z
}.

Definition set_process_state v (e : process_list_entry) : process_list_entry :=
  mk_process (process_name e) v (exec_argv e) (exec_argc e) (pid e) (exit_status e).
Definition set_pid v (e : process_list_entry) : process_list_entry :=
  mk_process (process_name e) (process_state e) (exec_argv e) (exec_argc e) v (exit_status e).
Definition set_exit_status v (e : process_list_entry) : process_list_entry :=
  mk_process (process_name e) (process_state e) (exec_argv e) (exec_argc e) (pid e) v.

Record process_list := mk_process_list {
  use_execvp : bool;
  max_list_entries : Z;
  allocated_list_entries : Z;
  notify_fn : bool;
  active_list : list process_list_entry;
  to_kill_list : list process_list_entry
}.

Definition set_allocated_entries v (p : process_list) : process_list :=
  mk_process_list (use_execvp p) (max_list_entries p) v (notify_fn p) (active_list p) (to_kill_list p).
Definition set_active_list v (p : process_list) : process_list :=
  mk_process_list (use_execvp p) (max_list_entries p) (allocated_list_entries p) (notify_fn p) v
    (to_kill_list p).
Definition set_to_kill_list v (p : process_list) : process_list :=
  mk_process_list (use_execvp p) (max_list_entries p) (allocated_list_entries p) (notify_fn p)
    (active_list p) v.

Definition process_list_init (max_list_entries : Z) (use_execvp notify_fn : bool) : process_list :=
  mk_process_list use_execvp max_list_entries 0 notify_fn [] [].

(** ** Commands *)

(** [free] of the words and of the array. *)
Definition process_list_free_argv (no_params : Z) (argv : option (list c_string)) : res unit :=
  match argv with
  | None => if 0 <? no_params then Err NULL_DEREF else Ok tt
  | Some _ => Ok tt
  end.

Definition process_list_entry_free (e : process_list_entry) : res unit :=
  process_list_free_argv (exec_argc e) (exec_argv e).

(** The first pass: whether it came to the end, and the number of words. *)
Fixpoint count_params (fuel : nat) (no_params : Z) : M (dynar_simple_lex * heap) (bool * Z) :=
  match fuel with
  | O => fail OUT_OF_FUEL
  | S fuel =>
      token ← dynar_simple_lex_token_next;
      match token with
      | None => mret (false, no_params)
      | Some token =>
          if bool_decide (token_str token = []) then mret (true, no_params)
          else count_params fuel (no_params + 1)
      end
  end.

Definition strdup (s : c_string) : M (dynar_simple_lex * heap) (option c_string) := λ '(lex, h),
  match malloc h with (None, h) => (Ok None, (lex, h)) | (Some _, h) => (Ok (Some s), (lex, h)) end.

(** The second pass; a word for which there is no cell is written behind the array. *)
Fixpoint store_params (fuel : nat) (no_params : Z) (argv : list c_string) :
    M (dynar_simple_lex * heap) (option (list c_string)) :=
  match fuel with
  | O => fail OUT_OF_FUEL
  | S fuel =>
      token ← dynar_simple_lex_token_next;
      match token with
      | None => mret None
      | Some token =>
          if bool_decide (token_str token = []) then mret (Some argv)
          else if no_params + 1 <=? Z.of_nat (length argv) then fail OUT_OF_BOUNDS
          else
            word ← strdup (token_str token);
            match word with
            | None => mret None
            | Some word => store_params fuel no_params (argv ++ [word])
            end
      end
  end.

(** A pass over the command, with a lexer of its own. *)
Definition with_lex {A} (command_dstr : dynar) (m : M (dynar_simple_lex * heap) A) : M heap A := λ h,
  let '(r, (_, h')) := m (dynar_simple_lex_init command_dstr DYNAR_SIMPLE_LEX_TYPE_QUOTE, h) in (r, h').

Definition malloc_argv : M heap bool := λ h,
  match malloc h with (None, h) => (Ok false, h) | (Some _, h) => (Ok true, h) end.

(** [argv] and [*no_params], which is 0 before the call. *)
Definition process_list_parse_command (command : c_string) : M heap (option (list c_string) * Z) := λ h,
  match dynar_str_cpy command (dynar_init (Z.of_nat (length command) + 1), h) with
  | (Err _, (_, h)) => (Ok (None, 0), h)
  | (Ok _, (command_dstr, h)) =>
      let fuel := S (length command) in
      ('(finished, no_params) ← with_lex command_dstr (count_params fuel 0);
       if negb finished || (no_params <? 1) then mret (None, no_params)
       else
         ok ← malloc_argv;
         if negb ok then mret (None, no_params)
         else
           argv ← with_lex command_dstr (store_params fuel no_params []);
           mret (match argv with
                 | Some argv => if Z.of_nat (length argv) =? no_params then Some argv else None
                 | None => None
                 end, no_params)) h
  end.

(** Whether the result is not NULL. *)
Definition process_list_add (name command : c_string) : M (process_list * heap) bool := λ '(p, h),
  if max_list_entries p <? allocated_list_entries p + 1 then (Ok false, (p, h))
  else
    match malloc h with
    | (None, h) => (Ok false, (p, h))
    | (Some _, h) =>
        match malloc h with
        | (None, h) => (Ok false, (p, h))
        | (Some _, h) =>
            match process_list_parse_command command h with
            | (Err c, h) => (Err c, (p, h))
            | (Ok (argv, argc), h) =>
                let entry := mk_process name PROCESS_LIST_ENTRY_STATE_INITIALIZED argv argc 0 0 in
                match argv with
                | None =>
                    match process_list_entry_free entry with
                    | Err c => (Err c, (p, h))
                    | Ok _ => (Ok false, (p, h))
                    end
                | Some _ =>
                    (Ok true, (set_active_list (active_list p ++ [entry])
                                 (set_allocated_entries (allocated_list_entries p + 1) p), h))
                end
            end
        end
    end.

Fixpoint free_entries (l : list process_list_entry) : res unit :=
  match l with
  | [] => Ok tt
  | e :: l' => match process_list_entry_free e with Ok _ => free_entries l' | Err c => Err c end
  end.

Definition process_list_free (p : process_list) : res process_list :=
  match free_entries (active_list p) with
  | Err c => Err c
  | Ok _ =>
      match free_entries (to_kill_list p) with
      | Err c => Err c
      | Ok _ => Ok (set_active_list [] (set_to_kill_list [] (set_allocated_entries 0 p)))
      end
  end.

(** ** What needs no system *)

Definition process_list_get_no_running (p : process_list) : Z :=
  foldl (λ res e, if bool_decide (process_state e = PROCESS_LIST_ENTRY_STATE_RUNNING)
                  then res + 1 else res) 0 (active_list p).

Definition failed_status (status : Z) : bool :=
  negb (WIFEXITED status) || negb (WEXITSTATUS status =? 0).

Fixpoint summary_loop (l : list process_list_entry) (res : Z) : Z :=
  match l with
  | [] => res
  | e :: l' =>
      if negb (bool_decide (process_state e = PROCESS_LIST_ENTRY_STATE_FINISHED)) then -1
      else summary_loop l' (if failed_status (exit_status e) then 1 else res)
  end.

Definition process_list_get_summary_result (p : process_list) : Z := summary_loop (active_list p) 0.

Fixpoint summary_short_loop (l : list process_list_entry) (res : Z) : Z :=
  match l with
  | [] => res
  | e :: l' =>
      if bool_decide (process_state e = PROCESS_LIST_ENTRY_STATE_FINISHED) then
        if failed_status (exit_status e) then 1 else summary_short_loop l' res
      else summary_short_loop l' (-1)
  end.

Definition process_list_get_summary_result_short (p : process_list) : Z :=
  summary_short_loop (active_list p) 0.

Definition process_list_get_kill_list_items (p : process_list) : Z :=
  foldl (λ res _, res + 1) 0 (to_kill_list p).

(** Initialized or finished: there is no process. *)
Definition no_process (s : process_list_entry_state) : bool :=
  bool_decide (s = PROCESS_LIST_ENTRY_STATE_INITIALIZED) || bool_decide (s = PROCESS_LIST_ENTRY_STATE_FINISHED).

Definition process_list_move_entry_to_kill_list (e : process_list_entry) (p : process_list) :
    process_list :=
  set_to_kill_list (to_kill_list p ++ [e]) (set_active_list (tail (active_list p)) p).

(** The entry is always the first one: those before it have left the list. *)
Fixpoint move_loop (l : list process_list_entry) (p : process_list) : res process_list :=
  match l with
  | [] => Ok p
  | e :: l' =>
      if no_process (process_state e) then
        match process_list_entry_free e with
        | Err c => Err c
        | Ok _ =>
            move_loop l' (set_allocated_entries (allocated_list_entries p - 1)
                            (set_active_list (tail (active_list p)) p))
        end
      else move_loop l' (process_list_move_entry_to_kill_list e p)
  end.

Definition process_list_move_active_entries_to_kill_list (p : process_list) : res process_list :=
  move_loop (active_list p) p.

(** ** The system *)

(** [fork_exec]: the pid, or -1.  [waitpid]: its result and the status.  [kill]: [errno], 0 when
    it succeeds.  [sleep]: [poll] of nothing. *)
Class ProcessSystem (W : Type) := {
  fork_exec : bool → list c_string → M W Z;
  waitpid : Z → M W (Z * Z);
  kill : Z → Z → M W Z;
  notify : process_list_notify_reason → process_list_entry → M W unit;
  sleep : Z → M W unit
}.

Section system.
Context {W : Type} `{ProcessSystem W}.

Definition notify_if (p : process_list) (reason : process_list_notify_reason)
    (e : process_list_entry) : M W unit :=
  if notify_fn p then notify reason e else mret tt.

(** The result and the entry. *)
Definition process_list_entry_exec (p : process_list) (e : process_list_entry) :
    M W (Z * process_list_entry) :=
  if negb (bool_decide (process_state e = PROCESS_LIST_ENTRY_STATE_INITIALIZED)) then mret (-1, e)
  else
    match exec_argv e with
    | None => fail NULL_DEREF
    | Some argv =>
        pid ← fork_exec (use_execvp p) argv;
        if pid =? -1 then mret (-1, e)
        else
          let e := set_process_state PROCESS_LIST_ENTRY_STATE_RUNNING (set_pid pid e) in
          notify_if p PROCESS_LIST_NOTIFY_REASON_EXECUTED e;;
          mret (0, e)
    end.

(** Walk a list, change its entries, stop at the first error. *)
Fixpoint for_entries (f : process_list_entry → M W (Z * process_list_entry))
    (l : list process_list_entry) : M W (Z * list process_list_entry) :=
  match l with
  | [] => mret (0, [])
  | e :: l' =>
      '(r, e) ← f e;
      if negb (r =? 0) then mret (-1, e :: l')
      else '(r, l') ← for_entries f l'; mret (r, e :: l')
  end.

Definition exec_if_initialized (p : process_list) (e : process_list_entry) :
    M W (Z * process_list_entry) :=
  if bool_decide (process_state e = PROCESS_LIST_ENTRY_STATE_INITIALIZED)
  then process_list_entry_exec p e else mret (0, e).

(** An operation on the list: the world is the rest of the state. *)
Definition for_active (f : process_list → process_list_entry → M W (Z * process_list_entry)) :
    M (process_list * W) Z := λ '(p, w),
  match for_entries (f p) (active_list p) w with
  | (Ok (r, l), w) => (Ok r, (set_active_list l p, w))
  | (Err c, w) => (Err c, (p, w))
  end.

Definition process_list_exec_initialized : M (process_list * W) Z := for_active exec_if_initialized.

Definition process_list_entry_waitpid (p : process_list) (e : process_list_entry) :
    M W (Z * process_list_entry) :=
  if no_process (process_state e) then mret (0, e)
  else
    '(wpid_res, status) ← waitpid (pid e);
    if wpid_res =? -1 then mret (-1, e)
    else if wpid_res =? 0 then mret (0, e)
    else
      let e := set_exit_status status e in
      (if bool_decide (process_state e = PROCESS_LIST_ENTRY_STATE_RUNNING)
       then notify_if p PROCESS_LIST_NOTIFY_REASON_FINISHED e else mret tt);;
      mret (0, set_process_state PROCESS_LIST_ENTRY_STATE_FINISHED e).

(** The second part of [process_list_waitpid]: what stays in the list, and how many left it. *)
Fixpoint reap_loop (p : process_list) (l : list process_list_entry) :
    M W (Z * list process_list_entry * Z) :=
  match l with
  | [] => mret (0, [], 0)
  | e :: l' =>
      '(r, e) ← process_list_entry_waitpid p e;
      if negb (r =? 0) then mret (-1, e :: l', 0)
      else if bool_decide (process_state e = PROCESS_LIST_ENTRY_STATE_FINISHED) then
        match process_list_entry_free e with
        | Err c => fail c
        | Ok _ => '(r, l', n) ← reap_loop p l'; mret (r, l', n + 1)
        end
      else '(r, l', n) ← reap_loop p l'; mret (r, e :: l', n)
  end.

Definition reap_to_kill_list : M (process_list * W) Z := λ '(p, w),
  match reap_loop p (to_kill_list p) w with
  | (Ok (r, l, n), w) =>
      (Ok r, (set_to_kill_list l (set_allocated_entries (allocated_list_entries p - n) p), w))
  | (Err c, w) => (Err c, (p, w))
  end.

Definition process_list_waitpid : M (process_list * W) Z :=
  r ← for_active process_list_entry_waitpid;
  if negb (r =? 0) then mret (-1) else reap_to_kill_list.

(** The signal and the next state. *)
Definition signal_to_send (s : process_list_entry_state) : res (Z * process_list_entry_state) :=
  match s with
  | PROCESS_LIST_ENTRY_STATE_INITIALIZED | PROCESS_LIST_ENTRY_STATE_FINISHED => Err ASSERT
  | PROCESS_LIST_ENTRY_STATE_RUNNING => Ok (SIGTERM, PROCESS_LIST_ENTRY_STATE_SIGTERM_SENT)
  | PROCESS_LIST_ENTRY_STATE_SIGTERM_SENT | PROCESS_LIST_ENTRY_STATE_SIGKILL_SENT =>
      Ok (SIGKILL, PROCESS_LIST_ENTRY_STATE_SIGKILL_SENT)
  end.

Definition process_list_process_kill_list_entry (e : process_list_entry) :
    M W (Z * process_list_entry) :=
  match signal_to_send (process_state e) with
  | Err c => fail c
  | Ok (sig_to_send, new_state) =>
      errno ← kill (pid e) sig_to_send;
      mret (if (errno =? EPERM) || (errno =? EINVAL) then -1 else 0, set_process_state new_state e)
  end.

Definition for_to_kill (f : process_list_entry → M W (Z * process_list_entry)) :
    M (process_list * W) Z := λ '(p, w),
  match for_entries f (to_kill_list p) w with
  | (Ok (r, l), w) => (Ok r, (set_to_kill_list l p, w))
  | (Err c, w) => (Err c, (p, w))
  end.

Definition process_list_process_kill_list : M (process_list * W) Z :=
  r ← process_list_waitpid;
  if negb (r =? 0) then mret (-1) else for_to_kill process_list_process_kill_list_entry.

Definition on_process_list (f : process_list → res process_list) : M (process_list * W) unit :=
  λ '(p, w), match f p with Ok p' => (Ok tt, (p', w)) | Err c => (Err c, (p, w)) end.

(** The first of the two loops. *)
Fixpoint quick_phase (n : nat) : M (process_list * W) Z :=
  match n with
  | O => mret 0
  | S n =>
      r ← process_list_process_kill_list;
      if negb (r =? 0) then mret (-1) else quick_phase n
  end.

Fixpoint slow_phase (n : nat) (action_timeout : Z) : M (process_list * W) Z :=
  match n with
  | O => mret 0
  | S n =>
      '(p, _) ← get;
      if process_list_get_kill_list_items p =? 0 then mret 0
      else
        r ← process_list_process_kill_list;
        if negb (r =? 0) then mret (-1)
        else
          (λ '(p, w), let '(r, w) := sleep action_timeout w in (r, (p, w)));;
          slow_phase n action_timeout
  end.

Definition process_list_killall (timeout : Z) : M (process_list * W) Z :=
  on_process_list process_list_move_active_entries_to_kill_list;;
  r ← quick_phase 10;
  if negb (r =? 0) then mret (-1)
  else
    r ← slow_phase 10 (Z.max 1 (timeout / 10));
    if negb (r =? 0) then mret (-1)
    else
      '(p, _) ← get;
      mret (if 0 <? process_list_get_kill_list_items p then -1 else 0).
End system.
