(* ===== verification/ProcessListFacts.v ===== *)
(** Child processes: a command is split into the words its text means, the two lists account for
    every entry, an entry leaves them only when it has no process (any more), and a process that
    is to end gets SIGTERM once and SIGKILL from then on, as the calls to the system show. *)
From stdpp Require Import strings.
From S2P Require Import Prelude Dynar DynarStr Lex ProcessList.
From stdpp Require Import list sets.
Local Open Scope Z_scope.

(** ** The words of a command *)

Abbreviation QUOTE := DYNAR_SIMPLE_LEX_TYPE_QUOTE.

Fixpoint words (fuel : nat) (l : list byte) : list c_string :=
  match fuel with
  | O => []
  | S fuel =>
      let '(token, rest) := lex_ref QUOTE SKIP l in
      if bool_decide (token = []) then [] else token :: words fuel rest
  end.

Definition command_words (command : c_string) : list c_string := words (S (length command)) command.

(** A token is no longer than what is read for it; a backslash between quotes may count for the
    character after it. *)
Definition debt (st : lex_state) : nat := match st with QUOTED_BACKSLASH => 1 | _ => 0 end.

Lemma lex_ref_length t l st token rest :
  lex_ref t st l = (token, rest) → (length token + length rest ≤ length l + debt st)%nat.
Proof.
  revert st token rest. induction l as [|ch l IH]; intros st token rest; cbn [lex_ref].
  { intros [= <- <-]. cbn [length]. lia. }
  cbv zeta. set (st0 := match st with SKIP => _ | _ => _ end).
  destruct (lex_round t st0 (Some ch)) as [[[out move] st']|] eqn:Er; [|intros [= <- <-]; cbn [length]; lia].
  destruct (lex_ref t st' l) as [tk rs] eqn:E. intros [= <- <-]. apply IH in E.
  rewrite length_app. cbn [length].
  assert (Ho : (length out + debt st' ≤ 1 + debt st)%nat); [|lia].
  assert (Hs : debt st0 = debt st).
  { unfold st0. destruct st; try done. by destruct (dynar_simple_lex_is_space ch). }
  rewrite <-Hs. clearbody st0. clear -Er. unfold lex_round in Er. destruct st0.
  all: repeat match type of Er with context [if ?b then _ else _] => destruct b end;
    try discriminate Er; injection Er as <- <- <-; cbn; lia.
Qed.

(** Each word takes something of the input. *)
Lemma words_fuel fuel1 fuel2 l :
  (length l < fuel1)%nat → (length l < fuel2)%nat → words fuel1 l = words fuel2 l.
Proof.
  revert fuel2 l. induction fuel1 as [|fuel1 IH]; intros fuel2 l H1 H2; [lia|].
  destruct fuel2 as [|fuel2]; [lia|]. cbn [words].
  destruct (lex_ref QUOTE SKIP l) as [token rest] eqn:E. apply lex_ref_length in E. cbn in E.
  destruct (bool_decide_reflect (token = [])) as [->|Ht]; [done|].
  destruct token; [done|]. cbn in E. f_equal. apply IH; lia.
Qed.

(** ** What a user writes

    A command is a list of words between blanks. A word is made of plain characters, of
    characters behind a backslash and of parts between quotes, as in a shell. *)

Inductive quoted_piece := QUOTED_CHAR (ch : byte) | QUOTED_ESCAPED (ch : byte).
Inductive word_piece := CHAR (ch : byte) | ESCAPED (ch : byte) | BETWEEN_QUOTES (l : list quoted_piece).
Abbreviation word := (list word_piece).

(** The blanks before a word, and the word. *)
Record command_line := mk_command_line {
  cl_words : list (list byte * word);
  cl_blanks : list byte;
  cl_next_line : option (byte * list byte)
}.

Definition quoted_text (q : quoted_piece) : list byte :=
  match q with QUOTED_CHAR ch => [ch] | QUOTED_ESCAPED ch => [x5c; ch] end.
Definition piece_text (p : word_piece) : list byte :=
  match p with
  | CHAR ch => [ch]
  | ESCAPED ch => [x5c; ch]
  | BETWEEN_QUOTES l => [x22] ++ (l ≫= quoted_text) ++ [x22]
  end.
Definition word_text (w : word) : list byte := w ≫= piece_text.
Definition command_text (c : command_line) : list byte :=
  (cl_words c ≫= λ '(blanks, w), blanks ++ word_text w) ++ cl_blanks c ++
  match cl_next_line c with None => [] | Some (ch, l) => ch :: l end.

(** What is meant: a backslash takes the special meaning of the next character, between quotes
    only that of a quote and of a backslash. *)
Definition quoted_meaning (q : quoted_piece) : list byte :=
  match q with
  | QUOTED_CHAR ch => [ch]
  | QUOTED_ESCAPED ch => if bool_decide (ch = x22 ∨ ch = x5c) then [ch] else [x5c; ch]
  end.
Definition piece_meaning (p : word_piece) : list byte :=
  match p with
  | CHAR ch => [ch]
  | ESCAPED ch => [ch]
  | BETWEEN_QUOTES l => l ≫= quoted_meaning
  end.
Definition word_meaning (w : word) : c_string := w ≫= piece_meaning.

(** The words up to one that is empty, as two quotes with nothing between them are. *)
Fixpoint up_to_empty (l : list c_string) : list c_string :=
  match l with [] :: _ | [] => [] | w :: l' => w :: up_to_empty l' end.
Definition command_meaning (c : command_line) : list c_string :=
  up_to_empty ((λ bw, word_meaning (snd bw)) <$> cl_words c).

(** The characters a piece may be made of: newlines end a command, plain characters are not
    special. *)
Definition on_line (ch : byte) : Prop := ch ≠ x0a ∧ ch ≠ x0d.
Definition blank (ch : byte) : Prop := ch ∈ [x20; x0c; x09; x0b].
Definition quoted_valid (q : quoted_piece) : Prop :=
  match q with
  | QUOTED_CHAR ch => on_line ch ∧ ch ≠ x22 ∧ ch ≠ x5c
  | QUOTED_ESCAPED ch => on_line ch
  end.
Definition piece_valid (p : word_piece) : Prop :=
  match p with
  | CHAR ch => on_line ch ∧ ¬ blank ch ∧ ch ≠ x22 ∧ ch ≠ x5c
  | ESCAPED ch => on_line ch
  | BETWEEN_QUOTES l => Forall quoted_valid l
  end.
(** Blanks stand between two words. *)
Fixpoint words_valid (first : bool) (l : list (list byte * word)) : Prop :=
  match l with
  | [] => True
  | (blanks, w) :: l' =>
      Forall blank blanks ∧ (first = true ∨ blanks ≠ []) ∧ w ≠ [] ∧ Forall piece_valid w ∧ words_valid false l'
  end.
Definition command_valid (c : command_line) : Prop :=
  words_valid true (cl_words c) ∧ Forall blank (cl_blanks c) ∧
  match cl_next_line c with None => True | Some (ch, _) => ch = x0a ∨ ch = x0d end.

#[local] Instance blank_dec ch : Decision (blank ch).
Proof. unfold blank. apply _. Defined.
#[local] Instance quoted_valid_dec q : Decision (quoted_valid q).
Proof. destruct q; unfold quoted_valid, on_line; apply _. Defined.
#[local] Instance piece_valid_dec p : Decision (piece_valid p).
Proof. destruct p; unfold piece_valid, on_line; apply _. Defined.
#[local] Instance words_valid_dec first l : Decision (words_valid first l).
Proof. revert first. induction l as [|[blanks w] l IH]; intros first; cbn [words_valid]; apply _. Defined.

Lemma on_line_newline ch : on_line ch → is_newline ch = false.
Proof. intros [? ?]. unfold is_newline. by rewrite !bool_decide_eq_false_2. Qed.
Lemma blank_space ch : blank ch → dynar_simple_lex_is_space ch = true ∧ is_newline ch = false.
Proof.
  unfold blank. intros H. split.
  - apply bool_decide_eq_true_2. set_solver.
  - unfold is_newline. rewrite !bool_decide_eq_false_2; [done|intros ->; set_solver..].
Qed.
Lemma plain_no_space ch : on_line ch → ¬ blank ch → dynar_simple_lex_is_space ch = false.
Proof. intros [? ?] ?. apply bool_decide_eq_false_2. unfold blank in *. set_solver. Qed.

Lemma lex_quoted l rest token rest' :
  Forall quoted_valid l → lex_ref QUOTE WORD rest = (token, rest') →
  lex_ref QUOTE QUOTED ((l ≫= quoted_text) ++ x22 :: rest) = ((l ≫= quoted_meaning) ++ token, rest').
Proof.
  intros Hl E. induction Hl as [|q l Hq _ IH].
  { change ([] ≫= quoted_text) with (@nil byte). change ([] ≫= quoted_meaning) with (@nil byte).
    cbn [app lex_ref lex_round]. change (bool_decide (x22 = x5c)) with false.
    change (bool_decide (x22 = x22)) with true. cbn [app]. by rewrite E. }
  rewrite !bind_cons, <-!app_assoc. destruct q as [ch|ch]; cbn [quoted_text quoted_meaning app].
  - destruct Hq as (Hn & H22 & H5c). cbn [lex_ref lex_round].
    by rewrite !bool_decide_eq_false_2, (on_line_newline ch Hn), IH by done.
  - cbn [lex_ref lex_round]. rewrite (bool_decide_eq_true_2 (x5c = x5c)) by done. cbn [lex_ref lex_round].
    rewrite (on_line_newline ch Hq). destruct (decide (ch = x22)) as [->|H22].
    { change (bool_decide (x22 = x5c) || bool_decide (x22 = x22)) with true. cbn [app]. by rewrite IH. }
    destruct (decide (ch = x5c)) as [->|H5c].
    { change (bool_decide (x5c = x5c) || bool_decide (x5c = x22)) with true. cbn [app]. by rewrite IH. }
    rewrite !bool_decide_eq_false_2 by naive_solver. cbn [app orb]. by rewrite IH.
Qed.

Lemma lex_word w rest token rest' :
  Forall piece_valid w → lex_ref QUOTE WORD rest = (token, rest') →
  lex_ref QUOTE WORD (word_text w ++ rest) = (word_meaning w ++ token, rest').
Proof.
  unfold word_text, word_meaning. intros Hw E. induction Hw as [|p w Hp _ IH]; [done|].
  rewrite !bind_cons, <-!app_assoc. destruct p as [ch|ch|l]; cbn [piece_text piece_meaning app].
  - destruct Hp as (Hn & Hb & H22 & H5c). cbn [lex_ref lex_round].
    by rewrite !bool_decide_eq_false_2, !andb_false_r, (plain_no_space ch), IH by done.
  - cbn [lex_ref lex_round]. change (escapes QUOTE && bool_decide (x5c = x5c)) with true. cbn [lex_ref lex_round].
    by rewrite (on_line_newline ch Hp), IH.
  - cbn [lex_ref lex_round]. change (escapes QUOTE && bool_decide (x22 = x5c)) with false.
    change (quotes QUOTE && bool_decide (x22 = x22)) with true. cbn [lex_ref].
    rewrite <-app_assoc. cbn [app]. by rewrite (lex_quoted l _ _ _ Hp IH).
Qed.

Lemma lex_blanks blanks rest : Forall blank blanks → lex_ref QUOTE SKIP (blanks ++ rest) = lex_ref QUOTE SKIP rest.
Proof.
  induction 1 as [|ch blanks Hch _ IH]; [done|]. destruct (blank_space ch Hch) as [Hs Hn].
  cbn [app lex_ref]. rewrite Hs. cbn [lex_round]. rewrite Hn, Hs, IH. by destruct (lex_ref QUOTE SKIP rest).
Qed.

(** A word starts with no blank. *)
Lemma lex_word_start w rest :
  w ≠ [] → Forall piece_valid w →
  lex_ref QUOTE SKIP (word_text w ++ rest) = lex_ref QUOTE WORD (word_text w ++ rest).
Proof.
  intros Hne Hw. destruct Hw as [|p w Hp _]; [done|]. unfold word_text. rewrite bind_cons, <-!app_assoc.
  assert (Hs : ∃ ch l, piece_text p = ch :: l ∧ dynar_simple_lex_is_space ch = false).
  { destruct p as [ch|ch|l]; cbn [piece_text]; [|by eexists _, _..].
    destruct Hp as (Hn & Hb & _). exists ch, []. split; [done|by apply plain_no_space]. }
  destruct Hs as (ch & l & -> & Hs). cbn [app lex_ref]. by rewrite Hs.
Qed.

(** What follows a word ends it. *)
Definition ends_word (rest : list byte) : Prop :=
  rest = [] ∨ ∃ ch l, rest = ch :: l ∧ dynar_simple_lex_is_space ch = true.
Lemma lex_ends rest : ends_word rest → lex_ref QUOTE WORD rest = ([], rest).
Proof.
  intros [->|(ch & l & -> & Hs)]; [done|]. cbn [lex_ref lex_round].
  destruct (bool_decide_reflect (ch = x5c)) as [->|]; [done|].
  destruct (bool_decide_reflect (ch = x22)) as [->|]; [done|]. by rewrite !andb_false_r, Hs.
Qed.

Lemma words_of_text l first tail fuel :
  words_valid first l → (tail = [] ∨ ∃ ch tail', tail = ch :: tail' ∧ dynar_simple_lex_is_space ch = true) →
  (∀ fuel, words fuel tail = []) →
  let text := (l ≫= λ '(blanks, w), blanks ++ word_text w) ++ tail in
  (length text < fuel)%nat → words fuel text = up_to_empty ((λ bw, word_meaning (snd bw)) <$> l).
Proof.
  intros Hl Ht Hw. revert first Hl fuel. induction l as [|[blanks w] l IH]; intros first Hl fuel text Hf.
  { apply Hw. }
  destruct Hl as (Hb & _ & Hne & Hp & Hl). unfold text in *. clear text. rewrite bind_cons, <-!app_assoc in Hf |- *.
  set (rest := (l ≫= λ '(blanks, w), blanks ++ word_text w) ++ tail) in *.
  destruct fuel as [|fuel]; [lia|]. cbn [words fmap list_fmap snd].
  assert (Hend : ends_word rest).
  { unfold rest. destruct l as [|[b2 w2] l]; [exact Ht|]. right. destruct Hl as (Hb2 & [?|Hn2] & _); [done|].
    destruct Hb2 as [|ch b2 Hch _]; [done|]. eexists _, _. split; [by rewrite bind_cons|by apply blank_space]. }
  pose proof (lex_word w rest [] rest Hp (lex_ends rest Hend)) as E. rewrite app_nil_r in E.
  rewrite (lex_blanks blanks _ Hb), (lex_word_start w _ Hne Hp), E. rewrite !length_app in Hf.
  destruct (word_meaning w) as [|b m]; [by rewrite bool_decide_eq_true_2|].
  rewrite bool_decide_eq_false_2 by done. cbn [up_to_empty]. f_equal. apply (IH false); [done|].
  destruct w as [|p w]; [done|].
  assert (0 < length (word_text (p :: w)))%nat; [|lia].
  unfold word_text. rewrite bind_cons, length_app. destruct p; cbn; lia.
Qed.

Lemma command_words_text c : command_valid c → command_words (command_text c) = command_meaning c.
Proof.
  intros (Hw & Hb & Hn). unfold command_words, command_text, command_meaning.
  assert (Hnl : ∀ fuel, words fuel (match cl_next_line c with None => [] | Some (ch, l) => ch :: l end) = []).
  { intros [|fuel]; [done|]. cbn [words]. destruct (cl_next_line c) as [[ch l]|]; [|done].
    by destruct Hn as [-> | ->]. }
  eapply words_of_text; [exact Hw| | |lia].
  - destruct Hb as [|ch b Hch _].
    + destruct (cl_next_line c) as [[ch l]|]; [right|by left].
      eexists _, _. split; [reflexivity|]. by destruct Hn as [-> | ->].
    + right. eexists _, _. split; [reflexivity|by apply blank_space].
  - intros [|fuel]; [done|]. cbn [words]. rewrite lex_blanks by done. apply (Hnl (S fuel)).
Qed.

(** A lexer in the middle of a command, as the passes leave it. *)
Record lexing (command : c_string) (rest : list byte) (lex : dynar_simple_lex) : Prop := {
  lx_token : wf (lex_token lex);
  lx_input : contents (lex_input lex) = command;
  lx_type : Lex.lex_type lex = QUOTE;
  lx_max : maximum_size (lex_token lex) = Z.of_nat (length command) + 1;
  lx_pos : (lex_pos lex ≤ length command)%nat;
  lx_rest : drop (lex_pos lex) command = rest
}.

Lemma lexing_next command rest lex h :
  lexing command rest lex →
  let '(token, rest') := lex_ref QUOTE SKIP rest in
  match dynar_simple_lex_token_next (lex, h) with
  | (Ok (Some tk), (lex', h')) => token_str tk = token ∧ lexing command rest' lex' ∧ h' `suffix_of` h
  | (Ok None, _) => None ∈ h
  | (Err _, _) => False
  end.
Proof.
  intros [Hw Hi Ht Hm Hp Hr]. pose proof (token_next_ref lex h Hw) as Hn. cbv zeta in Hn.
  rewrite Hi, Ht, Hr in Hn. specialize (Hn Hp).
  destruct (lex_ref QUOTE SKIP rest) as [token rest'] eqn:E.
  pose proof (lex_ref_rest _ _ _ _ _ E) as [k Hk]. apply lex_ref_length in E. cbn in E.
  assert (Hl : length rest = (length command - lex_pos lex)%nat) by (rewrite <-Hr; apply length_drop).
  destruct (dynar_simple_lex_token_next (lex, h)) as [[[tk|]|c] [lex' h']]; [| |done].
  - destruct Hn as (Hwt & Hc & -> & Hmx & Hh). split_and!; [|split; cbn|done]; try done; try lia.
    + unfold token_str. by rewrite Hc, removelast_last.
    + apply (f_equal length) in Hk as Hkl. rewrite length_app in Hkl.
      assert (Hd : drop (length command - length rest') command = drop (length k) rest).
      { rewrite <-Hr, drop_drop. f_equal. lia. }
      rewrite Hd, Hk. by rewrite drop_app_length.
  - destruct Hn as [_ [Hbad|?]]; [lia|done].
Qed.

Lemma count_params_spec command fuel rest n lex h :
  lexing command rest lex → (length rest < fuel)%nat →
  match count_params fuel n (lex, h) with
  | (Ok (true, m), (_, h')) => m = n + Z.of_nat (length (words fuel rest)) ∧ h' `suffix_of` h
  | (Ok (false, m), _) => n ≤ m ∧ None ∈ h
  | (Err _, _) => False
  end.
Proof.
  revert rest n lex h. induction fuel as [|fuel IH]; intros rest n lex h Hl Hf; [lia|].
  cbn [count_params words]. pose proof (lexing_next command rest lex h Hl) as Hn.
  destruct (lex_ref QUOTE SKIP rest) as [token rest'] eqn:E. apply lex_ref_length in E. cbn in E.
  destruct (dynar_simple_lex_token_next (lex, h)) as [[[tk|]|c] [lex' h']] eqn:En; [| |done];
    rewrite (bind_ok _ _ _ _ _ En).
  - destruct Hn as (Hs & Hl' & Hh). rewrite Hs. destruct token as [|b token].
    { rewrite !bool_decide_eq_true_2 by done. split; [cbn; lia|done]. }
    rewrite !bool_decide_eq_false_2 by done. cbn [length] in E. specialize (IH rest' (n + 1) lex' h' Hl' ltac:(lia)).
    destruct (count_params fuel (n + 1) (lex', h')) as [[[[] m]|c] [lex2 h2]]; [| |done].
    + destruct IH as [-> Hh2]. split; [cbn [length]; lia|]. by etrans.
    + destruct IH as [? Hn2]. split; [lia|]. by eapply suffix_in.
  - split; [lia|done].
Qed.

Lemma store_params_spec command fuel rest n argv lex h :
  lexing command rest lex → (length rest < fuel)%nat →
  Z.of_nat (length argv) + Z.of_nat (length (words fuel rest)) = n →
  match store_params fuel n argv (lex, h) with
  | (Ok (Some l), (_, h')) => l = argv ++ words fuel rest ∧ h' `suffix_of` h
  | (Ok None, _) => None ∈ h
  | (Err _, _) => False
  end.
Proof.
  revert rest argv lex h. induction fuel as [|fuel IH]; intros rest argv lex h Hl Hf; [lia|].
  cbn [store_params words]. pose proof (lexing_next command rest lex h Hl) as Hn.
  destruct (lex_ref QUOTE SKIP rest) as [token rest'] eqn:E. apply lex_ref_length in E. cbn in E.
  destruct (dynar_simple_lex_token_next (lex, h)) as [[[tk|]|c] [lex' h']] eqn:En; [| |done];
    rewrite (bind_ok _ _ _ _ _ En); intros Hlen; [|done].
  destruct Hn as (Hs & Hl' & Hh). rewrite Hs. destruct token as [|b token].
  { rewrite !bool_decide_eq_true_2 by done. by rewrite app_nil_r. }
  rewrite !bool_decide_eq_false_2 in Hlen |- * by done. cbn [length] in E, Hlen.
  destruct (Z.leb_spec (n + 1) (Z.of_nat (length argv))); [lia|].
  destruct (malloc h') as [[j|] h2] eqn:Em.
  - pose proof (malloc_suffix _ _ _ Em) as Hs2.
    rewrite (bind_ok _ _ _ (Some (b :: token)) (lex', h2)) by (unfold strdup; by rewrite Em).
    specialize (IH rest' (argv ++ [b :: token]) lex' h2 Hl' ltac:(lia)).
    rewrite length_app in IH. cbn [length] in IH. specialize (IH ltac:(lia)).
    destruct (store_params fuel n _ (lex', h2)) as [[[l|]|c] [lex3 h3]]; [| |done].
    + destruct IH as [-> Hh3]. rewrite <-app_assoc. split; [done|]. etrans; [exact Hh3|]. by etrans.
    + eapply suffix_in; [|exact IH]. by etrans.
  - rewrite (bind_ok _ _ _ None (lex', h2)) by (unfold strdup; by rewrite Em).
    apply malloc_None in Em. eapply suffix_in; [|exact Em]. done.
Qed.

(** A command fits into memory. *)
Definition fits (command : c_string) : Prop := Z.of_nat (length command) + 1 < 2 ^ 62.

Lemma lexing_init command d :
  fits command → contents d = command → maximum_size d = Z.of_nat (length command) + 1 →
  lexing command command (dynar_simple_lex_init d QUOTE).
Proof. unfold fits. intros Hw Hc Hm. split; cbn; try done; [apply wf_init; lia|lia]. Qed.

(** What a command is parsed to; without memory it may fail at any step. *)
Lemma parse_command_spec command h :
  fits command →
  match process_list_parse_command command h with
  | (Ok (argv, argc), h') =>
      argv = Some (command_words command) ∧ argc = Z.of_nat (length (command_words command)) ∧
        command_words command ≠ [] ∧ h' `suffix_of` h ∨
      argv = None ∧ argc = 0 ∧ command_words command = [] ∧ h' `suffix_of` h ∨
      argv = None ∧ 0 ≤ argc ∧ None ∈ h
  | (Err _, _) => False
  end.
Proof.
  intros Hfit. unfold process_list_parse_command.
  assert (Hw : wf (dynar_init (Z.of_nat (length command) + 1))) by (apply wf_init; unfold fits in Hfit; lia).
  pose proof (dynar_str_cpy_spec command _ h Hw ltac:(unfold fits in Hfit; lia)) as Hc.
  destruct (dynar_str_cpy command _) as [[[]|c] [d h1]].
  2: { destruct Hc as (_ & _ & _ & _ & Hor). cbn in Hor. right; right. split_and!; try done. destruct Hor; [lia|done]. }
  destruct Hc as (_ & Hcd & Hmd & Hh1). cbn in Hmd.
  pose proof (lexing_init command d Hfit Hcd Hmd) as Hl.
  assert (Hsf : ∀ h2 : heap, None ∈ h2 → h2 `suffix_of` h1 → None ∈ h).
  { intros h2 Hn Hs. eapply suffix_in; [|exact Hn]. by etrans. }
  unfold with_lex, command_words. set (fuel := S (length command)). set (ws := words fuel command).
  pose proof (count_params_spec command fuel command 0 _ h1 Hl ltac:(lia)) as Hcount. fold ws in Hcount.
  unfold mbind, M_bind. destruct (count_params fuel 0 _) as [[[[] m]|c] [lex2 h2]]; [| |done].
  2: { right; right. split_and!; [done|apply Hcount|]. apply (Hsf h1); [apply Hcount|done]. }
  destruct Hcount as [-> Hh2]. cbn [negb orb].
  destruct (Z.ltb_spec (0 + Z.of_nat (length ws)) 1) as [Hz|Hz].
  { right; left. split_and!; try done; [lia|by destruct ws; [|cbn in Hz; lia]|by etrans]. }
  unfold malloc_argv. destruct (malloc h2) as [[j|] h3] eqn:Em.
  2: { right; right. split_and!; [done|lia|]. apply (Hsf h2); [by eapply malloc_None|done]. }
  pose proof (malloc_suffix _ _ _ Em) as Hh3.
  pose proof (store_params_spec command fuel command (0 + Z.of_nat (length ws)) [] _ h3 Hl ltac:(lia)
    eq_refl) as Hstore. fold ws in Hstore. cbn [negb].
  destruct (store_params fuel _ [] _) as [[[l|]|c] [lex4 h4]]; [| |done].
  - destruct Hstore as [-> Hh4]. cbn [app]. rewrite (proj2 (Z.eqb_eq _ _)) by lia. left.
    split_and!; [done|lia|intros ->; cbn in Hz; lia|]. by do 3 (etrans; [done|]).
  - right; right. split_and!; [done|lia|]. apply (Hsf h3); [done|]. by etrans.
Qed.

(** ** The lists *)

(** An entry has its words. *)
Definition has_argv (e : process_list_entry) : Prop := is_Some (exec_argv e).

Definition may_be_active (e : process_list_entry) : Prop :=
  has_argv e ∧ process_state e ∈ [PROCESS_LIST_ENTRY_STATE_INITIALIZED; PROCESS_LIST_ENTRY_STATE_RUNNING;
    PROCESS_LIST_ENTRY_STATE_FINISHED].
Definition may_be_killed (e : process_list_entry) : Prop :=
  has_argv e ∧ process_state e ∈ [PROCESS_LIST_ENTRY_STATE_RUNNING; PROCESS_LIST_ENTRY_STATE_SIGTERM_SENT;
    PROCESS_LIST_ENTRY_STATE_SIGKILL_SENT].

Record plist_ok (p : process_list) : Prop := {
  pl_count : allocated_list_entries p = Z.of_nat (length (active_list p) + length (to_kill_list p));
  pl_max : allocated_list_entries p ≤ max_list_entries p;
  pl_active : Forall may_be_active (active_list p);
  pl_to_kill : Forall may_be_killed (to_kill_list p)
}.

Lemma plist_ok_init max execvp notify : 0 ≤ max → plist_ok (process_list_init max execvp notify).
Proof. by split. Qed.

Lemma free_has_argv e : has_argv e → process_list_entry_free e = Ok tt.
Proof. intros [argv E]. unfold process_list_entry_free, process_list_free_argv. by rewrite E. Qed.

(** Adding a command: with memory it succeeds exactly when there is room and the command has a
    word. *)
Lemma process_list_add_spec name command p h :
  plist_ok p → fits command →
  match process_list_add name command (p, h) with
  | (Ok true, (p', _)) => plist_ok p' ∧ allocated_list_entries p < max_list_entries p ∧
      active_list p' = active_list p ++ [mk_process name PROCESS_LIST_ENTRY_STATE_INITIALIZED
        (Some (command_words command)) (Z.of_nat (length (command_words command))) 0 0] ∧
      to_kill_list p' = to_kill_list p ∧ command_words command ≠ []
  | (Ok false, (p', _)) => p' = p ∧
      (max_list_entries p ≤ allocated_list_entries p ∨ command_words command = [] ∨ None ∈ h)
  | (Err c, (p', _)) => c = NULL_DEREF ∧ p' = p ∧ None ∈ h
  end.
Proof.
  intros Hok Hfit. unfold process_list_add.
  destruct (Z.ltb_spec (max_list_entries p) (allocated_list_entries p + 1)); [split; [done|left; lia]|].
  destruct (malloc h) as [[j|] h1] eqn:E1; [|split; [done|right; right; by eapply malloc_None]].
  destruct (malloc h1) as [[j'|] h2] eqn:E2.
  2: { split; [done|]. right; right. eapply suffix_in; [by eapply malloc_suffix|by eapply malloc_None]. }
  assert (Hsf : None ∈ h2 → None ∈ h).
  { apply suffix_in. etrans; [by eapply malloc_suffix|by eapply malloc_suffix]. }
  pose proof (parse_command_spec command h2 Hfit) as Hp.
  destruct (process_list_parse_command command h2) as [[[argv argc]|c] h3]; [|done].
  destruct Hp as [(-> & -> & Hne & _)|[(-> & -> & Hw & _)|(-> & Hargc & Hn)]].
  - split_and!; try done; [|lia]. destruct Hok as [Hc Hm Ha Hk].
    split; cbn; rewrite ?length_app; cbn; [lia..| |done].
    apply Forall_app. split; [done|]. repeat constructor. by eexists.
  - cbn. split; [done|]. right; by left.
  - cbn. unfold process_list_entry_free, process_list_free_argv. cbn.
    destruct (0 <? argc); split_and!; try done; auto.
Qed.

Lemma move_loop_ok l p :
  plist_ok p → active_list p = l →
  ∃ p', move_loop l p = Ok p' ∧ plist_ok p' ∧ active_list p' = [] ∧
    to_kill_list p' = to_kill_list p ++ filter (λ e, no_process (process_state e) = false) l ∧
    max_list_entries p' = max_list_entries p.
Proof.
  revert p. induction l as [|e l IH]; intros p Hok Hl; cbn [move_loop].
  { exists p. by rewrite filter_nil, app_nil_r. }
  pose proof Hok as [Hc Hm Ha Hk]. rewrite Hl in Hc, Ha. cbn [length] in Hc.
  apply Forall_cons in Ha as [[Hav Hst] Ha]. rewrite filter_cons.
  destruct (no_process (process_state e)) eqn:En.
  - rewrite (free_has_argv e Hav).
    destruct (IH (set_allocated_entries (allocated_list_entries p - 1) (set_active_list (tail (active_list p)) p)))
      as (p' & E & Hp' & Ha' & Hk' & Hm'); [|cbn; by rewrite Hl|].
    { split; cbn; rewrite ?Hl; cbn; try done; lia. }
    exists p'. rewrite decide_False by done. by split_and!.
  - destruct (IH (process_list_move_entry_to_kill_list e p)) as (p' & E & Hp' & Ha' & Hk' & Hm').
    { split; cbn; rewrite ?Hl, ?length_app; cbn; try done; [lia|]. apply Forall_app. split; [done|].
      constructor; [|done]. split; [done|]. unfold no_process in En. clear -Hst En.
      destruct (process_state e); try done; set_solver. }
    { cbn. by rewrite Hl. }
    exists p'. rewrite decide_True by done. split_and!; try done. rewrite Hk'. cbn. by rewrite <-app_assoc.
Qed.

(** Moving the active entries: those with a process are to be killed, the others are gone. *)
Lemma process_list_move_active_ok p :
  plist_ok p →
  ∃ p', process_list_move_active_entries_to_kill_list p = Ok p' ∧ plist_ok p' ∧ active_list p' = [] ∧
    to_kill_list p' = to_kill_list p ++ filter (λ e, no_process (process_state e) = false) (active_list p) ∧
    max_list_entries p' = max_list_entries p.
Proof. intros Hok. by apply move_loop_ok. Qed.

(** ** Summaries *)

Definition finished (e : process_list_entry) : Prop := process_state e = PROCESS_LIST_ENTRY_STATE_FINISHED.
Definition failed (e : process_list_entry) : Prop := failed_status (exit_status e) = true.

Lemma summary_loop_spec l r :
  summary_loop l r =
  if forallb (λ e, bool_decide (finished e)) l
  then if existsb (λ e, failed_status (exit_status e)) l then 1 else r else -1.
Proof.
  revert r. induction l as [|e l IH]; intros r; [done|]. cbn [summary_loop forallb existsb].
  unfold finished at 1. destruct (bool_decide (process_state e = _)); [|done]. cbn [negb andb].
  rewrite IH. clear IH. destruct (failed_status (exit_status e)); cbn [orb]; by repeat case_match.
Qed.

Lemma summary_short_loop_spec l r :
  summary_short_loop l r =
  if existsb (λ e, bool_decide (finished e) && failed_status (exit_status e)) l then 1
  else if forallb (λ e, bool_decide (finished e)) l then r else -1.
Proof.
  revert r. induction l as [|e l IH]; intros r; [done|]. cbn [summary_short_loop forallb existsb].
  unfold finished at 1 3. destruct (bool_decide (process_state e = _)); cbn [andb orb].
  - destruct (failed_status _); [done|]. apply IH.
  - rewrite IH. clear IH. by repeat case_match.
Qed.

(** ** With a system that answers *)

Class ProcessSystemTotal (W : Type) `{ProcessSystem W} := {
  fork_exec_total b argv w : ∃ r w', fork_exec b argv w = (Ok r, w');
  waitpid_total p w : ∃ r w', waitpid p w = (Ok r, w');
  kill_total p s w : ∃ r w', kill p s w = (Ok r, w');
  notify_total reason e w : ∃ w', notify reason e w = (Ok tt, w');
  sleep_total t w : ∃ w', sleep t w = (Ok tt, w')
}.

Section system.
Context {W : Type} `{ProcessSystemTotal W}.

(** A step on an entry that takes [P] to [Q]; an error leaves a [P]. *)
Definition entry_step (P Q : process_list_entry → Prop)
    (f : process_list_entry → M W (Z * process_list_entry)) : Prop :=
  ∀ e w, P e → ∃ r e' w', f e w = (Ok (r, e'), w') ∧ P e' ∧ (r = 0 → Q e').

Lemma for_entries_ok P Q f l w :
  entry_step P Q f → Forall P l →
  ∃ r l' w', for_entries f l w = (Ok (r, l'), w') ∧ length l' = length l ∧ Forall P l' ∧
    (r = 0 ∧ Forall Q l' ∨ r = -1).
Proof.
  intros Hf Hl. revert w. induction Hl as [|e l He Hl IH]; intros w; cbn [for_entries].
  { exists 0, [], w. split_and!; try done. by left. }
  destruct (Hf e w He) as (r & e' & w1 & E & Hp & Hq). rewrite (bind_ok _ _ _ _ _ E). cbv beta iota.
  destruct (Z.eqb_spec r 0) as [->|Hr]; cbn [negb].
  - destruct (IH w1) as (r & l' & w2 & E2 & Hlen & Hp' & Hr'). rewrite (bind_ok _ _ _ _ _ E2).
    eexists r, (e' :: l'), w2. split_and!; [done|cbn; lia|by constructor|].
    destruct Hr' as [[-> Hq']|?]; [left|by right]. split; [done|]. constructor; [by apply Hq|done].
  - eexists (-1), (e' :: l), w1. split_and!; [done|done| |by right]. by constructor.
Qed.

Lemma notify_if_total p reason e w : ∃ w', notify_if p reason e w = (Ok tt, w').
Proof. unfold notify_if. destruct (notify_fn p); [apply notify_total|by exists w]. Qed.

Lemma exec_step p : entry_step may_be_active may_be_active (exec_if_initialized p).
Proof.
  intros e w [[argv Hargv] Hst]. unfold exec_if_initialized.
  destruct (bool_decide_reflect (process_state e = PROCESS_LIST_ENTRY_STATE_INITIALIZED)) as [Ei|Hi].
  - unfold process_list_entry_exec. rewrite bool_decide_eq_true_2, Hargv by done. cbn [negb].
    destruct (fork_exec_total (use_execvp p) argv w) as (pid & w1 & E). rewrite (bind_ok _ _ _ _ _ E).
    assert (He : may_be_active e) by (split; [by eexists|done]).
    destruct (pid =? -1); [by exists (-1), e, w1|].
    set (e' := set_process_state PROCESS_LIST_ENTRY_STATE_RUNNING (set_pid pid e)).
    destruct (notify_if_total p PROCESS_LIST_NOTIFY_REASON_EXECUTED e' w1) as (w2 & E2).
    rewrite (bind_ok _ _ _ _ _ E2). exists 0, e', w2.
    assert (may_be_active e') by (split; [by eexists|set_solver]). done.
  - exists 0, e, w. assert (may_be_active e) by (split; [by eexists|done]). done.
Qed.

(** Waiting for the process of an entry: it is as it was, or finished. *)
Lemma waitpid_spec p e w :
  ∃ r e' w', process_list_entry_waitpid p e w = (Ok (r, e'), w') ∧
    (e' = e ∨ r = 0 ∧ no_process (process_state e) = false ∧
     ∃ status, e' = set_process_state PROCESS_LIST_ENTRY_STATE_FINISHED (set_exit_status status e)).
Proof.
  unfold process_list_entry_waitpid. destruct (no_process _) eqn:En; [exists 0, e, w; auto|].
  destruct (waitpid_total (pid e) w) as ([res status] & w1 & E). rewrite (bind_ok _ _ _ _ _ E).
  cbv beta iota. destruct (res =? -1); [exists (-1), e, w1; auto|].
  destruct (res =? 0); [exists 0, e, w1; auto|].
  assert (Hn : ∃ w2, (if bool_decide (process_state (set_exit_status status e) = PROCESS_LIST_ENTRY_STATE_RUNNING)
    then notify_if p PROCESS_LIST_NOTIFY_REASON_FINISHED (set_exit_status status e) else mret tt) w1 = (Ok tt, w2)).
  { destruct (bool_decide _); [apply notify_if_total|by exists w1]. }
  destruct Hn as (w2 & E2). rewrite (bind_ok _ _ _ _ _ E2). eexists 0, _, w2. split; [reflexivity|].
  right. split_and!; [done..|]. by exists status.
Qed.

Lemma waitpid_step p : entry_step may_be_active may_be_active (process_list_entry_waitpid p).
Proof.
  intros e w [Ha Hst]. destruct (waitpid_spec p e w) as (r & e' & w' & E & He).
  exists r, e', w'. assert (may_be_active e'); [|done].
  destruct He as [->|(_ & _ & status & ->)]; [done|]. split; [done|]. cbn. set_solver.
Qed.

(** How far the signals to a process have got. *)
Definition signals_sent (e : process_list_entry) : nat :=
  match process_state e with
  | PROCESS_LIST_ENTRY_STATE_SIGTERM_SENT => 1
  | PROCESS_LIST_ENTRY_STATE_SIGKILL_SENT => 2
  | _ => 0
  end.
Definition to_end (k : nat) (e : process_list_entry) : Prop :=
  may_be_killed e ∧ (k ≤ signals_sent e)%nat.

Lemma to_end_0 e : may_be_killed e → to_end 0 e.
Proof. split; [done|lia]. Qed.

Lemma reap_loop_ok k p l w :
  Forall (to_end k) l →
  ∃ r l' n w', reap_loop p l w = (Ok (r, l', n), w') ∧ (r = 0 ∨ r = -1) ∧ 0 ≤ n ∧
    Z.of_nat (length l) = Z.of_nat (length l') + n ∧ Forall (to_end k) l'.
Proof.
  intros Hl. revert w. induction Hl as [|e l He Hl IH]; intros w; cbn [reap_loop].
  { exists 0, [], 0, w. split_and!; try done. by left. }
  destruct (waitpid_spec p e w) as (r & e' & w1 & E & He'). rewrite (bind_ok _ _ _ _ _ E). cbv beta iota.
  destruct (Z.eqb_spec r 0) as [->|Hr]; cbn [negb].
  2: { destruct He' as [->|[? _]]; [|done]. exists (-1), (e :: l), 0, w1. split_and!; try lia; [done|by constructor]. }
  destruct (IH w1) as (r & l' & n & w2 & E2 & Hr & Hn & Hlen & Hl').
  destruct (bool_decide_reflect (process_state e' = PROCESS_LIST_ENTRY_STATE_FINISHED)) as [Ef|Hnf].
  - assert (Hav : has_argv e') by (destruct He as [[? _] _], He' as [->|(_ & _ & s & ->)]; done).
    rewrite (free_has_argv e' Hav), (bind_ok _ _ _ _ _ E2). cbv beta iota.
    exists r, l', (n + 1), w2. split_and!; try done; [lia|cbn [length]; lia].
  - destruct He' as [->|(_ & _ & s & ->)]; [|done]. rewrite (bind_ok _ _ _ _ _ E2). cbv beta iota.
    exists r, (e :: l'), n, w2. split_and!; try done; [cbn [length]; lia|by constructor].
Qed.

(** An operation on the lists that keeps them in order, and its result. *)
Definition keeps_lists (R : Z → process_list → process_list → Prop) (m : M (process_list * W) Z) : Prop :=
  ∀ p w, plist_ok p → ∃ r p' w', m (p, w) = (Ok r, (p', w')) ∧ plist_ok p' ∧
    max_list_entries p' = max_list_entries p ∧ length (active_list p') = length (active_list p) ∧
    (r = 0 ∨ r = -1) ∧ R r p p'.

Lemma for_active_ok f :
  (∀ p, entry_step may_be_active may_be_active (f p)) →
  keeps_lists (λ _ p p', to_kill_list p' = to_kill_list p) (for_active f).
Proof.
  intros Hf p w [Hc Hm Ha Hk]. unfold for_active.
  destruct (for_entries_ok _ _ (f p) (active_list p) w (Hf p) Ha) as (r & l' & w' & -> & Hlen & Ha' & Hr).
  eexists r, _, w'. split; [reflexivity|]. split; [split; cbn; rewrite ?Hlen; done|].
  split_and!; try done. tauto.
Qed.

(** All commands that are not running yet are started. *)
Lemma exec_initialized_ok :
  keeps_lists (λ _ p p', to_kill_list p' = to_kill_list p) process_list_exec_initialized.
Proof. apply for_active_ok, exec_step. Qed.

Definition all_to_end (k : nat) (p : process_list) : Prop := Forall (to_end k) (to_kill_list p).

Definition keeps_signals (p p' : process_list) : Prop := ∀ k, all_to_end k p → all_to_end k p'.

Lemma all_to_end_0 p : plist_ok p → all_to_end 0 p.
Proof. intros Hp. eapply Forall_impl; [apply Hp|apply to_end_0]. Qed.

Lemma keeps_lists_bind R1 R2 m1 m2 :
  keeps_lists R1 m1 → keeps_lists R2 m2 →
  keeps_lists (λ r p p', ∃ r1 p1, R1 r1 p p1 ∧ (r1 = 0 ∧ R2 r p1 p' ∨ r = -1 ∧ p' = p1))
    (r ← m1; if negb (r =? 0) then mret (-1) else m2).
Proof.
  intros H1 H2 p w Hp. destruct (H1 p w Hp) as (r1 & p1 & w1 & E1 & Hp1 & Hm1 & Hl1 & Hr1 & HR1).
  rewrite (bind_ok _ _ _ _ _ E1). destruct Hr1 as [-> | ->]; cbn [negb Z.eqb].
  - destruct (H2 p1 w1 Hp1) as (r2 & p2 & w2 & E2 & Hp2 & Hm2 & Hl2 & Hr2 & HR2).
    exists r2, p2, w2. split_and!; try done; [congruence..|]. exists 0, p1. auto.
  - exists (-1), p1, w1. split_and!; try done; [by right|]. exists (-1), p1. auto.
Qed.

Lemma keeps_lists_mono (R1 R2 : Z → process_list → process_list → Prop) m :
  (∀ r p p', R1 r p p' → R2 r p p') → keeps_lists R1 m → keeps_lists R2 m.
Proof.
  intros HR Hm p w Hp. destruct (Hm p w Hp) as (r & p' & w' & ? & ? & ? & ? & ? & ?).
  exists r, p', w'. auto 10.
Qed.

Lemma reap_to_kill_list_ok : keeps_lists (λ _ p p', keeps_signals p p') reap_to_kill_list.
Proof.
  intros p w [Hc Hm Ha Hk]. unfold reap_to_kill_list.
  destruct (reap_loop_ok 0 p (to_kill_list p) w) as (r & l' & n & w' & E & Hr & Hn & Hlen & Hl').
  { eapply Forall_impl; [exact Hk|apply to_end_0]. }
  rewrite E. eexists r, _, w'. split; [reflexivity|]. split_and!; try done.
  - split; cbn; [lia..|done|]. eapply Forall_impl; [exact Hl'|]. by intros e [? _].
  - intros k Hall. unfold all_to_end in *. cbn.
    destruct (reap_loop_ok k p (to_kill_list p) w Hall) as (? & ? & ? & ? & E' & _ & _ & _ & Hl2).
    rewrite E in E'. by injection E' as _ <- _ _.
Qed.

(** Processes that ended are taken note of; those that were to end leave the list. *)
Lemma process_list_waitpid_ok : keeps_lists (λ _ p p', keeps_signals p p') process_list_waitpid.
Proof.
  eapply keeps_lists_mono; [|apply keeps_lists_bind; [apply for_active_ok, waitpid_step|apply reap_to_kill_list_ok]].
  cbn. intros r p p' (r1 & p1 & Hk & Hor) k. unfold all_to_end. rewrite <-Hk.
  destruct Hor as [[_ Hs]|[_ ->]]; [apply Hs|done].
Qed.

Lemma kill_step k : entry_step (to_end k) (to_end (Nat.min 2 (S k))) process_list_process_kill_list_entry.
Proof.
  intros e w [[Hav Hst] Hk]. unfold process_list_process_kill_list_entry.
  assert (Hs : ∃ sig s, signal_to_send (process_state e) = Ok (sig, s) ∧
    s ∈ [PROCESS_LIST_ENTRY_STATE_SIGTERM_SENT; PROCESS_LIST_ENTRY_STATE_SIGKILL_SENT] ∧
    (Nat.min 2 (S (signals_sent e)) ≤ signals_sent (set_process_state s e))%nat).
  { unfold signals_sent. destruct (process_state e); try set_solver; cbn; eexists _, _;
      (split; [reflexivity|]); (split; [set_solver|cbn; lia]). }
  destruct Hs as (sig & s & -> & Hin & Hle).
  assert (Hmax : (signals_sent e ≤ 2)%nat) by (unfold signals_sent; destruct (process_state e); lia).
  destruct (kill_total (pid e) sig w) as (errno & w' & E). rewrite (bind_ok _ _ _ _ _ E).
  eexists _, _, w'. split; [reflexivity|].
  assert (Hmay : may_be_killed (set_process_state s e)) by (split; [done|cbn; set_solver]).
  split; [|intros _]; (split; [done|lia]).
Qed.

Lemma for_to_kill_ok : keeps_lists (λ r p p', ∀ k, all_to_end k p →
  all_to_end k p' ∧ (r = 0 → all_to_end (Nat.min 2 (S k)) p'))
  (for_to_kill process_list_process_kill_list_entry).
Proof.
  intros p w [Hc Hm Ha Hk]. unfold for_to_kill.
  assert (Hz : Forall (to_end 0) (to_kill_list p)) by (eapply Forall_impl; [exact Hk|apply to_end_0]).
  destruct (for_entries_ok _ _ _ (to_kill_list p) w (kill_step 0) Hz) as (r & l' & w' & E & Hlen & Hl' & Hr).
  rewrite E. eexists r, _, w'. split; [reflexivity|]. split_and!; try done.
  - split; cbn; rewrite ?Hlen; try done. eapply Forall_impl; [exact Hl'|]. by intros e [? _].
  - tauto.
  - intros k Hall. unfold all_to_end in *. cbn.
    destruct (for_entries_ok _ _ _ (to_kill_list p) w (kill_step k) Hall) as (r2 & l2 & w2 & E' & _ & Hl2 & Hr2).
    rewrite E in E'. injection E' as <- <- _. split; [done|]. intros ->. by destruct Hr2 as [[_ ?]|?].
Qed.

(** A round: every process that is still to end has got one signal more, SIGKILL at last. *)
Lemma process_kill_list_ok : keeps_lists (λ r p p', ∀ k, all_to_end k p →
  all_to_end k p' ∧ (r = 0 → all_to_end (Nat.min 2 (S k)) p')) process_list_process_kill_list.
Proof.
  eapply keeps_lists_mono; [|apply keeps_lists_bind; [apply process_list_waitpid_ok|apply for_to_kill_ok]].
  cbn. intros r p p' (r1 & p1 & Hk & [[_ Hs]|[-> ->]]) k Hall; [by apply Hs, Hk|]. split; [by apply Hk|done].
Qed.

Lemma quick_phase_ok n : keeps_lists (λ r p p', r = 0 → ∀ k, all_to_end k p →
  all_to_end (Nat.min 2 (n + k)) p') (quick_phase n).
Proof.
  induction n as [|n IH]; cbn [quick_phase].
  { intros p w Hp. exists 0, p, w. split_and!; try done; [by left|]. intros _ k Hall.
    eapply Forall_impl; [exact Hall|]. intros e [? ?]. split; [done|lia]. }
  eapply keeps_lists_mono; [|apply keeps_lists_bind; [apply process_kill_list_ok|apply IH]].
  cbn beta. intros r p p' (r1 & p1 & Hk & [[-> Hs]|[-> _]]) Hr k Hall; [|done].
  destruct (Hk k Hall) as [_ Hk1]. specialize (Hs Hr _ (Hk1 eq_refl)).
  eapply Forall_impl; [exact Hs|]. intros e [? ?]. split; [done|lia].
Qed.

Lemma slow_phase_ok n t : keeps_lists (λ r p p', all_to_end 2 p → all_to_end 2 p') (slow_phase n t).
Proof.
  induction n as [|n IH]; cbn [slow_phase].
  { intros p w Hp. exists 0, p, w. split_and!; try done. by left. }
  intros p w Hp. rewrite (bind_ok get _ (p, w) (p, w) (p, w) eq_refl). cbv beta iota.
  destruct (_ =? 0); [exists 0, p, w; split_and!; try done; by left|].
  destruct (process_kill_list_ok p w Hp) as (r1 & p1 & w1 & E1 & Hp1 & Hm1 & Hl1 & Hr1 & HR1).
  rewrite (bind_ok _ _ _ _ _ E1). destruct Hr1 as [-> | ->]; cbn [negb Z.eqb].
  - destruct (sleep_total t w1) as [w2 E2]. rewrite (bind_ok _ _ _ tt (p1, w2)) by by rewrite E2.
    destruct (IH p1 w2 Hp1) as (r2 & p2 & w3 & E3 & Hp2 & Hm2 & Hl2 & Hr2 & HR2).
    exists r2, p2, w3. split_and!; try done; [congruence..|]. intros Hall. by apply HR2, HR1.
  - exists (-1), p1, w1. split_and!; try done; [by right|]. intros Hall. by apply HR1.
Qed.

Lemma kill_list_items_length p :
  process_list_get_kill_list_items p = Z.of_nat (length (to_kill_list p)).
Proof.
  unfold process_list_get_kill_list_items.
  assert (E : ∀ l z, foldl (λ r (_ : process_list_entry), r + 1) z l = z + Z.of_nat (length l)).
  { induction l as [|e l IH]; intros z; cbn [foldl length]; [|rewrite IH]; lia. }
  by rewrite E.
Qed.

End system.

(** ** What the system is asked *)

(** The calls to the system, with their answers. *)
Inductive sys_event :=
| FORKED (argv : list c_string) (r : Z)
| WAITED (pid res : Z)
| KILLED (pid sig errno : Z)
| NOTIFIED (reason : process_list_notify_reason) (e : process_list_entry)
| SLEPT (t : Z).

Section traced.
Context {W : Type} `{ProcessSystem W}.

Definition traced {A} (m : M W A) (ev : A → sys_event) : M (W * list sys_event) A := λ '(w, tr),
  let '(r, w') := m w in
  (r, (w', tr ++ match r with Ok a => [ev a] | Err _ => [] end)).

(** Any system, with the calls written down. *)
#[export] Instance traced_system : ProcessSystem (W * list sys_event) := {|
  fork_exec b argv := traced (fork_exec b argv) (FORKED argv);
  waitpid p := traced (waitpid p) (λ a, WAITED p (fst a));
  kill p s := traced (kill p s) (KILLED p s);
  notify reason e := traced (notify reason e) (λ _, NOTIFIED reason e);
  sleep t := traced (sleep t) (λ _, SLEPT t)
|}.
End traced.

(** The signals sent, and those sent to one process. *)
Definition signals_of (tr : list sys_event) : list (Z * Z) :=
  omap (λ ev, match ev with KILLED p s _ => Some (p, s) | _ => None end) tr.
Definition signals_to (q : Z) (tr : list sys_event) : list Z :=
  snd <$> filter (λ ps, fst ps = q) (signals_of tr).

(** A call that makes the operations give up. *)
Definition failed_call (ev : sys_event) : Prop :=
  match ev with
  | WAITED _ res => res = -1
  | KILLED _ _ errno => errno = EPERM ∨ errno = EINVAL
  | _ => False
  end.
(** The system said that the process ended. *)
Definition has_ended (q : Z) (tr : list sys_event) : Prop :=
  ∃ res, WAITED q res ∈ tr ∧ res ≠ 0 ∧ res ≠ -1.

(** The first [n] signals to a process: SIGTERM unless it had that before, and SIGKILL from
    then on. *)
Definition expected_signals (s : process_list_entry_state) (n : nat) : list Z :=
  match s with
  | PROCESS_LIST_ENTRY_STATE_RUNNING => take n (SIGTERM :: replicate n SIGKILL)
  | PROCESS_LIST_ENTRY_STATE_SIGTERM_SENT | PROCESS_LIST_ENTRY_STATE_SIGKILL_SENT => replicate n SIGKILL
  | _ => []
  end.

Lemma signals_of_app t1 t2 : signals_of (t1 ++ t2) = signals_of t1 ++ signals_of t2.
Proof. apply omap_app. Qed.
Lemma signals_to_app q t1 t2 : signals_to q (t1 ++ t2) = signals_to q t1 ++ signals_to q t2.
Proof. unfold signals_to. by rewrite signals_of_app, filter_app, fmap_app. Qed.
Lemma has_ended_app q t1 t2 : has_ended q t1 ∨ has_ended q t2 → has_ended q (t1 ++ t2).
Proof. intros [(res & ? & ?)|(res & ? & ?)]; exists res; rewrite elem_of_app; auto. Qed.

(** The entry after its next signal, and the signal. *)
Definition next_signal (s : process_list_entry_state) : Z :=
  match s with PROCESS_LIST_ENTRY_STATE_RUNNING => SIGTERM | _ => SIGKILL end.
Definition next_state (s : process_list_entry_state) : process_list_entry_state :=
  match s with
  | PROCESS_LIST_ENTRY_STATE_RUNNING => PROCESS_LIST_ENTRY_STATE_SIGTERM_SENT
  | _ => PROCESS_LIST_ENTRY_STATE_SIGKILL_SENT
  end.
Definition signalled (e : process_list_entry) : process_list_entry :=
  set_process_state (next_state (process_state e)) e.
Definition advanced (n : nat) (e : process_list_entry) : process_list_entry := Nat.iter n signalled e.

Lemma may_be_killed_signalled e : may_be_killed e → may_be_killed (signalled e).
Proof.
  intros [Ha Hs]. split; [done|]. unfold signalled. cbn. destruct (process_state e); cbn; set_solver.
Qed.
Lemma advanced_fields n e : pid (advanced n e) = pid e.
Proof. unfold advanced. induction n as [|n IH]; [done|]. by cbn. Qed.

Lemma expected_signals_S e n :
  may_be_killed e →
  expected_signals (process_state e) (S n) =
  expected_signals (process_state e) n ++ [next_signal (process_state (advanced n e))].
Proof.
  intros [_ Hs].
  assert (Hk : ∀ n s, s = PROCESS_LIST_ENTRY_STATE_SIGTERM_SENT ∨ s = PROCESS_LIST_ENTRY_STATE_SIGKILL_SENT →
    ∀ e, process_state e = s → next_signal (process_state (advanced n e)) = SIGKILL).
  { clear. intros n s Hs e E. assert (Hn : process_state (advanced n e) ≠ PROCESS_LIST_ENTRY_STATE_RUNNING).
    { destruct n as [|n]; unfold advanced; cbn; [rewrite E; by destruct Hs as [-> | ->]|].
      unfold next_state. by case_match. }
    by destruct (process_state (advanced n e)). }
  unfold expected_signals. destruct (process_state e) eqn:Es; try (exfalso; set_solver).
  - destruct n as [|n]; [unfold advanced; cbn; by rewrite Es|].
    unfold advanced. rewrite Nat.iter_succ_r. fold (advanced n (signalled e)).
    rewrite (Hk n PROCESS_LIST_ENTRY_STATE_SIGTERM_SENT ltac:(by left) (signalled e)) by (cbn; by rewrite Es).
    rewrite !firstn_cons, !take_replicate, !Nat.min_l by lia. cbn [app]. by rewrite <-replicate_S_end.
  - by rewrite (Hk n PROCESS_LIST_ENTRY_STATE_SIGTERM_SENT ltac:(by left) e Es), <-replicate_S_end.
  - by rewrite (Hk n PROCESS_LIST_ENTRY_STATE_SIGKILL_SENT ltac:(by right) e Es), <-replicate_S_end.
Qed.

Definition signal_of (e : process_list_entry) : Z * Z := (pid e, next_signal (process_state e)).

Lemma signals_to_one l e tr :
  signals_of tr = signal_of <$> l → NoDup (pid <$> l) → e ∈ l →
  signals_to (pid e) tr = [next_signal (process_state e)].
Proof.
  unfold signals_to. intros -> Hnd He. induction l as [|x l IH]; [by apply not_elem_of_nil in He|].
  cbn in Hnd. apply NoDup_cons in Hnd as [Hx Hnd]. rewrite fmap_cons, filter_cons.
  apply elem_of_cons in He as [->|He].
  - rewrite decide_True by done. cbn. f_equal. clear IH Hnd.
    induction l as [|y l IH]; [done|]. cbn in Hx. apply not_elem_of_cons in Hx as [Hxy Hx].
    rewrite fmap_cons, filter_cons, decide_False by (cbn; congruence). by apply IH.
  - rewrite decide_False; [by apply IH|]. cbn. intros E. apply Hx. rewrite E.
    apply list_elem_of_fmap. eauto.
Qed.
Lemma signals_to_none l q tr :
  signals_of tr = signal_of <$> l → q ∉ pid <$> l → signals_to q tr = [].
Proof.
  unfold signals_to. intros -> Hq. induction l as [|x l IH]; [done|]. cbn in Hq.
  apply not_elem_of_cons in Hq as [Hx Hq]. rewrite fmap_cons, filter_cons, decide_False by (cbn; congruence).
  by apply IH.
Qed.

(** ** Killing, call by call *)

Section killing.
Context {W : Type} `{ProcessSystemTotal W}.

#[export] Instance traced_total : ProcessSystemTotal (W * list sys_event).
Proof.
  split.
  - intros b argv [w tr]. destruct (fork_exec_total b argv w) as (r & w' & E). cbn. rewrite E. eauto.
  - intros p [w tr]. destruct (waitpid_total p w) as (r & w' & E). cbn. rewrite E. eauto.
  - intros p s [w tr]. destruct (kill_total p s w) as (r & w' & E). cbn. rewrite E. eauto.
  - intros reason e [w tr]. destruct (notify_total reason e w) as (w' & E). cbn. rewrite E. eauto.
  - intros t [w tr]. destruct (sleep_total t w) as (w' & E). cbn. rewrite E. eauto.
Qed.

Lemma kill_entry_trace e (w : W) tr :
  may_be_killed e →
  ∃ r errno w', process_list_process_kill_list_entry e (w, tr) =
    (Ok (r, signalled e), (w', tr ++ [KILLED (pid e) (next_signal (process_state e)) errno])) ∧
    (r = 0 ∨ r = -1 ∧ (errno = EPERM ∨ errno = EINVAL)).
Proof.
  intros [_ Hs]. unfold process_list_process_kill_list_entry.
  assert (E : signal_to_send (process_state e) = Ok (next_signal (process_state e), next_state (process_state e)))
    by (destruct (process_state e); try done; exfalso; set_solver).
  rewrite E. destruct (kill_total (pid e) (next_signal (process_state e)) w) as (errno & w' & Ek).
  exists (if (errno =? EPERM) || (errno =? EINVAL) then -1 else 0), errno, w'.
  unfold mbind, M_bind. cbn. rewrite Ek. split; [done|].
  destruct (Z.eqb_spec errno EPERM), (Z.eqb_spec errno EINVAL); cbn; auto.
Qed.

Lemma kill_entries_trace l (w : W) tr :
  Forall may_be_killed l →
  ∃ r n w' tr', for_entries process_list_process_kill_list_entry l (w, tr) =
    (Ok (r, (signalled <$> take n l) ++ drop n l), (w', tr ++ tr')) ∧
    signals_of tr' = signal_of <$> take n l ∧
    (r = 0 ∧ n = length l ∨ r = -1 ∧ Exists failed_call tr').
Proof.
  intros Hl. revert w tr. induction Hl as [|e l He Hl IH]; intros w tr; cbn [for_entries].
  { exists 0, 0%nat, w, []. rewrite (app_nil_r tr). split_and!; try done. by left. }
  destruct (kill_entry_trace e w tr He) as (r & errno & w1 & E & Hr). rewrite (bind_ok _ _ _ _ _ E). cbv beta iota.
  destruct Hr as [-> | [-> Hf]]; cbn [negb Z.eqb].
  - destruct (IH w1 (tr ++ [KILLED (pid e) (next_signal (process_state e)) errno]))
      as (r & n & w2 & tr2 & E2 & Hs & Hr). rewrite (bind_ok _ _ _ _ _ E2). cbv beta iota.
    exists r, (S n), w2, (KILLED (pid e) (next_signal (process_state e)) errno :: tr2).
    cbn [take drop]. rewrite <-app_assoc. split; [done|].
    split; [change (signals_of _) with (signal_of e :: signals_of tr2) at 1; by rewrite Hs|].
    destruct Hr as [[-> ->]|[-> ?]]; [by left|right]. split; [done|by apply Exists_cons_tl].
  - exists (-1), 1%nat, w1, [KILLED (pid e) (next_signal (process_state e)) errno].
    rewrite !firstn_cons, !take_0, skipn_cons, drop_0. split; [done|]. split; [done|]. right. split; [done|].
    by apply Exists_cons_hd.
Qed.

Lemma waitpid_trace p e (w : W) tr :
  may_be_killed e →
  ∃ r e' w' tr', process_list_entry_waitpid p e (w, tr) = (Ok (r, e'), (w', tr ++ tr')) ∧ signals_of tr' = [] ∧
    (e' = e ∧ (r = 0 ∨ r = -1 ∧ Exists failed_call tr') ∨
     r = 0 ∧ has_argv e' ∧ process_state e' = PROCESS_LIST_ENTRY_STATE_FINISHED ∧ has_ended (pid e) tr').
Proof.
  intros [Ha Hs]. unfold process_list_entry_waitpid.
  replace (no_process (process_state e)) with false
    by (destruct (process_state e); try done; exfalso; set_solver).
  destruct (waitpid_total (pid e) w) as ([res status] & w1 & E).
  assert (Ew : waitpid (pid e) (w, tr) = (Ok (res, status), (w1, tr ++ [WAITED (pid e) res]))) by (cbn; by rewrite E).
  rewrite (bind_ok _ _ _ _ _ Ew). cbv beta iota.
  destruct (Z.eqb_spec res (-1)) as [->|Hn1].
  { exists (-1), e, w1, [WAITED (pid e) (-1)]. split_and!; try done. left. split; [done|]. right.
    split; [done|by apply Exists_cons_hd]. }
  destruct (Z.eqb_spec res 0) as [->|Hn0].
  { exists 0, e, w1, [WAITED (pid e) 0]. split_and!; try done. left. split; [done|by left]. }
  set (e1 := set_exit_status status e).
  assert (Hn : ∃ w2 tr2, (if bool_decide (process_state e1 = PROCESS_LIST_ENTRY_STATE_RUNNING)
    then notify_if p PROCESS_LIST_NOTIFY_REASON_FINISHED e1 else mret tt) (w1, tr ++ [WAITED (pid e) res]) =
      (Ok tt, (w2, (tr ++ [WAITED (pid e) res]) ++ tr2)) ∧ signals_of tr2 = []).
  { destruct (bool_decide _); [|exists w1, []; by rewrite app_nil_r].
    unfold notify_if. destruct (notify_fn p); [|exists w1, []; by rewrite app_nil_r].
    destruct (notify_total PROCESS_LIST_NOTIFY_REASON_FINISHED e1 w1) as (w2 & E2).
    exists w2, [NOTIFIED PROCESS_LIST_NOTIFY_REASON_FINISHED e1]. cbn. by rewrite E2. }
  destruct Hn as (w2 & tr2 & E2 & Hs2). rewrite (bind_ok _ _ _ _ _ E2).
  exists 0, (set_process_state PROCESS_LIST_ENTRY_STATE_FINISHED e1), w2, (WAITED (pid e) res :: tr2).
  rewrite <-app_assoc. split; [done|]. split; [done|]. right. split_and!; try done.
  exists res. split; [by left|done].
Qed.

Lemma reap_trace p l (w : W) tr :
  Forall may_be_killed l →
  ∃ r l' n w' tr', reap_loop p l (w, tr) = (Ok (r, l', n), (w', tr ++ tr')) ∧ l' `sublist_of` l ∧
    signals_of tr' = [] ∧ Forall (λ e, e ∈ l' ∨ has_ended (pid e) tr') l ∧
    (r = 0 ∨ r = -1 ∧ Exists failed_call tr').
Proof.
  intros Hl. revert w tr. induction Hl as [|e l He Hl IH]; intros w tr; cbn [reap_loop].
  { exists 0, [], 0, w, []. rewrite (app_nil_r tr). split_and!; try done. by left. }
  destruct (waitpid_trace p e w tr He) as (r & e' & w1 & tr1 & E & Hs1 & He'). rewrite (bind_ok _ _ _ _ _ E). cbv beta iota.
  destruct (Z.eqb_spec r 0) as [->|Hr]; cbn [negb].
  2: { destruct He' as [[-> [->|[-> Hf]]]|[-> _]]; [done| |done]. exists (-1), (e :: l), 0, w1, tr1.
    split_and!; try done; [|by right]. apply Forall_forall. intros x Hx. by left. }
  destruct (IH w1 (tr ++ tr1)) as (r & l' & n & w2 & tr2 & E2 & Hsub & Hs2 & Hall & Hr). rewrite <-app_assoc in E2.
  assert (Hex : ∀ x, Exists failed_call tr2 → x = -1 → x = 0 ∨ x = -1 ∧ Exists failed_call (tr1 ++ tr2))
    by (intros x ? ->; right; split; [done|rewrite Exists_app; by right]).
  assert (Hr' : r = 0 ∨ r = -1 ∧ Exists failed_call (tr1 ++ tr2))
    by (destruct Hr as [|[? ?]]; [by left|by apply Hex]).
  destruct He' as [[-> _]|(_ & Hav & Hfin & Hend)].
  - rewrite bool_decide_eq_false_2.
    2: { intros Ef. destruct He as [_ Hst]. rewrite Ef in Hst. set_solver. }
    rewrite (bind_ok _ _ _ _ _ E2). cbv beta iota. exists r, (e :: l'), n, w2, (tr1 ++ tr2).
    split_and!; try done; [by constructor|by rewrite signals_of_app, Hs1, Hs2|].
    constructor; [left; by left|]. eapply Forall_impl; [exact Hall|].
    intros x [?|?]; [left; by right|right; apply has_ended_app; by right].
  - rewrite bool_decide_eq_true_2, (free_has_argv e' Hav), (bind_ok _ _ _ _ _ E2) by done. cbv beta iota.
    exists r, l', (n + 1), w2, (tr1 ++ tr2).
    split_and!; try done; [by constructor|by rewrite signals_of_app, Hs1, Hs2|].
    constructor; [right; apply has_ended_app; by left|]. eapply Forall_impl; [exact Hall|].
    intros x [?|?]; [by left|right; apply has_ended_app; by right].
Qed.

(** A round with nothing active: who is still there is sent one signal, in order, up to an
    error. *)
Lemma round_trace p (w : W) tr :
  plist_ok p → active_list p = [] →
  ∃ r l n p' w' tr', process_list_process_kill_list (p, (w, tr)) = (Ok r, (p', (w', tr ++ tr'))) ∧
    active_list p' = [] ∧ l `sublist_of` to_kill_list p ∧
    to_kill_list p' = (signalled <$> take n l) ++ drop n l ∧ signals_of tr' = signal_of <$> take n l ∧
    Forall (λ e, e ∈ l ∨ has_ended (pid e) tr') (to_kill_list p) ∧
    (r = 0 ∧ n = length l ∨ r = -1 ∧ Exists failed_call tr').
Proof.
  intros Hp Ha. destruct Hp as [_ _ _ Hk].
  destruct (reap_trace p (to_kill_list p) w tr Hk) as (r & l & m & w1 & tr1 & E & Hsub & Hs & Hall & Hr).
  unfold process_list_process_kill_list, process_list_waitpid.
  assert (Ea : for_active process_list_entry_waitpid (p, (w, tr)) = (Ok 0, (p, (w, tr)))).
  { unfold for_active. rewrite Ha. cbn. f_equal. f_equal. destruct p. cbn in *. by subst. }
  set (p1 := set_to_kill_list l (set_allocated_entries (allocated_list_entries p - m) p)).
  assert (E1 : (r0 ← for_active process_list_entry_waitpid; if negb (r0 =? 0) then mret (-1) else reap_to_kill_list)
    (p, (w, tr)) = (Ok r, (p1, (w1, tr ++ tr1)))).
  { rewrite (bind_ok _ _ _ _ _ Ea). cbn [negb Z.eqb]. unfold reap_to_kill_list. by rewrite E. }
  rewrite (bind_ok _ _ _ _ _ E1). destruct Hr as [->|[-> Hf]]; cbn [negb Z.eqb].
  2: { exists (-1), l, 0%nat, p1, w1, tr1. split_and!; try done. by right. }
  destruct (kill_entries_trace l w1 (tr ++ tr1)) as (r & n & w2 & tr2 & E2 & Hs2 & Hr).
  { apply Forall_forall. intros e He. rewrite Forall_forall in Hk. apply Hk. by eapply elem_of_sublist. }
  unfold for_to_kill. change (to_kill_list p1) with l. rewrite E2, <-app_assoc.
  eexists r, l, n, _, w2, (tr1 ++ tr2). split; [reflexivity|].
  split_and!; try done; [by rewrite signals_of_app, Hs, Hs2| |].
  - eapply Forall_impl; [exact Hall|]. intros x [?|?]; [by left|right; apply has_ended_app; by left].
  - destruct Hr as [?|[? ?]]; [by left|right]. split; [done|rewrite Exists_app; by right].
Qed.

(** What is known after rounds of killing the processes of [K]: what each was sent, that who is
    not in the list any more has ended, and that nobody else got a signal. *)
Record left_over (K : list process_list_entry) (n : nat) (l : list process_list_entry)
    (tr : list sys_event) : Prop := {
  lo_sent : ∀ e, e ∈ K → ∃ k, (k ≤ n)%nat ∧ signals_to (pid e) tr = expected_signals (process_state e) k;
  lo_gone : ∀ e, e ∈ K → pid e ∈ pid <$> l ∨ has_ended (pid e) tr;
  lo_none : ∀ q, q ∉ pid <$> K → signals_to q tr = []
}.

(** After [n] whole rounds. *)
Record killing (K : list process_list_entry) (n : nat) (l : list process_list_entry)
    (tr : list sys_event) : Prop := {
  kl_left : left_over K n l tr;
  kl_entries : ∀ e', e' ∈ l → ∃ e, e ∈ K ∧ e' = advanced n e;
  kl_pids : NoDup (pid <$> l);
  kl_there : ∀ e, e ∈ K → pid e ∈ pid <$> l → signals_to (pid e) tr = expected_signals (process_state e) n
}.

Lemma same_pid (K : list process_list_entry) e e' : NoDup (pid <$> K) → e ∈ K → e' ∈ K → pid e = pid e' → e = e'.
Proof.
  intros Hnd (i & Hi)%list_elem_of_lookup (j & Hj)%list_elem_of_lookup E.
  assert (i = j) as <-; [|congruence].
  eapply NoDup_lookup; [exact Hnd|..]; rewrite list_lookup_fmap; [by rewrite Hi|by rewrite Hj, E].
Qed.

Lemma pid_in_round n l q :
  q ∈ pid <$> (signalled <$> take n l) ++ drop n l ↔ q ∈ pid <$> l.
Proof.
  replace (pid <$> (signalled <$> take n l) ++ drop n l) with (pid <$> take n l ++ drop n l).
  - by rewrite take_drop.
  - rewrite !fmap_app, <-list_fmap_compose. done.
Qed.

Lemma killing_step K n l l1 j tr tr' :
  Forall may_be_killed K → NoDup (pid <$> K) → killing K n l tr → l1 `sublist_of` l →
  signals_of tr' = signal_of <$> take j l1 → Forall (λ e, e ∈ l1 ∨ has_ended (pid e) tr') l →
  let l' := (signalled <$> take j l1) ++ drop j l1 in
  left_over K (S n) l' (tr ++ tr') ∧ (j = length l1 → killing K (S n) l' (tr ++ tr')).
Proof.
  intros HK Hnd [[Hsent Hgone Hnone] He Hp Ht] Hsub Hs Hall l'.
  assert (Hp1 : NoDup (pid <$> l1)) by (eapply sublist_NoDup; [exact Hp|by apply fmap_sublist]).
  assert (Hpj : NoDup (pid <$> take j l1)).
  { rewrite <-(take_drop j l1), fmap_app in Hp1. by apply NoDup_app in Hp1 as [? _]. }
  assert (Hone : ∀ e, e ∈ K → pid e ∈ pid <$> take j l1 →
    signals_to (pid e) (tr ++ tr') = expected_signals (process_state e) (S n)).
  { intros e HeK (e1 & Epid & He1)%list_elem_of_fmap.
    assert (He1l : e1 ∈ l).
    { eapply elem_of_sublist; [|exact Hsub]. rewrite <-(take_drop j l1). apply elem_of_app. by left. }
    destruct (He e1 He1l) as (e0 & He0 & ->). rewrite advanced_fields in Epid.
    assert (e0 = e) as -> by (symmetry; by apply (same_pid K)).
    assert (Hin : pid e ∈ pid <$> l).
    { apply list_elem_of_fmap. exists (advanced n e). by rewrite advanced_fields. }
    assert (Hmay : may_be_killed e) by (rewrite Forall_forall in HK; by apply HK).
    rewrite signals_to_app, (Ht e HeK Hin), (expected_signals_S e n Hmay). f_equal.
    rewrite <-(advanced_fields n e). by eapply signals_to_one. }
  assert (Hzero : ∀ q, q ∉ pid <$> take j l1 → signals_to q (tr ++ tr') = signals_to q tr).
  { intros q Hq. by rewrite signals_to_app, (signals_to_none _ _ _ Hs Hq), app_nil_r. }
  assert (Hin : ∀ q, q ∈ pid <$> l1 → q ∈ pid <$> l).
  { intros q Hq. eapply elem_of_sublist; [exact Hq|]. by apply fmap_sublist. }
  assert (Hleft : left_over K (S n) l' (tr ++ tr')).
  { split.
    - intros e HeK. destruct (decide (pid e ∈ pid <$> take j l1)) as [Hj|Hj].
      + exists (S n). split; [done|by apply Hone].
      + destruct (Hsent e HeK) as (k & ? & E). exists k. split; [lia|]. by rewrite Hzero.
    - intros e HeK. unfold l'. rewrite pid_in_round.
      destruct (Hgone e HeK) as [Hg|Hg]; [|right; apply has_ended_app; by left].
      apply list_elem_of_fmap in Hg as (x & Ex & Hx). rewrite Forall_forall in Hall.
      destruct (Hall x Hx) as [?|?]; [left|right; apply has_ended_app; right; by rewrite Ex].
      apply list_elem_of_fmap. eauto.
    - intros q Hq. rewrite Hzero; [by apply Hnone|]. intros Hj. apply Hq.
      assert (Hl : q ∈ pid <$> l).
      { apply Hin. rewrite <-(take_drop j l1), fmap_app. apply elem_of_app. by left. }
      apply list_elem_of_fmap in Hl as (x & -> & Hx). destruct (He x Hx) as (e & HeK & ->).
      rewrite advanced_fields. apply list_elem_of_fmap. eauto. }
  split; [done|]. intros ->. split; [done|..].
  - unfold l'. rewrite take_ge, drop_ge, app_nil_r by lia.
    intros e' (x & -> & Hx)%list_elem_of_fmap.
    destruct (He x) as (e & HeK & ->); [by eapply elem_of_sublist|]. by exists e.
  - unfold l'. rewrite take_ge, drop_ge, app_nil_r by lia. by rewrite <-list_fmap_compose.
  - intros e HeK Hin'. apply Hone; [done|]. unfold l' in Hin'. rewrite pid_in_round in Hin'.
    by rewrite take_ge by lia.
Qed.

Lemma killing_quiet K n l tr tr' : signals_of tr' = [] → killing K n l tr → killing K n l (tr ++ tr').
Proof.
  intros Hs [[Hsent Hgone Hnone] He Hp Ht].
  assert (E : ∀ q, signals_to q (tr ++ tr') = signals_to q tr).
  { intros q. rewrite signals_to_app. unfold signals_to at 2. by rewrite Hs, app_nil_r. }
  split; [split|done|done|]; intros *; rewrite ?E; auto.
  intros He'. destruct (Hgone _ He'); [by left|right; apply has_ended_app; by left].
Qed.

(** The outcome of some rounds: [n] whole ones, or an error. *)
Definition outcome (K : list process_list_entry) (n max : nat) (r : Z) (p' : process_list) (tr : list sys_event) : Prop :=
  active_list p' = [] ∧ plist_ok p' ∧
  (r = 0 ∧ killing K n (to_kill_list p') tr ∨
   r = -1 ∧ Exists failed_call tr ∧ left_over K max (to_kill_list p') tr).

Lemma round_outcome K n max p (w : W) t0 tr :
  Forall may_be_killed K → NoDup (pid <$> K) → (n < max)%nat →
  plist_ok p → active_list p = [] → killing K n (to_kill_list p) tr →
  ∃ r p' w' tr', process_list_process_kill_list (p, (w, t0 ++ tr)) = (Ok r, (p', (w', t0 ++ tr'))) ∧
    outcome K (S n) max r p' tr'.
Proof.
  intros HK Hnd Hmax Hp Ha Hkl.
  destruct (round_trace p w (t0 ++ tr) Hp Ha) as (r & l & j & p' & w' & tr' & E & Ha' & Hsub & Hl & Hs & Hall & Hr).
  destruct (process_kill_list_ok p (w, t0 ++ tr) Hp) as (r2 & p2 & w2 & E2 & Hp2 & _).
  rewrite E in E2. injection E2 as <- <- <-.
  destruct (killing_step K n _ l j tr tr' HK Hnd Hkl Hsub Hs Hall) as [Hleft Hstep]. rewrite <-Hl in Hleft, Hstep.
  exists r, p', w', (tr ++ tr'). rewrite app_assoc. split; [done|]. split; [done|]. split; [done|].
  destruct Hr as [[-> Hj]|[-> Hf]]; [left|right].
  - split; [done|by apply Hstep].
  - split; [done|]. split; [rewrite Exists_app; by right|]. destruct Hleft as [H1 H2 H3]. split; [|done..].
    intros e He. destruct (H1 e He) as (k & ? & ?). exists k. split; [lia|done].
Qed.

Lemma quick_outcome K i n max p (w : W) t0 tr :
  Forall may_be_killed K → NoDup (pid <$> K) → (i + n ≤ max)%nat →
  plist_ok p → active_list p = [] → killing K n (to_kill_list p) tr →
  ∃ r p' w' tr', quick_phase i (p, (w, t0 ++ tr)) = (Ok r, (p', (w', t0 ++ tr'))) ∧ outcome K (i + n) max r p' tr'.
Proof.
  intros HK Hnd. revert n p w tr. induction i as [|i IH]; intros n p w tr Hmax Hp Ha Hkl; cbn [quick_phase].
  { exists 0, p, w, tr. split; [done|]. split; [done|]. split; [done|]. by left. }
  destruct (round_outcome K n max p w t0 tr HK Hnd ltac:(lia) Hp Ha Hkl) as (r & p1 & w1 & tr1 & E & Ha1 & Hp1 & Hr).
  rewrite (bind_ok _ _ _ _ _ E). destruct Hr as [[-> Hkl1]|[-> ?]]; cbn [negb Z.eqb].
  - destruct (IH (S n) p1 w1 tr1 ltac:(lia) Hp1 Ha1 Hkl1) as (r & p2 & w2 & tr2 & E2 & Ho).
    exists r, p2, w2, tr2. rewrite Nat.add_succ_r in Ho. done.
  - exists (-1), p1, w1, tr1. split; [done|]. split; [done|]. split; [done|]. by right.
Qed.

(** The slow rounds end early when nobody is left. *)
Lemma slow_outcome K i n max t p (w : W) t0 tr :
  Forall may_be_killed K → NoDup (pid <$> K) → (i + n ≤ max)%nat →
  plist_ok p → active_list p = [] → killing K n (to_kill_list p) tr →
  ∃ r m p' w' tr', slow_phase i t (p, (w, t0 ++ tr)) = (Ok r, (p', (w', t0 ++ tr'))) ∧ outcome K m max r p' tr' ∧
    (m ≤ i + n)%nat ∧ (m = (i + n)%nat ∨ r = -1 ∨ to_kill_list p' = []).
Proof.
  intros HK Hnd. revert n p w tr. induction i as [|i IH]; intros n p w tr Hmax Hp Ha Hkl; cbn [slow_phase].
  { exists 0, n, p, w, tr. split; [done|]. split; [split; [done|]; split; [done|]; by left|]. split; [lia|by left]. }
  rewrite (bind_ok get _ (p, (w, t0 ++ tr)) (p, (w, t0 ++ tr)) (p, (w, t0 ++ tr)) eq_refl). cbv beta iota.
  rewrite kill_list_items_length. destruct (Z.eqb_spec (Z.of_nat (length (to_kill_list p))) 0) as [Hz|Hz].
  { exists 0, n, p, w, tr. split; [done|]. split; [split; [done|]; split; [done|]; by left|]. split; [lia|].
    right; right. apply nil_length_inv. lia. }
  destruct (round_outcome K n max p w t0 tr HK Hnd ltac:(lia) Hp Ha Hkl) as (r & p1 & w1 & tr1 & E & Ha1 & Hp1 & Hr).
  rewrite (bind_ok _ _ _ _ _ E). destruct Hr as [[-> Hkl1]|[-> ?]]; cbn [negb Z.eqb].
  - destruct (sleep_total t w1) as [w2 E2].
    rewrite (bind_ok _ _ _ tt (p1, (w2, t0 ++ (tr1 ++ [SLEPT t])))) by (cbn; by rewrite E2, app_assoc).
    destruct (IH (S n) p1 w2 (tr1 ++ [SLEPT t]) ltac:(lia) Hp1 Ha1 (killing_quiet K (S n) _ tr1 [SLEPT t] eq_refl Hkl1))
      as (r & m & p2 & w3 & tr2 & E3 & Ho & Hm & Hor).
    exists r, m, p2, w3, tr2. split; [done|]. split; [done|]. split; [lia|]. rewrite Nat.add_succ_r in Hor. done.
  - exists (-1), n, p1, w1, tr1. split; [done|]. split; [split; [done|]; split; [done|]; by right|]. split; [lia|].
    right; by left.
Qed.

(** The processes that killing all is about: those that wait to be killed already, and those
    running. *)
Definition to_be_killed (p : process_list) : list process_list_entry :=
  to_kill_list p ++ filter (λ e, no_process (process_state e) = false) (active_list p).

(** C13: killing all processes ends, fails no assertion, frees no entry twice and keeps the two
    lists in order, with nothing left active. For all systems, written down call by call: it
    reports 0 exactly when nobody is left; -1 means that [waitpid] said -1 or [kill] said
    EPERM or EINVAL, or that somebody is left who was sent 20 signals, SIGTERM (unless sent
    before) and then SIGKILL again and again. Whatever it reports, each process was sent the
    first [k] of these signals, in this order, for some [k] up to 20; who is not in the list any
    more has ended, as [waitpid] said; and no other process was sent any signal. Taken for
    granted: the system calls return, and the processes have different pids. *)
Theorem process_list_killall_correct p (w : W) tr0 timeout :
  plist_ok p → NoDup (pid <$> to_be_killed p) →
  ∃ r p' w' tr, process_list_killall timeout (p, (w, tr0)) = (Ok r, (p', (w', tr0 ++ tr))) ∧
    plist_ok p' ∧ active_list p' = [] ∧
    (r = 0 ∧ to_kill_list p' = [] ∨
     r = -1 ∧ (Exists failed_call tr ∨
       to_kill_list p' ≠ [] ∧ ∀ e, e ∈ to_be_killed p → pid e ∈ pid <$> to_kill_list p' →
         signals_to (pid e) tr = expected_signals (process_state e) 20)) ∧
    (∀ e, e ∈ to_be_killed p →
       (∃ k, (k ≤ 20)%nat ∧ signals_to (pid e) tr = expected_signals (process_state e) k) ∧
       (pid e ∈ pid <$> to_kill_list p' ∨ has_ended (pid e) tr)) ∧
    (∀ q, q ∉ pid <$> to_be_killed p → signals_to q tr = []).
Proof.
  intros Hp Hnd. unfold process_list_killall.
  destruct (process_list_move_active_ok p Hp) as (p0 & E0 & Hp0 & Ha0 & Hk0 & _). fold (to_be_killed p) in Hk0.
  set (K := to_be_killed p) in *.
  assert (HK : Forall may_be_killed K) by (rewrite <-Hk0; apply Hp0).
  rewrite (bind_ok _ _ _ tt (p0, (w, tr0))) by (unfold on_process_list; by rewrite E0).
  assert (Hkl : killing K 0 (to_kill_list p0) []).
  { rewrite Hk0. split; [split|..]; try done.
    - intros e He. exists 0%nat. split; [done|]. unfold expected_signals. by destruct (process_state e).
    - intros e He. left. apply list_elem_of_fmap. eauto.
    - intros e He. by exists e.
    - intros e He _. unfold expected_signals. by destruct (process_state e). }
  destruct (quick_outcome K 10 0 20 p0 w tr0 [] HK Hnd ltac:(lia) Hp0 Ha0 Hkl)
    as (r1 & p1 & w1 & tr1 & E1 & Ha1 & Hp1 & Hr1). rewrite app_nil_r in E1. rewrite (bind_ok _ _ _ _ _ E1).
  destruct Hr1 as [[-> Hkl1]|(-> & Hf & Hl)]; cbn [negb Z.eqb].
  2: { exists (-1), p1, w1, tr1. destruct Hl. split_and!; try done; [|auto]. right. auto. }
  destruct (slow_outcome K 10 10 20 (Z.max 1 (timeout / 10)) p1 w1 tr0 tr1 HK Hnd ltac:(lia) Hp1 Ha1 Hkl1)
    as (r2 & m & p2 & w2 & tr2 & E2 & (Ha2 & Hp2 & Hr2) & Hm & Hor). rewrite (bind_ok _ _ _ _ _ E2).
  destruct Hr2 as [[-> Hkl2]|(-> & Hf & Hl)]; cbn [negb Z.eqb].
  2: { exists (-1), p2, w2, tr2. destruct Hl. split_and!; try done; [|auto]. right. auto. }
  rewrite (bind_ok get _ _ _ _ eq_refl). cbv beta iota. eexists _, p2, w2, tr2. split; [reflexivity|].
  rewrite kill_list_items_length. destruct Hkl2 as [[Hs Hg Hn] _ _ Ht].
  split; [done|]. split; [done|]. split; [|split; [|done]].
  - destruct (Z.ltb_spec 0 (Z.of_nat (length (to_kill_list p2)))) as [Hz|Hz].
    + right. split; [done|]. right.
      assert (Hne : to_kill_list p2 ≠ []) by (intros E; rewrite E in Hz; done). split; [done|].
      destruct Hor as [->|[?|?]]; done.
    + left. split; [done|]. apply nil_length_inv. lia.
  - intros e He. split; [|by apply Hg]. destruct (Hs e He) as (k & ? & ?). exists k. split; [lia|done].
Qed.
End killing.

(** ** Examples *)

(** A system in which every process is killed by the second SIGKILL it gets: the world counts
    the signals. *)
#[export] Instance stubborn_system : ProcessSystem nat := {|
  fork_exec _ _ w := (Ok 100, w);
  waitpid p w := (Ok (if (3 <=? w)%nat then (p, SIGKILL) else (0, 0)), w);
  kill _ _ w := (Ok 0, S w);
  notify _ _ w := (Ok tt, w);
  sleep _ w := (Ok tt, w)
|}.
#[export] Instance stubborn_total : ProcessSystemTotal nat.
Proof. split; intros; cbn; eauto. Qed.

Definition one_command : process_list :=
  match process_list_add (str "ping") (str "/bin/ping -c\ 1 host") (process_list_init 4 false true, []) with
  | (Ok true, (p, _)) => p
  | _ => process_list_init 0 false false
  end.

Lemma one_command_ok : plist_ok one_command.
Proof.
  pose proof (process_list_add_spec (str "ping") (str "/bin/ping -c\ 1 host") (process_list_init 4 false true) []
    (plist_ok_init 4 false true ltac:(lia)) ltac:(vm_compute; reflexivity)) as Ha.
  unfold one_command. destruct (process_list_add _ _ _) as [[[]|c] [p h]]; [apply Ha|..]; by apply plist_ok_init.
Qed.

(** C26: adding a command, written as words of plain characters, characters behind a backslash
    and parts between closed quotes, with blanks between the words and perhaps a line end behind
    them: with memory it is added exactly when there is room and it has a word that is not
    empty in front, and its arguments are what its words mean, up to the first empty one
    (unlike in a shell, an empty argument ends the command). Nothing else changes. *)
Theorem process_list_add_correct name c p h :
  plist_ok p → command_valid c → fits (command_text c) → None ∉ h →
  ∃ r p' h', process_list_add name (command_text c) (p, h) = (Ok r, (p', h')) ∧ plist_ok p' ∧
    r = bool_decide (allocated_list_entries p < max_list_entries p ∧ command_meaning c ≠ []) ∧
    active_list p' = active_list p ++
      (if r then [mk_process name PROCESS_LIST_ENTRY_STATE_INITIALIZED (Some (command_meaning c))
                    (Z.of_nat (length (command_meaning c))) 0 0] else []) ∧
    to_kill_list p' = to_kill_list p.
Proof.
  intros Hp Hc Hfit Hh. pose proof (process_list_add_spec name (command_text c) p h Hp Hfit) as Ha.
  rewrite (command_words_text c Hc) in Ha.
  destruct (process_list_add name (command_text c) (p, h)) as [[r|e] [p' h']]; [|by destruct Ha as (_ & _ & ?)].
  exists r, p', h'. split; [done|]. destruct r.
  - destruct Ha as (Hp' & Hlt & Ha & Hk & Hne). by rewrite bool_decide_eq_true_2.
  - destruct Ha as (-> & Hor). rewrite bool_decide_eq_false_2, app_nil_r; [done|].
    intros [? Hne]. destruct Hor as [?|[?|?]]; [lia|done..].
Qed.

(** A command with an escaped blank, a part between quotes with an escaped quote and a backslash
    that stays, quotes inside of a word, and a line end. *)
Definition ping_command : command_line :=
  mk_command_line
    [([], CHAR <$> str "/bin/ping");
     ([x20], [CHAR x2d; CHAR x63; ESCAPED x20; CHAR x31]);
     ([x20; x09], [BETWEEN_QUOTES [QUOTED_CHAR x61; QUOTED_CHAR x20; QUOTED_ESCAPED x22;
                                   QUOTED_CHAR x68; QUOTED_ESCAPED x64]]);
     ([x20], [CHAR x68; CHAR x6f; BETWEEN_QUOTES [QUOTED_CHAR x73]; CHAR x74])]
    [x20] (Some (x0a, str "rest")).
Lemma ping_command_valid : command_valid ping_command.
Proof. split; [|split; [|by left]]; apply (bool_decide_unpack _); vm_compute; exact I. Qed.

Lemma process_list_add_correct_witness :
  plist_ok (process_list_init 4 false true) ∧ command_valid ping_command ∧
  command_meaning ping_command =
    [str "/bin/ping"; str "-c 1"; str "a " ++ [x22] ++ str "h\d"; str "host"] ∧
  ∃ p' h', process_list_add (str "ping") (command_text ping_command) (process_list_init 4 false true, []) =
    (Ok true, (p', h')) ∧ plist_ok p'.
Proof.
  pose proof (plist_ok_init 4 false true ltac:(lia)) as Hp. split; [exact Hp|].
  split; [exact ping_command_valid|]. split; [vm_compute; reflexivity|].
  destruct (process_list_add_correct (str "ping") ping_command (process_list_init 4 false true)
    [] Hp ping_command_valid ltac:(vm_compute; reflexivity) ltac:(apply not_elem_of_nil)) as (r & p' & h' & E & Hp' & Hr & _).
  exists p', h'. split; [|exact Hp'].
  rewrite bool_decide_eq_true_2 in Hr; [rewrite Hr in E; exact E|]. split; [reflexivity|discriminate].
Defined.

(** Out of memory after the words were counted: the entry is freed with the number of its words,
    but without the words. *)
Lemma process_list_add_follows_null :
  let ok : alloc_outcome := Some (λ _, x00) in
  fst (process_list_add (str "a") (str "b") (process_list_init 1 false false, [ok; ok; ok; ok; None])) =
  Err NULL_DEREF.
Proof. vm_compute. reflexivity. Qed.

(** An empty argument between quotes ends the command. *)
Lemma empty_argument_ends_command :
  command_words (str "/bin/test -z " ++ quoted [] ++ str " -a 1") = [str "/bin/test"; str "-z"].
Proof. vm_compute. reflexivity. Qed.

Lemma process_list_killall_correct_witness :
  let '(_, (p, (w, tr))) := process_list_exec_initialized (one_command, (0%nat, [])) in
  plist_ok p ∧ NoDup (pid <$> to_be_killed p) ∧
  ∃ p' w' tr', process_list_killall 1000 (p, (w, tr)) = (Ok 0, (p', (w', tr ++ tr'))) ∧ to_kill_list p' = [] ∧
    has_ended 100 tr' ∧ signals_to 100 tr' = [SIGTERM; SIGKILL; SIGKILL].
Proof.
  destruct (exec_initialized_ok one_command (0%nat, []) one_command_ok) as (r & p & [w tr] & E & Hp & _).
  assert (Hpid : NoDup (pid <$> to_be_killed (fst (snd (process_list_exec_initialized (one_command, (0%nat, [])))))))
    by (apply (bool_decide_unpack _); vm_compute; exact I).
  assert (Hk : 100 ∈ pid <$> to_be_killed (fst (snd (process_list_exec_initialized (one_command, (0%nat, []))))))
    by (apply (bool_decide_unpack _); vm_compute; exact I).
  assert (Hz : let '(_, (p, (w, tr))) := process_list_exec_initialized (one_command, (0%nat, [])) in
    fst (process_list_killall 1000 (p, (w, tr))) = Ok 0 ∧
    signals_to 100 (drop (length tr) (snd (snd (snd (process_list_killall 1000 (p, (w, tr))))))) =
      [SIGTERM; SIGKILL; SIGKILL]) by (vm_compute; split; reflexivity).
  rewrite E in Hpid, Hk, Hz |- *. cbn [fst snd] in Hpid, Hk. split; [exact Hp|]. split; [exact Hpid|].
  destruct (process_list_killall_correct p w tr 1000 Hp Hpid) as (r' & p' & w' & tr' & E' & _ & _ & Hr & Hall & _).
  rewrite E' in Hz. cbn [fst snd] in Hz. rewrite drop_app_length in Hz. destruct Hz as [Hz Hs]. injection Hz as ->.
  exists p', w', tr'. split; [exact E'|]. destruct Hr as [[_ Hr]|[Hr _]]; [|discriminate Hr].
  split; [exact Hr|]. split; [|exact Hs]. apply list_elem_of_fmap in Hk as (e & -> & He).
  destruct (Hall e He) as [_ [Hin|Hend]]; [|exact Hend]. rewrite Hr in Hin. inversion Hin.
Defined.
