(* ===== verification/HeuristicsWorker.v ===== *)
(** The process that runs the heuristics (qdevice-heuristics-worker.c,
    qdevice-heuristics-worker-cmd.c): it takes commands from the device, runs the programs, and
    answers with the result.

    The pipes and the system are parameters ([WorkerWorld]); which timers are due in a round is
    up to the clock, so a round is given their list.  Messages for the log are left out.  [answers]
    is not a field of the program: it records the commands to run and the results, in order. *)
From stdpp Require Import strings.
From S2P Require Import Prelude Dynar DynarStr Lex SendBuffer Heuristics PrPollLoop ProcessList.
From stdpp Require Import list gmap.
From S2P Require Import TimerList TimerInterface.
Local Open Scope Z_scope.

(** The result pipe is full and the device does not read it: the program goes on trying. *)
Definition PIPE_BLOCKED : Z := -1006.

Inductive worker_timer := KILL_LIST_TIMER | EXEC_TIMEOUT_TIMER.
#[export] Instance worker_timer_eq_dec : EqDecision worker_timer.
Proof. solve_decision. Defined.

Inductive answer_step :=
| EXEC_RECEIVED (seq_number : Z)
| RESULT_WRITTEN (seq_number result : Z).
#[export] Instance answer_step_eq_dec : EqDecision answer_step.
Proof. solve_decision. Defined.

(** [read] of the command pipe, [write] to the result pipe - a negative result comes with whether
    the error is one to try again after - and [poll] of the command pipe: result and [revents]. *)
Class WorkerWorld (W : Type) := {
  cmd_in_read : W → Z → Z * list byte * W;
  cmd_in_transient_error : W → bool;
  cmd_out_write : W → list byte → Z * W;
  cmd_out_transient_error : W → bool;
  poll_cmd_in : M W (Z * Z)
}.

Section worker.
Context {T W : Type} `{TimerOps worker_timer T} `{ProcessSystem W} `{WorkerWorld W}.

Record worker := mk_worker {
  wk_cmd_in_buffer : dynar;
  wk_cmd_out_buffer : dynar;
  wk_exec_list : exec_list;
  main_process_list : process_list;
  main_timer_list : T;
  kill_list_timer : option nat;
  exec_timeout_timer : option nat;
  last_exec_seq_number : Z;
  schedule_exit : bool;
  wk_heap : heap;
  wk_world : W;
  answers : list answer_step
}.

Definition set_wk_cmd_in_buffer v (q : worker) : worker :=
  mk_worker v (wk_cmd_out_buffer q) (wk_exec_list q) (main_process_list q) (main_timer_list q)
    (kill_list_timer q) (exec_timeout_timer q) (last_exec_seq_number q) (schedule_exit q) (wk_heap q)
    (wk_world q) (answers q).
Definition set_wk_cmd_out_buffer v (q : worker) : worker :=
  mk_worker (wk_cmd_in_buffer q) v (wk_exec_list q) (main_process_list q) (main_timer_list q)
    (kill_list_timer q) (exec_timeout_timer q) (last_exec_seq_number q) (schedule_exit q) (wk_heap q)
    (wk_world q) (answers q).
Definition set_wk_exec_list v (q : worker) : worker :=
  mk_worker (wk_cmd_in_buffer q) (wk_cmd_out_buffer q) v (main_process_list q) (main_timer_list q)
    (kill_list_timer q) (exec_timeout_timer q) (last_exec_seq_number q) (schedule_exit q) (wk_heap q)
    (wk_world q) (answers q).
Definition set_main_process_list v (q : worker) : worker :=
  mk_worker (wk_cmd_in_buffer q) (wk_cmd_out_buffer q) (wk_exec_list q) v (main_timer_list q)
    (kill_list_timer q) (exec_timeout_timer q) (last_exec_seq_number q) (schedule_exit q) (wk_heap q)
    (wk_world q) (answers q).
Definition set_main_timer_list v (q : worker) : worker :=
  mk_worker (wk_cmd_in_buffer q) (wk_cmd_out_buffer q) (wk_exec_list q) (main_process_list q) v
    (kill_list_timer q) (exec_timeout_timer q) (last_exec_seq_number q) (schedule_exit q) (wk_heap q)
    (wk_world q) (answers q).
Definition set_kill_list_timer v (q : worker) : worker :=
  mk_worker (wk_cmd_in_buffer q) (wk_cmd_out_buffer q) (wk_exec_list q) (main_process_list q)
    (main_timer_list q) v (exec_timeout_timer q) (last_exec_seq_number q) (schedule_exit q) (wk_heap q)
    (wk_world q) (answers q).
Definition set_exec_timeout_timer v (q : worker) : worker :=
  mk_worker (wk_cmd_in_buffer q) (wk_cmd_out_buffer q) (wk_exec_list q) (main_process_list q)
    (main_timer_list q) (kill_list_timer q) v (last_exec_seq_number q) (schedule_exit q) (wk_heap q)
    (wk_world q) (answers q).
Definition set_last_exec_seq_number v (q : worker) : worker :=
  mk_worker (wk_cmd_in_buffer q) (wk_cmd_out_buffer q) (wk_exec_list q) (main_process_list q)
    (main_timer_list q) (kill_list_timer q) (exec_timeout_timer q) v (schedule_exit q) (wk_heap q)
    (wk_world q) (answers q).
Definition set_schedule_exit v (q : worker) : worker :=
  mk_worker (wk_cmd_in_buffer q) (wk_cmd_out_buffer q) (wk_exec_list q) (main_process_list q)
    (main_timer_list q) (kill_list_timer q) (exec_timeout_timer q) (last_exec_seq_number q) v (wk_heap q)
    (wk_world q) (answers q).
Definition set_wk_heap v (q : worker) : worker :=
  mk_worker (wk_cmd_in_buffer q) (wk_cmd_out_buffer q) (wk_exec_list q) (main_process_list q)
    (main_timer_list q) (kill_list_timer q) (exec_timeout_timer q) (last_exec_seq_number q)
    (schedule_exit q) v (wk_world q) (answers q).
Definition set_wk_world v (q : worker) : worker :=
  mk_worker (wk_cmd_in_buffer q) (wk_cmd_out_buffer q) (wk_exec_list q) (main_process_list q)
    (main_timer_list q) (kill_list_timer q) (exec_timeout_timer q) (last_exec_seq_number q)
    (schedule_exit q) (wk_heap q) v (answers q).
Definition note_answer (a : answer_step) (q : worker) : worker :=
  mk_worker (wk_cmd_in_buffer q) (wk_cmd_out_buffer q) (wk_exec_list q) (main_process_list q)
    (main_timer_list q) (kill_list_timer q) (exec_timeout_timer q) (last_exec_seq_number q)
    (schedule_exit q) (wk_heap q) (wk_world q) (answers q ++ [a]).

(** ** Operations of the parts *)

Definition on_wk_in_buffer {A} (m : M (dynar * heap) A) : M worker A := λ q,
  let '(r, (d, h)) := m (wk_cmd_in_buffer q, wk_heap q) in
  (r, set_wk_heap h (set_wk_cmd_in_buffer d q)).
Definition on_wk_out_buffer {A} (m : M (dynar * heap) A) : M worker A := λ q,
  let '(r, (d, h)) := m (wk_cmd_out_buffer q, wk_heap q) in
  (r, set_wk_heap h (set_wk_cmd_out_buffer d q)).
Definition on_wk_exec_list {A} (m : M (exec_list * heap) A) : M worker A := λ q,
  let '(r, (l, h)) := m (wk_exec_list q, wk_heap q) in (r, set_wk_heap h (set_wk_exec_list l q)).
Definition on_wk_timers {A} (m : M (T * heap) A) : M worker A := λ q,
  let '(r, (t, h)) := m (main_timer_list q, wk_heap q) in
  (r, set_wk_heap h (set_main_timer_list t q)).
Definition on_wk_world {A} (m : M W A) : M worker A := λ q,
  let '(r, w) := m (wk_world q) in (r, set_wk_world w q).
Definition on_wk_processes {A} (m : M (process_list * W) A) : M worker A := λ q,
  let '(r, (p, w)) := m (main_process_list q, wk_world q) in
  (r, set_wk_world w (set_main_process_list p q)).

Definition move_active_entries : M worker unit :=
  on_wk_processes (on_process_list process_list_move_active_entries_to_kill_list).

Definition wk_process_list_add (name command : c_string) : M worker bool := λ q,
  let '(r, (p, h)) := process_list_add name command (main_process_list q, wk_heap q) in
  (r, set_wk_heap h (set_main_process_list p q)).

(** ** Results *)

(** The loop that writes a result runs until everything is written; here it is cut off after this
    many calls of [write].  [HeuristicsWorkerFacts.pipe_flows] says when that does not happen. *)
Context (write_rounds : nat).

(** The number of bytes written, or -1. *)
Fixpoint qdevice_heuristics_io_blocking_write (rounds : nat) (buf : list byte) (bytes_written : nat) :
    M W Z :=
  match rounds with
  | O => fail PIPE_BLOCKED
  | S rounds => λ w,
      let '(tmp_bytes_written, w) := cmd_out_write w (drop bytes_written buf) in
      if (tmp_bytes_written =? -1) && negb (cmd_out_transient_error w) then (Ok (-1), w)
      else
        let bytes_written :=
          if tmp_bytes_written =? -1 then bytes_written
          else (bytes_written + Z.to_nat tmp_bytes_written)%nat in
        if (bytes_written =? length buf)%nat then (Ok (Z.of_nat bytes_written), w)
        else qdevice_heuristics_io_blocking_write rounds buf bytes_written w
  end.

Definition write_result_line (seq_number exec_result : Z) : M (dynar * heap) unit :=
  dynar_str_cpy QDEVICE_HEURISTICS_CMD_STR_EXEC_RESULT_ADD_SPACE;;
  dynar_str_catf (fmt_u32 seq_number ++ [x20] ++ fmt_u32 exec_result ++ [x0a]);;
  mret tt.

Definition qdevice_heuristics_worker_cmd_write_exec_result (seq_number exec_result : Z) :
    M worker Z := λ q,
  match on_wk_out_buffer (write_result_line seq_number exec_result) q with
  | (Err _, q) => (Ok (-1), q)
  | (Ok _, q) =>
      (on_wk_world (qdevice_heuristics_io_blocking_write write_rounds (contents (wk_cmd_out_buffer q)) 0);;
       modify (note_answer (RESULT_WRITTEN seq_number exec_result));;
       mret 0) q
  end.

(** ** Commands *)

Definition is_space_char (b : byte) : bool := bool_decide (b = x20).
Fixpoint skip_word (s : c_string) : c_string :=
  match s with b :: s' => if is_space_char b then s else skip_word s' | [] => [] end.
Fixpoint skip_space_chars (s : c_string) : c_string :=
  match s with b :: s' => if is_space_char b then skip_space_chars s' else s | [] => [] end.
Fixpoint word_chars (s : c_string) : c_string :=
  match s with b :: s' => if is_space_char b then [] else b :: word_chars s' | [] => [] end.

(** The name and the command in a line. *)
Definition parse_exec_list_add (line : c_string) : option (c_string * c_string) :=
  match skip_word line with
  | [] => None
  | s =>
      match skip_space_chars s with
      | [] => None
      | s =>
          let exec_name := word_chars s in
          match skip_word s with
          | [] => None
          | s =>
              match skip_space_chars s with
              | [] => None
              | exec_command => Some (exec_name, exec_command)
              end
          end
      end
  end.

Definition qdevice_heuristics_worker_cmd_process_exec_list_add (line : c_string) : M worker Z :=
  match parse_exec_list_add line with
  | None => mret (-1)
  | Some (exec_name, exec_command) =>
      ok ← on_wk_exec_list (qdevice_heuristics_exec_list_add exec_name exec_command);
      mret (if ok : bool then 0 else -1)
  end.

(** [sscanf(str, "exec %u %u")] *)
Definition parse_exec (s : c_string) : option (Z * Z) :=
  s ← scan_text QDEVICE_HEURISTICS_CMD_STR_EXEC_ADD_SPACE s;
  '(timeout, s) ← scan_u32 s;
  s ← scan_text [x20] s;
  '(seq_number, _) ← scan_u32 s;
  Some (timeout, seq_number).

(** The processes are given up, and the answer is that they failed. *)
Definition exec_failed : M worker Z :=
  move_active_entries;;
  q ← get;
  r ← qdevice_heuristics_worker_cmd_write_exec_result (last_exec_seq_number q)
        QDEVICE_HEURISTICS_EXEC_RESULT_FAIL;
  mret (if negb (r =? 0) then -1 else 0).

Definition delete_exec_timeout_timer (p : nat) : M worker unit :=
  on_wk_timers (timer_delete p);;
  modify (set_exec_timeout_timer None).

(** [false]: an entry could not be added. *)
Fixpoint add_processes (l : exec_list) : M worker bool :=
  match l with
  | [] => mret true
  | e :: l' =>
      ok ← wk_process_list_add (exec_name e) (exec_command e);
      if ok : bool then add_processes l' else mret false
  end.

Definition start_processes (timeout : Z) : M worker Z :=
  q ← get;
  ok ← add_processes (wk_exec_list q);
  if negb ok then exec_failed
  else
    r ← on_wk_processes process_list_exec_initialized;
    if negb (r =? 0) then exec_failed
    else
      p ← on_wk_timers (timer_add timeout EXEC_TIMEOUT_TIMER);
      modify (set_exec_timeout_timer p);;
      match p with
      | None => exec_failed
      | Some _ => mret 0
      end.

Definition qdevice_heuristics_worker_cmd_process_exec (line : c_string) : M worker Z :=
  match parse_exec line with
  | None => mret (-1)
  | Some (timeout, seq_number) =>
      q ← get;
      match exec_timeout_timer q with
      | Some p => move_active_entries;; delete_exec_timeout_timer p
      | None => mret tt
      end;;
      modify (λ q, note_answer (EXEC_RECEIVED seq_number) (set_last_exec_seq_number seq_number q));;
      q ← get;
      if qdevice_heuristics_exec_list_is_empty (wk_exec_list q) then
        r ← qdevice_heuristics_worker_cmd_write_exec_result (last_exec_seq_number q)
              QDEVICE_HEURISTICS_EXEC_RESULT_DISABLED;
        mret (if negb (r =? 0) then -1 else 0)
      else start_processes timeout
  end.

(** [strncmp(line, command, n) == 0] *)
Definition starts_with (command : c_string) (line : c_string) : bool :=
  bool_decide (take (length command) line = command).

Definition process_command (line : c_string) : M worker Z :=
  if bool_decide (line = QDEVICE_HEURISTICS_CMD_STR_EXEC_LIST_CLEAR) then
    modify (λ q, set_wk_exec_list (qdevice_heuristics_exec_list_free (wk_exec_list q)) q);;
    mret 0
  else if starts_with QDEVICE_HEURISTICS_CMD_STR_EXEC_LIST_ADD line then
    qdevice_heuristics_worker_cmd_process_exec_list_add line
  else if starts_with QDEVICE_HEURISTICS_CMD_STR_EXEC_ADD_SPACE line then
    qdevice_heuristics_worker_cmd_process_exec line
  else mret (-1).

Definition or_cmd_error (m : M worker unit) : M worker Z := λ q,
  match m q with (Ok _, q') => (Ok 1, q') | (Err _, q') => (Ok (-1), q') end.

Definition qdevice_heuristics_worker_cmd_process_one_line : M worker Z :=
  q ← get;
  let d := wk_cmd_in_buffer q in
  let str := take (Z.to_nat (Dynar.size d)) (data d) in
  let nl_pos := line_length str in
  if (length str <=? nl_pos)%nat then mret 0
  else
    r ← process_command (until_nul (take nl_pos str));
    if negb (r =? 0) then mret (-1)
    else
      let zi := S (nl_pos + gap_length (drop (S nl_pos) str)) in
      or_cmd_error (on_wk_in_buffer (drop_line nl_pos zi)).

Fixpoint worker_cmd_process_loop (fuel : nat) : M worker Z :=
  match fuel with
  | O => fail OUT_OF_FUEL
  | S fuel =>
      r ← qdevice_heuristics_worker_cmd_process_one_line;
      if r =? 1 then worker_cmd_process_loop fuel else mret r
  end.

(** A round takes a byte at least. *)
Definition qdevice_heuristics_worker_cmd_process : M worker Z :=
  q ← get; worker_cmd_process_loop (S (Z.to_nat (Dynar.size (wk_cmd_in_buffer q)))).

Definition worker_io_read : M worker Z := λ q,
  let '(r, (w, (d, h))) :=
    qdevice_heuristics_io_read cmd_in_read cmd_in_transient_error
      (wk_world q, (wk_cmd_in_buffer q, wk_heap q)) in
  (r, set_wk_world w (set_wk_heap h (set_wk_cmd_in_buffer d q))).

Definition qdevice_heuristics_worker_cmd_read_from_pipe : M worker Z :=
  res ← worker_io_read;
  if (res =? -1) || (res =? -2) || (res =? -3) then mret (-1)
  else if res =? 1 then qdevice_heuristics_worker_cmd_process
  else mret 0.

(** ** Timers *)

Definition qdevice_heuristics_worker_kill_list_timer_callback : M worker Z :=
  r ← on_wk_processes process_list_process_kill_list;
  if negb (r =? 0) then modify (set_schedule_exit true);; mret 0 else mret (-1).

Definition qdevice_heuristics_worker_exec_timeout_timer_callback : M worker Z :=
  move_active_entries;;
  modify (set_exec_timeout_timer None);;
  q ← get;
  r ← qdevice_heuristics_worker_cmd_write_exec_result (last_exec_seq_number q)
        QDEVICE_HEURISTICS_EXEC_RESULT_FAIL;
  if negb (r =? 0) then modify (set_schedule_exit true);; mret 0 else mret 0.

Definition worker_call_timer (f : worker_timer) : M worker Z :=
  match f with
  | KILL_LIST_TIMER => qdevice_heuristics_worker_kill_list_timer_callback
  | EXEC_TIMEOUT_TIMER => qdevice_heuristics_worker_exec_timeout_timer_callback
  end.

(** ** A round *)

Definition poll_commands : M worker Z :=
  '(poll_res, revents) ← on_wk_world poll_cmd_in;
  if poll_res <? 0 then mret 0
  else
    r ← (if has revents POLLIN then qdevice_heuristics_worker_cmd_read_from_pipe else mret 0);
    if negb (r =? 0) then mret (-1)
    else if has revents POLLOUT then mret (-1)
    else if has revents (Z.lor (Z.lor POLLERR POLLHUP) POLLNVAL) && negb (has revents (Z.lor POLLIN POLLOUT))
    then mret (-1) else mret 0.

(** The summary is known: answer, and give the processes up. *)
Definition answer_with (result : Z) (p : nat) : M worker Z :=
  q ← get;
  r ← qdevice_heuristics_worker_cmd_write_exec_result (last_exec_seq_number q) result;
  if negb (r =? 0) then mret (-1)
  else
    move_active_entries;;
    delete_exec_timeout_timer p;;
    mret 0.

Definition check_processes : M worker Z :=
  q ← get;
  match exec_timeout_timer q with
  | None => mret 0
  | Some p =>
      let plist_summary := process_list_get_summary_result_short (main_process_list q) in
      if plist_summary =? -1 then mret 0
      else if plist_summary =? 0 then answer_with QDEVICE_HEURISTICS_EXEC_RESULT_PASS p
      else if plist_summary =? 1 then answer_with QDEVICE_HEURISTICS_EXEC_RESULT_FAIL p
      else mret (-1)
  end.

Section rounds.
Context `{!TimerLaws worker_timer T}.

(** [timer_list_expire] with the timers that are due. *)
Definition worker_timer_expired (p : nat) : M worker unit :=
  q ← get;
  match timers_running (main_timer_list q) !! p with
  | None => mret tt
  | Some f =>
      res ← worker_call_timer f;
      q ← get;
      match timers_running (main_timer_list q) !! p with
      | None => mret tt
      | Some _ =>
          if res =? 0 then on_wk_timers (timer_delete p) else on_wk_timers (timer_reschedule p)
      end
  end.

Fixpoint expire_due (due : list nat) : M worker unit :=
  match due with
  | [] => mret tt
  | p :: due' => worker_timer_expired p;; expire_due due'
  end.

Definition qdevice_heuristics_worker_poll (due : list nat) : M worker Z :=
  r ← poll_commands;
  if negb (r =? 0) then mret (-1)
  else
    r ← on_wk_processes process_list_waitpid;
    if negb (r =? 0) then mret (-1)
    else
      r ← check_processes;
      if negb (r =? 0) then mret (-1)
      else
        expire_due due;;
        q ← get;
        mret (if schedule_exit q then -1 else 0).
End rounds.

(** ** The whole process *)

(** Up to the loop; [false]: no memory for the timer. *)
Definition worker_init (ipc_max_send_receive_size max_processes kill_list_interval : Z)
    (use_execvp : bool) (no_timers : T) (h : heap) (w : W) : res bool * worker :=
  let q := mk_worker (dynar_init ipc_max_send_receive_size) (dynar_init ipc_max_send_receive_size)
    qdevice_heuristics_exec_list_init (process_list_init max_processes use_execvp true) no_timers
    None None 0 false h w [] in
  (p ← on_wk_timers (timer_add kill_list_interval KILL_LIST_TIMER);
   modify (set_kill_list_timer p);;
   mret (match p with Some _ => true | None => false end)) q.

(** After the loop. *)
Definition worker_shutdown (kill_list_interval : Z) : M worker unit :=
  modify (λ q, set_wk_exec_list (qdevice_heuristics_exec_list_free (wk_exec_list q)) q);;
  on_wk_processes (process_list_killall kill_list_interval);;
  on_wk_processes (on_process_list process_list_free).
End worker.
