(* ===== verification/HeuristicsWorkerFacts.v ===== *)
(** The worker answers: whatever the device sends and however the processes behave, a result
    follows directly on the command it answers and carries its number; while an answer is due the
    timer that will force one is running, and once it was given no process stays active. *)
From stdpp Require Import strings.
From S2P Require Import Prelude Dynar DynarStr Lex SendBuffer Heuristics PrPollLoop ProcessList ProcessListFacts.
From stdpp Require Import list gmap.
From S2P Require Import TimerList TimerListFacts TimerInterface HeuristicsWorker.
Local Open Scope Z_scope.

Class WorkerWorldTotal (W : Type) `{WorkerWorld W} := {
  poll_cmd_in_total w : ∃ r w', poll_cmd_in w = (Ok r, w');
  cmd_in_read_length w n : Z.of_nat (length (snd (fst (cmd_in_read w n)))) ≤ Z.max 0 n
}.

Section facts.
Context {T W : Type} `{TimerLaws worker_timer T} `{ProcessSystemTotal W} `{WorkerWorldTotal W}.
Context (write_rounds : nat).
Abbreviation worker := (@worker T W).

(** ** The result pipe *)

(** One of the next [k] writes of the bytes takes some of them, or fails for good. *)
Fixpoint taken_within (k : nat) (w : W) (bytes : list byte) : Prop :=
  match k with
  | O => False
  | S k => let '(n, w') := cmd_out_write w bytes in
      0 < n ∨ (n = -1 ∧ cmd_out_transient_error w' = false) ∨ taken_within k w' bytes
  end.

(** The device reads the pipe: no write takes more than [k] calls, of a result of at most 34 bytes,
    than [write_rounds] allows for. *)
Definition pipe_flows : Prop := ∃ k,
  (34 * k ≤ write_rounds)%nat ∧
  (∀ w bytes, let n := fst (cmd_out_write w bytes) in n = -1 ∨ 0 ≤ n ≤ Z.of_nat (length bytes)) ∧
  (∀ w bytes, bytes ≠ [] → taken_within k w bytes).

(** ** What a computation establishes

    It may end the process when the pipe is blocked, or - without memory - by following a NULL
    pointer while a process is added. *)
Definition wp {A} (m : M worker A) (q : worker) (Q : A → worker → Prop) : Prop :=
  match m q with
  | (Ok r, q') => Q r q'
  | (Err c, _) => (c = PIPE_BLOCKED ∧ ¬ pipe_flows) ∨ c = NULL_DEREF
  end.

Lemma wp_bind {A B} (m : M worker A) (f : A → M worker B) q Q :
  wp m q (λ r q', wp (f r) q' Q) → wp (m ≫= f) q Q.
Proof. unfold wp, mbind, M_bind. by destruct (m q) as [[r|c] q']. Qed.

Lemma wp_mono {A} (m : M worker A) q (Q1 Q2 : A → worker → Prop) :
  wp m q Q1 → (∀ r q', Q1 r q' → Q2 r q') → wp m q Q2.
Proof. unfold wp. destruct (m q) as [[r|c] q']; auto. Qed.

Lemma wp_ret {A} (r : A) (q : worker) (Q : A → worker → Prop) : Q r q → wp (mret r) q Q.
Proof. done. Qed.
Lemma wp_get (q : worker) (Q : worker → worker → Prop) : Q q q → wp get q Q.
Proof. done. Qed.
Lemma wp_modify f (q : worker) (Q : unit → worker → Prop) : Q tt (f q) → wp (modify f) q Q.
Proof. done. Qed.

(** ** The invariant *)

(** Every result follows directly on its command. *)
Definition answered (l : list answer_step) : Prop :=
  ∀ l1 s r l2, l = l1 ++ RESULT_WRITTEN s r :: l2 → last l1 = Some (EXEC_RECEIVED s).

(** The number of the command that waits for its answer. *)
Definition pending (l : list answer_step) : option Z :=
  match last l with Some (EXEC_RECEIVED s) => Some s | _ => None end.

(** [x] is a timer that is being expired. *)
Record worker_inv (x : option nat) (t : T) (p : process_list) (e : option nat) (s : Z)
    (l : list answer_step) : Prop := {
  wi_timers : timers_inv t;
  wi_lists : plist_ok p;
  wi_answered : answered l;
  wi_pending : pending l = (e ≫= λ _, Some s);
  wi_handle : ∀ a, e = Some a → timers_running t !! a = Some EXEC_TIMEOUT_TIMER;
  wi_running : ∀ a, timers_running t !! a = Some EXEC_TIMEOUT_TIMER → e = Some a ∨ x = Some a;
  wi_idle : e = None → active_list p = []
}.

(** The commands that are read fit into memory, and so does every command taken from them. *)
Definition inputs_ok (q : worker) : Prop :=
  wf (wk_cmd_in_buffer q) ∧ Forall (λ e, fits (exec_command e)) (wk_exec_list q).

Record worker_ok_but (x : option nat) (q : worker) : Prop := {
  wo_inputs : inputs_ok q;
  wo_inv : worker_inv x (main_timer_list q) (main_process_list q) (exec_timeout_timer q)
    (last_exec_seq_number q) (answers q)
}.
Abbreviation worker_ok := (worker_ok_but None).

(** A command was taken and is not answered yet: no timer, but possibly processes. *)
Record owing (x : option nat) (q : worker) : Prop := {
  ow_inputs : inputs_ok q;
  ow_timers : timers_inv (main_timer_list q);
  ow_lists : plist_ok (main_process_list q);
  ow_answered : answered (answers q);
  ow_pending : pending (answers q) = Some (last_exec_seq_number q);
  ow_handle : exec_timeout_timer q = None;
  ow_running : ∀ a, timers_running (main_timer_list q) !! a = Some EXEC_TIMEOUT_TIMER → x = Some a
}.

Lemma answered_app l a :
  answered l → (∀ s r, a = RESULT_WRITTEN s r → pending l = Some s) → answered (l ++ [a]).
Proof.
  intros Hl Ha l1 s r l2 E. destruct l2 as [|b l2 _] using rev_ind.
  - apply app_inj_tail in E as [<- ->]. specialize (Ha s r eq_refl). unfold pending in Ha.
    destruct (last l) as [[]|]; by simplify_eq.
  - rewrite app_comm_cons, app_assoc in E. apply app_inj_tail in E as [E _]. by apply (Hl _ _ _ _ E).
Qed.

Lemma pending_app l a :
  pending (l ++ [a]) = match a with EXEC_RECEIVED s => Some s | RESULT_WRITTEN _ _ => None end.
Proof. unfold pending. by rewrite last_snoc. Qed.

(** ** The parts *)

Lemma wp_move (q : worker) (Q : unit → worker → Prop) :
  plist_ok (main_process_list q) →
  (∀ p, plist_ok p → active_list p = [] → Q tt (set_wk_world (wk_world q) (set_main_process_list p q))) →
  wp move_active_entries q Q.
Proof.
  intros Hp HQ. unfold wp, move_active_entries, on_wk_processes, on_process_list.
  destruct (process_list_move_active_ok _ Hp) as (p & -> & Hp' & Ha & _). by apply HQ.
Qed.

Lemma blocking_write_total rounds buf n (w : W) :
  match qdevice_heuristics_io_blocking_write rounds buf n w with
  | (Ok _, _) => True
  | (Err c, _) => c = PIPE_BLOCKED
  end.
Proof.
  revert n w. induction rounds as [|rounds IH]; intros n w; [done|].
  cbn [qdevice_heuristics_io_blocking_write]. destruct (cmd_out_write w _) as [m w'].
  destruct (_ && _); [done|]. destruct (_ =? _)%nat; [done|apply IH].
Qed.

Lemma blocking_write_flows k buf :
  (∀ w bytes, let n := fst (cmd_out_write w bytes) in n = -1 ∨ 0 ≤ n ≤ Z.of_nat (length bytes)) →
  (∀ w bytes, bytes ≠ [] → taken_within k w bytes) →
  ∀ rounds j n (w : W), (n < length buf)%nat → taken_within j w (drop n buf) →
  (j + k * (length buf - n - 1) ≤ rounds)%nat →
  ∃ r w', qdevice_heuristics_io_blocking_write rounds buf n w = (Ok r, w').
Proof.
  intros Hrange Hflow. induction rounds as [|rounds IH]; intros j n w Hn Hj Hr.
  { destruct j; [done|]. pose proof (Nat.le_0_l (k * (length buf - n - 1))). lia. }
  destruct j as [|j]; [done|]. cbn [taken_within] in Hj. cbn [qdevice_heuristics_io_blocking_write].
  specialize (Hrange w (drop n buf)). destruct (cmd_out_write w (drop n buf)) as [m w'].
  cbn [fst] in Hrange. rewrite length_drop in Hrange.
  destruct (Z.eqb_spec m (-1)) as [->|Hm]; cbn [andb].
  - destruct (cmd_out_transient_error w') eqn:Et; cbn [negb]; [|by eauto].
    rewrite (proj2 (Nat.eqb_neq n (length buf))) by lia.
    apply (IH j); [done| |lia]. destruct Hj as [?|[[_ ?]|?]]; [lia|done|done].
  - destruct Hrange as [?|Hrange]; [done|].
    destruct (Nat.eqb_spec (n + Z.to_nat m) (length buf)) as [|Hne]; [by eauto|].
    destruct (decide (m = 0)) as [->|Hm0].
    + rewrite Nat.add_0_r in *. apply (IH j); [done| |lia]. destruct Hj as [?|[[? _]|?]]; [lia|done|done].
    + apply (IH k); [lia| |].
      * apply Hflow. intros E. apply (f_equal length) in E. rewrite length_drop in E. cbn in E. lia.
      * assert (length buf - (n + Z.to_nat m) - 1 + 1 ≤ length buf - n - 1)%nat by lia. nia.
Qed.

(** A result is short. *)
Lemma prealloc_size n d h r d' h' : dynar_prealloc n (d, h) = (r, (d', h')) → Dynar.size d' = Dynar.size d.
Proof.
  unfold dynar_prealloc, dynar_realloc. repeat case_match; intros E; injection E as <- <- <-; done.
Qed.

Lemma result_line_length s r d h u d' h' :
  write_result_line s r (d, h) = (Ok u, (d', h')) →
  (length (contents d') ≤ 34)%nat ∧ contents d' ≠ [].
Proof.
  intros E. unfold write_result_line in E. apply bind_Ok in E as ([] & [d1 h1] & E1 & E).
  apply bind_Ok in E as (n & [d2 h2] & E2 & [= _ <- _]).
  assert (Hs1 : Dynar.size d1 = 12).
  { unfold dynar_str_cpy in E1. destruct (_ <? _); [done|]. unfold dynar_str_cat, dynar_cat in E1.
    apply bind_Ok in E1 as (a & [d0 h0] & E0 & [= <- _]). unfold or_fail in E0.
    destruct (dynar_prealloc _ _) as [[x|c] [d0' h0']] eqn:Ep; [|done]. apply prealloc_size in Ep.
    injection E0 as _ <- _. cbn. by rewrite Ep. }
  assert (Hs2 : 12 ≤ Dynar.size d2 ≤ 34 ∧ Dynar.data d2 ≠ []).
  { unfold dynar_str_catf, dynar_str_vcatf in E2.
    pose proof (fmt_u32_length s). pose proof (fmt_u32_length r).
    assert (Hl : (length (fmt_u32 s ++ [x20] ++ fmt_u32 r ++ [x0a]) ≤ 22)%nat)
      by (rewrite !length_app; change (length [x20]) with 1%nat; change (length [x0a]) with 1%nat; lia).
    assert (Hl2 : (0 < length (fmt_u32 s ++ [x20] ++ fmt_u32 r ++ [x0a]))%nat)
      by (rewrite !length_app; change (length [x20]) with 1%nat; change (length [x0a]) with 1%nat; lia).
    set (f := fmt_u32 s ++ [x20] ++ fmt_u32 r ++ [x0a]) in *. clearbody f.
    destruct (Z.ltb_spec (Z.of_nat (length f)) 1); [lia|].
    apply bind_Ok in E2 as (a & [d0 h0] & E0 & E2). unfold or_fail in E0.
    destruct (dynar_prealloc _ _) as [[x|c] [d0' h0']] eqn:Ep; [|done]. apply prealloc_size in Ep.
    injection E0 as _ <- _. apply bind_Ok in E2 as ([] & [d3 h3] & [= <- _] & [= _ <- _]).
    cbn [Dynar.size Dynar.set_size Dynar.set_data Dynar.data]. rewrite Ep, Hs1. split; [lia|].
    intros Ed%(f_equal length). unfold block_write in Ed. rewrite !length_app in Ed. cbn in Ed. lia. }
  destruct Hs2 as [Hs2 Hd]. unfold contents. rewrite length_take. split; [lia|].
  intros Ed%(f_equal length). rewrite length_take in Ed. apply Hd, nil_length_inv. cbn [length] in Ed. lia.
Qed.

Lemma blocking_write_outcome buf (w : W) :
  (length buf ≤ 34)%nat → buf ≠ [] →
  match qdevice_heuristics_io_blocking_write write_rounds buf 0 w with
  | (Ok _, _) => True
  | (Err c, _) => c = PIPE_BLOCKED ∧ ¬ pipe_flows
  end.
Proof.
  intros Hl Hne. pose proof (blocking_write_total write_rounds buf 0 w) as Hb.
  destruct (qdevice_heuristics_io_blocking_write _ _ _ _) as [[r|c] w'] eqn:E; [done|]. split; [done|].
  intros (k & Hk & Hrange & Hflow).
  assert (Hlt : (0 < length buf)%nat) by (destruct buf; [done|cbn; lia]).
  destruct (blocking_write_flows k buf Hrange Hflow write_rounds k 0 w Hlt) as (r' & w2 & E2);
    [by apply Hflow|nia|]. congruence.
Qed.

(** What is left alone by writing a result. *)
Record same_but_output (q q' : worker) : Prop := {
  so_timers : main_timer_list q' = main_timer_list q;
  so_processes : main_process_list q' = main_process_list q;
  so_handle : exec_timeout_timer q' = exec_timeout_timer q;
  so_number : last_exec_seq_number q' = last_exec_seq_number q;
  so_buffer : wk_cmd_in_buffer q' = wk_cmd_in_buffer q;
  so_list : wk_exec_list q' = wk_exec_list q
}.

Lemma wp_write_result s r (q : worker) (Q : Z → worker → Prop) :
  (∀ q', same_but_output q q' → answers q' = answers q → Q (-1) q') →
  (∀ q', same_but_output q q' → answers q' = answers q ++ [RESULT_WRITTEN s r] → Q 0 q') →
  wp (qdevice_heuristics_worker_cmd_write_exec_result write_rounds s r) q Q.
Proof.
  intros Hfail Hdone. unfold wp, qdevice_heuristics_worker_cmd_write_exec_result, on_wk_out_buffer.
  destruct (write_result_line s r _) as [[u|c] [d h]] eqn:El; [|by apply Hfail].
  apply result_line_length in El as [Hl Hne].
  set (q1 := set_wk_heap h _). unfold on_wk_world, mbind, M_bind, modify.
  pose proof (blocking_write_outcome (contents (wk_cmd_out_buffer q1)) (wk_world q1) Hl Hne) as Hb.
  destruct (qdevice_heuristics_io_blocking_write _ _ _ _) as [[n|c] w]; [|by left]. by apply Hdone.
Qed.

Lemma inputs_same q q' : same_but_output q q' → inputs_ok q → inputs_ok q'.
Proof. intros [_ _ _ _ E1 E2]. unfold inputs_ok. by rewrite E1, E2. Qed.

(** An answer that is owed is given. *)
Lemma worker_ok_answer x (q q' : worker) r :
  owing x q → active_list (main_process_list q) = [] → same_but_output q q' →
  answers q' = answers q ++ [RESULT_WRITTEN (last_exec_seq_number q) r] → worker_ok_but x q'.
Proof.
  intros [Hi Ht Hl Ha Hp He Hr] Hact Hs Eans. split; [by eapply inputs_same|].
  destruct Hs as [Et Ep Ee Es _ _]. rewrite Et, Ep, Ee, Es, Eans, He. split; try done.
  - apply answered_app; [done|]. by intros s r' [= <- _].
  - by rewrite pending_app.
  - intros a Ha'. right. by apply Hr.
Qed.

(** The outcome of a command; [d] is the input buffer. *)
Definition command_done (x : option nat) (d : dynar) (r : Z) (q : worker) : Prop :=
  wk_cmd_in_buffer q = d ∧ (r = 0 → worker_ok_but x q).

Lemma wp_exec_failed x (q : worker) :
  owing x q → wp (exec_failed write_rounds) q (command_done x (wk_cmd_in_buffer q)).
Proof.
  intros Ho. unfold exec_failed. apply wp_bind, wp_move; [apply Ho|]. intros p Hp' Hact.
  apply wp_bind, wp_get, wp_bind. set (q1 := set_wk_world _ _).
  assert (Ho1 : owing x q1) by (by destruct Ho; split).
  apply wp_write_result; intros q2 Hs Hans; apply wp_ret; (split; [apply Hs|]); [done|].
  intros _. by eapply worker_ok_answer.
Qed.

(** ** Starting the processes *)

Lemma set_list_owing x p h (q : worker) :
  owing x q → plist_ok p → owing x (set_wk_heap h (set_main_process_list p q)).
Proof. intros []. by split. Qed.

Lemma set_world_owing x p w (q : worker) :
  owing x q → plist_ok p → owing x (set_wk_world w (set_main_process_list p q)).
Proof. intros []. by split. Qed.

Lemma wp_add_processes x l (q : worker) :
  owing x q → Forall (λ e, fits (exec_command e)) l →
  wp (add_processes l) q (λ _ q', owing x q' ∧ wk_cmd_in_buffer q' = wk_cmd_in_buffer q).
Proof.
  intros Ho Hl. revert q Ho. induction Hl as [|e l He Hl IH]; intros q Ho; cbn [add_processes]; [by apply wp_ret|].
  apply wp_bind. unfold wp at 1, wk_process_list_add.
  pose proof (process_list_add_spec (exec_name e) (exec_command e) (main_process_list q) (wk_heap q)
    (ow_lists _ _ Ho) He) as Ha.
  destruct (process_list_add _ _ _) as [[[]|c] [p h]]; [| |right; apply Ha].
  - destruct Ha as [Hp _]. eapply wp_mono; [apply IH, set_list_owing; [exact Ho|exact Hp]|]. by intros r q' [? ?].
  - destruct Ha as [-> _]. apply wp_ret. split; [|done]. apply set_list_owing; [done|apply Ho].
Qed.

Lemma wp_processes {A} R (m : M (process_list * W) Z) (f : Z → M worker A) (q : worker) Q :
  keeps_lists R m → plist_ok (main_process_list q) →
  (∀ r p w, plist_ok p → length (active_list p) = length (active_list (main_process_list q)) →
     (r = 0 ∨ r = -1) → wp (f r) (set_wk_world w (set_main_process_list p q)) Q) →
  wp (on_wk_processes m ≫= f) q Q.
Proof.
  intros Hm Hp HQ. apply wp_bind. unfold wp at 1, on_wk_processes.
  destruct (Hm (main_process_list q) (wk_world q) Hp) as (r & p & w & -> & Hp' & _ & Hlen & Hr & _).
  by apply HQ.
Qed.

(** The timer that forces an answer is started. *)
Lemma wp_start_timer x timeout (q : worker) Q :
  owing x q →
  (∀ q', owing x q' → wk_cmd_in_buffer q' = wk_cmd_in_buffer q → Q None q') →
  (∀ a q', worker_ok_but x (set_exec_timeout_timer (Some a) q') →
     wk_cmd_in_buffer q' = wk_cmd_in_buffer q → Q (Some a) q') →
  wp (on_wk_timers (timer_add timeout EXEC_TIMEOUT_TIMER)) q Q.
Proof.
  intros [Hi Ht Hl Ha Hp He Hr] Hnone Hsome. unfold wp, on_wk_timers.
  pose proof (timer_add_law (main_timer_list q) (wk_heap q) timeout EXEC_TIMEOUT_TIMER Ht) as Hlaw.
  destruct (timer_add _ _ _) as [[[a|]|c] [t h]]; [| |done].
  - destruct Hlaw as (Hfresh & Ht' & Hrun). apply Hsome; [|done]. split; [done|]. split; cbn; try done.
    + intros b [= <-]. rewrite Hrun. by simplify_map_eq.
    + intros b. rewrite Hrun. destruct (decide (a = b)) as [->|]; [by left|]. simplify_map_eq.
      intros Hb. right. by apply Hr.
  - destruct Hlaw as (Ht' & Hrun & _). apply Hnone; [|done]. split; try done. cbn. by rewrite Hrun.
Qed.

Lemma wp_start_processes x timeout (q : worker) :
  owing x q → wp (start_processes write_rounds timeout) q (command_done x (wk_cmd_in_buffer q)).
Proof.
  intros Ho. unfold start_processes. apply wp_bind, wp_get, wp_bind.
  eapply wp_mono; [apply wp_add_processes; [exact Ho|apply Ho]|]. intros ok q1 [Ho1 E1]. rewrite <-E1.
  destruct ok; cbn [negb]; [|by apply wp_exec_failed].
  eapply wp_processes; [apply exec_initialized_ok|apply Ho1|]. intros r p w Hp _ Hr.
  pose proof (set_world_owing x p w q1 Ho1 Hp) as Ho2.
  destruct (negb (r =? 0)); [by apply (wp_exec_failed x _ Ho2)|].
  apply wp_bind, (wp_start_timer x); [done|..].
  - intros q3 Ho3 E3. apply wp_bind, wp_modify.
    assert (Ho4 : owing x (set_exec_timeout_timer None q3)) by (by destruct Ho3; split).
    eapply wp_mono; [by apply wp_exec_failed|]. intros r' q' [E4 Hq']. split; [|done].
    by rewrite E4.
  - intros a q3 Hok E3. by apply wp_bind, wp_modify, wp_ret.
Qed.

(** ** Commands *)

Lemma wp_delete_timer x a e (q : worker) Q :
  worker_inv x (main_timer_list q) (main_process_list q) (Some a) e (answers q) ∨
  timers_inv (main_timer_list q) ∧ timers_running (main_timer_list q) !! a = Some EXEC_TIMEOUT_TIMER ∧
    (∀ b, timers_running (main_timer_list q) !! b = Some EXEC_TIMEOUT_TIMER → Some a = Some b ∨ x = Some b) →
  (∀ t h, timers_inv t → (∀ b, timers_running t !! b = Some EXEC_TIMEOUT_TIMER → x = Some b) →
     Q tt (set_exec_timeout_timer None (set_wk_heap h (set_main_timer_list t q)))) →
  wp (delete_exec_timeout_timer a) q Q.
Proof.
  intros Hq HQ.
  assert (Hq' : timers_inv (main_timer_list q) ∧
    timers_running (main_timer_list q) !! a = Some EXEC_TIMEOUT_TIMER ∧
    ∀ b, timers_running (main_timer_list q) !! b = Some EXEC_TIMEOUT_TIMER → Some a = Some b ∨ x = Some b).
  { destruct Hq as [[]|]; auto. }
  clear Hq. destruct Hq' as (Ht & Ha & Hb). unfold delete_exec_timeout_timer. apply wp_bind.
  unfold wp at 1, on_wk_timers.
  pose proof (timer_delete_law (main_timer_list q) (wk_heap q) a Ht ltac:(by eexists)) as Hlaw.
  destruct (timer_delete _ _) as [[[]|c] [t h]]; [|done]. destruct Hlaw as (_ & Ht' & Hrun).
  apply wp_modify, HQ; [done|]. intros b. rewrite Hrun, lookup_delete_Some. intros [Hne Hb'].
  destruct (Hb b Hb') as [[= ->]|?]; done.
Qed.

Lemma wp_process_exec x line (q : worker) :
  worker_ok_but x q →
  wp (qdevice_heuristics_worker_cmd_process_exec write_rounds line) q (command_done x (wk_cmd_in_buffer q)).
Proof.
  intros [Hi Hq]. unfold qdevice_heuristics_worker_cmd_process_exec.
  destruct (parse_exec line) as [[timeout s]|]; [|by apply wp_ret]. apply wp_bind, wp_get, wp_bind.
  set (Q := λ _ q1, wp _ q1 _).
  assert (HQ : ∀ u q1, wk_cmd_in_buffer q1 = wk_cmd_in_buffer q → owing x
    (note_answer (EXEC_RECEIVED s) (set_last_exec_seq_number s q1)) →
    active_list (main_process_list q1) = [] → Q u q1).
  { intros u q1 E1 Ho Ha1. unfold Q. apply wp_bind, wp_modify, wp_bind, wp_get.
    destruct (qdevice_heuristics_exec_list_is_empty _).
    - apply wp_bind, wp_write_result; intros q2 Hs Hans; apply wp_ret;
        (split; [rewrite (so_buffer _ _ Hs); exact E1|]); [done|]. intros _. by eapply worker_ok_answer.
    - rewrite <-E1. by apply (wp_start_processes x timeout _ Ho). }
  clearbody Q. pose proof Hq as [Ht Hl Ha Hp Hh Hr Hidle].
  destruct (exec_timeout_timer q) as [a|] eqn:Ee.
  - apply wp_bind, wp_move; [done|]. intros p Hp' Hact. apply (wp_delete_timer x a s).
    { right. cbn. split_and!; auto. }
    intros t h Ht' Hrun'. apply HQ; [done| |done]. split; cbn; try done; [|by rewrite pending_app].
    by apply answered_app.
  - apply wp_ret, HQ; [done| |by apply Hidle]. split; cbn; try done.
    + by apply answered_app.
    + by rewrite pending_app.
    + intros b Hb. by destruct (Hr b Hb).
Qed.

Lemma skip_word_length s : (length (skip_word s) ≤ length s)%nat.
Proof. induction s as [|b s IH]; cbn; [lia|]. destruct (is_space_char b); cbn; lia. Qed.
Lemma skip_space_chars_length s : (length (skip_space_chars s) ≤ length s)%nat.
Proof. induction s as [|b s IH]; cbn; [lia|]. destruct (is_space_char b); cbn; lia. Qed.

Lemma parse_exec_list_add_length line name command :
  parse_exec_list_add line = Some (name, command) → (length command ≤ length line)%nat.
Proof.
  unfold parse_exec_list_add. pose proof (skip_word_length line).
  destruct (skip_word line) as [|b1 s1] eqn:E1; [done|]. rewrite <-E1 in *.
  pose proof (skip_space_chars_length (skip_word line)).
  destruct (skip_space_chars (skip_word line)) as [|b2 s2] eqn:E2; [done|]. rewrite <-E2 in *.
  pose proof (skip_word_length (skip_space_chars (skip_word line))).
  destruct (skip_word (skip_space_chars (skip_word line))) as [|b3 s3] eqn:E3; [done|]. rewrite <-E3 in *.
  pose proof (skip_space_chars_length (skip_word (skip_space_chars (skip_word line)))).
  destruct (skip_space_chars (skip_word _)) as [|b4 s4] eqn:E4 in |- *; [done|]. rewrite <-E4. intros [= _ <-].
  lia.
Qed.

Lemma set_exec_list_ok x l h (q : worker) :
  worker_ok_but x q → Forall (λ e, fits (exec_command e)) l →
  worker_ok_but x (set_wk_heap h (set_wk_exec_list l q)).
Proof. intros [[Hw _] Hq] Hl. by split; [split|]. Qed.

Lemma wp_process_command x line (q : worker) :
  worker_ok_but x q → fits line →
  wp (process_command write_rounds line) q (command_done x (wk_cmd_in_buffer q)).
Proof.
  intros Hq Hfit. unfold process_command. destruct (bool_decide _).
  { apply wp_bind, wp_modify, wp_ret. split; [done|]. intros _. by apply (set_exec_list_ok x [] (wk_heap q)). }
  destruct (starts_with _ line).
  { unfold qdevice_heuristics_worker_cmd_process_exec_list_add.
    destruct (parse_exec_list_add line) as [[name command]|] eqn:Ep; [|by apply wp_ret].
    apply parse_exec_list_add_length in Ep. apply wp_bind. unfold wp at 1, on_wk_exec_list.
    assert (Hadd : match qdevice_heuristics_exec_list_add name command (wk_exec_list q, wk_heap q) with
      | (Ok ok, (l, _)) => l = wk_exec_list q ∨ l = wk_exec_list q ++ [mk_exec name command]
      | _ => False end).
    { unfold qdevice_heuristics_exec_list_add. by repeat (destruct (malloc _) as [[]]; auto). }
    destruct (qdevice_heuristics_exec_list_add _ _ _) as [[ok|c] [l h]]; [|done].
    apply wp_ret. split; [done|]. intros _. apply set_exec_list_ok; [done|].
    pose proof (proj2 (wo_inputs _ _ Hq)) as Hl. destruct Hadd as [->| ->]; [done|].
    apply Forall_app. split; [done|]. repeat constructor. unfold fits in *. cbn. lia. }
  destruct (starts_with _ line); [by apply wp_process_exec|by apply wp_ret].
Qed.

(** ** The lines of the input buffer *)

Lemma drop_line_ok nl_pos zi d h :
  wf d → (zi ≤ Z.to_nat (Dynar.size d))%nat →
  ∃ d', drop_line nl_pos zi (d, h) = (Ok tt, (d', h)) ∧ wf d' ∧
    Dynar.size d' = Dynar.size d - Z.of_nat zi.
Proof.
  intros [Hs Hd Ha Hm] Hz. unfold drop_line, dynar_set_size. cbv zeta.
  match goal with |- context [if ?b then ?x else set_data ?l d] =>
    set (d1 := if b then x else set_data l d) end.
  assert (E1 : Dynar.allocated d1 = Dynar.allocated d ∧ Dynar.size d1 = Dynar.size d ∧
    length (data d1) = length (data d) ∧ 0 ≤ maximum_size d1 < 2 ^ 62).
  { assert (El : ∀ l, length (block_write (<[nl_pos:=x00]> (data d)) 0
      (take (Z.to_nat (Dynar.size d) - zi) (drop zi l))) = length (data d)).
    { intros l. rewrite length_block_write, length_insert; [done|]. rewrite length_insert, length_take. lia. }
    unfold d1. destruct (_ <? _) eqn:E; cbn; rewrite El; split_and!; try done; try lia. }
  clearbody d1. destruct E1 as (Ea & Es & Ed & Em).
  rewrite (proj2 (Z.ltb_ge _ _)) by lia. eexists. split; [reflexivity|]. split; [|done].
  split; cbn; rewrite ?Ea, ?Ed; try done; lia.
Qed.

Lemma set_buffer_ok x d h (q : worker) :
  worker_ok_but x q → wf d → worker_ok_but x (set_wk_heap h (set_wk_cmd_in_buffer d q)).
Proof. intros [[_ Hl] Hq] Hd. by split; [split|]. Qed.

(** A line was taken, or there is none, or it is not a command. *)
Lemma wp_one_line x (q : worker) :
  worker_ok_but x q →
  wp (qdevice_heuristics_worker_cmd_process_one_line write_rounds) q (λ r q',
    r = -1 ∨ worker_ok_but x q' ∧
    (r = 0 ∨ r = 1 ∧ Dynar.size (wk_cmd_in_buffer q') < Dynar.size (wk_cmd_in_buffer q))).
Proof.
  intros Hq. unfold qdevice_heuristics_worker_cmd_process_one_line. apply wp_bind, wp_get. cbv zeta.
  set (d := wk_cmd_in_buffer q). set (str := take _ (data d)).
  assert (Hw : wf d) by apply (wo_inputs _ _ Hq).
  assert (Hlen : length str = Z.to_nat (Dynar.size d)).
  { unfold str. rewrite length_take. destruct Hw. lia. }
  destruct (Nat.leb_spec (length str) (line_length str)) as [|Hlt]; [apply wp_ret; auto|].
  apply wp_bind. eapply wp_mono.
  { apply (wp_process_command x); [exact Hq|]. unfold fits.
    pose proof (until_nul_length (take (line_length str) str)) as Hu. rewrite length_take in Hu.
    destruct Hw. lia. }
  intros r q1 [E1 Hok]. destruct (Z.eqb_spec r 0) as [->|]; cbn [negb]; [|apply wp_ret; by left].
  specialize (Hok eq_refl). unfold wp, or_cmd_error, on_wk_in_buffer. rewrite E1. fold d.
  pose proof (gap_length_le (drop (S (line_length str)) str)) as Hg. rewrite length_drop in Hg.
  set (zi := S (_ + _)). assert (Hz : (0 < zi ≤ length str)%nat) by (unfold zi; lia). clearbody zi.
  destruct (drop_line_ok (line_length str) zi d (wk_heap q1) Hw) as (d' & -> & Hw' & Hs'); [lia|].
  right. split; [by apply set_buffer_ok|]. right. split; [done|]. cbn. lia.
Qed.

Lemma wp_process_loop x fuel (q : worker) :
  worker_ok_but x q → (Z.to_nat (Dynar.size (wk_cmd_in_buffer q)) < fuel)%nat →
  wp (worker_cmd_process_loop write_rounds fuel) q (λ r q', r = -1 ∨ worker_ok_but x q').
Proof.
  revert q. induction fuel as [|fuel IH]; intros q Hq Hf; [lia|]. cbn [worker_cmd_process_loop].
  apply wp_bind. eapply wp_mono; [by apply wp_one_line|].
  intros r q1 [->|[Hq1 [->|[-> Hlt]]]]; [apply wp_ret; auto..|]. apply IH; [done|].
  destruct (wo_inputs _ _ Hq1) as [[Hs _ _ _] _]. lia.
Qed.

(** What is read is appended to the buffer, and the lines in it are taken. *)
Lemma wp_read_from_pipe x (q : worker) :
  worker_ok_but x q →
  wp (qdevice_heuristics_worker_cmd_read_from_pipe write_rounds) q (λ r q', r = 0 → worker_ok_but x q').
Proof.
  intros Hq. unfold qdevice_heuristics_worker_cmd_read_from_pipe. apply wp_bind.
  unfold wp at 1, worker_io_read, qdevice_heuristics_io_read.
  pose proof (cmd_in_read_length (wk_world q) QDEVICE_HEURISTICS_IO_BUFFER_SIZE) as Hlen.
  destruct (cmd_in_read (wk_world q) _) as [[readed buf] w]. cbn [fst snd] in Hlen.
  assert (Hrest : ∀ d r h, wf d → wp (if (r =? -1) || (r =? -2) || (r =? -3) then mret (-1)
      else if r =? 1 then qdevice_heuristics_worker_cmd_process write_rounds else mret 0)
    (set_wk_world w (set_wk_heap h (set_wk_cmd_in_buffer d q))) (λ r q', r = 0 → worker_ok_but x q')).
  { intros d r h Hd. assert (Hq' : worker_ok_but x (set_wk_world w (set_wk_heap h (set_wk_cmd_in_buffer d q)))).
    { destruct (set_buffer_ok x d h q Hq Hd) as [[? ?] ?]. by split; [split|]. }
    destruct (_ || _); [by apply wp_ret|]. destruct (r =? 1); [|by apply wp_ret].
    apply wp_bind, wp_get. eapply wp_mono; [apply wp_process_loop; [exact Hq'|lia]|].
    intros r' q' [->|?]; done. }
  pose proof (proj1 (wo_inputs _ _ Hq)) as Hw.
  destruct (0 <? readed); [|by apply Hrest].
  assert (Ha : appends (dynar_cat buf) buf) by (apply dynar_cat_appends; unfold QDEVICE_HEURISTICS_IO_BUFFER_SIZE in Hlen; lia).
  specialize (Ha _ (wk_heap q) Hw). destruct (dynar_cat buf _) as [[[]|c] [d h]]; apply Hrest; apply Ha.
Qed.

(** ** A round *)

Lemma set_world_ok x w (q : worker) : worker_ok_but x q → worker_ok_but x (set_wk_world w q).
Proof. intros [[? ?] ?]. by split; [split|]. Qed.

Lemma set_processes_ok x p (q : worker) :
  worker_ok_but x q → plist_ok p → length (active_list p) = length (active_list (main_process_list q)) →
  worker_ok_but x (set_main_process_list p q).
Proof.
  intros [[Hd Hl] [Ht Hp Ha Hpend Hh Hr Hidle]] Hp' Hlen. split; [by split|]. split; cbn; try done.
  intros He. apply nil_length_inv. by rewrite Hlen, (Hidle He).
Qed.

Lemma wp_poll_commands x (q : worker) :
  worker_ok_but x q → wp (poll_commands write_rounds) q (λ r q', r = 0 → worker_ok_but x q').
Proof.
  intros Hq. unfold poll_commands. apply wp_bind. unfold wp at 1, on_wk_world.
  destruct (poll_cmd_in_total (wk_world q)) as ([res revents] & w & ->).
  pose proof (set_world_ok x w q Hq) as Hq1. destruct (res <? 0); [by apply wp_ret|].
  apply wp_bind. eapply (wp_mono _ _ (λ r q', r = 0 → worker_ok_but x q')).
  { destruct (has revents POLLIN); [by apply wp_read_from_pipe|by apply wp_ret]. }
  intros r q2 Hq2. destruct (Z.eqb_spec r 0) as [->|]; cbn [negb]; [|by apply wp_ret].
  destruct (has revents POLLOUT); [by apply wp_ret|]. destruct (_ && _); [by apply wp_ret|].
  apply wp_ret. auto.
Qed.

Lemma wp_answer_with x a result (q : worker) :
  worker_ok_but x q → exec_timeout_timer q = Some a →
  wp (answer_with write_rounds result a) q (λ r q', r = 0 → worker_ok_but x q').
Proof.
  intros [Hi [Ht Hp Ha Hpend Hh Hr Hidle]] Ee. unfold answer_with. rewrite Ee in *.
  apply wp_bind, wp_get, wp_bind. apply wp_write_result; intros q1 Hs Hans; [by apply wp_ret|].
  pose proof (inputs_same _ _ Hs Hi) as Hi1. destruct Hs as [Et Ep Eh En _ _]. cbn [negb Z.eqb].
  apply wp_bind, wp_move; [by rewrite Ep|]. intros p Hp' Hact.
  apply wp_bind, (wp_delete_timer x a 0).
  { right. cbn. rewrite Et. split_and!; auto. }
  intros t h Ht' Hrun'. apply wp_ret. intros _. split; [done|]. split; cbn; try done; [| |auto].
  - rewrite Hans. apply answered_app; [done|]. by intros s r [= <- _].
  - rewrite Hans. by apply pending_app.
Qed.

Lemma wp_check_processes x (q : worker) :
  worker_ok_but x q → wp (check_processes write_rounds) q (λ r q', r = 0 → worker_ok_but x q').
Proof.
  intros Hq. unfold check_processes. apply wp_bind, wp_get.
  destruct (exec_timeout_timer q) as [a|] eqn:Ee; [|by apply wp_ret]. cbv zeta.
  repeat case_match; (by apply wp_answer_with) || by apply wp_ret.
Qed.

(** When the summary is known it is what is answered: a failed process is enough for FAIL, for PASS
    every process has to end with status 0. *)
Definition summary_answer (s : Z) (l : list process_list_entry) : list answer_step :=
  if existsb (λ e, bool_decide (finished e) && failed_status (exit_status e)) l
  then [RESULT_WRITTEN s QDEVICE_HEURISTICS_EXEC_RESULT_FAIL]
  else if forallb (λ e, bool_decide (finished e)) l
  then [RESULT_WRITTEN s QDEVICE_HEURISTICS_EXEC_RESULT_PASS] else [].

Lemma wp_answer_with_written a result (q : worker) :
  worker_ok q → exec_timeout_timer q = Some a →
  wp (answer_with write_rounds result a) q (λ r q', r = 0 →
    answers q' = answers q ++ [RESULT_WRITTEN (last_exec_seq_number q) result]).
Proof.
  intros [_ [Ht Hp _ _ Hh Hr _]] Ee. unfold answer_with. rewrite Ee in Hr.
  apply wp_bind, wp_get, wp_bind, wp_write_result; intros q1 Hs Hans; [by apply wp_ret|].
  destruct Hs as [Et Ep _ _ _ _]. cbn [negb Z.eqb].
  apply wp_bind, wp_move; [by rewrite Ep|]. intros p _ _. apply wp_bind, (wp_delete_timer None a 0).
  - right. cbn. rewrite Et. split_and!; auto.
  - intros t h _ _. by apply wp_ret.
Qed.

Lemma wp_check_answers a (q : worker) :
  worker_ok q → exec_timeout_timer q = Some a →
  wp (check_processes write_rounds) q (λ r q', r = 0 →
    answers q' = answers q ++ summary_answer (last_exec_seq_number q) (active_list (main_process_list q))).
Proof.
  intros Hq Ee. unfold check_processes. apply wp_bind, wp_get. rewrite Ee. cbv zeta.
  unfold process_list_get_summary_result_short, summary_answer. rewrite summary_short_loop_spec.
  destruct (existsb _ _); [by apply wp_answer_with_written|].
  destruct (forallb _ _); [by apply wp_answer_with_written|]. apply wp_ret. by rewrite app_nil_r.
Qed.

(** After a result could not be written the worker ends at the end of the round. *)
Definition due_ok (x : option nat) (q : worker) : Prop :=
  worker_ok_but x q ∨ schedule_exit q = true ∧ owing x q.

Lemma due_ok_timers x q : due_ok x q → timers_inv (main_timer_list q) ∧ plist_ok (main_process_list q).
Proof. by intros [[_ []]|[_ []]]. Qed.

Lemma due_ok_processes x p w q :
  due_ok x q → plist_ok p → length (active_list p) = length (active_list (main_process_list q)) →
  due_ok x (set_wk_world w (set_main_process_list p q)).
Proof.
  intros [Hq|[Hs Ho]] Hp Hlen; [left|right; split; [done|by apply set_world_owing]].
  by apply set_world_ok, set_processes_ok.
Qed.

Lemma due_ok_exit x q : due_ok x q → due_ok x (set_schedule_exit true q).
Proof. intros [[]|[? []]]; [left; by split|right; split; [done|by split]]. Qed.

(** What expiring timers does to the handle of the timer that forces an answer. *)
Definition handle_only_dropped (q q' : worker) : Prop :=
  exec_timeout_timer q' = exec_timeout_timer q ∨ exec_timeout_timer q' = None.

Lemma wp_delete_due x p (q : worker) :
  due_ok x q → (x = None ∨ x = Some p) → exec_timeout_timer q ≠ Some p →
  is_Some (timers_running (main_timer_list q) !! p) →
  wp (on_wk_timers (timer_delete p)) q (λ _ q', due_ok None q' ∧ exec_timeout_timer q' = exec_timeout_timer q).
Proof.
  intros Hq Hx Hne Hp. unfold wp, on_wk_timers.
  pose proof (timer_delete_law (main_timer_list q) (wk_heap q) p (proj1 (due_ok_timers _ _ Hq)) Hp) as Hlaw.
  destruct (timer_delete p _) as [[[]|c] [t h]]; [|done]. destruct Hlaw as (_ & Ht & Hrun). split; [|done].
  assert (Hxb : ∀ b, p ≠ b → x ≠ Some b) by (intros b ?; destruct Hx; congruence).
  destruct Hq as [[Hi []]|[Hs []]]; [left; split; [done|]|right; split; [done|]]; split; cbn; try done.
  - intros a Ha. rewrite Hrun, lookup_delete_ne by congruence. auto.
  - intros b. rewrite Hrun, lookup_delete_Some. intros [Hpb Hb]. left.
    destruct (wi_running0 b Hb) as [?|?]; [done|]. by destruct (Hxb b Hpb).
  - intros b. rewrite Hrun, lookup_delete_Some. intros [Hpb Hb]. by destruct (Hxb b Hpb (ow_running0 b Hb)).
Qed.

Lemma wp_reschedule_due p (q : worker) :
  due_ok None q → is_Some (timers_running (main_timer_list q) !! p) →
  wp (on_wk_timers (timer_reschedule p)) q (λ _ q', due_ok None q' ∧ exec_timeout_timer q' = exec_timeout_timer q).
Proof.
  intros Hq Hp. unfold wp, on_wk_timers.
  pose proof (timer_reschedule_law (main_timer_list q) (wk_heap q) p (proj1 (due_ok_timers _ _ Hq)) Hp) as Hlaw.
  destruct (timer_reschedule p _) as [[[]|c] [t h]]; [|done]. destruct Hlaw as (Ht & Hrun). split; [|done].
  destruct Hq as [[Hi []]|[Hs []]]; [left; split; [done|]|right; split; [done|]]; split; cbn;
    try done; by rewrite Hrun.
Qed.

(** The timer that forces an answer. *)
Lemma wp_exec_timeout p (q : worker) :
  due_ok None q → timers_running (main_timer_list q) !! p = Some EXEC_TIMEOUT_TIMER →
  wp (qdevice_heuristics_worker_exec_timeout_timer_callback write_rounds) q (λ r q',
    r = 0 ∧ due_ok (Some p) q' ∧ main_timer_list q' = main_timer_list q ∧ exec_timeout_timer q' = None).
Proof.
  intros [[Hi [Ht Hl Ha Hpend Hh Hr Hidle]]|[_ Ho]] Hp; [|by pose proof (ow_running _ _ Ho p Hp)].
  destruct (Hr p Hp) as [He|]; [|done]. rewrite He in Hpend.
  assert (Hrun : ∀ b, timers_running (main_timer_list q) !! b = Some EXEC_TIMEOUT_TIMER → Some p = Some b).
  { intros b Hb. destruct (Hr b Hb) as [<-|]; done. }
  unfold qdevice_heuristics_worker_exec_timeout_timer_callback. apply wp_bind, wp_move; [done|].
  intros l Hl' Hact. apply wp_bind, wp_modify, wp_bind, wp_get, wp_bind. set (q1 := set_exec_timeout_timer _ _).
  assert (Ho : owing (Some p) q1) by by split.
  apply wp_write_result; intros q2 Hs Hans; pose proof Hs as [Et Ep Eh En _ _]; cbn [negb Z.eqb].
  - apply wp_bind, wp_modify, wp_ret. split_and!; [done| |exact Et|exact Eh].
    right. split; [done|]. pose proof (inputs_same _ _ Hs (ow_inputs _ _ Ho)).
    destruct Ho. split; cbn; rewrite ?Et, ?Ep, ?En, ?Eh, ?Hans; done.
  - apply wp_ret. split_and!; [done| |exact Et|exact Eh]. left. by eapply worker_ok_answer.
Qed.

Lemma wp_kill_list_timer (q : worker) :
  due_ok None q →
  wp qdevice_heuristics_worker_kill_list_timer_callback q (λ r q',
    due_ok None q' ∧ main_timer_list q' = main_timer_list q ∧ exec_timeout_timer q' = exec_timeout_timer q).
Proof.
  intros Hq. unfold qdevice_heuristics_worker_kill_list_timer_callback.
  eapply wp_processes; [apply process_kill_list_ok|by eapply due_ok_timers|]. intros r l w Hl Hlen _.
  pose proof (due_ok_processes None l w q Hq Hl Hlen) as Hq1.
  destruct (negb _); [apply wp_bind, wp_modify|]; apply wp_ret; [|done]. split; [|done]. by apply due_ok_exit.
Qed.

Lemma wp_timer_expired p (q : worker) :
  due_ok None q →
  wp (worker_timer_expired write_rounds p) q (λ _ q',
    due_ok None q' ∧ handle_only_dropped q q' ∧ exec_timeout_timer q' ≠ Some p).
Proof.
  intros Hq. unfold worker_timer_expired. apply wp_bind, wp_get.
  destruct (timers_running (main_timer_list q) !! p) as [f|] eqn:Ef.
  2: { apply wp_ret. split_and!; [done|by left|]. intros He.
    destruct Hq as [[_ []]|[_ []]]; [|congruence]. specialize (wi_handle0 p He). congruence. }
  destruct f; cbn [worker_call_timer].
  - assert (Hne : exec_timeout_timer q ≠ Some p).
    { intros He. destruct Hq as [[_ []]|[_ []]]; [|congruence]. specialize (wi_handle0 p He). congruence. }
    apply wp_bind. eapply wp_mono; [by apply wp_kill_list_timer|]. intros r q1 (Hq1 & Et & Eh).
    apply wp_bind, wp_get. rewrite Et, Ef. rewrite <-Eh in Hne. rewrite <-Et in Ef.
    eapply (wp_mono _ _ (λ _ q', due_ok None q' ∧ exec_timeout_timer q' = exec_timeout_timer q1)).
    { destruct (r =? 0).
      - apply (wp_delete_due None); [done|by left|done|by eexists].
      - apply wp_reschedule_due; [done|by eexists]. }
    intros _ q2 [Hq2 Eh2]. split_and!; [done|left; by rewrite Eh2|by rewrite Eh2].
  - apply wp_bind. eapply wp_mono; [by apply (wp_exec_timeout p)|]. intros r q1 (-> & Hq1 & Et & Eh).
    apply wp_bind, wp_get. rewrite Et, Ef. rewrite <-Et in Ef. cbn [Z.eqb].
    eapply wp_mono; [apply (wp_delete_due (Some p)); [done|by right|by rewrite Eh|by eexists]|].
    intros _ q2 [Hq2 Eh2]. rewrite Eh in Eh2. split_and!; [done|by right|by rewrite Eh2].
Qed.

Lemma wp_expire_due due (q : worker) :
  due_ok None q →
  wp (expire_due write_rounds due) q (λ _ q',
    due_ok None q' ∧ handle_only_dropped q q' ∧ ∀ p, p ∈ due → exec_timeout_timer q' ≠ Some p).
Proof.
  revert q. induction due as [|p due IH]; intros q Hq; cbn [expire_due].
  { apply wp_ret. split_and!; [done|by left|]. intros p Hp. by apply elem_of_nil in Hp. }
  apply wp_bind. eapply wp_mono; [by apply wp_timer_expired|]. intros _ q1 (Hq1 & Hh1 & Hp1).
  eapply wp_mono; [by apply IH|]. intros _ q2 (Hq2 & Hh2 & Hp2). split_and!; [done| |].
  - unfold handle_only_dropped in *. destruct Hh2 as [-> | ->]; [done|by right].
  - intros b [->|Hb]%elem_of_cons; [|by apply Hp2]. destruct Hh2 as [-> | ->]; done.
Qed.

(** A round that goes on keeps the worker in order, and no command waits longer than its timer. *)
Lemma wp_poll due (q : worker) :
  worker_ok q →
  wp (qdevice_heuristics_worker_poll write_rounds due) q (λ r q', (r = 0 ∨ r = -1) ∧
    (r = 0 → worker_ok q' ∧ ∀ p, p ∈ due → exec_timeout_timer q' ≠ Some p)).
Proof.
  intros Hq. unfold qdevice_heuristics_worker_poll. set (Q := λ _ _, _ ∧ _).
  assert (Hend : ∀ q', wp (mret (-1)) q' Q) by (intros q'; apply wp_ret; split; [by right|done]).
  apply wp_bind. eapply wp_mono; [by apply wp_poll_commands|]. intros r q1 Hq1.
  destruct (Z.eqb_spec r 0) as [->|]; cbn [negb]; [|by apply Hend]. specialize (Hq1 eq_refl).
  eapply wp_processes; [apply process_list_waitpid_ok|apply (wo_inv _ _ Hq1)|]. intros r2 l w Hl Hlen _.
  pose proof (set_world_ok None w _ (set_processes_ok None l q1 Hq1 Hl Hlen)) as Hq2.
  destruct (Z.eqb_spec r2 0) as [->|]; cbn [negb]; [|by apply Hend].
  apply wp_bind. eapply wp_mono; [by apply wp_check_processes|]. intros r3 q3 Hq3.
  destruct (Z.eqb_spec r3 0) as [->|]; cbn [negb]; [|by apply Hend]. specialize (Hq3 eq_refl).
  apply wp_bind. eapply wp_mono; [apply wp_expire_due; by left|]. intros _ q4 (Hq4 & _ & Hdue).
  apply wp_bind, wp_get, wp_ret. destruct (schedule_exit q4) eqn:Es; [by apply Hend|].
  split; [by left|]. intros _. split; [|done]. by destruct Hq4 as [?|[? _]]; [|congruence].
Qed.

(** ** Reachable states *)

Inductive worker_reachable : worker → Prop :=
| worker_started max_size max_processes interval execvp t h w q :
    0 ≤ max_size < 2 ^ 62 → 0 ≤ max_processes → timers_inv t → timers_running t = ∅ →
    worker_init max_size max_processes interval execvp t h w = (Ok true, q) →
    worker_reachable q
| worker_polled due q q' :
    worker_reachable q → qdevice_heuristics_worker_poll write_rounds due q = (Ok 0, q') →
    worker_reachable q'.

Lemma worker_init_ok max_size max_processes interval execvp t h w b q :
  0 ≤ max_size < 2 ^ 62 → 0 ≤ max_processes → timers_inv t → timers_running t = ∅ →
  worker_init max_size max_processes interval execvp t h w = (Ok b, q) → worker_ok q.
Proof.
  intros Hs Hp Ht Hrun. unfold worker_init. set (q0 := mk_worker _ _ _ _ _ _ _ _ _ _ _ _).
  unfold on_wk_timers, mbind, M_bind, modify, mret, M_ret. cbn [main_timer_list q0 wk_heap].
  pose proof (timer_add_law t h interval KILL_LIST_TIMER Ht) as Hlaw.
  destruct (timer_add interval KILL_LIST_TIMER (t, h)) as [[[p|]|c] [t' h']]; [| |done]; intros [= _ <-].
  all: split; [split; [by apply wf_init|done]|]; split; cbn; try done; try apply Hlaw; try by apply plist_ok_init.
  - intros l1 s r l2 E. by destruct l1.
  - intros a. rewrite (proj2 (proj2 Hlaw)), Hrun. destruct (decide (p = a)) as [->|]; by simplify_map_eq.
  - intros l1 s r l2 E. by destruct l1.
  - intros a. by rewrite (proj1 (proj2 Hlaw)), Hrun.
Qed.

Lemma worker_reachable_ok q : worker_reachable q → worker_ok q.
Proof.
  induction 1 as [|due q q' _ IH E]; [by eapply worker_init_ok|].
  pose proof (wp_poll due q IH) as Hw. unfold wp in Hw. rewrite E in Hw. by apply Hw.
Qed.

End facts.

(** ** Example *)

(** The device sends the lines in [ww_in], every process runs for ever. *)
Record sim_worker_world := mk_sim_worker_world { ww_in : list (list byte); ww_out : list byte }.

#[local] Instance sim_processes : ProcessSystem sim_worker_world := {|
  fork_exec _ _ w := (Ok 100, w);
  waitpid _ w := (Ok (0, 0), w);
  kill _ _ w := (Ok 0, w);
  notify _ _ w := (Ok tt, w);
  sleep _ w := (Ok tt, w)
|}.
#[local] Instance sim_processes_total : ProcessSystemTotal sim_worker_world.
Proof. split; intros; cbn; eauto. Qed.

#[local] Instance sim_worker_pipes : WorkerWorld sim_worker_world := {|
  cmd_in_read w n :=
    match ww_in w with
    | [] => (-1, [], w)
    | l :: ls => let l := take (Z.to_nat n) l in (Z.of_nat (length l), l, mk_sim_worker_world ls (ww_out w))
    end;
  cmd_in_transient_error _ := true;
  cmd_out_write w bytes := (Z.of_nat (length bytes), mk_sim_worker_world (ww_in w) (ww_out w ++ bytes));
  cmd_out_transient_error _ := true;
  poll_cmd_in w := (Ok (match ww_in w with [] => (0, 0) | _ => (1, POLLIN) end), w)
|}.
#[local] Instance sim_worker_total : WorkerWorldTotal sim_worker_world.
Proof.
  split; intros; cbn; [by eauto|]. destruct (ww_in w); cbn; [lia|]. rewrite length_take. lia.
Qed.

#[local] Instance sim_worker_timers : TimerOps worker_timer (@timer_list worker_timer) :=
  timer_list_ops (λ i, i).
#[local] Instance sim_worker_laws : TimerLaws worker_timer (@timer_list worker_timer) :=
  timer_list_laws (λ i, i) TIMER_LIST_MAX_INTERVAL (2 ^ 30) ltac:(by vm_compute) ltac:(by vm_compute)
    ltac:(by vm_compute) ltac:(intros; lia).

Abbreviation sim_worker := (@worker (@timer_list worker_timer) sim_worker_world).

Definition worker_lines : list (list byte) :=
  [str "exec-list-clear" ++ [x0a] ++ str "exec-list-add ping /bin/ping -c 1 host" ++ [x0a] ++ str "exec 50";
   str "0 7" ++ [x0a]].

Definition worker_at_start : sim_worker :=
  snd (worker_init 1000 4 5000 false (timer_list_init 0) [] (mk_sim_worker_world worker_lines [])).
Definition worker_after (rounds : list (list nat)) : sim_worker :=
  foldl (λ q due, snd (qdevice_heuristics_worker_poll 34 due q)) worker_at_start rounds.

Lemma worker_after_waiting : exec_timeout_timer (worker_after [[]; []]) = Some 1%nat.
Proof. vm_compute. reflexivity. Qed.

Lemma worker_after_reachable : worker_reachable 34 (worker_after [[]; []; [1%nat]]).
Proof.
  assert (Hstep : ∀ rounds due, worker_reachable 34 (worker_after rounds) →
    fst (qdevice_heuristics_worker_poll 34 due (worker_after rounds)) = Ok 0 →
    worker_reachable 34 (worker_after (rounds ++ [due]))).
  { intros rounds due Hr E. apply (worker_polled 34 due _ _ Hr). unfold worker_after. rewrite foldl_app.
    cbn [foldl]. fold (worker_after rounds). by rewrite <-E, <-surjective_pairing. }
  apply (Hstep [[]; []]); [|vm_compute; reflexivity]. apply (Hstep [[]]); [|vm_compute; reflexivity].
  apply (Hstep []); [|vm_compute; reflexivity].
  apply (worker_started 34 1000 4 5000 false (timer_list_init 0) [] (mk_sim_worker_world worker_lines []));
    [lia|lia|exists (λ _, 0); apply timers_ok_init|reflexivity|vm_compute; reflexivity].
Qed.

(** The pipe takes all that is written at once. *)
Lemma sim_pipe_flows : pipe_flows (W:=sim_worker_world) 34.
Proof. exists 1%nat. split; [lia|]. split; intros w bytes; cbn; [right; lia|]. destruct bytes; [done|cbn; by left]. Qed.

