(* ===== verification/UnixSocket.v ===== *)
(** Local sockets (unix-socket.c, unix-socket-client.c, unix-socket-client-list.c,
    unix-socket-ipc.c): a listening socket and the clients connected to it.

    The calls of the system are parameters ([UnixSystem]).  A client is referred to by its pointer;
    a pointer no client of the list has was freed. *)
From stdpp Require Import strings.
From S2P Require Import Prelude Dynar DynarStr PrPollLoop.
From stdpp Require Import list.
Local Open Scope Z_scope.

(** [recv] and [send] come with the bytes; a negative result of theirs with whether the error is
    one to try again after. *)
Class UnixSystem (W : Type) := {
  us_socket : W → Z * W;
  us_unlink : c_string → W → Z * W;
  us_umask : Z → W → Z * W;
  us_bind : Z → c_string → W → Z * W;
  us_chown : c_string → Z → W → Z * W;
  us_fcntl_getfl : Z → W → Z * W;
  us_fcntl_setfl : Z → Z → W → Z * W;
  us_listen : Z → Z → W → Z * W;
  us_connect : Z → c_string → W → Z * W;
  us_accept : Z → W → Z * W;
  us_close : Z → W → Z * W;
  us_recv : Z → Z → W → (Z * list byte) * W;
  us_send : Z → list byte → W → Z * W;
  us_transient_error : W → bool
}.

(** The length of a path with its zero: the size of [sun_path]. *)
Definition SUN_PATH_SIZE : Z := 108.
Definition O_NONBLOCK : Z := 2048.
Definition UNIX_SOCKET_CLIENT_BUFFER : Z := 256.

Definition sys {W A} (f : W → A * W) : M W A := λ w, let '(r, w') := f w in (Ok r, w').

Section unix_socket.
Context {W : Type} `{UnixSystem W}.

Definition utils_fd_set_non_blocking (fd : Z) : M W Z :=
  flags ← sys (us_fcntl_getfl fd);
  if flags <? 0 then mret (-1)
  else
    r ← sys (us_fcntl_setfl fd (Z.lor flags O_NONBLOCK));
    mret (if r <? 0 then -1 else 0).

Definition close_and_fail (s : Z) : M W Z := sys (us_close s);; mret (-1).

Definition set_non_blocking_if (non_blocking : bool) (s : Z) : M W Z :=
  if non_blocking then utils_fd_set_non_blocking s else mret 0.

Definition bad_path (path : c_string) : bool :=
  (SUN_PATH_SIZE <=? Z.of_nat (length path)) || bool_decide (path = []).

Definition unix_socket_server_create (path : c_string) (set_socket_umask : bool)
    (socket_umask socket_gid : Z) (non_blocking : bool) (backlog : Z) : M W Z :=
  if bad_path path then mret (-1)
  else
    s ← sys us_socket;
    if s <? 0 then mret (-1)
    else
      sys (us_unlink path);;
      old_umask ← (if set_socket_umask then sys (us_umask socket_umask) else mret 0);
      bind_res ← sys (us_bind s path);
      (if set_socket_umask then sys (us_umask old_umask);; mret tt else mret tt);;
      chown_res ← (if negb (socket_gid =? u32 (-1)) then sys (us_chown path socket_gid) else mret 0);
      if negb (chown_res =? 0) then close_and_fail s
      else if negb (bind_res =? 0) then close_and_fail s
      else
        r ← set_non_blocking_if non_blocking s;
        if negb (r =? 0) then close_and_fail s
        else
          r ← sys (us_listen s backlog);
          if negb (r =? 0) then close_and_fail s else mret s.

Definition unix_socket_client_create (path : c_string) (non_blocking : bool) : M W Z :=
  if bad_path path then mret (-1)
  else
    s ← sys us_socket;
    if s <? 0 then mret (-1)
    else
      r ← set_non_blocking_if non_blocking s;
      if negb (r =? 0) then close_and_fail s
      else
        r ← sys (us_connect s path);
        if negb (r =? 0) then close_and_fail s else mret s.

Definition unix_socket_server_destroy (sock : Z) (path : c_string) : M W Z :=
  r1 ← sys (us_close sock);
  r2 ← sys (us_unlink path);
  mret (if (r1 =? 0) && (r2 =? 0) then 0 else -1).

Definition unix_socket_server_accept (sock : Z) (non_blocking : bool) : M W Z :=
  client_sock ← sys (us_accept sock);
  if client_sock <? 0 then mret (-1)
  else
    r ← set_non_blocking_if non_blocking client_sock;
    if negb (r =? 0) then close_and_fail client_sock else mret client_sock.

Definition unix_socket_close (sock : Z) : M W Z := sys (us_close sock).
Definition unix_socket_read (sock len : Z) : M W (Z * list byte) := sys (us_recv sock len).
Definition unix_socket_write (sock : Z) (buf : list byte) : M W Z := sys (us_send sock buf).

(** ** Clients *)

Context {U : Type}.

Record unix_socket_client := mk_uclient {
  uc_socket : Z;
  uc_receive_buffer : dynar;
  uc_send_buffer : dynar;
  uc_already_received_bytes : Z;
  uc_already_sent_bytes : Z;
  reading_line : bool;
  writing_buffer : bool;
  uc_schedule_disconnect : bool;
  user_data : option U
}.

Definition set_uc_receive_buffer v (c : unix_socket_client) : unix_socket_client :=
  mk_uclient (uc_socket c) v (uc_send_buffer c) (uc_already_received_bytes c) (uc_already_sent_bytes c)
    (reading_line c) (writing_buffer c) (uc_schedule_disconnect c) (user_data c).
Definition set_uc_send_buffer v (c : unix_socket_client) : unix_socket_client :=
  mk_uclient (uc_socket c) (uc_receive_buffer c) v (uc_already_received_bytes c) (uc_already_sent_bytes c)
    (reading_line c) (writing_buffer c) (uc_schedule_disconnect c) (user_data c).
Definition set_uc_already_received_bytes v (c : unix_socket_client) : unix_socket_client :=
  mk_uclient (uc_socket c) (uc_receive_buffer c) (uc_send_buffer c) v (uc_already_sent_bytes c)
    (reading_line c) (writing_buffer c) (uc_schedule_disconnect c) (user_data c).
Definition set_uc_already_sent_bytes v (c : unix_socket_client) : unix_socket_client :=
  mk_uclient (uc_socket c) (uc_receive_buffer c) (uc_send_buffer c) (uc_already_received_bytes c) v
    (reading_line c) (writing_buffer c) (uc_schedule_disconnect c) (user_data c).
Definition unix_socket_client_read_line (enabled : bool) (c : unix_socket_client) : unix_socket_client :=
  mk_uclient (uc_socket c) (uc_receive_buffer c) (uc_send_buffer c) (uc_already_received_bytes c)
    (uc_already_sent_bytes c) enabled (writing_buffer c) (uc_schedule_disconnect c) (user_data c).
Definition unix_socket_client_write_buffer (enabled : bool) (c : unix_socket_client) : unix_socket_client :=
  mk_uclient (uc_socket c) (uc_receive_buffer c) (uc_send_buffer c) (uc_already_received_bytes c)
    (uc_already_sent_bytes c) (reading_line c) enabled (uc_schedule_disconnect c) (user_data c).
Definition set_uc_schedule_disconnect v (c : unix_socket_client) : unix_socket_client :=
  mk_uclient (uc_socket c) (uc_receive_buffer c) (uc_send_buffer c) (uc_already_received_bytes c)
    (uc_already_sent_bytes c) (reading_line c) (writing_buffer c) v (user_data c).
Definition set_user_data v (c : unix_socket_client) : unix_socket_client :=
  mk_uclient (uc_socket c) (uc_receive_buffer c) (uc_send_buffer c) (uc_already_received_bytes c)
    (uc_already_sent_bytes c) (reading_line c) (writing_buffer c) (uc_schedule_disconnect c) v.

Definition unix_socket_client_init (sock max_receive_size max_send_size : Z) (user_data : option U) :
    unix_socket_client :=
  mk_uclient sock (dynar_init max_receive_size) (dynar_init max_send_size) 0 0 false false false user_data.

Definition unix_socket_client_destroy (c : unix_socket_client) : unix_socket_client :=
  set_uc_receive_buffer (dynar_destroy (uc_receive_buffer c))
    (set_uc_send_buffer (dynar_destroy (uc_send_buffer c)) c).

(** 1: a line was read, 0: not yet, -1: end of the connection, -2: too long, -3: another error. *)
Definition unix_socket_client_io_read : M (unix_socket_client * heap * W) Z := λ '(c, h, w),
  match unix_socket_read (uc_socket c) UNIX_SOCKET_CLIENT_BUFFER w with
  | (Err e, w) => (Err e, (c, h, w))
  | (Ok (readed, buf), w) =>
      if 0 <? readed then
        let c := set_uc_already_received_bytes (uc_already_received_bytes c + readed) c in
        match dynar_cat buf (uc_receive_buffer c, h) with
        | (Err _, (d, h)) => (Ok (-2), (set_uc_receive_buffer d c, h, w))
        | (Ok _, (d, h)) =>
            (Ok (if existsb (λ b, bool_decide (b = x0a)) buf then 1 else 0),
             (set_uc_receive_buffer d c, h, w))
        end
      else (Ok (if readed =? 0 then -1 else if us_transient_error w then 0 else -3), (c, h, w))
  end.

(** 1: all was sent, 0: a part, -1: end of the connection, -2: another error. *)
Definition unix_socket_client_io_write : M (unix_socket_client * heap * W) Z := λ '(c, h, w),
  let to_send := u64 (Dynar.size (uc_send_buffer c) - uc_already_sent_bytes c) in
  let to_send := Z.min to_send UNIX_SOCKET_CLIENT_BUFFER in
  match unix_socket_write (uc_socket c)
          (take (Z.to_nat to_send) (drop (Z.to_nat (uc_already_sent_bytes c)) (data (uc_send_buffer c)))) w with
  | (Err e, w) => (Err e, (c, h, w))
  | (Ok sent, w) =>
      if 0 <? sent then
        let c := set_uc_already_sent_bytes (uc_already_sent_bytes c + sent) c in
        (Ok (if uc_already_sent_bytes c =? Dynar.size (uc_send_buffer c) then 1 else 0), (c, h, w))
      else (Ok (if sent =? 0 then -1 else if us_transient_error w then 0 else -2), (c, h, w))
  end.

(** ** The list of clients *)

Abbreviation client_list := (list (nat * unix_socket_client)).

Definition unix_socket_client_list_init : client_list := [].
Definition unix_socket_client_list_free (l : client_list) : client_list := [].

Fixpoint find_client (p : nat) (l : client_list) : option unix_socket_client :=
  match l with (p', c) :: l' => if bool_decide (p' = p) then Some c else find_client p l' | [] => None end.
Definition update_client_at (p : nat) (c : unix_socket_client) (l : client_list) : client_list :=
  (λ pc, if bool_decide (fst pc = p) then (p, c) else pc) <$> l.
Definition remove_client (p : nat) (l : client_list) : client_list := filter (λ pc, fst pc ≠ p) l.

Definition unix_socket_client_list_no_clients (l : client_list) : Z := foldl (λ res _, res + 1) 0 l.

(** ** The listening socket and its clients *)

Record unix_socket_ipc := mk_ipc {
  ipc_socket : Z;
  ipc_backlog : Z;
  socket_file_name : option c_string;
  ipc_clients : client_list;
  ipc_max_clients : Z;
  ipc_max_receive_size : Z;
  ipc_max_send_size : Z;
  next_client : nat
}.

Definition set_ipc_socket v (i : unix_socket_ipc) : unix_socket_ipc :=
  mk_ipc v (ipc_backlog i) (socket_file_name i) (ipc_clients i) (ipc_max_clients i)
    (ipc_max_receive_size i) (ipc_max_send_size i) (next_client i).
Definition set_socket_file_name v (i : unix_socket_ipc) : unix_socket_ipc :=
  mk_ipc (ipc_socket i) (ipc_backlog i) v (ipc_clients i) (ipc_max_clients i)
    (ipc_max_receive_size i) (ipc_max_send_size i) (next_client i).
Definition set_ipc_clients v (i : unix_socket_ipc) : unix_socket_ipc :=
  mk_ipc (ipc_socket i) (ipc_backlog i) (socket_file_name i) v (ipc_max_clients i)
    (ipc_max_receive_size i) (ipc_max_send_size i) (next_client i).
Definition set_next_client v (i : unix_socket_ipc) : unix_socket_ipc :=
  mk_ipc (ipc_socket i) (ipc_backlog i) (socket_file_name i) (ipc_clients i) (ipc_max_clients i)
    (ipc_max_receive_size i) (ipc_max_send_size i) v.

Abbreviation ipc_state := (unix_socket_ipc * heap * W)%type.

Definition in_system {A} (m : M W A) : M ipc_state A := λ '(i, h, w),
  let '(r, w') := m w in (r, (i, h, w')).
Definition modify_ipc (f : unix_socket_ipc → unix_socket_ipc) : M ipc_state unit := λ '(i, h, w),
  (Ok tt, (f i, h, w)).
Definition get_ipc : M ipc_state unix_socket_ipc := λ '(i, h, w), (Ok i, (i, h, w)).

(** [*client]. *)
Definition client_at (p : nat) : M ipc_state unix_socket_client :=
  i ← get_ipc;
  match find_client p (ipc_clients i) with Some c => mret c | None => fail USE_AFTER_FREE end.
Definition on_client {A} (p : nat) (m : M (unix_socket_client * heap * W) A) : M ipc_state A := λ '(i, h, w),
  match find_client p (ipc_clients i) with
  | None => (Err USE_AFTER_FREE, (i, h, w))
  | Some c =>
      let '(r, (c, h, w)) := m (c, h, w) in
      (r, (set_ipc_clients (update_client_at p c (ipc_clients i)) i, h, w))
  end.
Definition modify_client (p : nat) (f : unix_socket_client → unix_socket_client) : M ipc_state unit :=
  on_client p (modify (λ '(c, h, w), (f c, h, w))).

Definition unix_socket_client_list_add (sock max_receive_size max_send_size : Z) (user_data : option U) :
    M ipc_state (option nat) := λ '(i, h, w),
  match malloc h with
  | (None, h) => (Ok None, (i, h, w))
  | (Some _, h) =>
      let p := next_client i in
      let c := unix_socket_client_init sock max_receive_size max_send_size user_data in
      (Ok (Some p), (set_next_client (S p) (set_ipc_clients (ipc_clients i ++ [(p, c)]) i), h, w))
  end.

Definition unix_socket_client_list_del (p : nat) : M ipc_state unit :=
  _ ← client_at p; modify_ipc (λ i, set_ipc_clients (remove_client p (ipc_clients i)) i).

(** Everything that was in the record before is lost. *)
Definition unix_socket_ipc_init (file_name : c_string) (set_socket_umask : bool)
    (socket_umask socket_gid backlog max_clients max_receive_size max_send_size : Z) : M ipc_state Z :=
  modify_ipc (λ i, mk_ipc 0 0 None [] 0 0 0 (next_client i));;
  ok ← (λ '(i, h, w), match malloc h with (r, h) => (Ok (bool_decide (r ≠ None)), (i, h, w)) end);
  if negb ok then mret (-1)
  else
    modify_ipc (λ i, mk_ipc 0 backlog (Some file_name) unix_socket_client_list_init 0 0 0 (next_client i));;
    s ← in_system (unix_socket_server_create file_name set_socket_umask socket_umask socket_gid true backlog);
    modify_ipc (set_ipc_socket s);;
    if s <? 0 then mret (-1)
    else
      modify_ipc (λ i, mk_ipc s backlog (Some file_name) (ipc_clients i) max_clients max_receive_size
        max_send_size (next_client i));;
      mret 0.

(** [unlink] of NULL fails. *)
Definition unix_socket_ipc_close : M ipc_state Z :=
  i ← get_ipc;
  if ipc_socket i <? 0 then mret 0
  else
    r ← match socket_file_name i with
        | Some path => in_system (unix_socket_server_destroy (ipc_socket i) path)
        | None => in_system (unix_socket_close (ipc_socket i));; mret (-1)
        end;
    modify_ipc (λ i, set_ipc_socket (-1) (set_socket_file_name None i));;
    mret (if negb (r =? 0) then -1 else 0).

Definition unix_socket_ipc_is_closed (i : unix_socket_ipc) : bool := ipc_socket i <? 0.

Definition unix_socket_ipc_destroy : M ipc_state Z :=
  r ← unix_socket_ipc_close;
  if negb (r =? 0) then mret (-1)
  else
    modify_ipc (λ i, set_ipc_clients (unix_socket_client_list_free (ipc_clients i)) i);;
    mret 0.

(** The result and the client; -1: no connection, -2: too many clients, -3: no memory. *)
Definition unix_socket_ipc_accept : M ipc_state (Z * option nat) :=
  i ← get_ipc;
  client_sock ← in_system (unix_socket_server_accept (ipc_socket i) true);
  if client_sock <? 0 then mret (-1, None)
  else if negb (ipc_max_clients i =? 0) &&
          (ipc_max_clients i <=? unix_socket_client_list_no_clients (ipc_clients i)) then
    in_system (unix_socket_close client_sock);; mret (-2, None)
  else
    client ← unix_socket_client_list_add client_sock (ipc_max_receive_size i) (ipc_max_send_size i) None;
    match client with
    | None => in_system (unix_socket_close client_sock);; mret (-3, None)
    | Some p => mret (0, Some p)
    end.

Definition unix_socket_ipc_client_disconnect (p : nat) : M ipc_state unit :=
  c ← client_at p;
  in_system (unix_socket_close (uc_socket c));;
  unix_socket_client_list_del p.
End unix_socket.
Arguments unix_socket_client U : clear implicits.
Arguments unix_socket_ipc U : clear implicits.
