(* ===== verification/LocalIpc.v ===== *)
(** The local sockets of the daemons on the poll loop (qnetd-ipc.c, qdevice-ipc.c): what the two
    files have in common.

    The callbacks of the loop are the constructors of [ipc_callback]; their first user data is the
    daemon, the second the pointer to the client.  What a line of a client does is a parameter
    ([parse_line]): each daemon has its own commands. *)
From stdpp Require Import strings.
From S2P Require Import Prelude Dynar DynarStr Lex Tlv Heuristics PrPollArray PrPollLoop UnixSocket.
From stdpp Require Import list gmap.
From S2P Require Import TimerList.
Local Open Scope Z_scope.

Inductive ipc_callback :=
| ipc_socket_poll_loop_set_events_cb
| ipc_socket_poll_loop_read_cb
| ipc_socket_poll_loop_err_cb
| ipc_client_socket_poll_loop_set_events_cb
| ipc_client_socket_poll_loop_read_cb
| ipc_client_socket_poll_loop_write_cb
| ipc_client_socket_poll_loop_err_cb.
#[export] Instance ipc_callback_eq_dec : EqDecision ipc_callback.
Proof. solve_decision. Defined.

(** [struct qnetd_ipc_user_data], [struct qdevice_ipc_user_data]. *)
Record ipc_user_data := mk_user_data { shutdown_requested : bool }.

(** NSPR. *)
Class IpcNspr (W : Type) := {
  ipc_PR_CreateSocketPollFd : Z → W → Z * W;
  ipc_PR_DestroySocketPollFd : Z → W → W;
  ipc_PR_Poll : list PRPollDesc → Z → W → (Z * list Z) * W
}.

(** What the daemons take from their settings. *)
Record ipc_settings := mk_ipc_settings {
  local_socket_file : c_string;
  set_local_socket_umask : bool;
  local_socket_umask : Z;
  local_socket_gid : Z;
  local_socket_backlog : Z;
  ipc_max_clients_setting : Z;
  ipc_max_receive_size_setting : Z;
  ipc_max_send_size_setting : Z
}.

(** ** Words of a line *)

(** The next token as a string; [None]: no memory. *)
Definition next_token : M (dynar_simple_lex * heap) (option c_string) :=
  token ← dynar_simple_lex_token_next; mret ((λ tk, until_nul (token_str tk)) <$> token).

(** ** Text *)

Definition tabs (n : nat) : c_string := replicate n x09.
Definition newline : c_string := [x0a].

(** [%zu], [PRIu64]; [PRIx32], [PRIx64]. *)
Definition fmt_u64 (z : Z) : c_string := fmt_digits 20 z.
Definition hex_digit (z : Z) : byte := z2b (if z <? 10 then 48 + z else 87 + z).
Fixpoint fmt_hex_digits (fuel : nat) (z : Z) : c_string :=
  match fuel with
  | O => []
  | S fuel => (if z <? 16 then [] else fmt_hex_digits fuel (z / 16)) ++ [hex_digit (z mod 16)]
  end.
Definition fmt_hex (z : Z) : c_string := fmt_hex_digits 16 z.

Definition UTILS_PRI_RING_ID (r : tlv_ring_id) : c_string :=
  fmt_hex (rid_node_id r) ++ str "." ++ fmt_hex (rid_seq r).

(** [dynar_str_catf] that has to succeed. *)
Definition catf (text : c_string) : M (dynar * heap) unit := dynar_str_catf text;; mret tt.
Definition catf_if (b : bool) (text : c_string) : M (dynar * heap) unit :=
  if b then catf text else mret tt.
Definition when (b : bool) (m : M (dynar * heap) unit) : M (dynar * heap) unit :=
  if b then m else mret tt.

Section local_ipc.
Context {W : Type} `{UnixSystem W} `{IpcNspr W}.

Abbreviation ipc := (unix_socket_ipc ipc_user_data).
Abbreviation client := (unix_socket_client ipc_user_data).
Abbreviation ipc_world := (ipc * W)%type.
Abbreviation state := (@state ipc_callback unit ipc_world (option nat)).

(** The descriptors are registered before there are callbacks to call. *)
#[local] Instance registration_world : @PollWorld ipc_callback unit ipc_world (option nat) := {|
  PR_CreateSocketPollFd fd := λ '(i, w), let '(r, w) := ipc_PR_CreateSocketPollFd fd w in (Ok r, (i, w));
  PR_DestroySocketPollFd prfd := λ '(i, w), (Ok tt, (i, ipc_PR_DestroySocketPollFd prfd w));
  PR_Poll pfds timeout := λ '(i, w), let '(r, w) := ipc_PR_Poll pfds timeout w in (Ok r, (i, w));
  call_pre_poll _ _ _ := mret 0;
  call_set_events _ _ events _ _ := mret (0, events);
  call_read _ _ _ _ := mret 0;
  call_write _ _ _ _ := mret 0;
  call_err _ _ _ _ _ := mret 0;
  call_timer _ := mret 0
|}.

Definition on_ipc {A} (m : M (ipc * heap * W) A) : M state A := λ '(tl, h, (p, (i, w))),
  let '(r, (i, h, w)) := m (i, h, w) in (r, (tl, h, (p, (i, w)))).

(** An operation of the output of a client; [false]: it failed with -1. *)
Definition on_send_buffer {A} (p : nat) (m : M (dynar * heap) A) : M state bool :=
  on_ipc (on_client p (λ '(c, h, w),
    let '(r, (d, h)) := m (uc_send_buffer c, h) in
    (match r with Ok _ => Ok true | Err e => if e =? -1 then Ok false else Err e end,
     (set_uc_send_buffer d c, h, w)))).

Definition set_disconnect (p : nat) : M state unit := on_ipc (modify_client p (set_uc_schedule_disconnect true)).

(** ** Replies *)

Definition error_text (error : c_string) : M (dynar * heap) unit :=
  dynar_str_cpy (str "Error" ++ [x0a]);;
  n ← dynar_str_vcatf error;
  if 0 <? n then dynar_str_cat [x0a] else fail (-1).

Definition ipc_send_error (p : nat) (error : c_string) : M state Z :=
  res ← on_send_buffer p (error_text error);
  if res : bool then on_ipc (modify_client p (unix_socket_client_write_buffer true));; mret 0
  else mret (-1).

Definition ipc_send_buffer (p : nat) : M state Z :=
  res ← on_send_buffer p (dynar_str_prepend (str "OK" ++ [x0a]));
  if negb res then
    r ← ipc_send_error p (str "Internal IPC buffer too small");
    mret (if negb (r =? 0) then -1 else 0)
  else on_ipc (modify_client p (unix_socket_client_write_buffer true));; mret 0.

(** A failure to send ends the connection. *)
Definition or_disconnect (p : nat) (m : M state Z) : M state unit :=
  r ← m; if negb (r =? 0) then set_disconnect p else mret tt.

(** The lexer on the line of a client. *)
Definition with_line {A} (p : nat) (type : dynar_simple_lex_type) (m : M (dynar_simple_lex * heap) A) :
    M state A :=
  on_ipc (on_client p (λ '(c, h, w),
    let '(r, (lex, h)) := m (dynar_simple_lex_init (uc_receive_buffer c) type, h) in (r, (c, h, w)))).

(** The output of a command, or an error. *)
Definition answer_command (p : nat) (m : M (dynar * heap) unit) (error : c_string) : M state unit :=
  ok ← on_send_buffer p m;
  or_disconnect p (if ok : bool then ipc_send_buffer p else ipc_send_error p error).

Definition request_shutdown (p : nat) : M state unit :=
  on_ipc (modify_client p (set_user_data (Some (mk_user_data true)))).

(** ** Connections *)

Definition ipc_is_closed : M state bool := i ← on_ipc get_ipc; mret (unix_socket_ipc_is_closed i).

Definition ipc_close : M state Z := on_ipc unix_socket_ipc_close.

Definition ipc_client_disconnect (p : nat) : M state unit := on_ipc (unix_socket_ipc_client_disconnect p).

(** [-1] with a client that was disconnected again or without one. *)
Definition ipc_accept : M state Z :=
  '(accept_res, res_client) ← on_ipc unix_socket_ipc_accept;
  match res_client with
  | None => mret (-1)
  | Some p =>
      on_ipc (modify_client p (unix_socket_client_read_line true));;
      ok ← (λ '(tl, h, x), let '(r, h) := malloc h in (Ok (bool_decide (r ≠ None)), (tl, h, x)));
      if negb ok then ipc_client_disconnect p;; mret (-1)
      else
        on_ipc (modify_client p (set_user_data (Some (mk_user_data false))));;
        c ← on_ipc (client_at p);
        r ← pr_poll_loop_add_fd (uc_socket c) 0
              (Some ipc_client_socket_poll_loop_set_events_cb) (Some ipc_client_socket_poll_loop_read_cb)
              (Some ipc_client_socket_poll_loop_write_cb) (Some ipc_client_socket_poll_loop_err_cb)
              None (Some p);
        if r =? -1 then ipc_client_disconnect p;; mret (-1) else mret 0
  end.

Definition ipc_init (settings : ipc_settings) : M state Z :=
  r ← on_ipc (unix_socket_ipc_init (local_socket_file settings) (set_local_socket_umask settings)
        (local_socket_umask settings) (local_socket_gid settings) (local_socket_backlog settings)
        (ipc_max_clients_setting settings) (ipc_max_receive_size_setting settings)
        (ipc_max_send_size_setting settings));
  if negb (r =? 0) then mret (-1)
  else
    i ← on_ipc get_ipc;
    r ← pr_poll_loop_add_fd (ipc_socket i) POLLIN (Some ipc_socket_poll_loop_set_events_cb)
          (Some ipc_socket_poll_loop_read_cb) None (Some ipc_socket_poll_loop_err_cb) None None;
    mret (if r =? -1 then -1 else 0).

(** The user data of the clients are freed first. *)
Definition ipc_destroy : M state Z :=
  on_ipc (modify_ipc (λ i, set_ipc_clients ((λ pc, (fst pc, set_user_data None (snd pc))) <$> ipc_clients i) i));;
  on_ipc unix_socket_ipc_destroy.

(** ** Reading and writing *)

Context (parse_line : nat → M state unit).

Definition ipc_io_read (p : nat) : M state unit :=
  res ← on_ipc (on_client p unix_socket_client_io_read);
  if res =? 0 then mret tt
  else if res =? 1 then
    on_ipc (modify_client p (unix_socket_client_read_line false));;
    parse_line p
  else set_disconnect p.

Definition user_data_at (p : nat) : M state ipc_user_data :=
  c ← on_ipc (client_at p);
  match user_data c with Some u => mret u | None => fail NULL_DEREF end.

Definition ipc_io_write (p : nat) : M state unit :=
  res ← on_ipc (on_client p unix_socket_client_io_write);
  if res =? 0 then mret tt
  else if res =? 1 then
    on_ipc (modify_client p (unix_socket_client_write_buffer false));;
    set_disconnect p;;
    u ← user_data_at p;
    if shutdown_requested u then ipc_close;; mret tt else mret tt
  else set_disconnect p.

(** ** Callbacks *)

Definition client_of (user_data2 : option nat) : M state nat :=
  match user_data2 with Some p => mret p | None => fail NULL_DEREF end.

Definition client_set_events (fd events : Z) (p : nat) : M state (Z * Z) :=
  c ← on_ipc (client_at p);
  if uc_schedule_disconnect c then
    ipc_client_disconnect p;;
    r ← pr_poll_loop_del_fd fd;
    mret (if r =? -1 then (-2, events) else (-1, events))
  else if negb (reading_line c) && negb (writing_buffer c) then mret (-1, events)
  else
    let events := if reading_line c then Z.lor events POLLIN else events in
    let events := if writing_buffer c then Z.lor events POLLOUT else events in
    mret (0, events).

Definition unless_disconnecting (p : nat) (m : M state unit) : M state Z :=
  c ← on_ipc (client_at p);
  (if negb (uc_schedule_disconnect c) then m else mret tt);;
  mret 0.

Definition ipc_call_set_events (cb : ipc_callback) (d : Z + Z) (events : Z)
    (user_data1 user_data2 : option nat) : M state (Z * Z) :=
  match cb, d with
  | ipc_socket_poll_loop_set_events_cb, _ =>
      closed ← ipc_is_closed; mret (if closed : bool then (-2, events) else (0, events))
  | ipc_client_socket_poll_loop_set_events_cb, inl fd =>
      p ← client_of user_data2; client_set_events fd events p
  | _, _ => fail ASSERT
  end.

Definition ipc_call_read (cb : ipc_callback) (d : descriptor) (user_data1 user_data2 : option nat) : M state Z :=
  match cb with
  | ipc_socket_poll_loop_read_cb => ipc_accept;; mret 0
  | ipc_client_socket_poll_loop_read_cb =>
      p ← client_of user_data2; unless_disconnecting p (ipc_io_read p)
  | _ => fail ASSERT
  end.

Definition ipc_call_write (cb : ipc_callback) (d : descriptor) (user_data1 user_data2 : option nat) : M state Z :=
  match cb with
  | ipc_client_socket_poll_loop_write_cb =>
      p ← client_of user_data2; unless_disconnecting p (ipc_io_write p)
  | _ => fail ASSERT
  end.

Definition ipc_call_err (cb : ipc_callback) (d : descriptor) (revents : Z)
    (user_data1 user_data2 : option nat) : M state Z :=
  match cb with
  | ipc_socket_poll_loop_err_cb => mret (-1)
  | ipc_client_socket_poll_loop_err_cb =>
      p ← client_of user_data2; unless_disconnecting p (set_disconnect p)
  | _ => fail ASSERT
  end.

(** The loop of the daemon, as far as it serves the local sockets. *)
#[export] Instance ipc_poll_world : @PollWorld ipc_callback unit ipc_world (option nat) := {|
  PR_CreateSocketPollFd := @PR_CreateSocketPollFd _ _ _ _ registration_world;
  PR_DestroySocketPollFd := @PR_DestroySocketPollFd _ _ _ _ registration_world;
  PR_Poll := @PR_Poll _ _ _ _ registration_world;
  call_pre_poll _ _ _ := fail ASSERT;
  call_set_events := ipc_call_set_events;
  call_read := ipc_call_read;
  call_write := ipc_call_write;
  call_err := ipc_call_err;
  call_timer _ := mret 0
|}.
End local_ipc.
