(* ===== verification/QnetdIpc.v ===== *)
(** The commands of qnetd's local socket (qnetd-ipc.c, qnetd-ipc-cmd.c). *)
From stdpp Require Import strings.
From S2P Require Import Prelude Dynar DynarStr Lex Utils Tlv NodeList Heuristics SendBuffer QnetdClient QnetdCluster.
From stdpp Require Import list gmap.
From S2P Require Import TimerList TimerInterface QnetdAlgoTimer QnetdAlgorithm QnetdInstance.
From S2P Require Import PrPollArray PrPollLoop UnixSocket LocalIpc.
Local Open Scope Z_scope.

(** ** Commands *)

(** What is not in the model of the daemon: where it listens, and the addresses of its clients. *)
Record qnetd_names := mk_names {
  host_addr : option c_string;
  host_port : Z;
  addr_str : nat → c_string
}.

Section commands.
Context {T : Type} `{TimerOps qnetd_timer T}.
Context (settings : qnetd_settings) (names : qnetd_names).
Abbreviation instance := (@qnetd_instance T).

Definition qnetd_ipc_cmd_status (q : instance) (verbose : bool) : M (dynar * heap) unit :=
  catf (str "QNetd address:" ++ tabs 3 ++ default (str "*") (host_addr names) ++ str ":" ++
        fmt_u32 (host_port names) ++ newline);;
  catf (str "TLS:" ++ tabs 4 ++ str (tlv_tls_supported_to_str (tls_supported settings)) ++
        (if negb (bool_decide (tls_supported settings = TLV_TLS_UNSUPPORTED)) &&
            negb (tls_client_cert_required settings =? 0)
         then str " (client certificate required)" else []) ++ newline);;
  catf (str "Connected clients:" ++ tabs 2 ++ fmt_u64 (qnetd_client_list_no_clients q) ++ newline);;
  catf (str "Connected clusters:" ++ tabs 2 ++ fmt_u64 (qnetd_cluster_list_size (q_clusters q)) ++ newline);;
  if negb verbose then mret tt
  else
    catf_if (negb (max_clients settings =? 0))
      (str "Maximum allowed clients:" ++ tabs 1 ++ fmt_u64 (max_clients settings) ++ newline);;
    catf (str "Maximum send/receive size:" ++ tabs 1 ++ fmt_u64 (max_client_send_size settings) ++
          str "/" ++ fmt_u64 (max_client_receive_size settings) ++ str " bytes" ++ newline).

Definition qnetd_ipc_cmd_add_tie_breaker (c : qclient) : M (dynar * heap) unit :=
  catf (str "    Tie-breaker:" ++ tabs 1);;
  (let mode := tb_mode (tie_breaker c) in
   if mode =? TLV_TIE_BREAKER_MODE_LOWEST then catf (str "Node with lowest node ID")
   else if mode =? TLV_TIE_BREAKER_MODE_HIGHEST then catf (str "Node with highest node ID")
   else if mode =? TLV_TIE_BREAKER_MODE_NODE_ID
   then catf (str "Node with node ID " ++ fmt_u32 (tb_node_id (tie_breaker c)))
   else mret tt);;
  catf newline.

Fixpoint list_add_node_list_loop (i : Z) (nlist : node_list) : M (dynar * heap) unit :=
  match nlist with
  | [] => mret tt
  | node_info :: nlist' =>
      catf_if (negb (i =? 0)) (str ", ");;
      catf (fmt_u32 (node_id node_info));;
      catf_if (negb (data_center_id node_info =? 0))
        (str " (" ++ fmt_u32 (data_center_id node_info) ++ str ")");;
      list_add_node_list_loop (i + 1) nlist'
  end.

Definition qnetd_ipc_cmd_list_add_node_list (verbose : bool) (nlist : node_list) : M (dynar * heap) unit :=
  list_add_node_list_loop 0 nlist.

(** A list with its title; an empty one is left out. *)
Definition add_titled_list (title : c_string) (verbose : bool) (nlist : node_list) : M (dynar * heap) unit :=
  when (negb (node_list_is_empty nlist))
    (catf title;; qnetd_ipc_cmd_list_add_node_list verbose nlist;; catf newline).

Definition qnetd_ipc_cmd_list_add_client_info (c : qclient) (verbose : bool) (client_no : Z) :
    M (dynar * heap) unit :=
  catf (str "    Node ID " ++ fmt_u32 (client_node_id c) ++ str ":" ++ newline);;
  catf (str "        Client address:" ++ tabs 2 ++ addr_str names (client_ptr c) ++ newline);;
  catf_if verbose (str "        HB interval:" ++ tabs 2 ++ fmt_u32 (heartbeat_interval c) ++ str "ms" ++ newline);;
  match config_version c with
  | Some v => catf (str "        Configuration version:" ++ tabs 1 ++ fmt_u64 v ++ newline)
  | None => mret tt
  end;;
  add_titled_list (str "        Configured node list:" ++ tabs 1) verbose (configuration_node_list c);;
  catf_if verbose (str "        Ring ID:" ++ tabs 2 ++ UTILS_PRI_RING_ID (last_ring_id c) ++ newline);;
  add_titled_list (str "        Membership node list:" ++ tabs 1) verbose (last_membership_node_list c);;
  when (negb (bool_decide (last_heuristics c = TLV_HEURISTICS_UNDEFINED)) || verbose)
    (catf (str "        Heuristics:" ++ tabs 2 ++ str (tlv_heuristics_to_str (last_heuristics c)));;
     catf_if verbose (str " (membership: " ++ str (tlv_heuristics_to_str (last_membership_heuristics c)) ++
                      str ", regular: " ++ str (tlv_heuristics_to_str (last_regular_heuristics c)) ++ str ")");;
     catf newline);;
  when verbose
    (catf (str "        TLS active:" ++ tabs 2 ++ str (if tls_started c then "Yes" else "No"));;
     catf_if (tls_started c && tls_peer_certificate_verified c) (str " (client certificate verified)");;
     catf newline);;
  when (negb (bool_decide (last_sent_vote c = TLV_VOTE_UNDEFINED)))
    (catf (str "        Vote:" ++ tabs 3 ++ str (tlv_vote_to_str (last_sent_vote c)));;
     catf_if (negb (bool_decide (last_sent_ack_nack_vote c = TLV_VOTE_UNDEFINED)))
       (str " (" ++ str (tlv_vote_to_str (last_sent_ack_nack_vote c)) ++ str ")");;
     catf newline).

Definition qnetd_ipc_cmd_keep_active_partition_tie_breaker_active (cl : qcluster) : bool :=
  forallb (λ c, (decision_algorithm c =? TLV_DECISION_ALGORITHM_TYPE_FFSPLIT) &&
    bool_decide (keep_active_partition_tie_breaker c = TLV_KEEP_ACTIVE_PARTITION_TIE_BREAKER_ENABLED))
    (client_list cl).

(** What is told once for all clients of a cluster, with the first one. *)
Definition add_algorithm (cl : qcluster) (c : qclient) : M (dynar * heap) unit :=
  catf (str "    Algorithm:" ++ tabs 2 ++ str (tlv_decision_algorithm_type_to_str (decision_algorithm c)) ++
        (if qnetd_ipc_cmd_keep_active_partition_tie_breaker_active cl then str " (KAP Tie-breaker)" else []) ++
        newline);;
  qnetd_ipc_cmd_add_tie_breaker c.

Fixpoint list_clients_loop (cl : qcluster) (verbose : bool) (client_no : Z) (l : list qclient) :
    M (dynar * heap) unit :=
  match l with
  | [] => mret tt
  | c :: l' =>
      when (client_no =? 0) (add_algorithm cl c);;
      qnetd_ipc_cmd_list_add_client_info c verbose client_no;;
      list_clients_loop cl verbose (client_no + 1) l'
  end.

(** A name that is given and not empty chooses one cluster. *)
Definition cluster_chosen (chosen : option c_string) (cl : qcluster) : bool :=
  match chosen with
  | Some name => bool_decide (name = []) || bool_decide (name = cl_name cl)
  | None => true
  end.

Fixpoint list_clusters_loop (verbose : bool) (chosen : option c_string) (l : list qcluster) :
    M (dynar * heap) unit :=
  match l with
  | [] => mret tt
  | cl :: l' =>
      when (cluster_chosen chosen cl)
        (catf (str "Cluster " ++ [x22] ++ cl_name cl ++ [x22] ++ str ":" ++ newline);;
         list_clients_loop cl verbose 0 (client_list cl));;
      list_clusters_loop verbose chosen l'
  end.

Definition qnetd_ipc_cmd_list (q : instance) (verbose : bool) (chosen : option c_string) :
    M (dynar * heap) unit :=
  list_clusters_loop verbose chosen (q_clusters q).

(** ** Lines *)

Inductive qnetd_request :=
| NO_COMMAND
| SHUTDOWN
| STATUS (verbose : bool)
| LIST (verbose : bool) (cluster : option c_string)
| UNKNOWN_COMMAND (command : c_string)
| LOW_MEM.

Definition strdup_name (s : c_string) : M (dynar_simple_lex * heap) (option c_string) := λ '(lex, h),
  let '(r, h) := malloc h in
  (Ok (match r with Some _ => Some s | None => None end), (lex, h)).

Fixpoint list_options_loop (fuel : nat) (verbose : bool) (cluster : option c_string) :
    M (dynar_simple_lex * heap) qnetd_request :=
  match fuel with
  | O => fail OUT_OF_FUEL
  | S fuel =>
      token ← next_token;
      match token with
      | None | Some [] => mret (LIST verbose cluster)
      | Some word =>
          if strcase_eq word (str "verbose") then list_options_loop fuel true cluster
          else if strcase_eq word (str "cluster") then
            token ← next_token;
            match token with
            | None => mret LOW_MEM
            | Some name =>
                cluster_name ← strdup_name name;
                match cluster_name with
                | None => mret LOW_MEM
                | Some name => list_options_loop fuel verbose (Some name)
                end
            end
          else mret (LIST verbose cluster)
      end
  end.

(** What a line asks for. *)
Definition parse_request : M (dynar_simple_lex * heap) qnetd_request :=
  '(lex, _) ← get;
  token ← next_token;
  match token with
  | None => mret LOW_MEM
  | Some [] => mret NO_COMMAND
  | Some word =>
      if strcase_eq word (str "shutdown") then mret SHUTDOWN
      else if strcase_eq word (str "status") then
        token ← next_token;
        mret (match token with
              | None => LOW_MEM
              | Some option => STATUS (strcase_eq option (str "verbose"))
              end)
      else if strcase_eq word (str "list") then
        list_options_loop (S (length (contents (lex_input lex)))) false None
      else mret (UNKNOWN_COMMAND word)
  end.

Context {W : Type} `{UnixSystem W} `{IpcNspr W}.
Abbreviation state := (@PrPollLoop.state ipc_callback unit (unix_socket_ipc ipc_user_data * W) (option nat)).

Definition qnetd_ipc_parse_line (q : instance) (p : nat) : M state unit :=
  request ← with_line p DYNAR_SIMPLE_LEX_TYPE_QUOTE parse_request;
  match request with
  | NO_COMMAND => or_disconnect p (ipc_send_error p (str "No command specified"))
  | SHUTDOWN => request_shutdown p;; or_disconnect p (ipc_send_buffer p)
  | STATUS verbose => answer_command p (qnetd_ipc_cmd_status q verbose) (str "Can't get QNetd status")
  | LIST verbose cluster =>
      answer_command p (qnetd_ipc_cmd_list q verbose cluster) (str "Can't get QNetd cluster list")
  | UNKNOWN_COMMAND command =>
      or_disconnect p (ipc_send_error p (str "Unknown command '" ++ command ++ str "'"))
  | LOW_MEM => or_disconnect p (ipc_send_error p (str "Command too long"))
  end.

Definition qnetd_ipc_io_read (q : instance) : nat → M state unit := ipc_io_read (qnetd_ipc_parse_line q).

(** ** The main loop *)

(** The instance the commands look at is a part of the rest of the daemon. *)
Context (instance_of : W → instance).
Definition parse_line_now (p : nat) : M state unit := λ s, qnetd_ipc_parse_line (instance_of (snd (snd (snd s)))) p s.

Context (PR_MillisecondsToInterval : Z → Z) (PR_INTERVAL_NO_TIMEOUT : Z).
#[local] Instance qnetd_ipc_world : @PollWorld ipc_callback unit (unix_socket_ipc ipc_user_data * W) (option nat) :=
  ipc_poll_world parse_line_now.

Fixpoint main_loop_rounds (rounds : nat) : M state Z :=
  match rounds with
  | O => fail OUT_OF_FUEL
  | S rounds =>
      poll_res ← pr_poll_loop_exec PR_MillisecondsToInterval PR_INTERVAL_NO_TIMEOUT;
      if poll_res =? 0 then main_loop_rounds rounds else mret poll_res
  end.

Definition qnetd_run_main_loop (rounds : nat) : M state Z :=
  poll_res ← main_loop_rounds rounds;
  if (poll_res =? -2) || (poll_res =? -3) then mret (-1)
  else
    closed ← ipc_is_closed;
    mret (if closed : bool then 0 else -1).
End commands.
