(* ===== verification/QdeviceIpc.v ===== *)
(** The commands of qdevice's local socket (qdevice-ipc.c, qdevice-ipc-cmd.c,
    qdevice-net-ipc-cmd.c). *)
From stdpp Require Import strings.
From S2P Require Import Prelude Dynar DynarStr Lex Utils Tlv NodeList Heuristics SendBuffer.
From stdpp Require Import list gmap.
From S2P Require Import TimerList TimerInterface QdeviceInstance.
From S2P Require Import PrPollArray PrPollLoop UnixSocket LocalIpc.
Local Open Scope Z_scope.

Definition qdevice_heuristics_mode_to_str (mode : qdevice_heuristics_mode) : string :=
  match mode with
  | QDEVICE_HEURISTICS_MODE_DISABLED => "Disabled"
  | QDEVICE_HEURISTICS_MODE_ENABLED => "Enabled"
  | QDEVICE_HEURISTICS_MODE_SYNC => "Enabled only on sync"
  end.

(** [struct tm]. *)
Record tm := mk_tm { tm_year : Z; tm_mon : Z; tm_mday : Z; tm_hour : Z; tm_min : Z; tm_sec : Z }.

(** What is not in the model of the device: the name of the server, whether NSS asked for the
    certificate, and the local time. *)
Record qdevice_names := mk_names {
  device_host_addr : c_string;
  device_host_port : Z;
  tls_client_cert_sent : bool;
  localtime : Z → tm
}.

(** [%02d], [%04d] of numbers that are not negative. *)
Definition pad (n : nat) (s : c_string) : c_string := replicate (n - length s) x30 ++ s.
Definition fmt_time (t : tm) : c_string :=
  pad 4 (fmt_u32 (tm_year t + 1900)) ++ str "-" ++ pad 2 (fmt_u32 (tm_mon t + 1)) ++ str "-" ++
  pad 2 (fmt_u32 (tm_mday t)) ++ str "T" ++ pad 2 (fmt_u32 (tm_hour t)) ++ str ":" ++
  pad 2 (fmt_u32 (tm_min t)) ++ str ":" ++ pad 2 (fmt_u32 (tm_sec t)).

(** [dynar_str_catf(...) != 0]: a failure counts as success. *)
Definition catf_not_zero (text : c_string) : M (dynar * heap) unit := λ s,
  match dynar_str_catf text s with
  | (Ok n, s) => (if n =? 0 then Err (-1) else Ok tt, s)
  | (Err c, s) => (if c =? -1 then Ok tt else Err c, s)
  end.

Section commands.
Context {T E : Type} `{TimerOps qdevice_timer T}.
Context (settings : qdevice_settings) (names : qdevice_names).
Abbreviation device := (qdevice_instance T E).
Abbreviation out := (M (dynar * heap) unit).

(** ** The device *)

Definition qdevice_ipc_cmd_status_add_header (q : device) (verbose : bool) : out :=
  catf (str "Qdevice information" ++ newline);;
  catf (str "-------------------" ++ newline).

Definition qdevice_ipc_cmd_status_add_model (q : device) (verbose : bool) : out :=
  catf (str "Model:" ++ tabs 3 ++ str "Net" ++ newline).

Definition qdevice_ipc_cmd_status_add_nodeid (q : device) (verbose : bool) : out :=
  catf (str "Node ID:" ++ tabs 2 ++ fmt_u32 (cfg_node_id settings) ++ newline).

Definition qdevice_ipc_cmd_status_add_intervals (q : device) (verbose : bool) : out :=
  when verbose
    (catf (str "HB interval:" ++ tabs 2 ++ fmt_u32 (cfg_heartbeat_timeout settings) ++ str "ms" ++ newline);;
     catf (str "Sync HB interval:" ++ tabs 1 ++ fmt_u32 (cfg_sync_heartbeat_timeout settings) ++ str "ms" ++ newline)).

Fixpoint config_node_list_loop (zi : Z) (nlist : node_list) : out :=
  match nlist with
  | [] => mret tt
  | node_info :: nlist' =>
      catf (str "    " ++ fmt_u64 zi ++ tabs 1 ++ str "Node ID = " ++ fmt_u32 (node_id node_info));;
      catf_if (negb (data_center_id node_info =? 0))
        (str ", Data center ID = " ++ fmt_u32 (data_center_id node_info));;
      catf newline;;
      config_node_list_loop (zi + 1) nlist'
  end.

Definition qdevice_ipc_cmd_status_add_config_node_list (q : device) (verbose : bool) : out :=
  match config_node_list_version q with
  | Some v => catf (str "Configuration version:" ++ tabs 1 ++ fmt_u64 v ++ newline)
  | None => mret tt
  end;;
  catf (str "Configured node list:" ++ newline);;
  config_node_list_loop 0 (config_node_list q).

Fixpoint membership_node_list_loop (i : Z) (l : list Z) : out :=
  match l with
  | [] => mret tt
  | n :: l' =>
      catf_if (negb (i =? 0)) (str ", ");;
      catf (fmt_u32 n);;
      membership_node_list_loop (i + 1) l'
  end.

Definition qdevice_ipc_cmd_status_add_membership_node_list (q : device) (verbose : bool) : out :=
  catf_if verbose (str "Ring ID:" ++ tabs 2 ++ fmt_hex (vq_nodeid (vq_node_list_ring_id q)) ++ str "." ++
    fmt_hex (vq_seq (vq_node_list_ring_id q)) ++ newline);;
  catf (str "Membership node list:" ++ tabs 1);;
  membership_node_list_loop 0 (vq_node_list q);;
  catf newline.

(** The process ends on a state it does not know. *)
Definition qdevice_ipc_cmd_vq_nodestate_to_str (state : votequorum_nodestate) : res string :=
  match state with
  | VOTEQUORUM_NODESTATE_MEMBER => Ok "member"
  | VOTEQUORUM_NODESTATE_DEAD => Ok "dead"
  | VOTEQUORUM_NODESTATE_LEAVING => Ok "leaving"
  | VOTEQUORUM_NODESTATE_OTHER => Err EXIT
  end.

Fixpoint quorum_node_list_loop (i : Z) (l : list votequorum_node_t) : out :=
  match l with
  | [] => mret tt
  | node :: l' =>
      (if vqn_nodeid node =? 0 then mret tt
       else match qdevice_ipc_cmd_vq_nodestate_to_str (vqn_state node) with
            | Err c => fail c
            | Ok state =>
                catf (str "    " ++ fmt_u32 i ++ tabs 1 ++ str "Node ID = " ++ fmt_u32 (vqn_nodeid node) ++
                      str ", State = " ++ str state ++ newline)
            end);;
      quorum_node_list_loop (i + 1) l'
  end.

Definition qdevice_ipc_cmd_status_add_quorum_node_list (q : device) (verbose : bool) : out :=
  when verbose
    (catf (str "Quorate:" ++ tabs 2 ++ str (if negb (vq_quorum_quorate q =? 0) then "Yes" else "No") ++ newline);;
     catf (str "Quorum node list:" ++ newline);;
     quorum_node_list_loop 0 (vq_quorum_node_list q)).

Definition qdevice_ipc_cmd_status_add_expected_votes (q : device) (verbose : bool) : out :=
  catf_if verbose (str "Expected votes:" ++ tabs 2 ++ fmt_u32 (vq_expected_votes q) ++ newline).

Definition qdevice_ipc_cmd_status_add_last_poll (q : device) (verbose : bool) : out :=
  when verbose
    (if vq_last_poll q =? -1 then catf (str "Last poll call:" ++ tabs 2 ++ str "Never" ++ newline)
     else catf (str "Last poll call:" ++ tabs 2 ++ fmt_time (localtime names (vq_last_poll q)) ++
            (if negb (vq_last_poll_cast_vote q =? 0) then str " (cast vote)" else []) ++ newline)).

Definition qdevice_ipc_cmd_status_add_heuristics (q : device) (verbose : bool) : out :=
  when verbose
    (catf_not_zero (str "Heuristics:" ++ tabs 2 ++
       str (qdevice_heuristics_mode_to_str (mode (heuristics_instance q))) ++ newline)).

(** ** The model net *)

Definition qdevice_net_ipc_cmd_status_add_header (verbose : bool) : out :=
  catf (str "Qdevice-net information" ++ newline);;
  catf (str "----------------------" ++ newline).

Definition qdevice_net_ipc_cmd_status_add_tie_breaker (i : qdevice_net_instance) (verbose : bool) : out :=
  catf (str "Tie-breaker:" ++ tabs 2);;
  (let tb := cfg_tie_breaker settings in
   if tb_mode tb =? TLV_TIE_BREAKER_MODE_LOWEST then catf (str "Node with lowest node ID")
   else if tb_mode tb =? TLV_TIE_BREAKER_MODE_HIGHEST then catf (str "Node with highest node ID")
   else if tb_mode tb =? TLV_TIE_BREAKER_MODE_NODE_ID
   then catf (str "Node with node ID " ++ fmt_u32 (tb_node_id tb))
   else mret tt);;
  catf newline.

Definition connected_to_server (i : qdevice_net_instance) : bool :=
  bool_decide (QdeviceInstance.state i = QDEVICE_NET_INSTANCE_STATE_WAITING_VOTEQUORUM_CMAP_EVENTS).

Definition kap_tb_str (i : qdevice_net_instance) : string :=
  let algorithm := cfg_decision_algorithm settings in
  if algorithm =? TLV_DECISION_ALGORITHM_TYPE_TEST then "Unsupported by algorithm"
  else if (algorithm =? TLV_DECISION_ALGORITHM_TYPE_2NODELMS) || (algorithm =? TLV_DECISION_ALGORITHM_TYPE_LMS)
  then "Algorithm hard-coded"
  else if algorithm =? TLV_DECISION_ALGORITHM_TYPE_FFSPLIT then
    if bool_decide (cfg_keep_active_partition_tie_breaker settings =
                    TLV_KEEP_ACTIVE_PARTITION_TIE_BREAKER_ENABLED) then
      if negb (connected_to_server i) || server_supports_keep_active_partition_tie_breaker i
      then "Enabled" else "Unsupported by QNetd"
    else "Disabled"
  else EmptyString.

Definition qdevice_net_ipc_cmd_status_add_kap_tb_info (i : qdevice_net_instance) (verbose : bool) : out :=
  catf_if verbose (str "KAP Tie-breaker:" ++ tabs 1 ++ str (kap_tb_str i) ++ newline).

Definition qdevice_net_ipc_cmd_status_add_basic_info (i : qdevice_net_instance) (verbose : bool) : out :=
  catf (str "Cluster name:" ++ tabs 2 ++ cfg_cluster_name settings ++ newline);;
  catf (str "QNetd host:" ++ tabs 2 ++ device_host_addr names ++ str ":" ++ fmt_u32 (device_host_port names) ++ newline);;
  catf_if (verbose && negb (cfg_force_ip_version settings =? 0))
    (str "Force IP version:" ++ tabs 1 ++ fmt_u32 (cfg_force_ip_version settings) ++ newline);;
  when verbose
    (catf (str "Connect timeout:" ++ tabs 1 ++ fmt_u32 (cfg_connect_timeout settings) ++ str "ms" ++ newline);;
     catf (str "HB interval:" ++ tabs 2 ++ fmt_u32 (cfg_heartbeat_interval settings) ++ str "ms" ++ newline);;
     catf (str "VQ vote timer interval:" ++ tabs 1 ++ fmt_u32 (cfg_cast_vote_timer_interval settings) ++
           str "ms" ++ newline);;
     catf (str "TLS:" ++ tabs 3 ++ str (tlv_tls_supported_to_str (cfg_tls_supported settings)) ++ newline));;
  catf (str "Algorithm:" ++ tabs 2 ++
        str (tlv_decision_algorithm_type_to_str (cfg_decision_algorithm settings)) ++ newline).

Definition timer_is_running (t : option nat) : bool := bool_decide (is_Some t).

Definition qdevice_net_ipc_cmd_status_add_poll_timer_status (i : qdevice_net_instance) (verbose : bool) : out :=
  when verbose
    (catf (str "Poll timer running:" ++ tabs 1 ++ str (if timer_is_running (cast_vote_timer i) then "Yes" else "No"));;
     catf_if (timer_is_running (cast_vote_timer i) && bool_decide (cast_vote_timer_vote i = TLV_VOTE_ACK))
       (str " (cast vote)");;
     catf newline).

Definition state_str (i : qdevice_net_instance) : string :=
  if QdeviceInstance.schedule_disconnect i then "Disconnected"
  else if connected_to_server i then "Connected"
  else if negb (bool_decide (QdeviceInstance.state i = QDEVICE_NET_INSTANCE_STATE_WAITING_CONNECT)) ||
          negb (nb_destroyed (non_blocking_client i)) then "Connecting"
  else "Connect failed".

Definition qdevice_net_ipc_cmd_status_add_state (i : qdevice_net_instance) (verbose : bool) : out :=
  catf (str "State:" ++ tabs 3 ++ str (state_str i) ++ newline).

Definition heuristics_enabled (q : device) : bool :=
  match mode (heuristics_instance q) with
  | QDEVICE_HEURISTICS_MODE_ENABLED | QDEVICE_HEURISTICS_MODE_SYNC => true
  | QDEVICE_HEURISTICS_MODE_DISABLED => false
  end.

Definition qdevice_net_ipc_cmd_status_add_heuristics (q : device) (verbose : bool) : out :=
  let i := net q in
  let result h := str (tlv_heuristics_to_str h) in
  when (heuristics_enabled q)
    (catf (str "Heuristics result:" ++ tabs 1 ++ result (latest_heuristics_result i));;
     catf_if verbose (str " (regular: " ++ result (latest_regular_heuristics_result i) ++ str ", membership: " ++
       result (latest_vq_heuristics_result i) ++ str ", connect: " ++
       result (latest_connect_heuristics_result i) ++ str ")");;
     catf newline).

Definition qdevice_net_ipc_cmd_status_add_tls_state (i : qdevice_net_instance) (verbose : bool) : out :=
  when (verbose && connected_to_server i)
    (catf (str "TLS active:" ++ tabs 2 ++ str (if using_tls i then "Yes" else "No"));;
     catf_if (using_tls i && tls_client_cert_sent names) (str " (client certificate sent)");;
     catf newline).

Definition qdevice_net_ipc_cmd_status_add_times (i : qdevice_net_instance) (verbose : bool) : out :=
  let time t := fmt_time (localtime names t) in
  when (verbose && connected_to_server i)
    (catf_if (negb (connected_since_time i =? -1))
       (str "Connected since:" ++ tabs 1 ++ time (connected_since_time i) ++ newline);;
     catf_if (negb (last_echo_reply_received_time i =? -1))
       (str "Echo reply received:" ++ tabs 1 ++ time (last_echo_reply_received_time i) ++ newline)).

Definition qdevice_net_ipc_cmd_status (q : device) (verbose : bool) : out :=
  let i := net q in
  qdevice_net_ipc_cmd_status_add_header verbose;;
  qdevice_net_ipc_cmd_status_add_basic_info i verbose;;
  qdevice_net_ipc_cmd_status_add_tie_breaker i verbose;;
  qdevice_net_ipc_cmd_status_add_kap_tb_info i verbose;;
  qdevice_net_ipc_cmd_status_add_poll_timer_status i verbose;;
  qdevice_net_ipc_cmd_status_add_state i verbose;;
  qdevice_net_ipc_cmd_status_add_heuristics q verbose;;
  qdevice_net_ipc_cmd_status_add_tls_state i verbose;;
  qdevice_net_ipc_cmd_status_add_times i verbose.

Definition qdevice_ipc_cmd_status (q : device) (verbose : bool) : out :=
  qdevice_ipc_cmd_status_add_header q verbose;;
  qdevice_ipc_cmd_status_add_model q verbose;;
  qdevice_ipc_cmd_status_add_nodeid q verbose;;
  qdevice_ipc_cmd_status_add_intervals q verbose;;
  qdevice_ipc_cmd_status_add_config_node_list q verbose;;
  qdevice_ipc_cmd_status_add_heuristics q verbose;;
  qdevice_ipc_cmd_status_add_membership_node_list q verbose;;
  qdevice_ipc_cmd_status_add_quorum_node_list q verbose;;
  qdevice_ipc_cmd_status_add_expected_votes q verbose;;
  qdevice_ipc_cmd_status_add_last_poll q verbose;;
  catf newline;;
  qdevice_net_ipc_cmd_status q verbose.

(** ** Lines *)

Inductive qdevice_request :=
| DEVICE_NO_COMMAND
| DEVICE_SHUTDOWN
| DEVICE_STATUS (verbose : bool)
| DEVICE_UNKNOWN_COMMAND (command : c_string)
| DEVICE_LOW_MEM.

(** Without memory for the second word the status is the short one. *)
Definition parse_device_request : M (dynar_simple_lex * heap) qdevice_request :=
  token ← next_token;
  match token with
  | None => mret DEVICE_LOW_MEM
  | Some [] => mret DEVICE_NO_COMMAND
  | Some word =>
      if strcase_eq word (str "shutdown") then mret DEVICE_SHUTDOWN
      else if strcase_eq word (str "status") then
        token ← next_token;
        mret (DEVICE_STATUS (match token with
                             | Some option => strcase_eq option (str "verbose")
                             | None => false
                             end))
      else mret (DEVICE_UNKNOWN_COMMAND word)
  end.

Context {W : Type} `{UnixSystem W} `{IpcNspr W}.
Abbreviation loop_state := (@PrPollLoop.state ipc_callback unit (unix_socket_ipc ipc_user_data * W) (option nat)).

Definition qdevice_ipc_parse_line (q : device) (p : nat) : M loop_state unit :=
  request ← with_line p DYNAR_SIMPLE_LEX_TYPE_PLAIN parse_device_request;
  match request with
  | DEVICE_NO_COMMAND => or_disconnect p (ipc_send_error p (str "No command specified"))
  | DEVICE_SHUTDOWN => request_shutdown p;; or_disconnect p (ipc_send_buffer p)
  | DEVICE_STATUS verbose => answer_command p (qdevice_ipc_cmd_status q verbose) (str "Can't get QDevice status")
  | DEVICE_UNKNOWN_COMMAND command =>
      or_disconnect p (ipc_send_error p (str "Unknown command '" ++ command ++ str "'"))
  | DEVICE_LOW_MEM => or_disconnect p (ipc_send_error p (str "Command too long"))
  end.

Definition qdevice_ipc_io_read (q : device) : nat → M loop_state unit := ipc_io_read (qdevice_ipc_parse_line q).

(** ** The rest of qdevice-ipc.c is that of qnetd *)

Definition qdevice_ipc_init : ipc_settings → M loop_state Z := ipc_init.
Definition qdevice_ipc_close : M loop_state Z := ipc_close.
Definition qdevice_ipc_is_closed : M loop_state bool := ipc_is_closed.
Definition qdevice_ipc_destroy : M loop_state Z := ipc_destroy.
Definition qdevice_ipc_accept : M loop_state Z := ipc_accept.
Definition qdevice_ipc_client_disconnect : nat → M loop_state unit := ipc_client_disconnect.
Definition qdevice_ipc_send_error : nat → c_string → M loop_state Z := ipc_send_error.
Definition qdevice_ipc_send_buffer : nat → M loop_state Z := ipc_send_buffer.
Definition qdevice_ipc_io_write : nat → M loop_state unit := ipc_io_write.
End commands.
