(* ===== verification/LocalIpcFacts.v ===== *)
(** The local sockets on the poll loop: a client is looked at only while it exists, every client
    has one registration in the loop and every registration its client, a client either sends its
    line or receives the reply, and there are never more clients than allowed. *)
From stdpp Require Import strings.
From S2P Require Import Prelude Dynar DynarStr Lex Tlv Heuristics PrPollArray PrPollLoop PrPollLoopFacts UnixSocket LocalIpc.
From stdpp Require Import list gmap.
From S2P Require Import TimerList TimerListFacts.
Local Open Scope Z_scope.

(** ** Words of a line *)

Definition lex_ok (lex : dynar_simple_lex) : Prop :=
  Dynar.wf (lex_token lex) ∧ (lex_pos lex ≤ length (contents (lex_input lex)))%nat.
Definition remaining (lex : dynar_simple_lex) : nat := (length (contents (lex_input lex)) - lex_pos lex)%nat.

Lemma lex_ref_shorter t l st token rest :
  lex_ref t st l = (token, rest) → token ≠ [] → (length rest < length l)%nat.
Proof.
  destruct l as [|ch l]; cbn [lex_ref]; [intros E; by injection E as <- <-|].
  cbv zeta. destruct (lex_round _ _ _) as [[[out move] st']|]; [|intros E; by injection E as <- <-].
  destruct (lex_ref t st' l) as [token' rest'] eqn:E. intros E' _. injection E' as _ <-.
  apply lex_ref_rest in E. apply suffix_length in E. cbn [length]. lia.
Qed.

Lemma next_token_ok lex h :
  lex_ok lex →
  match next_token (lex, h) with
  | (Ok (Some word), (lex', _)) =>
      lex_ok lex' ∧ lex_input lex' = lex_input lex ∧ Z.of_nat (length word) < 2 ^ 62 ∧
      (remaining lex' ≤ remaining lex)%nat ∧ (word ≠ [] → (remaining lex' < remaining lex)%nat)
  | (Ok None, _) => True
  | (Err _, _) => False
  end.
Proof.
  intros [Hw Hp]. pose proof (token_next_ref lex h Hw Hp) as Ht. cbv zeta in Ht.
  destruct (lex_ref _ _ _) as [token rest] eqn:E. unfold next_token, mbind, M_bind.
  destruct (dynar_simple_lex_token_next (lex, h)) as [[[tk|]|c] [lex' h']]; [|done..]. cbn.
  destruct Ht as (Hwt & Hc & -> & _ & _). pose proof (lex_ref_rest _ _ _ _ _ E) as Hr. apply suffix_length in Hr.
  rewrite length_drop in Hr. unfold lex_ok, remaining. cbn [lex_token lex_input lex_pos].
  assert (Hst : token_str tk = token) by (unfold token_str; rewrite Hc; apply removelast_last).
  rewrite Hst. pose proof (until_nul_length token) as Hu.
  pose proof (length_contents tk Hwt) as Hl. rewrite Hc, length_app in Hl. cbn [length] in Hl.
  destruct Hwt as [? ? ? ?]. split; [split; [done|lia]|]. split; [done|]. split; [lia|]. split; [lia|].
  intros Hne. assert (Hnt : token ≠ []) by (by intros ->).
  pose proof (lex_ref_shorter _ _ _ _ _ E Hnt) as Hs. rewrite length_drop in Hs. lia.
Qed.

(** ** Lists of clients *)

Section clients.
Context {U : Type}.
Implicit Types l : list (nat * unix_socket_client U).

Lemma find_client_update p c p' l :
  find_client p' (update_client_at p c l) =
  if decide (p = p') then (λ _, c) <$> find_client p' l else find_client p' l.
Proof.
  induction l as [|[q d] l IH]; cbn; [by case_decide|].
  destruct (bool_decide_reflect (q = p)) as [->|]; cbn; destruct (bool_decide_reflect (p = p')) as [->|];
    repeat case_decide; repeat case_bool_decide; simplify_eq; try done.
Qed.

Lemma find_client_remove p p' l :
  find_client p' (remove_client p l) = if decide (p = p') then None else find_client p' l.
Proof.
  unfold remove_client. induction l as [|[q d] l IH]; [by case_decide|]. rewrite filter_cons. cbn [fst].
  destruct (decide (q ≠ p)) as [Hq|Hq]; cbn [find_client]; rewrite IH.
  - repeat case_decide; repeat case_bool_decide; simplify_eq; done.
  - apply dec_stable in Hq as ->. repeat case_decide; repeat case_bool_decide; simplify_eq; done.
Qed.

Lemma find_client_app p l1 l2 :
  find_client p (l1 ++ l2) = match find_client p l1 with Some c => Some c | None => find_client p l2 end.
Proof. induction l1 as [|[q d] l1 IH]; [done|]. cbn. by case_bool_decide. Qed.

Lemma no_clients_length l : unix_socket_client_list_no_clients l = Z.of_nat (length l).
Proof.
  unfold unix_socket_client_list_no_clients.
  assert (E : ∀ z, foldl (λ r (_ : nat * unix_socket_client U), r + 1) z l = z + Z.of_nat (length l)); [|by rewrite E].
  induction l as [|x l IH]; intros z; cbn [foldl length]; [lia|]. rewrite IH. lia.
Qed.

Lemma length_update p c l : length (update_client_at p c l) = length l.
Proof. apply length_fmap. Qed.
Lemma length_remove p l : (length (remove_client p l) ≤ length l)%nat.
Proof. apply length_filter. Qed.
End clients.

(** [recv] gives no more than was asked for. *)
Class UnixSystemLaws (W : Type) `{UnixSystem W} := {
  us_recv_length s n w : Z.of_nat (length (snd (fst (us_recv s n w)))) ≤ Z.max 0 n
}.

Section facts.
Context {W : Type} `{UnixSystemLaws W} `{IpcNspr W}.

Abbreviation ipc := (unix_socket_ipc ipc_user_data).
Abbreviation client := (unix_socket_client ipc_user_data).
Abbreviation ipc_world := (ipc * W)%type.
Abbreviation state := (@PrPollLoop.state ipc_callback unit ipc_world (option nat)).
Abbreviation loop := (@pr_poll_loop ipc_callback (option nat)).

Definition ipc_of (s : state) : ipc := fst (snd (snd s)).
Definition timers_of (s : state) : @timer_list unit := fst (fst s).
Definition client_in (p : nat) (s : state) : option client := find_client p (ipc_clients (ipc_of s)).

(** ** What a computation establishes; it may end the process. *)

Definition wp {A} (m : M state A) (s : state) (Q : A → state → Prop) : Prop :=
  match m s with (Ok r, s') => Q r s' | (Err c, _) => c = EXIT end.

Lemma ipc_wp_bind {A B} (m : M state A) (f : A → M state B) s Q :
  wp m s (λ r s', wp (f r) s' Q) → wp (m ≫= f) s Q.
Proof. unfold wp, mbind, M_bind. by destruct (m s) as [[r|c] s']. Qed.

Lemma ipc_wp_mono {A} (m : M state A) s (Q1 Q2 : A → state → Prop) :
  wp m s Q1 → (∀ r s', Q1 r s' → Q2 r s') → wp m s Q2.
Proof. unfold wp. destruct (m s) as [[r|c] s']; auto. Qed.

Lemma ipc_wp_ret {A} (r : A) (s : state) (Q : A → state → Prop) : Q r s → wp (mret r) s Q.
Proof. done. Qed.

(** What a listening socket was set up with. *)
Definition limits_of (i : ipc) : Z * Z * Z := (ipc_max_clients i, ipc_max_receive_size i, ipc_max_send_size i).

(** Only the client [p] changed: it is [c] now.  The listening socket may have been closed. *)
Record touched (p : nat) (c : client) (s s' : state) : Prop := {
  to_timers : timers_of s' = timers_of s;
  to_loop : loop_of s' = loop_of s;
  to_client : client_in p s' = Some c;
  to_others : ∀ p', p ≠ p' → client_in p' s' = client_in p' s;
  to_length : length (ipc_clients (ipc_of s')) = length (ipc_clients (ipc_of s));
  to_next : next_client (ipc_of s') = next_client (ipc_of s);
  to_limits : limits_of (ipc_of s') = limits_of (ipc_of s)
}.

Lemma touched_refl p c s : client_in p s = Some c → touched p c s s.
Proof. by split. Qed.

Lemma touched_trans p c1 c2 s1 s2 s3 : touched p c1 s1 s2 → touched p c2 s2 s3 → touched p c2 s1 s3.
Proof.
  intros [E1 E2 E3 E4 E5 E6 E7] [F1 F2 F3 F4 F5 F6 F7]. split; try congruence. intros p' Hp. by rewrite F4, E4.
Qed.

(** An operation of one client. *)
Lemma wp_on_client {A} p c (m : M (client * heap * W) A) (s : state) (Q : A → state → Prop) :
  client_in p s = Some c →
  match m (c, snd (fst s), snd (snd (snd s))) with
  | (Ok r, (c', _, _)) => ∀ s', touched p c' s s' → Q r s'
  | (Err e, _) => e = EXIT
  end →
  wp (on_ipc (on_client p m)) s Q.
Proof.
  destruct s as [[tl h] [l [i w]]]. unfold client_in, ipc_of, wp, on_ipc, on_client. cbn [fst snd]. intros Hc Hm.
  rewrite Hc. destruct (m (c, h, w)) as [[r|e] [[c' h'] w']]; [|done]. apply Hm. split; try done.
  - unfold client_in. cbn. rewrite find_client_update, decide_True by done. by rewrite Hc.
  - intros p' Hp. unfold client_in. cbn. by rewrite find_client_update, decide_False.
  - cbn. apply length_update.
Qed.

Lemma wp_modify_client p c f (s : state) (Q : unit → state → Prop) :
  client_in p s = Some c → (∀ s', touched p (f c) s s' → Q tt s') → wp (on_ipc (modify_client p f)) s Q.
Proof. intros Hc HQ. by apply (wp_on_client p c). Qed.

Lemma wp_client_at p c (s : state) (Q : client → state → Prop) :
  client_in p s = Some c → Q c s → wp (on_ipc (client_at p)) s Q.
Proof.
  destruct s as [[tl h] [l [i w]]]. unfold client_in, ipc_of, wp, on_ipc, client_at, mbind, M_bind, get_ipc.
  cbn. intros Hc. by rewrite Hc.
Qed.

(** ** Output *)

(** A computation that leaves an array in order; [EXIT] is possible as well. *)
Definition keeps_wf {A} (m : M (dynar * heap) A) : Prop :=
  ∀ d h, Dynar.wf d →
    match m (d, h) with
    | (Ok _, (d', _)) => Dynar.wf d'
    | (Err c, (d', _)) => c = -1 ∧ Dynar.wf d' ∨ c = EXIT
    end.

Lemma keeps_wf_ret {A} (r : A) : keeps_wf (mret r).
Proof. by intros d h Hd. Qed.
Lemma keeps_wf_fail {A} : keeps_wf (fail (A:=A) (-1)).
Proof. intros d h Hd. by left. Qed.
Lemma keeps_wf_bind {A B} (m : M (dynar * heap) A) (f : A → M (dynar * heap) B) :
  keeps_wf m → (∀ r, keeps_wf (f r)) → keeps_wf (m ≫= f).
Proof.
  intros Hm Hf d h Hd. unfold mbind, M_bind. specialize (Hm d h Hd).
  destruct (m (d, h)) as [[r|c] [d' h']]; [by apply Hf|done].
Qed.
Lemma keeps_wf_if {A} (b : bool) (m1 m2 : M (dynar * heap) A) : 
  keeps_wf m1 → keeps_wf m2 → keeps_wf (if b then m1 else m2).
Proof. by destruct b. Qed.
Lemma keeps_wf_appends m bs : appends m bs → keeps_wf m.
Proof.
  intros Hm d h Hd. specialize (Hm d h Hd). destruct (m (d, h)) as [[r|c] [d' h']]; [apply Hm|].
  left. split; apply Hm.
Qed.

Lemma catf_keeps text : Z.of_nat (length text) + 1 < 2 ^ 63 → keeps_wf (dynar_str_catf text).
Proof.
  intros Ht d h Hd. pose proof (dynar_str_catf_spec text d h Hd Ht) as Hs.
  destruct (dynar_str_catf text (d, h)) as [[r|c] [d' h']]; [apply Hs|]. left. destruct Hs as (-> & [] & _). done.
Qed.

Lemma cpy_keeps s : Z.of_nat (length s) < 2 ^ 63 → keeps_wf (dynar_str_cpy s).
Proof.
  intros Hs d h Hd. pose proof (dynar_str_cpy_spec s d h Hd Hs) as Hc.
  destruct (dynar_str_cpy s (d, h)) as [[r|c] [d' h']]; [apply Hc|]. left. split; apply Hc.
Qed.

Lemma prepend_keeps s : Z.of_nat (length s) < 2 ^ 63 → keeps_wf (dynar_str_prepend s).
Proof.
  intros Hs d h Hd. unfold dynar_str_prepend. pose proof (dynar_prepend_correct s d h Hd Hs) as Hc.
  destruct (dynar_prepend s (d, h)) as [[r|c] [d' h']]; [apply Hc|]. left. split; apply Hc.
Qed.

(** Bounds on the text that is added. *)
Definition len_le (s : c_string) (k : Z) : Prop := Z.of_nat (length s) ≤ k.

Lemma len_app s1 s2 k1 k2 : len_le s1 k1 → len_le s2 k2 → len_le (s1 ++ s2) (k1 + k2).
Proof. unfold len_le. rewrite length_app. lia. Qed.
Lemma len_if (b : bool) s1 s2 k : len_le s1 k → len_le s2 k → len_le (if b then s1 else s2) k.
Proof. by destruct b. Qed.
Lemma len_str_if (b : bool) s1 s2 k : len_le (str s1) k → len_le (str s2) k → len_le (str (if b then s1 else s2)) k.
Proof. by destruct b. Qed.
Lemma len_mono s k1 k2 : len_le s k1 → k1 ≤ k2 → len_le s k2.
Proof. unfold len_le. lia. Qed.
Lemma len_digits fuel z : len_le (fmt_digits fuel z) (Z.of_nat fuel).
Proof.
  revert z. induction fuel as [|fuel IH]; intros z; [done|]. cbn [fmt_digits].
  eapply len_mono; [apply len_app; [apply (len_if _ _ _ (Z.of_nat fuel)); [unfold len_le; cbn; lia|apply IH]|apply (Z.le_refl 1)]|lia].
Qed.
Lemma len_u32 z : len_le (fmt_u32 z) 100.
Proof. eapply len_mono; [apply len_digits|done]. Qed.
Lemma len_u64 z : len_le (fmt_u64 z) 100.
Proof. eapply len_mono; [apply len_digits|done]. Qed.
Lemma len_hex z : len_le (fmt_hex z) 100.
Proof.
  assert (Hd : ∀ fuel z', len_le (fmt_hex_digits fuel z') (Z.of_nat fuel)); [|eapply len_mono; [apply Hd|done]].
  induction fuel as [|fuel IH]; intros z'; [done|]. cbn [fmt_hex_digits].
  eapply len_mono; [apply len_app; [apply (len_if _ _ _ (Z.of_nat fuel)); [unfold len_le; cbn; lia|apply IH]|apply (Z.le_refl 1)]|lia].
Qed.

Lemma keeps_catf text k : len_le text k → k + 1 < 2 ^ 63 → keeps_wf (catf text).
Proof.
  unfold len_le. intros Ht Hk. unfold catf. apply keeps_wf_bind; [apply catf_keeps; lia|]. intros _. apply keeps_wf_ret.
Qed.
Lemma keeps_catf_if b text : (b = true → keeps_wf (catf text)) → keeps_wf (catf_if b text).
Proof. unfold catf_if. destruct b; [by auto|intros _; apply keeps_wf_ret]. Qed.
Lemma keeps_when b m : (b = true → keeps_wf m) → keeps_wf (when b m).
Proof. unfold when. destruct b; [by auto|intros _; apply keeps_wf_ret]. Qed.

(** What the array holds afterwards. *)
Definition writes {A} (m : M (dynar * heap) A) (P : c_string → Prop) : Prop :=
  ∀ d h, Dynar.wf d → match m (d, h) with (Ok _, (d', _)) => P (contents d') | (Err _, _) => True end.

Lemma writes_any {A} (m : M (dynar * heap) A) : writes m (λ _, True).
Proof. intros d h _. by destruct (m (d, h)) as [[] []]. Qed.

(** ** Replies *)

(** The first line tells how it went. *)
Definition reply_text (bs : c_string) : Prop :=
  (str "OK" ++ [x0a]) `prefix_of` bs ∨ (str "Error" ++ [x0a]) `prefix_of` bs.

Definition buffers_ok (c : client) : Prop :=
  Dynar.wf (uc_receive_buffer c) ∧ Dynar.wf (uc_send_buffer c) ∧ is_Some (user_data c).

(** The reply to the client [c] is under way, or the client is given up. *)
Definition replied (c c' : client) : Prop :=
  buffers_ok c' ∧ uc_socket c' = uc_socket c ∧
  (uc_schedule_disconnect c' = true ∨
   reading_line c' = reading_line c ∧ writing_buffer c' = true ∧ reply_text (contents (uc_send_buffer c'))).

(** Only the output of the client changed, and its data. *)
Definition same_input (c c' : client) : Prop :=
  buffers_ok c' ∧ uc_socket c' = uc_socket c ∧ reading_line c' = reading_line c ∧
  writing_buffer c' = writing_buffer c.

Definition touches {A} (p : nat) (c : client) (R : A → client → client → Prop) (m : M state A) : Prop :=
  ∀ s, client_in p s = Some c → wp m s (λ r s', ∃ c', touched p c' s s' ∧ R r c c').

Lemma on_send_buffer_ok {A} p c (m : M (dynar * heap) A) P :
  keeps_wf m → writes m P → buffers_ok c →
  touches p c (λ ok c c', same_input c c' ∧ (ok = true → P (contents (uc_send_buffer c')))) (on_send_buffer p m).
Proof.
  intros Hm HP (Hr & Hs & Hu) s Hc. apply (wp_on_client p c); [done|]. cbn.
  specialize (Hm (uc_send_buffer c) (snd (fst s)) Hs). specialize (HP (uc_send_buffer c) (snd (fst s)) Hs).
  destruct (m (uc_send_buffer c, _)) as [[r|e] [d h]].
  - intros s' Ht. eexists. split; [exact Ht|]. done.
  - destruct Hm as [[-> Hd]| ->]; [|done]. cbn. intros s' Ht. eexists. split; [exact Ht|]. done.
Qed.

Lemma touches_bind {A B} p c R1 R2 (m : M state A) (f : A → M state B) :
  touches p c R1 m →
  (∀ r c1 s1, R1 r c c1 → client_in p s1 = Some c1 → wp (f r) s1 (λ r2 s2, ∃ c2, touched p c2 s1 s2 ∧ R2 r2 c c2)) →
  touches p c R2 (m ≫= f).
Proof.
  intros Hm Hf s Hc. apply ipc_wp_bind. eapply ipc_wp_mono; [by apply Hm|]. intros r s1 (c1 & Ht & HR).
  eapply ipc_wp_mono; [apply (Hf r c1 s1 HR), Ht|]. intros r2 s2 (c2 & Ht2 & HR2).
  exists c2. split; [by eapply touched_trans|done].
Qed.

Lemma start_writing_ok p c1 (s1 : state) Q :
  client_in p s1 = Some c1 →
  (∀ s2, touched p (unix_socket_client_write_buffer true c1) s1 s2 → Q 0 s2) →
  wp (on_ipc (modify_client p (unix_socket_client_write_buffer true));; mret 0) s1 Q.
Proof. intros Hc HQ. apply ipc_wp_bind. apply (wp_modify_client p c1); [done|]. intros s2 Ht. by apply HQ. Qed.

Definition reply_result (r : Z) (c c' : client) : Prop :=
  if r =? 0 then replied c c' else same_input c c'.

Lemma replied_writing c c1 :
  same_input c c1 → reply_text (contents (uc_send_buffer c1)) → replied c (unix_socket_client_write_buffer true c1).
Proof. intros (Hb & Hs & Hr & Hw) Ht. split; [done|]. split; [done|]. by right. Qed.

Lemma error_text_keeps error : Z.of_nat (length error) + 1 < 2 ^ 63 → keeps_wf (error_text error).
Proof.
  intros He. unfold error_text. apply keeps_wf_bind; [by apply cpy_keeps|]. intros _.
  apply keeps_wf_bind; [by apply catf_keeps|]. intros n.
  apply keeps_wf_if; [by eapply keeps_wf_appends, dynar_str_cat_appends|apply keeps_wf_fail].
Qed.

Lemma error_text_writes error :
  Z.of_nat (length error) + 1 < 2 ^ 63 → writes (error_text error) (λ bs, bs = str "Error" ++ [x0a] ++ error ++ [x0a]).
Proof.
  intros He d h Hd. unfold error_text.
  pose proof (dynar_str_cpy_spec (str "Error" ++ [x0a]) d h Hd ltac:(done)) as Hcp.
  unfold mbind at 1, M_bind at 1. destruct (dynar_str_cpy _ _) as [[[]|] [d1 h1]]; [|done]. destruct Hcp as (Hd1 & E1 & _).
  pose proof (dynar_str_catf_spec error d1 h1 Hd1 He) as Hca. unfold dynar_str_catf in Hca.
  unfold mbind at 1, M_bind at 1. destruct (dynar_str_vcatf _ _) as [[n|] [d2 h2]]; [|done]. destruct Hca as (Hd2 & E2 & _).
  destruct (0 <? n); [|done]. pose proof (dynar_str_cat_appends [x0a] ltac:(done) d2 h2 Hd2) as Hnl.
  destruct (dynar_str_cat _ _) as [[[]|] [d3 h3]]; [|done]. destruct Hnl as (_ & -> & _). by rewrite E2, E1, <-!app_assoc.
Qed.

Lemma prepend_writes s : Z.of_nat (length s) < 2 ^ 63 → writes (dynar_str_prepend s) (λ bs, s `prefix_of` bs).
Proof.
  intros Hs d h Hd. unfold dynar_str_prepend. pose proof (dynar_prepend_correct s d h Hd Hs) as Hc.
  destruct (dynar_prepend s (d, h)) as [[r|c] [d' h']]; [|done]. destruct Hc as (_ & -> & _). by eexists.
Qed.

Lemma send_error_ok p c error :
  buffers_ok c → Z.of_nat (length error) + 1 < 2 ^ 63 → touches p c reply_result (ipc_send_error p error).
Proof.
  intros Hb He. unfold ipc_send_error.
  eapply touches_bind; [by apply on_send_buffer_ok; [apply error_text_keeps|apply error_text_writes|]|].
  intros ok c1 s1 [Hi Ht1] Hc1. destruct ok.
  - apply (start_writing_ok p c1 s1); [done|]. intros s2 Ht. eexists. split; [exact Ht|].
    apply replied_writing; [done|]. rewrite Ht1 by done. right. by eexists.
  - apply ipc_wp_ret. exists c1. split; [by apply touched_refl|done].
Qed.

Lemma same_input_trans c c1 c2 : same_input c c1 → same_input c1 c2 → same_input c c2.
Proof. intros (_ & ? & ? & ?) (? & ? & ? & ?). split_and!; [done|congruence..]. Qed.

Lemma reply_result_trans r c c1 c2 : same_input c c1 → reply_result r c1 c2 → reply_result r c c2.
Proof.
  unfold reply_result, replied. intros Hi. pose proof Hi as (_ & ? & ? & ?).
  destruct (r =? 0); [|by apply same_input_trans]. intros (? & ? & Hor). split; [done|]. split; [congruence|].
  destruct Hor as [?|(? & ? & ?)]; [by left|right]. split_and!; congruence.
Qed.

Lemma send_buffer_ok p c : buffers_ok c → touches p c reply_result (ipc_send_buffer p).
Proof.
  intros Hb. unfold ipc_send_buffer.
  eapply touches_bind; [by apply on_send_buffer_ok; [apply prepend_keeps|apply prepend_writes|]|].
  intros ok c1 s1 [Hi Ht1] Hc1. destruct ok; cbn [negb].
  - apply (start_writing_ok p c1 s1); [done|]. intros s2 Ht. eexists. split; [exact Ht|].
    apply replied_writing; [done|]. left. by apply Ht1.
  - apply ipc_wp_bind. eapply ipc_wp_mono; [apply (send_error_ok p c1); [apply Hi|done|done]|].
    intros r s2 (c2 & Ht & Hr). apply ipc_wp_ret. exists c2. split; [done|].
    apply (reply_result_trans _ c c1 c2 Hi). unfold reply_result in *. by destruct (r =? 0).
Qed.

Lemma set_disconnect_ok p c (s : state) Q :
  client_in p s = Some c → (∀ s', touched p (set_uc_schedule_disconnect true c) s s' → Q tt s') →
  wp (set_disconnect p) s Q.
Proof. intros Hc HQ. by apply (wp_modify_client p c). Qed.

Lemma or_disconnect_ok p c m : touches p c reply_result m → touches p c (λ _, replied) (or_disconnect p m).
Proof.
  intros Hm. unfold or_disconnect. eapply touches_bind; [exact Hm|]. intros r c1 s1 Hr Hc1.
  unfold reply_result in Hr. destruct (r =? 0); cbn [negb].
  - apply ipc_wp_ret. exists c1. split; [by apply touched_refl|done].
  - apply (set_disconnect_ok p c1); [done|]. intros s2 Ht. eexists. split; [exact Ht|].
    destruct Hr as (? & ? & _). split; [done|]. split; [done|]. by left.
Qed.

Lemma answer_command_ok p c m error :
  keeps_wf m → buffers_ok c → Z.of_nat (length error) + 1 < 2 ^ 63 →
  touches p c (λ _, replied) (answer_command p m error).
Proof.
  intros Hm Hb He. unfold answer_command.
  eapply touches_bind; [by apply on_send_buffer_ok; [|apply writes_any|]|].
  intros ok c1 s1 [Hi _] Hc1. eapply ipc_wp_mono.
  - apply (or_disconnect_ok p c1); [|done]. destruct ok; [apply send_buffer_ok, Hi|apply send_error_ok; [apply Hi|done]].
  - intros _ s2 (c2 & Ht & Hr). exists c2. split; [done|]. apply (reply_result_trans 0 c c1 c2 Hi Hr).
Qed.

Lemma request_shutdown_ok p c : buffers_ok c → touches p c (λ _, same_input) (request_shutdown p).
Proof.
  intros (Hr & Hs & Hu) s Hc. apply (wp_modify_client p c); [done|]. intros s' Ht. eexists. split; [exact Ht|].
  by split_and!.
Qed.

Lemma shutdown_ok p c :
  buffers_ok c → touches p c (λ _, replied) (request_shutdown p;; or_disconnect p (ipc_send_buffer p)).
Proof.
  intros Hb. eapply touches_bind; [by apply request_shutdown_ok|]. intros u c1 s1 Hi Hc1.
  eapply ipc_wp_mono; [apply (or_disconnect_ok p c1); [apply send_buffer_ok, Hi|done]|].
  intros _ s2 (c2 & T2 & Hr). exists c2. split; [done|]. by apply (reply_result_trans 0 c c1).
Qed.

(** The lexer looks at the line; the client stays as it is. *)
Lemma with_line_ok {A} p c type (m : M (dynar_simple_lex * heap) A) (P : A → Prop) :
  (∀ h, match m (dynar_simple_lex_init (uc_receive_buffer c) type, h) with
        | (Ok r, _) => P r
        | (Err e, _) => e = EXIT
        end) →
  touches p c (λ r c c', c' = c ∧ P r) (with_line p type m).
Proof.
  intros Hm s Hc. apply (wp_on_client p c); [done|]. specialize (Hm (snd (fst s))).
  destruct (m _) as [[r|e] [lex h]]; [|done]. intros s' Ht. by exists c.
Qed.

(** ** The invariant *)

Definition client_entry (fd prfd : Z) (p : nat) : @pr_poll_loop_fd_entry ipc_callback (option nat) :=
  mk_fd_entry fd prfd 0 (Some ipc_client_socket_poll_loop_set_events_cb) None
    (Some ipc_client_socket_poll_loop_read_cb) None (Some ipc_client_socket_poll_loop_write_cb) None
    (Some ipc_client_socket_poll_loop_err_cb) None None (Some p).
Definition listening_entry (fd prfd : Z) : @pr_poll_loop_fd_entry ipc_callback (option nat) :=
  mk_fd_entry fd prfd POLLIN (Some ipc_socket_poll_loop_set_events_cb) None
    (Some ipc_socket_poll_loop_read_cb) None None None (Some ipc_socket_poll_loop_err_cb) None None None.

(** A client that is not given up either sends its line or receives the reply, which tells in its
    first line how it went. *)
Record client_ok (c : client) : Prop := {
  co_buffers : buffers_ok c;
  co_socket : uc_socket c ≠ -1;
  co_phase : uc_schedule_disconnect c = false → xorb (reading_line c) (writing_buffer c) = true;
  co_reply : uc_schedule_disconnect c = false → writing_buffer c = true → reply_text (contents (uc_send_buffer c))
}.

(** The clients are given by what their pointers point to. *)
Record ipc_ok (l : loop) (f : nat → option client) (next : nat) : Prop := {
  io_registered : registered l;
  io_no_pre : pre_poll_cb_store l = ∅;
  io_listed : ∀ q e, fd_store l !! q = Some e → q ∈ fd_list l;
  io_fds : ∀ q1 q2 e1 e2, fd_store l !! q1 = Some e1 → fd_store l !! q2 = Some e2 → fd e1 = fd e2 → q1 = q2;
  io_entries : ∀ q e, fd_store l !! q = Some e →
    (∃ s prfd, e = listening_entry s prfd) ∨ (∃ p c prfd, f p = Some c ∧ e = client_entry (uc_socket c) prfd p);
  io_clients : ∀ p c, f p = Some c → client_ok c ∧ (p < next)%nat ∧
    ∃ q prfd, fd_store l !! q = Some (client_entry (uc_socket c) prfd p)
}.

(** There are not more clients than allowed; a buffer of the size allowed fits into memory. *)
Definition within_limits (n : nat) (limits : Z * Z * Z) : Prop :=
  let '(max_clients, max_receive_size, max_send_size) := limits in
  (max_clients ≠ 0 → Z.of_nat n ≤ max_clients) ∧ 0 ≤ max_receive_size < 2 ^ 62 ∧ 0 ≤ max_send_size < 2 ^ 62.

Definition bounded (i : ipc) : Prop := within_limits (length (ipc_clients i)) (limits_of i).

Record state_ok (s : state) : Prop := {
  so_ipc : ipc_ok (loop_of s) (λ p, client_in p s) (next_client (ipc_of s));
  so_bounded : bounded (ipc_of s);
  so_timers : ∃ clock, timers_of s = timer_list_init clock
}.

Lemma ipc_ok_clients l f g next :
  ipc_ok l f next →
  (∀ p, match f p, g p with
        | Some c, Some c' => uc_socket c' = uc_socket c ∧ client_ok c'
        | None, None => True
        | _, _ => False
        end) →
  ipc_ok l g next.
Proof.
  intros [Hr Hpre Hl Hf He Hc] Hfg. split; try done.
  - intros q e Hq. destruct (He q e Hq) as [?|(p & c & prfd & Hp & ->)]; [by left|right].
    specialize (Hfg p). rewrite Hp in Hfg. destruct (g p) as [c'|] eqn:Eg; [|done].
    exists p, c', prfd. destruct Hfg as [-> _]. done.
  - intros p c' Hp. specialize (Hfg p). rewrite Hp in Hfg. destruct (f p) as [c|] eqn:Ef; [|done].
    destruct Hfg as [-> Hok]. split; [done|]. by apply Hc.
Qed.

(** An operation of a client keeps the invariant when it leaves the client in order. *)
Lemma state_ok_touched p c c' s s' :
  state_ok s → client_in p s = Some c → touched p c' s s' → uc_socket c' = uc_socket c → client_ok c' →
  state_ok s'.
Proof.
  intros [Hi Hb Ht] Hc [E1 E2 E3 E4 E5 E6 E7] Hs Hok. split.
  - rewrite E2, E6. eapply ipc_ok_clients; [exact Hi|]. intros p'. cbn. destruct (decide (p = p')) as [<-|Hne].
    + by rewrite Hc, E3.
    + rewrite (E4 p' Hne). destruct (client_in p' s) as [d|] eqn:Ed; [|done]. split; [done|].
      by apply (io_clients _ _ _ Hi p').
  - unfold bounded. by rewrite E5, E7.
  - by rewrite E1.
Qed.

(** ** Registering and unregistering *)

Lemma add_fd_frame fd ev c1 c2 c3 c4 u1 u2 (s : state) :
  registered (loop_of s) → fd ≠ -1 →
  match pr_poll_loop_add_fd (H:=registration_world) fd ev c1 c2 c3 c4 u1 u2 s with
  | (Ok _, s') => timers_of s' = timers_of s ∧ ipc_of s' = ipc_of s ∧
      poll_array (loop_of s') = poll_array (loop_of s) ∧
      pre_poll_cb_store (loop_of s') = pre_poll_cb_store (loop_of s)
  | (Err _, _) => True
  end.
Proof.
  intros [Ho _] Hfd. unfold pr_poll_loop_add_fd, pr_poll_loop_add_fd_int.
  assert (Hone : one_descriptor fd 0 = true).
  { unfold one_descriptor. destruct (Z.eqb_spec fd (-1)); [done|]. by rewrite orb_true_r. }
  rewrite Hone. cbn [negb]. destruct (invalid_events ev); [done|].
  rewrite (bind_ok _ _ _ _ _ (find_by_fd_ok fd 0 s Ho Hone)).
  destruct (first_keyed fd 0 (loop_of s)); [done|]. destruct s as [[tl h] [l [i w]]].
  unfold new_pointer, entry_prfd, mbind, M_bind, modify_loop. cbn.
  destruct (malloc h) as [[j|] h1]; [|done]. cbn. destruct (fd =? -1); cbn.
  - done.
  - destruct (ipc_PR_CreateSocketPollFd fd w) as [d w']. cbn. by destruct (d =? 0).
Qed.

Lemma del_fd_frame fd (s : state) :
  registered (loop_of s) → fd ≠ -1 →
  match pr_poll_loop_del_fd (H:=registration_world) fd s with
  | (Ok _, s') => timers_of s' = timers_of s ∧ ipc_of s' = ipc_of s ∧
      poll_array (loop_of s') = poll_array (loop_of s) ∧
      pre_poll_cb_store (loop_of s') = pre_poll_cb_store (loop_of s)
  | (Err _, _) => True
  end.
Proof.
  intros [Ho _] Hfd. unfold pr_poll_loop_del_fd, pr_poll_loop_del_fd_int.
  assert (Hone : one_descriptor fd 0 = true).
  { unfold one_descriptor. destruct (Z.eqb_spec fd (-1)); [done|]. by rewrite orb_true_r. }
  rewrite (bind_ok _ _ _ _ _ (find_by_fd_ok fd 0 s Ho Hone)).
  destruct (first_keyed fd 0 (loop_of s)) as [q|]; [|done].
  destruct (fd_store (loop_of s) !! q) as [e|] eqn:He.
  2: { unfold deref_fd_entry, mbind, M_bind. cbn. by rewrite He. }
  rewrite (bind_ok _ _ _ _ _ (deref_fd_entry_ok s q e He)). destruct s as [[tl h] [l [i w]]].
  unfold mbind, M_bind, remove_fd_entry, modify_loop. by destruct (negb _).
Qed.

Lemma first_keyed_none fd l : loop_ok l → first_keyed fd 0 l = None → fd ≠ -1 →
  ∀ q (e : @pr_poll_loop_fd_entry ipc_callback (option nat)), q ∈ fd_list l → fd_store l !! q = Some e →
  PrPollLoop.fd e ≠ fd.
Proof.
  intros Hok Hn Hfd q e Hq He Ef. unfold first_keyed in Hn. apply fmap_None in Hn.
  apply list_find_None in Hn. rewrite Forall_forall in Hn. apply (Hn q Hq). rewrite He. cbn.
  unfold keyed. destruct (Z.eqb_spec fd (-1)); [done|]. cbn. by apply Z.eqb_eq.
Qed.

Lemma first_keyed_entry fd (l : loop) f next q e :
  ipc_ok l f next → fd ≠ -1 → fd_store l !! q = Some e → PrPollLoop.fd e = fd → first_keyed fd 0 l = Some q.
Proof.
  intros Hi Hfd He Ef. pose proof (io_listed _ _ _ Hi q e He) as Hq. unfold first_keyed.
  destruct (list_find _ (fd_list l)) as [[i q']|] eqn:El.
  - apply list_find_Some in El as (Hi' & Hk & _). cbn. f_equal.
    destruct (fd_store l !! q') as [e'|] eqn:He'; [|done]. cbn in Hk. unfold keyed in Hk.
    destruct (Z.eqb_spec fd (-1)); [done|]. cbn in Hk. apply Z.eqb_eq in Hk.
    apply (io_fds _ _ _ Hi q' q e' e He' He). congruence.
  - apply list_find_None in El. rewrite Forall_forall in El. destruct (El q Hq). rewrite He. cbn.
    unfold keyed. destruct (Z.eqb_spec fd (-1)); [done|]. cbn. by apply Z.eqb_eq.
Qed.

Lemma ipc_ok_add (l l' : loop) f g next next' p c prfd q :
  ipc_ok l f next → registered l' → pre_poll_cb_store l' = ∅ → first_keyed (uc_socket c) 0 l = None →
  q ∉ fd_list l → fd_list l' = fd_list l ++ [q] →
  fd_store l' = <[q := client_entry (uc_socket c) prfd p]> (fd_store l) →
  f p = None → g p = Some c → (∀ p', p ≠ p' → g p' = f p') → client_ok c → (p < next')%nat → (next ≤ next')%nat →
  ipc_ok l' g next'.
Proof.
  intros Hi Hr Hpre Hk Hq Hfl Hst Hf Hg Hother Hc Hp Hn. pose proof (co_socket _ Hc) as Hs.
  pose proof (first_keyed_none _ _ (rg_ok _ (io_registered _ _ _ Hi)) Hk Hs) as Hno.
  pose proof Hi as [Hr0 _ Hl Hfd He Hcl]. split; try done; rewrite ?Hst, ?Hfl.
  - intros q' e. rewrite lookup_insert_Some. intros [[<- _]|[_ Hq']]; apply elem_of_app; [right; left|left].
    by apply (Hl q' e).
  - intros q1 q2 e1 e2. rewrite !lookup_insert_Some. intros [[<- <-]|[? H1']] [[<- <-]|[? H2']] Efd; try done.
    + by destruct (Hno q2 e2 (Hl _ _ H2') H2').
    + by destruct (Hno q1 e1 (Hl _ _ H1') H1').
    + by apply (Hfd q1 q2 e1 e2).
  - intros q' e. rewrite lookup_insert_Some. intros [[<- <-]|[_ Hq']]; [right; by exists p, c, prfd|].
    destruct (He q' e Hq') as [?|(p' & c' & prfd' & Hp' & ->)]; [by left|right]. exists p', c', prfd'. split; [|done].
    rewrite Hother; [done|]. intros <-. congruence.
  - intros p' c' Hp'. destruct (decide (p = p')) as [<-|Hne].
    + rewrite Hg in Hp'. injection Hp' as <-. split; [done|]. split; [done|]. exists q, prfd. apply lookup_insert_eq.
    + rewrite Hother in Hp' by done. destruct (Hcl p' c' Hp') as (Hok & Hlt & q' & prfd' & Hq'). split; [done|].
      split; [lia|]. exists q', prfd'. rewrite lookup_insert_ne; [done|]. intros <-. by apply Hq, (Hl _ _ Hq').
Qed.

Lemma ipc_ok_remove (l l' : loop) f g next p c prfd q :
  ipc_ok l f next → registered l' → pre_poll_cb_store l' = ∅ →
  fd_store l !! q = Some (client_entry (uc_socket c) prfd p) →
  fd_list l' = filter (q ≠.) (fd_list l) → fd_store l' = delete q (fd_store l) →
  f p = Some c → g p = None → (∀ p', p ≠ p' → g p' = f p') → ipc_ok l' g next.
Proof.
  intros [Hr0 _ Hl Hfd He Hcl] Hr Hpre Hq Hfl Hst Hf Hg Hother. split; try done; rewrite ?Hst, ?Hfl.
  - intros q' e [Hne Hq']%lookup_delete_Some. apply list_elem_of_filter. split; [done|]. by apply (Hl q' e).
  - intros q1 q2 e1 e2 [_ H1']%lookup_delete_Some [_ H2']%lookup_delete_Some. by apply Hfd.
  - intros q' e [Hne Hq']%lookup_delete_Some.
    destruct (He q' e Hq') as [?|(p' & c' & prfd' & Hp' & ->)]; [by left|right]. exists p', c', prfd'.
    split; [|done]. rewrite Hother; [done|]. intros <-. rewrite Hf in Hp'. injection Hp' as <-.
    by apply Hne, (Hfd q q' _ _ Hq Hq').
  - intros p' c' Hp'. assert (Hne : p ≠ p') by congruence. rewrite Hother in Hp' by done.
    destruct (Hcl p' c' Hp') as (Hok & Hlt & q' & prfd' & Hq'). split; [done|]. split; [done|].
    exists q', prfd'. rewrite lookup_delete_ne; [done|]. intros <-. rewrite Hq in Hq'. by injection Hq'.
Qed.

(** ** Connections *)

Lemma limits_mono n m limits : within_limits n limits → (m ≤ n)%nat → within_limits m limits.
Proof.
  destruct limits as [[]]. intros (Hm & Hrest) Hle. split; [|done].
  intros Hz. specialize (Hm Hz). lia.
Qed.

(** The poll loop is left alone, but for entries that are added. *)
Definition grows (l l' : loop) : Prop :=
  poll_array l' = poll_array l ∧ ∀ q e, fd_store l !! q = Some e → fd_store l' !! q = Some e.

(** A client that was accepted and has no registration yet. *)
Record pending (p : nat) (c : client) (s : state) : Prop := {
  pe_ipc : ipc_ok (loop_of s) (λ p', if decide (p = p') then None else client_in p' s) (next_client (ipc_of s));
  pe_client : client_in p s = Some c;
  pe_next : (p < next_client (ipc_of s))%nat;
  pe_bounded : bounded (ipc_of s);
  pe_timers : ∃ clock, timers_of s = timer_list_init clock
}.

Lemma pending_touched p c c' s s' : pending p c s → touched p c' s s' → pending p c' s'.
Proof.
  intros [Hi Hc Hn Hb Ht] [E1 E2 E3 E4 E5 E6 E7]. split; [|done|by rewrite E6|by unfold bounded; rewrite E5, E7|by rewrite E1].
  rewrite E2, E6. eapply ipc_ok_clients; [exact Hi|]. intros p'. cbn. destruct (decide (p = p')) as [|Hne]; [done|].
  rewrite (E4 p' Hne). destruct (client_in p' s) as [d|] eqn:Ed; [|done]. split; [done|].
  apply (io_clients _ _ _ Hi p'). by rewrite decide_False.
Qed.

(** The client is gone, nothing else changed. *)
Record gone (p : nat) (s s' : state) : Prop := {
  gn_timers : timers_of s' = timers_of s;
  gn_loop : loop_of s' = loop_of s;
  gn_clients : ∀ p', client_in p' s' = if decide (p = p') then None else client_in p' s;
  gn_next : next_client (ipc_of s') = next_client (ipc_of s);
  gn_bounded : bounded (ipc_of s) → bounded (ipc_of s')
}.

Lemma wp_client_disconnect p c (s : state) (Q : unit → state → Prop) :
  client_in p s = Some c → (∀ s', gone p s s' → Q tt s') → wp (ipc_client_disconnect p) s Q.
Proof.
  destruct s as [[tl h] [l [i w]]]. unfold client_in, ipc_of. cbn. intros Hc HQ.
  unfold wp, ipc_client_disconnect, on_ipc, unix_socket_ipc_client_disconnect, unix_socket_client_list_del,
    client_at, mbind, M_bind, get_ipc, in_system, unix_socket_close, sys.
  rewrite Hc. cbn. destruct (us_close (uc_socket c) w) as [r w']. rewrite Hc. cbn. apply HQ. split; try done.
  - intros p'. unfold client_in. cbn. apply find_client_remove.
  - intros Hb. eapply limits_mono; [exact Hb|]. apply length_remove.
Qed.

Lemma pending_gone p c s s' : pending p c s → gone p s s' → state_ok s'.
Proof.
  intros [Hi Hc Hn Hb Ht] [E1 E2 E3 E4 E5]. split; [|by apply E5|by rewrite E1]. rewrite E2, E4.
  eapply ipc_ok_clients; [exact Hi|]. intros p'. cbn. rewrite E3.
  destruct (decide (p = p')) as [|Hne]; [done|]. destruct (client_in p' s) as [d|] eqn:Ed; [|done]. split; [done|].
  apply (io_clients _ _ _ Hi p'). by rewrite decide_False.
Qed.

(** The calls of the system always come back. *)
Definition total {A} (m : M W A) : Prop := ∀ w, ∃ r w', m w = (Ok r, w').

Lemma total_ret {A} (r : A) : total (mret r).
Proof. intros w. by exists r, w. Qed.
Lemma total_sys {A} (f : W → A * W) : total (sys f).
Proof. intros w. unfold sys. destruct (f w) as [r w']. by exists r, w'. Qed.
Lemma total_bind {A B} (m : M W A) (f : A → M W B) : total m → (∀ r, total (f r)) → total (m ≫= f).
Proof.
  intros Hm Hf w. destruct (Hm w) as (r & w1 & E). rewrite (bind_ok _ _ _ _ _ E). apply Hf.
Qed.
Lemma total_if {A} (b : bool) (m1 m2 : M W A) : total m1 → total m2 → total (if b then m1 else m2).
Proof. by destruct b. Qed.

Ltac total := repeat first
  [apply total_ret | apply total_sys | apply total_bind; [|intros ?] | apply total_if].

Lemma server_accept_total s non_blocking : total (unix_socket_server_accept s non_blocking).
Proof.
  unfold unix_socket_server_accept, set_non_blocking_if, utils_fd_set_non_blocking, close_and_fail. total.
Qed.

Lemma server_create_total path b umask gid non_blocking backlog :
  total (unix_socket_server_create path b umask gid non_blocking backlog).
Proof.
  unfold unix_socket_server_create, set_non_blocking_if, utils_fd_set_non_blocking, close_and_fail. total.
Qed.

Definition accepted (s : state) (r : Z * option nat) (s' : state) : Prop :=
  match snd r with
  | None => state_ok s'
  | Some p => ∃ c, pending p c s' ∧ reading_line c = false ∧ writing_buffer c = false ∧
      Dynar.wf (uc_receive_buffer c) ∧ Dynar.wf (uc_send_buffer c) ∧ uc_socket c ≠ -1 ∧ uc_schedule_disconnect c = false
  end ∧ loop_of s' = loop_of s.

Lemma ipc_ok_next l f next next' : ipc_ok l f next → (next ≤ next')%nat → ipc_ok l f next'.
Proof.
  intros [? ? ? ? ? Hc] Hn. split; try done. intros p c Hp. destruct (Hc p c Hp) as (? & ? & ?). split_and!; try done. lia.
Qed.

Lemma state_ok_same s s' :
  state_ok s → timers_of s' = timers_of s → loop_of s' = loop_of s → ipc_of s' = ipc_of s → state_ok s'.
Proof.
  intros [Hi Hb Ht] E1 E2 E3. split; [|by rewrite E3|by rewrite E1]. unfold client_in. rewrite E2, E3. exact Hi.
Qed.

Lemma wp_accept (s : state) : state_ok s → wp (on_ipc unix_socket_ipc_accept) s (accepted s).
Proof.
  intros Hs. destruct s as [[tl h] [l [i w]]].
  assert (Hnone : ∀ h' w', state_ok (tl, h', (l, (i, w')))) by (intros h' w'; by eapply state_ok_same).
  unfold wp, on_ipc, unix_socket_ipc_accept, mbind, M_bind, get_ipc, in_system, accepted.
  destruct (server_accept_total (ipc_socket i) true w) as (sock & w1 & ->).
  destruct (Z.ltb_spec sock 0) as [|Hsock]; [cbn; by split|].
  rewrite no_clients_length. destruct (negb (ipc_max_clients i =? 0) && _) eqn:Emax.
  { unfold unix_socket_close, sys. destruct (us_close sock w1) as [r w2]. cbn. by split. }
  unfold unix_socket_client_list_add. destruct (malloc h) as [[j|] h1].
  2: { unfold unix_socket_close, sys. destruct (us_close sock w1) as [r w2]. cbn. by split. }
  cbn. split; [|done]. destruct Hs as [Hi Hb Ht]. unfold ipc_of, client_in in Hi, Hb. cbn in Hi, Hb.
  pose proof Hb as (Hm & Hr & Hsend). set (p := next_client i).
  assert (Hfresh : find_client p (ipc_clients i) = None).
  { destruct (find_client p (ipc_clients i)) as [c|] eqn:Ec; [|done].
    destruct (io_clients _ _ _ Hi p c Ec) as (_ & Hlt & _). unfold p in Hlt. cbn in Hlt. lia. }
  set (c := unix_socket_client_init sock _ _ None). exists c. split.
  - split; [| |cbn; lia| |done].
    + eapply ipc_ok_next; [eapply ipc_ok_clients; [exact Hi|]|cbn; unfold p; lia]. intros p'. unfold client_in. cbn.
      destruct (decide (p = p')) as [<-|Hne]; [by rewrite Hfresh|]. rewrite find_client_app.
      destruct (find_client p' (ipc_clients i)) as [d|] eqn:Ed.
      * split; [done|]. by apply (io_clients _ _ _ Hi p').
      * cbn. by rewrite bool_decide_eq_false_2.
    + unfold client_in. cbn. rewrite find_client_app, Hfresh. cbn. by rewrite bool_decide_eq_true_2.
    + unfold bounded. cbn. split; [|done]. intros Hz. specialize (Hm Hz). rewrite length_app. cbn.
      apply andb_false_iff in Emax as [E|E]; [apply negb_false_iff, Z.eqb_eq in E; done|].
      apply Z.leb_gt in E. lia.
  - split; [done|]. split; [done|]. split; [by apply wf_init|]. split; [by apply wf_init|]. cbn. split; [lia|done].
Qed.

Lemma create_total f (iw : ipc_world) :
  ∃ d, fst (PR_CreateSocketPollFd (PollWorld:=registration_world) f iw) = Ok d.
Proof. destruct iw as [i w]. cbn. destruct (ipc_PR_CreateSocketPollFd f w) as [d w']. by exists d. Qed.
Lemma destroy_total d (iw : ipc_world) : fst (PR_DestroySocketPollFd (PollWorld:=registration_world) d iw) = Ok tt.
Proof. by destruct iw. Qed.

Lemma one_descriptor_fd fd' : fd' ≠ -1 → one_descriptor fd' 0 = true.
Proof. unfold one_descriptor. intros. destruct (Z.eqb_spec fd' (-1)); [done|]. by rewrite orb_true_r. Qed.

Lemma grows_refl l : grows l l.
Proof. by split. Qed.

(** A client without registration is registered, or the failure is seen. *)
Lemma register_client_ok p c (s : state) :
  pending p c s → client_ok c →
  wp (pr_poll_loop_add_fd (H:=registration_world) (uc_socket c) 0
        (Some ipc_client_socket_poll_loop_set_events_cb) (Some ipc_client_socket_poll_loop_read_cb)
        (Some ipc_client_socket_poll_loop_write_cb) (Some ipc_client_socket_poll_loop_err_cb)
        None (Some p)) s
    (λ r s', grows (loop_of s) (loop_of s') ∧ (r = -1 ∧ pending p c s' ∨ r = 0 ∧ state_ok s')).
Proof.
  intros [Hi Hc Hn Hb Ht] Hok. pose proof (co_socket _ Hok) as Hs. pose proof (io_registered _ _ _ Hi) as Hr.
  pose proof (add_fd_frame (uc_socket c) 0 (Some ipc_client_socket_poll_loop_set_events_cb)
    (Some ipc_client_socket_poll_loop_read_cb) (Some ipc_client_socket_poll_loop_write_cb)
    (Some ipc_client_socket_poll_loop_err_cb) None (Some p) s Hr Hs) as Hf.
  pose proof (add_fd_int_ok (H:=registration_world) (uc_socket c) 0 0 (Some ipc_client_socket_poll_loop_set_events_cb) None
    (Some ipc_client_socket_poll_loop_read_cb) None (Some ipc_client_socket_poll_loop_write_cb) None
    (Some ipc_client_socket_poll_loop_err_cb) None None (Some p) s Hr (one_descriptor_fd _ Hs) create_total) as Ha.
  unfold wp, pr_poll_loop_add_fd in *. destruct (pr_poll_loop_add_fd_int _ _ _ _ _ _ _ _ _ _ _ _ _ s) as [[r|e] s']; [|done].
  destruct Hf as (Ht' & Hi' & Ha' & Hp'). destruct Ha as [Hr' Ha].
  assert (Hcl : ∀ p', client_in p' s' = client_in p' s) by (intros p'; unfold client_in; by rewrite Hi').
  destruct Ha as [(-> & Hl & Hst)|(-> & _ & Hk & q & d & Hq & Hl & Hst)].
  - split; [split; [done|by rewrite Hst]|]. left. split; [done|]. split; rewrite ?Hcl, ?Hi', ?Ht'; try done.
    destruct Hi as [_ Hpre Hli Hfd He Hcs]. split; try (rewrite ?Hst, ?Hl; done).
    + by rewrite Hp'.
    + intros q e. rewrite Hst. intros Hq. destruct (He q e Hq) as [?|(p' & c' & d & Hp2 & ->)]; [by left|right].
      exists p', c', d. by rewrite Hcl.
    + intros p' c'. rewrite Hcl, Hst. apply Hcs.
  - split; [split; [done|]|].
    + intros q' e Hq'. rewrite Hst, lookup_insert_ne; [done|]. intros <-. by apply Hq, (io_listed _ _ _ Hi q e).
    + right. split; [done|]. split; [|by rewrite Hi'|by rewrite Ht'].
      eapply (ipc_ok_add (loop_of s) _ _ _ _ _ p c d q Hi); rewrite ?Hi'; try done.
      * by rewrite Hp', (io_no_pre _ _ _ Hi).
      * by rewrite decide_True.
      * by rewrite Hcl.
      * intros p' Hne. cbn. by rewrite Hcl, decide_False.
Qed.

Lemma malloc_ok (s : state) (Q : bool → state → Prop) :
  (∀ b h, Q b (fst (fst s), h, snd s)) →
  wp (λ '(tl, h, x), let '(r, h) := malloc h in (Ok (bool_decide (r ≠ None)), (tl, h, x))) s Q.
Proof. destruct s as [[tl h] x]. intros HQ. unfold wp. destruct (malloc h). apply HQ. Qed.

(** A connection is accepted and registered, or turned down. *)
Lemma ipc_accept_ok (s : state) :
  state_ok s → wp ipc_accept s (λ _ s', state_ok s' ∧ grows (loop_of s) (loop_of s')).
Proof.
  intros Hs. unfold ipc_accept. apply ipc_wp_bind. eapply ipc_wp_mono; [by apply wp_accept|].
  intros [r [p|]] s1 [Ha Hl]; [|apply ipc_wp_ret; by rewrite Hl].
  destruct Ha as (c & Hp & Hrd & Hwr & Hrb & Hsb & Hso & Hd).
  apply ipc_wp_bind, (wp_modify_client p c); [apply Hp|]. intros s2 T2.
  pose proof (pending_touched _ _ _ _ _ Hp T2) as Hp2. rewrite <-Hl, <-(to_loop _ _ _ _ T2).
  apply ipc_wp_bind, malloc_ok. intros b h. set (s3 := (fst (fst s2), h, snd s2) : state).
  assert (Hp3 : pending p (unix_socket_client_read_line true c) s3) by (destruct Hp2; by split).
  change (loop_of s2) with (loop_of s3). generalize dependent s3. clear s1 s2 Hp T2 Hp2 Hl Hs. intros s3 Hp3.
  destruct b; cbn [negb].
  2: { apply ipc_wp_bind. eapply wp_client_disconnect; [apply Hp3|]. intros s4 G. apply ipc_wp_ret.
       split; [by eapply pending_gone|]. rewrite (gn_loop _ _ _ G). apply grows_refl. }
  apply ipc_wp_bind. eapply wp_modify_client; [apply Hp3|]. intros s4 T4.
  pose proof (pending_touched _ _ _ _ _ Hp3 T4) as Hp4. rewrite <-(to_loop _ _ _ _ T4).
  set (c' := set_user_data _ _) in *. assert (Hok : client_ok c').
  { split; [split_and!; [done..|by eexists]|done|..]; intros _; cbn; by rewrite Hwr. }
  apply ipc_wp_bind, (wp_client_at p c'); [apply Hp4|]. apply ipc_wp_bind.
  eapply ipc_wp_mono; [by apply register_client_ok|]. intros r' s5 [Hg [[-> Hp5]|[-> Hs5]]]; [|by split].
  apply ipc_wp_bind. eapply wp_client_disconnect; [apply Hp5|]. intros s6 G. apply ipc_wp_ret.
  split; [by eapply pending_gone|]. by rewrite (gn_loop _ _ _ G).
Qed.

(** ** Reading and writing *)

(** The client is in order again. *)
Definition served (c c' : client) : Prop := client_ok c' ∧ uc_socket c' = uc_socket c.

Lemma served_disconnect c c1 :
  buffers_ok c1 → uc_socket c1 = uc_socket c → client_ok c → served c (set_uc_schedule_disconnect true c1).
Proof. intros Hb Hs [_ ? _ _]. split; [split; [done|cbn; congruence|done..]|done]. Qed.

(** What is read of a client is bounded by the buffer on the stack. *)
Definition after_read (r : Z) (c c1 : client) : Prop :=
  buffers_ok c1 ∧ uc_socket c1 = uc_socket c ∧ reading_line c1 = reading_line c ∧
  writing_buffer c1 = writing_buffer c ∧ uc_schedule_disconnect c1 = uc_schedule_disconnect c ∧
  contents (uc_send_buffer c1) = contents (uc_send_buffer c).

Lemma client_io_read_ok p c :
  client_ok c → touches p c after_read (on_ipc (on_client p unix_socket_client_io_read)).
Proof.
  intros [(Hr & Hs & Hu) _ _ _] s Hc. apply (wp_on_client p c); [done|].
  unfold unix_socket_client_io_read, unix_socket_read, sys.
  pose proof (us_recv_length (uc_socket c) UNIX_SOCKET_CLIENT_BUFFER (snd (snd (snd s)))) as Hlen.
  destruct (us_recv _ _ _) as [[readed buf] w']. cbn in Hlen. unfold UNIX_SOCKET_CLIENT_BUFFER in Hlen.
  destruct (0 <? readed).
  2: { intros s' Ht. by exists c. }
  pose proof (dynar_cat_appends buf ltac:(lia) (uc_receive_buffer c) (snd (fst s)) Hr) as Hcat.
  cbn [uc_receive_buffer set_uc_already_received_bytes].
  destruct (dynar_cat buf _) as [[r|e] [d h']]; intros s' Ht; eexists; (split; [exact Ht|]);
    unfold after_read, buffers_ok; cbn; split_and!; try done; apply Hcat.
Qed.

Lemma client_io_write_ok p c :
  client_ok c → touches p c (λ _, after_read 0) (on_ipc (on_client p unix_socket_client_io_write)).
Proof.
  intros [Hb _ _ _] s Hc. apply (wp_on_client p c); [done|].
  unfold unix_socket_client_io_write, unix_socket_write, sys. destruct (us_send _ _ _) as [sent w'].
  destruct (0 <? sent); intros s' Ht; eexists; (split; [exact Ht|done]).
Qed.

Lemma after_read_served r c c1 : client_ok c → after_read r c c1 → served c c1.
Proof.
  intros [_ Hs Hp Ht] (Hb & Es & Er & Ew & Ed & Eb). split; [|done].
  split; [done|congruence|by rewrite Ed, Er, Ew|by rewrite Ed, Ew, Eb].
Qed.

Lemma ipc_close_ok p c (s : state) :
  client_in p s = Some c → wp ipc_close s (λ _ s', touched p c s s').
Proof.
  destruct s as [[tl h] [l [i w]]]. intros Hc.
  unfold wp, ipc_close, on_ipc, unix_socket_ipc_close, unix_socket_server_destroy, unix_socket_close, sys,
    in_system, mbind, M_bind, get_ipc.
  destruct (ipc_socket i <? 0); [by apply touched_refl|].
  destruct (socket_file_name i); cbn; repeat destruct (us_close _ _); repeat destruct (us_unlink _ _); by split.
Qed.

Lemma ipc_io_write_ok p c : client_ok c → touches p c (λ _, served) (ipc_io_write p).
Proof.
  intros Hok. eapply touches_bind; [by apply client_io_write_ok|]. intros r c1 s1 Ha Hc1.
  destruct (r =? 0); [|destruct (r =? 1)].
  - apply ipc_wp_ret. exists c1. split; [by apply touched_refl|by eapply after_read_served].
  - apply ipc_wp_bind, (wp_modify_client p c1); [done|]. intros s2 T2.
    apply ipc_wp_bind. eapply set_disconnect_ok; [apply T2|]. intros s3 T3.
    set (c3 := set_uc_schedule_disconnect true _) in *.
    assert (T : touched p c3 s1 s3) by by eapply touched_trans. destruct Ha as ((Hr & Hs & Hu) & Es & _).
    assert (Hsv : served c c3) by by apply served_disconnect.
    apply ipc_wp_bind. unfold user_data_at. apply ipc_wp_bind, (wp_client_at p c3); [apply T|].
    destruct Hu as [u Hu]. cbn. rewrite Hu. apply ipc_wp_ret.
    destruct (shutdown_requested u); [|apply ipc_wp_ret; by exists c3].
    apply ipc_wp_bind. eapply ipc_wp_mono; [by apply (ipc_close_ok p c3), T|]. intros r' s4 T4.
    apply ipc_wp_ret. exists c3. split; [by eapply touched_trans|done].
  - eapply set_disconnect_ok; [done|]. intros s2 T2. eexists. split; [exact T2|].
    destruct Ha as (? & ? & _). by apply served_disconnect.
Qed.

(** ** The commands *)

(** Whatever a client asks, it gets a reply or is given up. *)
Context (parse_line : nat → M state unit).
Hypothesis parse_line_ok : ∀ p c, buffers_ok c → touches p c (λ _, replied) (parse_line p).

Lemma ipc_io_read_ok p c : client_ok c → touches p c (λ _, served) (ipc_io_read parse_line p).
Proof.
  intros Hok. eapply touches_bind; [by apply client_io_read_ok|]. intros r c1 s1 Ha Hc1.
  pose proof Ha as (Hb & Es & _). destruct (r =? 0); [|destruct (r =? 1)].
  - apply ipc_wp_ret. exists c1. split; [by apply touched_refl|by eapply after_read_served].
  - apply ipc_wp_bind, (wp_modify_client p c1); [done|]. intros s2 T2.
    set (c2 := unix_socket_client_read_line false c1) in *.
    eapply ipc_wp_mono; [apply (parse_line_ok p c2 Hb), T2|].
    intros _ s3 (c3 & T3 & Hb3 & Es3 & Hph). exists c3. split; [by eapply touched_trans|].
    destruct Hok as [_ Hs _ _]. split; [split; [done|by rewrite Es3; cbn; rewrite Es|..]|by rewrite Es3];
      intros Hd; (destruct Hph as [?|(Er & Ew & Ht)]; [congruence|]); [by rewrite Er, Ew|done].
  - eapply set_disconnect_ok; [done|]. intros s2 T2. eexists. split; [exact T2|]. by apply served_disconnect.
Qed.

(** ** The callbacks keep to the rules of the loop *)

Definition ipc_inv (tl : @timer_list unit) (l : loop) (iw : ipc_world) : Prop := state_ok (tl, [], (l, iw)).

Lemma ipc_inv_state s : inv ipc_inv s ↔ state_ok s.
Proof. destruct s as [[tl h] [l iw]]. by split; intros Hs; eapply state_ok_same. Qed.

(** How a callback may leave the state: no registration of another client is touched. *)
Definition kept (s : state) (r : Z) (s' : state) : Prop := state_ok s' ∧ grows (loop_of s) (loop_of s').

Lemma kept_refl s r : state_ok s → kept s r s.
Proof. intros. by split; [|apply grows_refl]. Qed.

Lemma unless_disconnecting_ok p c m (s : state) :
  state_ok s → client_in p s = Some c → touches p c (λ _, served) m → wp (unless_disconnecting p m) s (kept s).
Proof.
  intros Hs Hc Hm. apply ipc_wp_bind, (wp_client_at p c); [done|].
  destruct (uc_schedule_disconnect c); cbn [negb]; apply ipc_wp_bind; [by apply ipc_wp_ret, ipc_wp_ret, kept_refl|].
  eapply ipc_wp_mono; [by apply Hm|]. intros _ s1 (c1 & T & Hok & Es). apply ipc_wp_ret. split.
  - by eapply state_ok_touched.
  - rewrite (to_loop _ _ _ _ T). apply grows_refl.
Qed.

Lemma disconnect_served p c : client_ok c → touches p c (λ _, served) (set_disconnect p).
Proof.
  intros Hok s Hc. eapply set_disconnect_ok; [done|]. intros s' T. eexists. split; [exact T|].
  apply served_disconnect; [apply Hok|done..].
Qed.

Local Existing Instance ipc_poll_world.

Lemma ipc_call_ok (s : state) k (x : nat * _ * PRPollDesc) :
  state_ok s → live (loop_of s) x → wp (run_call (H:=ipc_poll_world parse_line) k x) s (kept s).
Proof.
  destruct x as [[q e] pd]. unfold live. cbn [item_pointer fst snd]. intros Hs Hq.
  destruct (io_entries _ _ _ (so_ipc _ Hs) q e Hq) as [(fd' & prfd & ->)|(p & c & prfd & Hc & ->)].
  - destruct k; cbn; [|by apply kept_refl|by apply kept_refl].
    apply ipc_wp_bind. eapply ipc_wp_mono; [by apply ipc_accept_ok|]. by intros.
  - pose proof (proj1 (io_clients _ _ _ (so_ipc _ Hs) p c Hc)) as Hok.
    destruct k; cbn; (apply (unless_disconnecting_ok p c); [done..|]).
    + by apply ipc_io_read_ok.
    + by apply ipc_io_write_ok.
    + by apply disconnect_served.
Qed.

Lemma ipc_call_rule (s : state) k x :
  inv ipc_inv s → live (loop_of s) x → Some (Some (item_pointer x)) ∈ datas (poll_array (loop_of s)) →
  match run_call (H:=ipc_poll_world parse_line) k x s with
  | (Ok _, s') => inv ipc_inv s' ∧ keeps_items k (item_pointer x) (loop_of s) (loop_of s')
  | (Err c, _) => c = EXIT
  end.
Proof.
  rewrite ipc_inv_state. intros Hs Hl _. pose proof (ipc_call_ok s k x Hs Hl) as Hw. unfold wp in Hw.
  destruct (run_call k x s) as [[r|c] s']; [|done]. destruct Hw as [Hs' [Ha Hst]].
  split; [by apply ipc_inv_state|]. split; [done|]. intros q e _ _. apply Hst.
Qed.

(** The registration of a client goes with the client. *)
Lemma unregister_ok p c q prfd (s s1 : state) :
  state_ok s → client_in p s = Some c → fd_store (loop_of s) !! q = Some (client_entry (uc_socket c) prfd p) →
  gone p s s1 →
  wp (pr_poll_loop_del_fd (H:=registration_world) (uc_socket c)) s1
    (λ r s', r = 0 ∧ state_ok s' ∧ poll_array (loop_of s') = poll_array (loop_of s) ∧
       fd_store (loop_of s') = delete q (fd_store (loop_of s)) ∧
       fd_list (loop_of s') = filter (q ≠.) (fd_list (loop_of s))).
Proof.
  intros [Hi Hb Ht] Hc Hq [E1 E2 E3 E4 E5]. destruct (io_clients _ _ _ Hi p c Hc) as (Hok & _).
  pose proof (co_socket _ Hok) as Hs. pose proof (io_registered _ _ _ Hi) as Hr.
  pose proof (first_keyed_entry (uc_socket c) _ _ _ q _ Hi Hs Hq eq_refl) as Hk.
  assert (Hr1 : registered (loop_of s1)) by by rewrite E2.
  pose proof (del_fd_frame (uc_socket c) s1 Hr1 Hs) as Hf. unfold pr_poll_loop_del_fd, wp in *.
  pose proof (del_fd_int_ok (H:=registration_world) (uc_socket c) 0 s1 Hr1 (one_descriptor_fd _ Hs) destroy_total) as Hd.
  destruct (pr_poll_loop_del_fd_int _ _ s1) as [[r|e] s']; [|done]. rewrite E2, Hk in Hd.
  destruct Hf as (F1 & F2 & F3 & F4), Hd as (Hr' & -> & Hl & Hst). rewrite E2 in F3, F4.
  split; [done|]. split; [|done]. split; [|rewrite F2; by apply E5|by rewrite F1, E1].
  rewrite F2, E4. eapply (ipc_ok_remove (loop_of s) _ _ _ _ p c prfd q Hi); try done.
  - by rewrite F4, (io_no_pre _ _ _ Hi).
  - unfold client_in. rewrite F2. fold (client_in p s1). by rewrite E3, decide_True.
  - intros p' Hne. unfold client_in. rewrite F2. fold (client_in p' s1). by rewrite E3, decide_False.
Qed.

(** What the rule for these callbacks asks. *)
Definition asked_events (q : nat) e (s : state) (r : Z * Z) (s' : state) : Prop :=
  inv ipc_inv s' ∧ loop_ok (loop_of s') ∧ poll_array (loop_of s') = poll_array (loop_of s) ∧ True ∧
  (∀ q', q' ≠ q → fd_store (loop_of s') !! q' = fd_store (loop_of s) !! q') ∧
  (fd_list (loop_of s') = fd_list (loop_of s) ∧ fd_store (loop_of s') !! q = Some e ∨
   fd_list (loop_of s') = filter (q ≠.) (fd_list (loop_of s)) ∧ fst r ≠ 0).

Lemma ipc_set_events_rule (s : state) q e :
  inv ipc_inv s → loop_ok (loop_of s) → fd_store (loop_of s) !! q = Some e →
  wp (run_set_events_cb (H:=ipc_poll_world parse_line) e) s (asked_events q e s).
Proof.
  rewrite ipc_inv_state. intros Hs Ho Hq.
  assert (Hsame : ∀ r, asked_events q e s r s).
  { intros r. unfold asked_events. rewrite ipc_inv_state. split_and!; try done. by left. }
  destruct (io_entries _ _ _ (so_ipc _ Hs) q e Hq) as [(fd' & prfd & ->)|(p & c & prfd & Hc & ->)].
  - destruct s as [[tl h] [l [i w]]]. apply (Hsame (if unix_socket_ipc_is_closed i then (-2, POLLIN) else (0, POLLIN))).
  - change (wp (client_set_events (uc_socket c) 0 p) s (asked_events q (client_entry (uc_socket c) prfd p) s)).
    apply ipc_wp_bind, (wp_client_at p c); [done|].
    destruct (uc_schedule_disconnect c); [|by destruct (reading_line c), (writing_buffer c); apply Hsame].
    apply ipc_wp_bind, (wp_client_disconnect p c); [done|]. intros s1 G. apply ipc_wp_bind.
    eapply ipc_wp_mono; [by eapply unregister_ok|]. intros r s2 (-> & Hs2 & Ha & Hst & Hl).
    apply (ipc_wp_ret (-1, 0)). unfold asked_events. rewrite ipc_inv_state, Hst, Hl.
    split; [done|]. split; [apply Hs2|]. split; [done|]. split; [done|]. split; [|by right].
    intros q' Hne. by rewrite lookup_delete_ne.
Qed.

(** ** Rounds *)

Context (PR_MillisecondsToInterval : Z → Z) (PR_INTERVAL_NO_TIMEOUT : Z).

(** Between the rounds. *)
Definition serving (s : state) : Prop := state_ok s ∧ PrPollArray.wf (poll_array (loop_of s)).

Lemma ipc_pre_rule (s : state) p e :
  inv ipc_inv s → loop_ok (loop_of s) → pre_poll_cb_store (loop_of s) !! p = Some e →
  match run_pre_poll_cb (H:=ipc_poll_world parse_line) e s with
  | (Ok _, s') =>
      inv ipc_inv s' ∧ loop_ok (loop_of s') ∧ poll_array (loop_of s') = poll_array (loop_of s) ∧
      (pre_poll_cb_list (loop_of s') = pre_poll_cb_list (loop_of s) ∨
       pre_poll_cb_list (loop_of s') = filter (p ≠.) (pre_poll_cb_list (loop_of s)))
  | (Err c, _) => c = EXIT
  end.
Proof. rewrite ipc_inv_state. intros Hs _. by rewrite (io_no_pre _ _ _ (so_ipc _ Hs)). Qed.

Lemma ipc_inv_array tl (l : loop) iw a : ipc_inv tl l iw → ipc_inv tl (set_poll_array a l) iw.
Proof.
  intros [[[[? ? ? ?] ?] ? ? ? ? ?] Hb Ht]. split; [|done|done]. by split; [split; [split|]|..].
Qed.

Lemma ipc_poll_rule tl (l : loop) iw pfds timeout :
  ipc_inv tl l iw →
  match PR_Poll (PollWorld:=ipc_poll_world parse_line) pfds timeout iw with
  | (Ok _, iw') => ipc_inv tl l iw'
  | (Err c, _) => c = EXIT
  end.
Proof.
  destruct iw as [i w]. intros Hs. cbn. destruct (ipc_PR_Poll pfds timeout w) as [r w']. by eapply state_ok_same.
Qed.

Lemma ipc_timers_ok tl (l : loop) iw :
  ipc_inv tl l iw → ∃ E, timers_ok PR_MillisecondsToInterval 1 0 E tl.
Proof. intros [_ _ [clock E]]. cbn in E. subst tl. exists (λ _, 0). apply timers_ok_init. Qed.

(** No timer runs. *)
Lemma expire_none (s : state) :
  state_ok s →
  expire_timers (H:=ipc_poll_world parse_line) PR_MillisecondsToInterval s = (Ok tt, s).
Proof. destruct s as [[tl h] [l iw]]. intros [_ _ [clock E]]. cbn in E. by subst tl. Qed.

(** A round of the loop: it ends, nothing that was freed is touched, and if the loop is to go on
    everything is in order. *)
Lemma ipc_round_ok (s : state) :
  serving s →
  wp (pr_poll_loop_exec (H:=ipc_poll_world parse_line) PR_MillisecondsToInterval PR_INTERVAL_NO_TIMEOUT) s
    (λ r s', r = 0 → serving s').
Proof.
  intros [Hs Hw]. pose proof (rg_ok _ (io_registered _ _ _ (so_ipc _ Hs))) as Ho.
  pose proof (exec_ends (H:=ipc_poll_world parse_line) PR_MillisecondsToInterval PR_INTERVAL_NO_TIMEOUT ipc_inv
    ipc_call_rule ipc_pre_rule (λ _ _, True) ipc_set_events_rule ipc_inv_array ipc_poll_rule 1 0
    ltac:(unfold bounds_rule; lia) ipc_timers_ok s) as Hx.
  eapply ipc_wp_mono; [apply Hx; [|by apply ipc_inv_state|done..]|].
  - intros s1 Hs1 Hw1. rewrite expire_none by by apply ipc_inv_state. done.
  - intros r s' Hr E. destruct (Hr E). by split; [apply ipc_inv_state|].
Qed.

(** ** The start *)

Lemma fresh_registered : registered (pr_poll_loop_init : loop).
Proof.
  split; [split|]; cbn; try constructor; try (by intros ? ?%elem_of_nil);
    by intros ? [?%elem_of_nil|?%elem_of_nil].
Qed.

(** The listening socket is the only registration. *)
Lemma ipc_ok_start (l : loop) fd' prfd q next :
  registered l → pre_poll_cb_store l = ∅ → fd_list l = [q] → fd_store l = {[q := listening_entry fd' prfd]} →
  ipc_ok l (λ _, None) next.
Proof.
  intros Hr Hp Hl Hst. split; try done; rewrite ?Hl, ?Hst.
  - intros q' e [<- _]%lookup_singleton_Some. by apply list_elem_of_singleton.
  - by intros q1 q2 e1 e2 [<- _]%lookup_singleton_Some [<- _]%lookup_singleton_Some.
  - intros q' e [_ <-]%lookup_singleton_Some. left. by exists fd', prfd.
Qed.

(** The limits can be kept. *)
Definition settings_ok (settings : ipc_settings) : Prop :=
  0 ≤ ipc_max_clients_setting settings ∧ 0 ≤ ipc_max_receive_size_setting settings < 2 ^ 62 ∧
  0 ≤ ipc_max_send_size_setting settings < 2 ^ 62.

(** What the socket is set up as, when that succeeds. *)
Definition set_up (settings : ipc_settings) (r : Z) (s s' : state) : Prop :=
  timers_of s' = timers_of s ∧ loop_of s' = loop_of s ∧
  (r = 0 → 0 ≤ ipc_socket (ipc_of s') ∧ ipc_clients (ipc_of s') = [] ∧
     limits_of (ipc_of s') = (ipc_max_clients_setting settings, ipc_max_receive_size_setting settings,
       ipc_max_send_size_setting settings)).

Lemma socket_init_ok settings (s : state) :
  wp (on_ipc (unix_socket_ipc_init (local_socket_file settings) (set_local_socket_umask settings)
        (local_socket_umask settings) (local_socket_gid settings) (local_socket_backlog settings)
        (ipc_max_clients_setting settings) (ipc_max_receive_size_setting settings)
        (ipc_max_send_size_setting settings))) s (λ r s', set_up settings r s s').
Proof.
  destruct s as [[tl h] [l [i w]]].
  unfold wp, on_ipc, unix_socket_ipc_init, modify_ipc, in_system, mbind, M_bind.
  destruct (malloc h) as [[j|] h1]; cbn; [|by split_and!].
  destruct (server_create_total (local_socket_file settings) (set_local_socket_umask settings)
    (local_socket_umask settings) (local_socket_gid settings) true (local_socket_backlog settings) w)
    as (sock & w' & ->).
  cbn. destruct (Z.ltb_spec sock 0); cbn; by split_and!.
Qed.

Lemma ipc_init_ok settings clock (s : state) :
  settings_ok settings → timers_of s = timer_list_init clock → loop_of s = pr_poll_loop_init →
  wp (ipc_init settings) s (λ r s', r = 0 → serving s').
Proof.
  intros (Hmax & Hrs & Hss) Ht Hl. unfold ipc_init. apply ipc_wp_bind.
  eapply ipc_wp_mono; [apply socket_init_ok|]. intros r s1 (Ht1 & Hl1 & Hi1).
  destruct (Z.eqb_spec r 0) as [->|]; cbn [negb]; [|by apply ipc_wp_ret].
  destruct (Hi1 eq_refl) as (Hso & Hcl & Hlim). rewrite Hl in Hl1. rewrite Ht in Ht1. clear Hi1 Hl Ht s.
  assert (Hget : wp (on_ipc get_ipc) s1 (λ i s', i = ipc_of s1 ∧ s' = s1)) by by destruct s1 as [[? ?] [? [? ?]]].
  apply ipc_wp_bind. eapply ipc_wp_mono; [exact Hget|]. intros i s2 [-> ->].
  set (sock := ipc_socket (ipc_of s1)) in *. assert (Hs : sock ≠ -1) by lia. apply ipc_wp_bind.
  assert (Hr : registered (loop_of s1)) by (rewrite Hl1; apply fresh_registered).
  pose proof (add_fd_frame sock POLLIN (Some ipc_socket_poll_loop_set_events_cb)
    (Some ipc_socket_poll_loop_read_cb) None (Some ipc_socket_poll_loop_err_cb) None None s1 Hr Hs) as Hf.
  pose proof (add_fd_int_ok (H:=registration_world) sock 0 POLLIN (Some ipc_socket_poll_loop_set_events_cb) None
    (Some ipc_socket_poll_loop_read_cb) None None None (Some ipc_socket_poll_loop_err_cb) None None None s1 Hr
    (one_descriptor_fd _ Hs) create_total) as Ha.
  unfold pr_poll_loop_add_fd, wp in *. destruct (pr_poll_loop_add_fd_int _ _ _ _ _ _ _ _ _ _ _ _ _ s1) as [[r|e] s2]; [|done].
  destruct Hf as (Ht2 & Hi2 & Ha2 & Hp2), Ha as [Hr2 Ha]. apply ipc_wp_ret.
  destruct Ha as [(-> & _ & _)|(-> & _ & _ & q & d & _ & Hl2 & Hst2)]; [done|]. intros _.
  rewrite Hl1 in *. split; [|rewrite Ha2; by apply array_wf_init]. split.
  - apply (ipc_ok_clients _ (λ _, None)); [by apply (ipc_ok_start _ sock d q)|].
    intros p. unfold client_in. by rewrite Hi2, Hcl.
  - unfold bounded. rewrite Hi2, Hcl, Hlim. by split.
  - exists clock. by rewrite Ht2.
Qed.
End facts.

(** ** Text that fits *)

Create HintDb texts.

Lemma len_vote x : len_le (str (tlv_vote_to_str x)) 100.
Proof. apply (Z.leb_le _ 100). by destruct x. Qed.
Lemma len_heuristics x : len_le (str (tlv_heuristics_to_str x)) 100.
Proof. apply (Z.leb_le _ 100). by destruct x. Qed.
Lemma len_tls x : len_le (str (tlv_tls_supported_to_str x)) 100.
Proof. apply (Z.leb_le _ 100). by destruct x. Qed.
Lemma len_algorithm x : len_le (str (tlv_decision_algorithm_type_to_str x)) 100.
Proof. unfold tlv_decision_algorithm_type_to_str. repeat destruct (x =? _); by apply (Z.leb_le _ 100). Qed.
Lemma len_ring_id r : len_le (UTILS_PRI_RING_ID r) 300.
Proof.
  eapply len_mono; [apply len_app; [apply len_hex|apply len_app; [apply (Z.leb_le _ 100); reflexivity|apply len_hex]]|lia].
Qed.
#[export] Hint Resolve len_vote len_heuristics len_tls len_algorithm len_ring_id : texts.

(** Bounds by the shape of a text; constants are counted, the rest is known in [texts]. *)
Ltac text_bound := repeat lazymatch goal with
  | |- len_le (_ ++ _) _ => eapply len_app
  | |- len_le (fmt_u32 _) _ => apply len_u32
  | |- len_le (fmt_u64 _) _ => apply len_u64
  | |- len_le (fmt_hex _) _ => apply len_hex
  | |- len_le (if _ then _ else _) _ => apply (len_if _ _ _ 100)
  | |- len_le (str (if _ then _ else _)) _ => apply (len_str_if _ _ _ 100)
  | |- len_le _ _ => first [by eauto with texts | apply (Z.leb_le _ 100); vm_compute; reflexivity]
  end.

Ltac keeps := repeat lazymatch goal with
  | |- keeps_wf (_ ≫= _) => apply keeps_wf_bind; [|intros ?]
  | |- keeps_wf (catf_if _ _) => apply keeps_catf_if; intros ?
  | |- keeps_wf (when _ _) => apply keeps_when; intros ?
  | |- keeps_wf (catf _) => eapply keeps_catf; [text_bound|try lia]
  | |- keeps_wf (if _ then _ else _) => apply keeps_wf_if
  | |- keeps_wf (mret _) => apply keeps_wf_ret
  | |- keeps_wf (match ?x with _ => _ end) => destruct x eqn:?
  | |- keeps_wf _ => by eauto with texts
  end.
