(* ===== verification/QnetdIpcFacts.v ===== *)
(** The local socket of qnetd: every line gets a reply or ends the connection, and the main loop
    serves the socket until it is closed. *)
From stdpp Require Import strings.
From S2P Require Import Prelude Dynar DynarStr Lex Utils Tlv NodeList Heuristics SendBuffer QnetdClient QnetdCluster.
From stdpp Require Import list gmap.
From S2P Require Import TimerList TimerListFacts TimerInterface QnetdAlgoTimer QnetdAlgorithm QnetdInstance.
From S2P Require Import PrPollArray PrPollLoop PrPollLoopFacts UnixSocket LocalIpc LocalIpcFacts QnetdIpc.
Local Open Scope Z_scope.

(** A word that is quoted in a reply fits. *)
Definition request_ok (r : qnetd_request) : Prop :=
  match r with UNKNOWN_COMMAND word => Z.of_nat (length word) < 2 ^ 62 | _ => True end.

Lemma list_options_ok fuel verbose cluster lex h :
  lex_ok lex → (remaining lex < fuel)%nat →
  match list_options_loop fuel verbose cluster (lex, h) with (Ok r, _) => request_ok r | (Err _, _) => False end.
Proof.
  revert verbose cluster lex h. induction fuel as [|fuel IH]; intros verbose cluster lex h Hl Hf; [lia|].
  cbn [list_options_loop]. unfold mbind at 1, M_bind at 1. pose proof (next_token_ok lex h Hl) as Hn.
  destruct (next_token (lex, h)) as [[[word|]|c] [lex1 h1]]; [|done..].
  destruct Hn as (Hl1 & _ & _ & _ & Hlt). destruct word as [|b word]; [done|]. specialize (Hlt ltac:(done)).
  destruct (strcase_eq _ _); [by apply IH; [|lia]|]. destruct (strcase_eq _ _); [|done].
  unfold mbind at 1, M_bind at 1. pose proof (next_token_ok lex1 h1 Hl1) as Hn.
  destruct (next_token (lex1, h1)) as [[[name|]|c] [lex2 h2]]; [|done..].
  destruct Hn as (Hl2 & _ & _ & Hle & _). unfold mbind, M_bind, strdup_name.
  destruct (malloc h2) as [[j|] h3]; [|done]. apply IH; [done|lia].
Qed.

Lemma parse_request_ok lex h :
  lex_ok lex → lex_pos lex = 0%nat →
  match parse_request (lex, h) with (Ok r, _) => request_ok r | (Err _, _) => False end.
Proof.
  intros Hl Hp. unfold parse_request. rewrite (bind_ok get _ (lex, h) (lex, h) (lex, h) eq_refl).
  unfold mbind at 1, M_bind at 1. pose proof (next_token_ok lex h Hl) as Hn.
  destruct (next_token (lex, h)) as [[[word|]|c] [lex1 h1]]; [|done..].
  destruct Hn as (Hl1 & Hi & Hlen & Hle & _). destruct word as [|b word]; [done|].
  destruct (strcase_eq _ _); [done|]. destruct (strcase_eq _ _); [|destruct (strcase_eq _ _); [|done]].
  - unfold mbind, M_bind. pose proof (next_token_ok lex1 h1 Hl1) as Hn.
    by destruct (next_token (lex1, h1)) as [[[word'|]|c] [lex2 h2]].
  - apply list_options_ok; [done|]. unfold remaining in *. lia.
Qed.

(** ** Commands *)

Section qnetd.
Context {T : Type} `{TimerOps qnetd_timer T}.
Context (settings : qnetd_settings) (names : qnetd_names).
Abbreviation instance := (@qnetd_instance T).

(** Names that fit into memory. *)
Definition fits (s : c_string) : Prop := len_le s (2 ^ 60).
Definition names_fit : Prop := (∀ a, host_addr names = Some a → fits a) ∧ ∀ p, fits (addr_str names p).
Definition clusters_fit (q : instance) : Prop := Forall (λ cl, fits (cl_name cl)) (q_clusters q).

Hypothesis names_ok : names_fit.

Lemma len_host : len_le (default (str "*") (host_addr names)) (2 ^ 60).
Proof. destruct (host_addr names) as [a|] eqn:E; [by apply names_ok|by apply Z.leb_le]. Qed.
Lemma len_addr p : len_le (addr_str names p) (2 ^ 60).
Proof. apply names_ok. Qed.
Local Hint Resolve len_host len_addr : texts.

Lemma status_keeps (q : instance) verbose : keeps_wf (qnetd_ipc_cmd_status settings names q verbose).
Proof. unfold qnetd_ipc_cmd_status. keeps. Qed.

Lemma tie_breaker_keeps (c : qclient) : keeps_wf (qnetd_ipc_cmd_add_tie_breaker c).
Proof. unfold qnetd_ipc_cmd_add_tie_breaker. keeps. Qed.

Lemma node_list_keeps i nlist : keeps_wf (list_add_node_list_loop i nlist).
Proof.
  revert i. induction nlist as [|n nlist IH]; intros i; cbn [list_add_node_list_loop]; keeps.
Qed.

Lemma titled_list_keeps title verbose nlist : len_le title 100 → keeps_wf (add_titled_list title verbose nlist).
Proof.
  intros Ht. unfold add_titled_list, qnetd_ipc_cmd_list_add_node_list. pose proof node_list_keeps.
  apply keeps_when. intros _. keeps.
Qed.

Lemma client_info_keeps (c : qclient) verbose no : keeps_wf (qnetd_ipc_cmd_list_add_client_info names c verbose no).
Proof.
  unfold qnetd_ipc_cmd_list_add_client_info.
  assert (Ht : ∀ title nlist, len_le title 100 → keeps_wf (add_titled_list title verbose nlist))
    by (intros; by apply titled_list_keeps).
  keeps; apply Ht; by apply (Z.leb_le _ 100).
Qed.

Lemma algorithm_keeps (cl : qcluster) c : keeps_wf (add_algorithm cl c).
Proof. unfold add_algorithm. pose proof tie_breaker_keeps. keeps. Qed.

Lemma clients_keep cl verbose no l : keeps_wf (list_clients_loop names cl verbose no l).
Proof.
  revert no. pose proof algorithm_keeps. pose proof client_info_keeps.
  induction l as [|c l IH]; intros no; cbn [list_clients_loop]; keeps.
Qed.

Lemma list_keeps (q : instance) verbose chosen : clusters_fit q → keeps_wf (qnetd_ipc_cmd_list names q verbose chosen).
Proof.
  unfold clusters_fit, qnetd_ipc_cmd_list. pose proof clients_keep.
  induction (q_clusters q) as [|cl l IH]; intros Hf; cbn [list_clusters_loop]; [keeps|].
  apply Forall_cons in Hf as [Hcl Hl]. specialize (IH Hl). unfold fits in Hcl. keeps.
Qed.

(** ** Lines *)

Context {W : Type} `{UnixSystemLaws W} `{IpcNspr W}.
Abbreviation state := (@PrPollLoop.state ipc_callback unit (unix_socket_ipc ipc_user_data * W) (option nat)).

Lemma qnetd_parse_line_ok (q : instance) p c :
  clusters_fit q → buffers_ok c → touches p c (λ _, replied) (qnetd_ipc_parse_line (W:=W) settings names q p).
Proof.
  intros Hq Hb. unfold qnetd_ipc_parse_line.
  eapply touches_bind; [apply (with_line_ok _ _ _ _ request_ok)|].
  - intros h. pose proof Hb as ([_ _ _ Hm] & _). pose proof (parse_request_ok
      (dynar_simple_lex_init (uc_receive_buffer c) DYNAR_SIMPLE_LEX_TYPE_QUOTE) h) as Hp.
    destruct (parse_request _) as [[r|e] s]; [|exfalso]; apply Hp; try done; (split; [by apply Dynar.wf_init|cbn; lia]).
  - intros r c1 s1 [-> Hr] Hc1.
    assert (Herr : ∀ text, Z.of_nat (length text) + 1 < 2 ^ 63 →
      wp (or_disconnect p (ipc_send_error (W:=W) p text)) s1 (λ _ s2, ∃ c2, touched p c2 s1 s2 ∧ replied c c2)).
    { intros text Ht. apply or_disconnect_ok; [by apply send_error_ok|exact Hc1]. }
    assert (Hans : ∀ m text, keeps_wf m → Z.of_nat (length text) + 1 < 2 ^ 63 →
      wp (answer_command (W:=W) p m text) s1 (λ _ s2, ∃ c2, touched p c2 s1 s2 ∧ replied c c2)).
    { intros m text Hm Ht. by apply answer_command_ok. }
    destruct r as [| |verbose|verbose chosen|word|].
    + apply Herr. by apply Z.ltb_lt.
    + by apply shutdown_ok.
    + apply Hans; [apply status_keeps|by apply Z.ltb_lt].
    + apply Hans; [by apply list_keeps|by apply Z.ltb_lt].
    + apply Herr. rewrite !length_app. cbn in Hr |- *. lia.
    + apply Herr. by apply Z.ltb_lt.
Qed.

(** ** The main loop *)

Context (instance_of : W → instance).
Context (PR_MillisecondsToInterval : Z → Z) (PR_INTERVAL_NO_TIMEOUT : Z).
Hypothesis instances_ok : ∀ w, clusters_fit (instance_of w).

Lemma parse_line_now_ok p c :
  buffers_ok c → touches p c (λ _, replied) (parse_line_now settings names instance_of p).
Proof. intros Hb s Hc. exact (qnetd_parse_line_ok (instance_of (snd (snd (snd s)))) p c (instances_ok _) Hb s Hc). Qed.

Lemma main_loop_rounds_ok rounds (s : state) :
  serving s →
  match main_loop_rounds settings names instance_of PR_MillisecondsToInterval PR_INTERVAL_NO_TIMEOUT rounds s with
  | (Ok r, _) => r ≠ 0
  | (Err e, s') => e = EXIT ∨ e = OUT_OF_FUEL ∧ serving s'
  end.
Proof.
  revert s. induction rounds as [|rounds IH]; intros s Hs; cbn [main_loop_rounds]; [by right|].
  pose proof (ipc_round_ok _ parse_line_now_ok PR_MillisecondsToInterval PR_INTERVAL_NO_TIMEOUT s Hs) as Hr.
  unfold wp, mbind, M_bind, qnetd_ipc_world in *.
  destruct (pr_poll_loop_exec _ _ s) as [[r|e] s1]; [|by left].
  destruct (Z.eqb_spec r 0) as [->|]; [|done]. by apply IH, Hr.
Qed.

(** C12: the main loop of qnetd, as far as it serves the local socket, for as many rounds as one
    likes and whatever the clients send, the system answers and memory allows.  It ends with 0
    only with the socket closed, and with -1 else; or a failed allocation of the poll loop ends
    the process; or it is still running, and then there are no more clients than allowed, each
    has its registration in the loop and each registration its client, and a client that is not
    given up either still sends its line or is being sent a reply that begins with OK or Error.
    No pointer to a client or a registration that was freed is ever followed. *)
Theorem qnetd_run_main_loop_safe rounds (s : state) :
  serving s →
  match qnetd_run_main_loop settings names instance_of PR_MillisecondsToInterval PR_INTERVAL_NO_TIMEOUT rounds s with
  | (Ok r, s') => r = 0 ∧ ipc_socket (ipc_of s') < 0 ∨ r = -1
  | (Err e, s') => e = EXIT ∨ e = OUT_OF_FUEL ∧ serving s'
  end.
Proof.
  intros Hs. pose proof (main_loop_rounds_ok rounds s Hs) as Hr. unfold qnetd_run_main_loop, mbind at 1, M_bind at 1.
  destruct (main_loop_rounds _ _ _ _ _ _ s) as [[r|e] s1]; [|done].
  destruct (_ || _); [cbn; by right|].
  assert (Hc : ipc_is_closed s1 = (Ok (ipc_socket (ipc_of s1) <? 0), s1)) by by destruct s1 as [[tl h] [l [i w]]].
  rewrite (bind_ok _ _ _ _ _ Hc). cbn.
  destruct (Z.ltb_spec (ipc_socket (ipc_of s1)) 0); [by left|by right].
Qed.
End qnetd.

(** ** An example: a client that asks for the end of the daemon *)

Record sim_world := mk_sim { sim_waiting : bool; sim_inbox : list byte; sim_outbox : list byte }.

(** One client waits to be accepted; what it sent is read at once and all is sent to it. *)
#[local] Instance sim_system : UnixSystem sim_world := {|
  us_socket w := (3, w); us_unlink _ w := (0, w); us_umask _ w := (0, w); us_bind _ _ w := (0, w);
  us_chown _ _ w := (0, w); us_fcntl_getfl _ w := (0, w); us_fcntl_setfl _ _ w := (0, w);
  us_listen _ _ w := (0, w); us_connect _ _ w := (0, w);
  us_accept _ w := (if sim_waiting w then 5 else -1, mk_sim false (sim_inbox w) (sim_outbox w));
  us_close _ w := (0, w);
  us_recv _ n w := let got := take (Z.to_nat n) (sim_inbox w) in
    ((if bool_decide (got = []) then -1 else Z.of_nat (length got), got),
     mk_sim (sim_waiting w) (drop (Z.to_nat n) (sim_inbox w)) (sim_outbox w));
  us_send _ bs w := (Z.of_nat (length bs), mk_sim (sim_waiting w) (sim_inbox w) (sim_outbox w ++ bs));
  us_transient_error _ := true
|}.
#[local] Instance sim_system_laws : UnixSystemLaws sim_world.
Proof. split. intros s n w. cbn. rewrite length_take. lia. Qed.

(** Everything is ready for what is asked. *)
#[local] Instance sim_nspr : IpcNspr sim_world := {|
  ipc_PR_CreateSocketPollFd fd w := (fd + 100, w);
  ipc_PR_DestroySocketPollFd _ w := w;
  ipc_PR_Poll pfds _ w := ((Z.of_nat (length pfds), in_flags <$> pfds), w)
|}.

Definition sim_names : qnetd_names := mk_names None 5403 (λ _, str "::1").
Definition sim_settings : qnetd_settings :=
  mk_settings TLV_TLS_SUPPORTED 0 0 10 65536 65536 1000 120000 true (λ i, i)
    TLV_KEEP_ACTIVE_PARTITION_TIE_BREAKER_DISABLED.
Definition sim_instance (w : sim_world) : @qnetd_instance (@timer_list qnetd_timer) :=
  mk_instance [] [] [] [] (timer_list_init 0) [].
Definition sim_ipc_settings : ipc_settings := mk_ipc_settings (str "/run/qnetd.sock") true 63 (u32 (-1)) 10 10 4096 65536.

Abbreviation sim_state := (@PrPollLoop.state ipc_callback unit (unix_socket_ipc ipc_user_data * sim_world) (option nat)).

Definition sim_started : sim_state :=
  snd (ipc_init sim_ipc_settings
    (timer_list_init 0, [], (pr_poll_loop_init, (mk_ipc 0 0 None [] 0 0 0 0%nat, mk_sim true (str "shutdown" ++ [x0a]) [])))).

Lemma sim_serving : serving sim_started.
Proof.
  pose proof (ipc_init_ok sim_ipc_settings 0
    ((timer_list_init 0, [], (pr_poll_loop_init, (mk_ipc 0 0 None [] 0 0 0 0%nat,
      mk_sim true (str "shutdown" ++ [x0a]) []))) : sim_state)
    ltac:(split_and!; by vm_compute) eq_refl eq_refl) as Hi.
  unfold wp in Hi. fold sim_started in Hi. destruct (ipc_init _ _) as [[r|e] s'] eqn:E; [|vm_compute in E; discriminate E].
  assert (Hr : r = 0) by (vm_compute in E; congruence).
  assert (Es : sim_started = s') by (unfold sim_started; by rewrite E). rewrite Es. by apply Hi.
Qed.

Definition sim_run (rounds : nat) := qnetd_run_main_loop sim_settings sim_names sim_instance (λ i, i) (2 ^ 32 - 1) rounds sim_started.

Lemma qnetd_run_main_loop_safe_witness :
  serving sim_started ∧ fst (sim_run 10) = Ok 0 ∧ sim_outbox (snd (snd (snd (snd (sim_run 10))))) = str "OK" ++ [x0a] ∧
  ipc_socket (ipc_of (snd (sim_run 10))) < 0 ∧ ipc_clients (ipc_of (snd (sim_run 3))) ≠ [].
Proof.
  split; [exact sim_serving|]. split; [vm_compute; reflexivity|]. split; [vm_compute; reflexivity|].
  split; [|vm_compute; discriminate].
  pose proof (qnetd_run_main_loop_safe sim_settings sim_names ltac:(split; [done|intros; by apply Z.leb_le])
    sim_instance (λ i, i) (2 ^ 32 - 1) ltac:(intros; constructor) 10 sim_started sim_serving) as Hs.
  fold (sim_run 10) in Hs. destruct (sim_run 10) as [[r|e] s'] eqn:E; [|vm_compute in E; discriminate E].
  assert (Hr : r = 0) by (vm_compute in E; congruence). subst r.
  destruct Hs as [[_ Hs]|Hs]; [exact Hs|discriminate Hs].
Defined.
