(* ===== verification/QdeviceIpcFacts.v ===== *)
(** The local socket of qdevice: every line gets a reply or ends the connection. *)
From stdpp Require Import strings.
From S2P Require Import Prelude Dynar DynarStr Lex Utils Tlv NodeList Heuristics SendBuffer.
From stdpp Require Import list gmap.
From S2P Require Import TimerList TimerInterface QdeviceInstance.
From S2P Require Import PrPollArray PrPollLoop UnixSocket LocalIpc LocalIpcFacts QdeviceIpc.
Local Open Scope Z_scope.

Definition device_request_ok (r : qdevice_request) : Prop :=
  match r with DEVICE_UNKNOWN_COMMAND word => Z.of_nat (length word) < 2 ^ 62 | _ => True end.

Lemma parse_device_request_ok lex h :
  lex_ok lex →
  match parse_device_request (lex, h) with (Ok r, _) => device_request_ok r | (Err _, _) => False end.
Proof.
  intros Hl. unfold parse_device_request, mbind at 1, M_bind at 1. pose proof (next_token_ok lex h Hl) as Hn.
  destruct (next_token (lex, h)) as [[[word|]|c] [lex1 h1]]; [|done..].
  destruct Hn as (Hl1 & _ & Hlen & _). destruct word as [|b word]; [done|].
  destruct (strcase_eq _ _); [done|]. destruct (strcase_eq _ _); [|done].
  unfold mbind, M_bind. pose proof (next_token_ok lex1 h1 Hl1) as Hn.
  by destruct (next_token (lex1, h1)) as [[[word'|]|c] [lex2 h2]].
Qed.

(** ** Text *)

Lemma len_pad n s k : len_le s k → len_le (pad n s) (Z.of_nat n + k).
Proof. unfold pad. apply len_app. unfold len_le. rewrite length_replicate. lia. Qed.
Lemma len_time t : len_le (fmt_time t) 1000.
Proof.
  unfold fmt_time. eapply len_mono.
  - repeat first [apply len_pad, len_u32 | eapply len_app | apply (Z.leb_le _ 1); reflexivity].
  - done.
Qed.
Lemma len_mode m : len_le (str (qdevice_heuristics_mode_to_str m)) 100.
Proof. apply (Z.leb_le _ 100). by destruct m. Qed.
#[local] Hint Resolve len_time len_mode : texts.

Lemma not_zero_keeps text k : len_le text k → k + 1 < 2 ^ 63 → keeps_wf (catf_not_zero text).
Proof.
  unfold len_le. intros Ht Hk d h Hd. unfold catf_not_zero. pose proof (catf_keeps text ltac:(lia) d h Hd) as Hc.
  destruct (dynar_str_catf text (d, h)) as [[n|c] [d' h']].
  - destruct (n =? 0); [by left|done].
  - destruct Hc as [[-> Hc]| ->]; [done|by right].
Qed.

Section qdevice.
Context {T E : Type} `{TimerOps qdevice_timer T}.
Context (settings : qdevice_settings) (names : qdevice_names).
Abbreviation device := (qdevice_instance T E).

(** Names that fit into memory. *)
Hypothesis cluster_name_fits : len_le (cfg_cluster_name settings) (2 ^ 60).
Hypothesis host_fits : len_le (device_host_addr names) (2 ^ 60).

Lemma config_node_list_keeps i nlist : keeps_wf (config_node_list_loop i nlist).
Proof. revert i. induction nlist as [|n nlist IH]; intros i; cbn [config_node_list_loop]; keeps. Qed.
Lemma membership_node_list_keeps i l : keeps_wf (membership_node_list_loop i l).
Proof. revert i. induction l as [|n l IH]; intros i; cbn [membership_node_list_loop]; keeps. Qed.
Lemma quorum_node_list_keeps i l : keeps_wf (quorum_node_list_loop i l).
Proof.
  revert i. induction l as [|n l IH]; intros i; cbn [quorum_node_list_loop]; [keeps|].
  destruct (vqn_state n); cbn [qdevice_ipc_cmd_vq_nodestate_to_str]; keeps. intros d h _. by right.
Qed.

Lemma net_status_keeps (q : device) verbose : keeps_wf (qdevice_net_ipc_cmd_status settings names q verbose).
Proof.
  unfold qdevice_net_ipc_cmd_status, qdevice_net_ipc_cmd_status_add_header, qdevice_net_ipc_cmd_status_add_basic_info,
    qdevice_net_ipc_cmd_status_add_tie_breaker, qdevice_net_ipc_cmd_status_add_kap_tb_info,
    qdevice_net_ipc_cmd_status_add_poll_timer_status, qdevice_net_ipc_cmd_status_add_state,
    qdevice_net_ipc_cmd_status_add_heuristics, qdevice_net_ipc_cmd_status_add_tls_state,
    qdevice_net_ipc_cmd_status_add_times.
  assert (Hk : len_le (str (kap_tb_str settings (net q))) 100).
  { unfold kap_tb_str. repeat case_match; by apply (Z.leb_le _ 100). }
  assert (Hs : len_le (str (state_str (net q))) 100).
  { unfold state_str. repeat case_match; by apply (Z.leb_le _ 100). }
  keeps.
Qed.

Lemma device_status_keeps (q : device) verbose : keeps_wf (qdevice_ipc_cmd_status settings names q verbose).
Proof.
  unfold qdevice_ipc_cmd_status, qdevice_ipc_cmd_status_add_header, qdevice_ipc_cmd_status_add_model,
    qdevice_ipc_cmd_status_add_nodeid, qdevice_ipc_cmd_status_add_intervals,
    qdevice_ipc_cmd_status_add_config_node_list, qdevice_ipc_cmd_status_add_heuristics,
    qdevice_ipc_cmd_status_add_membership_node_list, qdevice_ipc_cmd_status_add_quorum_node_list,
    qdevice_ipc_cmd_status_add_expected_votes, qdevice_ipc_cmd_status_add_last_poll.
  pose proof config_node_list_keeps. pose proof membership_node_list_keeps.
  pose proof quorum_node_list_keeps. pose proof net_status_keeps. keeps.
  eapply not_zero_keeps; [text_bound|lia].
Qed.

Context {W : Type} `{UnixSystemLaws W} `{IpcNspr W}.

(** Whatever a client of the device asks, it gets a reply or is given up. *)
Lemma qdevice_parse_line_ok (q : device) p c :
  buffers_ok c → touches p c (λ _, replied) (qdevice_ipc_parse_line (W:=W) settings names q p).
Proof.
  intros Hb. unfold qdevice_ipc_parse_line.
  eapply touches_bind; [apply (with_line_ok _ _ _ _ device_request_ok)|].
  - intros h. pose proof Hb as ([_ _ _ Hm] & _). pose proof (parse_device_request_ok
      (dynar_simple_lex_init (uc_receive_buffer c) DYNAR_SIMPLE_LEX_TYPE_PLAIN) h) as Hp.
    destruct (parse_device_request _) as [[r|e] s]; [|exfalso]; apply Hp; (split; [by apply Dynar.wf_init|cbn; lia]).
  - intros r c1 s1 [-> Hr] Hc1.
    assert (Herr : ∀ text, Z.of_nat (length text) + 1 < 2 ^ 63 →
      wp (or_disconnect p (ipc_send_error (W:=W) p text)) s1 (λ _ s2, ∃ c2, touched p c2 s1 s2 ∧ replied c c2)).
    { intros text Ht. apply or_disconnect_ok; [by apply send_error_ok|exact Hc1]. }
    destruct r as [| |verbose|word|].
    + apply Herr. by apply Z.ltb_lt.
    + by apply shutdown_ok.
    + apply answer_command_ok; [apply device_status_keeps|done|by apply Z.ltb_lt|done].
    + apply Herr. rewrite !length_app. cbn in Hr |- *. lia.
    + apply Herr. by apply Z.ltb_lt.
Qed.
End qdevice.
