(* ===== verification/AdvancedSettings.v ===== *)
(** The option -S of the daemons (cli_parse_long_opt of corosync-qnetd.c and corosync-qdevice.c,
    qnetd-advanced-settings.c, qdevice-advanced-settings.c, utils.c): what both have in common.

    The settings of a daemon are its numbers, its texts and one thing of its own.  The chain of
    comparisons of the two functions that set an option is a table, of which the first line whose
    name is that of the option counts. *)
From stdpp Require Import strings.
From S2P Require Import Prelude Dynar DynarStr Lex Heuristics Utils.
From stdpp Require Import list.
Local Open Scope Z_scope.

Definition INT_MAX : Z := 2 ^ 31 - 1.
Definition UINT_MAX : Z := 2 ^ 32 - 1.
Definition UTILS_GID_DETERMINE_MAX_SIZE : Z := 65536.

(** ** Groups *)

(** What [getgrnam_r] says with a buffer of some size. *)
Inductive group_answer := GROUP_ERANGE | GROUP_ERROR | GROUP_UNKNOWN | GROUP_GID (gid : Z).

(** The groups of the system, and the size of the buffer that [sysconf] recommends. *)
Class GroupSystem := {
  getgrnam_r : c_string → Z → group_answer;
  GETGR_R_SIZE_MAX : Z
}.

Definition allocated_ok : M heap bool := λ h, let '(r, h) := malloc h in (Ok (bool_decide (r ≠ None)), h).

Section groups.
Context `{GroupSystem}.

(** [None]: an error. *)
Fixpoint group_gid_loop (fuel : nat) (grp_name : c_string) (grp_buf_size : Z) : M heap (option Z) :=
  match fuel with
  | O => fail OUT_OF_FUEL
  | S fuel =>
      match getgrnam_r grp_name grp_buf_size with
      | GROUP_ERANGE =>
          if UTILS_GID_DETERMINE_MAX_SIZE <? grp_buf_size * 2 then mret None
          else
            ok ← allocated_ok;
            if negb ok then mret None else group_gid_loop fuel grp_name (grp_buf_size * 2)
      | GROUP_ERROR | GROUP_UNKNOWN => mret None
      | GROUP_GID gid => mret (Some gid)
      end
  end.

(** [(gid_t)-1] for no group. *)
Definition utils_get_group_gid (grp_name : c_string) : M heap (option Z) :=
  if bool_decide (grp_name = []) then mret (Some (u32 (-1)))
  else
    match utils_strtonum grp_name (-1) UINT_MAX with
    | Some tmpll => mret (Some (u32 tmpll))
    | None =>
        let grp_buf_size := if GETGR_R_SIZE_MAX =? -1 then 4096 else GETGR_R_SIZE_MAX in
        ok ← allocated_ok;
        if negb ok then mret None else group_gid_loop 20 grp_name grp_buf_size
    end.
End groups.

(** ** Floating point *)

(** [strtod]: the number, whether [errno] is set, what follows; [None]: nothing is a number. *)
Class CDouble (D : Type) := {
  strtod : c_string → option (D * bool * c_string);
  double_lt : D → D → bool;
  isnan : D → bool;
  double_of : Z → D
}.

Definition utils_strtod `{CDouble D} (s : c_string) (min_val max_val : D) : option D :=
  if double_lt max_val min_val then None
  else
    match strtod s with
    | None => None
    | Some (tmp_d, errno, rest) =>
        if negb (bool_decide (rest = [])) || errno then None
        else if double_lt tmp_d min_val || double_lt max_val tmp_d || isnan tmp_d then None
        else Some tmp_d
    end.

(** ** Settings *)

Section settings.
(** The names of the numbers and of the texts, and what else there is. *)
Context {N T X : Type} `{EqDecision N, EqDecision T, GroupSystem}.

Record advanced_settings := mk_advanced {
  number : N → Z;
  text : T → option c_string;
  set_socket_umask : bool;
  socket_umask : Z;
  socket_gid : Z;
  other_setting : X
}.

Definition set_number (f : N) (v : Z) (s : advanced_settings) : advanced_settings :=
  mk_advanced (λ g, if decide (g = f) then v else number s g) (text s) (set_socket_umask s) (socket_umask s)
    (socket_gid s) (other_setting s).
Definition set_text (f : T) (v : option c_string) (s : advanced_settings) : advanced_settings :=
  mk_advanced (number s) (λ g, if decide (g = f) then v else text s g) (set_socket_umask s) (socket_umask s)
    (socket_gid s) (other_setting s).
Definition set_umask (v : option Z) (s : advanced_settings) : advanced_settings :=
  mk_advanced (number s) (text s) (bool_decide (is_Some v)) (default (socket_umask s) v) (socket_gid s)
    (other_setting s).
Definition set_gid (v : Z) (s : advanced_settings) : advanced_settings :=
  mk_advanced (number s) (text s) (set_socket_umask s) (socket_umask s) v (other_setting s).
Definition set_other (v : X) (s : advanced_settings) : advanced_settings :=
  mk_advanced (number s) (text s) (set_socket_umask s) (socket_umask s) (socket_gid s) v.

(** What an option sets, and what it may be. *)
Inductive option_kind :=
| NUMBER (f : N) (min_val max_val : Z)
| BOOLEAN (f : N)
| TEXT (f : T)
| LOCAL_SOCKET_UMASK
| LOCAL_SOCKET_GID
| DEPRECATED
| OTHER (parse : c_string → option X).

Fixpoint find_option (table : list (string * option_kind)) (opt : c_string) : option option_kind :=
  match table with
  | [] => None
  | (name, kind) :: table' => if strcase_eq opt (str name) then Some kind else find_option table' opt
  end.

Definition strdup (s : c_string) : M heap (option c_string) :=
  ok ← allocated_ok; mret (if ok : bool then Some s else None).

Definition on_heap {A} (m : M heap A) : M (advanced_settings * heap) A := λ '(s, h),
  let '(r, h) := m h in (r, (s, h)).
Definition change (f : advanced_settings → advanced_settings) : M (advanced_settings * heap) Z :=
  modify (λ '(s, h), (f s, h));; mret 0.
(** [-2]: the value is wrong. *)
Definition change_if {A} (v : option A) (f : A → advanced_settings → advanced_settings) :
    M (advanced_settings * heap) Z :=
  match v with Some v => change (f v) | None => mret (-2) end.

Definition set_option (kind : option_kind) (value : c_string) : M (advanced_settings * heap) Z :=
  match kind with
  | NUMBER f min_val max_val => change_if (utils_strtonum value min_val max_val) (set_number f)
  | BOOLEAN f =>
      let tmpll := utils_parse_bool_str value in
      if tmpll =? -1 then mret (-2) else change (set_number f tmpll)
  | TEXT f =>
      v ← on_heap (strdup value);
      change (set_text f v);;
      mret (if bool_decide (v = None) then -1 else 0)
  | LOCAL_SOCKET_UMASK => change_if (utils_parse_umask value) set_umask
  | LOCAL_SOCKET_GID => gid ← on_heap (utils_get_group_gid value); change_if gid set_gid
  | DEPRECATED => mret (-3)
  | OTHER parse => change_if (parse value) set_other
  end.

(** 0, -1: unknown option or no memory, -2: incorrect value, -3: deprecated. *)
Definition advanced_settings_set (table : list (string * option_kind)) (opt value : c_string) :
    M (advanced_settings * heap) Z :=
  match find_option table opt with
  | Some kind => set_option kind value
  | None => mret (-1)
  end.

(** The texts are freed. *)
Definition advanced_settings_destroy (s : advanced_settings) : advanced_settings :=
  mk_advanced (number s) (λ _, None) (set_socket_umask s) (socket_umask s) (socket_gid s) (other_setting s).

(** The copies of the default texts; [false]: no memory. *)
Fixpoint strdup_all (l : list T) : M heap bool :=
  match l with
  | [] => mret true
  | _ :: l' => ok ← allocated_ok; if negb ok then mret false else strdup_all l'
  end.
End settings.
Arguments advanced_settings N T X : clear implicits.
Arguments option_kind N T X : clear implicits.

(** ** The option -S *)

Section long_opt.
Context {S : Type} (settings_set : c_string → c_string → M (S * heap) Z).

(** The process ends on an option that is unknown and on a value that is wrong. *)
Fixpoint long_opt_loop (fuel : nat) (lex : dynar_getopt_lex) : M (S * heap) unit := λ '(s, h),
  match fuel with
  | O => (Err OUT_OF_FUEL, (s, h))
  | Datatypes.S fuel =>
      match dynar_getopt_lex_token_next (lex, h) with
      | (Err c, (_, h)) => (Err c, (s, h))
      | (Ok res, (lex, h)) =>
          let opt := until_nul (contents (getopt_option lex)) in
          let val := until_nul (contents (getopt_value lex)) in
          if negb (res =? 0) || bool_decide (opt = []) then (Ok tt, (s, h))
          else
            match settings_set opt val (s, h) with
            | (Err c, sh) => (Err c, sh)
            | (Ok res, sh) =>
                if (res =? -1) || (res =? -2) then (Err EXIT, sh) else long_opt_loop fuel lex sh
            end
      end
  end.

Definition cli_parse_long_opt (long_opt : c_string) : M (S * heap) unit := λ '(s, h),
  match dynar_str_cpy long_opt (dynar_init (u64 (Z.of_nat (length long_opt) + 1)), h) with
  | (Err _, (_, h)) => (Err EXIT, (s, h))
  | (Ok _, (dynar_long_opt, h)) =>
      long_opt_loop (2 + length long_opt) (dynar_getopt_lex_init dynar_long_opt) (s, h)
  end.
End long_opt.
