(* ===== verification/QnetdSettings.v ===== *)
(** The settings of qnetd and its command line (qnetd-advanced-settings.c, corosync-qnetd.c). *)
From stdpp Require Import strings.
From S2P Require Import Prelude Dynar DynarStr Lex Tlv Heuristics Utils AdvancedSettings.
From stdpp Require Import list.
Local Open Scope Z_scope.

(** ** Bounds and defaults *)

Definition QNETD_MIN_LISTEN_BACKLOG : Z := 1.
Definition QNETD_MIN_CLIENT_SEND_BUFFERS : Z := 2.
Definition QNETD_MIN_CLIENT_RECEIVE_SEND_SIZE : Z := 16.
Definition QNETD_MIN_HEARTBEAT_INTERVAL : Z := 1.
Definition QNETD_MIN_LOCAL_SOCKET_BACKLOG : Z := 1.
Definition QNETD_MIN_IPC_MAX_CLIENTS : Z := 0.
Definition QNETD_MIN_IPC_RECEIVE_SEND_SIZE : Z := 1024.
Definition QNETD_DEFAULT_LISTEN_BACKLOG : Z := 10.
Definition QNETD_DEFAULT_MAX_CLIENT_SEND_BUFFERS : Z := 32.
Definition QNETD_DEFAULT_MAX_CLIENT_SEND_SIZE : Z := 2 ^ 15.
Definition QNETD_DEFAULT_MAX_CLIENT_RECEIVE_SIZE : Z := 2 ^ 15.
Definition QNETD_DEFAULT_HEARTBEAT_INTERVAL_MIN : Z := 1 * 1000.
Definition QNETD_DEFAULT_HEARTBEAT_INTERVAL_MAX : Z := 2 * 60 * 1000.
Definition QNETD_DEFAULT_DPD_ENABLED : Z := 1.
Definition QNETD_DEFAULT_LOCAL_SOCKET_BACKLOG : Z := 10.
Definition QNETD_DEFAULT_IPC_MAX_CLIENTS : Z := 10.
Definition QNETD_DEFAULT_IPC_MAX_RECEIVE_SIZE : Z := 4 * 1024.
Definition QNETD_DEFAULT_IPC_MAX_SEND_SIZE : Z := 10 * 1024 * 1024.

(** The numbers and the texts of [struct qnetd_advanced_settings]. *)
Inductive qnetd_number :=
| listen_backlog | max_client_send_buffers | max_client_send_size | max_client_receive_size
| heartbeat_interval_min | heartbeat_interval_max | dpd_enabled | local_socket_backlog
| ipc_max_clients | ipc_max_receive_size | ipc_max_send_size | keep_active_partition_tie_breaker.
#[export] Instance qnetd_number_eq_dec : EqDecision qnetd_number.
Proof. solve_decision. Defined.

Inductive qnetd_text :=
| nss_db_dir | cert_nickname | lock_file | local_socket_file.
#[export] Instance qnetd_text_eq_dec : EqDecision qnetd_text.
Proof. solve_decision. Defined.

(** ** Options *)

Section qnetd_settings.
Context {D : Type} `{CDouble D, GroupSystem}.
(** The directories the program was built for. *)
Context (COROSYSCONFDIR LOCALSTATEDIR : c_string).

Abbreviation kind := (option_kind qnetd_number qnetd_text D).
Abbreviation settings := (advanced_settings qnetd_number qnetd_text D).

Definition parse_dpd_interval_coefficient (value : c_string) : option D :=
  utils_strtod value (double_of 1) (double_of 1000).

(** Coefficients are between 1 and 1000. *)
Definition qnetd_options : list (string * kind) := [
  ("listen_backlog", NUMBER listen_backlog QNETD_MIN_LISTEN_BACKLOG INT_MAX);
  ("max_client_send_buffers", NUMBER max_client_send_buffers QNETD_MIN_CLIENT_SEND_BUFFERS LLONG_MAX);
  ("max_client_send_size", NUMBER max_client_send_size QNETD_MIN_CLIENT_RECEIVE_SEND_SIZE LLONG_MAX);
  ("max_client_receive_size", NUMBER max_client_receive_size QNETD_MIN_CLIENT_RECEIVE_SEND_SIZE LLONG_MAX);
  ("nss_db_dir", TEXT nss_db_dir);
  ("cert_nickname", TEXT cert_nickname);
  ("heartbeat_interval_min", NUMBER heartbeat_interval_min QNETD_MIN_HEARTBEAT_INTERVAL UINT32_MAX);
  ("heartbeat_interval_max", NUMBER heartbeat_interval_max QNETD_MIN_HEARTBEAT_INTERVAL UINT32_MAX);
  ("dpd_enabled", BOOLEAN dpd_enabled);
  ("dpd_interval", DEPRECATED);
  ("dpd_interval_coefficient", OTHER parse_dpd_interval_coefficient);
  ("lock_file", TEXT lock_file);
  ("local_socket_file", TEXT local_socket_file);
  ("local_socket_umask", LOCAL_SOCKET_UMASK);
  ("local_socket_gid", LOCAL_SOCKET_GID);
  ("local_socket_backlog", NUMBER local_socket_backlog QNETD_MIN_LOCAL_SOCKET_BACKLOG INT_MAX);
  ("ipc_max_clients", NUMBER ipc_max_clients QNETD_MIN_IPC_MAX_CLIENTS LLONG_MAX);
  ("ipc_max_receive_size", NUMBER ipc_max_receive_size QNETD_MIN_IPC_RECEIVE_SEND_SIZE LLONG_MAX);
  ("ipc_max_send_size", NUMBER ipc_max_send_size QNETD_MIN_IPC_RECEIVE_SEND_SIZE LLONG_MAX);
  ("keep_active_partition_tie_breaker", BOOLEAN keep_active_partition_tie_breaker)
].

Definition qnetd_advanced_settings_set : c_string → c_string → M (settings * heap) Z :=
  advanced_settings_set qnetd_options.

(** ** Defaults *)

Definition qnetd_default_number (f : qnetd_number) : Z :=
  match f with
  | listen_backlog => QNETD_DEFAULT_LISTEN_BACKLOG
  | max_client_send_buffers => QNETD_DEFAULT_MAX_CLIENT_SEND_BUFFERS
  | max_client_send_size => QNETD_DEFAULT_MAX_CLIENT_SEND_SIZE
  | max_client_receive_size => QNETD_DEFAULT_MAX_CLIENT_RECEIVE_SIZE
  | heartbeat_interval_min => QNETD_DEFAULT_HEARTBEAT_INTERVAL_MIN
  | heartbeat_interval_max => QNETD_DEFAULT_HEARTBEAT_INTERVAL_MAX
  | dpd_enabled => QNETD_DEFAULT_DPD_ENABLED
  | local_socket_backlog => QNETD_DEFAULT_LOCAL_SOCKET_BACKLOG
  | ipc_max_clients => QNETD_DEFAULT_IPC_MAX_CLIENTS
  | ipc_max_receive_size => QNETD_DEFAULT_IPC_MAX_RECEIVE_SIZE
  | ipc_max_send_size => QNETD_DEFAULT_IPC_MAX_SEND_SIZE
  | keep_active_partition_tie_breaker => 0
  end.

Definition qnetd_default_text (f : qnetd_text) : c_string :=
  match f with
  | nss_db_dir => COROSYSCONFDIR ++ str "/qnetd/nssdb"
  | cert_nickname => str "QNetd Cert"
  | lock_file => LOCALSTATEDIR ++ str "/run/corosync-qnetd/corosync-qnetd.pid"
  | local_socket_file => LOCALSTATEDIR ++ str "/run/corosync-qnetd/corosync-qnetd.sock"
  end.

(** [strtod] gives one and a half. *)
Context (one_and_a_half : D).

(** [None]: no memory. *)
Definition qnetd_advanced_settings_init : M heap (option settings) :=
  ok ← strdup_all [nss_db_dir; cert_nickname; lock_file; local_socket_file];
  mret (if ok : bool
        then Some (mk_advanced qnetd_default_number (λ f, Some (qnetd_default_text f)) false 0 (u32 (-1)) one_and_a_half)
        else None).

Definition qnetd_advanced_settings_destroy : settings → settings := advanced_settings_destroy.

(** ** Command line *)

Inductive address_family_setting := PR_AF_UNSPEC | PR_AF_INET | PR_AF_INET6.

Record qnetd_cli := mk_qnetd_cli {
  cli_host_addr : option c_string;
  cli_host_port : Z;
  cli_foreground : bool;
  cli_debug_log : bool;
  cli_bump_log_priority : bool;
  cli_tls_supported : tlv_tls_supported;
  cli_client_cert_required : Z;
  cli_max_clients : Z;
  cli_address_family : address_family_setting
}.
Definition qnetd_cli_init : qnetd_cli :=
  mk_qnetd_cli None 5403 false false false TLV_TLS_SUPPORTED 1 0 PR_AF_UNSPEC.

Definition tls_setting (optarg : c_string) : option tlv_tls_supported :=
  if strcase_eq optarg (str "on") then Some TLV_TLS_SUPPORTED
  else if strcase_eq optarg (str "off") then Some TLV_TLS_UNSUPPORTED
  else if strcase_eq optarg (str "req") then Some TLV_TLS_REQUIRED
  else None.

(** What [getopt] found: an option and its argument.  [None]: the process ends. *)
Definition qnetd_cli_option (ch : byte) (optarg : c_string) (c : qnetd_cli) : option qnetd_cli :=
  let '(mk_qnetd_cli addr port fg dbg bump tls cert clients af) := c in
  match ch with
  | x34 => Some (mk_qnetd_cli addr port fg dbg bump tls cert clients PR_AF_INET)
  | x36 => Some (mk_qnetd_cli addr port fg dbg bump tls cert clients PR_AF_INET6)
  | x66 => Some (mk_qnetd_cli addr port true dbg bump tls cert clients af)
  | x64 => Some (mk_qnetd_cli addr port fg true (bump || dbg) tls cert clients af)
  | x63 =>
      let required := utils_parse_bool_str optarg in
      if required =? -1 then None else Some (mk_qnetd_cli addr port fg dbg bump tls required clients af)
  | x6c => Some (mk_qnetd_cli (Some optarg) port fg dbg bump tls cert clients af)
  | x6d =>
      tmpll ← utils_strtonum optarg 0 LLONG_MAX;
      Some (mk_qnetd_cli addr port fg dbg bump tls cert tmpll af)
  | x70 =>
      tmpll ← utils_strtonum optarg 1 UINT16_MAX;
      Some (mk_qnetd_cli addr (u16 tmpll) fg dbg bump tls cert clients af)
  | x73 => tls ← tls_setting optarg; Some (mk_qnetd_cli addr port fg dbg bump tls cert clients af)
  | x76 | x68 | x3f => None
  | _ => Some c
  end.

(** The letter S is for the settings. *)
Fixpoint qnetd_cli_parse (opts : list (byte * c_string)) (c : qnetd_cli) : M (settings * heap) qnetd_cli :=
  match opts with
  | [] => mret c
  | (x53, optarg) :: opts' =>
      cli_parse_long_opt qnetd_advanced_settings_set optarg;; qnetd_cli_parse opts' c
  | (ch, optarg) :: opts' =>
      match qnetd_cli_option ch optarg c with
      | None => fail EXIT
      | Some c => qnetd_cli_parse opts' c
      end
  end.
End qnetd_settings.
