(* ===== verification/QdeviceSettings.v ===== *)
(** The settings of qdevice and its command line (qdevice-advanced-settings.c,
    corosync-qdevice.c). *)
From stdpp Require Import strings.
From S2P Require Import Prelude Dynar DynarStr Lex Tlv Heuristics Utils AdvancedSettings.
From stdpp Require Import list.
Local Open Scope Z_scope.

(** ** Bounds and defaults *)

Definition QDEVICE_MIN_LOCAL_SOCKET_BACKLOG : Z := 1.
Definition QDEVICE_MIN_MAX_CS_TRY_AGAIN : Z := 1.
Definition QDEVICE_MIN_IPC_MAX_CLIENTS : Z := 0.
Definition QDEVICE_MIN_IPC_RECEIVE_SEND_SIZE : Z := 1024.
Definition QDEVICE_MIN_HEURISTICS_IPC_MAX_SEND_BUFFERS : Z := 10.
Definition QDEVICE_MIN_HEURISTICS_IPC_MAX_SEND_RECEIVE_SIZE : Z := 1024.
Definition QDEVICE_MIN_HEURISTICS_TIMEOUT : Z := 250.
Definition QDEVICE_MIN_HEURISTICS_INTERVAL : Z := QDEVICE_MIN_HEURISTICS_TIMEOUT.
Definition QDEVICE_MIN_HEURISTICS_MAX_EXECS : Z := 1.
Definition QDEVICE_MIN_HEURISTICS_MAX_PROCESSES : Z := 1.
Definition QDEVICE_MIN_HEURISTICS_KILL_LIST_INTERVAL : Z := QDEVICE_MIN_HEURISTICS_TIMEOUT.
Definition QDEVICE_NET_MIN_MSG_RECEIVE_SEND_SIZE : Z := 16.
Definition QDEVICE_NET_MIN_MAX_SEND_BUFFERS : Z := 2.
Definition QDEVICE_NET_MIN_HEARTBEAT_INTERVAL : Z := 1.
Definition QDEVICE_NET_MIN_CONNECT_TIMEOUT : Z := 1.
Definition QDEVICE_DEFAULT_LOCAL_SOCKET_BACKLOG : Z := 10.
Definition QDEVICE_DEFAULT_MAX_CS_TRY_AGAIN : Z := 10.
Definition QDEVICE_DEFAULT_IPC_MAX_CLIENTS : Z := 10.
Definition QDEVICE_DEFAULT_IPC_MAX_RECEIVE_SIZE : Z := 4 * 1024.
Definition QDEVICE_DEFAULT_IPC_MAX_SEND_SIZE : Z := 64 * 1024.
Definition QDEVICE_DEFAULT_HEURISTICS_IPC_MAX_SEND_BUFFERS : Z := 128.
Definition QDEVICE_DEFAULT_HEURISTICS_IPC_MAX_SEND_RECEIVE_SIZE : Z := 4 * 1024.
Definition QDEVICE_DEFAULT_HEURISTICS_MIN_TIMEOUT : Z := 1 * 1000.
Definition QDEVICE_DEFAULT_HEURISTICS_MAX_TIMEOUT : Z := 2 * 60 * 1000.
Definition QDEVICE_DEFAULT_HEURISTICS_MIN_INTERVAL : Z := QDEVICE_DEFAULT_HEURISTICS_MIN_TIMEOUT.
Definition QDEVICE_DEFAULT_HEURISTICS_MAX_INTERVAL : Z := 60 * 60 * 1000.
Definition QDEVICE_DEFAULT_HEURISTICS_MAX_EXECS : Z := 32.
Definition QDEVICE_DEFAULT_HEURISTICS_USE_EXECVP : Z := 0.
Definition QDEVICE_DEFAULT_HEURISTICS_MAX_PROCESSES : Z := QDEVICE_DEFAULT_HEURISTICS_MAX_EXECS * 5.
Definition QDEVICE_DEFAULT_HEURISTICS_KILL_LIST_INTERVAL : Z := 5 * 1000.
Definition QDEVICE_NET_DEFAULT_INITIAL_MSG_RECEIVE_SIZE : Z := 2 ^ 15.
Definition QDEVICE_NET_DEFAULT_INITIAL_MSG_SEND_SIZE : Z := 2 ^ 15.
Definition QDEVICE_NET_DEFAULT_MIN_MSG_SEND_SIZE : Z := QDEVICE_NET_DEFAULT_INITIAL_MSG_SEND_SIZE.
Definition QDEVICE_NET_DEFAULT_MAX_MSG_RECEIVE_SIZE : Z := 2 ^ 24.
Definition QDEVICE_NET_DEFAULT_MAX_SEND_BUFFERS : Z := 10.
Definition QNETD_DEFAULT_HEARTBEAT_INTERVAL_MIN : Z := 1 * 1000.
Definition QDEVICE_NET_DEFAULT_HEARTBEAT_INTERVAL_MIN : Z := QNETD_DEFAULT_HEARTBEAT_INTERVAL_MIN.
Definition QNETD_DEFAULT_HEARTBEAT_INTERVAL_MAX : Z := 2 * 60 * 1000.
Definition QDEVICE_NET_DEFAULT_HEARTBEAT_INTERVAL_MAX : Z := QNETD_DEFAULT_HEARTBEAT_INTERVAL_MAX.
Definition QDEVICE_NET_DEFAULT_MIN_CONNECT_TIMEOUT : Z := 1 * 1000.
Definition QDEVICE_NET_DEFAULT_MAX_CONNECT_TIMEOUT : Z := 2 * 60 * 1000.

(** The numbers and the texts of [struct qdevice_advanced_settings]. *)
Inductive qdevice_number :=
| local_socket_backlog | max_cs_try_again | ipc_max_clients | ipc_max_receive_size
| ipc_max_send_size | heuristics_ipc_max_send_buffers | heuristics_ipc_max_send_receive_size
| heuristics_min_timeout | heuristics_max_timeout | heuristics_min_interval
| heuristics_max_interval | heuristics_max_execs | heuristics_use_execvp
| heuristics_max_processes | heuristics_kill_list_interval | net_initial_msg_receive_size
| net_initial_msg_send_size | net_min_msg_send_size | net_max_msg_receive_size
| net_max_send_buffers | net_heartbeat_interval_min | net_heartbeat_interval_max
| net_min_connect_timeout | net_max_connect_timeout | net_test_algorithm_enabled.
#[export] Instance qdevice_number_eq_dec : EqDecision qdevice_number.
Proof. solve_decision. Defined.

Inductive qdevice_text :=
| lock_file | local_socket_file | votequorum_device_name | net_nss_db_dir | net_nss_qnetd_cn
| net_nss_client_cert_nickname.
#[export] Instance qdevice_text_eq_dec : EqDecision qdevice_text.
Proof. solve_decision. Defined.

(** ** Options *)

Inductive master_wins_setting :=
| QDEVICE_ADVANCED_SETTINGS_MASTER_WINS_MODEL
| QDEVICE_ADVANCED_SETTINGS_MASTER_WINS_FORCE_ON
| QDEVICE_ADVANCED_SETTINGS_MASTER_WINS_FORCE_OFF.

Section qdevice_settings.
Context `{GroupSystem}.
(** The directories the program was built for, and whether for debugging. *)
Context (COROSYSCONFDIR LOCALSTATEDIR : c_string) (debug_build : bool).

Abbreviation kind := (option_kind qdevice_number qdevice_text master_wins_setting).
Abbreviation settings := (advanced_settings qdevice_number qdevice_text master_wins_setting).

Definition parse_master_wins (value : c_string) : option master_wins_setting :=
  let tmpll := utils_parse_bool_str value in
  if tmpll =? 0 then Some QDEVICE_ADVANCED_SETTINGS_MASTER_WINS_FORCE_OFF
  else if tmpll =? 1 then Some QDEVICE_ADVANCED_SETTINGS_MASTER_WINS_FORCE_ON
  else if strcase_eq value (str "model") then Some QDEVICE_ADVANCED_SETTINGS_MASTER_WINS_MODEL
  else None.

(** The daemon. *)
Definition qdevice_local_options : list (string * kind) := [
  ("lock_file", TEXT lock_file);
  ("local_socket_file", TEXT local_socket_file);
  ("local_socket_umask", LOCAL_SOCKET_UMASK);
  ("local_socket_gid", LOCAL_SOCKET_GID);
  ("local_socket_backlog", NUMBER local_socket_backlog QDEVICE_MIN_LOCAL_SOCKET_BACKLOG INT_MAX);
  ("max_cs_try_again", NUMBER max_cs_try_again QDEVICE_MIN_MAX_CS_TRY_AGAIN INT_MAX);
  ("votequorum_device_name", TEXT votequorum_device_name);
  ("ipc_max_clients", NUMBER ipc_max_clients QDEVICE_MIN_IPC_MAX_CLIENTS LLONG_MAX);
  ("ipc_max_receive_size", NUMBER ipc_max_receive_size QDEVICE_MIN_IPC_RECEIVE_SEND_SIZE LLONG_MAX);
  ("ipc_max_send_size", NUMBER ipc_max_send_size QDEVICE_MIN_IPC_RECEIVE_SEND_SIZE LLONG_MAX)
].

(** The heuristics. *)
Definition qdevice_heuristics_options : list (string * kind) := [
  ("heuristics_ipc_max_send_buffers", NUMBER heuristics_ipc_max_send_buffers QDEVICE_MIN_HEURISTICS_IPC_MAX_SEND_BUFFERS LLONG_MAX);
  ("heuristics_ipc_max_send_receive_size", NUMBER heuristics_ipc_max_send_receive_size QDEVICE_MIN_HEURISTICS_IPC_MAX_SEND_RECEIVE_SIZE LLONG_MAX);
  ("heuristics_min_timeout", NUMBER heuristics_min_timeout QDEVICE_MIN_HEURISTICS_TIMEOUT UINT32_MAX);
  ("heuristics_max_timeout", NUMBER heuristics_max_timeout QDEVICE_MIN_HEURISTICS_TIMEOUT UINT32_MAX);
  ("heuristics_min_interval", NUMBER heuristics_min_interval QDEVICE_MIN_HEURISTICS_INTERVAL UINT32_MAX);
  ("heuristics_max_interval", NUMBER heuristics_max_interval QDEVICE_MIN_HEURISTICS_INTERVAL UINT32_MAX);
  ("heuristics_max_execs", NUMBER heuristics_max_execs QDEVICE_MIN_HEURISTICS_MAX_EXECS LLONG_MAX);
  ("heuristics_use_execvp", BOOLEAN heuristics_use_execvp);
  ("heuristics_max_processes", NUMBER heuristics_max_processes QDEVICE_MIN_HEURISTICS_MAX_PROCESSES LLONG_MAX);
  ("heuristics_kill_list_interval", NUMBER heuristics_kill_list_interval QDEVICE_MIN_HEURISTICS_KILL_LIST_INTERVAL UINT32_MAX)
].

(** The model net, and [master_wins]. *)
Definition qdevice_net_options : list (string * kind) := [
  ("net_nss_db_dir", TEXT net_nss_db_dir);
  ("net_initial_msg_receive_size", NUMBER net_initial_msg_receive_size QDEVICE_NET_MIN_MSG_RECEIVE_SEND_SIZE LLONG_MAX);
  ("net_initial_msg_send_size", NUMBER net_initial_msg_send_size QDEVICE_NET_MIN_MSG_RECEIVE_SEND_SIZE LLONG_MAX);
  ("net_min_msg_send_size", NUMBER net_min_msg_send_size QDEVICE_NET_MIN_MSG_RECEIVE_SEND_SIZE LLONG_MAX);
  ("net_max_msg_receive_size", NUMBER net_max_msg_receive_size QDEVICE_NET_MIN_MSG_RECEIVE_SEND_SIZE LLONG_MAX);
  ("net_max_send_buffers", NUMBER net_max_send_buffers QDEVICE_NET_MIN_MAX_SEND_BUFFERS LLONG_MAX);
  ("net_nss_qnetd_cn", TEXT net_nss_qnetd_cn);
  ("net_nss_client_cert_nickname", TEXT net_nss_client_cert_nickname);
  ("net_heartbeat_interval_min", NUMBER net_heartbeat_interval_min QDEVICE_NET_MIN_HEARTBEAT_INTERVAL UINT32_MAX);
  ("net_heartbeat_interval_max", NUMBER net_heartbeat_interval_max QDEVICE_NET_MIN_HEARTBEAT_INTERVAL UINT32_MAX);
  ("net_min_connect_timeout", NUMBER net_min_connect_timeout QDEVICE_NET_MIN_CONNECT_TIMEOUT UINT32_MAX);
  ("net_max_connect_timeout", NUMBER net_max_connect_timeout QDEVICE_NET_MIN_CONNECT_TIMEOUT UINT32_MAX);
  ("net_test_algorithm_enabled", BOOLEAN net_test_algorithm_enabled);
  ("master_wins", OTHER parse_master_wins)
].

Definition qdevice_advanced_settings_set : c_string → c_string → M (settings * heap) Z :=
  advanced_settings_set (qdevice_local_options ++ qdevice_heuristics_options ++ qdevice_net_options).

(** ** Defaults *)

Definition qdevice_default_number (f : qdevice_number) : Z :=
  match f with
  | local_socket_backlog => QDEVICE_DEFAULT_LOCAL_SOCKET_BACKLOG
  | max_cs_try_again => QDEVICE_DEFAULT_MAX_CS_TRY_AGAIN
  | ipc_max_clients => QDEVICE_DEFAULT_IPC_MAX_CLIENTS
  | ipc_max_receive_size => QDEVICE_DEFAULT_IPC_MAX_RECEIVE_SIZE
  | ipc_max_send_size => QDEVICE_DEFAULT_IPC_MAX_SEND_SIZE
  | heuristics_ipc_max_send_buffers => QDEVICE_DEFAULT_HEURISTICS_IPC_MAX_SEND_BUFFERS
  | heuristics_ipc_max_send_receive_size => QDEVICE_DEFAULT_HEURISTICS_IPC_MAX_SEND_RECEIVE_SIZE
  | heuristics_min_timeout => QDEVICE_DEFAULT_HEURISTICS_MIN_TIMEOUT
  | heuristics_max_timeout => QDEVICE_DEFAULT_HEURISTICS_MAX_TIMEOUT
  | heuristics_min_interval => QDEVICE_DEFAULT_HEURISTICS_MIN_INTERVAL
  | heuristics_max_interval => QDEVICE_DEFAULT_HEURISTICS_MAX_INTERVAL
  | heuristics_max_execs => QDEVICE_DEFAULT_HEURISTICS_MAX_EXECS
  | heuristics_use_execvp => QDEVICE_DEFAULT_HEURISTICS_USE_EXECVP
  | heuristics_max_processes => QDEVICE_DEFAULT_HEURISTICS_MAX_PROCESSES
  | heuristics_kill_list_interval => QDEVICE_DEFAULT_HEURISTICS_KILL_LIST_INTERVAL
  | net_initial_msg_receive_size => QDEVICE_NET_DEFAULT_INITIAL_MSG_RECEIVE_SIZE
  | net_initial_msg_send_size => QDEVICE_NET_DEFAULT_INITIAL_MSG_SEND_SIZE
  | net_min_msg_send_size => QDEVICE_NET_DEFAULT_MIN_MSG_SEND_SIZE
  | net_max_msg_receive_size => QDEVICE_NET_DEFAULT_MAX_MSG_RECEIVE_SIZE
  | net_max_send_buffers => QDEVICE_NET_DEFAULT_MAX_SEND_BUFFERS
  | net_heartbeat_interval_min => QDEVICE_NET_DEFAULT_HEARTBEAT_INTERVAL_MIN
  | net_heartbeat_interval_max => QDEVICE_NET_DEFAULT_HEARTBEAT_INTERVAL_MAX
  | net_min_connect_timeout => QDEVICE_NET_DEFAULT_MIN_CONNECT_TIMEOUT
  | net_max_connect_timeout => QDEVICE_NET_DEFAULT_MAX_CONNECT_TIMEOUT
  | net_test_algorithm_enabled => if debug_build then 1 else 0
  end.

Definition qdevice_default_text (f : qdevice_text) : c_string :=
  match f with
  | lock_file => LOCALSTATEDIR ++ str "/run/corosync-qdevice/corosync-qdevice.pid"
  | local_socket_file => LOCALSTATEDIR ++ str "/run/corosync-qdevice/corosync-qdevice.sock"
  | votequorum_device_name => str "Qdevice"
  | net_nss_db_dir => COROSYSCONFDIR ++ str "/qdevice/net/nssdb"
  | net_nss_qnetd_cn => str "Qnetd Server"
  | net_nss_client_cert_nickname => str "Cluster Cert"
  end.

(** [None]: no memory. *)
Definition qdevice_advanced_settings_init : M heap (option settings) :=
  ok ← strdup_all [lock_file; local_socket_file; votequorum_device_name; net_nss_db_dir; net_nss_qnetd_cn;
                   net_nss_client_cert_nickname];
  mret (if ok : bool
        then Some (mk_advanced qdevice_default_number (λ f, Some (qdevice_default_text f)) false 0 (u32 (-1))
               QDEVICE_ADVANCED_SETTINGS_MASTER_WINS_MODEL)
        else None).

Definition qdevice_advanced_settings_destroy : settings → settings := advanced_settings_destroy.

(** ** Command line *)

Record qdevice_cli := mk_qdevice_cli {
  device_foreground : bool;
  device_force_debug : bool;
  device_bump_log_priority : bool
}.
Definition qdevice_cli_init : qdevice_cli := mk_qdevice_cli false false false.

(** What [getopt] found: an option and its argument.  [None]: the process ends. *)
Definition qdevice_cli_option (ch : byte) (c : qdevice_cli) : option qdevice_cli :=
  let '(mk_qdevice_cli fg dbg bump) := c in
  match ch with
  | x64 => Some (mk_qdevice_cli fg true (bump || dbg))
  | x66 => Some (mk_qdevice_cli true dbg bump)
  | x68 | x3f => None
  | _ => Some c
  end.

(** The letter S is for the settings. *)
Fixpoint qdevice_cli_parse (opts : list (byte * c_string)) (c : qdevice_cli) : M (settings * heap) qdevice_cli :=
  match opts with
  | [] => mret c
  | (x53, optarg) :: opts' =>
      cli_parse_long_opt qdevice_advanced_settings_set optarg;; qdevice_cli_parse opts' c
  | (ch, _) :: opts' =>
      match qdevice_cli_option ch c with
      | None => fail EXIT
      | Some c => qdevice_cli_parse opts' c
      end
  end.
End qdevice_settings.
