(* ===== verification/SettingsFacts.v ===== *)
(** The option -S: whatever is given, the settings stay in their bounds or the process ends; and
    what is done is what the text says, option by option. *)
From stdpp Require Import strings.
From S2P Require Import Prelude Dynar DynarStr Lex Heuristics Utils AdvancedSettings QnetdSettings QdeviceSettings.
From stdpp Require Import list.
Local Open Scope Z_scope.

(** ** Numbers and groups *)

Lemma parse_bool_range s : utils_parse_bool_str s = -1 ∨ 0 ≤ utils_parse_bool_str s ≤ 1.
Proof. unfold utils_parse_bool_str. do 2 (case_match; [right; lia|]). by left. Qed.

(** Group ids are 32 bits wide; a size that is recommended is one. *)
Class GroupLaws `{GroupSystem} := {
  group_gid_range name size gid : getgrnam_r name size = GROUP_GID gid → 0 ≤ gid < 2 ^ 32;
  group_size_max : GETGR_R_SIZE_MAX = -1 ∨ 0 < GETGR_R_SIZE_MAX
}.

Section groups.
Context `{GroupLaws}.

Definition gid_ok (r : option Z) : Prop := ∀ gid, r = Some gid → 0 ≤ gid < 2 ^ 32.

Lemma group_gid_loop_ok fuel name size h :
  UTILS_GID_DETERMINE_MAX_SIZE < size * 2 ^ Z.of_nat fuel → (0 < fuel)%nat →
  match group_gid_loop fuel name size h with (Ok r, _) => gid_ok r | (Err _, _) => False end.
Proof.
  unfold UTILS_GID_DETERMINE_MAX_SIZE. revert size h. induction fuel as [|fuel IH]; intros size h Hs Hf; [lia|].
  cbn [group_gid_loop]. destruct (getgrnam_r name size) as [| | |gid] eqn:E; try done.
  - unfold UTILS_GID_DETERMINE_MAX_SIZE. destruct (Z.ltb_spec 65536 (size * 2)); [done|].
    unfold allocated_ok, mbind, M_bind. destruct (malloc h) as [[j|] h']; [|done]. cbn.
    rewrite Nat2Z.inj_succ, Z.pow_succ_r in Hs by lia. apply IH; [lia|].
    destruct fuel; [cbn in Hs; lia|lia].
  - intros g [= <-]. by eapply group_gid_range.
Qed.

Lemma get_group_gid_ok name h :
  match utils_get_group_gid name h with (Ok r, _) => gid_ok r | (Err _, _) => False end.
Proof.
  assert (Hu : ∀ z, gid_ok (Some (u32 z))) by (intros z g [= <-]; apply u32_range).
  unfold utils_get_group_gid. destruct (bool_decide _); [apply Hu|].
  destruct (utils_strtonum _ _ _); [apply Hu|]. unfold allocated_ok, mbind, M_bind.
  destruct (malloc h) as [[j|] h']; [|done]. cbn -[group_gid_loop]. apply group_gid_loop_ok; [|lia].
  unfold UTILS_GID_DETERMINE_MAX_SIZE. destruct group_size_max as [->|Hs]; [done|].
  destruct (Z.eqb_spec GETGR_R_SIZE_MAX (-1)); [lia|]. change (Z.of_nat 20) with 20. lia.
Qed.
End groups.

(** ** Settings in bounds *)

Section bounds.
Context {N T X : Type} `{EqDecision N, EqDecision T, GroupLaws}.
Context (lowest highest : N → Z) (other_ok : X → Prop).

Definition kind_ok (k : option_kind N T X) : Prop :=
  match k with
  | NUMBER f min_val max_val => lowest f ≤ min_val ∧ max_val ≤ highest f
  | BOOLEAN f => lowest f ≤ 0 ∧ 1 ≤ highest f
  | OTHER parse => ∀ value x, parse value = Some x → other_ok x
  | _ => True
  end.

Record in_bounds (s : advanced_settings N T X) : Prop := {
  ib_number : ∀ f, lowest f ≤ number s f ≤ highest f;
  ib_text : ∀ f, is_Some (text s f);
  ib_umask : 0 ≤ socket_umask s ≤ 511;
  ib_gid : 0 ≤ socket_gid s < 2 ^ 32;
  ib_other : other_ok (other_setting s)
}.

Lemma in_bounds_number f v s : in_bounds s → lowest f ≤ v ≤ highest f → in_bounds (set_number f v s).
Proof. intros [? ? ? ? ?] Hv. split; try done. intros g. cbn. by case_decide; subst. Qed.

Lemma set_option_ok k value s h :
  kind_ok k → in_bounds s →
  match set_option k value (s, h) with
  | (Ok r, (s', _)) => r = -1 ∨ in_bounds s'
  | (Err _, _) => False
  end.
Proof.
  intros Hk Hs. destruct k as [f a b|f|f| | | |parse]; cbn [set_option kind_ok] in *.
  - unfold utils_strtonum. destruct (utils_strtonum_base _ _ _ _) as [v|] eqn:E; [|by right].
    apply strtonum_base_range in E. right. cbn. apply in_bounds_number; [done|lia].
  - destruct (parse_bool_range value) as [->|Hb]; [by right|].
    destruct (Z.eqb_spec (utils_parse_bool_str value) (-1)); [lia|]. right. cbn. apply in_bounds_number; [done|lia].
  - unfold on_heap, strdup, allocated_ok, change, mbind, M_bind. destruct (malloc h) as [[j|] h']; cbn; [right|by left].
    destruct Hs as [? Ht ? ? ?]. split; try done. intros g. cbn. case_decide; [by eexists|apply Ht].
  - unfold utils_parse_umask. destruct Hs as [? ? ? ? ?].
    destruct (bool_decide _); [right; cbn; by split|].
    destruct (utils_strtonum_base value 0 511 8) as [v|] eqn:E; [|right; cbn; by split].
    apply strtonum_base_range in E. right. by split.
  - unfold on_heap, mbind, M_bind. pose proof (get_group_gid_ok value h) as Hg.
    destruct (utils_get_group_gid value h) as [[[gid|]|c] h']; [| |done]; cbn; right; [|done].
    destruct Hs as [? ? ? ? ?]. split; try done. cbn. by apply Hg.
  - by right.
  - destruct (parse value) as [v|] eqn:E; [|by right]. right. destruct Hs; split; try done. by eapply Hk.
Qed.

Lemma find_option_ok (table : list (string * option_kind N T X)) opt k :
  Forall (λ e, kind_ok (snd e)) table → find_option table opt = Some k → kind_ok k.
Proof.
  induction 1 as [|[name k'] table Hk _ IH]; cbn; [done|]. destruct (strcase_eq _ _); [by intros [= <-]|done].
Qed.

Lemma advanced_settings_set_ok table opt value s h :
  Forall (λ e, kind_ok (snd e)) table → in_bounds s →
  match advanced_settings_set table opt value (s, h) with
  | (Ok r, (s', _)) => r = -1 ∨ in_bounds s'
  | (Err _, _) => False
  end.
Proof.
  intros Ht Hs. unfold advanced_settings_set. destruct (find_option table opt) as [k|] eqn:E; [|by left].
  apply set_option_ok; [by eapply find_option_ok|done].
Qed.
End bounds.

(** ** The lexer of options goes forward *)

Definition getopt_ok (lex : dynar_getopt_lex) : Prop :=
  wf (getopt_option lex) ∧ wf (getopt_value lex) ∧ (getopt_pos lex ≤ length (contents (getopt_input lex)))%nat.
Definition options_left (lex : dynar_getopt_lex) : nat :=
  (length (contents (getopt_input lex)) - getopt_pos lex)%nat.

Lemma cat_option_wf bs o v h : Z.of_nat (length bs) < 2 ^ 63 → wf o → wf v →
  match cat_option bs (o, v, h) with
  | (Ok _, (o', v', _)) => wf o' ∧ v' = v ∧ contents o' = contents o ++ bs
  | (Err _, (o', v', _)) => wf o' ∧ v' = v
  end.
Proof.
  intros Hb Ho Hv. unfold cat_option, or_fail. pose proof (dynar_cat_appends bs Hb o h Ho) as Hc.
  destruct (dynar_cat bs (o, h)) as [[[]|c] [o' h']]; cbn; [|split; [apply Hc|done]].
  destruct Hc as (? & ? & _). done.
Qed.
Lemma cat_value_wf bs o v h : Z.of_nat (length bs) < 2 ^ 63 → wf o → wf v →
  match cat_value bs (o, v, h) with
  | (_, (o', v', _)) => wf v' ∧ o' = o
  end.
Proof.
  intros Hb Ho Hv. unfold cat_value, or_fail. pose proof (dynar_cat_appends bs Hb v h Hv) as Hc.
  destruct (dynar_cat bs (v, h)) as [[[]|c] [v' h']]; cbn; (split; [apply Hc|done]).
Qed.

Lemma getopt_loop_forward l in_value pos o v h : wf o → wf v →
  match getopt_loop l in_value pos (o, v, h) with
  | (Ok pos', (o', v', _)) =>
      wf o' ∧ wf v' ∧ (pos ≤ pos' ≤ pos + length l)%nat ∧ (l = [] → o' = o) ∧ (l ≠ [] → (pos < pos')%nat)
  | (Err _, (o', v', _)) => wf o' ∧ wf v'
  end.
Proof.
  revert in_value pos o v h. induction l as [|ch l IH]; intros in_value pos o v h Ho Hv; cbn [getopt_loop length].
  { split_and!; try done; lia. }
  destruct (bool_decide (ch = x2c)); [cbn; split_and!; try done; lia|].
  assert (Hnext : ∀ iv o' v' h', wf o' → wf v' →
    match getopt_loop l iv (S pos) (o', v', h') with
    | (Ok pos', (o2, v2, _)) =>
        wf o2 ∧ wf v2 ∧ (pos ≤ pos' ≤ pos + S (length l))%nat ∧ (ch :: l = [] → o2 = o) ∧ (ch :: l ≠ [] → (pos < pos')%nat)
    | (Err _, (o2, v2, _)) => wf o2 ∧ wf v2
    end).
  { intros iv o' v' h' Ho' Hv'. specialize (IH iv (S pos) o' v' h' Ho' Hv').
    destruct (getopt_loop _ _ _ _) as [[pos'|c] [[o2 v2] h2]]; [|done].
    destruct IH as (? & ? & ? & _). split_and!; try done; lia. }
  destruct in_value; [|destruct (bool_decide (ch = x3d)); [by apply Hnext|]]; unfold mbind at 1, M_bind at 1.
  - pose proof (cat_value_wf [ch] o v h ltac:(done) Ho Hv) as Hc.
    destruct (cat_value [ch] (o, v, h)) as [[[]|c] [[o1 v1] h1]]; destruct Hc as [? ->]; [by apply Hnext|done].
  - pose proof (cat_option_wf [ch] o v h ltac:(done) Ho Hv) as Hc.
    destruct (cat_option [ch] (o, v, h)) as [[[]|c] [[o1 v1] h1]]; [|by destruct Hc as [? ->]].
    destruct Hc as (? & -> & _). by apply Hnext.
Qed.

Lemma token_next_forward lex h : getopt_ok lex →
  match dynar_getopt_lex_token_next (lex, h) with
  | (Ok r, (lex', _)) =>
      r = 0 → getopt_ok lex' ∧ getopt_input lex' = getopt_input lex ∧
        (until_nul (contents (getopt_option lex')) ≠ [] → (options_left lex' < options_left lex)%nat)
  | (Err _, _) => False
  end.
Proof.
  intros (Ho & Hv & Hp). unfold dynar_getopt_lex_token_next.
  pose proof (getopt_loop_forward (drop (getopt_pos lex) (contents (getopt_input lex))) false (getopt_pos lex)
    (dynar_clean (getopt_option lex)) (dynar_clean (getopt_value lex)) h (wf_clean _ Ho) (wf_clean _ Hv)) as Hl.
  unfold mbind at 1, M_bind at 1.
  destruct (getopt_loop _ _ _ _) as [[pos|c] [[o1 v1] h1]]; [|done]. destruct Hl as (Ho1 & Hv1 & Hb & He & Hn).
  pose proof (cat_option_wf [x00] o1 v1 h1 ltac:(done) Ho1 Hv1) as Hc1. unfold mbind at 1, M_bind at 1.
  destruct (cat_option [x00] _) as [[[]|c] [[o2 v2] h2]]; [|done]. destruct Hc1 as (Ho2 & -> & Hc).
  pose proof (cat_value_wf [x00] o2 v1 h2 ltac:(done) Ho2 Hv1) as Hc2. unfold mbind, M_bind.
  destruct (cat_value [x00] _) as [[[]|c] [[o3 v3] h3]]; [|done]. destruct Hc2 as [Hv3 ->]. cbn. intros _.
  rewrite length_drop in Hb. unfold getopt_ok, options_left. cbn.
  split; [split; [done|split; [done|lia]]|]. split; [done|]. intros Hw.
  destruct (drop (getopt_pos lex) (contents (getopt_input lex))) as [|ch l] eqn:El.
  - rewrite He in Hc by done. rewrite Hc in Hw. by destruct Hw.
  - apply (f_equal length) in El. rewrite length_drop in El. cbn in El. specialize (Hn ltac:(done)). lia.
Qed.

(** ** Every option is set *)

Section long_opt.
Context {S : Type} (settings_set : c_string → c_string → M (S * heap) Z) (P : S → Prop).
Hypothesis set_ok : ∀ opt val s h, P s →
  match settings_set opt val (s, h) with
  | (Ok r, (s', _)) => r = -1 ∨ P s'
  | (Err _, _) => False
  end.

Lemma long_opt_loop_ok fuel lex s h :
  P s → getopt_ok lex → (options_left lex < fuel)%nat →
  match long_opt_loop settings_set fuel lex (s, h) with (Ok _, (s', _)) => P s' | (Err c, _) => c = EXIT end.
Proof.
  revert lex s h. induction fuel as [|fuel IH]; intros lex s h Hs Hl Hf; [lia|]. cbn [long_opt_loop].
  pose proof (token_next_forward lex h Hl) as Ht.
  destruct (dynar_getopt_lex_token_next (lex, h)) as [[r|c] [lex' h']]; [|done].
  destruct (Z.eqb_spec r 0) as [->|]; [|done]. destruct (Ht eq_refl) as (Hl' & Hi & Hlt). cbn [negb orb].
  destruct (bool_decide_reflect (until_nul (contents (getopt_option lex')) = [])) as [|Hw]; [done|].
  specialize (Hlt Hw). pose proof (set_ok (until_nul (contents (getopt_option lex')))
    (until_nul (contents (getopt_value lex'))) s h' Hs) as Hset.
  destruct (settings_set _ _ _) as [[res|c] [s' h2]]; [|done].
  destruct (Z.eqb_spec res (-1)); [done|]. destruct (res =? -2); [done|]. cbn [orb].
  destruct Hset as [?|Hs']; [done|]. apply IH; [done|done|lia].
Qed.

Lemma cli_parse_long_opt_ok long_opt s h :
  P s → Z.of_nat (length long_opt) + 1 < 2 ^ 62 →
  match cli_parse_long_opt settings_set long_opt (s, h) with (Ok _, (s', _)) => P s' | (Err c, _) => c = EXIT end.
Proof.
  intros Hs Hlen. unfold cli_parse_long_opt. rewrite u64_small by lia.
  pose proof (dynar_str_cpy_spec long_opt _ h (wf_init (Z.of_nat (length long_opt) + 1) ltac:(lia)) ltac:(lia)) as Hc.
  destruct (dynar_str_cpy _ _) as [[[]|c] [d h']]; [|done]. destruct Hc as (Hd & Hc & Hm & _).
  apply long_opt_loop_ok; [done| |].
  - cbn in Hm. unfold getopt_ok. cbn. split_and!; [apply wf_init; lia..|lia].
  - unfold options_left. cbn. rewrite Hc. lia.
Qed.
End long_opt.

(** ** What the text of -S says *)

(** The text up to a character, and the text after it. *)
Fixpoint upto (ch : byte) (l : list byte) : list byte :=
  match l with b :: l' => if bool_decide (b = ch) then [] else b :: upto ch l' | [] => [] end.
Fixpoint after (ch : byte) (l : list byte) : list byte :=
  match l with b :: l' => if bool_decide (b = ch) then l' else after ch l' | [] => [] end.

(** Parts between commas, each with a name up to the equals sign, up to a part without a name. *)
Fixpoint options_of (fuel : nat) (l : list byte) : list (c_string * c_string) :=
  match fuel with
  | O => []
  | Datatypes.S fuel =>
      let part := upto x2c l in
      let name := upto x3d part in
      if bool_decide (name = []) then [] else (name, after x3d part) :: options_of fuel (after x2c l)
  end.

Lemma after_length ch l : (length (after ch l) ≤ length l)%nat.
Proof. induction l as [|b l IH]; [done|]. cbn. destruct (bool_decide _); cbn; lia. Qed.

Lemma getopt_ref_value l : getopt_ref true l = ([], upto x2c l, after x2c l).
Proof. induction l as [|b l IH]; [done|]. cbn. destruct (bool_decide (b = x2c)); [done|]. by rewrite IH. Qed.

Lemma getopt_ref_parts l :
  getopt_ref false l = (upto x3d (upto x2c l), after x3d (upto x2c l), after x2c l).
Proof.
  induction l as [|b l IH]; [done|]. cbn. destruct (bool_decide (b = x2c)); [done|]. cbn.
  destruct (bool_decide (b = x3d)); [by rewrite getopt_ref_value|]. by rewrite IH.
Qed.

Lemma no_nul_until s : x00 ∉ s → until_nul (s ++ [x00]) = s.
Proof.
  induction s as [|b s IH]; [done|]. intros [Hb Hs]%not_elem_of_cons. cbn.
  rewrite bool_decide_eq_false_2 by done. by rewrite IH.
Qed.
Lemma upto_elem b ch l : b ∈ upto ch l → b ∈ l.
Proof.
  induction l as [|b' l IH]; [done|]. cbn. destruct (bool_decide _); [by intros ?%elem_of_nil|].
  rewrite !elem_of_cons. tauto.
Qed.
Lemma after_elem b ch l : b ∈ after ch l → b ∈ l.
Proof. induction l as [|b' l IH]; [done|]. cbn. rewrite elem_of_cons. destruct (bool_decide _); tauto. Qed.
Lemma after_suffix ch l : after ch l `suffix_of` l.
Proof. induction l as [|b l IH]; [done|]. cbn. destruct (bool_decide _); [by apply suffix_cons_r|by apply suffix_cons_r]. Qed.

Lemma token_next_parts lex :
  getopt_ok lex → Z.of_nat (options_left lex) + 1 ≤ maximum_size (getopt_option lex) →
  Z.of_nat (options_left lex) + 1 ≤ maximum_size (getopt_value lex) →
  x00 ∉ contents (getopt_input lex) →
  let l := drop (getopt_pos lex) (contents (getopt_input lex)) in
  ∃ o v,
    dynar_getopt_lex_token_next (lex, []) =
      (Ok 0, (mk_getopt o v (getopt_input lex) (length (contents (getopt_input lex)) - length (after x2c l)), [])) ∧
    wf o ∧ wf v ∧ maximum_size o = maximum_size (getopt_option lex) ∧ maximum_size v = maximum_size (getopt_value lex) ∧
    until_nul (contents o) = upto x3d (upto x2c l) ∧ until_nul (contents v) = after x3d (upto x2c l).
Proof.
  intros (Ho & Hv & Hp) Hmo Hmv Hnul l. unfold dynar_getopt_lex_token_next. fold l.
  assert (Hl : length l = options_left lex) by (unfold l; by rewrite length_drop).
  destruct (getopt_loop_ref l false (getopt_pos lex) (dynar_clean (getopt_option lex)) (dynar_clean (getopt_value lex))
    _ _ _ (wf_clean _ Ho) (wf_clean _ Hv) (getopt_ref_parts l)) as (o1 & v1 & E & Ho1 & Hv1 & Hco & Hcv & Hm1 & Hm2 & Hr).
  { cbn. lia. } { cbn. lia. }
  rewrite (bind_ok _ _ _ _ _ E). cbn in Hm1, Hm2.
  assert (Hlo : (length (upto x3d (upto x2c l)) ≤ length l)%nat ∧ (length (after x3d (upto x2c l)) ≤ length l)%nat).
  { assert (Hu : ∀ ch l', (length (upto ch l') ≤ length l')%nat).
    { intros ch l'. induction l' as [|b l' IH]; [done|]. cbn. destruct (bool_decide _); cbn; lia. }
    pose proof (Hu x2c l). pose proof (Hu x3d (upto x2c l)). pose proof (after_length x3d (upto x2c l)). lia. }
  change (contents (dynar_clean _)) with (@nil byte) in Hco, Hcv. cbn [app] in Hco, Hcv.
  destruct (cat_option_ok [x00] o1 v1 Ho1 ltac:(done)) as (o2 & E2 & Ho2 & Hco2 & Hmo2).
  { rewrite size_contents, Hco by done. cbn [length]. lia. }
  rewrite (bind_ok _ _ _ _ _ E2).
  destruct (cat_value_ok [x00] o2 v1 Hv1 ltac:(done)) as (v2 & E3 & Hv2 & Hcv2 & Hmv2).
  { rewrite size_contents, Hcv by done. cbn [length]. lia. }
  rewrite (bind_ok _ _ _ _ _ E3). exists o2, v2. cbn.
  assert (Hnl : x00 ∉ l)
    by (intros Hin; apply Hnul; rewrite <-(take_drop (getopt_pos lex)); apply elem_of_app; by right).
  split; [unfold options_left in Hl; do 4 f_equal; lia|]. split; [done|]. split; [done|]. split; [congruence|]. split; [congruence|].
  rewrite Hco2, Hcv2, Hco, Hcv. split; apply no_nul_until.
  - intros Hin. by apply Hnl, (upto_elem _ x2c), (upto_elem _ x3d).
  - intros Hin. by apply Hnl, (upto_elem _ x2c), (after_elem _ x3d).
Qed.

Section apply.
Context {S : Type} (settings_set : c_string → c_string → M (S * heap) Z).

(** The options are set in order; the first that is unknown or wrong ends the process. *)
Fixpoint apply_options (l : list (c_string * c_string)) : M (S * heap) unit :=
  match l with
  | [] => mret tt
  | (opt, val) :: l' =>
      res ← settings_set opt val;
      if (res =? -1) || (res =? -2) then fail EXIT else apply_options l'
  end.

Hypothesis set_heap : ∀ opt val s, snd (snd (settings_set opt val (s, []))) = [].

Lemma long_opt_loop_apply fuel lex s :
  getopt_ok lex → x00 ∉ contents (getopt_input lex) →
  Z.of_nat (length (contents (getopt_input lex))) + 1 ≤ maximum_size (getopt_option lex) →
  Z.of_nat (length (contents (getopt_input lex))) + 1 ≤ maximum_size (getopt_value lex) →
  (options_left lex < fuel)%nat →
  long_opt_loop settings_set fuel lex (s, []) =
  apply_options (options_of fuel (drop (getopt_pos lex) (contents (getopt_input lex)))) (s, []).
Proof.
  revert lex s. induction fuel as [|fuel IH]; intros lex s Hl Hn Hmo Hmv Hf; [lia|]. cbn [long_opt_loop options_of].
  pose proof (token_next_forward lex [] Hl) as Hfw.
  destruct (token_next_parts lex Hl ltac:(unfold options_left; lia) ltac:(unfold options_left; lia) Hn)
    as (o & v & E & Ho & Hv & Hm1 & Hm2 & Hco & Hcv).
  rewrite E in Hfw |- *. destruct (Hfw eq_refl) as (Hl' & _ & Hlt). cbn [getopt_option getopt_value] in *.
  rewrite Hco, Hcv. rewrite Hco in Hlt. cbn [Z.eqb negb orb].
  set (l := drop (getopt_pos lex) (contents (getopt_input lex))) in *.
  destruct (decide (upto x3d (upto x2c l) = [])) as [|Hne]; [by rewrite !bool_decide_eq_true_2|].
  rewrite !bool_decide_eq_false_2 by done. specialize (Hlt Hne).
  cbn [apply_options]. unfold mbind, M_bind. pose proof (set_heap (upto x3d (upto x2c l)) (after x3d (upto x2c l)) s) as Hh.
  destruct (settings_set _ _ (s, [])) as [[res|c] [s' h']]; [|done]. cbn in Hh. subst h'.
  destruct ((res =? -1) || (res =? -2)); [done|].
  rewrite IH; [|done|done|cbn; lia|cbn; lia|lia]. cbn [getopt_pos getopt_input]. do 2 f_equal.
  assert (Hs : after x2c l `suffix_of` contents (getopt_input lex)).
  { etrans; [apply after_suffix|]. exists (take (getopt_pos lex) (contents (getopt_input lex))). unfold l. by rewrite take_drop. }
  destruct Hs as [k Hk]. rewrite Hk at 1 2. rewrite length_app.
  replace (length k + length (after x2c l) - length (after x2c l))%nat with (length k) by lia. by rewrite drop_app_length.
Qed.

Lemma cli_parse_long_opt_apply long_opt s :
  x00 ∉ long_opt → Z.of_nat (length long_opt) + 1 < 2 ^ 62 →
  cli_parse_long_opt settings_set long_opt (s, []) =
  apply_options (options_of (2 + length long_opt) long_opt) (s, []).
Proof.
  intros Hn Hlen. unfold cli_parse_long_opt. rewrite u64_small by lia.
  pose proof (dynar_str_cpy_spec long_opt _ [] (wf_init (Z.of_nat (length long_opt) + 1) ltac:(lia)) ltac:(lia)) as Hc.
  destruct (dynar_str_cpy _ _) as [[[]|c] [d h']].
  2: { destruct Hc as (_ & _ & _ & _ & [Hc|Hc%elem_of_nil]); [cbn in Hc; lia|done]. }
  destruct Hc as (Hd & Hc & Hm & Hh). apply suffix_nil_inv in Hh as ->. cbn in Hm.
  rewrite long_opt_loop_apply; unfold getopt_ok, options_left; cbn; rewrite ?Hc, ?Hm; try done; try lia.
  split_and!; [apply wf_init; lia..|lia].
Qed.
End apply.

(** ** The daemons *)

Definition qnetd_lowest (f : qnetd_number) : Z :=
  match f with
  | QnetdSettings.listen_backlog | QnetdSettings.local_socket_backlog => 1
  | QnetdSettings.max_client_send_buffers => 2
  | QnetdSettings.max_client_send_size | QnetdSettings.max_client_receive_size => 16
  | QnetdSettings.heartbeat_interval_min | QnetdSettings.heartbeat_interval_max => 1
  | QnetdSettings.ipc_max_receive_size | QnetdSettings.ipc_max_send_size => 1024
  | QnetdSettings.dpd_enabled | QnetdSettings.ipc_max_clients
  | QnetdSettings.keep_active_partition_tie_breaker => 0
  end.
Definition qnetd_highest (f : qnetd_number) : Z :=
  match f with
  | QnetdSettings.listen_backlog | QnetdSettings.local_socket_backlog => INT_MAX
  | QnetdSettings.heartbeat_interval_min | QnetdSettings.heartbeat_interval_max => UINT32_MAX
  | QnetdSettings.dpd_enabled | QnetdSettings.keep_active_partition_tie_breaker => 1
  | _ => LLONG_MAX
  end.

Definition qdevice_lowest (f : qdevice_number) : Z :=
  match f with
  | local_socket_backlog | max_cs_try_again | heuristics_max_execs | heuristics_max_processes
  | net_heartbeat_interval_min | net_heartbeat_interval_max | net_min_connect_timeout | net_max_connect_timeout => 1
  | ipc_max_receive_size | ipc_max_send_size | heuristics_ipc_max_send_receive_size => 1024
  | heuristics_ipc_max_send_buffers => 10
  | heuristics_min_timeout | heuristics_max_timeout | heuristics_min_interval | heuristics_max_interval
  | heuristics_kill_list_interval => 250
  | net_initial_msg_receive_size | net_initial_msg_send_size | net_min_msg_send_size | net_max_msg_receive_size => 16
  | net_max_send_buffers => 2
  | ipc_max_clients | heuristics_use_execvp | net_test_algorithm_enabled => 0
  end.
Definition qdevice_highest (f : qdevice_number) : Z :=
  match f with
  | local_socket_backlog | max_cs_try_again => INT_MAX
  | heuristics_min_timeout | heuristics_max_timeout | heuristics_min_interval | heuristics_max_interval
  | heuristics_kill_list_interval | net_heartbeat_interval_min | net_heartbeat_interval_max
  | net_min_connect_timeout | net_max_connect_timeout => UINT32_MAX
  | heuristics_use_execvp | net_test_algorithm_enabled => 1
  | _ => LLONG_MAX
  end.

Ltac table_ok := cbn [app]; repeat first
  [apply Forall_nil_2 | apply Forall_cons_2; [cbn; unfold INT_MAX, LLONG_MAX, UINT32_MAX; first [done | by split; compute | idtac]|]].

Section daemons.
Context `{GroupLaws} {D : Type} `{CDouble D}.
Context (COROSYSCONFDIR LOCALSTATEDIR : c_string) (one_and_a_half : D) (debug_build : bool).

(** The coefficient of the dead peer detection is a number from 1 to 1000. *)
Definition dpd_coefficient_ok (x : D) : Prop :=
  double_lt x (double_of 1) = false ∧ double_lt (double_of 1000) x = false ∧ isnan x = false.

Lemma parse_dpd_ok value x : parse_dpd_interval_coefficient value = Some x → dpd_coefficient_ok x.
Proof.
  unfold parse_dpd_interval_coefficient, utils_strtod, dpd_coefficient_ok. intros E.
  repeat case_match; simplify_eq. by destruct (double_lt x _), (double_lt _ x), (isnan x).
Qed.

Lemma qnetd_options_ok : Forall (λ e, kind_ok qnetd_lowest qnetd_highest dpd_coefficient_ok (snd e)) (qnetd_options (D:=D)).
Proof. unfold qnetd_options. table_ok. apply parse_dpd_ok. Qed.
Lemma qdevice_options_ok :
  Forall (λ e, kind_ok qdevice_lowest qdevice_highest (λ _, True) (snd e))
    (qdevice_local_options ++ qdevice_heuristics_options ++ qdevice_net_options).
Proof. unfold qdevice_local_options, qdevice_heuristics_options, qdevice_net_options. table_ok. Qed.

Lemma init_qnetd_ok h s h' :
  qnetd_advanced_settings_init COROSYSCONFDIR LOCALSTATEDIR one_and_a_half h = (Ok (Some s), h') →
  dpd_coefficient_ok one_and_a_half → in_bounds qnetd_lowest qnetd_highest dpd_coefficient_ok s.
Proof.
  intros E Hd. apply bind_Ok in E as (ok & h1 & _ & E). destruct ok; [|done]. injection E as <- _. split; cbn.
  - intros []; split; vm_compute; discriminate.
  - by eexists.
  - lia.
  - apply u32_range.
  - done.
Qed.
Lemma init_qdevice_ok h s h' :
  qdevice_advanced_settings_init COROSYSCONFDIR LOCALSTATEDIR debug_build h = (Ok (Some s), h') →
  in_bounds qdevice_lowest qdevice_highest (λ _, True) s.
Proof.
  intros E. apply bind_Ok in E as (ok & h1 & _ & E). destruct ok; [|done]. injection E as <- _. split; cbn.
  - destruct debug_build; intros []; split; vm_compute; discriminate.
  - by eexists.
  - lia.
  - apply u32_range.
  - done.
Qed.

(** The command line fits into memory. *)
Definition args_fit (opts : list (byte * c_string)) : Prop :=
  Forall (λ o, Z.of_nat (length (snd o)) + 1 < 2 ^ 62) opts.

Record qnetd_cli_ok (c : qnetd_cli) : Prop := {
  qc_port : 1 ≤ cli_host_port c ≤ UINT16_MAX;
  qc_clients : 0 ≤ cli_max_clients c ≤ LLONG_MAX;
  qc_cert : 0 ≤ cli_client_cert_required c ≤ 1
}.

Lemma cli_option_ok ch optarg c c' : qnetd_cli_ok c → qnetd_cli_option ch optarg c = Some c' → qnetd_cli_ok c'.
Proof.
  intros [Hp Hc Hr]. destruct c as [addr port fg dbg bump tls cert clients af]. cbn [cli_host_port cli_max_clients cli_client_cert_required] in *.
  unfold qnetd_cli_option. destruct ch; try (intros [= <-]; by split); try done.
  - destruct (Z.eqb_spec (utils_parse_bool_str optarg) (-1)); [done|]. intros [= <-]. split; try done.
    cbn. by destruct (parse_bool_range optarg).
  - unfold utils_strtonum. destruct (utils_strtonum_base _ _ _ _) as [v|] eqn:E; [|done]. intros [= <-].
    apply strtonum_base_range in E. by split.
  - unfold utils_strtonum. destruct (utils_strtonum_base _ _ _ _) as [v|] eqn:E; [|done]. intros [= <-].
    apply strtonum_base_range in E. split; try done. cbn. unfold UINT16_MAX in *. rewrite u16_small; lia.
  - destruct (tls_setting optarg); [|done]. intros [= <-]. by split.
Qed.

(** One step of [cli_parse]: the letter S, or another one. *)
Lemma qnetd_cli_parse_cons ch optarg opts c :
  qnetd_cli_parse (D:=D) ((ch, optarg) :: opts) c =
  if decide (ch = x53) then cli_parse_long_opt qnetd_advanced_settings_set optarg;; qnetd_cli_parse opts c
  else match qnetd_cli_option ch optarg c with Some c => qnetd_cli_parse opts c | None => fail EXIT end.
Proof. by destruct ch. Qed.
Lemma qdevice_cli_parse_cons ch optarg opts c :
  qdevice_cli_parse ((ch, optarg) :: opts) c =
  if decide (ch = x53) then cli_parse_long_opt qdevice_advanced_settings_set optarg;; qdevice_cli_parse opts c
  else match qdevice_cli_option ch c with Some c => qdevice_cli_parse opts c | None => fail EXIT end.
Proof. by destruct ch. Qed.

Lemma qnetd_cli_parse_ok opts c s h :
  args_fit opts → qnetd_cli_ok c → in_bounds qnetd_lowest qnetd_highest dpd_coefficient_ok s →
  match qnetd_cli_parse (D:=D) opts c (s, h) with
  | (Ok c', (s', _)) => qnetd_cli_ok c' ∧ in_bounds qnetd_lowest qnetd_highest dpd_coefficient_ok s'
  | (Err e, _) => e = EXIT
  end.
Proof.
  revert c s h. induction opts as [|[ch optarg] opts IH]; intros c s h Ha Hc Hs; [done|].
  apply Forall_cons in Ha as [Hlen Ha]. cbn in Hlen. rewrite qnetd_cli_parse_cons. destruct (decide (ch = x53)).
  - pose proof (cli_parse_long_opt_ok qnetd_advanced_settings_set _
      (λ opt val s h, advanced_settings_set_ok _ _ _ _ opt val s h qnetd_options_ok) optarg s h Hs Hlen) as Hl.
    unfold mbind, M_bind. destruct (cli_parse_long_opt _ _ _) as [[u|er] [s' h']]; [by apply IH|done].
  - destruct (qnetd_cli_option ch optarg c) as [c'|] eqn:E; [|done]. apply IH; [done|by eapply cli_option_ok|done].
Qed.

Lemma qdevice_cli_parse_ok opts c s h :
  args_fit opts → in_bounds qdevice_lowest qdevice_highest (λ _, True) s →
  match qdevice_cli_parse opts c (s, h) with
  | (Ok _, (s', _)) => in_bounds qdevice_lowest qdevice_highest (λ _, True) s'
  | (Err e, _) => e = EXIT
  end.
Proof.
  revert c s h. induction opts as [|[ch optarg] opts IH]; intros c s h Ha Hs; [done|].
  apply Forall_cons in Ha as [Hlen Ha]. cbn in Hlen. rewrite qdevice_cli_parse_cons. destruct (decide (ch = x53)).
  - pose proof (cli_parse_long_opt_ok qdevice_advanced_settings_set _
      (λ opt val s h, advanced_settings_set_ok _ _ _ _ opt val s h qdevice_options_ok) optarg s h Hs Hlen) as Hl.
    unfold mbind, M_bind. destruct (cli_parse_long_opt _ _ _) as [[u|er] [s' h']]; [by apply IH|done].
  - destruct (qdevice_cli_option ch c) as [c'|]; [|done]. by apply IH.
Qed.

(** C27: whatever command line qnetd is started with and however memory runs out, either the
    process ends or every setting is in its bounds: the numbers between the minimum of the
    configuration and the largest value of their type, the coefficient of the dead peer detection
    from 1 to 1000 and not a NaN, the umask and the group, the port and the certificate flag; no
    text is missing. Taken for granted: an argument is shorter than 2^62, the constant 1.5 is
    a number from 1 to 1000, and, the laws of the class [GroupLaws], that the ids of groups of
    the system have 32 bits and the size of buffer that sysconf recommends is positive. *)
Theorem qnetd_command_line_in_bounds opts h s h' :
  args_fit opts → dpd_coefficient_ok one_and_a_half →
  qnetd_advanced_settings_init COROSYSCONFDIR LOCALSTATEDIR one_and_a_half h = (Ok (Some s), h') →
  match qnetd_cli_parse opts qnetd_cli_init (s, h') with
  | (Ok c, (s', _)) => qnetd_cli_ok c ∧ in_bounds qnetd_lowest qnetd_highest dpd_coefficient_ok s'
  | (Err e, _) => e = EXIT
  end.
Proof.
  intros Ha Hd Hi. apply qnetd_cli_parse_ok; [done|by split; vm_compute|by eapply init_qnetd_ok].
Qed.

(** The same of qdevice. *)
Lemma qdevice_command_line_in_bounds opts h s h' :
  args_fit opts →
  qdevice_advanced_settings_init COROSYSCONFDIR LOCALSTATEDIR debug_build h = (Ok (Some s), h') →
  match qdevice_cli_parse opts qdevice_cli_init (s, h') with
  | (Ok c, (s', _)) => in_bounds qdevice_lowest qdevice_highest (λ _, True) s'
  | (Err e, _) => e = EXIT
  end.
Proof. intros Ha Hi. apply qdevice_cli_parse_ok; [done|by eapply init_qdevice_ok]. Qed.

(** ** With memory the text is taken as it is written *)

Lemma set_option_heap {N T X} `{EqDecision N, EqDecision T} (k : option_kind N T X) val s :
  snd (snd (set_option k val (s, []))) = [].
Proof.
  assert (Hg : ∀ fuel name size, snd (group_gid_loop fuel name size []) = []).
  { intros fuel name. induction fuel as [|fuel IH]; intros size; [done|]. cbn [group_gid_loop].
    destruct (getgrnam_r name size); try done. destruct (_ <? _); [done|apply IH]. }
  destruct k as [f a b|f|f| | | |parse]; cbn [set_option]; unfold change_if; try done.
  - by destruct (utils_strtonum _ _ _).
  - by destruct (_ =? _).
  - by destruct (utils_parse_umask val).
  - assert (Hu : snd (utils_get_group_gid val []) = []).
    { unfold utils_get_group_gid. destruct (bool_decide _); [done|]. destruct (utils_strtonum _ _ _); [done|].
      change (snd (group_gid_loop 20 val (if GETGR_R_SIZE_MAX =? -1 then 4096 else GETGR_R_SIZE_MAX) []) = []). apply Hg. }
    unfold on_heap, mbind, M_bind. destruct (utils_get_group_gid val []) as [[[gid|]|c] h']; cbn in Hu; by subst h'.
  - by destruct (parse val).
Qed.

Lemma settings_set_heap {N T X} `{EqDecision N, EqDecision T} (table : list (string * option_kind N T X)) opt val s :
  snd (snd (advanced_settings_set table opt val (s, []))) = [].
Proof. unfold advanced_settings_set. destruct (find_option table opt); [apply set_option_heap|done]. Qed.

(** C32: with enough memory the option -S of qnetd and that of qdevice do what the text says: the
    parts between the commas are names with values, up to the equals sign and behind it, which
    are set in order; a part without a name ends the text, whatever follows, and an unknown name
    or a wrong value ends the process. *)
Theorem cli_parse_long_opt_exact long_opt s1 s2 :
  x00 ∉ long_opt → Z.of_nat (length long_opt) + 1 < 2 ^ 62 →
  let options := options_of (2 + length long_opt) long_opt in
  cli_parse_long_opt (qnetd_advanced_settings_set (D:=D)) long_opt (s1, []) =
    apply_options qnetd_advanced_settings_set options (s1, []) ∧
  cli_parse_long_opt qdevice_advanced_settings_set long_opt (s2, []) =
    apply_options qdevice_advanced_settings_set options (s2, []).
Proof.
  intros Hn Hl. split; (apply cli_parse_long_opt_apply; [intros; apply settings_set_heap|done|done]).
Qed.
End daemons.

(** ** Examples *)

#[local] Instance sim_groups : GroupSystem := {|
  getgrnam_r name size := if size <? 8192 then GROUP_ERANGE else if bool_decide (name = str "wheel") then GROUP_GID 10 else GROUP_UNKNOWN;
  GETGR_R_SIZE_MAX := -1
|}.
#[local] Instance sim_group_laws : GroupLaws.
Proof. split; [|by left]. intros name size gid. cbn. repeat case_match; try done. intros [= <-]. lia. Qed.
(** Whole numbers are enough here. *)
#[local] Instance sim_double : CDouble Z := {|
  strtod := strtoll 10; double_lt := Z.ltb; isnan _ := false; double_of z := z
|}.

Definition sim_opts : list (byte * c_string) :=
  [(x53, str "heartbeat_interval_min=500,Dpd_Enabled=no,dpd_interval_coefficient=7,local_socket_gid=wheel"); (x70, str "5404"); (x64, [])].
Definition sim_init := qnetd_advanced_settings_init (str "/etc/corosync") (str "/var") 1.
Definition sim_settings_0 := match fst (sim_init []) with Ok (Some s) => s | _ => mk_advanced (λ _, 0) (λ _, None) false 0 0 0 end.
Definition sim_parsed := qnetd_cli_parse sim_opts qnetd_cli_init (sim_settings_0, []).

Lemma qnetd_command_line_in_bounds_witness :
  args_fit sim_opts ∧ dpd_coefficient_ok 1 ∧ sim_init [] = (Ok (Some sim_settings_0), []) ∧
  number (fst (snd sim_parsed)) QnetdSettings.heartbeat_interval_min = 500 ∧
  other_setting (fst (snd sim_parsed)) = 7 ∧ socket_gid (fst (snd sim_parsed)) = 10 ∧
  ∃ c, fst sim_parsed = Ok c ∧ cli_host_port c = 5404 ∧ in_bounds qnetd_lowest qnetd_highest dpd_coefficient_ok (fst (snd sim_parsed)).
Proof.
  assert (Ha : args_fit sim_opts) by (repeat constructor; vm_compute; reflexivity).
  assert (Hd : dpd_coefficient_ok 1) by (repeat split; vm_compute; reflexivity).
  split; [exact Ha|]. split; [exact Hd|]. split; [vm_compute; reflexivity|].
  split; [vm_compute; reflexivity|]. split; [vm_compute; reflexivity|]. split; [vm_compute; reflexivity|].
  pose proof (qnetd_command_line_in_bounds (str "/etc/corosync") (str "/var") 1 sim_opts [] sim_settings_0 [] Ha
    Hd eq_refl) as Hb.
  assert (Hp : match fst sim_parsed with Ok c => cli_host_port c | Err _ => 0 end = 5404) by (vm_compute; reflexivity).
  fold sim_parsed in Hb. destruct sim_parsed as [[c|e] [s' h']] eqn:E; [|vm_compute in E; discriminate E].
  exists c. split; [reflexivity|]. split; [exact Hp|]. exact (proj2 Hb).
Defined.

Lemma cli_parse_long_opt_exact_witness :
  let text := str "dpd_enabled=off,lock_file=/a=b,,ipc_max_clients=3" in
  x00 ∉ text ∧ options_of (2 + length text) text = [(str "dpd_enabled", str "off"); (str "lock_file", str "/a=b")] ∧
  cli_parse_long_opt qnetd_advanced_settings_set text (sim_settings_0, []) =
  apply_options qnetd_advanced_settings_set (options_of (2 + length text) text) (sim_settings_0, []).
Proof.
  intros text. assert (Hn : x00 ∉ text) by (apply (bool_decide_unpack _); vm_compute; exact I).
  split; [exact Hn|]. split; [vm_compute; reflexivity|].
  exact (proj1 (cli_parse_long_opt_exact text sim_settings_0
    (mk_advanced (λ _, 0) (λ _, None) false 0 0 QDEVICE_ADVANCED_SETTINGS_MASTER_WINS_MODEL) Hn ltac:(by vm_compute))).
Defined.
