(* ===== verification/QdeviceStart.v ===== *)
(** The start of the device: what [main] of corosync-qdevice.c does before the main loop, with
    the functions it calls in qdevice-instance.c, qdevice-heuristics.c, qdevice-cmap.c,
    qdevice-votequorum.c and qdevice-net-instance.c, and the table of models (qdevice-model.c).
    There is one model, net, so the callbacks of [QdeviceVotequorum] call it directly.

    The command line is read before ([QdeviceSettings]).  The calls of corosync and of the
    system that only the start makes are the class [StartCalls].  Logging, the lock and
    detaching from the terminal, the local socket, NSS and the registration of callbacks in the
    poll loop are arguments: whether they succeed.  The wait for the first result of the
    heuristics is part of the runs of [QdeviceRun]. *)
From stdpp Require Import strings.
From S2P Require Import Prelude Dynar Tlv NodeList Msg SendBuffer DynarStr Heuristics Utils.
From S2P Require AdvancedSettings QdeviceSettings.
From stdpp Require Import list gmap.
From S2P Require Import TimerList TimerInterface QdeviceInstance QdeviceSend QdeviceAlgorithm.
From S2P Require Import QdeviceHeuristics QdeviceMsgReceived QdeviceSocket QdeviceModelNet.
From S2P Require Import QdeviceVotequorum QdeviceCmap QdeviceRun.
Local Open Scope Z_scope.

(** ** What the start calls *)

Inductive worker_pipe := PIPE_CMD_SEND | PIPE_CMD_RECV | PIPE_LOG_RECV.

(** What [votequorum_dispatch] calls. *)
Inductive votequorum_notification :=
| NOTIFY_QUORUM (quorate : Z) (node_list : list votequorum_node_t)
| NOTIFY_NODE_LIST (ring_id : votequorum_ring_id_t) (node_list : list Z)
| NOTIFY_EXPECTED_VOTES (expected_votes : Z).

Definition event_of (n : votequorum_notification) : qdevice_event :=
  match n with
  | NOTIFY_QUORUM quorate l => QUORUM_NOTIFY quorate l
  | NOTIFY_NODE_LIST ring_id l => NODE_LIST_NOTIFY ring_id l
  | NOTIFY_EXPECTED_VOTES votes => EXPECTED_VOTES_NOTIFY votes
  end.

(** [sys_pipe], [sys_fork] and [sys_set_non_blocking] tell whether the call succeeds, the others
    the result of corosync; [votequorum_expected] is [votequorum_getinfo] and its field
    [node_expected_votes]. *)
Class StartCalls (E : Type) := {
  sys_pipe : E → bool * E;
  sys_fork : E → bool * E;
  sys_set_non_blocking : worker_pipe → E → bool * E;
  cmap_initialize : E → cs_error * E;
  cmap_context_set : E → cs_error * E;
  cmap_track_add : c_string → E → cs_error * E;
  votequorum_initialize : E → cs_error * E;
  votequorum_qdevice_register : option c_string → E → cs_error * E;
  votequorum_context_set : E → cs_error * E;
  votequorum_expected : E → (cs_error * Z) * E;
  votequorum_trackstart : E → cs_error * E;
  votequorum_qdevice_master_wins : option c_string → Z → E → cs_error * E;
  votequorum_dispatch : E → (cs_error * list votequorum_notification) * E
}.

(** ** The configuration of the model net *)

Definition QNETD_DEFAULT_HOST_PORT : Z := 5403.
Definition QDEVICE_NET_DEFAULT_ALGORITHM : Z := TLV_DECISION_ALGORITHM_TYPE_FFSPLIT.
Definition QDEVICE_NET_DEFAULT_TLS_SUPPORTED : tlv_tls_supported := TLV_TLS_SUPPORTED.
Definition QDEVICE_NET_DEFAULT_TIE_BREAKER_MODE : Z := TLV_TIE_BREAKER_MODE_LOWEST.
Definition QDEVICE_NET_DEFAULT_KEEP_ACTIVE_PARTITION_TB : tlv_keep_active_partition_tie_breaker :=
  TLV_KEEP_ACTIVE_PARTITION_TIE_BREAKER_ENABLED.

(** What is read of the configuration for all models. *)
Record qdevice_config := mk_config {
  model_type : nat;
  node_id : Z;
  heartbeat_interval : Z;
  sync_heartbeat_interval : Z
}.

(** The arguments of [qdevice_net_instance_init]. *)
Record net_config := mk_net_config {
  net_tls_supported : tlv_tls_supported;
  net_decision_algorithm : Z;
  net_heartbeat_interval : Z;
  net_sync_heartbeat_interval : Z;
  net_cast_vote_timer_interval : Z;
  net_host_addr : c_string;
  net_host_port : Z;
  net_cluster_name : c_string;
  net_tie_breaker : tlv_tie_breaker;
  net_connect_timeout : Z;
  net_force_ip_version : Z;
  net_keep_active_partition_tb : tlv_keep_active_partition_tie_breaker
}.

(** Products with a fraction are computed in doubles and cut off; 0.8 is the double
    3602879701896397 * 2^-52, and rounding the product of it and an integer of 32 bits does not
    reach the next integer. *)
Definition times_0_5 (z : Z) : Z := z / 2.
Definition times_0_8 (z : Z) : Z := z * 3602879701896397 / 2 ^ 52.

(** A value of a key, or that there is none, to a setting; [None] is the path of an error. *)
Definition parse_tls (s : option c_string) : option tlv_tls_supported :=
  match s with
  | None => Some QDEVICE_NET_DEFAULT_TLS_SUPPORTED
  | Some s =>
      let i := utils_parse_bool_str s in
      if i =? -1 then if strcase_eq s (str "required") then Some TLV_TLS_REQUIRED else None
      else Some (if i =? 1 then TLV_TLS_SUPPORTED else TLV_TLS_UNSUPPORTED)
  end.

Definition parse_host_port (s : option c_string) : option Z :=
  match s with
  | None => Some QNETD_DEFAULT_HOST_PORT
  | Some s => utils_strtonum s 1 UINT16_MAX
  end.

Definition parse_algorithm (s : option c_string) : option Z :=
  match s with
  | None => Some QDEVICE_NET_DEFAULT_ALGORITHM
  | Some s =>
      if bool_decide (s = str "test") then Some TLV_DECISION_ALGORITHM_TYPE_TEST
      else if bool_decide (s = str "ffsplit") then Some TLV_DECISION_ALGORITHM_TYPE_FFSPLIT
      else if bool_decide (s = str "2nodelms") then Some TLV_DECISION_ALGORITHM_TYPE_2NODELMS
      else if bool_decide (s = str "lms") then Some TLV_DECISION_ALGORITHM_TYPE_LMS
      else None
  end.

Definition parse_tie_breaker (s : option c_string) : option tlv_tie_breaker :=
  match s with
  | None => Some (mk_tie_breaker QDEVICE_NET_DEFAULT_TIE_BREAKER_MODE 0)
  | Some s =>
      if bool_decide (s = str "lowest") then Some (mk_tie_breaker TLV_TIE_BREAKER_MODE_LOWEST 0)
      else if bool_decide (s = str "highest") then Some (mk_tie_breaker TLV_TIE_BREAKER_MODE_HIGHEST 0)
      else mk_tie_breaker TLV_TIE_BREAKER_MODE_NODE_ID <$> utils_strtonum s 1 UINT32_MAX
  end.

Definition parse_connect_timeout (min max default_timeout : Z) (s : option c_string) : option Z :=
  match s with
  | None => Some default_timeout
  | Some s => utils_strtonum s min max
  end.

Definition parse_force_ip_version (s : option c_string) : option Z :=
  match s with
  | None => Some 0
  | Some s =>
      lli ← utils_strtonum s 0 6;
      if negb (lli =? 0) && negb (lli =? 4) && negb (lli =? 6) then None else Some lli
  end.

Definition parse_keep_active_partition (s : option c_string) :
    option tlv_keep_active_partition_tie_breaker :=
  match s with
  | None => Some QDEVICE_NET_DEFAULT_KEEP_ACTIVE_PARTITION_TB
  | Some s =>
      let i := utils_parse_bool_str s in
      if i =? -1 then None
      else Some (if i =? 1 then TLV_KEEP_ACTIVE_PARTITION_TIE_BREAKER_ENABLED
                 else TLV_KEEP_ACTIVE_PARTITION_TIE_BREAKER_DISABLED)
  end.

Definition adjust_heartbeat (min max interval : Z) : Z :=
  let interval := if interval <? min then min else interval in
  if max <? interval then max else interval.

Section start.
Context {T E : Type} `{TimerOps qdevice_timer T} `{Environment E} `{StartCalls E}.
Abbreviation device := (qdevice_instance T E).
Abbreviation advanced := (AdvancedSettings.advanced_settings QdeviceSettings.qdevice_number
  QdeviceSettings.qdevice_text QdeviceSettings.master_wins_setting).
Context (advanced_settings : advanced).
(** Of votequorum.h. *)
Context (VOTEQUORUM_QDEVICE_DEFAULT_TIMEOUT VOTEQUORUM_QDEVICE_DEFAULT_SYNC_TIMEOUT : Z).

Abbreviation number := (AdvancedSettings.number advanced_settings).
Abbreviation text := (AdvancedSettings.text advanced_settings).

(** ** The instance *)

Definition qdevice_heuristics_init_instance : qdevice_heuristics_instance qdevice_heuristics_callback :=
  qdevice_heuristics_instance_init (number QdeviceSettings.heuristics_ipc_max_send_buffers)
    (number QdeviceSettings.heuristics_ipc_max_send_receive_size).

(** Settings before there is a net instance: its part is zero, and nothing looks at it. *)
Definition settings_of (conf : qdevice_config) (nc : option net_config) : qdevice_settings := {|
  cfg_tls_supported := default TLV_TLS_UNSUPPORTED (net_tls_supported <$> nc);
  cfg_decision_algorithm := default 0 (net_decision_algorithm <$> nc);
  cfg_heartbeat_interval := default 0 (net_heartbeat_interval <$> nc);
  cfg_cast_vote_timer_interval := default 0 (net_cast_vote_timer_interval <$> nc);
  cfg_connect_timeout := default 0 (net_connect_timeout <$> nc);
  cfg_force_ip_version := default 0 (net_force_ip_version <$> nc);
  cfg_cluster_name := default [] (net_cluster_name <$> nc);
  cfg_tie_breaker := default (mk_tie_breaker 0 0) (net_tie_breaker <$> nc);
  cfg_keep_active_partition_tie_breaker :=
    default TLV_KEEP_ACTIVE_PARTITION_TIE_BREAKER_DISABLED (net_keep_active_partition_tb <$> nc);
  cfg_node_id := node_id conf;
  cfg_heartbeat_timeout := heartbeat_interval conf;
  cfg_sync_heartbeat_timeout := sync_heartbeat_interval conf;
  heuristics_min_timeout := number QdeviceSettings.heuristics_min_timeout;
  heuristics_max_timeout := number QdeviceSettings.heuristics_max_timeout;
  heuristics_min_interval := number QdeviceSettings.heuristics_min_interval;
  heuristics_max_interval := number QdeviceSettings.heuristics_max_interval;
  heuristics_max_execs := number QdeviceSettings.heuristics_max_execs;
  net_initial_msg_receive_size := number QdeviceSettings.net_initial_msg_receive_size;
  net_initial_msg_send_size := number QdeviceSettings.net_initial_msg_send_size;
  net_min_msg_send_size := number QdeviceSettings.net_min_msg_send_size;
  net_max_msg_receive_size := number QdeviceSettings.net_max_msg_receive_size;
  net_max_send_buffers := number QdeviceSettings.net_max_send_buffers
|}.

(** Everything is zero; the poll loop is empty, its list of timers is [timers].  There is no net
    instance before the model has made one. *)
Definition qdevice_instance_init (timers : T) (h : heap) (e : E) : device :=
  mk_qdevice (qdevice_net_instance_init (settings_of (mk_config 0 0 0 0) None)) node_list_init None 0 []
    false (mk_vq_ring_id 0 0) [] false 0 (mk_vq_ring_id 0 0) 0 (-1) 0 false false false false false
    (qdevice_heuristics_instance_init 0 0) [] false timers h e [].

(** ** The heuristics worker *)

Definition call_or_exit (call : E → bool * E) : M device unit :=
  ok ← on_environment call; if (ok : bool) then mret tt else fail EXIT.

(** The side of the parent. *)
Definition qdevice_heuristics_init : M device unit :=
  call_or_exit sys_pipe;;
  call_or_exit sys_pipe;;
  call_or_exit sys_pipe;;
  call_or_exit sys_fork;;
  modify (set_heuristics_instance qdevice_heuristics_init_instance);;
  call_or_exit (sys_set_non_blocking PIPE_CMD_SEND);;
  call_or_exit (sys_set_non_blocking PIPE_CMD_RECV);;
  call_or_exit (sys_set_non_blocking PIPE_CMD_RECV).

(** ** Corosync *)

(** The loop around a call that may have to be tried again, after a second each time. *)
Fixpoint try_again (max_cs_try_again : nat) (call : E → cs_error * E) : M device cs_error :=
  res ← on_environment call;
  if bool_decide (res = CS_ERR_TRY_AGAIN) then
    match max_cs_try_again with
    | O => mret res
    | S n => try_again n call
    end
  else mret res.

Definition max_tries : nat := Z.to_nat (number QdeviceSettings.max_cs_try_again).

Definition cs_or_exit (call : M device cs_error) : M device unit :=
  res ← call; if negb (bool_decide (res = CS_OK)) then fail EXIT else mret tt.

Definition qdevice_cmap_init : M device unit :=
  cs_or_exit (try_again max_tries cmap_initialize);;
  cs_or_exit (on_environment cmap_context_set).

Definition qdevice_votequorum_init : M device unit :=
  cs_or_exit (try_again max_tries votequorum_initialize);;
  cs_or_exit (on_environment (votequorum_qdevice_register (text QdeviceSettings.votequorum_device_name)));;
  cs_or_exit (on_environment votequorum_context_set);;
  '(res, expected_votes) ← on_environment votequorum_expected;
  if negb (bool_decide (res = CS_OK)) then fail EXIT
  else
    modify (set_vq_expected_votes expected_votes);;
    cs_or_exit (on_environment votequorum_trackstart);;
    ok ← notifier_add VOTEQUORUM_CALLBACK;
    if negb ok then fail EXIT else mret tt.

Definition qdevice_votequorum_master_wins (allow : Z) : M device Z :=
  let final_allow :=
    match AdvancedSettings.other_setting advanced_settings with
    | QdeviceSettings.QDEVICE_ADVANCED_SETTINGS_MASTER_WINS_FORCE_OFF => 0
    | QdeviceSettings.QDEVICE_ADVANCED_SETTINGS_MASTER_WINS_FORCE_ON => if allow =? 0 then 1 else allow
    | QdeviceSettings.QDEVICE_ADVANCED_SETTINGS_MASTER_WINS_MODEL => allow
    end in
  res ← on_environment (votequorum_qdevice_master_wins (text QdeviceSettings.votequorum_device_name) final_allow);
  mret (if negb (bool_decide (res = CS_OK)) then -1 else 0).

(** The first call that fails ends it. *)
Fixpoint add_tracks (keys : list c_string) : M device Z :=
  match keys with
  | [] => mret 0
  | key :: keys' =>
      res ← on_environment (cmap_track_add key);
      if negb (bool_decide (res = CS_OK)) then mret (-1) else add_tracks keys'
  end.

Definition qdevice_cmap_add_track : M device Z :=
  add_tracks [str "config.totemconfig_reload_in_progress"; str "nodelist."; str "logging.";
              str "quorum.device.heuristics."].

(** ** The model net *)

(** Read a key and go on with its setting, or give up. *)
Definition read_key {A B} (key : string) (parse : option c_string → option A)
    (next : A → M device (option B)) : M device (option B) :=
  s ← on_environment (cmap_get_string (str key));
  match parse s with
  | None => mret None
  | Some a => next a
  end.

Definition qdevice_net_instance_init_from_cmap (conf : qdevice_config) : M device (option net_config) :=
  o ← malloc_device;
  match o with
  | None => mret None
  | Some _ =>
      read_key "quorum.device.net.tls" parse_tls (λ tls,
      read_key "quorum.device.net.host" id (λ host_addr,
      read_key "quorum.device.net.port" parse_host_port (λ host_port,
      read_key "totem.cluster_name" id (λ cluster_name,
      let cast_vote_timer_interval := times_0_5 (heartbeat_interval conf) in
      let heartbeat := adjust_heartbeat (number QdeviceSettings.net_heartbeat_interval_min)
                         (number QdeviceSettings.net_heartbeat_interval_max)
                         (times_0_8 (heartbeat_interval conf)) in
      let sync_heartbeat := times_0_8 (sync_heartbeat_interval conf) in
      read_key "quorum.device.net.algorithm" parse_algorithm (λ algorithm,
      if (algorithm =? TLV_DECISION_ALGORITHM_TYPE_TEST) &&
         (number QdeviceSettings.net_test_algorithm_enabled =? 0)
      then mret None
      else
      read_key "quorum.device.net.tie_breaker" parse_tie_breaker (λ tie_breaker,
      read_key "quorum.device.net.connect_timeout"
        (parse_connect_timeout (number QdeviceSettings.net_min_connect_timeout)
           (number QdeviceSettings.net_max_connect_timeout) heartbeat) (λ connect_timeout,
      read_key "quorum.device.net.force_ip_version" parse_force_ip_version (λ force_ip_version,
      read_key "quorum.device.net.keep_active_partition_tie_breaker" parse_keep_active_partition
        (λ keep_active_partition,
      mret (Some (mk_net_config tls algorithm heartbeat sync_heartbeat cast_vote_timer_interval
        host_addr host_port cluster_name tie_breaker connect_timeout force_ip_version
        keep_active_partition)))))))))))
  end.

(** [qdevice_model_net_init]: the net instance and the rest of the model. *)
Definition model_net_init (conf : qdevice_config) (nss_ok : bool) : M device (option qdevice_settings) :=
  nc ← qdevice_net_instance_init_from_cmap conf;
  match nc with
  | None => mret None
  | Some nc =>
      let settings := settings_of conf (Some nc) in
      r ← qdevice_model_net_init settings nss_ok;
      mret (if negb (r =? 0) then None else Some settings)
  end.

Definition qdevice_net_instance_destroy (i : qdevice_net_instance) : qdevice_net_instance :=
  set_net_send_buffer_list (send_buffer_list_free (net_send_buffer_list i))
    (set_receive_buffer (dynar_destroy (receive_buffer i)) i).

Definition qdevice_model_net_destroy (settings : qdevice_settings) : M device Z :=
  qdevice_net_algorithm_destroy settings;;
  modify_net qdevice_net_instance_destroy;;
  mret 0.

(** ** The table of models

    What the operations of a model find in [model_data] are the settings its [init] has made. *)

Record qdevice_model := mk_model {
  name : c_string;
  init : qdevice_config → bool → M device (option qdevice_settings);
  destroy : qdevice_settings → M device Z;
  pre_poll_loop : qdevice_settings → M device Z;
  post_poll_loop : qdevice_settings → qdevice_model_post_poll_loop_exit_reason → M device Z;
  get_config_node_list_failed : qdevice_settings → M device Z;
  config_node_list_changed : qdevice_settings → node_list → option Z → M device Z;
  votequorum_quorum_notify : qdevice_settings → Z → list votequorum_node_t → M device Z;
  votequorum_node_list_notify : qdevice_settings → votequorum_ring_id_t → list Z → M device Z;
  votequorum_node_list_heuristics_notify :
    qdevice_settings → votequorum_ring_id_t → list Z → Z → M device Z;
  votequorum_expected_votes_notify : qdevice_settings → Z → M device Z;
  cmap_changed : qdevice_settings → bool → M device Z
}.

Definition qdevice_model_net : qdevice_model := {|
  name := str "net";
  init := model_net_init;
  destroy := qdevice_model_net_destroy;
  pre_poll_loop := qdevice_model_net_pre_poll_loop;
  post_poll_loop := qdevice_model_net_post_poll_loop;
  get_config_node_list_failed _ := qdevice_model_net_get_config_node_list_failed;
  config_node_list_changed := qdevice_model_net_config_node_list_changed;
  votequorum_quorum_notify := qdevice_model_net_votequorum_quorum_notify;
  votequorum_node_list_notify := qdevice_model_net_votequorum_node_list_notify;
  votequorum_node_list_heuristics_notify := qdevice_model_net_votequorum_node_list_heuristics_notify;
  votequorum_expected_votes_notify := qdevice_model_net_votequorum_expected_votes_notify;
  cmap_changed _ := qdevice_model_net_cmap_changed
|}.

Definition QDEVICE_MODEL_TYPE_NET : nat := 0.
Definition QDEVICE_MODEL_TYPE_ARRAY_SIZE : nat := 1.
Definition model_array : Type := list (option qdevice_model).

(** [None]: -1. *)
Definition qdevice_model_register (type : nat) (model : qdevice_model) (array : model_array) :
    option model_array :=
  match array !! type with
  | Some None => Some (<[type := Some model]> array)
  | _ => None
  end.

Definition qdevice_model_register_all : M device model_array :=
  match qdevice_model_register QDEVICE_MODEL_TYPE_NET qdevice_model_net
          (replicate QDEVICE_MODEL_TYPE_ARRAY_SIZE None) with
  | Some array => mret array
  | None => fail EXIT
  end.

Fixpoint qdevice_model_str_to_type (array : model_array) (s : c_string) : option nat :=
  match array with
  | [] => None
  | model :: array' =>
      if bool_decide (name <$> model = Some s) then Some O else S <$> qdevice_model_str_to_type array' s
  end.

Section dispatch.
Context (array : model_array) (type : nat) (settings : qdevice_settings).

(** An operation of the model of the instance. *)
Definition with_model {A} (op : qdevice_model → M device A) : M device A :=
  match array !! type with
  | Some (Some model) => op model
  | _ => fail EXIT
  end.

Definition qdevice_model_init (conf : qdevice_config) (nss_ok : bool) : M device (option qdevice_settings) :=
  with_model (λ m, init m conf nss_ok).
Definition qdevice_model_destroy : M device Z := with_model (λ m, destroy m settings).
Definition qdevice_model_pre_poll_loop : M device Z := with_model (λ m, pre_poll_loop m settings).
Definition qdevice_model_post_poll_loop (exit_reason : qdevice_model_post_poll_loop_exit_reason) : M device Z :=
  with_model (λ m, post_poll_loop m settings exit_reason).
Definition qdevice_model_get_config_node_list_failed : M device Z :=
  with_model (λ m, get_config_node_list_failed m settings).
Definition qdevice_model_config_node_list_changed (nlist : node_list) (config_version : option Z) : M device Z :=
  with_model (λ m, config_node_list_changed m settings nlist config_version).
Definition qdevice_model_votequorum_quorum_notify (quorate : Z) (l : list votequorum_node_t) : M device Z :=
  with_model (λ m, votequorum_quorum_notify m settings quorate l).
Definition qdevice_model_votequorum_node_list_notify (ring_id : votequorum_ring_id_t) (l : list Z) : M device Z :=
  with_model (λ m, votequorum_node_list_notify m settings ring_id l).
Definition qdevice_model_votequorum_node_list_heuristics_notify (ring_id : votequorum_ring_id_t)
    (l : list Z) (heuristics_exec_result : Z) : M device Z :=
  with_model (λ m, votequorum_node_list_heuristics_notify m settings ring_id l heuristics_exec_result).
Definition qdevice_model_votequorum_expected_votes_notify (expected_votes : Z) : M device Z :=
  with_model (λ m, votequorum_expected_votes_notify m settings expected_votes).
Definition qdevice_model_cmap_changed (heuristics : bool) : M device Z :=
  with_model (λ m, cmap_changed m settings heuristics).
End dispatch.

(** ** The configuration *)

Definition qdevice_instance_configure_from_cmap (array : model_array) : M device (option qdevice_config) :=
  model ← on_environment (cmap_get_string (str "quorum.device.model"));
  match model with
  | None => mret None
  | Some s =>
      match qdevice_model_str_to_type array s with
      | None => mret None
      | Some type =>
          '(cs_err, id) ← on_environment (cmap_get_uint32 (str "runtime.votequorum.this_node_id"));
          if negb (bool_decide (cs_err = CS_OK)) then mret None
          else
            '(cs_err, timeout) ← on_environment (cmap_get_uint32 (str "quorum.device.timeout"));
            let timeout := if bool_decide (cs_err = CS_OK) then timeout
                           else VOTEQUORUM_QDEVICE_DEFAULT_TIMEOUT in
            '(cs_err, sync) ← on_environment (cmap_get_uint32 (str "quorum.device.sync_timeout"));
            let sync := if bool_decide (cs_err = CS_OK) then sync
                        else VOTEQUORUM_QDEVICE_DEFAULT_SYNC_TIMEOUT in
            let conf := mk_config type id timeout sync in
            r ← qdevice_instance_configure_from_cmap_heuristics (settings_of conf None);
            mret (if negb (r =? 0) then None else Some conf)
      end
  end.

(** ** The first ring id *)

Section wait.
Context (settings : qdevice_settings).

Definition call_notification (n : votequorum_notification) : M device unit :=
  match n with
  | NOTIFY_QUORUM quorate l => qdevice_votequorum_quorum_notify_callback settings quorate l
  | NOTIFY_NODE_LIST ring_id l => qdevice_votequorum_node_list_notify_callback settings ring_id l
  | NOTIFY_EXPECTED_VOTES votes => qdevice_votequorum_expected_votes_notify_callback settings votes
  end.

Fixpoint call_notifications (l : list votequorum_notification) : M device unit :=
  match l with [] => mret tt | n :: l' => call_notification n;; call_notifications l' end.

Definition qdevice_votequorum_dispatch : M device Z :=
  '(res, l) ← on_environment votequorum_dispatch;
  call_notifications l;;
  mret (if negb (bool_decide (res = CS_OK)) && negb (bool_decide (res = CS_ERR_TRY_AGAIN))
        then -1 else 0).

(** The calls are a second apart. *)
Fixpoint wait_loop (tries : nat) : M device unit :=
  r ← qdevice_votequorum_dispatch;
  if r =? -1 then mret tt
  else
    match tries with
    | O => mret tt
    | S tries' =>
        q ← get;
        if vq_node_list_initial_ring_id_set q then mret tt else wait_loop tries'
    end.

Definition qdevice_votequorum_wait_for_ring_id : M device Z :=
  wait_loop max_tries;;
  q ← get;
  mret (if vq_node_list_initial_ring_id_set q then 0 else -1).
End wait.

(** ** The order of the start *)

(** [if (step) return (EXIT_FAILURE);] *)
Definition or_failure {A} (step : M device Z) (next : M device (option A)) : M device (option A) :=
  r ← step; if negb (r =? 0) then mret None else next.

Definition initial_master_wins : Z :=
  match AdvancedSettings.other_setting advanced_settings with
  | QdeviceSettings.QDEVICE_ADVANCED_SETTINGS_MASTER_WINS_FORCE_ON => 1
  | _ => 0
  end.

(** What comes before the model: the lock and logging ([lock_ok]), the local socket ([ipc_ok]). *)
Definition start_before_model (lock_ok ipc_ok : bool) :
    M device (option (model_array * qdevice_config)) :=
  qdevice_heuristics_init;;
  qdevice_cmap_init;;
  if negb lock_ok then mret None
  else
    qdevice_votequorum_init;;
    if negb ipc_ok then mret None
    else
      array ← qdevice_model_register_all;
      conf ← qdevice_instance_configure_from_cmap array;
      match conf with
      | None => mret None
      | Some conf =>
          or_failure (qdevice_votequorum_master_wins initial_master_wins) (
          or_failure qdevice_cmap_store_config_node_list (
          mret (Some (array, conf))))
      end.

(** [None]: [main] returns [EXIT_FAILURE]. *)
Definition qdevice_start (lock_ok ipc_ok nss_ok callbacks_ok : bool) : M device (option qdevice_settings) :=
  conf ← start_before_model lock_ok ipc_ok;
  match conf with
  | None => mret None
  | Some (array, conf) =>
      settings ← qdevice_model_init array (model_type conf) conf nss_ok;
      match settings with
      | None => mret None
      | Some settings =>
          or_failure qdevice_cmap_add_track (
          if negb callbacks_ok then mret None
          else or_failure (qdevice_votequorum_wait_for_ring_id settings) (mret (Some settings)))
      end
  end.
End start.
