(* ===== verification/QdeviceStartFacts.v ===== *)
(** The start of the device: what it configures, and that it leads to the runs of [QdeviceRun]
    or ends the process. *)
From stdpp Require Import strings.
From S2P Require Import Prelude Dynar Tlv NodeList Msg SendBuffer DynarStr Heuristics Utils.
From S2P Require AdvancedSettings QdeviceSettings.
From stdpp Require Import list gmap.
From S2P Require Import TimerList TimerListFacts TimerInterface QdeviceInstance QdeviceSend QdeviceAlgorithm.
From S2P Require Import QdeviceHeuristics QdeviceMsgReceived QdeviceSocket QdeviceModelNet.
From S2P Require Import QdeviceVotequorum QdeviceCmap QdeviceRun QdeviceSim QdeviceStart.
From S2P Require Import QdeviceLogic QdeviceFacts QdeviceInvariant.
From S2P Require Import QdeviceAlgorithmFacts QdeviceHeuristicsFacts QdeviceReceivedFacts.
From S2P Require Import QdeviceConnectionFacts QdeviceNotifyFacts.
From S2P Require Import QdeviceCmdFacts QdeviceCmapFacts QdeviceSafety.
Local Open Scope Z_scope.

(** ** The configuration of the model net *)

Lemma times_0_8_exact z : 0 ≤ z < 2 ^ 32 → times_0_8 z = 4 * z / 5.
Proof.
  intros Hz. unfold times_0_8. symmetry.
  pose proof (Z.div_mod (4 * z) 5 ltac:(lia)). pose proof (Z.mod_pos_bound (4 * z) 5 ltac:(lia)).
  apply Z.div_unique with (z * 3602879701896397 - 2 ^ 52 * (4 * z / 5)); [left|]; lia.
Qed.

Lemma times_0_9_exact z : 0 ≤ z < 2 ^ 32 → times_0_9 z = 9 * z / 10.
Proof.
  intros Hz. unfold times_0_9. symmetry.
  pose proof (Z.div_mod (9 * z) 10 ltac:(lia)). pose proof (Z.mod_pos_bound (9 * z) 10 ltac:(lia)).
  apply Z.div_unique with (z * 8106479329266893 - 2 ^ 53 * (9 * z / 10)); [left|]; lia.
Qed.

(** ** What the values of the configuration mean

    Written down as tables of words, apart from the code. *)

(** A decimal numeral from [lo] to [hi]. *)
Definition numeral (lo hi : Z) (s : c_string) (z : Z) : Prop := ∃ sp negative sg ds,
  s = sp ++ sg ++ ds ∧ Forall (λ b, is_c_space b = true) sp ∧ sign_of negative sg ∧
  Forall (λ b, is_base_digit 10 b = true) ds ∧ ds ≠ [] ∧
  z = (if negative then - digits_value 10 ds else digits_value 10 ds) ∧
  LLONG_MIN ≤ z ≤ LLONG_MAX ∧ lo ≤ z ≤ hi.

(** A word of a table; upper and lower case are the same in the second one. *)
Definition word {A} (table : list (string * A)) (s : c_string) (a : A) : Prop :=
  ∃ w, (w, a) ∈ table ∧ s = str w.
Definition word_of_any_case {A} (table : list (string * A)) (s : c_string) (a : A) : Prop :=
  ∃ w, (w, a) ∈ table ∧ strcase_eq s (str w) = true.

(** The value of a key, or what is taken when there is none. *)
Definition value_or {A} (unset : A) (meaning : c_string → A → Prop) (s : option c_string) (a : A) : Prop :=
  match s with None => a = unset | Some s => meaning s a end.

Definition tls_words : list (string * tlv_tls_supported) :=
  [("yes", TLV_TLS_SUPPORTED); ("on", TLV_TLS_SUPPORTED); ("1", TLV_TLS_SUPPORTED);
   ("no", TLV_TLS_UNSUPPORTED); ("off", TLV_TLS_UNSUPPORTED); ("0", TLV_TLS_UNSUPPORTED);
   ("required", TLV_TLS_REQUIRED)]%string.
Definition algorithm_words : list (string * Z) :=
  [("test", 0); ("ffsplit", 1); ("2nodelms", 2); ("lms", 3)]%string.
Definition tie_breaker_words : list (string * tlv_tie_breaker) :=
  [("lowest", mk_tie_breaker 1 0); ("highest", mk_tie_breaker 2 0)]%string.
Definition keep_words : list (string * tlv_keep_active_partition_tie_breaker) :=
  let on := TLV_KEEP_ACTIVE_PARTITION_TIE_BREAKER_ENABLED in
  let off := TLV_KEEP_ACTIVE_PARTITION_TIE_BREAKER_DISABLED in
  [("yes", on); ("on", on); ("1", on); ("no", off); ("off", off); ("0", off)]%string.

Lemma strtonum_numeral s lo hi z : utils_strtonum s lo hi = Some z ↔ numeral lo hi s z.
Proof. by apply utils_strtonum_base_correct. Qed.

Lemma word_cons {A} w a table s (x : A) : word ((w, a) :: table) s x ↔ s = str w ∧ x = a ∨ word table s x.
Proof.
  split.
  - intros (w' & [[= -> ->]|Hw]%elem_of_cons & ->); [by left|]. right. by exists w'.
  - intros [[-> ->]|(w' & Hw & ->)]; [exists w|exists w']; (split; [|done]); [by left|by right].
Qed.
Lemma word_nil {A} s (x : A) : word [] s x ↔ False.
Proof. split; [|done]. by intros (w & Hw%elem_of_nil & _). Qed.
Lemma any_case_cons {A} w a table s (x : A) :
  word_of_any_case ((w, a) :: table) s x ↔ strcase_eq s (str w) = true ∧ x = a ∨ word_of_any_case table s x.
Proof.
  split.
  - intros (w' & [[= -> ->]|Hw]%elem_of_cons & ?); [by left|]. right. by exists w'.
  - intros [[? ->]|(w' & Hw & ?)]; [exists w|exists w']; (split; [|done]); [by left|by right].
Qed.
Lemma any_case_nil {A} s (x : A) : word_of_any_case [] s x ↔ False.
Proof. split; [|done]. by intros (w & Hw%elem_of_nil & _). Qed.

(** Words that differ. *)
Lemma strcase_eq_Some s w : strcase_eq s w = true ↔ (to_lower <$> s) = (to_lower <$> w).
Proof. apply bool_decide_eq_true. Qed.

Lemma parse_bool_words s :
  utils_parse_bool_str s =
    if bool_decide ((to_lower <$> s) ∈ [str "yes"; str "on"; str "1"]) then 1
    else if bool_decide ((to_lower <$> s) ∈ [str "no"; str "off"; str "0"]) then 0 else -1.
Proof.
  unfold utils_parse_bool_str, strcase_eq.
  change (to_lower <$> str "yes") with (str "yes"). change (to_lower <$> str "on") with (str "on").
  change (to_lower <$> str "1") with (str "1"). change (to_lower <$> str "no") with (str "no").
  change (to_lower <$> str "off") with (str "off"). change (to_lower <$> str "0") with (str "0").
  generalize (to_lower <$> s) as l. intros l.
  repeat case_bool_decide; subst; cbn [orb]; set_solver.
Qed.

Lemma parse_tls_correct s t :
  parse_tls s = Some t ↔ value_or TLV_TLS_SUPPORTED (word_of_any_case tls_words) s t.
Proof.
  destruct s as [s|]; cbn [value_or]; [|split; [by intros [= <-]|by intros ->]].
  unfold tls_words, parse_tls. rewrite !any_case_cons, any_case_nil, !strcase_eq_Some, parse_bool_words.
  unfold strcase_eq.
  change (to_lower <$> str "yes") with (str "yes"). change (to_lower <$> str "on") with (str "on").
  change (to_lower <$> str "1") with (str "1"). change (to_lower <$> str "no") with (str "no").
  change (to_lower <$> str "off") with (str "off"). change (to_lower <$> str "0") with (str "0").
  change (to_lower <$> str "required") with (str "required").
  generalize (to_lower <$> s) as l. intros l.
  repeat case_bool_decide; cbn; set_solver.
Qed.

Lemma parse_keep_correct s k :
  parse_keep_active_partition s = Some k ↔
  value_or TLV_KEEP_ACTIVE_PARTITION_TIE_BREAKER_ENABLED (word_of_any_case keep_words) s k.
Proof.
  destruct s as [s|]; cbn [value_or]; [|split; [by intros [= <-]|by intros ->]].
  unfold keep_words, parse_keep_active_partition. cbv zeta.
  rewrite !any_case_cons, any_case_nil, !strcase_eq_Some, parse_bool_words.
  change (to_lower <$> str "yes") with (str "yes"). change (to_lower <$> str "on") with (str "on").
  change (to_lower <$> str "1") with (str "1"). change (to_lower <$> str "no") with (str "no").
  change (to_lower <$> str "off") with (str "off"). change (to_lower <$> str "0") with (str "0").
  generalize (to_lower <$> s) as l. intros l.
  repeat case_bool_decide; cbn; set_solver.
Qed.

Lemma parse_algorithm_correct s z :
  parse_algorithm s = Some z ↔ value_or 1 (word algorithm_words) s z.
Proof.
  destruct s as [s|]; cbn [value_or]; [|split; [by intros [= <-]|by intros ->]].
  unfold algorithm_words, parse_algorithm. rewrite !word_cons, word_nil.
  repeat case_bool_decide; subst; split; try (intros [= <-]; tauto); naive_solver.
Qed.

Lemma parse_tie_breaker_correct s tb :
  parse_tie_breaker s = Some tb ↔
  value_or (mk_tie_breaker 1 0) (λ s tb, word tie_breaker_words s tb ∨
    ∃ z, numeral 1 UINT32_MAX s z ∧ tb = mk_tie_breaker 3 z) s tb.
Proof.
  destruct s as [s|]; cbn [value_or]; [|split; [by intros [= <-]|by intros ->]].
  unfold tie_breaker_words, parse_tie_breaker. rewrite !word_cons, word_nil.
  setoid_rewrite <-strtonum_numeral. repeat case_bool_decide; subst.
  - split; [intros [= <-]; tauto|]. intros [[[_ ->]|[[? _]|[]]]|(z & Hz & _)]; done.
  - split; [intros [= <-]; tauto|]. intros [[[? _]|[[_ ->]|[]]]|(z & Hz & _)]; done.
  - split.
    + destruct (utils_strtonum s 1 UINT32_MAX) as [z|]; [|done]. intros [= <-]. right. by exists z.
    + intros [[[? _]|[[? _]|[]]]|(z & -> & ->)]; done.
Qed.

Lemma parse_number_correct unset lo hi s z :
  match s with None => Some unset | Some s => utils_strtonum s lo hi end = Some z ↔
  value_or unset (numeral lo hi) s z.
Proof. destruct s as [s|]; [apply strtonum_numeral|]. split; [by intros [= <-]|by intros ->]. Qed.

Lemma parse_force_ip_version_correct s z :
  parse_force_ip_version s = Some z ↔
  value_or 0 (λ s z, numeral 0 6 s z ∧ (z = 0 ∨ z = 4 ∨ z = 6)) s z.
Proof.
  destruct s as [s|]; cbn [value_or]; [|split; [by intros [= <-]|by intros ->]].
  unfold parse_force_ip_version. rewrite <-strtonum_numeral.
  destruct (utils_strtonum s 0 6) as [x|]; cbn; [|split; [done|by intros [? _]]].
  destruct (_ && _) eqn:Ec.
  - split; [done|]. intros [[= <-] Hx]. zbool. lia.
  - split; [intros [= <-]|by intros [[= <-] _]]. split; [done|]. lia.
Qed.

Lemma adjust_heartbeat_clamp lo hi z : adjust_heartbeat lo hi z = Z.min hi (Z.max lo z).
Proof. unfold adjust_heartbeat. repeat case_match; lia. Qed.

Section start.
Context {T E : Type} `{TimerLaws qdevice_timer T} `{Environment E} `{StartCalls E}.
Abbreviation device := (qdevice_instance T E).
Abbreviation view := (view T).
Abbreviation hidden := (hidden (T:=T) (E:=E)).
Abbreviation advanced := (AdvancedSettings.advanced_settings QdeviceSettings.qdevice_number
  QdeviceSettings.qdevice_text QdeviceSettings.master_wins_setting).
Context (adv : advanced).
Context (DEFAULT_TIMEOUT DEFAULT_SYNC_TIMEOUT : Z).
Abbreviation number := (AdvancedSettings.number adv).

(** The configuration: texts and 32-bit numbers by key, as cmap answers all the time. *)
Context (text_of : string → option c_string) (number_of : string → option Z).
Definition cmap_answers : Prop :=
  (∀ key z, number_of key = Some z → 0 ≤ z < 2 ^ 32) ∧
  (∀ key e, fst (cmap_get_string (str key) e) = text_of key) ∧
  (∀ key e, let '(cs_err, z) := fst (cmap_get_uint32 (str key) e) in
     number_of key = if bool_decide (cs_err = CS_OK) then Some z else None).

(** What the net instance is configured with when the values are valid. *)
Record net_configured (conf : qdevice_config) (nc : net_config) : Prop := {
  nc_tls : value_or TLV_TLS_SUPPORTED (word_of_any_case tls_words) (text_of "quorum.device.net.tls")
             (net_tls_supported nc);
  nc_host : text_of "quorum.device.net.host" = Some (net_host_addr nc);
  nc_port : value_or 5403 (numeral 1 65535) (text_of "quorum.device.net.port") (net_host_port nc);
  nc_cluster_name : text_of "totem.cluster_name" = Some (net_cluster_name nc);
  nc_cast_vote : net_cast_vote_timer_interval nc = heartbeat_interval conf / 2;
  nc_heartbeat : net_heartbeat_interval nc =
    Z.min (number QdeviceSettings.net_heartbeat_interval_max)
      (Z.max (number QdeviceSettings.net_heartbeat_interval_min) (4 * heartbeat_interval conf / 5));
  nc_sync_heartbeat : net_sync_heartbeat_interval nc = 4 * sync_heartbeat_interval conf / 5;
  nc_algorithm : value_or 1 (word algorithm_words) (text_of "quorum.device.net.algorithm")
                   (net_decision_algorithm nc);
  nc_test : net_decision_algorithm nc = 0 → number QdeviceSettings.net_test_algorithm_enabled ≠ 0;
  nc_tie_breaker : value_or (mk_tie_breaker 1 0) (λ s tb, word tie_breaker_words s tb ∨
      ∃ z, numeral 1 UINT32_MAX s z ∧ tb = mk_tie_breaker 3 z)
    (text_of "quorum.device.net.tie_breaker") (net_tie_breaker nc);
  nc_connect_timeout : value_or (net_heartbeat_interval nc)
    (numeral (number QdeviceSettings.net_min_connect_timeout) (number QdeviceSettings.net_max_connect_timeout))
    (text_of "quorum.device.net.connect_timeout") (net_connect_timeout nc);
  nc_force_ip_version : value_or 0 (λ s z, numeral 0 6 s z ∧ (z = 0 ∨ z = 4 ∨ z = 6))
    (text_of "quorum.device.net.force_ip_version") (net_force_ip_version nc);
  nc_keep : value_or TLV_KEEP_ACTIVE_PARTITION_TIE_BREAKER_ENABLED (word_of_any_case keep_words)
    (text_of "quorum.device.net.keep_active_partition_tie_breaker") (net_keep_active_partition_tb nc)
}.

Lemma read_key_answer {A B} key (parse : option c_string → option A) (next : A → M device (option B)) (q : device) :
  cmap_answers → ∃ q', read_key key parse next q =
    match parse (text_of key) with None => (Ok None, q') | Some a => next a q' end.
Proof.
  intros (_ & Ht & _). unfold read_key. specialize (Ht key (environment q)).
  destruct (cmap_get_string (str key) (environment q)) as [s e] eqn:Es. cbn in Ht. subst s.
  exists (set_environment e q).
  rewrite (bind_ok _ _ q (text_of key) (set_environment e q)); [by destruct (parse _)|].
  unfold on_environment. by rewrite Es.
Qed.

(** The outcome of the reading, and what it must be. *)
Definition outcome_ok (conf : qdevice_config) (r : res (option net_config)) : Prop :=
  match r with
  | Ok (Some nc) => net_configured conf nc
  | Ok None => ∀ nc, ¬ net_configured conf nc
  | Err _ => False
  end.

Lemma outcome_read_key {A} conf key (parse : option c_string → option A)
    (next : A → M device (option net_config)) (q : device) :
  cmap_answers →
  (parse (text_of key) = None → ∀ nc, ¬ net_configured conf nc) →
  (∀ a q', parse (text_of key) = Some a → outcome_ok conf (fst (next a q'))) →
  outcome_ok conf (fst (read_key key parse next q)).
Proof.
  intros Hc HN HS. destruct (read_key_answer key parse next q Hc) as [q' ->].
  destruct (parse (text_of key)) as [a|] eqn:E1; [by apply HS|cbn; by apply HN].
Qed.

Definition u32_config (conf : qdevice_config) : Prop :=
  0 ≤ heartbeat_interval conf < 2 ^ 32 ∧ 0 ≤ sync_heartbeat_interval conf < 2 ^ 32.

Ltac next_key key := apply outcome_read_key; [done| |intros key ? ?].
Ltac not_configured H := intros H nc Hnc; apply eq_None_not_Some in H; apply H.

(** The configuration is read exactly when all its values are valid, and as they say. *)
Lemma init_from_cmap_outcome conf (q : device) :
  cmap_answers → u32_config conf →
  fst (malloc_device q) ≠ Ok None →
  outcome_ok conf (fst (qdevice_net_instance_init_from_cmap adv conf q)).
Proof.
  intros Hc [Hh Hs] Hm. unfold qdevice_net_instance_init_from_cmap.
  destruct (malloc_device q) as [[[o|]|c] q1] eqn:Em; cbn in Hm; try done.
  2: { unfold malloc_device in Em. by destruct (malloc (main_heap q)). }
  rewrite (bind_ok _ _ _ _ _ Em).
  next_key tls. { not_configured H3. eexists. apply parse_tls_correct, (nc_tls _ _ Hnc). }
  next_key host. { intros H4 nc Hnc. by rewrite (nc_host _ _ Hnc) in H4. }
  next_key port. { not_configured H5. eexists. apply (parse_number_correct 5403), (nc_port _ _ Hnc). }
  next_key cname. { intros H6 nc Hnc. by rewrite (nc_cluster_name _ _ Hnc) in H6. }
  cbv zeta. rewrite !times_0_8_exact by done.
  next_key alg. { not_configured H7. eexists. apply parse_algorithm_correct, (nc_algorithm _ _ Hnc). }
  match goal with H : parse_algorithm _ = Some alg |- _ => apply parse_algorithm_correct in H; rename H into Halg end.
  destruct (_ && _) eqn:Et.
  { zbool. intros nc Hnc. apply (nc_test _ _ Hnc); [|done]. pose proof (nc_algorithm _ _ Hnc) as Ha.
    apply (proj2 (parse_algorithm_correct _ _)) in Ha, Halg. rewrite Ha in Halg. injection Halg as ->. tauto. }
  next_key tb. { not_configured H8. eexists. apply parse_tie_breaker_correct, (nc_tie_breaker _ _ Hnc). }
  rewrite adjust_heartbeat_clamp.
  next_key ct.
  { not_configured H9. eexists. apply parse_number_correct. rewrite <-(nc_heartbeat _ _ Hnc). apply (nc_connect_timeout _ _ Hnc). }
  next_key ip. { not_configured H10. eexists. apply parse_force_ip_version_correct, (nc_force_ip_version _ _ Hnc). }
  next_key keep. { not_configured H11. eexists. apply parse_keep_correct, (nc_keep _ _ Hnc). }
  split; cbn; try done; try (by apply parse_tls_correct); try (by apply (parse_number_correct _ _ _)).
  - intros ->. cbn in Et. by apply Z.eqb_neq in Et.
  - by apply parse_tie_breaker_correct.
  - by apply parse_force_ip_version_correct.
  - by apply parse_keep_correct.
Qed.
Lemma runs_read_key {A B} (v : view) key (parse : option c_string → option A)
    (next : A → M device (option B)) Q :
  Q None v → (∀ a, runs v (next a) Q) → runs (E:=E) v (read_key key parse next) Q.
Proof.
  intros HN HS. unfold read_key. runs_step. runs_step. destruct (parse a) as [x|]; [apply HS|by runs_step].
Qed.

Lemma runs_init_from_cmap conf (v : view) :
  runs v (qdevice_net_instance_init_from_cmap adv conf) (λ _ v', v' = v).
Proof.
  unfold qdevice_net_instance_init_from_cmap. runs_step. apply (runs_hidden _ _ _ hidden_malloc). intros [o|]; [|by runs_step].
  do 4 (apply runs_read_key; [done|intros ?]). cbv zeta.
  apply runs_read_key; [done|]. intros alg. destruct (_ && _); [by runs_step|].
  do 4 (apply runs_read_key; [done|intros ?]). by runs_step.
Qed.

(** What is read for all models. *)
Record conf_read (conf : qdevice_config) : Prop := {
  cr_model : text_of "quorum.device.model" = Some (str "net");
  cr_node_id : number_of "runtime.votequorum.this_node_id" = Some (node_id conf);
  cr_timeout : heartbeat_interval conf = default DEFAULT_TIMEOUT (number_of "quorum.device.timeout");
  cr_sync_timeout : sync_heartbeat_interval conf =
    default DEFAULT_SYNC_TIMEOUT (number_of "quorum.device.sync_timeout")
}.

(** ** What comes before the model *)

Lemma hidden_call_or_exit call : hidden (call_or_exit call).
Proof. unfold call_or_exit. hidden_tac. Qed.
Lemma hidden_try_again n call : hidden (try_again n call).
Proof. induction n as [|n IH]; cbn [try_again]; hidden_tac. Qed.
Lemma hidden_cs_or_exit call : hidden call → hidden (cs_or_exit call).
Proof. intros Hc. unfold cs_or_exit. hidden_tac. Qed.
Hint Resolve hidden_call_or_exit hidden_try_again hidden_cs_or_exit : hidden.

Lemma hidden_cmap_init : hidden (qdevice_cmap_init adv).
Proof. unfold qdevice_cmap_init. hidden_tac. Qed.

Lemma hidden_master_wins allow : hidden (qdevice_votequorum_master_wins adv allow).
Proof. unfold qdevice_votequorum_master_wins. hidden_tac. Qed.

Lemma hidden_configure array :
  hidden (qdevice_instance_configure_from_cmap adv DEFAULT_TIMEOUT DEFAULT_SYNC_TIMEOUT array).
Proof.
  unfold qdevice_instance_configure_from_cmap. hidden_tac.
  apply hidden_configure_heuristics.
Qed.

Lemma runs_heuristics_init (v : view) (Q : unit → view → Prop) :
  Q tt (v_set_notifiers [] v) → runs (E:=E) v (qdevice_heuristics_init adv) Q.
Proof.
  intros HQ. unfold qdevice_heuristics_init. do 4 (runs_step; runs_step). runs_step.
  apply runs_modify. intros q <-. rewrite view_of_heuristics. do 2 (runs_step; runs_step).
  runs_step. by destruct a5.
Qed.

Lemma runs_votequorum_init (v : view) (Q : unit → view → Prop) :
  v_notifiers v = [] → Q tt (v_set_notifiers [VOTEQUORUM_CALLBACK] v) →
  runs (E:=E) v (qdevice_votequorum_init adv) Q.
Proof.
  intros Hn HQ. unfold qdevice_votequorum_init. do 4 (runs_step; runs_step). destruct a2 as [res votes].
  destruct (negb _); [by runs_step|]. runs_step. eapply runs_hidden; [apply hidden_modify; by intros []|].
  intros _. do 2 runs_step. runs_step.
  apply runs_notifier_add; [rewrite Hn; set_solver|apply runs_exit|].
  rewrite Hn. by apply runs_ret.
Qed.

(** The table of models. *)
Definition models : model_array := [Some (qdevice_model_net adv)].

Lemma with_model_net {A} type (op : qdevice_model → M device A) :
  with_model models type op = if decide (type = QDEVICE_MODEL_TYPE_NET) then op (qdevice_model_net adv) else fail EXIT.
Proof. by destruct type as [|[|]]. Qed.

(** The calls of the callbacks through the table are those of the model net. *)
Lemma table_is_net settings :
  let call {A} (op : model_array → nat → A) := op models QDEVICE_MODEL_TYPE_NET in
  call (λ a t, qdevice_model_pre_poll_loop a t settings) = qdevice_model_net_pre_poll_loop settings ∧
  call (λ a t, qdevice_model_post_poll_loop a t settings) = qdevice_model_net_post_poll_loop settings ∧
  call (λ a t, qdevice_model_config_node_list_changed a t settings) =
    qdevice_model_net_config_node_list_changed settings ∧
  call (λ a t, qdevice_model_votequorum_quorum_notify a t settings) =
    qdevice_model_net_votequorum_quorum_notify settings ∧
  call (λ a t, qdevice_model_votequorum_node_list_notify a t settings) =
    qdevice_model_net_votequorum_node_list_notify settings ∧
  call (λ a t, qdevice_model_votequorum_node_list_heuristics_notify a t settings) =
    qdevice_model_net_votequorum_node_list_heuristics_notify settings ∧
  call (λ a t, qdevice_model_votequorum_expected_votes_notify a t settings) =
    qdevice_model_net_votequorum_expected_votes_notify settings ∧
  call (λ a t, qdevice_model_cmap_changed a t settings) = qdevice_model_net_cmap_changed.
Proof. done. Qed.

(** Before the model nothing runs and no vote is cast; votequorum is the one to be notified. *)
Lemma runs_before_model lock_ok ipc_ok (v : view) :
  runs v (start_before_model adv DEFAULT_TIMEOUT DEFAULT_SYNC_TIMEOUT lock_ok ipc_ok)
    (λ r v', ∀ array conf, r = Some (array, conf) →
       array = models ∧ v' = v_set_notifiers [VOTEQUORUM_CALLBACK] v).
Proof.
  unfold start_before_model. runs_step. apply runs_heuristics_init. runs_step.
  apply runs_hidden; [apply hidden_cmap_init|]. intros _.
  destruct (negb lock_ok); [by runs_step|]. runs_step.
  apply runs_votequorum_init; [by destruct v|].
  destruct (negb ipc_ok); [by runs_step|]. runs_step.
  change (qdevice_model_register_all adv) with (mret models : M device model_array). apply runs_ret. runs_step.
  apply runs_hidden; [apply hidden_configure|]. intros [conf|]; [|by runs_step; intros []].
  unfold or_failure. runs_step. apply runs_hidden; [apply hidden_master_wins|]. intros r.
  destruct (negb _); [by runs_step|]. runs_step.
  apply runs_hidden; [apply hidden_store_config|]. intros r'.
  destruct (negb _); [by runs_step|]. runs_step. intros ? ? [= <- <-]. by destruct v.
Qed.

Lemma view_before_model (q : device) timers h (e : E) :
  timers_inv timers → timers_running timers = ∅ →
  view_of q = v_set_notifiers [VOTEQUORUM_CALLBACK] (view_of (qdevice_instance_init adv timers h e)) →
  before_model q.
Proof. intros Hi Hr Hv. injection Hv. intros. split; congruence. Qed.

(** ** From the model to the first ring id *)

Context (beyond : mem).

Section wait.
Context (settings : qdevice_settings).
Abbreviation ok := (ok settings).
Abbreviation reachable := (reachable settings beyond).

(** A step keeps the device in its runs, or exits. *)
Definition goes_along {R} (m : M device R) : Prop := ∀ q,
  reachable [] q → ok [] (view_of q) →
  match m q with
  | (Ok _, q') => reachable [] q' ∧ ok [] (view_of q')
  | (Err c, _) => c = EXIT
  end.

Lemma goes_along_ret {R} (r : R) : goes_along (mret r).
Proof. done. Qed.
Lemma goes_along_get : goes_along get.
Proof. done. Qed.
Lemma goes_along_bind {R R'} (m : M device R) (f : R → M device R') :
  goes_along m → (∀ r, goes_along (f r)) → goes_along (m ≫= f).
Proof.
  intros Hm Hf q Hr Hq. specialize (Hm q Hr Hq). destruct (m q) as [[r|c] q'] eqn:Em.
  - rewrite (bind_ok _ _ _ _ _ Em). destruct Hm. by apply Hf.
  - by rewrite (bind_err _ _ _ _ _ Em).
Qed.
Lemma goes_along_environment {R} (op : E → R * E) : goes_along (on_environment op).
Proof.
  intros q Hr Hq. unfold on_environment. destruct (op _) as [r e]. split; [by apply reachable_outside|].
  by destruct q.
Qed.

Lemma goes_along_notification n : goes_along (call_notification settings n).
Proof.
  intros q Hr Hq.
  assert (Hk : keeps (T:=T) (E:=E) settings [] (call_notification settings n)).
  { destruct n; [apply keeps_quorum_callback|apply keeps_node_list_callback|apply keeps_expected_votes_callback]. }
  specialize (Hk _ Hq q eq_refl). destruct (call_notification settings n q) as [[[]|c] q'] eqn:En; [|done].
  split; [|done]. replace [] with (acks_of beyond (event_of n) q ++ []) by by destruct n.
  apply reachable_step; [done|by destruct n|].
  replace (run_event settings beyond (event_of n)) with (goes_on (call_notification settings n)) by by destruct n.
  unfold goes_on. by rewrite (bind_ok _ _ _ _ _ En).
Qed.

Lemma goes_along_notifications l : goes_along (call_notifications settings l).
Proof.
  induction l as [|n l IH]; cbn [call_notifications]; [apply goes_along_ret|].
  apply goes_along_bind; [apply goes_along_notification|by intros _].
Qed.

Lemma goes_along_wait n : goes_along (wait_loop settings n).
Proof.
  assert (Hd : goes_along (qdevice_votequorum_dispatch settings)).
  { apply goes_along_bind; [apply goes_along_environment|]. intros [res l].
    apply goes_along_bind; [apply goes_along_notifications|]. intros _. apply goes_along_ret. }
  induction n as [|n IH]; cbn [wait_loop]; (apply goes_along_bind; [done|]); intros r;
    (destruct (_ =? _); [apply goes_along_ret|]); [apply goes_along_ret|].
  apply goes_along_bind; [apply goes_along_get|]. intros q. by destruct (vq_node_list_initial_ring_id_set q).
Qed.

Lemma goes_along_add_tracks keys : goes_along (add_tracks keys).
Proof.
  induction keys as [|key keys IH]; cbn [add_tracks]; [apply goes_along_ret|].
  apply goes_along_bind; [apply goes_along_environment|]. intros res. by destruct (negb _).
Qed.
Lemma goes_along_add_track : goes_along qdevice_cmap_add_track.
Proof. apply goes_along_add_tracks. Qed.

(** The end of the start. *)
Lemma wait_for_ring_id_ok (q : device) :
  reachable [] q → ok [] (view_of q) →
  match qdevice_votequorum_wait_for_ring_id adv settings q with
  | (Ok r, q') => reachable [] q' ∧ (r = 0 → vq_node_list_initial_ring_id_set q' = true)
  | (Err c, _) => c = EXIT
  end.
Proof.
  intros Hr Hq. unfold qdevice_votequorum_wait_for_ring_id.
  pose proof (goes_along_wait (max_tries adv) q Hr Hq) as Hw.
  destruct (wait_loop settings (max_tries adv) q) as [[[]|c] q'] eqn:Ew; [|by rewrite (bind_err _ _ _ _ _ Ew)].
  rewrite (bind_ok _ _ _ _ _ Ew). destruct Hw as [Hw _]. cbn. split; [done|].
  by destruct (vq_node_list_initial_ring_id_set q').
Qed.
End wait.

(** ** The whole start *)

Lemma text_answer key (q : device) s q' : cmap_answers →
  on_environment (cmap_get_string (str key)) q = (Ok s, q') → s = text_of key.
Proof.
  intros (_ & Ht & _). unfold on_environment. specialize (Ht key (environment q)).
  destruct (cmap_get_string _ _) as [x e]. intros [= <- _]. exact Ht.
Qed.
Lemma number_answer key (q : device) err z q' : cmap_answers →
  on_environment (cmap_get_uint32 (str key)) q = (Ok (err, z), q') →
  number_of key = if bool_decide (err = CS_OK) then Some z else None.
Proof.
  intros (_ & _ & Hn). unfold on_environment. specialize (Hn key (environment q)).
  destruct (cmap_get_uint32 _ _) as [[err' z'] e]. intros [= <- <- _]. exact Hn.
Qed.

Lemma configure_reads (q : device) conf q' : cmap_answers →
  qdevice_instance_configure_from_cmap adv DEFAULT_TIMEOUT DEFAULT_SYNC_TIMEOUT models q = (Ok (Some conf), q') →
  conf_read conf.
Proof.
  intros Hc E1. unfold qdevice_instance_configure_from_cmap in E1.
  apply bind_Ok in E1 as (s & q1 & Es & E1). apply text_answer in Es; [|done].
  destruct s as [s|]; [|by injection E1].
  destruct (qdevice_model_str_to_type models s) as [type|] eqn:Et; [|by injection E1].
  assert (s = str "net") as ->.
  { cbn in Et. match type of Et with context [bool_decide ?P] => destruct (bool_decide_reflect P) as [Hs|] end;
      [by injection Hs|done]. }
  apply bind_Ok in E1 as ([err id] & q2 & En & E1). apply number_answer in En; [|done].
  destruct (bool_decide (err = CS_OK)); cbn [negb] in E1; [|by injection E1].
  apply bind_Ok in E1 as ([err1 timeout] & q3 & Eh & E1). apply number_answer in Eh; [|done].
  apply bind_Ok in E1 as ([err2 sync] & q4 & Esy & E1). apply number_answer in Esy; [|done].
  apply bind_Ok in E1 as (r & q5 & _ & E1). destruct (negb (r =? 0)); [by injection E1|].
  injection E1 as <- _. split; cbn; [done|done|rewrite Eh|rewrite Esy]; repeat case_bool_decide; done.
Qed.

Lemma before_model_reads lock_ok ipc_ok (q : device) array conf q' : cmap_answers →
  start_before_model adv DEFAULT_TIMEOUT DEFAULT_SYNC_TIMEOUT lock_ok ipc_ok q = (Ok (Some (array, conf)), q') →
  conf_read conf.
Proof.
  intros Hc E1. unfold start_before_model in E1.
  apply bind_Ok in E1 as (? & q1 & _ & E1). apply bind_Ok in E1 as (? & q2 & _ & E1).
  destruct (negb lock_ok); [by injection E1|]. apply bind_Ok in E1 as (? & q3 & _ & E1).
  destruct (negb ipc_ok); [by injection E1|]. apply bind_Ok in E1 as (array' & q4 & Ea & E1).
  change (qdevice_model_register_all adv) with (mret models : M device model_array) in Ea. injection Ea as <- <-.
  apply bind_Ok in E1 as (o & q5 & Eo & E1). destruct o as [conf'|]; [|by injection E1].
  apply configure_reads in Eo; [|done]. unfold or_failure in E1.
  apply bind_Ok in E1 as (r & q6 & _ & E1). destruct (negb _); [by injection E1|].
  apply bind_Ok in E1 as (r' & q7 & _ & E1). destruct (negb _); [by injection E1|].
  by injection E1 as _ <- _.
Qed.

(** The settings are those of the configuration and of the command line. *)
Record configured (s : qdevice_settings) : Prop := {
  co_model : text_of "quorum.device.model" = Some (str "net");
  co_node_id : number_of "runtime.votequorum.this_node_id" = Some (cfg_node_id s);
  co_timeout : cfg_heartbeat_timeout s = default DEFAULT_TIMEOUT (number_of "quorum.device.timeout");
  co_sync_timeout : cfg_sync_heartbeat_timeout s =
    default DEFAULT_SYNC_TIMEOUT (number_of "quorum.device.sync_timeout");
  co_net : ∃ nc,
    net_configured (mk_config 0 (cfg_node_id s) (cfg_heartbeat_timeout s) (cfg_sync_heartbeat_timeout s)) nc ∧
    cfg_tls_supported s = net_tls_supported nc ∧ cfg_decision_algorithm s = net_decision_algorithm nc ∧
    cfg_heartbeat_interval s = net_heartbeat_interval nc ∧
    cfg_cast_vote_timer_interval s = net_cast_vote_timer_interval nc ∧
    cfg_connect_timeout s = net_connect_timeout nc ∧ cfg_force_ip_version s = net_force_ip_version nc ∧
    cfg_cluster_name s = net_cluster_name nc ∧ cfg_tie_breaker s = net_tie_breaker nc ∧
    cfg_keep_active_partition_tie_breaker s = net_keep_active_partition_tb nc;
  co_heuristics :
    (heuristics_min_timeout s, heuristics_max_timeout s, heuristics_min_interval s,
     heuristics_max_interval s, heuristics_max_execs s) =
    (number QdeviceSettings.heuristics_min_timeout, number QdeviceSettings.heuristics_max_timeout,
     number QdeviceSettings.heuristics_min_interval, number QdeviceSettings.heuristics_max_interval,
     number QdeviceSettings.heuristics_max_execs);
  co_messages :
    (net_initial_msg_receive_size s, net_initial_msg_send_size s, net_min_msg_send_size s,
     net_max_msg_receive_size s, net_max_send_buffers s) =
    (number QdeviceSettings.net_initial_msg_receive_size, number QdeviceSettings.net_initial_msg_send_size,
     number QdeviceSettings.net_min_msg_send_size, number QdeviceSettings.net_max_msg_receive_size,
     number QdeviceSettings.net_max_send_buffers)
}.

Lemma settings_of_configured conf nc :
  conf_read conf → net_configured conf nc → configured (settings_of adv conf (Some nc)).
Proof.
  intros [] Hnc. split; try done. exists nc. split_and!; try done. by destruct Hnc; split.
Qed.

Lemma model_init_goes_along conf nss_ok (q : device) :
  cmap_answers → u32_config conf → before_model q →
  match model_net_init adv conf nss_ok q with
  | (Ok (Some settings), q') =>
      (∃ nc, settings = settings_of adv conf (Some nc) ∧ net_configured conf nc) ∧
      reachable settings beyond [] q' ∧ ok settings [] (view_of q')
  | (Ok None, _) => True
  | (Err c, _) => c = EXIT
  end.
Proof.
  intros Hca Hu Hb. unfold model_net_init. pose proof (runs_init_from_cmap conf _ q eq_refl) as Hc.
  pose proof (init_from_cmap_outcome conf q Hca Hu) as Ho.
  assert (Hm : fst (malloc_device q) = Ok None → qdevice_net_instance_init_from_cmap adv conf q =
    (Ok None, snd (malloc_device q))).
  { intros Hm. unfold qdevice_net_instance_init_from_cmap. destruct (malloc_device q) as [r q1] eqn:Em.
    cbn in Hm. subst r. by rewrite (bind_ok _ _ _ _ _ Em). }
  destruct (qdevice_net_instance_init_from_cmap adv conf q) as [[o|c] q1] eqn:Ec;
    [|by rewrite (bind_err _ _ _ _ _ Ec)].
  rewrite (bind_ok _ _ _ _ _ Ec). destruct o as [nc|]; [|done]. cbv zeta.
  assert (Hnc : net_configured conf nc) by (apply Ho; intros Hx; by specialize (Hm Hx)).
  set (settings := settings_of adv conf (Some nc)).
  assert (Hb1 : before_model q1).
  { destruct Hb. injection Hc. intros. split; congruence. }
  pose proof (runs_model_init settings nss_ok q1 Hb1 q1 eq_refl) as Hi.
  destruct (qdevice_model_net_init settings nss_ok q1) as [[r|c] q2] eqn:Em;
    [|by rewrite (bind_err _ _ _ _ _ Em)].
  rewrite (bind_ok _ _ _ _ _ Em). cbn. destruct (Z.eqb_spec r 0) as [->|]; [|done]. cbn.
  split_and!; [by exists nc|by eapply reachable_start|by apply Hi].
Qed.

Lemma conf_read_u32 conf : cmap_answers →
  0 ≤ DEFAULT_TIMEOUT < 2 ^ 32 → 0 ≤ DEFAULT_SYNC_TIMEOUT < 2 ^ 32 → conf_read conf → u32_config conf.
Proof.
  intros (Hr & _) H3 H4 [_ _ Eh Es]. unfold u32_config. rewrite Eh, Es.
  split; match goal with |- context [number_of ?k] =>
    destruct (number_of k) as [z|] eqn:Ez; [by apply (Hr k)|done] end.
Qed.

End start.

(** ** A start *)

Definition sim_strings : list (string * string) := [
  ("quorum.device.model", "net"); ("quorum.device.net.host", "qnetd"); ("quorum.device.net.tls", "required");
  ("quorum.device.net.tie_breaker", "2"); ("quorum.device.net.algorithm", "lms");
  ("totem.cluster_name", "c"); ("nodelist.node.0.ring0_addr", "n1")
]%string.

Definition sim_string (key : c_string) : option c_string :=
  str ∘ snd <$> head (filter (λ e, str (fst e) = key) sim_strings).

(** The simulated outside with a configuration. *)
#[local] Instance start_environment : Environment sim := {
  env_time := @env_time sim sim_environment;
  env_random := @env_random sim sim_environment;
  votequorum_qdevice_poll := @votequorum_qdevice_poll sim sim_environment;
  votequorum_getinfo := @votequorum_getinfo sim sim_environment;
  cmap_get_uint8 := @cmap_get_uint8 sim sim_environment;
  cmap_get_uint32 key e :=
    ((if bool_decide (key = str "runtime.votequorum.this_node_id") ||
         bool_decide (key = str "nodelist.node.0.nodeid") then CS_OK else CS_ERR_NOT_EXIST, 1), e);
  cmap_get_uint64 := @cmap_get_uint64 sim sim_environment;
  cmap_get_string key e := (sim_string key, e);
  cmap_keys prefix e := (Some [(str "nodelist.node.0.ring0_addr", true)], e);
  getaddrinfo_inet := @getaddrinfo_inet sim sim_environment;
  PR_GetAddrInfoByName := @PR_GetAddrInfoByName sim sim_environment;
  PR_OpenTCPSocket := @PR_OpenTCPSocket sim sim_environment;
  PR_SetSocketOption := @PR_SetSocketOption sim sim_environment;
  PR_Connect := @PR_Connect sim sim_environment;
  SSL_ImportFD := @SSL_ImportFD sim sim_environment;
  SSL_setup := @SSL_setup sim sim_environment;
  PR_Send := @PR_Send sim sim_environment;
  PR_Recv := @PR_Recv sim sim_environment;
  PR_GetError := @PR_GetError sim sim_environment;
  PR_WOULD_BLOCK_ERROR := @PR_WOULD_BLOCK_ERROR sim sim_environment;
  pipe_read := @pipe_read sim sim_environment;
  pipe_write := @pipe_write sim sim_environment;
  pipe_transient_error := @pipe_transient_error sim sim_environment
}.

#[local] Instance sim_start_calls : StartCalls sim := {
  sys_pipe e := (true, e);
  sys_fork e := (true, e);
  sys_set_non_blocking _ e := (true, e);
  cmap_initialize e := (CS_OK, e);
  cmap_context_set e := (CS_OK, e);
  cmap_track_add _ e := (CS_OK, e);
  votequorum_initialize e := (CS_OK, e);
  votequorum_qdevice_register _ e := (CS_OK, e);
  votequorum_context_set e := (CS_OK, e);
  votequorum_expected e := ((CS_OK, 3), e);
  votequorum_trackstart e := (CS_OK, e);
  votequorum_qdevice_master_wins _ _ e := (CS_OK, e);
  votequorum_dispatch e := ((CS_OK, [NOTIFY_EXPECTED_VOTES 3; NOTIFY_NODE_LIST (ring 4) [1; 2]]), e)
}.

Definition sim_advanced := AdvancedSettings.mk_advanced (QdeviceSettings.qdevice_default_number false)
  (λ _ : QdeviceSettings.qdevice_text, None)
  false 0 0 QdeviceSettings.QDEVICE_ADVANCED_SETTINGS_MASTER_WINS_MODEL.

Definition sim_started : res (option qdevice_settings) * sim_device :=
  qdevice_start sim_advanced 10000 30000 true true true true
    (qdevice_instance_init sim_advanced (timer_list_init 0) [] (mk_sim [] [])).

Example sim_started_settings :
  match sim_started with
  | (Ok (Some s), _) =>
      (cfg_heartbeat_interval s, cfg_cast_vote_timer_interval s, cfg_connect_timeout s) = (8000, 5000, 8000) ∧
      cfg_decision_algorithm s = TLV_DECISION_ALGORITHM_TYPE_LMS ∧ cfg_tie_breaker s = mk_tie_breaker 3 2 ∧
      cfg_tls_supported s = TLV_TLS_REQUIRED
  | _ => False
  end.
Proof. vm_compute. done. Qed.

Definition sim_started_ok : bool :=
  match fst sim_started with Ok (Some s) => 4 <=? cfg_heartbeat_timeout s | _ => false end.

Definition sim_text (key : string) : option c_string := sim_string (str key).
Definition sim_number (key : string) : option Z :=
  if bool_decide (str key = str "runtime.votequorum.this_node_id") ||
     bool_decide (str key = str "nodelist.node.0.nodeid") then Some 1 else None.

Lemma sim_cmap_answers : cmap_answers (E:=sim) sim_text sim_number.
Proof.
  split_and!.
  - intros key z. unfold sim_number. destruct (_ || _); [|done]. by intros [= <-].
  - done.
  - intros key e. unfold sim_number. cbn. by destruct (_ || _).
Qed.

